(* ===== verification/_CoqProject ===== *)
-Q . S2P
Prelude.v
Words.v
Floats.v
AlexBase.v
AlexBitmap.v
AlexSearch.v
AlexNode.v
AlexLookup.v
AlexInsert.v
AlexPlace.v
AlexResize.v
AlexUpdate.v
AlexErase.v
AlexDataNode.v
AlexCost.v
AlexCheck.v
FloatScale.v
FloatMono.v
AlexSampling.v
AlexModel.v
AlexFanout.v
AlexFanoutBulk.v
AlexTree.v
AlexBuild.v
AlexSplit.v
AlexGrow.v
AlexRoute.v
AlexTreeMap.v
AlexChange.v
AlexMerge.v
AlexTreeIter.v
AlexTreeOps.v
AlexTreeCheck.v
Numerals.v
Utils.v
Workload.v
Load.v
Index.v
AlexIndex.v
Run.v
Benchmark.v
BTreeLock.v
BTreeNode.v
BTreeOLC.v
BTreeInv.v
BTreeInsert.v
BTreeIndex.v
StxNode.v
StxTree.v
StxInv.v
StxInsert.v
StxSearch.v
StxBulk.v
StxErase.v
StxRemove.v
StxIndex.v
StxCheck.v
Flags.v
PlaModel.v
PlaSegment.v
PlaParallel.v
PgmIndex.v
PgmStatic.v
LoserTree.v
PgmDynamic.v
PgmInv.v
PgmInsert.v
PgmSearch.v
PgmIterator.v
PgmLaws.v
ArtNode.v
ArtLayout.v
ArtAdd.v
ArtRemove.v
ArtTree.v
ArtInv.v
ArtInsert.v
ArtIter.v
ArtMap.v
ArtIndex.v
