(* ===== verification/Prelude.v ===== *)
(** * GRE learned-index benchmark: verification library

    The repository benchmarks updatable indexes.  A driver loads a file of keys,
    generates a mix of operations, runs them on an index from several threads and
    gathers statistics; the indexes sit behind one interface.  This library models the
    driver, the interface, and the indexes ALEX, PGM, BTreeOLC, ART and stx B+ tree, from
    the C++ under src/, and proves what makes them correct.  All paths below are relative to
    src/src/.

    ** Conventions

    A routine that touches memory returns an [option]: [None] is undefined behaviour of
    the C++ program, or fuel that ran out, so a theorem [f x = Some v] states memory
    safety and termination together with the result.  Integers are [Z] with the wrap of
    their width written out where the code can reach it ([Words.v], [int_max]); doubles,
    floats and long doubles are the software floats of the Standard Library
    ([Floats.v]), so rounding is the rounding of IEEE 754.  Loops are [loop] with fuel and
    [for_up], and their rules are in this file.  Node pointers are integers of a heap.
    Randomness, time and the interleaving of threads are inputs.

    ** The driver (benchmark/)

    - Utils.v, Numerals.v: utils.h and zipf.h.  Sorting and merging of key arrays,
      uniform and Zipf samplers, numerals of text files.
    - Load.v: [load_keys].  The table of distinct keys (or, with [data_shift], of the keys
      as they are) and the initial part of it.
    - Workload.v: [generate_operations].  Operations as the driver draws them.
    - Index.v: competitor/indexInterface.h as the class [Index]; what the driver relies on,
      over an abstract finite map: [LawfulStore] for everything but scans, [LawfulIndex]
      for scans that are safe, change nothing and return stored entries in order.
    - Run.v: [run] as a step relation over any interleaving of the worker threads, each
      index call being one step, with warm-up, latency sampling, gathering.
    - Benchmark.v: [run_benchmark] end to end, over any lawful index.
    - Flags.v: flags.h and [parse_args]; an outcome is a result, a refusal or undefined.

    Theorems: the arrays and samplers stay in bounds; [unique_data] removes exactly the
    keys it should, except that it loses one key when the first range lies entirely below
    the second; [load_keys] needs ten keys; the generated operations are the ones
    promised; every schedule of the parallel loop ends and gathers the same counters; in
    a run that ends the reported numbers are those of the abstract map
    ([benchmark_results]); flags round-trip, and [parse_args] is undefined, refuses or
    accepts in exactly the stated cases.

    ** ALEX (competitor/alex/)

    - AlexBase.v, FloatScale.v: alex_base.h.  Linear models and their training, bit
      tricks, accumulators; scaling a double by a power of two.
    - AlexBitmap.v, AlexSearch.v, AlexNode.v, AlexLookup.v, AlexInsert.v, AlexPlace.v,
      AlexResize.v, AlexUpdate.v, AlexErase.v: the data node of alex_nodes.h, a gapped
      array with an occupancy bitmap.  [slots_ok] is its invariant, [contents] its pairs.
    - AlexDataNode.v: the data node refines a finite map along any operations.
    - AlexCost.v, AlexCheck.v, AlexSampling.v: cost estimates, self-checks, training on
      samples.
    - AlexModel.v: the model node of alex_nodes.h, in a heap of nodes.
    - AlexFanout.v, AlexFanoutBulk.v: alex_fanout_tree.h.
    - AlexTree.v, AlexBuild.v, AlexSplit.v, AlexGrow.v: alex.h, definitions.  The store of
      nodes with its links and counters, [get_leaf], iterators and lookups; bulk loading;
      splits; insertion, removal with merging, expansion of the root.
    - FloatMono.v: rounding is monotone, so models keep the order of keys.
    - AlexRoute.v, AlexTreeMap.v, AlexTreeIter.v: the invariant [tree_ok] of a tree whose
      models put every key in its leaf, its pairs and its map; lookups, iteration, bounds.
    - AlexChange.v, AlexMerge.v: changes of one model node and what is below it; merging an
      emptied leaf with its siblings, and a parent with its only child.
    - AlexTreeOps.v: sequences of lookups, removals and insertions.
    - AlexTreeCheck.v, AlexIndex.v: deciding [tree_ok]; the adapter alex.h and a tree the
      code builds, at which the theorems are evaluated.

    Theorems: every operation of a data node is safe, ends, keeps the invariant and acts
    as on a map, whatever the models predict; the estimator costs the node that would be
    built; expanding a model node keeps the child of every key; the fanout search ends
    and divides the key array into consecutive ranges.  The tree finds the leaves of keys
    in order in spite of rounding and answers as a map, through the merging of emptied
    leaves; a scan returns the next pairs across leaves, exactly when its first search
    stays in the bitmap of a leaf.  These hold for keys on which the predictions fit an
    [int] ([tree_ok]).  Where the code fails (a key equal to the sentinel, a read after
    the bitmap), a theorem says so.

    ** PGM (competitor/pgm/)

    - PlaModel.v, PlaSegment.v, PlaParallel.v: src/piecewise_linear_model.hpp and
      benchmark/pgm_metric.h.  The streaming convex-hull segmentation.
    - PgmIndex.v, PgmStatic.v: src/pgm_index.hpp.
    - LoserTree.v: the tournament tree of src/pgm_index_dynamic.hpp.
    - PgmDynamic.v, PgmInv.v, PgmInsert.v, PgmSearch.v, PgmIterator.v, PgmLaws.v:
      the dynamic container and the adapter pgm.h; [pgm_store] makes it a [LawfulStore]
      (no [LawfulIndex]: a scan from the greatest key is undefined).

    Theorems: a point is accepted exactly when a line through the error bars exists, and
    the number of segments is least for such lines.  An error bar is the rank plus and
    minus epsilon, cut off at 0 as the code does, so a line that is within epsilon of every
    rank but goes below 0 does not count ([clipped_metric]); the products of the code are
    in [__int128] and do not overflow for ranks up to 2^62 - epsilon.  A search of the
    static index stays in bounds, unless the position that a segment predicts does not
    fit in [int64_t]; the tournament tree yields the least head; the container acts as its
    specification (a map plus the keys its buffer protects), and its scans return exactly
    the entries asked for, except the undefined one.

    ** BTreeOLC (competitor/btreeolc/)

    - BTreeLock.v: the version lock under any interleaving of its atomic operations.
    - BTreeNode.v, BTreeOLC.v, BTreeInv.v, BTreeInsert.v: nodes and the tree of
      src/BTreeOLC_child_layout.h, with locks and restarts, run one operation at a time.
    - BTreeIndex.v: the adapter, the refinement of a map, the lost successors of scans.

    Theorems: the lock is exclusive and its snapshots are consistent under any
    interleaving; insertions and lookups act as on a map; a scan returns a first part of
    the entries asked for, and the split of a leaf cuts it off from its successors.

    ** stx B+ tree (competitor/btree/)

    - StxNode.v: leaf and inner nodes of src/include/stx/btree.h, their arrays with the
      cells not yet written, and what every operation on slots does.
    - StxTree.v: the heap of nodes, iterators, searches, insertion, clearing.
    - StxInv.v: the invariant.  [stx_rep] says that the heap holds a tree of pairs, [exact]
      that every key of an inner node is the greatest below the child it follows,
      [stx_wf] that nodes are at least half full, [linked] that the leaves are chained
      in both directions; [stx_holds s es] that the tree stores exactly the pairs [es].
    - StxInsert.v, StxSearch.v, StxBulk.v: insertion with all splits, searches and
      iteration, bulk loading.
    - StxErase.v, StxRemove.v: removal by key and by iterator; merging and balancing of
      neighbours, emptied nodes, shrinking of the root.
    - StxCheck.v: the authors' checker [verify].
    - StxIndex.v: the adapter btree.h, [stx_store] and [stx_lawful], the refinement of a map.

    Theorems: insertions, removals, lookups, counts, range scans and clearing act as on a
    finite map, through every split, merge and shift; the checker passes after any sequence
    of calls while there are fewer than 2^32 pairs; bulk loading stores exactly the pairs
    in the fewest leaves; the height is logarithmic; the scan of the adapter returns one more than the pairs it reads.

    ** ART (competitor/art/)

    - ArtNode.v: the nodes of src/src/art.c in their four layouts, with the vector
      comparisons; searching, adding and removing a child.
    - ArtLayout.v, ArtAdd.v, ArtRemove.v: each layout as a map from bytes to children
      ([layout], [child_at]); growing, shrinking, joining compressed paths.
    - ArtTree.v: the operations of the tree.  A node is a value, and a write through
      [*ref] is the node an operation returns.
    - ArtInv.v, ArtInsert.v, ArtIter.v: the invariant [art_ok]
      (paths, prefixes of which ten bytes are stored, enough children) and what each
      operation does to [holds].
    - ArtMap.v, ArtIndex.v: the refinement of a finite map; the adapter and
      [art_lawful].

    Theorems: over keys of one length every sequence of operations is safe and acts as on
    a map; iteration visits every key once.  Examples show the order of signed bytes in a
    node of sixteen, the read past a prefix, and the payload 0 that reads as missing.

    ** Bounds and fuel

    Every fuel is a bound computed from the state (array length, capacity, tree height),
    and the theorems prove it enough.  The model of the PLA is proved for ranks up to
    2^62 - epsilon, beyond which its [__int128] products can overflow
    ([add_point_overflows]).  Data nodes are proved up to 2^29 keys, so that no
    [int] overflows; the fanout search up to a fanout of 2^29; the PGM container up to
    2^17 keys, below which no level has a static index; the driver for keys and payloads
    below 2^64 - 1, the value PGM and ALEX reserve; the lengths of ART keys fit an [int], so
    [partial_len] does not wrap.

    ** Hypotheses

    [std::log2], [std::pow], the shuffle, the sort with several threads, [std::stod], the
    number of hardware threads and the draws of random generators are parameters;
    where a theorem needs more than that they are functions (a shuffle permutes), the
    hypothesis says so and a witness instantiates it.

    ** Not modelled, and why

    print_stat and the text of messages (output only); tscns.h except its conversion
    (hardware clock); find_best_fanout_top_down (marked experimental); the compressed and
    multidimensional PGM variants with their vendored sdsl; the freeing of ART nodes
    (their lifetime is not modelled); dump and restore, copying, comparison and reverse
    iterators of stx::btree; ARTOLC, HOT, Masstree, XIndex, LIPP, Wormhole, the lock-based
    ALEX and the epoch reclaimer (projects of their own, vendored or absent submodules).
    Of alex.h the parts its default parameters disable (splitting upwards, other fanout policies) and
    copying are left out; that bulk loading, splits and the expansion of the root keep the
    pairs is executed on examples and not yet proved. *)

From Stdlib Require Import Sorted.
From stdpp Require Export base tactics numbers list option.
From Stdlib Require Export ZArith Lia.

Local Open Scope Z_scope.

(** ** Undefined behaviour and results

    Every translated routine that touches memory lives in the option monad:
    [None] is undefined behaviour of the C++ program (an access outside an
    array, a shift out of range) or a loop that ran out of fuel; [Some v] is a
    run that returns [v].  A theorem [f x = Some v] is therefore at once memory
    safety, termination and functional correctness. *)

Declare Scope cxx_scope.
Delimit Scope cxx_scope with cxx.

(** Length of an array as a C++ [int]/[size_t] value. *)
Definition zlen {A} (l : list A) : Z := Z.of_nat (length l).

(** [a[i]] as an rvalue. *)
Definition rd {A} (l : list A) (i : Z) : option A :=
  if 0 <=? i then l !! Z.to_nat i else None.

(** [a[i] = v]. *)
Definition wr {A} (l : list A) (i : Z) (v : A) : option (list A) :=
  if (0 <=? i) && (i <? zlen l) then Some (<[Z.to_nat i := v]> l) else None.

Notation "a .[ i ]" := (rd a i) (at level 1, left associativity, format "a .[ i ]") : cxx_scope.

(** The value of a slot as a total function, for specifications. *)
Definition at_ {A} (d : A) (l : list A) (i : Z) : A := default d (rd l i).

(** ** Loops

    [loop fuel body s] runs [body] from state [s] until it yields [inr r].
    [for_up lo hi body s] is [for (i = lo; i < hi; i++)]; [for_down hi lo body s]
    is [for (i = hi; i >= lo; i--)]. *)
Fixpoint loop {S R} (fuel : nat) (body : S -> option (S + R)) (s : S) : option R :=
  match fuel with
  | O => None
  | Datatypes.S fuel' =>
      match body s with
      | None => None
      | Some (inl s') => loop fuel' body s'
      | Some (inr r) => Some r
      end
  end.

Fixpoint for_n {S} (n : nat) (i : Z) (step : Z) (body : Z -> S -> option S) (s : S) : option S :=
  match n with
  | O => Some s
  | Datatypes.S n' => s' ← body i s; for_n n' (i + step) step body s'
  end.

Definition for_up {S} (lo hi : Z) (body : Z -> S -> option S) (s : S) : option S :=
  for_n (Z.to_nat (hi - lo)) lo 1 body s.

Definition for_down {S} (hi lo : Z) (body : Z -> S -> option S) (s : S) : option S :=
  for_n (Z.to_nat (hi - lo + 1)) hi (-1) body s.

(** ** Automation *)

Create HintDb cxx.
Create Rewrite HintDb cxx.

(** Turn the boolean tests of the code into propositions. *)
Ltac btest :=
  repeat match goal with
  | H : (_ && _)%bool = true |- _ => apply andb_prop in H; destruct H
  | H : (_ || _)%bool = false |- _ => apply orb_false_elim in H; destruct H
  | H : negb _ = true |- _ => apply negb_true_iff in H
  | H : negb _ = false |- _ => apply negb_false_iff in H
  | H : (_ <? _) = true |- _ => apply Z.ltb_lt in H
  | H : (_ <? _) = false |- _ => apply Z.ltb_ge in H
  | H : (_ <=? _) = true |- _ => apply Z.leb_le in H
  | H : (_ <=? _) = false |- _ => apply Z.leb_gt in H
  | H : (_ =? _) = true |- _ => apply Z.eqb_eq in H
  | H : (_ =? _) = false |- _ => apply Z.eqb_neq in H
  end.

(** Case on an integer test of the goal and keep it as a proposition. *)
Ltac btest_case :=
  match goal with
  | |- context [?a <? ?b] => destruct (Z.ltb_spec a b)
  | |- context [?a <=? ?b] => destruct (Z.leb_spec a b)
  | |- context [?a =? ?b] => destruct (Z.eqb_spec a b)
  end.

(** Peel the option monad in a hypothesis. *)
Ltac inv_bind H :=
  let x := fresh "x" in let E := fresh "E" in
  apply bind_Some in H; destruct H as (x & E & H).

(** ** Arrays *)

Section Arrays.
Context {A : Type}.
Implicit Types (l : list A) (v : A) (i j : Z).

Lemma zlen_nonneg l : 0 <= zlen l.
Proof. unfold zlen. lia. Qed.

Lemma rd_in l i : 0 <= i < zlen l -> exists v, rd l i = Some v.
Proof.
  unfold rd, zlen. intros [H0 H1].
  destruct (Z.leb_spec 0 i); [|lia].
  apply lookup_lt_is_Some. lia.
Qed.

Lemma rd_Some l i v : rd l i = Some v -> 0 <= i < zlen l.
Proof.
  unfold rd, zlen. destruct (Z.leb_spec 0 i); [|done].
  intros H1%lookup_lt_Some. lia.
Qed.

Lemma rd_app l1 l2 i :
  0 <= i -> rd (l1 ++ l2) i = if i <? zlen l1 then rd l1 i else rd l2 (i - zlen l1).
Proof.
  intros Hi. unfold rd, zlen. destruct (Z.leb_spec 0 i); [|lia].
  destruct (Z.ltb_spec i (Z.of_nat (length l1))).
  - apply lookup_app_l. lia.
  - destruct (Z.leb_spec 0 (i - Z.of_nat (length l1))); [|lia].
    rewrite lookup_app_r by lia. f_equal. lia.
Qed.

Lemma rd_app_lt l1 l2 i : i < zlen l1 -> rd (l1 ++ l2) i = rd l1 i.
Proof.
  intros Hi. destruct (Z.le_gt_cases 0 i); [rewrite rd_app by done; by destruct (Z.ltb_spec i (zlen l1)); [|lia]|].
  unfold rd. by destruct (Z.leb_spec 0 i); [lia|].
Qed.

Lemma rd_app_ge l1 l2 i : zlen l1 <= i -> rd (l1 ++ l2) i = rd l2 (i - zlen l1).
Proof. intros Hi. pose proof (zlen_nonneg l1). rewrite rd_app by lia. by destruct (Z.ltb_spec i (zlen l1)); [lia|]. Qed.

Lemma rd_elem l v : v ∈ l <-> exists i, rd l i = Some v.
Proof.
  split.
  - intros (n & Hn)%list_elem_of_lookup_1. exists (Z.of_nat n). unfold rd.
    destruct (Z.leb_spec 0 (Z.of_nat n)); [|lia]. by rewrite Nat2Z.id.
  - intros (i & Hi). unfold rd in Hi. destruct (0 <=? i); [|done]. by eapply list_elem_of_lookup_2.
Qed.

Lemma rd_None l i : ~ (0 <= i < zlen l) -> rd l i = None.
Proof.
  intros Hn. destruct (rd l i) eqn:E; [|done].
  apply rd_Some in E. lia.
Qed.

Lemma rd_at d l i : 0 <= i < zlen l -> rd l i = Some (at_ d l i).
Proof. intros [v Hv]%rd_in. unfold at_. by rewrite Hv. Qed.

Lemma at_rd d l i v : rd l i = Some v -> at_ d l i = v.
Proof. unfold at_. by intros ->. Qed.

Lemma wr_in l i v : 0 <= i < zlen l -> exists l', wr l i v = Some l'.
Proof.
  intros [??]. unfold wr.
  destruct (Z.leb_spec 0 i); [|lia]. destruct (Z.ltb_spec i (zlen l)); [|lia]. eauto.
Qed.

Lemma wr_Some l i v l' :
  wr l i v = Some l' -> 0 <= i < zlen l /\ l' = <[Z.to_nat i := v]> l.
Proof. unfold wr. destruct (_ && _) eqn:E; [|done]. btest. by intros [= <-]. Qed.

Lemma zlen_wr l i v l' : wr l i v = Some l' -> zlen l' = zlen l.
Proof. intros [_ ->]%wr_Some. unfold zlen. by rewrite length_insert. Qed.

Lemma rd_wr l i v l' j :
  wr l i v = Some l' -> rd l' j = if j =? i then Some v else rd l j.
Proof.
  intros [Hi ->]%wr_Some. unfold rd. unfold zlen in Hi.
  destruct (Z.leb_spec 0 j); btest_case; subst; try lia; try done.
  - rewrite list_lookup_insert_eq; [done|lia].
  - rewrite list_lookup_insert_ne; [done|lia].
Qed.

Lemma at_wr d l i v l' j :
  wr l i v = Some l' -> at_ d l' j = if j =? i then v else at_ d l j.
Proof. intros H. unfold at_. rewrite (rd_wr _ _ _ _ _ H). by btest_case. Qed.

Lemma list_eq_rd l1 l2 :
  zlen l1 = zlen l2 -> (forall i, 0 <= i < zlen l1 -> rd l1 i = rd l2 i) -> l1 = l2.
Proof.
  intros Hl H. apply list_eq. intros n.
  destruct (decide (n < length l1)%nat) as [Hn|Hn].
  - specialize (H (Z.of_nat n)). unfold rd, zlen in *.
    destruct (Z.leb_spec 0 (Z.of_nat n)); [|lia].
    rewrite Nat2Z.id in H. apply H. lia.
  - unfold zlen in Hl. rewrite !lookup_ge_None_2 by lia. done.
Qed.

Lemma zlen_app l1 l2 : zlen (l1 ++ l2) = zlen l1 + zlen l2.
Proof. unfold zlen. rewrite length_app. lia. Qed.

Lemma zlen_replicate n v : zlen (replicate n v) = Z.of_nat n.
Proof. unfold zlen. by rewrite length_replicate. Qed.

Lemma rd_replicate n v i : 0 <= i < Z.of_nat n -> rd (replicate n v) i = Some v.
Proof.
  intros [??]. unfold rd. destruct (Z.leb_spec 0 i); [|lia].
  apply lookup_replicate. split; [done|lia].
Qed.
End Arrays.

#[export] Hint Resolve zlen_nonneg : cxx.
#[export] Hint Rewrite @zlen_app @zlen_replicate : cxx.

(** A sorted list without duplicates is strictly sorted. *)
Lemma strictly_sorted l : StronglySorted Z.le l -> NoDup l -> StronglySorted Z.lt l.
Proof.
  induction 1 as [|x l Hs IH Hall]; intros Hnd; [constructor|].
  inversion Hnd as [|? ? Hx Hnd']; subst. constructor; [by apply IH|].
  rewrite List.Forall_forall in *. intros y Hy. specialize (Hall y Hy).
  destruct (Z.eq_dec x y) as [->|]; [|lia]. destruct Hx. by apply list_elem_of_In.
Qed.

Lemma sorted_app_inv (a b : list Z) : StronglySorted Z.lt (a ++ b) ->
  StronglySorted Z.lt a /\ StronglySorted Z.lt b /\ (forall x y, x ∈ a -> y ∈ b -> x < y).
Proof.
  induction a as [|z a IH]; simpl; intros Hs; [split; [constructor|split; [done|intros x y Hx; by apply elem_of_nil in Hx]]|].
  apply StronglySorted_inv in Hs as [Hs Hall]. destruct (IH Hs) as (H1 & H2 & H3). rewrite List.Forall_forall in Hall.
  split; [|split; [done|]].
  - constructor; [done|]. apply List.Forall_forall. intros y Hy. apply Hall, List.in_or_app. by left.
  - intros x y [->|Hx]%elem_of_cons Hy; [|by apply H3]. apply Hall, List.in_or_app. right. by apply list_elem_of_In.
Qed.

Lemma sorted_app (a b : list Z) : StronglySorted Z.lt a -> StronglySorted Z.lt b -> (forall x y, x ∈ a -> y ∈ b -> x < y) ->
  StronglySorted Z.lt (a ++ b).
Proof.
  intros Ha Hb. induction Ha as [|z a Ha IH Hall]; intros Hab; [done|]. simpl. rewrite List.Forall_forall in Hall. constructor.
  - apply IH. intros x y Hx. apply Hab. by constructor.
  - apply List.Forall_forall. intros y [Hy|Hy]%List.in_app_or; [by apply Hall|].
    apply Hab; [constructor|by apply list_elem_of_In].
Qed.

(** Inserting between the keys below and those above. *)
Lemma sorted_insert (a b : list Z) k : StronglySorted Z.lt (a ++ b) -> Forall (fun x => x < k) a -> Forall (fun x => k < x) b ->
  StronglySorted Z.lt (a ++ k :: b).
Proof.
  intros (Ha & Hb & Hab)%sorted_app_inv Hl Hg. rewrite List.Forall_forall in Hl, Hg. apply sorted_app; [done| |].
  - constructor; [done|]. by apply List.Forall_forall.
  - intros x y Hx [->|Hy]%elem_of_cons; [by apply Hl, list_elem_of_In|by apply Hab].
Qed.

(** ** Rules for loops *)

(** Total correctness of [loop]: an invariant and a decreasing measure. *)
Lemma loop_spec {S R} (I : S -> Prop) (Q : R -> Prop) (m : S -> Z)
    (body : S -> option (S + R)) :
  (forall s, I s ->
     match body s with
     | Some (inl s') => I s' /\ 0 <= m s' < m s
     | Some (inr r) => Q r
     | None => False
     end) ->
  forall fuel s, I s -> m s < Z.of_nat fuel -> 0 <= m s ->
  exists r, loop fuel body s = Some r /\ Q r.
Proof.
  intros Hbody fuel. induction fuel as [|fuel IH]; intros s Hs Hm H0; [lia|].
  simpl. specialize (Hbody s Hs). destruct (body s) as [[s'|r]|]; [|eauto|done].
  destruct Hbody as [Hs' ?]. apply IH; [done|lia|lia].
Qed.

(** More fuel does not change a result. *)
Lemma loop_mono {S R} (body : S -> option (S + R)) f1 f2 s r :
  (f1 <= f2)%nat -> loop f1 body s = Some r -> loop f2 body s = Some r.
Proof.
  revert f2 s. induction f1 as [|f1 IH]; intros f2 s Hle H; [done|].
  destruct f2 as [|f2]; [lia|]. simpl in *.
  destruct (body s) as [[s'|r']|]; [|done|done]. apply IH; [lia|done].
Qed.

Lemma for_n_spec {S} (I : Z -> S -> Prop) step (body : Z -> S -> option S) n i s :
  I i s ->
  (forall k s, (k < n)%nat -> I (i + Z.of_nat k * step) s ->
     exists s', body (i + Z.of_nat k * step) s = Some s' /\
                I (i + Z.of_nat (Datatypes.S k) * step) s') ->
  exists s', for_n n i step body s = Some s' /\ I (i + Z.of_nat n * step) s'.
Proof.
  revert i s. induction n as [|n IH]; intros i s Hs Hb; simpl.
  - exists s. split; [done|]. by replace (i + Z.of_nat 0 * step) with i by lia.
  - destruct (Hb 0%nat s) as (s' & E & Hs'); [lia|by replace (i + Z.of_nat 0 * step) with i by lia|].
    replace (i + Z.of_nat 0 * step) with i in E by lia. rewrite E. simpl.
    destruct (IH (i + step) s') as (s'' & E' & Hs'').
    + by replace (i + step) with (i + Z.of_nat 1 * step) by lia.
    + intros k t Hk Ht. destruct (Hb (Datatypes.S k) t) as (t' & Et & Ht'); [lia| |].
      * by replace (i + Z.of_nat (Datatypes.S k) * step) with (i + step + Z.of_nat k * step) by lia.
      * exists t'. split; [by replace (i + step + Z.of_nat k * step) with (i + Z.of_nat (Datatypes.S k) * step) by lia|].
        by replace (i + step + Z.of_nat (Datatypes.S k) * step) with (i + Z.of_nat (Datatypes.S (Datatypes.S k)) * step) by lia.
    + exists s''. split; [done|].
      by replace (i + Z.of_nat (Datatypes.S n) * step) with (i + step + Z.of_nat n * step) by lia.
Qed.

(** [for (i = lo; i < hi; i++)] keeps an invariant indexed by [i]. *)
Lemma for_up_spec {S} (I : Z -> S -> Prop) (body : Z -> S -> option S) lo hi s :
  lo <= hi -> I lo s ->
  (forall i s, lo <= i < hi -> I i s -> exists s', body i s = Some s' /\ I (i + 1) s') ->
  exists s', for_up lo hi body s = Some s' /\ I hi s'.
Proof.
  intros Hle Hs Hb. unfold for_up.
  destruct (for_n_spec I 1 body (Z.to_nat (hi - lo)) lo s) as (s' & E & H); [done| |].
  - intros k t Hk Ht. destruct (Hb (lo + Z.of_nat k * 1) t) as (t' & Et & Ht'); [lia|done|].
    exists t'. split; [done|]. by replace (lo + Z.of_nat (Datatypes.S k) * 1) with (lo + Z.of_nat k * 1 + 1) by lia.
  - exists s'. split; [done|]. by replace hi with (lo + Z.of_nat (Z.to_nat (hi - lo)) * 1) by lia.
Qed.

Lemma for_up_empty {S} (body : Z -> S -> option S) lo hi s :
  hi <= lo -> for_up lo hi body s = Some s.
Proof. intros H. unfold for_up. by replace (Z.to_nat (hi - lo)) with 0%nat by lia. Qed.

(** [for (i = hi; i >= lo; i--)] likewise; [I i] holds before the iteration at [i]. *)
Lemma for_down_spec {S} (I : Z -> S -> Prop) (body : Z -> S -> option S) hi lo s :
  lo <= hi + 1 -> I hi s ->
  (forall i s, lo <= i <= hi -> I i s -> exists s', body i s = Some s' /\ I (i - 1) s') ->
  exists s', for_down hi lo body s = Some s' /\ I (lo - 1) s'.
Proof.
  intros Hle Hs Hb. unfold for_down.
  destruct (for_n_spec I (-1) body (Z.to_nat (hi - lo + 1)) hi s) as (s' & E & H); [done| |].
  - intros k t Hk Ht. destruct (Hb (hi + Z.of_nat k * -1) t) as (t' & Et & Ht'); [lia|done|].
    exists t'. split; [done|]. by replace (hi + Z.of_nat (Datatypes.S k) * -1) with (hi + Z.of_nat k * -1 - 1) by lia.
  - exists s'. split; [done|]. by replace (lo - 1) with (hi + Z.of_nat (Z.to_nat (hi - lo + 1)) * -1) by lia.
Qed.

(** ** Copying

    [memmove(a + dst, a + src, n)] and [memcpy(a + dst, b + src, n)], in elements. *)
Definition memcpy {A} (a : list A) (dst : Z) (b : list A) (src n : Z) : option (list A) :=
  if (0 <=? dst) && (0 <=? src) && (0 <=? n) && (dst + n <=? zlen a) && (src + n <=? zlen b) then
    Some (take (Z.to_nat dst) a ++ take (Z.to_nat n) (drop (Z.to_nat src) b) ++ drop (Z.to_nat (dst + n)) a)
  else None.

Definition memmove {A} (a : list A) (dst src n : Z) : option (list A) := memcpy a dst a src n.

Lemma zlen_take {A} (l : list A) n : 0 <= n <= zlen l -> zlen (take (Z.to_nat n) l) = n.
Proof. intros Hn. unfold zlen in *. rewrite length_take. lia. Qed.

Lemma memcpy_spec {A} (a : list A) dst (b : list A) src n : 0 <= dst -> 0 <= src -> 0 <= n -> dst + n <= zlen a -> src + n <= zlen b ->
  exists a', memcpy a dst b src n = Some a' /\ zlen a' = zlen a /\
    forall i, rd a' i = if (dst <=? i) && (i <? dst + n) then rd b (src + (i - dst)) else rd a i.
Proof.
  intros Hd Hs Hn Ha Hb. unfold memcpy. eexists. split; [by repeat (btest_case; [|lia])|].
  assert (Hz1 : zlen (take (Z.to_nat dst) a) = dst) by (apply zlen_take; lia).
  assert (Hz2 : zlen (take (Z.to_nat n) (drop (Z.to_nat src) b)) = n) by (apply zlen_take; unfold zlen in *; rewrite length_drop; lia).
  split; [rewrite !zlen_app, Hz1, Hz2; unfold zlen in *; rewrite length_drop; lia|]. intros i.
  assert (Htake : forall (l : list A) m j, 0 <= j < m -> rd (take (Z.to_nat m) l) j = rd l j).
  { intros l m j Hj. unfold rd. destruct (Z.leb_spec 0 j); [|done]. apply lookup_take_lt. lia. }
  assert (Hdrop : forall (l : list A) m j, 0 <= m -> 0 <= j -> rd (drop (Z.to_nat m) l) j = rd l (m + j)).
  { intros l m j Hm Hj. unfold rd. destruct (Z.leb_spec 0 j), (Z.leb_spec 0 (m + j)); try lia. rewrite lookup_drop. f_equal. lia. }
  destruct (Z.leb_spec dst i) as [Hge|Hlt]; cbn [andb].
  - rewrite rd_app_ge by lia. rewrite Hz1. destruct (Z.ltb_spec i (dst + n)).
    + rewrite rd_app_lt by lia. rewrite Htake by lia. apply Hdrop; lia.
    + rewrite rd_app_ge by lia. rewrite Hz2, Hdrop by lia. f_equal. lia.
  - destruct (Z.le_gt_cases 0 i); [|by rewrite !rd_None by lia]. rewrite rd_app_lt by lia. apply Htake. lia.
Qed.

Lemma memmove_spec {A} (a : list A) dst src n : 0 <= dst -> 0 <= src -> 0 <= n -> dst + n <= zlen a -> src + n <= zlen a ->
  exists a', memmove a dst src n = Some a' /\ zlen a' = zlen a /\
    forall i, rd a' i = if (dst <=? i) && (i <? dst + n) then rd a (src + (i - dst)) else rd a i.
Proof. intros. by apply memcpy_spec. Qed.

Lemma zlen_fmap {A B} (f : A -> B) l : zlen (f <$> l) = zlen l.
Proof. unfold zlen. by rewrite length_fmap. Qed.

Lemma zlen_cons {A} (x : A) l : zlen (x :: l) = 1 + zlen l.
Proof. unfold zlen. simpl. lia. Qed.

(** ** Filters that keep everything or nothing *)

Lemma filter_every {A} (Q : A -> Prop) `{!forall x, Decision (Q x)} (l : list A) :
  (forall x, x ∈ l -> Q x) -> filter Q l = l.
Proof.
  induction l as [|x l IH]; intros Hq; [done|]. rewrite filter_cons_True by (apply Hq; constructor).
  f_equal. apply IH. intros y Hy. apply Hq. by constructor.
Qed.

Lemma filter_nothing {A} (Q : A -> Prop) `{!forall x, Decision (Q x)} (l : list A) :
  (forall x, x ∈ l -> ~ Q x) -> filter Q l = [].
Proof.
  induction l as [|x l IH]; intros Hq; [done|]. rewrite filter_cons_False by (apply Hq; constructor).
  apply IH. intros y Hy. apply Hq. by constructor.
Qed.

(** ** Filling a range of an array: [for (j = lo; j < hi; j++) a[j] = v] *)
Definition fill {A} (lo hi : Z) (v : A) (l : list A) : option (list A) :=
  for_up lo hi (fun j l => wr l j v) l.

Lemma fill_spec {A} (d : A) lo hi v (l : list A) :
  0 <= lo -> hi <= zlen l ->
  exists l', fill lo hi v l = Some l' /\ zlen l' = zlen l /\
    forall i, at_ d l' i = if (lo <=? i) && (i <? hi) then v else at_ d l i.
Proof.
  intros Hlo Hhi. destruct (Z.le_gt_cases hi lo) as [Hle|Hlt].
  - exists l. unfold fill. rewrite for_up_empty by lia. repeat split; [done..|].
    intros i. repeat btest_case; simpl; try done; lia.
  - destruct (for_up_spec (fun k l' => zlen l' = zlen l /\
      forall i, at_ d l' i = if (lo <=? i) && (i <? k) then v else at_ d l i)
      (fun j l => wr l j v) lo hi l) as (l' & E & Hl & Hv); [lia| | |eauto].
    + split; [done|]. intros i. repeat btest_case; simpl; try done; lia.
    + intros i l1 Hi [Hl1 Hv1]. destruct (wr_in l1 i v) as [l2 E2]; [lia|].
      exists l2. split; [done|]. split; [by rewrite (zlen_wr _ _ _ _ E2)|].
      intros j. rewrite (at_wr d _ _ _ _ j E2), Hv1.
      repeat btest_case; simpl; try done; lia.
Qed.
