(* ===== verification/Words.v ===== *)
(** * 64-bit words

    The [uint64_t] arithmetic and the bit-counting intrinsics
    ([_mm_popcnt_u64], [_tzcnt_u64], [_lzcnt_u64]) that the bitmap code of the
    ALEX data node is written with.  A word is a [Z] in [0, 2^64); wrap-around
    is written out.  [cnt f lo hi] counts the positions of [lo, hi) where [f]
    holds and is the reference definition for every population count. *)

From S2P Require Import Prelude.
Local Open Scope Z_scope.

(** ** Definitions *)

Definition u64_max : Z := 2 ^ 64 - 1.
Definition wrap64 (z : Z) : Z := z mod 2 ^ 64.
Definition word64 (w : Z) : Prop := 0 <= w < 2 ^ 64.

(** A result of [__int128] arithmetic; overflow is undefined. *)
Definition int128 (z : Z) : option Z := if (- 2 ^ 127 <=? z) && (z <? 2 ^ 127) then Some z else None.

(** [~w] on [uint64_t]. *)
Definition not64 (w : Z) : Z := u64_max - w.

(** [1ULL << k], the shift count being in range. *)
Definition bit64 (k : Z) : option Z :=
  if (0 <=? k) && (k <? 64) then Some (2 ^ k) else None.

Fixpoint pos_popcount (p : positive) : Z :=
  match p with
  | xH => 1
  | xO q => pos_popcount q
  | xI q => 1 + pos_popcount q
  end.

(** [_mm_popcnt_u64]. *)
Definition popcnt64 (w : Z) : Z :=
  match w with Zpos p => pos_popcount p | _ => 0 end.

Fixpoint pos_ctz (p : positive) : Z :=
  match p with xO q => 1 + pos_ctz q | _ => 0 end.

(** [_tzcnt_u64]: 64 on the zero word. *)
Definition tzcnt64 (w : Z) : Z :=
  match w with Zpos p => pos_ctz p | _ => 64 end.

(** [_lzcnt_u64]: 64 on the zero word. *)
Definition lzcnt64 (w : Z) : Z :=
  match w with Zpos p => 63 - Z.log2 (Zpos p) | _ => 64 end.

(** Reference count of the positions of [lo, lo + n) where [f] holds. *)
Fixpoint cntn (f : Z -> bool) (lo : Z) (n : nat) : Z :=
  match n with
  | O => 0
  | S n' => (if f lo then 1 else 0) + cntn f (lo + 1) n'
  end.

Definition cnt (f : Z -> bool) (lo hi : Z) : Z := cntn f lo (Z.to_nat (hi - lo)).

Lemma int128_in z : - 2 ^ 127 <= z < 2 ^ 127 -> int128 z = Some z.
Proof. intros H. unfold int128. destruct (Z.leb_spec (- 2 ^ 127) z), (Z.ltb_spec z (2 ^ 127)); done || lia. Qed.

Lemma int128_Some z z' : int128 z = Some z' -> z' = z.
Proof. unfold int128. destruct (_ && _); by intros [= ->]. Qed.

(** ** Counting lemmas *)

Lemma cntn_ext f g lo n :
  (forall i, lo <= i < lo + Z.of_nat n -> f i = g i) -> cntn f lo n = cntn g lo n.
Proof.
  revert lo. induction n as [|n IH]; intros lo H; simpl; [done|].
  rewrite (H lo) by lia. rewrite (IH (lo + 1)); [done|]. intros; apply H; lia.
Qed.

Lemma cntn_app f lo n m : cntn f lo (n + m) = cntn f lo n + cntn f (lo + Z.of_nat n) m.
Proof.
  revert lo. induction n as [|n IH]; intros lo; simpl.
  - by replace (lo + Z.of_nat 0) with lo by lia.
  - rewrite IH. replace (lo + Z.of_nat (S n)) with (lo + 1 + Z.of_nat n) by lia. lia.
Qed.

Lemma cntn_bounds f lo n : 0 <= cntn f lo n <= Z.of_nat n.
Proof.
  revert lo. induction n as [|n IH]; intros lo; simpl; [lia|].
  specialize (IH (lo + 1)). destruct (f lo); lia.
Qed.

Lemma cntn_shift f lo k n : cntn f (lo + k) n = cntn (fun i => f (i + k)) lo n.
Proof.
  revert lo. induction n as [|n IH]; intros lo; simpl; [done|].
  rewrite <-IH. by replace (lo + k + 1) with (lo + 1 + k) by lia.
Qed.

Lemma cnt_ext f g lo hi :
  (forall i, lo <= i < hi -> f i = g i) -> cnt f lo hi = cnt g lo hi.
Proof. intros H. apply cntn_ext. intros. apply H. lia. Qed.

Lemma cnt_empty f lo hi : hi <= lo -> cnt f lo hi = 0.
Proof. intros H. unfold cnt. by replace (Z.to_nat (hi - lo)) with 0%nat by lia. Qed.

Lemma cnt_split f lo mid hi :
  lo <= mid <= hi -> cnt f lo hi = cnt f lo mid + cnt f mid hi.
Proof.
  intros H. unfold cnt.
  replace (Z.to_nat (hi - lo)) with (Z.to_nat (mid - lo) + Z.to_nat (hi - mid))%nat by lia.
  rewrite cntn_app. by replace (lo + Z.of_nat (Z.to_nat (mid - lo))) with mid by lia.
Qed.

Lemma cnt_one f i : cnt f i (i + 1) = if f i then 1 else 0.
Proof. unfold cnt. replace (Z.to_nat (i + 1 - i)) with 1%nat by lia. simpl. destruct (f i); lia. Qed.

Lemma cnt_bounds f lo hi : lo <= hi -> 0 <= cnt f lo hi <= hi - lo.
Proof. intros. unfold cnt. pose proof (cntn_bounds f lo (Z.to_nat (hi - lo))). lia. Qed.

Lemma cnt_nonneg f lo hi : 0 <= cnt f lo hi.
Proof. unfold cnt. pose proof (cntn_bounds f lo (Z.to_nat (hi - lo))). lia. Qed.

Lemma cnt_shift f lo hi k : cnt f (lo + k) (hi + k) = cnt (fun i => f (i + k)) lo hi.
Proof. unfold cnt. replace (hi + k - (lo + k)) with (hi - lo) by lia. apply cntn_shift. Qed.

Lemma cnt_snoc f lo hi : lo <= hi -> cnt f lo (hi + 1) = cnt f lo hi + if f hi then 1 else 0.
Proof. intros. rewrite (cnt_split f lo hi (hi + 1)) by lia. by rewrite cnt_one. Qed.

Lemma cnt_cons f lo hi : lo < hi -> cnt f lo hi = (if f lo then 1 else 0) + cnt f (lo + 1) hi.
Proof. intros. rewrite (cnt_split f lo (lo + 1) hi) by lia. by rewrite cnt_one. Qed.

(** Counts differ by the change at one position. *)
Lemma cnt_update f g lo hi k :
  lo <= k < hi -> (forall i, lo <= i < hi -> i <> k -> f i = g i) ->
  cnt g lo hi = cnt f lo hi - (if f k then 1 else 0) + (if g k then 1 else 0).
Proof.
  intros Hk H.
  rewrite (cnt_split f lo k hi), (cnt_split g lo k hi) by lia.
  rewrite (cnt_cons f k hi), (cnt_cons g k hi) by lia.
  rewrite (cnt_ext f g lo k), (cnt_ext f g (k + 1) hi); [lia| |]; intros; apply H; lia.
Qed.

Lemma cnt_zero f lo hi : (forall i, lo <= i < hi -> f i = false) -> cnt f lo hi = 0.
Proof.
  intros H. rewrite (cnt_ext f (fun _ => false)) by done. unfold cnt.
  generalize (Z.to_nat (hi - lo)) as n. clear H. intros n. revert lo.
  induction n as [|n IH]; intros lo; simpl; [done|]. by rewrite IH.
Qed.

Lemma cnt_full f lo hi :
  lo <= hi -> (forall i, lo <= i < hi -> f i = true) -> cnt f lo hi = hi - lo.
Proof.
  intros Hle H. rewrite (cnt_ext f (fun _ => true)) by done. unfold cnt. clear H.
  replace (hi - lo) with (Z.of_nat (Z.to_nat (hi - lo))) at 2 by lia.
  generalize (Z.to_nat (hi - lo)) as n. clear Hle. intros n. revert lo.
  induction n as [|n IH]; intros lo; cbn [cntn]; [lia|]. rewrite IH. lia.
Qed.

(** A count below the size of the range leaves a free position, and a positive
    count gives a set one. *)
Lemma cnt_lt_ex f lo hi : lo <= hi -> cnt f lo hi < hi - lo -> exists i, lo <= i < hi /\ f i = false.
Proof.
  intros Hle. replace hi with (lo + Z.of_nat (Z.to_nat (hi - lo))) by lia.
  generalize (Z.to_nat (hi - lo)) as n. clear Hle hi. intros n. revert lo.
  induction n as [|n IH]; intros lo H.
  - rewrite cnt_empty in H by lia. lia.
  - rewrite cnt_cons in H by lia. destruct (f lo) eqn:E.
    + destruct (IH (lo + 1)) as (i & Hi & Hf).
      { replace (lo + 1 + Z.of_nat n) with (lo + Z.of_nat (S n)) by lia. lia. }
      exists i. split; [lia|done].
    + exists lo. split; [lia|done].
Qed.

Lemma cnt_pos_ex f lo hi : 0 < cnt f lo hi -> exists i, lo <= i < hi /\ f i = true.
Proof.
  intros H. destruct (Z.le_gt_cases hi lo); [rewrite cnt_empty in H; lia|].
  destruct (cnt_lt_ex (fun i => negb (f i)) lo hi) as (i & Hi & Hf); [lia| |].
  - assert (cnt (fun i => negb (f i)) lo hi + cnt f lo hi = hi - lo); [|lia].
    revert H0. clear H. intros H. replace hi with (lo + Z.of_nat (Z.to_nat (hi - lo))) by lia.
    generalize (Z.to_nat (hi - lo)) as n. clear H hi. intros n. revert lo.
    induction n as [|n IH]; intros lo.
    + rewrite !cnt_empty by lia. lia.
    + rewrite !(cnt_cons _ lo) by lia. specialize (IH (lo + 1)).
      replace (lo + 1 + Z.of_nat n) with (lo + Z.of_nat (S n)) in IH by lia.
      destruct (f lo); simpl; lia.
  - exists i. split; [done|]. by apply negb_false_iff in Hf.
Qed.

(** ** Bits of words *)

Lemma word64_high w i : word64 w -> 64 <= i -> Z.testbit w i = false.
Proof.
  intros [H0 H1] Hi. destruct (Z.eq_dec w 0) as [->|]; [apply Z.bits_0|].
  apply Z.bits_above_log2; [lia|]. apply Z.log2_lt_pow2; [lia|].
  apply Z.lt_le_trans with (2 ^ 64); [done|]. apply Z.pow_le_mono_r; lia.
Qed.

Lemma word64_bits_eq w v :
  word64 w -> word64 v -> (forall i, 0 <= i < 64 -> Z.testbit w i = Z.testbit v i) -> w = v.
Proof.
  intros Hw Hv H. apply Z.bits_inj'. intros i Hi.
  destruct (Z.lt_ge_cases i 64); [by apply H|]. by rewrite !word64_high.
Qed.

Lemma word64_of_bits w : 0 <= w -> (forall i, 64 <= i -> Z.testbit w i = false) -> word64 w.
Proof.
  intros H0 H. split; [done|]. destruct (Z.eq_dec w 0) as [->|]; [done|].
  apply Z.log2_lt_pow2; [lia|]. apply Z.lt_nge. intros Hge.
  specialize (H _ Hge). rewrite Z.bit_log2 in H by lia. done.
Qed.

Lemma word64_land w v : word64 w -> 0 <= v -> word64 (Z.land w v).
Proof.
  intros Hw Hv. apply word64_of_bits; [apply Z.land_nonneg; left; apply Hw|].
  intros i Hi. rewrite Z.land_spec, word64_high by done. done.
Qed.

Lemma word64_lor w v : word64 w -> word64 v -> word64 (Z.lor w v).
Proof.
  intros Hw Hv. apply word64_of_bits; [apply Z.lor_nonneg; split; [apply Hw|apply Hv]|].
  intros i Hi. by rewrite Z.lor_spec, !word64_high by done.
Qed.

Lemma word64_bit k : 0 <= k < 64 -> word64 (2 ^ k).
Proof. intros Hk. split; [lia|]. apply Z.pow_lt_mono_r; lia. Qed.

Lemma u64_max_bit i : 0 <= i -> Z.testbit u64_max i = (i <? 64).
Proof.
  intros Hi. unfold u64_max. change (2 ^ 64 - 1) with (Z.ones 64).
  btest_case; [by apply Z.ones_spec_low|by apply Z.ones_spec_high].
Qed.

Lemma word64_not w : word64 w -> word64 (not64 w).
Proof. unfold word64, not64, u64_max. lia. Qed.

Lemma not64_bit w i : word64 w -> 0 <= i < 64 -> Z.testbit (not64 w) i = negb (Z.testbit w i).
Proof.
  intros Hw Hi. assert (not64 w = Z.lxor w u64_max) as ->.
  - unfold not64. symmetry. apply Z.add_move_l.
    rewrite Z.add_nocarry_lxor.
    + rewrite <-Z.lxor_assoc, Z.lxor_nilpotent, Z.lxor_0_l. done.
    + apply Z.bits_inj'. intros n Hn.
      rewrite Z.land_spec, Z.lxor_spec, Z.bits_0, u64_max_bit by done.
      btest_case; [destruct (Z.testbit w n); done|]. by rewrite word64_high.
  - rewrite Z.lxor_spec, u64_max_bit by lia. btest_case; [|lia]. by destruct (Z.testbit w i).
Qed.

Lemma not64_zero w : word64 w -> not64 w = 0 <-> w = u64_max.
Proof. unfold word64, not64, u64_max. lia. Qed.

Lemma pow2_bit k i : 0 <= k -> Z.testbit (2 ^ k) i = (i =? k).
Proof. intros Hk. rewrite Z.pow2_bits_eqb by done. apply Z.eqb_sym. Qed.

Lemma ones_bit k i : 0 <= k -> 0 <= i -> Z.testbit (2 ^ k - 1) i = (i <? k).
Proof.
  intros Hk Hi. replace (2 ^ k - 1) with (Z.ones k) by (rewrite Z.ones_equiv; lia).
  btest_case; [by apply Z.ones_spec_low|by apply Z.ones_spec_high].
Qed.

Lemma bit64_in k : 0 <= k < 64 -> bit64 k = Some (2 ^ k).
Proof. intros. unfold bit64. repeat btest_case; try lia. done. Qed.

(** ** The counting intrinsics *)

Lemma pos_popcount_cnt p n :
  Zpos p < 2 ^ Z.of_nat n -> pos_popcount p = cntn (Z.testbit (Zpos p)) 0 n.
Proof.
  assert (Hcz : forall m lo, cntn (fun _ => false) lo m = 0).
  { induction m as [|m IH]; intros lo; simpl; [done|]. by rewrite IH. }
  revert n. induction p as [p IH|p IH|]; intros n Hn; destruct n as [|n];
    try (change (2 ^ Z.of_nat 0) with 1 in Hn; lia);
    rewrite Nat2Z.inj_succ, Z.pow_succ_r in Hn by lia; cbn [cntn pos_popcount].
  - rewrite (IH n) by lia.
    rewrite (cntn_shift _ 0 1), (cntn_ext (fun i => Z.testbit (Z.pos p~1) (i + 1)) (Z.testbit (Zpos p))).
    + by change (Z.testbit (Z.pos p~1) 0) with true.
    + intros i Hi. replace (i + 1) with (Z.succ i) by lia. by rewrite Pos2Z.inj_xI, Z.testbit_odd_succ by lia.
  - rewrite (IH n) by lia.
    rewrite (cntn_shift _ 0 1), (cntn_ext (fun i => Z.testbit (Z.pos p~0) (i + 1)) (Z.testbit (Zpos p))).
    + by change (Z.testbit (Z.pos p~0) 0) with false.
    + intros i Hi. replace (i + 1) with (Z.succ i) by lia. by rewrite Pos2Z.inj_xO, Z.testbit_even_succ by lia.
  - rewrite (cntn_shift _ 0 1), (cntn_ext _ (fun _ => false)).
    + rewrite Hcz. done.
    + intros i Hi. change 1 with (2 ^ 0) at 1. rewrite pow2_bit by lia. btest_case; [lia|done].
Qed.

(** [_mm_popcnt_u64] counts the set bits of the word. *)
Lemma popcnt64_cnt w : word64 w -> popcnt64 w = cnt (Z.testbit w) 0 64.
Proof.
  intros [H0 H1]. unfold popcnt64. destruct w as [|p|p]; [|by apply pos_popcount_cnt|lia].
  rewrite cnt_zero; [done|]. intros. apply Z.bits_0.
Qed.

Lemma pos_ctz_spec p :
  0 <= pos_ctz p /\ Z.testbit (Zpos p) (pos_ctz p) = true /\
  forall i, 0 <= i < pos_ctz p -> Z.testbit (Zpos p) i = false.
Proof.
  induction p as [p _|p (IH0 & IH1 & IH2)|]; cbn [pos_ctz].
  - repeat split; [lia|]. intros; lia.
  - rewrite (Pos2Z.inj_xO p). repeat split; [lia| |].
    + replace (1 + pos_ctz p) with (Z.succ (pos_ctz p)) by lia. by rewrite Z.testbit_even_succ by lia.
    + intros i Hi. destruct (Z.eq_dec i 0) as [->|]; [by rewrite Z.testbit_even_0|].
      replace i with (Z.succ (i - 1)) by lia. rewrite Z.testbit_even_succ by lia. apply IH2. lia.
  - repeat split; [lia|]. intros; lia.
Qed.

(** [_tzcnt_u64] is the index of the lowest set bit. *)
Lemma tzcnt64_spec w :
  word64 w -> w <> 0 ->
  0 <= tzcnt64 w < 64 /\ Z.testbit w (tzcnt64 w) = true /\
  forall i, 0 <= i < tzcnt64 w -> Z.testbit w i = false.
Proof.
  intros Hw H0. destruct w as [|p|p]; [done| |destruct Hw; lia].
  unfold tzcnt64. destruct (pos_ctz_spec p) as (H1 & H2 & H3).
  split; [|done]. split; [done|].
  destruct (Z.lt_ge_cases (pos_ctz p) 64) as [|Hge]; [done|].
  by rewrite (word64_high _ _ Hw Hge) in H2.
Qed.

(** [63 - _lzcnt_u64] is the index of the highest set bit. *)
Lemma lzcnt64_spec w :
  word64 w -> w <> 0 ->
  0 <= 63 - lzcnt64 w < 64 /\ Z.testbit w (63 - lzcnt64 w) = true /\
  forall i, 63 - lzcnt64 w < i -> Z.testbit w i = false.
Proof.
  intros [H0 H1] Hn. destruct w as [|p|p]; [done| |lia].
  unfold lzcnt64. replace (63 - (63 - Z.log2 (Z.pos p))) with (Z.log2 (Z.pos p)) by lia.
  split; [|split].
  - split; [apply Z.log2_nonneg|]. apply Z.log2_lt_pow2; lia.
  - apply Z.bit_log2. lia.
  - intros i Hi. apply Z.bits_above_log2; lia.
Qed.

#[export] Hint Resolve word64_land word64_lor word64_bit word64_not : cxx.
