(* ===== verification/Floats.v ===== *)
(** * IEEE-754 arithmetic

    [double] is binary64 and [long double] the x87 80-bit format, both as the
    executable [spec_float] of the Standard Library, with round-to-nearest-even
    and no contraction of [a * b + c] (the build compiles in ISO mode).  A cast
    from [double] to [int] truncates; out of range it is undefined in C++ and
    here yields the x86-64 indefinite integer [INT_MIN], which no theorem
    depends on. *)

From S2P Require Import Prelude.
From Stdlib Require Import SpecFloat.
Local Open Scope Z_scope.

(** ** Definitions *)

Abbreviation f64 := spec_float.
Abbreviation f80 := spec_float.

Definition f64_add : f64 -> f64 -> f64 := SFadd 53 1024.
Definition f64_sub : f64 -> f64 -> f64 := SFsub 53 1024.
Definition f64_mul : f64 -> f64 -> f64 := SFmul 53 1024.
Definition f64_div : f64 -> f64 -> f64 := SFdiv 53 1024.
Definition f64_of_Z (z : Z) : f64 := binary_normalize 53 1024 z 0 false.
Definition f64_zero : f64 := S754_zero false.

Definition f80_add : f80 -> f80 -> f80 := SFadd 64 16384.
Definition f80_sub : f80 -> f80 -> f80 := SFsub 64 16384.
Definition f80_mul : f80 -> f80 -> f80 := SFmul 64 16384.
Definition f80_div : f80 -> f80 -> f80 := SFdiv 64 16384.
Definition f80_of_Z (z : Z) : f80 := binary_normalize 64 16384 z 0 false.

(** Rounding conversions between the two formats. *)
Definition f64_of_f80 (x : f80) : f64 :=
  match x with
  | S754_finite s m e => binary_normalize 53 1024 (cond_Zopp s (Zpos m)) e s
  | _ => x
  end.

Definition f80_of_f64 (x : f64) : f80 :=
  match x with
  | S754_finite s m e => binary_normalize 64 16384 (cond_Zopp s (Zpos m)) e s
  | _ => x
  end.

(** A decimal literal [n / d] that fits a correctly rounded division. *)
Definition f64_lit (n d : Z) : f64 := f64_div (f64_of_Z n) (f64_of_Z d).

Definition f64_max_value : f64 := SFmax_float 53 1024.
Definition f64_lowest : f64 := SFopp (SFmax_float 53 1024).

(** Truncation toward zero of a finite number. *)
Definition f64_trunc (x : f64) : option Z :=
  match x with
  | S754_zero _ => Some 0
  | S754_finite s m e =>
      Some (cond_Zopp s (if 0 <=? e then Zpos m * 2 ^ e else Zpos m / 2 ^ (- e)))
  | _ => None
  end.

Definition int_min : Z := - 2 ^ 31.
Definition int_max : Z := 2 ^ 31 - 1.

(** [static_cast<int>(x)]. *)
Definition f64_to_int (x : f64) : Z :=
  match f64_trunc x with
  | Some z => if (int_min <=? z) && (z <=? int_max) then z else int_min
  | None => int_min
  end.

(** [std::min], [std::max] of <algorithm> on [double]. *)
Definition f64_min (a b : f64) : f64 := if SFltb b a then b else a.
Definition f64_max (a b : f64) : f64 := if SFltb a b then b else a.

(** ** Integers are exact *)

Lemma digits2_pos_log2 p : Zpos (digits2_pos p) = Z.log2 (Zpos p) + 1.
Proof.
  induction p as [p IH|p IH|]; cbn [digits2_pos]; [| |done].
  - rewrite Pos2Z.inj_succ, IH, Pos2Z.inj_xI, Z.log2_succ_double by lia. lia.
  - rewrite Pos2Z.inj_succ, IH, Pos2Z.inj_xO, Z.log2_double by lia. lia.
Qed.

Lemma iter_xO p n : Zpos (Pos.iter xO p n) = Zpos p * 2 ^ Zpos n.
Proof.
  induction n as [|n IH] using Pos.peano_ind; [simpl; lia|].
  rewrite Pos.iter_succ, Pos2Z.inj_xO, IH, Pos2Z.inj_succ, Z.pow_succ_r by lia. lia.
Qed.

Lemma shr_fexp_id m e :
  fexp 53 1024 (Zdigits2 m + e) = e ->
  shr_fexp 53 1024 m e loc_Exact = (Build_shr_record m false false, e).
Proof. intros H. unfold shr_fexp. rewrite H, Z.sub_diag. done. Qed.

(** The mantissa and exponent that represent a positive integer below [2^53]. *)
Lemma f64_of_pos p :
  Zpos p < 2 ^ 53 ->
  exists m, f64_of_Z (Zpos p) = S754_finite false m (Z.log2 (Zpos p) - 52) /\
            Zpos m = Zpos p * 2 ^ (52 - Z.log2 (Zpos p)).
Proof.
  intros Hp.
  assert (Hl : 0 <= Z.log2 (Z.pos p) < 53).
  { split; [apply Z.log2_nonneg|]. apply Z.log2_lt_pow2; lia. }
  set (L := Z.log2 (Z.pos p)) in *.
  assert (Hfx : forall k, 0 <= k <= 53 -> fexp 53 1024 k = k - 53).
  { intros. unfold fexp, emin. lia. }
  assert (exists m, shl_align p 0 (fexp 53 1024 (Z.pos (digits2_pos p) + 0)) = (m, L - 52)
    /\ Z.pos m = Z.pos p * 2 ^ (52 - L)) as (m & Hs & Hm).
  { rewrite digits2_pos_log2. fold L. rewrite Hfx by lia. unfold shl_align.
    replace (L + 1 + 0 - 53 - 0) with (- (52 - L)) by lia.
    destruct (52 - L) as [|q|q] eqn:Eq; [| |lia].
    - exists p. split; [f_equal; lia|]. lia.
    - exists (Pos.iter xO p q). split; [cbn; f_equal; lia|]. apply iter_xO. }
  assert (Hd : Zdigits2 (Z.pos m) + (L - 52) = L + 1).
  { cbn. rewrite digits2_pos_log2, Hm, Z.log2_mul_pow2 by lia. fold L. lia. }
  exists m. split; [|done].
  change (f64_of_Z (Zpos p)) with (binary_round 53 1024 false p 0).
  unfold binary_round. rewrite Hs. unfold binary_round_aux.
  rewrite shr_fexp_id by (rewrite Hd, Hfx; lia). cbn [shr_m loc_of_shr_record round_nearest_even].
  rewrite shr_fexp_id by (rewrite Hd, Hfx; lia). cbn [shr_m].
  destruct (Z.leb_spec (L - 52) (1024 - 53)); [done|lia].
Qed.

(** Conversions of [int] to [double] preserve the order exactly. *)
Lemma f64_of_Z_compare a b :
  0 <= a < 2 ^ 53 -> 0 <= b < 2 ^ 53 ->
  SFcompare (f64_of_Z a) (f64_of_Z b) = Some (a ?= b).
Proof.
  intros Ha Hb. destruct a as [|p|p], b as [|q|q]; try lia.
  - done.
  - destruct (f64_of_pos q) as (m & -> & _); [lia|done].
  - destruct (f64_of_pos p) as (m & -> & _); [lia|done].
  - destruct (f64_of_pos p) as (m & Em & Hm); [lia|].
    destruct (f64_of_pos q) as (n & En & Hn); [lia|]. rewrite Em, En. clear Em En.
    cbn [SFcompare]. f_equal.
    destruct (Z.compare_spec (Z.log2 (Z.pos p) - 52) (Z.log2 (Z.pos q) - 52)) as [E|E|E].
    + change (Pos.compare_cont Eq m n) with (Z.pos m ?= Z.pos n).
      rewrite Hm, Hn. replace (Z.log2 (Z.pos q)) with (Z.log2 (Z.pos p)) by lia.
      rewrite !(Z.mul_comm _ (2 ^ _)). symmetry. apply Zmult_compare_compat_l.
      apply Z.lt_gt, Z.pow_pos_nonneg; [lia|].
      assert (Z.log2 (Z.pos p) < 53) by (apply Z.log2_lt_pow2; lia). lia.
    + symmetry. apply Z.compare_lt_iff, Z.log2_lt_cancel. lia.
    + symmetry. apply Z.compare_gt_iff, Z.log2_lt_cancel. lia.
Qed.

Lemma f64_of_Z_ltb a b :
  0 <= a < 2 ^ 53 -> 0 <= b < 2 ^ 53 -> SFltb (f64_of_Z a) (f64_of_Z b) = (a <? b).
Proof. intros. unfold SFltb, Z.ltb. rewrite f64_of_Z_compare by done. by destruct (a ?= b). Qed.

Lemma f64_of_Z_not_nan a : 0 <= a < 2 ^ 53 -> f64_of_Z a <> S754_nan.
Proof. intros Ha. destruct a as [|p|p]; [done| |lia]. destruct (f64_of_pos p) as (m & -> & _); [lia|done]. Qed.

(** ** Products of finite numbers are never NaN *)

Lemma iter_pos_inv {A} (P : A -> Prop) (f : A -> A) n x :
  (forall y, P y -> P (f y)) -> P x -> P (iter_pos f n x).
Proof. intros Hf. revert x. induction n as [n IH|n IH|]; intros x Hx; simpl; auto. Qed.

Lemma shr_fexp_nonneg m e l mrs e' :
  0 <= m -> shr_fexp 53 1024 m e l = (mrs, e') -> 0 <= shr_m mrs.
Proof.
  intros Hm H. unfold shr_fexp, shr in H.
  assert (0 <= shr_m (shr_record_of_loc m l)) as H0.
  { destruct l as [|[]]; cbn; lia. }
  destruct (_ - e) as [|q|q]; simplify_eq; try done.
  apply (iter_pos_inv (fun r => 0 <= shr_m r)); [|done].
  intros [[|[]|[]] r s] Hr; cbn in *; lia.
Qed.

Lemma binary_round_aux_not_nan s m e l : 0 <= m -> binary_round_aux 53 1024 s m e l <> S754_nan.
Proof.
  intros Hm. unfold binary_round_aux.
  destruct (shr_fexp 53 1024 m e l) as [r1 e1] eqn:E1.
  apply shr_fexp_nonneg in E1; [|done].
  destruct (shr_fexp _ _ (round_nearest_even _ _) _ _) as [r2 e2] eqn:E2.
  apply shr_fexp_nonneg in E2.
  - destruct (shr_m r2); [done| |lia]. by destruct (_ <=? _).
  - unfold round_nearest_even. destruct (loc_of_shr_record r1) as [|[]]; try lia.
    destruct (Z.even _); lia.
Qed.

Lemma f64_mul_finite_not_nan s1 m1 e1 s2 m2 e2 :
  f64_mul (S754_finite s1 m1 e1) (S754_finite s2 m2 e2) <> S754_nan.
Proof. apply binary_round_aux_not_nan. lia. Qed.

(** A threshold that is not above [cap] and not reached by [n] proves [n < cap]:
    the test that keeps a data node from overflowing. *)
Lemma below_threshold n cap th :
  0 <= n < 2 ^ 53 -> 0 <= cap < 2 ^ 53 -> th <> S754_nan ->
  SFltb (f64_of_Z cap) th = false -> SFleb th (f64_of_Z n) = false -> n < cap.
Proof.
  intros Hn Hc Hnan Hup Hlo.
  apply Z.nle_gt. intros Hle.
  pose proof (f64_of_Z_compare cap n Hc Hn) as Hcmp.
  assert (SFleb (f64_of_Z cap) (f64_of_Z n) = true) as Hcn.
  { unfold SFleb. rewrite Hcmp. destruct (Z.compare_spec cap n); [done|done|lia]. }
  destruct n as [|pn|pn]; [| |lia].
  { destruct cap as [|pc|pc]; [|lia|lia]. destruct th as [s|[]| |[] m e]; try done. }
  destruct (f64_of_pos pn) as (mn & En & _); [lia|]. rewrite En in *. clear En.
  destruct cap as [|pc|pc]; [| |lia].
  { destruct th as [s|[]| |[] m e]; try done. }
  destruct (f64_of_pos pc) as (mc & Ec & _); [lia|]. rewrite Ec in *. clear Ec.
  destruct th as [s|[]| |[] m e]; try done.
  unfold SFltb, SFleb in *. cbn [SFcompare] in *.
  change Pos.compare_cont with Pos.compare_cont in *.
  change (Pos.compare_cont Eq mc m) with (Z.pos mc ?= Z.pos m) in *.
  change (Pos.compare_cont Eq m mn) with (Z.pos m ?= Z.pos mn) in *.
  change (Pos.compare_cont Eq mc mn) with (Z.pos mc ?= Z.pos mn) in *.
  repeat match goal with
  | H : context [Z.compare ?a ?b] |- _ => destruct (Z.compare_spec a b); try done; try lia
  end.
Qed.

(** ** Truncated quotients *)

Lemma shr_1_m r : 0 <= shr_m r -> shr_m (shr_1 r) = shr_m r / 2.
Proof.
  destruct r as [[|[p|p|]|p] r s]; cbn [shr_m shr_1]; intros H; [done| | |done|lia].
  - rewrite (Pos2Z.inj_xI p). replace (2 * Z.pos p + 1) with (1 + Z.pos p * 2) by lia.
    by rewrite Z.div_add by lia.
  - rewrite (Pos2Z.inj_xO p). replace (2 * Z.pos p) with (Z.pos p * 2) by lia. by rewrite Z.div_mul by lia.
Qed.

Lemma iter_shr_1_m n : forall r, 0 <= shr_m r ->
  0 <= shr_m (iter_pos shr_1 n r) /\ shr_m (iter_pos shr_1 n r) = shr_m r / 2 ^ Zpos n.
Proof.
  induction n as [n IH|n IH|]; intros r Hr; cbn [iter_pos].
  - assert (H1 : 0 <= shr_m (shr_1 r)) by (rewrite shr_1_m by done; apply Z.div_pos; lia).
    destruct (IH _ H1) as [H2 E2]. destruct (IH _ H2) as [H3 E3]. split; [done|].
    rewrite E3, E2, shr_1_m, !Z.div_div by (done || lia).
    f_equal. rewrite (Pos2Z.inj_xI n). replace (2 * Z.pos n + 1) with (1 + Z.pos n + Z.pos n) by lia.
    rewrite !Z.pow_add_r by lia. lia.
  - destruct (IH _ Hr) as [H2 E2]. destruct (IH _ H2) as [H3 E3]. split; [done|].
    rewrite E3, E2, !Z.div_div by lia. f_equal. rewrite (Pos2Z.inj_xO n).
    replace (2 * Z.pos n) with (Z.pos n + Z.pos n) by lia. by rewrite Z.pow_add_r by lia.
  - rewrite shr_1_m by done. split; [apply Z.div_pos; lia|done].
Qed.

Lemma shr_fexp_m prec emax m e l mrs e' :
  0 <= m -> shr_fexp prec emax m e l = (mrs, e') ->
  e' = Z.max e (fexp prec emax (Zdigits2 m + e)) /\ shr_m mrs = m / 2 ^ (e' - e) /\ 0 <= shr_m mrs.
Proof.
  intros Hm H. unfold shr_fexp, shr in H.
  assert (shr_m (shr_record_of_loc m l) = m) as Hr by (by destruct l as [|[]]).
  destruct (fexp prec emax (Zdigits2 m + e) - e) as [|q|q] eqn:E; simplify_eq.
  - split; [lia|]. by rewrite Z.sub_diag, Hr, Z.div_1_r.
  - destruct (iter_shr_1_m q (shr_record_of_loc m l)) as [H1 H2]; [lia|].
    split; [lia|]. replace (e + Z.pos q - e) with (Z.pos q) by lia. rewrite Hr in H2. done.
  - split; [lia|]. by rewrite Z.sub_diag, Hr, Z.div_1_r.
Qed.

Lemma Zdigits2_le m k : 0 <= m < 2 ^ k -> 0 <= k -> Zdigits2 m <= k.
Proof.
  intros Hm Hk. destruct m as [|p|p]; [done| |lia]. cbn [Zdigits2]. rewrite digits2_pos_log2.
  assert (Z.log2 (Zpos p) < k); [|lia]. apply Z.log2_lt_pow2; lia.
Qed.

(** A rounded number has a mantissa of [prec] bits. *)
Lemma round_mantissa prec emax s m e l s' m' e' : 0 < prec -> 0 <= m ->
  binary_round_aux prec emax s m e l = S754_finite s' m' e' -> Zpos m' < 2 ^ prec.
Proof.
  intros Hprec Hm E. unfold binary_round_aux in E. destruct (shr_fexp prec emax m e l) as [r1 e1] eqn:E1. apply shr_fexp_m in E1 as (_ & _ & Hp1); [|done].
  set (m2 := round_nearest_even _ _) in E.
  assert (Hm2 : 0 <= m2) by (unfold m2, round_nearest_even; destruct (loc_of_shr_record r1) as [|[]]; try lia; destruct (Z.even _); lia).
  clearbody m2. destruct (shr_fexp prec emax m2 e1 loc_Exact) as [r2 e2] eqn:E2. apply shr_fexp_m in E2 as (He2 & Hr2 & _); [|done].
  destruct (shr_m r2) as [|p|p] eqn:Ep; [done| |done]. destruct (e2 <=? emax - prec) in E; [|done]. injection E as <- <- <-.
  rewrite Hr2. destruct m2 as [|q|q]; [rewrite Z.div_0_l in Hr2; [done|]; enough (0 < 2 ^ (e2 - e1)) by lia; apply Z.pow_pos_nonneg; lia| |lia].
  cbn [Zdigits2] in He2. rewrite digits2_pos_log2 in He2. pose proof (Z.log2_spec (Z.pos q) ltac:(lia)) as [_ Hq]. pose proof (Z.log2_nonneg (Z.pos q)).
  assert (Hge : Z.log2 (Z.pos q) + 1 - prec <= e2 - e1) by (unfold fexp, emin in He2; lia).
  apply Z.div_lt_upper_bound; [apply Z.pow_pos_nonneg; lia|]. rewrite <-Z.pow_add_r by lia.
  eapply Z.lt_le_trans; [exact Hq|]. apply Z.pow_le_mono_r; lia.
Qed.

(** Rounding a number below [2^B] yields a number of at most [2^B]. *)
Lemma binary_round_aux_trunc B m e l :
  0 <= B <= 52 -> 0 <= m < 2 ^ (B - e) -> e <= B - 53 ->
  exists z, f64_trunc (binary_round_aux 53 1024 false m e l) = Some z /\ 0 <= z <= 2 ^ B.
Proof.
  intros HB Hm He. unfold binary_round_aux.
  assert (Hfx : forall k, k <= B + 1 -> fexp 53 1024 k <= B - 52) by (intros k ?; unfold fexp, emin; lia).
  destruct (shr_fexp 53 1024 m e l) as [r1 e1] eqn:E1. apply shr_fexp_m in E1 as (He1 & Hr1 & Hp1); [|lia].
  assert (He1' : e <= e1 <= B - 53).
  { pose proof (Zdigits2_le m (B - e) Hm ltac:(lia)). unfold fexp, emin in He1. lia. }
  assert (Hlt : shr_m r1 < 2 ^ (B - e1)).
  { rewrite Hr1. apply Z.div_lt_upper_bound; [lia|]. rewrite <-Z.pow_add_r by lia.
    replace (e1 - e + (B - e1)) with (B - e) by lia. lia. }
  set (m2 := round_nearest_even _ _).
  assert (Hm2 : 0 <= m2 <= 2 ^ (B - e1)).
  { unfold m2, round_nearest_even. destruct (loc_of_shr_record r1) as [|[]]; try lia. destruct (Z.even _); lia. }
  clearbody m2. destruct (shr_fexp 53 1024 m2 e1 loc_Exact) as [r2 e2] eqn:E2.
  apply shr_fexp_m in E2 as (He2 & Hr2 & Hp2); [|lia].
  assert (He2' : e1 <= e2 <= B - 52).
  { assert (2 ^ (B - e1) < 2 ^ (B - e1 + 1)) by (apply Z.pow_lt_mono_r; lia).
    pose proof (Zdigits2_le m2 (B - e1 + 1) ltac:(lia) ltac:(lia)). specialize (Hfx (Zdigits2 m2 + e1)). lia. }
  destruct (shr_m r2) as [|p|p] eqn:Ep; [exists 0; split; [done|]; lia| |lia].
  assert (Hle : Z.pos p <= 2 ^ (B - e2)).
  { rewrite Hr2. apply Z.div_le_upper_bound; [lia|]. rewrite <-Z.pow_add_r by lia.
    replace (e2 - e1 + (B - e2)) with (B - e1) by lia. lia. }
  destruct (Z.leb_spec e2 (1024 - 53)); [|lia]. cbn [f64_trunc cond_Zopp]. eexists. split; [done|].
  destruct (Z.leb_spec 0 e2).
  - assert (e2 = 0) as -> by lia. rewrite Z.sub_0_r in Hle. lia.
  - split; [apply Z.div_pos; lia|]. apply Z.div_le_upper_bound; [lia|]. rewrite <-Z.pow_add_r by lia.
    by replace (- e2 + B) with (B - e2) by lia.
Qed.

(** Dividing an integer by a number of [1/2, 1) at most doubles it. *)
Lemma f64_div_trunc_bound B num m2 :
  0 < B <= 52 -> 0 <= num < 2 ^ (B - 1) -> 2 ^ 52 <= Zpos m2 < 2 ^ 53 ->
  exists z, f64_trunc (f64_div (f64_of_Z num) (S754_finite false m2 (-53))) = Some z /\ 0 <= z <= 2 ^ B.
Proof.
  intros HB Hn Hm2. destruct num as [|p|p]; [by exists 0; split; [done|]; lia| |lia].
  assert (Hp53 : Z.pos p < 2 ^ 53).
  { eapply Z.lt_trans; [apply Hn|]. apply Z.pow_lt_mono_r; lia. }
  destruct (f64_of_pos p Hp53) as (m1 & -> & Hm1). set (L := Z.log2 (Z.pos p)) in *.
  assert (HL : 0 <= L < B - 1) by (split; [apply Z.log2_nonneg|apply Z.log2_lt_pow2; lia]).
  assert (Hspec : 2 ^ L <= Z.pos p < 2 ^ Z.succ L) by (apply Z.log2_spec; lia).
  assert (Hd1 : Z.pos (digits2_pos m1) = 53).
  { rewrite digits2_pos_log2, Hm1, Z.log2_mul_pow2 by lia. fold L. lia. }
  assert (Hd2 : Z.pos (digits2_pos m2) = 53).
  { rewrite digits2_pos_log2. replace 53 with (52 + 1) by lia. f_equal. apply Z.log2_unique; lia. }
  unfold f64_div, SFdiv, SFdiv_core_binary. cbn [Zdigits2]. rewrite Hd1, Hd2.
  replace (Z.min (fexp 53 1024 (53 + (L - 52) - (53 + -53))) (L - 52 - -53)) with (L - 52)
    by (unfold fexp, emin; lia).
  replace (L - 52 - -53 - (L - 52)) with 53 by lia. rewrite Z.shiftl_mul_pow2 by lia.
  pose proof (Z_div_mod (Z.pos m1 * 2 ^ 53) (Z.pos m2) ltac:(lia)) as Hdm.
  destruct (Z.div_eucl _ _) as [q r]. destruct Hdm as [Hq Hr].
  apply binary_round_aux_trunc; [lia| |lia].
  assert (Hqb : 0 <= q <= 2 * Z.pos m1) by nia.
  split; [lia|]. apply Z.le_lt_trans with (2 * Z.pos m1); [lia|]. rewrite Hm1.
  replace (B - (L - 52)) with (1 + (B - 1) + (52 - L)) by lia. rewrite !Z.pow_add_r by lia.
  assert (0 < 2 ^ (52 - L)) by (apply Z.pow_pos_nonneg; lia). nia.
Qed.

(** ** Magnitudes

    [mag k x]: [x] is finite and at most [2 ^ k] in absolute value. *)

Definition mag (k : Z) (x : spec_float) : Prop :=
  match x with
  | S754_finite _ m e => e <= k /\ Zpos m <= 2 ^ (k - e)
  | S754_zero _ => True
  | _ => False
  end.

Lemma mag_trunc k x : 0 <= k -> mag k x -> exists z, f64_trunc x = Some z /\ - 2 ^ k <= z <= 2 ^ k.
Proof.
  intros Hk Hx. assert (0 < 2 ^ k) by (apply Z.pow_pos_nonneg; lia). destruct x as [s|s| |s m e]; [exists 0; split; [done|lia]|done|done|]. destruct Hx as [He Hm].
  cbn [f64_trunc]. eexists. split; [done|]. set (v := if 0 <=? e then _ else _). enough (0 <= v <= 2 ^ k) by (destruct s; cbn [cond_Zopp]; lia). unfold v. destruct (Z.leb_spec 0 e).
  - assert (0 < 2 ^ e) by (apply Z.pow_pos_nonneg; lia). replace (2 ^ k) with (2 ^ (k - e) * 2 ^ e) by (rewrite <-Z.pow_add_r by lia; f_equal; lia). split; [lia|by apply Z.mul_le_mono_nonneg_r; lia].
  - assert (0 < 2 ^ (- e)) by (apply Z.pow_pos_nonneg; lia). split; [apply Z.div_pos; lia|]. apply Z.div_le_upper_bound; [lia|]. rewrite <-Z.pow_add_r by lia.
    by replace (- e + k) with (k - e) by lia.
Qed.

(** Rounding does not leave a power of two behind. *)
Lemma round_aux_mag prec emax s m e l k : 0 < prec -> 1 < emax -> 3 - emax - prec <= k -> k + 1 <= emax -> e <= k -> e <= emax - prec -> 0 <= m < 2 ^ (k - e) ->
  mag k (binary_round_aux prec emax s m e l).
Proof.
  intros Hprec He0 Hlow Hhigh Hek Hemax Hm. unfold binary_round_aux.
  destruct (shr_fexp prec emax m e l) as [r1 e1] eqn:E1. apply shr_fexp_m in E1 as (He1 & Hr1 & Hp1); [|lia].
  assert (He1' : e <= e1 <= k /\ e1 <= emax - prec).
  { pose proof (Zdigits2_le m (k - e) Hm ltac:(lia)). unfold fexp, emin in He1. lia. }
  assert (Hlt : shr_m r1 < 2 ^ (k - e1)).
  { rewrite Hr1. apply Z.div_lt_upper_bound; [apply Z.pow_pos_nonneg; lia|]. rewrite <-Z.pow_add_r by lia.
    replace (e1 - e + (k - e1)) with (k - e) by lia. lia. }
  set (m2 := round_nearest_even _ _).
  assert (Hm2 : 0 <= m2 <= 2 ^ (k - e1)).
  { unfold m2, round_nearest_even. destruct (loc_of_shr_record r1) as [|[]]; try lia. destruct (Z.even _); lia. }
  clearbody m2. destruct (shr_fexp prec emax m2 e1 loc_Exact) as [r2 e2] eqn:E2. apply shr_fexp_m in E2 as (He2 & Hr2 & Hp2); [|lia].
  assert (He2' : e1 <= e2 <= k /\ e2 <= emax - prec).
  { assert (2 ^ (k - e1) < 2 ^ (k - e1 + 1)) by (apply Z.pow_lt_mono_r; lia).
    pose proof (Zdigits2_le m2 (k - e1 + 1) ltac:(lia) ltac:(lia)). unfold fexp, emin in He2. lia. }
  destruct (shr_m r2) as [|p|p] eqn:Ep; [done| |lia]. destruct (Z.leb_spec e2 (emax - prec)); [|lia]. cbn [mag]. split; [lia|].
  rewrite Hr2. apply Z.div_le_upper_bound; [apply Z.pow_pos_nonneg; lia|]. rewrite <-Z.pow_add_r by lia.
  replace (e2 - e1 + (k - e2)) with (k - e1) by lia. lia.
Qed.

Lemma mul_mag prec emax j k x y : 0 < prec -> 1 < emax -> 3 - emax - prec <= j + k -> j + k + 2 <= emax -> j + k <= emax - prec -> mag j x -> mag k y ->
  mag (j + k + 1) (SFmul prec emax x y).
Proof.
  intros Hprec He0 Hlow Hhigh Hp Hx Hy. destruct x as [s1|s1| |s1 m1 e1], y as [s2|s2| |s2 m2 e2]; try done. destruct Hx as [H1 H2], Hy as [H3 H4]. cbn [SFmul].
  apply round_aux_mag; [done|done|lia|lia|lia|lia|]. rewrite Pos2Z.inj_mul. assert (0 < 2 ^ (j - e1)) by (apply Z.pow_pos_nonneg; lia). assert (0 < 2 ^ (k - e2)) by (apply Z.pow_pos_nonneg; lia).
  replace (j + k + 1 - (e1 + e2)) with (1 + (j - e1) + (k - e2)) by lia. rewrite !Z.pow_add_r by lia. nia.
Qed.

(** Integers below [2 ^ 64] are [long double]s. *)
Lemma f80_round_pos s p : Zpos p < 2 ^ 64 -> exists m, binary_round 64 16384 s p 0 = S754_finite s m (Z.log2 (Zpos p) - 63) /\ Zpos m = Zpos p * 2 ^ (63 - Z.log2 (Zpos p)).
Proof.
  intros Hp. assert (Hl : 0 <= Z.log2 (Z.pos p) < 64) by (split; [apply Z.log2_nonneg|apply Z.log2_lt_pow2; lia]). set (L := Z.log2 (Z.pos p)) in *.
  assert (Hfx : forall k, 0 <= k <= 64 -> fexp 64 16384 k = k - 64) by (intros; unfold fexp, emin; lia).
  assert (exists m, shl_align p 0 (fexp 64 16384 (Z.pos (digits2_pos p) + 0)) = (m, L - 63) /\ Z.pos m = Z.pos p * 2 ^ (63 - L)) as (m & Hs & Hm).
  { rewrite digits2_pos_log2. fold L. rewrite Hfx by lia. unfold shl_align. replace (L + 1 + 0 - 64 - 0) with (- (63 - L)) by lia.
    destruct (63 - L) as [|q|q] eqn:Eq; [exists p; split; [f_equal; lia|lia]| |lia]. exists (Pos.iter xO p q). split; [cbn; f_equal; lia|]. apply iter_xO. }
  assert (Hd : Zdigits2 (Z.pos m) + (L - 63) = L + 1) by (cbn; rewrite digits2_pos_log2, Hm, Z.log2_mul_pow2 by lia; fold L; lia).
  assert (Hid : shr_fexp 64 16384 (Z.pos m) (L - 63) loc_Exact = (Build_shr_record (Z.pos m) false false, L - 63)) by (unfold shr_fexp; rewrite Hd, Hfx by lia; replace (L + 1 - 64) with (L - 63) by lia; by rewrite Z.sub_diag).
  exists m. split; [|done]. unfold binary_round. rewrite Hs. unfold binary_round_aux. rewrite Hid. cbn [shr_m loc_of_shr_record round_nearest_even]. rewrite Hid. cbn [shr_m].
  destruct (Z.leb_spec (L - 63) (16384 - 64)); [done|lia].
Qed.
