(* ===== verification/AlexBase.v ===== *)
(** * ALEX: models and helpers (alex/src/alex_base.h)

    [LinearModel] and [LinearModelBuilder] with their [double] and [long double]
    arithmetic, the bitmap helpers, the dense-region accumulator of the cost
    model and the two integer-logarithm helpers.  Keys are [uint64_t]. *)

From S2P Require Import Prelude Words Floats.
From Stdlib Require Import SpecFloat.
Local Open Scope Z_scope.

(** ** Linear models *)

Record LinearModel := mkLinearModel { a_ : f64; b_ : f64 }.

Definition LinearModel_default : LinearModel := mkLinearModel f64_zero f64_zero.

Definition expand (m : LinearModel) (expansion_factor : f64) : LinearModel :=
  mkLinearModel (f64_mul (a_ m) expansion_factor) (f64_mul (b_ m) expansion_factor).

Definition predict_double (m : LinearModel) (key : Z) : f64 :=
  f64_add (f64_mul (a_ m) (f64_of_Z key)) (b_ m).

Definition predict (m : LinearModel) (key : Z) : Z :=
  f64_to_int (predict_double m key).

Record LinearModelBuilder := mkBuilder {
  lb_count : Z;
  lb_x_sum : f80;
  lb_y_sum : f80;
  lb_xx_sum : f80;
  lb_xy_sum : f80;
  lb_x_min : Z;
  lb_x_max : Z;
  lb_y_min : f64;
  lb_y_max : f64
}.

Definition Builder_init : LinearModelBuilder :=
  mkBuilder 0 (f80_of_Z 0) (f80_of_Z 0) (f80_of_Z 0) (f80_of_Z 0)
    u64_max 0 f64_max_value f64_lowest.

Definition builder_add (b : LinearModelBuilder) (x y : Z) : LinearModelBuilder :=
  mkBuilder (lb_count b + 1)
    (f80_add (lb_x_sum b) (f80_of_Z x))
    (f80_add (lb_y_sum b) (f80_of_Z y))
    (f80_add (lb_xx_sum b) (f80_mul (f80_of_Z x) (f80_of_Z x)))
    (f80_add (lb_xy_sum b) (f80_mul (f80_of_Z x) (f80_of_Z y)))
    (Z.min x (lb_x_min b))
    (Z.max x (lb_x_max b))
    (f64_min (f64_of_Z y) (lb_y_min b))
    (f64_max (f64_of_Z y) (lb_y_max b)).

Definition builder_build (b : LinearModelBuilder) : LinearModel :=
  let count := f80_of_Z (lb_count b) in
  if lb_count b <=? 1 then mkLinearModel f64_zero (f64_of_f80 (lb_y_sum b))
  else
    let den := f80_sub (f80_mul count (lb_xx_sum b)) (f80_mul (lb_x_sum b) (lb_x_sum b)) in
    if SFeqb den (f80_of_Z 0) then
      mkLinearModel f64_zero (f64_div (f64_of_f80 (lb_y_sum b)) (f64_of_Z (lb_count b)))
    else
      let slope := f64_of_f80 (f80_div
        (f80_sub (f80_mul count (lb_xy_sum b)) (f80_mul (lb_x_sum b) (lb_y_sum b))) den) in
      let intercept := f64_of_f80 (f80_div
        (f80_sub (lb_y_sum b) (f80_mul (f80_of_f64 slope) (lb_x_sum b))) count) in
      if SFleb slope f64_zero then
        let a := f64_div (f64_sub (lb_y_max b) (lb_y_min b))
                         (f64_of_Z (wrap64 (lb_x_max b - lb_x_min b))) in
        mkLinearModel a (f64_mul (SFopp (f64_of_Z (lb_x_min b))) a)
      else mkLinearModel slope intercept.

(** ** Bitmap helpers *)

Definition extract_rightmost_one (value : Z) : Z := Z.land value (wrap64 (- value)).

Definition remove_rightmost_one (value : Z) : Z := Z.land value (wrap64 (value - 1)).

Definition count_ones (value : Z) : Z := popcnt64 value.

Definition get_offset (word_id bit : Z) : Z :=
  Z.shiftl word_id 6 + count_ones (wrap64 (bit - 1)).

(** ** Cost model weights *)

Definition kExpSearchIterationsWeight : f64 := f64_of_Z 20.
Definition kShiftsWeight : f64 := f64_lit 1 2.
Definition kNodeLookupsWeight : f64 := f64_of_Z 20.

(** ** Expected shifts of a dense region *)

Record ExpectedShiftsAccumulator := mkShifts {
  last_position_ : Z;
  dense_region_start_idx_ : Z;
  num_expected_shifts_ : Z;
  sh_count_ : Z
}.

Definition shifts_reset : ExpectedShiftsAccumulator := mkShifts (-1) 0 0 0.

Definition shifts_accumulate (s : ExpectedShiftsAccumulator) (actual_position : Z)
  : ExpectedShiftsAccumulator :=
  let s1 :=
    if last_position_ s + 1 <? actual_position then
      let dense_region_length := last_position_ s - dense_region_start_idx_ s + 1 in
      mkShifts (last_position_ s) actual_position
        (num_expected_shifts_ s + Z.quot (dense_region_length * dense_region_length) 4) (sh_count_ s)
    else s in
  mkShifts actual_position (dense_region_start_idx_ s1) (num_expected_shifts_ s1) (sh_count_ s1 + 1).

Definition shifts_get_stat (s : ExpectedShiftsAccumulator) : f64 :=
  if sh_count_ s =? 0 then f64_zero
  else
    let dense_region_length := last_position_ s - dense_region_start_idx_ s + 1 in
    let cur_num_expected_shifts :=
      num_expected_shifts_ s + Z.quot (dense_region_length * dense_region_length) 4 in
    f64_div (f64_of_Z cur_num_expected_shifts) (f64_of_Z (sh_count_ s)).

(** ** Integer logarithms *)

Definition pow_2_round_up (x : Z) : Z :=
  let x := x - 1 in
  let x := Z.lor x (Z.shiftr x 1) in
  let x := Z.lor x (Z.shiftr x 2) in
  let x := Z.lor x (Z.shiftr x 4) in
  let x := Z.lor x (Z.shiftr x 8) in
  let x := Z.lor x (Z.shiftr x 16) in
  x + 1.

(** [while (x >>= 1) ++res;], 32 rounds being enough for a non-negative [int]. *)
Definition log_2_round_down (x : Z) : option Z :=
  loop 32 (fun '(x, res) =>
    let x := Z.shiftr x 1 in
    if x =? 0 then Some (inr res) else Some (inl (x, res + 1))) (x, 0).

(** ** The rightmost one *)

Lemma pred_bits p i :
  0 <= i ->
  Z.testbit (Zpos p - 1) i =
    if i <? pos_ctz p then true else if i =? pos_ctz p then false else Z.testbit (Zpos p) i.
Proof.
  revert i. induction p as [p IH|p IH|]; intros i Hi; cbn [pos_ctz].
  - replace (Z.pos p~1 - 1) with (2 * Z.pos p) by lia. rewrite (Pos2Z.inj_xI p).
    destruct (Z.eq_dec i 0) as [->|]; [by rewrite Z.testbit_even_0|].
    replace i with (Z.succ (i - 1)) by lia.
    rewrite Z.testbit_even_succ, Z.testbit_odd_succ by lia. repeat btest_case; try lia; done.
  - pose proof (pos_ctz_spec p) as (Hc & _). rewrite (Pos2Z.inj_xO p).
    replace (2 * Z.pos p - 1) with (2 * (Z.pos p - 1) + 1) by lia.
    destruct (Z.eq_dec i 0) as [->|].
    + rewrite Z.testbit_odd_0. btest_case; [done|lia].
    + replace i with (Z.succ (i - 1)) by lia.
      rewrite Z.testbit_even_succ, Z.testbit_odd_succ, IH by lia.
      repeat btest_case; try lia; done.
  - change (Z.testbit 1 i) with (Z.testbit (2 ^ 0) i). rewrite pow2_bit by lia.
    replace (1 - 1) with 0 by lia. rewrite Z.bits_0. repeat btest_case; lia || done.
Qed.

Lemma wrap64_bit z i : 0 <= i < 64 -> Z.testbit (wrap64 z) i = Z.testbit z i.
Proof. intros. unfold wrap64. rewrite Z.mod_pow2_bits_low; [done|lia]. Qed.

Lemma word64_wrap z : word64 (wrap64 z).
Proof. unfold word64, wrap64. apply Z.mod_pos_bound. done. Qed.

(** [extract_rightmost_one] isolates the lowest set bit. *)
Lemma extract_rightmost_one_spec v :
  word64 v -> v <> 0 -> extract_rightmost_one v = 2 ^ tzcnt64 v.
Proof.
  intros Hv H0. pose proof (tzcnt64_spec v Hv H0) as (Ht & Hbit & Hlow).
  apply word64_bits_eq.
  - apply word64_land; [done|]. apply word64_wrap.
  - by apply word64_bit.
  - intros i Hi. unfold extract_rightmost_one. rewrite Z.land_spec, wrap64_bit, pow2_bit by lia.
    replace (- v) with (Z.lnot (v - 1)) by (unfold Z.lnot; lia). rewrite Z.lnot_spec by lia.
    destruct v as [|p|p]; [done| |destruct Hv; lia].
    rewrite pred_bits by lia. cbn [tzcnt64] in *.
    repeat btest_case; subst; try lia.
    all: try by rewrite Hbit.
    by rewrite andb_negb_r.
Qed.

(** [remove_rightmost_one] clears exactly the lowest set bit. *)
Lemma remove_rightmost_one_bit v i :
  word64 v -> v <> 0 -> 0 <= i < 64 ->
  Z.testbit (remove_rightmost_one v) i = Z.testbit v i && negb (i =? tzcnt64 v).
Proof.
  intros Hv H0 Hi. pose proof (tzcnt64_spec v Hv H0) as (Ht & Hbit & Hlow).
  unfold remove_rightmost_one. rewrite Z.land_spec, wrap64_bit by lia.
  destruct v as [|p|p]; [done| |destruct Hv; lia].
  rewrite pred_bits by lia. cbn [tzcnt64] in *.
  repeat btest_case; subst; try lia; cbn [negb]; by rewrite ?andb_diag, ?andb_true_r, ?andb_false_r.
Qed.

Lemma remove_rightmost_one_word v : word64 v -> word64 (remove_rightmost_one v).
Proof. intros. apply word64_land; [done|]. apply word64_wrap. Qed.

Lemma get_offset_pow2 w k : 0 <= k < 64 -> get_offset w (2 ^ k) = 64 * w + k.
Proof.
  intros Hk. unfold get_offset, count_ones. rewrite Z.shiftl_mul_pow2 by lia.
  assert (word64 (2 ^ k - 1)) as Hw.
  { pose proof (word64_bit k Hk) as [??]. split; lia. }
  unfold wrap64. rewrite Z.mod_small by apply Hw.
  rewrite popcnt64_cnt by done.
  rewrite (cnt_split _ 0 k 64) by lia.
  rewrite cnt_full, cnt_zero; [lia| |lia|].
  - intros i Hi. rewrite ones_bit by lia. btest_case; [lia|done].
  - intros i Hi. rewrite ones_bit by lia. btest_case; [done|lia].
Qed.

(** The offset of the rightmost one of word [w] is its position in the bitmap. *)
Lemma get_offset_rightmost w v :
  word64 v -> v <> 0 -> get_offset w (extract_rightmost_one v) = 64 * w + tzcnt64 v.
Proof.
  intros Hv H0. rewrite extract_rightmost_one_spec by done.
  apply get_offset_pow2. by apply tzcnt64_spec.
Qed.

(** ** The integer logarithms *)

(** [x] has bit [i] set when [n] has a bit set in the window [i, i + w). *)
Definition smeared (w n x : Z) : Prop :=
  forall i, 0 <= i -> Z.testbit x i = true <-> exists j, i <= j < i + w /\ Z.testbit n j = true.

Lemma smeared_step w n x : 0 < w -> smeared w n x -> smeared (2 * w) n (Z.lor x (Z.shiftr x w)).
Proof.
  intros Hw H i Hi. rewrite Z.lor_spec, Z.shiftr_spec, orb_true_iff, (H i), (H (i + w)) by lia.
  split.
  - intros [(j & Hj & E)|(j & Hj & E)]; exists j; (split; [lia|done]).
  - intros (j & Hj & E). destruct (Z.lt_ge_cases j (i + w)); [left|right];
      exists j; (split; [lia|done]).
Qed.

(** [pow_2_round_up] returns the smallest power of two not below its argument,
    for every argument whose result is an [int]. *)
Lemma pow_2_round_up_log2 x : 1 <= x <= 2 ^ 30 -> pow_2_round_up x = 2 ^ Z.log2_up x.
Proof.
  intros Hx. destruct (Z.eq_dec x 1) as [->|]; [done|].
  unfold pow_2_round_up. cbv zeta.
  assert (H0 : smeared 1 (x - 1) (x - 1)).
  { intros i Hi. split.
    - intros E. exists i. split; [lia|done].
    - intros (j & Hj & E). by replace i with j by lia. }
  apply (smeared_step 1) in H0; [|lia].
  apply (smeared_step 2) in H0; [|lia].
  apply (smeared_step 4) in H0; [|lia].
  apply (smeared_step 8) in H0; [|lia].
  apply (smeared_step 16) in H0; [|lia].
  set (y := Z.lor _ (Z.shiftr _ 16)) in *.
  assert (HL : 0 <= Z.log2 (x - 1) < 30).
  { split; [apply Z.log2_nonneg|]. apply Z.log2_lt_pow2; lia. }
  assert (y = Z.ones (Z.log2 (x - 1) + 1)) as ->.
  { apply Z.bits_inj'. intros i Hi. apply eq_true_iff_eq. rewrite (H0 i Hi).
    rewrite Z.testbit_ones_nonneg by lia. rewrite Z.ltb_lt. split.
    - intros (j & Hj & E). apply Z.lt_nge. intros Hge.
      rewrite Z.bits_above_log2 in E by lia. done.
    - intros Hlt. exists (Z.log2 (x - 1)). split; [lia|]. apply Z.bit_log2. lia. }
  rewrite Z.ones_equiv, Z.log2_up_eqn by lia.
  replace (Z.log2 (Z.pred x)) with (Z.log2 (x - 1)) by (f_equal; lia).
  unfold Z.succ. lia.
Qed.

Lemma log_2_round_down_log2 x : 1 <= x < 2 ^ 31 -> log_2_round_down x = Some (Z.log2 x).
Proof.
  intros Hx. unfold log_2_round_down.
  destruct (loop_spec
    (fun '(y, res) => 1 <= y < 2 ^ 31 /\ 0 <= res /\ Z.log2 x = Z.log2 y + res)
    (fun res => res = Z.log2 x) (fun '(y, _) => Z.log2 y)
    (fun '(x, res) => let x := Z.shiftr x 1 in
       if x =? 0 then Some (inr res) else Some (inl (x, res + 1)))) with (fuel := 32%nat) (s := (x, 0))
    as (r & E & ->); [|lia| |apply Z.log2_nonneg|done].
  - intros [y res] (Hy & Hr & Hl). cbv zeta. rewrite Z.shiftr_div_pow2 by lia.
    change (2 ^ 1) with 2. pose proof (Z.div_mod y 2 ltac:(lia)). pose proof (Z.mod_pos_bound y 2 ltac:(lia)).
    destruct (Z.eqb_spec (y / 2) 0) as [E0|E0].
    + assert (y = 1) as -> by lia. rewrite Hl. simpl. lia.
    + assert (Z.log2 y = Z.log2 (y / 2) + 1).
      { rewrite <-Z.div2_div, Z.div2_spec, Z.log2_shiftr by lia.
        assert (1 <= Z.log2 y). { change 1 with (Z.log2 2) at 1. apply Z.log2_le_mono. lia. } lia. }
      pose proof (Z.log2_nonneg (y / 2)). lia.
  - apply Z.lt_trans with 31; [|lia]. apply Z.log2_lt_pow2; lia.
Qed.
