(* ===== verification/AlexBitmap.v ===== *)
(** * ALEX: the occupancy bitmap of a data node (alex/src/alex_nodes.h)

    One bit per slot, 64 slots to a word, read from the right-most bit.  The
    routines take the fields of the node they read: [bitmap] is [bitmap_],
    [bitmap_size] is [bitmap_size_], [data_capacity] is [data_capacity_].
    [bitv] is the reference view of a bitmap as a boolean per slot; each
    word-level routine is proved equal to its definition on that view. *)

From S2P Require Import Prelude Words AlexBase.
Local Open Scope Z_scope.
Local Open Scope cxx_scope.

(** ** Operations *)

Definition check_exists (bitmap : list Z) (pos : Z) : option bool :=
  let bitmap_pos := Z.shiftr pos 6 in
  let bit_pos := pos - Z.shiftl bitmap_pos 6 in
  w ← bitmap.[bitmap_pos];
  b ← bit64 bit_pos;
  Some (negb (Z.land w b =? 0)).

Definition set_bit (bitmap : list Z) (pos : Z) : option (list Z) :=
  let bitmap_pos := Z.shiftr pos 6 in
  let bit_pos := pos - Z.shiftl bitmap_pos 6 in
  w ← bitmap.[bitmap_pos];
  b ← bit64 bit_pos;
  wr bitmap bitmap_pos (Z.lor w b).

Definition unset_bit (bitmap : list Z) (pos : Z) : option (list Z) :=
  let bitmap_pos := Z.shiftr pos 6 in
  let bit_pos := pos - Z.shiftl bitmap_pos 6 in
  w ← bitmap.[bitmap_pos];
  b ← bit64 bit_pos;
  wr bitmap bitmap_pos (Z.land w (not64 b)).

Definition num_keys_in_range (bitmap : list Z) (bitmap_size left right : Z) : option Z :=
  let left_bitmap_idx := Z.shiftr left 6 in
  let right_bitmap_idx := Z.shiftr right 6 in
  if left_bitmap_idx =? right_bitmap_idx then
    bitmap_data ← bitmap.[left_bitmap_idx];
    left_bit ← bit64 (left - Z.shiftl left_bitmap_idx 6);
    let bitmap_data := Z.land bitmap_data (not64 (left_bit - 1)) in
    right_bit ← bit64 (right - Z.shiftl right_bitmap_idx 6);
    let bitmap_data := Z.land bitmap_data (right_bit - 1) in
    Some (popcnt64 bitmap_data)
  else
    left_bitmap_data ← bitmap.[left_bitmap_idx];
    left_bit ← bit64 (left - Z.shiftl left_bitmap_idx 6);
    let num_keys := popcnt64 (Z.land left_bitmap_data (not64 (left_bit - 1))) in
    num_keys ← for_up (left_bitmap_idx + 1) right_bitmap_idx
      (fun i num_keys => w ← bitmap.[i]; Some (num_keys + popcnt64 w)) num_keys;
    if right_bitmap_idx =? bitmap_size then Some num_keys
    else
      right_bitmap_data ← bitmap.[right_bitmap_idx];
      right_bit ← bit64 (right - Z.shiftl right_bitmap_idx 6);
      Some (num_keys + popcnt64 (Z.land right_bitmap_data (right_bit - 1))).

Definition get_next_filled_position (bitmap : list Z) (bitmap_size data_capacity : Z)
    (pos : Z) (exclusive : bool) : option Z :=
  let pos := if exclusive then pos + 1 else pos in
  if exclusive && (pos =? data_capacity) then Some data_capacity
  else
    let curBitmapIdx := Z.shiftr pos 6 in
    curBitmapData ← bitmap.[curBitmapIdx];
    bit ← bit64 (pos - Z.shiftl curBitmapIdx 6);
    let curBitmapData := Z.land curBitmapData (not64 (bit - 1)) in
    loop (S (length bitmap)) (fun '(curBitmapIdx, curBitmapData) =>
      if curBitmapData =? 0 then
        let curBitmapIdx := curBitmapIdx + 1 in
        if bitmap_size <=? curBitmapIdx then Some (inr data_capacity)
        else w ← bitmap.[curBitmapIdx]; Some (inl (curBitmapIdx, w))
      else Some (inr (get_offset curBitmapIdx (extract_rightmost_one curBitmapData))))
      (curBitmapIdx, curBitmapData).

(** The forward iterator over the filled slots. *)
Record Iterator := mkIterator { cur_idx_ : Z; cur_bitmap_idx_ : Z; cur_bitmap_data_ : Z }.

(** [operator++]. *)
Definition it_next (bitmap : list Z) (bitmap_size : Z) (it : Iterator) : option Iterator :=
  loop (S (length bitmap)) (fun '(idx, data) =>
    if data =? 0 then
      let idx := idx + 1 in
      if bitmap_size <=? idx then Some (inr (mkIterator (-1) idx data))
      else w ← bitmap.[idx]; Some (inl (idx, w))
    else Some (inr (mkIterator (get_offset idx (extract_rightmost_one data)) idx
                               (remove_rightmost_one data))))
    (cur_bitmap_idx_ it, cur_bitmap_data_ it).

(** [Iterator(node, idx)] with [initialize]. *)
Definition it_init (bitmap : list Z) (bitmap_size idx : Z) : option Iterator :=
  let bitmap_idx := Z.shiftr idx 6 in
  w ← bitmap.[bitmap_idx];
  bit ← bit64 (idx - Z.shiftl bitmap_idx 6);
  it_next bitmap bitmap_size (mkIterator idx bitmap_idx (Z.land w (not64 (bit - 1)))).

Definition is_end (it : Iterator) : bool := cur_idx_ it =? -1.

(** [((i + 1) << 6) - _lzcnt_u64(~bitmap_[i]) - 1] and
    [(i << 6) + _tzcnt_u64(~bitmap_[i])]: the gap of word [i] nearest to its
    right and to its left end. *)
Definition left_gap_of (i w : Z) : Z := Z.shiftl (i + 1) 6 - lzcnt64 (not64 w) - 1.
Definition right_gap_of (i w : Z) : Z := Z.shiftl i 6 + tzcnt64 (not64 w).

(** One round of the bidirectional search over the adjacent words: [inl d] goes
    on at distance [d], [inr (inl g)] returns the gap [g], [inr (inr d)] leaves
    the loop at distance [d]. *)
Definition bidirectional_round (bitmap : list Z) (bitmap_size data_capacity : Z)
    (pos bitmap_pos bit_pos max_bidirectional_bitmap_offset bitmap_distance : Z)
    : option (Z + (Z + Z)) :=
  if bitmap_distance <=? max_bidirectional_bitmap_offset then
    left_bitmap_data ← bitmap.[bitmap_pos - bitmap_distance];
    right_bitmap_data ← bitmap.[bitmap_pos + bitmap_distance];
    if negb (left_bitmap_data =? u64_max) && negb (right_bitmap_data =? u64_max) then
      let left_gap_pos := left_gap_of (bitmap_pos - bitmap_distance) left_bitmap_data in
      let right_gap_pos := right_gap_of (bitmap_pos + bitmap_distance) right_bitmap_data in
      if (pos - left_gap_pos <=? right_gap_pos - pos) || (data_capacity <=? right_gap_pos)
      then Some (inr (inl left_gap_pos)) else Some (inr (inl right_gap_pos))
    else if negb (left_bitmap_data =? u64_max) then
      let left_gap_pos := left_gap_of (bitmap_pos - bitmap_distance) left_bitmap_data in
      if (32 <? bit_pos) && (bitmap_pos + bitmap_distance + 1 <? bitmap_size) then
        next_data ← bitmap.[bitmap_pos + bitmap_distance + 1];
        if negb (next_data =? u64_max) then
          let right_gap_pos := right_gap_of (bitmap_pos + bitmap_distance + 1) next_data in
          if (pos - left_gap_pos <=? right_gap_pos - pos) || (data_capacity <=? right_gap_pos)
          then Some (inr (inl left_gap_pos)) else Some (inr (inl right_gap_pos))
        else Some (inr (inl left_gap_pos))
      else Some (inr (inl left_gap_pos))
    else if negb (right_bitmap_data =? u64_max) then
      let right_gap_pos := right_gap_of (bitmap_pos + bitmap_distance) right_bitmap_data in
      if right_gap_pos <? data_capacity then
        if (bit_pos <? 32) && (0 <? bitmap_pos - bitmap_distance) then
          next_data ← bitmap.[bitmap_pos - bitmap_distance - 1];
          if negb (next_data =? u64_max) then
            let left_gap_pos := left_gap_of (bitmap_pos - bitmap_distance - 1) next_data in
            if (pos - left_gap_pos <=? right_gap_pos - pos) || (data_capacity <=? right_gap_pos)
            then Some (inr (inl left_gap_pos)) else Some (inr (inl right_gap_pos))
          else Some (inr (inl right_gap_pos))
        else Some (inr (inl right_gap_pos))
      else Some (inl (bitmap_distance + 1))
    else Some (inl (bitmap_distance + 1))
  else Some (inr (inr bitmap_distance)).

(** [for (i = start; i >= left_bitmap_pos; i--)]: the first word with a gap. *)
Definition search_left (bitmap : list Z) (left_bitmap_pos start : Z) : option Z :=
  loop (S (S (length bitmap))) (fun i =>
    if left_bitmap_pos <=? i then
      w ← bitmap.[i];
      if negb (w =? u64_max) then Some (inr (left_gap_of i w)) else Some (inl (i - 1))
    else Some (inr (-1))) start.

(** [for (i = start; i <= right_bitmap_pos; i++)]: likewise to the right. *)
Definition search_right (bitmap : list Z) (data_capacity right_bitmap_pos start : Z) : option Z :=
  loop (S (S (length bitmap))) (fun i =>
    if i <=? right_bitmap_pos then
      w ← bitmap.[i];
      if negb (w =? u64_max) then
        let right_gap_pos := right_gap_of i w in
        Some (inr (if data_capacity <=? right_gap_pos then -1 else right_gap_pos))
      else Some (inl (i + 1))
    else Some (inr (-1))) start.

(** Position [pos] lies in a word without gaps: search the adjacent words. *)
Definition closest_gap_outside (bitmap : list Z) (bitmap_size data_capacity : Z)
    (pos bitmap_pos bit_pos : Z) : option Z :=
  let left_bitmap_pos := 0 in
  let right_bitmap_pos := Z.shiftr (data_capacity - 1) 6 in
  let max_left_bitmap_offset := bitmap_pos - left_bitmap_pos in
  let max_right_bitmap_offset := right_bitmap_pos - bitmap_pos in
  let max_bidirectional_bitmap_offset := Z.min max_left_bitmap_offset max_right_bitmap_offset in
  found ← loop (S (length bitmap))
    (bidirectional_round bitmap bitmap_size data_capacity pos bitmap_pos bit_pos
       max_bidirectional_bitmap_offset) 1;
  match found with
  | inl gap => Some gap
  | inr bitmap_distance =>
      if max_right_bitmap_offset <? max_left_bitmap_offset
      then search_left bitmap left_bitmap_pos (bitmap_pos - bitmap_distance)
      else search_right bitmap data_capacity right_bitmap_pos (bitmap_pos + bitmap_distance)
  end.

(** Position [pos] lies in word [bitmap_data], which has a gap. *)
Definition closest_gap_inside (bitmap : list Z) (bitmap_size data_capacity : Z)
    (pos bitmap_pos bit_pos bitmap_data : Z) : option Z :=
  bit ← bit64 bit_pos;
  let bitmap_right_gaps := not64 (Z.lor bitmap_data (bit - 1)) in
  closest_right_gap_distance ←
    (if negb (bitmap_right_gaps =? 0) then Some (tzcnt64 bitmap_right_gaps - bit_pos)
     else if bitmap_pos + 1 <? bitmap_size then
       w ← bitmap.[bitmap_pos + 1]; Some (64 + tzcnt64 (not64 w) - bit_pos)
     else Some 64);
  let bitmap_left_gaps := Z.land (not64 bitmap_data) (bit - 1) in
  closest_left_gap_distance ←
    (if negb (bitmap_left_gaps =? 0) then Some (bit_pos - (63 - lzcnt64 bitmap_left_gaps))
     else if 0 <? bitmap_pos then
       w ← bitmap.[bitmap_pos - 1]; Some (bit_pos + lzcnt64 (not64 w) + 1)
     else Some 64);
  Some (if (closest_right_gap_distance <? closest_left_gap_distance) &&
           (pos + closest_right_gap_distance <? data_capacity)
        then pos + closest_right_gap_distance
        else pos - closest_left_gap_distance).

Definition closest_gap (bitmap : list Z) (bitmap_size data_capacity : Z) (pos : Z) : option Z :=
  let pos := Z.min pos (data_capacity - 1) in
  let bitmap_pos := Z.shiftr pos 6 in
  let bit_pos := pos - Z.shiftl bitmap_pos 6 in
  bitmap_data ← bitmap.[bitmap_pos];
  if (bitmap_data =? u64_max) ||
     ((bitmap_pos =? bitmap_size - 1) &&
      (popcnt64 bitmap_data =? data_capacity - Z.shiftl (bitmap_size - 1) 6))
  then closest_gap_outside bitmap bitmap_size data_capacity pos bitmap_pos bit_pos
  else closest_gap_inside bitmap bitmap_size data_capacity pos bitmap_pos bit_pos bitmap_data.

(** ** The boolean view *)

Definition bitv (bitmap : list Z) (i : Z) : bool := Z.testbit (at_ 0 bitmap (i / 64)) (i mod 64).

(** Every word is a [uint64_t]. *)
Definition words_ok (bitmap : list Z) : Prop := forall i, word64 (at_ 0 bitmap i).

(** The bitmap of a node with [data_capacity] slots: enough words, and no bit
    set past the last slot. *)
Record bitmap_ok (bitmap : list Z) (bitmap_size data_capacity : Z) : Prop := {
  bo_cap : 0 < data_capacity;
  bo_size : bitmap_size = (data_capacity + 63) / 64;
  bo_len : zlen bitmap = bitmap_size;
  bo_words : words_ok bitmap;
  bo_pad : forall i, data_capacity <= i < 64 * bitmap_size -> bitv bitmap i = false
}.

(** [g] is a gap and no gap lies strictly between it and [pos]. *)
Definition nearest_gap (bitmap : list Z) (data_capacity pos g : Z) : Prop :=
  0 <= g < data_capacity /\ bitv bitmap g = false /\
  (forall i, g < i <= pos -> bitv bitmap i = true) /\
  (forall i, pos <= i < g -> bitv bitmap i = true).

(** ** Words and slots *)

Lemma div64_lo w b : 0 <= b < 64 -> (64 * w + b) / 64 = w.
Proof. intros. rewrite Z.mul_comm, Z.div_add_l by lia. rewrite Z.div_small by lia. lia. Qed.

Lemma mod64_lo w b : 0 <= b < 64 -> (64 * w + b) mod 64 = b.
Proof. intros. rewrite Z.add_comm, Z.mul_comm, Z.mod_add by lia. by rewrite Z.mod_small. Qed.

Lemma pos64 i : i = 64 * (i / 64) + i mod 64 /\ 0 <= i mod 64 < 64.
Proof. split; [apply Z.div_mod; lia|apply Z.mod_pos_bound; lia]. Qed.

Lemma shiftr6 i : Z.shiftr i 6 = i / 64.
Proof. by rewrite Z.shiftr_div_pow2 by lia. Qed.

Lemma shiftl6 i : Z.shiftl i 6 = 64 * i.
Proof. rewrite Z.shiftl_mul_pow2 by lia. lia. Qed.

Lemma bit_pos64 i : i - 64 * (i / 64) = i mod 64.
Proof. pose proof (pos64 i). lia. Qed.

#[export] Hint Rewrite shiftr6 shiftl6 bit_pos64 : cxx.

Lemma bitv_word bm w b : 0 <= b < 64 -> bitv bm (64 * w + b) = Z.testbit (at_ 0 bm w) b.
Proof. intros. unfold bitv. by rewrite div64_lo, mod64_lo. Qed.

Lemma bitv_split bm i : bitv bm i = Z.testbit (at_ 0 bm (i / 64)) (i mod 64).
Proof. done. Qed.

Lemma div64_range i n : 0 <= i < 64 * n -> 0 <= i / 64 < n.
Proof. intros. pose proof (pos64 i). lia. Qed.

Lemma rd_word bm i : 0 <= i < zlen bm -> rd bm i = Some (at_ 0 bm i).
Proof. apply rd_at. Qed.

Lemma word64_0 : word64 0.
Proof. split; [lia|done]. Qed.

Lemma words_ok_intro bm : (forall i w, rd bm i = Some w -> word64 w) -> words_ok bm.
Proof.
  intros H i. unfold at_. destruct (rd bm i) as [w|] eqn:E; [by apply (H i)|apply word64_0].
Qed.

Lemma land_bit_test w b : 0 <= b < 64 -> negb (Z.land w (2 ^ b) =? 0) = Z.testbit w b.
Proof.
  intros Hb. assert (Hbit : forall i, Z.testbit (Z.land w (2 ^ b)) i = Z.testbit w i && (i =? b)).
  { intros i. by rewrite Z.land_spec, pow2_bit by lia. }
  destruct (Z.eqb_spec (Z.land w (2 ^ b)) 0) as [E|E]; simpl.
  - specialize (Hbit b). rewrite E, Z.bits_0, Z.eqb_refl, andb_true_r in Hbit. done.
  - destruct (Z.testbit w b) eqn:Et; [done|]. exfalso. apply E, Z.bits_inj_0. intros i.
    rewrite Hbit. destruct (Z.eqb_spec i b) as [->|]; [by rewrite Et|by rewrite andb_false_r].
Qed.

(** [check_exists] reads the slot's bit. *)
Lemma check_exists_spec bm i :
  0 <= i < 64 * zlen bm -> check_exists bm i = Some (bitv bm i).
Proof.
  intros Hi. unfold check_exists. autorewrite with cxx.
  pose proof (pos64 i) as [_ Hm]. rewrite rd_word by (by apply div64_range).
  rewrite bit64_in by done. simpl. by rewrite land_bit_test.
Qed.

Lemma check_exists_Some bm i b : check_exists bm i = Some b -> b = bitv bm i.
Proof.
  unfold check_exists. autorewrite with cxx. intros H. inv_bind H.
  pose proof (rd_Some _ _ _ E) as Hr. rewrite rd_word in E by done. simplify_eq.
  rewrite bit64_in in H by apply pos64. simpl in H. simplify_eq.
  rewrite land_bit_test by apply pos64. done.
Qed.

Lemma wr_word_bitv bm w v bm' j :
  wr bm w v = Some bm' ->
  bitv bm' j = if j / 64 =? w then Z.testbit v (j mod 64) else bitv bm j.
Proof. intros H. unfold bitv. rewrite (at_wr 0 _ _ _ _ _ H). by btest_case. Qed.

Lemma wr_words_ok bm w v bm' : words_ok bm -> word64 v -> wr bm w v = Some bm' -> words_ok bm'.
Proof. intros Hok Hv H i. rewrite (at_wr 0 _ _ _ _ _ H). by btest_case. Qed.

Lemma slot_eqb i j : (j =? i) = (j / 64 =? i / 64) && (j mod 64 =? i mod 64).
Proof.
  pose proof (pos64 i). pose proof (pos64 j).
  destruct (Z.eqb_spec j i) as [->|]; [by rewrite !Z.eqb_refl|].
  destruct (Z.eqb_spec (j / 64) (i / 64)); [|done].
  destruct (Z.eqb_spec (j mod 64) (i mod 64)); [lia|done].
Qed.

(** [set_bit] marks exactly one slot. *)
Lemma set_bit_spec bm i :
  words_ok bm -> 0 <= i < 64 * zlen bm ->
  exists bm', set_bit bm i = Some bm' /\ zlen bm' = zlen bm /\ words_ok bm' /\
    forall j, bitv bm' j = if j =? i then true else bitv bm j.
Proof.
  intros Hok Hi. unfold set_bit. autorewrite with cxx.
  pose proof (pos64 i) as [_ Hm]. rewrite rd_word by (by apply div64_range).
  rewrite bit64_in by done. simpl.
  destruct (wr_in bm (i / 64) (Z.lor (at_ 0 bm (i / 64)) (2 ^ (i mod 64)))) as [bm' E];
    [by apply div64_range|].
  exists bm'. split; [done|]. split; [by apply zlen_wr in E|]. split.
  { eapply wr_words_ok, E; [done|]. auto with cxx. }
  intros j. rewrite (wr_word_bitv _ _ _ _ _ E), (slot_eqb i j), bitv_split.
  destruct (Z.eqb_spec (j / 64) (i / 64)) as [->|]; [|done].
  rewrite Z.lor_spec, pow2_bit by lia. simpl. btest_case; [by rewrite orb_true_r|by rewrite orb_false_r].
Qed.

(** [unset_bit] clears exactly one slot. *)
Lemma unset_bit_spec bm i :
  words_ok bm -> 0 <= i < 64 * zlen bm ->
  exists bm', unset_bit bm i = Some bm' /\ zlen bm' = zlen bm /\ words_ok bm' /\
    forall j, bitv bm' j = if j =? i then false else bitv bm j.
Proof.
  intros Hok Hi. unfold unset_bit. autorewrite with cxx.
  pose proof (pos64 i) as [_ Hm]. rewrite rd_word by (by apply div64_range).
  rewrite bit64_in by done. simpl.
  destruct (wr_in bm (i / 64) (Z.land (at_ 0 bm (i / 64)) (not64 (2 ^ (i mod 64))))) as [bm' E];
    [by apply div64_range|].
  assert (word64 (not64 (2 ^ (i mod 64)))) as Hn by auto with cxx.
  exists bm'. split; [done|]. split; [by apply zlen_wr in E|]. split.
  { eapply wr_words_ok, E; [done|]. apply word64_land; [done|apply Hn]. }
  intros j. rewrite (wr_word_bitv _ _ _ _ _ E), (slot_eqb i j), bitv_split.
  destruct (Z.eqb_spec (j / 64) (i / 64)) as [->|]; [|done].
  rewrite Z.land_spec, not64_bit, pow2_bit by (auto with cxx || apply pos64 || lia).
  simpl. btest_case; [by rewrite andb_false_r|by rewrite andb_true_r].
Qed.

(** ** Counting *)

(** The set bits of a masked word are the filled slots under the mask. *)
Lemma popcnt_masked bm w m lo hi :
  words_ok bm -> word64 m -> 0 <= lo <= hi -> hi <= 64 ->
  (forall i, 0 <= i < 64 -> Z.testbit m i = (lo <=? i) && (i <? hi)) ->
  popcnt64 (Z.land (at_ 0 bm w) m) = cnt (bitv bm) (64 * w + lo) (64 * w + hi).
Proof.
  intros Hok Hm Hlo Hhi Hmask. rewrite popcnt64_cnt by (apply word64_land; [apply Hok|apply Hm]).
  rewrite (cnt_split _ 0 lo 64), (cnt_split _ lo hi 64) by lia.
  rewrite (cnt_zero _ 0 lo), (cnt_zero _ hi 64).
  - rewrite !(Z.add_comm (64 * w)), cnt_shift, Z.add_0_l, Z.add_0_r. apply cnt_ext.
    intros i Hi. rewrite (Z.add_comm i), bitv_word, Z.land_spec, Hmask by lia.
    repeat btest_case; try lia. by rewrite andb_true_r.
  - intros i Hi. rewrite Z.land_spec, Hmask by lia. repeat btest_case; try lia; by rewrite andb_false_r.
  - intros i Hi. rewrite Z.land_spec, Hmask by lia. repeat btest_case; try lia; by rewrite andb_false_r.
Qed.

Lemma not64_ones_word b : 0 <= b < 64 -> word64 (not64 (2 ^ b - 1)).
Proof. intros Hb. apply word64_not. pose proof (word64_bit b Hb) as [??]. split; lia. Qed.

Lemma ones_word b : 0 <= b < 64 -> word64 (2 ^ b - 1).
Proof. intros Hb. pose proof (word64_bit b Hb) as [??]. split; lia. Qed.

(** The mask [~((1ULL << b) - 1)]. *)
Lemma high_mask_bit b i : 0 <= b < 64 -> 0 <= i < 64 -> Z.testbit (not64 (2 ^ b - 1)) i = (b <=? i).
Proof.
  intros Hb Hi. rewrite not64_bit, ones_bit by (by apply ones_word || lia).
  repeat btest_case; try lia; done.
Qed.

Lemma popcnt_word bm w : words_ok bm -> popcnt64 (at_ 0 bm w) = cnt (bitv bm) (64 * w) (64 * w + 64).
Proof.
  intros Hok. replace (cnt (bitv bm) (64 * w) (64 * w + 64))
    with (cnt (bitv bm) (64 * w + 0) (64 * w + 64)) by (f_equal; lia).
  rewrite <-(popcnt_masked bm w u64_max 0 64); [|done|done|lia|lia|].
  - f_equal. apply word64_bits_eq; [done|apply word64_land; [done|done]|].
    intros i Hi. rewrite Z.land_spec, u64_max_bit by lia. btest_case; [by rewrite andb_true_r|lia].
  - intros i Hi. rewrite u64_max_bit by lia. repeat btest_case; try lia; done.
Qed.

(** [num_keys_in_range], which counts by words with masks and population
    counts, returns the number of filled slots of [left, right). *)
Theorem num_keys_in_range_correct bm bsize left right :
  words_ok bm -> zlen bm = bsize ->
  0 <= left <= right -> right <= 64 * bsize -> (left < right \/ right < 64 * bsize) ->
  num_keys_in_range bm bsize left right = Some (cnt (bitv bm) left right).
Proof.
  intros Hok Hlen Hlr Hr Hne. unfold num_keys_in_range. autorewrite with cxx.
  pose proof (pos64 left) as [El Hml]. pose proof (pos64 right) as [Er Hmr].
  set (L := left / 64) in *. set (R := right / 64) in *.
  destruct (Z.eqb_spec L R) as [E|E].
  - rewrite rd_word by lia. rewrite !bit64_in by done. cbn [mbind option_bind].
    rewrite <-Z.land_assoc.
    assert (Hw := not64_ones_word (left mod 64) Hml). assert (Hw' := ones_word (right mod 64) Hmr).
    rewrite (popcnt_masked bm L _ (left mod 64) (right mod 64)).
    + do 2 f_equal; lia.
    + done.
    + apply word64_land; [done|apply Hw'].
    + lia.
    + lia.
    + intros i Hi. by rewrite Z.land_spec, high_mask_bit, ones_bit by lia.
  - assert (L < R) by lia. rewrite (rd_word bm L) by lia. rewrite !bit64_in by done. cbn [mbind option_bind].
    rewrite (popcnt_masked bm L _ (left mod 64) 64);
      [|done|by apply not64_ones_word|lia|lia|].
    2: { intros i Hi. rewrite high_mask_bit by lia. repeat btest_case; lia || done. }
    destruct (for_up_spec (fun k n => n = cnt (bitv bm) left (64 * k))
      (fun i num_keys => w ← bm.[i]; Some (num_keys + popcnt64 w)) (L + 1) R
      (cnt (bitv bm) (64 * L + left mod 64) (64 * L + 64))) as (n & Eloop & ->).
    + lia.
    + f_equal; lia.
    + intros i n Hi ->. rewrite rd_word by lia. simpl. eexists. split; [done|].
      rewrite popcnt_word, (cnt_split _ left (64 * i) (64 * (i + 1))) by (done || lia).
      f_equal. f_equal. lia.
    + rewrite Eloop. cbn [mbind option_bind]. destruct (Z.eqb_spec R bsize) as [ER|ER].
      * do 2 f_equal. lia.
      * rewrite rd_word by lia. rewrite ?bit64_in by done. cbn [mbind option_bind].
        rewrite (popcnt_masked bm R _ 0 (right mod 64));
          [|done|by apply ones_word|lia|lia|intros; rewrite ones_bit by lia; repeat btest_case; lia || done].
        rewrite (cnt_split _ left (64 * R) right) by lia. do 3 f_equal; lia.
Qed.

(** ** Scanning forward *)

(** [data] holds the bits of word [idx] at positions [>= q], and every later
    word lies past [q]. *)
Definition scan_at (bm : list Z) (q : Z) '(idx, data) : Prop :=
  0 <= idx < zlen bm /\ word64 data /\ q <= 64 * (idx + 1) /\
  forall j, 0 <= j < 64 -> Z.testbit data j = bitv bm (64 * idx + j) && (q <=? 64 * idx + j).

Lemma scan_at_word bm idx : words_ok bm -> 0 <= idx < zlen bm -> scan_at bm (64 * idx) (idx, at_ 0 bm idx).
Proof.
  intros Hok Hi. split; [done|]. split; [apply Hok|]. split; [lia|].
  intros j Hj. rewrite bitv_word by done. btest_case; [by rewrite andb_true_r|lia].
Qed.

Lemma scan_at_masked bm q :
  words_ok bm -> 0 <= q < 64 * zlen bm ->
  scan_at bm q (q / 64, Z.land (at_ 0 bm (q / 64)) (not64 (2 ^ (q mod 64) - 1))).
Proof.
  intros Hok Hq. pose proof (pos64 q) as [Eq Hm]. split; [by apply div64_range|].
  split; [apply word64_land; [apply Hok|by apply not64_ones_word]|]. split; [lia|].
  intros j Hj. rewrite Z.land_spec, high_mask_bit, bitv_word by done. f_equal.
  repeat btest_case; lia || done.
Qed.

Lemma scan_at_zero bm q idx i :
  scan_at bm q (idx, 0) -> q <= i < 64 * (idx + 1) -> 64 * idx <= i -> bitv bm i = false.
Proof.
  intros (_ & _ & _ & Hb) Hi Hlo. specialize (Hb (i - 64 * idx)).
  replace (64 * idx + (i - 64 * idx)) with i in Hb by lia.
  rewrite Z.bits_0 in Hb. destruct (Z.leb_spec q i); [|lia].
  rewrite andb_true_r in Hb. symmetry. apply Hb. lia.
Qed.

(** The lowest bit of [data] is the first filled position not before [q]. *)
Lemma scan_at_found bm q idx data :
  scan_at bm q (idx, data) -> data <> 0 ->
  let r := 64 * idx + tzcnt64 data in
  q <= r /\ r < 64 * (idx + 1) /\ bitv bm r = true /\
  (forall i, 64 * idx <= i -> q <= i < r -> bitv bm i = false) /\
  scan_at bm (r + 1) (idx, remove_rightmost_one data).
Proof.
  intros (Hi & Hw & Hq & Hb) H0 r. pose proof (tzcnt64_spec _ Hw H0) as (Ht & Hbit & Hlow).
  assert (bitv bm r = true /\ q <= r) as [Hr Hqr].
  { rewrite Hb in Hbit by done. apply andb_prop in Hbit as [? ?]. btest. done. }
  split; [done|]. split; [lia|]. split; [done|]. split.
  - intros i Hlo Hir. specialize (Hlow (i - 64 * idx) ltac:(lia)). rewrite Hb in Hlow by lia.
    replace (64 * idx + (i - 64 * idx)) with i in Hlow by lia.
    destruct (Z.leb_spec q i); [|lia]. by rewrite andb_true_r in Hlow.
  - split; [done|]. split; [by apply remove_rightmost_one_word|]. split; [lia|].
    intros j Hj. rewrite remove_rightmost_one_bit, Hb by done.
    destruct (Z.lt_ge_cases j (tzcnt64 data)) as [Hlt|Hge].
    + specialize (Hlow j ltac:(lia)). rewrite Hb in Hlow by done. rewrite Hlow.
      destruct (Z.leb_spec (r + 1) (64 * idx + j)); [lia|]. by rewrite andb_false_r.
    + destruct (Z.leb_spec q (64 * idx + j)); [|lia]. rewrite andb_true_r. f_equal.
      repeat btest_case; lia || done.
Qed.

(** [it_next] moves to the first filled slot not before [q], or to the end. *)
Lemma it_next_spec bm bsize it q :
  words_ok bm -> zlen bm = bsize ->
  scan_at bm q (cur_bitmap_idx_ it, cur_bitmap_data_ it) -> 64 * cur_bitmap_idx_ it <= q ->
  exists it', it_next bm bsize it = Some it' /\
    ((cur_idx_ it' = -1 /\ forall i, q <= i < 64 * bsize -> bitv bm i = false) \/
     (q <= cur_idx_ it' < 64 * bsize /\ bitv bm (cur_idx_ it') = true /\
      (forall i, q <= i < cur_idx_ it' -> bitv bm i = false) /\
      64 * cur_bitmap_idx_ it' <= cur_idx_ it' /\
      scan_at bm (cur_idx_ it' + 1) (cur_bitmap_idx_ it', cur_bitmap_data_ it'))).
Proof.
  intros Hok Hlen Hscan Hq. unfold it_next.
  eapply (loop_spec
    (fun '(idx, data) => exists q', q <= q' /\ 64 * idx <= q' /\ scan_at bm q' (idx, data) /\
       forall i, q <= i < q' -> bitv bm i = false)
    _ (fun '(idx, _) => bsize - idx)).
  - intros [idx data] (q' & Hqq & Hlo & Hs & Hno). pose proof Hs as (Hi & Hw & Hq' & _).
    destruct (Z.eqb_spec data 0) as [->|Hd].
    + assert (Hno' : forall i, q <= i < 64 * (idx + 1) -> bitv bm i = false).
      { intros i Hii. destruct (Z.lt_ge_cases i q'); [apply Hno; lia|].
        apply (scan_at_zero bm q' idx i); [done|lia|lia]. }
      destruct (Z.leb_spec bsize (idx + 1)).
      * left. split; [done|]. intros i Hii. apply Hno'. lia.
      * rewrite rd_word by lia. simpl. split; [|lia].
        exists (64 * (idx + 1)). split; [lia|]. split; [lia|]. split; [|done].
        apply scan_at_word; [done|lia].
    + rewrite get_offset_rightmost by done.
      destruct (scan_at_found _ _ _ _ Hs Hd) as (H1 & H2 & H3 & H4 & H5).
      right. cbn [cur_idx_ cur_bitmap_idx_ cur_bitmap_data_].
      pose proof (tzcnt64_spec _ Hw Hd) as (Ht & _).
      split; [lia|]. split; [done|]. split; [|split; [lia|done]].
      intros i Hii. destruct (Z.lt_ge_cases i q'); [apply Hno; lia|apply H4; lia].
  - exists q. split; [lia|]. split; [done|]. split; [done|]. intros; lia.
  - destruct Hscan as (Hi & _). unfold zlen in *. lia.
  - destruct Hscan as (Hi & _). lia.
Qed.

(** A fresh iterator stands on the first filled slot not before [idx]. *)
Lemma it_init_spec bm bsize q :
  words_ok bm -> zlen bm = bsize -> 0 <= q < 64 * bsize ->
  exists it', it_init bm bsize q = Some it' /\
    ((cur_idx_ it' = -1 /\ forall i, q <= i < 64 * bsize -> bitv bm i = false) \/
     (q <= cur_idx_ it' < 64 * bsize /\ bitv bm (cur_idx_ it') = true /\
      (forall i, q <= i < cur_idx_ it' -> bitv bm i = false) /\
      64 * cur_bitmap_idx_ it' <= cur_idx_ it' /\
      scan_at bm (cur_idx_ it' + 1) (cur_bitmap_idx_ it', cur_bitmap_data_ it'))).
Proof.
  intros Hok Hlen Hq. unfold it_init. autorewrite with cxx. pose proof (pos64 q) as [Eq Hm].
  rewrite rd_word by (rewrite Hlen; by apply div64_range). rewrite bit64_in by done. cbn [mbind option_bind].
  apply it_next_spec; [done|done|apply scan_at_masked; [done|lia]|simpl; lia].
Qed.

(** [get_next_filled_position] is the least filled slot not before the start,
    or [data_capacity]. *)
Lemma get_next_filled_position_spec bm bsize cap pos exclusive :
  bitmap_ok bm bsize cap ->
  let q := if exclusive : bool then pos + 1 else pos in
  0 <= q <= cap -> (exclusive = true \/ q < 64 * bsize) ->
  exists r, get_next_filled_position bm bsize cap pos exclusive = Some r /\
    q <= r <= cap /\ (forall i, q <= i < r -> bitv bm i = false) /\
    (r < cap -> bitv bm r = true).
Proof.
  intros [Hcap Hsize Hlen Hok Hpad] q Hq Hex. unfold get_next_filled_position. fold q.
  pose proof (pos64 (cap + 63)) as Hc. rewrite <-Hsize in Hc.
  destruct (exclusive && (q =? cap)) eqn:E.
  { btest. exists cap. split; [done|]. split; [lia|]. split; [intros; lia|lia]. }
  assert (Hq' : q < 64 * bsize).
  { destruct Hex as [->|?]; [|done]. simpl in E. btest. lia. }
  autorewrite with cxx. pose proof (pos64 q) as [Eq Hm].
  rewrite rd_word by (rewrite Hlen; apply div64_range; lia).
  rewrite bit64_in by done. cbn [mbind option_bind].
  eapply (loop_spec
    (fun '(idx, data) => exists q', q <= q' /\ 64 * idx <= q' /\ scan_at bm q' (idx, data) /\
       forall i, q <= i < q' -> bitv bm i = false)
    _ (fun '(idx, _) => bsize - idx)).
  - intros [idx data] (q' & Hqq & Hlo & Hs & Hno). pose proof Hs as (Hi & Hw & Hq'' & _).
    destruct (Z.eqb_spec data 0) as [->|Hd].
    + assert (Hno' : forall i, q <= i < 64 * (idx + 1) -> bitv bm i = false).
      { intros i Hii. destruct (Z.lt_ge_cases i q'); [apply Hno; lia|].
        apply (scan_at_zero bm q' idx i); [done|lia|lia]. }
      destruct (Z.leb_spec bsize (idx + 1)).
      * split; [lia|]. split; [intros i Hii; apply Hno'; lia|lia].
      * rewrite rd_word by lia. simpl. split; [|lia].
        exists (64 * (idx + 1)). split; [lia|]. split; [lia|]. split; [|done].
        apply scan_at_word; [done|lia].
    + rewrite get_offset_rightmost by done.
      destruct (scan_at_found _ _ _ _ Hs Hd) as (H1 & H2 & H3 & H4 & _).
      split.
      { split; [lia|]. apply Z.le_ngt. intros Hgt. rewrite Hpad in H3; [done|lia]. }
      split; [|done].
      intros i Hii. destruct (Z.lt_ge_cases i q'); [apply Hno; lia|apply H4; lia].
  - exists q. split; [lia|]. split; [lia|]. split; [apply scan_at_masked; [done|lia]|intros; lia].
  - unfold zlen in Hlen. pose proof (div64_range q bsize ltac:(lia)). lia.
  - pose proof (div64_range q bsize ltac:(lia)). lia.
Qed.

(** ** The closest gap *)

Lemma word_range i w : 64 * w <= i < 64 * (w + 1) -> i = 64 * w + (i - 64 * w) /\ 0 <= i - 64 * w < 64.
Proof. lia. Qed.

Lemma full_word bm w i :
  at_ 0 bm w = u64_max -> 64 * w <= i < 64 * (w + 1) -> bitv bm i = true.
Proof.
  intros Hf [-> Hj]%word_range. rewrite bitv_word, Hf, u64_max_bit by lia. btest_case; [done|lia].
Qed.

Lemma word_not_full bm w i :
  64 * w <= i < 64 * (w + 1) -> bitv bm i = false -> at_ 0 bm w <> u64_max.
Proof. intros Hi Hb Hf. by rewrite (full_word bm w i) in Hb. Qed.

Lemma gaps_nonzero w : word64 w -> w <> u64_max -> not64 w <> 0.
Proof. intros Hw Hf E. apply Hf. by apply not64_zero. Qed.

(** The right-most gap of a word that is not full. *)
Lemma left_gap_of_spec bm w :
  words_ok bm -> at_ 0 bm w <> u64_max ->
  let g := left_gap_of w (at_ 0 bm w) in
  64 * w <= g < 64 * (w + 1) /\ bitv bm g = false /\
  forall i, g < i < 64 * (w + 1) -> bitv bm i = true.
Proof.
  intros Hok Hf g. assert (Hw := Hok w).
  destruct (lzcnt64_spec _ (word64_not _ Hw) (gaps_nonzero _ Hw Hf)) as (Hl & Hb & Hhi).
  assert (Eg : g = 64 * w + (63 - lzcnt64 (not64 (at_ 0 bm w)))).
  { unfold g, left_gap_of. rewrite shiftl6. lia. }
  split; [lia|]. split.
  - rewrite Eg, bitv_word by done. rewrite not64_bit in Hb by done. by apply negb_true_iff.
  - intros i Hi. destruct (word_range i w ltac:(lia)) as [Ei Hj]. rewrite Ei, bitv_word by done.
    specialize (Hhi (i - 64 * w) ltac:(lia)). rewrite not64_bit in Hhi by done. by apply negb_false_iff.
Qed.

(** The left-most gap of a word that is not full. *)
Lemma right_gap_of_spec bm w :
  words_ok bm -> at_ 0 bm w <> u64_max ->
  let g := right_gap_of w (at_ 0 bm w) in
  64 * w <= g < 64 * (w + 1) /\ bitv bm g = false /\
  forall i, 64 * w <= i < g -> bitv bm i = true.
Proof.
  intros Hok Hf g. assert (Hw := Hok w).
  destruct (tzcnt64_spec _ (word64_not _ Hw) (gaps_nonzero _ Hw Hf)) as (Hl & Hb & Hlo).
  assert (Eg : g = 64 * w + tzcnt64 (not64 (at_ 0 bm w))).
  { unfold g, right_gap_of. by rewrite shiftl6. }
  split; [lia|]. split.
  - rewrite Eg, bitv_word by done. rewrite not64_bit in Hb by done. by apply negb_true_iff.
  - intros i Hi. destruct (word_range i w ltac:(lia)) as [Ei Hj]. rewrite Ei, bitv_word by done.
    specialize (Hlo (i - 64 * w) ltac:(lia)). rewrite not64_bit in Hlo by (done || lia). by apply negb_false_iff.
Qed.

Section ClosestGap.
Context (bm : list Z) (bsize cap pos : Z).
Hypothesis Hbm : bitmap_ok bm bsize cap.
Hypothesis Hpos : 0 <= pos < cap.

Let Hok : words_ok bm := bo_words _ _ _ Hbm.

(** Every slot of the words strictly between [lo] and [hi] is filled, as far
    as there are slots. *)
Let filled_between (lo hi : Z) : Prop :=
  forall i, 64 * (lo + 1) <= i < 64 * hi -> i < cap -> bitv bm i = true.

Lemma cap_words : 64 * (bsize - 1) < cap <= 64 * bsize /\ zlen bm = bsize.
Proof. pose proof Hbm as [Hc Hs Hl _ _]. pose proof (pos64 (cap + 63)). split; [lia|done]. Qed.

Lemma pos_word : 64 * (pos / 64) <= pos < 64 * (pos / 64 + 1) /\ 0 <= pos / 64 < bsize.
Proof. pose proof (pos64 pos). pose proof cap_words. lia. Qed.

Lemma last_word : Z.shiftr (cap - 1) 6 = bsize - 1.
Proof. rewrite shiftr6. pose proof (pos64 (cap - 1)). pose proof cap_words. lia. Qed.

(** The left gap of word [l] is nearest when the words in between are full. *)
Lemma nearest_left l hi :
  0 <= l < pos / 64 -> pos / 64 < hi -> filled_between l hi -> at_ 0 bm l <> u64_max ->
  nearest_gap bm cap pos (left_gap_of l (at_ 0 bm l)).
Proof.
  intros Hl Hhi Hfill Hf. pose proof pos_word. pose proof cap_words.
  destruct (left_gap_of_spec bm l Hok Hf) as (Hg & Hb & Hr).
  split; [lia|]. split; [done|]. split; [|intros; lia].
  intros i Hi. destruct (Z.lt_ge_cases i (64 * (l + 1))); [apply Hr; lia|]. apply Hfill; lia.
Qed.

Lemma nearest_right l r :
  pos / 64 < r < bsize -> l < pos / 64 -> filled_between l r -> at_ 0 bm r <> u64_max ->
  right_gap_of r (at_ 0 bm r) < cap ->
  nearest_gap bm cap pos (right_gap_of r (at_ 0 bm r)).
Proof.
  intros Hr Hl Hfill Hf Hlt. pose proof pos_word. pose proof cap_words.
  destruct (right_gap_of_spec bm r Hok Hf) as (Hg & Hb & Hlo).
  split; [lia|]. split; [done|]. split; [intros; lia|].
  intros i Hi. destruct (Z.lt_ge_cases i (64 * r)); [apply Hfill; lia|apply Hlo; lia].
Qed.

Lemma filled_full_left l hi :
  filled_between l hi -> at_ 0 bm l = u64_max -> filled_between (l - 1) hi.
Proof.
  intros Hf Hw i Hi Hc. destruct (Z.lt_ge_cases i (64 * (l + 1))); [|apply Hf; lia].
  apply (full_word bm l); [done|lia].
Qed.

Lemma filled_full_right lo r :
  filled_between lo r -> at_ 0 bm r = u64_max -> filled_between lo (r + 1).
Proof.
  intros Hf Hw i Hi Hc. destruct (Z.lt_ge_cases i (64 * r)); [apply Hf; lia|].
  apply (full_word bm r); [done|lia].
Qed.

(** A last word whose only gaps are past the last slot counts as full. *)
Lemma filled_pad_right lo r :
  filled_between lo r -> 0 <= r -> at_ 0 bm r <> u64_max ->
  cap <= right_gap_of r (at_ 0 bm r) -> filled_between lo (r + 1).
Proof.
  intros Hf Hr Hw Hge i Hi Hc. destruct (Z.lt_ge_cases i (64 * r)); [apply Hf; lia|].
  destruct (right_gap_of_spec bm r Hok Hw) as (Hg & _ & Hlo). apply Hlo. lia.
Qed.
Hypothesis Hgap : exists g, 0 <= g < cap /\ bitv bm g = false.

Let bp := pos / 64.

Lemma not_all_filled : ~ filled_between (-1) bsize.
Proof.
  intros Hf. destruct Hgap as (g & Hg & Hb). pose proof cap_words.
  rewrite Hf in Hb; [done|lia|lia].
Qed.

(** What the bidirectional search returns: a nearest gap, or the distance at
    which one side is exhausted. *)
Definition found_ok (maxbi : Z) (f : Z + Z) : Prop :=
  match f with
  | inl g => nearest_gap bm cap pos g
  | inr d => d = maxbi + 1 /\ filled_between (bp - d) (bp + d)
  end.

(** The choice between a left and a right candidate. *)
Lemma nearest_choice (P : Z -> Prop) maxbi l r :
  nearest_gap bm cap pos l -> (r < cap -> nearest_gap bm cap pos r) ->
  match (if (pos - l <=? r - pos) || (cap <=? r)
         then Some (inr (inl l)) else Some (inr (inl r))) with
  | Some (inl d) => P d
  | Some (inr f) => found_ok maxbi f
  | None => False
  end.
Proof.
  intros Hl Hr. destruct (Z.leb_spec cap r); [by rewrite orb_true_r|].
  rewrite orb_false_r. btest_case; simpl; auto.
Qed.

Lemma bidirectional_round_spec maxbi d :
  0 <= maxbi <= Z.min bp (bsize - 1 - bp) -> 1 <= d <= maxbi + 1 ->
  filled_between (bp - d) (bp + d) ->
  match bidirectional_round bm bsize cap pos bp (pos mod 64) maxbi d with
  | Some (inl d') => (1 <= d' <= maxbi + 1 /\ filled_between (bp - d') (bp + d')) /\
                     0 <= maxbi + 1 - d' < maxbi + 1 - d
  | Some (inr f) => found_ok maxbi f
  | None => False
  end.
Proof.
  intros Hmax Hd Hfill. pose proof pos_word as [Hpw Hbp]. pose proof cap_words as [Hcw Hlen].
  fold bp in Hpw, Hbp. unfold bidirectional_round.
  destruct (Z.leb_spec d maxbi) as [Hle|Hgt]; [|simpl; split; [lia|done]].
  rewrite (rd_word bm (bp - d)), (rd_word bm (bp + d)) by lia. cbn [mbind option_bind].
  assert (Hlf : at_ 0 bm (bp - d) <> u64_max ->
                nearest_gap bm cap pos (left_gap_of (bp - d) (at_ 0 bm (bp - d)))).
  { intros. apply (nearest_left (bp - d) (bp + d)); [lia|lia|done|done]. }
  assert (Hrt : at_ 0 bm (bp + d) <> u64_max -> right_gap_of (bp + d) (at_ 0 bm (bp + d)) < cap ->
                nearest_gap bm cap pos (right_gap_of (bp + d) (at_ 0 bm (bp + d)))).
  { intros. apply (nearest_right (bp - d)); [lia|lia|done|done|done]. }
  assert (Hnext : filled_between (bp - d - 1) (bp + d + 1) -> filled_between (bp - (d + 1)) (bp + (d + 1))).
  { by replace (bp - (d + 1)) with (bp - d - 1) by lia; replace (bp + (d + 1)) with (bp + d + 1) by lia. }
  destruct (Z.eqb_spec (at_ 0 bm (bp - d)) u64_max) as [EL|NL];
    destruct (Z.eqb_spec (at_ 0 bm (bp + d)) u64_max) as [ER|NR]; cbn [negb andb].
  - split; [|lia]. split; [lia|]. apply Hnext. by apply filled_full_left, EL; apply filled_full_right.
  - apply (filled_full_left (bp - d)) in Hfill as Hfill'; [|done].
    destruct (Z.ltb_spec (right_gap_of (bp + d) (at_ 0 bm (bp + d))) cap).
    + destruct ((pos mod 64 <? 32) && (0 <? bp - d)) eqn:Ec; [|by apply Hrt].
      btest. rewrite (rd_word bm (bp - d - 1)) by lia. cbn [mbind option_bind].
      destruct (Z.eqb_spec (at_ 0 bm (bp - d - 1)) u64_max); cbn [negb]; [by apply Hrt|].
      apply nearest_choice; [|auto].
      apply (nearest_left (bp - d - 1) (bp + d)); [lia|lia|done|done].
    + split; [|lia]. split; [lia|]. apply Hnext, filled_pad_right; [done|lia|done|lia].
  - apply (filled_full_right _ (bp + d)) in Hfill as Hfill'; [|done].
    destruct ((32 <? pos mod 64) && (bp + d + 1 <? bsize)) eqn:Ec; [|by apply Hlf].
    btest. rewrite (rd_word bm (bp + d + 1)) by lia. cbn [mbind option_bind].
    destruct (Z.eqb_spec (at_ 0 bm (bp + d + 1)) u64_max); cbn [negb]; [by apply Hlf|].
    apply nearest_choice; [auto|].
    intros; apply (nearest_right (bp - d)); [lia|lia|done|done|done].
  - apply nearest_choice; auto.
Qed.

Lemma search_left_spec i :
  -1 <= i < bp -> filled_between i bsize ->
  exists g, search_left bm 0 i = Some g /\ nearest_gap bm cap pos g.
Proof.
  intros Hi0 Hf0. pose proof pos_word as [Hpw Hbp]. pose proof cap_words as [Hcw Hlen].
  fold bp in Hpw, Hbp.
  eapply (loop_spec (fun i => -1 <= i < bp /\ filled_between i bsize) _ (fun i => i + 1));
    [|by split|unfold zlen in *; lia|lia].
  clear i Hi0 Hf0. intros i [Hi Hf]. destruct (Z.leb_spec 0 i).
  - rewrite (rd_word bm i) by lia. cbn [mbind option_bind].
    destruct (Z.eqb_spec (at_ 0 bm i) u64_max); cbn [negb].
    + split; [|lia]. split; [lia|]. by apply filled_full_left.
    + apply (nearest_left i bsize); [lia|lia|done|done].
  - exfalso. apply not_all_filled. by replace (-1) with i by lia.
Qed.

Lemma search_right_spec i :
  bp < i <= bsize -> filled_between (-1) i ->
  exists g, search_right bm cap (bsize - 1) i = Some g /\ nearest_gap bm cap pos g.
Proof.
  intros Hi0 Hf0. pose proof pos_word as [Hpw Hbp]. pose proof cap_words as [Hcw Hlen].
  fold bp in Hpw, Hbp.
  eapply (loop_spec (fun i => bp < i <= bsize /\ filled_between (-1) i) _ (fun i => bsize - i));
    [|by split|unfold zlen in *; lia|lia].
  clear i Hi0 Hf0. intros i [Hi Hf]. destruct (Z.leb_spec i (bsize - 1)).
  - rewrite (rd_word bm i) by lia. cbn [mbind option_bind].
    destruct (Z.eqb_spec (at_ 0 bm i) u64_max) as [|Hn]; cbn [negb].
    + split; [|lia]. split; [lia|]. by apply filled_full_right.
    + destruct (Z.leb_spec cap (right_gap_of i (at_ 0 bm i))) as [Hge|Hlt].
      * exfalso. apply not_all_filled. intros j Hj Hjc.
        pose proof (right_gap_of_spec bm i Hok Hn) as (? & _).
        apply (filled_pad_right (-1) i); [done|lia|done|done|lia|done].
      * apply (nearest_right (-1)); [lia|lia|done|done|done].
  - exfalso. apply not_all_filled. by replace bsize with i by lia.
Qed.

Lemma closest_gap_outside_spec :
  filled_between (bp - 1) (bp + 1) ->
  exists g, closest_gap_outside bm bsize cap pos bp (pos mod 64) = Some g /\ nearest_gap bm cap pos g.
Proof.
  intros Hfull. pose proof pos_word as [Hpw Hbp]. pose proof cap_words as [Hcw Hlen].
  fold bp in Hpw, Hbp. unfold closest_gap_outside. rewrite last_word. cbv zeta.
  set (maxbi := Z.min (bp - 0) (bsize - 1 - bp)).
  destruct (loop_spec (fun d => 1 <= d <= maxbi + 1 /\ filled_between (bp - d) (bp + d))
    (found_ok maxbi) (fun d => maxbi + 1 - d)
    (bidirectional_round bm bsize cap pos bp (pos mod 64) maxbi)) with (fuel := S (length bm)) (s := 1)
    as (fd & Efd & Hfd); [|by split; [lia|]|unfold zlen in *; lia|lia|].
  { intros d [Hd Hf]. apply bidirectional_round_spec; [lia|done|done]. }
  rewrite Efd. cbn [mbind option_bind]. destruct fd as [g|d]; simpl in Hfd; [eauto|].
  destruct Hfd as [Hd Hfill]. destruct (Z.ltb_spec (bsize - 1 - bp) (bp - 0)).
  - apply search_left_spec; [lia|]. by replace bsize with (bp + d) by lia.
  - apply search_right_spec; [lia|]. by replace (-1) with (bp - d) by lia.
Qed.

(** What the two distances of the in-word search mean: a gap with nothing but
    filled slots before it, or a distance of at least a word when the word
    has no gap on that side. *)
Definition right_ok (R : Z) : Prop :=
  (0 <= R /\ bitv bm (pos + R) = false /\ forall i, pos <= i < pos + R -> bitv bm i = true) \/
  (64 <= R /\ forall i, pos <= i < 64 * (bp + 1) -> bitv bm i = true).

Definition left_ok (L : Z) : Prop :=
  (0 < L <= pos /\ bitv bm (pos - L) = false /\ forall i, pos - L < i < pos -> bitv bm i = true) \/
  (64 <= L /\ forall i, 64 * bp <= i < pos -> bitv bm i = true).

Lemma inside_choice R L :
  right_ok R -> left_ok L ->
  (exists g, 64 * bp <= g < 64 * (bp + 1) /\ g < cap /\ bitv bm g = false) ->
  nearest_gap bm cap pos
    (if (R <? L) && (pos + R <? cap) then pos + R else pos - L).
Proof.
  intros HR HL (g & Hg & Hgc & Hgb). pose proof pos_word as [Hpw Hbp]. fold bp in Hpw, Hbp.
  destruct ((R <? L) && (pos + R <? cap)) eqn:Ec.
  - btest. destruct HR as [(HR0 & HRb & HRf)|[HR0 HRf]].
    + split; [lia|]. split; [done|]. split; [intros; lia|done].
    + exfalso. destruct (Z.lt_ge_cases g pos); [|by rewrite HRf in Hgb by lia].
      destruct HL as [(HL0 & HLb & HLf)|[HL0 HLf]]; by rewrite HLf in Hgb by lia.
  - assert (Hnot : ~ (R < L /\ pos + R < cap)).
    { intros [H1 H2]. apply andb_false_iff in Ec as [E|E]; btest; lia. }
    destruct HL as [(HL0 & HLb & HLf)|[HL0 HLf]].
    + split; [lia|]. split; [done|]. split; [|intros; lia].
      intros i Hi. destruct (Z.eq_dec i pos) as [->|]; [|apply HLf; lia].
      destruct HR as [(HR0 & HRb & HRf)|[HR0 HRf]]; [|apply HRf; lia].
      destruct (Z.eq_dec R 0); [lia|apply HRf; lia].
    + exfalso. destruct (Z.lt_ge_cases g pos); [by rewrite HLf in Hgb by lia|].
      destruct HR as [(HR0 & HRb & HRf)|[HR0 HRf]]; [|by rewrite HRf in Hgb by lia].
      destruct (Z.lt_ge_cases g (pos + R)); [by rewrite HRf in Hgb by lia|lia].
Qed.

Let b := pos mod 64.

Lemma pos_split : pos = 64 * bp + b /\ 0 <= b < 64.
Proof. apply pos64. Qed.

Lemma right_gaps_bit i :
  0 <= i < 64 ->
  Z.testbit (not64 (Z.lor (at_ 0 bm bp) (2 ^ b - 1))) i = (b <=? i) && negb (bitv bm (64 * bp + i)).
Proof.
  intros Hi. pose proof pos_split as [_ Hb].
  rewrite not64_bit, Z.lor_spec, ones_bit, bitv_word by
    (lia || (apply word64_lor; [apply Hok|by apply ones_word])).
  repeat btest_case; try lia; by rewrite ?orb_false_r, ?orb_true_r.
Qed.

Lemma left_gaps_bit i :
  0 <= i < 64 ->
  Z.testbit (Z.land (not64 (at_ 0 bm bp)) (2 ^ b - 1)) i = (i <? b) && negb (bitv bm (64 * bp + i)).
Proof.
  intros Hi. pose proof pos_split as [_ Hb].
  rewrite Z.land_spec, not64_bit, ones_bit, bitv_word by (apply Hok || lia). apply andb_comm.
Qed.

Lemma right_distance_spec :
  exists R, (if negb (not64 (Z.lor (at_ 0 bm bp) (2 ^ b - 1)) =? 0)
             then Some (tzcnt64 (not64 (Z.lor (at_ 0 bm bp) (2 ^ b - 1))) - b)
             else if bp + 1 <? bsize then
               w ← bm.[bp + 1]; Some (64 + tzcnt64 (not64 w) - b)
             else Some 64) = Some R /\ right_ok R.
Proof.
  pose proof pos_split as [Ep Hb]. pose proof pos_word as [Hpw Hbp]. fold bp in Hpw, Hbp.
  pose proof cap_words as [Hcw Hlen].
  set (rg := not64 _). assert (Hrg : word64 rg).
  { apply word64_not, word64_lor; [apply Hok|by apply ones_word]. }
  assert (Hbits := right_gaps_bit : forall i, 0 <= i < 64 -> Z.testbit rg i = _).
  destruct (Z.eqb_spec rg 0) as [E|E]; cbn [negb].
  - assert (Hfull : forall i, pos <= i < 64 * (bp + 1) -> bitv bm i = true).
    { intros i Hi. specialize (Hbits (i - 64 * bp) ltac:(lia)). rewrite E, Z.bits_0 in Hbits.
      replace (64 * bp + (i - 64 * bp)) with i in Hbits by lia.
      destruct (Z.leb_spec b (i - 64 * bp)); [|lia]. simpl in Hbits. by apply negb_false_iff. }
    destruct (Z.ltb_spec (bp + 1) bsize); [|eexists; split; [done|right; split; [lia|done]]].
    rewrite (rd_word bm (bp + 1)) by lia. cbn [mbind option_bind]. eexists; split; [done|].
    destruct (Z.eq_dec (at_ 0 bm (bp + 1)) u64_max) as [Ef|Nf].
    + right. rewrite Ef. change (tzcnt64 (not64 u64_max)) with 64. split; [lia|done].
    + left. destruct (right_gap_of_spec bm (bp + 1) Hok Nf) as (Hg & Hgb & Hgf).
      unfold right_gap_of in *. rewrite shiftl6 in *.
      set (t := tzcnt64 _) in *. replace (pos + (64 + t - b)) with (64 * (bp + 1) + t) by lia.
      split; [lia|]. split; [done|]. intros i Hi.
      destruct (Z.lt_ge_cases i (64 * (bp + 1))); [apply Hfull; lia|apply Hgf; lia].
  - eexists; split; [done|]. left. destruct (tzcnt64_spec rg Hrg E) as (Ht & Htb & Htl).
    rewrite Hbits in Htb by done. apply andb_prop in Htb as [Hbt Hg]. btest.
    replace (pos + (tzcnt64 rg - b)) with (64 * bp + tzcnt64 rg) by lia.
    split; [lia|]. split; [done|]. intros i Hi.
    specialize (Htl (i - 64 * bp) ltac:(lia)). rewrite Hbits in Htl by lia.
    replace (64 * bp + (i - 64 * bp)) with i in Htl by lia.
    destruct (Z.leb_spec b (i - 64 * bp)); [|lia]. simpl in Htl. by apply negb_false_iff.
Qed.

Lemma left_distance_spec :
  exists L, (if negb (Z.land (not64 (at_ 0 bm bp)) (2 ^ b - 1) =? 0)
             then Some (b - (63 - lzcnt64 (Z.land (not64 (at_ 0 bm bp)) (2 ^ b - 1))))
             else if 0 <? bp then
               w ← bm.[bp - 1]; Some (b + lzcnt64 (not64 w) + 1)
             else Some 64) = Some L /\ left_ok L.
Proof.
  pose proof pos_split as [Ep Hb]. pose proof pos_word as [Hpw Hbp]. fold bp in Hpw, Hbp.
  pose proof cap_words as [Hcw Hlen].
  set (lg := Z.land _ _). assert (Hlg : word64 lg).
  { apply word64_land; [apply word64_not, Hok|by apply ones_word]. }
  assert (Hbits := left_gaps_bit : forall i, 0 <= i < 64 -> Z.testbit lg i = _).
  destruct (Z.eqb_spec lg 0) as [E|E]; cbn [negb].
  - assert (Hfull : forall i, 64 * bp <= i < pos -> bitv bm i = true).
    { intros i Hi. specialize (Hbits (i - 64 * bp) ltac:(lia)). rewrite E, Z.bits_0 in Hbits.
      replace (64 * bp + (i - 64 * bp)) with i in Hbits by lia.
      destruct (Z.ltb_spec (i - 64 * bp) b); [|lia]. simpl in Hbits. by apply negb_false_iff. }
    destruct (Z.ltb_spec 0 bp); [|eexists; split; [done|right; split; [lia|done]]].
    rewrite (rd_word bm (bp - 1)) by lia. cbn [mbind option_bind]. eexists; split; [done|].
    destruct (Z.eq_dec (at_ 0 bm (bp - 1)) u64_max) as [Ef|Nf].
    + right. rewrite Ef. change (lzcnt64 (not64 u64_max)) with 64. split; [lia|done].
    + left. destruct (left_gap_of_spec bm (bp - 1) Hok Nf) as (Hg & Hgb & Hgf).
      unfold left_gap_of in *. rewrite shiftl6 in *.
      set (t := lzcnt64 _) in *. replace (pos - (b + t + 1)) with (64 * (bp - 1 + 1) - t - 1) by lia.
      split; [lia|]. split; [done|]. intros i Hi.
      destruct (Z.lt_ge_cases i (64 * bp)); [apply Hgf; lia|apply Hfull; lia].
  - eexists; split; [done|]. left. destruct (lzcnt64_spec lg Hlg E) as (Ht & Htb & Htl).
    rewrite Hbits in Htb by done. apply andb_prop in Htb as [Hbt Hg]. btest.
    replace (pos - (b - (63 - lzcnt64 lg))) with (64 * bp + (63 - lzcnt64 lg)) by lia.
    split; [lia|]. split; [done|]. intros i Hi.
    specialize (Htl (i - 64 * bp) ltac:(lia)). rewrite Hbits in Htl by lia.
    replace (64 * bp + (i - 64 * bp)) with i in Htl by lia.
    destruct (Z.ltb_spec (i - 64 * bp) b); [|lia]. simpl in Htl. by apply negb_false_iff.
Qed.

Lemma closest_gap_inside_spec :
  (exists g, 64 * bp <= g < 64 * (bp + 1) /\ g < cap /\ bitv bm g = false) ->
  exists g, closest_gap_inside bm bsize cap pos bp b (at_ 0 bm bp) = Some g /\ nearest_gap bm cap pos g.
Proof.
  intros Hg. pose proof pos_split as [Ep Hb]. unfold closest_gap_inside.
  rewrite bit64_in by done. cbn [mbind option_bind].
  destruct right_distance_spec as (R & ER & HR). rewrite ER. cbn [mbind option_bind].
  destruct left_distance_spec as (L & EL & HL). rewrite EL. cbn [mbind option_bind].
  eexists. split; [done|]. by apply inside_choice.
Qed.

(** The word of [pos] either has a gap among the slots or is full. *)
Lemma word_gap_or_full :
  if (at_ 0 bm bp =? u64_max) ||
     ((bp =? bsize - 1) && (popcnt64 (at_ 0 bm bp) =? cap - Z.shiftl (bsize - 1) 6))
  then filled_between (bp - 1) (bp + 1)
  else exists g, 64 * bp <= g < 64 * (bp + 1) /\ g < cap /\ bitv bm g = false.
Proof.
  pose proof pos_word as [Hpw Hbp]. fold bp in Hpw, Hbp. pose proof cap_words as [Hcw Hlen].
  pose proof Hbm as [_ _ _ _ Hpad]. rewrite shiftl6.
  destruct (Z.eqb_spec (at_ 0 bm bp) u64_max) as [E|E]; cbn [orb].
  { intros i Hi Hc. apply (full_word bm bp); [done|lia]. }
  destruct (Z.eqb_spec bp (bsize - 1)) as [El|Nl]; cbn [andb].
  - rewrite popcnt_word, (cnt_split _ _ cap), (cnt_zero _ cap) by
      (lia || done || (intros; apply Hpad; lia)). rewrite Z.add_0_r.
    destruct (Z.eqb_spec (cnt (bitv bm) (64 * bp) cap) (cap - 64 * (bsize - 1))) as [Ec|Nc].
    + intros i Hi Hc. destruct (bitv bm i) eqn:Eb; [done|].
      exfalso. revert Ec. rewrite (cnt_split _ _ i), (cnt_cons _ i) by lia. rewrite Eb.
      pose proof (cnt_bounds (bitv bm) (64 * bp) i ltac:(lia)).
      pose proof (cnt_bounds (bitv bm) (i + 1) cap ltac:(lia)). lia.
    + pose proof (cnt_bounds (bitv bm) (64 * bp) cap ltac:(lia)).
      destruct (cnt_lt_ex (bitv bm) (64 * bp) cap) as (g & Hg & Hb); [lia|lia|].
      exists g. split; [lia|]. split; [lia|done].
  - destruct (right_gap_of_spec bm bp Hok E) as (Hg & Hb & _).
    exists (right_gap_of bp (at_ 0 bm bp)). split; [done|]. split; [lia|done].
Qed.
End ClosestGap.

(** [closest_gap] returns a gap from which the shift to [pos] crosses filled
    slots only, whenever the node has a gap. *)
Lemma closest_gap_nearest bm bsize cap pos :
  bitmap_ok bm bsize cap -> 0 <= pos ->
  (exists g, 0 <= g < cap /\ bitv bm g = false) ->
  exists g, closest_gap bm bsize cap pos = Some g /\ nearest_gap bm cap (Z.min pos (cap - 1)) g.
Proof.
  intros Hbm H0 Hgap. set (p := Z.min pos (cap - 1)).
  assert (Hp : 0 <= p < cap) by (pose proof (bo_cap _ _ _ Hbm); lia).
  unfold closest_gap. fold p. autorewrite with cxx. rewrite <-(shiftl6 (bsize - 1)).
  pose proof (pos_word bm bsize cap p Hbm Hp) as [_ Hbp].
  pose proof (cap_words bm bsize cap Hbm) as [_ Hlen].
  rewrite rd_word by lia. cbn [mbind option_bind].
  pose proof (word_gap_or_full bm bsize cap p Hbm Hp) as Hw.
  destruct (_ || _).
  - by apply closest_gap_outside_spec.
  - by apply closest_gap_inside_spec.
Qed.

(** C35: when the node has a gap, [closest_gap] terminates without leaving the
    bitmap and returns a gap such that every slot between it and the requested
    position, up to the last slot, is filled. *)
Theorem closest_gap_correct bm bsize cap pos :
  bitmap_ok bm bsize cap -> 0 <= pos -> (exists g, 0 <= g < cap /\ bitv bm g = false) ->
  exists g, closest_gap bm bsize cap pos = Some g /\ 0 <= g < cap /\ bitv bm g = false /\
    forall i, Z.min g (Z.min pos (cap - 1)) < i < Z.max g (Z.min pos (cap - 1)) -> bitv bm i = true.
Proof.
  intros Hbm H0 Hgap. destruct (closest_gap_nearest bm bsize cap pos Hbm H0 Hgap) as (g & E & Hr & Hf & Hl & Hu).
  exists g. split; [done|]. split; [done|]. split; [done|]. intros i Hi.
  destruct (Z.lt_ge_cases g (Z.min pos (cap - 1))); [apply Hl|apply Hu]; lia.
Qed.

(** Slots 0 to 69 with gaps at 0, 1 and 69. *)
Definition sample_bitmap : list Z := [u64_max - 3; 31].

Lemma sample_bitmap_ok : bitmap_ok sample_bitmap 2 70.
Proof.
  constructor; [lia|reflexivity|reflexivity| |].
  - apply words_ok_intro. intros i w Hw. apply rd_Some in Hw as Hi. unfold zlen in Hi. simpl in Hi.
    assert (i = 0 \/ i = 1) as [->| ->] by lia; injection Hw as <-; split; done.
  - intros i Hi. pose proof (pos64 i) as [E Hm]. rewrite E. assert (i / 64 = 1) as -> by lia.
    rewrite bitv_word by done. change (at_ 0 sample_bitmap 1) with (2 ^ 5 - 1).
    rewrite ones_bit by lia. btest_case; [lia|done].
Qed.

Lemma closest_gap_correct_witness :
  exists g, closest_gap sample_bitmap 2 70 40 = Some g /\ 0 <= g < 70 /\ bitv sample_bitmap g = false /\
    forall i, Z.min g (Z.min 40 (70 - 1)) < i < Z.max g (Z.min 40 (70 - 1)) -> bitv sample_bitmap i = true.
Proof.
  apply (closest_gap_correct sample_bitmap 2 70 40); [apply sample_bitmap_ok|lia|].
  exists 1. split; [lia|reflexivity].
Defined.

Lemma num_keys_in_range_correct_witness :
  num_keys_in_range sample_bitmap 2 1 70 = Some (cnt (bitv sample_bitmap) 1 70).
Proof.
  apply (num_keys_in_range_correct sample_bitmap 2 1 70);
    [exact (bo_words _ _ _ sample_bitmap_ok)|reflexivity|lia|lia|lia].
Defined.
