(* ===== verification/AlexSearch.v ===== *)
(** * ALEX: search inside a data node (alex/src/alex_nodes.h)

    Exponential search from the predicted position followed by binary search.
    The upper-bound and lower-bound versions of the source differ only in the
    comparison; both instantiate one definition over [above], the test that the
    slot's key lies on the right of the bound.  The searches return the position
    and the number of doublings, which the node adds to
    [num_exp_search_iterations_]. *)

From S2P Require Import Prelude Words Floats.
Local Open Scope Z_scope.
Local Open Scope cxx_scope.

(** ** Operations *)

(** [key_greater(k, key)] and [key_greaterequal(k, key)] of the source. *)
Definition key_greater (key k : Z) : bool := key <? k.
Definition key_greaterequal (key k : Z) : bool := negb (k <? key).

(** Binary search in [l, r): the first position whose key is above. *)
Definition binary_search (above : Z -> bool) (key_slots : list Z) (l r : Z) : option Z :=
  loop (S (Z.to_nat (r - l))) (fun '(l, r) =>
    if l <? r then
      let mid := l + Z.quot (r - l) 2 in
      k ← key_slots.[mid];
      if above k then Some (inl (l, mid)) else Some (inl (mid + 1, r))
    else Some (inr l)) (l, r).

(** [while (bound < size && test(slot(bound))) { bound *= 2; iterations++; }];
    [bound] is an [int], and doubling it past [INT_MAX] is undefined. *)
Definition double_bound (size : Z) (test : Z -> option bool) : option (Z * Z) :=
  loop 32 (fun '(bound, iterations) =>
    if bound <? size then
      t ← test bound;
      if t : bool then
        if bound * 2 <=? int_max then Some (inl (bound * 2, iterations + 1)) else None
      else Some (inr (bound, iterations))
    else Some (inr (bound, iterations))) (1, 0).

Definition exponential_search (above : Z -> bool) (key_slots : list Z) (data_capacity m : Z)
    : option (Z * Z) :=
  k ← key_slots.[m];
  if above k then
    let size := m in
    '(bound, iterations) ← double_bound size (fun bound =>
       k ← key_slots.[m - bound]; Some (above k));
    let l := m - Z.min bound size in
    let r := m - Z.quot bound 2 in
    p ← binary_search above key_slots l r; Some (p, iterations)
  else
    let size := data_capacity - m in
    '(bound, iterations) ← double_bound size (fun bound =>
       k ← key_slots.[m + bound]; Some (negb (above k)));
    let l := m + Z.quot bound 2 in
    let r := m + Z.min bound size in
    p ← binary_search above key_slots l r; Some (p, iterations).

Definition binary_search_upper_bound key_slots l r key :=
  binary_search (key_greater key) key_slots l r.
Definition binary_search_lower_bound key_slots l r key :=
  binary_search (key_greaterequal key) key_slots l r.
Definition exponential_search_upper_bound key_slots data_capacity m key :=
  exponential_search (key_greater key) key_slots data_capacity m.
Definition exponential_search_lower_bound key_slots data_capacity m key :=
  exponential_search (key_greaterequal key) key_slots data_capacity m.

(** ** Specification *)

(** [p] splits the slots [lo, hi) into those not above and those above. *)
Definition splits (above : Z -> bool) (ks : list Z) (lo hi p : Z) : Prop :=
  lo <= p <= hi /\
  (forall i, lo <= i < p -> above (at_ 0 ks i) = false) /\
  (forall i, p <= i < hi -> above (at_ 0 ks i) = true).

(** [above] only switches from false to true along the slots. *)
Definition monotone_in (above : Z -> bool) (ks : list Z) (cap : Z) : Prop :=
  forall i j, 0 <= i <= j -> j < cap -> above (at_ 0 ks i) = true -> above (at_ 0 ks j) = true.

(** Non-decreasing slots. *)
Definition keys_sorted (ks : list Z) (cap : Z) : Prop :=
  forall i j, 0 <= i <= j -> j < cap -> at_ 0 ks i <= at_ 0 ks j.

Lemma key_greater_monotone ks cap key : keys_sorted ks cap -> monotone_in (key_greater key) ks cap.
Proof.
  intros Hs i j Hij Hj. specialize (Hs i j Hij Hj). unfold key_greater.
  repeat btest_case; try done; lia.
Qed.

Lemma key_greaterequal_monotone ks cap key :
  keys_sorted ks cap -> monotone_in (key_greaterequal key) ks cap.
Proof.
  intros Hs i j Hij Hj. specialize (Hs i j Hij Hj). unfold key_greaterequal.
  repeat btest_case; try done; lia.
Qed.

Lemma splits_unique above ks lo hi p q : splits above ks lo hi p -> splits above ks lo hi q -> p = q.
Proof.
  intros (Hp & Hp1 & Hp2) (Hq & Hq1 & Hq2).
  destruct (Z.lt_trichotomy p q) as [H|[H|H]]; [|done|].
  - specialize (Hq1 p ltac:(lia)). rewrite Hp2 in Hq1 by lia. done.
  - specialize (Hp1 q ltac:(lia)). rewrite Hq2 in Hp1 by lia. done.
Qed.

(** ** Correctness *)

Section Search.
Context (above : Z -> bool) (ks : list Z) (cap : Z).
Hypothesis Hcap : zlen ks = cap.
Hypothesis Hmono : monotone_in above ks cap.

Lemma not_above_down i j :
  0 <= i <= j -> j < cap -> above (at_ 0 ks j) = false -> above (at_ 0 ks i) = false.
Proof.
  intros Hij Hj Hf. destruct (above (at_ 0 ks i)) eqn:E; [|done].
  by rewrite (Hmono i j) in Hf.
Qed.

Lemma binary_search_splits l r :
  0 <= l <= r -> r <= cap ->
  (forall i, 0 <= i < l -> above (at_ 0 ks i) = false) ->
  (forall i, r <= i < cap -> above (at_ 0 ks i) = true) ->
  exists p, binary_search above ks l r = Some p /\ splits above ks 0 cap p /\ l <= p <= r.
Proof.
  intros Hlr Hr Hlo Hhi. unfold binary_search.
  eapply (loop_spec (fun '(l', r') => l <= l' <= r' /\ r' <= r /\
    (forall i, 0 <= i < l' -> above (at_ 0 ks i) = false) /\
    (forall i, r' <= i < cap -> above (at_ 0 ks i) = true)) _ (fun '(l', r') => r' - l'));
    [|split; [lia|]; split; [lia|]; by split|lia|lia].
  intros [l' r'] (H1 & H2 & H3 & H4). destruct (Z.ltb_spec l' r').
  - assert (Hmid : l' <= l' + Z.quot (r' - l') 2 < r').
    { rewrite Z.quot_div_nonneg by lia. pose proof (Z.div_mod (r' - l') 2).
      pose proof (Z.mod_pos_bound (r' - l') 2). lia. }
    set (mid := l' + Z.quot (r' - l') 2) in *.
    rewrite (rd_at 0) by lia. cbn [mbind option_bind].
    destruct (above (at_ 0 ks mid)) eqn:E; (split; [|lia]); (split; [lia|]); (split; [lia|]); split.
    + done.
    + intros i Hi. apply (Hmono mid i); [lia|lia|done].
    + intros i Hi. apply (not_above_down i mid); [lia|lia|done].
    + done.
  - split; [|lia]. split; [lia|]. split; [done|]. intros i Hi. apply H4. lia.
Qed.

(** The doubling loop stops at a power of two [bound] whose half passed the
    test (or is the first step) and which itself fails it or reaches [size]. *)
Lemma double_bound_spec size test :
  size <= 2 ^ 30 -> (forall b, 1 <= b < size -> exists t, test b = Some t) ->
  exists bound it, double_bound size test = Some (bound, it) /\ 0 <= it /\ 1 <= bound /\
    (bound = 1 \/ (Z.quot bound 2 < size /\ 1 <= Z.quot bound 2 /\ test (Z.quot bound 2) = Some true)) /\
    (size <= bound \/ test bound = Some false).
Proof.
  intros Hsize Htest. unfold double_bound.
  destruct (loop_spec (fun '(bound, it) => 0 <= it <= 30 /\ bound = 2 ^ it /\
      (bound = 1 \/ (Z.quot bound 2 < size /\ 1 <= Z.quot bound 2 /\ test (Z.quot bound 2) = Some true)))
    (fun '(bound, it) => 0 <= it /\ 1 <= bound /\
      (bound = 1 \/ (Z.quot bound 2 < size /\ 1 <= Z.quot bound 2 /\ test (Z.quot bound 2) = Some true)) /\
      (size <= bound \/ test bound = Some false))
    (fun '(_, it) => 31 - it)
    (fun '(bound, it) => if bound <? size then
        t ← test bound;
        if t : bool then
          if bound * 2 <=? int_max then Some (inl (bound * 2, it + 1)) else None
        else Some (inr (bound, it))
      else Some (inr (bound, it)))) with (fuel := 32%nat) (s := (1, 0)) as ([bound it] & E & HQ).
  - intros [bound it] (Hit & Hb & Hor).
    assert (1 <= bound) by (subst; pose proof (Z.pow_pos_nonneg 2 it); lia).
    destruct (Z.ltb_spec bound size) as [Hlt|Hge]; [|split; [lia|]; split; [done|]; split; [done|by left]].
    destruct (Htest bound) as [t Et]; [lia|]. rewrite Et. cbn [mbind option_bind].
    destruct t; [|split; [lia|]; split; [done|]; split; [done|by right]].
    assert (it < 30) by (apply (Z.pow_lt_mono_r_iff 2); lia).
    assert (2 ^ (it + 1) = 2 * 2 ^ it) by (rewrite Z.pow_add_r by lia; lia).
    assert (2 ^ (it + 1) <= 2 ^ 30) by (apply Z.pow_le_mono_r; lia).
    change int_max with (2 ^ 31 - 1).
    destruct (Z.leb_spec (bound * 2) (2 ^ 31 - 1)); [|lia].
    split; [|lia]. split; [lia|]. split; [lia|]. right.
    rewrite Z.quot_mul by lia. done.
  - split; [lia|]. split; [done|by left].
  - lia.
  - lia.
  - eauto.
Qed.

(** Exponential search finds the split from every starting position, so a bad
    prediction costs time and never correctness. *)
Lemma exponential_search_splits m :
  0 <= m < cap -> cap <= 2 ^ 30 ->
  exists p it, exponential_search above ks cap m = Some (p, it) /\ 0 <= it /\ splits above ks 0 cap p.
Proof.
  intros Hm Hsz. unfold exponential_search. rewrite (rd_at 0) by lia. cbn [mbind option_bind].
  destruct (above (at_ 0 ks m)) eqn:Em.
  - destruct (double_bound_spec m (fun bound => k ← ks.[m - bound]; Some (above k)))
      as (bound & it & E & Hit & Hb & Hhalf & Hstop); [lia|intros b Hb; rewrite (rd_at 0) by lia; simpl; eauto|].
    rewrite E. cbn [mbind option_bind].
    assert (Hq : 0 <= Z.quot bound 2 <= m /\ above (at_ 0 ks (m - Z.quot bound 2)) = true /\
                 Z.quot bound 2 <= Z.min bound m).
    { assert (Z.quot bound 2 <= bound /\ 0 <= Z.quot bound 2) by
        (rewrite Z.quot_div_nonneg by lia; pose proof (Z.div_mod bound 2); pose proof (Z.mod_pos_bound bound 2); lia).
      destruct Hhalf as [->|(Hq1 & Hq2 & Ht)].
      - change (Z.quot 1 2) with 0. rewrite Z.sub_0_r. split; [lia|]. split; [done|lia].
      - rewrite (rd_at 0) in Ht by lia. simpl in Ht. split; [lia|]. split; [congruence|lia]. }
    destruct Hq as (Hq1 & Hq2 & Hq3).
    destruct (binary_search_splits (m - Z.min bound m) (m - Z.quot bound 2)) as (p & Ep & Hp & _);
      [lia|lia| | |rewrite Ep; simpl; eauto 6].
    + intros i Hi. destruct Hstop as [Hge|Hf]; [lia|].
      destruct (Z.lt_ge_cases bound m); [|lia].
      rewrite (rd_at 0) in Hf by lia. simpl in Hf.
      apply (not_above_down i (m - bound)); [lia|lia|congruence].
    + intros i Hi. apply (Hmono (m - Z.quot bound 2) i); [lia|lia|done].
  - destruct (double_bound_spec (cap - m) (fun bound => k ← ks.[m + bound]; Some (negb (above k))))
      as (bound & it & E & Hit & Hb & Hhalf & Hstop); [lia|intros b Hb; rewrite (rd_at 0) by lia; simpl; eauto|].
    rewrite E. cbn [mbind option_bind].
    assert (Hq : 0 <= Z.quot bound 2 < cap - m /\ above (at_ 0 ks (m + Z.quot bound 2)) = false /\
                 Z.quot bound 2 <= Z.min bound (cap - m)).
    { assert (Z.quot bound 2 <= bound /\ 0 <= Z.quot bound 2) by
        (rewrite Z.quot_div_nonneg by lia; pose proof (Z.div_mod bound 2); pose proof (Z.mod_pos_bound bound 2); lia).
      destruct Hhalf as [->|(Hq1 & Hq2 & Ht)].
      - change (Z.quot 1 2) with 0. rewrite Z.add_0_r. split; [lia|]. split; [done|lia].
      - rewrite (rd_at 0) in Ht by lia. simpl in Ht. split; [lia|]. split; [|lia].
        apply negb_true_iff. congruence. }
    destruct Hq as (Hq1 & Hq2 & Hq3).
    destruct (binary_search_splits (m + Z.quot bound 2) (m + Z.min bound (cap - m))) as (p & Ep & Hp & _);
      [lia|lia| | |rewrite Ep; simpl; eauto 6].
    + intros i Hi. apply (not_above_down i (m + Z.quot bound 2)); [lia|lia|done].
    + intros i Hi. destruct Hstop as [Hge|Hf]; [lia|].
      destruct (Z.lt_ge_cases bound (cap - m)); [|lia].
      rewrite (rd_at 0) in Hf by lia. simpl in Hf.
      apply (Hmono (m + bound) i); [lia|lia|]. apply negb_false_iff. congruence.
Qed.
End Search.

(** C33: on sorted slots, the exponential searches started at any position find
    what a binary search of the whole array finds: the first key above the
    argument, or the first key not below it, and the loops never leave the array
    nor overflow. *)
Theorem exponential_search_matches_binary ks cap m key :
  zlen ks = cap -> keys_sorted ks cap -> 0 <= m < cap -> cap <= 2 ^ 30 ->
  (exists p it, exponential_search_upper_bound ks cap m key = Some (p, it) /\
     binary_search_upper_bound ks 0 cap key = Some p /\ splits (key_greater key) ks 0 cap p) /\
  (exists p it, exponential_search_lower_bound ks cap m key = Some (p, it) /\
     binary_search_lower_bound ks 0 cap key = Some p /\ splits (key_greaterequal key) ks 0 cap p).
Proof.
  intros Hlen Hs Hm Hc.
  assert (Hboth : forall above, monotone_in above ks cap -> exists p it,
    exponential_search above ks cap m = Some (p, it) /\ binary_search above ks 0 cap = Some p /\ splits above ks 0 cap p).
  { intros above Hmono.
    destruct (exponential_search_splits above ks cap Hlen Hmono m Hm Hc) as (p & it & E & _ & Hp).
    destruct (binary_search_splits above ks cap Hlen Hmono 0 cap) as (q & Eq & Hq & _); [lia|lia|lia|lia|].
    exists p, it. rewrite E, Eq, (splits_unique _ _ _ _ _ _ Hp Hq). done. }
  split; apply Hboth; [by apply key_greater_monotone|by apply key_greaterequal_monotone].
Qed.

Lemma exponential_search_matches_binary_witness :
  (exists p it, exponential_search_upper_bound [3; 3; 5; 8; 9] 5 4 5 = Some (p, it) /\
     binary_search_upper_bound [3; 3; 5; 8; 9] 0 5 5 = Some p /\ splits (key_greater 5) [3; 3; 5; 8; 9] 0 5 p) /\
  (exists p it, exponential_search_lower_bound [3; 3; 5; 8; 9] 5 4 5 = Some (p, it) /\
     binary_search_lower_bound [3; 3; 5; 8; 9] 0 5 5 = Some p /\ splits (key_greaterequal 5) [3; 3; 5; 8; 9] 0 5 p).
Proof.
  apply (exponential_search_matches_binary [3; 3; 5; 8; 9] 5 4 5); [reflexivity| |lia|lia].
  intros i j Hij Hj.
  assert (i = 0 \/ i = 1 \/ i = 2 \/ i = 3 \/ i = 4) as Hi by lia.
  assert (j = 0 \/ j = 1 \/ j = 2 \/ j = 3 \/ j = 4) as Hj' by lia.
  destruct Hi as [->|[->|[->|[->| ->]]]]; destruct Hj' as [->|[->|[->|[->| ->]]]]; vm_compute; done || lia.
Defined.
