(* ===== verification/AlexNode.v ===== *)
(** * ALEX: the data node, its invariant and its lookups (alex/src/alex_nodes.h)

    The fields of [AlexDataNode] are grouped in three records: the gapped arrays
    with their bitmap ([Slots]), the counters of the cost model ([Counters]) and
    the node itself.  [next_leaf_], [prev_leaf_], [level_] and
    [duplication_factor_] belong to the tree above and are not part of a node
    here.

    A gapped array keeps every gap equal to the key that follows it, so that the
    key slots are sorted and can be searched without looking at the bitmap.
    [slots_ok] is that invariant; it implies that a slot is filled exactly when
    its key is smaller than the next one. *)

From S2P Require Import Prelude Words Floats AlexBase AlexBitmap AlexSearch.
From stdpp Require Import gmap.
From Stdlib Require Import SpecFloat Sorted.
Local Open Scope Z_scope.
Local Open Scope cxx_scope.

(** ** State *)

Record Slots (P : Type) := mkSlots {
  key_slots_ : list Z;
  payload_slots_ : list P;
  data_capacity_ : Z;
  num_keys_ : Z;
  bitmap_ : list Z;
  bitmap_size_ : Z
}.
Arguments mkSlots {P}.
Arguments key_slots_ {P}.
Arguments payload_slots_ {P}.
Arguments data_capacity_ {P}.
Arguments num_keys_ {P}.
Arguments bitmap_ {P}.
Arguments bitmap_size_ {P}.

Record Counters := mkCounters {
  num_shifts_ : Z;
  num_exp_search_iterations_ : Z;
  num_lookups_ : Z;
  num_inserts_ : Z;
  num_resizes_ : Z;
  max_key_ : Z;
  min_key_ : Z;
  num_right_out_of_bounds_inserts_ : Z;
  num_left_out_of_bounds_inserts_ : Z
}.

Record AlexDataNode (P : Type) := mkNode {
  slots_ : Slots P;
  model_ : LinearModel;
  cost_ : f64;
  expansion_threshold_ : f64;
  contraction_threshold_ : f64;
  max_slots_ : Z;
  counters_ : Counters;
  expected_avg_exp_search_iterations_ : f64;
  expected_avg_shifts_ : f64
}.
Arguments mkNode {P}.
Arguments slots_ {P}.
Arguments model_ {P}.
Arguments cost_ {P}.
Arguments expansion_threshold_ {P}.
Arguments contraction_threshold_ {P}.
Arguments max_slots_ {P}.
Arguments counters_ {P}.
Arguments expected_avg_exp_search_iterations_ {P}.
Arguments expected_avg_shifts_ {P}.

(** Placed in the key slots after the largest key. *)
Definition kEndSentinel_ : Z := u64_max.

Definition kMaxDensity_ : f64 := f64_lit 8 10.
Definition kInitDensity_ : f64 := f64_lit 7 10.
Definition kMinDensity_ : f64 := f64_lit 6 10.
Definition kAppendMostlyThreshold : f64 := f64_lit 9 10.
Definition kDefaultMaxDataNodeBytes_ : Z := Z.shiftl 1 24.

(** The member initialisers of a default-constructed node; [sizeof_V] is
    [sizeof(std::pair<T, P>)]. *)
Definition AlexDataNode_default (P : Type) (sizeof_V : Z) : AlexDataNode P :=
  mkNode (mkSlots [] [] 0 0 [] 0) LinearModel_default f64_zero (f64_of_Z 1) f64_zero
    (Z.quot kDefaultMaxDataNodeBytes_ sizeof_V)
    (mkCounters 0 0 0 0 0 0 u64_max 0 0) f64_zero f64_zero.

Section Node.
Context {P : Type}.
Implicit Types (s : Slots P) (n : AlexDataNode P).

(** ** Field updates *)

Definition with_slots n s : AlexDataNode P :=
  mkNode s (model_ n) (cost_ n) (expansion_threshold_ n) (contraction_threshold_ n)
    (max_slots_ n) (counters_ n) (expected_avg_exp_search_iterations_ n) (expected_avg_shifts_ n).

Definition with_counters n c : AlexDataNode P :=
  mkNode (slots_ n) (model_ n) (cost_ n) (expansion_threshold_ n) (contraction_threshold_ n)
    (max_slots_ n) c (expected_avg_exp_search_iterations_ n) (expected_avg_shifts_ n).

Definition add_lookup (c : Counters) : Counters :=
  mkCounters (num_shifts_ c) (num_exp_search_iterations_ c) (num_lookups_ c + 1) (num_inserts_ c)
    (num_resizes_ c) (max_key_ c) (min_key_ c) (num_right_out_of_bounds_inserts_ c)
    (num_left_out_of_bounds_inserts_ c).

Definition add_iterations (it : Z) (c : Counters) : Counters :=
  mkCounters (num_shifts_ c) (num_exp_search_iterations_ c + it) (num_lookups_ c) (num_inserts_ c)
    (num_resizes_ c) (max_key_ c) (min_key_ c) (num_right_out_of_bounds_inserts_ c)
    (num_left_out_of_bounds_inserts_ c).

Definition add_shifts (d : Z) (c : Counters) : Counters :=
  mkCounters (num_shifts_ c + d) (num_exp_search_iterations_ c) (num_lookups_ c) (num_inserts_ c)
    (num_resizes_ c) (max_key_ c) (min_key_ c) (num_right_out_of_bounds_inserts_ c)
    (num_left_out_of_bounds_inserts_ c).

Definition add_resize (c : Counters) : Counters :=
  mkCounters (num_shifts_ c) (num_exp_search_iterations_ c) (num_lookups_ c) (num_inserts_ c)
    (num_resizes_ c + 1) (max_key_ c) (min_key_ c) (num_right_out_of_bounds_inserts_ c)
    (num_left_out_of_bounds_inserts_ c).

Definition upd_counters n (f : Counters -> Counters) : AlexDataNode P :=
  with_counters n (f (counters_ n)).

(** ** First and last key *)

Definition first_pos s : option Z :=
  loop (S (Z.to_nat (data_capacity_ s))) (fun i =>
    if i <? data_capacity_ s then
      e ← check_exists (bitmap_ s) i; Some (if e : bool then inr i else inl (i + 1))
    else Some (inr 0)) 0.

Definition last_pos s : option Z :=
  loop (S (Z.to_nat (data_capacity_ s))) (fun i =>
    if 0 <=? i then
      e ← check_exists (bitmap_ s) i; Some (if e : bool then inr i else inl (i - 1))
    else Some (inr 0)) (data_capacity_ s - 1).

Definition first_key s : option Z :=
  loop (S (Z.to_nat (data_capacity_ s))) (fun i =>
    if i <? data_capacity_ s then
      e ← check_exists (bitmap_ s) i;
      if e : bool then k ← (key_slots_ s).[i]; Some (inr k) else Some (inl (i + 1))
    else Some (inr u64_max)) 0.

Definition last_key s : option Z :=
  loop (S (Z.to_nat (data_capacity_ s))) (fun i =>
    if 0 <=? i then
      e ← check_exists (bitmap_ s) i;
      if e : bool then k ← (key_slots_ s).[i]; Some (inr k) else Some (inl (i - 1))
    else Some (inr 0)) (data_capacity_ s - 1).

(** ** Lookup *)

Definition predict_position n (key : Z) : Z :=
  Z.max (Z.min (predict (model_ n) key) (data_capacity_ (slots_ n) - 1)) 0.

(** The exponential search from the prediction, with its iteration counter. *)
Definition search_upper n (key : Z) : option (Z * AlexDataNode P) :=
  '(pos, it) ← exponential_search_upper_bound (key_slots_ (slots_ n)) (data_capacity_ (slots_ n))
     (predict_position n key) key;
  Some (pos, upd_counters n (add_iterations it)).

Definition search_lower n (key : Z) : option (Z * AlexDataNode P) :=
  '(pos, it) ← exponential_search_lower_bound (key_slots_ (slots_ n)) (data_capacity_ (slots_ n))
     (predict_position n key) key;
  Some (pos, upd_counters n (add_iterations it)).

Definition upper_bound n (key : Z) : option (Z * AlexDataNode P) :=
  search_upper (upd_counters n add_lookup) key.

Definition lower_bound n (key : Z) : option (Z * AlexDataNode P) :=
  search_lower (upd_counters n add_lookup) key.

Definition find_key n (key : Z) : option (Z * AlexDataNode P) :=
  '(ub, n) ← search_upper (upd_counters n add_lookup) key;
  let pos := ub - 1 in
  if pos <? 0 then Some (-1, n)
  else
    k ← (key_slots_ (slots_ n)).[pos];
    if k =? key then Some (pos, n) else Some (-1, n).

Definition find_lower n (key : Z) : option (Z * AlexDataNode P) :=
  '(pos, n) ← search_lower (upd_counters n add_lookup) key;
  r ← get_next_filled_position (bitmap_ (slots_ n)) (bitmap_size_ (slots_ n))
        (data_capacity_ (slots_ n)) pos false;
  Some (r, n).

Definition find_upper n (key : Z) : option (Z * AlexDataNode P) :=
  '(pos, n) ← search_upper (upd_counters n add_lookup) key;
  r ← get_next_filled_position (bitmap_ (slots_ n)) (bitmap_size_ (slots_ n))
        (data_capacity_ (slots_ n)) pos false;
  Some (r, n).

Definition find_insert_position n (key : Z) : option ((Z * Z) * AlexDataNode P) :=
  let predicted_pos := predict_position n key in
  '(pos, n) ← search_upper n key;
  let s := slots_ n in
  if predicted_pos <=? pos then Some ((pos, pos), n)
  else
    e ← check_exists (bitmap_ s) pos;
    if e : bool then Some ((pos, pos), n)
    else
      nf ← get_next_filled_position (bitmap_ s) (bitmap_size_ s) (data_capacity_ s) pos true;
      Some ((Z.min predicted_pos (nf - 1), pos), n).

(** ** The invariant *)

Definition key_at s (i : Z) : Z := at_ 0 (key_slots_ s) i.

(** The key slot after [i], or the sentinel. *)
Definition next_key s (i : Z) : Z :=
  if i + 1 <? data_capacity_ s then key_at s (i + 1) else kEndSentinel_.

Record slots_ok s : Prop := {
  so_bitmap : bitmap_ok (bitmap_ s) (bitmap_size_ s) (data_capacity_ s);
  so_keys : zlen (key_slots_ s) = data_capacity_ s;
  so_payloads : zlen (payload_slots_ s) = data_capacity_ s;
  so_nonneg : 0 <= key_at s 0;
  so_le : forall i, 0 <= i < data_capacity_ s -> key_at s i <= next_key s i;
  so_bit : forall i, 0 <= i < data_capacity_ s -> bitv (bitmap_ s) i = (key_at s i <? next_key s i);
  so_num : num_keys_ s = cnt (bitv (bitmap_ s)) 0 (data_capacity_ s)
}.

(** Key [k] is stored with payload [v]. *)
Definition stored s (k : Z) (v : P) : Prop :=
  exists i, 0 <= i < data_capacity_ s /\ bitv (bitmap_ s) i = true /\
    rd (key_slots_ s) i = Some k /\ rd (payload_slots_ s) i = Some v.

(** The filled slots in order. *)
Definition slot_entry s (i : Z) : option (Z * P) :=
  if bitv (bitmap_ s) i then
    k ← rd (key_slots_ s) i; v ← rd (payload_slots_ s) i; Some (k, v)
  else None.

Definition contents s : list (Z * P) := omap (slot_entry s) (seqZ 0 (data_capacity_ s)).

(** The map a node represents. *)
Definition node_map s : gmap Z P := list_to_map (contents s).

(** ** Consequences of the invariant *)

Lemma slots_sorted s : slots_ok s -> keys_sorted (key_slots_ s) (data_capacity_ s).
Proof.
  intros H i j Hij Hj. fold (key_at s i). fold (key_at s j).
  replace j with (i + Z.of_nat (Z.to_nat (j - i))) in * by lia.
  induction (Z.to_nat (j - i)) as [|d IH]; [by replace (i + Z.of_nat 0) with i by lia|].
  etrans; [apply IH; lia|]. replace (i + Z.of_nat (S d)) with (i + Z.of_nat d + 1) in * by lia.
  pose proof (so_le s H (i + Z.of_nat d) ltac:(lia)) as Hle. unfold next_key in Hle.
  destruct (Z.ltb_spec (i + Z.of_nat d + 1) (data_capacity_ s)); [done|lia].
Qed.

Lemma key_at_le s i j : slots_ok s -> 0 <= i <= j -> j < data_capacity_ s -> key_at s i <= key_at s j.
Proof. intros H. apply (slots_sorted s H). Qed.

Lemma key_at_range s i : slots_ok s -> 0 <= i < data_capacity_ s -> 0 <= key_at s i <= u64_max.
Proof.
  intros H Hi. split.
  - etrans; [apply (so_nonneg s H)|]. apply key_at_le; [done|lia|lia].
  - etrans; [apply (key_at_le s i (data_capacity_ s - 1)); [done|lia|lia]|].
    pose proof (so_le s H (data_capacity_ s - 1) ltac:(lia)) as Hl. unfold next_key in Hl.
    by replace (data_capacity_ s - 1 + 1) with (data_capacity_ s) in Hl by lia;
      rewrite Z.ltb_irrefl in Hl.
Qed.

Lemma next_key_le_sentinel s i : slots_ok s -> -1 <= i < data_capacity_ s -> next_key s i <= u64_max.
Proof.
  intros H Hi. unfold next_key. btest_case; [|done]. apply key_at_range; [done|lia].
Qed.

(** Stored keys are strictly below the sentinel and strictly increasing. *)
Lemma filled_lt_next s i :
  slots_ok s -> 0 <= i < data_capacity_ s -> bitv (bitmap_ s) i = true -> key_at s i < next_key s i.
Proof. intros H Hi Hb. rewrite (so_bit s H i Hi) in Hb. by btest. Qed.

Lemma gap_eq_next s i :
  slots_ok s -> 0 <= i < data_capacity_ s -> bitv (bitmap_ s) i = false -> key_at s i = next_key s i.
Proof.
  intros H Hi Hb. rewrite (so_bit s H i Hi) in Hb. pose proof (so_le s H i Hi). btest. lia.
Qed.

Lemma filled_lt_sentinel s i :
  slots_ok s -> 0 <= i < data_capacity_ s -> bitv (bitmap_ s) i = true -> key_at s i < u64_max.
Proof.
  intros H Hi Hb. pose proof (filled_lt_next s i H Hi Hb).
  pose proof (next_key_le_sentinel s i H ltac:(lia)). lia.
Qed.

Lemma filled_increasing s i j :
  slots_ok s -> 0 <= i < j -> j < data_capacity_ s -> bitv (bitmap_ s) i = true ->
  key_at s i < key_at s j.
Proof.
  intros H Hij Hj Hb. pose proof (filled_lt_next s i H ltac:(lia) Hb) as Hlt.
  unfold next_key in Hlt. destruct (Z.ltb_spec (i + 1) (data_capacity_ s)); [|lia].
  pose proof (key_at_le s (i + 1) j H ltac:(lia) Hj). lia.
Qed.

Lemma bitv_range s i : slots_ok s -> 0 <= i < data_capacity_ s -> 0 <= i < 64 * zlen (bitmap_ s).
Proof.
  intros H Hi. pose proof (cap_words _ _ _ (so_bitmap s H)). lia.
Qed.

Lemma rd_key s i : slots_ok s -> 0 <= i < data_capacity_ s -> rd (key_slots_ s) i = Some (key_at s i).
Proof. intros H Hi. apply rd_at. by rewrite (so_keys s H). Qed.

(** The keys of two filled slots are equal only if the slots are. *)
Lemma stored_functional s k v w : slots_ok s -> stored s k v -> stored s k w -> v = w.
Proof.
  intros H (i & Hi & Bi & Ki & Vi) (j & Hj & Bj & Kj & Vj).
  rewrite rd_key in Ki, Kj by done. simplify_eq.
  destruct (Z.lt_trichotomy i j) as [?|[->|?]]; [|congruence|].
  - pose proof (filled_increasing s i j H ltac:(lia) ltac:(lia) Bi). lia.
  - pose proof (filled_increasing s j i H ltac:(lia) ltac:(lia) Bj). lia.
Qed.

(** ** The map of a node *)

Lemma elem_of_contents s k v : (k, v) ∈ contents s <-> stored s k v.
Proof.
  unfold contents, stored, slot_entry. rewrite list_elem_of_omap. split.
  - intros (i & Hi & E). apply elem_of_seqZ in Hi. exists i. split; [lia|].
    destruct (bitv _ _); [|done]. destruct (rd (key_slots_ s) i); [|done].
    destruct (rd (payload_slots_ s) i); [|done]. simpl in E. by simplify_eq.
  - intros (i & Hi & Hb & Hk & Hv). exists i. rewrite elem_of_seqZ, Hb, Hk, Hv. split; [lia|done].
Qed.

Lemma contents_increasing s : slots_ok s -> StronglySorted (fun p q => p.1 < q.1) (contents s).
Proof.
  intros H. unfold contents.
  assert (Hgen : forall m lo, 0 <= lo -> lo + Z.of_nat m <= data_capacity_ s ->
    StronglySorted (fun p q : Z * P => p.1 < q.1) (omap (slot_entry s) (seqZ lo (Z.of_nat m)))).
  { induction m as [|m IH]; intros lo Hlo Hhi; [constructor|].
    rewrite seqZ_cons by lia. simpl. replace (Z.pred (Z.of_nat (S m))) with (Z.of_nat m) by lia.
    assert (IH' := IH (Z.succ lo) ltac:(lia) ltac:(lia)).
    destruct (slot_entry s lo) as [[k v]|] eqn:E; [|done].
    constructor; [done|]. apply Forall_forall. intros [k' v'] (j & Hj & Ej)%list_elem_of_omap.
    apply elem_of_seqZ in Hj. unfold slot_entry in *.
    destruct (bitv (bitmap_ s) lo) eqn:Bl; [|done]. destruct (bitv (bitmap_ s) j) eqn:Bj; [|done].
    rewrite rd_key in E, Ej by (done || lia).
    destruct (rd (payload_slots_ s) lo); [|done]. destruct (rd (payload_slots_ s) j); [|done].
    simpl in *. simplify_eq. apply filled_increasing; [done|lia|lia|done]. }
  pose proof (bo_cap _ _ _ (so_bitmap s H)).
  replace (data_capacity_ s) with (Z.of_nat (Z.to_nat (data_capacity_ s))) by lia. apply Hgen; lia.
Qed.

Lemma increasing_NoDup (l : list (Z * P)) :
  StronglySorted (fun p q => p.1 < q.1) l -> NoDup l.*1.
Proof.
  induction 1 as [|[k v] l _ IH Hall]; simpl; [constructor|]. constructor; [|done].
  intros ([k' v'] & -> & Hin)%list_elem_of_fmap.
  rewrite Forall_forall in Hall. specialize (Hall _ Hin). simpl in Hall. lia.
Qed.

Lemma node_map_lookup s k v : slots_ok s -> node_map s !! k = Some v <-> stored s k v.
Proof.
  intros H. rewrite <-elem_of_contents. unfold node_map. symmetry.
  apply elem_of_list_to_map. by apply increasing_NoDup, contents_increasing.
Qed.

(** Two nodes that store the same pairs represent the same map. *)
Lemma node_map_ext s (m : gmap Z P) :
  slots_ok s -> (forall k v, stored s k v <-> m !! k = Some v) -> node_map s = m.
Proof.
  intros H Hs. apply map_eq. intros k. apply option_eq. intros v.
  by rewrite node_map_lookup, Hs.
Qed.

End Node.
