(* ===== verification/AlexLookup.v ===== *)
(** * ALEX: correctness of the data-node lookups (alex/src/alex_nodes.h)

    The searches start at the position the linear model predicts.  Every lemma
    here holds for every model, trained or not: the prediction only selects the
    starting point.  [fits n] bounds the capacity so that the doubling of the
    exponential search stays inside [int]; the source keeps nodes below
    [max_slots_], which is at most [2^24] bytes' worth of slots. *)

From S2P Require Import Prelude Words Floats AlexBase AlexBitmap AlexSearch AlexNode.
From stdpp Require Import gmap.
Local Open Scope Z_scope.
Local Open Scope cxx_scope.

Definition fits {P} (n : AlexDataNode P) : Prop := data_capacity_ (slots_ n) <= 2 ^ 30.

Section Lookup.
Context {P : Type}.
Implicit Types (s : Slots P) (n : AlexDataNode P).

Lemma predict_position_range n key :
  slots_ok (slots_ n) -> 0 <= predict_position n key < data_capacity_ (slots_ n).
Proof.
  intros H. pose proof (bo_cap _ _ _ (so_bitmap _ H)). unfold predict_position. lia.
Qed.

Lemma search_upper_spec n key :
  slots_ok (slots_ n) -> fits n ->
  exists p it, search_upper n key = Some (p, upd_counters n (add_iterations it)) /\
    splits (key_greater key) (key_slots_ (slots_ n)) 0 (data_capacity_ (slots_ n)) p.
Proof.
  intros H Hf. unfold search_upper, exponential_search_upper_bound.
  destruct (exponential_search_splits (key_greater key) (key_slots_ (slots_ n)) (data_capacity_ (slots_ n)))
    with (m := predict_position n key) as (p & it & E & _ & Hs).
  - apply so_keys, H.
  - apply key_greater_monotone, slots_sorted, H.
  - by apply predict_position_range.
  - done.
  - rewrite E. simpl. eauto.
Qed.

Lemma search_lower_spec n key :
  slots_ok (slots_ n) -> fits n ->
  exists p it, search_lower n key = Some (p, upd_counters n (add_iterations it)) /\
    splits (key_greaterequal key) (key_slots_ (slots_ n)) 0 (data_capacity_ (slots_ n)) p.
Proof.
  intros H Hf. unfold search_lower, exponential_search_lower_bound.
  destruct (exponential_search_splits (key_greaterequal key) (key_slots_ (slots_ n)) (data_capacity_ (slots_ n)))
    with (m := predict_position n key) as (p & it & E & _ & Hs).
  - apply so_keys, H.
  - apply key_greaterequal_monotone, slots_sorted, H.
  - by apply predict_position_range.
  - done.
  - rewrite E. simpl. eauto.
Qed.

(** ** What the split positions say about the keys *)

Lemma upper_split s key p :
  splits (key_greater key) (key_slots_ s) 0 (data_capacity_ s) p ->
  0 <= p <= data_capacity_ s /\ (forall i, 0 <= i < p -> key_at s i <= key) /\
  (forall i, p <= i < data_capacity_ s -> key < key_at s i).
Proof.
  intros (Hp & Hlo & Hhi). split; [done|]. unfold key_greater in *. split.
  - intros i Hi. specialize (Hlo i Hi). btest. done.
  - intros i Hi. specialize (Hhi i Hi). btest. done.
Qed.

Lemma lower_split s key p :
  splits (key_greaterequal key) (key_slots_ s) 0 (data_capacity_ s) p ->
  0 <= p <= data_capacity_ s /\ (forall i, 0 <= i < p -> key_at s i < key) /\
  (forall i, p <= i < data_capacity_ s -> key <= key_at s i).
Proof.
  intros (Hp & Hlo & Hhi). split; [done|]. unfold key_greaterequal in *. split.
  - intros i Hi. specialize (Hlo i Hi). btest. done.
  - intros i Hi. specialize (Hhi i Hi). btest. done.
Qed.

(** The slot before an upper bound is a real key, never a gap. *)
Lemma before_upper_filled s key p :
  slots_ok s -> key < u64_max ->
  splits (key_greater key) (key_slots_ s) 0 (data_capacity_ s) p ->
  0 < p -> bitv (bitmap_ s) (p - 1) = true.
Proof.
  intros H Hk Hs Hp. apply upper_split in Hs as (Hr & Hlo & Hhi).
  destruct (bitv (bitmap_ s) (p - 1)) eqn:E; [done|]. exfalso.
  pose proof (gap_eq_next s (p - 1) H ltac:(lia) E) as Hg. unfold next_key in Hg.
  specialize (Hlo (p - 1) ltac:(lia)). replace (p - 1 + 1) with p in Hg by lia.
  destruct (Z.ltb_spec p (data_capacity_ s)); [specialize (Hhi p ltac:(lia)); lia|].
  change kEndSentinel_ with u64_max in Hg. lia.
Qed.

(** A key is stored exactly when the slot before its upper bound holds it. *)
Lemma stored_before_upper s key v p :
  slots_ok s -> key < u64_max ->
  splits (key_greater key) (key_slots_ s) 0 (data_capacity_ s) p ->
  stored s key v <-> 0 < p /\ key_at s (p - 1) = key /\ rd (payload_slots_ s) (p - 1) = Some v.
Proof.
  intros H Hk Hs. assert (Hf := before_upper_filled s key p H Hk Hs).
  apply upper_split in Hs as (Hr & Hlo & Hhi). split.
  - intros (i & Hi & Bi & Ki & Vi). rewrite rd_key in Ki by done. simplify_eq.
    assert (Hip : i < p) by (apply Z.nle_gt; intros ?; specialize (Hhi i ltac:(lia)); lia).
    destruct (Z.eq_dec i (p - 1)) as [->|]; [split; [lia|done]|].
    pose proof (filled_increasing s i (p - 1) H ltac:(lia) ltac:(lia) Bi).
    specialize (Hlo (p - 1) ltac:(lia)). lia.
  - intros (Hp & <- & Hv). exists (p - 1). split; [lia|]. split; [by apply Hf|].
    split; [|done]. apply rd_key; [done|lia].
Qed.

Lemma payload_at s i : slots_ok s -> 0 <= i < data_capacity_ s -> exists v, rd (payload_slots_ s) i = Some v.
Proof. intros H Hi. apply rd_in. by rewrite (so_payloads s H). Qed.

(** ** The lookups *)

(** [find_key] returns the filled position of the key with its payload when the
    key is stored and -1 when it is not, whatever the model predicts. *)
Lemma find_key_spec n key :
  slots_ok (slots_ n) -> fits n -> key < u64_max ->
  exists pos it, find_key n key =
      Some (pos, upd_counters (upd_counters n add_lookup) (add_iterations it)) /\
    match node_map (slots_ n) !! key with
    | None => pos = -1
    | Some v => 0 <= pos < data_capacity_ (slots_ n) /\ bitv (bitmap_ (slots_ n)) pos = true /\
                rd (key_slots_ (slots_ n)) pos = Some key /\ rd (payload_slots_ (slots_ n)) pos = Some v
    end.
Proof.
  intros H Hf Hk. set (n1 := upd_counters n add_lookup).
  destruct (search_upper_spec n1 key H Hf) as (p & it & E & Hs). change (slots_ n1) with (slots_ n) in Hs.
  unfold find_key. fold n1. rewrite E. cbn [mbind option_bind].
  assert (Hstored : forall v, node_map (slots_ n) !! key = Some v <-> _) by
    (intros v; rewrite node_map_lookup by done; by apply stored_before_upper).
  pose proof (upper_split _ _ _ Hs) as (Hr & _).
  assert (Hnone : (0 < p -> key_at (slots_ n) (p - 1) <> key) -> node_map (slots_ n) !! key = None).
  { intros Hne. apply eq_None_ne_Some. intros v (Hp & Hkey & _)%Hstored. by apply (Hne Hp). }
  destruct (Z.ltb_spec (p - 1) 0); [|].
  - rewrite Hnone by lia. by do 2 eexists.
  - change (slots_ (upd_counters n1 (add_iterations it))) with (slots_ n).
    rewrite rd_key by (done || lia). cbn [mbind option_bind].
    destruct (Z.eqb_spec (key_at (slots_ n) (p - 1)) key) as [Ek|Nk].
    + destruct (payload_at (slots_ n) (p - 1) H ltac:(lia)) as [v Ev].
      assert (node_map (slots_ n) !! key = Some v) as -> by (apply Hstored; split; [lia|done]).
      do 2 eexists. split; [done|]. split; [lia|].
      split; [eapply before_upper_filled; (done || lia)|]. split; [|done].
      rewrite rd_key by (done || lia). by rewrite Ek.
    + rewrite Hnone by done. by do 2 eexists.
Qed.

(** [find_lower] returns the first filled slot whose key is not smaller than
    the argument, or the capacity when there is none, provided a slot of the
    last bitmap word is left to look at. *)
Lemma find_lower_spec n key :
  slots_ok (slots_ n) -> fits n ->
  (data_capacity_ (slots_ n) mod 64 <> 0 \/ key <= key_at (slots_ n) (data_capacity_ (slots_ n) - 1)) ->
  exists pos it, find_lower n key =
      Some (pos, upd_counters (upd_counters n add_lookup) (add_iterations it)) /\
    0 <= pos <= data_capacity_ (slots_ n) /\
    (forall i, 0 <= i < pos -> bitv (bitmap_ (slots_ n)) i = true -> key_at (slots_ n) i < key) /\
    (pos < data_capacity_ (slots_ n) -> bitv (bitmap_ (slots_ n)) pos = true /\ key <= key_at (slots_ n) pos).
Proof.
  intros H Hf Hroom. set (n1 := upd_counters n add_lookup).
  destruct (search_lower_spec n1 key H Hf) as (p & it & E & Hs). change (slots_ n1) with (slots_ n) in Hs.
  unfold find_lower. fold n1. rewrite E. cbn [mbind option_bind].
  change (slots_ (upd_counters n1 (add_iterations it))) with (slots_ n).
  apply lower_split in Hs as (Hr & Hlo & Hhi). pose proof (so_bitmap _ H) as Hbm.
  destruct (get_next_filled_position_spec _ _ _ p false Hbm) as (r & Er & Hr1 & Hr2 & Hr3).
  - done.
  - right. destruct (cap_words _ _ _ Hbm) as [Hcw _]. pose proof (bo_cap _ _ _ Hbm).
    pose proof (pos64 (data_capacity_ (slots_ n))). destruct Hroom as [Hm|Hlast]; [lia|].
    assert (p <= data_capacity_ (slots_ n) - 1); [|lia].
    apply Z.nlt_ge. intros Hlt. specialize (Hlo (data_capacity_ (slots_ n) - 1) ltac:(lia)). lia.
  - rewrite Er. cbn [mbind option_bind]. do 2 eexists. split; [done|]. split; [lia|].
    split; [|intros Hlt; split; [by apply Hr3|apply Hhi; lia]].
    intros i Hi Hb. destruct (Z.lt_ge_cases i p); [apply Hlo; lia|].
    rewrite Hr2 in Hb by lia. done.
Qed.

(** When the capacity is a multiple of 64 and every key is smaller than the
    argument, [find_lower] reads one word past the end of the bitmap. *)
Theorem find_lower_out_of_bounds n key :
  slots_ok (slots_ n) -> fits n ->
  data_capacity_ (slots_ n) mod 64 = 0 -> key_at (slots_ n) (data_capacity_ (slots_ n) - 1) < key ->
  find_lower n key = None.
Proof.
  intros H Hf Hm Hlast. set (n1 := upd_counters n add_lookup).
  destruct (search_lower_spec n1 key H Hf) as (p & it & E & Hs). change (slots_ n1) with (slots_ n) in Hs.
  unfold find_lower. fold n1. rewrite E. cbn [mbind option_bind].
  change (slots_ (upd_counters n1 (add_iterations it))) with (slots_ n).
  apply lower_split in Hs as (Hr & Hlo & Hhi). pose proof (so_bitmap _ H) as Hbm.
  pose proof (bo_cap _ _ _ Hbm). destruct (cap_words _ _ _ Hbm) as [Hcw Hlen].
  pose proof (pos64 (data_capacity_ (slots_ n))).
  assert (p = data_capacity_ (slots_ n)) as ->.
  { destruct (Z.eq_dec p (data_capacity_ (slots_ n))); [done|].
    specialize (Hhi (data_capacity_ (slots_ n) - 1) ltac:(lia)). lia. }
  unfold get_next_filled_position. cbn [andb]. rewrite shiftr6.
  by rewrite rd_None by lia.
Qed.

(** ** Where to insert *)

(** The first component is the slot to insert into: the upper bound itself, or a
    slot right of it reached through gaps only. *)
Lemma find_insert_position_spec n key :
  slots_ok (slots_ n) -> fits n ->
  exists ip ub it, find_insert_position n key = Some ((ip, ub), upd_counters n (add_iterations it)) /\
    splits (key_greater key) (key_slots_ (slots_ n)) 0 (data_capacity_ (slots_ n)) ub /\
    (ip = ub \/
     (ub <= ip < data_capacity_ (slots_ n) /\
      forall i, ub <= i <= ip -> bitv (bitmap_ (slots_ n)) i = false)).
Proof.
  intros H Hf. destruct (search_upper_spec n key H Hf) as (p & it & E & Hs).
  unfold find_insert_position. rewrite E. cbn [mbind option_bind].
  change (slots_ (upd_counters n (add_iterations it))) with (slots_ n).
  pose proof (predict_position_range n key H) as Hpr. pose proof (upper_split _ _ _ Hs) as (Hr & _).
  destruct (Z.leb_spec (predict_position n key) p); [do 3 eexists; split; [done|]; auto|].
  rewrite check_exists_spec by (apply bitv_range; [done|lia]). cbn [mbind option_bind].
  destruct (bitv (bitmap_ (slots_ n)) p) eqn:Eb; [do 3 eexists; split; [done|]; auto|].
  destruct (get_next_filled_position_spec _ _ _ p true (so_bitmap _ H)) as (r & Er & Hr1 & Hr2 & _);
    [lia|by left|].
  rewrite Er. cbn [mbind option_bind]. do 3 eexists. split; [done|]. split; [done|]. right.
  split; [lia|]. intros i Hi. destruct (Z.eq_dec i p) as [->|]; [done|]. apply Hr2. lia.
Qed.

End Lookup.
