(* ===== verification/AlexInsert.v ===== *)
(** * ALEX: inserting into the gapped array (alex/src/alex_nodes.h)

    [insert_element_at] writes into a gap and refreshes the gaps before it;
    [insert_using_shifts] opens a gap by shifting the filled run between the
    insertion point and the closest gap.  Both are proved to preserve the
    gapped-array invariant and to add exactly one pair to the stored ones. *)

From S2P Require Import Prelude Words AlexBase AlexBitmap AlexSearch AlexNode AlexLookup.
Local Open Scope Z_scope.
Local Open Scope cxx_scope.

Section Insert.
Context {P : Type}.
Implicit Types (s : Slots P) (ks : list Z) (ps : list P) (bm : list Z).

(** ** Operations *)

(** [while (pos >= 0 && !check_exists(pos)) { key_slots_[pos] = key; pos--; }] *)
Definition overwrite_gaps bm (key pos : Z) ks : option (list Z) :=
  loop (S (Z.to_nat (pos + 1))) (fun '(pos, ks) =>
    if 0 <=? pos then
      e ← check_exists bm pos;
      if e : bool then Some (inr ks)
      else ks ← wr ks pos key; Some (inl (pos - 1, ks))
    else Some (inr ks)) (pos, ks).

Definition with_arrays s ks ps bm : Slots P :=
  mkSlots ks ps (data_capacity_ s) (num_keys_ s) bm (bitmap_size_ s).

Definition with_num_keys s (num : Z) : Slots P :=
  mkSlots (key_slots_ s) (payload_slots_ s) (data_capacity_ s) num (bitmap_ s) (bitmap_size_ s).

Definition insert_element_at s (key : Z) (payload : P) (pos : Z) : option (Slots P) :=
  ks ← wr (key_slots_ s) pos key;
  ps ← wr (payload_slots_ s) pos payload;
  bm ← set_bit (bitmap_ s) pos;
  ks ← overwrite_gaps bm key (pos - 1) ks;
  Some (with_arrays s ks ps bm).

(** [for (i = hi; i > lo; i--)] move slot [i - 1] to slot [i]. *)
Definition shift_right (hi lo : Z) ks ps : option (list Z * list P) :=
  for_down hi (lo + 1) (fun i '(ks, ps) =>
    k ← ks.[i - 1]; ks ← wr ks i k;
    p ← ps.[i - 1]; ps ← wr ps i p; Some (ks, ps)) (ks, ps).

(** [for (i = lo; i < hi; i++)] move slot [i + 1] to slot [i]. *)
Definition shift_left (lo hi : Z) ks ps : option (list Z * list P) :=
  for_up lo hi (fun i '(ks, ps) =>
    k ← ks.[i + 1]; ks ← wr ks i k;
    p ← ps.[i + 1]; ps ← wr ps i p; Some (ks, ps)) (ks, ps).

(** Returns the position of the insertion, the number of shifts and the slots. *)
Definition insert_using_shifts s (key : Z) (payload : P) (pos : Z) : option (Z * Z * Slots P) :=
  gap_pos ← closest_gap (bitmap_ s) (bitmap_size_ s) (data_capacity_ s) pos;
  bm ← set_bit (bitmap_ s) gap_pos;
  if pos <=? gap_pos then
    '(ks, ps) ← shift_right gap_pos pos (key_slots_ s) (payload_slots_ s);
    s ← insert_element_at (with_arrays s ks ps bm) key payload pos;
    Some (pos, gap_pos - pos, s)
  else
    '(ks, ps) ← shift_left gap_pos (pos - 1) (key_slots_ s) (payload_slots_ s);
    s ← insert_element_at (with_arrays s ks ps bm) key payload (pos - 1);
    Some (pos - 1, pos - gap_pos - 1, s).

(** ** The loops *)

Lemma overwrite_gaps_spec bm key pos ks :
  -1 <= pos < zlen ks -> pos < 64 * zlen bm ->
  exists ks' q, overwrite_gaps bm key pos ks = Some ks' /\ zlen ks' = zlen ks /\
    -1 <= q <= pos /\ (0 <= q -> bitv bm q = true) /\
    (forall i, q < i <= pos -> bitv bm i = false) /\
    (forall j, rd ks' j = if (q <? j) && (j <=? pos) then Some key else rd ks j).
Proof.
  intros Hpos Hbm. unfold overwrite_gaps.
  destruct (loop_spec (fun '(p, l) => -1 <= p <= pos /\ zlen l = zlen ks /\
      (forall i, p < i <= pos -> bitv bm i = false) /\
      (forall j, rd l j = if (p <? j) && (j <=? pos) then Some key else rd ks j))
    (fun l => exists q, zlen l = zlen ks /\ -1 <= q <= pos /\ (0 <= q -> bitv bm q = true) /\
      (forall i, q < i <= pos -> bitv bm i = false) /\
      (forall j, rd l j = if (q <? j) && (j <=? pos) then Some key else rd ks j))
    (fun '(p, _) => p + 1)
    (fun '(pos, ks) => if 0 <=? pos then
      e ← check_exists bm pos;
      if e : bool then Some (inr ks)
      else ks ← wr ks pos key; Some (inl (pos - 1, ks))
    else Some (inr ks))) with (fuel := S (Z.to_nat (pos + 1))) (s := (pos, ks))
    as (ks' & E & q & HQ); [| |lia|lia|exists ks', q; tauto].
  - intros [p l] (Hp & Hl & Hg & Hr). destruct (Z.leb_spec 0 p).
    + rewrite check_exists_spec by lia. cbn [mbind option_bind].
      destruct (bitv bm p) eqn:Eb; [by exists p|].
      destruct (wr_in l p key) as [l' El]; [lia|]. rewrite El. cbn [mbind option_bind].
      split; [|lia]. split; [lia|]. split; [by rewrite (zlen_wr _ _ _ _ El)|]. split.
      * intros i Hi. destruct (Z.eq_dec i p) as [->|]; [done|]. apply Hg. lia.
      * intros j. rewrite (rd_wr _ _ _ _ _ El), Hr. repeat btest_case; simpl; done || lia.
    + exists p. split; [done|]. split; [done|]. split; [lia|done].
  - split; [lia|]. split; [done|]. split; [intros; lia|].
    intros j. repeat btest_case; simpl; done || lia.
Qed.

Lemma shift_right_spec hi lo ks ps :
  0 <= lo <= hi -> hi < zlen ks -> zlen ps = zlen ks ->
  exists ks' ps', shift_right hi lo ks ps = Some (ks', ps') /\
    zlen ks' = zlen ks /\ zlen ps' = zlen ps /\
    (forall j, rd ks' j = if (lo <? j) && (j <=? hi) then rd ks (j - 1) else rd ks j) /\
    (forall j, rd ps' j = if (lo <? j) && (j <=? hi) then rd ps (j - 1) else rd ps j).
Proof.
  intros Hlo Hhi Hps.
  destruct (for_down_spec (fun i '(ks', ps') => zlen ks' = zlen ks /\ zlen ps' = zlen ps /\
      (forall j, rd ks' j = if (i <? j) && (j <=? hi) then rd ks (j - 1) else rd ks j) /\
      (forall j, rd ps' j = if (i <? j) && (j <=? hi) then rd ps (j - 1) else rd ps j))
    (fun i '(ks, ps) => k ← ks.[i - 1]; ks ← wr ks i k;
       p ← ps.[i - 1]; ps ← wr ps i p; Some (ks, ps)) hi (lo + 1) (ks, ps)) as ([ks' ps'] & E & HI);
    [lia| | |].
  - split; [done|]. split; [done|]. split; intros j; repeat btest_case; simpl; done || lia.
  - intros i [k1 p1] Hi (Hl1 & Hl2 & H1 & H2).
    destruct (rd_in k1 (i - 1)) as [k Ek]; [lia|]. destruct (wr_in k1 i k) as [k2 Ek2]; [lia|].
    destruct (rd_in p1 (i - 1)) as [p Ep]; [lia|]. destruct (wr_in p1 i p) as [p2 Ep2]; [lia|].
    exists (k2, p2). rewrite Ek. cbn [mbind option_bind]. rewrite Ek2. cbn [mbind option_bind].
    rewrite Ep. cbn [mbind option_bind]. rewrite Ep2. cbn [mbind option_bind]. split; [done|].
    rewrite H1 in Ek. rewrite H2 in Ep.
    assert (((i <? i - 1) && (i - 1 <=? hi)) = false) as Hc by (btest_case; [lia|done]).
    rewrite Hc in Ek, Ep.
    split; [by rewrite (zlen_wr _ _ _ _ Ek2)|]. split; [by rewrite (zlen_wr _ _ _ _ Ep2)|].
    split; intros j; [rewrite (rd_wr _ _ _ _ _ Ek2), H1, <-Ek|rewrite (rd_wr _ _ _ _ _ Ep2), H2, <-Ep];
      (destruct (Z.eqb_spec j i) as [->|]; repeat btest_case; simpl; done || lia).
  - exists ks', ps'. replace (lo + 1 - 1) with lo in HI by lia. tauto.
Qed.

Lemma shift_left_spec lo hi ks ps :
  0 <= lo <= hi -> hi < zlen ks -> zlen ps = zlen ks ->
  exists ks' ps', shift_left lo hi ks ps = Some (ks', ps') /\
    zlen ks' = zlen ks /\ zlen ps' = zlen ps /\
    (forall j, rd ks' j = if (lo <=? j) && (j <? hi) then rd ks (j + 1) else rd ks j) /\
    (forall j, rd ps' j = if (lo <=? j) && (j <? hi) then rd ps (j + 1) else rd ps j).
Proof.
  intros Hlo Hhi Hps.
  destruct (for_up_spec (fun i '(ks', ps') => zlen ks' = zlen ks /\ zlen ps' = zlen ps /\
      (forall j, rd ks' j = if (lo <=? j) && (j <? i) then rd ks (j + 1) else rd ks j) /\
      (forall j, rd ps' j = if (lo <=? j) && (j <? i) then rd ps (j + 1) else rd ps j))
    (fun i '(ks, ps) => k ← ks.[i + 1]; ks ← wr ks i k;
       p ← ps.[i + 1]; ps ← wr ps i p; Some (ks, ps)) lo hi (ks, ps)) as ([ks' ps'] & E & HI);
    [lia| | |exists ks', ps'; tauto].
  - split; [done|]. split; [done|]. split; intros j; repeat btest_case; simpl; done || lia.
  - intros i [k1 p1] Hi (Hl1 & Hl2 & H1 & H2).
    destruct (rd_in k1 (i + 1)) as [k Ek]; [lia|]. destruct (wr_in k1 i k) as [k2 Ek2]; [lia|].
    destruct (rd_in p1 (i + 1)) as [p Ep]; [lia|]. destruct (wr_in p1 i p) as [p2 Ep2]; [lia|].
    exists (k2, p2). rewrite Ek. cbn [mbind option_bind]. rewrite Ek2. cbn [mbind option_bind].
    rewrite Ep. cbn [mbind option_bind]. rewrite Ep2. cbn [mbind option_bind]. split; [done|].
    rewrite H1 in Ek. rewrite H2 in Ep.
    assert (((lo <=? i + 1) && (i + 1 <? i)) = false) as Hc by (repeat btest_case; lia || done).
    rewrite Hc in Ek, Ep.
    split; [by rewrite (zlen_wr _ _ _ _ Ek2)|]. split; [by rewrite (zlen_wr _ _ _ _ Ep2)|].
    split; intros j; [rewrite (rd_wr _ _ _ _ _ Ek2), H1, <-Ek|rewrite (rd_wr _ _ _ _ _ Ep2), H2, <-Ep];
      (destruct (Z.eqb_spec j i) as [->|]; repeat btest_case; simpl; done || lia).
Qed.

Lemma insert_element_at_raw s key payload pos :
  zlen (key_slots_ s) = data_capacity_ s -> zlen (payload_slots_ s) = data_capacity_ s ->
  words_ok (bitmap_ s) -> data_capacity_ s <= 64 * zlen (bitmap_ s) -> 0 <= pos < data_capacity_ s ->
  exists ks ps bm q, insert_element_at s key payload pos = Some (with_arrays s ks ps bm) /\
    zlen ks = data_capacity_ s /\ zlen ps = data_capacity_ s /\
    zlen bm = zlen (bitmap_ s) /\ words_ok bm /\
    (forall j, bitv bm j = (j =? pos) || bitv (bitmap_ s) j) /\
    -1 <= q < pos /\ (0 <= q -> bitv (bitmap_ s) q = true) /\
    (forall i, q < i < pos -> bitv (bitmap_ s) i = false) /\
    (forall j, rd ks j = if (q <? j) && (j <=? pos) then Some key else rd (key_slots_ s) j) /\
    (forall j, rd ps j = if j =? pos then Some payload else rd (payload_slots_ s) j).
Proof.
  intros Hks Hps Hw Hlen Hpos. unfold insert_element_at.
  destruct (wr_in (key_slots_ s) pos key) as [ks1 E1]; [lia|].
  destruct (wr_in (payload_slots_ s) pos payload) as [ps1 E2]; [lia|].
  destruct (set_bit_spec (bitmap_ s) pos Hw) as (bm & E3 & Hbl & Hbw & Hbit); [lia|].
  assert (Hz := zlen_wr _ _ _ _ E1).
  destruct (overwrite_gaps_spec bm key (pos - 1) ks1) as (ks & q & E4 & Hkl & Hq & Hqf & Hg & Hk); [lia|lia|].
  rewrite E1. cbn [mbind option_bind]. rewrite E2. cbn [mbind option_bind].
  rewrite E3. cbn [mbind option_bind]. rewrite E4. cbn [mbind option_bind].
  exists ks, ps1, bm, q. split; [done|]. split; [lia|]. split; [by rewrite (zlen_wr _ _ _ _ E2)|].
  split; [done|]. split; [done|]. split; [intros j; rewrite Hbit; by btest_case|]. split; [lia|].
  split; [intros Hq0; specialize (Hqf Hq0); rewrite Hbit in Hqf; destruct (Z.eqb_spec q pos); [lia|done]|].
  split; [intros i Hi; specialize (Hg i ltac:(lia)); rewrite Hbit in Hg; by destruct (i =? pos)|].
  split; intros j; [rewrite Hk, (rd_wr _ _ _ _ _ E1)|by apply rd_wr].
  repeat btest_case; simpl; done || lia.
Qed.

(** ** Rebuilding the invariant after one slot was filled *)

(** A slot with key [K], bit [B] and following key [N] is filled and smaller, or
    a gap and equal. *)
Definition slot_good (K N : Z) (B : bool) : Prop := K <= N /\ B = (K <? N).

Lemma good_filled K N : K < N -> slot_good K N true.
Proof. intros. split; [lia|]. btest_case; [done|lia]. Qed.

Lemma good_gap K N : K = N -> slot_good K N false.
Proof. intros. split; [lia|]. btest_case; [lia|done]. Qed.

Lemma good_old s i :
  slots_ok s -> 0 <= i < data_capacity_ s -> slot_good (key_at s i) (next_key s i) (bitv (bitmap_ s) i).
Proof. intros H Hi. split; [by apply so_le|by apply so_bit]. Qed.

Lemma slots_ok_filled s s' g :
  slots_ok s -> data_capacity_ s' = data_capacity_ s -> bitmap_size_ s' = bitmap_size_ s ->
  num_keys_ s' = num_keys_ s + 1 ->
  zlen (key_slots_ s') = data_capacity_ s -> zlen (payload_slots_ s') = data_capacity_ s ->
  zlen (bitmap_ s') = zlen (bitmap_ s) -> words_ok (bitmap_ s') ->
  0 <= g < data_capacity_ s -> bitv (bitmap_ s) g = false ->
  (forall j, bitv (bitmap_ s') j = (j =? g) || bitv (bitmap_ s) j) ->
  0 <= key_at s' 0 ->
  (forall i, 0 <= i < data_capacity_ s ->
     slot_good (key_at s' i) (next_key s' i) (bitv (bitmap_ s') i)) ->
  slots_ok s'.
Proof.
  intros H Hc Hb Hn Hks Hps Hbl Hw Hg Hgap Hbit H0 Hslot.
  destruct (so_bitmap _ H) as [Bc Bs Bl Bw Bp].
  constructor; rewrite ?Hc, ?Hb; try done.
  - constructor; [done|done|by rewrite Hbl|done|]. intros i Hi. rewrite Hbit, Bp by done.
    destruct (Z.eqb_spec i g); [lia|done].
  - intros i Hi. by apply Hslot.
  - intros i Hi. by apply Hslot.
  - rewrite Hn, (so_num _ H), (cnt_update (bitv (bitmap_ s)) (bitv (bitmap_ s')) 0 _ g Hg).
    + rewrite Hgap, Hbit, Z.eqb_refl. simpl. lia.
    + intros i Hi Hne. rewrite Hbit. by destruct (Z.eqb_spec i g).
Qed.

Lemma stored_entry s k v :
  stored s k v <-> exists i, 0 <= i < data_capacity_ s /\ slot_entry s i = Some (k, v).
Proof.
  unfold stored, slot_entry. split.
  - intros (i & Hi & Hb & Hk & Hv). exists i. rewrite Hb, Hk, Hv. done.
  - intros (i & Hi & E). exists i. destruct (bitv _ _); [|done].
    destruct (rd (key_slots_ s) i); [|done]. destruct (rd (payload_slots_ s) i); [|done].
    simpl in E. by simplify_eq.
Qed.

(** The stored pairs after slot [p] received [(k, v)] and the other slots moved
    along [f], which reaches every filled slot. *)
Lemma stored_moved s s' k v p (f : Z -> Z) :
  data_capacity_ s' = data_capacity_ s -> 0 <= p < data_capacity_ s ->
  slot_entry s' p = Some (k, v) ->
  (forall i, 0 <= i < data_capacity_ s -> i <> p ->
     0 <= f i < data_capacity_ s /\ slot_entry s' i = slot_entry s (f i)) ->
  (forall j, 0 <= j < data_capacity_ s -> bitv (bitmap_ s) j = true ->
     exists i, 0 <= i < data_capacity_ s /\ i <> p /\ f i = j) ->
  forall k' v', stored s' k' v' <-> (k' = k /\ v' = v) \/ stored s k' v'.
Proof.
  intros Hc Hp Ep Hmove Hreach k' v'. rewrite !stored_entry, Hc. split.
  - intros (i & Hi & E). destruct (Z.eq_dec i p) as [->|Hne].
    + left. rewrite Ep in E. by simplify_eq.
    + right. destruct (Hmove i Hi Hne) as [Hf Ef]. exists (f i). by rewrite <-Ef.
  - intros [[-> ->]|(j & Hj & E)]; [by exists p|].
    destruct (Hreach j Hj) as (i & Hi & Hne & <-).
    { unfold slot_entry in E. by destruct (bitv _ _). }
    exists i. split; [done|]. destruct (Hmove i Hi Hne) as [_ ->]. done.
Qed.

Section Cases.
Context (s : Slots P) (k : Z) (v : P) (ub : Z).
Hypothesis H : slots_ok s.
Hypothesis Hk : 0 <= k < u64_max.
Hypothesis Hub : splits (key_greater k) (key_slots_ s) 0 (data_capacity_ s) ub.
Hypothesis Hnew : 0 < ub -> key_at s (ub - 1) <> k.

(** The slots left of the insertion point are smaller and end with a filled one. *)
Lemma left_of_ub i : 0 <= i < ub -> key_at s i < k.
Proof.
  intros Hi. apply upper_split in Hub as (Hr & Hlo & _). specialize (Hnew ltac:(lia)).
  pose proof (Hlo (ub - 1) ltac:(lia)). pose proof (key_at_le s i (ub - 1) H ltac:(lia) ltac:(lia)). lia.
Qed.

Lemma right_of_ub i : ub <= i < data_capacity_ s -> k < key_at s i.
Proof. intros Hi. apply upper_split in Hub as (_ & _ & Hhi). by apply Hhi. Qed.

(** What follows slot [ub - 1], or any slot from [ub] on, is above [k]. *)
Lemma next_above i : ub - 1 <= i < data_capacity_ s -> k < next_key s i.
Proof.
  intros Hi. unfold next_key. btest_case; [apply right_of_ub; lia|].
  change kEndSentinel_ with u64_max. lia.
Qed.

Lemma filled_before_ub : 0 < ub -> bitv (bitmap_ s) (ub - 1) = true.
Proof. apply (before_upper_filled s k ub H); [lia|done]. Qed.

Lemma ub_range : 0 <= ub <= data_capacity_ s.
Proof. by destruct (upper_split _ _ _ Hub). Qed.

Lemma cap_bits : data_capacity_ s <= 64 * zlen (bitmap_ s).
Proof. destruct (cap_words _ _ _ (so_bitmap _ H)). lia. Qed.

(** The post-condition of every insertion. *)
Definition inserted (s' : Slots P) : Prop :=
  slots_ok (with_num_keys s' (num_keys_ s + 1)) /\
  data_capacity_ s' = data_capacity_ s /\ num_keys_ s' = num_keys_ s /\
  (forall k' v', stored s' k' v' <-> (k' = k /\ v' = v) \/ stored s k' v').

(** Solve the integer tests of the goal that the context decides. *)
Ltac decide_tests := repeat (btest_case; try lia); cbn [andb orb negb].

Lemma insert_into_gap_keys ip ks bm :
  ub <= ip < data_capacity_ s -> (forall i, ub <= i <= ip -> bitv (bitmap_ s) i = false) ->
  (forall i, at_ 0 ks i = if (ub <=? i) && (i <=? ip) then k else key_at s i) ->
  (forall j, bitv bm j = (j =? ip) || bitv (bitmap_ s) j) ->
  forall i, 0 <= i < data_capacity_ s ->
  slot_good (at_ 0 ks i) (if i + 1 <? data_capacity_ s then at_ 0 ks (i + 1) else kEndSentinel_) (bitv bm i).
Proof.
  intros Hip Hgaps Hka Hbit i Hi. pose proof ub_range. rewrite !Hka, Hbit.
  assert (Hold := good_old s i H Hi). unfold next_key in Hold.
  destruct (Z.lt_trichotomy i ip) as [Hlt|[->|Hgt]].
  - destruct (Z.lt_ge_cases i ub) as [Hlu|Hge].
    + destruct (Z.eq_dec i (ub - 1)) as [->|].
      * rewrite filled_before_ub by lia. decide_tests.
        apply good_filled, left_of_ub. lia.
      * revert Hold. decide_tests; done.
    + rewrite Hgaps by lia. decide_tests. by apply good_gap.
  - assert (Hg := gap_eq_next s ip H ltac:(lia) (Hgaps ip ltac:(lia))).
    pose proof (next_above ip ltac:(lia)) as Hn. unfold next_key in Hn.
    rewrite Z.eqb_refl. revert Hn. decide_tests; intros; by apply good_filled.
  - revert Hold. decide_tests; done.
Qed.

Lemma insert_into_gap ip :
  ub <= ip < data_capacity_ s -> (forall i, ub <= i <= ip -> bitv (bitmap_ s) i = false) ->
  exists s', insert_element_at s k v ip = Some s' /\ inserted s' /\
    slot_entry s' ip = Some (k, v).
Proof.
  intros Hip Hgaps. pose proof ub_range as Hr.
  destruct (insert_element_at_raw s k v ip) as
    (ks & ps & bm & q & E & Hkl & Hpl & Hbl & Hw & Hbit & Hq & Hqf & Hqg & Hkr & Hpr);
    [apply so_keys, H|apply so_payloads, H|apply bo_words with (1 := so_bitmap _ H)|apply cap_bits|lia|].
  assert (q = ub - 1) as ->.
  { destruct (Z.lt_trichotomy q (ub - 1)) as [Hlt|[?|Hgt]]; [|done|].
    - specialize (Hqg (ub - 1) ltac:(lia)). by rewrite filled_before_ub in Hqg by lia.
    - rewrite Hgaps in Hqf by lia. specialize (Hqf ltac:(lia)). done. }
  exists (with_arrays s ks ps bm). split; [done|].
  assert (Hka : forall i, at_ 0 ks i = if (ub <=? i) && (i <=? ip) then k else key_at s i).
  { intros i. unfold at_. rewrite Hkr. repeat btest_case; simpl; done || lia. }
  assert (Hentry : slot_entry (with_arrays s ks ps bm) ip = Some (k, v)).
  { unfold slot_entry. simpl. rewrite Hbit, Z.eqb_refl, Hkr, Hpr, Z.eqb_refl. decide_tests. done. }
  split; [|done]. split; [|split; [done|split; [done|]]].
  - apply (slots_ok_filled s _ ip); simpl; try done; [lia|by apply Hgaps; lia| |].
    + unfold key_at. simpl. rewrite Hka. pose proof (so_nonneg _ H). repeat btest_case; simpl; lia.
    + by apply (insert_into_gap_keys ip).
  - apply (stored_moved s _ k v ip (fun i => i)); [done|lia|done| |].
    + intros i Hi Hne. split; [done|]. unfold slot_entry. simpl. rewrite Hbit, Hkr, Hpr.
      destruct (Z.eqb_spec i ip); [done|]. cbn [orb].
      destruct (bitv (bitmap_ s) i) eqn:Eb; [|done].
      destruct (Z.lt_ge_cases i ub); [by decide_tests|].
      destruct (Z.lt_ge_cases ip i); [by decide_tests|]. by rewrite Hgaps in Eb by lia.
    + intros j Hj Hb. exists j. split; [done|]. split; [|done]. intros ->.
      by rewrite Hgaps in Hb by lia.
Qed.

(** Inserting at a slot whose left neighbour is filled overwrites that slot only. *)
Lemma insert_element_after_filled ks bm ps pos :
  zlen ks = data_capacity_ s -> zlen ps = data_capacity_ s -> words_ok bm ->
  zlen bm = zlen (bitmap_ s) -> 0 <= pos < data_capacity_ s ->
  (0 < pos -> bitv bm (pos - 1) = true) ->
  exists ks' ps' bm', insert_element_at (with_arrays s ks ps bm) k v pos = Some (with_arrays s ks' ps' bm') /\
    zlen ks' = data_capacity_ s /\ zlen ps' = data_capacity_ s /\
    zlen bm' = zlen (bitmap_ s) /\ words_ok bm' /\
    (forall j, bitv bm' j = (j =? pos) || bitv bm j) /\
    (forall j, rd ks' j = if j =? pos then Some k else rd ks j) /\
    (forall j, rd ps' j = if j =? pos then Some v else rd ps j).
Proof.
  intros Hkl Hpl Hw Hbl Hpos Hprev.
  destruct (insert_element_at_raw (with_arrays s ks ps bm) k v pos) as
    (ks' & ps' & bm' & q & E & Hkl' & Hpl' & Hbl' & Hw' & Hbit & Hq & Hqf & Hqg & Hkr & Hpr);
    simpl; [done|done|done|rewrite Hbl; apply cap_bits|done|].
  assert (q = pos - 1) as ->.
  { destruct (Z.eq_dec q (pos - 1)); [done|]. specialize (Hqg (pos - 1) ltac:(lia)).
    simpl in Hqg. by rewrite Hprev in Hqg by lia. }
  exists ks', ps', bm'. split; [done|]. simpl in *. rewrite Hbl in Hbl'. repeat (split; [done|]).
  split; [|done]. intros j. rewrite Hkr. repeat btest_case; simpl; done || lia.
Qed.

Section Right.
(** The gap [g] lies right of the filled insertion point. *)
Context (g : Z).
Hypothesis Hg : ub < g < data_capacity_ s.
Hypothesis Hgap : bitv (bitmap_ s) g = false.
Hypothesis Hrun : forall i, ub <= i < g -> bitv (bitmap_ s) i = true.

Lemma shift_right_keys ks bm :
  (forall i, at_ 0 ks i = if i =? ub then k
             else if (ub <? i) && (i <=? g) then key_at s (i - 1) else key_at s i) ->
  (forall j, bitv bm j = (j =? g) || bitv (bitmap_ s) j) ->
  forall i, 0 <= i < data_capacity_ s ->
  slot_good (at_ 0 ks i) (if i + 1 <? data_capacity_ s then at_ 0 ks (i + 1) else kEndSentinel_) (bitv bm i).
Proof.
  intros Hka Hbit i Hi. pose proof ub_range. rewrite !Hka, Hbit.
  assert (Hold := good_old s i H Hi). unfold next_key in Hold.
  destruct (Z.lt_trichotomy i ub) as [Hlt|[->|Hgt]].
  - destruct (Z.eq_dec i (ub - 1)) as [->|].
    + rewrite filled_before_ub by lia. decide_tests. apply good_filled, left_of_ub. lia.
    + revert Hold. decide_tests; done.
  - rewrite Hrun by lia. decide_tests.
    replace (ub + 1 - 1) with ub by lia. apply good_filled, right_of_ub. lia.
  - destruct (Z.lt_trichotomy i g) as [Hlt|[->|Hgt']].
    + rewrite Hrun by lia. decide_tests. replace (i + 1 - 1) with i by lia.
      apply good_filled, filled_increasing; [done|lia|lia|apply Hrun; lia].
    + rewrite Z.eqb_refl. assert (Hgn := gap_eq_next s g H ltac:(lia) Hgap).
      pose proof (filled_increasing s (g - 1) g H ltac:(lia) ltac:(lia) (Hrun (g - 1) ltac:(lia))).
      unfold next_key in Hgn. revert Hgn. decide_tests; intros; apply good_filled; lia.
    + revert Hold. decide_tests; done.
Qed.

Lemma insert_shift_right :
  exists ks ps bm s', set_bit (bitmap_ s) g = Some bm /\
    shift_right g ub (key_slots_ s) (payload_slots_ s) = Some (ks, ps) /\
    insert_element_at (with_arrays s ks ps bm) k v ub = Some s' /\ inserted s' /\
    slot_entry s' ub = Some (k, v).
Proof.
  pose proof ub_range as Hr. pose proof cap_bits as Hcb.
  destruct (set_bit_spec (bitmap_ s) g (bo_words _ _ _ (so_bitmap _ H))) as (bm & Eb & Hbl & Hbw & Hbit); [lia|].
  destruct (shift_right_spec g ub (key_slots_ s) (payload_slots_ s)) as (ks & ps & Es & Hkl & Hpl & Hkr & Hpr);
    [lia|rewrite (so_keys _ H); lia|by rewrite (so_keys _ H), (so_payloads _ H)|].
  rewrite (so_keys _ H) in Hkl. rewrite (so_payloads _ H) in Hpl.
  destruct (insert_element_after_filled ks bm ps ub) as
    (ks' & ps' & bm' & Ei & Hkl' & Hpl' & Hbl' & Hbw' & Hbit' & Hkr' & Hpr'); [done|done|done|done|lia| |].
  { intros Hp. rewrite Hbit, filled_before_ub by lia. by decide_tests. }
  exists ks, ps, bm, (with_arrays s ks' ps' bm'). do 3 (split; [done|]).
  assert (Hbits : forall j, bitv bm' j = (j =? g) || bitv (bitmap_ s) j).
  { intros j. rewrite Hbit', Hbit. destruct (Z.eqb_spec j ub) as [->|]; [|by btest_case].
    rewrite Hrun by lia. by rewrite orb_true_r. }
  assert (Hentry : slot_entry (with_arrays s ks' ps' bm') ub = Some (k, v)).
  { unfold slot_entry. simpl. rewrite Hbit', Hkr', Hpr', Z.eqb_refl. done. }
  split; [|done]. split; [|split; [done|split; [done|]]].
  - assert (Hka : forall i, at_ 0 ks' i = if i =? ub then k
             else if (ub <? i) && (i <=? g) then key_at s (i - 1) else key_at s i).
    { intros i. unfold at_. rewrite Hkr', Hkr. repeat btest_case; simpl; done || lia. }
    apply (slots_ok_filled s _ g); simpl; try done; [lia| |].
    + unfold key_at. simpl. rewrite Hka. pose proof (so_nonneg _ H). repeat btest_case; simpl; lia.
    + by apply shift_right_keys.
  - apply (stored_moved s _ k v ub (fun i => if (ub <? i) && (i <=? g) then i - 1 else i));
      [done|lia|done| |].
    + intros i Hi Hne. split; [repeat btest_case; simpl; lia|]. unfold slot_entry. simpl.
      rewrite Hbits, Hkr', Hpr', Hkr, Hpr. destruct (Z.eqb_spec i ub); [done|].
      destruct ((ub <? i) && (i <=? g)) eqn:Ec.
      * btest. rewrite (Hrun (i - 1)) by lia. destruct (Z.eqb_spec i g); [done|].
        by rewrite Hrun by lia.
      * destruct (Z.eqb_spec i g) as [->|]; [|done]. revert Ec. decide_tests; done || lia.
    + intros j Hj Hb. assert (j <> g) by (intros ->; congruence).
      destruct (Z.lt_ge_cases j ub); [exists j; decide_tests; lia|].
      destruct (Z.lt_ge_cases j g); [exists (j + 1)|exists j]; decide_tests; lia.
Qed.
End Right.

Section Left.
(** The gap [g] lies left of the insertion point. *)
Context (g : Z).
Hypothesis Hg : 0 <= g < ub - 1.
Hypothesis Hgap : bitv (bitmap_ s) g = false.
Hypothesis Hrun : forall i, g < i < ub -> bitv (bitmap_ s) i = true.

Lemma shift_left_keys ks bm :
  (forall i, at_ 0 ks i = if i =? ub - 1 then k
             else if (g <=? i) && (i <? ub - 1) then key_at s (i + 1) else key_at s i) ->
  (forall j, bitv bm j = (j =? g) || bitv (bitmap_ s) j) ->
  forall i, 0 <= i < data_capacity_ s ->
  slot_good (at_ 0 ks i) (if i + 1 <? data_capacity_ s then at_ 0 ks (i + 1) else kEndSentinel_) (bitv bm i).
Proof.
  intros Hka Hbit i Hi. pose proof ub_range. rewrite !Hka, Hbit.
  assert (Hold := good_old s i H Hi). unfold next_key in Hold.
  destruct (Z.lt_trichotomy i (ub - 1)) as [Hlt|[->|Hgt]].
  - destruct (Z.lt_ge_cases i g) as [Hig|Hig].
    + destruct (Z.eq_dec i (g - 1)) as [->|]; [|revert Hold; decide_tests; done].
      assert (Hgn := gap_eq_next s g H ltac:(lia) Hgap). unfold next_key in Hgn.
      replace (g - 1 + 1) with g in * by lia. revert Hold Hgn. decide_tests. intros Hold <-. done.
    + assert ((i =? g) || bitv (bitmap_ s) i = true) as ->.
      { btest_case; [done|]. rewrite Hrun by lia. done. }
      destruct (Z.eq_dec i (ub - 2)) as [->|]; decide_tests.
      * apply good_filled, left_of_ub. lia.
      * apply good_filled, filled_increasing; [done|lia|lia|apply Hrun; lia].
  - rewrite Hrun by lia. pose proof (next_above (ub - 1) ltac:(lia)) as Hn.
    unfold next_key in Hn. rewrite orb_true_r. revert Hn. decide_tests; intros; by apply good_filled.
  - revert Hold. decide_tests; done.
Qed.

Lemma insert_shift_left :
  exists ks ps bm s', set_bit (bitmap_ s) g = Some bm /\
    shift_left g (ub - 1) (key_slots_ s) (payload_slots_ s) = Some (ks, ps) /\
    insert_element_at (with_arrays s ks ps bm) k v (ub - 1) = Some s' /\ inserted s' /\
    slot_entry s' (ub - 1) = Some (k, v).
Proof.
  pose proof ub_range as Hr. pose proof cap_bits as Hcb.
  destruct (set_bit_spec (bitmap_ s) g (bo_words _ _ _ (so_bitmap _ H))) as (bm & Eb & Hbl & Hbw & Hbit); [lia|].
  destruct (shift_left_spec g (ub - 1) (key_slots_ s) (payload_slots_ s)) as (ks & ps & Es & Hkl & Hpl & Hkr & Hpr);
    [lia|rewrite (so_keys _ H); lia|by rewrite (so_keys _ H), (so_payloads _ H)|].
  rewrite (so_keys _ H) in Hkl. rewrite (so_payloads _ H) in Hpl.
  destruct (insert_element_after_filled ks bm ps (ub - 1)) as
    (ks' & ps' & bm' & Ei & Hkl' & Hpl' & Hbl' & Hbw' & Hbit' & Hkr' & Hpr'); [done|done|done|done|lia| |].
  { intros Hp. rewrite Hbit. btest_case; [done|]. apply Hrun. lia. }
  exists ks, ps, bm, (with_arrays s ks' ps' bm'). do 3 (split; [done|]).
  assert (Hbits : forall j, bitv bm' j = (j =? g) || bitv (bitmap_ s) j).
  { intros j. rewrite Hbit', Hbit. destruct (Z.eqb_spec j (ub - 1)) as [->|]; [|by btest_case].
    rewrite Hrun by lia. by rewrite orb_true_r. }
  assert (Hentry : slot_entry (with_arrays s ks' ps' bm') (ub - 1) = Some (k, v)).
  { unfold slot_entry. simpl. rewrite Hbit', Hkr', Hpr', Z.eqb_refl. done. }
  split; [|done]. split; [|split; [done|split; [done|]]].
  - assert (Hka : forall i, at_ 0 ks' i = if i =? ub - 1 then k
             else if (g <=? i) && (i <? ub - 1) then key_at s (i + 1) else key_at s i).
    { intros i. unfold at_. rewrite Hkr', Hkr. repeat btest_case; simpl; done || lia. }
    apply (slots_ok_filled s _ g); simpl; try done; [lia| |].
    + unfold key_at. simpl. rewrite Hka. pose proof (so_nonneg _ H).
      pose proof (key_at_le s 0 (0 + 1) H ltac:(lia) ltac:(lia)). repeat btest_case; simpl; lia.
    + by apply shift_left_keys.
  - apply (stored_moved s _ k v (ub - 1) (fun i => if (g <=? i) && (i <? ub - 1) then i + 1 else i));
      [done|lia|done| |].
    + intros i Hi Hne. split; [repeat btest_case; simpl; lia|]. unfold slot_entry. simpl.
      rewrite Hbits, Hkr', Hpr', Hkr, Hpr. destruct (Z.eqb_spec i (ub - 1)); [done|].
      destruct ((g <=? i) && (i <? ub - 1)) eqn:Ec.
      * btest. rewrite (Hrun (i + 1)) by lia. destruct (Z.eqb_spec i g); [done|].
        by rewrite Hrun by lia.
      * destruct (Z.eqb_spec i g) as [->|]; [|done]. revert Ec. decide_tests; done || lia.
    + intros j Hj Hb. assert (j <> g) by (intros ->; congruence).
      destruct (Z.lt_ge_cases j g); [exists j; decide_tests; lia|].
      destruct (Z.lt_ge_cases j ub); [exists (j - 1)|exists j]; decide_tests; lia.
Qed.
End Left.

(** [insert_using_shifts] at a filled upper bound, or past the last slot. *)
Lemma insert_by_shifting :
  num_keys_ s < data_capacity_ s ->
  (ub = data_capacity_ s \/ bitv (bitmap_ s) ub = true) ->
  exists pos d s', insert_using_shifts s k v ub = Some (pos, d, s') /\ inserted s' /\
    0 <= pos < data_capacity_ s /\ slot_entry s' pos = Some (k, v).
Proof.
  intros Hroom Hat. pose proof ub_range as Hr. pose proof (bo_cap _ _ _ (so_bitmap _ H)) as Hc.
  destruct (closest_gap_nearest _ _ _ ub (so_bitmap _ H)) as (g & Eg & Hgr & Hgf & Hl & Hrr); [lia| |].
  { destruct (cnt_lt_ex (bitv (bitmap_ s)) 0 (data_capacity_ s)) as (g & Hg & Hb);
      [lia|rewrite <-(so_num _ H); lia|eauto]. }
  unfold insert_using_shifts. rewrite Eg. cbn [mbind option_bind].
  destruct (Z.leb_spec ub g) as [Hle|Hlt].
  - destruct Hat as [->|Hbit]; [lia|].
    assert (ub <> g) by (intros ->; congruence).
    destruct (insert_shift_right g) as (ks & ps & bm & s' & E1 & E2 & E3 & Hins & He);
      [lia|done|intros i Hi; apply Hrr; lia|].
    rewrite E1. cbn [mbind option_bind]. rewrite E2. cbn [mbind option_bind].
    rewrite E3. cbn [mbind option_bind]. do 3 eexists. split; [done|]. split; [done|]. split; [lia|done].
  - assert (Hprev := filled_before_ub ltac:(lia)).
    assert (g <> ub - 1) by (intros ->; congruence).
    destruct (insert_shift_left g) as (ks & ps & bm & s' & E1 & E2 & E3 & Hins & He);
      [lia|done|intros i Hi; apply Hl; lia|].
    rewrite E1. cbn [mbind option_bind]. rewrite E2. cbn [mbind option_bind].
    rewrite E3. cbn [mbind option_bind]. do 3 eexists. split; [done|]. split; [done|]. split; [lia|done].
Qed.
End Cases.

End Insert.
