(* ===== verification/AlexPlace.v ===== *)
(** * ALEX: model-based placement of sorted pairs (alex/src/alex_nodes.h)

    [bulk_load], [bulk_load_from_existing] and [resize] share one loop: each
    pair goes to the slot its model predicts, or to the next free one, until
    only as many slots as pairs are left, and the gaps get the key that follows
    them.  The three copies of the loop differ in where the pairs come from, an
    array or an iterator over a node, and in the test that ends the contiguous
    tail; [Source] captures both.

    The loop is proved, for every model whatsoever, to place all the pairs
    within bounds and to leave a gapped array that satisfies the invariant and
    holds exactly these pairs. *)

From Stdlib Require Import Sorted.
From S2P Require Import Prelude Words Floats AlexBase AlexBitmap AlexSearch AlexNode AlexInsert.
Local Open Scope Z_scope.
Local Open Scope cxx_scope.

(** Where the pairs come from: [more] is the test of the main loop, [tail_more]
    the test of the loop that fills the rest contiguously. *)
Record Source (P St : Type) := mkSource {
  more : St -> bool;
  tail_more : St -> Z -> bool;
  get : St -> option (Z * P);
  advance : St -> option St
}.
Arguments mkSource {P St}.
Arguments more {P St}.
Arguments tail_more {P St}.
Arguments get {P St}.
Arguments advance {P St}.

Section Place.
Context {P St : Type} (src : Source P St).

(** The arrays under construction. *)
Record Arrays := mkArrays { akeys : list Z; apayloads : list P; abits : list Z }.

(** ** Operations *)

(** [key_slots_[pos] = k; payload_slots_[pos] = v; set_bit(pos);] *)
Definition put (a : Arrays) (pos k : Z) (v : P) : option Arrays :=
  ks ← wr (akeys a) pos k;
  ps ← wr (apayloads a) pos v;
  bm ← set_bit (abits a) pos;
  Some (mkArrays ks ps bm).

(** [for (j = lo; j < hi; j++) key_slots_[j] = k;] *)
Definition fill_keys (a : Arrays) (lo hi k : Z) : option Arrays :=
  ks ← fill lo hi k (akeys a); Some (mkArrays ks (apayloads a) (abits a)).

(** The contiguous tail; returns the position after the last pair. *)
Definition fill_rest (fuel : nat) (st : St) (pos : Z) (a : Arrays) : option (Z * Arrays) :=
  loop fuel (fun '(st, pos, a) =>
    if tail_more src st pos then
      '(k, v) ← get src st;
      a ← put a pos k v;
      st ← advance src st;
      Some (inl (st, pos + 1, a))
    else Some (inr (pos, a))) (st, pos, a).

(** One round of the main loop. *)
Definition place_body (model : LinearModel) (cap : Z) '(st, last_position, keys_remaining, a)
    : option ((St * Z * Z * Arrays) + (Z * Arrays)) :=
  if more src st then
    '(k, v) ← get src st;
    let position := Z.max (predict model k) (last_position + 1) in
    if cap - position <? keys_remaining then
      let pos := cap - keys_remaining in
      a ← fill_keys a (last_position + 1) pos k;
      '(pos, a) ← fill_rest (S (Z.to_nat cap)) st pos a;
      Some (inr (pos - 1, a))
    else
      a ← fill_keys a (last_position + 1) position k;
      a ← put a position k v;
      st ← advance src st;
      Some (inl (st, position, keys_remaining - 1, a))
  else Some (inr (last_position, a)).

Definition model_based_inserts (model : LinearModel) (cap num_keys : Z) (st : St) (a : Arrays)
    : option Arrays :=
  '(last_position, a) ← loop (S (Z.to_nat cap)) (place_body model cap) (st, -1, num_keys, a);
  fill_keys a (last_position + 1) cap kEndSentinel_.

(** ** Specification *)

(** The pairs a source delivers. *)
Inductive yields : St -> list (Z * P) -> Prop :=
| yields_end st : more src st = false -> yields st []
| yields_pair st st' k v l :
    more src st = true -> get src st = Some (k, v) -> advance src st = Some st' ->
    yields st' l -> yields st ((k, v) :: l).

(** Strictly increasing keys, all above [k0]. *)
Fixpoint above (k0 : Z) (l : list (Z * P)) : Prop :=
  match l with
  | [] => True
  | (k, _) :: l => k0 < k /\ above k l
  end.

Definition entry_of (a : Arrays) (i : Z) : option (Z * P) :=
  if bitv (abits a) i then k ← rd (akeys a) i; v ← rd (apayloads a) i; Some (k, v) else None.

(** [i] itself when slot [i] is filled. *)
Definition position_of (bits : list Z) (i : Z) : option Z := if bitv bits i then Some i else None.

(** The slots the pairs of [l] go to when slot [last] is the last one taken. *)
Fixpoint positions (model : LinearModel) (cap last : Z) (l : list (Z * P)) : list Z :=
  match l with
  | [] => []
  | (k, _) :: l' =>
      let position := Z.max (predict model k) (last + 1) in
      if cap - position <? zlen l then seqZ (cap - zlen l) (zlen l)
      else position :: positions model cap position l'
  end.

(** The arrays after the pairs [l] were placed in slots [0 .. last], at the
    positions [ps]; [k0] is the key in slot [last], or -1 when nothing was placed. *)
Record placed (cap nwords : Z) (a : Arrays) (last k0 : Z) (l : list (Z * P)) (ps : list Z) : Prop := {
  pl_keys : zlen (akeys a) = cap;
  pl_payloads : zlen (apayloads a) = cap;
  pl_bits : zlen (abits a) = nwords;
  pl_words : words_ok (abits a);
  pl_last : -1 <= last < cap;
  pl_low : -1 <= k0 /\ (last = -1 -> k0 = -1);
  pl_clear : forall i, last < i -> bitv (abits a) i = false;
  pl_good : forall i, 0 <= i < last -> slot_good (at_ 0 (akeys a) i) (at_ 0 (akeys a) (i + 1)) (bitv (abits a) i);
  pl_end : 0 <= last -> bitv (abits a) last = true /\ at_ 0 (akeys a) last = k0 /\ 0 <= at_ 0 (akeys a) 0;
  pl_entries : omap (entry_of a) (seqZ 0 (last + 1)) = l;
  pl_positions : omap (position_of (abits a)) (seqZ 0 (last + 1)) = ps
}.

Lemma omap_ext_in {A B} (f g : A -> option B) (l : list A) :
  (forall x, x ∈ l -> f x = g x) -> omap f l = omap g l.
Proof.
  induction l as [|x l IH]; intros H; [done|]. csimpl. rewrite (H x), IH; [done| |constructor].
  intros y Hy. apply H. by constructor.
Qed.

Lemma omap_none {A B} (f : A -> option B) (l : list A) :
  (forall x, x ∈ l -> f x = None) -> omap f l = [].
Proof.
  induction l as [|x l IH]; intros H; [done|]. csimpl. rewrite (H x) by constructor.
  apply IH. intros y Hy. apply H. by constructor.
Qed.

Lemma length_omap_le {A B} (f : A -> option B) (l : list A) : (length (omap f l) <= length l)%nat.
Proof. induction l as [|x l IH]; csimpl; [done|]. destruct (f x); simpl; lia. Qed.

Lemma seqZ_run last pos :
  -1 <= last < pos -> seqZ 0 (pos + 1) = seqZ 0 (last + 1) ++ seqZ (last + 1) (pos - last - 1) ++ [pos].
Proof.
  intros H. replace (pos + 1) with ((last + 1) + ((pos - last - 1) + 1)) by lia.
  rewrite (seqZ_app _ (last + 1)), (seqZ_app _ (pos - last - 1)), Z.add_0_l by lia.
  replace (last + 1 + (pos - last - 1)) with pos by lia.
  rewrite (seqZ_cons pos 1) by lia. done.
Qed.

Lemma put_spec a pos k v :
  words_ok (abits a) -> 0 <= pos < zlen (akeys a) -> pos < zlen (apayloads a) -> pos < 64 * zlen (abits a) ->
  exists a', put a pos k v = Some a' /\ zlen (akeys a') = zlen (akeys a) /\
    zlen (apayloads a') = zlen (apayloads a) /\ zlen (abits a') = zlen (abits a) /\ words_ok (abits a') /\
    (forall i, rd (akeys a') i = if i =? pos then Some k else rd (akeys a) i) /\
    (forall i, rd (apayloads a') i = if i =? pos then Some v else rd (apayloads a) i) /\
    (forall i, bitv (abits a') i = if i =? pos then true else bitv (abits a) i).
Proof.
  intros Hw Hk Hp Hb. unfold put.
  destruct (wr_in (akeys a) pos k) as [ks Ek]; [lia|].
  destruct (wr_in (apayloads a) pos v) as [ps Ep]; [lia|].
  destruct (set_bit_spec (abits a) pos Hw) as (bm & Eb & Hl & Hw' & Hbit); [lia|].
  rewrite Ek. cbn [mbind option_bind]. rewrite Ep. cbn [mbind option_bind].
  rewrite Eb. cbn [mbind option_bind]. eexists. split; [done|]. cbn [akeys apayloads abits].
  split; [by apply zlen_wr in Ek|]. split; [by apply zlen_wr in Ep|]. split; [done|]. split; [done|].
  split; [intros i; by apply rd_wr|]. split; [intros i; by apply rd_wr|done].
Qed.

Lemma fill_keys_spec a lo hi k :
  0 <= lo -> hi <= zlen (akeys a) ->
  exists ks, fill_keys a lo hi k = Some (mkArrays ks (apayloads a) (abits a)) /\
    zlen ks = zlen (akeys a) /\
    forall i, at_ 0 ks i = if (lo <=? i) && (i <? hi) then k else at_ 0 (akeys a) i.
Proof.
  intros Hlo Hhi. unfold fill_keys.
  destruct (fill_spec 0 lo hi k (akeys a) Hlo Hhi) as (ks & -> & Hl & Hv). by exists ks.
Qed.

(** One pair placed at [pos], the gaps before it carrying its key. *)
Lemma placed_put cap nwords a last k0 l ps k v pos :
  placed cap nwords a last k0 l ps -> cap <= 64 * nwords -> k0 < k -> last < pos < cap ->
  exists a1 a', fill_keys a (last + 1) pos k = Some a1 /\ put a1 pos k v = Some a' /\
    placed cap nwords a' pos k (l ++ [(k, v)]) (ps ++ [pos]).
Proof.
  intros [Hk Hp Hb Hw Hl [Hm1 H0] Hc Hg He Hen Hps] Hcap Hlt Hpos.
  destruct (fill_keys_spec a (last + 1) pos k) as (ks & E1 & Hkl & Hkv); [lia|lia|].
  destruct (put_spec (mkArrays ks (apayloads a) (abits a)) pos k v)
    as (a' & E2 & L1 & L2 & L3 & W & R1 & R2 & R3); cbn [akeys apayloads abits] in *; [done|lia|lia|lia|].
  exists (mkArrays ks (apayloads a) (abits a)), a'. split; [done|]. split; [done|].
  assert (Hka : forall i, at_ 0 (akeys a') i =
    if i =? pos then k else if (last + 1 <=? i) && (i <? pos) then k else at_ 0 (akeys a) i).
  { intros i. unfold at_ at 1. rewrite R1. destruct (Z.eqb_spec i pos); [done|]. apply Hkv. }
  constructor; try lia; try done.
  - intros i Hi. rewrite R3. btest_case; [lia|]. apply Hc. lia.
  - intros i Hi. rewrite !Hka, R3. destruct (Z.eqb_spec i pos); [lia|].
    destruct (Z.lt_trichotomy i last) as [Hi'|[->|Hi']].
    + specialize (Hg i ltac:(lia)). repeat (btest_case; try lia); simpl; done.
    + destruct (He ltac:(lia)) as (-> & -> & _). apply good_filled.
      repeat (btest_case; try lia); simpl; lia.
    + rewrite Hc by lia. apply good_gap. repeat (btest_case; try lia); simpl; lia.
  - intros _. rewrite R3, !Hka, Z.eqb_refl. split; [done|]. split; [done|].
    destruct (Z.lt_ge_cases last 0).
    + repeat (btest_case; try lia); simpl; lia.
    + destruct (He ltac:(lia)) as (_ & _ & ?). repeat (btest_case; try lia); simpl; lia.
  - rewrite <-Hen, (seqZ_run last pos) by lia. rewrite !omap_app. f_equal.
    + apply omap_ext_in. intros i Hi%elem_of_seqZ. unfold entry_of. rewrite R1, R2, R3.
      destruct (Z.eqb_spec i pos); [lia|]. destruct (bitv (abits a) i); [|done].
      rewrite (rd_at 0) by lia. rewrite (rd_at 0 (akeys a)) by lia. rewrite Hkv.
      repeat (btest_case; try lia); simpl; done.
    + rewrite (omap_none _ (seqZ _ (pos - last - 1))).
      * cbn. unfold entry_of. by rewrite R1, R2, R3, Z.eqb_refl.
      * intros i Hi%elem_of_seqZ. unfold entry_of. rewrite R3.
        destruct (Z.eqb_spec i pos); [lia|]. by rewrite Hc by lia.
  - rewrite <-Hps, (seqZ_run last pos) by lia. rewrite !omap_app. f_equal.
    + apply omap_ext_in. intros i Hi%elem_of_seqZ. unfold position_of. rewrite R3.
      by destruct (Z.eqb_spec i pos); [lia|].
    + rewrite (omap_none _ (seqZ _ (pos - last - 1))).
      * cbn. unfold position_of. by rewrite R3, Z.eqb_refl.
      * intros i Hi%elem_of_seqZ. unfold position_of. rewrite R3.
        destruct (Z.eqb_spec i pos); [lia|]. by rewrite Hc by lia.
Qed.

(** ** The loops *)

Section Loops.
Context (cap nwords : Z) (model : LinearModel).
Hypothesis Hcap : cap <= 64 * nwords.
(** The tail loop runs as long as pairs are left. *)
Hypothesis Htail : forall st l pos,
  yields st l -> pos + zlen l = cap -> tail_more src st pos = (0 <? zlen l).

(** The key of the last pair, or [k0]. *)
Definition last_key_of (k0 : Z) (l : list (Z * P)) : Z := default k0 (fst <$> list.last l).

Lemma last_key_of_cons k0 k v l : last_key_of k0 ((k, v) :: l) = last_key_of k l.
Proof. unfold last_key_of. rewrite last_cons. by destruct (list.last l). Qed.

Lemma seqZ_zlen_cons {A} lo (x : A) l : seqZ lo (zlen (x :: l)) = lo :: seqZ (lo + 1) (zlen l).
Proof.
  rewrite seqZ_cons by (unfold zlen; simpl length; lia). f_equal. f_equal. unfold zlen. simpl length. lia.
Qed.

Lemma fill_keys_id a lo k : fill_keys a lo lo k = Some a.
Proof. unfold fill_keys, fill. rewrite for_up_empty by lia. by destruct a. Qed.

(** One round of the contiguous tail on the pair [(k, v)]. *)
Lemma fill_rest_round fuel st st' k v l pos a a' :
  more src st = true -> get src st = Some (k, v) -> advance src st = Some st' -> yields st' l ->
  pos + 1 + zlen l = cap -> put a pos k v = Some a' ->
  fill_rest (S fuel) st pos a = fill_rest fuel st' (pos + 1) a'.
Proof.
  intros Hm Hg Ha Hy Hlen Hput. unfold fill_rest. cbn [loop].
  rewrite (Htail st ((k, v) :: l)) by
    (first [by econstructor|unfold zlen in *; simpl length; lia]).
  destruct (Z.ltb_spec 0 (zlen ((k, v) :: l))); [|unfold zlen in *; simpl length in *; lia].
  rewrite Hg. cbn [mbind option_bind]. rewrite Hput. cbn [mbind option_bind]. by rewrite Ha.
Qed.

Lemma fill_rest_tail l : forall fuel st last k0 done ps a,
  yields st l -> above k0 l -> placed cap nwords a last k0 done ps -> last + 1 + zlen l = cap ->
  (length l < fuel)%nat ->
  exists k1 a', fill_rest fuel st (last + 1) a = Some (cap, a') /\
    placed cap nwords a' (cap - 1) k1 (done ++ l) (ps ++ seqZ (last + 1) (zlen l)) /\ k1 = last_key_of k0 l.
Proof.
  induction l as [|[k v] l IH]; intros fuel st last k0 done ps a Hy Hab Hpl Hlen Hf.
  - destruct fuel as [|fuel]; [simpl in Hf; lia|]. unfold fill_rest. cbn [loop].
    rewrite (Htail st []) by done. cbn. exists k0, a. unfold zlen in Hlen. simpl in Hlen.
    rewrite !app_nil_r. by replace (last + 1) with cap by lia; replace (cap - 1) with last by lia.
  - inversion_clear Hy. destruct Hab as [Hk Hab]. unfold zlen in Hlen. simpl in Hlen.
    destruct fuel as [|fuel]; [simpl in Hf; lia|].
    destruct (placed_put cap nwords a last k0 done ps k v (last + 1)) as (a1 & a2 & E1 & E2 & Hpl2);
      [done|done|done|lia|].
    rewrite fill_keys_id in E1. injection E1 as <-.
    erewrite fill_rest_round by (done || (unfold zlen; lia)).
    destruct (IH fuel st' (last + 1) k (done ++ [(k, v)]) (ps ++ [last + 1]) a2) as (k1 & a' & E & Hpl' & Hk1);
      [done|done|done|unfold zlen; lia|simpl in Hf; lia|].
    exists k1, a'. split; [done|]. split; [|by rewrite last_key_of_cons].
    rewrite <-!app_assoc in Hpl'. by rewrite (seqZ_zlen_cons (last + 1)).
Qed.

(** The main loop places every pair the source delivers. *)
Lemma place_loop_spec l : forall fuel st last k0 done ps a,
  yields st l -> above k0 l -> placed cap nwords a last k0 done ps -> last + 1 + zlen l <= cap ->
  (length l < fuel)%nat ->
  exists last' a', loop fuel (place_body model cap) (st, last, zlen l, a) = Some (last', a') /\
    placed cap nwords a' last' (last_key_of k0 l) (done ++ l) (ps ++ positions model cap last l).
Proof.
  induction l as [|[k v] l IH]; intros fuel st last k0 done ps a Hy Hab Hpl Hlen Hf;
    (destruct fuel as [|fuel]; [simpl in Hf; lia|]).
  - inversion_clear Hy as [? Hm|]. cbn [loop place_body]. rewrite Hm. exists last, a.
    cbn [positions]. by rewrite !app_nil_r.
  - inversion_clear Hy as [|? st' ? ? ? Hm Hg Ha Hy']. destruct Hab as [Hk Hab].
    pose proof (pl_last _ _ _ _ _ _ _ Hpl).
    unfold zlen in Hlen. simpl in Hlen. cbn [loop place_body]. rewrite Hm, Hg. cbn [mbind option_bind].
    set (position := Z.max (predict model k) (last + 1)).
    destruct (Z.ltb_spec (cap - position) (zlen ((k, v) :: l))) as [Hlt|Hge];
      unfold zlen in *; simpl length in *.
    + destruct (placed_put cap nwords a last k0 done ps k v (cap - Z.of_nat (S (length l))))
        as (a1 & a2 & E1 & E2 & Hpl2); [done|done|done|lia|].
      rewrite E1. cbn [mbind option_bind].
      erewrite fill_rest_round by (done || (unfold zlen; lia)).
      destruct (fill_rest_tail l (Z.to_nat cap) st' (cap - Z.of_nat (S (length l))) k
        (done ++ [(k, v)]) (ps ++ [cap - Z.of_nat (S (length l))]) a2) as (k1 & a' & E & Hpl' & ->); [done|done|done|unfold zlen; lia|lia|].
      rewrite E. cbn [mbind option_bind]. exists (cap - 1), a'. split; [done|].
      rewrite <-!app_assoc in Hpl'. rewrite last_key_of_cons. cbn [positions]. fold position.
      unfold zlen at 1. simpl length. destruct (Z.ltb_spec (cap - position) (Z.of_nat (S (length l)))); [|lia].
      by rewrite seqZ_zlen_cons.
    + destruct (placed_put cap nwords a last k0 done ps k v position)
        as (a1 & a2 & E1 & E2 & Hpl2); [done|done|done|lia|].
      rewrite E1. cbn [mbind option_bind]. rewrite E2. cbn [mbind option_bind].
      rewrite Ha. cbn [mbind option_bind].
      destruct (IH fuel st' position k (done ++ [(k, v)]) (ps ++ [position]) a2) as (last' & a' & E & Hpl');
        [done|done|done|lia|lia|].
      exists last', a'. rewrite <-!app_assoc in Hpl'.
      replace (Z.of_nat (S (length l)) - 1) with (Z.of_nat (length l)) by lia.
      split; [done|]. rewrite last_key_of_cons. cbn [positions]. fold position.
      unfold zlen at 1. simpl length. by destruct (Z.ltb_spec (cap - position) (Z.of_nat (S (length l)))); [lia|].
Qed.
End Loops.

(** ** The finished node *)

Lemma above_sorted k0 l : StronglySorted (fun p q => p.1 < q.1) l -> (forall p, p ∈ l -> k0 < p.1) -> above k0 l.
Proof.
  intros Hs. revert k0. induction Hs as [|[k v] l Hs IH Hall]; intros k0 Hk; [done|].
  split; [by apply (Hk (k, v)); constructor|]. apply IH. intros p Hp. apply (proj1 (Forall_forall _ _) Hall). by apply list_elem_of_In.
Qed.

Lemma cnt_omap {A} (f : Z -> option A) (b : Z -> bool) lo n :
  0 <= n -> (forall i, lo <= i < lo + n -> b i = bool_decide (is_Some (f i))) ->
  cnt b lo (lo + n) = zlen (omap f (seqZ lo n)).
Proof.
  intros Hn. revert lo. pattern n. apply natlike_ind; [| |done]; clear n Hn.
  - intros lo _. by rewrite cnt_empty by lia.
  - intros n Hn IH lo Hb. rewrite cnt_cons by lia.
    replace (lo + Z.succ n) with (lo + 1 + n) by lia. rewrite IH by (intros i Hi; apply Hb; lia).
    rewrite (seqZ_cons lo (Z.succ n)) by lia. rewrite Z.pred_succ. csimpl. rewrite Hb by lia.
    replace (Z.succ lo) with (lo + 1) by lia. destruct (f lo); unfold zlen; simpl; lia.
Qed.

(** The number of pairs a node holds. *)
Lemma contents_length (s : Slots P) : slots_ok s -> zlen (contents s) = num_keys_ s.
Proof.
  intros H. pose proof (bo_cap _ _ _ (so_bitmap s H)). rewrite (so_num s H). symmetry.
  apply (cnt_omap (slot_entry s) (bitv (bitmap_ s)) 0 (data_capacity_ s)); [lia|]. intros i Hi.
  unfold slot_entry. destruct (bitv (bitmap_ s) i); [|done]. rewrite rd_key by done.
  destruct (rd_in (payload_slots_ s) i) as [v ->]; [by rewrite (so_payloads s H)|done].
Qed.

(** Filling the slots after the last pair with the sentinel completes the node. *)
Lemma placed_finish cap nwords a last k0 l ps :
  placed cap nwords a last k0 l ps -> 0 < cap -> nwords = (cap + 63) / 64 -> k0 < u64_max ->
  exists a', fill_keys a (last + 1) cap kEndSentinel_ = Some a' /\
    slots_ok (mkSlots (akeys a') (apayloads a') cap (zlen l) (abits a') nwords) /\
    contents (mkSlots (akeys a') (apayloads a') cap (zlen l) (abits a') nwords) = l /\
    omap (position_of (abits a')) (seqZ 0 cap) = ps.
Proof.
  intros [Hk Hp Hb Hw Hl Hlow Hc Hg He Hen Hps] H0 Hn Hmax.
  destruct (fill_keys_spec a (last + 1) cap kEndSentinel_) as (ks & E & Hkl & Hkv); [lia|lia|].
  eexists. split; [done|]. cbn [akeys apayloads abits]. set (s := mkSlots _ _ _ _ _ _).
  assert (Hgood : forall i, 0 <= i < cap -> slot_good (key_at s i) (next_key s i) (bitv (abits a) i)).
  { intros i Hi. unfold key_at, next_key, s. cbn [key_slots_ data_capacity_]. unfold key_at. cbn [key_slots_].
    rewrite !Hkv. change kEndSentinel_ with u64_max.
    destruct (Z.lt_trichotomy i last) as [Hi'|[->|Hi']].
    - specialize (Hg i ltac:(lia)). repeat (btest_case; try lia); done.
    - destruct (He ltac:(lia)) as (-> & Ek & _). apply good_filled. rewrite Ek.
      repeat (btest_case; try lia); simpl; lia.
    - rewrite Hc by lia. apply good_gap. repeat (btest_case; try lia); simpl; lia. }
  assert (Hcont : contents s = l).
  { unfold contents, s. cbn [data_capacity_].
    replace cap with ((last + 1) + (cap - last - 1)) by lia.
    rewrite seqZ_app, omap_app by lia. rewrite (omap_none _ (seqZ _ (cap - last - 1))), app_nil_r, <-Hen.
    - apply omap_ext_in. intros i Hi%elem_of_seqZ. unfold slot_entry, entry_of.
      cbn [key_slots_ payload_slots_ bitmap_]. rewrite !(rd_at 0) by lia. rewrite Hkv.
      repeat (btest_case; try lia); done.
    - intros i Hi%elem_of_seqZ. unfold slot_entry. cbn [bitmap_]. by rewrite Hc by lia. }
  assert (Hpos : omap (position_of (abits a)) (seqZ 0 cap) = ps).
  { replace cap with ((last + 1) + (cap - last - 1)) by lia. rewrite seqZ_app, omap_app by lia.
    rewrite (omap_none _ (seqZ _ (cap - last - 1))), app_nil_r; [done|].
    intros i Hi%elem_of_seqZ. unfold position_of. by rewrite Hc by lia. }
  split; [|done]. constructor; unfold s; cbn [key_slots_ payload_slots_ bitmap_ bitmap_size_ data_capacity_ num_keys_];
    try done; try lia.
  - constructor; try done. intros i Hi. apply Hc. lia.
  - unfold key_at. cbn [key_slots_]. rewrite Hkv. change kEndSentinel_ with u64_max.
    destruct (Z.lt_ge_cases last 0); [repeat (btest_case; try lia); simpl; done|].
    destruct (He ltac:(lia)) as (_ & _ & ?). repeat (btest_case; try lia); simpl; lia.
  - intros i Hi. by apply Hgood.
  - intros i Hi. by apply Hgood.
  - rewrite <-Hcont. symmetry. apply (cnt_omap (slot_entry s) (bitv (abits a)) 0 cap); [lia|].
    intros i Hi. unfold slot_entry, s. cbn [key_slots_ payload_slots_ bitmap_].
    destruct (bitv (abits a) i); [|done]. rewrite (rd_at 0) by lia.
    destruct (rd_in (apayloads a) i) as [v ->]; [lia|done].
Qed.

(** The blank arrays placement starts from. *)
Lemma placed_start cap nwords a :
  zlen (akeys a) = cap -> zlen (apayloads a) = cap -> 0 < cap ->
  abits a = replicate (Z.to_nat nwords) 0 -> 0 <= nwords -> placed cap nwords a (-1) (-1) [] [].
Proof.
  intros Hk Hp Hc Hb Hn.
  assert (Hz : forall i, at_ 0 (abits a) i = 0).
  { intros i. rewrite Hb. unfold at_. destruct (decide (0 <= i < nwords)).
    - by rewrite rd_replicate by lia.
    - rewrite rd_None; [done|]. rewrite zlen_replicate. lia. }
  constructor; try done; try lia.
  - rewrite Hb, zlen_replicate. lia.
  - intros i. rewrite Hz. split; done.
  - intros i _. unfold bitv. rewrite Hz. apply Z.bits_0.
Qed.

(** [model_based_inserts] builds a gapped array with exactly the given pairs. *)
Lemma model_based_inserts_spec model cap nwords st l a :
  (forall st l pos, yields st l -> pos + zlen l = cap -> tail_more src st pos = (0 <? zlen l)) ->
  yields st l -> StronglySorted (fun p q => p.1 < q.1) l ->
  (forall p, p ∈ l -> 0 <= p.1 < u64_max) ->
  zlen l <= cap -> 0 < cap -> nwords = (cap + 63) / 64 ->
  zlen (akeys a) = cap -> zlen (apayloads a) = cap -> abits a = replicate (Z.to_nat nwords) 0 ->
  exists a', model_based_inserts model cap (zlen l) st a = Some a' /\
    slots_ok (mkSlots (akeys a') (apayloads a') cap (zlen l) (abits a') nwords) /\
    contents (mkSlots (akeys a') (apayloads a') cap (zlen l) (abits a') nwords) = l /\
    omap (position_of (abits a')) (seqZ 0 cap) = positions model cap (-1) l.
Proof.
  intros Htail Hy Hs Hr Hlen Hc Hn Hk Hp Hb. pose proof (pos64 (cap + 63)) as [? ?].
  unfold model_based_inserts.
  destruct (place_loop_spec cap nwords model ltac:(lia) Htail l (S (Z.to_nat cap)) st (-1) (-1) [] [] a)
    as (last & a1 & E & Hpl); [done| | |lia|unfold zlen in *; lia|].
  - apply above_sorted; [done|]. intros p Hp'. specialize (Hr p Hp'). lia.
  - apply placed_start; done || lia.
  - rewrite E. cbn [mbind option_bind]. rewrite !app_nil_l in Hpl.
    apply (placed_finish _ _ _ _ _ _ _ Hpl Hc Hn). unfold last_key_of.
    destruct (list.last l) as [p|] eqn:El; simpl; [|done]. apply Hr. by eapply last_Some_elem_of.
Qed.

End Place.
