(* ===== verification/AlexResize.v ===== *)
(** * ALEX: building and resizing a data node (alex/src/alex_nodes.h)

    [initialize], [build_model], [bulk_load], [bulk_load_from_existing] and
    [resize].  Memory obtained from the allocator is not initialised: the
    contents of a new key or payload array are given by the arguments
    [uninit_keys] and [uninit_payloads], about which nothing is assumed.

    The theorems hold for every model, trained or not: the models only decide
    where the gaps are. *)

From S2P Require Import Prelude Words Floats AlexBase AlexBitmap AlexSearch AlexNode AlexLookup.
From S2P Require Import AlexInsert AlexPlace.
From Stdlib Require Import SpecFloat Sorted.
From stdpp Require Import gmap sorting.
Local Open Scope Z_scope.
Local Open Scope cxx_scope.

Section Resize.
Context {P : Type} (uninit_keys : Z -> Z) (uninit_payloads : Z -> P).
Implicit Types (s : Slots P) (n : AlexDataNode P) (l : list (Z * P)).

(** ** Sources of pairs *)

(** [values[i]] for [i < num_keys]. *)
Definition array_source (values : list (Z * P)) (num_keys : Z) : Source P Z :=
  mkSource (fun i => i <? num_keys) (fun i _ => i <? num_keys) (fun i => values.[i]) (fun i => Some (i + 1)).

(** [it.key()] and [it.payload()] while [it.cur_idx_ < right && !it.is_end()];
    the contiguous tail runs up to [cap]. *)
Definition node_source s (right cap : Z) : Source P Iterator :=
  mkSource (fun it => (cur_idx_ it <? right) && negb (is_end it)) (fun _ pos => pos <? cap)
    (fun it => k ← (key_slots_ s).[cur_idx_ it]; v ← (payload_slots_ s).[cur_idx_ it]; Some (k, v))
    (it_next (bitmap_ s) (bitmap_size_ s)).

(** ** Operations *)

(** [for (i = 0; ...; i++) builder.add(key, i)]; also returns the number of keys. *)
Definition train {St} (src : Source P St) (fuel : nat) (st : St) : option (LinearModelBuilder * Z) :=
  loop fuel (fun '(st, i, b) =>
    if more src st then
      '(k, _) ← get src st; st ← advance src st; Some (inl (st, i + 1, builder_add b k i))
    else Some (inr (b, i))) (st, 0, Builder_init).

(** [for (i = lo; i < num_keys; i += step) builder.add(values[i].first, i)] *)
Definition add_samples (values : list (Z * P)) (num_keys lo step : Z) (b : LinearModelBuilder)
    : option LinearModelBuilder :=
  loop (S (Z.to_nat num_keys)) (fun '(i, b) =>
    if i <? num_keys then v ← values.[i]; Some (inl (i + step, builder_add b v.1 i))
    else Some (inr b)) (lo, b).

(** The step sizes of the sampling: halve the sample while it has 10 keys. *)
Definition initial_step_size (num_keys : Z) : option Z :=
  step ← loop 64 (fun '(sample_size, step_size) =>
    if SFleb (f64_of_Z 10) sample_size
    then Some (inl (f64_div sample_size (f64_of_Z 2), step_size * 2))
    else Some (inr step_size)) (f64_of_Z num_keys, 1);
  Some (Z.quot step 2).

(** The keys a halved step size adds: the odd multiples of the new step, since
    [sample_size_multiplier] is 2. *)
Definition add_new_samples (values : list (Z * P)) (num_keys step : Z) (b : LinearModelBuilder)
    : option LinearModelBuilder :=
  loop (S (Z.to_nat num_keys)) (fun '(i, b) =>
    if i <? num_keys then
      let i := i + step in
      if i <? num_keys then v ← values.[i]; Some (inl (i + step, builder_add b v.1 i))
      else Some (inl (i, b))
    else Some (inr b)) (0, b).

Definition build_model_sampling (values : list (Z * P)) (num_keys : Z) : option LinearModel :=
  if num_keys <=? 10 * 2 then
    '(b, _) ← train (array_source values num_keys) (S (Z.to_nat num_keys)) 0; Some (builder_build b)
  else
    step_size ← initial_step_size num_keys;
    b ← add_samples values num_keys 0 step_size Builder_init;
    loop 64 (fun '(step_size, b, prev) =>
      if 1 <? step_size then
        let step_size := Z.quot step_size 2 in
        b ← add_new_samples values num_keys step_size b;
        let m := builder_build b in
        let rel_change_in_a := SFabs (f64_div (f64_sub (a_ m) (a_ prev)) (a_ prev)) in
        let abs_change_in_b := SFabs (f64_sub (b_ m) (b_ prev)) in
        let rel_change_in_b := SFabs (f64_div abs_change_in_b (b_ prev)) in
        if SFltb rel_change_in_a (f64_lit 1 100) &&
           (SFltb rel_change_in_b (f64_lit 1 100) || SFltb abs_change_in_b (f64_lit 1 2))
        then Some (inr m)
        else Some (inl (step_size, b, m))
      else Some (inr prev)) (step_size, b, builder_build b).

Definition build_model (values : list (Z * P)) (num_keys : Z) (use_sampling : bool) : option LinearModel :=
  if use_sampling then build_model_sampling values num_keys
  else
    '(b, _) ← train (array_source values num_keys) (S (Z.to_nat num_keys)) 0; Some (builder_build b).

(** [max(static_cast<int>(num_keys / density), num_keys + 1)]. *)
Definition capacity_for (num_keys : Z) (density : f64) : Z :=
  Z.max (f64_to_int (f64_div (f64_of_Z num_keys) density)) (num_keys + 1).

(** [ceil(data_capacity / 64.)], exact since the division by 64 is. *)
Definition bitmap_words (data_capacity : Z) : Z := (data_capacity + 63) / 64.

(** [new T[cap]], [new P[cap]] and [new uint64_t[words]()]. *)
Definition new_arrays (cap : Z) : Arrays (P := P) :=
  mkArrays (uninit_keys <$> seqZ 0 cap) (uninit_payloads <$> seqZ 0 cap)
    (replicate (Z.to_nat (bitmap_words cap)) 0).

Definition slots_of (a : Arrays (P := P)) (cap num_keys : Z) : Slots P :=
  mkSlots (akeys a) (apayloads a) cap num_keys (abits a) (bitmap_words cap).

(** [initialize] on the arrays, the capacity, the number of keys and the bitmap. *)
Definition initialize (num_keys : Z) (density : f64) : Slots P :=
  let cap := capacity_for num_keys density in slots_of (new_arrays cap) cap num_keys.

Definition with_layout n s (model : LinearModel) (expansion contraction : f64) : AlexDataNode P :=
  mkNode s model (cost_ n) expansion contraction (max_slots_ n) (counters_ n)
    (expected_avg_exp_search_iterations_ n) (expected_avg_shifts_ n).

Definition set_key_range (min_key max_key : Z) (c : Counters) : Counters :=
  mkCounters (num_shifts_ c) (num_exp_search_iterations_ c) (num_lookups_ c) (num_inserts_ c)
    (num_resizes_ c) max_key min_key (num_right_out_of_bounds_inserts_ c)
    (num_left_out_of_bounds_inserts_ c).

(** [min(max(data_capacity_ * kMaxDensity_, num_keys + 1), data_capacity_)]. *)
Definition expansion_threshold_for (cap num_keys : Z) : f64 :=
  f64_min (f64_max (f64_mul (f64_of_Z cap) kMaxDensity_) (f64_of_Z (num_keys + 1))) (f64_of_Z cap).

Definition contraction_threshold_for (cap : Z) : f64 := f64_mul (f64_of_Z cap) kMinDensity_.

(** The node without keys: every key slot is the sentinel. *)
Definition empty_node n s : option (AlexDataNode P) :=
  ks ← fill 0 (data_capacity_ s) kEndSentinel_ (key_slots_ s);
  Some (with_layout n (with_arrays s ks (payload_slots_ s) (bitmap_ s)) (model_ n)
          (f64_of_Z (data_capacity_ s)) f64_zero).

(** [double / int] with both operands converted. *)
Definition ratio (a b : Z) : f64 := f64_div (f64_of_Z a) (f64_of_Z b).

Definition bulk_load n (values : list (Z * P)) (num_keys : Z) (pretrained_model : option LinearModel)
    (train_with_sample : bool) : option (AlexDataNode P) :=
  let s := initialize num_keys kInitDensity_ in
  if num_keys =? 0 then empty_node n s
  else
    model ← match pretrained_model with
            | Some m => Some m
            | None => build_model values num_keys train_with_sample
            end;
    let cap := data_capacity_ s in
    let model := expand model (ratio cap num_keys) in
    a ← model_based_inserts (array_source values num_keys) model cap num_keys 0 (new_arrays cap);
    first ← values.[0];
    last ← values.[num_keys - 1];
    Some (upd_counters
      (with_layout n (slots_of a cap num_keys) model
         (expansion_threshold_for cap num_keys) (contraction_threshold_for cap))
      (set_key_range first.1 last.1)).

(** The model and number of keys of the slots [left .. right) of a node. *)
Definition train_range s (left right : Z) : option (LinearModel * Z) :=
  it ← it_init (bitmap_ s) (bitmap_size_ s) left;
  '(b, num) ← train (node_source s right 0) (S (Z.to_nat (data_capacity_ s))) it;
  Some (builder_build b, num).

Definition add_intercept (m : LinearModel) (d : f64) : LinearModel :=
  mkLinearModel (a_ m) (f64_add (b_ m) d).

(** [self] is the fresh node, [s] the slots of the existing one with its key
    range [min_key], [max_key]. *)
Definition bulk_load_from_existing n s (min_key max_key left right : Z) (keep_left keep_right : bool)
    (precomputed : option (LinearModel * Z)) : option (AlexDataNode P) :=
  '(model, num_actual_keys) ← match precomputed with
    | Some (m, num) => if num =? -1 then train_range s left right else Some (m, num)
    | None => train_range s left right
    end;
  let fresh := initialize num_actual_keys kMinDensity_ in
  if num_actual_keys =? 0 then
    empty_node (with_layout n (slots_ n) model (expansion_threshold_ n) (contraction_threshold_ n)) fresh
  else
    let cap := data_capacity_ fresh in
    let stretched := f64_div (f64_of_Z num_actual_keys) kMaxDensity_ in
    let model :=
      if keep_left then expand model (f64_div stretched (f64_of_Z num_actual_keys))
      else if keep_right then
        add_intercept (expand model (f64_div stretched (f64_of_Z num_actual_keys)))
          (f64_sub (f64_of_Z cap) stretched)
      else expand model (ratio cap num_actual_keys) in
    it ← it_init (bitmap_ s) (bitmap_size_ s) left;
    a ← model_based_inserts (node_source s right cap) model cap num_actual_keys it (new_arrays cap);
    Some (upd_counters
      (with_layout n (slots_of a cap num_actual_keys) model
         (expansion_threshold_for cap num_actual_keys) (contraction_threshold_for cap))
      (set_key_range min_key max_key)).

(** The model [resize] uses for the new arrays. *)
Definition resize_model n (new_data_capacity : Z) (force_retrain keep_left keep_right : bool)
    : option LinearModel :=
  let s := slots_ n in
  let old := data_capacity_ s in
  if (num_keys_ s <? 50) || force_retrain then
    '(m, _) ← train_range s 0 old;
    Some (if keep_left then expand m (ratio old (num_keys_ s))
          else if keep_right then
            add_intercept (expand m (ratio old (num_keys_ s))) (f64_of_Z (new_data_capacity - old))
          else expand m (ratio new_data_capacity (num_keys_ s)))
  else
    Some (if keep_right then add_intercept (model_ n) (f64_of_Z (new_data_capacity - old))
          else if keep_left then model_ n
          else expand (model_ n) (ratio new_data_capacity old)).

Definition resize n (target_density : f64) (force_retrain keep_left keep_right : bool)
    : option (AlexDataNode P) :=
  let s := slots_ n in
  let num := num_keys_ s in
  if num =? 0 then Some n
  else
    let cap := capacity_for num target_density in
    model ← resize_model n cap force_retrain keep_left keep_right;
    it ← it_init (bitmap_ s) (bitmap_size_ s) 0;
    a ← model_based_inserts (node_source s (data_capacity_ s) cap) model cap num it (new_arrays cap);
    Some (with_layout n (slots_of a cap num) model
            (expansion_threshold_for cap num) (contraction_threshold_for cap)).

(** ** What the sources yield *)

Lemma array_source_yields values num_keys :
  0 <= num_keys <= zlen values -> yields (array_source values num_keys) 0 (take (Z.to_nat num_keys) values).
Proof.
  intros Hn.
  assert (Hgen : forall m i, 0 <= i -> i + Z.of_nat m = num_keys ->
    yields (array_source values num_keys) i (take m (drop (Z.to_nat i) values))).
  { induction m as [|m IH]; intros i Hi Hm.
    - rewrite take_0. constructor. simpl. apply Z.ltb_ge. lia.
    - destruct (rd_in values i) as [[k v] Ev]; [unfold zlen in *; lia|].
      assert (Hd : drop (Z.to_nat i) values = (k, v) :: drop (Z.to_nat (i + 1)) values).
      { replace (Z.to_nat (i + 1)) with (S (Z.to_nat i)) by lia. apply drop_S.
        unfold rd in Ev. by destruct (0 <=? i). }
      rewrite Hd. simpl. apply (yields_pair _ _ (i + 1)); [simpl; apply Z.ltb_lt; lia|done|done|].
      apply IH; lia. }
  replace values with (drop (Z.to_nat 0) values) at 2 by done. apply Hgen; lia.
Qed.

(** The filled slots of [lo .. hi). *)
Definition entries s (lo hi : Z) : list (Z * P) := omap (slot_entry s) (seqZ lo (hi - lo)).

Lemma entries_gap s lo mid hi :
  lo <= mid <= hi -> (forall i, lo <= i < mid -> bitv (bitmap_ s) i = false) -> entries s lo hi = entries s mid hi.
Proof.
  intros Hm Hgap. unfold entries. replace (hi - lo) with ((mid - lo) + (hi - mid)) by lia.
  rewrite seqZ_app, omap_app by lia. rewrite (omap_none _ (seqZ lo (mid - lo))).
  - simpl. by replace (lo + (mid - lo)) with mid by lia.
  - intros i Hi%elem_of_seqZ. unfold slot_entry. by rewrite Hgap by lia.
Qed.

Lemma entries_pair s lo hi k v :
  lo < hi -> slot_entry s lo = Some (k, v) -> entries s lo hi = (k, v) :: entries s (lo + 1) hi.
Proof.
  intros Hlt He. unfold entries. rewrite seqZ_cons by lia. csimpl. rewrite He.
  by replace (Z.pred (hi - lo)) with (hi - (lo + 1)) by lia.
Qed.

Lemma slot_entry_filled s i :
  slots_ok s -> 0 <= i < data_capacity_ s -> bitv (bitmap_ s) i = true ->
  exists v, rd (payload_slots_ s) i = Some v /\ slot_entry s i = Some (key_at s i, v).
Proof.
  intros H Hi Hb. destruct (rd_in (payload_slots_ s) i) as [v Ev]; [by rewrite (so_payloads s H)|].
  exists v. unfold slot_entry. by rewrite Hb, rd_key, Ev.
Qed.

(** [it] stands on the first filled slot not before [q], or at the end. *)
Definition reached (bm : list Z) (bsize q : Z) (it : Iterator) : Prop :=
  (cur_idx_ it = -1 /\ forall i, q <= i < 64 * bsize -> bitv bm i = false) \/
  (q <= cur_idx_ it < 64 * bsize /\ bitv bm (cur_idx_ it) = true /\
   (forall i, q <= i < cur_idx_ it -> bitv bm i = false) /\
   64 * cur_bitmap_idx_ it <= cur_idx_ it /\
   scan_at bm (cur_idx_ it + 1) (cur_bitmap_idx_ it, cur_bitmap_data_ it)).

Lemma node_source_yields s right cap : slots_ok s -> right <= data_capacity_ s -> forall q it,
  0 <= q <= right -> reached (bitmap_ s) (bitmap_size_ s) q it ->
  yields (node_source s right cap) it (entries s q right).
Proof.
  intros H Hr q. pose proof (so_bitmap s H) as [Hc Hs Hl Hw Hpad]. pose proof (cap_bits s H) as Hcb.
  remember (Z.to_nat (right - q)) as m eqn:Em. revert q Em.
  induction m as [m IH] using (well_founded_induction lt_wf). intros q Em it Hq [[He Hno]|Hat].
  - rewrite (entries_gap s q right right) by (lia || (intros i Hi; apply Hno; lia)).
    unfold entries. rewrite Z.sub_diag. constructor. simpl. unfold is_end. rewrite He. by rewrite andb_false_r.
  - destruct Hat as (Hcur & Hb & Hno & Hlo & Hscan). destruct (Z.lt_ge_cases (cur_idx_ it) right) as [Hlt|Hge].
    + destruct (slot_entry_filled s (cur_idx_ it) H ltac:(lia) Hb) as (v & Ev & He).
      rewrite (entries_gap s q (cur_idx_ it)), (entries_pair s _ _ _ _ Hlt He) by (done || lia).
      destruct (it_next_spec (bitmap_ s) (bitmap_size_ s) it (cur_idx_ it + 1)) as (it' & Eit & Hreach);
        [done|done|done|lia|].
      apply (yields_pair _ _ it').
      * simpl. unfold is_end. repeat (btest_case; try lia); done.
      * simpl. rewrite rd_key by (done || lia). simpl. by rewrite Ev.
      * done.
      * eapply IH; [|done|lia|exact Hreach]. lia.
    + rewrite (entries_gap s q right right) by (lia || (intros i Hi; apply Hno; lia)).
      unfold entries. rewrite Z.sub_diag. constructor. simpl. btest_case; [lia|done].
Qed.

Lemma it_init_yields s left right cap :
  slots_ok s -> 0 <= left <= right -> right <= data_capacity_ s -> left < 64 * bitmap_size_ s ->
  exists it, it_init (bitmap_ s) (bitmap_size_ s) left = Some it /\
    yields (node_source s right cap) it (entries s left right).
Proof.
  intros H Hl Hr Hw. pose proof (so_bitmap s H) as [_ _ Hbl Hbw _].
  destruct (it_init_spec (bitmap_ s) (bitmap_size_ s) left Hbw Hbl) as (it & E & Hreach); [lia|].
  exists it. split; [done|]. apply node_source_yields; [done|lia|lia|exact Hreach].
Qed.

Lemma train_spec {St} (src : Source P St) fuel st l :
  yields src st l -> (length l < fuel)%nat -> exists b, train src fuel st = Some (b, zlen l).
Proof.
  unfold train. intros Hy Hf.
  assert (Hgen : forall l st i b fuel, yields src st l -> (length l < fuel)%nat -> exists b',
    loop fuel (fun '(st, i, b) => if more src st then
      '(k, _) ← get src st; st ← advance src st; Some (inl (st, i + 1, builder_add b k i))
      else Some (inr (b, i))) (st, i, b) = Some (b', i + zlen l)).
  { clear. induction l as [|[k v] l IH]; intros st i b [|fuel] Hy Hf; simpl in Hf; try lia.
    - inversion_clear Hy as [? Hm|]. exists b. cbn [loop]. rewrite Hm. do 2 f_equal. unfold zlen. simpl length. lia.
    - inversion_clear Hy as [|? st' ? ? ? Hm Hg Ha Hy']. cbn [loop]. rewrite Hm, Hg. cbn [mbind option_bind].
      rewrite Ha. cbn [mbind option_bind].
      destruct (IH st' (i + 1) (builder_add b k i) fuel Hy') as [b' Eb]; [lia|].
      exists b'. rewrite Eb. do 2 f_equal. unfold zlen. simpl length. lia. }
  destruct (Hgen l st 0 Builder_init fuel Hy Hf) as [b Eb]. exists b. by rewrite Eb.
Qed.

(** ** The node invariant *)

(** A data node: a gapped array within the sizes the searches support, and an
    expansion threshold that is a number not above the capacity. *)
Record node_ok n : Prop := {
  nk_slots : slots_ok (slots_ n);
  nk_fits : fits n;
  nk_number : expansion_threshold_ n <> S754_nan;
  nk_top : SFltb (f64_of_Z (data_capacity_ (slots_ n))) (expansion_threshold_ n) = false
}.

Lemma f64_of_Z_irrefl z : 0 <= z < 2 ^ 53 -> SFltb (f64_of_Z z) (f64_of_Z z) = false.
Proof. intros H. rewrite f64_of_Z_ltb by done. apply Z.ltb_irrefl. Qed.

Lemma expansion_threshold_ok cap num :
  0 < cap <= 2 ^ 30 -> 0 <= num < cap ->
  expansion_threshold_for cap num <> S754_nan /\ SFltb (f64_of_Z cap) (expansion_threshold_for cap num) = false.
Proof.
  intros Hc Hn. unfold expansion_threshold_for, f64_min.
  destruct (SFltb (f64_of_Z cap) (f64_max _ _)) eqn:E.
  - split; [by apply f64_of_Z_not_nan; lia|by apply f64_of_Z_irrefl; lia].
  - split; [|done]. unfold f64_max. destruct (SFltb _ (f64_of_Z (num + 1))).
    + apply f64_of_Z_not_nan. lia.
    + destruct cap as [|p|p]; [lia| |lia]. destruct (f64_of_pos p) as (m & -> & _); [lia|].
      apply binary_round_aux_not_nan. lia.
Qed.

Lemma capacity_for_gt num d : num < capacity_for num d.
Proof. unfold capacity_for. lia. Qed.

(** The three densities of the code. *)
Definition is_density (d : f64) : Prop := d = kMinDensity_ \/ d = kInitDensity_ \/ d = kMaxDensity_.

Lemma density_mantissa d :
  is_density d -> exists m, d = S754_finite false m (-53) /\ 2 ^ 52 <= Zpos m < 2 ^ 53.
Proof. intros [->|[->| ->]]; eexists; (split; [vm_compute; reflexivity|lia]). Qed.

(** The capacity for fewer than [2^29] keys stays within the supported sizes. *)
Lemma capacity_for_bound num d :
  is_density d -> 0 <= num < 2 ^ 29 -> capacity_for num d <= 2 ^ 30.
Proof.
  intros (m & -> & Hm)%density_mantissa Hn. unfold capacity_for, f64_to_int.
  destruct (f64_div_trunc_bound 30 num m ltac:(lia) ltac:(lia) Hm) as (z & -> & Hz).
  unfold int_min, int_max. destruct (_ && _); lia.
Qed.

Lemma bitmap_words_pos cap : 0 < cap -> 0 <= bitmap_words cap /\ cap <= 64 * bitmap_words cap.
Proof. intros H. unfold bitmap_words. pose proof (pos64 (cap + 63)). lia. Qed.

Lemma zlen_seqZ_fmap {A} (f : Z -> A) m : 0 <= m -> zlen (f <$> seqZ 0 m) = m.
Proof. intros H. unfold zlen. rewrite length_fmap, length_seqZ. lia. Qed.

(** A node without keys is the sentinel in every slot. *)
Lemma empty_node_ok n d :
  capacity_for 0 d <= 2 ^ 30 ->
  exists n', empty_node n (initialize 0 d) = Some n' /\ node_ok n' /\ contents (slots_ n') = [] /\
    omap (position_of (bitmap_ (slots_ n'))) (seqZ 0 (capacity_for 0 d)) = [].
Proof.
  intros Hf. set (cap := capacity_for 0 d) in *. pose proof (capacity_for_gt 0 d) as Hc. fold cap in Hc.
  pose proof (bitmap_words_pos cap Hc) as [Hw0 Hw].
  destruct (placed_finish cap (bitmap_words cap) (new_arrays cap) (-1) (-1) [] []) as (a & E & Hs & Hcont & Hps);
    [apply placed_start; try done; by apply zlen_seqZ_fmap; lia|done|done|done|].
  unfold fill_keys in E. inv_bind E. simplify_eq. cbn [akeys apayloads abits] in Hs, Hcont, Hps.
  unfold empty_node. change (data_capacity_ (initialize 0 d)) with cap.
  change (key_slots_ (initialize 0 d)) with (akeys (new_arrays cap)).
  change (-1 + 1) with 0 in E0. rewrite E0. cbn [mbind option_bind].
  eexists. split; [done|]. split; [|split; [exact Hcont|exact Hps]]. constructor; [exact Hs|done| |].
  - apply f64_of_Z_not_nan. simpl. lia.
  - apply f64_of_Z_irrefl. simpl. lia.
Qed.

(** The array built by placement is a good node. *)
Lemma built_ok n a cap num model :
  slots_ok (slots_of a cap num) -> 0 < cap <= 2 ^ 30 -> 0 <= num < cap ->
  node_ok (with_layout n (slots_of a cap num) model (expansion_threshold_for cap num) (contraction_threshold_for cap)).
Proof.
  intros Hs Hc Hn. destruct (expansion_threshold_ok cap num Hc Hn).
  constructor; [done|simpl; unfold fits; simpl; lia|done|done].
Qed.

Lemma node_ok_upd n f : node_ok n -> node_ok (upd_counters n f).
Proof. intros []. by constructor. Qed.

Lemma entries_all s : entries s 0 (data_capacity_ s) = contents s.
Proof. unfold entries, contents. by rewrite Z.sub_0_r. Qed.

Lemma entries_range s lo hi : slots_ok s -> 0 <= lo -> hi <= data_capacity_ s ->
  forall p, p ∈ entries s lo hi -> 0 <= p.1 < u64_max.
Proof.
  intros H Hlo Hhi [k v] (i & Hi%elem_of_seqZ & E)%list_elem_of_omap. unfold slot_entry in E.
  destruct (bitv (bitmap_ s) i) eqn:Eb; [|done]. rewrite rd_key in E by (done || lia). simpl in E.
  destruct (rd (payload_slots_ s) i); [|done]. simpl in E. simplify_eq. simpl.
  pose proof (key_at_range s i H ltac:(lia)). pose proof (filled_lt_sentinel s i H ltac:(lia) Eb). lia.
Qed.

Lemma entries_increasing s lo hi : slots_ok s -> 0 <= lo <= hi -> hi <= data_capacity_ s ->
  StronglySorted (fun p q => p.1 < q.1) (entries s lo hi).
Proof.
  intros H Hlo Hhi. pose proof (contents_increasing s H) as Hs. rewrite <-entries_all in Hs. revert Hs.
  unfold entries. replace (data_capacity_ s - 0) with (lo + ((hi - lo) + (data_capacity_ s - hi))) by lia.
  rewrite (seqZ_app _ lo), (seqZ_app _ (hi - lo)), !omap_app by lia.
  intros Hs%StronglySorted_app_1_r%StronglySorted_app_1_l. by replace (0 + lo) with lo in Hs by lia.
Qed.

(** ** Correctness *)

Lemma array_tail values num cap st l pos :
  yields (array_source values num) st l -> pos + zlen l = cap ->
  tail_more (array_source values num) st pos = (0 <? zlen l).
Proof. intros Hy _. by inversion_clear Hy. Qed.

Lemma node_tail s right cap st l pos :
  yields (node_source s right cap) st l -> pos + zlen l = cap ->
  tail_more (node_source s right cap) st pos = (0 <? zlen l).
Proof. intros _ Hl. simpl. repeat btest_case; lia || done. Qed.

(** Placing the pairs of a source into fresh arrays. *)
Lemma place_fresh {St} (src : Source P St) model n d st l :
  let cap := capacity_for (zlen l) d in
  (forall st l pos, yields src st l -> pos + zlen l = cap -> tail_more src st pos = (0 <? zlen l)) ->
  yields src st l -> StronglySorted (fun p q => p.1 < q.1) l ->
  (forall p, p ∈ l -> 0 <= p.1 < u64_max) -> cap <= 2 ^ 30 ->
  exists a, model_based_inserts src model cap (zlen l) st (new_arrays cap) = Some a /\
    node_ok (with_layout n (slots_of a cap (zlen l)) model
               (expansion_threshold_for cap (zlen l)) (contraction_threshold_for cap)) /\
    contents (slots_of a cap (zlen l)) = l /\
    omap (position_of (abits a)) (seqZ 0 cap) = positions model cap (-1) l.
Proof.
  intros cap Htail Hy Hs Hr Hcap. pose proof (zlen_nonneg l). pose proof (capacity_for_gt (zlen l) d) as Hgt.
  fold cap in Hgt.
  destruct (model_based_inserts_spec src model cap (bitmap_words cap) st l (new_arrays cap))
    as (a & E & Hok & Hc & Hps); try done; try lia; try (by apply zlen_seqZ_fmap; lia).
  exists a. split; [done|]. split; [|done]. apply built_ok; [done|lia|lia].
Qed.

Lemma build_model_exact values num :
  0 <= num <= zlen values -> exists m, build_model values num false = Some m.
Proof.
  intros Hn. unfold build_model.
  destruct (train_spec (array_source values num) (S (Z.to_nat num)) 0 _ (array_source_yields values num Hn))
    as [b ->]; [rewrite length_take; lia|]. by eexists.
Qed.

Lemma model_exists values num (pretrained : option LinearModel) :
  0 <= num <= zlen values ->
  exists m, match pretrained with Some m => Some m | None => build_model values num false end = Some m.
Proof. intros Hn. destruct pretrained; [by eexists|by apply build_model_exact]. Qed.

(** [bulk_load] of the first [num_keys] pairs, with a given or an exactly trained
    model. *)
Lemma bulk_load_spec n values num_keys pretrained model :
  match pretrained with Some m => Some m | None => build_model values num_keys false end = Some model ->
  0 <= num_keys <= zlen values ->
  StronglySorted (fun p q => p.1 < q.1) (take (Z.to_nat num_keys) values) ->
  (forall p, p ∈ take (Z.to_nat num_keys) values -> 0 <= p.1 < u64_max) ->
  capacity_for num_keys kInitDensity_ <= 2 ^ 30 ->
  exists n', bulk_load n values num_keys pretrained false = Some n' /\ node_ok n' /\
    contents (slots_ n') = take (Z.to_nat num_keys) values /\
    let cap := capacity_for num_keys kInitDensity_ in
    omap (position_of (bitmap_ (slots_ n'))) (seqZ 0 cap) =
      positions (expand model (ratio cap num_keys)) cap (-1) (take (Z.to_nat num_keys) values).
Proof.
  intros Hmodel Hn Hs Hr Hcap. unfold bulk_load. destruct (Z.eqb_spec num_keys 0) as [->|Hne].
  { rewrite take_0. destruct (empty_node_ok n kInitDensity_ Hcap) as (n' & E & Hok & Hc & Hps).
    exists n'. repeat (split; [assumption|]). exact Hps. }
  rewrite Hmodel. cbn [mbind option_bind]. set (cap := data_capacity_ _).
  assert (Hz : zlen (take (Z.to_nat num_keys) values) = num_keys)
    by (unfold zlen in *; rewrite length_take; lia).
  destruct (place_fresh (array_source values num_keys) (expand model (ratio cap num_keys)) n kInitDensity_ 0
    (take (Z.to_nat num_keys) values)) as (a & E & Hok & Hc & Hps); rewrite ?Hz in *; try done.
  { intros st l pos. apply array_tail. }
  { by apply array_source_yields. }
  change (capacity_for num_keys kInitDensity_) with cap in *. rewrite E. cbn [mbind option_bind].
  destruct (rd_in values 0) as [v0 ->]; [lia|]. destruct (rd_in values (num_keys - 1)) as [v1 ->]; [lia|].
  cbn [mbind option_bind]. eexists. split; [done|]. split; [by apply node_ok_upd|done].
Qed.

Lemma train_range_spec s left right :
  slots_ok s -> 0 <= left <= right -> right <= data_capacity_ s -> left < 64 * bitmap_size_ s ->
  exists m, train_range s left right = Some (m, zlen (entries s left right)).
Proof.
  intros H Hl Hr Hw. unfold train_range.
  destruct (it_init_yields s left right 0 H Hl Hr Hw) as (it & -> & Hy). cbn [mbind option_bind].
  destruct (train_spec _ (S (Z.to_nat (data_capacity_ s))) it _ Hy) as [b ->]; [|by eexists].
  assert (zlen (entries s left right) <= right - left); [|unfold zlen in *; lia].
  unfold entries, zlen. pose proof (length_omap_le (slot_entry s) (seqZ left (right - left))).
  rewrite length_seqZ in *. lia.
Qed.

Lemma resize_model_spec n cap fr kl kr :
  slots_ok (slots_ n) -> exists m, resize_model n cap fr kl kr = Some m.
Proof.
  intros H. unfold resize_model. destruct (_ || fr); [|by eexists].
  pose proof (bo_cap _ _ _ (so_bitmap _ H)). destruct (cap_words _ _ _ (so_bitmap _ H)).
  destruct (train_range_spec (slots_ n) 0 (data_capacity_ (slots_ n))) as [m ->]; try done; try lia.
  by eexists.
Qed.

(** [resize] keeps the pairs and re-establishes the invariant at the new capacity. *)
Lemma resize_spec n d fr kl kr :
  node_ok n -> capacity_for (num_keys_ (slots_ n)) d <= 2 ^ 30 ->
  exists n', resize n d fr kl kr = Some n' /\ node_ok n' /\ contents (slots_ n') = contents (slots_ n) /\
    num_keys_ (slots_ n') = num_keys_ (slots_ n) /\ counters_ n' = counters_ n /\
    max_slots_ n' = max_slots_ n /\ num_keys_ (slots_ n') < data_capacity_ (slots_ n').
Proof.
  intros Hok Hcap. pose proof (nk_slots n Hok) as H. pose proof (bo_cap _ _ _ (so_bitmap _ H)).
  destruct (cap_words _ _ _ (so_bitmap _ H)). unfold resize.
  destruct (Z.eqb_spec (num_keys_ (slots_ n)) 0) as [E0|Hne].
  { exists n. repeat (split; [done|]). lia. }
  destruct (resize_model_spec n (capacity_for (num_keys_ (slots_ n)) d) fr kl kr H) as [m ->].
  cbn [mbind option_bind]. set (cap := capacity_for _ d) in *.
  destruct (it_init_yields (slots_ n) 0 (data_capacity_ (slots_ n)) cap H) as (it & -> & Hy); try lia.
  cbn [mbind option_bind]. rewrite entries_all in Hy. pose proof (contents_length _ H) as Hz.
  destruct (place_fresh (node_source (slots_ n) (data_capacity_ (slots_ n)) cap) m n d it (contents (slots_ n)))
    as (a & E & Hok' & Hc & _); rewrite ?Hz in *; fold cap; try done.
  { intros st l pos. apply node_tail. }
  { by apply contents_increasing. }
  { rewrite <-entries_all. apply entries_range; [done|lia|lia]. }
  fold cap in E, Hok', Hc. rewrite E. cbn [mbind option_bind]. eexists. split; [done|]. split; [done|].
  split; [done|]. do 3 (split; [done|]). apply capacity_for_gt.
Qed.

(** [bulk_load_from_existing] copies the pairs of the slots [left .. right). *)
Lemma bulk_load_from_existing_spec n s min_key max_key left right kl kr precomputed :
  slots_ok s -> 0 <= left <= right -> right <= data_capacity_ s -> left < 64 * bitmap_size_ s ->
  capacity_for (zlen (entries s left right)) kMinDensity_ <= 2 ^ 30 ->
  (forall m num, precomputed = Some (m, num) -> num = -1 \/ num = zlen (entries s left right)) ->
  exists n', bulk_load_from_existing n s min_key max_key left right kl kr precomputed = Some n' /\
    node_ok n' /\ contents (slots_ n') = entries s left right.
Proof.
  intros H Hl Hr Hw Hcap Hpre. unfold bulk_load_from_existing.
  destruct (train_range_spec s left right H Hl Hr Hw) as [m0 E0].
  assert (exists m, match precomputed with
    | Some (m, num) => if num =? -1 then train_range s left right else Some (m, num)
    | None => train_range s left right end = Some (m, zlen (entries s left right))) as [m ->].
  { destruct precomputed as [[m num]|]; [|by exists m0].
    destruct (Z.eqb_spec num (-1)); [by exists m0|]. destruct (Hpre m num eq_refl) as [?| ->]; [done|by eexists]. }
  cbn [mbind option_bind]. destruct (Z.eqb_spec (zlen (entries s left right)) 0) as [Ez|Hne].
  { rewrite Ez in *. apply Z.eq_sym in Ez. destruct (entries s left right); [|done].
    edestruct empty_node_ok as (n' & E & Hok & Hc & _); [done|].
    exists n'. split; [exact E|]. split; assumption. }
  destruct (it_init_yields s left right (capacity_for (zlen (entries s left right)) kMinDensity_) H Hl Hr Hw)
    as (it & -> & Hy). cbn [mbind option_bind].
  change (data_capacity_ (initialize (zlen (entries s left right)) kMinDensity_))
    with (capacity_for (zlen (entries s left right)) kMinDensity_).
  match goal with |- context [model_based_inserts _ ?m _ _ _ _] =>
    destruct (place_fresh (node_source s right (capacity_for (zlen (entries s left right)) kMinDensity_)) m n
      kMinDensity_ it (entries s left right)) as (a & E & Hok & Hc & _) end; try done.
  { intros st l pos. apply node_tail. }
  { by apply entries_increasing. }
  { apply entries_range; [done|lia|lia]. }
  rewrite E. cbn [mbind option_bind].
  eexists. split; [done|]. split; [by apply node_ok_upd|done].
Qed.

End Resize.
