(* ===== verification/AlexUpdate.v ===== *)
(** * ALEX: the insert of a data node (alex/src/alex_nodes.h)

    The cost-model guards, the automatic expansion and the insertion itself, as
    [AlexDataNode::insert] composes them, refined to insertion into the map the
    node represents.  The counters are C++ [int]s and [long long]s that only
    grow by one or by a bounded amount per operation; they are kept unbounded
    here, since nothing but the cost heuristics reads them. *)

From S2P Require Import Prelude Words Floats AlexBase AlexBitmap AlexSearch AlexNode AlexLookup.
From S2P Require Import AlexInsert AlexPlace AlexResize.
From Stdlib Require Import SpecFloat.
From stdpp Require Import gmap.
Local Open Scope Z_scope.
Local Open Scope cxx_scope.

(** [key_less_(a, b)] is [a < b] on the keys. *)
Definition key_equal (a b : Z) : bool := negb (a <? b) && negb (b <? a).

Lemma key_equal_eqb a b : key_equal a b = (a =? b).
Proof. unfold key_equal. repeat btest_case; simpl; lia || done. Qed.

Section Update.
Context {P : Type} (uninit_keys : Z -> Z) (uninit_payloads : Z -> P).
Implicit Types (s : Slots P) (n : AlexDataNode P) (c : Counters).

(** ** Cost model *)

Definition shifts_per_insert c : f64 :=
  if num_inserts_ c =? 0 then f64_zero else f64_div (f64_of_Z (num_shifts_ c)) (f64_of_Z (num_inserts_ c)).

Definition exp_search_iterations_per_operation c : f64 :=
  if num_inserts_ c + num_lookups_ c =? 0 then f64_zero
  else f64_div (f64_of_Z (num_exp_search_iterations_ c)) (f64_of_Z (num_inserts_ c + num_lookups_ c)).

Definition empirical_cost c : f64 :=
  if num_inserts_ c + num_lookups_ c =? 0 then f64_zero
  else
    let frac_inserts := ratio (num_inserts_ c) (num_inserts_ c + num_lookups_ c) in
    f64_add (f64_mul kExpSearchIterationsWeight (exp_search_iterations_per_operation c))
            (f64_mul (f64_mul kShiftsWeight (shifts_per_insert c)) frac_inserts).

Definition frac_inserts c : f64 :=
  let num_ops := num_inserts_ c + num_lookups_ c in
  if num_ops =? 0 then f64_zero else ratio (num_inserts_ c) (num_inserts_ c + num_lookups_ c).

Definition reset_stats c : Counters :=
  mkCounters 0 0 0 0 0 (max_key_ c) (min_key_ c) (num_right_out_of_bounds_inserts_ c)
    (num_left_out_of_bounds_inserts_ c).

Definition significant_cost_deviation n : bool :=
  let emp_cost := empirical_cost (counters_ n) in
  SFltb kNodeLookupsWeight emp_cost && SFltb (f64_mul (f64_lit 3 2) (cost_ n)) emp_cost.

Definition catastrophic_cost n : bool :=
  SFltb (f64_of_Z 100) (shifts_per_insert (counters_ n)) || SFltb (f64_of_Z 100) (expected_avg_shifts_ n).

Definition is_append_mostly_right n : bool :=
  let c := counters_ n in
  SFltb kAppendMostlyThreshold (ratio (num_right_out_of_bounds_inserts_ c) (num_inserts_ c)).

Definition is_append_mostly_left n : bool :=
  let c := counters_ n in
  SFltb kAppendMostlyThreshold (ratio (num_left_out_of_bounds_inserts_ c) (num_inserts_ c)).

(** ** Insert *)

(** The guards and the expansion before an insert: [inl flag] returns
    [{flag, -1}], [inr n] goes on with [n]. *)
Definition prepare_insert n : option (Z + AlexDataNode P) :=
  if (Z.rem (num_inserts_ (counters_ n)) 64 =? 0) && catastrophic_cost n then Some (inl 2)
  else if SFleb (expansion_threshold_ n) (f64_of_Z (num_keys_ (slots_ n))) then
    if significant_cost_deviation n then Some (inl 1)
    else if catastrophic_cost n then Some (inl 2)
    else if SFltb (f64_mul (f64_of_Z (max_slots_ n)) kMinDensity_) (f64_of_Z (num_keys_ (slots_ n)))
    then Some (inl 3)
    else
      let keep_left := is_append_mostly_right n in
      let keep_right := is_append_mostly_left n in
      n ← AlexResize.resize uninit_keys uninit_payloads n kMinDensity_ false keep_left keep_right;
      Some (inr (upd_counters n add_resize))
  else Some (inr n).

(** [num_inserts_++] and the out-of-bounds statistics. *)
Definition count_insert (key : Z) c : Counters :=
  let gt := max_key_ c <? key in
  let lt := key <? min_key_ c in
  mkCounters (num_shifts_ c) (num_exp_search_iterations_ c) (num_lookups_ c) (num_inserts_ c + 1)
    (num_resizes_ c) (if gt then key else max_key_ c) (if lt then key else min_key_ c)
    (if gt then num_right_out_of_bounds_inserts_ c + 1 else num_right_out_of_bounds_inserts_ c)
    (if lt then num_left_out_of_bounds_inserts_ c + 1 else num_left_out_of_bounds_inserts_ c).

(** The insertion into a slot: at a gap, or by shifting; returns the position. *)
Definition insert_at n (key : Z) (payload : P) (insertion_position : Z) : option (Z * AlexDataNode P) :=
  let s := slots_ n in
  e ← (if insertion_position <? data_capacity_ s
       then check_exists (bitmap_ s) insertion_position else Some true);
  if negb e then
    s ← insert_element_at s key payload insertion_position;
    Some (insertion_position, with_slots n s)
  else
    '(pos, d, s) ← insert_using_shifts s key payload insertion_position;
    Some (pos, upd_counters (with_slots n s) (add_shifts d)).

Definition insert (allow_duplicates : bool) n (key : Z) (payload : P)
    : option ((Z * Z) * AlexDataNode P) :=
  prep ← prepare_insert n;
  match prep with
  | inl flag => Some ((flag, -1), n)
  | inr n =>
      '((insertion_position, upper_bound_pos), n) ← find_insert_position n key;
      dup ← (if negb allow_duplicates && (0 <? upper_bound_pos)
             then k ← (key_slots_ (slots_ n)).[upper_bound_pos - 1]; Some (key_equal k key)
             else Some false);
      if dup : bool then Some ((-1, upper_bound_pos - 1), n)
      else
        '(pos, n) ← insert_at n key payload insertion_position;
        let n := with_slots n (with_num_keys (slots_ n) (num_keys_ (slots_ n) + 1)) in
        Some ((0, pos), upd_counters n (count_insert key))
  end.

(** ** Correctness *)

Lemma num_keys_nonneg n : node_ok n -> 0 <= num_keys_ (slots_ n).
Proof. intros [H _ _ _]. rewrite (so_num _ H). apply cnt_nonneg. Qed.

(** *** Why a node refuses an insertion *)

(** The check for a catastrophe is due: every 64 insertions. *)
Definition check_due n : Prop := num_inserts_ (counters_ n) mod 64 = 0.

(** The number of keys has reached the threshold for expanding. *)
Definition full n : Prop := SFleb (expansion_threshold_ n) (f64_of_Z (num_keys_ (slots_ n))) = true.

(** An expansion would exceed the greatest capacity. *)
Definition at_max_capacity n : Prop := SFltb (f64_mul (f64_of_Z (max_slots_ n)) kMinDensity_) (f64_of_Z (num_keys_ (slots_ n))) = true.

(** The documented causes of the three flags: 1 for a full node whose cost deviates
    significantly, 2 for a catastrophic cost, when the check is due or the node is
    full, 3 for a full node at its greatest capacity.  A due check comes first, the
    deviation before the catastrophe, the capacity last. *)
Definition refused n (flag : Z) : Prop :=
  match flag with
  | 1 => full n /\ significant_cost_deviation n = true /\ ~ (check_due n /\ catastrophic_cost n = true)
  | 2 => catastrophic_cost n = true /\ (check_due n \/ full n /\ significant_cost_deviation n = false)
  | 3 => full n /\ at_max_capacity n /\ significant_cost_deviation n = false /\ catastrophic_cost n = false
  | _ => False
  end.

(** A node refuses for one reason. *)
Lemma refused_unique n f g : refused n f -> refused n g -> f = g /\ (f = 1 \/ f = 2 \/ f = 3).
Proof.
  assert (Hf : forall f, refused n f -> f = 1 \/ f = 2 \/ f = 3) by (intros h Hh; destruct h as [|[[]|[]|]|]; simpl in Hh; auto; done).
  intros H1 H2. destruct (Hf f H1) as [->|[->| ->]], (Hf g H2) as [->|[->| ->]]; (split; [|by auto]); unfold refused in *; try done;
    intuition congruence.
Qed.

Lemma check_due_rem n : (Z.rem (num_inserts_ (counters_ n)) 64 =? 0) = true <-> check_due n.
Proof.
  unfold check_due. rewrite Z.eqb_eq, Z.rem_divide, Z.mod_divide by done. done.
Qed.

Local Ltac flagged := eexists; split; [done|]; unfold refused, full, at_max_capacity; intuition congruence.

(** The guards refuse for a documented reason; after them there is none, there is
    room for one more key and the pairs are as before. *)
Lemma prepare_insert_spec n :
  node_ok n -> num_keys_ (slots_ n) < 2 ^ 29 ->
  exists r, prepare_insert n = Some r /\
    match r with
    | inl flag => refused n flag
    | inr n' => (forall flag, ~ refused n flag) /\ node_ok n' /\ contents (slots_ n') = contents (slots_ n) /\
        num_keys_ (slots_ n') = num_keys_ (slots_ n) /\
        num_keys_ (slots_ n') < data_capacity_ (slots_ n')
    end.
Proof.
  intros Hok Hnum. assert (Hcap : capacity_for (num_keys_ (slots_ n)) kMinDensity_ <= 2 ^ 30).
  { apply capacity_for_bound; [by left|]. pose proof (num_keys_nonneg n Hok). lia. }
  unfold prepare_insert. destruct (_ && catastrophic_cost n) eqn:Edue; [apply andb_prop in Edue as [?%check_due_rem ?]; flagged|].
  assert (Hdue : ~ (check_due n /\ catastrophic_cost n = true)) by (intros [Hd%check_due_rem Hc]; by rewrite Hd, Hc in Edue).
  destruct (SFleb _ _) eqn:Efull.
  - destruct (significant_cost_deviation n) eqn:Edev; [flagged|].
    destruct (catastrophic_cost n) eqn:Ecat; [flagged|]. destruct (SFltb _ _) eqn:Emax; [flagged|].
    destruct (AlexResize.resize_spec uninit_keys uninit_payloads n kMinDensity_ false
      (is_append_mostly_right n) (is_append_mostly_left n) Hok Hcap) as (n' & -> & Hok' & Hc & Hn & _ & _ & Hlt).
    cbn [mbind option_bind]. eexists. split; [done|]. split; [|split; [by apply node_ok_upd|done]].
    intros flag Hflag. destruct (refused_unique n flag flag Hflag Hflag) as [_ [->|[->| ->]]]; unfold refused, at_max_capacity in Hflag; intuition congruence.
  - eexists. split; [done|]. split.
    { intros flag Hflag. destruct (refused_unique n flag flag Hflag Hflag) as [_ [->|[->| ->]]]; unfold refused, full in Hflag; intuition congruence. }
    split; [done|]. split; [done|]. split; [done|].
    destruct Hok as [H Hf Hnan Htop]. unfold fits in Hf. pose proof (bo_cap _ _ _ (so_bitmap _ H)).
    pose proof (cnt_bounds (bitv (bitmap_ (slots_ n))) 0 (data_capacity_ (slots_ n)) ltac:(lia)).
    pose proof (so_num _ H).
    by apply (below_threshold _ _ (expansion_threshold_ n)); [lia|lia| | |].
Qed.

(** Everything but the arrays stays; the thresholds keep their relation to the capacity. *)
Lemma node_ok_slots n s :
  node_ok n -> slots_ok s -> data_capacity_ s = data_capacity_ (slots_ n) -> node_ok (with_slots n s).
Proof. intros [? Hf ??] Hs Hc. unfold fits in *. constructor; unfold fits; simpl; rewrite ?Hc; done. Qed.

Lemma inserted_map s s' k v :
  slots_ok s -> node_map s !! k = None -> inserted s k v s' ->
  node_map (with_num_keys s' (num_keys_ s + 1)) = <[k := v]> (node_map s).
Proof.
  intros H Hk (Hs' & _ & _ & Hst). apply node_map_ext; [done|]. intros k' v'.
  change (stored (with_num_keys s' (num_keys_ s + 1)) k' v') with (stored s' k' v').
  rewrite Hst, lookup_insert_Some, node_map_lookup by done. split.
  - intros [[-> ->]|Hst']; [by left|]. right. split; [|done]. intros <-.
    apply (node_map_lookup s k v' H) in Hst'. congruence.
  - intros [[-> ->]|[_ ?]]; auto.
Qed.

(** The insertion proper, once the key is known to be new. *)
Lemma insert_at_spec n key v ip ub :
  node_ok n -> 0 <= key < u64_max -> num_keys_ (slots_ n) < data_capacity_ (slots_ n) ->
  splits (key_greater key) (key_slots_ (slots_ n)) 0 (data_capacity_ (slots_ n)) ub ->
  (0 < ub -> key_at (slots_ n) (ub - 1) <> key) ->
  (ip = ub \/ (ub <= ip < data_capacity_ (slots_ n) /\
      forall i, ub <= i <= ip -> bitv (bitmap_ (slots_ n)) i = false)) ->
  exists pos s' f, insert_at n key v ip = Some (pos, upd_counters (with_slots n s') f) /\
    inserted (slots_ n) key v s' /\ slot_entry s' pos = Some (key, v).
Proof.
  intros Hok Hk Hroom Hub Hnew Hip. pose proof (nk_slots n Hok) as H. unfold insert_at.
  pose proof (ub_range (slots_ n) key ub Hub) as Hr.
  assert (Hgap : ip < data_capacity_ (slots_ n) -> bitv (bitmap_ (slots_ n)) ip = false ->
    exists s', insert_element_at (slots_ n) key v ip = Some s' /\ inserted (slots_ n) key v s' /\
      slot_entry s' ip = Some (key, v)).
  { intros Hlt Hb. apply (insert_into_gap _ _ _ ub); try done.
    - destruct Hip as [->|[? _]]; lia.
    - intros i Hi. destruct Hip as [->|[_ Hg]]; [by replace i with ub by lia|by apply Hg]. }
  assert (Hshift : ip = data_capacity_ (slots_ n) \/ bitv (bitmap_ (slots_ n)) ip = true -> ip = ub).
  { intros Hor. destruct Hip as [->|[Hlt Hg]]; [done|]. destruct Hor as [?|Hb]; [lia|].
    by rewrite Hg in Hb by lia. }
  assert (Hdone : ip = data_capacity_ (slots_ n) \/ bitv (bitmap_ (slots_ n)) ip = true ->
    exists pos d s', insert_using_shifts (slots_ n) key v ip = Some (pos, d, s') /\
      inserted (slots_ n) key v s' /\ slot_entry s' pos = Some (key, v)).
  { intros Hor. pose proof (Hshift Hor) as ->.
    destruct (insert_by_shifting (slots_ n) key v ub H Hk Hub Hnew Hroom Hor) as (pos & d & s' & ? & ? & _ & ?).
    by exists pos, d, s'. }
  destruct (Z.ltb_spec ip (data_capacity_ (slots_ n))) as [Hlt|Hge].
  - rewrite check_exists_spec by (apply bitv_range; [done|]; destruct Hip; lia). cbn [mbind option_bind].
    destruct (bitv (bitmap_ (slots_ n)) ip) eqn:Eb; cbn [negb].
    + destruct (Hdone (or_intror eq_refl)) as (pos & d & s' & -> & ? & ?). cbn [mbind option_bind].
      by exists pos, s', (add_shifts d).
    + destruct (Hgap Hlt eq_refl) as (s' & -> & ? & ?). cbn [mbind option_bind].
      exists ip, s', (fun c => c). by destruct n.
  - cbn [mbind option_bind negb]. destruct Hdone as (pos & d & s' & -> & ? & ?); [left; destruct Hip; lia|].
    cbn [mbind option_bind]. by exists pos, s', (add_shifts d).
Qed.

(** The outcome of an insert: the returned pair, the node before and after. *)
Definition insert_outcome (n n' : AlexDataNode P) (key : Z) (v : P) (flag pos : Z) : Prop :=
  (forall f, refused n f <-> flag = f /\ 0 < f) /\
  match flag with
  | 0 => node_map (slots_ n) !! key = None /\
         node_map (slots_ n') = <[key := v]> (node_map (slots_ n)) /\
         slot_entry (slots_ n') pos = Some (key, v)
  | -1 => node_map (slots_ n') = node_map (slots_ n) /\
          exists w, node_map (slots_ n) !! key = Some w /\ slot_entry (slots_ n') pos = Some (key, w)
  | _ => refused n flag /\ pos = -1 /\ n' = n
  end.

(** Inserting a key other than the sentinel: flag 0 and the map gains exactly the pair, at the returned
    position; flag -1, the map unchanged and the returned position holds the
    key; or flag 1, 2, 3 for its documented cause, and the node untouched. *)
Lemma insert_spec n key v :
  node_ok n -> 0 <= key < u64_max -> num_keys_ (slots_ n) < 2 ^ 29 ->
  exists flag pos n', insert false n key v = Some ((flag, pos), n') /\ node_ok n' /\
    insert_outcome n n' key v flag pos /\ num_keys_ (slots_ n') <= num_keys_ (slots_ n) + 1.
Proof.
  intros Hok Hk Hcap. unfold insert.
  destruct (prepare_insert_spec n Hok Hcap) as ([flag|n1] & -> & Hprep); cbn [mbind option_bind].
  { exists flag, (-1), n. split; [done|]. split; [done|]. split; [|lia].
    destruct (refused_unique n flag flag Hprep Hprep) as [_ Hf]. split.
    - intros f. split; [|by intros [<- _]]. intros H. destruct (refused_unique n flag f Hprep H) as [-> ?]. split; [done|lia].
    - by destruct Hf as [->|[->| ->]]. }
  destruct Hprep as (Hno & Hok1 & Hc & Hnum & Hroom). pose proof (nk_slots n1 Hok1) as H1.
  assert (Hmap : node_map (slots_ n1) = node_map (slots_ n)) by (unfold node_map; by rewrite Hc).
  destruct (find_insert_position_spec n1 key H1 (nk_fits n1 Hok1)) as (ip & ub & it & -> & Hub & Hip).
  cbn [mbind option_bind]. set (n2 := upd_counters n1 _).
  assert (Hok2 : node_ok n2) by (by apply node_ok_upd). change (slots_ n2) with (slots_ n1).
  pose proof (ub_range (slots_ n1) key ub Hub) as Hr.
  assert (Hst := fun w => stored_before_upper (slots_ n1) key w ub H1 ltac:(lia) Hub).
  assert (Hdup : exists b, (if negb false && (0 <? ub)
             then k ← (key_slots_ (slots_ n1)).[ub - 1]; Some (key_equal k key) else Some false) = Some b /\
     (if b : bool then 0 < ub /\ key_at (slots_ n1) (ub - 1) = key else 0 < ub -> key_at (slots_ n1) (ub - 1) <> key)).
  { cbn [negb andb]. destruct (Z.ltb_spec 0 ub); [|by exists false; split; [done|lia]].
    rewrite rd_key by (done || lia). cbn [mbind option_bind]. eexists. split; [done|].
    rewrite key_equal_eqb. by destruct (Z.eqb_spec (key_at (slots_ n1) (ub - 1)) key). }
  destruct Hdup as ([|] & -> & Hb); cbn [mbind option_bind].
  - destruct Hb as [Hpos Hkey]. destruct (payload_at (slots_ n1) (ub - 1) H1 ltac:(lia)) as [w Ew].
    exists (-1), (ub - 1), n2. split; [done|]. split; [done|].
    split; [|change (slots_ n2) with (slots_ n1); lia]. split; [by intros f; split; [intros []%Hno|lia]|]. split; [done|]. exists w.
    rewrite <-Hmap, node_map_lookup, Hst by done. split; [done|]. unfold slot_entry.
    change (slots_ n2) with (slots_ n1).
    rewrite (before_upper_filled _ key ub), rd_key, Ew by (done || lia). simpl. by rewrite Hkey.
  - assert (Hnone : node_map (slots_ n1) !! key = None).
    { apply eq_None_ne_Some. intros w (Hpos & Hkey & _)%node_map_lookup%Hst; [by apply (Hb Hpos)|done]. }
    destruct (insert_at_spec n2 key v ip ub Hok2 Hk Hroom Hub Hb Hip) as (pos & s' & f & -> & Hins & He).
    cbn [mbind option_bind]. exists 0, pos. eexists. split; [done|].
    pose proof Hins as (Hs' & Hcap' & Hn' & _). change (slots_ n2) with (slots_ n1) in *.
    cbn [slots_ upd_counters with_counters with_slots]. rewrite Hn'. split.
    + apply node_ok_upd, (node_ok_upd (with_slots n2 (with_num_keys s' (num_keys_ (slots_ n1) + 1))) f).
      by apply node_ok_slots.
    + split; [|simpl; lia]. split; [by intros g; split; [intros []%Hno|lia]|]. split; [by rewrite <-Hmap|]. split; [|done]. rewrite <-Hmap. by apply inserted_map.
Qed.

End Update.
