(* ===== verification/AlexErase.v ===== *)
(** * ALEX: deletion from a data node (alex/src/alex_nodes.h)

    [erase_one], [erase_one_at], [erase] and [erase_range] with the contraction
    of a sparse node.  All of them clear a run of slots that starts right after
    a filled slot; [cleared] describes the arrays afterwards. *)

From S2P Require Import Prelude Words Floats AlexBase AlexBitmap AlexSearch AlexNode AlexLookup.
From S2P Require Import AlexInsert AlexPlace AlexResize AlexUpdate.
From Stdlib Require Import SpecFloat.
From stdpp Require Import gmap.
Local Open Scope Z_scope.
Local Open Scope cxx_scope.

Section Erase.
Context {P : Type} (uninit_keys : Z -> Z) (uninit_payloads : Z -> P).
Implicit Types (s : Slots P) (n : AlexDataNode P).

(** ** Operations *)

(** [pos == data_capacity_ ? kEndSentinel_ : key_slots_[pos]] *)
Definition key_or_sentinel s (pos : Z) : option Z :=
  if pos =? data_capacity_ s then Some kEndSentinel_ else (key_slots_ s).[pos].

(** [if (num_keys_ < contraction_threshold_) { resize(kMaxDensity_); num_resizes_++; }] *)
Definition contract n : option (AlexDataNode P) :=
  if SFltb (f64_of_Z (num_keys_ (slots_ n))) (contraction_threshold_ n) then
    n ← AlexResize.resize uninit_keys uninit_payloads n kMaxDensity_ false false false;
    Some (upd_counters n add_resize)
  else Some n.

Definition erase_one_at n (pos : Z) : option (AlexDataNode P) :=
  let s := slots_ n in
  next_key ← (if pos =? data_capacity_ s - 1 then Some kEndSentinel_ else (key_slots_ s).[pos + 1]);
  ks ← wr (key_slots_ s) pos next_key;
  bm ← unset_bit (bitmap_ s) pos;
  ks ← overwrite_gaps bm next_key (pos - 1) ks;
  contract (with_slots n (mkSlots ks (payload_slots_ s) (data_capacity_ s) (num_keys_ s - 1) bm (bitmap_size_ s))).

Definition erase_one n (key : Z) : option (Z * AlexDataNode P) :=
  '(pos, n) ← find_lower n key;
  miss ← (if pos =? data_capacity_ (slots_ n) then Some true
          else k ← (key_slots_ (slots_ n)).[pos]; Some (negb (key_equal k key)));
  if miss : bool then Some (0, n)
  else n ← erase_one_at n pos; Some (1, n).

(** [while (pos >= 0 && test(key_slots_[pos])) ...]: overwrite, count, unset. *)
Definition erase_down (test : Z -> bool) (next_key pos : Z) (ks bm : list Z)
    : option (Z * list Z * list Z) :=
  loop (S (Z.to_nat (pos + 1))) (fun '(pos, num_erased, ks, bm) =>
    if 0 <=? pos then
      k ← ks.[pos];
      if test k then
        ks ← wr ks pos next_key;
        e ← check_exists bm pos;
        bm ← unset_bit bm pos;
        Some (inl (pos - 1, num_erased + (if e : bool then 1 else 0), ks, bm))
      else Some (inr (num_erased, ks, bm))
    else Some (inr (num_erased, ks, bm))) (pos, 0, ks, bm).

(** Erase the keys below [pos] that pass the test, then contract. *)
Definition erase_below n (test : Z -> bool) (pos : Z) : option (Z * AlexDataNode P) :=
  let s := slots_ n in
  next_key ← key_or_sentinel s pos;
  '(num_erased, ks, bm) ← erase_down test next_key (pos - 1) (key_slots_ s) (bitmap_ s);
  n ← contract (with_slots n
    (mkSlots ks (payload_slots_ s) (data_capacity_ s) (num_keys_ s - num_erased) bm (bitmap_size_ s)));
  Some (num_erased, n).

Definition erase n (key : Z) : option (Z * AlexDataNode P) :=
  '(pos, n) ← upper_bound n key;
  miss ← (if pos =? 0 then Some true
          else k ← (key_slots_ (slots_ n)).[pos - 1]; Some (negb (key_equal k key)));
  if miss : bool then Some (0, n)
  else erase_below n (fun k => key_equal k key) pos.

Definition erase_range n (start_key end_key : Z) (end_key_inclusive : bool) : option (Z * AlexDataNode P) :=
  '(pos, n) ← (if end_key_inclusive then upper_bound n end_key else lower_bound n end_key);
  if pos =? 0 then Some (0, n)
  else erase_below n (fun k => key_greaterequal start_key k) pos.

(** ** Clearing a run of slots *)

(** The slots strictly between [q] and [p] hold what follows them and are gaps. *)
Record cleared s (q p : Z) (ks bm : list Z) : Prop := {
  cl_range : -1 <= q < p /\ 0 < p <= data_capacity_ s;
  cl_left : 0 <= q -> bitv (bitmap_ s) q = true;
  cl_len : zlen ks = data_capacity_ s;
  cl_bits : zlen bm = zlen (bitmap_ s);
  cl_words : words_ok bm;
  cl_keys : forall j, rd ks j = if (q <? j) && (j <? p) then Some (next_key s (p - 1)) else rd (key_slots_ s) j;
  cl_bit : forall j, bitv bm j = if (q <? j) && (j <? p) then false else bitv (bitmap_ s) j
}.

Definition without s ks bm (num : Z) : Slots P :=
  mkSlots ks (payload_slots_ s) (data_capacity_ s) num bm (bitmap_size_ s).

Lemma next_key_range s i : slots_ok s -> 0 <= i < data_capacity_ s -> 0 <= next_key s i.
Proof.
  intros H Hi. pose proof (key_at_range s i H Hi). pose proof (so_le s H i Hi). lia.
Qed.

Lemma cleared_ok s q p ks bm :
  slots_ok s -> cleared s q p ks bm ->
  slots_ok (without s ks bm (num_keys_ s - cnt (bitv (bitmap_ s)) (q + 1) p)).
Proof.
  intros H [Hr Hq Hl Hbl Hw Hk Hb]. set (s' := without _ _ _ _).
  pose proof (so_bitmap s H) as [Bc Bs Bl Bw Bp].
  assert (Hka : forall i, key_at s' i = if (q <? i) && (i <? p) then next_key s (p - 1) else key_at s i).
  { intros i. unfold key_at, at_, s'. cbn [key_slots_ without]. rewrite Hk. by destruct (_ && _). }
  assert (Hnk : forall i, next_key s' i = if i + 1 <? data_capacity_ s then
      (if (q <? i + 1) && (i + 1 <? p) then next_key s (p - 1) else key_at s (i + 1)) else kEndSentinel_).
  { intros i. rewrite <-Hka. done. }
  assert (Hgood : forall i, 0 <= i < data_capacity_ s -> slot_good (key_at s' i) (next_key s' i) (bitv bm i)).
  { intros i Hi. pose proof (good_old s i H Hi) as Hold. rewrite Hb, Hka, Hnk.
    destruct (Z.lt_trichotomy i q) as [Hi'|[->|Hi']].
    - unfold next_key in Hold. repeat (btest_case; try lia); cbn [andb]; done.
    - assert (Hlt := filled_lt_next s q H Hi (Hq ltac:(lia))).
      replace ((q <? q) && (q <? p)) with false by (repeat (btest_case; try lia); done).
      rewrite Hq by lia. apply good_filled. unfold next_key at 1 in Hlt.
      destruct (Z.ltb_spec (q + 1) (data_capacity_ s)); [|pose proof (next_key_le_sentinel s q H); lia].
      destruct (Z.lt_ge_cases (q + 1) p).
      + pose proof (key_at_le s (q + 1) (p - 1) H ltac:(lia) ltac:(lia)).
        pose proof (so_le s H (p - 1) ltac:(lia)). repeat (btest_case; try lia); cbn [andb]; lia.
      + repeat (btest_case; try lia); cbn [andb]; lia.
    - destruct (Z.lt_ge_cases i p).
      + replace ((q <? i) && (i <? p)) with true by (repeat (btest_case; try lia); done). apply good_gap.
        destruct (Z.lt_ge_cases (i + 1) p); [repeat (btest_case; try lia); cbn [andb]; done|].
        replace (p - 1) with i by lia. unfold next_key. repeat (btest_case; try lia); cbn [andb]; done.
      + unfold next_key in Hold. repeat (btest_case; try lia); cbn [andb]; done. }
  constructor; [|done|exact (so_payloads s H)| | | |].
  - constructor; try done; [unfold s'; simpl; congruence|]. intros i Hi. cbn [bitmap_ s' without]. rewrite Hb.
    cbn [s' without data_capacity_ bitmap_size_] in Hi. rewrite Bp by done. by destruct (_ && _).
  - rewrite Hka. pose proof (so_nonneg s H). pose proof (next_key_range s (p - 1) H ltac:(lia)).
    destruct (_ && _); lia.
  - intros i Hi. by apply Hgood.
  - intros i Hi. by apply Hgood.
  - cbn [s' without num_keys_ bitmap_ data_capacity_]. rewrite (so_num s H).
    rewrite (cnt_split (bitv (bitmap_ s)) 0 (q + 1)), (cnt_split (bitv (bitmap_ s)) (q + 1) p) by lia.
    rewrite (cnt_split (bitv bm) 0 (q + 1)), (cnt_split (bitv bm) (q + 1) p) by lia.
    rewrite (cnt_zero (bitv bm) (q + 1) p), (cnt_ext (bitv bm) (bitv (bitmap_ s)) 0),
      (cnt_ext (bitv bm) (bitv (bitmap_ s)) p); [lia|..]; intros i Hi; rewrite Hb;
      repeat (btest_case; try lia); done.
Qed.

(** If exactly the filled slots of the run pass the test, the others remain. *)
Lemma cleared_stored s q p ks bm num (test : Z -> bool) :
  slots_ok s -> cleared s q p ks bm ->
  (forall i, 0 <= i < data_capacity_ s -> bitv (bitmap_ s) i = true ->
     test (key_at s i) = (q <? i) && (i <? p)) ->
  forall k v, stored (without s ks bm num) k v <-> stored s k v /\ test k = false.
Proof.
  intros H [Hr Hq Hl Hbl Hw Hk Hb] Ht k v. unfold stored.
  cbn [without data_capacity_ key_slots_ payload_slots_ bitmap_]. split.
  - intros (i & Hi & Bi & Ki & Vi). rewrite Hb in Bi. rewrite Hk in Ki.
    destruct ((q <? i) && (i <? p)) eqn:E; [done|]. split; [by exists i|].
    rewrite rd_key in Ki by done. simplify_eq. by rewrite Ht.
  - intros [(i & Hi & Bi & Ki & Vi) Htest]. exists i. rewrite Hb, Hk.
    rewrite rd_key in Ki by done. simplify_eq. rewrite Ht in Htest by done. rewrite Htest.
    by rewrite rd_key.
Qed.

(** The map without the keys that pass the test. *)
Definition map_without (test : Z -> bool) (m : gmap Z P) : gmap Z P :=
  filter (fun kv => test kv.1 = false) m.

Lemma cleared_map s q p ks bm (test : Z -> bool) :
  slots_ok s -> cleared s q p ks bm ->
  (forall i, 0 <= i < data_capacity_ s -> bitv (bitmap_ s) i = true ->
     test (key_at s i) = (q <? i) && (i <? p)) ->
  node_map (without s ks bm (num_keys_ s - cnt (bitv (bitmap_ s)) (q + 1) p)) =
    map_without test (node_map s).
Proof.
  intros H Hc Ht. apply node_map_ext; [by apply cleared_ok|]. intros k v.
  rewrite (cleared_stored s q p ks bm _ test H Hc Ht). unfold map_without.
  rewrite map_lookup_filter_Some, node_map_lookup by done. done.
Qed.

(** ** The loops *)

Lemma contract_spec n :
  node_ok n -> num_keys_ (slots_ n) < 2 ^ 29 ->
  exists n', contract n = Some n' /\ node_ok n' /\ contents (slots_ n') = contents (slots_ n).
Proof.
  intros Hok Hn. unfold contract. destruct (SFltb _ _); [|by exists n].
  destruct (AlexResize.resize_spec uninit_keys uninit_payloads n kMaxDensity_ false false false Hok)
    as (n' & -> & Hok' & Hc & _).
  { apply capacity_for_bound; [by right; right|]. pose proof (num_keys_nonneg n Hok). lia. }
  cbn [mbind option_bind]. eexists. split; [done|]. split; [by apply node_ok_upd|done].
Qed.

Lemma key_or_sentinel_spec s p :
  slots_ok s -> 0 < p <= data_capacity_ s -> key_or_sentinel s p = Some (next_key s (p - 1)).
Proof.
  intros H Hp. unfold key_or_sentinel, next_key. replace (p - 1 + 1) with p by lia.
  destruct (Z.eqb_spec p (data_capacity_ s)); destruct (Z.ltb_spec p (data_capacity_ s)); try lia; [done|].
  apply rd_key; [done|lia].
Qed.

(** [erase_down] clears the maximal run below [p] whose keys pass the test. *)
Lemma erase_down_spec s test p :
  slots_ok s -> 0 < p <= data_capacity_ s ->
  (test (key_at s (p - 1)) = false -> bitv (bitmap_ s) (p - 1) = true) ->
  exists q ks bm, erase_down test (next_key s (p - 1)) (p - 1) (key_slots_ s) (bitmap_ s) =
      Some (cnt (bitv (bitmap_ s)) (q + 1) p, ks, bm) /\
    cleared s q p ks bm /\ (0 <= q -> test (key_at s q) = false) /\
    (forall i, q < i < p -> test (key_at s i) = true).
Proof.
  intros H Hp Hlast. pose proof (cap_bits s H) as Hcb. unfold erase_down.
  set (ok := fun (q : Z) (ks bm : list Z) =>
    zlen ks = data_capacity_ s /\ zlen bm = zlen (bitmap_ s) /\ words_ok bm /\
    (forall j, rd ks j = if (q <? j) && (j <? p) then Some (next_key s (p - 1)) else rd (key_slots_ s) j) /\
    (forall j, bitv bm j = if (q <? j) && (j <? p) then false else bitv (bitmap_ s) j) /\
    (forall i, q < i < p -> test (key_at s i) = true)).
  match goal with |- context [loop _ ?b _] =>
    destruct (loop_spec (fun '(q, num, ks, bm) => -1 <= q < p /\
        num = cnt (bitv (bitmap_ s)) (q + 1) p /\ ok q ks bm)
      (fun '(num, ks, bm) => exists q, -1 <= q < p /\ num = cnt (bitv (bitmap_ s)) (q + 1) p /\
        ok q ks bm /\ (0 <= q -> test (key_at s q) = false))
      (fun '(q, _, _, _) => q + 1) b) with (fuel := S (Z.to_nat (p - 1 + 1)))
      (s := (p - 1, 0, key_slots_ s, bitmap_ s)) as ([[num ks] bm] & E & q & Hq & -> & Hok & Hstop) end.
  - intros [[[q num] ks] bm] (Hq & -> & Hl & Hbl & Hw & Hk & Hb & Ht).
    destruct (Z.leb_spec 0 q); [|exists q; split; [lia|]; split; [done|]; split; [done|lia]].
    rewrite Hk. replace ((q <? q) && (q <? p)) with false by (repeat (btest_case; try lia); done).
    rewrite rd_key by (done || lia). cbn [mbind option_bind].
    destruct (test (key_at s q)) eqn:Et; [|by exists q].
    destruct (wr_in ks q (next_key s (p - 1))) as [ks' Ek]; [lia|]. rewrite Ek. cbn [mbind option_bind].
    rewrite check_exists_spec by lia. cbn [mbind option_bind].
    destruct (unset_bit_spec bm q Hw) as (bm' & Ebm & Hl' & Hw' & Hb'); [lia|].
    rewrite Ebm. cbn [mbind option_bind]. split; [|lia]. split; [lia|].
    rewrite Hb. replace ((q <? q) && (q <? p)) with false by (repeat (btest_case; try lia); done).
    split; [replace (q - 1 + 1) with q by lia; rewrite (cnt_cons _ q p) by lia; destruct (bitv _ q); lia|].
    split; [rewrite (zlen_wr _ _ _ _ Ek); lia|]. split; [lia|]. split; [done|].
    split; [intros j; rewrite (rd_wr _ _ _ _ _ Ek), Hk; repeat (btest_case; try lia); done|].
    split; [intros j; rewrite Hb', Hb; repeat (btest_case; try lia); done|].
    intros i Hi. destruct (Z.eq_dec i q) as [->|]; [done|]. apply Ht. lia.
  - split; [lia|]. split; [by rewrite cnt_empty by lia|].
    split; [by apply so_keys|]. split; [done|]. split; [apply bo_words with (1 := so_bitmap _ H)|].
    split; [intros j; repeat (btest_case; try lia); done|].
    split; [intros j; repeat (btest_case; try lia); done|]. intros; lia.
  - lia.
  - lia.
  - exists q, ks, bm. split; [done|]. destruct Hok as (Hl & Hbl & Hw & Hk & Hb & Ht).
    split; [|done]. constructor; try done. intros Hq0. specialize (Hstop Hq0).
    destruct (Z.eq_dec q (p - 1)) as [->|]; [by apply Hlast|].
    rewrite (so_bit s H q) by lia. specialize (Ht (q + 1) ltac:(lia)).
    pose proof (so_le s H q ltac:(lia)) as Hle. unfold next_key in *.
    destruct (Z.ltb_spec (q + 1) (data_capacity_ s)); [|lia]. apply Z.ltb_lt.
    assert (key_at s q <> key_at s (q + 1)) by congruence. lia.
Qed.

(** ** Correctness *)

Lemma node_map_size s : slots_ok s -> Z.of_nat (size (node_map s)) = num_keys_ s.
Proof.
  intros H. rewrite <-(contents_length s H). unfold node_map, zlen. f_equal.
  apply map_size_list_to_map. by apply increasing_NoDup, contents_increasing.
Qed.

(** [erase_below] removes exactly the filled slots of the run. *)
Lemma erase_below_spec n test p (gone : Z -> bool) :
  node_ok n -> num_keys_ (slots_ n) < 2 ^ 29 -> 0 < p <= data_capacity_ (slots_ n) ->
  (test (key_at (slots_ n) (p - 1)) = false -> bitv (bitmap_ (slots_ n)) (p - 1) = true) ->
  (forall q, -1 <= q < p -> (0 <= q -> test (key_at (slots_ n) q) = false) ->
     (forall i, q < i < p -> test (key_at (slots_ n) i) = true) ->
     forall i, 0 <= i < data_capacity_ (slots_ n) -> bitv (bitmap_ (slots_ n)) i = true ->
       gone (key_at (slots_ n) i) = (q <? i) && (i <? p)) ->
  exists num n', erase_below n test p = Some (num, n') /\ node_ok n' /\
    node_map (slots_ n') = map_without gone (node_map (slots_ n)) /\
    num = num_keys_ (slots_ n) - num_keys_ (slots_ n').
Proof.
  intros Hok Hn Hp Hlast Hgone. pose proof (nk_slots n Hok) as H. unfold erase_below.
  rewrite key_or_sentinel_spec by done. cbn [mbind option_bind].
  destruct (erase_down_spec (slots_ n) test p H Hp Hlast) as (q & ks & bm & -> & Hcl & Hstop & Hrun).
  cbn [mbind option_bind]. pose proof (cl_range _ _ _ _ _ Hcl) as [Hq _].
  set (num := cnt _ (q + 1) p). set (s' := mkSlots _ _ _ _ _ _).
  assert (Hs' : slots_ok s') by (by apply cleared_ok).
  destruct (contract_spec (with_slots n s')) as (n' & -> & Hok' & Hc).
  { by apply node_ok_slots. }
  { cbn. pose proof (cnt_nonneg (bitv (bitmap_ (slots_ n))) (q + 1) p). unfold num. lia. }
  cbn [mbind option_bind]. exists num, n'. split; [done|]. split; [done|]. split.
  - unfold node_map at 1. rewrite Hc. apply (cleared_map (slots_ n) q p ks bm gone H Hcl). by apply Hgone.
  - pose proof (contents_length _ (nk_slots _ Hok')) as E. rewrite Hc in E.
    change (slots_ (with_slots n s')) with s' in E. rewrite <-E, (contents_length s' Hs'). cbn [num_keys_ s']. lia.
Qed.

Lemma map_without_absent test (m : gmap Z P) :
  (forall k v, m !! k = Some v -> test k = false) -> map_without test m = m.
Proof. intros Hm. apply map_filter_id. intros k v Hk. simpl. by eapply Hm. Qed.

Lemma map_without_key key (m : gmap Z P) : map_without (fun k => k =? key) m = delete key m.
Proof.
  apply map_eq. intros k. unfold map_without. apply option_eq. intros v.
  rewrite map_lookup_filter_Some, lookup_delete_Some. simpl. rewrite Z.eqb_neq.
  split; intros [? ?]; split; congruence || done.
Qed.

(** The run that [erase] clears holds the key and nothing else does. *)
Lemma equal_run s key p q :
  slots_ok s -> splits (key_greater key) (key_slots_ s) 0 (data_capacity_ s) p -> -1 <= q < p ->
  (0 <= q -> key_equal (key_at s q) key = false) ->
  (forall i, q < i < p -> key_equal (key_at s i) key = true) ->
  forall i, 0 <= i < data_capacity_ s -> (key_at s i =? key) = (q <? i) && (i <? p).
Proof.
  intros H Hs Hq Hstop Hrun i Hi. apply upper_split in Hs as (Hr & Hlo & Hhi).
  destruct (Z.lt_ge_cases i p) as [Hip|Hip].
  - destruct (Z.lt_ge_cases q i) as [Hqi|Hqi].
    + specialize (Hrun i ltac:(lia)). rewrite key_equal_eqb in Hrun. rewrite Hrun.
      repeat (btest_case; try lia); done.
    + specialize (Hstop ltac:(lia)). rewrite key_equal_eqb in Hstop. btest.
      pose proof (key_at_le s i q H ltac:(lia) ltac:(lia)). specialize (Hlo q ltac:(lia)).
      repeat (btest_case; try lia); done.
  - specialize (Hhi i ltac:(lia)). repeat (btest_case; try lia); done.
Qed.

(** [erase] of any key but the sentinel removes exactly that key from the map. *)
Lemma erase_spec n key :
  node_ok n -> num_keys_ (slots_ n) < 2 ^ 29 -> 0 <= key < u64_max ->
  exists num n', erase n key = Some (num, n') /\ node_ok n' /\
    node_map (slots_ n') = delete key (node_map (slots_ n)) /\
    num = match node_map (slots_ n) !! key with Some _ => 1 | None => 0 end.
Proof.
  intros Hok Hn Hk. pose proof (nk_slots n Hok) as H. unfold erase, upper_bound.
  set (n1 := upd_counters n add_lookup).
  destruct (search_upper_spec n1 key H (nk_fits n Hok)) as (p & it & -> & Hs). cbn [mbind option_bind].
  set (n2 := upd_counters n1 _). assert (Hok2 : node_ok n2) by (by apply node_ok_upd, node_ok_upd).
  change (slots_ n1) with (slots_ n) in Hs. change (slots_ n2) with (slots_ n).
  pose proof (upper_split _ _ _ Hs) as (Hr & Hlo & Hhi).
  assert (Hst := fun w => stored_before_upper (slots_ n) key w p H ltac:(lia) Hs).
  assert (Hnone : (0 < p -> key_at (slots_ n) (p - 1) <> key) -> node_map (slots_ n) !! key = None).
  { intros Hne. apply eq_None_ne_Some. intros v (Hp & Hkey & _)%node_map_lookup%Hst; [|done]. by apply (Hne Hp). }
  destruct (Z.eqb_spec p 0) as [->|Hp0]; cbn [mbind option_bind].
  { exists 0, n2. rewrite Hnone by lia. split; [done|]. split; [done|]. split; [|done].
    change (slots_ n2) with (slots_ n). rewrite delete_id; [done|]. apply Hnone. lia. }
  rewrite rd_key by (done || lia). cbn [mbind option_bind]. rewrite key_equal_eqb.
  destruct (Z.eqb_spec (key_at (slots_ n) (p - 1)) key) as [Ek|Nk]; cbn [negb].
  - destruct (payload_at (slots_ n) (p - 1) H ltac:(lia)) as [w Ew].
    assert (Hw : node_map (slots_ n) !! key = Some w) by (apply node_map_lookup, Hst; [done|split; [lia|done]]).
    destruct (erase_below_spec n2 (fun k => key_equal k key) p (fun k => k =? key) Hok2) as (num & n' & E & Hok' & Hm & Hnum);
      [done|change (slots_ n2) with (slots_ n); lia| | |].
    + change (slots_ n2) with (slots_ n). rewrite key_equal_eqb. by btest_case.
    + intros q Hq Hstop Hrun i Hi Hb. by apply (equal_run (slots_ n) key p q).
    + exists num, n'. rewrite Hw. rewrite map_without_key in Hm. change (slots_ n2) with (slots_ n) in *.
      split; [done|]. split; [done|]. split; [done|]. rewrite Hnum.
      rewrite <-(node_map_size _ H), <-(node_map_size _ (nk_slots _ Hok')), Hm.
      rewrite map_size_delete_Some by eauto. pose proof (map_size_ne_0_lookup_2 _ key ltac:(by eexists; exact Hw)). lia.
  - rewrite (Hnone ltac:(done)). exists 0, n2. split; [done|]. split; [done|].
    change (slots_ n2) with (slots_ n). split; [|done]. rewrite delete_id; [done|]. by apply Hnone.
Qed.

(** The keys [erase_range] is asked to remove. *)
Definition in_range (start_key end_key : Z) (inclusive : bool) (k : Z) : bool :=
  (start_key <=? k) && (if inclusive then k <=? end_key else k <? end_key).

(** Both searches of [erase_range] split the slots at the end of the range. *)
Definition range_split s (end_key : Z) (inclusive : bool) (p : Z) : Prop :=
  0 <= p <= data_capacity_ s /\
  forall i, 0 <= i < data_capacity_ s ->
    (if inclusive then key_at s i <=? end_key else key_at s i <? end_key) = (i <? p).

Lemma range_search n end_key (inclusive : bool) :
  node_ok n -> exists p n', (if inclusive then upper_bound n end_key else lower_bound n end_key) = Some (p, n') /\
    node_ok n' /\ slots_ n' = slots_ n /\ range_split (slots_ n) end_key inclusive p.
Proof.
  intros Hok. pose proof (nk_slots n Hok) as H. unfold upper_bound, lower_bound, range_split.
  set (n1 := upd_counters n add_lookup). destruct inclusive.
  - destruct (search_upper_spec n1 end_key H (nk_fits n Hok)) as (p & it & -> & Hs).
    exists p. eexists. split; [done|]. split; [by apply node_ok_upd, node_ok_upd|]. split; [done|].
    apply upper_split in Hs as (Hr & Hlo & Hhi). split; [done|]. intros i Hi. change (slots_ n1) with (slots_ n) in *.
    destruct (Z.lt_ge_cases i p); [specialize (Hlo i ltac:(lia))|specialize (Hhi i ltac:(lia))];
      repeat (btest_case; try lia); done.
  - destruct (search_lower_spec n1 end_key H (nk_fits n Hok)) as (p & it & -> & Hs).
    exists p. eexists. split; [done|]. split; [by apply node_ok_upd, node_ok_upd|]. split; [done|].
    apply lower_split in Hs as (Hr & Hlo & Hhi). split; [done|]. intros i Hi. change (slots_ n1) with (slots_ n) in *.
    destruct (Z.lt_ge_cases i p); [specialize (Hlo i ltac:(lia))|specialize (Hhi i ltac:(lia))];
      repeat (btest_case; try lia); done.
Qed.

Lemma range_run s start_key end_key inclusive p q :
  slots_ok s -> range_split s end_key inclusive p -> -1 <= q < p ->
  (0 <= q -> key_greaterequal start_key (key_at s q) = false) ->
  (forall i, q < i < p -> key_greaterequal start_key (key_at s i) = true) ->
  forall i, 0 <= i < data_capacity_ s ->
    in_range start_key end_key inclusive (key_at s i) = (q <? i) && (i <? p).
Proof.
  intros H (Hr & Hend) Hq Hstop Hrun i Hi. unfold in_range, key_greaterequal in *. rewrite Hend by done.
  destruct (Z.ltb_spec i p); [|by rewrite !andb_false_r]. rewrite !andb_true_r.
  destruct (Z.lt_ge_cases q i).
  - specialize (Hrun i ltac:(lia)). btest. repeat (btest_case; try lia); done.
  - specialize (Hstop ltac:(lia)). btest. pose proof (key_at_le s i q H ltac:(lia) ltac:(lia)).
    repeat (btest_case; try lia); done.
Qed.

(** The slot before the end of the range is a key, or still to be erased. *)
Lemma range_last s start_key end_key inclusive p :
  slots_ok s -> range_split s end_key inclusive p -> 0 < p -> start_key <= u64_max ->
  key_greaterequal start_key (key_at s (p - 1)) = false -> bitv (bitmap_ s) (p - 1) = true.
Proof.
  intros H (Hr & Hend) Hp Hstart Ht. unfold key_greaterequal in Ht. btest.
  rewrite (so_bit s H) by lia. apply Z.ltb_lt. unfold next_key. replace (p - 1 + 1) with p by lia.
  btest_case; [|change kEndSentinel_ with u64_max; lia].
  pose proof (Hend (p - 1) ltac:(lia)) as E1. pose proof (Hend p ltac:(lia)) as E2.
  destruct inclusive; revert E1 E2; repeat (btest_case; try lia); done.
Qed.

(** C24: [erase_range] is memory safe, keeps the node invariant, removes exactly
    the keys of the range and returns how many there were. *)
Theorem erase_range_correct n start_key end_key inclusive :
  node_ok n -> num_keys_ (slots_ n) < 2 ^ 29 -> start_key <= u64_max ->
  exists num n', erase_range n start_key end_key inclusive = Some (num, n') /\ node_ok n' /\
    node_map (slots_ n') = map_without (in_range start_key end_key inclusive) (node_map (slots_ n)) /\
    num = num_keys_ (slots_ n) - num_keys_ (slots_ n').
Proof.
  intros Hok Hn Hstart. unfold erase_range.
  destruct (range_search n end_key inclusive Hok) as (p & n1 & -> & Hok1 & Hs1 & Hsp). cbn [mbind option_bind].
  pose proof (nk_slots n Hok) as H. destruct Hsp as [Hr Hend].
  destruct (Z.eqb_spec p 0) as [->|Hp0].
  - exists 0, n1. rewrite Hs1. split; [done|]. split; [done|]. split; [|lia]. symmetry.
    apply map_without_absent. intros k v (i & Hi & _ & Ki & _)%node_map_lookup; [|done].
    rewrite rd_key in Ki by done. simplify_eq. unfold in_range. rewrite Hend by done.
    destruct (Z.ltb_spec i 0); [lia|]. by rewrite andb_false_r.
  - destruct (erase_below_spec n1 (fun k => key_greaterequal start_key k) p (in_range start_key end_key inclusive))
      as (num & n' & E & Hok' & Hm & Hnum); rewrite ?Hs1 in *; try done; [lia| | |].
    + apply (range_last _ _ end_key inclusive); done || lia.
    + intros q Hq Hstop Hrun i Hi _. by apply range_run.
    + by exists num, n'.
Qed.

(** [erase_one_at] clears one filled slot and the gaps before it. *)
Lemma erase_one_at_spec n pos :
  node_ok n -> num_keys_ (slots_ n) < 2 ^ 29 -> 0 <= pos < data_capacity_ (slots_ n) ->
  bitv (bitmap_ (slots_ n)) pos = true ->
  exists n', erase_one_at n pos = Some n' /\ node_ok n' /\
    node_map (slots_ n') = delete (key_at (slots_ n) pos) (node_map (slots_ n)).
Proof.
  intros Hok Hn Hpos Hb. pose proof (nk_slots n Hok) as H. pose proof (cap_bits _ H) as Hcb. unfold erase_one_at.
  set (s := slots_ n) in *.
  assert ((if pos =? data_capacity_ s - 1 then Some kEndSentinel_ else (key_slots_ s).[pos + 1]) = Some (next_key s pos)) as ->.
  { unfold next_key. destruct (Z.eqb_spec pos (data_capacity_ s - 1)); btest_case; try lia; [done|].
    apply rd_key; [done|lia]. }
  cbn [mbind option_bind]. destruct (wr_in (key_slots_ s) pos (next_key s pos)) as [ks1 E1]; [rewrite (so_keys _ H); lia|].
  rewrite E1. cbn [mbind option_bind].
  destruct (unset_bit_spec (bitmap_ s) pos (bo_words _ _ _ (so_bitmap _ H))) as (bm & E2 & Hbl & Hbw & Hbit); [lia|].
  rewrite E2. cbn [mbind option_bind]. assert (Hz := zlen_wr _ _ _ _ E1). rewrite (so_keys _ H) in Hz.
  destruct (overwrite_gaps_spec bm (next_key s pos) (pos - 1) ks1) as (ks & q & E3 & Hkl & Hq & Hqf & Hg & Hk); [lia|lia|].
  rewrite E3. cbn [mbind option_bind].
  assert (Hgap : forall i, q < i < pos -> bitv (bitmap_ s) i = false).
  { intros i Hi. specialize (Hg i ltac:(lia)). rewrite Hbit in Hg. by destruct (Z.eqb_spec i pos); [lia|]. }
  assert (Hcl : cleared s q (pos + 1) ks bm).
  { constructor; try done; try lia.
    - intros Hq0. specialize (Hqf Hq0). rewrite Hbit in Hqf. by destruct (Z.eqb_spec q pos); [lia|].
    - intros j. rewrite Hk, (rd_wr _ _ _ _ _ E1). replace (pos + 1 - 1) with pos by lia.
      repeat (btest_case; try lia); done.
    - intros j. rewrite Hbit. destruct (Z.eqb_spec j pos) as [->|]; [repeat (btest_case; try lia); done|].
      destruct ((q <? j) && (j <? pos + 1)) eqn:E; [|done]. btest. apply Hgap. lia. }
  assert (Hcnt : cnt (bitv (bitmap_ s)) (q + 1) (pos + 1) = 1).
  { rewrite cnt_snoc, cnt_zero, Hb by (lia || (intros i Hi; apply Hgap; lia)). done. }
  set (s' := mkSlots _ _ _ _ _ _).
  assert (Hs' : s' = without s ks bm (num_keys_ s - cnt (bitv (bitmap_ s)) (q + 1) (pos + 1)))
    by (by rewrite Hcnt).
  destruct (contract_spec (with_slots n s')) as (n' & -> & Hok' & Hc).
  { apply node_ok_slots; [done| |done]. rewrite Hs'. by apply cleared_ok. }
  { cbn. fold s. lia. }
  exists n'. split; [done|]. split; [done|]. unfold node_map at 1. rewrite Hc.
  change (contents (slots_ (with_slots n s'))) with (contents s'). rewrite Hs', <-map_without_key.
  apply cleared_map; [done|done|]. intros i Hi Bi.
  destruct (Z.eqb_spec (key_at s i) (key_at s pos)) as [Ek|Nk].
  - assert (i = pos) as -> by (destruct (Z.lt_trichotomy i pos) as [?|[?|?]]; [|done|];
      [pose proof (filled_increasing s i pos H ltac:(lia) ltac:(lia) Bi)
      |pose proof (filled_increasing s pos i H ltac:(lia) ltac:(lia) Hb)]; lia).
    repeat (btest_case; try lia); done.
  - assert (~ q < i < pos) by (intros ?; rewrite Hgap in Bi by lia; done).
    assert (i <> pos) by congruence. repeat (btest_case; try lia); done.
Qed.

(** [erase_one] removes the key from the map and reports whether it was
    there, provided its search stays inside the bitmap. *)
Theorem erase_one_correct n key :
  node_ok n -> num_keys_ (slots_ n) < 2 ^ 29 -> 0 <= key < u64_max ->
  (data_capacity_ (slots_ n) mod 64 <> 0 \/ key <= key_at (slots_ n) (data_capacity_ (slots_ n) - 1)) ->
  exists num n', erase_one n key = Some (num, n') /\ node_ok n' /\
    node_map (slots_ n') = delete key (node_map (slots_ n)) /\
    num = match node_map (slots_ n) !! key with Some _ => 1 | None => 0 end.
Proof.
  intros Hok Hn Hk Hroom. pose proof (nk_slots n Hok) as H. unfold erase_one.
  destruct (find_lower_spec n key H (nk_fits n Hok) Hroom) as (pos & it & -> & Hr & Hlo & Hhi).
  cbn [mbind option_bind]. set (n2 := upd_counters _ (add_iterations it)).
  assert (Hok2 : node_ok n2) by (by apply node_ok_upd, node_ok_upd). change (slots_ n2) with (slots_ n).
  assert (Hmiss : (pos < data_capacity_ (slots_ n) -> key_at (slots_ n) pos <> key) -> node_map (slots_ n) !! key = None).
  { intros Hne. apply eq_None_ne_Some. intros v (i & Hi & Bi & Ki & _)%node_map_lookup; [|done].
    rewrite rd_key in Ki by done. simplify_eq.
    destruct (Z.lt_trichotomy i pos) as [?|[->|?]]; [specialize (Hlo i ltac:(lia) Bi); lia|by apply Hne; [lia|]|].
    destruct (Hhi ltac:(lia)) as [Bp Hp]. pose proof (filled_increasing _ pos i H ltac:(lia) ltac:(lia) Bp). lia. }
  assert (Hzero : node_map (slots_ n) !! key = None -> exists num n', Some (0, n2) = Some (num, n') /\ node_ok n' /\
    node_map (slots_ n') = delete key (node_map (slots_ n)) /\
    num = match node_map (slots_ n) !! key with Some _ => 1 | None => 0 end).
  { intros E. exists 0, n2. rewrite E. split; [done|]. split; [done|]. split; [by rewrite delete_id|done]. }
  destruct (Z.eqb_spec pos (data_capacity_ (slots_ n))) as [->|Hne]; cbn [mbind option_bind].
  { apply Hzero, Hmiss. lia. }
  rewrite rd_key by (done || lia). cbn [mbind option_bind]. rewrite key_equal_eqb.
  destruct (Z.eqb_spec (key_at (slots_ n) pos) key) as [Ek|Nk]; cbn [negb]; [|by apply Hzero, Hmiss].
  destruct (Hhi ltac:(lia)) as [Bp _].
  destruct (erase_one_at_spec n2 pos Hok2 Hn ltac:(change (slots_ n2) with (slots_ n); lia) Bp) as (n' & -> & Hok' & Hm).
  cbn [mbind option_bind]. exists 1, n'. split; [done|]. split; [done|].
  change (slots_ n2) with (slots_ n) in Hm. rewrite Ek in Hm. split; [done|].
  destruct (payload_at (slots_ n) pos H ltac:(lia)) as [w Ew].
  assert (node_map (slots_ n) !! key = Some w) as ->; [|done].
  apply node_map_lookup; [done|]. exists pos. split; [lia|]. split; [done|]. rewrite rd_key by (done || lia). by rewrite Ek.
Qed.

End Erase.
