(* ===== verification/AlexDataNode.v ===== *)
(** * ALEX: a data node as a map (alex/src/alex_nodes.h)

    The operations of a data node refine those of a finite map, one by one and
    along any sequence of calls.  [map_step] is the contract a data node offers
    to the tree above it: lookups are exact, an insert either happens, reports
    the existing key or is refused with a flag that asks the tree to split, and
    an erase removes exactly its key. *)

From S2P Require Import Prelude Words Floats AlexBase AlexBitmap AlexSearch AlexNode AlexLookup.
From S2P Require Import AlexInsert AlexPlace AlexResize AlexUpdate AlexErase.
From Stdlib Require Import SpecFloat Sorted.
From stdpp Require Import gmap.
Local Open Scope Z_scope.
Local Open Scope cxx_scope.

(** ** The abstract map *)

Section Contract.
Context {P : Type}.

Inductive node_op :=
| OpFind (key : Z)
| OpInsert (key : Z) (payload : P)
| OpErase (key : Z).

Inductive node_result :=
| RFind (found : option P)
| RInsert (flag : Z)
| RErase (num_erased : Z).

Definition op_key (op : node_op) : Z :=
  match op with OpFind k => k | OpInsert k _ => k | OpErase k => k end.

Inductive map_step : gmap Z P -> node_op -> node_result -> gmap Z P -> Prop :=
| step_find m k : map_step m (OpFind k) (RFind (m !! k)) m
| step_insert m k v : m !! k = None -> map_step m (OpInsert k v) (RInsert 0) (<[k := v]> m)
| step_duplicate m k v w : m !! k = Some w -> map_step m (OpInsert k v) (RInsert (-1)) m
| step_refused m k v flag : flag = 1 \/ flag = 2 \/ flag = 3 -> map_step m (OpInsert k v) (RInsert flag) m
| step_erase m k :
    map_step m (OpErase k) (RErase (match m !! k with Some _ => 1 | None => 0 end)) (delete k m).

Inductive map_steps : gmap Z P -> list node_op -> list node_result -> gmap Z P -> Prop :=
| steps_nil m : map_steps m [] [] m
| steps_cons m m' m'' op ops r rs :
    map_step m op r m' -> map_steps m' ops rs m'' -> map_steps m (op :: ops) (r :: rs) m''.
End Contract.
Arguments node_op : clear implicits.
Arguments node_result : clear implicits.

Section DataNode.
Context {P : Type} (uninit_keys : Z -> Z) (uninit_payloads : Z -> P).
Implicit Types (n : AlexDataNode P).

(** ** Calls on a node *)

Definition exec n (op : node_op P) : option (node_result P * AlexDataNode P) :=
  match op with
  | OpFind k =>
      '(pos, n) ← find_key n k;
      if pos <? 0 then Some (RFind None, n)
      else v ← (payload_slots_ (slots_ n)).[pos]; Some (RFind (Some v), n)
  | OpInsert k v =>
      '((flag, _), n) ← AlexUpdate.insert uninit_keys uninit_payloads false n k v; Some (RInsert flag, n)
  | OpErase k =>
      '(num, n) ← erase uninit_keys uninit_payloads n k; Some (RErase num, n)
  end.

Fixpoint exec_all n (ops : list (node_op P)) : option (list (node_result P) * AlexDataNode P) :=
  match ops with
  | [] => Some ([], n)
  | op :: ops => '(r, n) ← exec n op; '(rs, n) ← exec_all n ops; Some (r :: rs, n)
  end.

Lemma exec_step n op :
  node_ok n -> num_keys_ (slots_ n) < 2 ^ 29 -> 0 <= op_key op < u64_max ->
  exists r n', exec n op = Some (r, n') /\ node_ok n' /\
    map_step (node_map (slots_ n)) op r (node_map (slots_ n')) /\
    num_keys_ (slots_ n') <= num_keys_ (slots_ n) + 1.
Proof.
  intros Hok Hn Hk. destruct op as [k|k v|k]; simpl in Hk |- *.
  - destruct (find_key_spec n k (nk_slots n Hok) (nk_fits n Hok) ltac:(lia)) as (pos & it & -> & Hr).
    cbn [mbind option_bind]. set (n' := upd_counters _ _).
    assert (Hok' : node_ok n') by (by apply node_ok_upd, node_ok_upd).
    destruct (node_map (slots_ n) !! k) as [v|] eqn:E.
    + destruct Hr as (Hpos & _ & _ & Hv). destruct (Z.ltb_spec pos 0); [lia|].
      change (slots_ n') with (slots_ n). rewrite Hv. cbn [mbind option_bind].
      do 2 eexists. split; [done|]. split; [done|]. rewrite <-E. split; [constructor|].
      change (slots_ n') with (slots_ n). lia.
    + subst pos. do 2 eexists. split; [done|]. split; [done|]. rewrite <-E. split; [constructor|].
      change (slots_ n') with (slots_ n). lia.
  - destruct (insert_spec uninit_keys uninit_payloads n k v Hok Hk Hn) as (flag & pos & n' & -> & Hok' & Hout & Hnum).
    cbn [mbind option_bind]. do 2 eexists. split; [done|]. split; [done|]. split; [|done].
    destruct (decide (flag = 0)) as [->|]; [|destruct (decide (flag = -1)) as [->|]].
    + destruct Hout as (_ & Hnone & -> & _). by constructor.
    + destruct Hout as (_ & -> & w & Hw & _). by apply (step_duplicate _ k v w).
    + destruct Hout as [_ Hout]. assert (refused n flag /\ n' = n) as (Hf & ->) by (destruct flag as [|?|[?|?|]]; tauto).
      constructor. by apply (refused_unique n flag flag).
  - destruct (erase_spec uninit_keys uninit_payloads n k Hok Hn Hk) as (num & n' & -> & Hok' & Hm & ->).
    cbn [mbind option_bind]. do 2 eexists. split; [done|]. split; [done|]. rewrite Hm. split; [constructor|].
    rewrite <-(node_map_size _ (nk_slots _ Hok)), <-(node_map_size _ (nk_slots _ Hok')), Hm.
    rewrite map_size_delete. destruct (node_map (slots_ n) !! k); unfold id; lia.
Qed.

(** C2: along any sequence of finds, inserts and erases on keys other than the
    sentinel, a data node is memory safe, terminates, keeps its invariant and
    answers every call as the finite map does, through all the expansions,
    contractions and shifts, whatever its models predict. *)
Theorem data_node_refines_map ops : forall n,
  node_ok n -> num_keys_ (slots_ n) + zlen ops < 2 ^ 29 ->
  Forall (fun op => 0 <= op_key op < u64_max) ops ->
  exists rs n', exec_all n ops = Some (rs, n') /\ node_ok n' /\
    map_steps (node_map (slots_ n)) ops rs (node_map (slots_ n')).
Proof.
  induction ops as [|op ops IH]; intros n Hok Hn Hops.
  - exists [], n. split; [done|]. split; [done|constructor].
  - apply Forall_cons_1 in Hops as [Hop Hops]. unfold zlen in Hn. simpl in Hn.
    destruct (exec_step n op Hok ltac:(lia) Hop) as (r & n1 & E1 & Hok1 & Hs & Hnum).
    destruct (IH n1 Hok1 ltac:(unfold zlen; lia) Hops) as (rs & n' & E2 & Hok' & Hss).
    simpl. rewrite E1. cbn [mbind option_bind]. rewrite E2. cbn [mbind option_bind].
    exists (r :: rs), n'. split; [done|]. split; [done|]. by econstructor.
Qed.

(** ** Each operation *)

(** [find_key] is memory safe and terminates; it returns the filled slot
    that holds the key and its payload when the key is stored and -1 when it is
    not, whatever the model predicts, and changes nothing but counters. *)
Theorem find_key_correct n key :
  node_ok n -> key < u64_max ->
  exists pos n', find_key n key = Some (pos, n') /\ node_ok n' /\ slots_ n' = slots_ n /\
    match node_map (slots_ n) !! key with
    | None => pos = -1
    | Some v => slot_entry (slots_ n) pos = Some (key, v)
    end.
Proof.
  intros Hok Hk. destruct (find_key_spec n key (nk_slots n Hok) (nk_fits n Hok) Hk) as (pos & it & -> & Hr).
  do 2 eexists. split; [done|]. split; [by apply node_ok_upd, node_ok_upd|]. split; [done|].
  destruct (_ !! key); [|done]. destruct Hr as (_ & Hb & Hkey & Hv). unfold slot_entry. by rewrite Hb, Hkey, Hv.
Qed.

(** C13: inserting a key other than the sentinel never accesses memory out of
    bounds, terminates, keeps the node invariant, and has one of the documented
    outcomes: flag 0 and the map gains exactly the pair, at the returned
    position; flag -1, the map unchanged and the returned position holds the
    key; or position -1, the node untouched and a flag that tells why: 1 for a full
    node whose cost deviates significantly, 2 for a catastrophic cost, 3 for a full
    node at its greatest capacity.  An insertion is refused exactly in these cases,
    which are checked in the order of the code. *)
Theorem insert_correct n key v :
  node_ok n -> 0 <= key < u64_max -> num_keys_ (slots_ n) < 2 ^ 29 ->
  exists flag pos n', AlexUpdate.insert uninit_keys uninit_payloads false n key v = Some ((flag, pos), n') /\
    node_ok n' /\ insert_outcome n n' key v flag pos.
Proof.
  intros Hok Hk Hn. destruct (insert_spec uninit_keys uninit_payloads n key v Hok Hk Hn)
    as (flag & pos & n' & ? & ? & ? & _). by exists flag, pos, n'.
Qed.

(** C23: resizing to any of the densities of the code keeps the invariant and the
    stored pairs with their order, and leaves room for one more key; the number
    of keys and the counters do not change. *)
Theorem resize_correct n d force_retrain keep_left keep_right :
  node_ok n -> is_density d -> num_keys_ (slots_ n) < 2 ^ 29 ->
  exists n', AlexResize.resize uninit_keys uninit_payloads n d force_retrain keep_left keep_right = Some n' /\
    node_ok n' /\ contents (slots_ n') = contents (slots_ n) /\
    num_keys_ (slots_ n') = num_keys_ (slots_ n) /\ counters_ n' = counters_ n /\
    num_keys_ (slots_ n') < data_capacity_ (slots_ n').
Proof.
  intros Hok Hd Hn. pose proof (num_keys_nonneg n Hok).
  destruct (AlexResize.resize_spec uninit_keys uninit_payloads n d force_retrain keep_left keep_right Hok)
    as (n' & E & ? & ? & ? & ? & _ & ?); [by apply capacity_for_bound|]. by exists n'.
Qed.

(** C22: bulk loading strictly increasing keys below the sentinel, with a given
    model or a freshly trained one, yields a well-formed node that holds exactly
    the given pairs in order. *)
Theorem bulk_load_correct n values num_keys pretrained :
  0 <= num_keys <= zlen values -> num_keys < 2 ^ 29 ->
  StronglySorted (fun p q => p.1 < q.1) (take (Z.to_nat num_keys) values) ->
  Forall (fun p => 0 <= p.1 < u64_max) (take (Z.to_nat num_keys) values) ->
  exists n', bulk_load uninit_keys uninit_payloads n values num_keys pretrained false = Some n' /\
    node_ok n' /\ contents (slots_ n') = take (Z.to_nat num_keys) values.
Proof.
  intros Hn Hmax Hs Hr. destruct (model_exists values num_keys pretrained Hn) as [m Hm].
  destruct (bulk_load_spec uninit_keys uninit_payloads n values num_keys pretrained m Hm Hn Hs)
    as (n' & E & Hok & Hc & _).
  - intros p Hp. rewrite Forall_forall in Hr. by apply Hr.
  - apply capacity_for_bound; [by right; left|lia].
  - exists n'. split; [exact E|]. split; assumption.
Qed.

(** Loading a node from the slots [left .. right) of another one copies
    exactly the keys of these slots, for every choice of model and placement. *)
Theorem bulk_load_from_existing_correct n s min_key max_key left right keep_left keep_right precomputed :
  slots_ok s -> 0 <= left <= right -> right <= data_capacity_ s -> left < 64 * bitmap_size_ s ->
  zlen (entries s left right) < 2 ^ 29 ->
  (forall m num, precomputed = Some (m, num) -> num = -1 \/ num = zlen (entries s left right)) ->
  exists n', bulk_load_from_existing uninit_keys uninit_payloads n s min_key max_key left right
      keep_left keep_right precomputed = Some n' /\
    node_ok n' /\ contents (slots_ n') = entries s left right.
Proof.
  intros H Hl Hr Hw Hn Hpre. apply bulk_load_from_existing_spec; try done.
  apply capacity_for_bound; [by left|]. pose proof (zlen_nonneg (entries s left right)). lia.
Qed.

(** ** The sentinel key *)

(** The upper bound of the sentinel is the capacity. *)
Lemma sentinel_upper_bound (s : Slots P) p :
  slots_ok s -> splits (key_greater u64_max) (key_slots_ s) 0 (data_capacity_ s) p -> p = data_capacity_ s.
Proof.
  intros H Hs. apply upper_split in Hs as (Hr & _ & Hhi).
  destruct (Z.eq_dec p (data_capacity_ s)); [done|]. specialize (Hhi p ltac:(lia)).
  pose proof (key_at_range s p H ltac:(lia)). lia.
Qed.

(** The key that equals the sentinel cannot be stored: on a node whose last
    slot is a gap and which accepts inserts, inserting it reports a duplicate
    at the last slot although no pair with that key is stored, and looking it
    up returns that gap. *)
Theorem sentinel_key_misreported n v :
  node_ok n -> bitv (bitmap_ (slots_ n)) (data_capacity_ (slots_ n) - 1) = false ->
  prepare_insert uninit_keys uninit_payloads n = Some (inr n) ->
  node_map (slots_ n) !! u64_max = None /\
  (exists n', AlexUpdate.insert uninit_keys uninit_payloads false n u64_max v =
      Some ((-1, data_capacity_ (slots_ n) - 1), n') /\ slots_ n' = slots_ n) /\
  (exists n', find_key n u64_max = Some (data_capacity_ (slots_ n) - 1, n')).
Proof.
  intros Hok Hgap Hprep. pose proof (nk_slots n Hok) as H. pose proof (bo_cap _ _ _ (so_bitmap _ H)) as Hc.
  assert (Hlast : rd (key_slots_ (slots_ n)) (data_capacity_ (slots_ n) - 1) = Some u64_max).
  { rewrite rd_key by (done || lia). rewrite (gap_eq_next _ (data_capacity_ (slots_ n) - 1) H ltac:(lia) Hgap). unfold next_key.
    by replace (data_capacity_ (slots_ n) - 1 + 1) with (data_capacity_ (slots_ n)) by lia; rewrite Z.ltb_irrefl. }
  split; [|split].
  - apply eq_None_ne_Some. intros w (i & Hi & Bi & Ki & _)%node_map_lookup; [|done].
    rewrite rd_key in Ki by done. injection Ki as Ki. pose proof (filled_lt_sentinel _ i H Hi Bi). lia.
  - unfold AlexUpdate.insert. rewrite Hprep. cbn [mbind option_bind].
    destruct (find_insert_position_spec n u64_max H (nk_fits n Hok)) as (ip & ub & it & -> & Hub & _).
    apply sentinel_upper_bound in Hub as ->; [|done]. cbn [mbind option_bind negb andb].
    change (slots_ (upd_counters n (add_iterations it))) with (slots_ n).
    destruct (Z.ltb_spec 0 (data_capacity_ (slots_ n))); [|lia]. rewrite Hlast. cbn [mbind option_bind].
    rewrite key_equal_eqb, Z.eqb_refl. by eexists.
  - unfold find_key. set (n1 := upd_counters n add_lookup).
    destruct (search_upper_spec n1 u64_max H (nk_fits n Hok)) as (p & it & -> & Hs). cbn [mbind option_bind].
    apply sentinel_upper_bound in Hs as ->; [|done]. change (slots_ n1) with (slots_ n).
    change (slots_ (upd_counters n1 (add_iterations it))) with (slots_ n).
    destruct (Z.ltb_spec (data_capacity_ (slots_ n) - 1) 0); [lia|]. rewrite Hlast. cbn [mbind option_bind].
    rewrite Z.eqb_refl. by eexists.
Qed.

End DataNode.

(** ** A concrete node *)

Module Demo.

Definition uninit : Z -> Z := fun _ => 0.

Definition values : list (Z * Z) := [(10, 1); (20, 2); (30, 3); (40, 4); (50, 5)].

(** Sixteen bytes per pair: at most [2^20] slots. *)
Definition blank : AlexDataNode Z := AlexDataNode_default Z 16.

Definition demo : AlexDataNode Z :=
  Eval vm_compute in default blank (bulk_load uninit uninit blank values 5 None false).

Lemma demo_loaded : bulk_load uninit uninit blank values 5 None false = Some demo.
Proof. vm_compute. reflexivity. Qed.

Lemma values_sorted : StronglySorted (fun p q : Z * Z => p.1 < q.1) values.
Proof. repeat constructor. Qed.

Lemma values_range : Forall (fun p : Z * Z => 0 <= p.1 < u64_max) values.
Proof. repeat (apply Forall_cons_2; [split; [discriminate|reflexivity]|]). constructor. Qed.

Lemma demo_ok : node_ok demo.
Proof.
  destruct (model_exists values 5 None) as [m Hm]; [vm_compute; split; discriminate|].
  destruct (bulk_load_spec uninit uninit blank values 5 None m Hm) as (n & E & Hok & _).
  - unfold zlen. simpl. lia.
  - apply values_sorted.
  - intros p Hp. pose proof values_range as Hr. rewrite Forall_forall in Hr. by apply Hr.
  - vm_compute. discriminate.
  - rewrite demo_loaded in E. apply (inj Some) in E. by rewrite E.
Qed.

(** ** The theorems at the concrete node *)

Definition ops : list (node_op Z) :=
  [OpFind 30; OpInsert 35 7; OpInsert 30 8; OpErase 10; OpErase 11; OpInsert 5 9; OpInsert 60 6;
   OpInsert 61 6; OpFind 35; OpErase 35; OpErase 30; OpErase 20; OpErase 5].

(** What the calls return, computed. *)
Lemma ops_results :
  exists n', exec_all uninit uninit demo ops =
    Some ([RFind (Some 3); RInsert 0; RInsert (-1); RErase 1; RErase 0; RInsert 0; RInsert 0;
           RInsert 0; RFind (Some 7); RErase 1; RErase 1; RErase 1; RErase 1], n') /\
    contents (slots_ n') = [(40, 4); (50, 5); (60, 6); (61, 6)] /\
    num_resizes_ (counters_ n') = 4.
Proof. eexists. split; [vm_compute; reflexivity|]. split; vm_compute; reflexivity. Qed.

Lemma data_node_refines_map_witness :
  exists rs n', exec_all uninit uninit demo ops = Some (rs, n') /\ node_ok n' /\
    map_steps (node_map (slots_ demo)) ops rs (node_map (slots_ n')).
Proof.
  apply (data_node_refines_map uninit uninit ops demo).
  - apply demo_ok.
  - vm_compute. reflexivity.
  - repeat (apply Forall_cons_2; [split; [discriminate|reflexivity]|]). constructor.
Defined.

Lemma find_key_correct_witness :
  exists pos n', find_key demo 30 = Some (pos, n') /\ node_ok n' /\ slots_ n' = slots_ demo /\
    match node_map (slots_ demo) !! 30 with
    | None => pos = -1
    | Some v => slot_entry (slots_ demo) pos = Some (30, v)
    end.
Proof. apply (find_key_correct demo 30); [apply demo_ok|reflexivity]. Defined.

Lemma insert_correct_witness :
  exists flag pos n', AlexUpdate.insert uninit uninit false demo 35 7 = Some ((flag, pos), n') /\
    node_ok n' /\ insert_outcome demo n' 35 7 flag pos.
Proof.
  apply (insert_correct uninit uninit demo 35 7);
    [apply demo_ok|split; [discriminate|reflexivity]|vm_compute; reflexivity].
Defined.

Lemma resize_correct_witness :
  exists n', AlexResize.resize uninit uninit demo kMinDensity_ false true false = Some n' /\
    node_ok n' /\ contents (slots_ n') = contents (slots_ demo) /\
    num_keys_ (slots_ n') = num_keys_ (slots_ demo) /\ counters_ n' = counters_ demo /\
    num_keys_ (slots_ n') < data_capacity_ (slots_ n').
Proof.
  apply (resize_correct uninit uninit demo kMinDensity_ false true false);
    [apply demo_ok|by left|vm_compute; reflexivity].
Defined.

Lemma bulk_load_correct_witness :
  exists n', bulk_load uninit uninit blank values 4 None false = Some n' /\
    node_ok n' /\ contents (slots_ n') = take (Z.to_nat 4) values.
Proof.
  apply (bulk_load_correct uninit uninit blank values 4 None).
  - split; [discriminate|vm_compute; discriminate].
  - reflexivity.
  - repeat constructor.
  - repeat (apply Forall_cons_2; [split; [discriminate|reflexivity]|]). constructor.
Defined.

Lemma bulk_load_from_existing_correct_witness :
  exists n', bulk_load_from_existing uninit uninit blank (slots_ demo) 10 50 2 7 false true None = Some n' /\
    node_ok n' /\ contents (slots_ n') = entries (slots_ demo) 2 7.
Proof.
  apply (bulk_load_from_existing_correct uninit uninit blank (slots_ demo) 10 50 2 7 false true None);
    [apply (nk_slots _ demo_ok)|lia|vm_compute; discriminate|vm_compute; reflexivity
    |vm_compute; reflexivity|done].
Defined.

(** The demo node has a gap at its end. *)
Lemma sentinel_key_misreported_witness :
  node_map (slots_ demo) !! u64_max = None /\
  (exists n', AlexUpdate.insert uninit uninit false demo u64_max 1 =
      Some ((-1, data_capacity_ (slots_ demo) - 1), n') /\ slots_ n' = slots_ demo) /\
  (exists n', find_key demo u64_max = Some (data_capacity_ (slots_ demo) - 1, n')).
Proof.
  apply (sentinel_key_misreported uninit uninit demo 1);
    [apply demo_ok|vm_compute; reflexivity|vm_compute; reflexivity].
Defined.

Lemma erase_range_correct_witness :
  exists num n', erase_range uninit uninit demo 20 40 true = Some (num, n') /\ node_ok n' /\
    node_map (slots_ n') = map_without (in_range 20 40 true) (node_map (slots_ demo)) /\
    num = num_keys_ (slots_ demo) - num_keys_ (slots_ n').
Proof.
  apply (erase_range_correct uninit uninit demo 20 40 true);
    [apply demo_ok|vm_compute; reflexivity|discriminate].
Defined.

Lemma erase_one_correct_witness :
  exists num n', erase_one uninit uninit demo 40 = Some (num, n') /\ node_ok n' /\
    node_map (slots_ n') = delete 40 (node_map (slots_ demo)) /\
    num = match node_map (slots_ demo) !! 40 with Some _ => 1 | None => 0 end.
Proof.
  apply (erase_one_correct uninit uninit demo 40);
    [apply demo_ok|vm_compute; reflexivity|split; [discriminate|reflexivity]|left; vm_compute; discriminate].
Defined.

(** Forty-five keys fill one bitmap word: the capacity is 64. *)
Definition values64 : list (Z * Z) := (fun i => (i * i, i)) <$> seqZ 0 45.

Definition node64 : AlexDataNode Z :=
  Eval vm_compute in default blank (bulk_load uninit uninit blank values64 45 None false).

Lemma node64_ok : node_ok node64.
Proof.
  destruct (model_exists values64 45 None) as [m Hm]; [vm_compute; split; discriminate|].
  destruct (bulk_load_spec uninit uninit blank values64 45 None m Hm) as (n & E & Hok & _).
  - vm_compute. split; discriminate.
  - vm_compute. repeat constructor.
  - change (take (Z.to_nat 45) values64) with values64. intros [k v] (i & [= -> ->] & Hi%elem_of_seqZ)%list_elem_of_fmap.
    simpl. unfold u64_max. nia.
  - vm_compute. discriminate.
  - assert (bulk_load uninit uninit blank values64 45 None false = Some node64) as E' by (vm_compute; reflexivity).
    rewrite E' in E. apply (inj Some) in E. by rewrite E.
Qed.

(** Looking for a key above all the others reads [bitmap_[1]] of a bitmap of one word. *)
Lemma find_lower_out_of_bounds_witness : find_lower node64 2000 = None.
Proof.
  apply (find_lower_out_of_bounds node64 2000);
    [apply (nk_slots _ node64_ok)|apply (nk_fits _ node64_ok)|vm_compute; reflexivity|vm_compute; reflexivity].
Defined.

End Demo.
