(* ===== verification/AlexCost.v ===== *)
(** * ALEX: the cost model of a data node (alex/src/alex_base.h, alex/src/alex_nodes.h)

    The accumulators are classes with a common interface, [StatAccumulator];
    the expected cost of a node is computed by placing its keys without
    building it.  [log2] and [pow2] stand for [std::log2] and [std::pow(2, .)],
    whose results the language leaves to the library.

    The theorems show that the estimator puts the keys exactly where
    [bulk_load] does and that the combined accumulator is the product of the
    two simple ones. *)

From S2P Require Import Prelude Words Floats AlexBase AlexBitmap AlexSearch AlexNode AlexLookup.
From S2P Require Import AlexInsert AlexPlace AlexResize AlexUpdate.
From Stdlib Require Import SpecFloat Sorted.
From stdpp Require Import gmap.
Local Open Scope Z_scope.
Local Open Scope cxx_scope.

(** ** Accumulators *)

Class StatAccumulator (A : Type) := accumulate : A -> Z -> Z -> A.

Section Accumulators.
Context (log2 : f64 -> f64).

(** [log2(abs(predicted_position - actual_position) + 1)] *)
Definition log_error (actual_position predicted_position : Z) : f64 :=
  log2 (f64_of_Z (Z.abs (predicted_position - actual_position) + 1)).

Record ExpectedSearchIterationsAccumulator := mkIters {
  cumulative_log_error_ : f64;
  it_count_ : Z
}.

Definition iters_reset : ExpectedSearchIterationsAccumulator := mkIters f64_zero 0.

#[export] Instance iters_accumulate : StatAccumulator ExpectedSearchIterationsAccumulator :=
  fun s actual predicted =>
    mkIters (f64_add (cumulative_log_error_ s) (log_error actual predicted)) (it_count_ s + 1).

Definition iters_get_stat (s : ExpectedSearchIterationsAccumulator) : f64 :=
  if it_count_ s =? 0 then f64_zero else f64_div (cumulative_log_error_ s) (f64_of_Z (it_count_ s)).

#[export] Instance shifts_accumulator : StatAccumulator ExpectedShiftsAccumulator :=
  fun s actual _ => shifts_accumulate s actual.

Record ExpectedIterationsAndShiftsAccumulator := mkBoth {
  both_log_error_ : f64;
  both_last_position_ : Z;
  both_dense_region_start_idx_ : Z;
  both_num_expected_shifts_ : Z;
  both_count_ : Z
}.

Definition both_reset : ExpectedIterationsAndShiftsAccumulator := mkBoth f64_zero (-1) 0 0 0.

#[export] Instance both_accumulate : StatAccumulator ExpectedIterationsAndShiftsAccumulator :=
  fun s actual predicted =>
    let err := f64_add (both_log_error_ s) (log_error actual predicted) in
    let '(start, shifts) :=
      if both_last_position_ s + 1 <? actual then
        let dense_region_length := both_last_position_ s - both_dense_region_start_idx_ s + 1 in
        (actual, both_num_expected_shifts_ s + Z.quot (dense_region_length * dense_region_length) 4)
      else (both_dense_region_start_idx_ s, both_num_expected_shifts_ s) in
    mkBoth err actual start shifts (both_count_ s + 1).

Definition get_expected_num_search_iterations (s : ExpectedIterationsAndShiftsAccumulator) : f64 :=
  if both_count_ s =? 0 then f64_zero else f64_div (both_log_error_ s) (f64_of_Z (both_count_ s)).

Definition get_expected_num_shifts (s : ExpectedIterationsAndShiftsAccumulator) : f64 :=
  if both_count_ s =? 0 then f64_zero
  else
    let dense_region_length := both_last_position_ s - both_dense_region_start_idx_ s + 1 in
    let cur_num_expected_shifts :=
      both_num_expected_shifts_ s + Z.quot (dense_region_length * dense_region_length) 4 in
    f64_div (f64_of_Z cur_num_expected_shifts) (f64_of_Z (both_count_ s)).

(** An accumulator that only records the calls. *)
#[export] Instance trace_accumulate : StatAccumulator (list (Z * Z)) :=
  fun s actual predicted => s ++ [(actual, predicted)].

(** ** Placing without building *)

Section Implicit.
Context {P St A : Type} `{StatAccumulator A} (src : Source P St).

(** [max(0, min(data_capacity - 1, model->predict(key)))] *)
Definition clamped (model : LinearModel) (cap key : Z) : Z := Z.max 0 (Z.min (cap - 1) (predict model key)).

Definition implicit_rest (fuel : nat) (model : LinearModel) (cap : Z) (st : St) (pos : Z) (acc : A) : option A :=
  loop fuel (fun '(st, pos, acc) =>
    if tail_more src st pos then
      '(k, _) ← get src st;
      st ← advance src st;
      Some (inl (st, pos + 1, accumulate acc pos (clamped model cap k)))
    else Some (inr acc)) (st, pos, acc).

Definition implicit_body (model : LinearModel) (cap : Z) '(st, last_position, keys_remaining, acc)
    : option ((St * Z * Z * A) + A) :=
  if more src st then
    '(k, _) ← get src st;
    let predicted := clamped model cap k in
    let actual := Z.max predicted (last_position + 1) in
    if cap - actual <? keys_remaining then
      acc ← implicit_rest (S (Z.to_nat cap)) model cap st (cap - keys_remaining) acc;
      Some (inr acc)
    else
      st ← advance src st;
      Some (inl (st, actual, keys_remaining - 1, accumulate acc actual predicted))
  else Some (inr acc).

Definition build_node_implicit (model : LinearModel) (cap num_keys : Z) (st : St) (acc : A) : option A :=
  loop (S (Z.to_nat cap)) (implicit_body model cap) (st, -1, num_keys, acc).
End Implicit.

(** [values[i]] for [i = 0, step, 2 step, ... < num_keys]. *)
Definition sample_source {P} (values : list (Z * P)) (num_keys step : Z) : Source P Z :=
  mkSource (fun i => i <? num_keys) (fun i _ => i <? num_keys) (fun i => values.[i]) (fun i => Some (i + step)).

(** ** Expected cost *)

Section Cost.
Context {P : Type} (pow2 : f64 -> f64).

(** [DataNodeStats]. *)
Record DataNodeStats := mkStats { num_search_iterations : f64; num_shifts : f64 }.

Definition cost_of (stats : DataNodeStats) (insert_frac : f64) : f64 :=
  f64_add (f64_mul kExpSearchIterationsWeight (num_search_iterations stats))
          (f64_mul (f64_mul kShiftsWeight (num_shifts stats)) insert_frac).

(** The statistics of placing the pairs of a source, with shifts only when
    inserts are expected. *)
Definition implicit_stats {St} (src : Source P St) (model : LinearModel) (cap num_keys : Z) (st : St)
    (expected_insert_frac : f64) : option DataNodeStats :=
  if SFeqb expected_insert_frac f64_zero then
    acc ← build_node_implicit src model cap num_keys st iters_reset;
    Some (mkStats (iters_get_stat acc) f64_zero)
  else
    acc ← build_node_implicit src model cap num_keys st both_reset;
    Some (mkStats (get_expected_num_search_iterations acc) (get_expected_num_shifts acc)).

(** The static [compute_expected_cost] without sampling; the statistics are
    [None] when the code leaves [*stats] alone. *)
Definition compute_expected_cost_exact (values : list (Z * P)) (num_keys : Z) (density expected_insert_frac : f64)
    (existing_model : option LinearModel) : option (f64 * option DataNodeStats) :=
  if num_keys =? 0 then Some (f64_zero, None)
  else
    let cap := capacity_for num_keys density in
    model ← match existing_model with Some m => Some m | None => build_model values num_keys false end;
    let model := expand model (ratio cap num_keys) in
    stats ← implicit_stats (array_source values num_keys) model cap num_keys 0 expected_insert_frac;
    Some (cost_of stats expected_insert_frac, Some stats).

(** [compute_expected_cost_from_existing]. *)
Definition compute_expected_cost_from_existing (s : Slots P) (left right : Z) (density expected_insert_frac : f64)
    (existing_model : option LinearModel) : option (f64 * option DataNodeStats) :=
  '(model, num_actual_keys) ← match existing_model with
    | Some m => num ← num_keys_in_range (bitmap_ s) (bitmap_size_ s) left right; Some (m, num)
    | None => train_range s left right
    end;
  if num_actual_keys =? 0 then Some (f64_zero, None)
  else
    let cap := capacity_for num_actual_keys density in
    let model := expand model (ratio cap num_actual_keys) in
    it ← it_init (bitmap_ s) (bitmap_size_ s) left;
    stats ← implicit_stats (node_source s right cap) model cap num_actual_keys it expected_insert_frac;
    Some (cost_of stats expected_insert_frac, Some stats).

(** The member [compute_expected_cost]: every filled slot against its
    prediction; stores the averages in the node. *)
Definition compute_expected_cost (n : AlexDataNode P) (frac : f64) : option (f64 * AlexDataNode P) :=
  let s := slots_ n in
  if num_keys_ s =? 0 then Some (f64_zero, n)
  else
    it ← it_init (bitmap_ s) (bitmap_size_ s) 0;
    '(iters, shifts) ← loop (S (S (Z.to_nat (data_capacity_ s)))) (fun '(it, iters, shifts) =>
      if is_end it then Some (inr (iters, shifts))
      else
        k ← (key_slots_ s).[cur_idx_ it];
        let predicted := clamped (model_ n) (data_capacity_ s) k in
        let iters := accumulate iters (cur_idx_ it) predicted in
        let shifts := accumulate shifts (cur_idx_ it) predicted in
        it ← it_next (bitmap_ s) (bitmap_size_ s) it;
        Some (inl (it, iters, shifts))) (it, iters_reset, shifts_reset);
    let stats := mkStats (iters_get_stat iters) (shifts_get_stat shifts) in
    Some (cost_of stats frac,
          mkNode s (model_ n) (cost_ n) (expansion_threshold_ n) (contraction_threshold_ n) (max_slots_ n)
            (counters_ n) (num_search_iterations stats) (num_shifts stats)).

(** ** Cost by progressive sampling *)

Record SampleDataNodeStats := mkSample {
  log2_sample_size : f64;
  s_num_search_iterations : f64;
  log2_num_shifts : f64
}.

(** The step size and the size of the first sample. *)
Definition initial_sample (num_keys : Z) : option (Z * Z) :=
  let target := Z.max (f64_to_int (f64_mul (f64_of_Z num_keys) (f64_lit 1 100))) 25 in
  step ← loop 64 (fun '(tmp, step) =>
    if SFleb (f64_of_Z target) tmp then Some (inl (f64_div tmp (f64_of_Z 2), step * 2))
    else Some (inr step)) (f64_of_Z num_keys, 1);
  let step_size := Z.quot step 2 in
  if step_size =? 0 then None else Some (step_size, Z.quot num_keys step_size).

(** One sample of the keys. *)
Definition sample_once (values : list (Z * P)) (num_keys step_size sample_num_keys : Z)
    (density expected_insert_frac : f64) (model : LinearModel) : option SampleDataNodeStats :=
  let cap := capacity_for sample_num_keys density in
  let sample_model := expand model (ratio cap num_keys) in
  let src := sample_source values num_keys step_size in
  if SFeqb expected_insert_frac f64_zero then
    acc ← build_node_implicit src sample_model cap sample_num_keys 0 iters_reset;
    Some (mkSample (log2 (f64_of_Z sample_num_keys)) (iters_get_stat acc) f64_zero)
  else
    acc ← build_node_implicit src sample_model cap sample_num_keys 0 both_reset;
    Some (mkSample (log2 (f64_of_Z sample_num_keys)) (get_expected_num_search_iterations acc)
            (log2 (get_expected_num_shifts acc))).

(** [(y1 - y0) / (x1 - x0) * (x2 - x1) + y1] *)
Definition extrapolate (x0 y0 x1 y1 x2 : f64) : f64 :=
  f64_add (f64_mul (f64_div (f64_sub y1 y0) (f64_sub x1 x0)) (f64_sub x2 x1)) y1.

(** The relative distance of the last sample from the line through the two
    before it is below the threshold. *)
Definition stable (threshold x0 y0 x1 y1 x2 y2 : f64) : bool :=
  SFleb (SFabs (f64_div (f64_sub y2 (extrapolate x0 y0 x1 y1 x2)) y2)) threshold.

(** The checks after a sample: [stats] holds the last three samples, oldest
    first; the state carries the estimates found so far. *)
Definition check_samples (num_keys sample_num_keys : Z) (compute_shifts : bool)
    (s0 s1 s2 : SampleDataNodeStats) '(est_iters, est_shifts) : option f64 * option f64 :=
  let enough := num_keys <=? 2 * sample_num_keys in
  let x := log2 (f64_of_Z num_keys) in
  let est_iters :=
    if stable (f64_lit 2 10) (log2_sample_size s0) (s_num_search_iterations s0)
         (log2_sample_size s1) (s_num_search_iterations s1)
         (log2_sample_size s2) (s_num_search_iterations s2) || enough
    then Some (extrapolate (log2_sample_size s1) (s_num_search_iterations s1)
                 (log2_sample_size s2) (s_num_search_iterations s2) x)
    else est_iters in
  let est_shifts :=
    if compute_shifts &&
       (stable (log2 (f64_add (f64_of_Z 1) (f64_lit 2 10))) (log2_sample_size s0) (log2_num_shifts s0)
          (log2_sample_size s1) (log2_num_shifts s1)
          (log2_sample_size s2) (log2_num_shifts s2) || enough)
    then Some (pow2 (extrapolate (log2_sample_size s1) (log2_num_shifts s1)
                 (log2_sample_size s2) (log2_num_shifts s2) x))
    else est_shifts in
  (est_iters, est_shifts).

(** What the sampling returns once the estimates it needs are there. *)
Definition sampling_result (expected_insert_frac : f64) (est : option f64 * option f64) : option DataNodeStats :=
  match est with
  | (Some iters, est_shifts) =>
      if SFeqb expected_insert_frac f64_zero then Some (mkStats iters (default f64_zero est_shifts))
      else match est_shifts with
           | Some shifts => if SFltb f64_zero expected_insert_frac then Some (mkStats iters shifts) else None
           | None => None
           end
  | _ => None
  end.

(** [compute_expected_cost_sampling]; the loop halves the step size, so 64
    rounds exhaust any [int]. *)
Definition compute_expected_cost_sampling (values : list (Z * P)) (num_keys : Z)
    (density expected_insert_frac : f64) (existing_model : option LinearModel)
    : option (f64 * option DataNodeStats) :=
  if num_keys <? 25 * 2 * 2 * 2 then
    compute_expected_cost_exact values num_keys density expected_insert_frac existing_model
  else
    model ← match existing_model with Some m => Some m | None => build_model values num_keys false end;
    '(step_size, sample_num_keys) ← initial_sample num_keys;
    stats ← loop 64 (fun '(step_size, sample_num_keys, prev, est) =>
      s ← sample_once values num_keys step_size sample_num_keys density expected_insert_frac model;
      let est := match prev with
                 | (Some s0, Some s1) =>
                     check_samples num_keys sample_num_keys (negb (SFeqb expected_insert_frac f64_zero)) s0 s1 s est
                 | _ => est
                 end in
      match sampling_result expected_insert_frac est with
      | Some stats => Some (inr stats)
      | None =>
          let step_size := Z.quot step_size 2 in
          if step_size =? 0 then None
          else Some (inl (step_size, Z.quot num_keys step_size, (prev.2, Some s), est))
      end) (step_size, sample_num_keys, (None, None), (None, None));
    Some (cost_of stats expected_insert_frac, Some stats).

Definition compute_expected_cost_of (values : list (Z * P)) (num_keys : Z) (density expected_insert_frac : f64)
    (existing_model : option LinearModel) (use_sampling : bool) : option (f64 * option DataNodeStats) :=
  if use_sampling
  then compute_expected_cost_sampling values num_keys density expected_insert_frac existing_model
  else compute_expected_cost_exact values num_keys density expected_insert_frac existing_model.

End Cost.
(** ** The accumulators agree *)

(** A sequence of calls [accumulate(actual, predicted)]. *)
Definition accumulate_all {A} `{StatAccumulator A} (acc : A) (calls : list (Z * Z)) : A :=
  foldl (fun acc c => accumulate acc c.1 c.2) acc calls.

(** What the combined accumulator has in common with the two simple ones. *)
Definition in_step (b : ExpectedIterationsAndShiftsAccumulator) (i : ExpectedSearchIterationsAccumulator)
    (s : ExpectedShiftsAccumulator) : Prop :=
  both_log_error_ b = cumulative_log_error_ i /\ both_count_ b = it_count_ i /\ both_count_ b = sh_count_ s /\
  both_last_position_ b = last_position_ s /\ both_dense_region_start_idx_ b = dense_region_start_idx_ s /\
  both_num_expected_shifts_ b = num_expected_shifts_ s.

Lemma in_step_all calls : forall b i s,
  in_step b i s -> in_step (accumulate_all b calls) (accumulate_all i calls) (accumulate_all s calls).
Proof.
  induction calls as [|[actual predicted] calls IH]; intros b i s Hs; [done|]. cbn. apply IH.
  destruct Hs as (H1 & H2 & H3 & H4 & H5 & H6). unfold accumulate, both_accumulate, iters_accumulate,
    shifts_accumulator, shifts_accumulate, in_step. rewrite H4.
  destruct (last_position_ s + 1 <? actual); cbn; rewrite ?H1, ?H2, ?H3, ?H4, ?H5, ?H6; repeat split; congruence.
Qed.

(** After any calls, the combined accumulator reports the search iterations
    of [ExpectedSearchIterationsAccumulator] and the shifts of
    [ExpectedShiftsAccumulator]. *)
Theorem combined_accumulator_agrees calls :
  get_expected_num_search_iterations (accumulate_all both_reset calls) =
    iters_get_stat (accumulate_all iters_reset calls) /\
  get_expected_num_shifts (accumulate_all both_reset calls) =
    shifts_get_stat (accumulate_all shifts_reset calls).
Proof.
  destruct (in_step_all calls both_reset iters_reset shifts_reset) as (H1 & H2 & H3 & H4 & H5 & H6); [done|].
  unfold get_expected_num_search_iterations, iters_get_stat, get_expected_num_shifts, shifts_get_stat.
  by rewrite H1, H4, H5, H6, <-H2, <-H3.
Qed.

(** ** The estimator places the keys where the node does *)

Section Agreement.
Context {P St A : Type} `{StatAccumulator A} (src : Source P St) (model : LinearModel) (cap : Z).
Hypothesis Htail : forall st l pos,
  yields src st l -> pos + zlen l = cap -> tail_more src st pos = (0 <? zlen l).

(** The calls for pairs at given positions. *)
Definition calls_at (ps : list Z) (l : list (Z * P)) : list (Z * Z) :=
  zip ps ((fun p => clamped model cap p.1) <$> l).

Lemma implicit_rest_calls l : forall fuel st pos acc,
  yields src st l -> pos + zlen l = cap -> (length l < fuel)%nat ->
  implicit_rest src fuel model cap st pos acc = Some (accumulate_all acc (calls_at (seqZ pos (zlen l)) l)).
Proof.
  induction l as [|[k v] l IH]; intros [|fuel] st pos acc Hy Hlen Hf; simpl in Hf; try lia;
    unfold implicit_rest; cbn [loop]; rewrite (Htail st _ pos Hy Hlen).
  - done.
  - destruct (Z.ltb_spec 0 (zlen ((k, v) :: l))) as [_|Hle]; [|unfold zlen in Hle; simpl length in Hle; lia].
    inversion_clear Hy as [|? st' ? ? ? Hm Hg Ha Hy']. rewrite Hg. cbn [mbind option_bind].
    rewrite Ha. cbn [mbind option_bind]. rewrite seqZ_zlen_cons. unfold zlen in Hlen. simpl in Hlen.
    fold (implicit_rest src fuel model cap st' (pos + 1) (accumulate acc pos (clamped model cap k))).
    rewrite IH; [done|done|unfold zlen; lia|lia].
Qed.

Lemma implicit_loop_calls l : forall fuel st last acc,
  yields src st l -> -1 <= last -> last + 1 + zlen l <= cap -> (length l < fuel)%nat ->
  loop fuel (implicit_body src model cap) (st, last, zlen l, acc) =
    Some (accumulate_all acc (calls_at (positions model cap last l) l)).
Proof.
  induction l as [|[k v] l IH]; intros [|fuel] st last acc Hy Hlast Hlen Hf; simpl in Hf; try lia.
  - inversion_clear Hy as [? Hm|]. cbn [loop implicit_body]. by rewrite Hm.
  - inversion_clear Hy as [|? st' ? ? ? Hm Hg Ha Hy']. cbn [loop implicit_body]. rewrite Hm, Hg. cbn [mbind option_bind].
    cbn [positions]. unfold zlen in Hlen. simpl in Hlen.
    assert (Hz : zlen ((k, v) :: l) = Z.of_nat (length l) + 1) by (unfold zlen; simpl length; lia).
    set (actual := Z.max (clamped model cap k) (last + 1)).
    set (position := Z.max (predict model k) (last + 1)).
    assert (Hcase : position = actual \/ (cap <= position /\ actual = cap - 1)) by (unfold clamped in *; lia).
    rewrite Hz. destruct (Z.ltb_spec (cap - actual) (Z.of_nat (length l) + 1)) as [Hlt|Hge].
    + rewrite (implicit_rest_calls ((k, v) :: l)); [|by econstructor|lia|simpl; lia]. cbn [mbind option_bind].
      rewrite Hz. destruct (Z.ltb_spec (cap - position) (Z.of_nat (length l) + 1)); [done|lia].
    + rewrite Ha. cbn [mbind option_bind].
      replace (Z.of_nat (length l) + 1 - 1) with (zlen l) by (unfold zlen; lia).
      rewrite IH; [|done|lia|unfold zlen; lia|lia]. f_equal.
      destruct (Z.ltb_spec (cap - position) (Z.of_nat (length l) + 1)) as [Hlt'|Hge'].
      * assert (l = []) as -> by (destruct l; [done|simpl length in *; lia]).
        cbn [length positions]. assert (actual = cap - 1) as -> by lia. done.
      * assert (position = actual) as -> by lia. done.
Qed.

Lemma build_node_implicit_calls l st acc :
  yields src st l -> zlen l <= cap ->
  build_node_implicit src model cap (zlen l) st acc =
    Some (accumulate_all acc (calls_at (positions model cap (-1) l) l)).
Proof.
  intros Hy Hlen. apply implicit_loop_calls; [done|lia|lia|]. unfold zlen in Hlen. lia.
Qed.
End Agreement.

End Accumulators.

Section Estimator.
Context {P : Type} (uninit_keys : Z -> Z) (uninit_payloads : Z -> P).

Lemma positions_length model cap (l : list (Z * P)) : forall last,
  length (positions model cap last l) = length l.
Proof.
  induction l as [|[k v] l IH]; intros last; [done|]. cbn [positions].
  destruct (_ <? _); [rewrite length_seqZ; unfold zlen; lia|]. simpl. by rewrite IH.
Qed.

Lemma trace_all (calls acc : list (Z * Z)) : accumulate_all acc calls = acc ++ calls.
Proof.
  revert acc. induction calls as [|[a p] calls IH]; intros acc; [by rewrite app_nil_r|].
  change (accumulate_all acc ((a, p) :: calls)) with (accumulate_all (acc ++ [(a, p)]) calls).
  by rewrite IH, <-app_assoc.
Qed.

(** The cost estimator evaluates the node that would be built: on the same
    keys, model and capacity, the positions it feeds to its accumulator are, in
    order, the filled slots of the node [bulk_load] creates. *)
Theorem estimator_matches_bulk_load n values num_keys pretrained :
  0 <= num_keys <= zlen values -> num_keys < 2 ^ 29 ->
  StronglySorted (fun p q => p.1 < q.1) (take (Z.to_nat num_keys) values) ->
  Forall (fun p => 0 <= p.1 < u64_max) (take (Z.to_nat num_keys) values) ->
  let cap := capacity_for num_keys kInitDensity_ in
  exists n' model calls,
    bulk_load uninit_keys uninit_payloads n values num_keys pretrained false = Some n' /\
    match pretrained with Some m => Some m | None => build_model values num_keys false end = Some model /\
    build_node_implicit (array_source values num_keys) (expand model (ratio cap num_keys)) cap num_keys 0 [] =
      Some calls /\
    calls.*1 = omap (position_of (bitmap_ (slots_ n'))) (seqZ 0 cap).
Proof.
  intros Hn Hmax Hs Hr cap. destruct (model_exists values num_keys pretrained Hn) as [m Hm].
  destruct (bulk_load_spec uninit_keys uninit_payloads n values num_keys pretrained m Hm Hn Hs)
    as (n' & E & Hok & Hc & Hps).
  - intros p Hp. rewrite Forall_forall in Hr. by apply Hr.
  - apply capacity_for_bound; [by right; left|lia].
  - assert (Hz : zlen (take (Z.to_nat num_keys) values) = num_keys)
      by (unfold zlen in *; rewrite length_take; lia).
    exists n', m, (calls_at (expand m (ratio cap num_keys)) cap
      (positions (expand m (ratio cap num_keys)) cap (-1) (take (Z.to_nat num_keys) values))
      (take (Z.to_nat num_keys) values)).
    split; [exact E|]. split; [exact Hm|]. split.
    + rewrite <-Hz at 3. rewrite (build_node_implicit_calls _ _ cap).
      * by rewrite trace_all.
      * intros st l pos. apply array_tail.
      * by apply array_source_yields.
      * rewrite Hz. pose proof (capacity_for_gt num_keys kInitDensity_). unfold cap. lia.
    + unfold calls_at. rewrite fst_zip; [symmetry; exact Hps|]. by rewrite length_fmap, positions_length.
Qed.
End Estimator.

Lemma estimator_matches_bulk_load_witness :
  let values := [(10, 1); (20, 2); (30, 3); (47, 4); (50, 5)] in
  let cap := capacity_for 5 kInitDensity_ in
  exists n' model calls,
    bulk_load (fun _ => 0) (fun _ => 0) (AlexDataNode_default Z 16) values 5 None false = Some n' /\
    build_model values 5 false = Some model /\
    build_node_implicit (array_source values 5) (expand model (ratio cap 5)) cap 5 0 [] = Some calls /\
    calls.*1 = omap (position_of (bitmap_ (slots_ n'))) (seqZ 0 cap).
Proof.
  apply (estimator_matches_bulk_load (fun _ => 0) (fun _ => 0) (AlexDataNode_default Z 16)
    [(10, 1); (20, 2); (30, 3); (47, 4); (50, 5)] 5 None).
  - split; [discriminate|vm_compute; discriminate].
  - reflexivity.
  - repeat constructor.
  - repeat (apply Forall_cons_2; [split; [discriminate|reflexivity]|]). constructor.
Defined.
