(* ===== verification/AlexCheck.v ===== *)
(** * ALEX: statistics and self-checks of a data node (alex/src/alex_nodes.h)

    [data_size], [num_packed_regions], [validate_structure] and [key_exists].
    A well-formed node always passes [validate_structure]; [key_exists] misses
    the last slot. *)

From S2P Require Import Prelude Words Floats AlexBase AlexBitmap AlexSearch AlexNode AlexLookup.
From S2P Require Import AlexInsert AlexPlace AlexResize AlexUpdate AlexErase AlexDataNode.
From Stdlib Require Import SpecFloat.
From stdpp Require Import gmap.
Local Open Scope Z_scope.
Local Open Scope cxx_scope.

Section Check.
Context {P : Type}.
Implicit Types (s : Slots P) (n : AlexDataNode P).

(** ** Operations *)

(** [sizeof(T)], [sizeof(P)] and [sizeof(uint64_t)] are 8 for this benchmark's keys. *)
Definition data_size s (sizeof_P : Z) : Z :=
  data_capacity_ s * 8 + data_capacity_ s * sizeof_P + bitmap_size_ s * 8.

Definition num_packed_regions s : option Z :=
  first ← check_exists (bitmap_ s) 0;
  '(num_packed, is_packed) ← for_up 1 (data_capacity_ s) (fun i '(num_packed, is_packed) =>
    e ← check_exists (bitmap_ s) i;
    Some (if Bool.eqb e is_packed then (num_packed, is_packed)
          else (if is_packed : bool then num_packed + 1 else num_packed, negb is_packed))) (0, first);
  Some (if is_packed : bool then num_packed + 1 else num_packed).

(** The loop over neighbouring slots; [true] when no rule is broken. *)
Definition validate_neighbours s : option bool :=
  loop (S (Z.to_nat (data_capacity_ s))) (fun i =>
    if i <? data_capacity_ s - 1 then
      a ← (key_slots_ s).[i];
      b ← (key_slots_ s).[i + 1];
      if b <? a then Some (inr false)
      else
        e ← (if a <? b then check_exists (bitmap_ s) i else Some true);
        if negb e then Some (inr false) else Some (inl (i + 1))
    else Some (inr true)) 0.

Definition count_bitmap s : option Z :=
  for_up 0 (bitmap_size_ s) (fun i num => w ← (bitmap_ s).[i]; Some (num + count_ones w)) 0.

Definition validate_structure n : option bool :=
  let s := slots_ n in
  if SFltb (cost_ n) f64_zero || match cost_ n with S754_nan => true | _ => false end then Some false
  else
    ok ← validate_neighbours s;
    if negb ok then Some false
    else
      last ← (key_slots_ s).[data_capacity_ s - 1];
      e ← check_exists (bitmap_ s) (data_capacity_ s - 1);
      if (last =? kEndSentinel_) && e then Some false
      else if negb (last =? kEndSentinel_) && negb e then Some false
      else
        num_bitmap_ones ← count_bitmap s;
        Some (num_bitmap_ones =? num_keys_ s).

Definition key_exists s (key : Z) (validate_bitmap : bool) : option bool :=
  loop (S (Z.to_nat (data_capacity_ s))) (fun i =>
    if i <? data_capacity_ s - 1 then
      k ← (key_slots_ s).[i];
      e ← (if key_equal k key && validate_bitmap then check_exists (bitmap_ s) i else Some true);
      if key_equal k key && e then Some (inr true) else Some (inl (i + 1))
    else Some (inr false)) 0.

(** ** Correctness *)

Lemma validate_neighbours_ok s : slots_ok s -> validate_neighbours s = Some true.
Proof.
  intros H. pose proof (bo_cap _ _ _ (so_bitmap s H)) as Hc.
  unfold validate_neighbours. match goal with |- loop _ ?b _ = _ =>
    destruct (loop_spec (fun i => 0 <= i <= data_capacity_ s) (fun r => r = true)
      (fun i => data_capacity_ s - i) b) with (fuel := S (Z.to_nat (data_capacity_ s))) (s := 0)
      as (r & -> & ->); [|lia|lia|lia|done] end.
  intros i Hi. destruct (Z.ltb_spec i (data_capacity_ s - 1)); [|done].
  rewrite (rd_key s i), (rd_key s (i + 1)) by (done || lia). cbn [mbind option_bind].
  pose proof (so_le s H i ltac:(lia)) as Hle. pose proof (so_bit s H i ltac:(lia)) as Hbit. unfold next_key in *.
  destruct (Z.ltb_spec (i + 1) (data_capacity_ s)); [|lia].
  destruct (Z.ltb_spec (key_at s (i + 1)) (key_at s i)); [lia|].
  destruct (key_at s i <? key_at s (i + 1)) eqn:E; cbn [mbind option_bind].
  - rewrite check_exists_spec by (apply bitv_range; [done|lia]). cbn [mbind option_bind].
    rewrite Hbit. cbn [negb]. lia.
  - cbn [negb]. lia.
Qed.

Lemma count_bitmap_ok s : slots_ok s -> count_bitmap s = Some (num_keys_ s).
Proof.
  intros H. pose proof (so_bitmap s H) as [Hc Hs Hl Hw Hpad]. destruct (cap_words _ _ _ (so_bitmap s H)) as [Hcw _].
  unfold count_bitmap.
  destruct (for_up_spec (fun i num => num = cnt (bitv (bitmap_ s)) 0 (64 * i))
    (fun i num => w ← (bitmap_ s).[i]; Some (num + count_ones w)) 0 (bitmap_size_ s) 0) as (r & -> & ->).
  - rewrite Hs. apply Z.div_pos; lia.
  - by rewrite cnt_empty by lia.
  - intros i num Hi ->. rewrite (rd_word (bitmap_ s) i) by lia. cbn [mbind option_bind]. eexists. split; [done|].
    unfold count_ones. rewrite popcnt_word, (cnt_split _ 0 (64 * i) (64 * (i + 1))) by (done || lia).
    f_equal. f_equal. lia.
  - rewrite (so_num s H), (cnt_split _ 0 (data_capacity_ s) (64 * bitmap_size_ s)) by lia.
    by rewrite (cnt_zero _ (data_capacity_ s)), Z.add_0_r by done.
Qed.

(** A well-formed node with a cost that is a number and not negative always
    passes [validate_structure]. *)
Theorem validate_structure_complete n :
  slots_ok (slots_ n) -> SFltb (cost_ n) f64_zero = false -> cost_ n <> S754_nan ->
  validate_structure n = Some true.
Proof.
  intros H Hcost Hnan. pose proof (bo_cap _ _ _ (so_bitmap _ H)) as Hc. unfold validate_structure. rewrite Hcost.
  replace (match cost_ n with S754_nan => true | _ => false end) with false by (by destruct (cost_ n)).
  cbn [orb]. rewrite validate_neighbours_ok by done. cbn [mbind option_bind negb].
  rewrite rd_key by (done || lia). cbn [mbind option_bind].
  rewrite check_exists_spec by (apply bitv_range; [done|lia]). cbn [mbind option_bind].
  rewrite (so_bit _ H) by lia. unfold next_key.
  replace (data_capacity_ (slots_ n) - 1 + 1) with (data_capacity_ (slots_ n)) by lia. rewrite Z.ltb_irrefl.
  pose proof (key_at_range _ (data_capacity_ (slots_ n) - 1) H ltac:(lia)). change kEndSentinel_ with u64_max.
  rewrite count_bitmap_ok by done. cbn [mbind option_bind]. rewrite Z.eqb_refl.
  repeat (btest_case; try lia); done.
Qed.

(** [key_exists] never looks at the last slot: a key stored there is
    reported missing when the bitmap is consulted. *)
Theorem key_exists_misses_last s :
  slots_ok s -> bitv (bitmap_ s) (data_capacity_ s - 1) = true ->
  (exists v, node_map s !! key_at s (data_capacity_ s - 1) = Some v) /\
  key_exists s (key_at s (data_capacity_ s - 1)) true = Some false.
Proof.
  intros H Hlast. pose proof (bo_cap _ _ _ (so_bitmap _ H)) as Hc. split.
  - destruct (payload_at s (data_capacity_ s - 1) H ltac:(lia)) as [v Hv]. exists v.
    apply node_map_lookup; [done|]. exists (data_capacity_ s - 1). split; [lia|]. split; [done|].
    split; [|done]. apply rd_key; [done|lia].
  - unfold key_exists. match goal with |- loop _ ?b _ = _ =>
      destruct (loop_spec (fun i => 0 <= i <= data_capacity_ s) (fun r => r = false)
        (fun i => data_capacity_ s - i) b) with (fuel := S (Z.to_nat (data_capacity_ s))) (s := 0)
        as (r & -> & ->); [|lia|lia|lia|done] end.
    intros i Hi. destruct (Z.ltb_spec i (data_capacity_ s - 1)); [|done].
    rewrite (rd_key s i) by (done || lia). cbn [mbind option_bind]. rewrite key_equal_eqb, andb_true_r.
    destruct (Z.eqb_spec (key_at s i) (key_at s (data_capacity_ s - 1))) as [E|]; cbn [mbind option_bind andb]; [|lia].
    rewrite check_exists_spec by (apply bitv_range; [done|lia]). cbn [mbind option_bind].
    destruct (bitv (bitmap_ s) i) eqn:Eb; [|lia].
    pose proof (filled_increasing s i (data_capacity_ s - 1) H ltac:(lia) ltac:(lia) Eb). lia.
Qed.

(** The end of a packed region: a filled slot followed by a gap or the end. *)
Definition ends_region s (i : Z) : bool :=
  bitv (bitmap_ s) i && (negb (bitv (bitmap_ s) (i + 1)) || (i + 1 =? data_capacity_ s)).

(** [num_packed_regions] is the number of maximal runs of filled slots. *)
Theorem num_packed_regions_correct s :
  slots_ok s -> num_packed_regions s = Some (cnt (ends_region s) 0 (data_capacity_ s)).
Proof.
  intros H. pose proof (bo_cap _ _ _ (so_bitmap _ H)) as Hc. unfold num_packed_regions.
  rewrite check_exists_spec by (apply bitv_range; [done|lia]). cbn [mbind option_bind].
  match goal with |- context [for_up 1 _ ?b _] =>
    destruct (for_up_spec (fun i '(num, packed) => packed = bitv (bitmap_ s) (i - 1) /\
      num = cnt (ends_region s) 0 (i - 1)) b 1 (data_capacity_ s) (0, bitv (bitmap_ s) 0))
      as ([num packed] & -> & -> & ->); [lia|done| |] end.
  - intros i [num packed] Hi [-> ->]. rewrite check_exists_spec by (apply bitv_range; [done|lia]).
    cbn [mbind option_bind]. eexists. split; [done|]. replace (i + 1 - 1) with (i - 1 + 1) by lia.
    rewrite cnt_snoc by lia.
    assert (ends_region s (i - 1) = bitv (bitmap_ s) (i - 1) && negb (bitv (bitmap_ s) i)) as ->.
    { unfold ends_region. replace (i - 1 + 1) with i by lia.
      destruct (Z.eqb_spec i (data_capacity_ s)); [lia|]. by rewrite orb_false_r. }
    replace (i - 1 + 1) with i by lia. destruct (bitv (bitmap_ s) i), (bitv (bitmap_ s) (i - 1)); simpl; rewrite ?Z.add_0_r; done.
  - cbn [mbind option_bind]. f_equal.
    rewrite (cnt_split (ends_region s) 0 (data_capacity_ s - 1) (data_capacity_ s)) by lia.
    replace (cnt (ends_region s) (data_capacity_ s - 1) (data_capacity_ s))
      with (if ends_region s (data_capacity_ s - 1) then 1 else 0)
      by (rewrite <-cnt_one; f_equal; lia).
    assert (ends_region s (data_capacity_ s - 1) = bitv (bitmap_ s) (data_capacity_ s - 1)) as ->.
    { unfold ends_region. replace (data_capacity_ s - 1 + 1) with (data_capacity_ s) by lia.
      by rewrite Z.eqb_refl, orb_true_r, andb_true_r. }
    destruct (bitv _ _); lia.
Qed.

End Check.

(** ** At the concrete nodes *)

Import Demo.

Lemma validate_structure_complete_witness : validate_structure demo = Some true.
Proof. apply (validate_structure_complete demo); [apply (nk_slots _ demo_ok)|reflexivity|discriminate]. Defined.

Lemma key_exists_misses_last_witness :
  (exists v, node_map (slots_ node64) !! key_at (slots_ node64) (data_capacity_ (slots_ node64) - 1) = Some v) /\
  key_exists (slots_ node64) (key_at (slots_ node64) (data_capacity_ (slots_ node64) - 1)) true = Some false.
Proof. apply (key_exists_misses_last (slots_ node64)); [apply (nk_slots _ node64_ok)|vm_compute; reflexivity]. Defined.

Lemma num_packed_regions_correct_witness :
  num_packed_regions (slots_ demo) = Some (cnt (ends_region (slots_ demo)) 0 (data_capacity_ (slots_ demo))).
Proof. apply (num_packed_regions_correct (slots_ demo)). apply (nk_slots _ demo_ok). Defined.
