(* ===== verification/FloatScale.v ===== *)
(** * Scaling doubles by powers of two

    Multiplying by a power of two commutes with rounded multiplication and addition as
    long as nothing underflows or overflows: mantissas stay the same and exponents
    move.  A model node that is expanded scales its linear model in this way. *)

From S2P Require Import Prelude Words Floats AlexBase.
From Stdlib Require Import SpecFloat.
Local Open Scope Z_scope.

(** The number with the exponent moved by [k]. *)
Definition f_scale (k : Z) (x : f64) : f64 :=
  match x with
  | S754_finite s m e => S754_finite s m (e + k)
  | _ => x
  end.

(** Zero, or finite with an exponent between [lo] and [hi]. *)
Definition exp_in (lo hi : Z) (x : f64) : Prop :=
  match x with
  | S754_finite _ _ e => lo <= e <= hi
  | S754_zero _ => True
  | _ => False
  end.

(** Zero, or finite with an exponent of at most [hi]. *)
Definition exp_le (hi : Z) (x : f64) : Prop :=
  match x with
  | S754_finite _ _ e => e <= hi
  | S754_zero _ => True
  | _ => False
  end.

Lemma exp_in_weaken lo hi lo' hi' x : exp_in lo hi x -> lo' <= lo -> hi <= hi' -> exp_in lo' hi' x.
Proof. destruct x; simpl; lia || done. Qed.

Lemma exp_in_le lo hi hi' x : exp_in lo hi x -> hi <= hi' -> exp_le hi' x.
Proof. destruct x; simpl; lia || done. Qed.

(** ** Rounding *)

Lemma Zdigits2_nonneg m : 0 <= m -> 0 <= Zdigits2 m.
Proof. destruct m as [|p|p]; cbn [Zdigits2]; lia. Qed.

Lemma shr_fexp_scale m e l k : 0 <= m -> -1022 <= e -> 0 <= k ->
  shr_fexp 53 1024 m (e + k) l = let '(r, e') := shr_fexp 53 1024 m e l in (r, e' + k).
Proof.
  intros Hm He Hk. unfold shr_fexp. pose proof (Zdigits2_nonneg m Hm).
  assert (Hf : fexp 53 1024 (Zdigits2 m + (e + k)) - (e + k) = fexp 53 1024 (Zdigits2 m + e) - e \/
    fexp 53 1024 (Zdigits2 m + (e + k)) - (e + k) <= 0 /\ fexp 53 1024 (Zdigits2 m + e) - e <= 0) by (unfold fexp, emin; lia).
  unfold shr. destruct Hf as [->|[H1 H2]].
  - destruct (fexp 53 1024 (Zdigits2 m + e) - e); f_equal; lia.
  - destruct (fexp 53 1024 (Zdigits2 m + (e + k)) - (e + k)); [|lia|]; destruct (fexp 53 1024 (Zdigits2 m + e) - e); done || lia.
Qed.

Lemma round_nearest_even_nonneg m l : 0 <= m -> 0 <= round_nearest_even m l.
Proof. intros Hm. unfold round_nearest_even. destruct l as [|[]]; try lia. destruct (Z.even m); lia. Qed.

Lemma shr_fexp_low m e l r e' : 0 <= m -> shr_fexp 53 1024 m e l = (r, e') -> e <= e' /\ 0 <= shr_m r.
Proof. intros Hm E. apply shr_fexp_m in E as (-> & _ & H); [|done]. split; [lia|done]. Qed.

Lemma round_aux_scale s m e l k : 0 <= m -> -1022 <= e -> 0 <= k -> exp_le (971 - k) (binary_round_aux 53 1024 s m e l) ->
  binary_round_aux 53 1024 s m (e + k) l = f_scale k (binary_round_aux 53 1024 s m e l).
Proof.
  intros Hm He Hk. unfold binary_round_aux. rewrite shr_fexp_scale by done. destruct (shr_fexp 53 1024 m e l) as [r1 e1] eqn:E1.
  apply shr_fexp_low in E1 as [L1 P1]; [|done]. rewrite shr_fexp_scale by (try apply round_nearest_even_nonneg; lia).
  destruct (shr_fexp 53 1024 (round_nearest_even (shr_m r1) (loc_of_shr_record r1)) e1 loc_Exact) as [r2 e2] eqn:E2.
  destruct (shr_m r2) as [|p|p]; [done| |done]. destruct (Z.leb_spec e2 (1024 - 53)) as [H|H]; cbn [exp_le f_scale]; [|done].
  intros Hb. destruct (Z.leb_spec (e2 + k) (1024 - 53)); [done|lia].
Qed.

(** The exponent of a rounded number. *)
Lemma round_aux_exp s m e l : 0 <= m -> -1022 <= e -> e + 2 * Zdigits2 m + 2 <= 971 ->
  exp_in e (e + 2 * Zdigits2 m + 2) (binary_round_aux 53 1024 s m e l).
Proof.
  intros Hm He Hhi. unfold binary_round_aux. destruct (shr_fexp 53 1024 m e l) as [r1 e1] eqn:E1. pose proof (Zdigits2_nonneg m Hm) as Hd.
  apply shr_fexp_m in E1 as (He1 & Hr1 & Hp1); [|done].
  assert (Hle1 : shr_m r1 <= m) by (rewrite Hr1; apply Z.div_le_upper_bound; [apply Z.pow_pos_nonneg; lia|]; assert (0 < 2 ^ (e1 - e)) by (apply Z.pow_pos_nonneg; lia); nia).
  set (m2 := round_nearest_even _ _). assert (Hm2 : 0 <= m2 <= m + 1).
  { unfold m2, round_nearest_even. destruct (loc_of_shr_record r1) as [|[]]; try lia. destruct (Z.even _); lia. }
  assert (Hd2 : Zdigits2 m2 <= Zdigits2 m + 1).
  { apply Zdigits2_le; [|lia]. destruct m as [|q|q]; [|clear -Hm2|lia].
    - simpl. lia.
    - cbn [Zdigits2]. rewrite digits2_pos_log2. pose proof (Z.log2_spec (Z.pos q) ltac:(lia)) as [_ Hq]. pose proof (Z.log2_nonneg (Z.pos q)).
      replace (Z.log2 (Z.pos q) + 1 + 1) with (Z.succ (Z.succ (Z.log2 (Z.pos q)))) by lia. rewrite (Z.pow_succ_r 2 (Z.succ _)) by lia. lia. }
  clearbody m2. destruct (shr_fexp 53 1024 m2 e1 loc_Exact) as [r2 e2] eqn:E2. apply shr_fexp_m in E2 as (He2 & Hr2 & Hp2); [|lia].
  assert (Hb : e <= e2 <= e + 2 * Zdigits2 m + 2) by (unfold fexp, emin in *; lia).
  destruct (shr_m r2) as [|p|p]; [done| |lia]. destruct (Z.leb_spec e2 (1024 - 53)) as [H|H]; cbn [exp_in]; lia.
Qed.

(** ** Multiplication *)

Lemma mul_scale x y k : 0 <= k -> exp_in (-900) 500 x -> exp_in (-100) 200 y ->
  exp_le (971 - k) (f64_mul x y) -> f64_mul (f_scale k x) y = f_scale k (f64_mul x y).
Proof.
  intros Hk Hx Hy H. destruct x as [sx|sx| |sx mx ex], y as [sy|sy| |sy my ey]; try done. cbn [exp_in] in *. unfold f64_mul, SFmul in *. cbn [f_scale].
  replace (ex + k + ey) with (ex + ey + k) by lia. apply round_aux_scale; [lia|lia|done|done].
Qed.

(** ** Addition *)

Lemma shl_align_scale m e e' k : shl_align m (e + k) (e' + k) = let '(m', e1) := shl_align m e e' in (m', e1 + k).
Proof. unfold shl_align. replace (e' + k - (e + k)) with (e' - e) by lia. by destruct (e' - e). Qed.

Lemma normalize_scale z e k : -952 <= e -> 0 <= k -> exp_le (971 - k) (binary_normalize 53 1024 z e false) ->
  binary_normalize 53 1024 z (e + k) false = f_scale k (binary_normalize 53 1024 z e false).
Proof.
  intros He Hk. assert (Hround : forall s p, exp_le (971 - k) (binary_round 53 1024 s p e) ->
    binary_round 53 1024 s p (e + k) = f_scale k (binary_round 53 1024 s p e)).
  { intros s p. unfold binary_round. replace (fexp 53 1024 (Z.pos (digits2_pos p) + (e + k))) with (fexp 53 1024 (Z.pos (digits2_pos p) + e) + k)
      by (unfold fexp, emin; lia).
    rewrite shl_align_scale. destruct (shl_align p e _) as [mz ez] eqn:E. intros H. apply round_aux_scale; [lia| |done|done].
    unfold shl_align in E. destruct (fexp 53 1024 (Z.pos (digits2_pos p) + e) - e) eqn:Ef; injection E as _ <-; [lia|lia|]. unfold fexp, emin in *. lia. }
  destruct z as [|p|p]; cbn [binary_normalize]; [done|apply Hround..].
Qed.

Lemma add_scale x y k : 0 <= k -> exp_in (-952) 971 x -> exp_in (-952) 971 y -> exp_le (971 - k) (f64_add x y) ->
  f64_add (f_scale k x) (f_scale k y) = f_scale k (f64_add x y).
Proof.
  intros Hk Hx Hy H. destruct x as [sx|sx| |sx mx ex], y as [sy|sy| |sy my ey]; try done; cbn [exp_in] in *.
  - unfold f64_add, SFadd. cbn [f_scale]. by destruct sx, sy.
  - unfold f64_add, SFadd in *. cbn [f_scale]. replace (Z.min (ex + k) (ey + k)) with (Z.min ex ey + k) by lia.
    assert (Hfst : forall m e e', fst (shl_align m (e + k) (e' + k)) = fst (shl_align m e e')).
    { intros m e e'. rewrite shl_align_scale. by destruct (shl_align m e e'). }
    rewrite !Hfst. apply normalize_scale; [lia|done|done].
Qed.

(** ** The powers of two *)

Lemma shr_exact p n : iter_pos shr_1 n (Build_shr_record (Zpos p * 2 ^ Zpos n) false false) = Build_shr_record (Zpos p) false false.
Proof.
  revert p. induction n as [n IH|n IH|]; intros p; cbn [iter_pos].
  - assert (E : Z.pos p * 2 ^ Z.pos n~1 = Z.pos (p * 2 ^ n * 2 ^ n)~0).
    { rewrite (Pos2Z.inj_xI n), (Pos2Z.inj_xO (_ * _)), !Pos2Z.inj_mul, !Pos2Z.inj_pow.
      replace (2 * Z.pos n + 1) with (1 + (Z.pos n + Z.pos n)) by lia. rewrite !Z.pow_add_r by lia. lia. }
    rewrite E. cbn [shr_1 orb]. rewrite Pos2Z.inj_mul, Pos2Z.inj_pow, IH. rewrite Pos2Z.inj_mul, Pos2Z.inj_pow, IH. done.
  - replace (Z.pos p * 2 ^ Z.pos n~0) with (Z.pos (p * 2 ^ n) * 2 ^ Z.pos n).
    + by rewrite IH, Pos2Z.inj_mul, Pos2Z.inj_pow, IH.
    + rewrite (Pos2Z.inj_xO n), Pos2Z.inj_mul, Pos2Z.inj_pow. replace (2 * Z.pos n) with (Z.pos n + Z.pos n) by lia. rewrite Z.pow_add_r by lia. lia.
  - change (2 ^ 1) with 2. rewrite Z.mul_comm. done.
Qed.

(** [2 ^ k] as a [double]. *)
Lemma f64_of_pow2 k : 0 <= k <= 30 -> f64_of_Z (2 ^ k) = S754_finite false (2 ^ 52) (k - 52).
Proof.
  intros Hk. assert (H : exists j : nat, (j <= 30)%nat /\ k = Z.of_nat j) by (exists (Z.to_nat k); lia). destruct H as (j & Hj & ->). clear Hk.
  do 31 (destruct j as [|j]; [vm_compute; reflexivity|]). lia.
Qed.

(** A double with all its bits in use. *)
Definition normal (x : f64) : Prop :=
  match x with
  | S754_finite _ m _ => Zpos (digits2_pos m) = 53
  | S754_zero _ => True
  | _ => False
  end.

Lemma mul_pow2 x k : 0 <= k <= 30 -> normal x -> exp_in (-900) 500 x -> f64_mul x (f64_of_Z (2 ^ k)) = f_scale k x.
Proof.
  intros Hk Hn Hx. rewrite f64_of_pow2 by done. destruct x as [s|s| |s m e]; [by destruct s| done|done|]. cbn [normal exp_in f_scale] in *.
  unfold f64_mul, SFmul. rewrite xorb_false_r. unfold binary_round_aux.
  assert (Hd : Zdigits2 (Z.pos (m * 2 ^ 52)) = 105).
  { cbn [Zdigits2]. rewrite digits2_pos_log2 in *. rewrite Pos2Z.inj_mul, Pos2Z.inj_pow, Z.log2_mul_pow2 by lia. lia. }
  assert (Hs1 : shr_fexp 53 1024 (Z.pos (m * 2 ^ 52)) (e + (k - 52)) loc_Exact = (Build_shr_record (Z.pos m) false false, e + k)).
  { unfold shr_fexp. rewrite Hd. replace (fexp 53 1024 (105 + (e + (k - 52))) - (e + (k - 52))) with 52 by (unfold fexp, emin; lia).
    cbn [shr shr_record_of_loc]. rewrite Pos2Z.inj_mul, Pos2Z.inj_pow, shr_exact. f_equal. lia. }
  rewrite Hs1. cbn [shr_m loc_of_shr_record round_nearest_even].
  assert (Hs2 : shr_fexp 53 1024 (Z.pos m) (e + k) loc_Exact = (Build_shr_record (Z.pos m) false false, e + k)).
  { unfold shr_fexp. cbn [Zdigits2]. rewrite Hn. replace (fexp 53 1024 (53 + (e + k)) - (e + k)) with 0 by (unfold fexp, emin; lia). done. }
  rewrite Hs2. cbn [shr_m]. destruct (Z.leb_spec (e + k) (1024 - 53)); [done|lia].
Qed.

(** ** Scaled models *)

(** Coefficients far from the limits of the format. *)
Definition mid_range (x : f64) : Prop := normal x /\ exp_in (-900) 500 x.

Lemma f64_of_Z_range z : 0 <= z < 2 ^ 64 -> exp_in (-100) 200 (f64_of_Z z) /\
  match f64_of_Z z with S754_finite _ m _ => Zpos m < 2 ^ 53 | _ => True end.
Proof.
  intros Hz. unfold f64_of_Z. destruct z as [|p|p]; cbn [binary_normalize]; [done| |lia]. unfold binary_round.
  assert (Hd : 1 <= Z.pos (digits2_pos p) <= 64).
  { split; [lia|]. apply (Zdigits2_le (Z.pos p) 64); lia. }
  destruct (shl_align p 0 _) as [mz ez] eqn:E.
  assert (Hez : -52 <= ez <= 0 /\ Zdigits2 (Z.pos mz) <= 64).
  { unfold shl_align in E. destruct (fexp 53 1024 (Z.pos (digits2_pos p) + 0) - 0) as [|q|q] eqn:Ef; injection E as <- <-; [cbn [Zdigits2]; lia|cbn [Zdigits2]; lia|].
    split; [unfold fexp, emin in *; lia|]. rewrite iter_xO. apply Zdigits2_le; [|lia].
    rewrite digits2_pos_log2 in *. pose proof (Z.log2_spec (Z.pos p) ltac:(lia)) as [_ Hq].
    assert (Hle : Z.log2 (Z.pos p) + 1 + Z.pos q <= 64) by (unfold fexp, emin in *; lia).
    assert (0 < 2 ^ Z.pos q) by (apply Z.pow_pos_nonneg; lia). split; [lia|].
    apply Z.lt_le_trans with (2 ^ Z.succ (Z.log2 (Z.pos p)) * 2 ^ Z.pos q); [nia|].
    rewrite <-Z.pow_add_r by (pose proof (Z.log2_nonneg (Z.pos p)); lia). apply Z.pow_le_mono_r; lia. }
  split.
  - eapply exp_in_weaken; [apply round_aux_exp; [lia|lia|]|lia|]; cbn [Zdigits2] in *; lia.
  - destruct (binary_round_aux 53 1024 false (Z.pos mz) ez loc_Exact) as [| | |s m e] eqn:Er; try done. by apply round_mantissa in Er.
Qed.

Lemma digits_product a b : Zpos a < 2 ^ 53 -> Zpos b < 2 ^ 53 -> Zdigits2 (Zpos (a * b)) <= 106.
Proof. intros Ha Hb. apply Zdigits2_le; [|lia]. rewrite Pos2Z.inj_mul. change (2 ^ 106) with (2 ^ 53 * 2 ^ 53). nia. Qed.

Lemma normal_small m : Zpos (digits2_pos m) = 53 -> Zpos m < 2 ^ 53.
Proof. rewrite digits2_pos_log2. intros H. apply Z.log2_lt_cancel. rewrite Z.log2_pow2 by lia. lia. Qed.

Lemma product_range x z : mid_range x -> 0 <= z < 2 ^ 64 -> exp_in (-952) 914 (f64_mul x (f64_of_Z z)).
Proof.
  intros [Hn Hx] Hz. unfold f64_of_Z. destruct (f64_of_Z_range z Hz) as [Hy Hm]. unfold f64_of_Z in *.
  assert (Hlow : match binary_normalize 53 1024 z 0 false with S754_finite _ _ e => -52 <= e | _ => True end).
  { destruct z as [|p|p]; cbn [binary_normalize]; [done| |lia]. unfold binary_round. destruct (shl_align p 0 _) as [mz ez] eqn:E.
    assert (Hez : -52 <= ez).
    { unfold shl_align in E. destruct (fexp 53 1024 (Z.pos (digits2_pos p) + 0) - 0) as [|q|q] eqn:Ef; injection E as _ <-; unfold fexp, emin in *; lia. }
    unfold binary_round_aux. destruct (shr_fexp 53 1024 (Z.pos mz) ez loc_Exact) as [r1 e1] eqn:E1. apply shr_fexp_low in E1 as [L1 P1]; [|lia].
    destruct (shr_fexp 53 1024 (round_nearest_even (shr_m r1) (loc_of_shr_record r1)) e1 loc_Exact) as [r2 e2] eqn:E2.
    apply shr_fexp_low in E2 as [L2 _]; [|by apply round_nearest_even_nonneg]. destruct (shr_m r2); [done| |done].
    destruct (e2 <=? 1024 - 53); [lia|done]. }
  destruct x as [sx|sx| |sx mx ex], (binary_normalize 53 1024 z 0 false) as [sy|sy| |sy my ey]; try done. cbn [exp_in normal] in *.
  unfold f64_mul, SFmul. pose proof (digits_product mx my (normal_small mx Hn) Hm).
  eapply exp_in_weaken; [apply round_aux_exp; [lia|lia|]|lia|]; lia.
Qed.

(** A number that truncates to an [int] has a small exponent. *)
Lemma trunc_exp y z : f64_trunc y = Some z -> Z.abs z < 2 ^ 31 -> exp_le 31 y.
Proof.
  destruct y as [s|s| |s m e]; cbn [f64_trunc exp_le]; [done..|]. intros [= <-] Hz. destruct (Z.leb_spec 0 e) as [He|]; [|lia].
  destruct (Z.le_gt_cases e 31) as [|Hgt]; [done|]. assert (2 ^ 31 <= 2 ^ e) by (apply Z.pow_le_mono_r; lia). destruct s; cbn [cond_Zopp] in Hz; nia.
Qed.

(** Truncation of a scaled number. *)
Lemma trunc_scale y k z : 0 <= k -> f64_trunc y = Some z -> exists z', f64_trunc (f_scale k y) = Some z' /\
  (0 < z -> z' / 2 ^ k = z) /\ (z = 0 -> z' < 2 ^ k /\ - 2 ^ k < z') /\ (z < 0 -> - z' / 2 ^ k = - z).
Proof.
  intros Hk Hy. assert (Hp : 0 < 2 ^ k) by (apply Z.pow_pos_nonneg; lia).
  destruct y as [s|s| |s m e]; cbn [f64_trunc f_scale] in *; [|done|done|]; injection Hy as <-; eexists; (split; [reflexivity|]); [lia|].
  set (v := if 0 <=? e then Z.pos m * 2 ^ e else Z.pos m / 2 ^ (- e)). set (w := if 0 <=? e + k then _ else _).
  assert (Hv : 0 <= v).
  { unfold v. destruct (Z.leb_spec 0 e); [lia|]. apply Z.div_pos; [lia|]. apply Z.pow_pos_nonneg; lia. }
  assert (Hw : w / 2 ^ k = v /\ 0 <= w).
  { unfold v, w. destruct (Z.leb_spec 0 (e + k)), (Z.leb_spec 0 e); try lia.
    - rewrite Z.pow_add_r, Z.mul_assoc, Z.div_mul by lia. split; [done|lia].
    - assert (0 < 2 ^ (- e)) by (apply Z.pow_pos_nonneg; lia). split; [|lia]. replace (2 ^ k) with (2 ^ (e + k) * 2 ^ (- e)) by (rewrite <-Z.pow_add_r by lia; f_equal; lia).
      rewrite (Z.mul_comm (Z.pos m)). apply Z.div_mul_cancel_l; [lia|]. apply Z.pow_nonzero; lia.
    - assert (0 < 2 ^ (- (e + k))) by (apply Z.pow_pos_nonneg; lia). split; [|apply Z.div_pos; lia].
      rewrite Z.div_div by lia. rewrite <-Z.pow_add_r by lia. do 2 f_equal. lia. }
  clearbody v w. destruct Hw as [Hw Hw0]. assert (Hlt : v = 0 -> w < 2 ^ k) by (intros ->; apply Z.div_small_iff in Hw; lia).
  destruct s; cbn [cond_Zopp]; repeat split; intros; rewrite ?Z.opp_involutive; try lia.
Qed.

(** ** Subtraction and division *)

(** A tighter bound on the exponent of a rounded number, and on its underflow. *)
Lemma round_aux_le s m e l : 0 <= m -> -1022 <= e -> Z.max e (Zdigits2 m + e - 53) + 1 <= 971 ->
  exp_le (Z.max e (Zdigits2 m + e - 53) + 1) (binary_round_aux 53 1024 s m e l).
Proof.
  intros Hm He Hhi. unfold binary_round_aux. destruct (shr_fexp 53 1024 m e l) as [r1 e1] eqn:E1.
  apply shr_fexp_m in E1 as (He1 & Hr1 & Hp1); [|done]. pose proof (Zdigits2_nonneg m Hm) as Hd.
  assert (E1 : e1 = Z.max e (Zdigits2 m + e - 53)) by (unfold fexp, emin in *; lia).
  assert (Hq : 0 < 2 ^ (e1 - e)) by (apply Z.pow_pos_nonneg; lia).
  assert (Hm1 : Zdigits2 (shr_m r1) <= 53).
  { apply Zdigits2_le; [|lia]. split; [done|]. rewrite Hr1. apply Z.div_lt_upper_bound; [done|]. rewrite <-Z.pow_add_r by lia.
    destruct m as [|p|p]; [apply Z.pow_pos_nonneg; lia| |lia]. cbn [Zdigits2] in *. rewrite digits2_pos_log2 in *.
    pose proof (Z.log2_spec (Z.pos p) ltac:(lia)) as [_ Hp]. eapply Z.lt_le_trans; [exact Hp|]. apply Z.pow_le_mono_r; lia. }
  set (m2 := round_nearest_even _ _). assert (Hd2 : Zdigits2 m2 <= 54 /\ 0 <= m2).
  { assert (Hm2 : 0 <= m2 <= shr_m r1 + 1).
    { unfold m2, round_nearest_even. destruct (loc_of_shr_record r1) as [|[]]; try lia. destruct (Z.even _); lia. }
    split; [|lia]. apply Zdigits2_le; [|lia]. destruct (shr_m r1) as [|p|p] eqn:Er; [cbn in *; lia| |lia]. cbn [Zdigits2] in Hm1. rewrite digits2_pos_log2 in Hm1.
    pose proof (Z.log2_spec (Z.pos p) ltac:(lia)) as [_ Hp]. assert (2 ^ Z.succ (Z.log2 (Z.pos p)) <= 2 ^ 53) by (apply Z.pow_le_mono_r; lia). lia. }
  clearbody m2. destruct Hd2 as [Hd2 Hm2]. destruct (shr_fexp 53 1024 m2 e1 loc_Exact) as [r2 e2] eqn:E2. apply shr_fexp_m in E2 as (He2 & _ & Hp2); [|done].
  assert (He2' : e2 <= e1 + 1) by (unfold fexp, emin in *; lia).
  destruct (shr_m r2) as [|p|p]; [done| |lia]. destruct (Z.leb_spec e2 (1024 - 53)); cbn [exp_le]; lia.
Qed.

Lemma normalize_le z e : -952 <= e -> Z.max (-1074) (Zdigits2 (Z.abs z) + e - 53) + 1 <= 971 ->
  exp_le (Z.max (-1074) (Zdigits2 (Z.abs z) + e - 53) + 1) (binary_normalize 53 1024 z e false).
Proof.
  intros He Hhi. assert (Hround : forall s p, Z.abs z = Zpos p -> exp_le (Z.max (-1074) (Zdigits2 (Z.abs z) + e - 53) + 1) (binary_round 53 1024 s p e)).
  { intros s p Hp. rewrite Hp in *. cbn [Zdigits2] in *. set (d := Z.pos (digits2_pos p)) in *. assert (1 <= d) by (unfold d; lia).
    unfold binary_round. destruct (shl_align p e (fexp 53 1024 (Z.pos (digits2_pos p) + e))) as [mz ez] eqn:E.
    assert (Hez : Zdigits2 (Zpos mz) + ez = d + e /\ -1022 <= ez /\ ez <= Z.max (-1074) (d + e - 53)).
    { unfold shl_align in E. fold d in E. destruct (fexp 53 1024 (d + e) - e) as [|q|q] eqn:Ef; injection E as <- <-.
      - cbn [Zdigits2]. fold d. unfold fexp, emin in Ef. lia.
      - cbn [Zdigits2]. fold d. unfold fexp, emin in Ef. lia.
      - cbn [Zdigits2]. rewrite digits2_pos_log2, iter_xO, Z.log2_mul_pow2 by lia. unfold d in *. rewrite digits2_pos_log2 in *. unfold fexp, emin in *. lia. }
    destruct Hez as (H1 & H2 & H3).
    pose proof (round_aux_le s (Zpos mz) ez loc_Exact ltac:(lia) H2) as Hr.
    assert (Hmax : Z.max ez (Zdigits2 (Zpos mz) + ez - 53) <= Z.max (-1074) (d + e - 53)) by lia. specialize (Hr ltac:(lia)).
    destruct (binary_round_aux 53 1024 s (Zpos mz) ez loc_Exact); cbn [exp_le] in *; lia || done. }
  destruct z as [|p|p]; cbn [binary_normalize]; [done|by apply Hround..].
Qed.

(** A mantissa of at most 53 bits. *)
Definition mantissa53 (x : f64) : Prop := match x with S754_finite _ m _ => Zpos m < 2 ^ 53 | _ => True end.

Lemma normal_mantissa x : normal x -> mantissa53 x.
Proof. destruct x; cbn; [done..|]. apply normal_small. Qed.

Lemma shl_align_fst m e ez : ez <= e -> Zpos (fst (shl_align m e ez)) = Zpos m * 2 ^ (e - ez).
Proof.
  intros H. unfold shl_align. destruct (ez - e) as [|q|q] eqn:E; [replace (e - ez) with 0 by lia; cbn; lia|lia|].
  cbn [fst]. rewrite iter_xO. do 2 f_equal. lia.
Qed.

Lemma sub_scale x y k : 0 <= k <= 400 -> mantissa53 x -> mantissa53 y -> exp_in (-952) 560 x -> exp_in (-952) 560 y ->
  f64_sub (f_scale k x) (f_scale k y) = f_scale k (f64_sub x y).
Proof.
  intros Hk Mx My Hx Hy. destruct x as [sx|sx| |sx mx ex], y as [sy|sy| |sy my ey]; try done; cbn [exp_in mantissa53] in *.
  - unfold f64_sub, SFsub. cbn [f_scale]. by destruct sx, sy.
  - unfold f64_sub, SFsub. cbn [f_scale]. replace (Z.min (ex + k) (ey + k)) with (Z.min ex ey + k) by lia.
    assert (Hfst : forall m e e', fst (shl_align m (e + k) (e' + k)) = fst (shl_align m e e')).
    { intros m e e'. rewrite shl_align_scale. by destruct (shl_align m e e'). }
    rewrite !Hfst. apply normalize_scale; [lia|lia|]. set (z := cond_Zopp _ _ - cond_Zopp _ _).
    assert (Hd : Zdigits2 (Z.abs z) + Z.min ex ey <= 54 + Z.max ex ey).
    { enough (Zdigits2 (Z.abs z) <= 54 + Z.max ex ey - Z.min ex ey) by lia. apply Zdigits2_le; [|lia]. split; [lia|].
      assert (Hone : forall s m e, Zpos m < 2 ^ 53 -> Z.min ex ey <= e <= Z.max ex ey ->
        Z.abs (cond_Zopp s (Zpos (fst (shl_align m e (Z.min ex ey))))) < 2 ^ (53 + Z.max ex ey - Z.min ex ey)).
      { intros s m e Hm Hr. assert (Hp : 0 < 2 ^ (e - Z.min ex ey)) by (apply Z.pow_pos_nonneg; lia).
        replace (Z.abs (cond_Zopp s (Z.pos (shl_align m e (Z.min ex ey)).1))) with (Z.pos (shl_align m e (Z.min ex ey)).1) by (by destruct s).
        rewrite shl_align_fst by lia.
        apply Z.lt_le_trans with (2 ^ 53 * 2 ^ (e - Z.min ex ey)); [nia|]. rewrite <-Z.pow_add_r by lia. apply Z.pow_le_mono_r; lia. }
      pose proof (Hone sx mx ex Mx ltac:(lia)). pose proof (Hone sy my ey My ltac:(lia)).
      replace (54 + Z.max ex ey - Z.min ex ey) with (Z.succ (53 + Z.max ex ey - Z.min ex ey)) by lia. rewrite Z.pow_succ_r by lia. unfold z.
      enough (Hab : forall u v w, Z.abs u < w -> Z.abs v < w -> Z.abs (u - v) < 2 * w) by (by apply Hab). lia. }
    pose proof (normalize_le z (Z.min ex ey) ltac:(lia) ltac:(lia)) as Hn. clearbody z.
    destruct (binary_normalize 53 1024 z (Z.min ex ey) false); cbn [exp_le] in *; [done|destruct Hn|done|lia].
Qed.

(** Scaling both operands of a quotient does nothing. *)
Lemma div_scale x y k : f64_div (f_scale k x) (f_scale k y) = f64_div x y.
Proof.
  destruct x as [sx|sx| |sx mx ex], y as [sy|sy| |sy my ey]; try done. cbn [f_scale]. unfold f64_div, SFdiv, SFdiv_core_binary.
  replace (Z.pos (digits2_pos mx) + (ex + k) - (Z.pos (digits2_pos my) + (ey + k))) with (Z.pos (digits2_pos mx) + ex - (Z.pos (digits2_pos my) + ey)) by lia.
  cbn [Zdigits2]. replace (Z.pos (digits2_pos mx) + (ex + k) - (Z.pos (digits2_pos my) + (ey + k))) with (Z.pos (digits2_pos mx) + ex - (Z.pos (digits2_pos my) + ey)) by lia.
  by replace (ex + k - (ey + k)) with (ex - ey) by lia.
Qed.

(** Small integers scale exactly. *)
Lemma f64_of_Z_scale z k : 0 <= z -> 0 <= k -> z * 2 ^ k < 2 ^ 52 -> f64_of_Z (z * 2 ^ k) = f_scale k (f64_of_Z z).
Proof.
  intros Hz Hk Hsmall. destruct z as [|p|p]; [done| |lia]. assert (Hp : 0 < 2 ^ k) by (apply Z.pow_pos_nonneg; lia).
  destruct (f64_of_pos p) as (m & -> & Hm); [nia|]. destruct (Z.pos p * 2 ^ k) as [|q|q] eqn:Eq; [lia| |lia].
  destruct (f64_of_pos q) as (m' & -> & Hm'); [lia|]. pose proof (Z.log2_mul_pow2 (Z.pos p) k ltac:(lia) Hk) as El. rewrite Eq in El.
  assert (Hl : Z.log2 (Z.pos q) < 52) by (apply Z.log2_lt_pow2; lia). cbn [f_scale]. rewrite El in *.
  f_equal; [|lia]. apply (inj Zpos). rewrite Hm, Hm', <-Eq, <-Z.mul_assoc, <-Z.pow_add_r by lia. do 2 f_equal. lia.
Qed.
