(* ===== verification/FloatMono.v ===== *)
(** * Rounded arithmetic is monotone

    Rounding to nearest preserves the order, so that the prediction of a linear model with
    a positive slope is a non-decreasing function of the key, rounding included.

    A finite double is compared through [val], its value in units of [2 ^ -1100]. *)

From S2P Require Import Prelude Words Floats AlexBase FloatScale.
From Stdlib Require Import SpecFloat.
Local Open Scope Z_scope.

Lemma pow2_pos n : 0 <= n -> 0 < 2 ^ n.
Proof. intros. by apply Z.pow_pos_nonneg. Qed.

(** ** Rounding an integer to a multiple of a power of two *)

(** Divide by [2 ^ n] and round to nearest, ties to even. *)
Definition rne (m n : Z) : Z :=
  let q := m / 2 ^ n in
  q + match 2 * (m mod 2 ^ n) ?= 2 ^ n with Lt => 0 | Eq => if Z.even q then 0 else 1 | Gt => 1 end.

(** To 53 significant bits. *)
Definition rounded (m : Z) : Z := let k := Z.max 0 (Zdigits2 m - 53) in rne m k * 2 ^ k.

Lemma rne_bounds m n : 0 <= n -> m / 2 ^ n <= rne m n <= m / 2 ^ n + 1.
Proof. intros Hn. unfold rne. destruct (_ ?= _); [destruct (Z.even _)|..]; lia. Qed.

Lemma rne_mono m m' n : 0 <= n -> m <= m' -> rne m n <= rne m' n.
Proof.
  intros Hn Hle. pose proof (pow2_pos n Hn) as Hp. pose proof (Z.div_le_mono m m' (2 ^ n) Hp Hle) as Hq.
  destruct (Z.eq_dec (m / 2 ^ n) (m' / 2 ^ n)) as [E|].
  - unfold rne. rewrite <-E. pose proof (Z.div_mod m (2 ^ n) ltac:(lia)). pose proof (Z.div_mod m' (2 ^ n) ltac:(lia)). rewrite <-E in *.
    assert (Hr : m mod 2 ^ n <= m' mod 2 ^ n) by lia.
    destruct (Z.compare_spec (2 * (m mod 2 ^ n)) (2 ^ n)), (Z.compare_spec (2 * (m' mod 2 ^ n)) (2 ^ n)); destruct (Z.even (m / 2 ^ n)); lia.
  - pose proof (rne_bounds m n Hn). pose proof (rne_bounds m' n Hn). lia.
Qed.

Lemma rne_exact m n k : 0 <= k <= n -> rne (m * 2 ^ n) k = m * 2 ^ (n - k).
Proof.
  intros Hk. pose proof (pow2_pos k ltac:(lia)). unfold rne. replace (m * 2 ^ n) with (m * 2 ^ (n - k) * 2 ^ k) by (rewrite <-Z.mul_assoc, <-Z.pow_add_r by lia; do 2 f_equal; lia).
  rewrite Z.div_mul, Z.mod_mul by lia. destruct (Z.compare_spec (2 * 0) (2 ^ k)); lia.
Qed.

Lemma rne_scale m n j : 0 <= n -> 0 <= j -> rne (m * 2 ^ j) (n + j) = rne m n.
Proof.
  intros Hn Hj. pose proof (pow2_pos n Hn). pose proof (pow2_pos j Hj). unfold rne. rewrite Z.pow_add_r by lia.
  rewrite Z.div_mul_cancel_r, Z.mul_mod_distr_r by lia.
  replace (2 * (m mod 2 ^ n * 2 ^ j) ?= 2 ^ n * 2 ^ j) with (2 * (m mod 2 ^ n) ?= 2 ^ n); [done|].
  rewrite Z.mul_assoc, <-!(Z.mul_comm (2 ^ j)). apply Zmult_compare_compat_l. lia.
Qed.

(** ** Significant bits *)

Lemma digits_log2 m : 0 < m -> Zdigits2 m = Z.log2 m + 1.
Proof. destruct m as [|p|p]; [lia| |lia]. intros _. apply digits2_pos_log2. Qed.

Lemma rounded_small m : 0 <= m < 2 ^ 53 -> rounded m = m.
Proof.
  intros Hm. unfold rounded. pose proof (Zdigits2_le m 53 Hm ltac:(lia)). rewrite Z.max_l by lia.
  pose proof (rne_exact m 0 0 ltac:(lia)) as E. rewrite !Z.mul_1_r in E. by rewrite E, Z.mul_1_r.
Qed.

Lemma rounded_scale m j : 0 <= m -> 0 <= j -> rounded (m * 2 ^ j) = rounded m * 2 ^ j.
Proof.
  intros Hm Hj. pose proof (pow2_pos j Hj). destruct (Z.eq_dec m 0) as [->|]; [done|]. unfold rounded. rewrite !digits_log2, Z.log2_mul_pow2 by lia.
  destruct (Z.le_gt_cases 53 (Z.log2 m + 1)).
  - rewrite !Z.max_r by lia. replace (j + Z.log2 m + 1 - 53) with (Z.log2 m + 1 - 53 + j) by lia. rewrite rne_scale, Z.pow_add_r by lia. lia.
  - rewrite (Z.max_l 0 (Z.log2 m + 1 - 53)) by lia. set (k := Z.max 0 _). rewrite rne_exact by lia.
    pose proof (rne_exact m 0 0 ltac:(lia)) as E. rewrite !Z.mul_1_r in E. rewrite E, Z.mul_1_r, <-Z.mul_assoc, <-Z.pow_add_r by lia. do 2 f_equal. lia.
Qed.

(** A number of [d + 1] bits stays between the powers of two around it. *)
Lemma rounded_range m : 0 < m -> 2 ^ Z.log2 m <= rounded m <= 2 ^ (Z.log2 m + 1).
Proof.
  intros Hm. unfold rounded. rewrite digits_log2 by done. pose proof (Z.log2_spec m Hm) as [Hlo Hhi]. pose proof (Z.log2_nonneg m).
  set (k := Z.max 0 _). pose proof (pow2_pos k ltac:(lia)). pose proof (rne_bounds m k ltac:(lia)).
  assert (Hup : m / 2 ^ k < 2 ^ (Z.log2 m + 1 - k)).
  { apply Z.div_lt_upper_bound; [done|]. rewrite <-Z.pow_add_r by lia. replace (k + (Z.log2 m + 1 - k)) with (Z.succ (Z.log2 m)) by lia. done. }
  assert (Hdn : 2 ^ (Z.log2 m - k) <= m / 2 ^ k).
  { apply Z.div_le_lower_bound; [done|]. rewrite <-Z.pow_add_r by lia. by replace (k + (Z.log2 m - k)) with (Z.log2 m) by lia. }
  replace (2 ^ Z.log2 m) with (2 ^ (Z.log2 m - k) * 2 ^ k) by (rewrite <-Z.pow_add_r by lia; f_equal; lia).
  replace (2 ^ (Z.log2 m + 1)) with (2 ^ (Z.log2 m + 1 - k) * 2 ^ k) by (rewrite <-Z.pow_add_r by lia; f_equal; lia). nia.
Qed.

Lemma rounded_nonneg m : 0 <= m -> 0 <= rounded m.
Proof. intros Hm. destruct (Z.eq_dec m 0) as [->|]; [done|]. pose proof (rounded_range m ltac:(lia)). pose proof (pow2_pos (Z.log2 m) (Z.log2_nonneg m)). lia. Qed.

Lemma rounded_mono m m' : 0 <= m <= m' -> rounded m <= rounded m'.
Proof.
  intros Hm. destruct (Z.eq_dec m 0) as [->|]; [apply rounded_nonneg; lia|]. pose proof (Z.log2_le_mono m m' ltac:(lia)) as Hl.
  destruct (Z.eq_dec (Z.log2 m) (Z.log2 m')) as [E|].
  - unfold rounded. rewrite !digits_log2, <-E by lia. set (k := Z.max 0 _). pose proof (pow2_pos k ltac:(lia)). pose proof (rne_mono m m' k ltac:(lia) ltac:(lia)). nia.
  - pose proof (rounded_range m ltac:(lia)). pose proof (rounded_range m' ltac:(lia)).
    assert (2 ^ (Z.log2 m + 1) <= 2 ^ Z.log2 m') by (apply Z.pow_le_mono_r; lia). lia.
Qed.

(** Signed numbers. *)
Definition rounded_to (z : Z) : Z := if z <? 0 then - rounded (- z) else rounded z.

Lemma rounded_to_mono z z' : z <= z' -> rounded_to z <= rounded_to z'.
Proof.
  intros Hz. unfold rounded_to. destruct (Z.ltb_spec z 0), (Z.ltb_spec z' 0); try lia.
  - pose proof (rounded_mono (- z') (- z) ltac:(lia)). lia.
  - pose proof (rounded_nonneg (- z) ltac:(lia)). pose proof (rounded_nonneg z' ltac:(lia)). lia.
  - apply rounded_mono. lia.
Qed.

(** ** The rounding of doubles *)

(** What a shift by [j] has lost. *)
Definition shifted (m j : Z) (r : shr_record) : Prop :=
  shr_m r = m / 2 ^ j /\
  loc_of_shr_record r = if m mod 2 ^ j =? 0 then loc_Exact else loc_Inexact (2 * (m mod 2 ^ j) ?= 2 ^ j).

Lemma shr_1_parts r : 0 <= shr_m r -> shr_1 r = Build_shr_record (shr_m r / 2) (Z.odd (shr_m r)) (shr_r r || shr_s r).
Proof.
  intros Hm. pose proof (shr_1_m r Hm) as E. destruct r as [[|[p|p|]|p] b s]; cbn [shr_m shr_r shr_s] in *; try lia; cbn [shr_1] in *; cbn [shr_m] in E; rewrite <-E; done.
Qed.

Lemma shr_1_shifted m j r : 0 <= m -> 0 <= j -> shifted m j r -> shifted m (j + 1) (shr_1 r).
Proof.
  intros Hm Hj [Hq Hl]. pose proof (pow2_pos j Hj) as Hp. pose proof (Z.mod_pos_bound m (2 ^ j) Hp). set (x := m mod 2 ^ j) in *.
  assert (Hnn : 0 <= shr_m r) by (rewrite Hq; apply Z.div_pos; lia). rewrite shr_1_parts by done. unfold shifted. cbn [shr_m]. rewrite Hq.
  rewrite Z.pow_add_r, Z.pow_1_r by lia. split; [by rewrite Z.div_div by lia|].
  rewrite Z.rem_mul_r by lia. fold x. set (b := m / 2 ^ j) in *. rewrite <-Z.bit0_mod, Z.bit0_odd.
  assert (Hrs : (shr_r r || shr_s r) = negb (x =? 0)).
  { destruct r as [q [] []]; cbn in Hl |- *; destruct (Z.eqb_spec x 0); done. }
  unfold loc_of_shr_record. rewrite Hrs. clear Hl Hrs Hq Hnn r. destruct (Z.odd b); cbn [Z.b2z].
  - destruct (Z.eqb_spec x 0) as [->|Hx]; cbn [negb].
    + destruct (Z.eqb_spec (0 + 2 ^ j * 1) 0); [lia|]. f_equal. symmetry. apply Z.compare_eq_iff. lia.
    + destruct (Z.eqb_spec (x + 2 ^ j * 1) 0); [lia|]. f_equal. symmetry. apply Z.compare_gt_iff. lia.
  - rewrite Z.mul_0_r, Z.add_0_r. destruct (Z.eqb_spec x 0) as [->|Hx]; cbn [negb]; [done|]. f_equal. symmetry. apply Z.compare_lt_iff. lia.
Qed.

Lemma iter_shifted m n : 0 <= m -> forall j r, 0 <= j -> shifted m j r -> shifted m (j + Zpos n) (iter_pos shr_1 n r).
Proof.
  intros Hm. induction n as [n IH|n IH|]; intros j r Hj Hr; cbn [iter_pos].
  - replace (j + Zpos n~1) with (j + 1 + Zpos n + Zpos n) by lia. apply IH; [lia|]. apply IH; [lia|]. by apply shr_1_shifted.
  - replace (j + Zpos n~0) with (j + Zpos n + Zpos n) by lia. apply IH; [lia|]. by apply IH.
  - by apply shr_1_shifted.
Qed.

(** The first shift of the rounding, and what the choice of the nearest makes of it. *)
Lemma shr_fexp_rne m e r e' : 0 <= m -> -1074 <= e -> shr_fexp 53 1024 m e loc_Exact = (r, e') ->
  e' = e + Z.max 0 (Zdigits2 m - 53) /\ round_nearest_even (shr_m r) (loc_of_shr_record r) = rne m (Z.max 0 (Zdigits2 m - 53)).
Proof.
  intros Hm He E. unfold shr_fexp, shr in E. cbn [shr_record_of_loc] in E. pose proof (Zdigits2_nonneg m Hm).
  assert (Hf : fexp 53 1024 (Zdigits2 m + e) - e = Z.max (Zdigits2 m - 53) (-1074 - e)) by (unfold fexp, emin; lia). rewrite Hf in E. clear Hf.
  pose proof (rne_exact m 0 0 ltac:(lia)) as E0. rewrite !Z.mul_1_r in E0.
  destruct (Z.max (Zdigits2 m - 53) (-1074 - e)) as [|n|n] eqn:En; injection E as <- <-.
  - rewrite Z.max_l by lia. split; [lia|]. by rewrite E0.
  - rewrite Z.max_r by lia. replace (Zdigits2 m - 53) with (Zpos n) by lia. split; [lia|].
    destruct (iter_shifted m n Hm 0 (Build_shr_record m false false)) as [H1 H2]; [done| |].
    + unfold shifted. cbn. by rewrite Z.div_1_r, Z.mod_1_r.
    + rewrite Z.add_0_l in *. rewrite H1, H2. unfold round_nearest_even, rne. pose proof (pow2_pos (Zpos n) ltac:(lia)).
      destruct (Z.eqb_spec (m mod 2 ^ Zpos n) 0) as [->|]; [destruct (Z.compare_spec (2 * 0) (2 ^ Zpos n)); lia|].
      destruct (_ ?= _); [destruct (Z.even _)|..]; lia.
  - rewrite Z.max_l by lia. split; [lia|]. by rewrite E0.
Qed.

(** ** Values *)

(** In units of [2 ^ -1100]. *)
Definition val (x : f64) : Z := match x with S754_finite s m e => cond_Zopp s (Zpos m * 2 ^ (e + 1100)) | _ => 0 end.

Definition finite (x : f64) : Prop := match x with S754_finite _ _ _ | S754_zero _ => True | _ => False end.

Lemma exp_in_finite lo hi x : exp_in lo hi x -> finite x.
Proof. by destruct x. Qed.

(** The second shift only absorbs a carry. *)
Lemma round_aux_val s m e : 0 <= m -> -1074 <= e -> finite (binary_round_aux 53 1024 s m e loc_Exact) ->
  val (binary_round_aux 53 1024 s m e loc_Exact) = cond_Zopp s (rounded (m * 2 ^ (e + 1100))).
Proof.
  intros Hm He. pose proof (pow2_pos (e + 1100) ltac:(lia)). rewrite rounded_scale by lia. unfold binary_round_aux, rounded.
  destruct (shr_fexp 53 1024 m e loc_Exact) as [r1 e1] eqn:E1. apply shr_fexp_rne in E1 as [-> ->]; [|done..].
  set (k := Z.max 0 _). pose proof (pow2_pos k ltac:(lia)). pose proof (rne_bounds m k ltac:(lia)) as Hb.
  assert (Hq : m / 2 ^ k < 2 ^ 53).
  { apply Z.div_lt_upper_bound; [done|]. rewrite <-Z.pow_add_r by lia. destruct (Z.eq_dec m 0) as [->|]; [apply pow2_pos; lia|].
    unfold k. rewrite digits_log2 by lia. pose proof (Z.log2_spec m ltac:(lia)) as [_ Hlt]. eapply Z.lt_le_trans; [exact Hlt|]. apply Z.pow_le_mono_r; lia. }
  assert (Hnn : 0 <= m / 2 ^ k) by (apply Z.div_pos; lia). set (m2 := rne m k) in *. clearbody m2.
  destruct (shr_fexp 53 1024 m2 (e + k) loc_Exact) as [r2 e2] eqn:E2. apply shr_fexp_m in E2 as (He2 & Hr2 & _); [|lia].
  assert (Hd : Zdigits2 m2 <= 54) by (apply Zdigits2_le; lia).
  assert (Hval : shr_m r2 * 2 ^ (e2 + 1100) = m2 * 2 ^ k * 2 ^ (e + 1100)).
  { rewrite Hr2. destruct (Z.eq_dec e2 (e + k)) as [->|].
    - rewrite Z.sub_diag, Z.div_1_r, <-Z.mul_assoc, <-Z.pow_add_r by lia. do 2 f_equal. lia.
    - assert (e2 = e + k + 1 /\ 54 <= Zdigits2 m2) as [-> Hd2] by (unfold fexp, emin in *; lia). assert (m2 = 2 ^ 53) as ->.
      { enough (2 ^ 53 <= m2) by lia. apply Z.nlt_ge. intros Hlt. pose proof (Zdigits2_le m2 53 ltac:(lia) ltac:(lia)). lia. }
      replace (e + k + 1 - (e + k)) with 1 by lia. change (2 ^ 53 / 2 ^ 1) with (2 ^ 52). rewrite <-!Z.pow_add_r by lia. f_equal. lia. }
  intros Hfin. destruct (shr_m r2) as [|p|p] eqn:Ep.
  - cbn [val]. rewrite <-Hval. by destruct s.
  - destruct (e2 <=? 1024 - 53); [|done]. cbn [val]. by rewrite Hval.
  - rewrite Hr2 in Ep. assert (0 <= m2 / 2 ^ (e2 - (e + k))); [|lia]. apply Z.div_pos; [lia|]. apply pow2_pos. lia.
Qed.

Lemma round_val s p e : -1074 <= e -> finite (binary_round 53 1024 s p e) ->
  val (binary_round 53 1024 s p e) = cond_Zopp s (rounded (Zpos p * 2 ^ (e + 1100))).
Proof.
  intros He. unfold binary_round. set (e' := fexp 53 1024 _). assert (He' : -1074 <= e') by (unfold e', fexp, emin; lia).
  destruct (shl_align p e e') as [mz ez] eqn:E.
  assert (Hz : -1074 <= ez <= e /\ Zpos mz = Zpos p * 2 ^ (e - ez)).
  { unfold shl_align in E. destruct (e' - e) as [|q|q] eqn:Eq; injection E as <- <-.
    - rewrite Z.sub_diag. lia.
    - rewrite Z.sub_diag. lia.
    - rewrite iter_xO. split; [lia|]. do 2 f_equal. lia. }
  destruct Hz as [Hez Hmz]. intros Hfin. rewrite round_aux_val by (done || lia). do 2 f_equal.
  rewrite Hmz, <-Z.mul_assoc, <-Z.pow_add_r by lia. do 2 f_equal. lia.
Qed.

Lemma normalize_val z e : -1074 <= e -> finite (binary_normalize 53 1024 z e false) ->
  val (binary_normalize 53 1024 z e false) = rounded_to (z * 2 ^ (e + 1100)).
Proof.
  intros He Hf. pose proof (pow2_pos (e + 1100) ltac:(lia)). unfold rounded_to. destruct z as [|p|p]; cbn [binary_normalize] in *; [done| |].
  - destruct (Z.ltb_spec (Zpos p * 2 ^ (e + 1100)) 0); [lia|]. by rewrite round_val.
  - destruct (Z.ltb_spec (Zneg p * 2 ^ (e + 1100)) 0); [|lia]. rewrite round_val by done. cbn [cond_Zopp]. do 2 f_equal. lia.
Qed.

(** ** Monotonicity *)

Lemma of_Z_mono a b : 0 <= a <= b -> b < 2 ^ 64 -> 0 <= val (f64_of_Z a) <= val (f64_of_Z b).
Proof.
  intros Hab Hb. assert (Hf : forall z, 0 <= z <= b -> finite (f64_of_Z z)) by (intros z Hz; eapply exp_in_finite, f64_of_Z_range; lia).
  unfold f64_of_Z in *. rewrite !normalize_val by (lia || apply Hf; lia). pose proof (pow2_pos (0 + 1100) ltac:(lia)). split.
  - change 0 with (rounded_to 0) at 1. apply rounded_to_mono. nia.
  - apply rounded_to_mono. nia.
Qed.

(** The value of a product, with a positive factor. *)
Lemma mul_val m e y : -900 <= e -> exp_in (-100) 200 y -> 0 <= val y -> finite (f64_mul (S754_finite false m e) y) ->
  val (f64_mul (S754_finite false m e) y) * 2 ^ 1100 = rounded (Zpos m * val y * 2 ^ (e + 1100)).
Proof.
  intros He Hy Hpos Hfin. destruct y as [s|s| |s my ey]; try done.
  cbn [val exp_in] in *. destruct s; [|clear Hpos].
  - cbn [cond_Zopp] in Hpos. pose proof (pow2_pos (ey + 1100) ltac:(lia)). lia.
  - unfold f64_mul, SFmul in *. cbn [xorb] in *. rewrite round_aux_val by (done || lia). cbn [cond_Zopp]. rewrite <-rounded_scale by (try lia; pose proof (pow2_pos (e + ey + 1100) ltac:(lia)); lia).
    f_equal. rewrite Pos2Z.inj_mul. replace (Z.pos m * Z.pos my * 2 ^ (e + ey + 1100) * 2 ^ 1100) with (Z.pos m * Z.pos my * (2 ^ (e + ey + 1100) * 2 ^ 1100)) by ring.
    replace (Z.pos m * (Z.pos my * 2 ^ (ey + 1100)) * 2 ^ (e + 1100)) with (Z.pos m * Z.pos my * (2 ^ (ey + 1100) * 2 ^ (e + 1100))) by ring.
    rewrite <-!Z.pow_add_r by lia. do 2 f_equal. lia.
Qed.

Lemma mul_mono m e y y' : -900 <= e -> exp_in (-100) 200 y -> exp_in (-100) 200 y' -> 0 <= val y <= val y' ->
  finite (f64_mul (S754_finite false m e) y) -> finite (f64_mul (S754_finite false m e) y') ->
  val (f64_mul (S754_finite false m e) y) <= val (f64_mul (S754_finite false m e) y').
Proof.
  intros He Hy Hy' Hle Hf Hf'. apply (Z.mul_le_mono_pos_r _ _ (2 ^ 1100)); [apply pow2_pos; lia|].
  rewrite !mul_val by (done || lia). apply rounded_mono. pose proof (pow2_pos (e + 1100) ltac:(lia)).
  rewrite <-!Z.mul_assoc, !(Z.mul_comm (Zpos m)), <-!Z.mul_assoc. assert (0 < 2 ^ (e + 1100) * Zpos m) by lia. split; [lia|]. apply Z.mul_le_mono_nonneg_r; lia.
Qed.

(** The value of a sum. *)
Lemma rounded_to_val x : mantissa53 x -> exp_in (-1074) 971 x -> rounded_to (val x) = val x.
Proof.
  destruct x as [s|s| |s m e]; try done. cbn [mantissa53 exp_in val]. intros Hm He. pose proof (pow2_pos (e + 1100) ltac:(lia)).
  unfold rounded_to. destruct s; cbn [cond_Zopp].
  - destruct (Z.ltb_spec (- (Zpos m * 2 ^ (e + 1100))) 0); [|lia]. rewrite Z.opp_involutive, rounded_scale, rounded_small by lia. done.
  - destruct (Z.ltb_spec (Zpos m * 2 ^ (e + 1100)) 0); [lia|]. rewrite rounded_scale, rounded_small by lia. done.
Qed.

Lemma aligned_val s m e ez : -1100 <= ez <= e -> cond_Zopp s (Zpos (fst (shl_align m e ez))) * 2 ^ (ez + 1100) = cond_Zopp s (Zpos m * 2 ^ (e + 1100)).
Proof.
  intros H. rewrite shl_align_fst by lia. assert (E : Zpos m * 2 ^ (e - ez) * 2 ^ (ez + 1100) = Zpos m * 2 ^ (e + 1100)).
  { rewrite <-Z.mul_assoc, <-Z.pow_add_r by lia. do 2 f_equal. lia. }
  destruct s; cbn [cond_Zopp]; lia.
Qed.

Lemma add_val x y : mantissa53 x -> mantissa53 y -> exp_in (-1074) 971 x -> exp_in (-1074) 971 y -> finite (f64_add x y) ->
  val (f64_add x y) = rounded_to (val x + val y).
Proof.
  intros Mx My Hx Hy Hf. destruct x as [sx|sx| |sx mx ex], y as [sy|sy| |sy my ey]; try done.
  - unfold f64_add, SFadd. by destruct sx, sy.
  - change (f64_add _ _) with (S754_finite sy my ey). change (val (S754_zero sx)) with 0. by rewrite Z.add_0_l, rounded_to_val.
  - change (f64_add _ _) with (S754_finite sx mx ex). change (val (S754_zero sy)) with 0. by rewrite Z.add_0_r, rounded_to_val.
  - unfold f64_add, SFadd in *. cbn [exp_in] in *. rewrite normalize_val by (done || lia). f_equal.
    rewrite Z.mul_add_distr_r, !aligned_val by lia. done.
Qed.

(** ** Predictions *)

(** A model with a positive slope and coefficients far from the limits of the format. *)
Record increasing_model (m : LinearModel) : Prop := {
  im_a : mid_range (a_ m);
  im_positive : match a_ m with S754_finite false _ _ => True | _ => False end;
  im_b : mid_range (b_ m)
}.

Lemma mul_mantissa x y : mantissa53 (f64_mul x y).
Proof.
  destruct x as [sx|sx| |sx mx ex], y as [sy|sy| |sy my ey]; try done. unfold f64_mul, SFmul.
  destruct (binary_round_aux 53 1024 _ _ _ _) as [| | |s m e] eqn:E; try done. by apply round_mantissa in E.
Qed.

Lemma predict_finite m key : increasing_model m -> word64 key -> exp_in (-1074) 971 (f64_mul (a_ m) (f64_of_Z key)) /\ finite (predict_double m key).
Proof.
  intros [Ha Hpos Hb] Hk. pose proof (product_range (a_ m) key Ha Hk) as Hp. split; [eapply exp_in_weaken; [exact Hp|lia|lia]|].
  unfold predict_double. set (x := f64_mul _ _) in *. pose proof (mul_mantissa (a_ m) (f64_of_Z key)) as Mx. fold x in Mx. clearbody x.
  destruct Hb as [Nb Hb]. pose proof (normal_mantissa _ Nb) as My. destruct x as [sx|sx| |sx mx ex], (b_ m) as [sy|sy| |sy my ey]; try done.
  - unfold f64_add, SFadd. by destruct sx, sy.
  - unfold f64_add, SFadd. cbn [exp_in mantissa53] in *. set (z := _ + _).
    assert (Hd : Zdigits2 (Z.abs z) + Z.min ex ey <= 54 + Z.max ex ey).
    { enough (Zdigits2 (Z.abs z) <= 54 + Z.max ex ey - Z.min ex ey) by lia. apply Zdigits2_le; [|lia]. split; [lia|].
      assert (Hone : forall s m e, Zpos m < 2 ^ 53 -> Z.min ex ey <= e <= Z.max ex ey ->
        Z.abs (cond_Zopp s (Zpos (fst (shl_align m e (Z.min ex ey))))) < 2 ^ (53 + Z.max ex ey - Z.min ex ey)).
      { intros s m' e Hm Hr. pose proof (pow2_pos (e - Z.min ex ey) ltac:(lia)).
        replace (Z.abs (cond_Zopp s (Z.pos (shl_align m' e (Z.min ex ey)).1))) with (Z.pos (shl_align m' e (Z.min ex ey)).1) by (by destruct s).
        rewrite shl_align_fst by lia.
        apply Z.lt_le_trans with (2 ^ 53 * 2 ^ (e - Z.min ex ey)); [nia|]. rewrite <-Z.pow_add_r by lia. apply Z.pow_le_mono_r; lia. }
      pose proof (Hone sx mx ex Mx ltac:(lia)). pose proof (Hone sy my ey My ltac:(lia)).
      replace (54 + Z.max ex ey - Z.min ex ey) with (Z.succ (53 + Z.max ex ey - Z.min ex ey)) by lia. rewrite Z.pow_succ_r by lia. unfold z.
      enough (Hab : forall u v w, Z.abs u < w -> Z.abs v < w -> Z.abs (u + v) < 2 * w) by (by apply Hab). lia. }
    pose proof (normalize_le z (Z.min ex ey) ltac:(lia) ltac:(lia)) as Hn. clearbody z.
    by destruct (binary_normalize 53 1024 z (Z.min ex ey) false).
Qed.

(** No exponent is below that of the smallest number. *)
Definition low (x : f64) : Prop := match x with S754_finite _ _ e => -1074 <= e | _ => True end.

Lemma round_low s p e : low (binary_round 53 1024 s p e).
Proof.
  unfold binary_round. set (e' := fexp 53 1024 _). assert (He' : -1074 <= e') by (unfold e', fexp, emin; lia).
  destruct (shl_align p e e') as [mz ez] eqn:E. unfold binary_round_aux. destruct (shr_fexp 53 1024 (Zpos mz) ez loc_Exact) as [r1 e1] eqn:E1.
  apply shr_fexp_m in E1 as (He1 & _ & H1); [|lia]. pose proof (round_nearest_even_nonneg (shr_m r1) (loc_of_shr_record r1) H1) as H2.
  destruct (shr_fexp 53 1024 (round_nearest_even _ _) e1 loc_Exact) as [r2 e2] eqn:E2. apply shr_fexp_m in E2 as (He2 & _ & _); [|done].
  destruct (shr_m r2); [done| |done]. destruct (e2 <=? 1024 - 53); [|done]. cbn [low]. unfold fexp, emin in *. lia.
Qed.

Lemma add_low x y : exp_in (-1074) 971 x -> exp_in (-1074) 971 y -> low (f64_add x y).
Proof.
  destruct x as [sx|sx| |sx mx ex], y as [sy|sy| |sy my ey]; try done; cbn [exp_in]; intros Hx Hy.
  - unfold f64_add, SFadd. by destruct sx, sy.
  - by destruct Hy.
  - by destruct Hx.
  - unfold f64_add, SFadd. destruct (_ + _); cbn [binary_normalize]; [done|apply round_low..].
Qed.

(** A greater key never has a smaller prediction. *)
Lemma predict_double_mono m key key' : increasing_model m -> 0 <= key <= key' -> key' < 2 ^ 64 -> val (predict_double m key) <= val (predict_double m key').
Proof.
  intros Hm Hk Hw. destruct (predict_finite m key Hm ltac:(unfold word64; lia)) as [Hp Hf]. destruct (predict_finite m key' Hm ltac:(unfold word64; lia)) as [Hp' Hf'].
  destruct Hm as [Ha Hpos [Nb Hb]]. unfold predict_double in *. assert (Hbw : exp_in (-1074) 971 (b_ m)) by (eapply exp_in_weaken; [exact Hb|lia|lia]).
  rewrite !add_val by (done || apply mul_mantissa || by apply normal_mantissa). apply rounded_to_mono. apply Z.add_le_mono_r.
  destruct (f64_of_Z_range key ltac:(lia)) as [Hy _]. destruct (f64_of_Z_range key' ltac:(lia)) as [Hy' _].
  destruct Ha as [_ Ha]. destruct (a_ m) as [s|s| |[] ma ea]; try done. cbn [exp_in] in Ha. apply mul_mono; try done; [lia|by apply of_Z_mono|by eapply exp_in_finite|by eapply exp_in_finite].
Qed.

(** Truncation in terms of values. *)
Lemma trunc_val x : finite x -> (match x with S754_finite _ _ e => -1100 <= e | _ => True end) -> f64_trunc x = Some (Z.quot (val x) (2 ^ 1100)).
Proof.
  destruct x as [s|s| |s m e]; try done. intros _ He. cbn [f64_trunc val]. f_equal. pose proof (pow2_pos 1100 ltac:(lia)) as Hp.
  assert (Hq : (if 0 <=? e then Zpos m * 2 ^ e else Zpos m / 2 ^ (- e)) = Z.quot (Zpos m * 2 ^ (e + 1100)) (2 ^ 1100)).
  { pose proof (pow2_pos (e + 1100) ltac:(lia)). rewrite Z.quot_div_nonneg by lia. destruct (Z.leb_spec 0 e).
    - rewrite Z.pow_add_r, Z.mul_assoc, Z.div_mul by lia. done.
    - pose proof (pow2_pos (- e) ltac:(lia)). replace (2 ^ 1100) with (2 ^ (- e) * 2 ^ (e + 1100)) by (rewrite <-Z.pow_add_r by lia; f_equal; lia).
      rewrite Z.div_mul_cancel_r by lia. done. }
  rewrite Hq. destruct s; cbn [cond_Zopp]; [by rewrite Z.quot_opp_l by lia|done].
Qed.

(** Every prediction truncates, and greater keys to greater integers. *)
Lemma predict_trunc m key : increasing_model m -> word64 key -> f64_trunc (predict_double m key) = Some (Z.quot (val (predict_double m key)) (2 ^ 1100)).
Proof.
  intros Hm Hk. destruct (predict_finite m key Hm Hk) as [Hp Hf]. apply trunc_val; [done|]. destruct Hm as [_ _ [_ Hb]].
  pose proof (add_low (f64_mul (a_ m) (f64_of_Z key)) (b_ m) Hp ltac:(eapply exp_in_weaken; [exact Hb|lia|lia])) as Hl. unfold predict_double.
  destruct (f64_add _ _); cbn [low] in Hl; lia || done.
Qed.

Lemma predict_trunc_mono m key key' z z' : increasing_model m -> 0 <= key <= key' -> key' < 2 ^ 64 ->
  f64_trunc (predict_double m key) = Some z -> f64_trunc (predict_double m key') = Some z' -> z <= z'.
Proof.
  intros Hm Hk Hw. rewrite !predict_trunc by (done || unfold word64; lia). intros [= <-] [= <-].
  apply Z.quot_le_mono; [apply pow2_pos; lia|]. by apply predict_double_mono.
Qed.
