(* ===== verification/AlexSampling.v ===== *)
(** * ALEX: training a model on samples terminates (alex/src/alex_nodes.h, build_model_sampling)

    The step size is found by halving a double until it drops below 10, and the
    sample is doubled until the model is stable; both loops stop and read inside the
    array, whatever the keys are. *)

From S2P Require Import Prelude Words Floats AlexBase AlexNode AlexPlace AlexResize FloatScale.
From Stdlib Require Import SpecFloat.
Local Open Scope Z_scope.
Local Open Scope cxx_scope.

(** ** Halving *)

Lemma f64_of_2 : f64_of_Z 2 = S754_finite false (2 ^ 52) (-51).
Proof. reflexivity. Qed.

Lemma half_exact s m e : Zpos (digits2_pos m) = 53 -> -900 <= e <= 500 ->
  f64_div (S754_finite s m e) (f64_of_Z 2) = S754_finite s m (e - 1).
Proof.
  intros Hm He. rewrite f64_of_2. unfold f64_div, SFdiv, SFdiv_core_binary. rewrite xorb_false_r. cbn [Zdigits2]. rewrite Hm.
  change (Z.pos (digits2_pos (2 ^ 52))) with 53. replace (fexp 53 1024 (53 + e - (53 + -51))) with (e - 2) by (unfold fexp, emin; lia).
  rewrite Z.min_l by lia. replace (e - -51 - (e - 2)) with 53 by lia. rewrite Z.shiftl_mul_pow2 by lia.
  assert (Hq : Z.div_eucl (Z.pos m * 2 ^ 53) (Z.pos (2 ^ 52)) = (Z.pos (2 * m), 0)).
  { pose proof (Z_div_mod (Z.pos m * 2 ^ 53) (Z.pos (2 ^ 52)) ltac:(lia)) as H. destruct (Z.div_eucl _ _) as [q r]. destruct H as [H1 H2].
    change (Z.pos (2 ^ 52)) with (2 ^ 52) in *. change (2 ^ 53) with (2 * 2 ^ 52) in H1. f_equal; nia. }
  rewrite Hq. change (new_location (Z.pos (2 ^ 52)) 0) with loc_Exact. unfold binary_round_aux.
  assert (Hd : Zdigits2 (Z.pos (2 * m)) = 54) by (cbn [Zdigits2]; rewrite digits2_pos_log2 in *; rewrite Pos2Z.inj_mul, Z.log2_double by lia; lia).
  assert (Hs1 : shr_fexp 53 1024 (Z.pos (2 * m)) (e - 2) loc_Exact = (Build_shr_record (Z.pos m) false false, e - 1)).
  { unfold shr_fexp. rewrite Hd. replace (fexp 53 1024 (54 + (e - 2)) - (e - 2)) with 1 by (unfold fexp, emin; lia).
    cbn [shr shr_record_of_loc]. replace (Z.pos (2 * m)) with (Z.pos m * 2 ^ 1) by lia. rewrite shr_exact. f_equal. lia. }
  rewrite Hs1. cbn [shr_m loc_of_shr_record round_nearest_even].
  assert (Hs2 : shr_fexp 53 1024 (Z.pos m) (e - 1) loc_Exact = (Build_shr_record (Z.pos m) false false, e - 1)).
  { unfold shr_fexp. cbn [Zdigits2]. rewrite Hm. replace (fexp 53 1024 (53 + (e - 1)) - (e - 1)) with 0 by (unfold fexp, emin; lia). done. }
  rewrite Hs2. cbn [shr_m]. destruct (Z.leb_spec (e - 1) (1024 - 53)); [done|lia].
Qed.

Lemma f64_of_10 : f64_of_Z 10 = S754_finite false (10 * 2 ^ 49) (-49).
Proof. reflexivity. Qed.

(** The comparison with 10 sees the exponent first. *)
Lemma ten_le_exponent m e : SFleb (f64_of_Z 10) (S754_finite false m e) = true -> -49 <= e.
Proof. rewrite f64_of_10. unfold SFleb, SFcompare. destruct (Z.compare_spec (-49) e); intros H'; [lia|lia|done]. Qed.

Lemma ten_le_large m e : -49 < e -> SFleb (f64_of_Z 10) (S754_finite false m e) = true.
Proof. intros He. rewrite f64_of_10. unfold SFleb, SFcompare. by destruct (Z.compare_spec (-49) e); [lia| |lia]. Qed.

(** ** The step size *)

Lemma initial_step_size_ok num_keys : 20 < num_keys < 2 ^ 31 -> exists step, initial_step_size num_keys = Some step /\ 1 <= step <= 2 ^ 62.
Proof.
  intros Hn. destruct num_keys as [|p|p]; [lia| |lia]. destruct (f64_of_pos p) as (m0 & E0 & Hm0); [lia|]. unfold initial_step_size. rewrite E0.
  assert (HL : 4 <= Z.log2 (Z.pos p) < 31) by (split; [apply (Z.log2_le_mono 16); lia|apply Z.log2_lt_pow2; lia]).
  assert (Hd0 : Zpos (digits2_pos m0) = 53) by (rewrite digits2_pos_log2, Hm0, Z.log2_mul_pow2 by lia; lia).
  set (e0 := Z.log2 (Z.pos p) - 52) in *.
  destruct (loop_spec (fun '(x, step) => exists j, 0 <= j <= 60 /\ step = 2 ^ j /\ x = S754_finite false m0 (e0 - j) /\ -50 <= e0 - j)
    (fun step => exists j, 1 <= j <= 60 /\ step = 2 ^ j) (fun '(x, _) => match x with S754_finite _ _ e => e + 51 | _ => 0 end)
    (fun '(sample_size, step_size) => if SFleb (f64_of_Z 10) sample_size then Some (inl (f64_div sample_size (f64_of_Z 2), step_size * 2)) else Some (inr step_size)))
    with (fuel := 64%nat) (s := (S754_finite false m0 e0, 1)) as (step & -> & j & Hj & ->).
  - intros [x step] (j & Hj & -> & -> & He). destruct (SFleb (f64_of_Z 10) (S754_finite false m0 (e0 - j))) eqn:E.
    + apply ten_le_exponent in E. rewrite half_exact by (done || lia). split; [|lia]. exists (j + 1). split; [unfold e0 in *; lia|].
      split; [rewrite Z.pow_add_r by lia; lia|]. split; [f_equal; lia|lia].
    + exists j. split; [|done]. destruct (Z.eq_dec j 0) as [->|]; [|lia]. rewrite ten_le_large in E by (unfold e0; lia). done.
  - exists 0. split; [lia|]. split; [done|]. split; [f_equal; lia|]. unfold e0. lia.
  - unfold e0. lia.
  - unfold e0. lia.
  - cbn [mbind option_bind]. eexists. split; [done|]. replace (2 ^ j) with (2 ^ (j - 1) * 2) by (rewrite Z.mul_comm, <-Z.pow_succ_r by lia; f_equal; lia).
    rewrite Z.quot_mul by lia. pose proof (Z.pow_pos_nonneg 2 (j - 1)). split; [lia|]. apply Z.pow_le_mono_r; lia.
Qed.

(** ** The samples *)

Section Samples.
Context {P : Type}.
Implicit Types (values : list (Z * P)).

Lemma add_samples_ok values num_keys lo step b : num_keys <= zlen values -> 0 <= lo -> 1 <= step -> exists b', add_samples values num_keys lo step b = Some b'.
Proof.
  intros Hn Hlo Hstep. unfold add_samples.
  destruct (loop_spec (fun '(i, _) => 0 <= i) (fun _ => True) (fun '(i, _) => Z.max 0 (num_keys - i))
    (fun '(i, b) => if i <? num_keys then v ← values.[i]; Some (inl (i + step, builder_add b v.1 i)) else Some (inr b)))
    with (fuel := S (Z.to_nat num_keys)) (s := (lo, b)) as (b' & -> & _); [|lia|lia|lia|by eexists].
  intros [i b1] Hi. destruct (Z.ltb_spec i num_keys); [|done]. destruct (rd_in values i) as [v ->]; [lia|]. cbn [mbind option_bind]. lia.
Qed.

Lemma add_new_samples_ok values num_keys step b : num_keys <= zlen values -> 1 <= step -> exists b', add_new_samples values num_keys step b = Some b'.
Proof.
  intros Hn Hstep. unfold add_new_samples.
  match goal with |- exists b', loop _ ?body _ = _ =>
    destruct (loop_spec (fun '(i, _) => 0 <= i) (fun _ => True) (fun '(i, _) => Z.max 0 (num_keys - i)) body)
      with (fuel := S (Z.to_nat num_keys)) (s := (0, b)) as (b' & -> & _) end; [|lia|lia|lia|by eexists].
  intros [i b1] Hi. destruct (Z.ltb_spec i num_keys); [|done]. cbv zeta. destruct (Z.ltb_spec (i + step) num_keys); [|lia].
  destruct (rd_in values (i + step)) as [v ->]; [lia|]. cbn [mbind option_bind]. lia.
Qed.

Lemma train_array_ok values num_keys : num_keys <= zlen values ->
  exists b, train (array_source values num_keys) (S (Z.to_nat num_keys)) 0 = Some (b, Z.max 0 num_keys).
Proof.
  intros Hn. destruct (Z.le_gt_cases 0 num_keys) as [Hle|Hgt].
  - destruct (train_spec (array_source values num_keys) (S (Z.to_nat num_keys)) 0 (take (Z.to_nat num_keys) values)) as [b E].
    + apply array_source_yields. lia.
    + rewrite length_take. lia.
    + exists b. rewrite E. do 2 f_equal. unfold zlen in *. rewrite length_take. lia.
  - exists Builder_init. unfold train. cbn [loop more array_source]. destruct (Z.ltb_spec 0 num_keys); [lia|]. do 2 f_equal. lia.
Qed.

(** Training terminates and reads inside the array, sampled or not. *)
Lemma build_model_total values num_keys use_sampling : num_keys <= zlen values -> num_keys < 2 ^ 31 ->
  exists m, build_model values num_keys use_sampling = Some m.
Proof.
  intros Hn Hmax. destruct (train_array_ok values num_keys Hn) as [b0 E0]. unfold build_model. destruct use_sampling; [|rewrite E0; by eexists].
  unfold build_model_sampling. destruct (Z.leb_spec num_keys (10 * 2)); [rewrite E0; by eexists|].
  destruct (initial_step_size_ok num_keys) as (step & -> & Hstep); [lia|]. cbn [mbind option_bind].
  destruct (add_samples_ok values num_keys 0 step Builder_init) as [b1 ->]; [done|lia|lia|]. cbn [mbind option_bind].
  match goal with |- exists m, loop _ ?body _ = _ =>
    destruct (loop_spec (fun '(step, _, _) => 1 <= step <= 2 ^ 62) (fun _ => True) (fun '(step, _, _) => Z.log2 step) body)
      with (fuel := 64%nat) (s := (step, b1, builder_build b1)) as (m & -> & _) end; [| | | |by eexists].
  - intros [[step1 b2] prev] Hs. destruct (Z.ltb_spec 1 step1); [|done]. cbv zeta.
    assert (Hq : 1 <= Z.quot step1 2 <= 2 ^ 62 /\ 0 <= Z.log2 (Z.quot step1 2) < Z.log2 step1).
    { rewrite Z.quot_div_nonneg by lia. pose proof (Z.div_mod step1 2 ltac:(lia)). pose proof (Z.mod_pos_bound step1 2 ltac:(lia)). split; [lia|].
      split; [apply Z.log2_nonneg|]. apply Z.le_lt_trans with (Z.log2 (step1 / 2)); [lia|].
      enough (Z.succ (Z.log2 (step1 / 2)) <= Z.log2 step1) by lia. rewrite <-Z.log2_double by lia. apply Z.log2_le_mono. lia. }
    destruct (add_new_samples_ok values num_keys (Z.quot step1 2) b2) as [b3 ->]; [done|lia|]. cbn [mbind option_bind].
    destruct (_ && _); done || (split; lia).
  - done.
  - change (Z.of_nat 64) with 64. assert (Z.log2 step <= Z.log2 (2 ^ 62)) by (apply Z.log2_le_mono; lia). rewrite Z.log2_pow2 in *; lia.
  - apply Z.log2_nonneg.
Qed.
End Samples.
