(* ===== verification/AlexModel.v ===== *)
(** * ALEX: model nodes (alex/src/alex_nodes.h, AlexNode and AlexModelNode)

    A model node routes a key to one of its children, an array of pointers whose size
    is a power of two; a child that covers several buckets is pointed to by all of
    them, [2 ^ duplication_factor_] in a row.  Nodes live in a heap, because
    [expand] changes the children it finds behind the pointers.

    Pointers are integers; [None] is undefined behaviour. *)

From S2P Require Import Prelude Words Floats AlexBase FloatScale.
From Stdlib Require Import SpecFloat.
From stdpp Require Import gmap list.
Local Open Scope Z_scope.
Local Open Scope cxx_scope.

(** ** Data *)

(** The fields of both kinds of nodes. *)
Record AlexNodeBase := mkBase {
  is_leaf_ : bool;
  duplication_factor_ : Z;
  level_ : Z;
  model_ : LinearModel;
  cost_ : f64
}.

(** [AlexNode(level, is_leaf)]. *)
Definition AlexNode_of (level : Z) (is_leaf : bool) : AlexNodeBase := mkBase is_leaf 0 level LinearModel_default f64_zero.

Record AlexModelNode := mkModelNode {
  base : AlexNodeBase;
  num_children_ : Z;
  children_ : list Z
}.

(** [AlexModelNode(level)]. *)
Definition AlexModelNode_of (level : Z) : AlexModelNode := mkModelNode (AlexNode_of level false) 0 [].

Abbreviation Heap := (gmap Z AlexNodeBase).

(** [1 << k] on [int]. *)
Definition int_shift (k : Z) : option Z := if (0 <=? k) && (k <? 31) then Some (2 ^ k) else None.

(** ** Operations *)

Definition get_child_node (n : AlexModelNode) (key : Z) : option Z :=
  let bucketID := predict (model_ (base n)) key in
  let bucketID := Z.min (Z.max bucketID 0) (num_children_ n - 1) in
  (children_ n).[bucketID].

Definition set_duplication (d : Z) (c : AlexNodeBase) : AlexNodeBase :=
  mkBase (is_leaf_ c) d (level_ c) (model_ c) (cost_ c).

Definition set_model (m : LinearModel) (c : AlexNodeBase) : AlexNodeBase :=
  mkBase (is_leaf_ c) (duplication_factor_ c) (level_ c) m (cost_ c).

(** The loop of [expand] on the new array, whose slots are not initialised. *)
Definition copy_children (h : Heap) (n : AlexModelNode) (expansion_factor log2_expansion_factor num_new_children : Z)
    : option (list (option Z) * Heap) :=
  loop (S (length (children_ n))) (fun '(cur, new_children, h) =>
    if cur <? num_children_ n then
      cur_child ← (children_ n).[cur];
      c ← h !! cur_child;
      cur_child_repeats ← int_shift (duplication_factor_ c);
      new_children ← for_up (expansion_factor * cur) (expansion_factor * (cur + cur_child_repeats))
        (fun i new => wr new i (Some cur_child)) new_children;
      Some (inl (cur + cur_child_repeats, new_children,
        <[cur_child := set_duplication ((duplication_factor_ c + log2_expansion_factor) mod 2 ^ 8) c]> h))
    else Some (inr (new_children, h))) (0, replicate (Z.to_nat num_new_children) None, h).

(** [AlexModelNode::expand]. *)
Definition expand_node (h : Heap) (n : AlexModelNode) (log2_expansion_factor : Z) : option (Heap * AlexModelNode * Z) :=
  expansion_factor ← int_shift log2_expansion_factor;
  let num_new_children := num_children_ n * expansion_factor in
  if num_new_children <=? int_max then
    '(new_children, h) ← copy_children h n expansion_factor log2_expansion_factor num_new_children;
    children ← mapM id new_children;
    Some (h, mkModelNode (set_model (expand (model_ (base n)) (f64_of_Z expansion_factor)) (base n)) num_new_children children,
          expansion_factor)
  else None.

(** [std::ceil(std::log2(x)) == std::floor(std::log2(x))]: below [2 ^ 31] the rounded
    logarithm is an integer exactly for the powers of two. *)
Definition is_power_of_2 (x : Z) : bool := Z.log2_up x =? Z.log2 x.

(** The three tests after a run of [cur_repeats] pointers to [cur_child] that ends before [i]. *)
Definition region_ok (h : Heap) (cur_child cur_repeats i : Z) : option bool :=
  c ← h !! cur_child;
  d ← int_shift (duplication_factor_ c);
  Some ((cur_repeats =? d) && is_power_of_2 cur_repeats && (i mod cur_repeats =? 0)).

(** The loop over the children from [i] on; also returns the length of the last run. *)
Fixpoint regions_ok (h : Heap) (i cur_child cur_repeats : Z) (rest : list Z) : option (bool * Z) :=
  match rest with
  | [] => ok ← region_ok h cur_child cur_repeats i; Some (ok, cur_repeats)
  | c :: rest =>
      if c =? cur_child then regions_ok h (i + 1) cur_child (cur_repeats + 1) rest
      else
        ok ← region_ok h cur_child cur_repeats i;
        if (ok : bool) then regions_ok h (i + 1) c 1 rest else Some (false, cur_repeats)
  end.

(** [AlexModelNode::validate_structure]. *)
Definition validate_model_node (h : Heap) (n : AlexModelNode) : option bool :=
  if num_children_ n =? 0 then Some false
  else if num_children_ n =? 1 then Some false
  else if negb (is_power_of_2 (num_children_ n)) then Some false
  else if SFeqb (a_ (model_ (base n))) f64_zero then Some false
  else
    first ← (children_ n).[0];
    '(ok, cur_repeats) ← regions_ok h 1 first 1 (take (Z.to_nat (num_children_ n - 1)) (drop 1 (children_ n)));
    Some (ok && negb (cur_repeats =? num_children_ n)).

(** ** Children in blocks *)

(** The pointer array of a list of children with their duplication factors. *)
Definition pointers (blocks : list (Z * Z)) : list Z := concat ((fun '(c, d) => replicate (Z.to_nat (2 ^ d)) c) <$> blocks).

(** Every block starts at a multiple of its size. *)
Fixpoint aligned (start : Z) (blocks : list (Z * Z)) : Prop :=
  match blocks with
  | [] => True
  | (_, d) :: blocks => start mod 2 ^ d = 0 /\ aligned (start + 2 ^ d) blocks
  end.

Definition factors_ok (h : Heap) (blocks : list (Z * Z)) : Prop :=
  forall c d, (c, d) ∈ blocks -> 0 <= d < 31 /\ exists x, h !! c = Some x /\ duplication_factor_ x = d.

Record node_blocks (h : Heap) (n : AlexModelNode) (blocks : list (Z * Z)) : Prop := {
  nb_children : children_ n = pointers blocks;
  nb_count : num_children_ n = zlen (children_ n);
  nb_factors : factors_ok h blocks;
  nb_distinct : NoDup blocks.*1;
  nb_aligned : aligned 0 blocks
}.

Definition more_duplication (k : Z) (blocks : list (Z * Z)) : list (Z * Z) := (fun '(c, d) => (c, d + k)) <$> blocks.

Lemma pointers_cons c d blocks : pointers ((c, d) :: blocks) = replicate (Z.to_nat (2 ^ d)) c ++ pointers blocks.
Proof. done. Qed.

Lemma zlen_pointers_cons c d blocks : 0 <= d -> zlen (pointers ((c, d) :: blocks)) = 2 ^ d + zlen (pointers blocks).
Proof.
  intros Hd. rewrite pointers_cons, zlen_app. unfold zlen at 1. rewrite length_replicate.
  assert (0 < 2 ^ d) by (apply Z.pow_pos_nonneg; lia). lia.
Qed.

Lemma zlen_more k blocks : 0 <= k -> (forall c d, (c, d) ∈ blocks -> 0 <= d) -> zlen (pointers (more_duplication k blocks)) = 2 ^ k * zlen (pointers blocks).
Proof.
  intros Hk. induction blocks as [|[c d] blocks IH]; intros Hd; [unfold zlen; simpl; lia|]. cbn [more_duplication fmap list_fmap].
  pose proof (Hd c d ltac:(constructor)). fold (more_duplication k blocks). rewrite !zlen_pointers_cons by lia.
  rewrite IH by (intros c' d' Hin; apply (Hd c' d'); by constructor). rewrite Z.pow_add_r by lia. lia.
Qed.

(** Bucket [j] of the longer array is bucket [j / 2 ^ k] of the shorter one. *)
Lemma more_rd k blocks : 0 <= k -> (forall c d, (c, d) ∈ blocks -> 0 <= d) ->
  forall j, 0 <= j -> rd (pointers (more_duplication k blocks)) j = rd (pointers blocks) (j / 2 ^ k).
Proof.
  intros Hk. assert (Hp : 0 < 2 ^ k) by (apply Z.pow_pos_nonneg; lia). induction blocks as [|[c d] blocks IH]; intros Hd j Hj.
  - assert (0 <= j / 2 ^ k) by (apply Z.div_pos; lia). unfold rd. cbn. destruct (Z.leb_spec 0 j), (Z.leb_spec 0 (j / 2 ^ k)); by rewrite ?lookup_nil.
  - cbn [more_duplication fmap list_fmap]. fold (more_duplication k blocks). rewrite !pointers_cons. pose proof (Hd c d ltac:(constructor)) as Hd0.
    assert (Hq : 0 < 2 ^ d) by (apply Z.pow_pos_nonneg; lia).
    assert (Hz : forall e, 0 < 2 ^ e -> zlen (replicate (Z.to_nat (2 ^ e)) c) = 2 ^ e) by (intros e He; unfold zlen; rewrite length_replicate; lia).
    assert (Hqk : 2 ^ (d + k) = 2 ^ d * 2 ^ k) by (rewrite Z.pow_add_r by lia; lia).
    destruct (Z.lt_ge_cases j (2 ^ (d + k))) as [Hlt|Hge].
    + assert (Hlt' : 0 <= j / 2 ^ k < 2 ^ d) by (split; [apply Z.div_pos; lia|apply Z.div_lt_upper_bound; lia]).
      rewrite !rd_app_lt by (rewrite Hz; lia). rewrite !rd_replicate by lia. done.
    + assert (Hge' : 2 ^ d <= j / 2 ^ k) by (apply Z.div_le_lower_bound; lia).
      rewrite !rd_app_ge by (rewrite Hz; lia). rewrite !Hz by lia. rewrite IH by (lia || (intros c' d' Hin; apply (Hd c' d'); by constructor)).
      f_equal. rewrite Hqk. replace (j - 2 ^ d * 2 ^ k) with (j + (- 2 ^ d) * 2 ^ k) by lia. rewrite Z.div_add by lia. lia.
Qed.

Lemma more_aligned k blocks : 0 <= k -> (forall c d, (c, d) ∈ blocks -> 0 <= d) -> forall start, aligned start blocks ->
  aligned (2 ^ k * start) (more_duplication k blocks).
Proof.
  intros Hk. induction blocks as [|[c d] blocks IH]; intros Hd start Ha; [done|]. destruct Ha as [Ha1 Ha2]. pose proof (Hd c d ltac:(constructor)) as Hd0.
  cbn [more_duplication fmap list_fmap aligned]. fold (more_duplication k blocks). split.
  - rewrite Z.add_comm, Z.pow_add_r by lia. rewrite Z.mul_mod_distr_l by (apply Z.pow_nonzero; lia). rewrite Ha1. lia.
  - replace (2 ^ k * start + 2 ^ (d + k)) with (2 ^ k * (start + 2 ^ d)) by (rewrite Z.pow_add_r by lia; lia).
    apply IH; [intros c' d' Hin; apply (Hd c' d'); by constructor|done].
Qed.

(** ** expand *)

Lemma wr_middle {A} (a b : list A) x y : wr (a ++ x :: b) (zlen a) y = Some (a ++ y :: b).
Proof.
  unfold wr. rewrite zlen_app. pose proof (zlen_nonneg a). pose proof (zlen_nonneg b).
  replace (zlen (x :: b)) with (zlen b + 1) by (unfold zlen; simpl; lia).
  destruct (Z.leb_spec 0 (zlen a)), (Z.ltb_spec (zlen a) (zlen a + (zlen b + 1))); try lia. cbn [andb]. f_equal.
  replace (Z.to_nat (zlen a)) with (length a + 0)%nat by (unfold zlen; lia). by rewrite insert_app_r.
Qed.

Lemma fill_run {A} (a c : list A) (m : nat) x v :
  for_up (zlen a) (zlen a + Z.of_nat m) (fun i l => wr l i v) (a ++ replicate m x ++ c) = Some (a ++ replicate m v ++ c).
Proof.
  destruct (for_up_spec (fun i l => exists j : nat, i = zlen a + Z.of_nat j /\ (j <= m)%nat /\ l = a ++ replicate j v ++ replicate (m - j) x ++ c)
    (fun i l => wr l i v) (zlen a) (zlen a + Z.of_nat m) (a ++ replicate m x ++ c)) as (l & -> & j & Hj & Hjm & ->); [lia| | |].
  - exists 0%nat. split; [lia|]. split; [lia|]. by rewrite Nat.sub_0_r.
  - intros i l Hi (j & -> & Hjm & ->). destruct (m - j)%nat as [|r] eqn:Er; [lia|]. exists (a ++ replicate (S j) v ++ replicate r x ++ c).
    change (replicate (S r) x) with (x :: replicate r x). split.
    + replace (zlen a + Z.of_nat j) with (zlen (a ++ replicate j v)) by (rewrite zlen_app; unfold zlen at 2; rewrite length_replicate; lia).
      rewrite app_assoc. cbn [app]. rewrite wr_middle. f_equal. rewrite <-app_assoc. f_equal.
      rewrite replicate_S_end, <-app_assoc. done.
    + exists (S j). split; [lia|]. split; [lia|]. replace (m - S j)%nat with r by lia. done.
  - replace (m - j)%nat with 0%nat by lia. by replace j with m by lia.
Qed.

(** The heap after the children of [blocks] have been visited. *)
Fixpoint raise_factors (k : Z) (blocks : list (Z * Z)) (h : Heap) : Heap :=
  match blocks with
  | [] => h
  | (c, d) :: blocks => raise_factors k blocks (alter (set_duplication (d + k)) c h)
  end.

Lemma raise_factors_other k blocks c : c ∉ blocks.*1 -> forall h, raise_factors k blocks h !! c = h !! c.
Proof.
  induction blocks as [|[c' d] blocks IH]; intros Hc h; [done|]. cbn in Hc. apply not_elem_of_cons in Hc as [Hne Hc]. cbn [raise_factors].
  rewrite IH by done. by rewrite lookup_alter_ne.
Qed.

Lemma raise_factors_child k blocks c d : NoDup blocks.*1 -> (c, d) ∈ blocks -> forall h,
  raise_factors k blocks h !! c = set_duplication (d + k) <$> h !! c.
Proof.
  induction blocks as [|[c' d'] blocks IH]; intros Hnd Hin h; [by apply elem_of_nil in Hin|]. cbn in Hnd. apply NoDup_cons in Hnd as [Hni Hnd].
  cbn [raise_factors]. apply elem_of_cons in Hin as [[= -> ->]|Hin].
  - rewrite raise_factors_other by done. by rewrite lookup_alter_eq.
  - rewrite IH by done. rewrite lookup_alter_ne; [done|]. intros ->. apply Hni, list_elem_of_fmap. by exists (c, d).
Qed.

Lemma factors_later h c d c' d' k blocks : factors_ok h ((c, d) :: blocks) -> c ∉ blocks.*1 -> c' = c ->
  factors_ok (alter (set_duplication (d' + k)) c' h) blocks.
Proof.
  intros Hf Hni -> c2 d2 Hin. destruct (Hf c2 d2) as (Hd & x & Hx & Ex); [by constructor|]. split; [done|]. exists x. split; [|done].
  rewrite lookup_alter_ne; [done|]. intros ->. apply Hni, list_elem_of_fmap. by exists (c2, d2).
Qed.

Lemma int_shift_in k : 0 <= k < 31 -> int_shift k = Some (2 ^ k).
Proof. intros Hk. unfold int_shift. destruct (Z.leb_spec 0 k), (Z.ltb_spec k 31); done || lia. Qed.

Lemma copy_loop k num children : 0 <= k -> num = zlen children -> forall blocks pre done_ h fuel, children = pre ++ pointers blocks ->
  (length blocks < fuel)%nat -> NoDup blocks.*1 -> factors_ok h blocks ->
  (forall c d, (c, d) ∈ blocks -> d + k < 2 ^ 8) -> zlen done_ = 2 ^ k * zlen pre ->
  loop fuel (fun '(cur, new_children, h) =>
    if cur <? num then
      cur_child ← children.[cur];
      c ← h !! cur_child;
      cur_child_repeats ← int_shift (duplication_factor_ c);
      new_children ← for_up (2 ^ k * cur) (2 ^ k * (cur + cur_child_repeats)) (fun i new => wr new i (Some cur_child)) new_children;
      Some (inl (cur + cur_child_repeats, new_children,
        <[cur_child := set_duplication ((duplication_factor_ c + k) mod 2 ^ 8) c]> h))
    else Some (inr (new_children, h))) (zlen pre, done_ ++ replicate (Z.to_nat (2 ^ k * zlen (pointers blocks))) (@None Z), h : Heap) =
  Some (done_ ++ (Some <$> pointers (more_duplication k blocks)), raise_factors k blocks h).
Proof.
  intros Hk Hnum. assert (Hpk : 0 < 2 ^ k) by (apply Z.pow_pos_nonneg; lia).
  induction blocks as [|[c d] blocks IH]; intros pre dn h fuel Hc Hfuel Hnd Hf Hsmall Hdn; (destruct fuel as [|fuel]; [simpl in Hfuel; lia|]); cbn [loop];
    assert (Hlen : num = zlen pre + zlen (pointers _)) by (rewrite Hnum, Hc, zlen_app; reflexivity).
  - change (zlen (pointers [])) with 0 in *. destruct (Z.ltb_spec (zlen pre) num); [lia|]. rewrite Z.mul_0_r. done.
  - destruct (Hf c d) as (Hd & x & Hx & Ex); [constructor|]. assert (Hp : 0 < 2 ^ d) by (apply Z.pow_pos_nonneg; lia).
    assert (Hzd : forall e, 0 <= e -> zlen (replicate (Z.to_nat (2 ^ e)) c) = 2 ^ e).
    { intros e He. assert (0 < 2 ^ e) by (apply Z.pow_pos_nonneg; lia). unfold zlen. rewrite length_replicate. lia. }
    rewrite zlen_pointers_cons in * by lia. pose proof (zlen_nonneg (pointers blocks)). destruct (Z.ltb_spec (zlen pre) num); [|lia].
    assert (Erd : children.[zlen pre] = Some c).
    { rewrite Hc, rd_app_ge by lia. rewrite Z.sub_diag, pointers_cons, rd_app_lt by (rewrite Hzd; lia). apply rd_replicate. lia. }
    rewrite Erd. cbn [mbind option_bind]. rewrite Hx. cbn [mbind option_bind]. rewrite Ex, int_shift_in by done. cbn [mbind option_bind].
    assert (Hrun : for_up (2 ^ k * zlen pre) (2 ^ k * (zlen pre + 2 ^ d)) (fun i new => wr new i (Some c))
        (dn ++ replicate (Z.to_nat (2 ^ k * (2 ^ d + zlen (pointers blocks)))) None) =
      Some ((dn ++ replicate (Z.to_nat (2 ^ (d + k))) (Some c)) ++ replicate (Z.to_nat (2 ^ k * zlen (pointers blocks))) None)).
    { replace (Z.to_nat (2 ^ k * (2 ^ d + zlen (pointers blocks)))) with (Z.to_nat (2 ^ (d + k)) + Z.to_nat (2 ^ k * zlen (pointers blocks)))%nat
        by (rewrite Z.pow_add_r by lia; nia).
      rewrite replicate_add, <-Hdn, <-app_assoc.
      replace (2 ^ k * (zlen pre + 2 ^ d)) with (zlen dn + Z.of_nat (Z.to_nat (2 ^ (d + k)))) by (rewrite Hdn, Z.pow_add_r by lia; nia). apply fill_run. }
    rewrite Hrun. cbn [mbind option_bind].
    assert (Hmod : (d + k) mod 2 ^ 8 = d + k) by (apply Z.mod_small; pose proof (Hsmall c d ltac:(constructor)); lia). rewrite Hmod.
    assert (Ealter : <[c := set_duplication (d + k) x]> h = alter (set_duplication (d + k)) c h).
    { apply map_eq. intros i. destruct (decide (i = c)) as [->|Hne]; [by rewrite lookup_insert_eq, lookup_alter_eq, Hx|by rewrite lookup_insert_ne, lookup_alter_ne]. }
    rewrite Ealter. cbn in Hnd. apply NoDup_cons in Hnd as [Hni Hnd]. rewrite <-(Hzd d) by lia. rewrite <-zlen_app.
    rewrite (IH (pre ++ replicate (Z.to_nat (2 ^ d)) c) (dn ++ replicate (Z.to_nat (2 ^ (d + k))) (Some c))).
    + cbn [raise_factors more_duplication fmap list_fmap]. fold (more_duplication k blocks). by rewrite pointers_cons, fmap_app, fmap_replicate, app_assoc.
    + by rewrite <-app_assoc, <-pointers_cons.
    + simpl in Hfuel. lia.
    + done.
    + by eapply factors_later.
    + intros c' d' Hin. apply (Hsmall c' d'). by constructor.
    + rewrite !zlen_app. unfold zlen at 2. rewrite length_replicate. rewrite Hdn, Hzd, Z.pow_add_r by lia. nia.
Qed.

Lemma mapM_Some_id {A} (l : list A) : mapM id (Some <$> l) = Some l.
Proof. induction l as [|x l IH]; [done|]. cbn in *. by rewrite IH. Qed.

Lemma block_in_pointers blocks c d : (c, d) ∈ blocks -> (forall c d, (c, d) ∈ blocks -> 0 <= d) -> 2 ^ d <= zlen (pointers blocks).
Proof.
  induction blocks as [|[c' d'] blocks IH]; intros Hin Hd; [by apply elem_of_nil in Hin|].
  pose proof (Hd c' d' ltac:(constructor)). rewrite zlen_pointers_cons by done. pose proof (zlen_nonneg (pointers blocks)).
  assert (0 < 2 ^ d') by (apply Z.pow_pos_nonneg; lia). apply elem_of_cons in Hin as [[= -> ->]|Hin]; [lia|].
  specialize (IH Hin ltac:(intros; apply (Hd c0 d0); by constructor)). lia.
Qed.

Lemma blocks_length blocks : (forall c d, (c, d) ∈ blocks -> 0 <= d) -> (length blocks <= length (pointers blocks))%nat.
Proof.
  induction blocks as [|[c d] blocks IH]; intros Hd; [done|]. rewrite pointers_cons, length_app, length_replicate.
  pose proof (Hd c d ltac:(constructor)). assert (0 < 2 ^ d) by (apply Z.pow_pos_nonneg; lia).
  specialize (IH ltac:(intros; apply (Hd c0 d0); by constructor)). simpl. lia.
Qed.

Lemma more_keys k blocks : (more_duplication k blocks).*1 = blocks.*1.
Proof. unfold more_duplication. rewrite <-list_fmap_compose. apply list_fmap_ext. by intros i [c d]. Qed.

(** The model scaled by [2 ^ k] predicts the scaled position exactly. *)
Lemma predict_double_scale m key z k : mid_range (a_ m) -> mid_range (b_ m) -> word64 key -> 0 <= k <= 30 ->
  f64_trunc (predict_double m key) = Some z -> (Z.abs z + 1) * 2 ^ k <= 2 ^ 31 ->
  predict_double (expand m (f64_of_Z (2 ^ k))) key = f_scale k (predict_double m key).
Proof.
  intros Ha Hbm Hkey Hk Hz Hsmall. assert (Hpk : 0 < 2 ^ k) by (apply Z.pow_pos_nonneg; lia).
  pose proof (product_range (a_ m) key Ha ltac:(unfold word64 in Hkey; lia)) as Hprod.
  unfold predict_double, expand. cbn [a_ b_]. destruct Ha as [Ha1 Ha2], Hbm as [Hb1 Hb2]. rewrite !mul_pow2 by done.
  rewrite mul_scale; [|lia|done|apply f64_of_Z_range; unfold word64 in Hkey; lia|eapply exp_in_le; [exact Hprod|lia]].
  apply add_scale; [lia|eapply exp_in_weaken; [exact Hprod|lia|lia]|eapply exp_in_weaken; [exact Hb2|lia|lia]|].
  assert (H31 : exp_le 31 (predict_double m key)) by (apply (trunc_exp _ z Hz); nia). unfold predict_double in H31.
  destruct (f64_add _ _); simpl in *; lia || done.
Qed.

Section Expand.
Context (h : Heap) (n : AlexModelNode) (blocks : list (Z * Z)) (Hb : node_blocks h n blocks).
Context (k : Z) (Hk : 0 <= k) (Hroom : num_children_ n * 2 ^ k <= int_max).

Lemma factor_nonneg c d : (c, d) ∈ blocks -> 0 <= d.
Proof. intros Hin. by destruct (nb_factors _ _ _ Hb c d Hin) as [[? _] _]. Qed.

Lemma factor_sum_small c d : (c, d) ∈ blocks -> d + k < 31.
Proof.
  intros Hin. pose proof (factor_nonneg c d Hin). pose proof (block_in_pointers blocks c d Hin factor_nonneg) as Hle.
  rewrite <-(nb_children _ _ _ Hb), <-(nb_count _ _ _ Hb) in Hle. apply (Z.pow_lt_mono_r_iff 2); [lia|lia|].
  rewrite Z.pow_add_r by lia. unfold int_max in Hroom. assert (0 < 2 ^ k) by (apply Z.pow_pos_nonneg; lia). nia.
Qed.

Definition expanded : AlexModelNode :=
  mkModelNode (set_model (expand (model_ (base n)) (f64_of_Z (2 ^ k))) (base n)) (num_children_ n * 2 ^ k) (pointers (more_duplication k blocks)).

Lemma expand_node_spec : 0 < num_children_ n -> expand_node h n k = Some (raise_factors k blocks h, expanded, 2 ^ k) /\
  node_blocks (raise_factors k blocks h) expanded (more_duplication k blocks).
Proof.
  intros Hpos. pose proof (nb_children _ _ _ Hb) as Hc. pose proof (nb_count _ _ _ Hb) as Hn. assert (Hpk : 0 < 2 ^ k) by (apply Z.pow_pos_nonneg; lia).
  assert (Hk31 : k < 31).
  { apply (Z.pow_lt_mono_r_iff 2); [lia|lia|]. unfold int_max in Hroom. nia. }
  split.
  - unfold expand_node. rewrite int_shift_in by lia. cbn [mbind option_bind]. destruct (Z.leb_spec (num_children_ n * 2 ^ k) int_max); [|lia].
    unfold copy_children.
    pose proof (copy_loop k (num_children_ n) (children_ n) Hk Hn blocks [] [] h (S (length (children_ n)))) as Hloop.
    change (zlen (@nil Z)) with 0 in Hloop. cbn [app] in Hloop. rewrite <-Hc, <-Hn, (Z.mul_comm (2 ^ k) (num_children_ n)) in Hloop.
    rewrite Hloop.
    + cbn [mbind option_bind]. rewrite mapM_Some_id. done.
    + done.
    + rewrite Hc. pose proof (blocks_length blocks factor_nonneg). lia.
    + apply (nb_distinct _ _ _ Hb).
    + apply (nb_factors _ _ _ Hb).
    + intros c d Hin. pose proof (factor_sum_small c d Hin). lia.
    + unfold zlen. simpl. lia.
  - constructor; cbn [expanded children_ num_children_].
    + done.
    + rewrite zlen_more by (done || apply factor_nonneg). rewrite Hn, Hc. lia.
    + intros c d (cd & E & Hin)%list_elem_of_fmap. destruct cd as [c' d']. injection E as -> ->.
      destruct (nb_factors _ _ _ Hb c' d' Hin) as (Hd & x & Hx & Ex). pose proof (factor_sum_small c' d' Hin). split; [lia|].
      exists (set_duplication (d' + k) x). split; [|done].
      by rewrite (raise_factors_child k blocks c' d' (nb_distinct _ _ _ Hb) Hin), Hx.
    + rewrite more_keys. apply (nb_distinct _ _ _ Hb).
    + replace 0 with (2 ^ k * 0) by lia. apply more_aligned; [done|apply factor_nonneg|apply (nb_aligned _ _ _ Hb)].
Qed.

(** A key stays with its child. *)
Lemma expanded_routing key z : mid_range (a_ (model_ (base n))) -> mid_range (b_ (model_ (base n))) -> word64 key -> 0 < num_children_ n ->
  f64_trunc (predict_double (model_ (base n)) key) = Some z -> (Z.abs z + 1) * 2 ^ k <= 2 ^ 31 ->
  get_child_node expanded key = get_child_node n key.
Proof.
  intros Ha Hbm Hkey Hpos Hz Hsmall. set (m := model_ (base n)) in *. assert (Hpk : 0 < 2 ^ k) by (apply Z.pow_pos_nonneg; lia).
  assert (Hk30 : k <= 30).
  { enough (k < 31) by lia. apply (Z.pow_lt_mono_r_iff 2); [lia|lia|]. unfold int_max in Hroom. nia. }
  pose proof (predict_double_scale m key z k Ha Hbm Hkey ltac:(lia) Hz Hsmall) as Hscaled.
  destruct (trunc_scale _ k z Hk Hz) as (z' & Ez' & Hp & H0 & Hneg). unfold get_child_node, predict, f64_to_int. cbn [expanded base model_ set_model num_children_ children_].
  fold m. rewrite Hscaled, Ez', Hz. unfold int_min, int_max in *.
  assert (Hin : forall y, Z.abs y < 2 ^ 31 -> ((- 2 ^ 31 <=? y) && (y <=? 2 ^ 31 - 1)) = true) by (intros y Hy; apply andb_true_intro; split; apply Z.leb_le; lia).
  assert (Hz' : Z.abs z' < 2 ^ 31).
  { destruct (Z.lt_trichotomy z 0) as [Hlt|[Heq|Hgt]].
    - specialize (Hneg Hlt). pose proof (Z.div_mod (- z') (2 ^ k) ltac:(lia)). pose proof (Z.mod_pos_bound (- z') (2 ^ k) Hpk). nia.
    - specialize (H0 Heq). nia.
    - specialize (Hp Hgt). pose proof (Z.div_mod z' (2 ^ k) ltac:(lia)). pose proof (Z.mod_pos_bound z' (2 ^ k) Hpk). nia. }
  rewrite !Hin by nia. pose proof (nb_children _ _ _ Hb) as Hc. rewrite Hc.
  rewrite more_rd by (lia || apply factor_nonneg || nia). f_equal. symmetry.
  destruct (Z.lt_trichotomy z 0) as [Hlt|[Heq|Hgt]].
  - specialize (Hneg Hlt). pose proof (Z.div_mod (- z') (2 ^ k) ltac:(lia)). pose proof (Z.mod_pos_bound (- z') (2 ^ k) Hpk).
    assert (z' <= 0) by nia. rewrite (Z.max_r z'), (Z.max_r z) by lia. rewrite !Z.min_l by nia. by rewrite Z.div_0_l by lia.
  - specialize (H0 Heq). rewrite Heq, (Z.max_id 0). rewrite (Z.min_l 0) by lia. symmetry. apply Z.div_small. lia.
  - specialize (Hp Hgt). pose proof (Z.div_mod z' (2 ^ k) ltac:(lia)) as Hdm. pose proof (Z.mod_pos_bound z' (2 ^ k) Hpk).
    rewrite (Z.max_l z'), (Z.max_l z) by nia. destruct (Z.le_gt_cases z (num_children_ n - 1)) as [Hle|Hgt2].
    + rewrite (Z.min_l z) by lia. rewrite Z.min_l by nia. done.
    + rewrite (Z.min_r z) by lia. rewrite Z.min_r by nia.
      replace (num_children_ n * 2 ^ k - 1) with ((2 ^ k - 1) + (num_children_ n - 1) * 2 ^ k) by lia. rewrite Z.div_add by lia.
      rewrite (Z.div_small (2 ^ k - 1)) by lia. lia.
Qed.
End Expand.

(** C15: expanding a model node by a power of two is memory safe, keeps its children
    in aligned blocks with the right duplication factors, changes no other node, and
    keeps the child of every key whose prediction does not leave the range of [int],
    rounding included: the scaled model predicts exactly the scaled positions. *)
Theorem expand_keeps_routing h n blocks k : node_blocks h n blocks -> 0 <= k -> 0 < num_children_ n -> num_children_ n * 2 ^ k <= int_max ->
  mid_range (a_ (model_ (base n))) -> mid_range (b_ (model_ (base n))) ->
  exists h' n', expand_node h n k = Some (h', n', 2 ^ k) /\ node_blocks h' n' (more_duplication k blocks) /\
    num_children_ n' = num_children_ n * 2 ^ k /\ (forall p, p ∉ blocks.*1 -> h' !! p = h !! p) /\
    forall key z, word64 key -> f64_trunc (predict_double (model_ (base n)) key) = Some z -> (Z.abs z + 1) * 2 ^ k <= 2 ^ 31 ->
      get_child_node n' key = get_child_node n key.
Proof.
  intros Hb Hk Hpos Hroom Ha Hbm. destruct (expand_node_spec h n blocks Hb k Hk Hroom Hpos) as [E Hb'].
  eexists _, _. split; [exact E|]. split; [exact Hb'|]. split; [done|]. split; [intros p Hp; by apply raise_factors_other|].
  intros key z Hkey Hz Hsmall. by eapply expanded_routing.
Qed.

(** *** A node with four buckets and three children *)

Definition demo_blocks : list (Z * Z) := [(10, 1); (11, 0); (12, 0)].

Definition demo_child (d : Z) : AlexNodeBase := mkBase true d 1 LinearModel_default f64_zero.

Definition demo_heap : Heap := <[10 := demo_child 1]> (<[11 := demo_child 0]> (<[12 := demo_child 0]> ∅)).

Definition demo_node : AlexModelNode :=
  mkModelNode (mkBase false 0 0 (mkLinearModel (f64_lit 4 1000) (f64_lit (-1) 3)) f64_zero) 4 [10; 10; 11; 12].

Lemma demo_blocks_ok : node_blocks demo_heap demo_node demo_blocks.
Proof.
  constructor; [reflexivity|reflexivity| |by apply (bool_decide_unpack _); vm_compute|by repeat split].
  intros c d Hin. unfold demo_blocks in Hin. rewrite !elem_of_cons, elem_of_nil in Hin.
  destruct Hin as [[= -> ->]|[[= -> ->]|[[= -> ->]|[]]]]; (split; [lia|]); eexists; (split; [vm_compute; reflexivity|reflexivity]).
Qed.

Lemma expand_keeps_routing_witness : exists h' n', expand_node demo_heap demo_node 2 = Some (h', n', 4) /\
  get_child_node n' 600 = Some 11 /\ children_ n' = [10; 10; 10; 10; 10; 10; 10; 10; 11; 11; 11; 11; 12; 12; 12; 12].
Proof.
  destruct (expand_keeps_routing demo_heap demo_node demo_blocks 2 demo_blocks_ok) as (h' & n' & E & Hb & Hn & _ & Hroute).
  - lia.
  - reflexivity.
  - vm_compute. discriminate.
  - unfold mid_range; split; vm_compute; [reflexivity|split; discriminate].
  - unfold mid_range; split; vm_compute; [reflexivity|split; discriminate].
  - exists h', n'. split; [exact E|]. split; [|rewrite (nb_children _ _ _ Hb); vm_compute; reflexivity].
    rewrite (Hroute 600 2).
    + vm_compute. reflexivity.
    + split; [lia|reflexivity].
    + vm_compute. reflexivity.
    + vm_compute. discriminate.
Defined.

(** ** validate_structure *)

(** Runs of the same pointer, neighbours different. *)
Fixpoint runs_differ (blocks : list (Z * Z)) : Prop :=
  match blocks with
  | (c, _) :: (((c', _) :: _) as blocks') => c <> c' /\ runs_differ blocks'
  | _ => True
  end.

Lemma is_power_of_2_pow d : 0 <= d -> is_power_of_2 (2 ^ d) = true.
Proof. intros Hd. unfold is_power_of_2. rewrite Z.log2_up_pow2, Z.log2_pow2 by done. by apply Z.eqb_eq. Qed.

(** The tests after the run of a block. *)
Lemma region_ok_spec h c r i b : region_ok h c r i = Some b ->
  b = true <-> exists x, h !! c = Some x /\ r = 2 ^ duplication_factor_ x /\ 0 <= duplication_factor_ x < 31 /\ i mod r = 0.
Proof.
  unfold region_ok. intros E. destruct (h !! c) as [x|] eqn:Ex; [|done]. cbn [mbind option_bind] in E. unfold int_shift in E.
  destruct (Z.leb_spec 0 (duplication_factor_ x)) as [H0|]; [|done]. destruct (Z.ltb_spec (duplication_factor_ x) 31) as [H31|]; [|done].
  cbn in E. injection E as <-. split.
  - intros H. btest. exists x. done.
  - intros (x' & [= <-] & -> & _ & Hm). rewrite Z.eqb_refl, is_power_of_2_pow by done. by rewrite Hm.
Qed.

Lemma run_inj {A} (c : A) (n m : nat) l1 l2 : head l1 <> Some c -> head l2 <> Some c -> replicate n c ++ l1 = replicate m c ++ l2 -> n = m /\ l1 = l2.
Proof.
  intros H1 H2. revert m. induction n as [|n IH]; intros [|m] E; cbn in E; subst.
  - done.
  - by destruct H1.
  - by destruct H2.
  - injection E as E. destruct (IH m E) as [-> ->]. done.
Qed.

Lemma head_pointers h blocks c d : factors_ok h blocks -> runs_differ ((c, d) :: blocks) -> head (pointers blocks) <> Some c.
Proof.
  destruct blocks as [|[c' d'] blocks]; [done|]. intros Hf [Hne _]. destruct (Hf c' d') as [[Hd _] _]; [constructor|]. rewrite pointers_cons.
  assert (0 < 2 ^ d') by (apply Z.pow_pos_nonneg; lia). destruct (Z.to_nat (2 ^ d')) as [|m] eqn:Em; [lia|]. cbn. intros [= ->]. done.
Qed.

Lemma factors_cons h c d blocks x : h !! c = Some x -> duplication_factor_ x = d -> 0 <= d < 31 -> factors_ok h blocks -> factors_ok h ((c, d) :: blocks).
Proof. intros Hx Hd H31 Hf c' d' Hin. apply elem_of_cons in Hin as [[= -> ->]|Hin]; [split; [done|by exists x]|by apply Hf]. Qed.

Lemma factors_head h c d blocks : factors_ok h ((c, d) :: blocks) -> 0 <= d < 31 /\ exists x, h !! c = Some x /\ duplication_factor_ x = d.
Proof. intros Hf. apply (Hf c d). constructor. Qed.

Lemma factors_tail h b blocks : factors_ok h (b :: blocks) -> factors_ok h blocks.
Proof. intros Hf c d Hin. apply Hf. by constructor. Qed.

(** [rest] after [r] pointers to [c], seen as blocks from [start] on. *)
Definition run_blocks (h : Heap) (start c : Z) (l : list Z) : Prop :=
  exists d blocks, l = pointers ((c, d) :: blocks) /\ factors_ok h ((c, d) :: blocks) /\ runs_differ ((c, d) :: blocks) /\ aligned start ((c, d) :: blocks).

(** A run that ends before [l] is a block of its own. *)
Lemma run_blocks_end h i c r l : 0 < r -> head l <> Some c -> run_blocks h (i - r) c (replicate (Z.to_nat r) c ++ l) <->
  (exists x, h !! c = Some x /\ r = 2 ^ duplication_factor_ x /\ 0 <= duplication_factor_ x < 31 /\ i mod r = 0) /\
  (l = [] \/ exists e l', l = e :: l' /\ run_blocks h i e l).
Proof.
  intros Hr Hl. assert (Hmod : forall r', r' = r -> (i - r') mod r = i mod r).
  { intros r' ->. replace (i - r) with (i + (-1) * r) by lia. by rewrite Z.mod_add by lia. }
  split.
  - intros (d & blocks & E & Hf & Hd & Ha). destruct (factors_head _ _ _ _ Hf) as (H31 & x & Hx & Ex). assert (Hp : 0 < 2 ^ d) by (apply Z.pow_pos_nonneg; lia).
    rewrite pointers_cons in E. apply run_inj in E as [Er El]; [|done|by eapply head_pointers; [eapply factors_tail|]]. assert (r = 2 ^ d) as -> by lia.
    cbn [aligned] in Ha. destruct Ha as [Ha1 Ha2]. rewrite Hmod in Ha1 by done. split; [exists x; by rewrite Ex|].
    destruct blocks as [|[e d'] blocks]; [by left|]. right. destruct Hd as [_ Hd]. apply factors_tail in Hf.
    destruct (factors_head _ _ _ _ Hf) as [H31' _]. assert (0 < 2 ^ d') by (apply Z.pow_pos_nonneg; lia).
    replace (i - 2 ^ d + 2 ^ d) with i in Ha2 by lia. rewrite pointers_cons in El.
    destruct (Z.to_nat (2 ^ d')) as [|m] eqn:Em; [lia|]. exists e, (replicate m e ++ pointers blocks). split; [done|].
    exists d', blocks. rewrite pointers_cons, Em. done.
  - intros [(x & Hx & Er & H31 & Hm) Hrest]. set (d := duplication_factor_ x) in *.
    destruct Hrest as [->|(e & l' & E & d' & blocks & El & Hf & Hd & Ha)].
    + exists d, []. rewrite pointers_cons, <-Er. split; [done|]. split; [apply (factors_cons h c d [] x); try done; intros ? ? Hin; by apply elem_of_nil in Hin|].
      split; [done|]. split; [|done]. rewrite <-Er. by rewrite Hmod.
    + exists d, ((e, d') :: blocks). rewrite pointers_cons, <-Er, <-El. split; [done|]. split; [by eapply factors_cons|]. split.
      * split; [|done]. intros ->. rewrite E in Hl. done.
      * split; [by rewrite <-Er, Hmod|]. rewrite <-Er. by replace (i - r + r) with i by lia.
Qed.

(** From a run of [r] pointers to [c] that started at [i - r] on, the loop succeeds if
    and only if the rest of the run and the following pointers are blocks. *)
Lemma regions_ok_spec h rest : forall i c r res, 0 < r -> regions_ok h i c r rest = Some res ->
  res.1 = true <-> run_blocks h (i - r) c (replicate (Z.to_nat r) c ++ rest).
Proof.
  induction rest as [|e rest IH]; intros i c r res Hr E; cbn [regions_ok] in E.
  - destruct (region_ok h c r i) as [ok|] eqn:Eok; [|done]. injection E as <-. rewrite (region_ok_spec _ _ _ _ _ Eok), run_blocks_end by done.
    split; [intros Hx; split; [done|by left]|by intros [Hx _]].
  - destruct (Z.eqb_spec e c) as [->|Hne].
    + rewrite (IH (i + 1) c (r + 1) res ltac:(lia) E). replace (i + 1 - (r + 1)) with (i - r) by lia.
      replace (Z.to_nat (r + 1)) with (S (Z.to_nat r)) by lia. by rewrite replicate_S_end, <-app_assoc.
    + destruct (region_ok h c r i) as [ok|] eqn:Eok; [|done]. cbn [mbind option_bind] in E. rewrite run_blocks_end by (cbn; congruence).
      rewrite <-(region_ok_spec _ _ _ _ _ Eok). destruct ok.
      * rewrite (IH (i + 1) e 1 res ltac:(lia) E). replace (i + 1 - 1) with i by lia. change (replicate (Z.to_nat 1) e ++ rest) with (e :: rest).
        split; [intros Hx; split; [done|right; by exists e, rest]|]. intros [_ [?|(e' & l' & [= <- <-] & Hx)]]; done.
      * injection E as <-. split; [done|by intros [? _]].
Qed.

Definition factors_in (h : Heap) (l : list Z) : Prop := Forall (fun p => exists x, h !! p = Some x /\ 0 <= duplication_factor_ x < 31) l.

Lemma regions_ok_total h rest : forall i c r, factors_in h (c :: rest) -> exists res, regions_ok h i c r rest = Some res.
Proof.
  assert (Hreg : forall c r i, (exists x, h !! c = Some x /\ 0 <= duplication_factor_ x < 31) -> exists b, region_ok h c r i = Some b).
  { intros c r i (x & Hx & Hd). unfold region_ok. rewrite Hx. cbn [mbind option_bind]. rewrite int_shift_in by done. by eexists. }
  induction rest as [|e rest IH]; intros i c r Hf; apply Forall_cons_1 in Hf as [Hc Hf]; cbn [regions_ok].
  - destruct (Hreg c r i Hc) as [b ->]. by eexists.
  - destruct (Z.eqb_spec e c) as [->|Hne]; [by apply IH|]. destruct (Hreg c r i Hc) as [b ->]. cbn [mbind option_bind].
    destruct b; [by apply IH|by eexists].
Qed.

(** The last run covers everything exactly when there is one run. *)
Lemma regions_ok_last h rest : forall i c r r', 0 < r -> regions_ok h i c r rest = Some (true, r') ->
  r' <= r + zlen rest /\ (r' = r + zlen rest <-> Forall (fun e => e = c) rest).
Proof.
  induction rest as [|e rest IH]; intros i c r r' Hr E; cbn [regions_ok] in E; [|replace (zlen (e :: rest)) with (zlen rest + 1) by (unfold zlen; simpl; lia)].
  - destruct (region_ok h c r i); [|done]. injection E as _ <-. unfold zlen. simpl. split; [lia|]. split; [constructor|lia].
  - pose proof (zlen_nonneg rest). destruct (Z.eqb_spec e c) as [->|Hne].
    + destruct (IH _ _ (r + 1) _ ltac:(lia) E) as [Hle Hiff]. split; [lia|]. rewrite Forall_cons, <-Hiff. lia.
    + destruct (region_ok h c r i) as [[]|]; [|done..]. destruct (IH _ _ 1 _ ltac:(lia) E) as [Hle _]. split; [lia|].
      rewrite Forall_cons. split; [lia|by intros [? _]].
Qed.

Lemma one_block h c d blocks rest : factors_ok h ((c, d) :: blocks) -> runs_differ ((c, d) :: blocks) -> c :: rest = pointers ((c, d) :: blocks) ->
  Forall (fun e => e = c) rest <-> blocks = [].
Proof.
  intros Hf Hd E. destruct (factors_head _ _ _ _ Hf) as [Hd31 _]. assert (0 < 2 ^ d) by (apply Z.pow_pos_nonneg; lia). split.
  - intros Hall. assert (Hc : Forall (fun e => e = c) (pointers ((c, d) :: blocks))) by (rewrite <-E; by constructor).
    rewrite pointers_cons in Hc. apply Forall_app in Hc as [_ Hc]. pose proof (head_pointers h blocks c d (factors_tail _ _ _ Hf) Hd) as Hh.
    destruct blocks as [|[c' d'] blocks]; [done|]. destruct (factors_head _ _ _ _ (factors_tail _ _ _ Hf)) as [Hd31' _].
    assert (0 < 2 ^ d') by (apply Z.pow_pos_nonneg; lia). rewrite pointers_cons in Hc, Hh. destruct (Z.to_nat (2 ^ d')) as [|m] eqn:Em; [lia|].
    cbn in Hc, Hh. apply Forall_cons_1 in Hc as [-> _]. done.
  - intros ->. rewrite pointers_cons in E. destruct (Z.to_nat (2 ^ d)) as [|m] eqn:Em; [lia|]. injection E as ->. rewrite app_nil_r.
    apply Forall_replicate. done.
Qed.

(** What the loop and the last test accept. *)
Lemma runs_accepted h c rest r ok : regions_ok h 1 c 1 rest = Some (ok, r) ->
  ok && negb (r =? 1 + zlen rest) = true <->
  exists blocks, (2 <= length blocks)%nat /\ c :: rest = pointers blocks /\ factors_ok h blocks /\ runs_differ blocks /\ aligned 0 blocks.
Proof.
  intros Er. pose proof (regions_ok_spec h rest 1 c 1 _ ltac:(lia) Er) as Hspec. cbn [fst] in Hspec.
  change (replicate (Z.to_nat 1) c ++ rest) with (c :: rest) in Hspec. change (1 - 1) with 0 in Hspec. split.
  - intros [-> Hr]%andb_prop. destruct (regions_ok_last _ _ _ _ _ _ Z.lt_0_1 Er) as [_ Hlast]. destruct Hspec as [Hspec _].
    destruct (Hspec eq_refl) as (d & blocks & E & Hf & Hd & Ha). exists ((c, d) :: blocks). split; [|done].
    destruct blocks as [|b blocks]; [|simpl; lia]. rewrite (proj2 Hlast), Z.eqb_refl in Hr; [done|]. by eapply one_block.
  - intros (blocks & Hlen & E & Hf & Hd & Ha). destruct blocks as [|[c' d] blocks]; [simpl in Hlen; lia|].
    assert (c' = c) as ->.
    { destruct (factors_head _ _ _ _ Hf) as [Hd31 _]. assert (0 < 2 ^ d) by (apply Z.pow_pos_nonneg; lia). rewrite pointers_cons in E.
      destruct (Z.to_nat (2 ^ d)) as [|m] eqn:Em; [lia|]. by injection E. }
    assert (ok = true) as -> by (apply Hspec; by exists d, blocks). destruct (regions_ok_last _ _ _ _ _ _ Z.lt_0_1 Er) as [_ Hlast].
    destruct (Z.eqb_spec r (1 + zlen rest)) as [Hr|]; [|done]. apply Hlast in Hr. apply (one_block h c d blocks rest Hf Hd E) in Hr. subst. simpl in Hlen. lia.
Qed.

Lemma is_power_of_2_spec x : 0 < x -> is_power_of_2 x = true <-> exists k, x = 2 ^ k.
Proof. intros Hx. unfold is_power_of_2. rewrite Z.eqb_eq, <-Z.log2_log2_up_exact by done. split; by intros ->. Qed.

Lemma two_blocks h blocks : factors_ok h blocks -> (2 <= length blocks)%nat -> 2 <= zlen (pointers blocks).
Proof.
  intros Hf Hlen. pose proof (blocks_length blocks) as Hb. unfold zlen. enough (length blocks <= length (pointers blocks))%nat by lia.
  apply Hb. intros c d Hin. by destruct (Hf c d Hin) as [[? _] _].
Qed.

(** C36: validate_structure of a model node is memory safe when every child exists and
    its duplication factor fits an int, and accepts exactly the nodes with a nonzero
    slope, a power of two of buckets, and at least two children laid out in aligned
    blocks of the sizes their duplication factors announce. *)
Theorem validate_model_node_exact h n : num_children_ n = zlen (children_ n) -> factors_in h (children_ n) ->
  exists b, validate_model_node h n = Some b /\
    (b = true <-> SFeqb (a_ (model_ (base n))) f64_zero = false /\ (exists k, num_children_ n = 2 ^ k) /\
      exists blocks, (2 <= length blocks)%nat /\ children_ n = pointers blocks /\ factors_ok h blocks /\ runs_differ blocks /\ aligned 0 blocks).
Proof.
  intros Hn Hf. unfold validate_model_node.
  assert (Hsmall : forall P Q : Prop, zlen (children_ n) < 2 -> exists b, Some false = Some b /\ (b = true <-> P /\ Q /\
      exists blocks, (2 <= length blocks)%nat /\ children_ n = pointers blocks /\ factors_ok h blocks /\ runs_differ blocks /\ aligned 0 blocks)).
  { intros P Q Hlt. exists false. split; [done|]. split; [done|]. intros (_ & _ & blocks & Hlen & E & Hfb & _).
    pose proof (two_blocks h blocks Hfb Hlen). rewrite E in Hlt. lia. }
  destruct (Z.eqb_spec (num_children_ n) 0); [apply Hsmall; lia|]. destruct (Z.eqb_spec (num_children_ n) 1); [apply Hsmall; lia|]. clear Hsmall.
  destruct (children_ n) as [|c rest] eqn:Ec; [done|]. destruct (regions_ok_total h rest 1 c 1 Hf) as [[ok r] Er].
  assert (Hpos : num_children_ n = 1 + zlen rest) by (rewrite Hn; unfold zlen; simpl; lia). pose proof (zlen_nonneg rest).
  assert (Htake : take (Z.to_nat (num_children_ n - 1)) (drop 1 (c :: rest)) = rest) by (apply take_ge; rewrite Hpos; unfold zlen; simpl; lia).
  pose proof (runs_accepted _ _ _ _ _ Er) as Hacc. pose proof (is_power_of_2_spec (num_children_ n) ltac:(lia)) as Hpow.
  destruct (is_power_of_2 (num_children_ n)); cbn [negb];
    [|exists false; split; [done|]; split; [done|]; intros (_ & Hk & _); by apply Hpow in Hk].
  destruct (SFeqb (a_ (model_ (base n))) f64_zero); [exists false; split; [done|]; split; [done|]; by intros [? _]|].
  rewrite Htake. change ((c :: rest).[0]) with (Some c). cbn [mbind option_bind]. rewrite Er. cbn [mbind option_bind].
  eexists. split; [done|]. rewrite <-Hpos in Hacc. tauto.
Qed.

Lemma validate_model_node_exact_witness : exists b, validate_model_node demo_heap demo_node = Some b /\ b = true.
Proof.
  destruct (validate_model_node_exact demo_heap demo_node) as (b & E & Hb).
  - reflexivity.
  - unfold factors_in. repeat constructor; (eexists; split; [vm_compute; reflexivity|cbn; lia]).
  - exists b. split; [exact E|]. apply Hb. split; [vm_compute; reflexivity|]. split; [by exists 2|]. exists demo_blocks.
    split; [simpl; lia|]. split; [reflexivity|]. split; [apply (nb_factors _ _ _ demo_blocks_ok)|]. split; [by repeat split|apply (nb_aligned _ _ _ demo_blocks_ok)].
Defined.
