(* ===== verification/AlexFanout.v ===== *)
(** * ALEX: the fanout tree (alex/src/alex_fanout_tree.h)

    How a node is divided among children: complete levels of candidate children
    are costed one after the other, the best level is taken and pairs of its
    nodes are merged upwards while that saves cost.  The nodes left in use become
    the children.

    Doubles are software floats; the cost of a candidate comes from AlexCost.v.
    [sizeof_node] is [sizeof(AlexDataNode<T, P>)], [key_less] the comparison of a
    key with a double. *)

From S2P Require Import Prelude Words Floats AlexBase AlexBitmap AlexSearch AlexNode AlexLookup.
From S2P Require Import AlexInsert AlexPlace AlexResize AlexUpdate AlexCost AlexModel.
From Stdlib Require Import SpecFloat Sorted.
From stdpp Require Import gmap sorting.
Local Open Scope Z_scope.
Local Open Scope cxx_scope.

(** ** Data *)

Record FTNode := mkFT {
  ft_level : Z;
  node_id : Z;
  ft_cost : f64;
  left_boundary : Z;
  right_boundary : Z;
  use : bool;
  expected_avg_search_iterations : f64;
  expected_avg_shifts : f64;
  ft_a : f64;
  ft_b : f64;
  ft_num_keys : Z
}.

Definition set_use (v : bool) (nd : FTNode) : FTNode :=
  mkFT (ft_level nd) (node_id nd) (ft_cost nd) (left_boundary nd) (right_boundary nd) v
    (expected_avg_search_iterations nd) (expected_avg_shifts nd) (ft_a nd) (ft_b nd) (ft_num_keys nd).

(** A candidate without keys. *)
Definition empty_ft (level i left right : Z) : FTNode := mkFT level i f64_zero left right false f64_zero f64_zero f64_zero f64_zero 0.

Abbreviation FanoutTree := (list (list FTNode)).

Definition kModelSizeWeight : f64 := f64_lit 5 10000000.

(** ** Used nodes *)

(** The comparison of the sort: the first finest bucket a node covers. *)
Definition sort_key (max_level : Z) (nd : FTNode) : Z := Z.shiftl (node_id nd) (max_level - ft_level nd).

Definition key_before (max_level : Z) (left right : FTNode) : Prop := sort_key max_level left <= sort_key max_level right.

#[export] Instance key_before_dec max_level : RelDecision (key_before max_level).
Proof. intros left right. unfold key_before. apply _. Defined.

Definition collect_used_nodes (fanout_tree : FanoutTree) (max_level : Z) (used_fanout_tree_nodes : list FTNode) : list FTNode :=
  let max_level := Z.min max_level (zlen fanout_tree - 1) in
  merge_sort (key_before max_level)
    (used_fanout_tree_nodes ++ List.filter use (concat (take (Z.to_nat (max_level + 1)) fanout_tree))).

(** [fanout_tree[level][i]] and [fanout_tree[level][i].use = v]. *)
Definition ft_at (fanout_tree : FanoutTree) (level i : Z) : option FTNode := l ← fanout_tree.[level]; l.[i].

Definition mark (fanout_tree : FanoutTree) (level i : Z) (v : bool) : option FanoutTree :=
  l ← fanout_tree.[level]; nd ← l.[i]; l ← wr l i (set_use v nd); wr fanout_tree level l.

Section Fanout.
Context (sizeof_node : Z).

(** [kModelSizeWeight * sizeof(AlexDataNode<T, P>) * total_keys / num] *)
Definition model_weight (total_keys num : Z) : f64 :=
  f64_div (f64_mul (f64_mul kModelSizeWeight (f64_of_Z sizeof_node)) (f64_of_Z total_keys)) (f64_of_Z num).

(** [kNodeLookupsWeight + kModelSizeWeight * fanout * (sizeof(...) + sizeof(void* )) * total_keys / num_keys] *)
Definition traversal_cost (fanout total_keys num_keys : Z) : f64 :=
  f64_add kNodeLookupsWeight
    (f64_div (f64_mul (f64_mul (f64_mul kModelSizeWeight (f64_of_Z fanout)) (f64_of_Z (sizeof_node + 8))) (f64_of_Z total_keys))
       (f64_of_Z num_keys)).

(** ** Merging upwards *)

(** Two used siblings become their parent. *)
Definition merge_pair (fanout_tree : FanoutTree) (level i : Z) : option FanoutTree :=
  t ← mark fanout_tree level (2 * i) false;
  t ← mark t level (2 * i + 1) false;
  mark t (level - 1) i true.

(** The body of the inner loop. *)
Definition merge_step (num_keys total_keys level i : Z) '(best_cost, fanout_tree, at_least_one_merge)
    : option (f64 * FanoutTree * bool) :=
  left ← ft_at fanout_tree level (2 * i);
  both ← (if use left then right ← ft_at fanout_tree level (2 * i + 1); Some (use right) else Some false);
  if (both : bool) then
    right ← ft_at fanout_tree level (2 * i + 1);
    parent ← ft_at fanout_tree (level - 1) i;
    let num_node_keys := ft_num_keys parent in
    if num_node_keys =? 0 then
      t ← merge_pair fanout_tree level i;
      Some (f64_sub best_cost (model_weight total_keys num_keys), t, true)
    else
      let merging_cost_saving :=
        f64_add (f64_sub (f64_add
          (f64_div (f64_mul (ft_cost left) (f64_of_Z (ft_num_keys left))) (f64_of_Z num_node_keys))
          (f64_div (f64_mul (ft_cost right) (f64_of_Z (ft_num_keys right))) (f64_of_Z num_node_keys)))
          (ft_cost parent))
          (model_weight total_keys num_node_keys) in
      if SFleb f64_zero merging_cost_saving then
        t ← merge_pair fanout_tree level i;
        Some (f64_sub best_cost (f64_div (f64_mul merging_cost_saving (f64_of_Z num_node_keys)) (f64_of_Z num_keys)), t, true)
      else Some (best_cost, fanout_tree, at_least_one_merge)
  else Some (best_cost, fanout_tree, at_least_one_merge).

Definition merge_nodes_upwards (start_level : Z) (best_cost : f64) (num_keys total_keys : Z) (fanout_tree : FanoutTree)
    : option (f64 * FanoutTree) :=
  loop (S (Z.to_nat start_level)) (fun '(level, best_cost, fanout_tree) =>
    if 1 <=? level then
      level_fanout ← int_shift level;
      '(best_cost, fanout_tree, at_least_one_merge) ←
        for_up 0 (Z.quot level_fanout 2) (merge_step num_keys total_keys level) (best_cost, fanout_tree, false);
      if (at_least_one_merge : bool) then Some (inl (level - 1, best_cost, fanout_tree))
      else Some (inr (best_cost, fanout_tree))
    else Some (inr (best_cost, fanout_tree))) (start_level, best_cost, fanout_tree).

(** ** Levels *)

(** The cost went up twice in a row. *)
Definition rises_twice (fanout_costs : list f64) : bool :=
  match reverse fanout_costs with
  | c1 :: c2 :: c3 :: _ => SFltb c2 c1 && SFltb c3 c2
  | _ => false
  end.

(** Take the best level, merge, collect. *)
Definition choose_nodes (fanout_tree : FanoutTree) (best_level : Z) (best_cost : f64) (num_keys total_keys : Z)
    (used_fanout_tree_nodes : list FTNode) : option (f64 * list FTNode) :=
  best ← fanout_tree.[best_level];
  fanout_tree ← wr fanout_tree best_level (set_use true <$> best);
  '(best_cost, fanout_tree) ← merge_nodes_upwards best_level best_cost num_keys total_keys fanout_tree;
  Some (best_cost, collect_used_nodes fanout_tree best_level used_fanout_tree_nodes).

(** The loop over the levels; [compute] costs one of them.  It returns the tree,
    the best level and its cost. *)
Definition add_levels {S} (compute : S -> Z -> Z -> option (S * (f64 * list FTNode))) (max_fanout : Z) (st : S)
    (fanout level : Z) (best_level : Z) (best_cost : f64) (fanout_costs : list f64) (fanout_tree : FanoutTree)
    : option (S * (FanoutTree * Z * f64)) :=
  loop 32 (fun '(st, fanout, level, best_level, best_cost, fanout_costs, fanout_tree) =>
    if fanout <=? max_fanout then
      '(st, (cost, new_level)) ← compute st level fanout;
      let fanout_costs := fanout_costs ++ [cost] in
      if rises_twice fanout_costs then Some (inr (st, (fanout_tree, best_level, best_cost)))
      else
        let '(best_cost, best_level) := if SFltb cost best_cost then (cost, level) else (best_cost, best_level) in
        if fanout * 2 <=? int_max then
          Some (inl (st, fanout * 2, level + 1, best_level, best_cost, fanout_costs, fanout_tree ++ [new_level]))
        else None
    else Some (inr (st, (fanout_tree, best_level, best_cost))))
    (st, fanout, level, best_level, best_cost, fanout_costs, fanout_tree).

Context (log2 pow2 : f64 -> f64).

(** *** Bulk loading *)

Section Array.
Context {P : Type} (key_less : Z -> f64 -> bool) (values : list (Z * P)) (num_keys : Z) (node : AlexNodeBase).

(** [std::lower_bound(values + l, values + r, bound)], as a position of [values]. *)
Definition lower_bound_in (l r : Z) (bound : f64) : option Z :=
  binary_search (fun k => negb (key_less k bound)) values.*1 l r.

(** [((i + 1) - b) / a] *)
Definition bound_of (a b : f64) (i : Z) : f64 := f64_div (f64_sub (f64_of_Z (i + 1)) b) a.

(** The [while] loop after the search. *)
Definition skip_predicted (a b : f64) (i right : Z) : option Z :=
  loop (S (Z.to_nat num_keys)) (fun right =>
    if right <? num_keys then
      v ← values.[right];
      if predict (mkLinearModel a b) v.1 <=? i then Some (inl (right + 1)) else Some (inr right)
    else Some (inr right)) right.

Definition right_of (a b : f64) (fanout i : Z) : option Z :=
  right ← (if i =? fanout - 1 then Some num_keys else lower_bound_in 0 num_keys (bound_of a b i));
  skip_predicted a b i right.

(** Model, cost and statistics of a data node with the keys of a range. *)
Definition evaluate (left right max_data_node_keys : Z) (expected_insert_frac : f64) (approximate_model approximate_cost : bool)
    : option (f64 * DataNodeStats * LinearModel) :=
  let range := drop (Z.to_nat left) values in
  let num := right - left in
  model ← build_model range num approximate_model;
  '(node_cost, stats) ← compute_expected_cost_of log2 pow2 range num kInitDensity_ expected_insert_frac (Some model) approximate_cost;
  Some (if max_data_node_keys <? num then f64_add node_cost kNodeLookupsWeight else node_cost,
        default (mkStats f64_zero f64_zero) stats, model).

Definition compute_level (total_keys : Z) (used_fanout_tree_nodes : list FTNode) (level max_data_node_keys : Z)
    (expected_insert_frac : f64) (approximate_model approximate_cost : bool) : option (f64 * list FTNode) :=
  fanout ← int_shift level;
  let a := f64_mul (a_ (model_ node)) (f64_of_Z fanout) in
  let b := f64_mul (b_ (model_ node)) (f64_of_Z fanout) in
  '(cost, _, used) ← for_up 0 fanout (fun i '(cost, last, used) =>
    let left := last in
    right ← right_of a b fanout i;
    if left =? right then Some (cost, right, used ++ [empty_ft level i left right])
    else
      '(node_cost, stats, model) ← evaluate left right max_data_node_keys expected_insert_frac approximate_model approximate_cost;
      let cost := f64_add cost (f64_div (f64_mul node_cost (f64_of_Z (right - left))) (f64_of_Z num_keys)) in
      Some (cost, right, used ++ [mkFT level i node_cost left right false (num_search_iterations stats) (num_shifts stats)
                                    (a_ model) (b_ model) (right - left)])) (f64_zero, 0, used_fanout_tree_nodes);
  Some (f64_add cost (traversal_cost fanout total_keys num_keys), used).

Definition find_best_fanout_bottom_up (total_keys : Z) (used_fanout_tree_nodes : list FTNode) (max_fanout max_data_node_keys : Z)
    (expected_insert_frac : f64) (approximate_model approximate_cost : bool) : option (Z * f64 * list FTNode) :=
  let best_cost := f64_add (cost_ node) kNodeLookupsWeight in
  let root := mkFT 0 0 best_cost 0 num_keys false f64_zero f64_zero f64_zero f64_zero num_keys in
  '(_, (fanout_tree, best_level, best_cost)) ← add_levels
    (fun (_ : unit) level _ => l ← compute_level total_keys [] level max_data_node_keys expected_insert_frac approximate_model approximate_cost;
       Some (tt, l)) max_fanout tt 2 1 0 best_cost [best_cost] [[root]];
  '(best_cost, used) ← choose_nodes fanout_tree best_level best_cost num_keys total_keys used_fanout_tree_nodes;
  Some (best_level, best_cost, used).
End Array.

(** *** Splitting a data node *)

Section Existing.
Context {P : Type}.

(** [static_cast<uint64_t>(x)], undefined when [x] does not fit. *)
Definition f64_to_u64 (x : f64) : option Z := z ← f64_trunc x; if (-1 <? z) && (z <? 2 ^ 64) then Some z else None.

(** [AlexDataNode::lower_bound] of a double: the prediction converts it to a key, the
    search compares keys with it as doubles. *)
Definition lower_bound_double (n : AlexDataNode P) (key : f64) : option (Z * AlexDataNode P) :=
  let n := upd_counters n add_lookup in
  k ← f64_to_u64 key;
  '(pos, it) ← exponential_search (fun s => negb (SFltb (f64_of_Z s) key)) (key_slots_ (slots_ n)) (data_capacity_ (slots_ n))
    (predict_position n k);
  Some (pos, upd_counters n (add_iterations it)).

(** The model that maps the range of the buckets of a child to [0, 1). *)
Definition base_model_of (m : LinearModel) (start_bucketID end_bucketID : Z) : LinearModel :=
  let left_boundary_value := f64_div (f64_sub (f64_of_Z start_bucketID) (b_ m)) (a_ m) in
  let right_boundary_value := f64_div (f64_sub (f64_of_Z end_bucketID) (b_ m)) (a_ m) in
  let a := f64_div (f64_of_Z 1) (f64_sub right_boundary_value left_boundary_value) in
  mkLinearModel a (f64_mul (f64_mul (f64_of_Z (-1)) a) left_boundary_value).

(** One level of candidates for the keys of a data node. *)
Definition existing_level (base_model : LinearModel) (total_keys : Z) (n : AlexDataNode P) (level fanout : Z)
    : option (AlexDataNode P * (f64 * list FTNode)) :=
  let a := f64_mul (a_ base_model) (f64_of_Z fanout) in
  let b := f64_mul (b_ base_model) (f64_of_Z fanout) in
  let num_keys := num_keys_ (slots_ n) in
  '(cost, _, new_level, n) ← for_up 0 fanout (fun i '(cost, last, new_level, n) =>
    let left := last in
    '(rb, n) ← (if i =? fanout - 1 then Some (data_capacity_ (slots_ n), n) else lower_bound_double n (bound_of a b i));
    if left =? rb then Some (cost, rb, new_level ++ [empty_ft level i left rb], n)
    else
      '(model, num_actual_keys) ← train_range (slots_ n) left rb;
      let empirical_insert_frac := frac_inserts (counters_ n) in
      '(node_cost, stats) ← compute_expected_cost_from_existing log2 (slots_ n) left rb kInitDensity_ empirical_insert_frac (Some model);
      let stats := default (mkStats f64_zero f64_zero) stats in
      let cost := f64_add cost (f64_div (f64_mul node_cost (f64_of_Z num_actual_keys)) (f64_of_Z num_keys)) in
      Some (cost, rb, new_level ++ [mkFT level i node_cost left rb false (num_search_iterations stats) (num_shifts stats)
                                         (a_ model) (b_ model) num_actual_keys], n)) (f64_zero, 0, [], n);
  Some (n, (f64_add cost (traversal_cost fanout total_keys num_keys), new_level)).

(** The node is the child behind [parent]'s bucket; its lookups are counted. *)
Definition find_best_fanout_existing_node (h : Heap) (leaves : gmap Z (AlexDataNode P)) (parent : AlexModelNode) (bucketID total_keys : Z)
    (used_fanout_tree_nodes : list FTNode) (max_fanout : Z) : option (Z * list FTNode * gmap Z (AlexDataNode P)) :=
  p ← (children_ parent).[bucketID];
  c ← h !! p;
  n ← leaves !! p;
  repeats ← int_shift (duplication_factor_ c);
  let start_bucketID := bucketID - Z.rem bucketID repeats in
  let end_bucketID := start_bucketID + repeats in
  let base_model := base_model_of (model_ (base parent)) start_bucketID end_bucketID in
  '(n, (fanout_tree, best_level, best_cost)) ←
    add_levels (existing_level base_model total_keys) max_fanout n 1 0 0 f64_max_value [] [];
  '(_, used) ← choose_nodes fanout_tree best_level best_cost (num_keys_ (slots_ n)) total_keys used_fanout_tree_nodes;
  Some (best_level, used, <[p := n]> leaves).
End Existing.
End Fanout.

(** * The fanout tree leaves a partition (alex/src/alex_fanout_tree.h)

    The nodes in use tile the finest level: read in the order [collect_used_nodes]
    gives them, each covers the buckets right after the previous one, and together
    they cover all of them, however the costs come out and whatever is merged. *)

(** Case on the integer tests of a hypothesis. *)
Ltac tests_in H :=
  repeat match type of H with
  | context [?a <=? ?b] => destruct (Z.leb_spec a b)
  | context [?a <? ?b] => destruct (Z.ltb_spec a b)
  end; cbn [andb] in H.

(** ** Tilings *)

(** The nodes of [l] cover the buckets of level [D] from [p] on, one after the other. *)
Fixpoint tiles (D p : Z) (l : list FTNode) : Prop :=
  match l with
  | [] => p = 2 ^ D
  | nd :: l => 0 <= ft_level nd <= D /\ node_id nd * 2 ^ (D - ft_level nd) = p /\ tiles D (p + 2 ^ (D - ft_level nd)) l
  end.

(** Bucket [x] of level [D] below a node. *)
Definition below (D x : Z) (nd : FTNode) : bool := x / 2 ^ (D - ft_level nd) =? node_id nd.

(** How many used nodes are above a bucket. *)
Fixpoint uses (D x : Z) (l : list FTNode) : Z :=
  match l with
  | [] => 0
  | nd :: l => (if use nd && below D x nd then 1 else 0) + uses D x l
  end.

Lemma uses_nonneg D x l : 0 <= uses D x l.
Proof. induction l as [|nd l IH]; cbn [uses]; [lia|]. destruct (_ && _); lia. Qed.

Lemma uses_app D x l1 l2 : uses D x (l1 ++ l2) = uses D x l1 + uses D x l2.
Proof. induction l1 as [|nd l IH]; cbn [uses app]; lia. Qed.

Lemma uses_perm D x l1 l2 : l1 ≡ₚ l2 -> uses D x l1 = uses D x l2.
Proof. induction 1; cbn [uses]; lia. Qed.

Lemma uses_filter D x l : uses D x (List.filter use l) = uses D x l.
Proof. induction l as [|nd l IH]; [done|]. cbn [List.filter uses]. destruct (use nd) eqn:E; cbn [uses]; rewrite ?E; cbn [andb]; lia. Qed.

Lemma uses_elem D x l nd : nd ∈ l -> use nd = true -> below D x nd = true -> 1 <= uses D x l.
Proof.
  induction l as [|nd' l IH]; intros Hin Hu Hb; [by apply elem_of_nil in Hin|]. cbn [uses]. pose proof (uses_nonneg D x l).
  apply elem_of_cons in Hin as [->|Hin]; [rewrite Hu, Hb; cbn; lia|]. specialize (IH Hin Hu Hb). destruct (_ && _); lia.
Qed.

Lemma uses_witness D x l : 1 <= uses D x l -> exists nd, nd ∈ l /\ use nd = true /\ below D x nd = true.
Proof.
  induction l as [|nd l IH]; cbn [uses]; [lia|]. destruct (use nd) eqn:Eu; [destruct (below D x nd) eqn:Eb|]; cbn [andb].
  - exists nd. split; [constructor|done].
  - intros (nd' & ? & ?)%IH. exists nd'. split; [by constructor|done].
  - intros (nd' & ? & ?)%IH. exists nd'. split; [by constructor|done].
Qed.

(** Nodes inside the tree of depth [D]. *)
Definition inside (D : Z) (nd : FTNode) : Prop := 0 <= ft_level nd <= D /\ 0 <= node_id nd < 2 ^ ft_level nd.

Definition start_of (D : Z) (nd : FTNode) : Z := node_id nd * 2 ^ (D - ft_level nd).

Lemma sort_key_start D nd : ft_level nd <= D -> sort_key D nd = start_of D nd.
Proof. intros H. unfold sort_key, start_of. by rewrite Z.shiftl_mul_pow2 by lia. Qed.

Lemma below_iff_range D x nd : inside D nd -> below D x nd = true <-> start_of D nd <= x < start_of D nd + 2 ^ (D - ft_level nd).
Proof.
  intros [Hl _]. unfold below, start_of. assert (0 < 2 ^ (D - ft_level nd)) by (apply Z.pow_pos_nonneg; lia). rewrite Z.eqb_eq. split.
  - intros <-. pose proof (Z.div_mod x (2 ^ (D - ft_level nd)) ltac:(lia)). pose proof (Z.mod_pos_bound x (2 ^ (D - ft_level nd)) ltac:(lia)). lia.
  - intros Hx. symmetry. apply (Z.div_unique x _ _ (x - node_id nd * 2 ^ (D - ft_level nd))); lia.
Qed.

Lemma inside_end D nd : inside D nd -> 0 <= start_of D nd /\ start_of D nd + 2 ^ (D - ft_level nd) <= 2 ^ D.
Proof.
  intros [Hl Hi]. unfold start_of. assert (0 < 2 ^ (D - ft_level nd)) by (apply Z.pow_pos_nonneg; lia). split; [nia|].
  replace (2 ^ D) with (2 ^ ft_level nd * 2 ^ (D - ft_level nd)) by (rewrite <-Z.pow_add_r by lia; f_equal; lia). nia.
Qed.

(** Sorted nodes that cover every bucket from [p] on once tile. *)
Lemma sorted_tiles D l : forall p, p <= 2 ^ D -> Forall (fun nd => use nd = true /\ inside D nd) l -> StronglySorted (key_before D) l ->
  (forall x, uses D x l = if (p <=? x) && (x <? 2 ^ D) then 1 else 0) -> tiles D p l.
Proof.
  induction l as [|nd l IH]; intros p Hp Hall Hs Hu; cbn [tiles].
  - specialize (Hu p). cbn [uses] in Hu. tests_in Hu; lia.
  - apply Forall_cons_1 in Hall as [[Hun Hin] Hall]. inversion_clear Hs as [|? ? Hs' Hfirst].
    assert (Hlen : 0 < 2 ^ (D - ft_level nd)) by (apply Z.pow_pos_nonneg; unfold inside in Hin; lia). pose proof (inside_end D nd Hin) as [Hst Hend].
    assert (Hu' : forall x, uses D x (nd :: l) = (if (start_of D nd <=? x) && (x <? start_of D nd + 2 ^ (D - ft_level nd)) then 1 else 0) + uses D x l).
    { intros x. cbn [uses]. rewrite Hun. cbn [andb]. f_equal. pose proof (below_iff_range D x nd Hin) as Hb. destruct (below D x nd), (Z.leb_spec (start_of D nd) x), (Z.ltb_spec x (start_of D nd + 2 ^ (D - ft_level nd))); cbn; try done; exfalso; destruct Hb as [Hb1 Hb2]; first [specialize (Hb1 eq_refl); lia|specialize (Hb2 ltac:(lia)); done]. }
    assert (Ep : start_of D nd = p).
    { assert (p <= start_of D nd).
      { pose proof (Hu (start_of D nd)) as H. rewrite Hu' in H. pose proof (uses_nonneg D (start_of D nd) l). tests_in H; lia. }
      enough (start_of D nd <= p) by lia. destruct (Z.le_gt_cases (start_of D nd) p) as [|Hgt]; [done|]. exfalso.
      pose proof (Hu p) as H1. tests_in H1; try lia.
      destruct (uses_witness D p (nd :: l) ltac:(lia)) as (m & Hm & Hum & Hbm).
      assert (Hinm : inside D m /\ start_of D nd <= start_of D m).
      { apply elem_of_cons in Hm as [->|Hm]; [split; [done|lia]|]. rewrite list.Forall_forall in Hall. split; [by apply Hall|].
        rewrite list.Forall_forall in Hfirst. specialize (Hfirst m Hm). unfold key_before in Hfirst.
        destruct (Hall m Hm) as [_ [Hlm _]]. destruct Hin as [Hln _]. rewrite !sort_key_start in Hfirst by lia. done. }
      destruct Hinm as [Him Hle]. apply (below_iff_range D p m Him) in Hbm. lia. }
    split; [by destruct Hin|]. split; [done|]. apply IH; [lia|done|done|]. intros x. pose proof (Hu x) as H. rewrite Hu' in H. rewrite Ep in *.
    tests_in H; repeat btest_case; cbn [andb]; lia.
Qed.

(** ** Trees *)

Lemma ft_at_level t lv i nd : ft_at t lv i = Some nd <-> exists l, t.[lv] = Some l /\ l.[i] = Some nd.
Proof. unfold ft_at. destruct (t.[lv]) as [l|]; cbn; [split; [intros E; by exists l|by intros (? & [= <-] & ?)]|split; [done|by intros (? & ? & ?)]]. Qed.

Lemma ft_at_elem t nd : nd ∈ concat t <-> exists lv i, ft_at t lv i = Some nd.
Proof.
  rewrite list_elem_of_In, in_concat. split.
  - intros (l & Hl & Hnd). apply list_elem_of_In, rd_elem in Hl as [lv Hl]. apply list_elem_of_In, rd_elem in Hnd as [i Hi].
    exists lv, i. apply ft_at_level. by exists l.
  - intros (lv & i & (l & Hl & Hi)%ft_at_level). exists l. split; apply list_elem_of_In, rd_elem; by eexists.
Qed.

Lemma mark_total t lv i v nd : ft_at t lv i = Some nd -> exists t', mark t lv i v = Some t'.
Proof.
  intros (l & Hl & Hi)%ft_at_level. unfold mark. rewrite Hl. cbn [mbind option_bind]. rewrite Hi. cbn [mbind option_bind].
  destruct (wr_in l i (set_use v nd)) as [l' El]; [by eapply rd_Some|]. rewrite El. cbn [mbind option_bind]. apply wr_in. by eapply rd_Some.
Qed.

Lemma ft_at_mark t lv i v nd t' lv' i' : ft_at t lv i = Some nd -> mark t lv i v = Some t' ->
  ft_at t' lv' i' = if (lv' =? lv) && (i' =? i) then Some (set_use v nd) else ft_at t lv' i'.
Proof.
  intros (l & Hl & Hi)%ft_at_level Hm. unfold mark in Hm. rewrite Hl in Hm. cbn [mbind option_bind] in Hm. rewrite Hi in Hm. cbn [mbind option_bind] in Hm.
  inv_bind Hm. unfold ft_at. rewrite (rd_wr _ _ _ _ lv' Hm). destruct (Z.eqb_spec lv' lv) as [->|]; cbn [andb]; [|done].
  cbn [mbind option_bind]. rewrite (rd_wr _ _ _ _ i' E). rewrite Hl. cbn. by destruct (i' =? i).
Qed.

Lemma zlen_mark t lv i v t' : mark t lv i v = Some t' -> zlen t' = zlen t.
Proof. unfold mark. intros Hm. do 3 inv_bind Hm. by eapply zlen_wr. Qed.

(** Replacing an element of a list of nodes. *)
Lemma uses_wr D x l i nd nd' l' : l.[i] = Some nd -> wr l i nd' = Some l' -> uses D x l' = uses D x l - uses D x [nd] + uses D x [nd'].
Proof.
  intros Hi [Hb ->]%wr_Some. unfold rd in Hi. destruct (Z.leb_spec 0 i); [|done]. rewrite <-(take_drop_middle l (Z.to_nat i) nd Hi) at 2.
  rewrite insert_take_drop by (unfold zlen in Hb; lia). rewrite !uses_app. cbn [uses]. lia.
Qed.

Lemma uses_mark D x t lv i v nd t' : ft_at t lv i = Some nd -> mark t lv i v = Some t' ->
  uses D x (concat t') = uses D x (concat t) - uses D x [nd] + uses D x [set_use v nd].
Proof.
  intros (l & Hl & Hi)%ft_at_level Hm. unfold mark in Hm. rewrite Hl in Hm. cbn [mbind option_bind] in Hm. rewrite Hi in Hm. cbn [mbind option_bind] in Hm.
  inv_bind Hm. pose proof (uses_wr D x _ _ _ _ _ Hi E) as Hu. apply wr_Some in Hm as [Hb ->]. unfold rd in Hl. destruct (Z.leb_spec 0 lv); [|done].
  rewrite <-(take_drop_middle t (Z.to_nat lv) l Hl) at 2. rewrite insert_take_drop by (unfold zlen in Hb; lia).
  rewrite !concat_app, !uses_app. cbn [concat]. rewrite !uses_app. lia.
Qed.

(** ** Merging *)

Section Merge.
Context (D : Z) (Q : FTNode -> Prop) (HQ : forall v nd, Q nd -> Q (set_use v nd)).

(** Complete levels; [Q] holds of every node; only levels up to [D] are in use. *)
Record tree_shape (t : FanoutTree) : Prop := {
  ts_node : forall lv i nd, ft_at t lv i = Some nd -> 0 <= i < 2 ^ lv /\ ft_level nd = lv /\ node_id nd = i /\ (use nd = true -> lv <= D) /\ Q nd;
  ts_full : forall lv i, 0 <= lv < zlen t -> 0 <= i < 2 ^ lv -> exists nd, ft_at t lv i = Some nd;
  ts_deep : 0 <= D < zlen t
}.

Definition tree_ok (t : FanoutTree) : Prop := tree_shape t /\ forall x, 0 <= x < 2 ^ D -> uses D x (concat t) = 1.

Lemma mark_shape t lv i v nd t' : tree_shape t -> ft_at t lv i = Some nd -> (v = true -> lv <= D) -> mark t lv i v = Some t' -> tree_shape t'.
Proof.
  intros [H1 H2 H3] Hnd Hv Hm. destruct (H1 _ _ _ Hnd) as (Hi & Hlv & Hid & _ & Hq). constructor.
  - intros lv' i' nd'. rewrite (ft_at_mark _ _ _ _ _ _ lv' i' Hnd Hm). destruct (Z.eqb_spec lv' lv) as [->|]; cbn [andb]; [|apply H1].
    destruct (Z.eqb_spec i' i) as [->|]; [|apply H1]. intros [= <-]. split; [done|]. do 3 (split; [done|]). by apply HQ.
  - intros lv' i' Hl' Hi'. rewrite (zlen_mark _ _ _ _ _ Hm) in Hl'. rewrite (ft_at_mark _ _ _ _ _ _ lv' i' Hnd Hm).
    destruct (_ && _); [by eexists|by apply H2].
  - by rewrite (zlen_mark _ _ _ _ _ Hm).
Qed.

Lemma uses_one x nd : uses D x [nd] = if use nd && below D x nd then 1 else 0.
Proof. cbn [uses]. lia. Qed.

(** A bucket is below a node exactly when it is below one of its two children. *)
Lemma below_siblings x L i : 1 <= L <= D ->
  (x / 2 ^ (D - (L - 1)) =? i) = (x / 2 ^ (D - L) =? 2 * i) || (x / 2 ^ (D - L) =? 2 * i + 1).
Proof.
  intros HL. replace (D - (L - 1)) with (D - L + 1) by lia. assert (0 < 2 ^ (D - L)) by (apply Z.pow_pos_nonneg; lia).
  rewrite Z.pow_add_r by lia. change (2 ^ 1) with 2. rewrite <-Z.div_div by lia.
  pose proof (Z.div_mod (x / 2 ^ (D - L)) 2 ltac:(lia)). pose proof (Z.mod_pos_bound (x / 2 ^ (D - L)) 2 ltac:(lia)).
  repeat btest_case; cbn; lia || done.
Qed.

(** Replacing two used siblings by their parent keeps a partition. *)
Lemma merge_pair_ok t L i left right : tree_ok t -> 1 <= L < zlen t -> 0 <= i < 2 ^ (L - 1) ->
  ft_at t L (2 * i) = Some left -> ft_at t L (2 * i + 1) = Some right -> use left = true -> use right = true ->
  exists t', merge_pair t L i = Some t' /\ tree_ok t' /\ zlen t' = zlen t.
Proof.
  intros [Hshape Hcover] HL Hi Hleft Hright Hul Hur.
  destruct (ts_node _ Hshape _ _ _ Hleft) as (Hi1 & Hlv1 & Hid1 & HD & Hq1). destruct (ts_node _ Hshape _ _ _ Hright) as (Hi2 & Hlv2 & Hid2 & _ & Hq2).
  specialize (HD Hul). destruct (ts_full _ Hshape (L - 1) i) as [parent Hparent]; [lia|lia|].
  destruct (ts_node _ Hshape _ _ _ Hparent) as (_ & Hlvp & Hidp & _ & Hqp). unfold merge_pair.
  destruct (mark_total t L (2 * i) false left Hleft) as [t1 E1]. rewrite E1. cbn [mbind option_bind].
  assert (Hright1 : ft_at t1 L (2 * i + 1) = Some right).
  { rewrite (ft_at_mark _ _ _ _ _ _ _ _ Hleft E1). destruct (Z.eqb_spec (2 * i + 1) (2 * i)); [lia|]. by rewrite andb_false_r. }
  destruct (mark_total t1 L (2 * i + 1) false right Hright1) as [t2 E2]. rewrite E2. cbn [mbind option_bind].
  assert (Hparent2 : ft_at t2 (L - 1) i = Some parent).
  { rewrite (ft_at_mark _ _ _ _ _ _ _ _ Hright1 E2), (ft_at_mark _ _ _ _ _ _ _ _ Hleft E1). by destruct (Z.eqb_spec (L - 1) L); [lia|]. }
  destruct (mark_total t2 (L - 1) i true parent Hparent2) as [t3 E3]. exists t3. split; [done|].
  assert (Hs1 : tree_shape t1) by (apply (mark_shape t L (2 * i) false left); done).
  assert (Hs2 : tree_shape t2) by (apply (mark_shape t1 L (2 * i + 1) false right); done).
  split; [|by rewrite (zlen_mark _ _ _ _ _ E3), (zlen_mark _ _ _ _ _ E2), (zlen_mark _ _ _ _ _ E1)].
  split; [apply (mark_shape t2 (L - 1) i true parent); done || lia|].
  assert (Hu2 : forall x, 0 <= x < 2 ^ D -> uses D x (concat t2) = if below D x parent then 0 else 1).
  { intros x Hx. rewrite (uses_mark D x _ _ _ _ _ _ Hright1 E2), (uses_mark D x _ _ _ _ _ _ Hleft E1), Hcover by done.
    rewrite !uses_one. cbn [use set_use andb]. rewrite Hul, Hur. unfold below. rewrite Hlv1, Hid1, Hlv2, Hid2, Hlvp, Hidp, (below_siblings x L i) by lia.
    cbn [andb]. destruct (Z.eqb_spec (x / 2 ^ (D - L)) (2 * i)), (Z.eqb_spec (x / 2 ^ (D - L)) (2 * i + 1)); cbn [orb]; lia. }
  assert (Hunused : use parent = false).
  { destruct (use parent) eqn:Eu; [exfalso|done]. assert (0 < 2 ^ (D - (L - 1))) by (apply Z.pow_pos_nonneg; lia).
    assert (Hpow : 2 ^ D = 2 ^ (L - 1) * 2 ^ (D - (L - 1))) by (rewrite <-Z.pow_add_r by lia; f_equal; lia).
    assert (Hb : below D (i * 2 ^ (D - (L - 1))) parent = true) by (unfold below; rewrite Hlvp, Hidp, Z.div_mul by lia; apply Z.eqb_refl).
    specialize (Hu2 (i * 2 ^ (D - (L - 1))) ltac:(nia)). rewrite Hb in Hu2.
    pose proof (uses_elem D (i * 2 ^ (D - (L - 1))) (concat t2) parent) as He. rewrite Hu2 in He. enough (1 <= 0) by lia.
    apply He; [|done|done]. apply ft_at_elem. by exists (L - 1), i. }
  intros x Hx. rewrite (uses_mark D x _ _ _ _ _ _ Hparent2 E3), Hu2 by done. rewrite !uses_one. cbn [use set_use]. rewrite Hunused. cbn [andb].
  change (below D x (set_use true parent)) with (below D x parent). destruct (below D x parent); lia.
Qed.

Context (sizeof_node : Z).

Lemma merge_step_ok num_keys total_keys L i best_cost t merged : tree_ok t -> 1 <= L < zlen t -> 0 <= i < 2 ^ (L - 1) ->
  exists best_cost' t' merged', merge_step sizeof_node num_keys total_keys L i (best_cost, t, merged) = Some (best_cost', t', merged') /\
    tree_ok t' /\ zlen t' = zlen t.
Proof.
  intros Hok HL Hi. assert (Hpow : 2 ^ L = 2 * 2 ^ (L - 1)) by (rewrite <-Z.pow_succ_r by lia; f_equal; lia). pose proof Hok as [Hshape _].
  destruct (ts_full _ Hshape L (2 * i)) as [left Hleft]; [lia|lia|]. destruct (ts_full _ Hshape L (2 * i + 1)) as [right Hright]; [lia|lia|].
  destruct (ts_full _ Hshape (L - 1) i) as [parent Hparent]; [lia|lia|]. unfold merge_step. rewrite Hleft. cbn [mbind option_bind]. rewrite Hright. cbn [mbind option_bind].
  destruct (use left) eqn:Eul; cbn [mbind option_bind]; [|by eexists _, _, _]. destruct (use right) eqn:Eur; [|by eexists _, _, _].
  rewrite Hparent. cbn [mbind option_bind]. destruct (merge_pair_ok t L i left right Hok HL Hi Hleft Hright Eul Eur) as (t' & E & Hok' & Hz).
  destruct (ft_num_keys parent =? 0); [rewrite E; by eexists _, _, _|]. destruct (SFleb _ _); [rewrite E; by eexists _, _, _|by eexists _, _, _].
Qed.

Lemma merge_nodes_upwards_ok start_level best_cost num_keys total_keys t : tree_ok t -> 0 <= start_level < zlen t -> start_level <= 30 ->
  exists best_cost' t', merge_nodes_upwards sizeof_node start_level best_cost num_keys total_keys t = Some (best_cost', t') /\
    tree_ok t' /\ zlen t' = zlen t.
Proof.
  intros Hok Hl H30. unfold merge_nodes_upwards.
  destruct (loop_spec (fun '(level, _, t') => 0 <= level <= start_level /\ tree_ok t' /\ zlen t' = zlen t)
    (fun '(_, t') => tree_ok t' /\ zlen t' = zlen t) (fun '(level, _, _) => level)
    (fun '(level, best_cost, fanout_tree) =>
      if 1 <=? level then
        level_fanout ← int_shift level;
        '(best_cost, fanout_tree, at_least_one_merge) ←
          for_up 0 (Z.quot level_fanout 2) (merge_step sizeof_node num_keys total_keys level) (best_cost, fanout_tree, false);
        if (at_least_one_merge : bool) then Some (inl (level - 1, best_cost, fanout_tree))
        else Some (inr (best_cost, fanout_tree))
      else Some (inr (best_cost, fanout_tree)))) with (fuel := S (Z.to_nat start_level)) (s := (start_level, best_cost, t))
    as ([best_cost' t'] & -> & Hok' & Hz).
  - intros [[level c] t1] (Hlv & Hok1 & Hz1). destruct (Z.leb_spec 1 level); [|done]. rewrite int_shift_in by lia. cbn [mbind option_bind].
    assert (Hpow : 2 ^ level = 2 ^ (level - 1) * 2) by (replace level with (Z.succ (level - 1)) at 1 by lia; rewrite Z.pow_succ_r by lia; lia).
    rewrite Hpow, Z.quot_mul by lia.
    destruct (for_up_spec (fun _ '(_, t2, _) => tree_ok t2 /\ zlen t2 = zlen t) (merge_step sizeof_node num_keys total_keys level) 0 (2 ^ (level - 1)) (c, t1, false))
      as ([[c2 t2] m2] & -> & Hok2 & Hz2); [lia|done| |].
    + intros i [[c3 t3] m3] Hi [Hok3 Hz3]. destruct (merge_step_ok num_keys total_keys level i c3 t3 m3 Hok3) as (c4 & t4 & m4 & E & Hok4 & Hz4); [lia|lia|].
      exists (c4, t4, m4). split; [done|]. split; [done|]. by rewrite Hz4.
    + cbn [mbind option_bind]. destruct m2; [|done]. split; [split; [lia|done]|lia].
  - split; [lia|done].
  - lia.
  - lia.
  - by exists best_cost', t'.
Qed.

(** ** Choosing *)

Lemma uses_ids x L s l : Forall2 (fun i nd => ft_level nd = L /\ node_id nd = i /\ use nd = true) (seqZ s (zlen l)) l ->
  uses D x l = if (s <=? x / 2 ^ (D - L)) && (x / 2 ^ (D - L) <? s + zlen l) then 1 else 0.
Proof.
  revert s. induction l as [|nd l IH]; intros s HF.
  - change (zlen []) with 0. cbn [uses]. destruct (Z.leb_spec s (x / 2 ^ (D - L))), (Z.ltb_spec (x / 2 ^ (D - L)) (s + 0)); cbn; lia.
  - assert (Hz : zlen (nd :: l) = zlen l + 1) by (unfold zlen; simpl; lia). pose proof (zlen_nonneg l). rewrite Hz, seqZ_cons in HF by lia.
    inversion_clear HF as [|? ? ? ? (Hl & Hi & Hu) HF']. replace (Z.pred (zlen l + 1)) with (zlen l) in HF' by lia. cbn [uses].
    rewrite (IH (Z.succ s)) by done. rewrite Hz, Hu. unfold below. rewrite Hl, Hi. cbn [andb].
    destruct (Z.eqb_spec (x / 2 ^ (D - L)) s), (Z.leb_spec (Z.succ s) (x / 2 ^ (D - L))), (Z.ltb_spec (x / 2 ^ (D - L)) (Z.succ s + zlen l)),
      (Z.leb_spec s (x / 2 ^ (D - L))), (Z.ltb_spec (x / 2 ^ (D - L)) (s + (zlen l + 1))); cbn [andb]; lia.
Qed.
End Merge.

(** A tree as the levels build it: complete, nothing in use. *)
Record tree_fresh (Q : FTNode -> Prop) (t : FanoutTree) : Prop := {
  tf_node : forall lv i nd, ft_at t lv i = Some nd -> 0 <= i < 2 ^ lv /\ ft_level nd = lv /\ node_id nd = i /\ use nd = false /\ Q nd;
  tf_full : forall lv i, 0 <= lv < zlen t -> 0 <= i < 2 ^ lv -> exists nd, ft_at t lv i = Some nd
}.

Lemma level_zlen Q t lv l : tree_fresh Q t -> t.[lv] = Some l -> zlen l = 2 ^ lv.
Proof.
  intros [H1 H2] Hl. pose proof (rd_Some _ _ _ Hl) as Hb. assert (Hp : 0 < 2 ^ lv) by (apply Z.pow_pos_nonneg; lia). pose proof (zlen_nonneg l).
  destruct (Z.lt_trichotomy (zlen l) (2 ^ lv)) as [Hlt|[|Hgt]]; [exfalso|done|exfalso].
  - destruct (H2 lv (zlen l) Hb ltac:(lia)) as [nd (l' & E & Hnd)%ft_at_level]. rewrite Hl in E. injection E as <-. apply rd_Some in Hnd. lia.
  - destruct (rd_in l (2 ^ lv)) as [nd Hnd]; [lia|]. destruct (H1 lv (2 ^ lv) nd) as [? _]; [apply ft_at_level; by exists l|]. lia.
Qed.

Lemma uses_unused D x l : Forall (fun nd => use nd = false) l -> uses D x l = 0.
Proof. induction 1 as [|nd l E _ IH]; [done|]. cbn [uses]. rewrite E. cbn [andb]. lia. Qed.

Lemma fresh_unused Q t l : tree_fresh Q t -> (forall nd, nd ∈ l -> nd ∈ concat t) -> Forall (fun nd => use nd = false) l.
Proof. intros Ht Hin. apply list.Forall_forall. intros nd (lv & i & H)%Hin%ft_at_elem. by destruct (tf_node _ _ Ht _ _ _ H) as (_ & _ & _ & ? & _). Qed.

Lemma concat_take_elem n (t : FanoutTree) nd : nd ∈ concat (take n t) -> nd ∈ concat t.
Proof. intros H. rewrite <-(take_drop n t), concat_app. apply elem_of_app. by left. Qed.

Lemma concat_drop_elem n (t : FanoutTree) nd : nd ∈ concat (drop n t) -> nd ∈ concat t.
Proof. intros H. rewrite <-(take_drop n t), concat_app. apply elem_of_app. by right. Qed.

(** Putting one level in use. *)
Lemma use_level_ok Q t best l : (forall v nd, Q nd -> Q (set_use v nd)) -> tree_fresh Q t -> t.[best] = Some l ->
  exists t', wr t best (set_use true <$> l) = Some t' /\ tree_ok best Q t' /\ zlen t' = zlen t.
Proof.
  intros HQ Ht Hl. pose proof (rd_Some _ _ _ Hl) as Hb. pose proof (level_zlen _ _ _ _ Ht Hl) as Hz. destruct (wr_in t best (set_use true <$> l) Hb) as [t' E].
  exists t'. split; [done|]. assert (Hat : forall lv i, ft_at t' lv i = if lv =? best then set_use true <$> ft_at t best i else ft_at t lv i).
  { intros lv i. unfold ft_at. rewrite (rd_wr _ _ _ _ lv E). destruct (Z.eqb_spec lv best) as [->|]; [|done]. rewrite Hl. cbn. unfold rd.
    destruct (0 <=? i); [apply list_lookup_fmap|done]. }
  split; [|by eapply zlen_wr]. split; [constructor|].
  - intros lv i nd. rewrite Hat. destruct (Z.eqb_spec lv best) as [->|].
    + destruct (ft_at t best i) as [nd0|] eqn:E0; [|done]. intros [= <-]. destruct (tf_node _ _ Ht _ _ _ E0) as (? & ? & ? & _ & ?).
      split; [done|]. do 3 (split; [done|]). by apply HQ.
    + intros (? & ? & ? & Hu & ?)%(tf_node _ _ Ht). do 3 (split; [done|]). split; [by rewrite Hu|done].
  - intros lv i Hlv Hi. rewrite (zlen_wr _ _ _ _ E) in Hlv. rewrite Hat. destruct (tf_full _ _ Ht lv i Hlv Hi) as [nd Hnd].
    destruct (Z.eqb_spec lv best) as [->|]; [rewrite Hnd; by eexists|by exists nd].
  - by rewrite (zlen_wr _ _ _ _ E).
  - intros x Hx. apply wr_Some in E as [_ ->]. unfold rd in Hl. destruct (Z.leb_spec 0 best); [|done].
    rewrite insert_take_drop by (unfold zlen in Hb; lia). rewrite concat_app. cbn [concat]. rewrite !uses_app.
    assert (Hrest : forall l', (forall nd, nd ∈ l' -> nd ∈ concat t) -> uses best x l' = 0) by (intros l' Hin; eapply uses_unused, fresh_unused; done).
    rewrite (Hrest _ (concat_take_elem _ t)), (Hrest _ (concat_drop_elem _ t)), (uses_ids best x best 0).
    + assert (Hz' : zlen (set_use true <$> l) = 2 ^ best) by (unfold zlen in *; by rewrite length_fmap).
        rewrite Hz', Z.sub_diag, Z.div_1_r. destruct (Z.leb_spec 0 x), (Z.ltb_spec x (0 + 2 ^ best)); cbn [andb]; lia.
    + apply Forall2_same_length_lookup_2; [rewrite length_seqZ, length_fmap; unfold zlen; rewrite length_fmap; lia|].
        intros j i nd Hi Hj. apply lookup_seqZ in Hi as [-> Hi]. rewrite list_lookup_fmap in Hj. destruct (l !! j) as [nd0|] eqn:E0; [|done]. injection Hj as <-.
        assert (Hnd0 : ft_at t best (Z.of_nat j) = Some nd0).
        { apply ft_at_level. exists l. unfold rd. destruct (Z.leb_spec 0 best), (Z.leb_spec 0 (Z.of_nat j)); try lia. by rewrite Nat2Z.id. }
        destruct (tf_node _ _ Ht _ _ _ Hnd0) as (_ & ? & ? & _ & _). cbn. split; [done|]. split; [lia|done].
Qed.

(** ** Collecting *)

#[export] Instance key_before_trans D : Transitive (key_before D).
Proof. intros a b c. unfold key_before. lia. Qed.

#[export] Instance key_before_total D : Total (key_before D).
Proof. intros a b. unfold key_before. lia. Qed.

Lemma collect_tiles D Q t : tree_ok D Q t -> tiles D 0 (collect_used_nodes t D []) /\
  Forall (fun nd => use nd = true /\ inside D nd /\ Q nd) (collect_used_nodes t D []).
Proof.
  intros [Hs Hc]. destruct (ts_deep _ _ _ Hs) as [HD0 HD]. unfold collect_used_nodes. rewrite Z.min_l by lia. cbn [app].
  set (l := merge_sort _ _). assert (Hperm : l ≡ₚ List.filter use (concat (take (Z.to_nat (D + 1)) t))) by apply merge_sort_Permutation.
  assert (Hall : Forall (fun nd => use nd = true /\ inside D nd /\ Q nd) l).
  { rewrite Hperm. apply list.Forall_forall. intros nd Hnd. rewrite list_elem_of_In, filter_In, <-list_elem_of_In in Hnd. destruct Hnd as [Hnd Hu].
    split; [done|]. apply concat_take_elem, ft_at_elem in Hnd as (lv & i & Hnd). destruct (ts_node _ _ _ Hs _ _ _ Hnd) as (Hi & Hlv & Hid & Hle & Hq).
    split; [|done]. unfold inside. rewrite Hlv, Hid. apply ft_at_level in Hnd as (lev & Hlev%rd_Some & _). specialize (Hle Hu). lia. }
  split; [|done]. apply sorted_tiles.
  - apply Z.pow_nonneg. lia.
  - eapply Forall_impl; [exact Hall|]. by intros nd (? & ? & _).
  - apply (StronglySorted_merge_sort (key_before D)).
  - intros x. rewrite (uses_perm _ _ _ _ Hperm), uses_filter.
    assert (Htotal : uses D x (concat (take (Z.to_nat (D + 1)) t)) + uses D x (concat (drop (Z.to_nat (D + 1)) t)) = uses D x (concat t))
      by (rewrite <-uses_app, <-concat_app, take_drop; done).
    assert (Hdrop : uses D x (concat (drop (Z.to_nat (D + 1)) t)) = 0).
    { apply uses_unused, list.Forall_forall. intros nd Hnd. destruct (use nd) eqn:Eu; [exfalso|done].
      rewrite list_elem_of_In, in_concat in Hnd. destruct Hnd as (l' & Hl' & Hnd). rewrite <-list_elem_of_In in Hl'. rewrite <-list_elem_of_In in Hnd.
      apply list_elem_of_lookup_1 in Hl' as [j Hj]. rewrite lookup_drop in Hj. apply rd_elem in Hnd as [i Hi].
      assert (Hat : ft_at t (Z.of_nat (Z.to_nat (D + 1) + j)) i = Some nd).
      { apply ft_at_level. exists l'. split; [|done]. unfold rd. destruct (Z.leb_spec 0 (Z.of_nat (Z.to_nat (D + 1) + j))); [|lia]. by rewrite Nat2Z.id. }
      destruct (ts_node _ _ _ Hs _ _ _ Hat) as (_ & _ & _ & Hle & _). specialize (Hle Eu). lia. }
    destruct (Z.leb_spec 0 x), (Z.ltb_spec x (2 ^ D)); cbn [andb]; [rewrite Hc in Htotal by lia; lia| |..];
      (destruct (Z.eq_dec (uses D x l) 0) as [E0|Hne]; [rewrite (uses_perm _ _ _ _ Hperm), uses_filter in E0; lia|exfalso]);
      (destruct (uses_witness D x l) as (nd & Hnd & _ & Hb); [pose proof (uses_nonneg D x l); lia|]);
      rewrite list.Forall_forall in Hall; destruct (Hall nd Hnd) as (_ & Hin & _); apply (below_iff_range _ _ _ Hin) in Hb; pose proof (inside_end _ _ Hin); lia.
Qed.

Lemma choose_nodes_ok sizeof_node Q t best best_cost num_keys total_keys : (forall v nd, Q nd -> Q (set_use v nd)) -> tree_fresh Q t ->
  0 <= best < zlen t -> best <= 30 ->
  exists cost used, choose_nodes sizeof_node t best best_cost num_keys total_keys [] = Some (cost, used) /\
    tiles best 0 used /\ Forall (fun nd => use nd = true /\ inside best nd /\ Q nd) used.
Proof.
  intros HQ Ht Hb H30. unfold choose_nodes. destruct (rd_in t best Hb) as [l Hl]. rewrite Hl. cbn [mbind option_bind].
  destruct (use_level_ok Q t best l HQ Ht Hl) as (t1 & -> & Hok1 & Hz1). cbn [mbind option_bind].
  destruct (merge_nodes_upwards_ok best Q HQ sizeof_node best best_cost num_keys total_keys t1 Hok1) as (c & t2 & -> & Hok2 & _); [lia|lia|].
  cbn [mbind option_bind]. eexists _, _. split; [done|]. by apply collect_tiles.
Qed.
