(* ===== verification/AlexFanoutBulk.v ===== *)
(** * ALEX: dividing the keys of a node (alex/src/alex_fanout_tree.h, find_best_fanout_bottom_up)

    The bottom-up search for a fanout terminates and stays in bounds whatever the
    keys are, its nodes tile the buckets, and, when the model of the node is far from
    the limits of [double], the key ranges of the nodes are consecutive from the
    first key to the last: the boundaries of different levels agree, because scaling a
    model by two is exact. *)

From S2P Require Import Prelude Words Floats AlexBase AlexBitmap AlexSearch AlexNode AlexLookup.
From S2P Require Import AlexInsert AlexPlace AlexResize AlexUpdate AlexCost FloatScale AlexSampling AlexModel AlexFanout.
From Stdlib Require Import SpecFloat Sorted.
From stdpp Require Import gmap sorting.
Local Open Scope Z_scope.
Local Open Scope cxx_scope.

(** ** Levels *)

Section Levels.
Context {St : Type} (compute : St -> Z -> Z -> option (St * (f64 * list FTNode))) (Inv : St -> Prop) (Q : FTNode -> Prop).

(** The nodes of a complete level. *)
Definition level_nodes (L : Z) (l : list FTNode) : Prop :=
  zlen l = 2 ^ L /\ forall i nd, l.[i] = Some nd -> ft_level nd = L /\ node_id nd = i /\ use nd = false /\ Q nd.

Context (Hcompute : forall st L, Inv st -> 0 <= L <= 30 -> exists st' cost l, compute st L (2 ^ L) = Some (st', (cost, l)) /\ Inv st' /\ level_nodes L l).

Lemma rises_twice_long l : rises_twice l = true -> 3 <= zlen l.
Proof.
  unfold rises_twice. intros H. assert (E : zlen l = zlen (reverse l)) by (unfold zlen; by rewrite length_reverse). rewrite E.
  destruct (reverse l) as [|c1 [|c2 [|c3 r]]]; try done. unfold zlen. simpl. lia.
Qed.

Lemma fresh_add t l : tree_fresh Q t -> level_nodes (zlen t) l -> tree_fresh Q (t ++ [l]).
Proof.
  intros [H1 H2] [Hz Hl]. pose proof (zlen_nonneg t). assert (Hat : forall lv i, 0 <= lv -> ft_at (t ++ [l]) lv i = if lv <? zlen t then ft_at t lv i else if lv =? zlen t then l.[i] else None).
  { intros lv i Hlv. unfold ft_at. destruct (Z.ltb_spec lv (zlen t)); [by rewrite rd_app_lt|]. rewrite rd_app_ge by lia. destruct (Z.eqb_spec lv (zlen t)) as [->|Hne].
    - by rewrite Z.sub_diag.
    - rewrite rd_None; [done|]. change (zlen [l]) with 1. lia. }
  constructor.
  - intros lv i nd Hnd. assert (Hlv : 0 <= lv) by (apply ft_at_level in Hnd as (? & ?%rd_Some & _); lia). rewrite Hat in Hnd by done.
    destruct (Z.ltb_spec lv (zlen t)); [by apply H1|]. destruct (Z.eqb_spec lv (zlen t)) as [->|]; [|done].
    split; [rewrite <-Hz; by eapply rd_Some|by apply Hl].
  - intros lv i Hlv Hi. rewrite zlen_app in Hlv. change (zlen [l]) with 1 in Hlv. rewrite Hat by lia. destruct (Z.ltb_spec lv (zlen t)); [apply H2; lia|].
    destruct (Z.eqb_spec lv (zlen t)) as [->|]; [|lia]. apply rd_in. lia.
Qed.

Lemma fresh_nil : tree_fresh Q [].
Proof. constructor; [intros lv i nd (? & ?%rd_Some & _)%ft_at_level; unfold zlen in *; simpl in *; lia|intros lv i Hlv; unfold zlen in Hlv; simpl in Hlv; lia]. Qed.

(** The loop over the levels leaves a complete tree that holds the best level. *)
Lemma add_levels_ok max_fanout st level best_cost fanout_costs t : Inv st -> 1 <= max_fanout <= 2 ^ 29 -> 0 <= level <= 30 ->
  tree_fresh Q t -> zlen t = level -> zlen fanout_costs = level ->
  exists st' t' best cost, add_levels compute max_fanout st (2 ^ level) level 0 best_cost fanout_costs t = Some (st', (t', best, cost)) /\
    Inv st' /\ tree_fresh Q t' /\ 0 <= best < zlen t' /\ best <= 30.
Proof.
  intros Hst Hmax Hlevel Ht Hzt Hzc. unfold add_levels.
  match goal with |- exists st' t' b c, loop _ ?body _ = _ /\ _ =>
    destruct (loop_spec (fun '(st, fanout, level, best, _, costs, t) => Inv st /\ 0 <= level <= 30 /\ fanout = 2 ^ level /\ tree_fresh Q t /\
        zlen t = level /\ zlen costs = level /\ (0 <= best < level \/ level = 0 /\ best = 0))
      (fun '(st', (t', best, cost)) => Inv st' /\ tree_fresh Q t' /\ 0 <= best < zlen t' /\ best <= 30)
      (fun '(_, _, level, _, _, _, _) => 31 - level) body) with (fuel := 32%nat) (s := (st, 2 ^ level, level, 0, best_cost, fanout_costs, t))
      as ([st' [[t' best] cost]] & -> & H) end.
  - intros [[[[[[st1 f1] l1] b1] c1] costs1] t1] (Hst1 & Hl1 & -> & Ht1 & Hz1 & Hzc1 & Hb1). destruct (Z.leb_spec (2 ^ l1) max_fanout) as [Hle|Hgt].
    + assert (Hl29 : l1 <= 29) by (apply (Z.pow_le_mono_r_iff 2); lia).
      destruct (Hcompute st1 l1 Hst1 ltac:(lia)) as (st2 & cost & l & -> & Hst2 & Hl). cbn [mbind option_bind]. destruct (rises_twice _) eqn:Er.
      * apply rises_twice_long in Er. rewrite zlen_app in Er. change (zlen [cost]) with 1 in Er. split; [done|]. split; [done|]. lia.
      * assert (Hpow : 2 ^ l1 * 2 = 2 ^ (l1 + 1)) by (rewrite Z.pow_add_r by lia; done).
        destruct (SFltb cost c1); (destruct (Z.leb_spec (2 ^ l1 * 2) int_max); [|unfold int_max in *; lia]);
          (split; [|lia]); (split; [done|]); (split; [lia|]); (split; [done|]); (split; [rewrite <-Hz1 in Hl; by apply fresh_add|]);
          rewrite !zlen_app; change (zlen [l]) with 1; change (zlen [cost]) with 1; lia.
    + split; [done|]. split; [done|]. destruct Hb1 as [|[-> ->]]; [lia|]. change (2 ^ 0) with 1 in Hgt. lia.
  - split; [done|]. split; [done|]. split; [done|]. split; [done|]. split; [done|]. split; [done|]. lia.
  - lia.
  - lia.
  - exists st', t', best, cost. done.
Qed.
End Levels.

(** ** Evaluating a candidate *)

Section Evaluate.
Context {P : Type} (log2 pow2 : f64 -> f64).
Implicit Types (values : list (Z * P)).

Lemma implicit_array_ok {A} `{StatAccumulator A} values num model cap (acc : A) : num <= zlen values -> num <= cap ->
  exists acc', build_node_implicit (array_source values num) model cap num 0 acc = Some acc'.
Proof.
  intros Hn Hcap. destruct (Z.le_gt_cases 0 num) as [Hle|Hgt].
  - pose proof (array_source_yields values num ltac:(lia)) as Hy. assert (Hz : zlen (take (Z.to_nat num) values) = num) by (unfold zlen in *; rewrite length_take; lia).
    eexists. rewrite <-Hz at 2. apply build_node_implicit_calls; [intros st l pos; apply array_tail|done|lia].
  - eexists. unfold build_node_implicit. cbn [loop]. unfold implicit_body at 1. cbn [more array_source]. destruct (Z.ltb_spec 0 num); [lia|]. done.
Qed.

Lemma exact_cost_ok values num density frac model : num <= zlen values ->
  exists r, compute_expected_cost_exact log2 values num density frac (Some model) = Some r.
Proof.
  intros Hn. unfold compute_expected_cost_exact. destruct (num =? 0); [by eexists|]. cbn [mbind option_bind].
  pose proof (capacity_for_gt num density) as Hcap. unfold implicit_stats. destruct (SFeqb frac f64_zero).
  - edestruct (implicit_array_ok (H:=iters_accumulate log2) values num (expand model (ratio (capacity_for num density) num)) (capacity_for num density) iters_reset) as [acc ->]; [done|lia|].
    cbn. by eexists.
  - edestruct (implicit_array_ok (H:=both_accumulate log2) values num (expand model (ratio (capacity_for num density) num)) (capacity_for num density) both_reset) as [acc ->]; [done|lia|].
    cbn. by eexists.
Qed.

Lemma evaluate_ok values num_keys left right max_data_node_keys frac approximate_model : 0 <= left -> 0 <= right <= num_keys -> num_keys <= zlen values -> num_keys < 2 ^ 31 ->
  left <= zlen values ->
  exists r, evaluate log2 pow2 values left right max_data_node_keys frac approximate_model false = Some r.
Proof.
  intros Hl Hr Hn Hmax Hl'. unfold evaluate. assert (Hz : right - left <= zlen (drop (Z.to_nat left) values)) by (unfold zlen in *; rewrite length_drop; lia).
  destruct (build_model_total (drop (Z.to_nat left) values) (right - left) approximate_model Hz ltac:(lia)) as [model ->]. cbn [mbind option_bind].
  unfold compute_expected_cost_of. destruct (exact_cost_ok (drop (Z.to_nat left) values) (right - left) kInitDensity_ frac model Hz) as [[c st] ->].
  cbn. by eexists.
Qed.
End Evaluate.

(** ** Boundaries *)

Section Boundaries.
Context {P : Type} (key_less : Z -> f64 -> bool) (values : list (Z * P)) (num_keys : Z) (node : AlexNodeBase).
Context (Hnum : 0 <= num_keys <= zlen values).

Lemma binary_search_range above ks l r : 0 <= l <= r -> r <= zlen ks -> exists p, binary_search above ks l r = Some p /\ l <= p <= r.
Proof.
  intros Hl Hr. unfold binary_search.
  match goal with |- exists p, loop _ ?body _ = _ /\ _ =>
    destruct (loop_spec (fun '(l', r') => l <= l' <= r' /\ r' <= r) (fun p => l <= p <= r) (fun '(l', r') => r' - l') body)
      with (fuel := S (Z.to_nat (r - l))) (s := (l, r)) as (p & -> & Hp) end; [|lia|lia|lia|by exists p].
  intros [l' r'] [H1 H2]. destruct (Z.ltb_spec l' r') as [Hlt|]; [|lia]. cbv zeta.
  assert (Hmid : l' <= l' + Z.quot (r' - l') 2 < r').
  { rewrite Z.quot_div_nonneg by lia. pose proof (Z.div_mod (r' - l') 2). pose proof (Z.mod_pos_bound (r' - l') 2). lia. }
  destruct (rd_in ks (l' + Z.quot (r' - l') 2)) as [k ->]; [lia|]. cbn [mbind option_bind]. destruct (above k); lia.
Qed.

Lemma lower_bound_in_ok bound : exists p, lower_bound_in key_less values 0 num_keys bound = Some p /\ 0 <= p <= num_keys.
Proof. apply binary_search_range; [lia|]. unfold zlen in *. rewrite length_fmap. lia. Qed.

Lemma skip_predicted_ok a b i right : 0 <= right <= num_keys -> exists r, skip_predicted values num_keys a b i right = Some r /\ right <= r <= num_keys.
Proof.
  intros Hr. unfold skip_predicted.
  match goal with |- exists p, loop _ ?body _ = _ /\ _ =>
    destruct (loop_spec (fun r => right <= r <= num_keys) (fun r => right <= r <= num_keys) (fun r => num_keys - r) body)
      with (fuel := S (Z.to_nat num_keys)) (s := right) as (r & -> & Hp) end; [|lia|lia|lia|by exists r].
  intros r Hr'. destruct (Z.ltb_spec r num_keys); [|done]. destruct (rd_in values r) as [v ->]; [lia|]. cbn [mbind option_bind]. destruct (_ <=? i); lia.
Qed.

Lemma right_of_ok a b fanout i : exists r, right_of key_less values num_keys a b fanout i = Some r /\ 0 <= r <= num_keys /\ (i = fanout - 1 -> r = num_keys).
Proof.
  unfold right_of. destruct (Z.eqb_spec i (fanout - 1)) as [->|].
  - cbn [mbind option_bind]. destruct (skip_predicted_ok a b (fanout - 1) num_keys) as (r & -> & Hr); [lia|]. exists r. split; [done|]. lia.
  - destruct (lower_bound_in_ok (bound_of a b i)) as (p & -> & Hp). cbn [mbind option_bind].
    destruct (skip_predicted_ok a b i p Hp) as (r & -> & Hr). exists r. split; [done|]. lia.
Qed.

(** The key at which bucket [i] of level [L] starts. *)
Definition boundary (L i : Z) : Z :=
  if i =? 0 then 0
  else default 0 (right_of key_less values num_keys (f64_mul (a_ (model_ node)) (f64_of_Z (2 ^ L))) (f64_mul (b_ (model_ node)) (f64_of_Z (2 ^ L))) (2 ^ L) (i - 1)).

Lemma boundary_last L : 0 <= L -> boundary L (2 ^ L) = num_keys.
Proof.
  intros HL. assert (0 < 2 ^ L) by (apply Z.pow_pos_nonneg; lia). unfold boundary. destruct (Z.eqb_spec (2 ^ L) 0); [lia|].
  destruct (right_of_ok (f64_mul (a_ (model_ node)) (f64_of_Z (2 ^ L))) (f64_mul (b_ (model_ node)) (f64_of_Z (2 ^ L))) (2 ^ L) (2 ^ L - 1)) as (r & -> & _ & Hr). by apply Hr.
Qed.

(** A node has the boundaries of its place. *)
Definition placed (nd : FTNode) : Prop :=
  left_boundary nd = boundary (ft_level nd) (node_id nd) /\ right_boundary nd = boundary (ft_level nd) (node_id nd + 1) /\
  ft_num_keys nd = right_boundary nd - left_boundary nd.

Lemma placed_use v nd : placed nd -> placed (set_use v nd).
Proof. done. Qed.

Context (sizeof_node : Z) (log2 pow2 : f64 -> f64).

Lemma compute_level_ok total_keys used level max_data_node_keys frac approximate_model : 0 <= level <= 30 -> num_keys < 2 ^ 31 ->
  exists cost l, compute_level sizeof_node log2 pow2 key_less values num_keys node total_keys used level max_data_node_keys frac approximate_model false =
    Some (cost, used ++ l) /\ level_nodes placed level l.
Proof.
  intros HL Hmax. unfold compute_level. rewrite int_shift_in by lia. cbn [mbind option_bind]. assert (Hp : 0 < 2 ^ level) by (apply Z.pow_pos_nonneg; lia).
  set (a := f64_mul _ _). set (b := f64_mul _ _).
  match goal with |- context [for_up 0 _ ?body _] =>
    destruct (for_up_spec (fun i '(_, last, used') => 0 <= last <= num_keys /\ last = boundary level i /\ exists l, used' = used ++ l /\ zlen l = i /\
      forall j nd, l.[j] = Some nd -> ft_level nd = level /\ node_id nd = j /\ use nd = false /\ placed nd) body 0 (2 ^ level) (f64_zero, 0, used))
      as ([[cost last] used'] & -> & _ & _ & l & -> & Hz & Hl) end; [lia| | |].
  - split; [lia|]. split; [done|]. exists []. split; [by rewrite app_nil_r|]. split; [done|]. intros j nd Hj%rd_Some. unfold zlen in Hj. simpl in Hj. lia.
  - intros i [[cost last] used'] Hi (Hlast & Hb & l & -> & Hz & Hl). cbv zeta.
    destruct (right_of_ok a b (2 ^ level) i) as (r & Er & Hr & _). rewrite Er. cbn [mbind option_bind].
    assert (Hbr : boundary level (i + 1) = r).
    { unfold boundary. destruct (Z.eqb_spec (i + 1) 0); [lia|]. replace (i + 1 - 1) with i by lia. fold a b. by rewrite Er. }
    assert (Hadd : forall nd, ft_level nd = level -> node_id nd = i -> use nd = false -> placed nd ->
      exists l', (used ++ l) ++ [nd] = used ++ l' /\ zlen l' = i + 1 /\
        forall j nd', l'.[j] = Some nd' -> ft_level nd' = level /\ node_id nd' = j /\ use nd' = false /\ placed nd').
    { intros nd H1 H2 H3 H4. exists (l ++ [nd]). split; [by rewrite app_assoc|]. split; [rewrite zlen_app, Hz; reflexivity|].
      intros j nd' Hj. pose proof (rd_Some _ _ _ Hj) as Hj'. rewrite zlen_app in Hj'. change (zlen [nd]) with 1 in Hj'.
      destruct (Z.lt_ge_cases j (zlen l)); [rewrite rd_app_lt in Hj by done; by apply Hl|]. rewrite rd_app_ge in Hj by lia.
      assert (j = i) as -> by lia. rewrite Hz, Z.sub_diag in Hj. injection Hj as <-. done. }
    destruct (Z.eqb_spec last r) as [->|Hne].
    + eexists. split; [done|]. split; [done|]. split; [done|]. apply Hadd; [done..|]. unfold placed. cbn. rewrite Hbr. split; [done|]. split; [done|]. lia.
    + destruct (evaluate_ok log2 pow2 values num_keys last r max_data_node_keys frac approximate_model) as ([[nc st] mdl] & ->); [lia|lia|lia|lia|lia|]. cbn [mbind option_bind].
      eexists. split; [done|]. split; [done|]. split; [done|]. apply Hadd; [done..|]. unfold placed. cbn. by rewrite Hbr.
  - cbn [mbind option_bind]. eexists _, l. done.
Qed.
End Boundaries.

(** ** Boundaries of different levels agree *)

(** The level-[L] prediction of a key, as a scaled double. *)
Lemma predict_scaled m key z k : mid_range (a_ m) -> mid_range (b_ m) -> word64 key -> 0 <= k <= 30 ->
  f64_trunc (predict_double m key) = Some z -> (Z.abs z + 1) * 2 ^ k <= 2 ^ 31 ->
  exists z', f64_trunc (f_scale k (predict_double m key)) = Some z' /\ predict (expand m (f64_of_Z (2 ^ k))) key = z' /\ Z.abs z' < (Z.abs z + 1) * 2 ^ k.
Proof.
  intros Ha Hb Hkey Hk Hz Hsmall. assert (Hpk : 0 < 2 ^ k) by (apply Z.pow_pos_nonneg; lia).
  destruct (trunc_scale _ k z ltac:(lia) Hz) as (z' & Ez' & Hp & H0 & Hneg). exists z'. split; [done|].
  assert (Hz' : Z.abs z' < (Z.abs z + 1) * 2 ^ k).
  { destruct (Z.lt_trichotomy z 0) as [Hlt|[Heq|Hgt]].
    - specialize (Hneg Hlt). pose proof (Z.div_mod (- z') (2 ^ k) ltac:(lia)). pose proof (Z.mod_pos_bound (- z') (2 ^ k) Hpk). nia.
    - specialize (H0 Heq). nia.
    - specialize (Hp Hgt). pose proof (Z.div_mod z' (2 ^ k) ltac:(lia)). pose proof (Z.mod_pos_bound z' (2 ^ k) Hpk). nia. }
  split; [|done]. unfold predict, f64_to_int. rewrite (predict_double_scale m key z k), Ez' by done. unfold int_min, int_max.
  destruct (Z.leb_spec (- 2 ^ 31) z'), (Z.leb_spec z' (2 ^ 31 - 1)); done || lia.
Qed.

(** Bucket [i] of a level is the end of a run of buckets of a finer one. *)
Lemma trunc_bucket y k z z' i : 0 <= k -> f64_trunc y = Some z -> f64_trunc (f_scale k y) = Some z' -> 0 <= i ->
  (z <=? i) = (z' <=? (i + 1) * 2 ^ k - 1).
Proof.
  intros Hk Hz Hz' Hi. assert (Hpk : 0 < 2 ^ k) by (apply Z.pow_pos_nonneg; lia).
  destruct (trunc_scale y k z Hk Hz) as (z2 & E & Hp & H0 & Hneg). rewrite Hz' in E. injection E as <-.
  destruct (Z.lt_trichotomy z 0) as [Hlt|[Heq|Hgt]].
  - specialize (Hneg Hlt). pose proof (Z.div_mod (- z') (2 ^ k) ltac:(lia)). pose proof (Z.mod_pos_bound (- z') (2 ^ k) Hpk).
    destruct (Z.leb_spec z i), (Z.leb_spec z' ((i + 1) * 2 ^ k - 1)); nia || done.
  - specialize (H0 Heq). destruct (Z.leb_spec z i), (Z.leb_spec z' ((i + 1) * 2 ^ k - 1)); nia || done.
  - specialize (Hp Hgt). pose proof (Z.div_mod z' (2 ^ k) ltac:(lia)). pose proof (Z.mod_pos_bound z' (2 ^ k) Hpk).
    destruct (Z.leb_spec z i), (Z.leb_spec z' ((i + 1) * 2 ^ k - 1)); nia || done.
Qed.

Section Agree.
Context {P : Type} (key_less : Z -> f64 -> bool) (values : list (Z * P)) (num_keys : Z) (m : LinearModel).
Context (M : Z) (HM : 0 <= M <= 30) (Ha : mid_range (a_ m)) (Hb : mid_range (b_ m)).

(** Every key is predicted inside the range of [int], at all levels up to [M]. *)
Definition predictable (key : Z) : Prop :=
  word64 key /\ exists z, f64_trunc (predict_double m key) = Some z /\ (Z.abs z + 1) * 2 ^ M <= 2 ^ 31.

Context (Hkeys : forall v, v ∈ values -> predictable v.1).

Lemma predict_bucket key L k i : predictable key -> 0 <= L -> 0 <= k -> L + k <= M -> 0 <= i ->
  (predict (expand m (f64_of_Z (2 ^ L))) key <=? i) = (predict (expand m (f64_of_Z (2 ^ (L + k)))) key <=? (i + 1) * 2 ^ k - 1).
Proof.
  intros (Hw & z & Hz & Hsmall) HL Hk HLk Hi.
  assert (Hs : forall j, 0 <= j <= M -> (Z.abs z + 1) * 2 ^ j <= 2 ^ 31).
  { intros j Hj. assert (2 ^ j <= 2 ^ M) by (apply Z.pow_le_mono_r; lia). nia. }
  destruct (predict_scaled m key z L Ha Hb Hw ltac:(lia) Hz (Hs L ltac:(lia))) as (z1 & E1 & -> & _).
  destruct (predict_scaled m key z (L + k) Ha Hb Hw ltac:(lia) Hz (Hs (L + k) ltac:(lia))) as (z2 & E2 & -> & _).
  apply (trunc_bucket (f_scale L (predict_double m key)) k z1 z2 i Hk E1); [|done]. rewrite <-E2. f_equal.
  destruct (predict_double m key); cbn [f_scale]; [done..|]. f_equal. lia.
Qed.

Lemma bound_of_scale L k i : 0 <= L -> 0 <= k -> L + k <= M -> 0 <= i < 2 ^ L ->
  bound_of (f64_mul (a_ m) (f64_of_Z (2 ^ (L + k)))) (f64_mul (b_ m) (f64_of_Z (2 ^ (L + k)))) ((i + 1) * 2 ^ k - 1) =
  bound_of (f64_mul (a_ m) (f64_of_Z (2 ^ L))) (f64_mul (b_ m) (f64_of_Z (2 ^ L))) i.
Proof.
  intros HL Hk HLk Hi. destruct Ha as [Ha1 Ha2], Hb as [Hb1 Hb2]. rewrite !mul_pow2 by (done || lia). unfold bound_of.
  replace ((i + 1) * 2 ^ k - 1 + 1) with ((i + 1) * 2 ^ k) by lia. assert (Hp : 0 < 2 ^ k) by (apply Z.pow_pos_nonneg; lia).
  assert (Hsum : 2 ^ L * 2 ^ k <= 2 ^ 30) by (rewrite <-Z.pow_add_r by lia; apply Z.pow_le_mono_r; lia).
  rewrite f64_of_Z_scale by nia. pose proof (f64_of_Z_range (i + 1) ltac:(nia)) as [Hr Hm].
  assert (Hss : forall x, f_scale (L + k) x = f_scale k (f_scale L x)) by (intros []; cbn [f_scale]; [done..|]; f_equal; lia).
  rewrite !Hss, sub_scale, div_scale; [done|lia|done| | |].
  - destruct (b_ m); cbn in *; [done..|]. by apply normal_small.
  - eapply exp_in_weaken; [exact Hr|lia|lia].
  - destruct (b_ m); cbn in *; done || lia.
Qed.
Lemma skip_agree L k i right : 0 <= L -> 0 <= k -> L + k <= M -> 0 <= i -> 0 <= right ->
  skip_predicted values num_keys (f64_mul (a_ m) (f64_of_Z (2 ^ (L + k)))) (f64_mul (b_ m) (f64_of_Z (2 ^ (L + k)))) ((i + 1) * 2 ^ k - 1) right =
  skip_predicted values num_keys (f64_mul (a_ m) (f64_of_Z (2 ^ L))) (f64_mul (b_ m) (f64_of_Z (2 ^ L))) i right.
Proof.
  intros HL Hk HLk Hi Hr. unfold skip_predicted. generalize (S (Z.to_nat num_keys)) as fuel. intros fuel. revert right Hr.
  induction fuel as [|fuel IH]; intros right Hr; [done|]. cbn [loop]. destruct (right <? num_keys); [|done]. destruct (values.[right]) as [v|] eqn:Ev; [|done].
  cbn [mbind option_bind]. pose proof (predict_bucket v.1 L k i (Hkeys v ltac:(by apply rd_elem; exists right)) HL Hk HLk Hi) as E.
  unfold expand in E. rewrite E. destruct (_ <=? (i + 1) * 2 ^ k - 1); [apply IH; lia|done].
Qed.

Lemma right_of_agree L k i : 0 <= num_keys <= zlen values -> 0 <= L -> 0 <= k -> L + k <= M -> 0 <= i < 2 ^ L ->
  right_of key_less values num_keys (f64_mul (a_ m) (f64_of_Z (2 ^ (L + k)))) (f64_mul (b_ m) (f64_of_Z (2 ^ (L + k)))) (2 ^ (L + k)) ((i + 1) * 2 ^ k - 1) =
  right_of key_less values num_keys (f64_mul (a_ m) (f64_of_Z (2 ^ L))) (f64_mul (b_ m) (f64_of_Z (2 ^ L))) (2 ^ L) i.
Proof.
  intros Hn HL Hk HLk Hi. unfold right_of. assert (Hp : 0 < 2 ^ k) by (apply Z.pow_pos_nonneg; lia).
  assert (Hlast : ((i + 1) * 2 ^ k - 1 =? 2 ^ (L + k) - 1) = (i =? 2 ^ L - 1)).
  { rewrite Z.pow_add_r by lia. destruct (Z.eqb_spec ((i + 1) * 2 ^ k - 1) (2 ^ L * 2 ^ k - 1)), (Z.eqb_spec i (2 ^ L - 1)); done || nia. }
  rewrite Hlast. destruct (i =? 2 ^ L - 1).
  - cbn [mbind option_bind]. apply skip_agree; lia.
  - rewrite bound_of_scale by done. destruct (lower_bound_in_ok key_less values num_keys Hn (bound_of (f64_mul (a_ m) (f64_of_Z (2 ^ L))) (f64_mul (b_ m) (f64_of_Z (2 ^ L))) i)) as (p & -> & Hp').
    cbn [mbind option_bind]. apply skip_agree; lia.
Qed.
End Agree.

Lemma boundary_agree {P} key_less (values : list (Z * P)) num_keys node M L k i : 0 <= M <= 30 -> mid_range (a_ (model_ node)) -> mid_range (b_ (model_ node)) ->
  (forall v, v ∈ values -> predictable (model_ node) M v.1) -> 0 <= num_keys <= zlen values -> 0 <= L -> 0 <= k -> L + k <= M -> 0 <= i <= 2 ^ L ->
  boundary key_less values num_keys node L i = boundary key_less values num_keys node (L + k) (i * 2 ^ k).
Proof.
  intros HM Ha Hb Hkeys Hn HL Hk HLk Hi. assert (Hp : 0 < 2 ^ k) by (apply Z.pow_pos_nonneg; lia). unfold boundary.
  destruct (Z.eqb_spec i 0) as [->|Hne]; [by rewrite Z.mul_0_l|]. destruct (Z.eqb_spec (i * 2 ^ k) 0); [nia|].
  rewrite <-(right_of_agree key_less values num_keys (model_ node) M HM Ha Hb Hkeys L k (i - 1)) by lia. do 2 f_equal. lia.
Qed.

(** ** The partition *)

(** Key ranges one after the other, from [p] to [q]. *)
Fixpoint contiguous (p : Z) (l : list FTNode) (q : Z) : Prop :=
  match l with
  | [] => p = q
  | nd :: l => left_boundary nd = p /\ contiguous (right_boundary nd) l q
  end.

Lemma tiles_contiguous (B : Z -> Z) D l : Forall (fun nd => left_boundary nd = B (node_id nd * 2 ^ (D - ft_level nd)) /\
    right_boundary nd = B ((node_id nd + 1) * 2 ^ (D - ft_level nd))) l ->
  forall p, tiles D p l -> contiguous (B p) l (B (2 ^ D)).
Proof.
  induction 1 as [|nd l [Hleft Hright] _ IH]; intros p Ht; cbn [contiguous tiles] in *; [by rewrite Ht|]. destruct Ht as (Hl & <- & Ht).
  split; [done|]. rewrite Hright. replace ((node_id nd + 1) * 2 ^ (D - ft_level nd)) with (node_id nd * 2 ^ (D - ft_level nd) + 2 ^ (D - ft_level nd)) by lia. by apply IH.
Qed.

Section Partition.
Context {P : Type} (sizeof_node : Z) (log2 pow2 : f64 -> f64) (key_less : Z -> f64 -> bool).

Lemma root_fresh (values : list (Z * P)) num_keys node cost : 0 <= num_keys <= zlen values ->
  tree_fresh (placed key_less values num_keys node) [[mkFT 0 0 cost 0 num_keys false f64_zero f64_zero f64_zero f64_zero num_keys]].
Proof.
  intros Hn. apply (fresh_add _ [] _ (fresh_nil _)). split; [done|]. intros i nd Hi. pose proof (rd_Some _ _ _ Hi) as Hb. change (zlen [_]) with 1 in Hb.
  assert (i = 0) as -> by lia. injection Hi as <-. do 3 (split; [done|]). unfold placed. cbn [left_boundary right_boundary ft_level node_id ft_num_keys].
  change (0 + 1) with (2 ^ 0). rewrite boundary_last by (done || lia). split; [done|]. split; [done|]. lia.
Qed.

(** C14: the bottom-up search for a fanout terminates and is memory safe for every
    array of pairs, every model and every cost, also with sampled models; the nodes it
    returns tile the buckets of the level it returns; and when the model is far from
    the limits of double, their key ranges are consecutive and cover the whole array,
    although the boundaries of nodes of different levels are computed separately. *)
Theorem fanout_partitions (values : list (Z * P)) num_keys node total_keys max_fanout max_data_node_keys frac approximate_model :
  0 <= num_keys <= zlen values -> num_keys < 2 ^ 31 -> 1 <= max_fanout <= 2 ^ 29 ->
  exists best cost used,
    find_best_fanout_bottom_up sizeof_node log2 pow2 key_less values num_keys node total_keys [] max_fanout max_data_node_keys frac approximate_model false =
      Some (best, cost, used) /\
    0 <= best <= 30 /\ tiles best 0 used /\
    (mid_range (a_ (model_ node)) -> mid_range (b_ (model_ node)) -> (forall v, v ∈ values -> predictable (model_ node) best v.1) ->
      contiguous 0 used num_keys).
Proof.
  intros Hn Hmax Hf. unfold find_best_fanout_bottom_up. set (c0 := f64_add _ _). set (compute := fun _ _ _ => _).
  destruct (add_levels_ok compute (fun _ => True) (placed key_less values num_keys node)) with (max_fanout := max_fanout) (st := tt) (level := 1) (best_cost := c0)
    (fanout_costs := [c0]) (t := [[mkFT 0 0 c0 0 num_keys false f64_zero f64_zero f64_zero f64_zero num_keys]])
    as ([] & t & best & cost & E & _ & Ht & Hb & H30); try done; try lia.
  - intros [] L _ HL. unfold compute. destruct (compute_level_ok key_less values num_keys node Hn sizeof_node log2 pow2 total_keys [] L max_data_node_keys frac approximate_model)
      as (cost & l & -> & Hl); [lia|done|]. cbn. by eexists tt, cost, l.
  - by apply root_fresh.
  - change (2 ^ 1) with 2 in E. rewrite E. cbn [mbind option_bind].
    destruct (choose_nodes_ok sizeof_node (placed key_less values num_keys node) t best cost num_keys total_keys (placed_use _ _ _ _) Ht Hb H30) as (c & used & -> & Htiles & Hall).
    cbn [mbind option_bind]. exists best, c, used. split; [done|]. split; [lia|]. split; [done|]. intros Ha Hbm Hkeys.
    rewrite <-(boundary_last key_less values num_keys node Hn best) by lia.
    change 0 with (boundary key_less values num_keys node best 0) at 1. apply tiles_contiguous; [|done].
    eapply Forall_impl; [exact Hall|]. intros nd (_ & [Hlv Hid] & Hl & Hr & _). rewrite Hl, Hr.
    rewrite !(boundary_agree key_less values num_keys node best (ft_level nd) (best - ft_level nd)) by (done || lia).
    by replace (ft_level nd + (best - ft_level nd)) with best by lia.
Qed.
End Partition.

Definition demo_pairs : list (Z * Z) := [(10, 1); (20, 2); (21, 3); (22, 4); (40, 5); (50, 6); (60, 7); (70, 8)].

Definition demo_root : AlexNodeBase := mkBase false 0 0 (mkLinearModel (f64_lit 1 64) (f64_lit (-10) 64)) (f64_of_Z 5).

Definition alex_compare (key : Z) (bound : f64) : bool := SFltb (f64_of_Z key) bound.

Lemma demo_predicted v : v ∈ demo_pairs -> word64 v.1 /\ f64_trunc (predict_double (model_ demo_root) v.1) = Some 0.
Proof.
  intros Hv. unfold demo_pairs in Hv. repeat (apply elem_of_cons in Hv as [->|Hv]; [split; [unfold word64; cbn; lia|vm_compute; reflexivity]|]).
  by apply elem_of_nil in Hv.
Qed.

Lemma demo_coefficients : mid_range (a_ (model_ demo_root)) /\ mid_range (b_ (model_ demo_root)).
Proof. unfold mid_range. split; (split; vm_compute; [reflexivity|split; discriminate]). Qed.

Lemma fanout_partitions_witness : exists best cost used,
  find_best_fanout_bottom_up 104 (fun x => x) (fun x => x) alex_compare demo_pairs 8 demo_root 8 [] 4 100 f64_zero true false = Some (best, cost, used) /\
  contiguous 0 used 8.
Proof.
  destruct (fanout_partitions 104 (fun x => x) (fun x => x) alex_compare demo_pairs 8 demo_root 8 4 100 f64_zero true) as (best & cost & used & E & Hb & _ & Hc).
  - vm_compute. split; discriminate.
  - reflexivity.
  - vm_compute. split; discriminate.
  - exists best, cost, used. split; [exact E|]. clear E. apply Hc; [apply demo_coefficients|apply demo_coefficients|].
    intros v Hv. destruct (demo_predicted v Hv) as [Hw Hz]. split; [exact Hw|]. exists 0. split; [exact Hz|].
    change (Z.abs 0 + 1) with 1. rewrite Z.mul_1_l. apply Z.pow_le_mono_r; lia.
Defined.


(** Forty squares: the search stops at eight buckets and merges two pairs of them. *)
Definition demo_squares : list (Z * Z) := (fun i => (1000 + i * i, i)) <$> seqZ 0 40.

Definition demo_squares_root : AlexNodeBase := mkBase false 0 0 (mkLinearModel (f64_lit 1 1600) (f64_lit (-1000) 1600)) (f64_of_Z 50).

Definition outline (nd : FTNode) : Z * Z * Z * Z := (ft_level nd, node_id nd, left_boundary nd, right_boundary nd).

Example demo_fanout :
  match find_best_fanout_bottom_up 104 (fun x => x) (fun x => x) alex_compare demo_squares 40 demo_squares_root 40 [] 8 100 (f64_lit 1 2) false false with
  | Some (best, _, used) => best = 3 /\
      List.map outline used = [(3, 0, 0, 15); (3, 1, 15, 20); (2, 1, 20, 29); (3, 4, 29, 32); (3, 5, 32, 35); (2, 3, 35, 40)]
  | None => False
  end.
Proof. vm_compute. split; reflexivity. Qed.
