(* ===== verification/AlexTree.v ===== *)
(** * ALEX: the tree, its traversal and lookups (alex/src/alex.h)

    The nodes of an index live in a store: for every node its base, for a model node its
    pointer array, for a data node its contents and its neighbours.  A pointer is an
    integer, the null pointer is 0; a pointer that is not in the store is invalid, and
    following it is undefined behaviour.  A lookup counts, so it returns the index. *)

From S2P Require Import Prelude Words Floats AlexBase AlexBitmap AlexUpdate AlexNode AlexModel.
From Stdlib Require Import SpecFloat.
From stdpp Require Import gmap list.
Local Open Scope Z_scope.
Local Open Scope cxx_scope.

(** ** State *)

Definition nullptr : Z := 0.

(** [next_leaf_] and [prev_leaf_] of a data node. *)
Record Neighbours := mkNeighbours { next_leaf_ : Z; prev_leaf_ : Z }.

(** [Params] and [DerivedParams]. *)
Record Params := mkParams {
  expected_insert_frac : f64;
  approximate_model_computation : bool;
  approximate_cost_computation : bool;
  max_fanout : Z;
  max_data_node_slots : Z
}.

(** The counters of [Stats]; [splitting_time] and [cost_computation_time] are left out. *)
Inductive StatsCounter :=
| SNumKeys | SNumModelNodes | SNumDataNodes | SNumExpandAndScales | SNumExpandAndRetrains | SNumDownwardSplits | SNumSidewaysSplits
| SNumModelNodeExpansions | SNumDownwardSplitKeys | SNumSidewaysSplitKeys | SNumModelNodeExpansionPointers
| SNumNodeLookups | SNumLookups | SNumInserts.

#[export] Instance StatsCounter_eq_dec : EqDecision StatsCounter.
Proof. solve_decision. Defined.

Definition counter_list : list StatsCounter :=
  [SNumKeys; SNumModelNodes; SNumDataNodes; SNumExpandAndScales; SNumExpandAndRetrains; SNumDownwardSplits; SNumSidewaysSplits;
   SNumModelNodeExpansions; SNumDownwardSplitKeys; SNumSidewaysSplitKeys; SNumModelNodeExpansionPointers;
   SNumNodeLookups; SNumLookups; SNumInserts].

Definition counter_index (c : StatsCounter) : nat := default 0%nat (fst <$> list_find (c =.) counter_list).

#[export] Instance StatsCounter_countable : Countable StatsCounter.
Proof. apply (inj_countable' counter_index (fun i => default SNumKeys (counter_list !! i))). by intros []. Defined.

Record InternalStats := mkIStats {
  key_domain_min_ : Z;
  key_domain_max_ : Z;
  num_keys_above_key_domain : Z;
  num_keys_below_key_domain : Z;
  num_keys_at_last_right_domain_resize : Z;
  num_keys_at_last_left_domain_resize : Z
}.

Section Alex.
Context {P : Type}.

(** The nodes; [next_pointer] is the next pointer an allocation returns. *)
Record Store := mkStore {
  bases : Heap;
  arrays : gmap Z (Z * list Z);
  leaves : gmap Z (AlexDataNode P);
  neighbours : gmap Z Neighbours;
  next_pointer : Z
}.

Record Alex := mkAlex {
  store : Store;
  root_node_ : Z;
  superroot_ : Z;
  params_ : Params;
  stats_ : gmap StatsCounter Z;
  istats_ : InternalStats
}.

Definition with_store (t : Alex) (s : Store) : Alex := mkAlex s (root_node_ t) (superroot_ t) (params_ t) (stats_ t) (istats_ t).
Definition with_root (t : Alex) (p : Z) : Alex := mkAlex (store t) p (superroot_ t) (params_ t) (stats_ t) (istats_ t).
Definition with_superroot (t : Alex) (p : Z) : Alex := mkAlex (store t) (root_node_ t) p (params_ t) (stats_ t) (istats_ t).
Definition with_istats (t : Alex) (i : InternalStats) : Alex := mkAlex (store t) (root_node_ t) (superroot_ t) (params_ t) (stats_ t) i.

(** [stats_.c]: the counters start at 0. *)
Definition stat (t : Alex) (c : StatsCounter) : Z := default 0 (stats_ t !! c).

(** [stats_.c += d] *)
Definition bump (c : StatsCounter) (d : Z) (t : Alex) : Alex :=
  mkAlex (store t) (root_node_ t) (superroot_ t) (params_ t) (<[c := stat t c + d]> (stats_ t)) (istats_ t).

(** ** Nodes *)

Definition is_leaf (s : Store) (p : Z) : option bool := b ← bases s !! p; Some (is_leaf_ b).

(** [static_cast<model_node_type*>(p)] *)
Definition model_node (s : Store) (p : Z) : option AlexModelNode :=
  b ← bases s !! p; '(num, children) ← arrays s !! p; Some (mkModelNode b num children).

Definition set_base (s : Store) (p : Z) (b : AlexNodeBase) : Store :=
  mkStore (<[p := b]> (bases s)) (arrays s) (leaves s) (neighbours s) (next_pointer s).
Definition set_leaf (s : Store) (p : Z) (n : AlexDataNode P) : Store :=
  mkStore (bases s) (arrays s) (<[p := n]> (leaves s)) (neighbours s) (next_pointer s).
Definition set_neighbours (s : Store) (p : Z) (l : Neighbours) : Store :=
  mkStore (bases s) (arrays s) (leaves s) (<[p := l]> (neighbours s)) (next_pointer s).
Definition set_model_node (s : Store) (p : Z) (n : AlexModelNode) : Store :=
  mkStore (<[p := base n]> (bases s)) (<[p := (num_children_ n, children_ n)]> (arrays s)) (leaves s) (neighbours s) (next_pointer s).

(** A new node: the store and its pointer. *)
Definition new_model_node (s : Store) (n : AlexModelNode) : Store * Z :=
  let p := next_pointer s in
  (set_model_node (mkStore (bases s) (arrays s) (leaves s) (neighbours s) (p + 1)) p n, p).

Definition new_data_node (s : Store) (level : Z) (n : AlexDataNode P) : Store * Z :=
  let p := next_pointer s in
  (set_neighbours (set_leaf (set_base (mkStore (bases s) (arrays s) (leaves s) (neighbours s) (p + 1)) p (AlexNode_of level true)) p n) p
     (mkNeighbours nullptr nullptr), p).

(** [delete_node]: the pointer is invalid from now on. *)
Definition delete_node (s : Store) (p : Z) : Store :=
  mkStore (delete p (bases s)) (delete p (arrays s)) (delete p (leaves s)) (delete p (neighbours s)) (next_pointer s).

(** [p->next_leaf_ = q] and [p->prev_leaf_ = q]. *)
Definition set_next (s : Store) (p q : Z) : option Store :=
  l ← neighbours s !! p; Some (set_neighbours s p (mkNeighbours q (prev_leaf_ l))).
Definition set_prev (s : Store) (p q : Z) : option Store :=
  l ← neighbours s !! p; Some (set_neighbours s p (mkNeighbours (next_leaf_ l) q)).

(** An update of a data node through its pointer. *)
Definition on_leaf {R} (t : Alex) (p : Z) (f : AlexDataNode P -> option (R * AlexDataNode P)) : option (R * Alex) :=
  n ← leaves (store t) !! p;
  '(r, n) ← f n;
  Some (r, with_store t (set_leaf (store t) p n)).

(** ** Traversal

    No path is longer than the number of nodes, and that is less than the next pointer. *)

Definition depth_fuel (s : Store) : nat := S (Z.to_nat (next_pointer s)).

Definition clamp_bucket (n : AlexModelNode) (bucketID : Z) : Z := Z.min (Z.max bucketID 0) (num_children_ n - 1).

(** [SFabs] of a difference, compared with a tolerance. *)
Definition within (x y tolerance : f64) : bool := SFleb (SFabs (f64_sub x y)) tolerance.

(** [10 * std::numeric_limits<double>::epsilon() * bucketID_prediction] *)
Definition tolerance_of (bucketID_prediction : f64) : f64 :=
  f64_mul (f64_mul (f64_of_Z 10) (f64_lit 1 (2 ^ 52))) bucketID_prediction.

(** Down to a leaf along the first or the last children, pushing the buckets. *)
Definition edge_step (s : Store) (first : bool) '(cur, path) : option ((Z * list (Z * Z)) + (Z * list (Z * Z))) :=
  leaf ← is_leaf s cur;
  if (leaf : bool) then Some (inr (cur, path))
  else
    node ← model_node s cur;
    let bucketID := if first then 0 else num_children_ node - 1 in
    child ← (children_ node).[bucketID];
    Some (inl (child, (cur, bucketID) :: path)).

Definition descend_edge (s : Store) (first : bool) (cur : Z) (traversal_path : list (Z * Z)) : option (Z * list (Z * Z)) :=
  loop (depth_fuel s) (edge_step s first) (cur, traversal_path).

Definition first_data_node (t : Alex) : option Z := '(p, _) ← descend_edge (store t) true (root_node_ t) []; Some p.
Definition last_data_node (t : Alex) : option Z := '(p, _) ← descend_edge (store t) false (root_node_ t) []; Some p.

Definition get_min_key (t : Alex) : option Z := p ← first_data_node t; n ← leaves (store t) !! p; first_key (slots_ n).
Definition get_max_key (t : Alex) : option Z := p ← last_data_node t; n ← leaves (store t) !! p; last_key (slots_ n).

(** The bucket on the left or right of those of a child, the child of [1 << d]
    buckets among which [bucketID] is. *)
Definition left_of (repeats bucketID : Z) : Z := bucketID - Z.rem bucketID repeats.
Definition right_of_child (repeats bucketID : Z) : Z := bucketID - Z.rem bucketID repeats + repeats.

(** [correct_traversal_path]; the path is innermost first.  The loop pops the path
    while [tn] goes on referring to the popped element, so that the bucket of the
    node it stops at is not corrected in the path. *)
Definition correct_traversal_path (s : Store) (leaf : Z) (traversal_path : list (Z * Z)) (left : bool) : option (list (Z * Z)) :=
  b ← bases s !! leaf;
  repeats ← int_shift (duplication_factor_ b);
  '(parent, bucketID) ← head traversal_path;
  node ← model_node s parent;
  let edge repeats bucketID := if left then left_of repeats bucketID else right_of_child repeats bucketID in
  let at_edge node e := if left then e =? 0 else e =? num_children_ node in
  let e := edge repeats bucketID in
  if at_edge node e then
    '(path, node, e) ← loop (S (length traversal_path)) (fun '(path, node, e) =>
      if at_edge node e then
        let path := tail path in
        repeats ← int_shift (duplication_factor_ (base node));
        '(parent, bucketID) ← head path;
        node ← model_node s parent;
        Some (inl (path, node, edge repeats bucketID))
      else Some (inr (path, node, e))) (traversal_path, node, e);
    cur ← (children_ node).[if left then e - 1 else e];
    '(_, path) ← descend_edge s (negb left) cur path;
    Some path
  else Some ((parent, if left then e - 1 else e) :: tail traversal_path).

(** The neighbour the key may belong to when the prediction is at a bucket boundary. *)
Definition neighbour_of (s : Store) (leaf key : Z) (bucketID_prediction : f64) : option (option (Z * bool)) :=
  let rounded := f64_of_Z (f64_to_int (f64_add bucketID_prediction (f64_lit 1 2))) in
  if within bucketID_prediction rounded (tolerance_of bucketID_prediction) then
    l ← neighbours s !! leaf;
    let left := SFleb rounded bucketID_prediction in
    let q := if left then prev_leaf_ l else next_leaf_ l in
    if q =? nullptr then Some None
    else
      n ← leaves s !! q;
      beyond ← (if left then k ← last_key (slots_ n); Some (key <=? k) else k ← first_key (slots_ n); Some (k <=? key));
      Some (if (beyond : bool) then Some (q, left) else None)
  else Some None.

(** One step down: the bucket of the key, and whether its child is a leaf. *)
Definition walk_step (s : Store) (key : Z) '(cur, path) : option ((Z * list (Z * Z)) + (Z * f64 * list (Z * Z))) :=
  node ← model_node s cur;
  let bucketID_prediction := predict_double (model_ (base node)) key in
  let bucketID := clamp_bucket node (f64_to_int bucketID_prediction) in
  child ← (children_ node).[bucketID];
  leaf ← is_leaf s child;
  let path := (cur, bucketID) :: path in
  Some (if (leaf : bool) then inr (child, bucketID_prediction, path) else inl (child, path)).

(** [get_leaf]: the index, the leaf and the path from the superroot to the parent of the
    leaf, innermost first; the path is corrected when [with_path]. *)
Definition get_leaf (t : Alex) (key : Z) (with_path : bool) : option (Alex * Z * list (Z * Z)) :=
  let s := store t in
  leaf ← is_leaf s (root_node_ t);
  if (leaf : bool) then Some (t, root_node_ t, [(superroot_ t, 0)])
  else
    '(leaf, bucketID_prediction, path) ← loop (depth_fuel s) (walk_step s key) (root_node_ t, [(superroot_ t, 0)]);
    b ← bases s !! leaf;
    let t := bump SNumNodeLookups (level_ b) t in
    other ← neighbour_of s leaf key bucketID_prediction;
    match other with
    | None => Some (t, leaf, path)
    | Some (q, side) =>
        path ← (if with_path then correct_traversal_path s leaf path side else Some path);
        Some (t, q, path)
    end.

(** ** Linking data nodes *)

(** What [NodeIterator] pushes for a node: its distinct children, the first on top. *)
Fixpoint distinct_children (children : list Z) : list Z :=
  match children with
  | [] => []
  | c :: rest => match rest with c' :: _ => if c =? c' then distinct_children rest else c :: distinct_children rest | [] => [c] end
  end.

(** [NodeIterator]: the current node and the stack. *)
Definition node_iterator_push (s : Store) (p : Z) (stack : list Z) : option (list Z) :=
  leaf ← is_leaf s p;
  if (leaf : bool) then Some stack
  else
    node ← model_node s p;
    if (1 <=? num_children_ node) && (num_children_ node <=? zlen (children_ node)) then
      Some (distinct_children (take (Z.to_nat (num_children_ node)) (children_ node)) ++ stack)
    else None.

Definition link_all_data_nodes (t : Alex) : option Alex :=
  stack ← node_iterator_push (store t) (root_node_ t) [];
  s ← loop (depth_fuel (store t)) (fun '(s, cur, stack, prev_leaf) =>
    leaf ← is_leaf s cur;
    '(s, prev_leaf) ← (if (leaf : bool) then
        s ← (if prev_leaf =? nullptr then Some s else s ← set_next s prev_leaf cur; set_prev s cur prev_leaf);
        Some (s, cur)
      else Some (s, prev_leaf));
    match stack with
    | [] => Some (inr s)
    | cur :: stack => stack ← node_iterator_push s cur stack; Some (inl (s, cur, stack, prev_leaf))
    end) (store t, root_node_ t, stack, nullptr);
  Some (with_store t s).

Definition link_data_nodes (s : Store) (old_leaf left_leaf right_leaf : Z) : option Store :=
  l ← neighbours s !! old_leaf;
  s ← (if prev_leaf_ l =? nullptr then Some s else set_next s (prev_leaf_ l) left_leaf);
  s ← set_prev s left_leaf (prev_leaf_ l);
  s ← set_next s left_leaf right_leaf;
  s ← set_prev s right_leaf left_leaf;
  s ← set_next s right_leaf (next_leaf_ l);
  if next_leaf_ l =? nullptr then Some s else set_prev s (next_leaf_ l) right_leaf.

(** ** Lookups *)

(** [get_payload], and [find] up to its iterator: the position in the leaf, or none. *)
Definition find_in_leaf (t : Alex) (key : Z) : option (option (Z * Z) * Alex) :=
  '(t, leaf, _) ← get_leaf (bump SNumLookups 1 t) key false;
  '(idx, t) ← on_leaf t leaf (fun n => find_key n key);
  Some (if idx <? 0 then None else Some (leaf, idx), t).

Definition get_payload (t : Alex) (key : Z) : option (option P * Alex) :=
  '(r, t) ← find_in_leaf t key;
  match r with
  | None => Some (None, t)
  | Some (leaf, idx) => n ← leaves (store t) !! leaf; v ← (payload_slots_ (slots_ n)).[idx]; Some (Some v, t)
  end.

(** *** Iterators *)

Record TreeIterator := mkTreeIterator { cur_leaf_ : Z; tree_idx_ : Z; tree_bitmap_idx_ : Z; tree_bitmap_data_ : Z }.

(** One round of the loop of [advance]: a leaf without keys to come is left for the next one. *)
Definition advance_step (s : Store) '(leaf, n, idx, bitmap_idx, data) : option ((Z * AlexDataNode P * Z * Z * Z) + TreeIterator) :=
  if data =? 0 then
    let bitmap_idx := bitmap_idx + 1 in
    if bitmap_size_ (slots_ n) <=? bitmap_idx then
      l ← neighbours s !! leaf;
      let leaf := next_leaf_ l in
      if leaf =? nullptr then Some (inr (mkTreeIterator leaf 0 bitmap_idx data))
      else
        n ← leaves s !! leaf;
        w ← (bitmap_ (slots_ n)).[0];
        Some (inl (leaf, n, 0, 0, w))
    else w ← (bitmap_ (slots_ n)).[bitmap_idx]; Some (inl (leaf, n, idx, bitmap_idx, w))
  else Some (inr (mkTreeIterator leaf (get_offset bitmap_idx (extract_rightmost_one data)) bitmap_idx (remove_rightmost_one data))).

(** The words of all the bitmaps bound the rounds. *)
Definition words_of (s : Store) : Z := map_fold (fun _ n acc => acc + Z.max 0 (bitmap_size_ (slots_ n))) 0 (leaves s).

Definition advance (s : Store) (it : TreeIterator) : option TreeIterator :=
  n ← leaves s !! cur_leaf_ it;
  loop (S (Z.to_nat (words_of s))) (advance_step s) (cur_leaf_ it, n, tree_idx_ it, tree_bitmap_idx_ it, tree_bitmap_data_ it).

(** [Iterator(leaf, idx)] with [initialize]. *)
Definition iterator_at (s : Store) (leaf idx : Z) : option TreeIterator :=
  if leaf =? nullptr then Some (mkTreeIterator leaf idx 0 0)
  else
    n ← leaves s !! leaf;
    '(leaf, idx) ← (if data_capacity_ (slots_ n) <=? idx then l ← neighbours s !! leaf; Some (next_leaf_ l, 0) else Some (leaf, idx));
    if leaf =? nullptr then Some (mkTreeIterator leaf idx 0 0)
    else
      n ← leaves s !! leaf;
      let bitmap_idx := Z.shiftr idx 6 in
      w ← (bitmap_ (slots_ n)).[bitmap_idx];
      bit ← bit64 (idx - Z.shiftl bitmap_idx 6);
      advance s (mkTreeIterator leaf idx bitmap_idx (Z.land w (not64 (bit - 1)))).

Definition at_end (it : TreeIterator) : bool := cur_leaf_ it =? nullptr.

(** [*it] *)
Definition deref (s : Store) (it : TreeIterator) : option (Z * P) :=
  n ← leaves s !! cur_leaf_ it;
  k ← (key_slots_ (slots_ n)).[tree_idx_ it];
  v ← (payload_slots_ (slots_ n)).[tree_idx_ it];
  Some (k, v).

Definition end_iterator : TreeIterator := mkTreeIterator nullptr 0 0 0.

Definition begin (t : Alex) : option TreeIterator := p ← first_data_node t; iterator_at (store t) p 0.

Definition find (t : Alex) (key : Z) : option (TreeIterator * Alex) :=
  '(r, t) ← find_in_leaf t key;
  match r with
  | None => Some (end_iterator, t)
  | Some (leaf, idx) => it ← iterator_at (store t) leaf idx; Some (it, t)
  end.

Definition lower_bound (t : Alex) (key : Z) : option (TreeIterator * Alex) :=
  '(t, leaf, _) ← get_leaf (bump SNumLookups 1 t) key false;
  '(idx, t) ← on_leaf t leaf (fun n => find_lower n key);
  it ← iterator_at (store t) leaf idx;
  Some (it, t).

Definition upper_bound (t : Alex) (key : Z) : option (TreeIterator * Alex) :=
  '(t, leaf, _) ← get_leaf (bump SNumLookups 1 t) key false;
  '(idx, t) ← on_leaf t leaf (fun n => find_upper n key);
  it ← iterator_at (store t) leaf idx;
  Some (it, t).

(** [count]: the equal keys from the lower bound on. *)
Definition count_key (t : Alex) (key : Z) : option (Z * Alex) :=
  '(it, t) ← lower_bound t key;
  let s := store t in
  n ← loop (S (Z.to_nat (stat t SNumKeys))) (fun '(it, n) =>
    if at_end it then Some (inr n)
    else
      '(k, _) ← deref s it;
      if key_equal k key then it ← advance s it; Some (inl (it, n + 1)) else Some (inr n)) (it, 0);
  Some (n, t).

(** [find_last_no_greater_than] *)
Definition find_last_no_greater_than (t : Alex) (key : Z) : option (TreeIterator * Alex) :=
  '(t, leaf, _) ← get_leaf (bump SNumLookups 1 t) key false;
  '(idx, t) ← on_leaf t leaf (fun n => AlexNode.upper_bound n key);
  let s := store t in
  '(leaf, idx) ← (if 0 <=? idx - 1 then Some (leaf, idx - 1)
    else loop (depth_fuel s) (fun leaf =>
      l ← neighbours s !! leaf;
      if prev_leaf_ l =? nullptr then Some (inr (leaf, 0))
      else
        n ← leaves s !! prev_leaf_ l;
        if 0 <? num_keys_ (slots_ n) then pos ← last_pos (slots_ n); Some (inr (prev_leaf_ l, pos))
        else Some (inl (prev_leaf_ l))) leaf);
  it ← iterator_at s leaf idx;
  Some (it, t).

End Alex.

Arguments Store : clear implicits.
Arguments Alex : clear implicits.
