(* ===== verification/AlexBuild.v ===== *)
(** * ALEX: building the tree (alex/src/alex.h)

    The constructor, the superroot and bulk loading.  [bulk_load_node] calls itself on
    the children; its fuel bounds the depth of the calls.

    [AlexEnv] holds what the code takes from elsewhere: the sizes of its classes, the
    logarithm and the power of the mathematics library, and the contents of fresh memory. *)

From S2P Require Import Prelude Words Floats AlexBase AlexBitmap AlexSearch AlexModel AlexNode.
From S2P Require Import AlexPlace AlexResize AlexUpdate AlexCost AlexFanout AlexTree.
From Stdlib Require Import SpecFloat.
From stdpp Require Import gmap list.
Local Open Scope Z_scope.
Local Open Scope cxx_scope.

Class AlexEnv (P : Type) := {
  sizeof_V : Z;
  sizeof_node : Z;
  log2 : f64 -> f64;
  pow2 : f64 -> f64;
  uninit_keys : Z -> Z;
  uninit_payloads : Z -> P
}.

(** [AlexCompare] of a key and a double. *)
Definition alex_less (x : Z) (y : f64) : bool := SFltb (f64_of_Z x) y.

(** [static_cast<short>(x)] and [static_cast<uint8_t>(x)]. *)
Definition to_short (x : Z) : Z := (x + 2 ^ 15) mod 2 ^ 16 - 2 ^ 15.
Definition to_uint8 (x : Z) : Z := x mod 2 ^ 8.

(** What a slot of a fresh pointer array holds: no pointer to a node. *)
Definition no_pointer : Z := -1.

Definition new_children (n : Z) : list Z := replicate (Z.to_nat n) no_pointer.

(** The slope and intercept of a model that maps [min_key .. max_key] to [0, 1]. *)
Definition cdf_model (min_key max_key : Z) : LinearModel :=
  let a := f64_div (f64_of_Z 1) (f64_of_Z (wrap64 (max_key - min_key))) in
  mkLinearModel a (f64_mul (f64_mul (f64_of_Z (-1)) (f64_of_Z min_key)) a).

Definition set_level (l : Z) (b : AlexNodeBase) : AlexNodeBase :=
  mkBase (is_leaf_ b) (duplication_factor_ b) l (AlexModel.model_ b) (AlexModel.cost_ b).
Definition set_cost (c : f64) (b : AlexNodeBase) : AlexNodeBase :=
  mkBase (is_leaf_ b) (duplication_factor_ b) (level_ b) (AlexModel.model_ b) c.

(** The model that maps the key range of the buckets [cur .. cur + repeats) of a node, itself
    mapped to [0, 1) by its model, to [0, 1). *)
Definition child_model (m : LinearModel) (cur repeats fanout : Z) : LinearModel :=
  let left_value := f64_div (f64_of_Z cur) (f64_of_Z fanout) in
  let right_value := f64_div (f64_of_Z (cur + repeats)) (f64_of_Z fanout) in
  let left_boundary := f64_div (f64_sub left_value (b_ m)) (a_ m) in
  let right_boundary := f64_div (f64_sub right_value (b_ m)) (a_ m) in
  let a := f64_div (f64_of_Z 1) (f64_sub right_boundary left_boundary) in
  mkLinearModel a (f64_mul (SFopp a) left_boundary).

Section Build.
Context {P : Type} `{AlexEnv P}.
Implicit Types (t : Alex P) (s : Store P).

(** ** Fields of nodes *)

Definition with_cost (n : AlexDataNode P) (c : f64) : AlexDataNode P :=
  mkNode (slots_ n) (model_ n) c (expansion_threshold_ n) (contraction_threshold_ n) (max_slots_ n) (counters_ n)
    (expected_avg_exp_search_iterations_ n) (expected_avg_shifts_ n).
Definition with_max_slots (n : AlexDataNode P) (m : Z) : AlexDataNode P :=
  mkNode (slots_ n) (model_ n) (cost_ n) (expansion_threshold_ n) (contraction_threshold_ n) m (counters_ n)
    (expected_avg_exp_search_iterations_ n) (expected_avg_shifts_ n).
Definition with_expected (n : AlexDataNode P) (iterations shifts : f64) : AlexDataNode P :=
  mkNode (slots_ n) (model_ n) (cost_ n) (expansion_threshold_ n) (contraction_threshold_ n) (max_slots_ n) (counters_ n) iterations shifts.

Definition update_base s (p : Z) (f : AlexNodeBase -> AlexNodeBase) : option (Store P) :=
  b ← bases s !! p; Some (set_base s p (f b)).
Definition update_leaf s (p : Z) (f : AlexDataNode P -> AlexDataNode P) : option (Store P) :=
  n ← leaves s !! p; Some (set_leaf s p (f n)).

(** [n->children_[lo .. hi) = p] *)
Definition set_children s (n : Z) (lo hi p : Z) : option (Store P) :=
  node ← model_node s n;
  children ← fill lo hi p (children_ node);
  Some (set_model_node s n (mkModelNode (base node) (num_children_ node) children)).

(** ** The superroot *)

Definition update_superroot_pointer t : option (Alex P) :=
  root ← bases (store t) !! root_node_ t;
  s ← set_children (store t) (superroot_ t) 0 1 (root_node_ t);
  s ← update_base s (superroot_ t) (set_level (to_short (level_ root - 1)));
  Some (with_store t s).

Definition create_superroot t : option (Alex P) :=
  root ← bases (store t) !! root_node_ t;
  let '(s, p) := new_model_node (delete_node (store t) (superroot_ t))
    (mkModelNode (AlexNode_of (to_short (level_ root - 1)) false) 1 (new_children 1)) in
  update_superroot_pointer (with_superroot (with_store t s) p).

Definition update_superroot_key_domain t : option (Alex P) :=
  min_key ← get_min_key t;
  max_key ← get_max_key t;
  let n := stat t SNumKeys in
  s ← update_base (store t) (superroot_ t) (set_model (cdf_model min_key max_key));
  Some (with_istats (with_store t s) (mkIStats min_key max_key 0 0 n n)).

(** ** Constructor *)

(** [Params] and [DerivedParams] as declared. *)
Definition default_params : AlexTree.Params := mkParams (f64_of_Z 1) true false (Z.shiftl 1 21) (Z.quot (Z.shiftl 1 24) sizeof_V).

(** [Alex()] after its parameters have been set to [params]: no operation on the empty index reads them. *)
Definition Alex_new (params : AlexTree.Params) : option (Alex P) :=
  n ← AlexResize.bulk_load uninit_keys uninit_payloads (AlexDataNode_default P sizeof_V) [] 0 None false;
  let '(s, p) := new_data_node (mkStore ∅ ∅ ∅ ∅ 1) 0 n in
  create_superroot (bump SNumDataNodes 1 (mkAlex s p nullptr params ∅ (mkIStats u64_max 0 0 0 0 0))).

(** ** Bulk loading *)

(** [params_.max_data_node_slots * kInitDensity_] *)
Definition max_init_keys t : f64 := f64_mul (f64_of_Z (max_data_node_slots (params_ t))) kInitDensity_.

(** The node becomes a data node with the given pairs. *)
Definition convert_to_data_node t (values : list (Z * P)) (num_keys node : Z) (data_node_model : option LinearModel) : option (Alex P * Z) :=
  b ← bases (store t) !! node;
  let t := bump SNumDataNodes 1 t in
  n ← AlexResize.bulk_load uninit_keys uninit_payloads (with_max_slots (AlexDataNode_default P sizeof_V) (max_data_node_slots (params_ t)))
    values num_keys data_node_model (approximate_model_computation (params_ t));
  let '(s, p) := new_data_node (store t) (level_ b) (with_cost n (AlexModel.cost_ b)) in
  Some (with_store t (delete_node s node), p).

(** The children of a node that is far larger than a data node may be. *)
Definition level_for_size t (values : list (Z * P)) (num_keys : Z) (b : AlexNodeBase) (total_keys : Z) : option (Z * list FTNode) :=
  let depth := f64_to_int (log2 (ratio num_keys (max_data_node_slots (params_ t)))) + 1 in
  '(_, used) ← compute_level sizeof_node log2 pow2 alex_less values num_keys b total_keys [] depth (f64_to_int (max_init_keys t))
    (expected_insert_frac (params_ t)) (approximate_model_computation (params_ t)) (approximate_cost_computation (params_ t));
  Some (depth, used).

(** The part of a child after its own bulk load. *)
Definition finish_child t (model_node child cur repeats duplication : Z) (tree_node : FTNode) : option (Alex P) :=
  s ← update_base (store t) child (set_duplication (to_uint8 duplication));
  leaf ← is_leaf s child;
  s ← (if (leaf : bool)
       then update_leaf s child (fun n => with_expected n (expected_avg_search_iterations tree_node) (expected_avg_shifts tree_node))
       else Some s);
  s ← set_children s model_node cur (cur + repeats) child;
  Some (with_store t s).

(** The loop over the children; [load] bulk loads one of them. *)
Fixpoint load_children (load : Alex P -> list (Z * P) -> Z -> Z -> option LinearModel -> option (Alex P * Z)) t
    (values : list (Z * P)) (b : AlexNodeBase) (model_node fanout depth : Z) (used : list FTNode) (cur : Z) : option (Alex P) :=
  match used with
  | [] => Some t
  | tree_node :: used =>
      let duplication := depth - ft_level tree_node in
      repeats ← int_shift (to_uint8 duplication);
      let child := mkBase false (to_uint8 duplication) (to_short (level_ b + 1)) (child_model (AlexModel.model_ b) cur repeats fanout) (ft_cost tree_node) in
      let '(s, child_node) := new_model_node (store t) (mkModelNode child 0 []) in
      '(t, child_node) ← load (with_store t s) (drop (Z.to_nat (left_boundary tree_node)) values)
        (right_boundary tree_node - left_boundary tree_node) child_node (Some (mkLinearModel (ft_a tree_node) (ft_b tree_node)));
      t ← finish_child t model_node child_node cur repeats duplication tree_node;
      load_children load t values b model_node fanout depth used (cur + repeats)
  end.

(** [bulk_load_node]; it returns the pointer that replaces [node]. *)
Fixpoint bulk_load_node (fuel : nat) t (values : list (Z * P)) (num_keys node total_keys : Z) (data_node_model : option LinearModel) : option (Alex P * Z) :=
  match fuel with
  | O => None
  | S fuel =>
      b ← bases (store t) !! node;
      if SFleb (f64_of_Z num_keys) (max_init_keys t) && (SFltb (AlexModel.cost_ b) kNodeLookupsWeight || SFeqb (a_ (AlexModel.model_ b)) f64_zero)
      then convert_to_data_node t values num_keys node data_node_model
      else
        '(depth, best_cost, used) ← find_best_fanout_bottom_up sizeof_node log2 pow2 alex_less values num_keys b total_keys []
          (max_fanout (params_ t)) (f64_to_int (max_init_keys t)) (expected_insert_frac (params_ t))
          (approximate_model_computation (params_ t)) (approximate_cost_computation (params_ t));
        if SFltb best_cost (AlexModel.cost_ b) || SFltb (max_init_keys t) (f64_of_Z num_keys) then
          let t := bump SNumModelNodes 1 t in
          '(depth, used) ← (if depth =? 0 then level_for_size t values num_keys b total_keys else Some (depth, used));
          fanout ← int_shift depth;
          let model := mkLinearModel (f64_mul (a_ (AlexModel.model_ b)) (f64_of_Z fanout)) (f64_mul (b_ (AlexModel.model_ b)) (f64_of_Z fanout)) in
          let '(s, p) := new_model_node (store t)
            (mkModelNode (set_model model (AlexNode_of (level_ b) false)) fanout (new_children fanout)) in
          t ← load_children (fun t values num_keys node model => bulk_load_node fuel t values num_keys node total_keys model)
            (with_store t s) values b p fanout depth used 0;
          Some (with_store t (delete_node (store t) node), p)
        else convert_to_data_node t values num_keys node data_node_model
  end.

(** [bulk_load]; the calls of [bulk_load_node] are at most [fuel] deep. *)
Definition bulk_load_tree (fuel : nat) t (values : list (Z * P)) (num_keys : Z) : option (Alex P) :=
  if (0 <? stat t SNumKeys) || (num_keys <=? 0) then Some t
  else
    let t := with_store t (delete_node (store t) (root_node_ t)) in
    let t := bump SNumKeys (num_keys - stat t SNumKeys) t in
    first ← values.[0];
    last ← values.[num_keys - 1];
    root_data_node_model ← build_model values num_keys (approximate_model_computation (params_ t));
    '(cost, stats) ← compute_expected_cost_of log2 pow2 values num_keys kInitDensity_ (expected_insert_frac (params_ t))
      (Some root_data_node_model) (approximate_cost_computation (params_ t));
    let '(s, root) := new_model_node (store t)
      (mkModelNode (set_cost cost (set_model (cdf_model first.1 last.1) (AlexNode_of 0 false))) 0 []) in
    '(t, root) ← bulk_load_node fuel (with_store t s) values num_keys root num_keys (Some root_data_node_model);
    leaf ← is_leaf (store t) root;
    s ← (if (leaf : bool)
         then let stats := default (mkStats f64_zero f64_zero) stats in
              update_leaf (store t) root (fun n => with_expected n (num_search_iterations stats) (num_shifts stats))
         else Some (store t));
    t ← create_superroot (with_root (with_store t s) root);
    t ← update_superroot_key_domain t;
    link_all_data_nodes t.

End Build.
