(* ===== verification/AlexSplit.v ===== *)
(** * ALEX: splitting data nodes (alex/src/alex.h)

    A data node that should not take another key is replaced by several, either among
    the children of its parent (sideways) or below a new model node (downwards). *)

From S2P Require Import Prelude Words Floats AlexBase AlexBitmap AlexSearch AlexModel AlexNode.
From S2P Require Import AlexPlace AlexResize AlexUpdate AlexCost AlexFanout AlexTree AlexBuild.
From Stdlib Require Import SpecFloat.
From stdpp Require Import gmap list.
Local Open Scope Z_scope.
Local Open Scope cxx_scope.

Section Split.
Context {P : Type} `{AlexEnv P}.
Implicit Types (t : Alex P) (s : Store P).

(** ** New data nodes *)

(** The model and the number of keys of the new node, when they need not be computed. *)
Definition known_model (n : AlexDataNode P) (left right : Z) (tree_node : option FTNode) (reuse_model : bool) : option (option (LinearModel * Z)) :=
  match tree_node with
  | Some nd => Some (Some (mkLinearModel (ft_a nd) (ft_b nd), ft_num_keys nd))
  | None =>
      if reuse_model then
        let s := slots_ n in
        num_actual_keys ← num_keys_in_range (bitmap_ s) (bitmap_size_ s) left right;
        Some (Some (expand (mkLinearModel (a_ (model_ n)) (f64_sub (b_ (model_ n)) (f64_of_Z left))) (ratio num_actual_keys (right - left)), num_actual_keys))
      else Some None
  end.

Definition bulk_load_leaf_node_from_existing t (existing : Z) (left right : Z) (compute_cost : bool) (tree_node : option FTNode)
    (reuse_model keep_left keep_right : bool) : option (Alex P * Z) :=
  old ← leaves (store t) !! existing;
  let t := bump SNumDataNodes 1 t in
  precomputed ← known_model old left right tree_node reuse_model;
  n ← AlexResize.bulk_load_from_existing uninit_keys uninit_payloads (AlexDataNode_default P sizeof_V) (slots_ old)
    (min_key_ (counters_ old)) (max_key_ (counters_ old)) left right keep_left keep_right precomputed;
  let n := with_max_slots n (max_data_node_slots (params_ t)) in
  n ← (if compute_cost then '(c, n) ← compute_expected_cost log2 n (frac_inserts (counters_ old)); Some (with_cost n c) else Some n);
  let '(s, p) := new_data_node (store t) 0 n in
  Some (with_store t s, p).

(** The level and the duplication factor of a new data node. *)
Definition place_leaf s (p level duplication : Z) : option (Store P) :=
  update_base s p (fun b => set_duplication (to_uint8 duplication) (set_level (to_short level) b)).

(** The bucket of a key, as far as it is one of the node's. *)
Definition bucket_of (n : AlexModelNode) (key : Z) : Z := clamp_bucket n (predict (AlexModel.model_ (base n)) key).

Definition holds (lo hi bucket : Z) : bool := (lo <=? bucket) && (bucket <? hi).

(** Move the boundary to the right while the model puts the key after it left of [bucket];
    also counts the keys passed. *)
Definition pass_left_keys (m : LinearModel) (n : AlexDataNode P) (bucket right_boundary : Z) : option (Z * Z) :=
  let s := slots_ n in
  loop (S (Z.to_nat (data_capacity_ s))) (fun '(pos, passed) =>
    if pos <? data_capacity_ s then
      k ← (key_slots_ s).[pos];
      if negb (k =? kEndSentinel_) && (predict m k <? bucket) then
        next ← get_next_filled_position (bitmap_ s) (bitmap_size_ s) (data_capacity_ s) pos false;
        Some (inl (Z.min (next + 1) (data_capacity_ s), passed + 1))
      else Some (inr (pos, passed))
    else Some (inr (pos, passed))) (right_boundary, 0).

Definition create_two_new_data_nodes t (old_node parent : Z) (duplication_factor : Z) (reuse_model : bool) (start_bucketID : Z) : option (Alex P) :=
  num_buckets ← int_shift duplication_factor;
  let end_bucketID := start_bucketID + num_buckets in
  let mid_bucketID := start_bucketID + Z.quot num_buckets 2 in
  old ← leaves (store t) !! old_node;
  node ← model_node (store t) parent;
  let m := AlexModel.model_ (base node) in
  let appending_right_bucketID := bucket_of node (max_key_ (counters_ old)) in
  let appending_left_bucketID := bucket_of node (min_key_ (counters_ old)) in
  '(right_boundary, old) ← lower_bound_double old (f64_div (f64_sub (f64_of_Z mid_bucketID) (b_ m)) (a_ m));
  let t := with_store t (set_leaf (store t) old_node old) in
  '(right_boundary, _) ← pass_left_keys m old mid_bucketID right_boundary;
  '(t, left_leaf) ← bulk_load_leaf_node_from_existing t old_node 0 right_boundary true None reuse_model
    (is_append_mostly_right old && holds start_bucketID mid_bucketID appending_right_bucketID)
    (is_append_mostly_left old && holds start_bucketID mid_bucketID appending_left_bucketID);
  '(t, right_leaf) ← bulk_load_leaf_node_from_existing t old_node right_boundary (data_capacity_ (slots_ old)) true None reuse_model
    (is_append_mostly_right old && holds mid_bucketID end_bucketID appending_right_bucketID)
    (is_append_mostly_left old && holds mid_bucketID end_bucketID appending_left_bucketID);
  s ← place_leaf (store t) left_leaf (level_ (base node) + 1) (duplication_factor - 1);
  s ← place_leaf s right_leaf (level_ (base node) + 1) (duplication_factor - 1);
  s ← set_children s parent start_bucketID mid_bucketID left_leaf;
  s ← set_children s parent mid_bucketID end_bucketID right_leaf;
  s ← link_data_nodes s old_node left_leaf right_leaf;
  Some (with_store t s).

Definition set_num_keys (n : Z) (nd : FTNode) : FTNode :=
  mkFT (ft_level nd) (node_id nd) (ft_cost nd) (left_boundary nd) (right_boundary nd) (use nd) (expected_avg_search_iterations nd)
    (expected_avg_shifts nd) (ft_a nd) (ft_b nd) n.

(** One data node per fanout tree node; the state of the loop is the tree, the first bucket
    [cur], the last new leaf, the boundary of its keys and the number of keys it took from
    the next node. *)
Fixpoint create_leaves t (old_node parent : Z) (m : LinearModel) (level fanout_tree_depth extra_duplication_factor : Z) (keep_left keep_right : Z -> Z -> bool)
    (used : list FTNode) (cur prev_leaf boundary num_reassigned_keys : Z) : option (Alex P * Z) :=
  match used with
  | [] => Some (t, prev_leaf)
  | tree_node :: used =>
      old ← leaves (store t) !! old_node;
      let duplication_factor := to_uint8 (fanout_tree_depth - ft_level tree_node + extra_duplication_factor) in
      child_node_repeats ← int_shift duplication_factor;
      '(last, passed) ← pass_left_keys m old (cur + child_node_repeats) (right_boundary tree_node);
      let tree_node := set_num_keys (ft_num_keys tree_node - num_reassigned_keys + passed) tree_node in
      '(t, child) ← bulk_load_leaf_node_from_existing t old_node boundary last false (Some tree_node) false
        (keep_left cur (cur + child_node_repeats)) (keep_right cur (cur + child_node_repeats));
      s ← place_leaf (store t) child (level + 1) duplication_factor;
      s ← update_leaf s child (fun n => with_expected (with_cost n (ft_cost tree_node)) (expected_avg_search_iterations tree_node) (expected_avg_shifts tree_node));
      s ← set_prev s child prev_leaf;
      s ← (if prev_leaf =? nullptr then Some s else set_next s prev_leaf child);
      s ← set_children s parent cur (cur + child_node_repeats) child;
      create_leaves (with_store t s) old_node parent m level fanout_tree_depth extra_duplication_factor keep_left keep_right
        used (cur + child_node_repeats) child last passed
  end.

Definition create_new_data_nodes t (old_node parent : Z) (fanout_tree_depth : Z) (used : list FTNode) (start_bucketID extra_duplication_factor : Z) : option (Alex P) :=
  old ← leaves (store t) !! old_node;
  node ← model_node (store t) parent;
  let appending_right_bucketID := bucket_of node (max_key_ (counters_ old)) in
  let appending_left_bucketID := bucket_of node (min_key_ (counters_ old)) in
  links ← neighbours (store t) !! old_node;
  '(t, prev_leaf) ← create_leaves t old_node parent (AlexModel.model_ (base node)) (level_ (base node)) fanout_tree_depth extra_duplication_factor
    (fun lo hi => is_append_mostly_right old && holds lo hi appending_right_bucketID)
    (fun lo hi => is_append_mostly_left old && holds lo hi appending_left_bucketID)
    used start_bucketID (prev_leaf_ links) 0 0;
  links ← neighbours (store t) !! old_node;
  s ← set_next (store t) prev_leaf (next_leaf_ links);
  s ← (if next_leaf_ links =? nullptr then Some s else set_prev s (next_leaf_ links) prev_leaf);
  Some (with_store t s).

(** ** Splits *)

(** The model of the node that replaces a leaf with the buckets [start .. end). *)
Definition split_model (m : LinearModel) (start_bucketID end_bucketID fanout : Z) : LinearModel :=
  let left_boundary_value := f64_div (f64_sub (f64_of_Z start_bucketID) (b_ m)) (a_ m) in
  let right_boundary_value := f64_div (f64_sub (f64_of_Z end_bucketID) (b_ m)) (a_ m) in
  let a := f64_mul (f64_div (f64_of_Z 1) (f64_sub right_boundary_value left_boundary_value)) (f64_of_Z fanout) in
  mkLinearModel a (f64_mul (SFopp a) left_boundary_value).

(** It returns the new model node. *)
Definition split_downwards t (parent bucketID fanout_tree_depth : Z) (used : list FTNode) (reuse_model : bool) : option (Alex P * Z) :=
  node ← model_node (store t) parent;
  leaf ← (children_ node).[bucketID];
  b ← bases (store t) !! leaf;
  n ← leaves (store t) !! leaf;
  let t := bump SNumDownwardSplitKeys (num_keys_ (slots_ n)) (bump SNumDownwardSplits 1 t) in
  fanout ← int_shift fanout_tree_depth;
  repeats ← int_shift (duplication_factor_ b);
  let start_bucketID := left_of repeats bucketID in
  let end_bucketID := start_bucketID + repeats in
  let model := split_model (AlexModel.model_ (base node)) start_bucketID end_bucketID fanout in
  let '(s, new_node) := new_model_node (store t) (mkModelNode (mkBase false (duplication_factor_ b) (level_ b) model f64_zero) fanout (new_children fanout)) in
  let t := with_store t s in
  t ← match used with
      | [] => create_two_new_data_nodes t leaf new_node fanout_tree_depth reuse_model 0
      | _ => create_new_data_nodes t leaf new_node fanout_tree_depth used 0 0
      end;
  s ← set_children (delete_node (store t) leaf) parent start_bucketID end_bucketID new_node;
  let t := bump SNumModelNodes 1 (bump SNumDataNodes (-1) (with_store t s)) in
  t ← (if parent =? superroot_ t then update_superroot_pointer (with_root t new_node) else Some t);
  Some (t, new_node).

(** More pointers in the parent, when there are fewer to the leaf than new nodes. *)
Definition make_room t (parent bucketID : Z) (duplication fanout_tree_depth fanout repeats : Z) : option (Alex P * Z * Z) :=
  if repeats <? fanout then
    node ← model_node (store t) parent;
    let t := bump SNumModelNodeExpansionPointers (num_children_ node) (bump SNumModelNodeExpansions 1 t) in
    '(h, node, expansion_factor) ← expand_node (bases (store t)) node (fanout_tree_depth - duplication);
    let s := store t in
    let s := set_model_node (mkStore h (arrays s) (leaves s) (neighbours s) (next_pointer s)) parent node in
    Some (with_store t s, bucketID * expansion_factor, repeats * expansion_factor)
  else Some (t, bucketID, repeats).

Definition split_sideways t (parent bucketID fanout_tree_depth : Z) (used : list FTNode) (reuse_model : bool) : option (Alex P) :=
  node ← model_node (store t) parent;
  leaf ← (children_ node).[bucketID];
  b ← bases (store t) !! leaf;
  n ← leaves (store t) !! leaf;
  let t := bump SNumSidewaysSplitKeys (num_keys_ (slots_ n)) (bump SNumSidewaysSplits 1 t) in
  fanout ← int_shift fanout_tree_depth;
  repeats ← int_shift (duplication_factor_ b);
  '(t, bucketID, repeats) ← make_room t parent bucketID (duplication_factor_ b) fanout_tree_depth fanout repeats;
  let start_bucketID := left_of repeats bucketID in
  b ← bases (store t) !! leaf;
  t ← match used with
      | [] => create_two_new_data_nodes t leaf parent (Z.max fanout_tree_depth (duplication_factor_ b)) reuse_model start_bucketID
      | _ => create_new_data_nodes t leaf parent fanout_tree_depth used start_bucketID (Z.max 0 (duplication_factor_ b - fanout_tree_depth))
      end;
  Some (bump SNumDataNodes (-1) (with_store t (delete_node (store t) leaf))).

End Split.
