(* ===== verification/AlexGrow.v ===== *)
(** * ALEX: growing the root, insertion and removal (alex/src/alex.h)

    With the parameters the code starts with: a data node that costs more than expected is
    either retrained or split in two, and splits do not propagate upwards. *)

From S2P Require Import Prelude Words Floats AlexBase AlexBitmap AlexSearch AlexModel AlexNode.
From S2P Require Import AlexPlace AlexResize AlexUpdate AlexErase AlexCost AlexFanout AlexTree AlexBuild AlexSplit.
From Stdlib Require Import SpecFloat.
From stdpp Require Import gmap list.
Local Open Scope Z_scope.
Local Open Scope cxx_scope.

Definition kMinOutOfDomainKeys : Z := 5.
Definition kMaxOutOfDomainKeys : Z := 1000.
Definition kOutOfDomainToleranceFactor : Z := 2.

(** [static_cast<int>(std::ceil(x))] *)
Definition f64_ceil_to_int (x : f64) : Z :=
  match f64_trunc x with
  | Some z =>
      let z := if SFltb (f64_of_Z z) x then z + 1 else z in
      if (int_min <=? z) && (z <=? int_max) then z else int_min
  | None => int_min
  end.

(** [a / b] on [int]. *)
Definition int_div (a b : Z) : option Z := if b =? 0 then None else Some (Z.quot a b).

Section Grow.
Context {P : Type} `{AlexEnv P}.
Implicit Types (t : Alex P) (s : Store P).

(** ** Expanding the key domain *)

(** [should_expand_right] and [should_expand_left], on the counters of one side. *)
Definition should_expand t (out_of_domain at_last_resize : Z) : option bool :=
  leaf ← is_leaf (store t) (root_node_ t);
  if (leaf : bool) then Some false
  else if kMinOutOfDomainKeys <=? out_of_domain then
    q ← int_div (stat t SNumKeys) at_last_resize;
    Some ((kOutOfDomainToleranceFactor * (q - 1) <=? out_of_domain) || (kMaxOutOfDomainKeys <=? out_of_domain))
  else Some (kMaxOutOfDomainKeys <=? out_of_domain).

(** [int * T]: the product of the key type. *)
Definition half_expanded (expansion_factor domain_size : Z) : Z := wrap64 (Z.quot expansion_factor 2 * domain_size).

(** The expansion factor, rounded up to a power of two of [int], and the new end of the key domain. *)
Definition new_domain t (key : Z) (expand_left : bool) : option (Z * Z) :=
  let i := istats_ t in
  let domain_size := wrap64 (key_domain_max_ i - key_domain_min_ i) in
  let factor_for (difference : Z) :=
    let x := f64_ceil_to_int (f64_div (f64_add (f64_of_Z (wrap64 difference)) (f64_of_Z domain_size)) (f64_of_Z domain_size)) in
    if (1 <=? x) && (x <=? 2 ^ 30) then Some (pow_2_round_up x) else None in
  if expand_left then
    min_key ← get_min_key t;
    expansion_factor ← factor_for (key_domain_min_ i - Z.min key min_key);
    let half := half_expanded expansion_factor domain_size in
    Some (expansion_factor, if Z.quot (key_domain_max_ i) 2 <? half then 0 else wrap64 (wrap64 (key_domain_max_ i - half) - half))
  else
    max_key ← get_max_key t;
    expansion_factor ← factor_for (Z.max key max_key - key_domain_max_ i);
    let half := half_expanded expansion_factor domain_size in
    Some (expansion_factor, if wrap64 (Z.quot u64_max 2 - Z.quot (key_domain_min_ i) 2) <? half then u64_max
                            else wrap64 (wrap64 (key_domain_min_ i + half) + half)).

(** The counters of the side that is expanded. *)
Definition resized t (expand_left : bool) : Alex P :=
  let i := istats_ t in
  let n := stat t SNumKeys in
  with_istats t (if expand_left
    then mkIStats (key_domain_min_ i) (key_domain_max_ i) (num_keys_above_key_domain i) 0 (num_keys_at_last_right_domain_resize i) n
    else mkIStats (key_domain_min_ i) (key_domain_max_ i) 0 (num_keys_below_key_domain i) n (num_keys_at_last_left_domain_resize i)).

(** The root with room for new pointers, or a new root above it: the range of the new buckets. *)
Definition expand_root_node t (expansion_factor : Z) (expand_left : bool) : option (Alex P * Z * Z) :=
  root ← model_node (store t) (root_node_ t);
  let m := AlexModel.model_ (base root) in
  if wrap64 (num_children_ root * wrap64 expansion_factor) <=? wrap64 (max_fanout (params_ t)) then
    let t := bump SNumModelNodeExpansionPointers (num_children_ root) (bump SNumModelNodeExpansions 1 t) in
    let new_num_children := num_children_ root * expansion_factor in
    let added := new_num_children - num_children_ root in
    let copied := take (Z.to_nat (num_children_ root)) (children_ root) in
    if (0 <=? added) && (num_children_ root <=? zlen (children_ root)) then
      let node := if expand_left
        then mkModelNode (set_model (add_intercept m (f64_of_Z added)) (base root)) new_num_children (new_children added ++ copied)
        else mkModelNode (base root) new_num_children (copied ++ new_children added) in
      Some (with_store t (set_model_node (store t) (root_node_ t) node),
            if expand_left then 0 else num_children_ root, if expand_left then added else new_num_children)
    else None
  else if 1 <=? expansion_factor then
    let old_root := root_node_ t in
    let m := mkLinearModel (f64_div (a_ m) (f64_of_Z (num_children_ root))) (f64_div (b_ m) (f64_of_Z (num_children_ root))) in
    let m := if expand_left then add_intercept m (f64_of_Z (expansion_factor - 1)) else m in
    let at_ := if expand_left then expansion_factor - 1 else 0 in
    let '(s, p) := new_model_node (store t)
      (mkModelNode (set_model m (AlexNode_of (to_short (level_ (base root) - 1)) false)) expansion_factor (new_children expansion_factor)) in
    s ← set_children s p at_ (at_ + 1) old_root;
    t ← update_superroot_pointer (with_root (with_store t s) p);
    let new_nodes_start := if expand_left then 0 else 1 in
    Some (t, new_nodes_start, new_nodes_start + expansion_factor - 1)
  else None.

(** [outermost->lower_bound(value)] *)
Definition boundary_at t (p key : Z) : option (Z * Alex P) := on_leaf t p (fun n => AlexNode.lower_bound n key).

(** The new data nodes left of the old ones; the loop goes from right to left. *)
Definition fill_left t (outermost n level duplication domain_size start stop in_bounds_start : Z) : option (Alex P) :=
  let left_boundary_value := key_domain_min_ (istats_ t) in
  '(left_boundary, t) ← boundary_at t outermost left_boundary_value;
  loop (S (Z.to_nat stop)) (fun '(i, t, left_boundary_value, left_boundary, next) =>
    if start <? i then
      if i <=? in_bounds_start then Some (inr t)
      else
        let right_boundary := left_boundary in
        '(left_boundary_value, left_boundary, t) ← (if i - n <=? in_bounds_start then Some (left_boundary_value, 0, t)
          else
            let v := wrap64 (left_boundary_value - domain_size) in
            '(b, t) ← boundary_at t outermost v; Some (v, b, t));
        '(t, new_node) ← bulk_load_leaf_node_from_existing t outermost left_boundary right_boundary true None false false false;
        s ← place_leaf (store t) new_node level duplication;
        s ← (if next =? nullptr then Some s else set_prev s next new_node);
        s ← set_next s new_node next;
        s ← set_children s (root_node_ t) (i - n) i new_node;
        Some (inl (i - n, with_store t s, left_boundary_value, left_boundary, new_node))
    else Some (inr t)) (stop, t, left_boundary_value, left_boundary, outermost).

Definition fill_right t (outermost n level duplication domain_size start stop in_bounds_end : Z) : option (Alex P) :=
  let right_boundary_value := key_domain_max_ (istats_ t) in
  '(right_boundary, t) ← boundary_at t outermost right_boundary_value;
  loop (S (Z.to_nat stop)) (fun '(i, t, right_boundary_value, right_boundary, prev) =>
    if i <? stop then
      if in_bounds_end <=? i then Some (inr t)
      else
        let left_boundary := right_boundary in
        '(right_boundary_value, right_boundary, t) ← (if in_bounds_end <=? i + n
          then old ← leaves (store t) !! outermost; Some (right_boundary_value, data_capacity_ (slots_ old), t)
          else
            let v := wrap64 (right_boundary_value + domain_size) in
            '(b, t) ← boundary_at t outermost v; Some (v, b, t));
        '(t, new_node) ← bulk_load_leaf_node_from_existing t outermost left_boundary right_boundary true None false false false;
        s ← place_leaf (store t) new_node level duplication;
        s ← (if prev =? nullptr then Some s else set_next s prev new_node);
        s ← set_prev s new_node prev;
        s ← set_children s (root_node_ t) i (i + n) new_node;
        Some (inl (i + n, with_store t s, right_boundary_value, right_boundary, new_node))
    else Some (inr t)) (start, t, right_boundary_value, right_boundary, nullptr).

(** The keys that have new nodes leave the outermost old one, which is linked to them. *)
Definition reconnect t (outermost new_end start stop : Z) (expand_left : bool) : option (Alex P) :=
  let i := istats_ t in
  '(_, t) ← on_leaf t outermost (fun n =>
    if expand_left then erase_range uninit_keys uninit_payloads n new_end (key_domain_min_ i) false
    else erase_range uninit_keys uninit_payloads n (key_domain_max_ i) new_end true);
  root ← model_node (store t) (root_node_ t);
  s ← (if expand_left then
         p ← (children_ root).[stop - 1];
         s ← set_prev (store t) outermost p; set_next s p outermost
       else
         p ← (children_ root).[start];
         s ← set_next (store t) outermost p; set_prev s p outermost);
  Some (with_istats (with_store t s) (mkIStats (if expand_left then new_end else key_domain_min_ i) (if expand_left then key_domain_max_ i else new_end)
    (num_keys_above_key_domain i) (num_keys_below_key_domain i) (num_keys_at_last_right_domain_resize i) (num_keys_at_last_left_domain_resize i))).

Definition expand_root t (key : Z) (expand_left : bool) : option (Alex P) :=
  let i := istats_ t in
  let domain_size := wrap64 (key_domain_max_ i - key_domain_min_ i) in
  '(expansion_factor, new_end) ← new_domain t key expand_left;
  let t := resized t expand_left in
  outermost ← (if expand_left then first_data_node t else last_data_node t);
  '(t, start, stop) ← expand_root_node t expansion_factor expand_left;
  root ← model_node (store t) (root_node_ t);
  let predicted := predict (AlexModel.model_ (base root)) new_end in
  let n := num_children_ root - (stop - start) in
  duplication ← log_2_round_down n;
  let level := level_ (base root) + 1 in
  t ← (if expand_left
       then fill_left t outermost n level duplication domain_size start stop (Z.max start predicted)
       else if predicted =? int_max then None
       else fill_right t outermost n level duplication domain_size start stop (Z.min stop (predicted + 1)));
  reconnect t outermost new_end start stop expand_left.

(** ** Insertion *)

(** The data node keeps its place and gets a new model. *)
Definition expand_and_retrain t (leaf : Z) (tree_node : FTNode) : option (Alex P) :=
  '(_, t) ← on_leaf t leaf (fun n =>
    n ← AlexResize.resize uninit_keys uninit_payloads n kMinDensity_ true (is_append_mostly_right n) (is_append_mostly_left n);
    Some (tt, upd_counters (with_expected (with_cost n (ft_cost tree_node)) (expected_avg_search_iterations tree_node) (expected_avg_shifts tree_node)) reset_stats));
  Some (bump SNumExpandAndRetrains 1 t).

(** One round of the loop: the tree, the parent and the leaf to try next. *)
Definition make_way t (key parent leaf fail : Z) : option (Alex P * Z * Z) :=
  n ← leaves (store t) !! leaf;
  let t := bump SNumExpandAndScales (num_resizes_ (counters_ n)) t in
  t ← (if parent =? superroot_ t then update_superroot_key_domain t else Some t);
  node ← model_node (store t) parent;
  let bucketID := bucket_of node key in
  '(depth, used, t) ← (if 2 <=? fail then Some (1, [], t)
    else
      '(depth, used, ls) ← find_best_fanout_existing_node sizeof_node log2 (bases (store t)) (leaves (store t)) node bucketID (stat t SNumKeys) [] 2;
      let s := store t in
      Some (depth, used, with_store t (mkStore (bases s) (arrays s) ls (neighbours s) (next_pointer s))));
  best_fanout ← int_shift depth;
  if depth =? 0 then
    tree_node ← head used;
    t ← expand_and_retrain t leaf tree_node;
    Some (t, parent, leaf)
  else
    let reuse_model := fail =? 3 in
    superroot ← bases (store t) !! superroot_ t;
    b ← bases (store t) !! leaf;
    repeats ← int_shift (duplication_factor_ b);
    '(t, parent) ← (if (max_fanout (params_ t) <? Z.quot (num_children_ node * best_fanout) repeats) || (level_ (base node) =? level_ superroot)
      then split_downwards t parent bucketID depth used reuse_model
      else t ← split_sideways t parent bucketID depth used reuse_model; Some (t, parent));
    node ← model_node (store t) parent;
    leaf ← get_child_node node key;
    Some (t, parent, leaf).

(** [leaf->insert(key, payload)] without duplicates. *)
Definition try_insert t (leaf key : Z) (payload : P) : option (Z * Z * Alex P) :=
  on_leaf t leaf (fun n => AlexUpdate.insert uninit_keys uninit_payloads false n key payload).

(** The insertion once the key domain is settled; [fuel] bounds the rounds. *)
Definition insert_in_leaf (fuel : nat) t (key : Z) (payload : P) : option (Z * Z * bool * Alex P) :=
  let report t leaf fail insert_pos :=
    if fail =? -1 then (leaf, insert_pos, false, t) else (leaf, insert_pos, true, bump SNumKeys 1 (bump SNumInserts 1 t)) in
  '(t, leaf, _) ← get_leaf t key false;
  '(fail, insert_pos, t) ← try_insert t leaf key payload;
  if (fail =? -1) || (fail =? 0) then Some (report t leaf fail insert_pos)
  else
    '(t, _, path) ← get_leaf t key true;
    '(parent, _) ← head path;
    loop fuel (fun '(t, parent, leaf, fail) =>
      '(t, parent, leaf) ← make_way t key parent leaf fail;
      '(fail, insert_pos, t) ← try_insert t leaf key payload;
      if (fail =? -1) || (fail =? 0) then Some (inr (report t leaf fail insert_pos))
      else Some (inl (t, parent, leaf, fail))) (t, parent, leaf, fail).

(** The key domain first. *)
Definition count_outside t (above below : Z) : Alex P :=
  let i := istats_ t in
  with_istats t (mkIStats (key_domain_min_ i) (key_domain_max_ i) (num_keys_above_key_domain i + above) (num_keys_below_key_domain i + below)
    (num_keys_at_last_right_domain_resize i) (num_keys_at_last_left_domain_resize i)).

Definition settle_domain t (key : Z) : option (Alex P) :=
  let i := istats_ t in
  if key_domain_max_ i <? key then
    let t := count_outside t 1 0 in
    grow ← should_expand t (num_keys_above_key_domain (istats_ t)) (num_keys_at_last_right_domain_resize i);
    if (grow : bool) then expand_root t key false else Some t
  else if key <? key_domain_min_ i then
    let t := count_outside t 0 1 in
    grow ← should_expand t (num_keys_below_key_domain (istats_ t)) (num_keys_at_last_left_domain_resize i);
    if (grow : bool) then expand_root t key true else Some t
  else Some t.

(** [insert]: the iterator and whether the key is new. *)
Definition insert (fuel : nat) t (key : Z) (payload : P) : option (TreeIterator * bool * Alex P) :=
  t ← settle_domain t key;
  '(leaf, insert_pos, fresh, t) ← insert_in_leaf fuel t key payload;
  it ← iterator_at (store t) leaf insert_pos;
  Some (it, fresh, t).

(** ** Removal *)

(** The leaf takes the place of its neighbour's sibling buckets: the pointers of the empty
    leaf go to the adjacent one, with the links around it. *)
Definition absorb t (parent leaf adjacent start_bucketID end_bucketID : Z) (to_right : bool) : option (Alex P) :=
  s ← set_children (store t) parent start_bucketID end_bucketID adjacent;
  l ← neighbours s !! leaf;
  s ← (if to_right then
         s ← set_prev s adjacent (prev_leaf_ l);
         if prev_leaf_ l =? nullptr then Some s else set_next s (prev_leaf_ l) adjacent
       else
         s ← set_next s adjacent (next_leaf_ l);
         if next_leaf_ l =? nullptr then Some s else set_prev s (next_leaf_ l) adjacent);
  s ← update_base s adjacent (fun b => set_duplication (to_uint8 (duplication_factor_ b + 1)) b);
  Some (bump SNumDataNodes (-1) (with_store t (delete_node s leaf))).

(** The leaf next to the buckets of a leaf, if it is its sibling. *)
Definition sibling_leaf s (node : AlexModelNode) (leaf bucketID repeats : Z) : option (option (Z * bool)) :=
  let start_bucketID := left_of repeats bucketID in
  let to_right := Z.rem bucketID (repeats * 2) =? Z.rem bucketID repeats in
  p ← (children_ node).[if to_right then start_bucketID + repeats else start_bucketID - 1];
  c ← bases s !! p;
  b ← bases s !! leaf;
  Some (if is_leaf_ c && (duplication_factor_ b =? duplication_factor_ c) then Some (p, to_right) else None).

(** The inner loop: empty siblings become one. *)
Definition merge_siblings t (parent bucketID leaf repeats : Z) : option (Alex P * Z * Z) :=
  loop 32 (fun '(t, leaf, repeats) =>
    n ← leaves (store t) !! leaf;
    node ← model_node (store t) parent;
    if (num_keys_ (slots_ n) =? 0) && (repeats <? num_children_ node) then
      other ← sibling_leaf (store t) node leaf bucketID repeats;
      match other with
      | None => Some (inr (t, leaf, repeats))
      | Some (adjacent, to_right) =>
          let start_bucketID := left_of repeats bucketID in
          t ← absorb t parent leaf adjacent start_bucketID (start_bucketID + repeats) to_right;
          b ← bases (store t) !! adjacent;
          repeats ← int_shift (duplication_factor_ b);
          Some (inl (t, adjacent, repeats))
      end
    else Some (inr (t, leaf, repeats))) (t, leaf, repeats).

(** One level of the outer loop: siblings merge, and when one leaf is left below the parent, it takes its place. *)
Definition merge_up '(t, path, leaf, repeats) : option ((Alex P * list (Z * Z) * Z * Z) + Alex P) :=
  match path with
  | [] => Some (inr t)
  | (parent, bucketID) :: path =>
      '(t, leaf, repeats) ← merge_siblings t parent bucketID leaf repeats;
      node ← model_node (store t) parent;
      if repeats =? num_children_ node then
        let duplication := duplication_factor_ (base node) in
        s ← update_base (store t) leaf (set_duplication duplication);
        repeats ← int_shift duplication;
        let t := bump SNumModelNodes (-1) (with_store t (delete_node s parent)) in
        if parent =? root_node_ t then t ← update_superroot_pointer (with_root t leaf); Some (inr t)
        else
          '(grandparent, bucketID) ← head path;
          let start_bucketID := left_of repeats bucketID in
          s ← set_children (store t) grandparent start_bucketID (start_bucketID + repeats) leaf;
          Some (inl (with_store t s, path, leaf, repeats))
      else Some (inr t)
  end.

(** [merge]: the empty leaf goes, and so do the nodes above it that only lead to its sibling. *)
Definition merge t (leaf key : Z) : option (Alex P) :=
  '(t, leaf_dup, path) ← get_leaf t key true;
  path ← (if leaf_dup =? leaf then Some (Some path)
          else
            l ← neighbours (store t) !! leaf_dup;
            if prev_leaf_ l =? leaf then path ← correct_traversal_path (store t) leaf path true; Some (Some path)
            else if next_leaf_ l =? leaf then path ← correct_traversal_path (store t) leaf path false; Some (Some path)
            else Some None);
  match path with
  | None | Some [_] => Some t
  | Some path =>
      b ← bases (store t) !! leaf;
      repeats ← int_shift (duplication_factor_ b);
      loop (S (length path)) merge_up (t, path, leaf, repeats)
  end.

(** The end of both removals. *)
Definition after_erase t (leaf key num_erased : Z) : option (Z * Alex P) :=
  let t := bump SNumKeys (- num_erased) t in
  n ← leaves (store t) !! leaf;
  t ← (if num_keys_ (slots_ n) =? 0 then merge t leaf key else Some t);
  let i := istats_ t in
  Some (num_erased, if key_domain_max_ i <? key then count_outside t (- num_erased) 0
                    else if key <? key_domain_min_ i then count_outside t 0 (- num_erased)
                    else t).

Definition erase_tree t (key : Z) : option (Z * Alex P) :=
  '(t, leaf, _) ← get_leaf t key false;
  '(num_erased, t) ← on_leaf t leaf (fun n => AlexErase.erase uninit_keys uninit_payloads n key);
  after_erase t leaf key num_erased.

Definition erase_one_tree t (key : Z) : option (Z * Alex P) :=
  '(t, leaf, _) ← get_leaf t key false;
  '(num_erased, t) ← on_leaf t leaf (fun n => AlexErase.erase_one uninit_keys uninit_payloads n key);
  after_erase t leaf key num_erased.

(** [erase(Iterator)] *)
Definition erase_iterator t (it : TreeIterator) : option (Alex P) :=
  if at_end it then Some t
  else
    '(key, _) ← deref (store t) it;
    '(_, t) ← on_leaf t (cur_leaf_ it) (fun n => n ← AlexErase.erase_one_at uninit_keys uninit_payloads n (tree_idx_ it); Some (tt, n));
    '(_, t) ← after_erase t (cur_leaf_ it) key 1;
    Some t.

(** [NodeIterator] from the root on. *)
Definition nodes_in_order t : option (list Z) :=
  stack ← node_iterator_push (store t) (root_node_ t) [];
  loop (depth_fuel (store t)) (fun '(visited, stack) =>
    match stack with
    | [] => Some (inr (reverse visited))
    | cur :: stack => stack ← node_iterator_push (store t) cur stack; Some (inl (cur :: visited, stack))
    end) ([root_node_ t], stack).

Definition clear t : option (Alex P) :=
  nodes ← nodes_in_order t;
  n ← AlexResize.bulk_load uninit_keys uninit_payloads (AlexDataNode_default P sizeof_V) [] 0 None false;
  let '(s, p) := new_data_node (foldl delete_node (store t) nodes) 0 n in
  t ← create_superroot (with_root (with_store t s) p);
  Some (bump SNumKeys (- stat t SNumKeys) t).

End Grow.
