(* ===== verification/AlexRoute.v ===== *)
(** * ALEX: where the models of the tree lead (alex/src/alex.h)

    The invariant of a tree: [covers] describes the nodes below a pointer and lists the
    leaves from left to right, [tree_ok] adds the chain of the leaves and that every stored
    key is in the leaf the models lead to.  As rounding preserves the order, a greater key
    is never led to a leaf further left; hence the leaves hold consecutive ranges of keys and
    the corrections of [get_leaf] at bucket boundaries do nothing.

    [lo] and [hi] bound the keys: the predictions of every model are in the range of [int]
    for the keys between them, and the least one leads to the first leaf. *)

From S2P Require Import Prelude Words Floats FloatScale FloatMono AlexBase AlexBitmap AlexSearch AlexModel AlexNode AlexLookup AlexPlace AlexResize AlexTree.
From Stdlib Require Import SpecFloat Sorted.
From stdpp Require Import gmap list.
Local Open Scope Z_scope.
Local Open Scope cxx_scope.

(** ** The first and the last key of a data node *)

Section Keys.
Context {P : Type}.
Implicit Types (s : Slots P).

Lemma filled_stored s i : slots_ok s -> 0 <= i < data_capacity_ s -> bitv (bitmap_ s) i = true -> exists v, stored s (key_at s i) v.
Proof.
  intros H Hi Hb. destruct (payload_at s i H Hi) as [v Hv]. exists v, i. split; [done|]. split; [done|]. split; [by apply rd_key|done].
Qed.

(** [0], the least key, when there is none. *)
Lemma last_key_spec s : slots_ok s -> exists k, last_key s = Some k /\ (k = 0 \/ exists v, stored s k v).
Proof.
  intros H. pose proof (bo_cap _ _ _ (so_bitmap s H)). unfold last_key.
  apply (loop_spec (fun i => -1 <= i < data_capacity_ s) (fun k => k = 0 \/ exists v, stored s k v) (fun i => i + 1)); [|lia..].
  intros i Hi. destruct (Z.leb_spec 0 i); [|by left].
  rewrite check_exists_spec by (apply bitv_range; [done|lia]). cbn [mbind option_bind]. destruct (bitv (bitmap_ s) i) eqn:E; [|lia].
  rewrite rd_key by (done || lia). cbn [mbind option_bind]. right. apply filled_stored; [done|lia|done].
Qed.

(** The sentinel, when there is none. *)
Lemma first_key_spec s : slots_ok s -> exists k, first_key s = Some k /\ (k = u64_max \/ exists v, stored s k v).
Proof.
  intros H. pose proof (bo_cap _ _ _ (so_bitmap s H)). unfold first_key.
  apply (loop_spec (fun i => 0 <= i <= data_capacity_ s) (fun k => k = u64_max \/ exists v, stored s k v) (fun i => data_capacity_ s - i)); [|lia..].
  intros i Hi. destruct (Z.ltb_spec i (data_capacity_ s)); [|by left].
  rewrite check_exists_spec by (apply bitv_range; [done|lia]). cbn [mbind option_bind]. destruct (bitv (bitmap_ s) i) eqn:E; [|lia].
  rewrite rd_key by (done || lia). cbn [mbind option_bind]. right. apply filled_stored; [done|lia|done].
Qed.
End Keys.

(** ** Blocks of pointers *)

(** The block bucket [j] belongs to. *)
Fixpoint block_index (blocks : list (Z * Z)) (j : Z) : nat :=
  match blocks with
  | [] => 0
  | (_, d) :: blocks => if j <? 2 ^ d then 0 else S (block_index blocks (j - 2 ^ d))
  end.

Lemma block_index_spec blocks : (forall c d, (c, d) ∈ blocks -> 0 <= d) -> forall j, 0 <= j < zlen (pointers blocks) ->
  exists c d, blocks !! block_index blocks j = Some (c, d) /\ rd (pointers blocks) j = Some c.
Proof.
  induction blocks as [|[c d] blocks IH]; intros Hd j Hj; [unfold zlen in Hj; simpl in Hj; lia|]. pose proof (Hd c d ltac:(constructor)) as H0.
  pose proof (pow2_pos d H0) as Hp. rewrite zlen_pointers_cons in Hj by done. rewrite pointers_cons. cbn [block_index].
  assert (Hz : zlen (replicate (Z.to_nat (2 ^ d)) c) = 2 ^ d) by (unfold zlen; rewrite length_replicate; lia).
  destruct (Z.ltb_spec j (2 ^ d)).
  - exists c, d. split; [done|]. rewrite rd_app_lt by lia. apply rd_replicate. lia.
  - rewrite rd_app_ge, Hz by lia. apply IH; [|lia]. intros c' d' Hin. apply (Hd c' d'). by constructor.
Qed.

Lemma block_index_mono blocks : forall j j', j <= j' -> (block_index blocks j <= block_index blocks j')%nat.
Proof.
  induction blocks as [|[c d] blocks IH]; intros j j' Hle; [done|]. cbn [block_index].
  destruct (Z.ltb_spec j (2 ^ d)), (Z.ltb_spec j' (2 ^ d)); try lia. specialize (IH (j - 2 ^ d) (j' - 2 ^ d) ltac:(lia)). lia.
Qed.

(** ** Concatenations *)

Lemma concat_lookup {A} (lss : list (list A)) : forall q l i x, lss !! q = Some l -> l !! i = Some x ->
  concat lss !! (length (concat (take q lss)) + i)%nat = Some x.
Proof.
  induction lss as [|l' lss IH]; intros [|q] l i x Hq Hi; try done; cbn in Hq |- *.
  - injection Hq as ->. by apply lookup_app_l_Some.
  - rewrite length_app, <-Nat.add_assoc. rewrite lookup_app_r by lia. replace (_ - length l')%nat with (length (concat (take q lss)) + i)%nat by lia. by eapply IH.
Qed.

Lemma concat_before {A} (lss : list (list A)) : forall q q' l i x, (q < q')%nat -> lss !! q = Some l -> l !! i = Some x ->
  (length (concat (take q lss)) + i < length (concat (take q' lss)))%nat.
Proof.
  induction lss as [|l' lss IH]; intros [|q] [|q'] l i x Hq Hl Hi; try done; try lia; cbn in Hl |- *; rewrite ?length_app.
  - injection Hl as ->. apply lookup_lt_Some in Hi. lia.
  - assert (Hlt : (q < q')%nat) by lia. specialize (IH q q' l i x Hlt Hl Hi). lia.
Qed.

Lemma elem_of_concat {A} (x : A) lss : x ∈ concat lss <-> exists l, x ∈ l /\ l ∈ lss.
Proof.
  rewrite list_elem_of_In, in_concat. split; intros (l & H1 & H2); exists l; [rewrite !list_elem_of_In|rewrite <-!list_elem_of_In]; tauto.
Qed.

Lemma concat_sorted {A} (R : A -> A -> Prop) (lss : list (list A)) : Forall (StronglySorted R) lss ->
  (forall i j l l' x y, (i < j)%nat -> lss !! i = Some l -> lss !! j = Some l' -> x ∈ l -> y ∈ l' -> R x y) -> StronglySorted R (concat lss).
Proof.
  induction lss as [|l lss IH]; intros Hs Hlt; [constructor|]. apply Forall_cons_1 in Hs as [Hl Hs]. cbn.
  assert (Hrest : StronglySorted R (concat lss)) by (apply IH; [done|]; intros i j l1 l2 x y Hij H1 H2; apply (Hlt (S i) (S j) l1 l2); [lia|done|done]).
  assert (Hx : forall x y, x ∈ l -> y ∈ concat lss -> R x y).
  { intros x y Hx (l' & Hy & (j & Hj)%list_elem_of_lookup)%elem_of_concat. by apply (Hlt 0%nat (S j) l l' x y); [lia| |..]. }
  clear Hlt IH Hs. induction Hl as [|x l Hl IH Hall]; [done|]. cbn. constructor.
  - apply IH. intros x' y Hx' Hy. apply Hx; [by constructor|done].
  - apply List.Forall_app. split; [done|]. apply List.Forall_forall. intros y Hy%list_elem_of_In. apply Hx; [constructor|done].
Qed.

Section Route.
Context {P : Type} (lo hi : Z).
Implicit Types (t : Alex P) (s : Store P).

(** ** Models *)

(** The model increases and its predictions for the keys are in the range of [int]. *)
Record good_model (m : LinearModel) : Prop := {
  gm_increasing : increasing_model m;
  gm_lo : exists z, f64_trunc (predict_double m lo) = Some z /\ int_min <= z;
  gm_hi : exists z, f64_trunc (predict_double m hi) = Some z /\ z <= int_max
}.

Context (Hlo : 0 <= lo) (Hhi : hi < u64_max).

Lemma good_predict m key : good_model m -> lo <= key <= hi -> f64_trunc (predict_double m key) = Some (predict m key).
Proof using Hlo Hhi.
  intros [Hm (zl & Ezl & Hzl) (zh & Ezh & Hzh)] Hk. unfold u64_max in Hhi. pose proof (predict_trunc m key Hm ltac:(unfold word64; lia)) as E. set (z := Z.quot _ _) in E. clearbody z.
  unfold predict, f64_to_int. rewrite E. assert (zl <= z) by (eapply (predict_trunc_mono m lo key); [done|lia|lia|done|done]).
  assert (z <= zh) by (eapply (predict_trunc_mono m key hi); [done|lia|lia|done|done]).
  destruct (Z.leb_spec int_min z), (Z.leb_spec z int_max); done || lia.
Qed.

Lemma good_mono m key key' : good_model m -> lo <= key <= key' -> key' <= hi -> predict m key <= predict m key'.
Proof using Hlo Hhi.
  intros Hm Hk Hk'. unfold u64_max in Hhi. eapply predict_trunc_mono; [apply (gm_increasing m Hm)|..|apply good_predict|apply good_predict]; done || lia.
Qed.

(** ** The tree below a node *)

(** A power of two that is an [int]. *)
Definition small_power (n : Z) : Prop := exists k, 0 <= k < 31 /\ n = 2 ^ k.

(** A tree of at most [h] levels of model nodes below [p], with the leaves [ls]. *)
Fixpoint covers s (h : nat) (p : Z) (ls : list Z) : Prop :=
  match is_leaf s p with
  | Some true => ls = [p]
  | Some false =>
      match h with
      | O => False
      | S h => exists n blocks lss, model_node s p = Some n /\ node_blocks (bases s) n blocks /\ good_model (AlexModel.model_ (base n)) /\
          blocks <> [] /\ small_power (num_children_ n) /\ Forall2 (fun b l => covers s h b.1 l) blocks lss /\ ls = concat lss
      end
  | None => False
  end.

(** The leaf the models lead to. *)
Fixpoint route s (h : nat) (p key : Z) : option Z :=
  leaf ← is_leaf s p;
  if (leaf : bool) then Some p
  else
    match h with
    | O => None
    | S h => node ← model_node s p; child ← get_child_node node key; route s h child key
    end.

Lemma route_more s h h' : (h <= h')%nat -> forall p key l, route s h p key = Some l -> route s h' p key = Some l.
Proof.
  intros Hle. assert (E : exists d, h' = (h + d)%nat) by (exists (h' - h)%nat; lia). destruct E as [d ->]. clear Hle.
  induction h as [|h IH]; intros p key l E.
  - cbn [route] in E. destruct (is_leaf s p) as [[]|] eqn:El; try done. destruct (0 + d)%nat; cbn [route]; by rewrite El.
  - cbn [route] in E. change (S h + d)%nat with (S (h + d)). cbn [route]. destruct (is_leaf s p) as [[]|]; try done. cbn [mbind option_bind] in E |- *.
    destruct (model_node s p) as [n|]; [|done]. cbn [mbind option_bind] in E |- *. destruct (get_child_node n key); [|done]. cbn [mbind option_bind] in E |- *. by apply IH.
Qed.

Lemma factor_of_blocks h n blocks : node_blocks h n blocks -> forall c d, (c, d) ∈ blocks -> 0 <= d.
Proof. intros Hb c d Hin. by destruct (nb_factors _ _ _ Hb c d Hin) as [[? _] _]. Qed.

Lemma blocks_count h n blocks : node_blocks h n blocks -> blocks <> [] -> 0 < num_children_ n.
Proof.
  intros Hb Hne. rewrite (nb_count _ _ _ Hb), (nb_children _ _ _ Hb). destruct blocks as [|[c d] blocks]; [done|].
  pose proof (factor_of_blocks _ _ _ Hb c d ltac:(constructor)). rewrite zlen_pointers_cons by done. pose proof (pow2_pos d ltac:(done)). pose proof (zlen_nonneg (pointers blocks)). lia.
Qed.

(** The bucket of a key and the child it belongs to. *)
Lemma child_spec h n blocks key : node_blocks h n blocks -> blocks <> [] -> exists c d,
  blocks !! block_index blocks (clamp_bucket n (predict (AlexModel.model_ (base n)) key)) = Some (c, d) /\ get_child_node n key = Some c.
Proof.
  intros Hb Hne. pose proof (blocks_count h n blocks Hb Hne) as Hpos. unfold get_child_node, clamp_bucket. rewrite (nb_children _ _ _ Hb).
  apply block_index_spec; [by eapply factor_of_blocks|]. rewrite <-(nb_children _ _ _ Hb), <-(nb_count _ _ _ Hb). lia.
Qed.

(** Two keys in order lead to leaves in order. *)
Lemma route_mono s h : forall p ls key key', covers s h p ls -> lo <= key <= key' -> key' <= hi ->
  exists i i' l l', (i <= i')%nat /\ ls !! i = Some l /\ ls !! i' = Some l' /\ route s h p key = Some l /\ route s h p key' = Some l'.
Proof using Hlo Hhi.
  induction h as [|h IH]; intros p ls key key' Hc Hk Hk'; cbn [covers] in Hc; (destruct (is_leaf s p) as [[]|] eqn:El; try done);
    try (subst ls; exists 0%nat, 0%nat, p, p; cbn [route]; by rewrite El).
  destruct Hc as (n & blocks & lss & En & Hb & Hm & Hne & _ & Hall & ->).
  set (m := AlexModel.model_ (base n)) in *. pose proof (good_mono m key key' Hm Hk Hk') as Hp.
  destruct (child_spec _ n blocks key Hb Hne) as (c & d & Hc & Egc). destruct (child_spec _ n blocks key' Hb Hne) as (c' & d' & Hc' & Egc'). fold m in Hc, Hc'.
  assert (Hq : (block_index blocks (clamp_bucket n (predict m key)) <= block_index blocks (clamp_bucket n (predict m key')))%nat)
    by (apply block_index_mono; unfold clamp_bucket; lia).
  set (q := block_index blocks (clamp_bucket n (predict m key))) in *. set (q' := block_index blocks (clamp_bucket n (predict m key'))) in *. clearbody q q'.
  destruct (Forall2_lookup_l _ _ _ _ _ Hall Hc) as (l0 & Hl0 & Hcov). destruct (Forall2_lookup_l _ _ _ _ _ Hall Hc') as (l0' & Hl0' & Hcov'). cbn [fst] in *.
  cbn [route]. rewrite El, En. cbn [mbind option_bind]. rewrite Egc, Egc'. cbn [mbind option_bind].
  destruct (decide (q = q')) as [<-|Hneq].
  - assert (c' = c /\ l0' = l0) as [-> ->] by (split; congruence). destruct (IH c l0 key key' Hcov Hk Hk') as (i & i' & l & l' & Hi & H1 & H2 & R1 & R2).
    exists (length (concat (take q lss)) + i)%nat, (length (concat (take q lss)) + i')%nat, l, l'. split; [lia|]. split; [by eapply concat_lookup|]. split; [by eapply concat_lookup|]. done.
  - destruct (IH c l0 key key Hcov) as (i & _ & l & _ & _ & H1 & _ & R1 & _); [lia|lia|]. destruct (IH c' l0' key' key' Hcov') as (i' & _ & l' & _ & _ & H2 & _ & R2 & _); [lia|lia|].
    exists (length (concat (take q lss)) + i)%nat, (length (concat (take q' lss)) + i')%nat, l, l'.
    pose proof (concat_before lss q q' l0 i l ltac:(lia) Hl0 H1). split; [lia|]. split; [by eapply concat_lookup|]. split; [by eapply concat_lookup|]. done.
Qed.

Lemma covers_leaves s h : forall p ls l, covers s h p ls -> l ∈ ls -> is_leaf s l = Some true.
Proof.
  induction h as [|h IH]; intros p ls l Hc Hl; cbn [covers] in Hc; (destruct (is_leaf s p) as [[]|] eqn:El; try done);
    try (subst ls; by apply list_elem_of_singleton in Hl as ->).
  destruct Hc as (n & blocks & lss & _ & _ & _ & _ & _ & Hall & ->). apply elem_of_concat in Hl as (l0 & Hl & (i & Hi)%list_elem_of_lookup).
  destruct (Forall2_lookup_r _ _ _ _ _ Hall Hi) as (b & _ & Hcov). by apply (IH b.1 l0).
Qed.

(** ** The invariant of a tree *)

Definition levels s : nat := Z.to_nat (next_pointer s).

Definition leads_to t (key l : Z) : Prop := route (store t) (levels (store t)) (root_node_ t) key = Some l.

(** The superroot has the root as its only child; the root has room for its factor in an [int]. *)
Definition top_ok t : Prop := (exists b, bases (store t) !! superroot_ t = Some b /\ is_leaf_ b = false) /\ arrays (store t) !! superroot_ t = Some (1, [root_node_ t]) /\
  (exists r, bases (store t) !! root_node_ t = Some r /\ 0 <= duplication_factor_ r < 31).

(** The links of the leaf at position [i]. *)
Definition links_at (ls : list Z) (i : nat) : Neighbours :=
  mkNeighbours (default nullptr (ls !! S i)) (match i with O => nullptr | S i => default nullptr (ls !! i) end).

#[export] Instance leads_to_dec t key l : Decision (leads_to t key l).
Proof. unfold leads_to. apply _. Defined.

Record tree_ok t (ls : list Z) : Prop := {
  to_covers : exists h, (h <= levels (store t))%nat /\ covers (store t) h (root_node_ t) ls;
  to_nodup : NoDup ls;
  to_null : nullptr ∉ ls;
  to_leaf : forall l, l ∈ ls -> exists n, leaves (store t) !! l = Some n /\ node_ok n;
  to_links : forall i l, ls !! i = Some l -> neighbours (store t) !! l = Some (links_at ls i);
  to_clean : forall l n k v, l ∈ ls -> leaves (store t) !! l = Some n -> stored (slots_ n) k v -> lo <= k <= hi /\ leads_to t k l;
  to_first : forall l, leads_to t lo l -> ls !! 0%nat = Some l;
  to_top : top_ok t
}.

(** The pairs of the leaves from left to right. *)
Definition leaf_pairs s (l : Z) : list (Z * P) := match leaves s !! l with Some n => contents (slots_ n) | None => [] end.
Definition tree_pairs t (ls : list Z) : list (Z * P) := concat (leaf_pairs (store t) <$> ls).
Definition tree_map t (ls : list Z) : gmap Z P := list_to_map (tree_pairs t ls).

Lemma leads_mono t ls key key' : tree_ok t ls -> lo <= key <= key' -> key' <= hi ->
  exists i i' l l', (i <= i')%nat /\ ls !! i = Some l /\ ls !! i' = Some l' /\ leads_to t key l /\ leads_to t key' l'.
Proof using Hlo Hhi.
  intros Hok Hk Hk'. destruct (to_covers t ls Hok) as (h & Hh & Hc). destruct (route_mono (store t) h _ ls key key' Hc Hk Hk') as (i & i' & l & l' & Hi & H1 & H2 & R1 & R2).
  exists i, i', l, l'. split; [done|]. split; [done|]. split; [done|]. split; by eapply route_more.
Qed.

Lemma leads_somewhere t ls key : tree_ok t ls -> lo <= key <= hi -> exists i l, ls !! i = Some l /\ leads_to t key l.
Proof using Hlo Hhi. intros Hok Hk. destruct (leads_mono t ls key key Hok) as (i & _ & l & _ & _ & H1 & _ & R1 & _); [lia|lia|]. by exists i, l. Qed.

(** Keys led to leaves in order are in order. *)
Lemma leads_order t ls key key' i i' l l' : tree_ok t ls -> lo <= key <= hi -> lo <= key' <= hi -> ls !! i = Some l -> ls !! i' = Some l' ->
  leads_to t key l -> leads_to t key' l' -> (i < i')%nat -> key < key'.
Proof using Hlo Hhi.
  intros Hok Hk Hk' Hi Hi' R R' Hlt. apply Z.nle_gt. intros Hle. destruct (leads_mono t ls key' key Hok) as (j' & j & m' & m & Hj & H1 & H2 & R1 & R2); [lia|lia|].
  unfold leads_to in *. assert (m = l /\ m' = l') as [-> ->] by (split; congruence). pose proof (NoDup_lookup ls i j l (to_nodup _ _ Hok) Hi H2). pose proof (NoDup_lookup ls i' j' l' (to_nodup _ _ Hok) Hi' H1). lia.
Qed.

(** ** The map of a tree *)

Lemma elem_of_tree_pairs t ls k v : (k, v) ∈ tree_pairs t ls <-> exists l n, l ∈ ls /\ leaves (store t) !! l = Some n /\ stored (slots_ n) k v.
Proof.
  unfold tree_pairs. rewrite elem_of_concat. split.
  - intros (ps & Hin & (l & -> & Hl)%list_elem_of_fmap). unfold leaf_pairs in Hin. destruct (leaves (store t) !! l) as [n|] eqn:E; [|by apply elem_of_nil in Hin].
    exists l, n. split; [done|]. split; [done|]. by apply elem_of_contents.
  - intros (l & n & Hl & E & Hst). exists (leaf_pairs (store t) l). split; [unfold leaf_pairs; rewrite E; by apply elem_of_contents|]. apply list_elem_of_fmap. by exists l.
Qed.

Lemma tree_pairs_increasing t ls : tree_ok t ls -> StronglySorted (fun p q : Z * P => p.1 < q.1) (tree_pairs t ls).
Proof using Hlo Hhi.
  intros Hok. apply concat_sorted.
  - apply Forall_fmap, Forall_forall. intros l Hl. cbn. unfold leaf_pairs. destruct (to_leaf t ls Hok l Hl) as (n & -> & Hn). apply contents_increasing, (nk_slots n Hn).
  - intros i j ps ps' [k v] [k' v'] Hij Hi Hj Hx Hy. rewrite list_lookup_fmap in Hi, Hj. cbn [fst].
    destruct (ls !! i) as [l|] eqn:El; [|done]. destruct (ls !! j) as [l'|] eqn:El'; [|done]. injection Hi as <-. injection Hj as <-. unfold leaf_pairs in *.
    destruct (leaves (store t) !! l) as [n|] eqn:En; [|by apply elem_of_nil in Hx]. destruct (leaves (store t) !! l') as [n'|] eqn:En'; [|by apply elem_of_nil in Hy].
    apply elem_of_contents in Hx, Hy. destruct (to_clean t ls Hok l n k v (list_elem_of_lookup_2 _ _ _ El) En Hx) as [Hk R].
    destruct (to_clean t ls Hok l' n' k' v' (list_elem_of_lookup_2 _ _ _ El') En' Hy) as [Hk' R']. by apply (leads_order t ls k k' i j l l').
Qed.

Lemma tree_map_Some t ls k v : tree_ok t ls -> tree_map t ls !! k = Some v <-> exists l n, l ∈ ls /\ leaves (store t) !! l = Some n /\ stored (slots_ n) k v.
Proof using Hlo Hhi.
  intros Hok. rewrite <-elem_of_tree_pairs. unfold tree_map. symmetry. apply elem_of_list_to_map. by apply increasing_NoDup, tree_pairs_increasing.
Qed.

Lemma tree_map_range t ls k v : tree_ok t ls -> tree_map t ls !! k = Some v -> lo <= k <= hi.
Proof using Hlo Hhi. intros Hok (l & n & Hl & En & Hst)%tree_map_Some; [|done]. by apply (to_clean t ls Hok l n k v). Qed.

(** A key is looked up in the leaf it leads to. *)
Lemma tree_map_lookup t ls k l n : tree_ok t ls -> leads_to t k l -> l ∈ ls -> leaves (store t) !! l = Some n -> tree_map t ls !! k = node_map (slots_ n) !! k.
Proof using Hlo Hhi.
  intros Hok R Hl En. destruct (to_leaf t ls Hok l Hl) as (n' & En' & Hn). assert (n' = n) as -> by congruence. apply option_eq. intros v.
  rewrite tree_map_Some, node_map_lookup by (done || apply (nk_slots n Hn)). split; [|intros Hst; by exists l, n].
  intros (l' & n' & Hl' & E & Hst). destruct (to_clean t ls Hok l' n' k v Hl' E Hst) as [_ R']. unfold leads_to in *. assert (l' = l) as -> by congruence. by assert (n' = n) as -> by congruence.
Qed.

End Route.
