(* ===== verification/AlexTreeMap.v ===== *)
(** * ALEX: lookups, insertions and removals that keep the nodes (alex/src/alex.h)

    In a tree that satisfies the invariant, [get_leaf] finds the leaf the models lead to,
    and what happens in that leaf happens to the map of the tree: a lookup finds what the
    map holds, an insertion the leaf accepts adds the pair, a removal that leaves the leaf
    with keys removes it. *)

From S2P Require Import Prelude Words Floats FloatScale FloatMono AlexBase AlexBitmap AlexSearch AlexModel AlexNode AlexLookup AlexPlace AlexResize AlexTree AlexRoute.
From Stdlib Require Import SpecFloat Sorted.
From stdpp Require Import gmap list.
Local Open Scope Z_scope.
Local Open Scope cxx_scope.

Section TreeMap.
Context {P : Type} (lo hi : Z) (Hlo : 0 <= lo) (Hhi : hi < u64_max).
Implicit Types (t : Alex P) (s : Store P).

(** ** The walk down *)

Lemma tree_walk_spec s key h : forall p ls path fuel, covers lo hi s h p ls -> is_leaf s p = Some false -> lo <= key <= hi -> (h <= fuel)%nat ->
  exists l pred path', loop fuel (walk_step s key) (p, path) = Some (l, pred, path') /\ route s h p key = Some l.
Proof.
  induction h as [|h IH]; intros p ls path fuel Hc El Hk Hf; cbn [covers] in Hc; rewrite El in Hc; [done|].
  destruct Hc as (n & blocks & lss & En & Hb & _ & Hne & _ & Hall & ->). destruct fuel as [|fuel]; [lia|]. cbn [loop walk_step route]. rewrite El, En. cbn [mbind option_bind].
  destruct (child_spec _ n blocks key Hb Hne) as (c & d & Hc & Egc). rewrite Egc. unfold get_child_node in Egc. unfold clamp_bucket. fold (predict (AlexModel.model_ (base n)) key).
  rewrite Egc. cbn [mbind option_bind]. destruct (Forall2_lookup_l _ _ _ _ _ Hall Hc) as (l0 & Hl0 & Hcov). cbn [fst] in Hcov.
  pose proof Hcov as Hcov'. destruct h as [|h]; cbn [covers] in Hcov'; (destruct (is_leaf s c) as [[]|] eqn:Ec; [| |done]); cbn [mbind option_bind]; try done.
  - eexists _, _, _. split; [done|]. cbn [route]. by rewrite Ec.
  - eexists _, _, _. split; [done|]. cbn [route]. by rewrite Ec.
  - destruct (IH c l0 ((p, Z.min (Z.max (predict (AlexModel.model_ (base n)) key) 0) (num_children_ n - 1)) :: path) fuel Hcov Ec Hk ltac:(lia)) as (l & pred & path' & E & R).
    eexists _, _, _. split; [exact E|done].
Qed.

(** ** No correction *)

(** No key of a leaf further left is as great as a key led to a leaf, none further right as small. *)
Lemma left_key_less t ls i j key k v l n : tree_ok lo hi t ls -> lo <= key <= hi -> leads_to t key l -> ls !! i = Some l ->
  (j < i)%nat -> forall q, ls !! j = Some q -> leaves (store t) !! q = Some n -> stored (slots_ n) k v -> k < key.
Proof using Hlo Hhi.
  intros Hok Hk R Hi Hj q Hq En Hst. destruct (to_clean _ _ t ls Hok q n k v (list_elem_of_lookup_2 _ _ _ Hq) En Hst) as [Hr R'].
  by apply (leads_order lo hi Hlo Hhi t ls k key j i q l).
Qed.

Lemma right_key_greater t ls i j key k v l n : tree_ok lo hi t ls -> lo <= key <= hi -> leads_to t key l -> ls !! i = Some l ->
  (i < j)%nat -> forall q, ls !! j = Some q -> leaves (store t) !! q = Some n -> stored (slots_ n) k v -> key < k.
Proof using Hlo Hhi.
  intros Hok Hk R Hi Hj q Hq En Hst. destruct (to_clean _ _ t ls Hok q n k v (list_elem_of_lookup_2 _ _ _ Hq) En Hst) as [Hr R'].
  by apply (leads_order lo hi Hlo Hhi t ls key k i j l q).
Qed.

Lemma no_correction t ls i l key pred : tree_ok lo hi t ls -> lo <= key <= hi -> leads_to t key l -> ls !! i = Some l ->
  neighbour_of (store t) l key pred = Some None.
Proof using Hlo Hhi.
  intros Hok Hk R Hi. unfold neighbour_of. destruct (within _ _ _); [|done]. rewrite (to_links _ _ t ls Hok i l Hi). cbn [mbind option_bind links_at prev_leaf_ next_leaf_].
  assert (Hnull : forall j q, ls !! j = Some q -> q <> nullptr) by (intros j q Hq ->; by apply (to_null _ _ t ls Hok), (list_elem_of_lookup_2 _ j)).
  destruct (SFleb _ _).
  - destruct i as [|i]; [done|]. destruct (ls !! i) as [q|] eqn:Eq; cbn [from_option id]; [|done]. destruct (Z.eqb_spec q nullptr) as [|_]; [done|].
    destruct (to_leaf _ _ t ls Hok q (list_elem_of_lookup_2 _ _ _ Eq)) as (n & En & Hn). rewrite En. cbn [mbind option_bind].
    destruct (last_key_spec _ (nk_slots n Hn)) as (k & -> & Hkey). cbn [mbind option_bind]. destruct (Z.leb_spec key k) as [Hle|]; [|done]. exfalso. destruct Hkey as [->|[v Hst]].
    + assert (key = lo) as -> by lia. pose proof (to_first _ _ t ls Hok l R) as H0. pose proof (NoDup_lookup ls 0 (S i) l (to_nodup _ _ t ls Hok) H0 Hi). done.
    + pose proof (left_key_less t ls (S i) i key k v l n Hok Hk R Hi ltac:(lia) q Eq En Hst). lia.
  - destruct (ls !! S i) as [q|] eqn:Eq; cbn [from_option id]; [|done]. destruct (Z.eqb_spec q nullptr) as [|_]; [done|].
    destruct (to_leaf _ _ t ls Hok q (list_elem_of_lookup_2 _ _ _ Eq)) as (n & En & Hn). rewrite En. cbn [mbind option_bind].
    destruct (first_key_spec _ (nk_slots n Hn)) as (k & -> & Hkey). cbn [mbind option_bind]. destruct (Z.leb_spec k key) as [Hle|]; [|done]. exfalso. destruct Hkey as [->|[v Hst]]; [lia|].
    pose proof (right_key_greater t ls i (S i) key k v l n Hok Hk R Hi ltac:(lia) q Eq En Hst). lia.
Qed.

(** ** Changes that keep the nodes *)

(** The tree after an operation on a leaf: counters aside, only that leaf has changed. *)
Record same_tree t t' : Prop := {
  st_store : store t' = store t;
  st_root : root_node_ t' = root_node_ t;
  st_superroot : superroot_ t' = superroot_ t;
  st_params : params_ t' = params_ t;
  st_istats : istats_ t' = istats_ t
}.

Lemma same_tree_refl t : same_tree t t.
Proof. done. Qed.

Lemma same_tree_trans t1 t2 t3 : same_tree t1 t2 -> same_tree t2 t3 -> same_tree t1 t3.
Proof. intros [????] [????]. constructor; congruence. Qed.

Lemma bump_same c d t : same_tree t (bump c d t).
Proof. done. Qed.

Lemma same_tree_ok t t' ls : same_tree t t' -> tree_ok lo hi t ls -> tree_ok lo hi t' ls.
Proof. intros [Es Er Esr _ _] [H1 H2 H3 H4 H5 H6 H7 H8]. unfold leads_to, top_ok in *. constructor; unfold leads_to, top_ok; rewrite ?Es, ?Er, ?Esr; done. Qed.

Lemma same_tree_map t t' ls : same_tree t t' -> tree_map t' ls = tree_map t ls.
Proof. intros [Es _ _ _ _]. unfold tree_map, tree_pairs. by rewrite Es. Qed.

Lemma tree_ok_same t t' ls : store t' = store t -> root_node_ t' = root_node_ t -> superroot_ t' = superroot_ t -> tree_ok lo hi t ls -> tree_ok lo hi t' ls.
Proof. intros Es Er Esr [H1 H2 H3 H4 H5 H6 H7 H8]. unfold leads_to, top_ok in *. constructor; unfold leads_to, top_ok; rewrite ?Es, ?Er, ?Esr; done. Qed.

Lemma tree_map_same t t' ls : store t' = store t -> tree_map t' ls = tree_map t ls.
Proof. intros Es. unfold tree_map, tree_pairs. by rewrite Es. Qed.

(** The routes depend on the model nodes only. *)
Lemma route_leaf_irrelevant s q n h : forall p key, route (set_leaf s q n) h p key = route s h p key.
Proof.
  induction h as [|h IH]; intros p key; cbn [route]; [done|]. change (is_leaf (set_leaf s q n) p) with (is_leaf s p). destruct (is_leaf s p) as [[]|]; [done| |done]. cbn [mbind option_bind].
  change (model_node (set_leaf s q n) p) with (model_node s p). destruct (model_node s p) as [x|]; [|done]. cbn [mbind option_bind]. destruct (get_child_node x key); [|done]. apply IH.
Qed.

Lemma covers_leaf_irrelevant s q n h : forall p ls, covers lo hi s h p ls -> covers lo hi (set_leaf s q n) h p ls.
Proof.
  induction h as [|h IH]; intros p ls Hc; cbn [covers] in *; change (is_leaf (set_leaf s q n) p) with (is_leaf s p); [done|].
  destruct (is_leaf s p) as [[]|]; [done| |done]. destruct Hc as (x & blocks & lss & En & Hb & Hm & Hne & Hp & Hall & E).
  exists x, blocks, lss. split; [done|]. split; [done|]. split; [done|]. split; [done|]. split; [done|]. split; [|done]. eapply Forall2_impl; [exact Hall|]. intros b l. apply IH.
Qed.

(** A leaf is replaced: its keys must be led to it. *)
Lemma replace_leaf_ok t ls l n : tree_ok lo hi t ls -> l ∈ ls -> node_ok n ->
  (forall k v, stored (slots_ n) k v -> lo <= k <= hi /\ leads_to t k l) -> tree_ok lo hi (with_store t (set_leaf (store t) l n)) ls.
Proof.
  intros [(h & Hh & Hc) H2 H3 H4 H5 H6 H7 H8] Hl Hn Hk. unfold leads_to in *. constructor; unfold leads_to; cbn [with_store store root_node_]; try setoid_rewrite route_leaf_irrelevant; try done.
  - exists h. split; [done|]. by apply covers_leaf_irrelevant.
  - intros l' Hl'. cbn [set_leaf leaves]. destruct (decide (l' = l)) as [->|Hne]; [rewrite lookup_insert_eq; by exists n|rewrite lookup_insert_ne by done; by apply H4].
  - intros l' n' k v Hl' En Hst. cbn [set_leaf leaves bases] in *. destruct (decide (l' = l)) as [->|Hne].
    + rewrite lookup_insert_eq in En. injection En as <-. by eapply Hk.
    + rewrite lookup_insert_ne in En by done. by eapply H6.
Qed.

(** The map afterwards. *)
Lemma replace_leaf_map t ls l n : tree_ok lo hi t ls -> tree_ok lo hi (with_store t (set_leaf (store t) l n)) ls -> l ∈ ls ->
  forall k, lo <= k <= hi -> tree_map (with_store t (set_leaf (store t) l n)) ls !! k =
    if decide (leads_to t k l) then node_map (slots_ n) !! k else tree_map t ls !! k.
Proof using Hlo Hhi.
  intros Hok Hok' Hl k Hk. destruct (leads_somewhere lo hi Hlo Hhi t ls k Hok Hk) as (i & q & Hq & R). pose proof (list_elem_of_lookup_2 _ _ _ Hq) as Hqin.
  assert (R' : leads_to (with_store t (set_leaf (store t) l n)) k q) by (unfold leads_to; cbn [with_store store root_node_]; by rewrite route_leaf_irrelevant).
  destruct (decide (leads_to t k l)) as [Rl|Rl].
  - assert (q = l) as -> by (unfold leads_to in *; congruence). eapply (tree_map_lookup lo hi Hlo Hhi); [done|done|done|]. cbn. by rewrite lookup_insert_eq.
  - destruct (to_leaf _ _ t ls Hok q Hqin) as (m & Em & _). rewrite (tree_map_lookup lo hi Hlo Hhi t ls k q m) by done.
    eapply (tree_map_lookup lo hi Hlo Hhi); [done|done|done|]. cbn. rewrite lookup_insert_ne; [done|]. by intros ->.
Qed.

(** ** get_leaf *)

Lemma get_leaf_spec t ls key with_path : tree_ok lo hi t ls -> lo <= key <= hi ->
  exists t' i l path, get_leaf t key with_path = Some (t', l, path) /\ same_tree t t' /\ ls !! i = Some l /\ leads_to t key l.
Proof using Hlo Hhi.
  intros Hok Hk. destruct (leads_somewhere lo hi Hlo Hhi t ls key Hok Hk) as (i & l & Hi & R). destruct (to_covers _ _ t ls Hok) as (h & Hh & Hc).
  unfold get_leaf. destruct (is_leaf (store t) (root_node_ t)) as [[]|] eqn:El; cbn [mbind option_bind].
  - exists t, i, l. assert (l = root_node_ t) as ->.
    { unfold leads_to in R. destruct (levels _); cbn [route] in R; rewrite El in R; by injection R. }
    eexists. split; [done|]. split; [done|]. done.
  - destruct (tree_walk_spec (store t) key h (root_node_ t) ls [(superroot_ t, 0)] (depth_fuel (store t)) Hc El Hk) as (l' & pred & path & -> & R'); [unfold depth_fuel, levels in *; lia|].
    assert (l' = l) as -> by (apply (route_more _ h (levels (store t))) in R'; [unfold leads_to in R; congruence|done]).
    cbn [mbind option_bind]. pose proof (covers_leaves lo hi (store t) h _ ls l Hc (list_elem_of_lookup_2 _ _ _ Hi)) as Hl. unfold is_leaf in Hl.
    destruct (bases (store t) !! l) as [b|] eqn:Eb; [|done]. cbn [mbind option_bind]. rewrite (no_correction t ls i l key pred) by done. cbn [mbind option_bind].
    eexists _, i, l, _. split; [done|]. split; [apply bump_same|done].
  - destruct h; cbn [covers] in Hc; by rewrite El in Hc.
Qed.

(** An operation on the leaf of a key, when it only looks. *)
Lemma leaf_unchanged t ls l n n' : tree_ok lo hi t ls -> l ∈ ls -> leaves (store t) !! l = Some n -> slots_ n' = slots_ n -> node_ok n' ->
  tree_ok lo hi (with_store t (set_leaf (store t) l n')) ls /\ tree_map (with_store t (set_leaf (store t) l n')) ls = tree_map t ls.
Proof using Hlo Hhi.
  intros Hok Hl En Es Hn'. assert (Hok' : tree_ok lo hi (with_store t (set_leaf (store t) l n')) ls).
  { apply replace_leaf_ok; [done..|]. rewrite Es. intros k v. by apply (to_clean _ _ t ls Hok). }
  split; [done|]. apply map_eq. intros k. destruct (decide (lo <= k <= hi)) as [Hk|Hk].
  - rewrite replace_leaf_map by done. destruct (decide (leads_to t k l)) as [R|]; [|done]. rewrite Es. symmetry. by apply (tree_map_lookup lo hi Hlo Hhi t ls k l n).
  - assert (Hnone : forall t', tree_ok lo hi t' ls -> tree_map t' ls !! k = None); [|by rewrite (Hnone _ Hok'), (Hnone t Hok)].
    intros t' Hok''. apply eq_None_ne_Some. intros v Hv. by apply (tree_map_range lo hi Hlo Hhi t' ls) in Hv.
Qed.

(** ** Lookups *)

(** The slot of a key in its leaf, or none. *)
Lemma find_in_leaf_spec t ls key : tree_ok lo hi t ls -> lo <= key <= hi ->
  exists r t', find_in_leaf t key = Some (r, t') /\ tree_ok lo hi t' ls /\ tree_map t' ls = tree_map t ls /\ istats_ t' = istats_ t /\
    match tree_map t ls !! key with
    | None => r = None
    | Some v => exists i l n pos, r = Some (l, pos) /\ ls !! i = Some l /\ leaves (store t') !! l = Some n /\ 0 <= pos < data_capacity_ (slots_ n) /\
        bitv (bitmap_ (slots_ n)) pos = true /\ rd (key_slots_ (slots_ n)) pos = Some key /\ rd (payload_slots_ (slots_ n)) pos = Some v
    end.
Proof using Hlo Hhi.
  intros Hok Hk. unfold find_in_leaf. set (t0 := bump SNumLookups 1 t). assert (Hok0 : tree_ok lo hi t0 ls) by (eapply same_tree_ok; [apply bump_same|done]).
  destruct (get_leaf_spec t0 ls key false Hok0 Hk) as (t1 & i & l & path & -> & Hs & Hi & R). cbn [mbind option_bind].
  assert (Hst : same_tree t t1) by (eapply same_tree_trans; [apply bump_same|exact Hs]). assert (Hok1 : tree_ok lo hi t1 ls) by (by eapply same_tree_ok). pose proof (list_elem_of_lookup_2 _ _ _ Hi) as Hl. destruct (to_leaf _ _ t1 ls Hok1 l Hl) as (n & En & Hn).
  assert (R1 : leads_to t1 key l) by (destruct Hs as [Es Er _ _ _]; unfold leads_to in *; by rewrite Es, Er).
  unfold on_leaf. rewrite En. cbn [mbind option_bind]. destruct (find_key_spec n key (nk_slots n Hn) (nk_fits n Hn) ltac:(lia)) as (pos & it & -> & Hpos). cbn [mbind option_bind].
  set (n' := upd_counters _ _). assert (Hn' : node_ok n') by (by apply node_ok_upd, node_ok_upd).
  destruct (leaf_unchanged t1 ls l n n' Hok1 Hl En eq_refl Hn') as [Hok' Hm]. set (t' := with_store t1 _) in *.
  assert (Hmap : tree_map t1 ls = tree_map t ls) by (by apply same_tree_map). rewrite <-(tree_map_lookup lo hi Hlo Hhi t1 ls key l n Hok1 R1 Hl En), Hmap in Hpos.
  eexists _, t'. split; [reflexivity|]. rewrite Hm, Hmap. split; [done|]. split; [done|]. split; [by destruct Hs as [_ _ _ _ Ei]|].
  destruct (tree_map t ls !! key) as [v|]; [|by rewrite Hpos].
  destruct Hpos as (Hr & Hb & Hkey & Hv). destruct (Z.ltb_spec pos 0); [lia|]. exists i, l, n', pos. split; [done|]. split; [done|]. split; [apply lookup_insert_eq|done].
Qed.

(** The payload of a key, or none. *)
Lemma get_payload_spec t ls key : tree_ok lo hi t ls -> lo <= key <= hi ->
  exists t', get_payload t key = Some (tree_map t ls !! key, t') /\ tree_ok lo hi t' ls /\ tree_map t' ls = tree_map t ls /\ istats_ t' = istats_ t.
Proof using Hlo Hhi.
  intros Hok Hk. unfold get_payload. destruct (find_in_leaf_spec t ls key Hok Hk) as (r & t' & -> & Hok' & Hm & Hist & Hr). cbn [mbind option_bind]. exists t'.
  destruct (tree_map t ls !! key) as [v|]; [|by subst r]. destruct Hr as (i & l & n & pos & -> & _ & En & _ & _ & _ & Hv). rewrite En. cbn [mbind option_bind]. rewrite Hv. by cbn [mbind option_bind].
Qed.

(** C5: in a well-formed tree the models never change the order of the keys from [lo] to
    [hi], between which all predictions fit an [int], rounding included: of two such keys
    in order, [get_leaf] finds the leaf of the lesser one at or left of that of the
    greater one, and changes nothing but counters. *)
Theorem get_leaf_order t ls key key' : tree_ok lo hi t ls -> lo <= key <= key' -> key' <= hi ->
  exists i i' l l' t1 t1' path path', get_leaf t key false = Some (t1, l, path) /\ get_leaf t key' false = Some (t1', l', path') /\
    ls !! i = Some l /\ ls !! i' = Some l' /\ (i <= i')%nat /\ same_tree t t1 /\ same_tree t t1'.
Proof using Hlo Hhi.
  intros Hok Hk Hk'. destruct (leads_mono lo hi Hlo Hhi t ls key key' Hok Hk Hk') as (i & i' & l & l' & Hle & Hi & Hi' & R & R').
  destruct (get_leaf_spec t ls key false Hok ltac:(lia)) as (t1 & j & m & path & E & Hs & Hj & Rm).
  destruct (get_leaf_spec t ls key' false Hok ltac:(lia)) as (t1' & j' & m' & path' & E' & Hs' & Hj' & Rm').
  unfold leads_to in *. assert (m = l /\ m' = l') as [-> ->] by (split; congruence). by exists i, i', l, l', t1, t1', path, path'.
Qed.

End TreeMap.
