(* ===== verification/AlexChange.v ===== *)
(** * ALEX: changing the nodes of a tree (alex/src/alex.h)

    A change below one model node leaves the rest of the tree as it is: the leaves left and
    right of it stay, and a key is led to another leaf only if it was led below that node. *)

From S2P Require Import Prelude Words Floats FloatScale FloatMono AlexBase AlexBitmap AlexSearch AlexModel AlexNode AlexLookup AlexPlace AlexResize.
From S2P Require Import AlexTree AlexBuild AlexGrow AlexRoute AlexTreeMap.
From Stdlib Require Import SpecFloat Sorted.
From stdpp Require Import gmap list relations.
Local Open Scope Z_scope.
Local Open Scope cxx_scope.

(** ** Blocks *)

Lemma elem_of_pointers c blocks : (forall c d, (c, d) ∈ blocks -> 0 <= d) -> c ∈ pointers blocks <-> exists d, (c, d) ∈ blocks.
Proof.
  induction blocks as [|[c' d'] blocks IH]; intros Hd.
  - split; [intros H; by apply elem_of_nil in H|]. intros [d H]. by apply elem_of_nil in H.
  - pose proof (Hd c' d' ltac:(constructor)) as H0. pose proof (pow2_pos d' H0). rewrite pointers_cons, elem_of_app, IH by (intros x y Hx; apply (Hd x); by constructor). split.
    + intros [[-> _]%elem_of_replicate|[d H']]; [exists d'; constructor|exists d; by constructor].
    + intros [d [[= -> ->]|H']%elem_of_cons]; [left; apply elem_of_replicate; split; [done|lia]|right; by exists d].
Qed.

Lemma blocks_unique h b1 : forall b2, factors_ok h b1 -> factors_ok h b2 -> pointers b1 = pointers b2 -> b1 = b2.
Proof.
  induction b1 as [|[c d] b1 IH]; intros [|[c' d'] b2] H1 H2 E; [done|..].
  - destruct (H2 c' d' ltac:(constructor)) as [Hd _]. pose proof (pow2_pos d' ltac:(lia)). rewrite pointers_cons in E. destruct (Z.to_nat (2 ^ d')) eqn:En; [lia|done].
  - destruct (H1 c d ltac:(constructor)) as [Hd _]. pose proof (pow2_pos d ltac:(lia)). rewrite pointers_cons in E. destruct (Z.to_nat (2 ^ d)) eqn:En; [lia|done].
  - destruct (H1 c d ltac:(constructor)) as [Hd (x & Ex & Edx)]. destruct (H2 c' d' ltac:(constructor)) as [Hd' (x' & Ex' & Edx')]. pose proof (pow2_pos d ltac:(lia)). pose proof (pow2_pos d' ltac:(lia)).
    rewrite !pointers_cons in E. assert (c' = c) as ->. { destruct (Z.to_nat (2 ^ d)) eqn:En; [lia|]. destruct (Z.to_nat (2 ^ d')) eqn:En'; [lia|]. cbn in E. by injection E. }
    assert (d' = d) as -> by congruence. f_equal. apply IH; [intros y z Hy; apply H1; by constructor|intros y z Hy; apply H2; by constructor|by apply app_inv_head in E].
Qed.

Section Change.
Context {P : Type} (lo hi : Z).
Implicit Types (t : Alex P) (s : Store P).

(** ** Nodes below a node *)

Definition child_of s (p c : Z) : Prop := is_leaf s p = Some false /\ exists n, model_node s p = Some n /\ c ∈ children_ n.

Lemma covers_more s h : forall h' p ls, (h <= h')%nat -> covers lo hi s h p ls -> covers lo hi s h' p ls.
Proof.
  induction h as [|h IH]; intros h' p ls Hle Hc; destruct h' as [|h']; try lia; cbn [covers] in *; destruct (is_leaf s p) as [[]|]; try done.
  destruct Hc as (n & blocks & lss & En & Hb & Hm & Hne & Hp & Hall & ->). exists n, blocks, lss. do 5 (split; [done|]). split; [|done].
  eapply Forall2_impl; [exact Hall|]. intros b l. apply IH. lia.
Qed.

Lemma covers_leaf_inv s h p ls : covers lo hi s h p ls -> is_leaf s p = Some true -> ls = [p].
Proof. destruct h; cbn [covers]; intros H E; by rewrite E in H. Qed.

Lemma covers_model_inv s h p ls : covers lo hi s h p ls -> is_leaf s p = Some false -> exists h', h = S h' /\ exists n blocks lss, model_node s p = Some n /\
  node_blocks (bases s) n blocks /\ good_model lo hi (AlexModel.model_ (base n)) /\ blocks <> [] /\ small_power (num_children_ n) /\
  Forall2 (fun b l => covers lo hi s h' b.1 l) blocks lss /\ ls = concat lss.
Proof. destruct h as [|h]; cbn [covers]; intros H E; rewrite E in H; [done|]. by exists h. Qed.

Lemma covers_unique s h : forall h' p ls ls', covers lo hi s h p ls -> covers lo hi s h' p ls' -> ls = ls'.
Proof.
  induction h as [|h IH]; intros h' p ls ls' Hc Hc'; (destruct (is_leaf s p) as [[]|] eqn:El; [|..]).
  1,4: by rewrite (covers_leaf_inv _ _ _ _ Hc El), (covers_leaf_inv _ _ _ _ Hc' El).
  1,2,4: by destruct h' ; cbn [covers] in Hc; rewrite El in Hc.
  destruct (covers_model_inv _ _ _ _ Hc El) as (h1 & [= <-] & n & blocks & lss & En & Hb & _ & _ & _ & Hall & ->).
  destruct (covers_model_inv _ _ _ _ Hc' El) as (h2 & -> & n' & blocks' & lss' & En' & Hb' & _ & _ & _ & Hall' & ->).
  rewrite En in En'. injection En' as <-. assert (blocks' = blocks) as ->. { apply (blocks_unique (bases s)); [apply (nb_factors _ _ _ Hb')|apply (nb_factors _ _ _ Hb)|]. by rewrite <-(nb_children _ _ _ Hb), <-(nb_children _ _ _ Hb'). }
  f_equal. clear Hb Hb' Hc Hc'. revert lss' Hall'. induction Hall as [|b l blocks lss Hl _ IHl]; intros lss' Hall'; inversion Hall'; subst; [done|]. f_equal; [by eapply IH|by apply IHl].
Qed.

Lemma covers_nonempty s h p ls : covers lo hi s h p ls -> ls <> [].
Proof.
  revert p ls. induction h as [|h IH]; intros p ls Hc; (destruct (is_leaf s p) as [[]|] eqn:El; [|..]).
  1,4: by rewrite (covers_leaf_inv _ _ _ _ Hc El).
  1,2,4: by cbn [covers] in Hc; rewrite El in Hc.
  destruct (covers_model_inv _ _ _ _ Hc El) as (h1 & [= <-] & n & blocks & lss & En & Hb & _ & Hne & _ & Hall & ->).
  destruct blocks as [|b blocks]; [done|]. apply Forall2_cons_inv_l in Hall as (l & lss' & Hl & _ & ->). cbn [concat]. specialize (IH _ _ Hl). by destruct l.
Qed.

(** The child at a block, with its leaves. *)
Lemma covers_child s h p ls c : covers lo hi s h p ls -> child_of s p c -> exists h' lc, h = S h' /\ covers lo hi s h' c lc /\ lc ⊆ ls.
Proof.
  intros Hc (El & n' & En' & Hin). destruct (covers_model_inv _ _ _ _ Hc El) as (h' & -> & n & blocks & lss & En & Hb & _ & Hne & _ & Hall & ->).
  rewrite En in En'. injection En' as <-. rewrite (nb_children _ _ _ Hb) in Hin. apply elem_of_pointers in Hin as [d Hin]; [|by eapply factor_of_blocks].
  apply list_elem_of_lookup in Hin as [i Hi]. destruct (Forall2_lookup_l _ _ _ _ _ Hall Hi) as (lc & Hlc & Hcov). exists h', lc. split; [done|]. split; [done|].
  intros l Hl. apply elem_of_concat. exists lc. split; [done|]. by eapply list_elem_of_lookup_2.
Qed.

Lemma covers_below s p x : rtc (child_of s) p x -> forall h ls, covers lo hi s h p ls -> exists h' lx, (h' <= h)%nat /\ covers lo hi s h' x lx /\ lx ⊆ ls.
Proof.
  induction 1 as [|p c x Hc _ IH]; intros h ls Hcov; [by exists h, ls|]. destruct (covers_child _ _ _ _ _ Hcov Hc) as (h' & lc & -> & Hcov' & Hsub).
  destruct (IH _ _ Hcov') as (h'' & lx & Hle & Hx & Hsub'). exists h'', lx. split; [lia|]. split; [done|]. intros l Hl. by apply Hsub, Hsub'.
Qed.

Lemma covers_strictly_below s p x h ls : tc (child_of s) p x -> covers lo hi s h p ls -> exists h' lx, (h' < h)%nat /\ covers lo hi s h' x lx /\ lx ⊆ ls.
Proof.
  intros Ht Hcov. assert (H0 : exists c, child_of s p c /\ rtc (child_of s) c x) by (inversion Ht as [|? c ? ? ?]; subst; [by exists x|exists c; split; [done|by apply tc_rtc]]).
  destruct H0 as (c & Hc & Hr). destruct (covers_child _ _ _ _ _ Hcov Hc) as (h' & lc & -> & Hcov' & Hsub). destruct (covers_below _ _ _ Hr _ _ Hcov') as (h'' & lx & Hle & Hx & Hsub').
  exists h'', lx. split; [lia|]. split; [done|]. intros l Hl. by apply Hsub, Hsub'.
Qed.

(** No node is below itself. *)
Lemma covers_acyclic s h : forall p ls, covers lo hi s h p ls -> ~ tc (child_of s) p p.
Proof.
  induction (lt_wf h) as [h _ IH]. intros p ls Hcov Ht. destruct (covers_strictly_below _ _ _ _ _ Ht Hcov) as (h' & lx & Hlt & Hx & _). by apply (IH h' Hlt p lx).
Qed.

(** A tree none of whose nodes changes. *)
Lemma model_node_ext s s' p : bases s' !! p = bases s !! p -> arrays s' !! p = arrays s !! p -> model_node s' p = model_node s p.
Proof. intros E1 E2. unfold model_node. by rewrite E1, E2. Qed.

Lemma covers_ext s s' h : forall p ls, (forall x, rtc (child_of s) p x -> bases s' !! x = bases s !! x /\ arrays s' !! x = arrays s !! x) ->
  covers lo hi s h p ls -> covers lo hi s' h p ls /\ forall key, route s' h p key = route s h p key.
Proof.
  induction h as [|h IH]; intros p ls Hext Hc; destruct (Hext p ltac:(reflexivity)) as [Ep Ea]; assert (El : is_leaf s' p = is_leaf s p) by (unfold is_leaf; by rewrite Ep).
  - cbn [covers route] in *. rewrite El. split; [done|]. intros key. by destruct (is_leaf s p) as [[]|].
  - destruct (is_leaf s p) as [[]|] eqn:El0; [|..]; cbn [covers route]; rewrite El.
    + split; [by apply (covers_leaf_inv _ _ _ _ Hc)|]. intros key. by rewrite El0.
    + destruct (covers_model_inv _ _ _ _ Hc El0) as (h1 & [= <-] & n & blocks & lss & En & Hb & Hm & Hne & Hp & Hall & ->).
      assert (En' : model_node s' p = Some n) by (by rewrite (model_node_ext s s')).
      assert (Hch : forall c d, (c, d) ∈ blocks -> child_of s p c). { intros c d Hin. split; [done|]. exists n. split; [done|]. rewrite (nb_children _ _ _ Hb). apply elem_of_pointers; [by eapply factor_of_blocks|by exists d]. }
      assert (Hr : forall c d, (c, d) ∈ blocks -> forall x, rtc (child_of s) c x -> bases s' !! x = bases s !! x /\ arrays s' !! x = arrays s !! x).
      { intros c d Hin x Hx. apply Hext. eapply rtc_l; [by eapply Hch|done]. }
      split.
      * exists n, blocks, lss. split; [done|]. split; [|do 3 (split; [done|]); split; [|done]].
        -- constructor; try apply Hb. intros c d Hin. destruct (nb_factors _ _ _ Hb c d Hin) as [Hd (x & Ex & Edx)]. split; [done|]. exists x. split; [|done]. destruct (Hr c d Hin c ltac:(reflexivity)) as [-> _]. done.
        -- apply Forall2_same_length_lookup. split; [by eapply Forall2_length|]. intros i [c d] l Hi Hl. pose proof (Forall2_lookup_lr _ _ _ _ _ _ Hall Hi Hl) as Hcov. apply IH; [|done]. eapply Hr. by eapply list_elem_of_lookup_2.
      * intros key. rewrite El0, En'. cbn [mbind option_bind]. rewrite En. cbn [mbind option_bind]. destruct (child_spec _ n blocks key Hb Hne) as (c & d & Hcd & Eg). rewrite Eg. cbn [mbind option_bind].
        destruct (Forall2_lookup_l _ _ _ _ _ Hall Hcd) as (lc & _ & Hcov). apply (IH c lc); [|done]. eapply Hr. by eapply list_elem_of_lookup_2.
    + by cbn [covers] in Hc; rewrite El0 in Hc.
Qed.

Lemma child_of_block s p n blocks c d : is_leaf s p = Some false -> model_node s p = Some n -> node_blocks (bases s) n blocks -> (c, d) ∈ blocks -> child_of s p c.
Proof.
  intros El En Hb Hin. split; [done|]. exists n. split; [done|]. rewrite (nb_children _ _ _ Hb). apply elem_of_pointers; [by eapply factor_of_blocks|by exists d].
Qed.

(** Different blocks have different nodes below. *)
Lemma blocks_disjoint s h (blocks : list (Z * Z)) lss i j c d c' d' x : Forall2 (fun b l => covers lo hi s h b.1 l) blocks lss -> NoDup (concat lss) -> i <> j ->
  blocks !! i = Some (c, d) -> blocks !! j = Some (c', d') -> rtc (child_of s) c x -> rtc (child_of s) c' x -> False.
Proof.
  intros Hall Hd Hij Hi Hj Hx Hx'. destruct (Forall2_lookup_l _ _ _ _ _ Hall Hi) as (l & Hl & Hc). destruct (Forall2_lookup_l _ _ _ _ _ Hall Hj) as (l' & Hl' & Hc'). cbn [fst] in *.
  destruct (covers_below _ _ _ Hx _ _ Hc) as (h1 & lx & _ & Hcx & Hsub). destruct (covers_below _ _ _ Hx' _ _ Hc') as (h2 & lx' & _ & Hcx' & Hsub').
  pose proof (covers_unique _ _ _ _ _ _ Hcx Hcx') as <-. pose proof (covers_nonempty _ _ _ _ Hcx) as Hne. destruct lx as [|y lx]; [done|].
  assert (Hy : y ∈ l /\ y ∈ l') by (split; [apply Hsub|apply Hsub']; constructor). destruct Hy as [[a Ha]%list_elem_of_lookup [b Hb]%list_elem_of_lookup].
  pose proof (concat_lookup lss i l a y Hl Ha) as E1. pose proof (concat_lookup lss j l' b y Hl' Hb) as E2. pose proof (NoDup_lookup _ _ _ _ Hd E1 E2) as E.
  destruct (decide (i < j)%nat); [pose proof (concat_before lss i j l a y ltac:(lia) Hl Ha)|pose proof (concat_before lss j i l' b y ltac:(lia) Hl' Hb)]; lia.
Qed.
End Change.

(** ** A change below one node *)

Section OneNode.
Context {P : Type} (lo hi : Z) (Hlo : 0 <= lo) (Hhi : hi < u64_max) (s s' : Store P) (q : Z) (lq lq' ch : list Z) (e : nat) (rho : Z -> Z -> Z).
Context (Hlq : exists h, covers lo hi s h q lq).
Context (Hch : forall x, x ∈ ch -> rtc (child_of s) q x).
Context (Hsame : forall x, x ∉ ch -> bases s' !! x = bases s !! x /\ arrays s' !! x = arrays s !! x).
Context (Hdup : forall b, bases s !! q = Some b -> exists b', bases s' !! q = Some b' /\ duplication_factor_ b' = duplication_factor_ b).
Context (Hcov : forall h, covers lo hi s h q lq -> covers lo hi s' (h + e) q lq').
Context (Hroute : forall h key l, lo <= key <= hi -> covers lo hi s h q lq -> route s h q key = Some l -> route s' (h + e) q key = Some (rho key l)).
Context (Hrho : forall key l, l ∉ lq -> rho key l = l).

Lemma unchanged_beside h p ls : covers lo hi s h p ls -> (forall x, rtc (child_of s) p x -> ~ rtc (child_of s) q x) -> covers lo hi s' (h + e) p ls /\
  forall key l, route s h p key = Some l -> route s' (h + e) p key = Some l.
Proof using Hch Hsame.
  intros Hc Hno. destruct (covers_ext lo hi s s' h p ls) as [Hc' Hr]; [|done|].
  - intros x Hx. apply Hsame. intros Hin. by apply (Hno x), Hch.
  - split; [by eapply covers_more; [|exact Hc']; lia|]. intros key l E. apply (route_more s' h); [lia|]. by rewrite Hr.
Qed.

Lemma route_in (s0 : Store P) h p ls key l : covers lo hi s0 h p ls -> lo <= key <= hi -> route s0 h p key = Some l -> l ∈ ls.
Proof using Hlo Hhi.
  intros Hc Hk E. destruct (route_mono lo hi Hlo Hhi s0 h p ls key key Hc) as (i & _ & l' & _ & _ & Hl & _ & E' & _); [lia|lia|]. assert (l' = l) as -> by congruence. by eapply list_elem_of_lookup_2.
Qed.

Lemma covers_change p : rtc (child_of s) p q -> forall h ls, covers lo hi s h p ls -> NoDup ls ->
  exists pre post, ls = pre ++ lq ++ post /\ covers lo hi s' (h + e) p (pre ++ lq' ++ post) /\
    forall key l, lo <= key <= hi -> route s h p key = Some l -> route s' (h + e) p key = Some (rho key l).
Proof using Hlo Hhi Hlq Hch Hsame Hdup Hcov Hroute Hrho.
  destruct Hlq as (hq & Hq). intros Hpq. revert p Hpq. apply (rtc_ind_l (R := child_of s) (fun p => forall h ls, covers lo hi s h p ls -> NoDup ls -> _)).
  - intros h ls Hc Hd. pose proof (covers_unique _ _ _ _ _ _ _ _ Hc Hq) as ->. exists [], []. rewrite !app_nil_r. split; [done|]. split; [by apply Hcov|]. intros key l Hk. by apply Hroute.
  - intros p c Hpc Hcq IH h ls Hc Hd. pose proof Hpc as (El & n & En & Hin). destruct (covers_model_inv _ _ _ _ _ _ Hc El) as (h1 & -> & n' & blocks & lss & En' & Hb & Hm & Hne & Hp & Hall & ->).
    rewrite En in En'. injection En' as <-. rewrite (nb_children _ _ _ Hb) in Hin. apply elem_of_pointers in Hin as [d Hin]; [|by eapply factor_of_blocks]. apply list_elem_of_lookup in Hin as [i Hi].
    destruct (Forall2_lookup_l _ _ _ _ _ Hall Hi) as (lc & Hlc & Hcc). cbn [fst] in Hcc.
    assert (Hsplit : forall x, concat (<[i := x]> lss) = concat (take i lss) ++ x ++ concat (drop (S i) lss)). { intros x. rewrite insert_take_drop by (by eapply lookup_lt_Some). by rewrite concat_app. }
    assert (Hself : concat lss = concat (take i lss) ++ lc ++ concat (drop (S i) lss)) by (rewrite <-Hsplit; by rewrite list_insert_id).
    destruct (IH h1 lc Hcc) as (pre & post & Elc & Hcov' & Hr'). { rewrite Hself in Hd. by apply NoDup_app in Hd as (_ & _ & (Hd & _)%NoDup_app). }
    assert (Hacyc : forall x hx lx, covers lo hi s hx x lx -> ~ tc (child_of s) x x) by (intros x hx lx; apply covers_acyclic).
    assert (Hpn : p ∉ ch). { intros Hx%Hch. apply (Hacyc p _ _ Hc). eapply tc_rtc_r; [by apply tc_once|]. by eapply rtc_trans. }
    assert (Hdisj : forall j c' d' x, i <> j -> blocks !! j = Some (c', d') -> rtc (child_of s) c' x -> rtc (child_of s) q x -> False).
    { intros j c' d' x Hij Hj Hx Hqx. eapply (blocks_disjoint lo hi s h1 blocks lss i j c d c' d' x); try done. by eapply rtc_trans. }
    destruct (Hsame p Hpn) as [Epb Epa]. assert (En' : model_node s' p = Some n) by (by rewrite (model_node_ext s s')).
    assert (El' : is_leaf s' p = Some false) by (unfold is_leaf in *; by rewrite Epb).
    assert (Hb' : node_blocks (bases s') n blocks).
    { constructor; try apply Hb. intros c2 d2 Hin2. destruct (nb_factors _ _ _ Hb c2 d2 Hin2) as [Hd2 (x & Ex & Edx)]. split; [done|]. apply list_elem_of_lookup in Hin2 as [j Hj].
      destruct (decide (c2 = q)) as [->|Hnq]; [destruct (Hdup x Ex) as (x' & Ex' & Edx'); exists x'; split; [done|congruence]|].
      destruct (decide (c2 ∈ ch)) as [Hc2|Hc2]; [|destruct (Hsame c2 Hc2) as [-> _]; by exists x].
      exfalso. apply Hch in Hc2. destruct (decide (i = j)) as [<-|Hij]; [|by apply (Hdisj j c2 d2 c2)]. assert (c2 = c) as -> by congruence.
      apply rtc_tc in Hc2 as [->|Hc2]; [done|]. apply (Hacyc c _ _ Hcc). by eapply tc_rtc_l. }
    exists (concat (take i lss) ++ pre), (post ++ concat (drop (S i) lss)). split; [rewrite Hself, Elc; by rewrite <-!app_assoc|].
    replace ((concat (take i lss) ++ pre) ++ lq' ++ post ++ concat (drop (S i) lss)) with (concat (<[i := pre ++ lq' ++ post]> lss)) by (rewrite Hsplit; by rewrite <-!app_assoc).
    assert (Hbeside : forall j c' d' l', i <> j -> blocks !! j = Some (c', d') -> lss !! j = Some l' -> covers lo hi s' (h1 + e) c' l' /\ forall key l, route s h1 c' key = Some l -> route s' (h1 + e) c' key = Some l).
    { intros j c' d' l' Hij Hj Hl'. apply unchanged_beside; [apply (Forall2_lookup_lr _ _ _ _ _ _ Hall Hj Hl')|]. intros x Hx Hqx. by apply (Hdisj j c' d' x). }
    split.
    + cbn [covers Nat.add]. rewrite El'. exists n, blocks, (<[i := pre ++ lq' ++ post]> lss). do 5 (split; [done|]). split; [|done].
      apply Forall2_same_length_lookup. split; [rewrite length_insert; by eapply Forall2_length|]. intros j [c' d'] l' Hj Hl'. cbn [fst]. destruct (decide (i = j)) as [<-|Hij].
      * rewrite list_lookup_insert_eq in Hl' by (by eapply lookup_lt_Some). injection Hl' as <-. assert (c' = c) as -> by congruence. done.
      * rewrite list_lookup_insert_ne in Hl' by done. by eapply Hbeside.
    + intros key l Hk E. cbn [route Nat.add] in E |- *. rewrite El in E. rewrite El'. cbn [mbind option_bind] in E |- *. rewrite En in E. rewrite En'. cbn [mbind option_bind] in E |- *.
      destruct (child_spec _ n blocks key Hb Hne) as (c' & d' & Hj & Eg). rewrite Eg in E |- *. cbn [mbind option_bind] in E |- *. set (j := block_index _ _) in *. clearbody j. destruct (decide (i = j)) as [<-|Hij].
      * assert (c' = c) as -> by congruence. by apply Hr'.
      * destruct (Forall2_lookup_l _ _ _ _ _ Hall Hj) as (l' & Hl' & Hcov2). cbn [fst] in Hcov2. destruct (Hbeside j c' d' l' Hij Hj Hl') as [_ Hr2]. rewrite (Hr2 key l E). f_equal. symmetry. apply Hrho. intros Hlq'.
        pose proof (route_in s h1 c' l' key l Hcov2 Hk E) as [a Ha]%list_elem_of_lookup. assert (Hlc' : l ∈ lc) by (rewrite Elc; apply elem_of_app; right; apply elem_of_app; by left). apply list_elem_of_lookup in Hlc' as [b Hb2].
        pose proof (concat_lookup lss i lc b l Hlc Hb2) as E1. pose proof (concat_lookup lss j l' a l Hl' Ha) as E2. pose proof (NoDup_lookup _ _ _ _ Hd E1 E2).
        destruct (decide (i < j)%nat); [pose proof (concat_before lss i j lc b l ltac:(lia) Hlc Hb2)|pose proof (concat_before lss j i l' a l ltac:(lia) Hl' Ha)]; lia.
Qed.
End OneNode.

(** ** The links of the leaves *)

Fixpoint linked (nb : gmap Z Neighbours) (prev : Z) (ls : list Z) (next : Z) : Prop :=
  match ls with
  | [] => True
  | l :: ls => nb !! l = Some (mkNeighbours (hd next ls) prev) /\ linked nb l ls next
  end.

Lemma linked_app nb a : forall prev b next, linked nb prev (a ++ b) next <-> linked nb prev a (hd next b) /\ linked nb (default prev (last a)) b next.
Proof.
  induction a as [|l a IH]; intros prev b next; [cbn; tauto|]. cbn [app linked]. rewrite IH. replace (hd next (a ++ b)) with (hd (hd next b) a) by (by destruct a).
  replace (default prev (last (l :: a))) with (default l (last a)); [tauto|]. destruct a as [|x a _] using rev_ind; [done|]. by rewrite app_comm_cons, !last_snoc.
Qed.

Lemma linked_ext nb nb' ls : forall prev next, (forall l, l ∈ ls -> nb' !! l = nb !! l) -> linked nb prev ls next -> linked nb' prev ls next.
Proof.
  induction ls as [|l ls IH]; intros prev next He; [done|]. intros [Hl Hls]. split; [rewrite He; [done|constructor]|]. apply IH; [|done]. intros x Hx. apply He. by constructor.
Qed.

Lemma linked_links_from nb ls : forall prev next, linked nb prev ls next <-> forall i l, ls !! i = Some l ->
  nb !! l = Some (mkNeighbours (default next (ls !! S i)) (match i with O => prev | S i => default prev (ls !! i) end)).
Proof.
  induction ls as [|x ls IH]; intros prev next; [by split|]. cbn [linked]. rewrite IH. split.
  - intros [Hx Hls] [|i] l Hi; cbn in Hi |- *.
    + injection Hi as <-. rewrite Hx. by destruct ls.
    + rewrite (Hls i l Hi). destruct i as [|i]; [done|]. cbn. by destruct (ls !! i) eqn:E; [|apply lookup_ge_None in E; apply lookup_lt_Some in Hi; lia].
  - intros Hall. split; [rewrite (Hall 0%nat x eq_refl); by destruct ls|]. intros i l Hi. rewrite (Hall (S i) l Hi). cbn. destruct i as [|i]; [done|]. cbn. by destruct (ls !! i) eqn:E; [|apply lookup_ge_None in E; apply lookup_lt_Some in Hi; lia].
Qed.

Lemma linked_links nb ls : linked nb nullptr ls nullptr <-> forall i l, ls !! i = Some l -> nb !! l = Some (links_at ls i).
Proof. apply linked_links_from. Qed.

(** The last link of a list, and the first, may be set anew. *)
Lemma linked_new_next nb prev a l next next' : linked nb prev (a ++ [l]) next -> l ∉ a -> linked (<[l := mkNeighbours next' (default prev (last a))]> nb) prev (a ++ [l]) next'.
Proof.
  rewrite !linked_app. intros [Ha _] Hl. cbn [hd linked]. split; [|by rewrite lookup_insert_eq]. eapply linked_ext; [|done]. intros x Hx. rewrite lookup_insert_ne; [done|]. by intros ->.
Qed.

Lemma linked_new_prev nb prev prev' l b next : linked nb prev (l :: b) next -> l ∉ b -> linked (<[l := mkNeighbours (hd next b) prev']> nb) prev' (l :: b) next.
Proof.
  intros [_ Hb] Hl. split; [by rewrite lookup_insert_eq|]. eapply linked_ext; [|done]. intros x Hx. rewrite lookup_insert_ne; [done|]. by intros ->.
Qed.

(** ** A change of the tree *)

Section TreeChange.
Context {P : Type} (lo hi : Z) (Hlo : 0 <= lo) (Hhi : hi < u64_max).
Implicit Types (t : Alex P) (s : Store P).

(** Below the node [q], with the leaves [lq] before and [lq'] after; a key that was led to [l] is led to [rho key l]. *)
Record local_change t t' (q : Z) (lq lq' ch : list Z) (e : nat) (rho : Z -> Z -> Z) : Prop := {
  lc_root : root_node_ t' = root_node_ t;
  lc_below : rtc (child_of (store t)) (root_node_ t) q;
  lc_lq : exists h, covers lo hi (store t) h q lq;
  lc_ch x : x ∈ ch -> rtc (child_of (store t)) q x;
  lc_same x : x ∉ ch -> bases (store t') !! x = bases (store t) !! x /\ arrays (store t') !! x = arrays (store t) !! x;
  lc_dup b : bases (store t) !! q = Some b -> exists b', bases (store t') !! q = Some b' /\ duplication_factor_ b' = duplication_factor_ b;
  lc_cov h : covers lo hi (store t) h q lq -> covers lo hi (store t') (h + e) q lq';
  lc_route h key l : lo <= key <= hi -> covers lo hi (store t) h q lq -> route (store t) h q key = Some l -> route (store t') (h + e) q key = Some (rho key l);
  lc_rho key l : l ∉ lq -> rho key l = l;
  lc_levels : (levels (store t) + e <= levels (store t'))%nat
}.

Lemma local_change_tree t t' ls q lq lq' ch e rho : tree_ok lo hi t ls -> local_change t t' q lq lq' ch e rho ->
  exists pre post, ls = pre ++ lq ++ post /\ (exists h, (h <= levels (store t'))%nat /\ covers lo hi (store t') h (root_node_ t') (pre ++ lq' ++ post)) /\
    forall key l, lo <= key <= hi -> leads_to t key l -> leads_to t' key (rho key l).
Proof using Hlo Hhi.
  intros Hok [Er Hbelow Hlq Hch Hsame Hdup Hcov Hroute Hrho Hlev]. destruct (to_covers _ _ t ls Hok) as (h & Hh & Hc). apply (covers_more lo hi _ _ (levels (store t))) in Hc; [|done].
  destruct (covers_change lo hi Hlo Hhi (store t) (store t') q lq lq' ch e rho Hlq Hch Hsame Hdup Hcov Hroute Hrho _ Hbelow _ _ Hc (to_nodup _ _ _ _ Hok)) as (pre & post & -> & Hc' & Hr).
  exists pre, post. split; [done|]. rewrite Er. split; [by exists (levels (store t) + e)%nat|]. intros key l Hk R. unfold leads_to in *. rewrite Er. eapply route_more; [exact Hlev|]. by apply Hr.
Qed.

(** The leaves below a node are next to each other. *)
Lemma leaves_below t ls q h lq : tree_ok lo hi t ls -> rtc (child_of (store t)) (root_node_ t) q -> covers lo hi (store t) h q lq -> exists pre post, ls = pre ++ lq ++ post.
Proof using Hlo Hhi.
  intros Hok Hq Hc. destruct (local_change_tree t t ls q lq lq [] 0 (fun _ l => l) Hok) as (pre & post & E & _); [|by exists pre, post].
  constructor; try done.
  - by exists h.
  - intros x Hx. by apply elem_of_nil in Hx.
  - intros b Eb. by exists b.
  - intros h'. by rewrite Nat.add_0_r.
  - intros h' key l _ _. by rewrite Nat.add_0_r.
  - lia.
Qed.

(** What remains of the invariant and of the map. *)
Lemma tree_changed t t' ls ls' q lq lq' ch e rho : tree_ok lo hi t ls -> local_change t t' q lq lq' ch e rho ->
  (forall pre post, ls = pre ++ lq ++ post -> ls' = pre ++ lq' ++ post) -> NoDup ls' -> nullptr ∉ ls' ->
  (forall l, l ∈ ls' -> exists n, leaves (store t') !! l = Some n /\ node_ok n) -> linked (neighbours (store t')) nullptr ls' nullptr ->
  (forall l n k v, l ∈ ls' -> leaves (store t') !! l = Some n -> stored (slots_ n) k v ->
     exists l0 n0, l0 ∈ ls /\ leaves (store t) !! l0 = Some n0 /\ stored (slots_ n0) k v /\ rho k l0 = l) ->
  (forall l, ls !! 0%nat = Some l -> ls' !! 0%nat = Some (rho lo l)) -> top_ok t' -> lo <= hi -> tree_ok lo hi t' ls'.
Proof using Hlo Hhi.
  intros Hok Hlc Hls Hd Hnull Hleaf Hlinks Hclean Hfirst Htop Hle. destruct (local_change_tree t t' ls q lq lq' ch e rho Hok Hlc) as (pre & post & E & Hc & Hr). rewrite <-(Hls pre post E) in Hc.
  constructor; try done.
  - by apply linked_links.
  - intros l n k v Hl En Hst. destruct (Hclean l n k v Hl En Hst) as (l0 & n0 & Hl0 & En0 & Hst0 & <-). destruct (to_clean _ _ t ls Hok l0 n0 k v Hl0 En0 Hst0) as [Hk R]. split; [done|]. by apply Hr.
  - intros l R. destruct (leads_somewhere lo hi Hlo Hhi t ls lo Hok ltac:(lia)) as (i & l0 & _ & R0). pose proof (Hr lo l0 ltac:(lia) R0) as R'. unfold leads_to in R, R'. assert (l = rho lo l0) as -> by congruence.
    apply Hfirst. by apply (to_first _ _ t ls Hok).
Qed.
End TreeChange.
