(* ===== verification/AlexMerge.v ===== *)
(** * ALEX: removing empty leaves (alex/src/alex.h, merge)

    An empty leaf gives its buckets to the sibling with which it forms an aligned pair, and
    a model node whose only child is a leaf gives its buckets to that leaf.  The map of the
    tree does not change, and every key is led to where it is stored. *)

From S2P Require Import Prelude Words Floats FloatScale FloatMono AlexBase AlexBitmap AlexSearch AlexModel AlexNode AlexLookup AlexPlace AlexResize.
From S2P Require Import AlexTree AlexBuild AlexGrow AlexRoute AlexTreeMap AlexChange.
From Stdlib Require Import SpecFloat Sorted.
From stdpp Require Import gmap list relations.
Local Open Scope Z_scope.
Local Open Scope cxx_scope.

(** ** Blocks of pointers *)

Abbreviation nonneg blocks := (forall (c d : Z), (c, d) ∈ blocks -> 0 <= d).

Lemma pointers_app b1 b2 : pointers (b1 ++ b2) = pointers b1 ++ pointers b2.
Proof. unfold pointers. by rewrite fmap_app, concat_app. Qed.

Lemma nonneg_app b1 b2 : nonneg (b1 ++ b2) -> nonneg b1 /\ nonneg b2.
Proof. intros H. split; intros c d Hin; apply (H c d), elem_of_app; tauto. Qed.

Lemma aligned_app b1 b2 : nonneg b1 -> forall start, aligned start (b1 ++ b2) <-> aligned start b1 /\ aligned (start + zlen (pointers b1)) b2.
Proof.
  induction b1 as [|[c d] b1 IH]; intros Hd start; [cbn; replace (start + zlen []) with start by (unfold zlen; cbn; lia); tauto|].
  pose proof (Hd c d ltac:(constructor)) as H0. cbn [app aligned]. rewrite zlen_pointers_cons by done. rewrite IH by (intros x y Hx; apply (Hd x y); by constructor).
  replace (start + (2 ^ d + zlen (pointers b1))) with (start + 2 ^ d + zlen (pointers b1)) by lia. tauto.
Qed.

(** The block of a bucket. *)
Lemma block_at blocks : nonneg blocks -> forall j, 0 <= j < zlen (pointers blocks) ->
  exists b1 c d b2, blocks = b1 ++ (c, d) :: b2 /\ zlen (pointers b1) <= j < zlen (pointers b1) + 2 ^ d /\ rd (pointers blocks) j = Some c.
Proof.
  induction blocks as [|[c d] blocks IH]; intros Hd j Hj; [unfold zlen in Hj; cbn in Hj; lia|]. pose proof (Hd c d ltac:(constructor)) as H0. pose proof (pow2_pos d H0) as Hp.
  rewrite zlen_pointers_cons in Hj by done. rewrite pointers_cons. assert (Hz : zlen (replicate (Z.to_nat (2 ^ d)) c) = 2 ^ d) by (unfold zlen; rewrite length_replicate; lia).
  destruct (Z.lt_ge_cases j (2 ^ d)) as [Hlt|Hge].
  - exists [], c, d, blocks. split; [done|]. split; [unfold zlen; cbn; lia|]. rewrite rd_app_lt by lia. rewrite rd_replicate by lia. done.
  - destruct (IH ltac:(intros x y Hx; apply (Hd x y); by constructor) (j - 2 ^ d) ltac:(lia)) as (b1 & c' & d' & b2 & -> & Hr & E). exists ((c, d) :: b1), c', d', b2. split; [done|].
    rewrite zlen_pointers_cons by done. split; [lia|]. rewrite rd_app_ge by lia. by rewrite Hz.
Qed.

Lemma left_of_block d start j : 0 <= d -> 0 <= start -> start mod 2 ^ d = 0 -> start <= j < start + 2 ^ d -> left_of (2 ^ d) j = start.
Proof.
  intros Hd H0 Hm Hj. pose proof (pow2_pos d Hd). unfold left_of. rewrite Z.rem_mod_nonneg by lia. apply Z.mod_divide in Hm as [k ->]; [|lia].
  replace j with ((j - k * 2 ^ d) + k * 2 ^ d) at 2 by lia. rewrite Z.mod_add, Z.mod_small by lia. lia.
Qed.

(** Whether the block is the first or the second of its pair. *)
Lemma pair_side d start j : 0 <= d -> 0 <= start -> start mod 2 ^ d = 0 -> start <= j < start + 2 ^ d ->
  if Z.rem j (2 ^ d * 2) =? Z.rem j (2 ^ d) then start mod 2 ^ (d + 1) = 0 else 2 ^ d <= start /\ (start - 2 ^ d) mod 2 ^ (d + 1) = 0.
Proof.
  intros Hd H0 Hm Hj. pose proof (pow2_pos d Hd) as Hp. rewrite !Z.rem_mod_nonneg by lia. rewrite Z.pow_add_r, Z.pow_1_r by lia. apply Z.mod_divide in Hm as [k ->]; [|lia].
  set (r := j - k * 2 ^ d). assert (Hr : 0 <= r < 2 ^ d) by (unfold r; lia). assert (Ej : j = r + k * 2 ^ d) by (unfold r; lia). rewrite Ej. rewrite (Z.mod_add r k), (Z.mod_small r) by lia.
  assert (Hk : 0 <= k) by nia. destruct (Z.Even_or_Odd k) as [[i ->]|[i ->]].
  - replace (r + 2 * i * 2 ^ d) with (r + i * (2 ^ d * 2)) by lia. rewrite Z.mod_add, Z.mod_small, Z.eqb_refl by lia. replace (2 * i * 2 ^ d) with (i * (2 ^ d * 2)) by lia. apply Z.mod_mul. lia.
  - replace (r + (2 * i + 1) * 2 ^ d) with ((r + 2 ^ d) + i * (2 ^ d * 2)) by lia. rewrite Z.mod_add, Z.mod_small by lia. destruct (Z.eqb_spec (r + 2 ^ d) r); [lia|].
    split; [nia|]. replace ((2 * i + 1) * 2 ^ d - 2 ^ d) with (i * (2 ^ d * 2)) by lia. apply Z.mod_mul. lia.
Qed.

(** Filling a block with another pointer. *)
Lemma fill_block (a b : list Z) m v c : 0 <= m -> fill (zlen a) (zlen a + m) v (a ++ replicate (Z.to_nat m) c ++ b) = Some (a ++ replicate (Z.to_nat m) v ++ b).
Proof.
  intros Hm. destruct (fill_spec 0 (zlen a) (zlen a + m) v (a ++ replicate (Z.to_nat m) c ++ b)) as (l' & E & Hl & Hv); [apply zlen_nonneg|rewrite !zlen_app, zlen_replicate by lia; pose proof (zlen_nonneg b); lia|].
  rewrite E. f_equal. assert (Hlen : zlen l' = zlen a + m + zlen b) by (rewrite Hl, !zlen_app, zlen_replicate; lia). pose proof (zlen_nonneg a).
  apply list_eq_rd; [rewrite !zlen_app, zlen_replicate; lia|]. intros i Hi. rewrite (rd_at 0 l') by lia. rewrite Hv. destruct (Z.lt_ge_cases i (zlen a)) as [H1|H1]; [|destruct (Z.lt_ge_cases i (zlen a + m)) as [H2|H2]].
  - rewrite (proj2 (Z.leb_gt _ _)) by lia. cbn [andb]. unfold at_. rewrite !rd_app_lt by lia. by rewrite (rd_at 0 a i) by lia.
  - rewrite (proj2 (Z.leb_le _ _)), (proj2 (Z.ltb_lt _ _)) by lia. cbn [andb]. rewrite rd_app_ge, rd_app_lt by (rewrite ?zlen_replicate; lia). by rewrite rd_replicate by lia.
  - rewrite (proj2 (Z.leb_le _ _)), (proj2 (Z.ltb_ge _ _)) by lia. cbn [andb]. unfold at_. rewrite !rd_app_ge by (rewrite ?zlen_replicate; lia). rewrite !zlen_replicate. by rewrite (rd_at 0 b) by lia.
Qed.

(** ** The sibling *)

Section Merge.
Context {P : Type} (lo hi : Z) (Hlo : 0 <= lo) (Hhi : hi < u64_max).
Implicit Types (t : Alex P) (s : Store P).

(** The leaf that forms an aligned pair with a leaf, on its right or left, if there is one. *)
Lemma sibling_spec s n b1 leaf d b2 j : node_blocks (bases s) n (b1 ++ (leaf, d) :: b2) -> small_power (num_children_ n) -> 2 ^ d < num_children_ n ->
  zlen (pointers b1) <= j < zlen (pointers b1) + 2 ^ d ->
  sibling_leaf s n leaf j (2 ^ d) = Some None \/
  (exists adj b2', sibling_leaf s n leaf j (2 ^ d) = Some (Some (adj, true)) /\ b2 = (adj, d) :: b2' /\ is_leaf s adj = Some true /\ zlen (pointers b1) mod 2 ^ (d + 1) = 0) \/
  (exists adj b1', sibling_leaf s n leaf j (2 ^ d) = Some (Some (adj, false)) /\ b1 = b1' ++ [(adj, d)] /\ is_leaf s adj = Some true /\ zlen (pointers b1') mod 2 ^ (d + 1) = 0).
Proof.
  intros Hb (k & Hk & Ek) Hlt Hj. pose proof (factor_of_blocks _ _ _ Hb) as Hnn. pose proof (nonneg_app _ _ Hnn) as [Hn1 Hn2]. pose proof (Hn2 leaf d ltac:(constructor)) as Hd. pose proof (pow2_pos d Hd) as Hp.
  pose proof (nb_aligned _ _ _ Hb) as Ha. apply aligned_app in Ha as [Ha1 Ha2]; [|done]. cbn [aligned] in Ha2. rewrite Z.add_0_l in Ha2. destruct Ha2 as [Hm _]. pose proof (zlen_nonneg (pointers b1)) as Hz1.
  assert (Hcount : 2 ^ k = zlen (pointers b1) + (2 ^ d + zlen (pointers b2))) by (rewrite <-Ek, (nb_count _ _ _ Hb), (nb_children _ _ _ Hb), pointers_app, zlen_app, zlen_pointers_cons; done).
  assert (Hfac : forall c e, (c, e) ∈ b1 ++ (leaf, d) :: b2 -> exists x, bases s !! c = Some x /\ duplication_factor_ x = e) by (intros c e Hin; by destruct (nb_factors _ _ _ Hb c e Hin) as [_ ?]).
  destruct (Hfac leaf d) as (xl & Exl & Edl); [apply elem_of_app; right; constructor|].
  unfold sibling_leaf. rewrite (left_of_block d _ j Hd Hz1 Hm Hj). rewrite (nb_children _ _ _ Hb), pointers_app. pose proof (pair_side d _ j Hd Hz1 Hm Hj) as Hside. destruct (Z.rem j (2 ^ d * 2) =? Z.rem j (2 ^ d)).
  - assert (Hb2 : b2 <> []). { intros ->. change (zlen (pointers [])) with 0 in Hcount. rewrite Ek in Hlt. assert (d < k) by (apply (Z.pow_lt_mono_r_iff 2); lia).
assert (E : 2 ^ k = 2 ^ d * (2 * 2 ^ (k - d - 1))) by (rewrite <-(Z.pow_succ_r 2) by lia; rewrite <-Z.pow_add_r by lia; f_equal; lia).
      rewrite Z.pow_add_r, Z.pow_1_r in Hside by lia. apply Z.mod_divide in Hside as [q Eq]; [|lia]. set (M := 2 ^ (k - d - 1)) in *. assert (2 ^ d * (2 * M) = 2 ^ d * (2 * q + 1)) by lia. assert (2 * M = 2 * q + 1) by (eapply Z.mul_reg_l; [|done]; lia). lia. }
    destruct b2 as [|[c e] b2]; [done|]. destruct (Hfac c e) as (xc & Exc & Edc); [apply elem_of_app; right; do 2 constructor|]. pose proof (Hn2 c e ltac:(do 2 constructor)) as He. pose proof (pow2_pos e He).
    rewrite rd_app_ge by lia. rewrite pointers_cons, rd_app_ge by (rewrite zlen_replicate; lia). rewrite zlen_replicate, pointers_cons, rd_app_lt by (rewrite zlen_replicate; lia). rewrite rd_replicate by lia.
    cbn [mbind option_bind]. rewrite Exc, Exl. cbn [mbind option_bind]. destruct (is_leaf_ xc && (duplication_factor_ xl =? duplication_factor_ xc)) eqn:E; [|by left]. apply andb_prop in E as [E1 E2].
    right. left. exists c, b2. split; [done|]. split; [f_equal; f_equal; lia|]. split; [|done]. unfold is_leaf; rewrite Exc; cbn; by rewrite E1.
  - destruct Hside as [Hge Hside]. destruct b1 as [|[c e] b1 _] using rev_ind; [change (zlen (pointers [])) with 0 in Hge; lia|].
    destruct (Hfac c e) as (xc & Exc & Edc); [apply elem_of_app; left; apply elem_of_app; right; constructor|]. destruct (nonneg_app _ _ Hn1) as [Hn0 Hnc]. pose proof (Hnc c e ltac:(constructor)) as He. pose proof (pow2_pos e He).
    assert (Ez : zlen (pointers (b1 ++ [(c, e)])) = zlen (pointers b1) + 2 ^ e) by (rewrite pointers_app, zlen_app, zlen_pointers_cons by done; change (zlen (pointers [])) with 0; lia). pose proof (zlen_nonneg (pointers b1)).
    rewrite rd_app_lt by lia. rewrite Ez, pointers_app, rd_app_ge by lia. rewrite pointers_cons, rd_app_lt by (rewrite zlen_replicate; lia). rewrite rd_replicate by lia.
    cbn [mbind option_bind]. rewrite Exc, Exl. cbn [mbind option_bind]. destruct (is_leaf_ xc && (duplication_factor_ xl =? duplication_factor_ xc)) eqn:E; [|by left]. apply andb_prop in E as [E1 E2].
    right. right. exists c, b1. split; [done|]. assert (e = d) as -> by lia. split; [done|]. split; [unfold is_leaf; rewrite Exc; cbn; by rewrite E1|]. rewrite Ez in Hside. by replace (zlen (pointers b1) + 2 ^ d - 2 ^ d) with (zlen (pointers b1)) in Hside by lia.
Qed.

(** ** Two leaves become one *)

Definition without (gone : Z) (ls : list Z) : list Z := filter (fun l => l <> gone) ls.

Lemma without_id gone ls : gone ∉ ls -> without gone ls = ls.
Proof.
  intros H. unfold without. induction ls as [|l ls IH]; [done|]. rewrite filter_cons_True by (intros ->; apply H; constructor). f_equal. apply IH. intros Hin. apply H. by constructor.
Qed.

Lemma without_app gone a b : without gone (a ++ b) = without gone a ++ without gone b.
Proof. apply filter_app. Qed.

Lemma without_self gone ls : without gone (gone :: ls) = without gone ls.
Proof. unfold without. by rewrite filter_cons_False by tauto. Qed.

Definition renamed (gone keep l : Z) : Z := if decide (l = gone) then keep else l.

Section TwoLeaves.
Context (s s' : Store P) (q : Z) (n : AlexModelNode) (b1 : list (Z * Z)) (x y d : Z) (b2 : list (Z * Z)) (gone keep : Z) (bk : AlexNodeBase).
Context (Hq : is_leaf s q = Some false) (Hn : model_node s q = Some n) (Hb : node_blocks (bases s) n (b1 ++ (x, d) :: (y, d) :: b2)).
Context (Hx : is_leaf s x = Some true) (Hy : is_leaf s y = Some true) (Hpair : zlen (pointers b1) mod 2 ^ (d + 1) = 0).
Context (Hwho : (gone = x /\ keep = y) \/ (gone = y /\ keep = x)).
Context (Hsame : forall c, c <> q -> c <> x -> c <> y -> bases s' !! c = bases s !! c /\ arrays s' !! c = arrays s !! c).
Context (Hqb : bases s' !! q = bases s !! q) (Hqa : arrays s' !! q = Some (num_children_ n, pointers (b1 ++ (keep, d + 1) :: b2))).
Context (Hk : bases s' !! keep = Some bk) (Hkl : is_leaf_ bk = true) (Hkd : duplication_factor_ bk = d + 1).

Let nn : nonneg (b1 ++ (x, d) :: (y, d) :: b2).
Proof. by eapply factor_of_blocks. Qed.

Let d_nonneg : 0 <= d.
Proof. apply (nn x d), elem_of_app. right. constructor. Qed.

Let names_distinct : x <> y /\ (x ∉ b1.*1) /\ (x ∉ b2.*1) /\ (y ∉ b1.*1) /\ (y ∉ b2.*1) /\ (NoDup b1.*1) /\ (NoDup b2.*1) /\ (forall z, z ∈ b1.*1 -> z ∉ b2.*1).
Proof.
  pose proof (nb_distinct _ _ _ Hb) as Hd. rewrite fmap_app in Hd. cbn [fmap list_fmap fst] in Hd. apply NoDup_app in Hd as (H1 & H2 & H3). apply NoDup_cons in H3 as [H3 H4]. apply NoDup_cons in H4 as [H4 H5].
  rewrite elem_of_cons in H3. split; [intros ->; tauto|]. split; [intros H; apply (H2 x H); constructor|]. split; [tauto|]. split; [intros H; apply (H2 y H); do 2 constructor|]. split; [done|]. split; [done|]. split; [done|].
  intros z Hz Hz'. apply (H2 z Hz). by do 2 constructor.
Qed.

Definition joined_node : AlexModelNode := mkModelNode (base n) (num_children_ n) (pointers (b1 ++ (keep, d + 1) :: b2)).

Let old_children : children_ n = pointers b1 ++ replicate (Z.to_nat (2 ^ d)) x ++ replicate (Z.to_nat (2 ^ d)) y ++ pointers b2.
Proof. by rewrite (nb_children _ _ _ Hb), pointers_app, !pointers_cons. Qed.

Let new_children_ : pointers (b1 ++ (keep, d + 1) :: b2) = pointers b1 ++ replicate (Z.to_nat (2 ^ d)) keep ++ replicate (Z.to_nat (2 ^ d)) keep ++ pointers b2.
Proof.
  rewrite pointers_app, pointers_cons. f_equal. pose proof (pow2_pos d d_nonneg). rewrite Z.pow_add_r, Z.pow_1_r by lia. replace (Z.to_nat (2 ^ d * 2)) with (Z.to_nat (2 ^ d) + Z.to_nat (2 ^ d))%nat by lia.
  by rewrite replicate_add, <-app_assoc.
Qed.

(** The new pointer of a bucket. *)
Lemma joined_children : pointers (b1 ++ (keep, d + 1) :: b2) = renamed gone keep <$> children_ n.
Proof.
  destruct names_distinct as (Hxy & Hx1 & Hx2 & Hy1 & Hy2 & _). rewrite new_children_, old_children, !fmap_app, !fmap_replicate.
  assert (Hid : forall b, nonneg b -> gone ∉ b.*1 -> renamed gone keep <$> pointers b = pointers b).
  { intros b Hnb Hg. rewrite <-(list_fmap_id (pointers b)) at 2. apply list_fmap_ext. intros i c Hc. unfold renamed. rewrite decide_False; [done|]. intros ->. apply Hg. apply list_elem_of_lookup_2 in Hc. apply elem_of_pointers in Hc as [e He]; [|done].
    apply list_elem_of_fmap. by exists (gone, e). }
  destruct (nonneg_app _ _ nn) as [Hn1 Hn2]. assert (Hn3 : nonneg b2) by (intros c e Hin; apply (Hn2 c e); by do 2 constructor).
  rewrite !Hid; [|done|destruct Hwho as [[-> _]|[-> _]]; done|done|destruct Hwho as [[-> _]|[-> _]]; done].
  destruct Hwho as [[-> ->]|[-> ->]]; unfold renamed; repeat case_decide; done || congruence.
Qed.

Lemma node_blocks_join : small_power (num_children_ n) -> node_blocks (bases s') joined_node (b1 ++ (keep, d + 1) :: b2).
Proof.
  intros (k & Hk2 & Ek). destruct names_distinct as (Hxy & Hx1 & Hx2 & Hy1 & Hy2 & Hd1 & Hd2 & Hd12). destruct (nonneg_app _ _ nn) as [Hn1 Hn2]. assert (Hn3 : nonneg b2) by (intros c e Hin; apply (Hn2 c e); by do 2 constructor).
  assert (Hcount : num_children_ n = zlen (pointers (b1 ++ (keep, d + 1) :: b2))) by (rewrite (nb_count _ _ _ Hb), joined_children; by rewrite zlen_fmap).
  constructor; cbn [joined_node children_ num_children_ base].
  - done.
  - exact Hcount.
  - intros c e Hin. apply elem_of_app in Hin as [Hin|[[= -> ->]|Hin]%elem_of_cons].
    + destruct (nb_factors _ _ _ Hb c e) as [He (z & Ez & Edz)]; [apply elem_of_app; by left|]. split; [done|]. assert (Hc : c ∈ b1.*1) by (apply list_elem_of_fmap; by exists (c, e)).
      destruct (decide (c = q)) as [->|Hcq]; [rewrite Hqb; by exists z|]. destruct (Hsame c Hcq) as [-> _]; [by intros ->|by intros ->|by exists z].
    + split; [|by exists bk]. split; [lia|]. rewrite Ek, pointers_app, zlen_app, zlen_pointers_cons in Hcount by lia. pose proof (zlen_nonneg (pointers b1)). pose proof (zlen_nonneg (pointers b2)).
      assert (d + 1 <= k) by (apply (Z.pow_le_mono_r_iff 2); lia). lia.
    + destruct (nb_factors _ _ _ Hb c e) as [He (z & Ez & Edz)]; [apply elem_of_app; right; by do 2 constructor|]. split; [done|]. assert (Hc : c ∈ b2.*1) by (apply list_elem_of_fmap; by exists (c, e)).
      destruct (decide (c = q)) as [->|Hcq]; [rewrite Hqb; by exists z|]. destruct (Hsame c Hcq) as [-> _]; [by intros ->|by intros ->|by exists z].
  - rewrite fmap_app. cbn [fmap list_fmap fst]. apply NoDup_app. split; [done|]. assert (Hkn : (keep ∉ b1.*1) /\ (keep ∉ b2.*1)) by (destruct Hwho as [[_ ->]|[_ ->]]; done). destruct Hkn as [Hk1 Hk3]. split; [|by constructor].
    intros z Hz [->|Hz2]%elem_of_cons; [done|]. by apply (Hd12 z).
  - pose proof (nb_aligned _ _ _ Hb) as Ha. apply aligned_app in Ha as [Ha1 Ha2]; [|done]. apply aligned_app; [done|]. split; [done|]. cbn [aligned] in Ha2 |- *. destruct Ha2 as (_ & _ & Ha2). split; [done|].
    rewrite (Z.pow_add_r 2 d 1), Z.pow_1_r by lia. by replace (0 + zlen (pointers b1) + 2 ^ d * 2) with (0 + zlen (pointers b1) + 2 ^ d + 2 ^ d) by lia.
Qed.

Lemma children_below c e : (c, e) ∈ b1 ++ (x, d) :: (y, d) :: b2 -> child_of s q c.
Proof. by eapply child_of_block. Qed.

(** Nothing changes below the other children. *)
Lemma beside_pair h lss c e lc : Forall2 (fun b l => covers lo hi s h b.1 l) (b1 ++ (x, d) :: (y, d) :: b2) lss -> NoDup (concat lss) -> covers lo hi s (S h) q (concat lss) ->
  forall i, (b1 ++ (x, d) :: (y, d) :: b2) !! i = Some (c, e) -> i <> length b1 -> i <> S (length b1) -> lss !! i = Some lc ->
  covers lo hi s' h c lc /\ (forall key, route s' h c key = route s h c key) /\ (x ∉ lc) /\ (y ∉ lc).
Proof.
  intros Hall Hd Hc i Hi H1 H2 Hlc. pose proof (Forall2_lookup_lr _ _ _ _ _ _ Hall Hi Hlc) as Hcc. cbn [fst] in Hcc.
  assert (Hix : (b1 ++ (x, d) :: (y, d) :: b2) !! length b1 = Some (x, d)) by (by apply list_lookup_middle).
  assert (Hiy : (b1 ++ (x, d) :: (y, d) :: b2) !! S (length b1) = Some (y, d)) by (rewrite (app_assoc b1 [(x, d)] ((y, d) :: b2) : b1 ++ (x, d) :: (y, d) :: b2 = _); apply list_lookup_middle; rewrite length_app; cbn; lia).
  assert (Hno : forall z, rtc (child_of s) c z -> z <> q /\ z <> x /\ z <> y).
  { intros z Hz. split; [|split].
    - intros ->. apply (covers_acyclic lo hi s _ _ _ Hc). eapply tc_rtc_r; [|exact Hz]. apply tc_once, (children_below c e). by eapply list_elem_of_lookup_2.
    - intros ->. by eapply (blocks_disjoint lo hi s h _ lss i (length b1) c e x d x Hall Hd); [| | |exact Hz|reflexivity].
    - intros ->. by eapply (blocks_disjoint lo hi s h _ lss i (S (length b1)) c e y d y Hall Hd); [| | |exact Hz|reflexivity]. }
  destruct (covers_ext lo hi s s' h c lc) as [Hc' Hr]; [|done|].
  { intros z Hz. destruct (Hno z Hz) as (? & ? & ?). by apply Hsame. }
  split; [done|]. split; [done|]. destruct (Forall2_lookup_l _ _ _ _ _ Hall Hix) as (lx & Hlx & Hcx). destruct (Forall2_lookup_l _ _ _ _ _ Hall Hiy) as (ly & Hly & Hcy). cbn [fst] in *.
  pose proof (covers_leaf_inv _ _ _ _ _ _ Hcx Hx) as ->. pose proof (covers_leaf_inv _ _ _ _ _ _ Hcy Hy) as ->.
  assert (Hgen : forall j z, j <> i -> lss !! j = Some [z] -> z ∉ lc).
  { intros j z Hij Hj [a Ha]%list_elem_of_lookup. pose proof (concat_lookup lss j [z] 0%nat z Hj eq_refl) as E1. pose proof (concat_lookup lss i lc a z Hlc Ha) as E2. pose proof (NoDup_lookup _ _ _ _ Hd E1 E2).
    destruct (decide (j < i)%nat); [pose proof (concat_before lss j i [z] 0%nat z ltac:(lia) Hj eq_refl)|pose proof (concat_before lss i j lc a z ltac:(lia) Hlc Ha)]; lia. }
  split; [by apply (Hgen (length b1))|by apply (Hgen (S (length b1)))].
Qed.

Lemma join_node : model_node s' q = Some joined_node /\ is_leaf s' q = Some false /\ is_leaf s' keep = Some true.
Proof.
  unfold model_node, is_leaf in *. rewrite Hqb, Hqa, Hk. destruct (bases s !! q) as [b|] eqn:E; [|done]. cbn [mbind option_bind] in *. destruct (arrays s !! q) as [[num ch]|]; [|done]. cbn [mbind option_bind] in *.
  injection Hn as Hn. unfold joined_node. rewrite <-Hn. cbn. split; [done|]. split; [done|]. by rewrite Hkl.
Qed.

(** Blocks below which nothing has changed. *)
Definition others (h : nat) (b : list (Z * Z)) (lss : list (list Z)) : Prop := forall i c e lc, b !! i = Some (c, e) -> lss !! i = Some lc ->
  covers lo hi s' h c lc /\ (forall key, route s' h c key = route s h c key) /\ (x ∉ lc) /\ (y ∉ lc).

Lemma covers_join h lq : covers lo hi s h q lq -> NoDup lq -> covers lo hi s' h q (without gone lq) /\
  forall key l, lo <= key <= hi -> route s h q key = Some l -> route s' h q key = Some (renamed gone keep l).
Proof using All.
  intros Hc Hd. pose proof Hc as Hc0. destruct (covers_model_inv _ _ _ _ _ _ Hc Hq) as (h1 & -> & n' & blocks & lss & En & Hb' & Hm & Hne & Hp & Hall & ->). rewrite Hn in En. injection En as <-.
  assert (blocks = b1 ++ (x, d) :: (y, d) :: b2) as ->. { apply (blocks_unique (bases s)); [apply (nb_factors _ _ _ Hb')|apply (nb_factors _ _ _ Hb)|]. by rewrite <-(nb_children _ _ _ Hb), <-(nb_children _ _ _ Hb'). }
  destruct join_node as (En' & El' & Elk). destruct names_distinct as (Hxy & _). pose proof (beside_pair h1 lss) as Hbeside.
  apply Forall2_app_inv_l in Hall as (l1 & l23 & Hall1 & Hall23 & ->). apply Forall2_cons_inv_l in Hall23 as (lx & l3 & Hcx & Hall3 & ->). apply Forall2_cons_inv_l in Hall3 as (ly & l2 & Hcy & Hall2 & ->). cbn [fst] in Hcx, Hcy.
  pose proof (covers_leaf_inv _ _ _ _ _ _ Hcx Hx) as ->. pose proof (covers_leaf_inv _ _ _ _ _ _ Hcy Hy) as ->.
  assert (Hall : Forall2 (fun b l => covers lo hi s h1 b.1 l) (b1 ++ (x, d) :: (y, d) :: b2) (l1 ++ [x] :: [y] :: l2)) by (apply Forall2_app; [done|]; by repeat constructor).
  assert (Hlen1 : length b1 = length l1) by (by eapply Forall2_length).
  assert (Hs1 : others h1 b1 l1).
  { intros i c e lc Hi Hl. pose proof (lookup_lt_Some _ _ _ Hi). eapply (Hbeside c e lc Hall Hd Hc0 i); [by apply lookup_app_l_Some|lia|lia|by apply lookup_app_l_Some]. }
  assert (Hs2 : others h1 b2 l2).
  { intros i c e lc Hi Hl. eapply (Hbeside c e lc Hall Hd Hc0 (length b1 + S (S i))%nat); [|lia|lia|]; [|rewrite Hlen1]; rewrite lookup_app_r by lia; by replace (_ + S (S i) - _)%nat with (S (S i)) by lia. }
  assert (Hclean : forall b l, length b = length l -> others h1 b l -> without gone (concat l) = concat l).
  { intros b l Hlen Hbl. apply without_id. intros (lc & Hin & [i Hi]%list_elem_of_lookup)%elem_of_concat. destruct (lookup_lt_is_Some_2 b i) as [[c e] Hb0]; [rewrite Hlen; by eapply lookup_lt_Some|].
    destruct (Hbl i c e lc Hb0 Hi) as (_ & _ & ? & ?). destruct Hwho as [[-> _]|[-> _]]; done. }
  assert (Hlq : without gone (concat (l1 ++ [x] :: [y] :: l2)) = concat (l1 ++ [keep] :: l2)).
  { rewrite !concat_app, without_app. cbn [concat app]. rewrite (Hclean b1 l1 Hlen1 Hs1). f_equal. destruct Hwho as [[-> ->]|[-> ->]].
    - rewrite without_self. unfold without. rewrite filter_cons_True by done. f_equal. apply (Hclean b2 l2); [by eapply Forall2_length|done].
    - unfold without. rewrite filter_cons_True by done. f_equal. rewrite filter_cons_False by tauto. apply (Hclean b2 l2); [by eapply Forall2_length|done]. }
  split.
  - rewrite Hlq. cbn [covers]. rewrite El'. exists joined_node, (b1 ++ (keep, d + 1) :: b2), (l1 ++ [keep] :: l2). split; [done|]. split; [by apply node_blocks_join|]. split; [done|]. split; [by destruct b1|]. split; [done|]. split; [|done].
    apply Forall2_app; [|constructor].
    + apply Forall2_same_length_lookup. split; [done|]. intros i [c e] lc Hi Hl. by apply (Hs1 i c e lc).
    + cbn [fst]. destruct h1; cbn [covers]; by rewrite Elk.
    + apply Forall2_same_length_lookup. split; [by eapply Forall2_length|]. intros i [c e] lc Hi Hl. by apply (Hs2 i c e lc).
  - intros key l Hk2 E. cbn [route] in E |- *. rewrite Hq in E. rewrite El'. cbn [mbind option_bind] in E |- *. rewrite Hn in E. rewrite En'. cbn [mbind option_bind] in E |- *. unfold get_child_node in E |- *.
    cbn [joined_node base num_children_ children_]. rewrite joined_children. set (j := Z.min _ _) in *. destruct (rd (children_ n) j) as [c|] eqn:Ec; [|done]. cbn [mbind option_bind] in E.
    assert (Ec' : rd (renamed gone keep <$> children_ n) j = Some (renamed gone keep c)). { unfold rd in *. destruct (0 <=? j); [|done]. by rewrite list_lookup_fmap, Ec. }
    rewrite Ec'. cbn [mbind option_bind]. assert (Hleafk : route s' h1 keep key = Some keep) by (destruct h1; cbn [route]; by rewrite Elk).
    assert (Hcx2 : route s h1 x key = Some x) by (destruct h1; cbn [route]; by rewrite Hx). assert (Hcy2 : route s h1 y key = Some y) by (destruct h1; cbn [route]; by rewrite Hy).
    assert (Hother : forall i b lb lc e, b !! i = Some (c, e) -> lb !! i = Some lc -> covers lo hi s h1 c lc -> others h1 b lb ->
      c <> x -> c <> y -> route s' h1 (renamed gone keep c) key = Some (renamed gone keep l)).
    { intros i b lb lc e Hi Hlc Hcc Hbl Hcx0 Hcy0. destruct (Hbl i c e lc Hi Hlc) as (_ & Hr & Hxl & Hyl). pose proof (route_in lo hi Hlo Hhi s h1 c lc key l Hcc Hk2 E). unfold renamed. rewrite !decide_False; [by rewrite Hr|..]; destruct Hwho as [[-> _]|[-> _]]; congruence. }
    assert (Hcin : c ∈ pointers (b1 ++ (x, d) :: (y, d) :: b2)). { rewrite <-(nb_children _ _ _ Hb). unfold rd in Ec. destruct (0 <=? j); [|done]. by eapply list_elem_of_lookup_2. }
    apply elem_of_pointers in Hcin as [e Hcin]; [|exact nn]. destruct (decide (c = x)) as [->|Hcx0]; [|destruct (decide (c = y)) as [->|Hcy0]].
    + assert (l = x) as -> by congruence. destruct Hwho as [[-> ->]|[-> ->]]; unfold renamed; repeat case_decide; congruence.
    + assert (l = y) as -> by congruence. destruct Hwho as [[-> ->]|[-> ->]]; unfold renamed; repeat case_decide; congruence.
    + apply elem_of_app in Hcin as [[i Hi]%list_elem_of_lookup|Hcin].
      * destruct (Forall2_lookup_l _ _ _ _ _ Hall1 Hi) as (lc & Hlc & Hcc). by eapply (Hother i b1 l1).
      * apply elem_of_cons in Hcin as [[= -> _]|Hcin]; [done|]. apply elem_of_cons in Hcin as [[= -> _]|[i Hi]%list_elem_of_lookup]; [done|].
        destruct (Forall2_lookup_l _ _ _ _ _ Hall2 Hi) as (lc & Hlc & Hcc). by eapply (Hother i b2 l2).
Qed.
End TwoLeaves.
(** ** Links *)

(** [x] is unlinked in front of [y]. *)
Lemma unlink_before nb a x y c : linked nb nullptr (a ++ x :: y :: c) nullptr -> NoDup (a ++ x :: y :: c) -> nullptr ∉ a ++ x :: y :: c ->
  exists lx ly, nb !! x = Some lx /\ nb !! y = Some ly /\ prev_leaf_ lx = default nullptr (last a) /\
  let nb1 := <[y := mkNeighbours (next_leaf_ ly) (prev_leaf_ lx)]> nb in
  if prev_leaf_ lx =? nullptr then linked (delete x nb1) nullptr (a ++ y :: c) nullptr
  else exists lp, nb1 !! prev_leaf_ lx = Some lp /\ linked (delete x (<[prev_leaf_ lx := mkNeighbours y (prev_leaf_ lp)]> nb1)) nullptr (a ++ y :: c) nullptr.
Proof.
  intros Hl Hd Hnull. apply NoDup_app in Hd as (Ha & Hac & Hd). apply NoDup_cons in Hd as [Hx Hd]. apply NoDup_cons in Hd as [Hy Hc]. rewrite elem_of_cons in Hx.
  apply linked_app in Hl as [Hla (Hlx & Hly & Hlc)]. cbn [hd] in *. exists (mkNeighbours y (default nullptr (last a))), (mkNeighbours (hd nullptr c) x). split; [done|]. split; [done|]. split; [done|]. cbn [prev_leaf_ next_leaf_].
  set (nb1 := <[y := _]> nb). assert (Hyc : linked nb1 (default nullptr (last a)) (y :: c) nullptr) by (apply (linked_new_prev nb x); [by split|done]).
  assert (Hdel : forall nb' prev b, x ∉ b -> linked nb' prev b nullptr -> linked (delete x nb') prev b nullptr). { intros nb' prev b Hb. apply linked_ext. intros l Hin. apply lookup_delete_ne. by intros ->. }
  assert (Hxa : x ∉ a ++ y :: c). { rewrite elem_of_app, elem_of_cons. intros [H|H]; [|tauto]. apply (Hac x H). constructor. }
  destruct a as [|p a _] using rev_ind.
  - cbn [last default app]. change (nullptr =? nullptr) with true. cbv iota. by apply Hdel.
  - rewrite last_snoc in *. cbn [default from_option id] in *. assert (Hp : p <> nullptr) by (intros ->; apply Hnull; rewrite !elem_of_app; left; right; constructor). rewrite (proj2 (Z.eqb_neq _ _) Hp).
    assert (Hpy : p <> y /\ p ∉ y :: c). { split; [intros ->; apply (Hac y); [apply elem_of_app; right; constructor|do 2 constructor]|]. intros H. apply (Hac p); [apply elem_of_app; right; constructor|]. by constructor. }
    assert (Hap : p ∉ a) by (apply NoDup_app in Ha as (_ & Ha & _); intros H; apply (Ha p H); constructor).
    pose proof Hla as Hla0. apply linked_app in Hla0 as [_ [Hlp _]]. cbn [hd] in Hlp. exists (mkNeighbours x (default nullptr (last a))). split; [unfold nb1; rewrite lookup_insert_ne by (intros <-; by destruct Hpy); done|].
    cbn [prev_leaf_]. apply Hdel; [done|]. apply linked_app. rewrite last_snoc. cbn [hd default from_option id]. split.
    + apply (linked_new_next _ _ _ _ x); [|done]. eapply linked_ext; [|exact Hla]. intros l Hin. unfold nb1. apply lookup_insert_ne. intros <-. apply (Hac y Hin). do 2 constructor.
    + eapply linked_ext; [|exact Hyc]. intros l Hin. apply lookup_insert_ne. intros <-. by destruct Hpy as [_ ?].
Qed.

(** [y] is unlinked after [x]. *)
Lemma unlink_after nb a x y c : linked nb nullptr (a ++ x :: y :: c) nullptr -> NoDup (a ++ x :: y :: c) -> nullptr ∉ a ++ x :: y :: c ->
  exists lx ly, nb !! x = Some lx /\ nb !! y = Some ly /\ next_leaf_ ly = hd nullptr c /\
  let nb1 := <[x := mkNeighbours (next_leaf_ ly) (prev_leaf_ lx)]> nb in
  if next_leaf_ ly =? nullptr then linked (delete y nb1) nullptr (a ++ x :: c) nullptr
  else exists lr, nb1 !! next_leaf_ ly = Some lr /\ linked (delete y (<[next_leaf_ ly := mkNeighbours (next_leaf_ lr) x]> nb1)) nullptr (a ++ x :: c) nullptr.
Proof.
  intros Hl Hd Hnull. apply NoDup_app in Hd as (Ha & Hac & Hd). apply NoDup_cons in Hd as [Hx Hd]. apply NoDup_cons in Hd as [Hy Hc]. rewrite elem_of_cons in Hx.
  apply linked_app in Hl as [Hla (Hlx & Hly & Hlc)]. cbn [hd] in *. exists (mkNeighbours y (default nullptr (last a))), (mkNeighbours (hd nullptr c) x). split; [done|]. split; [done|]. split; [done|]. cbn [prev_leaf_ next_leaf_].
  set (nb1 := <[x := _]> nb).
  assert (Hdel : forall nb' prev b, y ∉ b -> linked nb' prev b nullptr -> linked (delete y nb') prev b nullptr). { intros nb' prev b Hb. apply linked_ext. intros l Hin. apply lookup_delete_ne. by intros ->. }
  assert (Hya : y ∉ a ++ x :: c). { rewrite elem_of_app, elem_of_cons. intros [H|[H|H]]; [|subst; tauto|tauto]. apply (Hac y H). do 2 constructor. }
  assert (Hxa : x ∉ a) by (intros H; apply (Hac x H); constructor).
  assert (Hax : forall nb', (forall l, l ∈ a -> nb' !! l = nb !! l) -> nb' !! x = Some (mkNeighbours (hd nullptr c) (default nullptr (last a))) -> linked nb' nullptr a x /\ nb' !! x = Some (mkNeighbours (hd nullptr c) (default nullptr (last a)))).
  { intros nb' He Ex. split; [|done]. by eapply linked_ext. }
  destruct c as [|r c]; cbn [hd] in *.
  - change (nullptr =? nullptr) with true. cbv iota. apply Hdel; [done|]. apply linked_app. cbn [hd linked]. destruct (Hax nb1) as [H1 H2]; [intros l Hin; apply lookup_insert_ne; by intros <-|apply lookup_insert_eq|]. done.
  - assert (Hr : r <> nullptr) by (intros ->; apply Hnull; apply elem_of_app; right; do 3 constructor). rewrite (proj2 (Z.eqb_neq _ _) Hr). rewrite !elem_of_cons in Hx.
    destruct Hlc as [Hlr Hlc]. apply NoDup_cons in Hc as [Hrc Hc]. exists (mkNeighbours (hd nullptr c) y). split; [unfold nb1; rewrite lookup_insert_ne by (intros <-; tauto); done|].
    cbn [next_leaf_]. apply Hdel; [done|]. apply linked_app. cbn [hd]. set (nb2 := <[r := _]> nb1). destruct (Hax nb2) as [H1 H2].
    + intros l Hin. unfold nb2, nb1. rewrite !lookup_insert_ne; [done|by intros <-|]. intros <-. apply (Hac r Hin). do 3 constructor.
    + unfold nb2, nb1. rewrite lookup_insert_ne by (intros <-; tauto). by rewrite lookup_insert_eq.
    + split; [done|]. split; [done|]. unfold nb2. split; [by rewrite lookup_insert_eq|]. eapply linked_ext; [|exact Hlc]. intros l Hin. unfold nb1. rewrite !lookup_insert_ne; [done|intros <-; tauto|by intros <-].
Qed.
(** ** One sibling takes the buckets of the other *)

Lemma without_tree t t' ls gone : (forall l, l <> gone -> leaves (store t') !! l = leaves (store t) !! l) -> leaf_pairs (store t) gone = [] ->
  tree_pairs t' (without gone ls) = tree_pairs t ls.
Proof.
  intros Hsame Hnil. unfold tree_pairs. induction ls as [|l ls IH]; [done|]. destruct (decide (l = gone)) as [->|Hne].
  - rewrite without_self. cbn [fmap list_fmap concat]. by rewrite Hnil.
  - unfold without. rewrite filter_cons_True by done. fold (without gone ls). cbn [fmap list_fmap concat]. rewrite IH. f_equal. unfold leaf_pairs. by rewrite Hsame.
Qed.

Lemma empty_leaf (n : AlexDataNode P) : node_ok n -> num_keys_ (slots_ n) = 0 -> contents (slots_ n) = [].
Proof. intros Hn H0. pose proof (contents_length (slots_ n) (nk_slots n Hn)) as Hl. rewrite H0 in Hl. unfold zlen in Hl. destruct (contents _); [done|cbn in Hl; lia]. Qed.

(** The superroot is not a node of the tree. *)
Lemma top_outside t ls x : tree_ok lo hi t ls -> rtc (child_of (store t)) (root_node_ t) x -> x <> superroot_ t.
Proof.
  intros Hok Hx ->. destruct (to_covers _ _ t ls Hok) as (h & _ & Hc). destruct (covers_below lo hi _ _ _ Hx _ _ Hc) as (h' & lx & _ & Hc' & _). destruct (to_top _ _ t ls Hok) as ((b & Eb & Elb) & Ea & _).
  apply (covers_acyclic lo hi _ _ _ _ Hc'). eapply tc_rtc_l; [reflexivity|]. eapply tc_rtc_r; [|exact Hx]. apply tc_once. split; [unfold is_leaf; rewrite Eb; cbn; by rewrite Elb|].
  exists (mkModelNode b 1 [root_node_ t]). split; [unfold model_node; by rewrite Eb, Ea|]. constructor.
Qed.

(** A leaf of a node, with the leaves around it. *)
Lemma pair_adjacent s q n b1 x y d b2 h lq : is_leaf s q = Some false -> model_node s q = Some n -> node_blocks (bases s) n (b1 ++ (x, d) :: (y, d) :: b2) ->
  is_leaf s x = Some true -> is_leaf s y = Some true -> covers lo hi s h q lq -> exists a c, lq = a ++ x :: y :: c.
Proof.
  intros Hq Hn Hb Hx Hy Hc. destruct (covers_model_inv _ _ _ _ _ _ Hc Hq) as (h1 & -> & n' & blocks & lss & En & Hb' & _ & _ & _ & Hall & ->). rewrite Hn in En. injection En as <-.
  assert (blocks = b1 ++ (x, d) :: (y, d) :: b2) as ->. { apply (blocks_unique (bases s)); [apply (nb_factors _ _ _ Hb')|apply (nb_factors _ _ _ Hb)|]. by rewrite <-(nb_children _ _ _ Hb), <-(nb_children _ _ _ Hb'). }
  apply Forall2_app_inv_l in Hall as (l1 & l23 & _ & Hall23 & ->). apply Forall2_cons_inv_l in Hall23 as (lx & l3 & Hcx & Hall3 & ->). apply Forall2_cons_inv_l in Hall3 as (ly & l2 & Hcy & _ & ->). cbn [fst] in Hcx, Hcy.
  rewrite (covers_leaf_inv _ _ _ _ _ _ Hcx Hx), (covers_leaf_inv _ _ _ _ _ _ Hcy Hy). exists (concat l1), (concat l2). by rewrite !concat_app.
Qed.

Section Absorb.
Context (t : Alex P) (ls : list Z) (q : Z) (n : AlexModelNode) (b1 : list (Z * Z)) (x y d : Z) (b2 : list (Z * Z)) (to_right : bool) (empty : AlexDataNode P).
Context (Hok : tree_ok lo hi t ls) (Hle : lo <= hi) (Hbelow : rtc (child_of (store t)) (root_node_ t) q).
Context (Hq : is_leaf (store t) q = Some false) (Hn : model_node (store t) q = Some n) (Hb : node_blocks (bases (store t)) n (b1 ++ (x, d) :: (y, d) :: b2)).
Context (Hx : is_leaf (store t) x = Some true) (Hy : is_leaf (store t) y = Some true) (Hpair : zlen (pointers b1) mod 2 ^ (d + 1) = 0).
Let gone : Z := if to_right then x else y.
Let keep : Z := if to_right then y else x.
Context (He : leaves (store t) !! gone = Some empty) (H0 : num_keys_ (slots_ empty) = 0).

Let start : Z := if to_right then zlen (pointers b1) else zlen (pointers b1) + 2 ^ d.

Let who : (gone = x /\ keep = y) \/ (gone = y /\ keep = x).
Proof. unfold gone, keep. destruct to_right; tauto. Qed.

Let d_nonneg : 0 <= d.
Proof. apply (factor_of_blocks _ _ _ Hb x d), elem_of_app. right. constructor. Qed.

Let d_bound : d < 31.
Proof. destruct (nb_factors _ _ _ Hb x d) as [? _]; [apply elem_of_app; right; constructor|]. lia. Qed.

Lemma absorb_children : set_children (store t) q start (start + 2 ^ d) keep = Some (set_model_node (store t) q (joined_node n b1 d b2 keep)).
Proof using All.
  unfold set_children. rewrite Hn. cbn [mbind option_bind]. rewrite (nb_children _ _ _ Hb), pointers_app, !pointers_cons. pose proof (pow2_pos d d_nonneg) as Hp.
  assert (Hjoin : pointers b1 ++ replicate (Z.to_nat (2 ^ d)) keep ++ replicate (Z.to_nat (2 ^ d)) keep ++ pointers b2 = pointers (b1 ++ (keep, d + 1) :: b2)).
  { rewrite pointers_app, pointers_cons. f_equal. rewrite Z.pow_add_r, Z.pow_1_r by lia. replace (Z.to_nat (2 ^ d * 2)) with (Z.to_nat (2 ^ d) + Z.to_nat (2 ^ d))%nat by lia. by rewrite replicate_add, <-app_assoc. }
  unfold start, keep in *. destruct to_right.
  - rewrite (fill_block _ _ _ y x) by lia. cbn [mbind option_bind]. unfold joined_node. by rewrite Hjoin.
  - replace (zlen (pointers b1) + 2 ^ d) with (zlen (pointers b1 ++ replicate (Z.to_nat (2 ^ d)) x)) by (rewrite zlen_app, zlen_replicate; lia). rewrite (app_assoc (pointers b1)), (fill_block _ _ _ x y) by lia.
    cbn [mbind option_bind]. rewrite <-app_assoc, Hjoin. done.
Qed.

Let nodes_differ : q <> x /\ q <> y /\ x <> y.
Proof.
  split; [intros E; rewrite E in Hq; congruence|]. split; [intros E; rewrite E in Hq; congruence|]. pose proof (nb_distinct _ _ _ Hb) as Hd. rewrite fmap_app in Hd. apply NoDup_app in Hd as (_ & _ & Hd). cbn in Hd. apply NoDup_cons in Hd as [Hd _]. intros ->. apply Hd. constructor.
Qed.

Let around : exists a c, ls = a ++ x :: y :: c.
Proof.
  destruct (to_covers _ _ t ls Hok) as (h & _ & Hc). destruct (covers_below lo hi _ _ _ Hbelow _ _ Hc) as (hq & lq & _ & Hcq & _). destruct (leaves_below lo hi Hlo Hhi t ls q hq lq Hok Hbelow Hcq) as (pre & post & E).
  destruct (pair_adjacent _ _ _ _ _ _ _ _ _ _ Hq Hn Hb Hx Hy Hcq) as (a & c & Elq). exists (pre ++ a), (c ++ post). rewrite E, Elq. by rewrite <-!app_assoc.
Qed.

Let keep_base : exists bk, bases (store t) !! keep = Some bk /\ is_leaf_ bk = true /\ duplication_factor_ bk = d.
Proof.
  assert (Hkb : (keep, d) ∈ b1 ++ (x, d) :: (y, d) :: b2). { apply elem_of_app. right. unfold keep. destruct to_right; repeat constructor. }
  destruct (nb_factors _ _ _ Hb keep d Hkb) as [_ (bk & Ek & Ed)]. exists bk. split; [done|]. split; [|done]. assert (Hlk : is_leaf (store t) keep = Some true) by (unfold keep; by destruct to_right). unfold is_leaf in Hlk. rewrite Ek in Hlk. by injection Hlk.
Qed.

Let store_after (bk : AlexNodeBase) (nb : gmap Z Neighbours) : Store P :=
  delete_node (mkStore (<[keep := set_duplication (d + 1) bk]> (<[q := base n]> (bases (store t)))) (<[q := (num_children_ n, pointers (b1 ++ (keep, d + 1) :: b2))]> (arrays (store t)))
    (leaves (store t)) nb (next_pointer (store t))) gone.

Lemma absorb_run : exists bk nb, bases (store t) !! keep = Some bk /\ is_leaf_ bk = true /\ absorb t q gone keep start (start + 2 ^ d) to_right = Some (bump SNumDataNodes (-1) (with_store t (store_after bk nb))) /\
  linked (delete gone nb) nullptr (without gone ls) nullptr.
Proof using All.
  destruct keep_base as (bk & Ek & Ekl & Ekd). destruct around as (a & c & Els). destruct nodes_differ as (Hqx & Hqy & Hxy). exists bk.
  pose proof (to_nodup _ _ t ls Hok) as Hd. pose proof (to_null _ _ t ls Hok) as Hnull. assert (Hl : linked (neighbours (store t)) nullptr ls nullptr) by (apply linked_links; apply (to_links _ _ t ls Hok)).
  rewrite Els in Hl, Hd, Hnull. assert (Hqk : q <> keep) by (unfold keep; by destruct to_right). unfold absorb. rewrite absorb_children. cbn [mbind option_bind].
  assert (Hw : without gone ls = a ++ keep :: c).
  { rewrite Els, without_app. apply NoDup_app in Hd as (_ & Hac & Hd). apply NoDup_cons in Hd as [Hxc Hd]. apply NoDup_cons in Hd as [Hyc _]. rewrite elem_of_cons in Hxc. assert (Hga : gone ∉ a). { intros H. unfold gone in H. destruct to_right; eapply Hac; [exact H|constructor|exact H|do 2 constructor]. }
    rewrite (without_id _ a Hga). f_equal. unfold gone, keep in *. destruct to_right.
    - rewrite without_self. apply without_id. rewrite elem_of_cons. tauto.
    - unfold without. rewrite filter_cons_True by done. f_equal. rewrite filter_cons_False by tauto. by apply without_id. }
  assert (Hfin : forall nb, update_base (mkStore (<[q := base n]> (bases (store t))) (<[q := (num_children_ n, pointers (b1 ++ (keep, d + 1) :: b2))]> (arrays (store t))) (leaves (store t)) nb (next_pointer (store t))) keep
      (fun b => set_duplication (to_uint8 (duplication_factor_ b + 1)) b) =
    Some (mkStore (<[keep := set_duplication (d + 1) bk]> (<[q := base n]> (bases (store t)))) (<[q := (num_children_ n, pointers (b1 ++ (keep, d + 1) :: b2))]> (arrays (store t))) (leaves (store t)) nb (next_pointer (store t)))).
  { intros nb. unfold update_base. cbn [bases]. rewrite lookup_insert_ne, Ek by done. cbn [mbind option_bind]. unfold set_base. cbn. unfold to_uint8. rewrite Ekd, Z.mod_small by lia. done. }
  rewrite Hw. unfold gone, keep in *. destruct to_right.
  - destruct (unlink_before _ a x y c Hl Hd Hnull) as (lx & ly & Elx & Ely & _ & Hun). unfold set_prev, set_next. cbn [set_model_node neighbours mbind option_bind]. rewrite Elx. cbn [mbind option_bind]. rewrite Ely. cbn [mbind option_bind].
    cbn [set_neighbours neighbours set_model_node]. destruct (prev_leaf_ lx =? nullptr).
    + eexists. split; [done|]. split; [done|]. split; [|exact Hun]. cbn [mbind option_bind]. unfold set_neighbours. cbn [set_model_node bases arrays leaves neighbours next_pointer joined_node base num_children_ children_]. rewrite Hfin. cbn [mbind option_bind]. done.
    + destruct Hun as (lp & Elp & Hun). eexists. split; [done|]. split; [done|]. split; [|exact Hun]. rewrite Elp. cbn [mbind option_bind]. unfold set_neighbours. cbn [set_model_node bases arrays leaves neighbours next_pointer joined_node base num_children_ children_]. rewrite Hfin. cbn [mbind option_bind]. done.
  - destruct (unlink_after _ a x y c Hl Hd Hnull) as (lx & ly & Elx & Ely & _ & Hun). unfold set_prev, set_next. cbn [set_model_node neighbours mbind option_bind]. rewrite Ely. cbn [mbind option_bind]. rewrite Elx. cbn [mbind option_bind].
    cbn [set_neighbours neighbours set_model_node]. destruct (next_leaf_ ly =? nullptr).
    + eexists. split; [done|]. split; [done|]. split; [|exact Hun]. cbn [mbind option_bind]. unfold set_neighbours. cbn [set_model_node bases arrays leaves neighbours next_pointer joined_node base num_children_ children_]. rewrite Hfin. cbn [mbind option_bind]. done.
    + destruct Hun as (lp & Elp & Hun). eexists. split; [done|]. split; [done|]. split; [|exact Hun]. rewrite Elp. cbn [mbind option_bind]. unfold set_neighbours. cbn [set_model_node bases arrays leaves neighbours next_pointer joined_node base num_children_ children_]. rewrite Hfin. cbn [mbind option_bind]. done.
Qed.
Lemma absorb_spec : exists t', absorb t q gone keep start (start + 2 ^ d) to_right = Some t' /\ tree_ok lo hi t' (without gone ls) /\
  tree_map t' (without gone ls) = tree_map t ls /\ root_node_ t' = root_node_ t /\ superroot_ t' = superroot_ t /\ istats_ t' = istats_ t /\
  (forall c, c <> q -> c <> x -> c <> y -> bases (store t') !! c = bases (store t) !! c /\ arrays (store t') !! c = arrays (store t) !! c) /\
  model_node (store t') q = Some (joined_node n b1 d b2 keep) /\ is_leaf (store t') q = Some false /\ node_blocks (bases (store t')) (joined_node n b1 d b2 keep) (b1 ++ (keep, d + 1) :: b2) /\
  (exists bk, bases (store t') !! keep = Some bk /\ is_leaf_ bk = true /\ duplication_factor_ bk = d + 1) /\ leaves (store t') !! keep = leaves (store t) !! keep.
Proof using All.
  destruct absorb_run as (bk & nb & Ek & Ekl & -> & Hlinks). destruct nodes_differ as (Hqx & Hqy & Hxy). set (t' := bump _ _ _). assert (Hgk : gone <> keep /\ q <> gone /\ q <> keep) by (unfold gone, keep; destruct to_right; done). destruct Hgk as (Hgk & Hqg & Hqk).
  assert (Ebn : bases (store t) !! q = Some (base n)). { unfold model_node in Hn. destruct (bases (store t) !! q); [|done]. destruct (arrays (store t) !! q) as [[? ?]|]; [|done]. cbn in Hn. injection Hn as Hn. by rewrite <-Hn. }
  assert (Hsame : forall c, c <> q -> c <> x -> c <> y -> bases (store t') !! c = bases (store t) !! c /\ arrays (store t') !! c = arrays (store t) !! c).
  { intros c Hcq Hcx Hcy. assert (c <> gone /\ c <> keep) as [Hcg Hck] by (unfold gone, keep; destruct to_right; done). cbn. rewrite !lookup_delete_ne by done. by rewrite !lookup_insert_ne by done. }
  assert (Hqb : bases (store t') !! q = bases (store t) !! q) by (cbn; rewrite lookup_delete_ne, lookup_insert_ne, lookup_insert_eq by done; done).
  assert (Hqa : arrays (store t') !! q = Some (num_children_ n, pointers (b1 ++ (keep, d + 1) :: b2))) by (cbn; rewrite lookup_delete_ne, lookup_insert_eq by done; done).
  assert (Hk : bases (store t') !! keep = Some (set_duplication (d + 1) bk)) by (cbn; rewrite lookup_delete_ne, lookup_insert_eq by done; done).
  assert (Hlv : forall l, l <> gone -> leaves (store t') !! l = leaves (store t) !! l) by (intros l Hl; cbn; by apply lookup_delete_ne).
  destruct (to_covers _ _ t ls Hok) as (h & Hh & Hc). destruct (covers_below lo hi _ _ _ Hbelow _ _ Hc) as (hq & lq & _ & Hcq & _). destruct (leaves_below lo hi Hlo Hhi t ls q hq lq Hok Hbelow Hcq) as (pre & post & E).
  assert (Hdq : NoDup lq) by (pose proof (to_nodup _ _ t ls Hok) as Hd; rewrite E in Hd; by apply NoDup_app in Hd as (_ & _ & (Hd & _)%NoDup_app)).
  assert (Hp : small_power (num_children_ n)). { destruct (covers_model_inv _ _ _ _ _ _ Hcq Hq) as (h1 & _ & n' & ? & ? & En & _ & _ & _ & Hp & _). rewrite Hn in En. by injection En as <-. }
  pose proof (covers_join (store t) (store t') q n b1 x y d b2 gone keep (set_duplication (d + 1) bk) Hq Hn Hb Hx Hy Hpair who Hsame Hqb Hqa Hk Ekl eq_refl) as Hjoin.
  destruct (join_node (store t) (store t') q n b1 d b2 keep (set_duplication (d + 1) bk) Hq Hn Hqb Hqa Hk Ekl) as (Hnode & Hleafq & Hleafk).
  assert (Hgq : gone ∈ lq). { destruct (pair_adjacent _ _ _ _ _ _ _ _ _ _ Hq Hn Hb Hx Hy Hcq) as (a & c & ->). apply elem_of_app. right. unfold gone. destruct to_right; repeat constructor. }
  assert (Hlc : local_change lo hi t t' q lq (without gone lq) [q; x; y] 0 (fun _ => renamed gone keep)).
  { constructor; try done.
    - by exists hq.
    - intros z [->|[->|[->|Hz]%elem_of_cons]%elem_of_cons]%elem_of_cons; [reflexivity|..|by apply elem_of_nil in Hz]; apply rtc_once; eapply child_of_block; try done; apply elem_of_app; right; repeat constructor.
    - intros z Hz. rewrite !elem_of_cons in Hz. apply Hsame; tauto.
    - intros b Eb. exists b. by rewrite Hqb.
    - intros h' Hc'. rewrite Nat.add_0_r. by apply Hjoin.
    - intros h' key l Hk' Hc' R. rewrite Nat.add_0_r. by apply (Hjoin h' lq Hc' Hdq).
    - intros _ l Hl. unfold renamed. rewrite decide_False; [done|]. by intros ->.
    - cbn. unfold levels. cbn. lia. }
  assert (Hpairs : tree_pairs t' (without gone ls) = tree_pairs t ls).
  { apply without_tree; [done|]. unfold leaf_pairs. rewrite He. apply empty_leaf; [|done]. destruct (to_leaf _ _ t ls Hok gone) as (n0 & En0 & Hn0); [rewrite E, !elem_of_app; tauto|]. assert (n0 = empty) as <- by congruence. done. }
  exists t'. split; [done|]. split; [|split; [unfold tree_map; by rewrite Hpairs|]].
  2:{ split; [done|]. split; [done|]. split; [done|]. split; [done|]. split; [exact Hnode|]. split; [done|]. split; [apply (node_blocks_join (store t) (store t') q n b1 x y d b2 gone keep (set_duplication (d + 1) bk)); done|]. split; [by eexists|]. apply Hlv. done. }
  assert (Hin : forall l, l ∈ without gone ls -> l ∈ ls /\ l <> gone) by (intros l Hl; apply list_elem_of_filter in Hl; tauto).
  apply (tree_changed lo hi Hlo Hhi t t' ls (without gone ls) q lq (without gone lq) [q; x; y] 0 (fun _ => renamed gone keep) Hok Hlc); try done.
  - intros pre' post' E'. pose proof (to_nodup _ _ t ls Hok) as Hd. rewrite E' in Hd |- *. rewrite !without_app. apply NoDup_app in Hd as (_ & Hpq & Hd). apply NoDup_app in Hd as (_ & Hqp & _). rewrite (without_id gone pre'), (without_id gone post'); [done|by apply Hqp|]. intros Hg. apply (Hpq gone Hg). apply elem_of_app. by left.
  - by apply NoDup_filter, (to_nodup _ _ t ls Hok).
  - intros Hz. apply (to_null _ _ t ls Hok). by apply Hin.
  - intros l [Hl Hne]%Hin. rewrite Hlv by done. by apply (to_leaf _ _ t ls Hok).
  - intros l n0 k v [Hl Hne]%Hin En0 Hst. rewrite Hlv in En0 by done. exists l, n0. split; [done|]. split; [done|]. split; [done|]. unfold renamed. by rewrite decide_False.
  - intros l Hl. destruct around as (a & c & Els). rewrite Els in Hl |- *. pose proof (to_nodup _ _ t ls Hok) as Hd. rewrite Els in Hd. unfold renamed. destruct a as [|l0 a]; cbn in Hl; injection Hl as <-.
    + cbn [app]. unfold gone, keep. destruct to_right; [rewrite decide_True by done; rewrite without_self; unfold without; by rewrite filter_cons_True by done|]. rewrite decide_False by done. unfold without. by rewrite filter_cons_True by done.
    + assert (Hl0 : l0 <> gone). { intros ->. apply NoDup_cons in Hd as [Hd _]. apply Hd. apply elem_of_app. right. unfold gone. destruct to_right; repeat constructor. } rewrite decide_False by done. cbn [app]. unfold without. by rewrite filter_cons_True by done.
  - destruct (to_top _ _ t ls Hok) as ((b & Eb & Elb) & Ea & r & Er & Hr). assert (Hout : forall z, rtc (child_of (store t)) (root_node_ t) z -> z <> superroot_ t) by (intros z; by apply (top_outside t ls)).
    assert (Hz : superroot_ t <> q /\ superroot_ t <> x /\ superroot_ t <> y).
    { assert (Hcx : rtc (child_of (store t)) (root_node_ t) x) by (eapply rtc_r; [exact Hbelow|]; eapply child_of_block; try done; apply elem_of_app; right; repeat constructor).
      assert (Hcy : rtc (child_of (store t)) (root_node_ t) y) by (eapply rtc_r; [exact Hbelow|]; eapply child_of_block; try done; apply elem_of_app; right; repeat constructor).
      split; [|split]; symmetry; by apply Hout. }
    destruct Hz as (Hz1 & Hz2 & Hz3). destruct (Hsame (superroot_ t) Hz1 Hz2 Hz3) as [E1 E2]. unfold top_ok. change (superroot_ t') with (superroot_ t). change (root_node_ t') with (root_node_ t). rewrite E1, E2. split; [by exists b|]. split; [done|]. exists r. split; [|done]. destruct (decide (root_node_ t = q)) as [Erq|Hrq]; [by rewrite Erq, Hqb, <-Erq|].
    destruct (rtc_inv _ _ Hbelow) as [?|(c & [Elr _] & _)]; [done|]. destruct (Hsame (root_node_ t) Hrq) as [-> _]; [intros Ex; rewrite Ex in Elr; congruence|intros Ey; rewrite Ey in Elr; congruence|done].
Qed.
End Absorb.
(** ** Merging with siblings *)

(** The tree while the node [q] is worked on: [leaf] is its child in the bucket [j]; the map and the other
    model nodes are those of the start. *)
Record merging t0 (m : gmap Z P) (q j : Z) (n0 : AlexModelNode) t (leaf d : Z) : Prop := {
  mg_ok : exists ls, tree_ok lo hi t ls /\ tree_map t ls = m;
  mg_below : rtc (child_of (store t)) (root_node_ t) q;
  mg_inner : is_leaf (store t) q = Some false;
  mg_leaf : is_leaf (store t) leaf = Some true;
  mg_node : exists n b1 b2, model_node (store t) q = Some n /\ base n = base n0 /\ num_children_ n = num_children_ n0 /\ node_blocks (bases (store t)) n (b1 ++ (leaf, d) :: b2) /\
    zlen (pointers b1) <= j < zlen (pointers b1) + 2 ^ d;
  mg_others c : is_leaf (store t0) c = Some false -> c <> q -> bases (store t) !! c = bases (store t0) !! c /\ arrays (store t) !! c = arrays (store t0) !! c;
  mg_root : root_node_ t = root_node_ t0;
  mg_superroot : superroot_ t = superroot_ t0;
  mg_istats : istats_ t = istats_ t0
}.

(** A way down along model nodes that have not changed. *)
Lemma way_kept s s' q : (forall c, is_leaf s c = Some false -> c <> q -> bases s' !! c = bases s !! c /\ arrays s' !! c = arrays s !! c) ->
  forall p, rtc (child_of s) p q -> ~ tc (child_of s) q q -> rtc (child_of s') p q.
Proof.
  intros Hsame p Hr Hac. revert p Hr. apply (rtc_ind_l (R := child_of s) (fun p => rtc (child_of s') p q)); [reflexivity|]. intros p c (El & n & En & Hin) Hcq IH. eapply rtc_l; [|exact IH].
  destruct (Hsame p El) as [E1 E2]. { intros ->. apply Hac. eapply tc_rtc_r; [|exact Hcq]. apply tc_once. split; [done|]. by exists n. }
  split; [unfold is_leaf in *; by rewrite E1|]. exists n. split; [|done]. by rewrite (model_node_ext s s').
Qed.

Lemma below_covers t ls x : tree_ok lo hi t ls -> rtc (child_of (store t)) (root_node_ t) x -> exists h lx, covers lo hi (store t) h x lx /\ lx ⊆ ls.
Proof.
  intros Hok Hx. destruct (to_covers _ _ t ls Hok) as (h & _ & Hc). destruct (covers_below lo hi _ _ _ Hx _ _ Hc) as (h' & lx & _ & Hcx & Hsub). by exists h', lx.
Qed.

Lemma below_leaf t ls x : tree_ok lo hi t ls -> rtc (child_of (store t)) (root_node_ t) x -> is_leaf (store t) x = Some true -> x ∈ ls.
Proof.
  intros Hok Hx El. destruct (below_covers t ls x Hok Hx) as (h & lx & Hc & Hsub). apply Hsub. rewrite (covers_leaf_inv _ _ _ _ _ _ Hc El). constructor.
Qed.

Lemma below_node t ls q n : tree_ok lo hi t ls -> rtc (child_of (store t)) (root_node_ t) q -> is_leaf (store t) q = Some false -> model_node (store t) q = Some n -> small_power (num_children_ n).
Proof.
  intros Hok Hq El En. destruct (below_covers t ls q Hok Hq) as (h & lx & Hc & _). destruct (covers_model_inv _ _ _ _ _ _ Hc El) as (h1 & _ & n' & ? & ? & En' & _ & _ & _ & Hp & _). rewrite En in En'. by injection En' as <-.
Qed.

Lemma below_acyclic t ls q : tree_ok lo hi t ls -> rtc (child_of (store t)) (root_node_ t) q -> ~ tc (child_of (store t)) q q.
Proof. intros Hok Hq. destruct (below_covers t ls q Hok Hq) as (h & lx & Hc & _). by eapply covers_acyclic. Qed.

Lemma merge_siblings_spec t0 m q j n0 t leaf d : lo <= hi -> merging t0 m q j n0 t leaf d ->
  exists t' leaf' d', merge_siblings t q j leaf (2 ^ d) = Some (t', leaf', 2 ^ d') /\ merging t0 m q j n0 t' leaf' d'.
Proof using Hlo Hhi.
  intros Hle Hm. unfold merge_siblings. assert (Hfuel : 31 < Z.of_nat 32 + d).
  { destruct (mg_node _ _ _ _ _ _ _ _ Hm) as (n & b1 & b2 & _ & _ & _ & Hb & _). destruct (nb_factors _ _ _ Hb leaf d) as [? _]; [apply elem_of_app; right; constructor|]. lia. }
  set (fuel := 32%nat) in *. clearbody fuel. revert t leaf d Hm Hfuel. induction fuel as [|fuel IH]; intros t leaf d Hm Hfuel.
  - destruct (mg_node _ _ _ _ _ _ _ _ Hm) as (n & b1 & b2 & _ & _ & _ & Hb & _). destruct (nb_factors _ _ _ Hb leaf d) as [? _]; [apply elem_of_app; right; constructor|]. lia.
  - destruct Hm as [(ls & Hok & Emap) Hbelow Hq Hleaf (n & b1 & b2 & En & Ebase & Enum & Hb & Hj) Hothers Hroot Hsuper Hist]. assert (Hin : (leaf, d) ∈ b1 ++ (leaf, d) :: b2) by (apply elem_of_app; right; constructor).
    assert (Hcl : child_of (store t) q leaf) by (by eapply child_of_block). pose proof (below_leaf t ls leaf Hok ltac:(by eapply rtc_r) Hleaf) as Hls. destruct (to_leaf _ _ t ls Hok leaf Hls) as (nl & Enl & Hnl).
    cbn [loop]. rewrite Enl, En. cbn [mbind option_bind]. destruct (Z.eqb_spec (num_keys_ (slots_ nl)) 0) as [H0|H0]; [|cbn [andb]; by exists t, leaf, d; split; [done|]; constructor; try done; [by exists ls|by exists n, b1, b2]].
    destruct (Z.ltb_spec (2 ^ d) (num_children_ n)) as [Hlt|Hge]; cbn [andb]; [|by exists t, leaf, d; split; [done|]; constructor; try done; [by exists ls|by exists n, b1, b2]].
    pose proof (below_node t ls q n Hok Hbelow Hq En) as Hpow. pose proof (factor_of_blocks _ _ _ Hb) as Hnn. pose proof (Hnn leaf d Hin) as Hd. pose proof (nonneg_app _ _ Hnn) as [Hn1 _]. pose proof (zlen_nonneg (pointers b1)) as Hz1.
    pose proof (nb_aligned _ _ _ Hb) as Ha. apply aligned_app in Ha as [_ [Ha _]]; [|done]. rewrite Z.add_0_l in Ha. pose proof (left_of_block d _ j Hd Hz1 Ha Hj) as Hleft.
    assert (Hacyc : ~ tc (child_of (store t)) q q) by (by eapply below_acyclic).
    assert (Hcont : forall t' adj b1' b2' x y tr, (if (tr : bool) then leaf = x /\ adj = y else leaf = y /\ adj = x) -> b1 ++ (leaf, d) :: b2 = b1' ++ (x, d) :: (y, d) :: b2' -> is_leaf (store t) adj = Some true ->
      zlen (pointers b1') mod 2 ^ (d + 1) = 0 -> (if tr then zlen (pointers b1') else zlen (pointers b1') + 2 ^ d) = zlen (pointers b1) ->
      absorb t q leaf adj (left_of (2 ^ d) j) (left_of (2 ^ d) j + 2 ^ d) tr = Some t' -> exists bk, bases (store t') !! adj = Some bk /\ duplication_factor_ bk = d + 1 /\ d + 1 < 31 /\ merging t0 m q j n0 t' adj (d + 1)).
    { intros t' adj b1' b2' x y tr Hwho Eb Hadj Hpair Hstart E. rewrite Hleft in E. rewrite Eb in Hb. assert (Hx : is_leaf (store t) x = Some true) by (destruct tr, Hwho as [-> ->]; done). assert (Hy : is_leaf (store t) y = Some true) by (destruct tr, Hwho as [-> ->]; done).
      assert (Hgone : (if tr then x else y) = leaf) by (by destruct tr, Hwho). assert (Hkeep : (if tr then y else x) = adj) by (by destruct tr, Hwho).
      assert (Hem : leaves (store t) !! (if tr then x else y) = Some nl) by (by rewrite Hgone).
      destruct (absorb_spec t ls q n b1' x y d b2' tr nl Hok Hle Hbelow Hq En Hb Hx Hy Hpair Hem H0) as (t2 & E2 & Hok' & Hmap' & Er & Es & Ei & Hsame & Hnode & Hq' & Hb' & (bk & Ebk & Elbk & Edbk) & _).
      rewrite Hgone, Hkeep, Hstart in E2. rewrite Hgone in Hok', Hmap'. rewrite Hkeep in *. rewrite E in E2. injection E2 as <-.
      assert (Hsame' : forall c, is_leaf (store t) c = Some false -> c <> q -> bases (store t') !! c = bases (store t) !! c /\ arrays (store t') !! c = arrays (store t) !! c) by (intros c Ec Hcq; apply Hsame; [done|intros ->; congruence|intros ->; congruence]).
      exists bk. split; [done|]. split; [done|]. destruct (nb_factors _ _ _ Hb' adj (d + 1)) as [? _]; [apply elem_of_app; right; constructor|]. split; [lia|]. constructor.
      - exists (without leaf ls). split; [done|]. by rewrite Hmap'.
      - rewrite Er. by apply (way_kept (store t)).
      - done.
      - unfold is_leaf. rewrite Ebk. cbn. by rewrite Elbk.
      - eexists _, b1', b2'. split; [exact Hnode|]. split; [done|]. split; [done|]. split; [done|]. rewrite Z.pow_add_r, Z.pow_1_r by lia. pose proof (pow2_pos d Hd). destruct tr; lia.
      - intros c Ec Hcq. destruct (Hothers c Ec Hcq) as [E1 E3]. destruct (Hsame' c) as [-> ->]; [unfold is_leaf in *; by rewrite E1|done|done].
      - congruence.
      - congruence.
      - congruence. }
    destruct (sibling_spec (store t) n b1 leaf d b2 j Hb Hpow Hlt Hj) as [Es|[(adj & b2' & Es & -> & Hadj & Hpair)|(adj & b1' & Es & -> & Hadj & Hpair)]]; rewrite Es; cbn [mbind option_bind].
    + exists t, leaf, d. split; [done|]. constructor; try done; [by exists ls|by exists n, b1, b2].
    + destruct (absorb_spec t ls q n b1 leaf adj d b2' true nl Hok Hle Hbelow Hq En Hb Hleaf Hadj Hpair Enl H0) as (t2 & E2 & _). rewrite Hleft, E2. cbn [mbind option_bind].
      destruct (Hcont t2 adj b1 b2' leaf adj true) as (bk & Ebk & Edbk & Hd31 & Hm'); [done|done|done|done|done|by rewrite Hleft|]. rewrite Ebk. cbn [mbind option_bind]. unfold int_shift. rewrite Edbk, (proj2 (Z.leb_le _ _)), (proj2 (Z.ltb_lt _ _)) by lia. cbn [andb mbind option_bind].
      apply IH; [done|lia].
    + rewrite pointers_app, zlen_app, zlen_pointers_cons in Hleft, Hj by done. change (zlen (pointers [])) with 0 in Hleft, Hj. rewrite Z.add_0_r in Hleft, Hj. rewrite <-app_assoc in Hb. cbn [app] in Hb.
      destruct (absorb_spec t ls q n b1' adj leaf d b2 false nl Hok Hle Hbelow Hq En Hb Hadj Hleaf Hpair Enl H0) as (t2 & E2 & _). rewrite Hleft, E2. cbn [mbind option_bind].
      destruct (Hcont t2 adj b1' b2 adj leaf false) as (bk & Ebk & Edbk & Hd31 & Hm'); [done|by rewrite <-app_assoc|done|done|rewrite pointers_app, zlen_app, zlen_pointers_cons by done; change (zlen (pointers [])) with 0; lia|by rewrite Hleft|]. rewrite Ebk. cbn [mbind option_bind]. unfold int_shift. rewrite Edbk, (proj2 (Z.leb_le _ _)), (proj2 (Z.ltb_lt _ _)) by lia. cbn [andb mbind option_bind].
      apply IH; [done|lia].
Qed.
(** ** A leaf takes the place of its parent *)

Lemma lone_block b1 (leaf d : Z) b2 : nonneg (b1 ++ (leaf, d) :: b2) -> zlen (pointers (b1 ++ (leaf, d) :: b2)) = 2 ^ d -> b1 = [] /\ b2 = [].
Proof.
  intros Hnn Hl. destruct (nonneg_app _ _ Hnn) as [Hn1 Hn2]. pose proof (Hn2 leaf d ltac:(constructor)) as Hd. rewrite pointers_app, zlen_app, zlen_pointers_cons in Hl by done.
  assert (Hpos : forall b, nonneg b -> b <> [] -> 0 < zlen (pointers b)). { intros [|[c e] b] Hb Hne; [done|]. pose proof (Hb c e ltac:(constructor)) as He. rewrite zlen_pointers_cons by done. pose proof (pow2_pos e He). pose proof (zlen_nonneg (pointers b)). lia. }
  pose proof (zlen_nonneg (pointers b1)). pose proof (zlen_nonneg (pointers b2)). split.
  - destruct (decide (b1 = [])) as [|Hne]; [done|]. pose proof (Hpos b1 Hn1 Hne). lia.
  - destruct (decide (b2 = [])) as [|Hne]; [done|]. assert (Hn3 : nonneg b2) by (intros c e Hin; apply (Hn2 c e); by constructor). pose proof (Hpos b2 Hn3 Hne). lia.
Qed.

Section OneChild.
Context (s s' : Store P) (g p leaf : Z) (ng np : AlexModelNode) (b1 b2 : list (Z * Z)) (dp d : Z) (bl : AlexNodeBase).
Context (Hg : is_leaf s g = Some false) (Hng : model_node s g = Some ng) (Hbg : node_blocks (bases s) ng (b1 ++ (p, dp) :: b2)).
Context (Hp : is_leaf s p = Some false) (Hnp : model_node s p = Some np) (Hbp : node_blocks (bases s) np [(leaf, d)]) (Hleaf : is_leaf s leaf = Some true).
Context (Hsame : forall c, c <> g -> c <> p -> c <> leaf -> bases s' !! c = bases s !! c /\ arrays s' !! c = arrays s !! c).
Context (Hgb : bases s' !! g = bases s !! g) (Hga : arrays s' !! g = Some (num_children_ ng, pointers (b1 ++ (leaf, dp) :: b2))).
Context (Hlb : bases s' !! leaf = Some bl) (Hll : is_leaf_ bl = true) (Hld : duplication_factor_ bl = dp).

Definition promoted_node : AlexModelNode := mkModelNode (base ng) (num_children_ ng) (pointers (b1 ++ (leaf, dp) :: b2)).

Let nn : nonneg (b1 ++ (p, dp) :: b2).
Proof. by eapply factor_of_blocks. Qed.

Let leaf_below : child_of s p leaf.
Proof. eapply child_of_block; [done|done|done|constructor]. Qed.

Lemma promoted_children : p ∉ b1.*1 -> p ∉ b2.*1 -> pointers (b1 ++ (leaf, dp) :: b2) = renamed p leaf <$> children_ ng.
Proof using Hbg.
  intros H1 H2. rewrite (nb_children _ _ _ Hbg), !pointers_app, !pointers_cons, !fmap_app, fmap_replicate. destruct (nonneg_app _ _ nn) as [Hn1 Hn2]. assert (Hn3 : nonneg b2) by (intros c e Hin; apply (Hn2 c e); by constructor).
  assert (Hid : forall b, nonneg b -> p ∉ b.*1 -> renamed p leaf <$> pointers b = pointers b).
  { intros b Hnb Hb. rewrite <-(list_fmap_id (pointers b)) at 2. apply list_fmap_ext. intros i c Hc. unfold renamed. rewrite decide_False; [done|]. intros ->. apply Hb. apply list_elem_of_lookup_2 in Hc. apply elem_of_pointers in Hc as [e He]; [|done].
    apply list_elem_of_fmap. by exists (p, e). }
  rewrite !Hid by done. unfold renamed. by rewrite decide_True.
Qed.

Lemma promote_node : model_node s' g = Some promoted_node /\ is_leaf s' g = Some false /\ is_leaf s' leaf = Some true.
Proof using Hg Hng Hgb Hga Hlb Hll.
  unfold model_node, is_leaf in *. rewrite Hgb, Hga, Hlb. destruct (bases s !! g) as [b|] eqn:E; [|done]. cbn [mbind option_bind] in *. destruct (arrays s !! g) as [[num ch]|]; [|done]. cbn [mbind option_bind] in *.
  injection Hng as Hng'. unfold promoted_node. rewrite <-Hng'. cbn. split; [done|]. split; [done|]. by rewrite Hll.
Qed.

Lemma covers_promote h lq : covers lo hi s h g lq -> NoDup lq -> covers lo hi s' h g lq /\ node_blocks (bases s') promoted_node (b1 ++ (leaf, dp) :: b2) /\
  forall key l, lo <= key <= hi -> route s h g key = Some l -> route s' h g key = Some l.
Proof using All.
  intros Hc Hd. destruct (covers_model_inv _ _ _ _ _ _ Hc Hg) as (h1 & -> & n' & blocks & lss & En & Hb' & Hm & Hne & Hpw & Hall & ->). rewrite Hng in En. injection En as <-.
  assert (blocks = b1 ++ (p, dp) :: b2) as ->. { apply (blocks_unique (bases s)); [apply (nb_factors _ _ _ Hb')|apply (nb_factors _ _ _ Hbg)|]. by rewrite <-(nb_children _ _ _ Hbg), <-(nb_children _ _ _ Hb'). }
  destruct promote_node as (En' & El' & Ell). assert (Hi : (b1 ++ (p, dp) :: b2) !! length b1 = Some (p, dp)) by (by apply list_lookup_middle).
  destruct (Forall2_lookup_l _ _ _ _ _ Hall Hi) as (lp & Hlp & Hcp). cbn [fst] in Hcp.
  destruct (covers_model_inv _ _ _ _ _ _ Hcp Hp) as (h2 & Eh2 & np' & bp & lsp & Enp & Hbp' & _ & _ & _ & Hallp & Elp). rewrite Hnp in Enp. injection Enp as <-.
  assert (bp = [(leaf, d)]) as ->. { apply (blocks_unique (bases s)); [apply (nb_factors _ _ _ Hbp')|apply (nb_factors _ _ _ Hbp)|]. by rewrite <-(nb_children _ _ _ Hbp), <-(nb_children _ _ _ Hbp'). }
  apply Forall2_cons_inv_l in Hallp as (ll & lr & Hcl & Hnil & ->). apply Forall2_nil_inv_l in Hnil as ->. cbn [fst] in Hcl. rewrite (covers_leaf_inv _ _ _ _ _ _ Hcl Hleaf) in Elp. cbn in Elp. clear Hcl. subst lp.
  assert (Hdisj : forall j c e z, j <> length b1 -> (b1 ++ (p, dp) :: b2) !! j = Some (c, e) -> rtc (child_of s) c z -> z <> g /\ z <> p /\ z <> leaf).
  { intros j c e z Hj Hce Hz. split; [|split].
    - intros ->. apply (covers_acyclic lo hi s _ _ _ Hc). eapply tc_rtc_r; [|exact Hz]. apply tc_once. eapply child_of_block; try done. by eapply list_elem_of_lookup_2.
    - intros ->. by eapply (blocks_disjoint lo hi s h1 _ lss j (length b1) c e p dp p Hall Hd); [| | |exact Hz|reflexivity].
    - intros ->. eapply (blocks_disjoint lo hi s h1 _ lss j (length b1) c e p dp leaf Hall Hd); [done|done|done|exact Hz|by apply rtc_once]. }
  assert (Hbeside : forall j c e lc, j <> length b1 -> (b1 ++ (p, dp) :: b2) !! j = Some (c, e) -> lss !! j = Some lc -> covers lo hi s' h1 c lc /\ forall key, route s' h1 c key = route s h1 c key).
  { intros j c e lc Hj Hce Hlc. apply (covers_ext lo hi s s'); [|apply (Forall2_lookup_lr _ _ _ _ _ _ Hall Hce Hlc)]. intros z Hz. destruct (Hdisj j c e z Hj Hce Hz) as (? & ? & ?). by apply Hsame. }
  assert (Hnames : NoDup (b1 ++ (leaf, dp) :: b2).*1 /\ (p ∉ b1.*1) /\ (p ∉ b2.*1)).
  { pose proof (nb_distinct _ _ _ Hbg) as Hdn. rewrite fmap_app in Hdn |- *. cbn [fmap list_fmap fst] in *. apply NoDup_app in Hdn as (H1 & H2 & H3). apply NoDup_cons in H3 as [H3 H4].
    assert (Hl1 : leaf ∉ b1.*1). { intros ([c e] & E & [j Hj]%list_elem_of_lookup)%list_elem_of_fmap. cbn in E. subst c. destruct (Hdisj j leaf e leaf) as (_ & _ & ?); [apply lookup_lt_Some in Hj; lia|by apply lookup_app_l_Some|reflexivity|done]. }
    assert (Hl2 : leaf ∉ b2.*1). { intros ([c e] & E & [j Hj]%list_elem_of_lookup)%list_elem_of_fmap. cbn in E. subst c. destruct (Hdisj (length b1 + S j)%nat leaf e leaf) as (_ & _ & ?); [lia| |reflexivity|done]. rewrite lookup_app_r by lia. by replace (length b1 + S j - length b1)%nat with (S j) by lia. }
    split; [|split; [intros Hx; apply (H2 p Hx); constructor|done]]. apply NoDup_app. split; [done|]. split; [|by constructor]. intros z Hz [->|Hz2]%elem_of_cons; [done|]. apply (H2 z Hz). by constructor. }
  destruct Hnames as (Hnames & Hp1 & Hp2). pose proof (promoted_children Hp1 Hp2) as Hch.
  assert (Hnew : node_blocks (bases s') promoted_node (b1 ++ (leaf, dp) :: b2)).
  { constructor; cbn [promoted_node children_ num_children_ base].
    - done.
    - rewrite Hch, zlen_fmap. apply (nb_count _ _ _ Hbg).
    - assert (Hold : forall c e, (c, e) ∈ b1 ++ b2 -> exists j, j <> length b1 /\ (b1 ++ (p, dp) :: b2) !! j = Some (c, e)).
      { intros c e [[j Hj]%list_elem_of_lookup|[j Hj]%list_elem_of_lookup]%elem_of_app; [exists j; split; [apply lookup_lt_Some in Hj; lia|by apply lookup_app_l_Some]|]. exists (length b1 + S j)%nat. split; [lia|]. rewrite lookup_app_r by lia. by replace (length b1 + S j - length b1)%nat with (S j) by lia. }
      assert (Hfac : forall c e, (c, e) ∈ b1 ++ b2 -> 0 <= e < 31 /\ exists x, bases s' !! c = Some x /\ duplication_factor_ x = e).
      { intros c e Hin. destruct (Hold c e Hin) as (j & Hj & Hce). destruct (nb_factors _ _ _ Hbg c e ltac:(by eapply list_elem_of_lookup_2)) as [? (x & Ex & Edx)]. split; [done|]. exists x. split; [|done].
        destruct (Hdisj j c e c Hj Hce ltac:(reflexivity)) as (? & ? & ?). by destruct (Hsame c) as [-> _]. }
      intros c e [Hin|[[= -> ->]|Hin]%elem_of_cons]%elem_of_app; [apply Hfac, elem_of_app; by left| |apply Hfac, elem_of_app; by right].
      split; [|by exists bl]. destruct (nb_factors _ _ _ Hbg p dp) as [? _]; [apply elem_of_app; right; constructor|done].
    - done.
    - pose proof (nb_aligned _ _ _ Hbg) as Ha. destruct (nonneg_app _ _ nn) as [Hn1 _]. apply aligned_app in Ha as [Ha1 Ha2]; [|done]. apply aligned_app; [done|]. split; [done|]. exact Ha2. }
  assert (Hlssd : lss = take (length b1) lss ++ [leaf] :: drop (S (length b1)) lss) by (rewrite <-(take_drop (length b1) lss) at 1; by rewrite (drop_S lss [leaf] (length b1) Hlp)).
  split; [|split; [done|]].
  - cbn [covers]. rewrite El'. exists promoted_node, (b1 ++ (leaf, dp) :: b2), lss. split; [done|]. split; [done|]. split; [done|]. split; [by destruct b1|]. split; [done|]. split; [|done].
    pose proof (Forall2_length _ _ _ Hall) as Hlen. apply Forall2_same_length_lookup. split; [rewrite <-Hlen, !length_app; done|]. intros j [c e] lc Hj Hlc. cbn [fst]. destruct (decide (j = length b1)) as [->|Hne'].
    + rewrite list_lookup_middle in Hj by done. injection Hj as <- <-. assert (lc = [leaf]) as -> by congruence. destruct h1; cbn [covers]; by rewrite Ell.
    + apply (Hbeside j c e lc Hne'); [|done]. destruct (decide (j < length b1)%nat); [rewrite lookup_app_l in Hj |- * by lia; done|]. rewrite lookup_app_r in Hj |- * by lia. destruct (j - length b1)%nat as [|i] eqn:Ei; [lia|done].
  - intros key l Hk E. cbn [route] in E |- *. rewrite Hg in E. rewrite El'. cbn [mbind option_bind] in E |- *. rewrite Hng in E. rewrite En'. cbn [mbind option_bind] in E |- *. unfold get_child_node in E |- *.
    cbn [promoted_node base num_children_ children_]. rewrite Hch. set (j := Z.min _ _) in *. destruct (rd (children_ ng) j) as [c|] eqn:Ec; [|done]. cbn [mbind option_bind] in E.
    assert (Ec' : rd (renamed p leaf <$> children_ ng) j = Some (renamed p leaf c)). { unfold rd in *. destruct (0 <=? j); [|done]. by rewrite list_lookup_fmap, Ec. }
    rewrite Ec'. cbn [mbind option_bind]. assert (Hcin : c ∈ pointers (b1 ++ (p, dp) :: b2)). { rewrite <-(nb_children _ _ _ Hbg). unfold rd in Ec. destruct (0 <=? j); [|done]. by eapply list_elem_of_lookup_2. }
    apply elem_of_pointers in Hcin as [e [i Hci]%list_elem_of_lookup]; [|exact nn]. destruct (decide (c = p)) as [->|Hcp0].
    + pose proof (route_in lo hi Hlo Hhi s h1 p [leaf] key l Hcp Hk E) as Hl. apply list_elem_of_singleton in Hl as ->. unfold renamed. rewrite decide_True by done. destruct h1; cbn [route]; by rewrite Ell.
    + unfold renamed. rewrite decide_False by done. destruct (Forall2_lookup_l _ _ _ _ _ Hall Hci) as (lc & Hlc & _). assert (Hij : i <> length b1) by (intros ->; rewrite list_lookup_middle in Hci by done; congruence).
      destruct (Hbeside i c e lc Hij Hci Hlc) as [_ Hr]. by rewrite Hr.
Qed.
End OneChild.
Section Promote.
Context (t : Alex P) (ls : list Z) (g p leaf : Z) (ng np : AlexModelNode) (b1 b2 : list (Z * Z)) (dp d : Z) (bl : AlexNodeBase).
Context (Hok : tree_ok lo hi t ls) (Hle : lo <= hi) (Hbelow : rtc (child_of (store t)) (root_node_ t) g).
Context (Hg : is_leaf (store t) g = Some false) (Hng : model_node (store t) g = Some ng) (Hbg : node_blocks (bases (store t)) ng (b1 ++ (p, dp) :: b2)).
Context (Hp : is_leaf (store t) p = Some false) (Hnp : model_node (store t) p = Some np) (Hbp : node_blocks (bases (store t)) np [(leaf, d)]) (Hleaf : is_leaf (store t) leaf = Some true).
Context (Hbl : bases (store t) !! leaf = Some bl).

Let pruned : Store P := delete_node (set_base (store t) leaf (set_duplication dp bl)) p.

Let nodes_differ : g <> p /\ g <> leaf /\ p <> leaf.
Proof.
  split; [|split; intros E; rewrite E in *; congruence]. intros E. destruct (below_covers t ls g Hok Hbelow) as (h & lx & Hc & _). apply (covers_acyclic lo hi _ _ _ _ Hc). apply tc_once. rewrite E at 2.
  eapply child_of_block; [done|done|done|]. apply elem_of_app. right. constructor.
Qed.

Lemma promote_spec : exists s, set_children pruned g (zlen (pointers b1)) (zlen (pointers b1) + 2 ^ dp) leaf = Some s /\ let t' := with_store t s in
  tree_ok lo hi t' ls /\ tree_map t' ls = tree_map t ls /\ (forall c, c <> g -> c <> p -> c <> leaf -> bases s !! c = bases (store t) !! c /\ arrays s !! c = arrays (store t) !! c) /\
  model_node s g = Some (promoted_node leaf ng b1 b2 dp) /\ is_leaf s g = Some false /\ is_leaf s leaf = Some true /\ bases s !! leaf = Some (set_duplication dp bl).
Proof using All.
  destruct nodes_differ as (Hgp & Hgl & Hpl). assert (Ebg : bases (store t) !! g = Some (base ng)). { unfold model_node in Hng. destruct (bases (store t) !! g); [|done]. destruct (arrays (store t) !! g) as [[? ?]|]; [|done]. cbn in Hng. injection Hng as Hn. by rewrite <-Hn. }
  assert (Eag : arrays (store t) !! g = Some (num_children_ ng, children_ ng)). { unfold model_node in Hng. destruct (bases (store t) !! g); [|done]. destruct (arrays (store t) !! g) as [[? ?]|]; [|done]. cbn in Hng. injection Hng as Hn. by rewrite <-Hn. }
  destruct (nb_factors _ _ _ Hbg p dp) as [Hdp _]; [apply elem_of_app; right; constructor|]. pose proof (pow2_pos dp ltac:(lia)) as Hpos.
  set (s := set_model_node pruned g (promoted_node leaf ng b1 b2 dp)). exists s. split.
  { unfold set_children, model_node. cbn [pruned delete_node set_base bases arrays]. rewrite !lookup_delete_ne, lookup_insert_ne by done. rewrite Ebg, Eag. cbn [mbind option_bind]. cbn [children_ base num_children_].
    rewrite (nb_children _ _ _ Hbg), pointers_app, pointers_cons. rewrite fill_block by lia. cbn [mbind option_bind]. unfold s, promoted_node. by rewrite pointers_app, pointers_cons. }
  intros t'. assert (Hsame : forall c, c <> g -> c <> p -> c <> leaf -> bases s !! c = bases (store t) !! c /\ arrays s !! c = arrays (store t) !! c).
  { intros c Hcg Hcp Hcl. cbn. rewrite !lookup_insert_ne, !lookup_delete_ne by done. by rewrite lookup_insert_ne by done. }
  assert (Hgb : bases s !! g = bases (store t) !! g) by (cbn; by rewrite lookup_insert_eq). assert (Hga : arrays s !! g = Some (num_children_ ng, pointers (b1 ++ (leaf, dp) :: b2))) by (cbn; by rewrite lookup_insert_eq).
  assert (Hlb : bases s !! leaf = Some (set_duplication dp bl)) by (cbn; rewrite lookup_insert_ne, lookup_delete_ne, lookup_insert_eq by done; done).
  assert (Hll : is_leaf_ bl = true) by (unfold is_leaf in Hleaf; rewrite Hbl in Hleaf; by injection Hleaf).
  destruct (below_covers t ls g Hok Hbelow) as (hq & lq & Hcq & _). destruct (leaves_below lo hi Hlo Hhi t ls g hq lq Hok Hbelow Hcq) as (pre & post & E).
  assert (Hdq : NoDup lq) by (pose proof (to_nodup _ _ t ls Hok) as Hd; rewrite E in Hd; by apply NoDup_app in Hd as (_ & _ & (Hd & _)%NoDup_app)).
  assert (Hpro : forall h, covers lo hi (store t) h g lq -> covers lo hi s h g lq /\ forall key l, lo <= key <= hi -> route (store t) h g key = Some l -> route s h g key = Some l).
  { intros h Hc. destruct (covers_promote (store t) s g p leaf ng np b1 b2 dp d (set_duplication dp bl) Hg Hng Hbg Hp Hnp Hbp Hleaf Hsame Hgb Hga Hlb Hll eq_refl h lq Hc Hdq) as (? & _ & ?). done. }
  destruct (promote_node (store t) s g leaf ng b1 b2 dp (set_duplication dp bl) Hg Hng Hgb Hga Hlb Hll) as (Hnode & Hleafg & Hleafl).
  assert (Hpls : p ∉ ls). { intros Hin. destruct (to_covers _ _ t ls Hok) as (h & _ & Hc). pose proof (covers_leaves lo hi _ _ _ _ _ Hc Hin). congruence. }
  assert (Hcp : child_of (store t) g p) by (eapply child_of_block; try done; apply elem_of_app; right; constructor). assert (Hcl : child_of (store t) p leaf) by (eapply child_of_block; [done|done|done|constructor]).
  assert (Hlv : forall l, l ∈ ls -> leaves s !! l = leaves (store t) !! l) by (intros l Hl; cbn; apply lookup_delete_ne; by intros ->).
  assert (Hpairs : tree_pairs t' ls = tree_pairs t ls). { unfold tree_pairs. f_equal. apply list_fmap_ext. intros i l Hl%list_elem_of_lookup_2. unfold leaf_pairs. cbn [t' with_store store]. by rewrite Hlv. }
  split; [|split; [unfold tree_map; by rewrite Hpairs|done]].
  assert (Hlc : local_change lo hi t t' g lq lq [g; p; leaf] 0 (fun _ l => l)).
  { constructor; try done.
    - by exists hq.
    - intros z [->|[->|[->|Hz]%elem_of_cons]%elem_of_cons]%elem_of_cons; [reflexivity|by apply rtc_once|eapply rtc_l; [done|by apply rtc_once]|by apply elem_of_nil in Hz].
    - intros z Hz. rewrite !elem_of_cons in Hz. apply Hsame; tauto.
    - intros b Eb. exists b. by rewrite <-Eb.
    - intros h Hc. rewrite Nat.add_0_r. by apply Hpro.
    - intros h key l Hk Hc R. rewrite Nat.add_0_r. by apply (Hpro h Hc).
    - cbn. unfold levels. cbn. lia. }
  apply (tree_changed lo hi Hlo Hhi t t' ls ls g lq lq [g; p; leaf] 0 (fun _ l => l) Hok Hlc); try done.
  - by apply (to_nodup _ _ t ls Hok).
  - by apply (to_null _ _ t ls Hok).
  - intros l Hl. cbn [t' with_store store]. rewrite Hlv by done. by apply (to_leaf _ _ t ls Hok).
  - apply (linked_ext (neighbours (store t))); [|apply linked_links; apply (to_links _ _ t ls Hok)]. intros l Hl. cbn. apply lookup_delete_ne. by intros ->.
  - intros l n k v Hl En Hst. cbn [t' with_store store] in En. rewrite Hlv in En by done. by exists l, n.
  - destruct (to_top _ _ t ls Hok) as ((b & Eb & Elb) & Ea & r & Er & Hr).
    assert (Hz : superroot_ t <> g /\ superroot_ t <> p /\ superroot_ t <> leaf).
    { assert (Hrp : rtc (child_of (store t)) (root_node_ t) p) by (by eapply rtc_r). assert (Hrl : rtc (child_of (store t)) (root_node_ t) leaf) by (by eapply rtc_r). split; [|split]; symmetry; by apply (top_outside t ls). }
    destruct Hz as (Hz1 & Hz2 & Hz3). destruct (Hsame (superroot_ t) Hz1 Hz2 Hz3) as [E1 E2]. unfold top_ok. cbn [t' with_store store superroot_ root_node_]. rewrite E1, E2. split; [by exists b|]. split; [done|]. exists r. split; [|done].
    destruct (decide (root_node_ t = g)) as [Erg|Hrg]; [by rewrite Erg, Hgb, <-Erg|].
    assert (Hac : forall x, rtc (child_of (store t)) (root_node_ t) x -> ~ tc (child_of (store t)) x x) by (intros x Hx; by apply (below_acyclic t ls)).
    destruct (Hsame (root_node_ t) Hrg) as [-> _]; [| |done].
    + intros Ex. apply (Hac g Hbelow). eapply tc_rtc_r; [by apply tc_once|]. by rewrite <-Ex.
    + intros Ex. apply (Hac g Hbelow). eapply tc_rtc_r; [by apply tc_once|]. eapply rtc_l; [exact Hcl|]. by rewrite <-Ex.
Qed.
End Promote.

(** ** The way down to a leaf *)

Inductive path_to s (p : Z) : list (Z * Z) -> Z -> Prop :=
| path_here : path_to s p [] p
| path_down path q b n c : path_to s p path q -> is_leaf s q = Some false -> model_node s q = Some n -> rd (children_ n) b = Some c -> path_to s p ((q, b) :: path) c.

Lemma path_below s p path q : path_to s p path q -> rtc (child_of s) p q.
Proof.
  induction 1 as [|path q b n c _ IH El En Ec]; [reflexivity|]. eapply rtc_r; [exact IH|]. split; [done|]. exists n. split; [done|]. unfold rd in Ec. destruct (0 <=? b); [|done]. by eapply list_elem_of_lookup_2.
Qed.

Lemma path_kept s s' p path q : path_to s p path q -> (forall c b, (c, b) ∈ path -> bases s' !! c = bases s !! c /\ arrays s' !! c = arrays s !! c) -> path_to s' p path q.
Proof.
  induction 1 as [|path q b n c _ IH El En Ec]; intros Hs; [constructor|]. destruct (Hs q b ltac:(constructor)) as [E1 E2]. econstructor; [|unfold is_leaf in *; by rewrite E1|by rewrite (model_node_ext s s')|exact Ec].
  apply IH. intros c' b' Hin. apply (Hs c' b'). by constructor.
Qed.

(** The nodes of the path are above its end. *)
Lemma path_above s p path q : path_to s p path q -> forall c b, (c, b) ∈ path -> is_leaf s c = Some false /\ tc (child_of s) c q.
Proof.
  induction 1 as [|path q b n c _ IH El En Ec]; intros c' b' Hin; [by apply elem_of_nil in Hin|].
  assert (Hqc : child_of s q c). { split; [done|]. exists n. split; [done|]. unfold rd in Ec. destruct (0 <=? b); [|done]. by eapply list_elem_of_lookup_2. }
  apply elem_of_cons in Hin as [[= -> ->]|Hin]; [split; [done|by apply tc_once]|]. destruct (IH c' b' Hin) as [? ?]. split; [done|]. by eapply tc_r.
Qed.
(** ** Merging up *)

(** The only leaf becomes the root. *)
Lemma leaf_as_root t ls p leaf np d bl dp : tree_ok lo hi t ls -> lo <= hi -> p = root_node_ t -> is_leaf (store t) p = Some false -> model_node (store t) p = Some np ->
  node_blocks (bases (store t)) np [(leaf, d)] -> is_leaf (store t) leaf = Some true -> bases (store t) !! leaf = Some bl -> 0 <= dp < 31 ->
  exists t', update_superroot_pointer (with_root (bump SNumModelNodes (-1) (with_store t (delete_node (set_base (store t) leaf (set_duplication dp bl)) p))) leaf) = Some t' /\
    tree_ok lo hi t' ls /\ tree_map t' ls = tree_map t ls /\ istats_ t' = istats_ t.
Proof using Hlo Hhi.
  intros Hok Hle -> Hp Hnp Hbp Hleaf Hbl Hdp. set (p := root_node_ t) in *. pose proof (to_covers _ _ t ls Hok) as (h & Hh & Hc). destruct (covers_model_inv _ _ _ _ _ _ Hc Hp) as (h1 & _ & np' & bp & lsp & Enp & Hbp' & _ & _ & _ & Hallp & Els). fold p in Enp. rewrite Hnp in Enp. injection Enp as <-.
  assert (bp = [(leaf, d)]) as ->. { apply (blocks_unique (bases (store t))); [apply (nb_factors _ _ _ Hbp')|apply (nb_factors _ _ _ Hbp)|]. by rewrite <-(nb_children _ _ _ Hbp), <-(nb_children _ _ _ Hbp'). }
  apply Forall2_cons_inv_l in Hallp as (ll & lr & Hcl & Hnil & ->). apply Forall2_nil_inv_l in Hnil as ->. cbn [fst] in Hcl. rewrite (covers_leaf_inv _ _ _ _ _ _ Hcl Hleaf) in Els. cbn in Els. subst ls.
  destruct (to_top _ _ t _ Hok) as ((b & Eb & Elb) & Ea & _). assert (Hcl' : child_of (store t) p leaf) by (eapply child_of_block; [done|done|done|constructor]).
  assert (Hz : superroot_ t <> p /\ superroot_ t <> leaf /\ p <> leaf). { split; [|split; [|intros E; rewrite E in Hp; congruence]]; symmetry; apply (top_outside t [leaf]); try done. by apply rtc_once. } destruct Hz as (Hz1 & Hz2 & Hpl).
  unfold update_superroot_pointer. cbn [with_root bump with_store store root_node_ superroot_ delete_node set_base bases]. rewrite lookup_delete_ne, lookup_insert_eq by done. cbn [mbind option_bind].
  unfold set_children, model_node. cbn [delete_node set_base bases arrays]. rewrite !lookup_delete_ne, lookup_insert_ne by done. rewrite Eb, Ea. cbn [mbind option_bind children_ base num_children_]. assert (Hfill : forall y, fill 0 1 leaf [y] = Some [leaf]) by done. rewrite Hfill. cbn [mbind option_bind].
  unfold update_base. cbn [set_model_node bases base]. rewrite lookup_insert_eq. cbn [mbind option_bind].
  eexists. split; [done|]. match goal with |- tree_ok _ _ ?x _ /\ _ => set (t' := x) end.
  assert (Hlb : bases (store t') !! leaf = Some (set_duplication dp bl)) by (cbn; rewrite !lookup_insert_ne, lookup_delete_ne, lookup_insert_eq by done; done).
  assert (Hll : is_leaf_ bl = true) by (unfold is_leaf in Hleaf; rewrite Hbl in Hleaf; by injection Hleaf). assert (Hleaf' : is_leaf (store t') leaf = Some true) by (unfold is_leaf; rewrite Hlb; cbn; by rewrite Hll).
  assert (Hlv : leaves (store t') !! leaf = leaves (store t) !! leaf) by (cbn; by apply lookup_delete_ne).
  assert (Hroute : forall key, leads_to t' key leaf). { intros key. unfold leads_to. change (root_node_ t') with leaf. destruct (levels (store t')); cbn [route]; by rewrite Hleaf'. }
  assert (Hpairs : tree_pairs t' [leaf] = tree_pairs t [leaf]) by (unfold tree_pairs; cbn [fmap list_fmap]; unfold leaf_pairs; by rewrite Hlv).
  split; [|split; [unfold tree_map; by rewrite Hpairs|done]]. constructor.
  - exists 0%nat. split; [lia|]. change (root_node_ t') with leaf. cbn [covers]. by rewrite Hleaf'.
  - apply NoDup_singleton.
  - apply (to_null _ _ t _ Hok).
  - intros l ->%list_elem_of_singleton. rewrite Hlv. apply (to_leaf _ _ t _ Hok). constructor.
  - intros i l Hi. rewrite <-(to_links _ _ t _ Hok i l Hi). cbn. apply lookup_delete_ne. destruct i; [|done]. injection Hi as <-. done.
  - intros l n k v ->%list_elem_of_singleton En Hst. rewrite Hlv in En. destruct (to_clean _ _ t _ Hok leaf n k v ltac:(constructor) En Hst) as [? _]. split; [done|]. apply Hroute.
  - intros l R. pose proof (Hroute lo) as R'. unfold leads_to in *. cbn. congruence.
  - split; [eexists; split; [cbn; by rewrite lookup_insert_eq|done]|]. split; [cbn; by rewrite lookup_insert_eq|]. change (root_node_ t') with leaf. eexists. split; [exact Hlb|done].
Qed.

(** The block of a child. *)
Lemma child_block t ls q n j c : tree_ok lo hi t ls -> rtc (child_of (store t)) (root_node_ t) q -> is_leaf (store t) q = Some false -> model_node (store t) q = Some n -> rd (children_ n) j = Some c ->
  exists b1 d b2, node_blocks (bases (store t)) n (b1 ++ (c, d) :: b2) /\ zlen (pointers b1) <= j < zlen (pointers b1) + 2 ^ d /\ 0 <= d < 31 /\ exists b, bases (store t) !! c = Some b /\ duplication_factor_ b = d.
Proof.
  intros Hok Hq El En Ec. destruct (below_covers t ls q Hok Hq) as (h & lx & Hc & _). destruct (covers_model_inv _ _ _ _ _ _ Hc El) as (h1 & _ & n' & blocks & ? & En' & Hb & _ & _ & _ & _). rewrite En in En'. injection En' as <-.
  rewrite (nb_children _ _ _ Hb) in Ec. destruct (block_at blocks (factor_of_blocks _ _ _ Hb) j) as (b1 & c' & d & b2 & -> & Hj & Ec'); [by apply rd_Some in Ec|]. assert (c' = c) as -> by congruence.
  exists b1, d, b2. split; [done|]. split; [done|]. apply (nb_factors _ _ _ Hb c d). apply elem_of_app. right. constructor.
Qed.

Lemma model_node_base s p n : model_node s p = Some n -> bases s !! p = Some (base n).
Proof. unfold model_node. destruct (bases s !! p); [|done]. destruct (arrays s !! p) as [[? ?]|]; [|done]. cbn. by intros [= <-]. Qed.

(** The inner loop, from the path on. *)
Lemma merge_up_round m path t parent j leaf bl : lo <= hi -> path_to (store t) (root_node_ t) ((parent, j) :: path) leaf -> is_leaf (store t) leaf = Some true ->
  (exists ls, tree_ok lo hi t ls /\ tree_map t ls = m) -> bases (store t) !! leaf = Some bl ->
  exists n0 t' leaf' d', merge_siblings t parent j leaf (2 ^ duplication_factor_ bl) = Some (t', leaf', 2 ^ d') /\ merging t m parent j n0 t' leaf' d' /\ path_to (store t') (root_node_ t') path parent.
Proof using Hlo Hhi.
  intros Hle Hpath Hleaf (ls & Hok & Hmap) Hbl. inversion Hpath as [|path' q b n c Hup El En Ec]; subst. pose proof (path_below _ _ _ _ Hup) as Hbelow.
  destruct (child_block t ls parent n j leaf Hok Hbelow El En Ec) as (b1 & d & b2 & Hb & Hj & _ & x & Ex & Edx). assert (x = bl) as -> by congruence. exists n. rewrite Edx.
  destruct (merge_siblings_spec t (tree_map t ls) parent j n t leaf d Hle) as (t' & leaf' & d' & E & Hm).
  - constructor; try done; [by exists ls|]. by exists n, b1, b2.
  - exists t', leaf', d'. split; [done|]. split; [done|]. rewrite (mg_root _ _ _ _ _ _ _ _ Hm). eapply path_kept; [exact Hup|]. intros c b Hin. destruct (path_above _ _ _ _ Hup c b Hin) as [Hc Ht].
    apply (mg_others _ _ _ _ _ _ _ _ Hm); [done|]. intros ->. by apply (below_acyclic t ls parent Hok Hbelow).
Qed.

Lemma merge_up_spec m path : forall fuel t parent bucketID leaf bl, lo <= hi -> path_to (store t) (root_node_ t) ((parent, bucketID) :: path) leaf -> is_leaf (store t) leaf = Some true ->
  (exists ls, tree_ok lo hi t ls /\ tree_map t ls = m) -> bases (store t) !! leaf = Some bl -> (length path < fuel)%nat ->
  exists t', loop fuel merge_up (t, ((parent, bucketID) :: path) ++ [(superroot_ t, 0)], leaf, 2 ^ duplication_factor_ bl) = Some t' /\ (exists ls, tree_ok lo hi t' ls /\ tree_map t' ls = m) /\ istats_ t' = istats_ t.
Proof using Hlo Hhi.
  induction path as [|[g bg] path IH]; intros fuel t parent bucketID leaf bl Hle Hpath Hleaf Htree Hbl Hfuel; (destruct fuel as [|fuel]; [cbn in Hfuel; lia|]); cbn [app loop merge_up];
    destruct (merge_up_round m _ t parent bucketID leaf bl Hle Hpath Hleaf Htree Hbl) as (n0 & t1 & leaf1 & d1 & -> & [(ls & Hok & Hmap) Hbelow Hp Hleaf1 (n1 & b1 & b2 & En1 & Ebase & Enum & Hb & Hj) _ Hroot Hsuper Hist] & Hup);
    cbn [mbind option_bind]; rewrite En1; cbn [mbind option_bind]; (destruct (Z.eqb_spec (2 ^ d1) (num_children_ n1)) as [Elone|_]; [|exists t1; split; [done|]; split; [by exists ls|done]]);
    (destruct (nb_factors _ _ _ Hb leaf1 d1) as [Hd1 (bl1 & Ebl1 & Edbl1)]; [apply elem_of_app; right; constructor|]);
    (destruct (lone_block b1 leaf1 d1 b2) as [-> ->]; [by eapply factor_of_blocks|by rewrite <-(nb_children _ _ _ Hb), <-(nb_count _ _ _ Hb)|]); cbn [app] in Hb;
    pose proof (model_node_base _ _ _ En1) as Ebn; unfold update_base at 1; rewrite Ebl1; cbn [mbind option_bind];
    change (root_node_ (bump SNumModelNodes (-1) (with_store t1 (delete_node (set_base (store t1) leaf1 (set_duplication (duplication_factor_ (base n1)) bl1)) parent)))) with (root_node_ t1).
  - assert (parent = root_node_ t1) as Er by (by inversion Hup). destruct (to_top _ _ t1 ls Hok) as (_ & _ & r & Err & Hr). rewrite <-Er, Ebn in Err. injection Err as <-.
    unfold int_shift. rewrite (proj2 (Z.leb_le _ _)), (proj2 (Z.ltb_lt _ _)) by lia. cbn [andb mbind option_bind]. rewrite (proj2 (Z.eqb_eq _ _) Er).
    destruct (leaf_as_root t1 ls parent leaf1 n1 d1 bl1 (duplication_factor_ (base n1)) Hok Hle Er Hp En1 Hb Hleaf1 Ebl1 Hr) as (t2 & -> & Hok2 & Hmap2 & Hist2). cbn [mbind option_bind].
    exists t2. split; [done|]. split; [exists ls; by rewrite Hmap2|congruence].
  - inversion Hup as [|path' g' b' ng c' Hup2 Elg Eng Ecg]; subst path' g' b' c'. pose proof (path_below _ _ _ _ Hup2) as Hbelow2.
    destruct (child_block t1 ls g ng bg parent Hok Hbelow2 Elg Eng Ecg) as (c1 & dp & c2 & Hbg & Hjg & Hdp & xb & Exb & Edp). rewrite Ebn in Exb. injection Exb as <-. rewrite Edp.
    assert (Hnr : parent <> root_node_ t1). { intros E. apply (below_acyclic t1 ls g Hok Hbelow2). eapply tc_rtc_r; [apply tc_once; eapply child_of_block; [done|done|exact Hbg|apply elem_of_app; right; constructor]|]. by rewrite E. }
    unfold int_shift. rewrite (proj2 (Z.leb_le _ _)), (proj2 (Z.ltb_lt _ _)) by lia. cbn [andb mbind option_bind]. rewrite (proj2 (Z.eqb_neq _ _) Hnr). cbn [head mbind option_bind].
    pose proof (factor_of_blocks _ _ _ Hbg) as Hnn. destruct (nonneg_app _ _ Hnn) as [Hn1 _]. pose proof (nb_aligned _ _ _ Hbg) as Ha. apply aligned_app in Ha as [_ [Ha _]]; [|done]. rewrite Z.add_0_l in Ha. rewrite (left_of_block dp (zlen (pointers c1)) bg) by (done || lia || apply zlen_nonneg).
    destruct (promote_spec t1 ls g parent leaf1 ng n1 c1 c2 dp d1 bl1 Hok Hle Hbelow2 Elg Eng Hbg Hp En1 Hb Hleaf1 Ebl1) as (s & Es & Hok2 & Hmap2 & Hsame2 & Hnode2 & Elg2 & Ell2 & Ebl2).
    cbn [bump with_store store]. rewrite Es. cbn [mbind option_bind]. set (t2 := with_store _ s).
    destruct (IH fuel t2 g bg leaf1 (set_duplication dp bl1) Hle) as (t' & E' & Htree' & Hist').
    + econstructor; [|exact Elg2|exact Hnode2|].
      * eapply path_kept; [exact Hup2|]. intros c b Hin. destruct (path_above _ _ _ _ Hup2 c b Hin) as [Hc Ht]. pose proof (below_acyclic t1 ls g Hok Hbelow2) as Hacg.
        apply Hsame2; [by intros ->| |intros ->; congruence]. intros ->. apply Hacg. eapply tc_l; [eapply child_of_block; [done|done|exact Hbg|apply elem_of_app; right; constructor]|done].
      * cbn [promoted_node children_]. pose proof (pow2_pos dp ltac:(lia)). rewrite pointers_app, pointers_cons, rd_app_ge by lia. rewrite rd_app_lt by (rewrite zlen_replicate; lia). by rewrite rd_replicate by lia.
    + exact Ell2.
    + exists ls. split; [eapply tree_ok_same; [| | |exact Hok2]; done|]. rewrite <-Hmap, <-Hmap2. by apply tree_map_same.
    + exact Ebl2.
    + cbn in Hfuel. lia.
    + exists t'. change (superroot_ t2) with (superroot_ t1) in E'. rewrite Hsuper in E'. cbn [set_duplication duplication_factor_ app] in E'. split; [exact E'|]. split; [done|]. rewrite Hist'. exact Hist.
Qed.
(** ** [merge] *)

Lemma walk_path s key : forall fuel p path0 l pred path, is_leaf s p = Some false -> loop fuel (walk_step s key) (p, path0) = Some (l, pred, path) ->
  exists way, path = way ++ path0 /\ path_to s p way l /\ way <> [].
Proof.
  assert (Hgen : forall fuel p0 p way0 path0 l pred path, is_leaf s p = Some false -> path_to s p0 way0 p -> loop fuel (walk_step s key) (p, way0 ++ path0) = Some (l, pred, path) ->
    exists way, path = way ++ path0 /\ path_to s p0 way l /\ way <> []).
  { induction fuel as [|fuel IH]; intros p0 p way0 path0 l pred path El Hway E; [done|]. cbn [loop walk_step] in E. destruct (model_node s p) as [n|] eqn:En; [|done]. cbn [mbind option_bind] in E.
    destruct (rd (children_ n) _) as [c|] eqn:Ec; [|done]. cbn [mbind option_bind] in E. destruct (is_leaf s c) as [[]|] eqn:Elc; [..|done]; cbn [mbind option_bind] in E.
    - injection E as <- _ <-. eexists (_ :: way0). split; [done|]. split; [by econstructor|done].
    - rewrite app_comm_cons in E. eapply (IH p0 c); [done|by econstructor|exact E]. }
  intros fuel p path0 l pred path El. apply (Hgen fuel p p [] path0 l pred path El). constructor.
Qed.

Lemma get_leaf_path t ls key l : tree_ok lo hi t ls -> lo <= key <= hi -> leads_to t key l ->
  exists t' way, get_leaf t key true = Some (t', l, way ++ [(superroot_ t, 0)]) /\ same_tree t t' /\ path_to (store t) (root_node_ t) way l.
Proof using Hlo Hhi.
  intros Hok Hk R. destruct (leads_somewhere lo hi Hlo Hhi t ls key Hok Hk) as (i & l' & Hi & R'). assert (l' = l) as -> by (unfold leads_to in *; congruence). destruct (to_covers _ _ t ls Hok) as (h & Hh & Hc).
  unfold get_leaf. destruct (is_leaf (store t) (root_node_ t)) as [[]|] eqn:El; cbn [mbind option_bind].
  - exists t, []. assert (l = root_node_ t) as ->. { unfold leads_to in R. destruct (levels _); cbn [route] in R; rewrite El in R; by injection R. } split; [done|]. split; [done|]. constructor.
  - destruct (tree_walk_spec lo hi (store t) key h (root_node_ t) ls [(superroot_ t, 0)] (depth_fuel (store t)) Hc El Hk) as (l' & pred & path & E & R2); [unfold depth_fuel, levels in *; lia|].
    assert (l' = l) as -> by (apply (route_more _ h (levels (store t))) in R2; [unfold leads_to in R; congruence|done]). destruct (walk_path _ _ _ _ _ _ _ _ El E) as (way & -> & Hway & _). rewrite E.
    cbn [mbind option_bind]. pose proof (covers_leaves lo hi (store t) h _ ls l Hc (list_elem_of_lookup_2 _ _ _ Hi)) as Hl. unfold is_leaf in Hl.
    destruct (bases (store t) !! l) as [b|] eqn:Eb; [|done]. cbn [mbind option_bind]. rewrite (no_correction lo hi Hlo Hhi t ls i l key pred) by done. cbn [mbind option_bind].
    eexists _, way. split; [done|]. split; [apply bump_same|done].
  - destruct h; cbn [covers] in Hc; by rewrite El in Hc.
Qed.

(** Removing an empty leaf ends without undefined behaviour, and neither the invariant nor the map changes. *)
Lemma merge_spec t ls key l : tree_ok lo hi t ls -> lo <= key <= hi -> leads_to t key l ->
  exists t' ls', AlexGrow.merge t l key = Some t' /\ tree_ok lo hi t' ls' /\ tree_map t' ls' = tree_map t ls /\ istats_ t' = istats_ t.
Proof using Hlo Hhi.
  intros Hok Hk R. unfold AlexGrow.merge. destruct (get_leaf_path t ls key l Hok Hk R) as (t1 & way & -> & Hs & Hway). cbn [mbind option_bind]. rewrite Z.eqb_refl. cbn [mbind option_bind].
  assert (Hok1 : tree_ok lo hi t1 ls) by (by eapply same_tree_ok). pose proof (same_tree_map t t1 ls Hs) as Hm1. destruct Hs as [Es Er Esr _ Eist]. rewrite <-Es, <-Er in Hway. rewrite <-Esr.
  destruct way as [|[parent j] way]; [cbn [app]; by exists t1, ls|].
  assert (Hl : is_leaf (store t1) l = Some true). { destruct (leads_somewhere lo hi Hlo Hhi t ls key Hok Hk) as (i & l' & Hi & R'). assert (l' = l) as -> by (unfold leads_to in *; congruence). destruct (to_covers _ _ t1 ls Hok1) as (h & _ & Hc). eapply covers_leaves; [exact Hc|]. by eapply list_elem_of_lookup_2. }
  inversion Hway as [|way' q b n c Hup El En Ec]; subst way' q b c. destruct (child_block t1 ls parent n j l Hok1 (path_below _ _ _ _ Hup) El En Ec) as (b1 & d & b2 & _ & _ & Hd & bl & Ebl & Edbl).
  destruct (merge_up_spec (tree_map t1 ls) way (S (length (((parent, j) :: way) ++ [(superroot_ t1, 0)]))) t1 parent j l bl ltac:(lia) Hway Hl ltac:(by exists ls) Ebl) as (t' & E & (ls' & Hok' & Hmap') & Hist').
  { rewrite length_app. cbn. lia. }
  destruct way as [|step way]; cbn [app] in E |- *; rewrite Ebl; cbn [mbind option_bind]; unfold int_shift; rewrite Edbl, (proj2 (Z.leb_le _ _)), (proj2 (Z.ltb_lt _ _)) by lia; cbn [andb mbind option_bind]; rewrite Edbl in E; rewrite E; exists t', ls'; (split; [done|]); (split; [done|]); split; congruence.
Qed.
End Merge.
