(* ===== verification/AlexTreeIter.v ===== *)
(** * ALEX: iterators over the leaves (alex/src/alex.h)

    An iterator that stands on a pair yields that pair and then the rest of the leaves to
    the right, across the empty ones; it ends after the last pair.  [begin], [find] and
    [lower_bound] give such iterators, and a scan collects what they yield: the pairs of the
    map in the order of the keys. *)

From S2P Require Import Prelude Words Floats FloatScale FloatMono AlexBase AlexBitmap AlexSearch AlexModel AlexNode AlexLookup AlexInsert AlexPlace AlexResize AlexTree AlexRoute AlexTreeMap.
From Stdlib Require Import SpecFloat Sorted.
From stdpp Require Import gmap list.
Local Open Scope Z_scope.
Local Open Scope cxx_scope.

Section Iter.
Context {P : Type}.
Implicit Types (s : Store P).

(** ** The chain of leaves *)

Record chain_ok s (ls : list Z) : Prop := {
  ch_nodup : NoDup ls;
  ch_null : nullptr ∉ ls;
  ch_leaf : forall l, l ∈ ls -> exists n, leaves s !! l = Some n /\ node_ok n;
  ch_links : forall i l, ls !! i = Some l -> neighbours s !! l = Some (links_at ls i)
}.

Lemma tree_ok_chain lo hi t ls : tree_ok lo hi t ls -> chain_ok (store t) ls.
Proof. by intros [_ H2 H3 H4 H5 _ _]. Qed.

(** The pairs from slot [q] of the leaf at position [i] on. *)
Definition rest_from s (ls : list Z) (i : nat) (n : AlexDataNode P) (q : Z) : list (Z * P) :=
  entries (slots_ n) q (data_capacity_ (slots_ n)) ++ concat (leaf_pairs s <$> drop (S i) ls).

Lemma rest_from_start s ls i l n : ls !! i = Some l -> leaves s !! l = Some n -> rest_from s ls i n 0 = concat (leaf_pairs s <$> drop i ls).
Proof.
  intros Hi En. rewrite (drop_S ls l i Hi). cbn [fmap list_fmap concat]. unfold rest_from. rewrite entries_all. unfold leaf_pairs at 2. by rewrite En.
Qed.

(** ** Words left to look at *)

Definition words (n : AlexDataNode P) : Z := Z.max 0 (bitmap_size_ (slots_ n)).

Fixpoint words_from (m : gmap Z (AlexDataNode P)) (ls : list Z) : Z :=
  match ls with
  | [] => 0
  | l :: ls => match m !! l with Some n => words n | None => 0 end + words_from m ls
  end.

Lemma words_from_nonneg m ls : 0 <= words_from m ls.
Proof. induction ls as [|l ls IH]; cbn [words_from]; [done|]. destruct (m !! l); unfold words; lia. Qed.

Lemma words_from_drop m ls i : words_from m (drop i ls) <= words_from m ls.
Proof.
  revert i. induction ls as [|l ls IH]; intros [|i]; cbn [drop words_from]; try done. specialize (IH i). destruct (m !! l); unfold words; lia.
Qed.

Lemma words_from_delete m l ls : l ∉ ls -> words_from (delete l m) ls = words_from m ls.
Proof.
  induction ls as [|l' ls IH]; intros Hl; [done|]. apply not_elem_of_cons in Hl as [Hne Hl]. cbn [words_from]. by rewrite lookup_delete_ne, IH.
Qed.

Lemma words_from_bound s ls : NoDup ls -> words_from (leaves s) ls <= words_of s.
Proof.
  unfold words_of. set (f := fun (_ : Z) n acc => _). generalize (leaves s). clear s. induction ls as [|l ls IH]; intros m Hnd; cbn [words_from].
  - apply (map_fold_weak_ind (fun r _ => 0 <= r)); [done|]. intros. unfold f. lia.
  - apply NoDup_cons in Hnd as [Hl Hnd]. destruct (m !! l) as [n|] eqn:E; [|by apply IH].
    rewrite (map_fold_delete_L f 0 l n m) by (done || (intros; unfold f; lia)). unfold f at 1. fold (words n).
    specialize (IH (delete l m) Hnd). rewrite words_from_delete in IH by done. lia.
Qed.

(** ** Moving on *)

(** The iterator stands on the first pair of [L], the rest of the leaves is the rest of [L]. *)
Definition it_at s (ls : list Z) (it : TreeIterator) (L : list (Z * P)) : Prop :=
  (cur_leaf_ it = nullptr /\ L = []) \/
  exists i n v, ls !! i = Some (cur_leaf_ it) /\ leaves s !! cur_leaf_ it = Some n /\ 0 <= tree_idx_ it < data_capacity_ (slots_ n) /\
    slot_entry (slots_ n) (tree_idx_ it) = Some (key_at (slots_ n) (tree_idx_ it), v) /\ 64 * tree_bitmap_idx_ it <= tree_idx_ it /\
    scan_at (bitmap_ (slots_ n)) (tree_idx_ it + 1) (tree_bitmap_idx_ it, tree_bitmap_data_ it) /\
    L = (key_at (slots_ n) (tree_idx_ it), v) :: rest_from s ls i n (tree_idx_ it + 1).

Lemma entries_none (s : Slots P) q hi : (forall i, q <= i < hi -> bitv (bitmap_ s) i = false) -> entries s q hi = [].
Proof.
  intros Hgap. unfold entries. apply omap_none. intros i Hi%elem_of_seqZ. unfold slot_entry. by rewrite Hgap by lia.
Qed.

Lemma entries_from_gap (s : Slots P) q q' : 0 <= q <= q' -> (forall i, q <= i < q' -> bitv (bitmap_ s) i = false) ->
  entries s q (data_capacity_ s) = entries s q' (data_capacity_ s).
Proof.
  intros Hq Hgap. destruct (Z.le_gt_cases q' (data_capacity_ s)) as [Hle|Hgt]; [apply entries_gap; [lia|done]|].
  rewrite (entries_none s q'), (entries_none s q) by (intros; lia || (apply Hgap; lia)). done.
Qed.

(** From slot [q] of a leaf on, [advance] finds the first pair. *)
Lemma tree_advance_loop s ls : chain_ok s ls -> forall fuel i leaf n idx bitmap_idx data q, ls !! i = Some leaf -> leaves s !! leaf = Some n ->
  64 * bitmap_idx <= q -> scan_at (bitmap_ (slots_ n)) q (bitmap_idx, data) ->
  bitmap_size_ (slots_ n) - bitmap_idx + words_from (leaves s) (drop (S i) ls) < Z.of_nat fuel ->
  exists it, loop fuel (advance_step s) (leaf, n, idx, bitmap_idx, data) = Some it /\ it_at s ls it (rest_from s ls i n q).
Proof.
  intros Hch. assert (Hnode : forall i leaf n, ls !! i = Some leaf -> leaves s !! leaf = Some n -> node_ok n).
  { intros i leaf n Hi En. destruct (ch_leaf s ls Hch leaf (list_elem_of_lookup_2 _ _ _ Hi)) as (n' & En' & Hn). by assert (n' = n) as -> by congruence. }
  induction fuel as [|fuel IH]; intros i leaf n idx bitmap_idx data q Hi En Hlow Hscan Hfuel; pose proof (Hnode _ _ _ Hi En) as Hn;
    pose proof (so_bitmap _ (nk_slots n Hn)) as [Hcap Hsize Hlen Hwords Hpad]; pose proof Hscan as (Hidx & Hword & Hq & _);
    pose proof (words_from_nonneg (leaves s) (drop (S i) ls)); [lia|]. cbn [loop advance_step].
  pose proof (cap_bits _ (nk_slots n Hn)) as Hcb. destruct (Z.eqb_spec data 0) as [->|Hdata].
  - assert (Hgap : forall j, q <= j < 64 * (bitmap_idx + 1) -> bitv (bitmap_ (slots_ n)) j = false) by (intros j Hj; eapply scan_at_zero; [done|lia|lia]).
    assert (Hskip : rest_from s ls i n q = rest_from s ls i n (64 * (bitmap_idx + 1))) by (unfold rest_from; by rewrite (entries_from_gap _ q (64 * (bitmap_idx + 1))) by (lia || done)).
    destruct (Z.leb_spec (bitmap_size_ (slots_ n)) (bitmap_idx + 1)) as [Hend|Hmore].
    + rewrite (ch_links s ls Hch i leaf Hi). cbn [mbind option_bind links_at next_leaf_].
      assert (Hnone : entries (slots_ n) (64 * (bitmap_idx + 1)) (data_capacity_ (slots_ n)) = []) by (apply entries_none; intros; lia).
      destruct (ls !! S i) as [next|] eqn:Enext; cbn [from_option id].
      * destruct (Z.eqb_spec next nullptr) as [->|_]; [by destruct (ch_null s ls Hch); apply (list_elem_of_lookup_2 _ (S i))|].
        destruct (ch_leaf s ls Hch next (list_elem_of_lookup_2 _ _ _ Enext)) as (n' & En' & Hn'). rewrite En'. cbn [mbind option_bind].
        pose proof (so_bitmap _ (nk_slots n' Hn')) as [Hcap' Hsize' Hlen' Hwords' _]. assert (1 <= zlen (bitmap_ (slots_ n'))) by (rewrite Hlen', Hsize'; apply Z.div_le_lower_bound; lia).
        rewrite rd_word by lia. cbn [mbind option_bind]. rewrite Hskip. unfold rest_from at 1. rewrite Hnone. cbn [app].
        rewrite <-(rest_from_start s ls (S i) next n' Enext En'). rewrite (drop_S _ _ _ Enext) in Hfuel. cbn [words_from] in Hfuel. rewrite En' in Hfuel. unfold words in Hfuel.
        apply (IH (S i)); [done|done|lia|apply (scan_at_word (bitmap_ (slots_ n')) 0); [done|lia]|lia].
      * change (nullptr =? nullptr) with true. cbv iota. eexists. split; [done|]. left. split; [done|]. rewrite Hskip. unfold rest_from. rewrite Hnone. cbn [app].
        rewrite drop_ge; [done|]. by apply lookup_ge_None.
    + rewrite rd_word by lia. cbn [mbind option_bind]. rewrite Hskip. apply IH; [done|done|lia|apply scan_at_word; [done|lia]|lia].
  - rewrite get_offset_rightmost by done. eexists. split; [done|]. destruct (scan_at_found _ _ _ _ Hscan Hdata) as (H1 & H2 & H3 & H4 & H5). set (r := 64 * bitmap_idx + tzcnt64 data) in *.
    pose proof (tzcnt64_spec _ Hword Hdata) as (Ht & _). assert (Hr : 0 <= r < data_capacity_ (slots_ n)).
    { split; [lia|]. apply Z.nle_gt. intros Hge. rewrite Hpad in H3; [done|]. lia. }
    destruct (slot_entry_filled _ r (nk_slots n Hn) Hr H3) as (v & Ev & He). right. exists i, n, v. cbn [cur_leaf_ tree_idx_ tree_bitmap_idx_ tree_bitmap_data_].
    split; [done|]. split; [done|]. split; [done|]. split; [done|]. split; [lia|]. split; [done|].
    unfold rest_from. rewrite (entries_from_gap _ q r) by (lia || (intros j Hj; apply H4; lia)). by rewrite (entries_pair _ r (data_capacity_ (slots_ n)) _ _ ltac:(lia) He).
Qed.

Lemma words_enough s ls i l n : chain_ok s ls -> ls !! i = Some l -> leaves s !! l = Some n ->
  bitmap_size_ (slots_ n) + words_from (leaves s) (drop (S i) ls) < Z.of_nat (S (Z.to_nat (words_of s))).
Proof.
  intros Hch Hi En. pose proof (words_from_bound s ls (ch_nodup s ls Hch)). pose proof (words_from_drop (leaves s) ls i) as Hd.
  rewrite (drop_S _ _ _ Hi) in Hd. cbn [words_from] in Hd. rewrite En in Hd. unfold words in Hd. lia.
Qed.

Lemma tree_advance_spec s ls it k v L : chain_ok s ls -> it_at s ls it ((k, v) :: L) -> exists it', advance s it = Some it' /\ it_at s ls it' L.
Proof.
  intros Hch [[_ ?]|(i & n & w & Hi & En & Hr & He & Hlow & Hscan & [= -> -> ->])]; [done|]. unfold advance. rewrite En. cbn [mbind option_bind].
  apply (tree_advance_loop s ls Hch _ i); [done|done|lia|done|]. pose proof (words_enough s ls i _ n Hch Hi En). destruct Hscan as (Hidx & _). lia.
Qed.

Lemma deref_spec s ls it k v L : chain_ok s ls -> it_at s ls it ((k, v) :: L) -> at_end it = false /\ deref s it = Some (k, v).
Proof.
  intros Hch [[_ ?]|(i & n & w & Hi & En & Hr & He & _ & _ & [= -> -> ->])]; [done|]. split.
  - apply Z.eqb_neq. intros E. apply (ch_null s ls Hch). rewrite <-E. by apply (list_elem_of_lookup_2 _ i).
  - unfold deref. rewrite En. cbn [mbind option_bind]. unfold slot_entry in He. destruct (bitv _ _); [|done].
    destruct (rd (key_slots_ _) _); [|done]. cbn [mbind option_bind] in He |- *. destruct (rd (payload_slots_ _) _); [|done]. by injection He as -> ->.
Qed.

Lemma at_end_spec s ls it : it_at s ls it [] -> at_end it = true.
Proof. intros [[E _]|(i & n & w & _ & _ & _ & _ & _ & _ & ?)]; [|done]. unfold at_end. by apply Z.eqb_eq. Qed.

(** ** Iterators at a slot *)

(** A slot past the end stands for the start of the next leaf. *)
Lemma iterator_at_spec s ls i l n idx : chain_ok s ls -> ls !! i = Some l -> leaves s !! l = Some n -> 0 <= idx ->
  exists it, iterator_at s l idx = Some it /\ it_at s ls it (rest_from s ls i n idx).
Proof.
  intros Hch Hi En Hidx. assert (Hnull : forall j q, ls !! j = Some q -> (q =? nullptr) = false).
  { intros j q Hq. apply Z.eqb_neq. intros ->. by apply (ch_null s ls Hch), (list_elem_of_lookup_2 _ j). }
  assert (Hin : forall j q m idx, ls !! j = Some q -> leaves s !! q = Some m -> 0 <= idx < data_capacity_ (slots_ m) ->
    exists it, (if q =? nullptr then Some (mkTreeIterator q idx 0 0)
      else
        n ← leaves s !! q;
        let bitmap_idx := Z.shiftr idx 6 in
        w ← (bitmap_ (slots_ n)).[bitmap_idx];
        bit ← bit64 (idx - Z.shiftl bitmap_idx 6);
        advance s (mkTreeIterator q idx bitmap_idx (Z.land w (not64 (bit - 1))))) = Some it /\ it_at s ls it (rest_from s ls j m idx)).
  { intros j q m x Hj Em Hx. rewrite (Hnull j q Hj), Em. cbn [mbind option_bind]. destruct (ch_leaf s ls Hch q (list_elem_of_lookup_2 _ _ _ Hj)) as (m' & Em' & Hm).
    assert (m' = m) as -> by congruence. pose proof (so_bitmap _ (nk_slots m Hm)) as [Hcap Hsize Hlen Hwords _]. pose proof (cap_bits _ (nk_slots m Hm)).
    autorewrite with cxx. pose proof (pos64 x) as [Ex Hmod]. pose proof (div64_range x (zlen (bitmap_ (slots_ m))) ltac:(lia)) as Hdiv.
    rewrite rd_word by lia. rewrite bit64_in by done. cbn [mbind option_bind]. unfold advance. cbn [cur_leaf_ tree_idx_ tree_bitmap_idx_ tree_bitmap_data_]. rewrite Em. cbn [mbind option_bind].
    apply (tree_advance_loop s ls Hch _ j); [done|done|lia|apply scan_at_masked; [done|lia]|]. pose proof (words_enough s ls j q m Hch Hj Em). lia. }
  unfold iterator_at. rewrite (Hnull i l Hi), En. cbn [mbind option_bind]. destruct (Z.leb_spec (data_capacity_ (slots_ n)) idx) as [Hge|Hlt]; [|by apply Hin].
  rewrite (ch_links s ls Hch i l Hi). cbn [mbind option_bind links_at next_leaf_].
  assert (E0 : rest_from s ls i n idx = concat (leaf_pairs s <$> drop (S i) ls)) by (unfold rest_from; by rewrite entries_none by (intros; lia)). rewrite E0.
  destruct (ls !! S i) as [next|] eqn:Enext; cbn [from_option id].
  - destruct (ch_leaf s ls Hch next (list_elem_of_lookup_2 _ _ _ Enext)) as (n' & En' & Hn'). rewrite <-(rest_from_start s ls (S i) next n' Enext En').
    apply (Hin (S i) next n' 0); [done|done|]. pose proof (bo_cap _ _ _ (so_bitmap _ (nk_slots n' Hn'))). lia.
  - eexists. split; [done|]. left. split; [done|]. rewrite drop_ge; [done|]. by apply lookup_ge_None.
Qed.

End Iter.

(** * Range queries *)

(** The loop of a scan: at most [n] pairs. *)
Definition collect {P} (s : Store P) (it : TreeIterator) (n : Z) : option (list (Z * P)) :=
  loop (S (Z.to_nat n)) (fun '(it, result) =>
    if (zlen result <? n) && negb (at_end it) then
      kv ← deref s it;
      it ← advance s it;
      Some (inl (it, result ++ [kv]))
    else Some (inr result)) (it, []).

Section Scan.
Context {P : Type} (lo hi : Z) (Hlo : 0 <= lo) (Hhi : hi < u64_max).
Implicit Types (t : Alex P) (s : Store P).

(** ** Collecting *)

Lemma collect_spec s ls it L n : chain_ok s ls -> it_at s ls it L -> 0 <= n -> collect s it n = Some (take (Z.to_nat n) L).
Proof.
  intros Hch Hit Hn. unfold collect. assert (Hgen : forall fuel it L acc, it_at s ls it L -> zlen acc <= n -> (Z.to_nat n - length acc < fuel)%nat ->
    loop fuel (fun '(it, result) =>
      if (zlen result <? n) && negb (at_end it) then
        kv ← deref s it;
        it ← advance s it;
        Some (inl (it, result ++ [kv]))
      else Some (inr result)) (it, acc) = Some (acc ++ take (Z.to_nat n - length acc) L)).
  { clear it L Hit. induction fuel as [|fuel IH]; intros it L acc Hit Hacc Hfuel; [lia|]. cbn [loop]. destruct (Z.ltb_spec (zlen acc) n) as [Hlt|Hge]; cbn [andb].
    - destruct L as [|[k v] L].
      + rewrite (at_end_spec s ls it Hit). cbn [negb]. by rewrite take_nil, app_nil_r.
      + destruct (deref_spec s ls it k v L Hch Hit) as [-> ->]. cbn [negb mbind option_bind]. destruct (tree_advance_spec s ls it k v L Hch Hit) as (it' & -> & Hit'). cbn [mbind option_bind].
        unfold zlen in *. rewrite (IH it' L (acc ++ [(k, v)]) Hit') by (rewrite length_app; cbn [length]; lia). rewrite length_app. cbn [length].
        replace (Z.to_nat n - length acc)%nat with (S (Z.to_nat n - (length acc + 1))) by lia. cbn [take]. by rewrite <-app_assoc.
    - unfold zlen in *. replace (Z.to_nat n - length acc)%nat with 0%nat by lia. by rewrite app_nil_r. }
  rewrite (Hgen _ it L [] Hit); [cbn [app length]; by rewrite Nat.sub_0_r|unfold zlen; simpl; lia|cbn [length]; lia].
Qed.

(** ** The first pair *)

Lemma first_leaf s h : forall p ls path fuel, covers lo hi s h p ls -> (h < fuel)%nat ->
  exists l path', loop fuel (edge_step s true) (p, path) = Some (l, path') /\ ls !! 0%nat = Some l.
Proof.
  induction h as [|h IH]; intros p ls path fuel Hc Hf; (destruct fuel as [|fuel]; [lia|]); cbn [covers] in Hc; cbn [loop edge_step].
  - destruct (is_leaf s p) as [[]|]; try done. subst ls. by eexists _, _.
  - destruct (is_leaf s p) as [[]|]; [subst ls; by eexists _, _| |done]. cbn [mbind option_bind].
    destruct Hc as (n & blocks & lss & -> & Hb & _ & Hne & _ & Hall & ->). cbn [mbind option_bind]. destruct blocks as [|[c d] blocks]; [done|]. rewrite (nb_children _ _ _ Hb).
    pose proof (factor_of_blocks _ _ _ Hb c d ltac:(constructor)) as Hd. pose proof (pow2_pos d Hd). rewrite pointers_cons, rd_app_lt by (rewrite zlen_replicate; lia).
    rewrite rd_replicate by lia. cbn [mbind option_bind]. apply Forall2_cons_inv_l in Hall as (l0 & lss' & Hcov & _ & ->). cbn [fst] in Hcov.
    destruct (IH c l0 ((p, 0) :: path) fuel Hcov ltac:(lia)) as (l & path' & E & Hl). eexists _, _. split; [exact E|]. cbn [concat]. by apply lookup_app_l_Some.
Qed.

Lemma begin_spec t ls : tree_ok lo hi t ls -> exists it, begin t = Some it /\ it_at (store t) ls it (tree_pairs t ls).
Proof.
  intros Hok. destruct (to_covers _ _ t ls Hok) as (h & Hh & Hc). unfold begin, first_data_node, descend_edge.
  destruct (first_leaf (store t) h (root_node_ t) ls [] (depth_fuel (store t)) Hc) as (l & path & -> & Hl); [unfold depth_fuel, levels in *; lia|]. cbn [mbind option_bind].
  destruct (to_leaf _ _ t ls Hok l (list_elem_of_lookup_2 _ _ _ Hl)) as (n & En & Hn). pose proof (tree_ok_chain lo hi t ls Hok) as Hch.
  destruct (iterator_at_spec (store t) ls 0 l n 0 Hch Hl En ltac:(lia)) as (it & -> & Hit). rewrite (rest_from_start (store t) ls 0 l n Hl En) in Hit. by exists it.
Qed.

(** Iterating from [begin] on visits the pairs of all the leaves, in the order of the keys. *)
Theorem tree_iteration t ls n : tree_ok lo hi t ls -> 0 <= n -> exists it, begin t = Some it /\
  collect (store t) it n = Some (take (Z.to_nat n) (tree_pairs t ls)) /\ StronglySorted (fun p q : Z * P => p.1 < q.1) (tree_pairs t ls) /\
  tree_map t ls = list_to_map (tree_pairs t ls).
Proof using Hlo Hhi.
  intros Hok Hn. destruct (begin_spec t ls Hok) as (it & E & Hit). exists it. split; [done|]. pose proof (tree_ok_chain lo hi t ls Hok) as Hch.
  split; [by apply (collect_spec _ ls)|]. split; [by apply (tree_pairs_increasing lo hi Hlo Hhi)|done].
Qed.

(** An iterator at the pair of a key, or the end. *)
Lemma tree_find_spec t ls key : tree_ok lo hi t ls -> lo <= key <= hi ->
  exists it t' L, AlexTree.find t key = Some (it, t') /\ tree_ok lo hi t' ls /\ tree_map t' ls = tree_map t ls /\ it_at (store t') ls it L /\
    match tree_map t ls !! key with None => L = [] | Some v => exists L', L = (key, v) :: L' end.
Proof using Hlo Hhi.
  intros Hok Hk. unfold AlexTree.find. destruct (find_in_leaf_spec lo hi Hlo Hhi t ls key Hok Hk) as (r & t' & -> & Hok' & Hm & _ & Hr). cbn [mbind option_bind].
  destruct (tree_map t ls !! key) as [v|].
  - destruct Hr as (i & l & n & pos & -> & Hi & En & Hpos & Hb & Hkey & Hv). pose proof (tree_ok_chain lo hi t' ls Hok') as Hch.
    destruct (iterator_at_spec (store t') ls i l n pos Hch Hi En ltac:(lia)) as (it & -> & Hit). cbn [mbind option_bind]. eexists it, t', _. split; [done|]. split; [done|]. split; [done|]. split; [exact Hit|].
    unfold rest_from. rewrite (entries_pair (slots_ n) pos (data_capacity_ (slots_ n)) key v ltac:(lia)); [by eexists|]. unfold slot_entry. by rewrite Hb, Hkey, Hv.
  - subst r. exists end_iterator, t', []. split; [done|]. split; [done|]. split; [done|]. split; [by left|done].
Qed.

(** ** Lower bounds *)

(** A word of the bitmap is left to look at in the leaf of the key: the condition under
    which [find_lower] stays in the bitmap. *)
Definition lower_in_bounds t (key : Z) : Prop :=
  forall l n, leads_to t key l -> leaves (store t) !! l = Some n ->
    data_capacity_ (slots_ n) mod 64 <> 0 \/ key <= key_at (slots_ n) (data_capacity_ (slots_ n) - 1).

Lemma entries_split (s : Slots P) q : 0 <= q <= data_capacity_ s -> contents s = entries s 0 q ++ entries s q (data_capacity_ s).
Proof.
  intros Hq. rewrite <-entries_all. unfold entries. replace (data_capacity_ s - 0) with (q + (data_capacity_ s - q)) by lia.
  rewrite seqZ_app, omap_app by lia. by rewrite Z.add_0_l, Z.sub_0_r.
Qed.

Lemma elem_of_entries (s : Slots P) a b k v : slots_ok s -> 0 <= a -> b <= data_capacity_ s -> (k, v) ∈ entries s a b -> exists i, a <= i < b /\ bitv (bitmap_ s) i = true /\ k = key_at s i.
Proof.
  intros H Ha Hb (i & Hi%elem_of_seqZ & E)%list_elem_of_omap. exists i. unfold slot_entry in E. destruct (bitv (bitmap_ s) i) eqn:Eb; [|done].
  rewrite rd_key in E by (done || lia). cbn [mbind option_bind] in E. destruct (rd (payload_slots_ s) i); [|done]. injection E as <- <-. split; [lia|done].
Qed.

(** What is left from a slot that splits the leaf of a key: the pairs that are not less. *)
Lemma rest_filter t ls i l n key q : tree_ok lo hi t ls -> lo <= key <= hi -> leads_to t key l -> ls !! i = Some l -> leaves (store t) !! l = Some n ->
  0 <= q <= data_capacity_ (slots_ n) -> (forall j, 0 <= j < q -> bitv (bitmap_ (slots_ n)) j = true -> key_at (slots_ n) j < key) ->
  (q < data_capacity_ (slots_ n) -> key <= key_at (slots_ n) q) ->
  rest_from (store t) ls i n q = filter (fun p => key <= p.1) (tree_pairs t ls).
Proof using Hlo Hhi.
  intros Hok Hk R Hi En Hq Hbefore Hafter. destruct (to_leaf _ _ t ls Hok l (list_elem_of_lookup_2 _ _ _ Hi)) as (n' & En' & Hn). assert (n' = n) as -> by congruence. pose proof (nk_slots n Hn) as H.
  assert (Hother : forall j ps k v, (fun l => leaf_pairs (store t) l) <$> ls !! j = Some ps -> (k, v) ∈ ps -> ((j < i)%nat -> k < key) /\ ((i < j)%nat -> key <= k)).
  { intros j ps k v Hj Hin. destruct (ls !! j) as [m|] eqn:Em; [|done]. injection Hj as <-. unfold leaf_pairs in Hin. destruct (leaves (store t) !! m) as [x|] eqn:Ex; [|by apply elem_of_nil in Hin].
    apply elem_of_contents in Hin. split; intros Hlt.
    - by apply (left_key_less lo hi Hlo Hhi t ls i j key k v l x Hok Hk R Hi Hlt m).
    - pose proof (right_key_greater lo hi Hlo Hhi t ls i j key k v l x Hok Hk R Hi Hlt m Em Ex Hin). lia. }
  unfold tree_pairs. rewrite <-(take_drop i ls) at 2. rewrite (drop_S ls l i Hi), fmap_app, concat_app. cbn [fmap list_fmap concat].
  rewrite !filter_app. rewrite (filter_nothing _ (concat (leaf_pairs (store t) <$> take i ls))), app_nil_l.
  - unfold leaf_pairs at 1. rewrite En, (entries_split (slots_ n) q Hq), filter_app, (filter_nothing _ (entries (slots_ n) 0 q)), app_nil_l.
    + unfold rest_from. f_equal.
      * symmetry. apply filter_every. intros [k v] Hin. apply elem_of_entries in Hin as (j & Hj & Hb & ->); [|done|lia|lia]. cbn [fst]. etrans; [apply Hafter; lia|]. apply key_at_le; [done|lia|lia].
      * symmetry. apply filter_every. intros [k v] (ps & Hin & (m & -> & (j & Hj)%list_elem_of_lookup)%list_elem_of_fmap)%elem_of_concat. rewrite lookup_drop in Hj.
        apply (Hother (S i + j)%nat (leaf_pairs (store t) m) k v); [by rewrite Hj|done|lia].
    + intros [k v] Hin. apply elem_of_entries in Hin as (j & Hj & Hb & ->); [|done|lia|lia]. cbn [fst]. specialize (Hbefore j Hj Hb). lia.
  - intros [k v] (ps & Hin & (m & -> & (j & Hj)%list_elem_of_lookup)%list_elem_of_fmap)%elem_of_concat. cbn [fst]. pose proof (lookup_lt_Some _ _ _ Hj) as Hlt. rewrite length_take in Hlt.
    rewrite lookup_take_lt in Hj by lia. destruct (Hother j (leaf_pairs (store t) m) k v) as [Hless _]; [by rewrite Hj|done|]. specialize (Hless ltac:(lia)). lia.
Qed.

(** The lower bound stands on the first pair that is not less than the key, in this leaf or
    in one further right; from there on come all the pairs that are not less. *)
Lemma tree_lower_bound_spec t ls key : tree_ok lo hi t ls -> lo <= key <= hi -> lower_in_bounds t key ->
  exists it t', lower_bound t key = Some (it, t') /\ tree_ok lo hi t' ls /\ tree_map t' ls = tree_map t ls /\
    it_at (store t') ls it (filter (fun p => key <= p.1) (tree_pairs t ls)).
Proof using Hlo Hhi.
  intros Hok Hk Hroom. unfold lower_bound. set (t0 := bump SNumLookups 1 t). assert (Hok0 : tree_ok lo hi t0 ls) by (eapply same_tree_ok; [apply bump_same|done]).
  destruct (get_leaf_spec lo hi Hlo Hhi t0 ls key false Hok0 Hk) as (t1 & i & l & path & -> & Hs & Hi & R). cbn [mbind option_bind]. pose proof (list_elem_of_lookup_2 _ _ _ Hi) as Hl.
  assert (Hst : same_tree t t1) by (eapply same_tree_trans; [apply bump_same|exact Hs]). clear Hs. assert (Hok1 : tree_ok lo hi t1 ls) by (by eapply same_tree_ok).
  pose proof (same_tree_map t t1 ls Hst) as Hm1. assert (Hp1 : tree_pairs t1 ls = tree_pairs t ls) by (destruct Hst as [Es _ _ _ _]; unfold tree_pairs; by rewrite Es).
  assert (R1 : leads_to t1 key l) by (destruct Hst as [Es Er _ _ _]; unfold leads_to in *; by rewrite Es, Er).
  destruct (to_leaf _ _ t1 ls Hok1 l Hl) as (n & En & Hn). assert (Hr : data_capacity_ (slots_ n) mod 64 <> 0 \/ key <= key_at (slots_ n) (data_capacity_ (slots_ n) - 1)).
  { apply (Hroom l); [exact R|]. destruct Hst as [Es _ _ _ _]. by rewrite <-Es. }
  unfold on_leaf. rewrite En. cbn [mbind option_bind]. destruct (find_lower_spec n key (nk_slots n Hn) (nk_fits n Hn) Hr) as (pos & it0 & -> & Hpos & Hbefore & Hafter). cbn [mbind option_bind].
  set (n' := upd_counters _ _). assert (Hn' : node_ok n') by (by apply node_ok_upd, node_ok_upd).
  destruct (leaf_unchanged lo hi Hlo Hhi t1 ls l n n' Hok1 Hl En eq_refl Hn') as [Hok' Hm]. set (t' := with_store t1 _) in *.
  assert (En' : leaves (store t') !! l = Some n') by apply lookup_insert_eq. pose proof (tree_ok_chain lo hi t' ls Hok') as Hch.
  destruct (iterator_at_spec (store t') ls i l n' pos Hch Hi En' ltac:(lia)) as (it & -> & Hit). cbn [mbind option_bind]. exists it, t'. split; [done|]. split; [done|]. split; [by rewrite Hm|].
  assert (Hp' : tree_pairs t' ls = tree_pairs t ls).
  { rewrite <-Hp1. unfold tree_pairs. f_equal. apply list_fmap_ext. intros j m Hj. unfold leaf_pairs. cbn. destruct (decide (m = l)) as [->|]; [by rewrite lookup_insert_eq, En|by rewrite lookup_insert_ne]. }
  rewrite <-Hp', <-(rest_filter t' ls i l n' key pos); try done.
  - unfold leads_to, t'. cbn [with_store store root_node_]. by rewrite route_leaf_irrelevant.
  - intros Hlt. by apply Hafter.
Qed.

(** Otherwise it reads the word past the end of the bitmap. *)
Lemma tree_lower_bound_outside t ls key : tree_ok lo hi t ls -> lo <= key <= hi -> ~ lower_in_bounds t key -> lower_bound t key = None.
Proof using Hlo Hhi.
  intros Hok Hk Hno. unfold lower_bound. set (t0 := bump SNumLookups 1 t). assert (Hok0 : tree_ok lo hi t0 ls) by (eapply same_tree_ok; [apply bump_same|done]).
  destruct (get_leaf_spec lo hi Hlo Hhi t0 ls key false Hok0 Hk) as (t1 & i & l & path & -> & Hs & Hi & R). cbn [mbind option_bind].
  destruct (to_leaf _ _ t0 ls Hok0 l (list_elem_of_lookup_2 _ _ _ Hi)) as (n & En & Hn).
  assert (En1 : leaves (store t1) !! l = Some n) by (destruct Hs as [Es _ _ _ _]; by rewrite Es).
  unfold on_leaf. rewrite En1. cbn [mbind option_bind].
  destruct (decide (data_capacity_ (slots_ n) mod 64 = 0 /\ key_at (slots_ n) (data_capacity_ (slots_ n) - 1) < key)) as [[Hm Hlast]|Hin].
  - by rewrite (find_lower_out_of_bounds n key (nk_slots n Hn) (nk_fits n Hn) Hm Hlast).
  - exfalso. apply Hno. intros l' n' R' En'. change (leads_to t key l) in R. change (leaves (store t) !! l = Some n) in En. unfold leads_to in *. assert (l' = l) as -> by congruence. assert (n' = n) as -> by congruence. lia.
Qed.

End Scan.
