(* ===== verification/AlexTreeOps.v ===== *)
(** * ALEX: the index as a map (alex/src/alex.h)

    Along any sequence of lookups, insertions and removals the index answers as the finite
    map does.  A removal may empty its leaf: the leaf is merged into its sibling, and model
    nodes left with one child go, up to the root.  [calm] tells the insertions that change
    no node but their leaf: they grow neither the root nor a data node due for a split, and
    the removals of one pair whose search stays in the bitmap of the leaf. *)

From S2P Require Import Prelude Words Floats FloatScale FloatMono AlexBase AlexBitmap AlexSearch AlexModel AlexNode AlexLookup AlexPlace AlexResize.
From S2P Require Import AlexUpdate AlexErase AlexTree AlexBuild AlexSplit AlexGrow AlexRoute AlexTreeMap AlexMerge AlexTreeIter.
From Stdlib Require Import SpecFloat Sorted.
From stdpp Require Import gmap list.
Local Open Scope Z_scope.
Local Open Scope cxx_scope.

(** ** Calls *)

Section Calls.
Context {P : Type} `{AlexEnv P}.
Implicit Types (t : Alex P).

Inductive tree_op :=
| TGet (key : Z)
| TInsert (key : Z) (payload : P)
| TErase (key : Z)
| TEraseOne (key : Z)
| TEraseAt (key : Z).

Inductive tree_result :=
| TFound (found : option P)
| TInserted (fresh : bool)
| TErased (num_erased : Z)
| TDone.

Definition tree_key (op : tree_op) : Z := match op with TGet k | TInsert k _ | TErase k | TEraseOne k | TEraseAt k => k end.

Definition exec_tree (fuel : nat) t (op : tree_op) : option (tree_result * Alex P) :=
  match op with
  | TGet k => '(r, t) ← get_payload t k; Some (TFound r, t)
  | TInsert k v => '(_, fresh, t) ← AlexGrow.insert fuel t k v; Some (TInserted fresh, t)
  | TErase k => '(num, t) ← erase_tree t k; Some (TErased num, t)
  | TEraseOne k => '(num, t) ← erase_one_tree t k; Some (TErased num, t)
  | TEraseAt k => '(it, t) ← AlexTree.find t k; t ← erase_iterator t it; Some (TDone, t)
  end.

Fixpoint exec_trees (fuel : nat) t (ops : list tree_op) : option (list tree_result * Alex P) :=
  match ops with
  | [] => Some ([], t)
  | op :: ops => '(r, t) ← exec_tree fuel t op; '(rs, t) ← exec_trees fuel t ops; Some (r :: rs, t)
  end.

(** What a map answers. *)
Definition map_exec (m : gmap Z P) (op : tree_op) : tree_result * gmap Z P :=
  match op with
  | TGet k => (TFound (m !! k), m)
  | TInsert k v => match m !! k with Some _ => (TInserted false, m) | None => (TInserted true, <[k := v]> m) end
  | TErase k | TEraseOne k => match m !! k with Some _ => (TErased 1, delete k m) | None => (TErased 0, m) end
  | TEraseAt k => (TDone, delete k m)
  end.

Fixpoint map_execs (m : gmap Z P) (ops : list tree_op) : list tree_result * gmap Z P :=
  match ops with
  | [] => ([], m)
  | op :: ops => let '(r, m) := map_exec m op in let '(rs, m) := map_execs m ops in (r :: rs, m)
  end.

(** *** Calm calls *)

(** Whether the key makes the root grow. *)
Definition grows t (key : Z) : option bool :=
  let i := istats_ t in
  if key_domain_max_ i <? key then should_expand t (num_keys_above_key_domain i + 1) (num_keys_at_last_right_domain_resize i)
  else if key <? key_domain_min_ i then should_expand t (num_keys_below_key_domain i + 1) (num_keys_at_last_left_domain_resize i)
  else Some false.

Definition calm t (op : tree_op) : bool :=
  match op with
  | TGet _ => true
  | TInsert k v =>
      bool_decide (grows t k = Some false) &&
      match ('(t, leaf, _) ← get_leaf t k false; try_insert t leaf k v) with
      | Some (fail, _, _) => (fail =? -1) || (fail =? 0)
      | None => false
      end
  | TErase _ | TEraseAt _ => true
  | TEraseOne k =>
      match ('(t, leaf, _) ← get_leaf t k false; leaves (store t) !! leaf) with
      | Some n => negb (data_capacity_ (slots_ n) mod 64 =? 0) || (k <=? key_at (slots_ n) (data_capacity_ (slots_ n) - 1))
      | None => false
      end
  end.

Fixpoint all_calm (fuel : nat) t (ops : list tree_op) : bool :=
  match ops with
  | [] => true
  | op :: ops => calm t op && match exec_tree fuel t op with Some (_, t) => all_calm fuel t ops | None => false end
  end.
End Calls.
Arguments tree_op : clear implicits.
Arguments tree_result : clear implicits.

Section Ops.
Context {P : Type} `{AlexEnv P} (lo hi : Z) (Hlo : 0 <= lo) (Hhi : hi < u64_max).
Implicit Types (t : Alex P).

(** A leaf holds part of the map. *)
Lemma leaf_size t ls l n : tree_ok lo hi t ls -> l ∈ ls -> leaves (store t) !! l = Some n -> num_keys_ (slots_ n) <= Z.of_nat (size (tree_map t ls)).
Proof using Hlo Hhi.
  intros Hok Hl En. destruct (to_leaf _ _ t ls Hok l Hl) as (n' & En' & Hn). assert (n' = n) as -> by congruence.
  rewrite <-(node_map_size _ (nk_slots n Hn)). apply inj_le. apply map_subseteq_size, map_subseteq_spec. intros k v Hv.
  apply (tree_map_Some lo hi Hlo Hhi); [done|]. exists l, n. split; [done|]. split; [done|]. by apply node_map_lookup; [apply (nk_slots n Hn)|].
Qed.

(** The maps agree where the keys can be. *)
Lemma tree_map_ext t ls (m : gmap Z P) : tree_ok lo hi t ls -> (forall k v, m !! k = Some v -> lo <= k <= hi) ->
  (forall k, lo <= k <= hi -> tree_map t ls !! k = m !! k) -> tree_map t ls = m.
Proof using Hlo Hhi.
  intros Hok Hm Heq. apply map_eq. intros k. destruct (decide (lo <= k <= hi)) as [|Hk]; [by apply Heq|].
  assert (H1 : tree_map t ls !! k = None) by (apply eq_None_ne_Some; intros v Hv; by apply (tree_map_range lo hi Hlo Hhi t ls) in Hv).
  assert (H2 : m !! k = None) by (apply eq_None_ne_Some; intros v Hv; by apply Hm in Hv). congruence.
Qed.

(** The leaf of a key becomes the node that holds what [m] holds there. *)
Lemma leaf_replaced t ls i l n n' m : tree_ok lo hi t ls -> ls !! i = Some l -> leaves (store t) !! l = Some n -> node_ok n' ->
  (forall k v, m !! k = Some v -> lo <= k <= hi) -> (forall k, ~ leads_to t k l -> m !! k = tree_map t ls !! k) ->
  (forall k, leads_to t k l -> m !! k = node_map (slots_ n') !! k) -> (forall k v, node_map (slots_ n') !! k = Some v -> lo <= k <= hi /\ leads_to t k l) ->
  let t' := with_store t (set_leaf (store t) l n') in tree_ok lo hi t' ls /\ tree_map t' ls = m.
Proof using Hlo Hhi.
  intros Hok Hi En Hn' Hm Hother Hhere Hkeys t'. pose proof (list_elem_of_lookup_2 _ _ _ Hi) as Hl.
  assert (Hok' : tree_ok lo hi t' ls).
  { apply replace_leaf_ok; [done..|]. intros k v Hst. eapply Hkeys. apply node_map_lookup; [apply (nk_slots n' Hn')|exact Hst]. }
  split; [done|]. apply tree_map_ext; [done|done|]. intros k Hk. unfold t'. rewrite (replace_leaf_map lo hi Hlo Hhi) by done.
  destruct (decide (leads_to t k l)); [by rewrite Hhere|by rewrite Hother].
Qed.

(** ** Insertion *)

Definition put_new (m : gmap Z P) (k : Z) (v : P) : gmap Z P := match m !! k with Some _ => m | None => <[k := v]> m end.

Lemma settle_quiet t key : grows t key = Some false -> exists t', settle_domain t key = Some t' /\ store t' = store t /\ root_node_ t' = root_node_ t /\ superroot_ t' = superroot_ t.
Proof.
  unfold grows, settle_domain. set (i := istats_ t). intros E. assert (Hsame : forall a b c d, should_expand (count_outside t a b) c d = should_expand t c d) by done.
  destruct (_ <? key); [|destruct (key <? _); [|by exists t]].
  - cbn [istats_ count_outside with_istats num_keys_above_key_domain]. fold i. rewrite Hsame, E. cbn [mbind option_bind]. by eexists.
  - cbn [istats_ count_outside with_istats num_keys_below_key_domain]. fold i. rewrite Hsame, E. cbn [mbind option_bind]. by eexists.
Qed.

(** The leaf takes the key, or has it already. *)
Lemma insert_in_leaf_spec fuel t ls key v : tree_ok lo hi t ls -> lo <= key <= hi -> Z.of_nat (size (tree_map t ls)) < 2 ^ 29 ->
  match ('(t, leaf, _) ← get_leaf t key false; try_insert t leaf key v) with Some (fail, _, _) => (fail =? -1) || (fail =? 0) | None => false end = true ->
  exists l pos t' i n w, insert_in_leaf fuel t key v = Some (l, pos, bool_decide (tree_map t ls !! key = None), t') /\
    tree_ok lo hi t' ls /\ tree_map t' ls = put_new (tree_map t ls) key v /\
    ls !! i = Some l /\ leaves (store t') !! l = Some n /\ slot_entry (slots_ n) pos = Some (key, w) /\ put_new (tree_map t ls) key v !! key = Some w.
Proof using Hlo Hhi.
  intros Hok Hk Hsize Hcalm. unfold insert_in_leaf. destruct (get_leaf_spec lo hi Hlo Hhi t ls key false Hok Hk) as (t1 & i & l & path & E1 & Hs & Hi & R).
  rewrite E1 in Hcalm |- *. cbn [mbind option_bind] in Hcalm |- *. assert (Hok1 : tree_ok lo hi t1 ls) by (by eapply same_tree_ok).
  assert (Hm1 : tree_map t1 ls = tree_map t ls) by (by apply same_tree_map). pose proof (list_elem_of_lookup_2 _ _ _ Hi) as Hl.
  assert (R1 : leads_to t1 key l) by (destruct Hs as [Es Er _ _ _]; unfold leads_to in *; by rewrite Es, Er). clear Hs E1 R Hok.
  destruct (to_leaf _ _ t1 ls Hok1 l Hl) as (n & En & Hn). pose proof (leaf_size t1 ls l n Hok1 Hl En) as Hnum. rewrite Hm1 in Hnum.
  unfold try_insert, on_leaf in *. rewrite En in Hcalm |- *. cbn [mbind option_bind] in Hcalm |- *.
  destruct (insert_spec uninit_keys uninit_payloads n key v Hn ltac:(lia) ltac:(lia)) as (flag & pos & n' & E & Hn' & [_ Hout] & _).
  rewrite E in Hcalm |- *. cbn [mbind option_bind] in Hcalm |- *. rewrite Hcalm. clear E.
  assert (Hkey : tree_map t ls !! key = node_map (slots_ n) !! key) by (rewrite <-Hm1; by apply (tree_map_lookup lo hi Hlo Hhi t1 ls key l n)).
  assert (Hold : forall k x, node_map (slots_ n) !! k = Some x -> lo <= k <= hi /\ leads_to t1 k l).
  { intros k x Hx. apply (to_clean _ _ t1 ls Hok1 l n k x Hl En). by apply node_map_lookup; [apply (nk_slots n Hn)|]. }
  assert (Hput : forall m', node_map (slots_ n') = m' -> m' = put_new (node_map (slots_ n)) key v ->
    let t' := with_store t1 (set_leaf (store t1) l n') in tree_ok lo hi t' ls /\ tree_map t' ls = put_new (tree_map t ls) key v).
  { intros m' <- Em. apply (leaf_replaced t1 ls i l n n'); try done.
    - intros k x. unfold put_new. rewrite Hkey. destruct (node_map (slots_ n) !! key); [intros Hx; rewrite <-Hm1 in Hx; by apply (tree_map_range lo hi Hlo Hhi t1 ls k x)|].
      intros [[<- _]|[_ Hx]]%lookup_insert_Some; [done|]. rewrite <-Hm1 in Hx. by apply (tree_map_range lo hi Hlo Hhi t1 ls k x).
    - intros k Hnot. unfold put_new. rewrite Hm1. destruct (tree_map t ls !! key); [done|]. rewrite lookup_insert_ne; [done|]. by intros ->.
    - intros k Hyes. rewrite Em. unfold put_new. rewrite <-Hkey. assert (Hk' : tree_map t ls !! k = node_map (slots_ n) !! k) by (rewrite <-Hm1; by apply (tree_map_lookup lo hi Hlo Hhi t1 ls k l n)).
      destruct (tree_map t ls !! key); [done|]. destruct (decide (k = key)) as [->|]; [by rewrite !lookup_insert_eq|by rewrite !lookup_insert_ne].
    - intros k x. rewrite Em. unfold put_new. destruct (node_map (slots_ n) !! key); [by apply Hold|]. intros [[<- _]|[_ Hx]]%lookup_insert_Some; [done|]. by eapply Hold. }
  assert (Hlast : forall w, slot_entry (slots_ n') pos = Some (key, w) -> node_map (slots_ n') = put_new (node_map (slots_ n)) key v -> put_new (node_map (slots_ n)) key v !! key = Some w).
  { intros w He <-. apply node_map_lookup; [apply (nk_slots n' Hn')|]. unfold slot_entry in He. destruct (bitv _ pos) eqn:Eb; [|done].
    destruct (rd (key_slots_ _) pos) eqn:Ek; [|done]. destruct (rd (payload_slots_ _) pos) eqn:Ev; [|done]. injection He as -> ->. exists pos.
    split; [|done]. pose proof (rd_Some _ _ _ Ek). by rewrite (so_keys _ (nk_slots n' Hn')) in *. }
  assert (Hflag : flag = -1 \/ flag = 0) by lia. destruct Hflag as [-> | ->]; cbn in Hout.
  - destruct Hout as (Em & w & Hw & He). assert (Epad : node_map (slots_ n) = put_new (node_map (slots_ n)) key v) by (unfold put_new; by rewrite Hw).
    destruct (Hput _ Em Epad) as [Hok' Hmap']. change (-1 =? -1) with true. cbv iota.
    exists l, pos, (with_store t1 (set_leaf (store t1) l n')), i, n', w. rewrite Hkey, Hw. rewrite bool_decide_false by done. split; [done|]. split; [done|]. split; [done|].
    split; [done|]. split; [apply lookup_insert_eq|]. split; [done|]. unfold put_new at 1. rewrite Hkey, Hw. by rewrite Hkey.
  - destruct Hout as (Hnone & Em & He). assert (Epad : <[key := v]> (node_map (slots_ n)) = put_new (node_map (slots_ n)) key v) by (unfold put_new; by rewrite Hnone).
    destruct (Hput _ Em Epad) as [Hok' Hmap']. change (0 =? -1) with false. cbv iota.
    eexists l, pos, _, i, n', v. rewrite Hkey, Hnone. rewrite bool_decide_true by done. split; [reflexivity|]. split; [eapply tree_ok_same; [| | |exact Hok']; done|].
    split; [rewrite <-Hmap'; by apply tree_map_same|]. split; [done|]. split; [apply lookup_insert_eq|]. split; [done|]. unfold put_new. rewrite Hkey, Hnone. apply lookup_insert_eq.
Qed.

Lemma insert_spec_calm fuel t ls key v : tree_ok lo hi t ls -> lo <= key <= hi -> Z.of_nat (size (tree_map t ls)) < 2 ^ 29 -> calm t (TInsert key v) = true ->
  exists it t' w L, AlexGrow.insert fuel t key v = Some (it, bool_decide (tree_map t ls !! key = None), t') /\ tree_ok lo hi t' ls /\
    tree_map t' ls = put_new (tree_map t ls) key v /\ it_at (store t') ls it ((key, w) :: L) /\ tree_map t' ls !! key = Some w.
Proof using Hlo Hhi.
  intros Hok Hk Hsize Hcalm. cbn [calm] in Hcalm. apply andb_prop in Hcalm as [Hg Hcalm]. apply bool_decide_eq_true in Hg.
  destruct (settle_quiet t key Hg) as (t0 & Et0 & Es & Er & Esr). unfold AlexGrow.insert. rewrite Et0. cbn [mbind option_bind].
  assert (Hok0 : tree_ok lo hi t0 ls) by (by eapply tree_ok_same). assert (Hm0 : tree_map t0 ls = tree_map t ls) by (by apply tree_map_same). rewrite <-Hm0 in *.
  assert (Hcalm0 : match ('(t, leaf, _) ← get_leaf t0 key false; try_insert t leaf key v) with Some (fail, _, _) => (fail =? -1) || (fail =? 0) | None => false end = true).
  { destruct (get_leaf_spec lo hi Hlo Hhi t ls key false Hok Hk) as (t1 & i & l & path & E1 & [Es1 _ _ _ _] & Hi & R).
    destruct (get_leaf_spec lo hi Hlo Hhi t0 ls key false Hok0 Hk) as (t2 & i2 & l2 & path2 & E2 & [Es2 _ _ _ _] & Hi2 & R2).
    assert (l2 = l) as -> by (unfold leads_to in *; rewrite Es, Er in R2; congruence). rewrite E1 in Hcalm. rewrite E2. cbn [mbind option_bind] in Hcalm |- *.
    unfold try_insert, on_leaf in *. rewrite Es2, Es, <-Es1. destruct (leaves (store t1) !! l) as [n|]; [|done]. cbn [mbind option_bind] in Hcalm |- *.
    destruct (AlexUpdate.insert _ _ _ _ _ _) as [[[flag pos] n']|]; [|done]. cbn [mbind option_bind] in Hcalm |- *. exact Hcalm. }
  destruct (insert_in_leaf_spec fuel t0 ls key v Hok0 Hk Hsize Hcalm0) as (l & pos & t' & i & n & w & -> & Hok' & Hmap' & Hi & En & He & Hw). cbn [mbind option_bind].
  pose proof (tree_ok_chain lo hi t' ls Hok') as Hch. destruct (to_leaf _ _ t' ls Hok' l (list_elem_of_lookup_2 _ _ _ Hi)) as (n' & En' & Hn). assert (n' = n) as -> by congruence.
  assert (Hpos : 0 <= pos < data_capacity_ (slots_ n)).
  { unfold slot_entry in He. destruct (bitv _ pos); [|done]. destruct (rd (key_slots_ _) pos) eqn:Ek; [|done]. pose proof (rd_Some _ _ _ Ek). by rewrite (so_keys _ (nk_slots n Hn)) in *. }
  destruct (iterator_at_spec (store t') ls i l n pos Hch Hi En ltac:(lia)) as (it & -> & Hit). cbn [mbind option_bind].
  unfold rest_from in Hit. rewrite (entries_pair (slots_ n) pos (data_capacity_ (slots_ n)) key w ltac:(lia) He) in Hit.
  eexists it, t', w, _. split; [done|]. split; [done|]. split; [done|]. split; [exact Hit|]. by rewrite Hmap'.
Qed.

(** ** Removal *)

(** The end of a removal: an empty leaf goes. *)
Lemma after_erase_spec t ls key l num : tree_ok lo hi t ls -> lo <= key <= hi -> leads_to t key l ->
  exists t' ls', after_erase t l key num = Some (num, t') /\ tree_ok lo hi t' ls' /\ tree_map t' ls' = tree_map t ls.
Proof using Hlo Hhi.
  intros Hok Hk R. unfold after_erase. set (t1 := bump SNumKeys (- num) t). assert (Hok1 : tree_ok lo hi t1 ls) by (by apply (same_tree_ok lo hi t t1)).
  destruct (leads_somewhere lo hi Hlo Hhi t ls key Hok Hk) as (i & l' & Hi & R'). assert (l' = l) as -> by (unfold leads_to in *; congruence).
  destruct (to_leaf _ _ t1 ls Hok1 l (list_elem_of_lookup_2 _ _ _ Hi)) as (n & En & _). rewrite En. cbn [mbind option_bind].
  assert (Hmerge : exists t2 ls2, (if num_keys_ (slots_ n) =? 0 then AlexGrow.merge t1 l key else Some t1) = Some t2 /\ tree_ok lo hi t2 ls2 /\ tree_map t2 ls2 = tree_map t ls).
  { destruct (_ =? 0); [|by exists t1, ls]. destruct (merge_spec lo hi Hlo Hhi t1 ls key l Hok1 Hk R) as (t2 & ls2 & E & Hok2 & Hm & _). by exists t2, ls2. }
  destruct Hmerge as (t2 & ls2 & -> & Hok2 & Hm). cbn [mbind option_bind]. eexists _, ls2. split; [reflexivity|].
  split; [eapply tree_ok_same; [| | |exact Hok2]|rewrite <-Hm; apply tree_map_same]; by repeat case_match.
Qed.

(** The leaf of a key loses it, and what follows. *)
Lemma leaf_erased t ls i l n n' key num : tree_ok lo hi t ls -> lo <= key <= hi -> ls !! i = Some l -> leads_to t key l -> leaves (store t) !! l = Some n ->
  node_ok n' -> node_map (slots_ n') = delete key (node_map (slots_ n)) ->
  exists t' ls', after_erase (with_store t (set_leaf (store t) l n')) l key num = Some (num, t') /\ tree_ok lo hi t' ls' /\ tree_map t' ls' = delete key (tree_map t ls).
Proof using Hlo Hhi.
  intros Hok Hk Hi R En Hn' Em. pose proof (list_elem_of_lookup_2 _ _ _ Hi) as Hl. destruct (to_leaf _ _ t ls Hok l Hl) as (n0 & En0 & Hn). assert (n0 = n) as -> by congruence.
  destruct (leaf_replaced t ls i l n n' (delete key (tree_map t ls))) as [Hok' Hmap']; try done.
  - intros k x [_ Hx]%lookup_delete_Some. by apply (tree_map_range lo hi Hlo Hhi t ls k x).
  - intros k Hnot. apply lookup_delete_ne. by intros ->.
  - intros k Hyes. rewrite Em. destruct (decide (k = key)) as [->|]; [by rewrite !lookup_delete_eq|]. rewrite !lookup_delete_ne by done. by apply (tree_map_lookup lo hi Hlo Hhi t ls k l n).
  - intros k x. rewrite Em. intros [_ Hx]%lookup_delete_Some. apply (to_clean _ _ t ls Hok l n k x Hl En). by apply node_map_lookup; [apply (nk_slots n Hn)|].
  - rewrite <-Hmap'. apply after_erase_spec; [done|done|]. unfold leads_to in *. cbn [with_store store root_node_]. by rewrite route_leaf_irrelevant.
Qed.

(** A removal in the leaf of a key, with what follows it. *)
Lemma erased_in_leaf t ls key (f : AlexDataNode P -> option (Z * AlexDataNode P)) : tree_ok lo hi t ls -> lo <= key <= hi -> Z.of_nat (size (tree_map t ls)) < 2 ^ 29 ->
  (forall l n, leads_to t key l -> leaves (store t) !! l = Some n -> node_ok n -> num_keys_ (slots_ n) < 2 ^ 29 ->
    exists num n', f n = Some (num, n') /\ node_ok n' /\ node_map (slots_ n') = delete key (node_map (slots_ n)) /\ num = match node_map (slots_ n) !! key with Some _ => 1 | None => 0 end) ->
  exists t' ls', ('(t, leaf, _) ← get_leaf t key false; '(num_erased, t) ← on_leaf t leaf f; after_erase t leaf key num_erased) =
    Some (match tree_map t ls !! key with Some _ => 1 | None => 0 end, t') /\ tree_ok lo hi t' ls' /\ tree_map t' ls' = delete key (tree_map t ls).
Proof using Hlo Hhi.
  intros Hok Hk Hsize Hf. destruct (get_leaf_spec lo hi Hlo Hhi t ls key false Hok Hk) as (t1 & i & l & path & -> & Hs & Hi & R). cbn [mbind option_bind].
  pose proof (list_elem_of_lookup_2 _ _ _ Hi) as Hl. destruct (to_leaf _ _ t ls Hok l Hl) as (n & En & Hn). pose proof (leaf_size t ls l n Hok Hl En) as Hnum.
  destruct (Hf l n R En Hn ltac:(lia)) as (num & n' & E & Hn' & Em & Enum). rewrite <-(tree_map_lookup lo hi Hlo Hhi t ls key l n Hok R Hl En) in Enum.
  assert (Hok1 : tree_ok lo hi t1 ls) by (by eapply same_tree_ok). rewrite <-(same_tree_map t t1 ls Hs) in *. destruct Hs as [Es Er _ _ _].
  unfold on_leaf. rewrite Es, En. cbn [mbind option_bind]. rewrite E. cbn [mbind option_bind]. rewrite <-Enum, <-Es.
  apply (leaf_erased t1 ls i l n n' key num Hok1 Hk Hi); [unfold leads_to in *; by rewrite Es, Er|by rewrite Es|done|done].
Qed.

Lemma erase_tree_spec t ls key : tree_ok lo hi t ls -> lo <= key <= hi -> Z.of_nat (size (tree_map t ls)) < 2 ^ 29 ->
  exists t' ls', erase_tree t key = Some (match tree_map t ls !! key with Some _ => 1 | None => 0 end, t') /\ tree_ok lo hi t' ls' /\
    tree_map t' ls' = delete key (tree_map t ls).
Proof using Hlo Hhi. intros Hok Hk Hsize. apply erased_in_leaf; [done..|]. intros l n _ _ Hn Hnum. apply erase_spec; [done|done|lia]. Qed.

Lemma erase_one_tree_spec t ls key : tree_ok lo hi t ls -> lo <= key <= hi -> Z.of_nat (size (tree_map t ls)) < 2 ^ 29 -> lower_in_bounds t key ->
  exists t' ls', erase_one_tree t key = Some (match tree_map t ls !! key with Some _ => 1 | None => 0 end, t') /\ tree_ok lo hi t' ls' /\
    tree_map t' ls' = delete key (tree_map t ls).
Proof using Hlo Hhi. intros Hok Hk Hsize Hroom. apply erased_in_leaf; [done..|]. intros l n R En Hn Hnum. apply erase_one_correct; [done|done|lia|by apply (Hroom l)]. Qed.

(** The pair an iterator stands on goes. *)
Lemma erase_iterator_spec t ls it k v L : tree_ok lo hi t ls -> Z.of_nat (size (tree_map t ls)) < 2 ^ 29 -> it_at (store t) ls it ((k, v) :: L) ->
  exists t' ls', erase_iterator t it = Some t' /\ tree_ok lo hi t' ls' /\ tree_map t' ls' = delete k (tree_map t ls).
Proof using Hlo Hhi.
  intros Hok Hsize Hit. unfold erase_iterator. destruct (deref_spec (store t) ls it k v L (tree_ok_chain lo hi t ls Hok) Hit) as [-> ->]. cbn [mbind option_bind].
  destruct Hit as [[_ ?]|(i & n & w & Hi & En & Hr & He & _ & _ & [= Ek -> _])]; [done|]. pose proof (list_elem_of_lookup_2 _ _ _ Hi) as Hl.
  destruct (to_leaf _ _ t ls Hok _ Hl) as (n0 & En0 & Hn). assert (n0 = n) as -> by congruence. pose proof (leaf_size t ls _ n Hok Hl En) as Hnum.
  assert (Hb : bitv (bitmap_ (slots_ n)) (tree_idx_ it) = true) by (unfold slot_entry in He; by destruct (bitv _ _)).
  destruct (erase_one_at_spec uninit_keys uninit_payloads n (tree_idx_ it) Hn ltac:(lia) Hr Hb) as (n' & E & Hn' & Em). rewrite <-Ek in *.
  unfold on_leaf. rewrite En. cbn [mbind option_bind]. rewrite E. cbn [mbind option_bind].
  assert (Hst : stored (slots_ n) k w) by (exists (tree_idx_ it); unfold slot_entry in He; rewrite Hb in He; destruct (rd (key_slots_ _) _); [|done]; destruct (rd (payload_slots_ _) _); [|done]; injection He as -> ->; done).
  destruct (to_clean _ _ t ls Hok _ n k w Hl En Hst) as [Hk R].
  destruct (leaf_erased t ls i _ n n' k 1 Hok Hk Hi R En Hn' Em) as (t' & ls' & -> & H'). cbn [mbind option_bind]. by exists t', ls'.
Qed.

(** ** Sequences of calls *)

Lemma calm_room t ls key : tree_ok lo hi t ls -> lo <= key <= hi -> calm t (TEraseOne key) = true -> lower_in_bounds t key.
Proof using Hlo Hhi.
  intros Hok Hk Hcalm l n R En. cbn [calm] in Hcalm. destruct (get_leaf_spec lo hi Hlo Hhi t ls key false Hok Hk) as (t1 & i & l' & path & E & [Es _ _ _ _] & _ & R').
  assert (l' = l) as -> by (unfold leads_to in *; congruence). rewrite E in Hcalm. cbn [mbind option_bind] in Hcalm. rewrite Es, En in Hcalm.
  destruct (Z.eqb_spec (data_capacity_ (slots_ n) mod 64) 0); [right; cbn [negb orb] in Hcalm; by apply Z.leb_le|by left].
Qed.

Lemma exec_tree_step fuel t ls op : tree_ok lo hi t ls -> lo <= tree_key op <= hi -> Z.of_nat (size (tree_map t ls)) < 2 ^ 29 -> calm t op = true ->
  exists t' ls', exec_tree fuel t op = Some ((map_exec (tree_map t ls) op).1, t') /\ tree_ok lo hi t' ls' /\ tree_map t' ls' = (map_exec (tree_map t ls) op).2.
Proof using Hlo Hhi.
  intros Hok Hk Hsize Hcalm. destruct op as [k|k v|k|k|k]; cbn [tree_key exec_tree map_exec] in *.
  - destruct (get_payload_spec lo hi Hlo Hhi t ls k Hok Hk) as (t' & -> & Hok' & Hm & _). cbn [mbind option_bind]. by exists t', ls.
  - destruct (insert_spec_calm fuel t ls k v Hok Hk Hsize Hcalm) as (it & t' & w & L & -> & Hok' & Hm & _). cbn [mbind option_bind]. exists t', ls. unfold put_new in Hm.
    destruct (tree_map t ls !! k); [rewrite bool_decide_false by done|rewrite bool_decide_true by done]; done.
  - destruct (erase_tree_spec t ls k Hok Hk Hsize) as (t' & ls' & -> & Hok' & Hm). cbn [mbind option_bind]. exists t', ls'.
    destruct (tree_map t ls !! k) eqn:E; [done|]. split; [done|]. split; [done|]. cbn [snd]. rewrite Hm. by apply delete_id.
  - destruct (erase_one_tree_spec t ls k Hok Hk Hsize (calm_room t ls k Hok Hk Hcalm)) as (t' & ls' & -> & Hok' & Hm). cbn [mbind option_bind]. exists t', ls'.
    destruct (tree_map t ls !! k) eqn:E; [done|]. split; [done|]. split; [done|]. cbn [snd]. rewrite Hm. by apply delete_id.
  - destruct (tree_find_spec lo hi Hlo Hhi t ls k Hok Hk) as (it & t1 & L & -> & Hok1 & Hm1 & Hit & HL). cbn [mbind option_bind]. rewrite <-Hm1 in *. cbn [fst snd]. destruct (tree_map t1 ls !! k) as [v|] eqn:E.
    + destruct HL as [L' ->]. destruct (erase_iterator_spec t1 ls it k v L' Hok1 Hsize Hit) as (t' & ls' & -> & Hok' & Hm'). cbn [mbind option_bind]. by exists t', ls'.
    + subst L. unfold erase_iterator. rewrite (at_end_spec _ _ _ Hit). cbn [mbind option_bind]. exists t1, ls. split; [done|]. split; [done|]. by rewrite delete_id.
Qed.

Lemma map_exec_size m (op : tree_op P) : (size (map_exec m op).2 <= S (size m))%nat.
Proof.
  destruct op as [k|k v|k|k|k]; cbn [map_exec].
  - cbn [snd]. lia.
  - destruct (m !! k) eqn:E; cbn [snd]; [lia|]. rewrite map_size_insert_None by done. lia.
  - destruct (m !! k) eqn:E; cbn [snd]; [|lia]. rewrite map_size_delete, E. unfold id. lia.
  - destruct (m !! k) eqn:E; cbn [snd]; [|lia]. rewrite map_size_delete, E. unfold id. lia.
  - cbn [snd]. rewrite map_size_delete. destruct (m !! k); unfold id; lia.
Qed.

(** C3: in a tree whose models put every key in its leaf, lookups, removals by key and at an
    iterator (with the merging of the leaves and parents they empty; [erase_one] while its
    search stays in the bitmap) and insertions that change no node but their leaf are memory
    safe, end, keep the invariant of the tree and answer as the map of the pairs of the
    leaves does, along any sequence of calls. *)
Theorem tree_refines_map fuel ops : forall t ls, tree_ok lo hi t ls -> Z.of_nat (size (tree_map t ls)) + zlen ops < 2 ^ 29 ->
  Forall (fun op => lo <= tree_key op <= hi) ops -> all_calm fuel t ops = true ->
  exists t' ls', exec_trees fuel t ops = Some ((map_execs (tree_map t ls) ops).1, t') /\ tree_ok lo hi t' ls' /\ tree_map t' ls' = (map_execs (tree_map t ls) ops).2.
Proof using Hlo Hhi.
  induction ops as [|op ops IH]; intros t ls Hok Hsize Hops Hcalm; [by exists t, ls|]. apply Forall_cons_1 in Hops as [Hop Hops]. cbn [all_calm] in Hcalm. apply andb_prop in Hcalm as [Hc Hcalm].
  unfold zlen in Hsize. cbn [length] in Hsize. destruct (exec_tree_step fuel t ls op Hok Hop ltac:(lia) Hc) as (t1 & ls1 & E1 & Hok1 & Hm1). cbn [exec_trees map_execs]. rewrite E1 in Hcalm |- *. cbn [mbind option_bind].
  pose proof (map_exec_size (tree_map t ls) op) as Hle. destruct (map_exec (tree_map t ls) op) as [r m1] eqn:Eop. cbn [fst snd] in *. subst m1.
  destruct (IH t1 ls1 Hok1 ltac:(unfold zlen; lia) Hops Hcalm) as (t' & ls' & -> & Hok' & Hm'). cbn [mbind option_bind]. destruct (map_execs (tree_map t1 ls1) ops) as [rs m']. by exists t', ls'.
Qed.

End Ops.
