(* ===== verification/AlexTreeCheck.v ===== *)
(** * ALEX: deciding the invariant of a tree (alex/src/alex.h)

    [tree_check] walks a tree and looks at everything [tree_ok] asks for: the slots of the
    data nodes, the blocks of pointers and the models of the model nodes, the links of the
    leaves, and that the models lead every stored key to the leaf that holds it.  It is
    sound, so the invariant can be established for trees the code builds. *)

From S2P Require Import Prelude Words Floats FloatScale FloatMono AlexBase AlexBitmap AlexSearch AlexModel AlexNode AlexLookup AlexResize.
From S2P Require Import AlexTree AlexRoute.
From Stdlib Require Import SpecFloat.
From stdpp Require Import gmap list.
Local Open Scope Z_scope.
Local Open Scope cxx_scope.

(** ** Data nodes *)

Definition all_between (a b : Z) (f : Z -> bool) : bool := forallb f (seqZ a (b - a)).

Lemma all_between_true a b f : all_between a b f = true -> forall i, a <= i < b -> f i = true.
Proof. intros H i Hi. eapply forallb_forall in H; [exact H|]. apply list_elem_of_In, elem_of_seqZ. lia. Qed.

Definition bitmap_check (bitmap : list Z) (bitmap_size data_capacity : Z) : bool :=
  (0 <? data_capacity) && (bitmap_size =? (data_capacity + 63) / 64) && (zlen bitmap =? bitmap_size) &&
  forallb (fun w => (0 <=? w) && (w <? 2 ^ 64)) bitmap && all_between data_capacity (64 * bitmap_size) (fun i => negb (bitv bitmap i)).

Lemma bitmap_check_ok bm size cap : bitmap_check bm size cap = true -> bitmap_ok bm size cap.
Proof.
  unfold bitmap_check. rewrite !andb_true_iff. intros [[[[Hcap Hsize] Hlen] Hwords] Hpad]. constructor; [lia|lia|lia| |].
  - intros i. unfold at_. destruct (rd bm i) as [w|] eqn:E; [|by unfold word64].
    unfold rd in E. destruct (0 <=? i); [|done]. apply list_elem_of_lookup_2, list_elem_of_In in E. rewrite forallb_forall in Hwords. specialize (Hwords w E). cbn [default from_option id]. unfold word64. apply andb_prop in Hwords. lia.
  - intros i Hi. apply negb_true_iff. by apply (all_between_true _ _ _ Hpad).
Qed.

Section Check.
Context {P : Type} (lo hi : Z).
Implicit Types (t : Alex P) (s : Store P).

Definition slots_check (s : Slots P) : bool :=
  bitmap_check (bitmap_ s) (bitmap_size_ s) (data_capacity_ s) && (zlen (key_slots_ s) =? data_capacity_ s) && (zlen (payload_slots_ s) =? data_capacity_ s) &&
  (0 <=? key_at s 0) && all_between 0 (data_capacity_ s) (fun i => (key_at s i <=? next_key s i) && eqb (bitv (bitmap_ s) i) (key_at s i <? next_key s i)) &&
  (num_keys_ s =? cnt (bitv (bitmap_ s)) 0 (data_capacity_ s)).

Lemma slots_check_ok (s : Slots P) : slots_check s = true -> slots_ok s.
Proof.
  unfold slots_check. rewrite !andb_true_iff. intros [[[[[Hbm Hk] Hp] H0] Hall] Hnum]. pose proof (all_between_true _ _ _ Hall) as H. constructor; try lia.
  - by apply bitmap_check_ok.
  - intros i Hi. specialize (H i Hi). apply andb_prop in H as [H _]. lia.
  - intros i Hi. specialize (H i Hi). apply andb_prop in H as [_ H]. by apply eqb_prop in H.
Qed.

Definition node_check (n : AlexDataNode P) : bool :=
  slots_check (slots_ n) && (data_capacity_ (slots_ n) <=? 2 ^ 30) && match expansion_threshold_ n with S754_nan => false | _ => true end &&
  negb (SFltb (f64_of_Z (data_capacity_ (slots_ n))) (expansion_threshold_ n)).

Lemma node_check_ok n : node_check n = true -> node_ok n.
Proof.
  unfold node_check. rewrite !andb_true_iff, negb_true_iff. intros [[[Hs Hf] Hn] Ht]. constructor; [by apply slots_check_ok|unfold fits; lia| |done].
  by destruct (expansion_threshold_ n).
Qed.

(** ** Model nodes *)

Definition in_range_check (a b : Z) (x : f64) : bool := match x with S754_finite _ _ e => (a <=? e) && (e <=? b) | S754_zero _ => true | _ => false end.

Lemma in_range_check_ok a b x : in_range_check a b x = true -> exp_in a b x.
Proof. destruct x; cbn; try done. lia. Qed.

Definition mid_range_check (x : f64) : bool :=
  match x with S754_finite _ m _ => Zpos (digits2_pos m) =? 53 | S754_zero _ => true | _ => false end && in_range_check (-900) 500 x.

Lemma mid_range_check_ok x : mid_range_check x = true -> mid_range x.
Proof.
  intros [Hn Hr]%andb_prop. split; [|by apply in_range_check_ok]. destruct x; try done. by apply Z.eqb_eq.
Qed.

Definition model_check (m : LinearModel) : bool :=
  mid_range_check (a_ m) && mid_range_check (b_ m) && match a_ m with S754_finite false _ _ => true | _ => false end &&
  match f64_trunc (predict_double m lo), f64_trunc (predict_double m hi) with Some l, Some h => (int_min <=? l) && (h <=? int_max) | _, _ => false end.

Lemma model_check_ok m : model_check m = true -> good_model lo hi m.
Proof.
  unfold model_check. rewrite !andb_true_iff. intros [[[Ha Hb] Hp] Hr]. constructor.
  - constructor; [by apply mid_range_check_ok| |by apply mid_range_check_ok]. by destruct (a_ m) as [| | |[] ? ?].
  - destruct (f64_trunc (predict_double m lo)) as [l|]; [|done]. exists l. split; [done|]. destruct (f64_trunc (predict_double m hi)) as [h|]; [|done]. apply andb_prop in Hr as [Hr _]. lia.
  - destruct (f64_trunc (predict_double m lo)) as [l|]; [|done]. destruct (f64_trunc (predict_double m hi)) as [h|]; [|done]. exists h. split; [done|]. apply andb_prop in Hr as [_ Hr]. lia.
Qed.

(** The runs of equal pointers, by the duplication factors of the children. *)
Fixpoint blocks_of (h : Heap) (fuel : nat) (children : list Z) : option (list (Z * Z)) :=
  match children, fuel with
  | [], _ => Some []
  | c :: _, S fuel =>
      x ← h !! c; blocks ← blocks_of h fuel (drop (Z.to_nat (2 ^ duplication_factor_ x)) children);
      Some ((c, duplication_factor_ x) :: blocks)
  | _, O => None
  end.

Definition factor_check (h : Heap) (b : Z * Z) : bool :=
  (0 <=? b.2) && (b.2 <? 31) && match h !! b.1 with Some x => duplication_factor_ x =? b.2 | None => false end.

Fixpoint aligned_check (start : Z) (blocks : list (Z * Z)) : bool :=
  match blocks with [] => true | (_, d) :: blocks => (start mod 2 ^ d =? 0) && aligned_check (start + 2 ^ d) blocks end.

Lemma aligned_check_ok blocks : forall start, aligned_check start blocks = true -> aligned start blocks.
Proof. induction blocks as [|[c d] blocks IH]; intros start; [done|]. cbn. intros [H1 H2]%andb_prop. split; [lia|by apply IH]. Qed.

Definition node_blocks_check (h : Heap) (n : AlexModelNode) (blocks : list (Z * Z)) : bool :=
  bool_decide (children_ n = pointers blocks) && (num_children_ n =? zlen (children_ n)) && forallb (factor_check h) blocks &&
  bool_decide (NoDup blocks.*1) && aligned_check 0 blocks && bool_decide (blocks <> []).

Lemma node_blocks_check_ok h n blocks : node_blocks_check h n blocks = true -> node_blocks h n blocks /\ blocks <> [].
Proof.
  unfold node_blocks_check. rewrite !andb_true_iff, !bool_decide_eq_true. intros [[[[[Hc Hn] Hf] Hd] Ha] Hne]. split; [|done]. constructor; [done|lia| |done|by apply aligned_check_ok].
  intros c d Hin%list_elem_of_In. rewrite forallb_forall in Hf. specialize (Hf _ Hin). unfold factor_check in Hf. cbn [fst snd] in Hf. destruct (h !! c) as [x|]; [|lia].
  split; [lia|]. exists x. split; [done|lia].
Qed.

Definition power_check (n : Z) : bool := (2 ^ Z.log2 n =? n) && (Z.log2 n <? 31).

Lemma power_check_ok n : power_check n = true -> small_power n.
Proof. intros [H1 H2]%andb_prop. exists (Z.log2 n). pose proof (Z.log2_nonneg n). lia. Qed.

(** ** The tree *)

Fixpoint covers_check s (h : nat) (p : Z) : option (list Z) :=
  leaf ← is_leaf s p;
  if (leaf : bool) then Some [p]
  else
    match h with
    | O => None
    | S h =>
        n ← model_node s p; blocks ← blocks_of (bases s) (length (children_ n)) (children_ n);
        if node_blocks_check (bases s) n blocks && model_check (AlexModel.model_ (base n)) && power_check (num_children_ n) then
          lss ← mapM (fun b : Z * Z => covers_check s h b.1) blocks; Some (concat lss)
        else None
    end.

Lemma covers_check_ok s h : forall p ls, covers_check s h p = Some ls -> covers lo hi s h p ls.
Proof.
  induction h as [|h IH]; intros p ls E; cbn [covers_check covers] in *; (destruct (is_leaf s p) as [[]|]; [|..]; cbn [mbind option_bind] in E; try done; try (by injection E as <-)).
  destruct (model_node s p) as [n|]; [|done]. cbn [mbind option_bind] in E. destruct (blocks_of _ _ _) as [blocks|]; [|done]. cbn [mbind option_bind] in E.
  destruct (node_blocks_check (bases s) n blocks) eqn:Eb; [|done]. destruct (model_check _) eqn:Em; [|done]. destruct (power_check _) eqn:Ep; [|done]. cbn [andb] in E.
  destruct (mapM _ blocks) as [lss|] eqn:El; [|done]. injection E as <-. apply node_blocks_check_ok in Eb as [Hb Hne]. apply mapM_Some in El.
  exists n, blocks, lss. split; [done|]. split; [done|]. split; [by apply model_check_ok|]. split; [done|]. split; [by apply power_check_ok|]. split; [|done].
  eapply Forall2_impl; [exact El|]. intros b l Hl. by apply IH.
Qed.

#[export] Instance neighbours_eq_dec : EqDecision Neighbours.
Proof. solve_decision. Defined.

Definition leaf_check t (ls : list Z) (i : nat) (l : Z) : bool :=
  match leaves (store t) !! l, neighbours (store t) !! l with
  | Some n, Some links => node_check n && bool_decide (links = links_at ls i) &&
      forallb (fun kv => (lo <=? kv.1) && (kv.1 <=? hi) && bool_decide (leads_to t kv.1 l)) (contents (slots_ n))
  | _, _ => false
  end.

Definition top_check t : bool :=
  match bases (store t) !! superroot_ t with Some b => negb (is_leaf_ b) | None => false end &&
  bool_decide (arrays (store t) !! superroot_ t = Some (1, [root_node_ t])) &&
  match bases (store t) !! root_node_ t with Some r => (0 <=? duplication_factor_ r) && (duplication_factor_ r <? 31) | None => false end.

Lemma top_check_ok t : top_check t = true -> top_ok t.
Proof.
  unfold top_check, top_ok. intros [[H1 H2%bool_decide_eq_true]%andb_prop H3]%andb_prop. split; [|split; [done|destruct (bases (store t) !! root_node_ t) as [r|]; [|done]; exists r; split; [done|lia]]]. destruct (bases (store t) !! superroot_ t) as [b|]; [|done]. exists b. split; [done|]. by apply negb_true_iff.
Qed.

(** The leaves of the tree from left to right, if the tree is well formed. *)
Definition tree_check t : option (list Z) :=
  ls ← covers_check (store t) (levels (store t)) (root_node_ t);
  if bool_decide (NoDup ls) && bool_decide (nullptr ∉ ls) && forallb (fun '(i, l) => leaf_check t ls i l) (imap pair ls) &&
     bool_decide (route (store t) (levels (store t)) (root_node_ t) lo = ls !! 0%nat) && top_check t
  then Some ls else None.

Theorem tree_check_sound t ls : tree_check t = Some ls -> tree_ok lo hi t ls.
Proof.
  unfold tree_check. destruct (covers_check _ _ _) as [ls0|] eqn:Ec; [|done]. cbn [mbind option_bind]. destruct (_ && _) eqn:E; [|done]. intros [= <-].
  rewrite !andb_true_iff, !bool_decide_eq_true in E. destruct E as [[[[Hd Hnull] Hl] Hfirst] Htop].
  assert (Hleaf : forall i l, ls0 !! i = Some l -> leaf_check t ls0 i l = true).
  { intros i l Hi. rewrite forallb_forall in Hl. specialize (Hl (i, l)). apply Hl, list_elem_of_In, list_elem_of_lookup. exists i. by rewrite list_lookup_imap, Hi. }
  constructor; [|done|done|..].
  - exists (levels (store t)). split; [done|]. by apply covers_check_ok.
  - intros l [i Hi]%list_elem_of_lookup. specialize (Hleaf i l Hi). unfold leaf_check in Hleaf. destruct (leaves (store t) !! l) as [n|]; [|done]. exists n. split; [done|].
    destruct (neighbours (store t) !! l); [|done]. rewrite !andb_true_iff in Hleaf. apply node_check_ok, Hleaf.
  - intros i l Hi. specialize (Hleaf i l Hi). unfold leaf_check in Hleaf. destruct (leaves (store t) !! l); [|done]. destruct (neighbours (store t) !! l); [|done].
    rewrite !andb_true_iff, bool_decide_eq_true in Hleaf. by destruct Hleaf as [[_ ->] _].
  - intros l n k v [i Hi]%list_elem_of_lookup En Hst. specialize (Hleaf i l Hi). unfold leaf_check in Hleaf. rewrite En in Hleaf. destruct (neighbours (store t) !! l); [|done].
    rewrite !andb_true_iff in Hleaf. destruct Hleaf as [_ Hall]. rewrite forallb_forall in Hall. apply elem_of_contents, list_elem_of_In in Hst. specialize (Hall _ Hst). cbn [fst] in Hall.
    rewrite !andb_true_iff, bool_decide_eq_true in Hall. split; [lia|by destruct Hall].
  - intros l Hr. unfold leads_to in Hr. by rewrite <-Hfirst.
  - by apply top_check_ok.
Qed.

End Check.
