(* ===== verification/Numerals.v ===== *)
(** * Decimal numerals in strings

    The conversions of the C++ library the benchmark uses on flags and on text key
    files: formatted input of an unsigned integer, [std::stoi] and [std::stoul].
    A conversion that throws is [None]. *)

From S2P Require Import Prelude Words Floats.
From Stdlib Require Import Ascii String.
Local Open Scope Z_scope.

Definition is_space (c : ascii) : bool :=
  let n := N_of_ascii c in ((9 <=? n) && (n <=? 13) || (n =? 32))%N.

Definition digit_of (c : ascii) : option Z :=
  let n := Z.of_N (N_of_ascii c) in
  if (48 <=? n) && (n <=? 57) then Some (n - 48) else None.

Fixpoint skip_spaces (s : string) : string :=
  match s with
  | String c s' => if is_space c then skip_spaces s' else s
  | EmptyString => s
  end.

(** The leading digits, and whether there were any. *)
Fixpoint read_digits (acc : Z) (seen : bool) (s : string) : Z * bool :=
  match s with
  | String c s' => match digit_of c with
                   | Some d => read_digits (acc * 10 + d) true s'
                   | None => (acc, seen)
                   end
  | EmptyString => (acc, seen)
  end.

(** An optional sign. *)
Definition read_sign (s : string) : bool * string :=
  match s with
  | String c s' =>
      if Ascii.eqb c "-" then (true, s') else if Ascii.eqb c "+" then (false, s') else (false, s)
  | EmptyString => (false, s)
  end.

(** Sign, magnitude and whether there were digits, after leading white space. *)
Definition read_numeral (s : string) : bool * Z * bool :=
  let '(neg, s) := read_sign (skip_spaces s) in
  let '(v, seen) := read_digits 0 false s in
  (neg, v, seen).

(** [ss >> key] for an unsigned type of 64 bits: leading white space is skipped, a
    minus sign negates modulo 2^64, a value that is too large gives the maximum
    and a line without digits gives 0. *)
Definition read_u64 (line : string) : Z :=
  let '(neg, v, seen) := read_numeral line in
  if negb seen then 0 else if u64_max <? v then u64_max else if (neg : bool) then wrap64 (- v) else v.

(** [std::stoi]: [invalid_argument] without digits, [out_of_range] outside [int]. *)
Definition stoi (s : string) : option Z :=
  let '(neg, v, seen) := read_numeral s in
  let z := if (neg : bool) then - v else v in
  if seen && (int_min <=? z) && (z <=? int_max) then Some z else None.

(** [std::stoul] likewise for 64 bits; a minus sign negates modulo 2^64. *)
Definition stoul (s : string) : option Z :=
  let '(neg, v, seen) := read_numeral s in
  if seen && (v <=? u64_max) then Some (if (neg : bool) then wrap64 (- v) else v) else None.
