(* ===== verification/Utils.v ===== *)
(** * Benchmark driver: key preparation (benchmark/utils.h, benchmark/zipf.h)

    [unique_data] works on two adjacent ranges of one array: [key1] starts at
    index 0 and [key2] at index [off2] of [mem], as [generate_operations] calls
    it.  [std::sort] and [std::unique] are modelled as the library specifies
    them, [std::random_shuffle] is the argument [shuffle], of which only that
    it permutes its range is assumed.

    The function is proved to remove from [key2] exactly the keys of [key1],
    except in one case: its inner loop reads [key1[size1]], which is [key2[0]],
    and when every key of [key1] is smaller than every key of [key2] the
    smallest key of [key2] is dropped although it is not in [key1]. *)

From S2P Require Import Prelude Words Floats.
From Stdlib Require Import SpecFloat.
From stdpp Require Import sorting.
Local Open Scope Z_scope.
Local Open Scope cxx_scope.

(** ** Ranges of an array *)

Definition range (mem : list Z) (lo n : Z) : list Z := take (Z.to_nat n) (drop (Z.to_nat lo) mem).

(** [mem] with the [zlen l] elements from [lo] on replaced by [l]. *)
Definition put_range (mem : list Z) (lo : Z) (l : list Z) : list Z :=
  take (Z.to_nat lo) mem ++ l ++ drop (Z.to_nat lo + length l) mem.

(** [std::sort(mem + lo, mem + lo + n)]. *)
Definition sort_range (mem : list Z) (lo n : Z) : list Z :=
  put_range mem lo (merge_sort Z.le (range mem lo n)).

(** The first element of every run of equal ones. *)
Fixpoint unique_adj (l : list Z) : list Z :=
  match l with
  | [] => []
  | x :: t => match t with
              | y :: _ => if x =? y then unique_adj t else x :: unique_adj t
              | [] => [x]
              end
  end.

(** [std::unique(mem + lo, mem + lo + n)]: the new memory and the new length; the
    elements after the new end stay what they were. *)
Definition unique_range (mem : list Z) (lo n : Z) : list Z * Z :=
  let u := unique_adj (range mem lo n) in (put_range mem lo u, zlen u).

(** ** unique_data *)

(** [while (key1[ptr1] < key2[ptr2] && ptr1 < size1) ptr1++;] *)
Definition skip_smaller (mem : list Z) (size1 off2 ptr1 ptr2 : Z) : option Z :=
  loop (S (length mem)) (fun ptr1 =>
    a ← mem.[ptr1];
    b ← mem.[off2 + ptr2];
    Some (if (a <? b) && (ptr1 <? size1) then inl (ptr1 + 1) else inr ptr1)) ptr1.

(** The two loops that compact [key2]; returns the memory and [result]. *)
Definition merge_out (mem : list Z) (size1 off2 size2 : Z) : option (list Z * Z) :=
  '(ptr2, result, mem) ← loop (S (S (length mem))) (fun '(ptr1, ptr2, result, mem) =>
    if (ptr1 <? size1) && (ptr2 <? size2) then
      ptr1 ← skip_smaller mem size1 off2 ptr1 ptr2;
      a ← mem.[ptr1];
      b ← mem.[off2 + ptr2];
      if a =? b then Some (inl (ptr1, ptr2 + 1, result, mem))
      else
        mem ← wr mem (off2 + result) b;
        Some (inl (ptr1, ptr2 + 1, result + 1, mem))
    else Some (inr (ptr2, result, mem))) (0, 0, 0, mem);
  loop (S (S (length mem))) (fun '(ptr2, result, mem) =>
    if ptr2 <? size2 then
      b ← mem.[off2 + ptr2];
      mem ← wr mem (off2 + result) b;
      Some (inl (ptr2 + 1, result + 1, mem))
    else Some (inr (mem, result))) (ptr2, result, mem).

(** Returns the memory, the new [size1] and the new [size2]; the returned
    pointer is [&key2[size2]]. *)
Definition unique_data (shuffle : list Z -> list Z) (mem : list Z) (size1 off2 size2 : Z)
    : option (list Z * Z * Z) :=
  let mem := sort_range mem 0 size1 in
  let '(mem, size1) := unique_range mem 0 size1 in
  let mem := sort_range mem off2 size2 in
  let '(mem, size2) := unique_range mem off2 size2 in
  '(mem, result) ← merge_out mem size1 off2 size2;
  Some (put_range mem off2 (shuffle (range mem off2 result)), size1, result).

(** ** Segments of memory *)

(** [mem] holds the list [l] from index [off] on. *)
Definition holds (mem : list Z) (off : Z) (l : list Z) : Prop :=
  forall i, 0 <= i < zlen l -> rd mem (off + i) = rd l i.

Lemma rd_take {A} (l : list A) n i : 0 <= i < n -> rd (take (Z.to_nat n) l) i = rd l i.
Proof. intros Hi. unfold rd. destruct (0 <=? i); [|done]. apply lookup_take_lt. lia. Qed.

Lemma rd_drop {A} (l : list A) n i : 0 <= n -> 0 <= i -> rd (drop (Z.to_nat n) l) i = rd l (n + i).
Proof.
  intros Hn Hi. unfold rd. destruct (Z.leb_spec 0 i), (Z.leb_spec 0 (n + i)); try lia.
  rewrite lookup_drop. f_equal. lia.
Qed.

Lemma zlen_range mem lo n : 0 <= lo -> 0 <= n -> lo + n <= zlen mem -> zlen (range mem lo n) = n.
Proof. intros. unfold range, zlen in *. rewrite length_take, length_drop. lia. Qed.

Lemma rd_range mem lo n i : 0 <= lo -> 0 <= i < n -> rd (range mem lo n) i = rd mem (lo + i).
Proof. intros Hlo Hi. unfold range. rewrite rd_take by lia. apply rd_drop; lia. Qed.

Lemma holds_range mem off l :
  0 <= off -> off + zlen l <= zlen mem -> holds mem off l -> range mem off (zlen l) = l.
Proof.
  intros H0 Hl Hh. pose proof (zlen_nonneg l). apply list_eq_rd; rewrite zlen_range by lia; [done|].
  intros i Hi. rewrite rd_range by lia. by apply Hh.
Qed.

Lemma zlen_put_range mem lo l : 0 <= lo -> lo + zlen l <= zlen mem -> zlen (put_range mem lo l) = zlen mem.
Proof.
  intros H0 Hl. unfold put_range, zlen in *. rewrite !length_app, length_take, length_drop. lia.
Qed.

Lemma rd_put_range mem lo l i :
  0 <= lo -> lo + zlen l <= zlen mem ->
  rd (put_range mem lo l) i = if (lo <=? i) && (i <? lo + zlen l) then rd l (i - lo) else rd mem i.
Proof.
  intros H0 Hl. pose proof (zlen_nonneg l). destruct (Z.lt_ge_cases i 0).
  { rewrite !rd_None by lia. by destruct (_ && _). }
  unfold put_range. assert (Ht : zlen (take (Z.to_nat lo) mem) = lo) by (unfold zlen in *; rewrite length_take; lia).
  rewrite rd_app, Ht by done. destruct (Z.ltb_spec i lo).
  { destruct (Z.leb_spec lo i); [lia|]. apply rd_take. lia. }
  destruct (Z.leb_spec lo i); [|lia]. rewrite rd_app by lia. cbn [andb].
  destruct (Z.ltb_spec (i - lo) (zlen l)), (Z.ltb_spec i (lo + zlen l)); try lia; [done|].
  replace (Z.to_nat lo + length l)%nat with (Z.to_nat (lo + zlen l)) by (unfold zlen; lia).
  rewrite rd_drop by lia. f_equal. lia.
Qed.

Lemma holds_put_range mem lo l : 0 <= lo -> lo + zlen l <= zlen mem -> holds (put_range mem lo l) lo l.
Proof.
  intros H0 Hl i Hi. rewrite rd_put_range by done. replace (lo + i - lo) with i by lia.
  repeat (btest_case; try lia); done.
Qed.

(** ** Sorting and removing duplicates *)

Definition increasing (l : list Z) : Prop := StronglySorted Z.lt l.

Lemma unique_adj_elem x l : x ∈ unique_adj l <-> x ∈ l.
Proof.
  induction l as [|y [|z t] IH]; [done|done|]. cbn [unique_adj] in *. destruct (Z.eqb_spec y z) as [->|].
  - rewrite IH. rewrite !elem_of_cons. tauto.
  - rewrite elem_of_cons, IH, (elem_of_cons _ x y). done.
Qed.

Lemma unique_adj_length l : (length (unique_adj l) <= length l)%nat.
Proof.
  induction l as [|y [|z t] IH]; [done|done|]. cbn [unique_adj] in *. destruct (y =? z); simpl in *; lia.
Qed.

Lemma unique_adj_increasing l : StronglySorted Z.le l -> increasing (unique_adj l).
Proof.
  unfold increasing. induction 1 as [|y l Hs IH Hall]; [constructor|].
  destruct l as [|z t]; [repeat constructor|]. cbn [unique_adj] in *. destruct (Z.eqb_spec y z); [done|].
  constructor; [done|]. apply Forall_forall. intros x Hx. apply (proj1 (unique_adj_elem x (z :: t))) in Hx.
  rewrite Forall_forall in Hall. pose proof (Hall x Hx). pose proof (Hall z ltac:(constructor)).
  apply elem_of_cons in Hx as [->|Hx]; [lia|]. inversion_clear Hs as [|? ? _ Ht]. rewrite Forall_forall in Ht.
  specialize (Ht x Hx). lia.
Qed.

(** What [std::sort] and [std::unique] make of a range. *)
Definition distinct (l : list Z) : list Z := unique_adj (merge_sort Z.le l).

Lemma distinct_elem x l : x ∈ distinct l <-> x ∈ l.
Proof. unfold distinct. rewrite unique_adj_elem. by rewrite merge_sort_Permutation. Qed.

Lemma distinct_increasing l : increasing (distinct l).
Proof. apply unique_adj_increasing, StronglySorted_merge_sort; apply _. Qed.

Lemma distinct_length l : zlen (distinct l) <= zlen l.
Proof.
  unfold distinct, zlen. pose proof (unique_adj_length (merge_sort Z.le l)).
  rewrite (Permutation_length (merge_sort_Permutation Z.le l)) in H. lia.
Qed.

Lemma increasing_lt l i j x y :
  increasing l -> 0 <= i < j -> rd l i = Some x -> rd l j = Some y -> x < y.
Proof.
  intros Hs. revert i j. induction Hs as [|z l Hs IH Hall]; intros i j Hij Hx Hy.
  { by rewrite rd_None in Hx by (unfold zlen; simpl; lia). }
  assert (Hcons : forall k, 0 < k -> rd (z :: l) k = rd l (k - 1)).
  { intros k Hk. change (z :: l) with ([z] ++ l). rewrite rd_app by lia. unfold zlen at 1. simpl length.
    destruct (Z.ltb_spec k (Z.of_nat 1)); [lia|]. done. }
  rewrite (Hcons j) in Hy by lia. destruct (Z.eq_dec i 0) as [->|].
  - injection Hx as <-. rewrite Forall_forall in Hall. apply Hall. unfold rd in Hy.
    destruct (0 <=? j - 1); [|done]. by eapply list_elem_of_lookup_2.
  - rewrite (Hcons i) in Hx by lia. eapply (IH (i - 1) (j - 1)); [lia|done|done].
Qed.

(** ** The merge *)

Section Merge.
Context (K1 K2 M : list Z) (off2 : Z).
Hypothesis H1 : holds M 0 K1.
Hypothesis H2 : holds M off2 K2.
Hypothesis Hoff : zlen K1 <= off2.
Hypothesis Hend : off2 + zlen K2 <= zlen M.
Hypothesis Hinc1 : increasing K1.
Hypothesis Hinc2 : increasing K2.

Abbreviation new k := (bool_decide (k ∉ K1)).

(** The keys of [key2] kept among the first [n]. *)
Definition kept (n : Z) : list Z := filter (fun k => k ∉ K1) (take (Z.to_nat n) K2).

(** [key1] and the unread part of [key2] are as before; the compacted keys are [l]. *)
Record merging (mem l : list Z) (ptr2 : Z) : Prop := {
  mg_len : zlen mem = zlen M;
  mg_room : zlen l <= ptr2 <= zlen K2;
  mg_low : forall i, 0 <= i < off2 -> rd mem i = rd M i;
  mg_rest : forall j, zlen l <= j < zlen K2 -> rd mem (off2 + j) = rd K2 j;
  mg_done : holds mem off2 l
}.

Lemma merging_start : merging M [] 0.
Proof.
  constructor; try done.
  - unfold zlen at 1. simpl. pose proof (zlen_nonneg K2). lia.
  - intros i Hi. unfold zlen in Hi. simpl in Hi. lia.
Qed.

Lemma merging_skip mem l ptr2 : merging mem l ptr2 -> ptr2 < zlen K2 -> merging mem l (ptr2 + 1).
Proof. intros [] Hlt. constructor; try done. lia. Qed.

(** Writing the current key of [key2] behind the compacted ones. *)
Lemma merging_write mem l ptr2 b :
  merging mem l ptr2 -> rd K2 ptr2 = Some b -> 0 <= off2 ->
  exists mem', wr mem (off2 + zlen l) b = Some mem' /\ merging mem' (l ++ [b]) (ptr2 + 1).
Proof.
  intros [Hl Hr Hlow Hrest Hdone] Hb H0. apply rd_Some in Hb as Hlt. pose proof (zlen_nonneg l) as Hz.
  destruct (wr_in mem (off2 + zlen l) b) as [mem' E]; [lia|]. exists mem'. split; [done|].
  assert (Hz' : zlen (l ++ [b]) = zlen l + 1) by (rewrite zlen_app; done).
  constructor; [by rewrite (zlen_wr _ _ _ _ E)|lia| | |].
  - intros i Hi. rewrite (rd_wr _ _ _ _ _ E). btest_case; [lia|]. by apply Hlow.
  - intros j Hj. rewrite (rd_wr _ _ _ _ _ E). btest_case; [lia|]. apply Hrest. lia.
  - intros i Hi. rewrite (rd_wr _ _ _ _ _ E), rd_app by lia.
    destruct (Z.ltb_spec i (zlen l)); btest_case; try lia; [by apply Hdone; lia|].
    by replace (i - zlen l) with 0 by lia.
Qed.

Lemma K1_at mem l ptr2 i : merging mem l ptr2 -> 0 <= i < zlen K1 -> rd mem i = rd K1 i.
Proof. intros Hm Hi. rewrite (mg_low _ _ _ Hm) by lia. by apply (H1 i). Qed.

(** The inner loop stops at the first key of [key1] not below [b], or past the end. *)
Lemma skip_smaller_spec mem l ptr1 ptr2 b :
  merging mem l ptr2 -> rd K2 ptr2 = Some b -> 0 <= ptr1 <= zlen K1 -> 0 <= off2 ->
  exists p, skip_smaller mem (zlen K1) off2 ptr1 ptr2 = Some p /\ ptr1 <= p <= zlen K1 /\
    (forall i a, ptr1 <= i < p -> rd K1 i = Some a -> a < b) /\
    (forall a, p < zlen K1 -> rd K1 p = Some a -> b <= a).
Proof.
  intros Hm Hb Hp H0. apply rd_Some in Hb as Hlt. pose proof (mg_len _ _ _ Hm) as Hlen.
  unfold skip_smaller.
  destruct (loop_spec (fun p => ptr1 <= p <= zlen K1 /\ forall i a, ptr1 <= i < p -> rd K1 i = Some a -> a < b)
    (fun p => ptr1 <= p <= zlen K1 /\ (forall i a, ptr1 <= i < p -> rd K1 i = Some a -> a < b) /\
      (forall a, p < zlen K1 -> rd K1 p = Some a -> b <= a))
    (fun p => zlen K1 - p)
    (fun ptr1 => a ← mem.[ptr1]; b ← mem.[off2 + ptr2];
       Some (if (a <? b) && (ptr1 <? zlen K1) then inl (ptr1 + 1) else inr ptr1)))
    with (fuel := S (length mem)) (s := ptr1) as (p & E & HQ); [|split; [lia|intros; lia]| |lia|by exists p].
  - intros p (Hr & Hall). destruct (rd_in mem p) as [a Ea]; [lia|]. rewrite Ea. cbn [mbind option_bind].
    rewrite (mg_rest _ _ _ Hm), Hb by (pose proof (mg_room _ _ _ Hm); lia). cbn [mbind option_bind].
    destruct (Z.ltb_spec a b), (Z.ltb_spec p (zlen K1)); cbn [andb].
    + split; [|lia]. split; [lia|]. intros i a' Hi Ha'. destruct (Z.eq_dec i p) as [->|]; [|by apply (Hall i); [lia|]].
      rewrite (K1_at _ _ _ _ Hm) in Ea by lia. congruence.
    + split; [lia|]. split; [done|lia].
    + split; [lia|]. split; [done|]. intros a' _ Ha'. rewrite (K1_at _ _ _ _ Hm) in Ea by lia. congruence.
    + split; [lia|]. split; [done|lia].
  - unfold zlen in *. lia.
Qed.

Lemma kept_snoc n b : 0 <= n -> rd K2 n = Some b ->
  kept (n + 1) = kept n ++ (if new b then [b] else []).
Proof.
  intros Hn Hb. unfold kept. replace (Z.to_nat (n + 1)) with (S (Z.to_nat n)) by lia.
  rewrite (take_S_r _ _ b) by (unfold rd in Hb; by destruct (0 <=? n)).
  rewrite filter_app. f_equal. rewrite filter_cons, filter_nil. by repeat case_decide; case_bool_decide.
Qed.

(** Where a key of [key2] stands relative to [key1]. *)
Lemma not_in_K1 b p :
  0 <= p <= zlen K1 -> (forall i a, 0 <= i < p -> rd K1 i = Some a -> a < b) ->
  (forall a, p < zlen K1 -> rd K1 p = Some a -> b < a) -> b ∉ K1.
Proof.
  intros Hp Hlo Hhi (n & Hn)%list_elem_of_lookup_1.
  assert (Hrd : rd K1 (Z.of_nat n) = Some b).
  { unfold rd. destruct (Z.leb_spec 0 (Z.of_nat n)); [|lia]. by rewrite Nat2Z.id. }
  apply rd_Some in Hrd as Hr. destruct (Z.lt_ge_cases (Z.of_nat n) p).
  { specialize (Hlo (Z.of_nat n) b ltac:(lia) Hrd). lia. }
  destruct (rd_in K1 p) as [a Ha]; [lia|]. specialize (Hhi a ltac:(lia) Ha).
  destruct (Z.eq_dec (Z.of_nat n) p) as [E|]; [rewrite E in Hrd; simplify_eq; lia|].
  pose proof (increasing_lt K1 p (Z.of_nat n) a b Hinc1 ltac:(lia) Ha Hrd). lia.
Qed.

(** The unread tail is copied behind the compacted keys. *)
Lemma copy_rest mem l ptr2 fuel :
  merging mem l ptr2 -> 0 <= off2 -> zlen K2 - ptr2 < Z.of_nat fuel ->
  exists mem' l', loop fuel (fun '(ptr2, result, mem) =>
      if ptr2 <? zlen K2 then
        b ← mem.[off2 + ptr2]; mem ← wr mem (off2 + result) b; Some (inl (ptr2 + 1, result + 1, mem))
      else Some (inr (mem, result))) (ptr2, zlen l, mem) = Some (mem', zlen l') /\
    merging mem' l' (zlen K2) /\ l' = l ++ drop (Z.to_nat ptr2) K2.
Proof.
  revert mem l ptr2. induction fuel as [|fuel IH]; intros mem l ptr2 Hm H0 Hf.
  { pose proof (mg_room _ _ _ Hm). lia. }
  pose proof (mg_room _ _ _ Hm) as Hr. pose proof (zlen_nonneg l). cbn [loop].
  destruct (Z.ltb_spec ptr2 (zlen K2)).
  - destruct (rd_in K2 ptr2) as [b Hb]; [lia|]. rewrite (mg_rest _ _ _ Hm), Hb by lia. cbn [mbind option_bind].
    destruct (merging_write mem l ptr2 b Hm Hb H0) as (mem' & -> & Hm'). cbn [mbind option_bind].
    replace (zlen l + 1) with (zlen (l ++ [b])) by (rewrite zlen_app; done).
    destruct (IH mem' (l ++ [b]) (ptr2 + 1) Hm' H0 ltac:(lia)) as (mem'' & l' & E & Hm'' & ->).
    do 2 eexists. split; [exact E|]. split; [done|]. rewrite <-app_assoc. f_equal.
    replace (Z.to_nat (ptr2 + 1)) with (S (Z.to_nat ptr2)) by lia. symmetry. apply drop_S.
    unfold rd in Hb. by destruct (0 <=? ptr2).
  - assert (ptr2 = zlen K2) as -> by lia. exists mem, l. split; [done|]. split; [done|].
    rewrite drop_ge by (unfold zlen; lia). by rewrite app_nil_r.
Qed.

(** The slot after [key1] is a left-over of [key1], if it is not [key2[0]]. *)
Hypothesis Hleft : zlen K1 < off2 -> forall x, rd M (zlen K1) = Some x -> x ∈ K1.

Lemma kept_below ptr2 b x : 0 <= ptr2 -> rd K2 ptr2 = Some b -> x ∈ kept ptr2 -> x < b.
Proof.
  intros Hp Hb Hx. unfold kept in Hx. apply list_elem_of_filter in Hx as [_ Hx].
  apply rd_elem in Hx as (i & Hi). apply rd_Some in Hi as Hr.
  assert (i < ptr2) by (unfold zlen in Hr; rewrite length_take in Hr; lia).
  rewrite rd_take in Hi by lia. by apply (increasing_lt K2 i ptr2); [|lia| |].
Qed.

(** Some key of [key1] is not below the whole of [key2], or a left-over of
    [key1] separates the two, or one of them is empty. *)
Definition separated : Prop :=
  zlen K1 < off2 \/ K1 = [] \/ K2 = [] \/ exists a b, a ∈ K1 /\ rd K2 0 = Some b /\ b <= a.

(** The key past the end of [key1] never equals the current key of [key2]. *)
Lemma past_end_differs mem ptr2 a b :
  separated -> merging mem (kept ptr2) ptr2 -> 0 <= ptr2 -> 0 <= off2 -> 0 < zlen K1 ->
  (forall i x, 0 <= i < zlen K1 -> rd K1 i = Some x -> x < b) ->
  rd mem (zlen K1) = Some a -> rd K2 ptr2 = Some b -> a <> b.
Proof.
  intros Hg Hm Hp H0 Hpos Hall Ha Hb ->. apply rd_Some in Hb as Hlt.
  assert (HK1 : forall x, x ∈ K1 -> x < b).
  { intros x (i & Hi)%rd_elem. apply rd_Some in Hi as Hr. by apply (Hall i). }
  destruct (Z.lt_ge_cases (zlen K1) off2) as [Hlo|Hge].
  { rewrite (mg_low _ _ _ Hm) in Ha by lia. specialize (HK1 b (Hleft Hlo b Ha)). lia. }
  destruct Hg as [?|[E|[E|(x & y & Hx & Hy & Hxy)]]]; [lia|by rewrite E in Hpos| |].
  { rewrite E in Hlt. unfold zlen in Hlt. simpl in Hlt. lia. }
  assert (Hp0 : 0 < ptr2).
  { destruct (Z.eq_dec ptr2 0) as [->|]; [|lia]. specialize (HK1 x Hx). rewrite Hb in Hy. simplify_eq. lia. }
  replace (zlen K1) with (off2 + 0) in Ha by lia.
  destruct (kept ptr2) as [|z l] eqn:Ek.
  - rewrite (mg_rest _ _ _ Hm) in Ha by (unfold zlen at 1; simpl; lia).
    pose proof (increasing_lt K2 0 ptr2 b b Hinc2 ltac:(lia) Ha Hb). lia.
  - rewrite (mg_done _ _ _ Hm) in Ha by (unfold zlen; simpl length; lia). injection Ha as <-.
    pose proof (kept_below ptr2 z z Hp Hb ltac:(rewrite Ek; constructor)). lia.
Qed.

(** The body of the main loop. *)
Definition merge_body '(ptr1, ptr2, result, mem) : option ((Z * Z * Z * list Z) + (Z * Z * list Z)) :=
  if (ptr1 <? zlen K1) && (ptr2 <? zlen K2) then
    ptr1 ← skip_smaller mem (zlen K1) off2 ptr1 ptr2;
    a ← mem.[ptr1];
    b ← mem.[off2 + ptr2];
    if a =? b then Some (inl (ptr1, ptr2 + 1, result, mem))
    else
      mem ← wr mem (off2 + result) b;
      Some (inl (ptr1, ptr2 + 1, result + 1, mem))
  else Some (inr (ptr2, result, mem)).

(** The keys of [key1] before [ptr1] are below what is left of [key2]. *)
Definition passed (ptr1 ptr2 : Z) : Prop :=
  forall i a j b, 0 <= i < ptr1 -> rd K1 i = Some a -> ptr2 <= j -> rd K2 j = Some b -> a < b.

Lemma passed_all ptr1 ptr2 p b : passed ptr1 ptr2 -> rd K2 ptr2 = Some b -> 0 <= ptr2 ->
  (forall i a, ptr1 <= i < p -> rd K1 i = Some a -> a < b) -> 0 <= ptr1 <= p ->
  (forall i a, 0 <= i < p -> rd K1 i = Some a -> a < b) /\ passed p (ptr2 + 1).
Proof.
  intros Hps Hb H0 Hskip Hp.
  assert (Hall : forall i a, 0 <= i < p -> rd K1 i = Some a -> a < b).
  { intros i a Hi Ha. destruct (Z.lt_ge_cases i ptr1); [apply (Hps i a ptr2 b)|apply (Hskip i a)]; done || lia. }
  split; [done|]. intros i a j b' Hi Ha Hj Hb'. specialize (Hall i a Hi Ha).
  pose proof (increasing_lt K2 ptr2 j b b' Hinc2 ltac:(lia) Hb Hb'). lia.
Qed.

(** One round decides the fate of one key of [key2]. *)
Lemma merge_round mem ptr1 ptr2 :
  separated -> 0 <= off2 -> merging mem (kept ptr2) ptr2 -> passed ptr1 ptr2 ->
  0 <= ptr1 < zlen K1 -> 0 <= ptr2 < zlen K2 ->
  exists p mem', merge_body (ptr1, ptr2, zlen (kept ptr2), mem) =
      Some (inl (p, ptr2 + 1, zlen (kept (ptr2 + 1)), mem')) /\
    merging mem' (kept (ptr2 + 1)) (ptr2 + 1) /\ passed p (ptr2 + 1) /\ 0 <= p <= zlen K1.
Proof.
  intros Hsep H0 Hm Hps Hp1 Hp2. destruct (rd_in K2 ptr2) as [b Hb]; [lia|].
  destruct (skip_smaller_spec mem (kept ptr2) ptr1 ptr2 b Hm Hb ltac:(lia) H0) as (p & Ep & Hp & Hskip & Hstop).
  destruct (passed_all ptr1 ptr2 p b Hps Hb ltac:(lia) Hskip ltac:(lia)) as [Hall Hps'].
  pose proof (mg_len _ _ _ Hm) as Hlen. pose proof (mg_room _ _ _ Hm) as Hroom.
  destruct (rd_in mem p) as [a Ha]; [lia|]. unfold merge_body.
  destruct (Z.ltb_spec ptr1 (zlen K1)); [|lia]. destruct (Z.ltb_spec ptr2 (zlen K2)); [|lia]. cbn [andb].
  rewrite Ep. cbn [mbind option_bind]. rewrite Ha. cbn [mbind option_bind].
  rewrite (mg_rest _ _ _ Hm), Hb by lia. cbn [mbind option_bind].
  assert (Hin : p < zlen K1 -> a = b -> b ∈ K1).
  { intros Hlt ->. rewrite (K1_at _ _ _ _ Hm) in Ha by lia. apply rd_elem. by exists p. }
  assert (Hout : (p < zlen K1 -> a <> b) -> b ∉ K1).
  { intros Hne. apply (not_in_K1 b p); [lia|done|]. intros a' Hlt Ha'. specialize (Hstop a' Hlt Ha').
    rewrite (K1_at _ _ _ _ Hm) in Ha by lia. rewrite Ha in Ha'. simplify_eq. specialize (Hne Hlt). lia. }
  rewrite (kept_snoc ptr2 b) by (done || lia). destruct (Z.eqb_spec a b) as [Eab|Nab].
  - assert (p < zlen K1) as Hlt.
    { apply Z.nle_gt. intros Hge. assert (p = zlen K1) as -> by lia.
      by apply (past_end_differs mem ptr2 a b Hsep Hm); [lia|lia|lia|done|done|done|]. }
    rewrite bool_decide_eq_false_2 by (intros Hn; by apply Hn, Hin). rewrite app_nil_r.
    exists p, mem. split; [done|]. split; [apply merging_skip; [done|lia]|]. split; [done|lia].
  - rewrite bool_decide_eq_true_2 by (by apply Hout).
    destruct (merging_write mem (kept ptr2) ptr2 b Hm Hb H0) as (mem' & -> & Hm'). cbn [mbind option_bind].
    exists p, mem'. replace (zlen (kept ptr2) + 1) with (zlen (kept ptr2 ++ [b])) by (by rewrite zlen_app).
    split; [done|]. split; [done|]. split; [done|lia].
Qed.

Lemma merge_loop_spec : separated -> 0 <= off2 -> forall fuel ptr1 ptr2 mem,
  merging mem (kept ptr2) ptr2 -> passed ptr1 ptr2 -> 0 <= ptr1 <= zlen K1 -> 0 <= ptr2 <= zlen K2 ->
  zlen K2 - ptr2 < Z.of_nat fuel ->
  exists ptr2' mem', loop fuel merge_body (ptr1, ptr2, zlen (kept ptr2), mem) =
      Some (ptr2', zlen (kept ptr2'), mem') /\
    merging mem' (kept ptr2') ptr2' /\ 0 <= ptr2' <= zlen K2 /\
    forall j b, ptr2' <= j -> rd K2 j = Some b -> b ∉ K1.
Proof.
  intros Hsep H0 fuel. induction fuel as [|fuel IH]; intros ptr1 ptr2 mem Hm Hps Hp1 Hp2 Hf; [lia|].
  destruct (decide (ptr1 < zlen K1 /\ ptr2 < zlen K2)) as [[Hl1 Hl2]|Hno].
  - destruct (merge_round mem ptr1 ptr2 Hsep H0 Hm Hps ltac:(lia) ltac:(lia)) as (p & mem' & E & Hm' & Hps' & Hp).
    cbn [loop]. rewrite E. apply (IH p (ptr2 + 1) mem'); [done|done|lia|lia|lia].
  - cbn [loop]. unfold merge_body at 1.
    replace ((ptr1 <? zlen K1) && (ptr2 <? zlen K2)) with false
      by (repeat (btest_case; try lia); done).
    exists ptr2, mem. split; [done|]. split; [done|]. split; [lia|]. intros j b Hj Hb.
    apply rd_Some in Hb as Hr. apply (not_in_K1 b (zlen K1)); [lia| |lia].
    intros i a Hi Ha. apply (Hps i a j b); [lia|done|done|done].
Qed.

(** Unless [key1] lies below [key2], the merge keeps exactly the keys that are not in [key1]. *)
Lemma merge_out_spec :
  separated -> 0 <= off2 ->
  exists mem, merge_out M (zlen K1) off2 (zlen K2) = Some (mem, zlen (filter (fun k => k ∉ K1) K2)) /\
    merging mem (filter (fun k => k ∉ K1) K2) (zlen K2).
Proof.
  intros Hsep H0. unfold merge_out. fold merge_body. pose proof (zlen_nonneg K1). pose proof (zlen_nonneg K2).
  destruct (merge_loop_spec Hsep H0 (S (S (length M))) 0 0 M) as (ptr2 & mem & E & Hm & Hp & Hrest).
  - apply merging_start.
  - intros i a j b Hi. lia.
  - lia.
  - lia.
  - unfold zlen in *. lia.
  - change (zlen (kept 0)) with 0 in E.
    rewrite E. cbn [mbind option_bind].
    destruct (copy_rest mem (kept ptr2) ptr2 (S (S (length mem))) Hm H0) as (mem' & l' & E' & Hm' & ->).
    { pose proof (mg_len _ _ _ Hm). unfold zlen in *. lia. }
    assert (Hl : kept ptr2 ++ drop (Z.to_nat ptr2) K2 = filter (fun k => k ∉ K1) K2).
    { rewrite <-(take_drop (Z.to_nat ptr2) K2) at 2. rewrite filter_app. unfold kept. f_equal. symmetry.
      apply filter_every. intros b (i & Hi)%rd_elem.
      apply rd_Some in Hi as Hr. rewrite rd_drop in Hi by lia. apply (Hrest (ptr2 + i)); [lia|done]. }
    rewrite Hl in *. by exists mem'.
Qed.

(** When [key2] starts right after [key1] and above it, its first key is lost. *)
Lemma merge_out_below b t :
  zlen K1 = off2 -> 0 < zlen K1 -> K2 = b :: t -> (forall a, a ∈ K1 -> a < b) ->
  exists mem, merge_out M (zlen K1) off2 (zlen K2) = Some (mem, zlen t) /\ merging mem t (zlen K2).
Proof.
  intros Hadj Hpos HK2 Hall. assert (Hz : zlen K2 = zlen t + 1) by (rewrite HK2; unfold zlen; simpl length; lia).
  pose proof (zlen_nonneg t) as Ht. assert (Hb : rd K2 0 = Some b) by (by rewrite HK2).
  destruct (skip_smaller_spec M [] 0 0 b merging_start Hb ltac:(lia) ltac:(lia)) as (p & Ep & Hp & _ & Hstop).
  assert (p = zlen K1) as ->.
  { destruct (Z.eq_dec p (zlen K1)); [done|]. destruct (rd_in K1 p) as [a Ha]; [lia|].
    specialize (Hstop a ltac:(lia) Ha). specialize (Hall a ltac:(apply rd_elem; by exists p)). lia. }
  assert (Hm0 : rd M off2 = Some b) by (rewrite <-(Z.add_0_r off2), (H2 0) by lia; done).
  unfold merge_out. fold merge_body.
  assert (E : loop (S (S (length M))) merge_body (0, 0, 0, M) = Some (1, 0, M)).
  { cbn [loop]. unfold merge_body at 1. destruct (Z.ltb_spec 0 (zlen K1)); [|lia].
    destruct (Z.ltb_spec 0 (zlen K2)); [|lia]. cbn [andb]. rewrite Ep. cbn [mbind option_bind].
    rewrite Hadj, Z.add_0_r, Hm0. cbn [mbind option_bind]. rewrite Z.eqb_refl. unfold merge_body at 1.
    rewrite Hadj, Z.ltb_irrefl. done. }
  rewrite E. cbn [mbind option_bind].
  destruct (copy_rest M [] 1 (S (S (length M)))) as (mem & l & E' & Hm & ->).
  - apply (merging_skip M [] 0 merging_start). lia.
  - lia.
  - unfold zlen in *. lia.
  - assert (Hd : drop (Z.to_nat 1) K2 = t) by (by rewrite HK2). rewrite Hd in *. by exists mem.
Qed.

End Merge.

(** ** Correctness of unique_data *)

(** Sorting and deduplicating both ranges, before the merge. *)
Definition prepared (mem : list Z) (size1 size2 : Z) : list Z :=
  put_range (put_range (put_range (put_range mem 0 (merge_sort Z.le (range mem 0 size1)))
    0 (distinct (range mem 0 size1)))
    size1 (merge_sort Z.le (range mem size1 size2))) size1 (distinct (range mem size1 size2)).

Lemma zlen_merge_sort l : zlen (merge_sort Z.le l) = zlen l.
Proof. unfold zlen. by rewrite (Permutation_length (merge_sort_Permutation Z.le l)). Qed.

Lemma range_put_same mem lo l : 0 <= lo -> lo + zlen l <= zlen mem -> range (put_range mem lo l) lo (zlen l) = l.
Proof. intros H0 Hl. apply holds_range; [done|by rewrite zlen_put_range|by apply holds_put_range]. Qed.

Lemma range_ext mem mem' lo n :
  0 <= lo -> 0 <= n -> lo + n <= zlen mem -> lo + n <= zlen mem' ->
  (forall i, lo <= i < lo + n -> rd mem i = rd mem' i) -> range mem lo n = range mem' lo n.
Proof.
  intros H0 Hn Hl Hl' Heq. apply list_eq_rd; rewrite !zlen_range by lia; [done|].
  intros i Hi. rewrite !rd_range by lia. apply Heq. lia.
Qed.

Section Prepared.
Context (mem : list Z) (size1 size2 : Z).
Hypothesis Hs1 : 0 <= size1.
Hypothesis Hs2 : 0 <= size2.
Hypothesis Hfit : size1 + size2 <= zlen mem.

Let k1 := range mem 0 size1.
Let k2 := range mem size1 size2.

Lemma zlen_k1 : zlen k1 = size1.
Proof. apply zlen_range; lia. Qed.

Lemma zlen_k2 : zlen k2 = size2.
Proof. apply zlen_range; lia. Qed.

Lemma unique_data_prepared shuffle :
  unique_data shuffle mem size1 size1 size2 =
    ('(mem, result) ← merge_out (prepared mem size1 size2) (zlen (distinct k1)) size1 (zlen (distinct k2));
     Some (put_range mem size1 (shuffle (range mem size1 result)), zlen (distinct k1), result)).
Proof.
  pose proof zlen_k1 as Z1. pose proof zlen_k2 as Z2. pose proof (distinct_length k1). pose proof (distinct_length k2).
  pose proof (zlen_nonneg (distinct k1)). pose proof (zlen_merge_sort k1). pose proof (zlen_merge_sort k2).
  unfold unique_data, unique_range, sort_range. fold k1.
  set (m1 := put_range mem 0 (merge_sort Z.le k1)).
  assert (L1 : zlen m1 = zlen mem) by (unfold m1; rewrite zlen_put_range; lia).
  assert (R1 : range m1 0 size1 = merge_sort Z.le k1).
  { assert (R : range m1 0 (zlen (merge_sort Z.le k1)) = merge_sort Z.le k1) by (apply range_put_same; lia).
    by rewrite zlen_merge_sort, Z1 in R. }
  rewrite R1. change (unique_adj (merge_sort Z.le k1)) with (distinct k1). cbv zeta.
  set (m2 := put_range m1 0 (distinct k1)).
  assert (L2 : zlen m2 = zlen mem) by (unfold m2; rewrite zlen_put_range; lia).
  assert (R2 : range m2 size1 size2 = k2).
  { apply range_ext; try lia. intros i Hi. unfold m2. rewrite rd_put_range by lia.
    unfold m1. rewrite rd_put_range by lia. repeat (btest_case; try lia); done. }
  rewrite R2. set (m3 := put_range m2 size1 (merge_sort Z.le k2)).
  assert (R3 : range m3 size1 size2 = merge_sort Z.le k2).
  { assert (R : range m3 size1 (zlen (merge_sort Z.le k2)) = merge_sort Z.le k2) by (apply range_put_same; lia).
    by rewrite zlen_merge_sort, Z2 in R. }
  rewrite R3. done.
Qed.

(** The memory the merge starts from. *)
Lemma prepared_spec :
  zlen (prepared mem size1 size2) = zlen mem /\
  holds (prepared mem size1 size2) 0 (distinct k1) /\ holds (prepared mem size1 size2) size1 (distinct k2) /\
  (zlen (distinct k1) < size1 ->
     forall x, rd (prepared mem size1 size2) (zlen (distinct k1)) = Some x -> x ∈ distinct k1).
Proof.
  pose proof zlen_k1 as Z1. pose proof zlen_k2 as Z2. pose proof (distinct_length k1). pose proof (distinct_length k2).
  pose proof (zlen_nonneg (distinct k1)). pose proof (zlen_nonneg (distinct k2)).
  pose proof (zlen_merge_sort k1). pose proof (zlen_merge_sort k2). unfold prepared. fold k1 k2.
  split; [rewrite !zlen_put_range; rewrite ?zlen_put_range; rewrite ?zlen_put_range; rewrite ?zlen_put_range; lia|].
  split.
  { intros i Hi. rewrite !rd_put_range by (rewrite ?zlen_put_range; rewrite ?zlen_put_range; rewrite ?zlen_put_range; lia).
    replace (0 + i - 0) with i by lia. repeat (btest_case; try lia); done. }
  split.
  { apply holds_put_range; [lia|]. rewrite ?zlen_put_range; rewrite ?zlen_put_range; rewrite ?zlen_put_range; lia. }
  intros Hlt x Hx.
  rewrite !rd_put_range in Hx by (rewrite ?zlen_put_range; rewrite ?zlen_put_range; rewrite ?zlen_put_range; lia).
  apply distinct_elem. rewrite <-(merge_sort_Permutation Z.le k1). apply rd_elem.
  exists (zlen (distinct k1)). revert Hx. rewrite Z.sub_0_r.
  repeat (btest_case; try lia); cbn [andb]; done.
Qed.
End Prepared.

Lemma unique_adj_full l : length (unique_adj l) = length l -> unique_adj l = l.
Proof.
  induction l as [|y [|z t] IH]; [done|done|]. cbn [unique_adj] in *.
  pose proof (unique_adj_length (z :: t)) as Hle. cbn [unique_adj] in Hle.
  destruct (y =? z); simpl in *; intros E; [lia|]. f_equal. apply IH. lia.
Qed.

Lemma increasing_no_dup l : increasing l -> NoDup l.
Proof.
  induction 1 as [|x l _ IH Hall]; [constructor|]. constructor; [|done].
  intros Hx. rewrite Forall_forall in Hall. specialize (Hall x Hx). lia.
Qed.

Lemma distinct_full l : zlen (distinct l) = zlen l -> NoDup l.
Proof.
  intros E. pose proof (distinct_increasing l) as Hi. unfold distinct in *.
  rewrite unique_adj_full in Hi.
  - rewrite <-(merge_sort_Permutation Z.le l). by apply increasing_no_dup.
  - pose proof (zlen_merge_sort l). unfold zlen in *. lia.
Qed.

(** The smallest key comes first. *)
Lemma distinct_head l b : rd (distinct l) 0 = Some b -> b ∈ l /\ forall x, x ∈ l -> b <= x.
Proof.
  intros Hb. split; [apply distinct_elem, rd_elem; by exists 0|].
  intros x Hx. apply distinct_elem, rd_elem in Hx as (i & Hi). apply rd_Some in Hi as Hr.
  destruct (Z.eq_dec i 0) as [->|]; [simplify_eq; lia|].
  pose proof (increasing_lt _ 0 i b x (distinct_increasing l) ltac:(lia) Hb Hi). lia.
Qed.

(** [key1] has no duplicates and lies entirely below [key2]. *)
Definition entirely_below (k1 k2 : list Z) : Prop :=
  NoDup k1 /\ k1 <> [] /\ k2 <> [] /\ forall a b, a ∈ k1 -> b ∈ k2 -> a < b.

#[export] Instance entirely_below_dec k1 k2 : Decision (entirely_below k1 k2).
Proof.
  destruct (decide (NoDup k1 /\ k1 <> [] /\ k2 <> [] /\ Forall (fun a => Forall (fun b => a < b) k2) k1)) as [(Hn & H1 & H2 & H)|Hno]; [left|right].
  - do 3 (split; [done|]). intros a b Ha Hb. rewrite Forall_forall in H. specialize (H a Ha). rewrite Forall_forall in H. by apply H.
  - intros (Hn & H1 & H2 & H). apply Hno. do 3 (split; [done|]). apply Forall_forall. intros a Ha. apply Forall_forall. intros b Hb. by apply H.
Defined.

(** The keys that stay in the second range: those that do not occur in the first.  When
    the first range lies entirely below the second, the smallest of them is lost. *)
Definition kept_keys (k1 k2 : list Z) : list Z :=
  let rest := filter (fun k => k ∉ k1) (distinct k2) in
  if decide (entirely_below k1 k2) then tail rest else rest.

Lemma kept_keys_elem k1 k2 x : x ∈ kept_keys k1 k2 -> (x ∉ k1) /\ x ∈ k2.
Proof.
  intros Hx. assert (Hf : x ∈ filter (fun k => k ∉ k1) (distinct k2)).
  { unfold kept_keys in Hx. case_decide; [|done]. destruct (filter (fun k => k ∉ k1) (distinct k2)); [done|]. by constructor. }
  apply list_elem_of_filter in Hf as [? Hd]. split; [done|]. by apply distinct_elem.
Qed.

Lemma kept_keys_NoDup k1 k2 : NoDup (kept_keys k1 k2).
Proof.
  assert (H : NoDup (filter (fun k => k ∉ k1) (distinct k2))) by apply NoDup_filter, increasing_no_dup, distinct_increasing.
  unfold kept_keys. case_decide; [|done]. destruct (filter _ _); [done|]. by apply NoDup_cons in H as [_ H].
Qed.

Lemma kept_keys_length k1 k2 : zlen (kept_keys k1 k2) <= zlen (distinct k2).
Proof.
  pose proof (length_filter (fun k => k ∉ k1) (distinct k2)) as H. unfold kept_keys. case_decide; unfold zlen; [|lia].
  destruct (filter _ _); simpl in *; lia.
Qed.

Lemma distinct_NoDup l : NoDup l -> distinct l ≡ₚ l.
Proof. intros H. apply NoDup_Permutation; [apply increasing_no_dup, distinct_increasing|done|intros x; apply distinct_elem]. Qed.

(** The first range below the second: nothing is a duplicate and the first key goes. *)
Lemma kept_keys_below k1 k2 : entirely_below k1 k2 -> exists b t, distinct k2 = b :: t /\ kept_keys k1 k2 = t.
Proof.
  intros H. unfold kept_keys. rewrite decide_True by done. destruct H as (_ & _ & Hne & Hlt). destruct (distinct k2) as [|b t] eqn:E.
  - exfalso. destruct k2 as [|x k2]; [done|]. assert (Hx : x ∈ distinct (x :: k2)) by (apply distinct_elem; constructor).
    rewrite E in Hx. by apply elem_of_nil in Hx.
  - exists b, t. split; [done|]. rewrite <-E. replace (filter (fun k => k ∉ k1) (distinct k2)) with (distinct k2); [by rewrite E|].
    assert (Hall : Forall (fun k => k ∉ k1) (distinct k2)).
    { apply Forall_forall. intros x Hx Hin. rewrite distinct_elem in Hx. specialize (Hlt x x Hin Hx). lia. }
    clear E. induction (distinct k2) as [|y l IH]; [done|]. apply Forall_cons in Hall as [Hy Hall]. rewrite filter_cons_True by done. f_equal. by apply IH.
Qed.

Lemma distinct_nil l : distinct l = [] -> l = [].
Proof.
  destruct l as [|x l]; [done|]. intros E. assert (x ∈ distinct (x :: l)) as Hx by (apply distinct_elem; constructor).
  rewrite E in Hx. by apply elem_of_nil in Hx.
Qed.

Lemma not_below_separated k1 k2 :
  ~ entirely_below k1 k2 -> separated (distinct k1) (distinct k2) (zlen k1).
Proof.
  intros Hno. pose proof (distinct_length k1) as Hl. unfold separated.
  destruct (decide (zlen (distinct k1) < zlen k1)); [by left|right].
  destruct (decide (distinct k1 = [])); [by left|right]. destruct (distinct k2) as [|b t] eqn:E2; [by left|right].
  assert (Hb : rd (distinct k2) 0 = Some b) by (by rewrite E2). pose proof (distinct_head k2 b Hb) as [Hin Hmin].
  destruct (decide (Exists (fun a => b <= a) (distinct k1))) as [(a & Ha & Hle)%Exists_exists|Hn].
  { exists a, b. by rewrite <-E2. }
  exfalso. apply Hno. split; [apply distinct_full; lia|]. split; [by intros ->|].
  split; [by intros ->|]. intros a b' Ha Hb'. specialize (Hmin b' Hb').
  assert (~ b <= a); [|lia]. intros Hle. apply Hn, Exists_exists. exists a. by rewrite distinct_elem.
Qed.

Lemma filter_distinct k1 (l : list Z) : filter (fun k => k ∉ distinct k1) l = filter (fun k => k ∉ k1) l.
Proof. apply list_filter_iff. intros x. by rewrite distinct_elem. Qed.

(** The shuffle at the end permutes the kept keys in place. *)
Lemma shuffle_spec shuffle mem off l :
  (forall l, shuffle l ≡ₚ l) -> 0 <= off -> off + zlen l <= zlen mem -> holds mem off l ->
  zlen (put_range mem off (shuffle (range mem off (zlen l)))) = zlen mem /\
  range (put_range mem off (shuffle (range mem off (zlen l)))) off (zlen l) ≡ₚ l /\
  forall i, i < off -> rd (put_range mem off (shuffle (range mem off (zlen l)))) i = rd mem i.
Proof.
  intros Hp H0 Hl Hh. rewrite (holds_range mem off l H0 Hl Hh).
  assert (Hz : zlen (shuffle l) = zlen l) by (unfold zlen; by rewrite (Permutation_length (Hp l))).
  split; [by rewrite zlen_put_range by lia|]. split.
  - rewrite <-Hz. rewrite range_put_same by lia. apply Hp.
  - intros i Hi. rewrite rd_put_range by lia. by destruct (Z.leb_spec off i); [lia|].
Qed.

(** Unless one range lies below the other, exactly the keys of the first range are
    removed. *)
Lemma unique_data_apart mem size1 size2 :
  let k1 := range mem 0 size1 in
  let k2 := range mem size1 size2 in
  let rest := filter (fun k => k ∉ k1) (distinct k2) in
  0 <= size1 -> 0 <= size2 -> size1 + size2 <= zlen mem -> ~ entirely_below k1 k2 ->
  exists m, merge_out (prepared mem size1 size2) (zlen (distinct k1)) size1 (zlen (distinct k2)) = Some (m, zlen rest) /\
    zlen m = zlen mem /\ size1 + zlen rest <= zlen m /\ holds m 0 (distinct k1) /\ holds m size1 rest.
Proof.
  intros k1 k2 rest Hs1 Hs2 Hfit Hno.
  destruct (prepared_spec mem size1 size2 Hs1 Hs2 Hfit) as (Hlen & H1 & H2 & Hleft).
  fold k1 k2 in H1, H2, Hleft. pose proof (zlen_k1 mem size1 size2 Hs1 Hs2 Hfit) as Z1. pose proof (zlen_k2 mem size1 size2 Hs1 Hs2 Hfit) as Z2.
  fold k1 in Z1. fold k2 in Z2. pose proof (distinct_length k1). pose proof (distinct_length k2).
  apply not_below_separated in Hno. rewrite Z1 in Hno.
  destruct (merge_out_spec (distinct k1) (distinct k2) (prepared mem size1 size2) size1 H1 H2
    ltac:(lia) ltac:(lia) (distinct_increasing k1) (distinct_increasing k2) Hleft Hno Hs1) as (m & E & Hm).
  rewrite filter_distinct in E, Hm. fold rest in E, Hm. destruct Hm as [Hml Hroom Hlow _ Hdone].
  exists m. split; [done|]. split; [lia|]. split; [lia|]. split; [|done]. intros i Hi. rewrite Hlow by lia. by apply H1.
Qed.

(** Otherwise the comparison reads one element past the first range, which is the
    smallest key of the second, and drops that key. *)
Lemma unique_data_below mem size1 size2 :
  let k1 := range mem 0 size1 in
  let k2 := range mem size1 size2 in
  0 <= size1 -> 0 <= size2 -> size1 + size2 <= zlen mem -> entirely_below k1 k2 ->
  exists m, merge_out (prepared mem size1 size2) (zlen (distinct k1)) size1 (zlen (distinct k2)) = Some (m, zlen (kept_keys k1 k2)) /\
    zlen m = zlen mem /\ size1 + zlen (kept_keys k1 k2) <= zlen m /\ holds m 0 (distinct k1) /\ holds m size1 (kept_keys k1 k2).
Proof.
  intros k1 k2 Hs1 Hs2 Hfit Hbelow. pose proof Hbelow as (Hnd & Hne1 & Hne2 & Hlt).
  destruct (prepared_spec mem size1 size2 Hs1 Hs2 Hfit) as (Hlen & H1 & H2 & Hleft).
  fold k1 k2 in H1, H2, Hleft. pose proof (zlen_k1 mem size1 size2 Hs1 Hs2 Hfit) as Z1. pose proof (zlen_k2 mem size1 size2 Hs1 Hs2 Hfit) as Z2.
  fold k1 in Z1. fold k2 in Z2. pose proof (distinct_length k2).
  assert (Hd : zlen (distinct k1) = size1) by (rewrite <-Z1; unfold zlen; by rewrite (Permutation_length (distinct_NoDup k1 Hnd))).
  destruct (kept_keys_below k1 k2 Hbelow) as (b & t & E2 & ->). rewrite E2 in *.
  assert (Hb : b ∈ k2) by (apply distinct_elem; rewrite E2; constructor).
  assert (Hpos : 0 < size1) by (destruct k1; [done|unfold zlen in Z1; simpl in Z1; lia]).
  destruct (merge_out_below (distinct k1) (distinct k2) (prepared mem size1 size2) size1)
    with (b := b) (t := t) as (m & E & Hm); rewrite ?E2; try done; try lia.
  { intros a Ha. apply Hlt; [by apply distinct_elem|done]. }
  rewrite E2 in E, Hm. destruct Hm as [Hml Hroom Hlow _ Hdone].
  exists m. split; [done|]. split; [lia|]. split; [lia|]. split; [|done]. intros i Hi. rewrite Hlow by lia. by apply H1.
Qed.

Lemma unique_data_spec shuffle mem size1 size2 :
  let k1 := range mem 0 size1 in
  let k2 := range mem size1 size2 in
  (forall l, shuffle l ≡ₚ l) -> 0 <= size1 -> 0 <= size2 -> size1 + size2 <= zlen mem ->
  exists mem', unique_data shuffle mem size1 size1 size2 = Some (mem', zlen (distinct k1), zlen (kept_keys k1 k2)) /\
    zlen mem' = zlen mem /\ range mem' 0 (zlen (distinct k1)) = distinct k1 /\
    range mem' size1 (zlen (kept_keys k1 k2)) ≡ₚ kept_keys k1 k2.
Proof.
  intros k1 k2 Hsh Hs1 Hs2 Hfit.
  assert (exists m, merge_out (prepared mem size1 size2) (zlen (distinct k1)) size1 (zlen (distinct k2)) = Some (m, zlen (kept_keys k1 k2)) /\
    zlen m = zlen mem /\ size1 + zlen (kept_keys k1 k2) <= zlen m /\ holds m 0 (distinct k1) /\ holds m size1 (kept_keys k1 k2))
    as (m & E & Hml & Hroom & Hlow & Hdone).
  { destruct (decide (entirely_below k1 k2)) as [Hb|Hno]; [by apply unique_data_below|].
    unfold kept_keys. rewrite decide_False by done. by apply unique_data_apart. }
  rewrite unique_data_prepared by done. fold k1 k2. rewrite E. cbn [mbind option_bind].
  destruct (shuffle_spec shuffle m size1 (kept_keys k1 k2) Hsh Hs1 ltac:(lia) Hdone) as (Hzl & Hperm & Hbelow).
  pose proof (distinct_length k1). pose proof (zlen_nonneg (distinct k1)).
  pose proof (zlen_k1 mem size1 size2 Hs1 Hs2 Hfit) as Z1. fold k1 in Z1.
  eexists. split; [done|]. split; [lia|]. split; [|done].
  apply holds_range; [lia|lia|]. intros i Hi. rewrite Hbelow by lia. by apply Hlow.
Qed.

Lemma range_app keys lo a b : 0 <= lo -> 0 <= a -> 0 <= b ->
  range keys lo (a + b) = range keys lo a ++ range keys (lo + a) b.
Proof.
  intros. unfold range. rewrite Z2Nat.inj_add, <-(take_take_drop (drop (Z.to_nat lo) keys)) by lia.
  f_equal. rewrite drop_drop. do 2 f_equal. lia.
Qed.

(** A piece of a range of distinct keys. *)
Lemma range_inner keys lo n (l : list Z) a b :
  range keys lo n ≡ₚ l -> NoDup l -> 0 <= lo -> 0 <= a -> 0 <= b -> a + b <= n ->
  NoDup (range keys (lo + a) b) /\ forall k, k ∈ range keys (lo + a) b -> k ∈ l.
Proof.
  intros Hp Hnd Hlo Ha Hb Hn. rewrite <-Hp in Hnd.
  replace n with (a + (b + (n - a - b))) in Hp, Hnd by lia.
  rewrite (range_app _ lo a), (range_app _ (lo + a) b) in Hp, Hnd by lia.
  apply NoDup_app in Hnd as (_ & _ & Hnd). apply NoDup_app in Hnd as (Hnd & _ & _). split; [done|].
  intros k Hk. rewrite <-Hp. rewrite !elem_of_app. auto.
Qed.

(** C19: [unique_data] on two adjacent ranges never leaves the array.  The first range
    becomes its sorted distinct keys, and the second range becomes, in some order,
    exactly its distinct keys that do not occur in the first, with one exception: when
    the first range has no duplicates and lies entirely below the second, the smallest
    key of the second is lost although it does not occur in the first. *)
Theorem unique_data_correct shuffle mem size1 size2 :
  let k1 := range mem 0 size1 in
  let k2 := range mem size1 size2 in
  let others := filter (fun k => k ∉ k1) (distinct k2) in
  let rest := if decide (entirely_below k1 k2) then tail others else others in
  (forall l, shuffle l ≡ₚ l) -> 0 <= size1 -> 0 <= size2 -> size1 + size2 <= zlen mem ->
  exists mem', unique_data shuffle mem size1 size1 size2 = Some (mem', zlen (distinct k1), zlen rest) /\
    zlen mem' = zlen mem /\ range mem' 0 (zlen (distinct k1)) = distinct k1 /\
    range mem' size1 (zlen rest) ≡ₚ rest.
Proof. apply unique_data_spec. Qed.

Example unique_data_ex :
  unique_data (fun l => l) [5; 1; 3; 4; 3; 7; 7; 1] 3 3 5 = Some ([1; 3; 5; 4; 7; 4; 7; 7], 3, 2).
Proof. vm_compute. reflexivity. Qed.

(** Ranges that overlap, and a first range below the second, whose key 8 is lost. *)
Lemma unique_data_correct_witness :
  (exists mem', unique_data (fun l => l) [5; 1; 3; 4; 3; 7; 7; 1] 3 3 5 = Some (mem', 3, 2) /\
     zlen mem' = 8 /\ range mem' 0 3 = [1; 3; 5] /\ range mem' 3 2 ≡ₚ [4; 7]) /\
  (exists mem', unique_data (fun l => l) [2; 1; 9; 8] 2 2 2 = Some (mem', 2, 1) /\
     zlen mem' = 4 /\ range mem' 0 2 = [1; 2] /\ range mem' 2 1 ≡ₚ [9]).
Proof.
  split.
  - exact (unique_data_correct (fun l => l) [5; 1; 3; 4; 3; 7; 7; 1] 3 5 ltac:(done) ltac:(lia) ltac:(lia) ltac:(done)).
  - exact (unique_data_correct (fun l => l) [2; 1; 9; 8] 2 2 ltac:(done) ltac:(lia) ltac:(lia) ltac:(done)).
Defined.

(** ** Zipf-distributed positions *)

Section Zipf.
(** [std::pow]. *)
Context (pow : f64 -> f64 -> f64).

Definition ZETAN : f64 := f64_lit 2646902820178302 100000000000000.
Definition ZIPFIAN_CONSTANT : f64 := f64_lit 99 100.

Record ScrambledZipfianGenerator := mkZipf { zipf_num_keys_ : Z; alpha_ : f64; eta_ : f64 }.

Definition zeta (n : Z) : option f64 :=
  for_up 0 n (fun i sum =>
    Some (f64_add sum (f64_div (f64_of_Z 1) (pow (f64_of_Z (i + 1)) ZIPFIAN_CONSTANT)))) f64_zero.

Definition zipf_init (num_keys : Z) : option ScrambledZipfianGenerator :=
  zeta2theta ← zeta 2;
  let one := f64_of_Z 1 in
  Some (mkZipf num_keys (f64_div one (f64_sub one ZIPFIAN_CONSTANT))
    (f64_div (f64_sub one (pow (f64_div (f64_of_Z 2) (f64_of_Z num_keys)) (f64_sub one ZIPFIAN_CONSTANT)))
             (f64_sub one (f64_div zeta2theta ZETAN)))).

Definition wrap32 (z : Z) : Z := z mod 2 ^ 32.

Definition FNV_PRIME : Z := 16777619.
Definition FNV_SEED : Z := 2166136261.

Definition fnv1a_byte (oneByte hash : Z) : Z := wrap32 (Z.lxor oneByte hash * FNV_PRIME).

(** The bytes of an [int], lowest first. *)
Definition byte_of (x : Z) (i : Z) : Z := Z.land (Z.shiftr (wrap32 x) (8 * i)) 255.

Definition fnv1a (fourBytes : Z) : Z :=
  let hash := fnv1a_byte (byte_of fourBytes 0) FNV_SEED in
  let hash := fnv1a_byte (byte_of fourBytes 1) hash in
  let hash := fnv1a_byte (byte_of fourBytes 2) hash in
  fnv1a_byte (byte_of fourBytes 3) hash.

(** The draw [u] of [dis_(gen_)] is an argument. *)
Definition nextValue (g : ScrambledZipfianGenerator) (u : f64) : Z :=
  let uz := f64_mul u ZETAN in
  let one := f64_of_Z 1 in
  let ret :=
    if SFltb uz one then 0
    else if SFltb uz (f64_add one (pow (f64_lit 1 2) ZIPFIAN_CONSTANT)) then 1
    else f64_to_int (f64_mul (f64_of_Z (zipf_num_keys_ g))
           (pow (f64_add (f64_sub (f64_mul (eta_ g) u) (eta_ g)) one) (alpha_ g))) in
  Z.rem (fnv1a ret) (zipf_num_keys_ g).

(** [get_search_keys_zipf] with its draws as a list. *)
Definition get_search_keys_zipf (array : list Z) (num_keys : Z) (draws : list f64) : option (list Z) :=
  g ← zipf_init num_keys;
  mapM (fun u => array.[nextValue g u]) draws.

(** [get_search_keys] with the drawn positions. *)
Definition get_search_keys (array : list Z) (positions : list Z) : option (list Z) :=
  mapM (fun pos => array.[pos]) positions.

Lemma nextValue_range g u : 0 < zipf_num_keys_ g -> 0 <= nextValue g u < zipf_num_keys_ g.
Proof.
  intros Hn. unfold nextValue. set (r := if SFltb _ _ then _ else _).
  assert (Hf : 0 <= fnv1a r) by (unfold fnv1a, fnv1a_byte, wrap32; apply Z.mod_pos_bound; done).
  apply Z.rem_bound_pos; done.
Qed.

Lemma lookups_in_range {A B} (array : list A) (f : B -> Z) (l : list B) :
  (forall x, x ∈ l -> 0 <= f x < zlen array) ->
  exists ks, mapM (fun x => rd array (f x)) l = Some ks /\ length ks = length l /\
    forall k, k ∈ ks -> k ∈ array.
Proof.
  induction l as [|x l IH]; intros Hr.
  { exists []. split; [done|]. split; [done|]. intros k Hk. by apply elem_of_nil in Hk. }
  destruct (rd_in array (f x)) as [a Ha]; [apply Hr; constructor|].
  destruct IH as (ks & E & Hlen & Hin); [intros y Hy; apply Hr; by constructor|].
  exists (a :: ks). simpl. rewrite Ha. simpl. rewrite E. simpl. split; [done|]. split; [by rewrite Hlen|].
  intros k [->|Hk]%elem_of_cons; [|by apply Hin]. unfold rd in Ha. destruct (0 <=? f x); [|done].
  by eapply list_elem_of_lookup_2.
Qed.

(** Whatever the random draws and the values of [std::pow], the Zipf
    sampler stays inside the key array: it returns as many keys as there are
    draws, all of them taken from the array. *)
Theorem get_search_keys_zipf_in_bounds array num_keys draws :
  0 < num_keys <= zlen array ->
  exists ks, get_search_keys_zipf array num_keys draws = Some ks /\ length ks = length draws /\
    forall k, k ∈ ks -> k ∈ array.
Proof.
  intros Hn. unfold get_search_keys_zipf, zipf_init.
  assert (exists z, zeta 2 = Some z) as [z ->] by (by eexists). cbn [mbind option_bind].
  set (g := mkZipf _ _ _). apply (lookups_in_range array (nextValue g)).
  intros u _. pose proof (nextValue_range g u ltac:(simpl; lia)) as Hr. simpl in Hr. lia.
Qed.
End Zipf.

Lemma get_search_keys_zipf_in_bounds_witness :
  exists ks, get_search_keys_zipf (fun x _ => x) [7; 8; 9] 3 [f64_lit 1 10; f64_lit 9 10] = Some ks /\
    length ks = length [f64_lit 1 10; f64_lit 9 10] /\ forall k, k ∈ ks -> k ∈ [7; 8; 9].
Proof.
  apply (get_search_keys_zipf_in_bounds (fun x _ => x) [7; 8; 9] 3 [f64_lit 1 10; f64_lit 9 10]).
  split; [done|]. vm_compute. discriminate.
Defined.
