(* ===== verification/Workload.v ===== *)
(** * Benchmark driver: the generated operations (benchmark/benchmark.h)

    [generate_operations] turns the key array, the sampled keys and a stream of
    random draws into the list of operations.  The draws of
    [std::uniform_real_distribution] and the sampled keys are arguments.

    The theorem describes the list completely: every insert uses a fresh key
    exactly once and in order, every other operation a sampled key, and the
    list is cut short only when the keys to insert are used up.  Of the keys of the later
    part that are not in the initial one, [unique_data] loses the smallest when the initial
    part lies entirely below the later one; the keys to insert ([rest_keys]) are the others.  Deletions are
    never generated, whatever the ratios say. *)

From S2P Require Import Prelude Words Floats Utils.
From Stdlib Require Import SpecFloat.
From stdpp Require Import sorting.
Local Open Scope Z_scope.
Local Open Scope cxx_scope.

Inductive Operation := READ | INSERT | DELETE | SCAN | UPDATE.

#[export] Instance Operation_eq_dec : EqDecision Operation.
Proof. solve_decision. Defined.

(** The parameters of [Benchmark] the generation depends on. *)
Record Ratios := mkRatios {
  read_ratio : f64;
  insert_ratio : f64;
  delete_ratio : f64;
  update_ratio : f64;
  scan_ratio : f64;
  workload_shift_test : bool;
  write_ratio_end : f64
}.

(** ** Operations *)

(** Which operation a draw selects. *)
Definition choose (r : Ratios) (prob : f64) : Operation :=
  if SFltb prob (read_ratio r) then READ
  else if SFltb prob (f64_add (read_ratio r) (insert_ratio r)) then INSERT
  else if SFltb prob (f64_add (f64_add (read_ratio r) (insert_ratio r)) (update_ratio r)) then UPDATE
  else SCAN.

(** The state of the loop. *)
Record Gen := mkGen {
  sample_counter : Z;
  insert_counter : Z;
  operations : list (Operation * Z)
}.

Definition generate_loop (r : Ratios) (keys sample : list Z) (probs : list f64) (table_size operations_num : Z)
    (g : Gen) : option (Gen * Z) :=
  loop (S (Z.to_nat operations_num)) (fun '(i, g) =>
    if i <? operations_num then
      prob ← probs.[i];
      match choose r prob with
      | INSERT =>
          if table_size <=? insert_counter g then Some (inr (g, i))
          else
            k ← keys.[insert_counter g];
            Some (inl (i + 1, mkGen (sample_counter g) (insert_counter g + 1) (operations g ++ [(INSERT, k)])))
      | op =>
          k ← sample.[sample_counter g];
          Some (inl (i + 1, mkGen (sample_counter g + 1) (insert_counter g) (operations g ++ [(op, k)])))
      end
    else Some (inr (g, operations_num))) (0, g).

(** The ratios and the first key to insert, after the keys were made unique. *)
Definition shifted_ratios (r : Ratios) : Ratios :=
  if workload_shift_test r then
    mkRatios (f64_sub (f64_of_Z 1) (write_ratio_end r)) (write_ratio_end r) (delete_ratio r) (update_ratio r)
      (scan_ratio r) true (write_ratio_end r)
  else r.

Definition first_insert (r : Ratios) (init_table_size rest_key_num : Z) : Z :=
  if workload_shift_test r then init_table_size + Z.quot rest_key_num 2 else init_table_size.

(** Returns the operations, the possibly reduced [operations_num], the keys and
    the new [table_size]. *)
Definition generate_operations (shuffle : list Z -> list Z) (r : Ratios) (keys sample : list Z)
    (probs : list f64) (table_size init_table_size operations_num : Z)
    : option (list (Operation * Z) * Z * list Z * Z) :=
  '(keys, _, rest_key_num) ← unique_data shuffle keys init_table_size init_table_size
                               (table_size - init_table_size);
  let table_size := init_table_size + rest_key_num in
  '(g, num) ← generate_loop (shifted_ratios r) keys sample probs table_size operations_num
                (mkGen 0 (first_insert r init_table_size rest_key_num) []);
  Some (operations g, num, keys, table_size).

(** ** The loop *)

(** The keys of the operations of one kind, in order. *)
Definition keys_of (P : Operation -> bool) (ops : list (Operation * Z)) : list Z :=
  snd <$> filter (fun o => P o.1 = true) ops.

Definition is_insert (op : Operation) : bool := match op with INSERT => true | _ => false end.

Lemma keys_of_app P ops1 ops2 : keys_of P (ops1 ++ ops2) = keys_of P ops1 ++ keys_of P ops2.
Proof. unfold keys_of. by rewrite filter_app, fmap_app. Qed.

Lemma choose_not_delete r prob : choose r prob <> DELETE.
Proof. unfold choose. by repeat destruct (SFltb _ _). Qed.

(** What has been generated before round [i]. *)
Record generated (keys sample : list Z) (start table_size : Z) (i : Z) (g : Gen) : Prop := {
  gn_count : zlen (operations g) = i;
  gn_sample : 0 <= sample_counter g <= i;
  gn_insert : start <= insert_counter g;
  gn_inserts : keys_of is_insert (operations g) = range keys start (insert_counter g - start);
  gn_samples : keys_of (fun op => negb (is_insert op)) (operations g) = take (Z.to_nat (sample_counter g)) sample;
  gn_kinds : forall o, o ∈ operations g -> o.1 <> DELETE;
  gn_bound : insert_counter g <= Z.max start table_size
}.

Lemma range_snoc keys lo n k : 0 <= lo -> 0 <= n -> rd keys (lo + n) = Some k ->
  range keys lo (n + 1) = range keys lo n ++ [k].
Proof.
  intros Hlo Hn Hk. unfold range. replace (Z.to_nat (n + 1)) with (S (Z.to_nat n)) by lia.
  apply take_S_r. rewrite lookup_drop. unfold rd in Hk. destruct (Z.leb_spec 0 (lo + n)); [|lia].
  rewrite <-Hk. f_equal. lia.
Qed.

Lemma generated_insert keys sample start table_size i g k :
  generated keys sample start table_size i g -> 0 <= start -> insert_counter g < table_size ->
  rd keys (insert_counter g) = Some k ->
  generated keys sample start table_size (i + 1)
    (mkGen (sample_counter g) (insert_counter g + 1) (operations g ++ [(INSERT, k)])).
Proof.
  intros [Hc Hs Hi Hin Hsm Hk Hb] H0 Hlt Hrd. constructor; cbn [operations sample_counter insert_counter]; try lia.
  - rewrite zlen_app. unfold zlen at 2. simpl. lia.
  - rewrite keys_of_app, Hin. replace (insert_counter g + 1 - start) with (insert_counter g - start + 1) by lia.
    rewrite (range_snoc _ _ _ k); [done|lia|lia|]. by replace (start + (insert_counter g - start)) with (insert_counter g) by lia.
  - rewrite keys_of_app, Hsm. by rewrite app_nil_r.
  - intros o [?| ->%list_elem_of_singleton]%elem_of_app; [by apply Hk|done].
Qed.

Lemma generated_sample keys sample start table_size i g op k :
  generated keys sample start table_size i g -> is_insert op = false -> op <> DELETE ->
  rd sample (sample_counter g) = Some k ->
  generated keys sample start table_size (i + 1)
    (mkGen (sample_counter g + 1) (insert_counter g) (operations g ++ [(op, k)])).
Proof.
  intros [Hc Hs Hi Hin Hsm Hk Hb] Hop Hdel Hrd. constructor; cbn [operations sample_counter insert_counter]; try lia.
  - rewrite zlen_app. unfold zlen at 2. simpl. lia.
  - rewrite keys_of_app, Hin. unfold keys_of at 1. rewrite filter_cons_False by (simpl; rewrite Hop; done).
    by rewrite app_nil_r.
  - rewrite keys_of_app, Hsm. unfold keys_of. rewrite filter_cons_True by (simpl; by rewrite Hop). rewrite filter_nil.
    replace (Z.to_nat (sample_counter g + 1)) with (S (Z.to_nat (sample_counter g))) by lia. symmetry. apply take_S_r.
    unfold rd in Hrd. by destruct (0 <=? sample_counter g).
  - intros o [?| ->%list_elem_of_singleton]%elem_of_app; [by apply Hk|done].
Qed.

Lemma generate_loop_spec r keys sample probs start table_size operations_num :
  0 <= start -> table_size <= zlen keys -> 0 <= operations_num ->
  operations_num <= zlen sample -> operations_num <= zlen probs ->
  exists g num, generate_loop r keys sample probs table_size operations_num (mkGen 0 start []) = Some (g, num) /\
    0 <= num <= operations_num /\ generated keys sample start table_size num g /\
    (num < operations_num -> table_size <= insert_counter g).
Proof.
  intros H0 Ht Hn Hs Hp. unfold generate_loop.
  match goal with |- context [loop _ ?b _] =>
    destruct (loop_spec (fun '(i, g) => 0 <= i <= operations_num /\ generated keys sample start table_size i g)
      (fun '(g, num) => 0 <= num <= operations_num /\ generated keys sample start table_size num g /\
        (num < operations_num -> table_size <= insert_counter g))
      (fun '(i, _) => operations_num - i) b) with (fuel := S (Z.to_nat operations_num)) (s := (0, mkGen 0 start []))
      as ([g num] & E & HQ); [| |lia|lia|by exists g, num] end.
  - intros [i g] [Hi Hg]. destruct (Z.ltb_spec i operations_num).
    + destruct (rd_in probs i) as [prob ->]; [lia|]. cbn [mbind option_bind].
      pose proof (choose_not_delete r prob) as Hnd. pose proof (gn_sample _ _ _ _ _ _ Hg) as Hsc.
      destruct (rd_in sample (sample_counter g)) as [k Hk]; [lia|].
      destruct (choose r prob); [| |done| |]; try (rewrite Hk; cbn [mbind option_bind]; split; [|lia];
        split; [lia|]; by apply generated_sample).
      destruct (Z.leb_spec table_size (insert_counter g)); [split; [lia|]; split; [done|lia]|].
      pose proof (gn_insert _ _ _ _ _ _ Hg). destruct (rd_in keys (insert_counter g)) as [k' Hk']; [lia|].
      rewrite Hk'. cbn [mbind option_bind]. split; [|lia]. split; [lia|]. by apply generated_insert.
    + assert (i = operations_num) as -> by lia. split; [lia|]. split; [done|lia].
  - split; [lia|]. constructor; cbn; try lia; try done.
    + unfold range. by replace (Z.to_nat (start - start)) with 0%nat by lia.
    + intros o Ho. by apply elem_of_nil in Ho.
Qed.

(** ** The generated list *)

Section Generated.
Context (shuffle : list Z -> list Z) (r : Ratios) (keys sample : list Z) (probs : list f64).
Context (table_size init_table_size operations_num : Z).

(** The keys the insertions are taken from: the distinct keys after the initial
    part that do not occur in it, except the smallest if the initial part lies entirely
    below them. *)
Definition rest_keys : list Z :=
  kept_keys (range keys 0 init_table_size) (range keys init_table_size (table_size - init_table_size)).

Lemma rest_keys_NoDup : NoDup rest_keys.
Proof. apply kept_keys_NoDup. Qed.

Lemma rest_keys_length : 0 <= init_table_size <= table_size -> table_size <= zlen keys ->
  zlen rest_keys <= table_size - init_table_size.
Proof.
  intros Hi Ht. unfold rest_keys. set (others := range keys init_table_size _). pose proof (distinct_length others).
  pose proof (kept_keys_length (range keys 0 init_table_size) others).
  assert (zlen others = table_size - init_table_size) by (apply zlen_range; lia). lia.
Qed.

Lemma first_insert_range n : 0 <= n -> init_table_size <= first_insert r init_table_size n <= init_table_size + n.
Proof.
  intros Hn. unfold first_insert. destruct (workload_shift_test r); [|lia]. rewrite Z.quot_div_nonneg by lia.
  pose proof (Z.div_pos n 2). pose proof (Z.div_le_upper_bound n 2 n). lia.
Qed.

(** What [generate_operations] returns, in terms of the array it leaves behind. *)
Lemma generate_operations_spec :
  (forall l, shuffle l ≡ₚ l) ->
  0 <= init_table_size <= table_size -> table_size <= zlen keys ->
  0 <= operations_num -> operations_num <= zlen sample -> operations_num <= zlen probs ->
  exists g num keys',
    generate_operations shuffle r keys sample probs table_size init_table_size operations_num =
      Some (operations g, num, keys', init_table_size + zlen rest_keys) /\
    zlen keys' = zlen keys /\ range keys' init_table_size (zlen rest_keys) ≡ₚ rest_keys /\
    0 <= num <= operations_num /\
    generated keys' sample (first_insert r init_table_size (zlen rest_keys)) (init_table_size + zlen rest_keys) num g /\
    (num < operations_num -> init_table_size + zlen rest_keys <= insert_counter g).
Proof.
  intros Hsh Hi Ht Hn Hs Hp. unfold generate_operations.
  destruct (unique_data_spec shuffle keys init_table_size (table_size - init_table_size) Hsh)
    as (keys' & -> & Hlen & _ & Hperm); [lia|lia|lia|]. cbn [mbind option_bind].
  fold rest_keys in Hperm |- *. pose proof (rest_keys_length Hi Ht). pose proof (zlen_nonneg rest_keys) as Hr0.
  pose proof (first_insert_range _ Hr0).
  destruct (generate_loop_spec (shifted_ratios r) keys' sample probs (first_insert r init_table_size (zlen rest_keys))
    (init_table_size + zlen rest_keys) operations_num)
    as (g & num & -> & Hnum & Hg & Hcut); [lia|lia|done|done|done|]. cbn [mbind option_bind].
  by exists g, num, keys'.
Qed.

(** The insertions of a generated list. *)
Lemma generated_inserts keys' num g : 0 <= init_table_size ->
  generated keys' sample (first_insert r init_table_size (zlen rest_keys)) (init_table_size + zlen rest_keys) num g ->
  range keys' init_table_size (zlen rest_keys) ≡ₚ rest_keys ->
  NoDup (keys_of is_insert (operations g)) /\ (forall k, k ∈ keys_of is_insert (operations g) -> k ∈ rest_keys).
Proof.
  intros Hi [Hc Hsc Hins Hin Hsm Hk Hb] Hperm. pose proof (first_insert_range _ (zlen_nonneg rest_keys)) as Hst.
  set (start := first_insert _ _ _) in *. rewrite Hin.
  destruct (range_inner keys' init_table_size (zlen rest_keys) rest_keys (start - init_table_size) (insert_counter g - start)
    Hperm rest_keys_NoDup) as [Hnd Hsub]; [lia|lia|lia|lia|].
  by replace (init_table_size + (start - init_table_size)) with start in Hnd, Hsub by lia.
Qed.

(** C18: [generate_operations] stays inside its arrays and produces one operation
    per draw: the inserted keys are pairwise distinct, come from the part of
    the key array after the initial one and do not occur in the initial part;
    all other operations use the sampled keys in order; and there are fewer
    operations than requested only if all the keys to insert were used.  The keys to
    insert are all those of the later part that do not occur in the initial one, except
    the smallest of them when the initial part lies entirely below the later one (see
    [kept_keys]). *)
Theorem generate_operations_correct :
  (forall l, shuffle l ≡ₚ l) ->
  0 <= init_table_size <= table_size -> table_size <= zlen keys ->
  0 <= operations_num -> operations_num <= zlen sample -> operations_num <= zlen probs ->
  exists ops num keys' total,
    generate_operations shuffle r keys sample probs table_size init_table_size operations_num =
      Some (ops, num, keys', total) /\
    zlen ops = num /\ 0 <= num <= operations_num /\
    NoDup (keys_of is_insert ops) /\ (forall k, k ∈ keys_of is_insert ops -> k ∈ rest_keys) /\
    (exists n, keys_of (fun op => negb (is_insert op)) ops = take n sample) /\
    (num < operations_num ->
       zlen (keys_of is_insert ops) = total - first_insert r init_table_size (zlen rest_keys) /\
       total = init_table_size + zlen rest_keys).
Proof.
  intros Hsh Hi Ht Hn Hs Hp.
  destruct (generate_operations_spec Hsh Hi Ht Hn Hs Hp) as (g & num & keys' & E & Hl & Hperm & Hnum & Hg & Hcut).
  destruct (generated_inserts keys' num g ltac:(lia) Hg Hperm) as [Hnd Hsub]. pose proof Hg as [Hc Hsc Hins Hin Hsm Hk Hb].
  exists (operations g), num, keys', (init_table_size + zlen rest_keys). split; [done|]. split; [done|]. split; [done|].
  split; [done|]. split; [done|]. split; [by eexists|]. intros Hlt. specialize (Hcut Hlt). split; [|done].
  pose proof (first_insert_range _ (zlen_nonneg rest_keys)). pose proof (rest_keys_length Hi Ht). rewrite Hin, zlen_range by lia. lia.
Qed.
End Generated.

(** *** A concrete workload *)

Definition demo_ratios : Ratios :=
  mkRatios (f64_lit 1 2) (f64_lit 1 2) f64_zero f64_zero f64_zero false f64_zero.

Example generate_operations_ex :
  generate_operations (fun l => l) demo_ratios [5; 1; 3; 4; 3; 7; 7; 1] [5; 3; 1]
    [f64_lit 1 4; f64_lit 3 4; f64_lit 2 3] 8 3 3 =
  Some ([(READ, 5); (INSERT, 4); (INSERT, 7)], 3, [1; 3; 5; 4; 7; 4; 7; 7], 5).
Proof. vm_compute. reflexivity. Qed.

Lemma generate_operations_correct_witness :
  exists ops num keys' total,
    generate_operations (fun l => l) demo_ratios [5; 1; 3; 4; 3; 7; 7; 1] [5; 3; 1]
      [f64_lit 1 4; f64_lit 3 4; f64_lit 2 3] 8 3 3 = Some (ops, num, keys', total) /\
    zlen ops = num /\ 0 <= num <= 3 /\ NoDup (keys_of is_insert ops).
Proof.
  destruct (generate_operations_correct (fun l => l) demo_ratios [5; 1; 3; 4; 3; 7; 7; 1] [5; 3; 1]
    [f64_lit 1 4; f64_lit 3 4; f64_lit 2 3] 8 3 3) as (ops & num & keys' & total & E & Hl & Hn & Hnd & _);
    [done|lia|by vm_compute|lia|by vm_compute|by vm_compute|].
  exists ops, num, keys', total. exact (conj E (conj Hl (conj Hn Hnd))).
Defined.
