(* ===== verification/Load.v ===== *)
(** * Benchmark driver: loading the keys (benchmark/utils.h, [Benchmark::load_keys])

    A binary key file is the list of its 64-bit words, the first of which is the
    number of keys; a text key file is the list of its lines.  A missing file is
    [None].  [std::shuffle] and [tbb::parallel_sort] are arguments.

    On ten keys or more, [load_keys] is proved to leave the distinct keys of the file in
    the array, in some order, or with [data_shift] the keys of the file as they are, and
    to prepare the sorted initial keys for bulk loading.  On fewer it exits, or prints
    keys past the end of the array. *)

From S2P Require Import Prelude Words Floats Numerals Utils.
From Stdlib Require Import SpecFloat.
From Stdlib Require Import String.
From stdpp Require Import sorting.
Local Open Scope Z_scope.
Local Open Scope cxx_scope.

(** ** Reading the files *)

(** [long long] from a [uint64_t]. *)
Definition to_llong (z : Z) : Z := if z <? 2 ^ 63 then z else z - 2 ^ 64.

(** Returns the allocated array and its length; a file with fewer words than the
    array leaves elements without a value. *)
Definition load_binary_data (length : Z) (file : option (list Z)) : option (list Z * Z) :=
  match file with
  | None => Some ([], 0)
  | Some [] => None
  | Some (max_size :: words) =>
      let length := if (length <? 0) || (max_size <? length) then to_llong max_size else length in
      if (0 <=? length) && (length <=? zlen words) then Some (take (Z.to_nat length) words, length) else None
  end.

(** Reads at most [length] lines, all of them when [length] is negative. *)
Definition load_text_data (length : Z) (file : option (list string)) : list Z * Z :=
  match file with
  | None => ([], 0)
  | Some lines =>
      let lines := if length <? 0 then lines else take (Z.to_nat length) lines in
      (read_u64 <$> lines, zlen lines)
  end.

(** ** load_keys *)

Inductive KeysFile :=
  | Binary (words : option (list Z))
  | Text (lines : option (list string))
  | OtherType.

Record Loaded := mkLoaded {
  keys : list Z;
  table_size : Z;
  init_table_size : Z;
  init_keys : list Z;
  init_key_values : list (Z * Z)
}.

(** The payload of every loaded key. *)
Definition init_payload : Z := 123456789.

(** [init_table_size = init_table_ratio * table_size] as a [size_t]. *)
Definition init_size (init_table_ratio : f64) (table_size : Z) : option Z :=
  n ← f64_trunc (f64_mul init_table_ratio (f64_of_Z table_size));
  if (0 <=? n) && (n <? 2 ^ 64) then Some n else None.

Section LoadKeys.
Context (shuffle parallel_sort : list Z -> list Z).

(** The initial keys: copied, sorted and paired with the payload. *)
Definition prepare_init (keys : list Z) (table_size init_table_size : Z) : option Loaded :=
  if init_table_size <=? zlen keys then
    let init_keys := parallel_sort (range keys 0 init_table_size) in
    Some (mkLoaded keys table_size init_table_size init_keys ((fun k => (k, init_payload)) <$> init_keys))
  else None.

(** Sorting, removing duplicates and shuffling the keys, unless [data_shift]. *)
Definition arrange (data_shift : bool) (keys : list Z) (table_size : Z) : list Z * Z :=
  if data_shift then (keys, table_size)
  else
    let keys := put_range keys 0 (parallel_sort (range keys 0 table_size)) in
    let '(keys, table_size) := unique_range keys 0 table_size in
    (put_range keys 0 (shuffle (range keys 0 table_size)), table_size).

(** The keys of the file and the new [table_size]; 0 if there is no such file. *)
Definition read_keys (file : KeysFile) (table_size : Z) : option (list Z * Z) :=
  match file with
  | Binary words => load_binary_data table_size words
  | Text lines => Some (load_text_data table_size lines)
  | OtherType => Some ([], 0)
  end.

(** [Some None] is [exit(0)].  The first ten keys are printed. *)
Definition load_keys (file : KeysFile) (table_size : Z) (data_shift : bool) (init_table_ratio : f64)
    : option (option Loaded) :=
  '(keys, table_size) ← read_keys file table_size;
  if table_size <=? 0 then Some None
  else
    let '(keys, table_size) := arrange data_shift keys table_size in
    init_table_size ← init_size init_table_ratio table_size;
    _ ← mapM (fun j => keys.[j]) (seqZ 0 10);
    l ← prepare_init keys table_size init_table_size;
    Some (Some l).

(** ** Correctness *)

Hypothesis shuffle_perm : forall l, shuffle l ≡ₚ l.
Hypothesis sort_perm : forall l, parallel_sort l ≡ₚ l.
Hypothesis sort_sorted : forall l, StronglySorted Z.le (parallel_sort l).

(** Sorting has only one result. *)
Lemma parallel_sort_unique l : parallel_sort l = merge_sort Z.le l.
Proof.
  apply (StronglySorted_unique Z.le); [done|apply (StronglySorted_merge_sort Z.le)|].
  by rewrite sort_perm, merge_sort_Permutation.
Qed.

Lemma arrange_spec l n : 0 <= n -> n <= zlen l ->
  exists keys', arrange false l n = (keys', zlen (distinct (range l 0 n))) /\ zlen keys' = zlen l /\
    range keys' 0 (zlen (distinct (range l 0 n))) ≡ₚ distinct (range l 0 n).
Proof.
  intros H0 Hn. unfold arrange. rewrite parallel_sort_unique. set (k := range l 0 n).
  assert (Hk : zlen k = n) by (apply zlen_range; lia). pose proof (zlen_merge_sort k) as Hm.
  set (m1 := put_range l 0 (merge_sort Z.le k)).
  assert (L1 : zlen m1 = zlen l) by (unfold m1; rewrite zlen_put_range; lia).
  assert (R1 : range m1 0 n = merge_sort Z.le k).
  { assert (R : range m1 0 (zlen (merge_sort Z.le k)) = merge_sort Z.le k) by (apply range_put_same; lia).
    by rewrite Hm, Hk in R. }
  unfold unique_range. rewrite R1. change (unique_adj (merge_sort Z.le k)) with (distinct k). cbv zeta.
  pose proof (distinct_length k). set (m2 := put_range m1 0 (distinct k)).
  assert (L2 : zlen m2 = zlen l) by (unfold m2; rewrite zlen_put_range; lia).
  destruct (shuffle_spec shuffle m2 0 (distinct k) shuffle_perm) as (Hl & Hp & _); [lia|lia| |].
  { apply holds_put_range; lia. }
  eexists. split; [done|]. split; [lia|done].
Qed.

Lemma read_keys_length file len l n : read_keys file len = Some (l, n) -> zlen l = n.
Proof.
  destruct file as [[[|w ws]|]|[lines|]|]; cbn [read_keys load_binary_data load_text_data]; intros E; simplify_eq; try done.
  - destruct (_ && _) eqn:Eb in E; [|done]. btest. simplify_eq. unfold zlen in *. rewrite length_take. lia.
  - unfold zlen. by rewrite length_fmap.
Qed.

Lemma sorted_distinct_init keys d k : NoDup d -> range keys 0 (zlen d) ≡ₚ d -> 0 <= k <= zlen d -> zlen d <= zlen keys ->
  StronglySorted Z.lt (parallel_sort (range keys 0 k)).
Proof.
  intros Hnd Hp Hk Hl. assert (Hr : NoDup (range keys 0 k)).
  { destruct (range_inner keys 0 (zlen d) d 0 k Hp Hnd) as [H _]; try lia. by rewrite Z.add_0_l in H. }
  apply strictly_sorted; [done|]. by rewrite sort_perm.
Qed.

Lemma arrange_length shift l n : 0 <= n <= zlen l -> zlen (arrange shift l n).1 = zlen l.
Proof. intros Hn. destruct shift; [done|]. by destruct (arrange_spec l n ltac:(lia) ltac:(lia)) as (keys' & -> & ? & _). Qed.

(** The number of keys of a file: the duplicates are removed, unless [data_shift]. *)
Definition keys_num (data_shift : bool) (l : list Z) : Z := if data_shift then zlen l else zlen (distinct l).

Lemma init_size_nonneg ratio m k : init_size ratio m = Some k -> 0 <= k.
Proof. intros Ek. unfold init_size in Ek. inv_bind Ek. destruct (_ && _) eqn:Eb in Ek; [|done]. btest. by simplify_eq. Qed.

(** No key: [exit(0)].  Fewer than ten: the printing of the first ten leaves the array. *)
Lemma load_keys_few file len shift l n ratio : read_keys file len = Some (l, n) ->
  (n <= 0 -> load_keys file len shift ratio = Some None) /\
  (0 < n < 10 -> load_keys file len shift ratio = None).
Proof.
  intros E. pose proof (read_keys_length _ _ _ _ E) as Hl. unfold load_keys. rewrite E. cbn [mbind option_bind].
  destruct (Z.leb_spec n 0); (split; intros Hn; [done || lia|]); [lia|].
  pose proof (arrange_length shift l n ltac:(lia)) as Ha. destruct (arrange shift l n) as [keys' m]. cbn [fst] in Ha.
  destruct (init_size ratio m); [|done]. cbn [mbind option_bind].
  destruct (mapM (fun j => keys'.[j]) (seqZ 0 10)) as [ks|] eqn:Em; [exfalso|done].
  apply mapM_Some_1 in Em. destruct (Forall2_lookup_l _ _ _ 9 9 Em eq_refl) as (y & _ & Hy%rd_Some). lia.
Qed.

(** What [load_keys] prepares. *)
Lemma load_keys_spec file len shift l n ratio k :
  read_keys file len = Some (l, n) -> 10 <= n ->
  init_size ratio (keys_num shift l) = Some k -> k <= keys_num shift l ->
  exists ld, load_keys file len shift ratio = Some (Some ld) /\
    table_size ld = keys_num shift l /\ init_table_size ld = k /\ zlen (keys ld) = n /\
    (if shift then keys ld = l else range (keys ld) 0 (table_size ld) ≡ₚ distinct l) /\
    StronglySorted (if shift then Z.le else Z.lt) (init_keys ld) /\ init_keys ld ≡ₚ range (keys ld) 0 k /\
    init_key_values ld = (fun x => (x, init_payload)) <$> init_keys ld.
Proof.
  intros E Hn Ek Hk. pose proof (read_keys_length _ _ _ _ E) as Hl. unfold load_keys. rewrite E. cbn [mbind option_bind].
  destruct (Z.leb_spec n 0); [lia|]. assert (Hr : range l 0 n = l).
  { unfold range. cbn [Z.to_nat drop]. apply take_ge. unfold zlen in Hl. lia. }
  pose proof (init_size_nonneg _ _ _ Ek) as Hk0. pose proof (distinct_length l) as Hd.
  assert (exists keys', arrange shift l n = (keys', keys_num shift l) /\ zlen keys' = zlen l /\
    (if shift then keys' = l else range keys' 0 (keys_num shift l) ≡ₚ distinct l)) as (keys' & -> & Hl' & Hp).
  { destruct shift; [exists l; by rewrite <-Hl|]. destruct (arrange_spec l n) as (keys' & Ea & ? & ?); [lia|lia|].
    rewrite Hr in *. by exists keys'. }
  rewrite Ek. cbn [mbind option_bind].
  destruct (lookups_in_range keys' (fun j => j) (seqZ 0 10)) as (ks & -> & _).
  { intros j Hj%elem_of_seqZ. lia. }
  assert (keys_num shift l <= zlen keys') by (unfold keys_num; destruct shift; lia).
  cbn [mbind option_bind]. unfold prepare_init. destruct (Z.leb_spec k (zlen keys')); [|lia].
  cbn [mbind option_bind]. eexists. split; [done|].
  cbn [table_size init_table_size keys init_keys init_key_values]. do 3 (split; [done || lia|]). split; [done|].
  split; [|split; [apply sort_perm|done]]. destruct shift; [apply sort_sorted|].
  eapply sorted_distinct_init; [apply increasing_no_dup, (distinct_increasing l)|done|unfold keys_num in *; lia|unfold keys_num in *; lia].
Qed.

(** A file without duplicates, or whose duplicates are removed. *)
Lemma load_keys_distinct file len shift l n ratio ld :
  read_keys file len = Some (l, n) -> load_keys file len shift ratio = Some (Some ld) ->
  (shift = true -> NoDup l) -> init_table_size ld <= table_size ld ->
  10 <= n /\ 0 <= init_table_size ld /\ table_size ld = zlen (distinct l) /\ zlen (keys ld) = n /\
    range (keys ld) 0 (table_size ld) ≡ₚ distinct l /\
    StronglySorted Z.lt (init_keys ld) /\ init_keys ld ≡ₚ range (keys ld) 0 (init_table_size ld).
Proof.
  intros Er El Hnd Hk. pose proof (read_keys_length _ _ _ _ Er) as Hl.
  destruct (load_keys_few file len shift l n ratio Er) as [Hz Hf].
  assert (Hn : 10 <= n) by (destruct (Z.le_gt_cases n 0); [by rewrite Hz in El|]; destruct (Z.lt_ge_cases n 10); [by rewrite Hf in El by lia|lia]).
  assert (Hm : keys_num shift l = zlen (distinct l)).
  { destruct shift; [|done]. unfold keys_num, zlen. by rewrite (Permutation_length (distinct_NoDup l (Hnd eq_refl))). }
  assert (Ha : (arrange shift l n).2 = keys_num shift l).
  { destruct shift; [done|]. destruct (arrange_spec l n) as (? & -> & _); [lia|lia|]. unfold keys_num. cbn [snd].
    do 2 f_equal. unfold range. cbn [Z.to_nat drop]. apply take_ge. unfold zlen in Hl. lia. }
  assert (exists k, init_size ratio (keys_num shift l) = Some k /\ k = init_table_size ld /\ table_size ld = keys_num shift l) as (k & Ek & -> & Ht).
  { unfold load_keys in El. rewrite Er in El. cbn [mbind option_bind] in El. destruct (Z.leb_spec n 0); [lia|].
    destruct (arrange shift l n) as [keys' m]. cbn [snd] in Ha. subst m. inv_bind El. inv_bind El. inv_bind El. injection El as ->.
    unfold prepare_init in E1. destruct (_ <=? _) in E1; [|done]. injection E1 as <-. by exists x. }
  destruct (load_keys_spec file len shift l n ratio _ Er Hn Ek ltac:(lia)) as (ld' & El' & _ & _ & Hlen & Hp & Hs & Hi & _).
  rewrite El in El'. injection El' as <-. pose proof (init_size_nonneg _ _ _ Ek).
  assert (Hperm : range (keys ld) 0 (table_size ld) ≡ₚ distinct l).
  { destruct shift; [|done]. rewrite Hp. rewrite (distinct_NoDup l (Hnd eq_refl)). unfold range. cbn [Z.to_nat drop].
    rewrite take_ge; [done|]. rewrite Ht. unfold keys_num, zlen. rewrite Nat2Z.id. done. }
  do 5 (split; [done || lia|]). split; [|done]. apply strictly_sorted.
  - destruct shift; [done|]. clear - Hs. induction Hs as [|x t _ IH Hx]; constructor; [done|]. eapply Forall_impl; [done|]. intros; simpl in *; lia.
  - rewrite Hi. apply (range_inner (keys ld) 0 (table_size ld) (distinct l) 0 (init_table_size ld)); try done; try lia.
    apply increasing_no_dup, distinct_increasing.
Qed.

End LoadKeys.

(** *** A small file *)

Local Open Scope string_scope.
Definition demo_lines : list string :=
  ["7"; "3"; " 12"; "7"; "x"; "5"; "4"; "18446744073709551616"; "9"; "1"; "2"; "8"].

Lemma load_text_read :
  read_keys (Text (Some demo_lines)) (-1) = Some ([7; 3; 12; 7; 0; 5; 4; 2 ^ 64 - 1; 9; 1; 2; 8], 12).
Proof. vm_compute. reflexivity. Qed.

