(* ===== verification/Index.v ===== *)
(** * The index interface (competitor/indexInterface.h)

    [Index] holds the operations of [indexInterface] the benchmark calls,
    [LawfulStore] and [LawfulIndex] what the benchmark relies on: a relation between
    the index and a finite map, the keys and the number of keys the index supports,
    and one law per operation it calls.  The law of scans stands alone in
    [LawfulIndex], because one index only has the others: a scan of the PGM index
    that starts at its greatest key is undefined.  An insertion of a new key must succeed.  The law for an
    existing key is weak on purpose: the interface asks for an upsert, while
    several adapters (ALEX and BTreeOLC among them) leave the old payload and
    return [false].  Reading is constrained for stored keys only, a scan may stop
    early, and nothing is asked of [remove], which the benchmark never calls: the
    weaker the laws, the more implementations the theorems about it cover.

    Every index takes payloads between 0 and the greatest word, both excluded: the
    PGM index reserves the greatest word for its tombstones, ART takes 0 for null.

    [MapIndex] is the reference implementation, a finite map. *)

From S2P Require Import Prelude Words.
From stdpp Require Import gmap sorting fin_maps.
Local Open Scope Z_scope.

(** An index; [None] is undefined behaviour of the implementation. *)
Class Index (I : Type) := {
  idx_bulk_load : list (Z * Z) -> option I;
  idx_get : I -> Z -> option (I * option Z);
  idx_put : I -> Z -> Z -> option (I * bool);
  idx_remove : I -> Z -> option (I * bool);
  idx_scan : I -> Z -> Z -> option (I * list (Z * Z))
}.

(** ** Scans of a map *)

(** Entries are compared by key. *)
Definition key_le (p q : Z * Z) : Prop := p.1 <= q.1.

#[export] Instance key_le_dec p q : Decision (key_le p q).
Proof. unfold key_le. apply _. Defined.

#[export] Instance key_le_total : Total key_le.
Proof. intros p q. unfold key_le. lia. Qed.

#[export] Instance key_le_trans : Transitive key_le.
Proof. intros p q r. unfold key_le. lia. Qed.

(** The entries of the map from [low] on, by increasing key. *)
Definition entries_from (m : gmap Z Z) (low : Z) : list (Z * Z) :=
  merge_sort key_le (filter (fun p => low <= p.1) (map_to_list m)).

Lemma elem_of_entries_from m low k v :
  (k, v) ∈ entries_from m low <-> m !! k = Some v /\ low <= k.
Proof.
  unfold entries_from. rewrite merge_sort_Permutation, list_elem_of_filter, elem_of_map_to_list. simpl. tauto.
Qed.

Lemma entries_from_sorted m low : StronglySorted key_le (entries_from m low).
Proof. apply (StronglySorted_merge_sort key_le). Qed.

(** What every scan must satisfy: at most [n] stored entries from [low] on, by
    increasing key.  (Adapters may return fewer entries than there are.) *)
Definition sound_scan (m : gmap Z Z) (low n : Z) (l : list (Z * Z)) : Prop :=
  zlen l <= n /\ StronglySorted Z.lt l.*1 /\ forall k v, (k, v) ∈ l -> m !! k = Some v /\ low <= k.

Lemma entries_from_sound m low n : 0 <= n -> sound_scan m low n (take (Z.to_nat n) (entries_from m low)).
Proof.
  intros Hn. assert (Hsub : forall k v, (k, v) ∈ take (Z.to_nat n) (entries_from m low) -> m !! k = Some v /\ low <= k).
  { intros k v Hin. apply elem_of_entries_from. by apply subseteq_take in Hin. }
  split; [unfold zlen; rewrite length_take; lia|]. split; [|done]. rewrite fmap_take.
  assert (Hs : StronglySorted Z.lt (entries_from m low).*1).
  { apply strictly_sorted.
    - pose proof (entries_from_sorted m low) as Hs. clear Hsub. induction Hs as [|p l Hs IH Hall]; [constructor|].
      simpl. constructor; [done|].
      apply List.Forall_forall. intros k (q & -> & Hq)%list_elem_of_In%list_elem_of_fmap.
      rewrite List.Forall_forall in Hall. by apply Hall, list_elem_of_In.
    - unfold entries_from. rewrite merge_sort_Permutation. apply NoDup_fmap_fst; [|apply NoDup_filter, NoDup_map_to_list].
      intros k v w Hv Hw. rewrite list_elem_of_filter, elem_of_map_to_list in Hv, Hw. destruct Hv as [_ Hv], Hw as [_ Hw]. congruence. }
  rewrite <-(take_drop (Z.to_nat n) (entries_from m low).*1) in Hs. by apply StronglySorted_app_1_l in Hs.
Qed.

(** Two lists of entries, strictly increasing by key, with the same entries are equal. *)
Lemma increasing_entries_unique (l1 : list (Z * Z)) : forall l2, StronglySorted Z.lt l1.*1 -> StronglySorted Z.lt l2.*1 ->
  (forall p, p ∈ l1 <-> p ∈ l2) -> l1 = l2.
Proof.
  induction l1 as [|p l1 IH]; intros [|q l2] H1 H2 Hin; [done| | |].
  - pose proof (proj2 (Hin q) ltac:(constructor)) as Hq. by apply elem_of_nil in Hq.
  - pose proof (proj1 (Hin p) ltac:(constructor)) as Hp. by apply elem_of_nil in Hp.
  - apply StronglySorted_inv in H1 as [H1 A1], H2 as [H2 A2]. rewrite List.Forall_forall in A1, A2.
    assert (L1 : forall x, x ∈ l1 -> p.1 < x.1) by (intros x Hx; apply A1, list_elem_of_In, list_elem_of_fmap; by exists x).
    assert (L2 : forall x, x ∈ l2 -> q.1 < x.1) by (intros x Hx; apply A2, list_elem_of_In, list_elem_of_fmap; by exists x).
    assert (p = q) as ->.
    { pose proof (proj1 (Hin p) ltac:(constructor)) as [?|Hp]%elem_of_cons; [done|].
      pose proof (proj2 (Hin q) ltac:(constructor)) as [?|Hq]%elem_of_cons; [done|]. specialize (L1 q Hq). specialize (L2 p Hp). lia. }
    f_equal. apply IH; [done|done|]. intros x. specialize (Hin x). rewrite !elem_of_cons in Hin. split; intros Hx.
    + destruct (proj1 Hin (or_intror Hx)) as [->|?]; [|done]. specialize (L1 _ Hx). lia.
    + destruct (proj2 Hin (or_intror Hx)) as [->|?]; [|done]. specialize (L2 _ Hx). lia.
Qed.

Lemma entries_from_increasing m low : StronglySorted Z.lt (entries_from m low).*1.
Proof.
  destruct (entries_from_sound m low (zlen (entries_from m low)) (zlen_nonneg _)) as (_ & H & _).
  rewrite take_ge in H; [done|]. unfold zlen. lia.
Qed.

(** ** Laws *)

Class LawfulStore (I : Type) `{Index I} := {
  idx_rep : I -> gmap Z Z -> Prop;
  idx_valid : Z -> Prop;
  idx_payload : Z -> Prop;
  idx_limit : Z;
  payload_law v : 0 < v < u64_max -> idx_payload v;
  limit_law : idx_limit <= u64_max;
  bulk_load_law kvs :
    StronglySorted Z.lt kvs.*1 -> Forall idx_valid kvs.*1 -> Forall idx_payload kvs.*2 -> zlen kvs <= idx_limit ->
    exists i, idx_bulk_load kvs = Some i /\ idx_rep i (list_to_map kvs);
  get_law i m k v :
    idx_rep i m -> idx_valid k -> m !! k = Some v ->
    exists i', idx_get i k = Some (i', Some v) /\ idx_rep i' m;
  put_fresh_law i m k v :
    idx_rep i m -> idx_valid k -> idx_payload v -> m !! k = None -> Z.of_nat (size m) < idx_limit ->
    exists i', idx_put i k v = Some (i', true) /\ idx_rep i' (<[k := v]> m);
  put_present_law i m k v w :
    idx_rep i m -> idx_valid k -> idx_payload v -> m !! k = Some w ->
    exists i' b v', idx_put i k v = Some (i', b) /\ idx_rep i' (<[k := v']> m) /\ (v' = v \/ v' = w)
}.

Class LawfulIndex (I : Type) `{LawfulStore I} : Prop := {
  scan_law i m low n :
    idx_rep i m -> idx_valid low -> 0 <= n ->
    exists i' l, idx_scan i low n = Some (i', l) /\ idx_rep i' m /\ sound_scan m low n l
}.

(** ** Insertions that keep an existing key *)

(** What such an insertion does to the map. *)
Definition put_map (m : gmap Z Z) (k v : Z) : gmap Z Z :=
  match m !! k with
  | Some _ => m
  | None => <[k := v]> m
  end.

Lemma put_map_fresh m k v : m !! k = None -> put_map m k v = <[k := v]> m.
Proof. unfold put_map. by intros ->. Qed.

Lemma increasing_NoDup_keys l : StronglySorted Z.lt l -> NoDup l.
Proof.
  induction 1 as [|x l Hs IH Hall]; constructor; [|done]. intros Hx%list_elem_of_In. rewrite List.Forall_forall in Hall.
  specialize (Hall x Hx). lia.
Qed.

(** Bulk loading by insertions, one after the other. *)
Section puts.
Context {T : Type} (put : T -> Z -> Z -> option (T * bool)) (rep : T -> gmap Z Z -> Prop) (valid payload : Z -> Prop).
Context (Hput : forall t m k v, rep t m -> valid k -> payload v ->
  exists t', put t k v = Some (t', bool_decide (m !! k = None)) /\ rep t' (put_map m k v)).

Lemma puts_spec kvs : forall t m, rep t m -> Forall valid kvs.*1 -> Forall payload kvs.*2 -> NoDup kvs.*1 ->
  (forall k, k ∈ kvs.*1 -> m !! k = None) ->
  exists t', foldl (fun t kv => t ← t; '(t, _) ← put t kv.1 kv.2; Some t) (Some t) kvs = Some t' /\ rep t' (list_to_map kvs ∪ m).
Proof using Hput.
  induction kvs as [|[k v] kvs IH]; intros t m Ht Hk Hp Hnd Hfresh; cbn [foldl].
  - exists t. split; [done|]. simpl. by rewrite (left_id_L ∅ (∪)).
  - apply Forall_cons in Hk as [Hk Hks], Hp as [Hp Hps]. apply NoDup_cons in Hnd as [Hnot Hnd].
    assert (Hmk : m !! k = None) by (apply Hfresh; constructor).
    destruct (Hput t m k v Ht Hk Hp) as (t1 & E & Ht1). cbn [mbind option_bind fst snd]. rewrite E. cbn [mbind option_bind].
    rewrite put_map_fresh in Ht1 by done. destruct (IH t1 _ Ht1 Hks Hps Hnd) as (t' & E' & Ht').
    { intros x Hx. rewrite lookup_insert_ne; [apply Hfresh; by constructor|]. intros ->. done. }
    exists t'. split; [done|]. simpl. replace (<[k:=v]> (list_to_map kvs) ∪ m) with (list_to_map kvs ∪ <[k:=v]> m); [done|].
    rewrite <-insert_union_l, insert_union_r; [done|]. by apply not_elem_of_list_to_map_1.
Qed.
End puts.

(** ** The reference implementation *)

Module MapIndex.

#[export] Instance map_index : Index (gmap Z Z) := {
  idx_bulk_load kvs := Some (list_to_map kvs);
  idx_get m k := Some (m, m !! k);
  idx_put m k v := Some (<[k := v]> m, true);
  idx_remove m k := Some (delete k m, bool_decide (is_Some (m !! k)));
  idx_scan m low n := Some (m, take (Z.to_nat n) (entries_from m low))
}.

#[export] Instance map_index_store : LawfulStore (gmap Z Z).
Proof.
  refine {| idx_rep := eq; idx_valid := fun _ => True; idx_payload := fun _ => True; idx_limit := 2 ^ 63 |}; [done|done|..]; intros; subst; simpl;
    simplify_map_eq; eauto 10.
Defined.

#[export] Instance map_index_lawful : LawfulIndex (gmap Z Z).
Proof. split. simpl. intros i m low n -> _ Hn. eauto 10 using entries_from_sound. Qed.

End MapIndex.

(** The variant that leaves an existing key alone and reports it, like the ALEX
    adapter. *)
Module KeepIndex.

Definition keep_put (m : gmap Z Z) (k v : Z) : gmap Z Z * bool :=
  match m !! k with
  | Some _ => (m, false)
  | None => (<[k := v]> m, true)
  end.

#[export] Instance keep_index : Index (gmap Z Z) := {
  idx_bulk_load kvs := Some (list_to_map kvs);
  idx_get m k := Some (m, m !! k);
  idx_put m k v := Some (keep_put m k v);
  idx_remove m k := Some (delete k m, bool_decide (is_Some (m !! k)));
  idx_scan m low n := Some (m, take (Z.to_nat n) (entries_from m low))
}.

#[export] Instance keep_index_store : LawfulStore (gmap Z Z).
Proof.
  refine {| idx_rep := eq; idx_valid := fun _ => True; idx_payload := fun _ => True; idx_limit := 2 ^ 63 |}; [done|done|..]; intros; subst; simpl;
    unfold keep_put; simplify_map_eq; eauto 10.
  simplify_option_eq. eexists _, _, w. split; [done|]. rewrite insert_id; eauto.
Defined.

#[export] Instance keep_index_lawful : LawfulIndex (gmap Z Z).
Proof. split. simpl. intros i m low n -> _ Hn. eauto 10 using entries_from_sound. Qed.

End KeepIndex.
