(* ===== verification/AlexIndex.v ===== *)
(** * ALEX as an index (competitor/alex/alex.h)

    The adapter over the tree with its default parameters, and a small tree that the code
    builds, at which the theorems on trees are evaluated. *)

From S2P Require Import Prelude Words Floats FloatScale FloatMono Index AlexBase AlexBitmap AlexSearch AlexModel AlexNode AlexLookup AlexPlace AlexResize.
From S2P Require Import AlexTree AlexBuild AlexSplit AlexGrow AlexRoute AlexTreeMap AlexTreeIter AlexTreeOps AlexTreeCheck.
From Stdlib Require Import SpecFloat Sorted.
From stdpp Require Import gmap list sorting.
Local Open Scope Z_scope.
Local Open Scope cxx_scope.

Section Adapter.
Context `{AlexEnv Z} (fuel : nat).
Implicit Types (t : Alex Z).

(** [(int) num], for arrays of fewer than [2^31] pairs. *)
Definition alex_bulk_load (key_value : list (Z * Z)) : option (Alex Z) :=
  if zlen key_value <=? int_max then t ← Alex_new default_params; bulk_load_tree fuel t key_value (zlen key_value) else None.

Definition alex_get t (key : Z) : option (Alex Z * option Z) := '(res, t) ← get_payload t key; Some (t, res).

Definition alex_put t (key value : Z) : option (Alex Z * bool) := '(_, second, t) ← AlexGrow.insert fuel t key value; Some (t, second).

Definition alex_remove t (key : Z) : option (Alex Z * bool) := '(num_erase, t) ← erase_tree t key; Some (t, 0 <? num_erase).

Definition alex_scan t (key_low_bound key_num : Z) : option (Alex Z * list (Z * Z)) :=
  '(iter, t) ← AlexTree.lower_bound t key_low_bound; result ← collect (store t) iter key_num; Some (t, result).

#[export] Instance alex_index : Index (Alex Z) := {
  idx_bulk_load := alex_bulk_load;
  idx_get := alex_get;
  idx_put := alex_put;
  idx_remove := alex_remove;
  idx_scan := alex_scan
}.
End Adapter.

Section Laws.
Context `{AlexEnv Z} (lo hi : Z) (Hlo : 0 <= lo) (Hhi : hi < u64_max).
Implicit Types (t : Alex Z).

Lemma increasing_keys (l : list (Z * Z)) : StronglySorted (fun p q : Z * Z => p.1 < q.1) l -> StronglySorted Z.lt l.*1.
Proof.
  induction 1 as [|p l Hs IH Hall]; [constructor|]. cbn. constructor; [done|]. apply List.Forall_forall. intros k (q & -> & Hq)%list_elem_of_In%list_elem_of_fmap.
  rewrite List.Forall_forall in Hall. by apply Hall, list_elem_of_In.
Qed.

Lemma increasing_filter {A} (R : A -> A -> Prop) (Q : A -> Prop) `{!forall x, Decision (Q x)} (l : list A) : StronglySorted R l -> StronglySorted R (filter Q l).
Proof.
  induction 1 as [|x l Hs IH Hall]; [constructor|]. destruct (decide (Q x)); [rewrite filter_cons_True by done|by rewrite filter_cons_False]. constructor; [done|].
  apply List.Forall_forall. intros y Hy%list_elem_of_In%list_elem_of_filter. rewrite List.Forall_forall in Hall. apply Hall, list_elem_of_In, Hy.
Qed.

(** The pairs from a key on are the entries of the map. *)
Lemma tree_entries t ls low : tree_ok lo hi t ls -> filter (fun p => low <= p.1) (tree_pairs t ls) = entries_from (tree_map t ls) low.
Proof using Hlo Hhi.
  intros Hok. pose proof (tree_pairs_increasing lo hi Hlo Hhi t ls Hok) as Hs. apply increasing_entries_unique.
  - by apply increasing_keys, increasing_filter.
  - apply entries_from_increasing.
  - intros [k v]. rewrite elem_of_entries_from, list_elem_of_filter, elem_of_tree_pairs, (tree_map_Some lo hi Hlo Hhi) by done. cbn [fst]. tauto.
Qed.

(** C4: on a well-formed tree whose models route the keys from [lo] to [hi], a scan from
    such a key returns the [n] least entries from the key on, or all of them if there are
    fewer, reads only leaves of the tree and leaves the map as it is, whenever
    [find_lower] stays inside the bitmap of the leaf of the key; otherwise the scan reads
    past that bitmap. *)
Theorem alex_scan_exact t ls low n : tree_ok lo hi t ls -> lo <= low <= hi -> 0 <= n ->
  (lower_in_bounds t low -> exists t', alex_scan t low n = Some (t', take (Z.to_nat n) (entries_from (tree_map t ls) low)) /\
    tree_ok lo hi t' ls /\ tree_map t' ls = tree_map t ls) /\
  (~ lower_in_bounds t low -> alex_scan t low n = None).
Proof using Hlo Hhi.
  intros Hok Hlow Hn. unfold alex_scan. split; intros Hroom; [|by rewrite (tree_lower_bound_outside lo hi Hlo Hhi t ls low Hok Hlow Hroom)].
  destruct (tree_lower_bound_spec lo hi Hlo Hhi t ls low Hok Hlow Hroom) as (it & t' & -> & Hok' & Hm & Hit). cbn [mbind option_bind].
  rewrite (collect_spec (store t') ls it _ n (tree_ok_chain lo hi t' ls Hok') Hit Hn). cbn [mbind option_bind]. exists t'. by rewrite (tree_entries t ls low Hok).
Qed.
End Laws.

(** ** A tree the code builds *)

(** The sizes and library functions of the model, for the examples. *)
#[local] Instance small_env : AlexEnv Z := {|
  sizeof_V := 16; sizeof_node := 104; log2 x := f64_of_Z (match f64_trunc x with Some z => Z.log2 z | None => 0 end); pow2 x := x;
  uninit_keys _ := 0; uninit_payloads _ := 0
|}.

Definition tree_demo_pairs : list (Z * Z) := [(1000, 0); (1001, 1); (1004, 2); (1009, 3); (1016, 4); (1025, 5); (1036, 6); (1049, 7)].

(** At most 32 children of a model node and 4 slots of a data node. *)
Definition tree_demo : option (Alex Z) := t ← Alex_new (mkParams (f64_of_Z 1) true false 32 4); bulk_load_tree 5 t tree_demo_pairs 8.

Definition tree_demo_leaves : list Z := [6; 8; 10; 12; 14; 16; 18].

Lemma tree_demo_checked : (t ← tree_demo; tree_check 0 100000 t) = Some tree_demo_leaves.
Proof. vm_compute. reflexivity. Qed.

(** Bulk loading these pairs builds a well-formed tree of seven leaves that holds them. *)
Lemma tree_demo_ok : exists t, tree_demo = Some t /\ tree_ok 0 100000 t tree_demo_leaves.
Proof.
  pose proof tree_demo_checked as H. destruct tree_demo as [t|]; [|done]. exists t. split; [done|]. by apply tree_check_sound.
Qed.

(** What is asked of a tree of the demo, evaluated. *)
Lemma tree_demo_fact {A} (f : Alex Z -> A) (x : A) : (t ← tree_demo; Some (f t)) = Some x ->
  exists t, tree_demo = Some t /\ tree_ok 0 100000 t tree_demo_leaves /\ f t = x.
Proof. intros E. destruct tree_demo_ok as (t & Et & Hok). rewrite Et in E. exists t. split; [exact Et|]. split; [exact Hok|]. cbn [mbind option_bind] in E. by apply (inj Some). Qed.

(** The removals empty leaves, which are merged with their siblings. *)
Definition tree_demo_ops : list (tree_op Z) :=
  [TGet 1009; TInsert 1010 70; TInsert 1009 71; TErase 1000; TGet 1000; TInsert 1002 72; TErase 1003; TGet 1010; TInsert 1045 73;
   TEraseAt 1016; TErase 1025; TEraseOne 1036; TErase 1045; TErase 1049; TGet 1016; TGet 1004].

Lemma tree_refines_map_witness : exists t t' ls', tree_demo = Some t /\ tree_ok 0 100000 t tree_demo_leaves /\
  exec_trees 1 t tree_demo_ops = Some ([TFound (Some 3); TInserted true; TInserted false; TErased 1; TFound None; TInserted true; TErased 0; TFound (Some 70); TInserted true;
    TDone; TErased 1; TErased 1; TErased 1; TErased 1; TFound None; TFound (Some 2)], t') /\
  tree_ok 0 100000 t' ls'.
Proof.
  destruct (tree_demo_fact (fun t => (all_calm 1 t tree_demo_ops, tree_pairs t tree_demo_leaves)) (true, tree_demo_pairs)) as (t & Et & Hok & E); [vm_compute; reflexivity|].
  apply pair_equal_spec in E as [Hcalm Hpairs]. assert (Hmap : tree_map t tree_demo_leaves = list_to_map tree_demo_pairs) by (unfold tree_map; by rewrite Hpairs). destruct (tree_refines_map 0 100000 ltac:(discriminate) ltac:(reflexivity) 1 tree_demo_ops t tree_demo_leaves) as (t' & ls' & E & Hok' & _).
  - exact Hok.
  - rewrite Hmap. vm_compute. reflexivity.
  - repeat (apply Forall_cons_2; [vm_compute; split; discriminate|]). constructor.
  - exact Hcalm.
  - exists t, t', ls'. split; [exact Et|]. split; [exact Hok|]. split; [|exact Hok']. rewrite E, Hmap. vm_compute. reflexivity.
Defined.

(** Merging has removed two leaves of the demo; when every key is removed, one leaf is left and is the root. *)
Example tree_demo_merged : ('(_, t) ← (t ← tree_demo; exec_trees 1 t tree_demo_ops); tree_check 0 100000 t) = Some [6; 8; 10; 12; 18].
Proof. vm_compute. reflexivity. Qed.

Example tree_demo_emptied : ('(_, t) ← (t ← tree_demo; exec_trees 1 t (TErase <$> tree_demo_pairs.*1)); ls ← tree_check 0 100000 t; Some (ls, root_node_ t, stat t SNumModelNodes)) = Some ([12], 12, 0).
Proof. vm_compute. reflexivity. Qed.

(** Insertions that split leaves, and insertions above the key domain that grow the root,
    on the demo: every insertion is new, the tree is well formed afterwards and holds all pairs. *)
Definition tree_demo_grown (ops : list (tree_op Z)) : option (bool * bool * list (Z * Z)) :=
  t0 ← tree_demo; '(rs, t) ← exec_trees 5 t0 ops; ls ← tree_check 0 100000 t;
  Some (forallb (fun r => match r with TInserted true => true | _ => false end) rs, root_node_ t =? root_node_ t0, tree_pairs t ls).

Example tree_demo_split : tree_demo_grown ((fun k => TInsert k k) <$> [1010; 1011; 1012; 1013; 1014; 1015; 1017; 1018]) =
  Some (true, true, [(1000, 0); (1001, 1); (1004, 2); (1009, 3); (1010, 1010); (1011, 1011); (1012, 1012); (1013, 1013); (1014, 1014); (1015, 1015); (1016, 4); (1017, 1017); (1018, 1018); (1025, 5); (1036, 6); (1049, 7)]).
Proof. vm_compute. reflexivity. Qed.

Example tree_demo_expanded : tree_demo_grown ((fun i => TInsert (2000 + 100 * i) i) <$> seqZ 0 12) =
  Some (true, false, tree_demo_pairs ++ ((fun i => (2000 + 100 * i, i)) <$> seqZ 0 12)).
Proof. vm_compute. reflexivity. Qed.

Lemma tree_iteration_witness : exists t it, tree_demo = Some t /\ begin t = Some it /\ collect (store t) it 3 = Some [(1000, 0); (1001, 1); (1004, 2)].
Proof.
  destruct (tree_demo_fact (fun t => tree_pairs t tree_demo_leaves) tree_demo_pairs) as (t & Et & Hok & Hpairs); [vm_compute; reflexivity|].
  destruct (tree_iteration 0 100000 ltac:(discriminate) ltac:(reflexivity) t tree_demo_leaves 3 Hok ltac:(discriminate)) as (it & Eb & Ec & _).
  exists t, it. split; [exact Et|]. split; [exact Eb|]. rewrite Ec, Hpairs. reflexivity.
Defined.

Lemma get_leaf_order_witness : exists t, tree_demo = Some t /\ exists i i' l l' t1 t1' path path',
  get_leaf t 1009 false = Some (t1, l, path) /\ get_leaf t 1020 false = Some (t1', l', path') /\
  tree_demo_leaves !! i = Some l /\ tree_demo_leaves !! i' = Some l' /\ (i <= i')%nat /\ same_tree t t1 /\ same_tree t t1'.
Proof.
  destruct tree_demo_ok as (t & Et & Hok). exists t. split; [exact Et|].
  apply (get_leaf_order 0 100000 ltac:(discriminate) ltac:(reflexivity) t tree_demo_leaves 1009 1020 Hok); [split; discriminate|discriminate].
Defined.

Lemma lower_in_bounds_dec lo hi (t : Alex Z) ls key (l : Z) (n : AlexDataNode Z) : tree_ok lo hi t ls -> leads_to t key l -> leaves (store t) !! l = Some n ->
  data_capacity_ (slots_ n) mod 64 <> 0 -> lower_in_bounds t key.
Proof. intros Hok R En Hcap l' n' R' En'. left. unfold leads_to in *. assert (l' = l) as -> by congruence. by assert (n' = n) as -> by congruence. Qed.

Lemma alex_scan_exact_witness : exists t t', tree_demo = Some t /\ alex_scan t 1005 3 = Some (t', [(1009, 3); (1016, 4); (1025, 5)]) /\ tree_ok 0 100000 t' tree_demo_leaves.
Proof.
  destruct (tree_demo_fact (fun t => (bool_decide (leads_to t 1005 8), (fun n : AlexDataNode Z => data_capacity_ (slots_ n) mod 64) <$> leaves (store t) !! 8, tree_pairs t tree_demo_leaves))
    (true, Some 2, tree_demo_pairs)) as (t & Et & Hok & E); [vm_compute; reflexivity|]. injection E as R En Hpairs. apply bool_decide_eq_true in R.
  assert (Hmap : tree_map t tree_demo_leaves = list_to_map tree_demo_pairs) by (unfold tree_map; by rewrite Hpairs).
  destruct (leaves (store t) !! 8) as [n|] eqn:El; [|discriminate En]. injection En as Hcap.
  destruct (alex_scan_exact 0 100000 ltac:(discriminate) ltac:(reflexivity) t tree_demo_leaves 1005 3 Hok) as [Hin _]; [split; discriminate|discriminate|].
  destruct Hin as (t' & E & Hok' & _).
  - apply (lower_in_bounds_dec 0 100000 t tree_demo_leaves 1005 8 n Hok R El). rewrite Hcap. discriminate.
  - exists t, t'. split; [exact Et|]. split; [|exact Hok']. rewrite E, Hmap. vm_compute. reflexivity.
Defined.
