(* ===== verification/Run.v ===== *)
(** * Benchmark driver: running the operations (benchmark/benchmark.h, [run])

    The parallel loop [#pragma omp for schedule(dynamic, 10000)] as a state
    machine: a thread without work takes the next chunk of at most 10000
    iterations; a thread with work executes its next iteration, whose index
    operation is one atomic step.  The scheduler, and the time stamps the
    threads read, are the labels of the steps, so the theorems about all label
    sequences are about all schedules.

    On a lawful index and with the operations [generate_operations] produces,
    no schedule gets stuck, every schedule ends after a number of steps known in
    advance, and the counters gathered at the end do not depend on it. *)

From S2P Require Import Prelude Words Floats Utils Workload Index.
From Stdlib Require Import SpecFloat.
From stdpp Require Import gmap.
Local Open Scope Z_scope.
Local Open Scope cxx_scope.

(** ** Data *)

Record ThreadParam := mkThreadParam {
  latency : list (Z * Z);
  success_insert : Z;
  success_read : Z;
  success_update : Z;
  success_erase : Z;
  scan_not_enough : Z
}.

Definition new_param : ThreadParam := mkThreadParam [] 0 0 0 0 0.

Record Stat := mkStat {
  stat_latency : list Z;
  throughput : Z;
  stat_insert : Z;
  stat_read : Z;
  stat_update : Z;
  stat_erase : Z;
  stat_not_enough : Z
}.

(** [Stat::clear]. *)
Definition clear_stat : Stat := mkStat [] 0 0 0 0 0 0.

(** The parameters of the loop. *)
Record RunConfig := mkRunConfig {
  ops : list (Operation * Z);
  operations_num : Z;
  scan_num : Z;
  latency_sample : bool;
  latency_sample_ratio : f64
}.

(** A thread: its counters and the iterations [cur .. stop - 1] of its chunk. *)
Record Worker := mkWorker {
  param : ThreadParam;
  cur : Z;
  stop : Z
}.

Record RunState (I : Type) := mkRunState {
  index : I;
  next : Z;
  workers : list Worker
}.
Arguments mkRunState {I} index next workers.
Arguments index {I}.
Arguments next {I}.
Arguments workers {I}.

(** ** Operations *)

Definition chunk_size : Z := 10000.

(** [stat.success_read += ret] and the like. *)
Definition add_bool (c : Z) (ret : bool) : Z := wrap64 (c + if ret then 1 else 0).

Definition count_read (p : ThreadParam) (ret : bool) : ThreadParam :=
  mkThreadParam (latency p) (success_insert p) (add_bool (success_read p) ret) (success_update p)
    (success_erase p) (scan_not_enough p).

Definition count_inserted (p : ThreadParam) (ret : bool) : ThreadParam :=
  mkThreadParam (latency p) (add_bool (success_insert p) ret) (success_read p) (success_update p)
    (success_erase p) (scan_not_enough p).

Definition count_updated (p : ThreadParam) (ret : bool) : ThreadParam :=
  mkThreadParam (latency p) (success_insert p) (success_read p) (add_bool (success_update p) ret)
    (success_erase p) (scan_not_enough p).

Definition count_not_enough (p : ThreadParam) (ret : bool) : ThreadParam :=
  mkThreadParam (latency p) (success_insert p) (success_read p) (success_update p)
    (success_erase p) (add_bool (scan_not_enough p) ret).

Definition push_latency (p : ThreadParam) (t : Z * Z) : ThreadParam :=
  mkThreadParam (latency p ++ [t]) (success_insert p) (success_read p) (success_update p)
    (success_erase p) (scan_not_enough p).

(** [int latency_sample_interval = operations_num / (operations_num * latency_sample_ratio)],
    and the division by it that sizes the latency vector. *)
Definition latency_sample_interval (c : RunConfig) : option Z :=
  let n := f64_of_Z (operations_num c) in
  let interval := f64_to_int (f64_div n (f64_mul n (latency_sample_ratio c))) in
  if interval =? 0 then None else Some interval.

Section Run.
Context {I : Type} `{Index I}.

(** The branch on the kind of operation; there is none for [DELETE]. *)
Definition run_operation (c : RunConfig) (ix : I) (p : ThreadParam) (op : Operation) (key : Z)
    : option (I * ThreadParam) :=
  match op with
  | READ =>
      '(ix, val) ← idx_get ix key;
      Some (ix, count_read p (bool_decide (is_Some val)))
  | INSERT =>
      '(ix, ret) ← idx_put ix key 123456789;
      Some (ix, count_inserted p ret)
  | UPDATE =>
      '(ix, ret) ← idx_put ix key 123456789;
      Some (ix, count_updated p ret)
  | SCAN =>
      '(ix, result) ← idx_scan ix key (scan_num c);
      Some (ix, count_not_enough p (negb (zlen result =? scan_num c)))
  | DELETE => Some (ix, p)
  end.

(** Iteration [i] of the loop; [t] is the pair of time stamps read around it. *)
Definition iteration (c : RunConfig) (interval : Z) (ix : I) (p : ThreadParam) (i : Z) (t : Z * Z)
    : option (I * ThreadParam) :=
  '(op, key) ← (ops c).[i];
  '(ix, p) ← run_operation c ix p op key;
  Some (ix, if latency_sample c && (Z.rem i interval =? 0) then push_latency p t else p).

Inductive Label :=
  | Grab (thread : nat)
  | Exec (thread : nat) (t : Z * Z).

(** One step of the loop; [None] when the step is not possible. *)
Definition run_step (c : RunConfig) (interval : Z) (s : RunState I) (l : Label) : option (RunState I) :=
  match l with
  | Grab thread =>
      w ← workers s !! thread;
      if (cur w =? stop w) && (next s <? operations_num c) then
        let upto := Z.min (next s + chunk_size) (operations_num c) in
        Some (mkRunState (index s) upto (<[thread := mkWorker (param w) (next s) upto]> (workers s)))
      else None
  | Exec thread t =>
      w ← workers s !! thread;
      if cur w <? stop w then
        '(ix, p) ← iteration c interval (index s) (param w) (cur w) t;
        Some (mkRunState ix (next s) (<[thread := mkWorker p (cur w + 1) (stop w)]> (workers s)))
      else None
  end.

Fixpoint run_steps (c : RunConfig) (interval : Z) (s : RunState I) (ls : list Label) : option (RunState I) :=
  match ls with
  | [] => Some s
  | l :: ls => s ← run_step c interval s l; run_steps c interval s ls
  end.

(** [thread_num] threads with fresh parameters. *)
Definition run_init (ix : I) (thread_num : Z) : RunState I :=
  mkRunState ix 0 (replicate (Z.to_nat thread_num) (mkWorker new_param 0 0)).

(** The loop is over when no iteration is left. *)
Definition run_done (c : RunConfig) (s : RunState I) : bool :=
  (next s =? operations_num c) && forallb (fun w => cur w =? stop w) (workers s).

End Run.

(** [TSCNS::tsc2ns] for the calibration [(tsc_ghz_inv, ns_offset)]. *)
Definition wrap_i64 (z : Z) : Z := (z + 2 ^ 63) mod 2 ^ 64 - 2 ^ 63.

Definition tsc2ns (tsc_ghz_inv : f64) (ns_offset tsc : Z) : option Z :=
  d ← f64_trunc (f64_mul (f64_of_Z tsc) tsc_ghz_inv);
  if (- 2 ^ 63 <=? d) && (d <? 2 ^ 63) then Some (wrap_i64 (ns_offset + d)) else None.

(** The loop over the thread parameters after the threads have joined. *)
Definition gather_one (c : RunConfig) (to_ns : Z -> option Z) (st : Stat) (p : ThreadParam) : option Stat :=
  lat ← (if latency_sample c then
           mapM (fun e => a ← to_ns e.1; b ← to_ns e.2; Some (wrap_i64 (b - a))) (latency p)
         else Some []);
  Some (mkStat (stat_latency st ++ lat) (throughput st)
    (wrap64 (stat_insert st + success_insert p)) (wrap64 (stat_read st + success_read p))
    (wrap64 (stat_update st + success_update p)) (wrap64 (stat_erase st + success_erase p))
    (wrap64 (stat_not_enough st + scan_not_enough p))).

Fixpoint gather (c : RunConfig) (to_ns : Z -> option Z) (st : Stat) (ps : list ThreadParam) : option Stat :=
  match ps with
  | [] => Some st
  | p :: ps => st ← gather_one c to_ns st p; gather c to_ns st ps
  end.

(** [stat.throughput = operations_num / (diff / 1e9)] for the time between the two
    readings of the clock. *)
Definition set_throughput (c : RunConfig) (diff : Z) (st : Stat) : option Stat :=
  t ← f64_trunc (f64_div (f64_of_Z (operations_num c)) (f64_div (f64_of_Z diff) (f64_of_Z 1000000000)));
  if (0 <=? t) && (t <? 2 ^ 64) then
    Some (mkStat (stat_latency st) t (stat_insert st) (stat_read st) (stat_update st) (stat_erase st)
      (stat_not_enough st))
  else None.

(** ** Sums over threads and iterations *)

Fixpoint zsum {A} (f : A -> Z) (l : list A) : Z :=
  match l with
  | [] => 0
  | x :: l => f x + zsum f l
  end.

Section Sums.
Context {A : Type}.
Implicit Types (f : A -> Z) (l : list A).

Lemma zsum_app f l1 l2 : zsum f (l1 ++ l2) = zsum f l1 + zsum f l2.
Proof. induction l1 as [|x l1 IH]; simpl; lia. Qed.

Lemma zsum_perm f l1 l2 : l1 ≡ₚ l2 -> zsum f l1 = zsum f l2.
Proof. induction 1; simpl; lia. Qed.

Lemma zsum_nonneg f l : (forall x, 0 <= f x) -> 0 <= zsum f l.
Proof. intros Hf. induction l as [|x l IH]; simpl; [lia|]. specialize (Hf x). lia. Qed.

Lemma zsum_zero f l : (forall x, x ∈ l -> f x = 0) -> zsum f l = 0.
Proof.
  induction l as [|x l IH]; intros Hf; simpl; [done|].
  rewrite (Hf x) by constructor. rewrite IH; [done|]. intros y Hy. apply Hf. by constructor.
Qed.

Lemma zsum_le f l x : (forall y, y ∈ l -> 0 <= f y) -> x ∈ l -> f x <= zsum f l.
Proof.
  induction l as [|y l IH]; intros Hf Hx; [by apply elem_of_nil in Hx|]. simpl.
  assert (0 <= zsum f l).
  { assert (Hl : forall y, y ∈ l -> 0 <= f y) by (intros z Hz; apply Hf; by constructor).
    clear - Hl. induction l as [|z l IH]; simpl; [lia|].
    pose proof (Hl z ltac:(constructor)). assert (0 <= zsum f l); [|lia]. apply IH. intros u Hu. apply Hl. by constructor. }
  pose proof (Hf y ltac:(constructor)). apply elem_of_cons in Hx as [->|Hx]; [lia|].
  assert (f x <= zsum f l); [|lia]. apply IH; [|done]. intros z Hz. apply Hf. by constructor.
Qed.

Lemma zsum_replicate f n x : zsum f (replicate n x) = Z.of_nat n * f x.
Proof. induction n as [|n IH]; simpl; lia. Qed.

(** Updating one thread. *)
Lemma insert_split l t x y :
  l !! t = Some x -> exists l1 l2, l = l1 ++ x :: l2 /\ <[t := y]> l = l1 ++ y :: l2.
Proof.
  intros Hx. pose proof (lookup_lt_Some _ _ _ Hx). exists (take t l), (drop (S t) l).
  split; [by rewrite take_drop_middle|by apply insert_take_drop].
Qed.

Lemma zsum_insert f l t x y : l !! t = Some x -> zsum f (<[t := y]> l) = zsum f l - f x + f y.
Proof.
  intros Hx. destruct (insert_split _ _ _ y Hx) as (l1 & l2 & -> & ->). rewrite !zsum_app. simpl. lia.
Qed.
End Sums.

(** ** Pending iterations *)

Definition chunk (w : Worker) : list Z := seqZ (cur w) (stop w - cur w).

Definition pending {I} (n : Z) (s : RunState I) : list Z :=
  (workers s ≫= chunk) ++ seqZ (next s) (n - next s).

Lemma seqZ_split lo a b : 0 <= a -> 0 <= b -> seqZ lo (a + b) = seqZ lo a ++ seqZ (lo + a) b.
Proof. intros. by rewrite seqZ_app. Qed.

Section Pending.
Context {I : Type} `{Index I}.
Context (c : RunConfig) (interval : Z).
Implicit Types (s : RunState I).

(** Every chunk has been taken from the iterations handed out so far. *)
Definition chunks_ok s : Prop :=
  0 <= next s <= operations_num c /\
  forall t w, workers s !! t = Some w -> 0 <= cur w <= stop w /\ stop w <= next s.

(** Taking a chunk permutes the pending iterations. *)
Lemma grab_pending s t s' : chunks_ok s -> run_step c interval s (Grab t) = Some s' ->
  chunks_ok s' /\ pending (operations_num c) s' ≡ₚ pending (operations_num c) s.
Proof.
  intros [Hn Hw] E. cbn [run_step] in E. inv_bind E. destruct (_ && _) eqn:Eb in E; [|done]. btest.
  injection E as <-. set (upto := Z.min (next s + chunk_size) (operations_num c)).
  assert (next s <= upto <= operations_num c) as Hup by (unfold upto, chunk_size; lia). split.
  - split; cbn [next workers]; [lia|]. intros t' w'. destruct (decide (t = t')) as [<-|Hne].
    + rewrite list_lookup_insert_eq by (by eapply lookup_lt_Some). intros [= <-]. simpl. lia.
    + rewrite list_lookup_insert_ne by done. intros Hl. specialize (Hw _ _ Hl). lia.
  - unfold pending. cbn [workers next].
    destruct (insert_split _ _ _ (mkWorker (param x) (next s) upto) E0) as (l1 & l2 & E1 & E2).
    rewrite E2, E1, !bind_app, !bind_cons. unfold chunk at 2 5. cbn [cur stop].
    replace (stop x - cur x) with 0 by lia. rewrite (seqZ_nil _ 0) by lia. cbn [app].
    replace (operations_num c - next s) with ((upto - next s) + (operations_num c - upto)) by lia.
    rewrite (seqZ_split (next s)) by lia. replace (next s + (upto - next s)) with upto by lia.
    rewrite <-!app_assoc. apply Permutation_app_head. rewrite !app_assoc. apply Permutation_app_tail.
    apply Permutation_app_comm.
Qed.

(** Executing an iteration removes it from the pending ones. *)
Lemma exec_pending s t w ix p : chunks_ok s -> workers s !! t = Some w -> cur w < stop w ->
  let s' := mkRunState ix (next s) (<[t := mkWorker p (cur w + 1) (stop w)]> (workers s)) in
  chunks_ok s' /\ pending (operations_num c) s ≡ₚ cur w :: pending (operations_num c) s'.
Proof.
  intros [Hn Hw] Ew Hlt s'. pose proof (Hw _ _ Ew) as Hww. split.
  - split; cbn [next workers]; [done|]. intros t' w'. destruct (decide (t = t')) as [<-|Hne].
    + unfold s'. cbn [workers]. rewrite list_lookup_insert_eq by (by eapply lookup_lt_Some). intros [= <-]. simpl. lia.
    + unfold s'. cbn [workers]. rewrite list_lookup_insert_ne by done. apply Hw.
  - unfold pending, s'. cbn [workers next].
    destruct (insert_split _ _ _ (mkWorker p (cur w + 1) (stop w)) Ew) as (l1 & l2 & E1 & E2).
    rewrite E2, E1, !bind_app, !bind_cons. unfold chunk at 2 5. cbn [cur stop].
    rewrite (seqZ_cons (cur w) (stop w - cur w)) by lia.
    replace (Z.pred (stop w - cur w)) with (stop w - (cur w + 1)) by lia.
    replace (Z.succ (cur w)) with (cur w + 1) by lia. cbn [app].
    rewrite <-!app_assoc. cbn [app]. rewrite <-!app_assoc. symmetry. apply Permutation_middle.
Qed.
End Pending.

(** ** Counters *)

Section Counters.
Context {I : Type} `{Index I}.
Context (c : RunConfig) (interval : Z).
Implicit Types (s : RunState I) (f : ThreadParam -> Z) (wt : Z -> Z).

(** The sum of a counter over the threads, plus what the pending iterations can
    still add to it, is at most (or exactly) what all iterations can add. *)
Record tally (exact : bool) f wt s : Prop := {
  ta_nonneg : forall t w, workers s !! t = Some w -> 0 <= f (param w);
  ta_sum : let now := zsum (f ∘ param) (workers s) + zsum wt (pending (operations_num c) s) in
    let all := zsum wt (seqZ 0 (operations_num c)) in
    now <= all /\ (exact = true -> now = all)
}.

Lemma zsum_seqZ_le wt lo n : 0 <= n -> (forall i, 0 <= wt i <= 1) -> 0 <= zsum wt (seqZ lo n) <= n.
Proof.
  intros Hn Hw. revert lo. pattern n. apply natlike_ind; [|clear n Hn; intros n Hn IH lo|done].
  - intros lo. rewrite (seqZ_nil lo 0) by lia. simpl. lia.
  - rewrite (seqZ_cons lo (Z.succ n)) by lia. simpl. rewrite Z.pred_succ. specialize (IH (Z.succ lo)). specialize (Hw lo). lia.
Qed.

Lemma tally_bound exact f wt s t w :
  0 <= operations_num c -> tally exact f wt s -> (forall i, 0 <= wt i <= 1) -> workers s !! t = Some w ->
  0 <= f (param w) <= operations_num c.
Proof.
  intros Hn [Hnn [Hs _]] Hwt Hw. split; [by eapply Hnn|].
  assert (f (param w) <= zsum (f ∘ param) (workers s)).
  { apply (zsum_le (f ∘ param)); [|by eapply list_elem_of_lookup_2]. intros y [u Hu]%list_elem_of_lookup. by eapply Hnn. }
  pose proof (zsum_seqZ_le wt 0 (operations_num c) Hn Hwt).
  assert (0 <= zsum wt (pending (operations_num c) s)) by (apply zsum_nonneg; intros i; specialize (Hwt i); lia). lia.
Qed.

Lemma tally_grab exact f wt s t s' :
  chunks_ok c s -> run_step c interval s (Grab t) = Some s' -> tally exact f wt s -> tally exact f wt s'.
Proof.
  intros Hc E [Hnn Hs]. destruct (grab_pending c interval s t s' Hc E) as [_ Hp].
  cbn [run_step] in E. inv_bind E. destruct (_ && _) in E; [|done]. injection E as <-. split.
  - cbn [workers]. intros t' w'. destruct (decide (t = t')) as [<-|Hne].
    + rewrite list_lookup_insert_eq by (by eapply lookup_lt_Some). intros [= <-]. simpl. by eapply Hnn.
    + rewrite list_lookup_insert_ne by done. apply Hnn.
  - rewrite (zsum_perm wt _ _ Hp). cbn [workers]. rewrite (zsum_insert _ _ _ _ _ E0). unfold compose in *. cbn [param].
    cbv zeta in Hs |- *. destruct Hs as [Hle He]. split; [lia|]. intros Hx. specialize (He Hx). lia.
Qed.

Lemma tally_exec exact f wt s t w ix p d :
  chunks_ok c s -> workers s !! t = Some w -> cur w < stop w -> tally exact f wt s ->
  f p = f (param w) + d -> 0 <= d <= wt (cur w) -> (exact = true -> d = wt (cur w)) ->
  tally exact f wt (mkRunState ix (next s) (<[t := mkWorker p (cur w + 1) (stop w)]> (workers s))).
Proof.
  intros Hc Ew Hlt [Hnn Hs] Hf Hd Hx.
  destruct (exec_pending c s t w ix p Hc Ew Hlt) as [_ Hp]. split.
  - cbn [workers]. intros t' w'. destruct (decide (t = t')) as [<-|Hne].
    + rewrite list_lookup_insert_eq by (by eapply lookup_lt_Some). intros [= <-]. simpl. specialize (Hnn _ _ Ew). lia.
    + rewrite list_lookup_insert_ne by done. apply Hnn.
  - cbv zeta in Hs |- *. rewrite (zsum_perm wt _ _ Hp) in Hs. cbn [zsum] in Hs. cbn [workers].
    rewrite (zsum_insert _ _ _ _ _ Ew). unfold compose in *. cbn [param]. rewrite Hf.
    destruct Hs as [Hle He]. split; [lia|]. intros E. specialize (He E). specialize (Hx E). lia.
Qed.
End Counters.

(** ** The invariant of a run *)

Section Runs.
Context {I : Type} `{LawfulIndex I}.
Context (c : RunConfig) (interval : Z) (m0 : gmap Z Z).
Implicit Types (s : RunState I).

(** 1 for the iterations that execute [op], and for those that take a latency sample. *)
Definition op_weight (op : Operation) (i : Z) : Z :=
  match rd (ops c) i with
  | Some (o, _) => if decide (o = op) then 1 else 0
  | None => 0
  end.

Definition sample_weight (i : Z) : Z :=
  if latency_sample c && (Z.rem i interval =? 0) then 1 else 0.

Definition op_count (op : Operation) : Z := zsum (op_weight op) (seqZ 0 (operations_num c)).

(** What the operations must satisfy with respect to the loaded map [m0]. *)
Record workload_ok : Prop := {
  wl_length : zlen (ops c) = operations_num c;
  wl_int : operations_num c <= int_max;
  wl_scan : 0 <= scan_num c;
  wl_valid : forall i op k, rd (ops c) i = Some (op, k) -> idx_valid k;
  wl_present : forall i op k, rd (ops c) i = Some (op, k) -> op = READ \/ op = UPDATE -> is_Some (m0 !! k);
  wl_fresh : forall i k, rd (ops c) i = Some (INSERT, k) -> m0 !! k = None;
  wl_distinct : forall i j k, rd (ops c) i = Some (INSERT, k) -> rd (ops c) j = Some (INSERT, k) -> i = j;
  wl_limit : Z.of_nat (size m0) + op_count INSERT <= idx_limit
}.

(** The keys of the index: the loaded ones and those of the executed insertions. *)
Definition map_ok (m : gmap Z Z) (todo : list Z) : Prop :=
  (forall k, is_Some (m !! k) <-> is_Some (m0 !! k) \/
     exists i, 0 <= i < operations_num c /\ (i ∉ todo) /\ rd (ops c) i = Some (INSERT, k)) /\
  Z.of_nat (size m) + zsum (op_weight INSERT) todo = Z.of_nat (size m0) + op_count INSERT.

Record run_inv s : Prop := {
  ri_chunks : chunks_ok c s;
  ri_nodup : NoDup (pending (operations_num c) s);
  ri_range : forall i, i ∈ pending (operations_num c) s -> 0 <= i < operations_num c;
  ri_read : tally c true success_read (op_weight READ) s;
  ri_insert : tally c true success_insert (op_weight INSERT) s;
  ri_update : tally c false success_update (op_weight UPDATE) s;
  ri_scan : tally c false scan_not_enough (op_weight SCAN) s;
  ri_erase : tally c true success_erase (fun _ => 0) s;
  ri_latency : tally c true (fun p => zlen (latency p)) sample_weight s;
  ri_map : exists m, idx_rep (index s) m /\ map_ok m (pending (operations_num c) s)
}.

Lemma op_weight_bounds op i : 0 <= op_weight op i <= 1.
Proof. unfold op_weight. destruct (rd _ _) as [[o k]|]; [destruct (decide _)|]; lia. Qed.

Lemma sample_weight_bounds i : 0 <= sample_weight i <= 1.
Proof. unfold sample_weight. destruct (_ && _); lia. Qed.

(** The iteration that inserts [k] adds exactly [k]. *)
Lemma map_ok_insert m i todo k v :
  workload_ok -> map_ok m (i :: todo) -> NoDup (i :: todo) -> 0 <= i < operations_num c ->
  rd (ops c) i = Some (INSERT, k) ->
  m !! k = None /\ Z.of_nat (size m) < idx_limit /\ map_ok (<[k := v]> m) todo.
Proof.
  intros Hwl [Hdom Hsz] Hnd Hi Hop. apply NoDup_cons in Hnd as [Hni Hnd].
  assert (Hfresh : m !! k = None).
  { apply eq_None_not_Some. intros Hk. apply Hdom in Hk as [Hk|(j & _ & Hj & Hop')].
    - rewrite (wl_fresh Hwl _ _ Hop) in Hk. by destruct Hk.
    - pose proof (wl_distinct Hwl _ _ _ Hop Hop') as ->. apply Hj. constructor. }
  cbn [zsum] in Hsz. unfold op_weight at 1 in Hsz. rewrite Hop, decide_True in Hsz by done.
  assert (0 <= zsum (op_weight INSERT) todo) by (apply zsum_nonneg; intros j; apply op_weight_bounds).
  pose proof (wl_limit Hwl). split; [done|]. split; [lia|]. split.
  - intros k'. rewrite lookup_insert_is_Some'. rewrite Hdom. split.
    + intros [<-|[?|(j & Hj & Hnj & ?)]]; [right; by exists i|by left|right]. exists j. rewrite not_elem_of_cons in Hnj. tauto.
    + intros [?|(j & Hj & Hnj & Hop')]; [tauto|]. destruct (decide (j = i)) as [->|Hne].
      * left. congruence.
      * right. right. exists j. rewrite not_elem_of_cons. tauto.
  - rewrite map_size_insert_None by done. lia.
Qed.

(** The other iterations leave the keys as they are. *)
Lemma map_ok_other m i todo op k :
  map_ok m (i :: todo) -> rd (ops c) i = Some (op, k) -> op <> INSERT -> map_ok m todo.
Proof.
  intros [Hdom Hsz] Hop Hne. cbn [zsum] in Hsz. unfold op_weight at 1 in Hsz. rewrite Hop, decide_False in Hsz by done.
  split; [|lia]. intros k'. rewrite Hdom. split; (intros [?|(j & Hj & Hnj & Hop')]; [by left|right; exists j]).
  - rewrite not_elem_of_cons in Hnj. tauto.
  - rewrite not_elem_of_cons. repeat split; try tauto; try lia. intros ->. congruence.
Qed.

Lemma map_ok_update m todo k v w : map_ok m todo -> m !! k = Some w -> map_ok (<[k := v]> m) todo.
Proof.
  intros [Hdom Hsz] Hk. split.
  - intros k'. rewrite lookup_insert_is_Some'. rewrite <-Hdom. split; [|tauto]. intros [<-|?]; [by eexists|done].
  - rewrite map_size_insert_Some by (by eexists). done.
Qed.

Lemma map_ok_perm m l1 l2 : l1 ≡ₚ l2 -> map_ok m l1 -> map_ok m l2.
Proof.
  intros Hp [Hdom Hsz]. split; [|by rewrite <-(zsum_perm _ _ _ Hp)].
  intros k. rewrite Hdom. by setoid_rewrite Hp.
Qed.

Lemma add_bool_small x b : 0 <= x <= int_max -> add_bool x b = x + if b then 1 else 0.
Proof. intros. unfold add_bool, wrap64. unfold int_max in *. rewrite Z.mod_small; destruct b; lia. Qed.

(** What an iteration may add to the counters. *)
Record counted (p p' : ThreadParam) (i : Z) : Prop := {
  cd_read : success_read p' = success_read p + op_weight READ i;
  cd_insert : success_insert p' = success_insert p + op_weight INSERT i;
  cd_update : exists d, success_update p' = success_update p + d /\ 0 <= d <= op_weight UPDATE i;
  cd_scan : exists d, scan_not_enough p' = scan_not_enough p + d /\ 0 <= d <= op_weight SCAN i;
  cd_erase : success_erase p' = success_erase p
}.

(** The counters before an iteration are far from wrapping around. *)
Record small (p : ThreadParam) : Prop := {
  sm_read : 0 <= success_read p <= int_max;
  sm_insert : 0 <= success_insert p <= int_max;
  sm_update : 0 <= success_update p <= int_max;
  sm_scan : 0 <= scan_not_enough p <= int_max
}.

Ltac counted_tac Hop :=
  constructor; cbn [success_read success_insert success_update scan_not_enough success_erase
                    count_read count_inserted count_updated count_not_enough];
  unfold op_weight; rewrite ?Hop; repeat first [rewrite decide_True by done | rewrite decide_False by done];
  rewrite ?add_bool_small by done; try lia; try done;
  try (eexists; split; [first [reflexivity | symmetry; apply Z.add_0_r]|]; repeat case_match; lia).

Lemma run_operation_ok ix p m i todo op k :
  workload_ok -> idx_rep ix m -> map_ok m (i :: todo) -> NoDup (i :: todo) -> 0 <= i < operations_num c ->
  rd (ops c) i = Some (op, k) -> small p ->
  exists ix' p' m', run_operation c ix p op k = Some (ix', p') /\ idx_rep ix' m' /\ map_ok m' todo /\
    counted p p' i /\ latency p' = latency p.
Proof.
  intros Hwl Hrep Hm Hnd Hi Hop [Hr Hin Hu Hs]. pose proof (wl_valid Hwl _ _ _ Hop) as Hv.
  assert (Hpres : op = READ \/ op = UPDATE -> is_Some (m !! k)).
  { intros Ho. destruct Hm as [Hdom _]. apply Hdom. left. by eapply (wl_present Hwl). }
  destruct op; cbn [run_operation].
  - destruct (Hpres ltac:(auto)) as [w Hw].
    destruct (get_law ix m k w Hrep Hv Hw) as (ix' & -> & Hrep'). cbn [mbind option_bind].
    eexists _, _, m. split; [done|]. split; [done|]. split; [by eapply map_ok_other|]. split; [|done].
    rewrite bool_decide_true by eauto. counted_tac Hop.
  - destruct (map_ok_insert m i todo k 123456789 Hwl Hm Hnd Hi Hop) as (Hf & Hsz & Hm').
    destruct (put_fresh_law ix m k 123456789 Hrep Hv (payload_law 123456789 (conj eq_refl eq_refl)) Hf Hsz) as (ix' & -> & Hrep'). cbn [mbind option_bind].
    eexists _, _, _. split; [done|]. split; [done|]. split; [done|]. split; [|done]. counted_tac Hop.
  - eexists _, _, m. split; [done|]. split; [done|]. split; [by eapply map_ok_other|]. split; [|done]. counted_tac Hop.
  - destruct (scan_law ix m k (scan_num c) Hrep Hv (wl_scan Hwl)) as (ix' & l & -> & Hrep' & _). cbn [mbind option_bind].
    eexists _, _, m. split; [done|]. split; [done|]. split; [by eapply map_ok_other|]. split; [|done]. counted_tac Hop.
  - destruct (Hpres ltac:(auto)) as [w Hw].
    destruct (put_present_law ix m k 123456789 w Hrep Hv (payload_law 123456789 (conj eq_refl eq_refl)) Hw) as (ix' & b & v' & -> & Hrep' & _). cbn [mbind option_bind].
    eexists _, _, _. split; [done|]. split; [done|]. split; [eapply map_ok_update; [by eapply map_ok_other|done]|].
    split; [|done]. counted_tac Hop.
Qed.

Lemma run_inv_small s t w : workload_ok -> run_inv s -> workers s !! t = Some w -> small (param w).
Proof.
  intros Hwl [_ _ _ Hr Hi Hu Hs _ _ _] Hw. pose proof (wl_int Hwl).
  assert (0 <= operations_num c) by (rewrite <-(wl_length Hwl); apply zlen_nonneg).
  assert (Hb : forall exact f op, tally c exact f (op_weight op) s -> 0 <= f (param w) <= int_max).
  { intros exact f op Ht. pose proof (tally_bound c exact f _ s t w ltac:(done) Ht (op_weight_bounds op) Hw). lia. }
  constructor; by eapply Hb.
Qed.

(** A thread with work can always execute its next iteration, whatever the time
    stamps. *)
Lemma exec_enabled s t w ts : workload_ok -> run_inv s -> workers s !! t = Some w -> cur w < stop w ->
  exists ix p, run_step c interval s (Exec t ts) =
      Some (mkRunState ix (next s) (<[t := mkWorker p (cur w + 1) (stop w)]> (workers s))) /\
    counted (param w) p (cur w) /\ zlen (latency p) = zlen (latency (param w)) + sample_weight (cur w) /\
    forall todo, pending (operations_num c) s ≡ₚ cur w :: todo -> exists m, idx_rep ix m /\ map_ok m todo.
Proof.
  intros Hwl Hinv Hw Hlt. pose proof (run_inv_small s t w Hwl Hinv Hw) as Hsm.
  destruct Hinv as [Hch Hnd Hrg _ _ _ _ _ _ (m & Hrep & Hm)].
  destruct (exec_pending c s t w (index s) (param w) Hch Hw Hlt) as [_ Hp].
  assert (Hi : 0 <= cur w < operations_num c) by (apply Hrg; rewrite Hp; constructor).
  destruct (rd_in (ops c) (cur w)) as [[op k] Hop]; [by rewrite (wl_length Hwl)|].
  apply (map_ok_perm _ _ _ Hp) in Hm. rewrite Hp in Hnd.
  destruct (run_operation_ok (index s) (param w) m (cur w) _ op k Hwl Hrep Hm Hnd Hi Hop Hsm)
    as (ix' & p' & m' & E & Hrep' & Hm' & Hcd & Hlat).
  cbn [run_step]. rewrite Hw. cbn [mbind option_bind]. destruct (Z.ltb_spec (cur w) (stop w)); [|lia].
  unfold iteration. rewrite Hop. cbn [mbind option_bind]. rewrite E. cbn [mbind option_bind].
  eexists _, _. split; [done|].
  assert (Hperm : forall todo, pending (operations_num c) s ≡ₚ cur w :: todo -> exists m, idx_rep ix' m /\ map_ok m todo).
  { intros todo Ht. exists m'. split; [done|]. eapply map_ok_perm; [|done]. rewrite Hp in Ht. by eapply Permutation_cons_inv. }
  unfold sample_weight. destruct (_ && _).
  - split; [by destruct Hcd; constructor|]. split; [|done]. cbn [latency push_latency]. rewrite zlen_app, Hlat. done.
  - split; [done|]. split; [rewrite Hlat; lia|done].
Qed.

Lemma run_inv_step s l s' : workload_ok -> run_inv s -> run_step c interval s l = Some s' -> run_inv s'.
Proof.
  intros Hwl Hinv E. destruct l as [t|t ts].
  - destruct Hinv as [Hch Hnd Hrg Hr Hi Hu Hs He Hl (m & Hrep & Hm)].
    destruct (grab_pending c interval s t s' Hch E) as [Hch' Hp]. symmetry in Hp.
    constructor; try (by apply (tally_grab c interval _ _ _ s t s' Hch E)); try done.
    + by rewrite <-Hp.
    + intros i. rewrite <-Hp. apply Hrg.
    + exists m. split; [|by eapply map_ok_perm]. cbn [run_step] in E. inv_bind E.
      destruct (_ && _) in E; [|done]. by injection E as <-.
  - pose proof E as E'. cbn [run_step] in E'. inv_bind E'. destruct (Z.ltb_spec (cur x) (stop x)) as [Hlt|]; [|done]. clear E'.
    destruct (exec_enabled s t x ts Hwl Hinv E0 Hlt) as (ix & p & E1 & Hcd & Hlat & Hmap). rewrite E in E1. injection E1 as ->.
    destruct Hinv as [Hch Hnd Hrg Hr Hi Hu Hs He Hl _].
    destruct (exec_pending c s t x ix p Hch E0 Hlt) as [Hch' Hp]. destruct Hcd as [Cr Ci (du & Cu & Du) (ds & Cs & Ds) Ce].
    pose proof (op_weight_bounds READ (cur x)). pose proof (op_weight_bounds INSERT (cur x)). pose proof (sample_weight_bounds (cur x)).
    constructor; try done.
    + rewrite Hp in Hnd. by apply NoDup_cons in Hnd as [_ Hnd].
    + intros i Hin. apply Hrg. rewrite Hp. by constructor.
    + apply (tally_exec c _ _ _ s t x ix p ((op_weight READ (cur x))) Hch E0 Hlt); first [done | lia].
    + apply (tally_exec c _ _ _ s t x ix p ((op_weight INSERT (cur x))) Hch E0 Hlt); first [done | lia].
    + apply (tally_exec c _ _ _ s t x ix p (du) Hch E0 Hlt); first [done | lia].
    + apply (tally_exec c _ _ _ s t x ix p (ds) Hch E0 Hlt); first [done | lia].
    + apply (tally_exec c _ _ _ s t x ix p 0 Hch E0 Hlt); first [done | lia].
    + apply (tally_exec c _ _ _ s t x ix p ((sample_weight (cur x))) Hch E0 Hlt); first [done | lia].
    + apply Hmap. exact Hp.
Qed.

Lemma chunk_idle p i : chunk (mkWorker p i i) = [].
Proof. unfold chunk. cbn [cur stop]. apply seqZ_nil. lia. Qed.

Lemma pending_init ix threads : pending (operations_num c) (run_init (I:=I) ix threads) = seqZ 0 (operations_num c).
Proof.
  unfold pending, run_init. cbn [workers next]. rewrite Z.sub_0_r.
  replace (replicate _ _ ≫= chunk) with ([] : list Z); [done|].
  induction (Z.to_nat threads) as [|n IH]; [done|]. cbn [replicate]. by rewrite bind_cons, chunk_idle, <-IH.
Qed.

Lemma tally_init exact f wt ix threads : f new_param = 0 -> tally c exact f wt (run_init (I:=I) ix threads).
Proof.
  intros Hf. split.
  - intros t w [-> _]%lookup_replicate. cbn [param]. lia.
  - rewrite pending_init. cbn [run_init workers]. rewrite zsum_replicate. unfold compose. cbn [param]. rewrite Hf.
    cbv zeta. split; [lia|]. lia.
Qed.

Lemma run_inv_init ix threads : workload_ok -> idx_rep ix m0 -> run_inv (run_init ix threads).
Proof.
  intros Hwl Hrep. assert (0 <= operations_num c) by (rewrite <-(wl_length Hwl); apply zlen_nonneg).
  constructor; rewrite ?pending_init; try (by apply tally_init).
  - split; [done|]. intros t w [-> _]%lookup_replicate. done.
  - apply NoDup_seqZ.
  - intros i. rewrite elem_of_seqZ. lia.
  - exists m0. split; [done|]. split; [|done]. intros k. split; [by left|].
    intros [?|(i & Hi & Hni & _)]; [done|]. destruct Hni. apply elem_of_seqZ. lia.
Qed.

Lemma run_inv_steps s ls s' : workload_ok -> run_inv s -> run_steps c interval s ls = Some s' -> run_inv s'.
Proof.
  intros Hwl. revert s. induction ls as [|l ls IH]; intros s Hinv E; cbn [run_steps] in E; [by simplify_eq|].
  inv_bind E. eapply IH; [|done]. by eapply run_inv_step.
Qed.

(** ** Schedules *)

(** Steps left at most: every pending iteration runs once, and every chunk that is
    handed out holds at least one iteration. *)
Definition steps_left s : Z := zlen (pending (operations_num c) s) + (operations_num c - next s).

Lemma steps_left_step s l s' : workload_ok -> run_inv s -> run_step c interval s l = Some s' ->
  steps_left s' < steps_left s.
Proof.
  intros Hwl Hinv E. pose proof (ri_chunks _ Hinv) as Hch. unfold steps_left. destruct l as [t|t ts].
  - destruct (grab_pending c interval s t s' Hch E) as [Hch' Hp]. unfold zlen. rewrite (Permutation_length Hp).
    cbn [run_step] in E. inv_bind E. destruct (_ && _) eqn:Eb in E; [|done]. btest. injection E as <-. cbn [next].
    unfold chunk_size. lia.
  - cbn [run_step] in E. inv_bind E. destruct (Z.ltb_spec (cur x) (stop x)) as [Hlt|]; [|done]. inv_bind E.
    destruct x0 as [ix p]. injection E as <-. destruct (exec_pending c s t x ix p Hch E0 Hlt) as [_ Hp].
    unfold zlen. rewrite (Permutation_length Hp). cbn [next length]. lia.
Qed.

Lemma steps_left_nonneg s : run_inv s -> 0 <= steps_left s.
Proof. intros [[Hn _] _ _ _ _ _ _ _ _ _]. unfold steps_left. pose proof (zlen_nonneg (pending (operations_num c) s)). lia. Qed.

Lemma steps_left_steps s ls s' : workload_ok -> run_inv s -> run_steps c interval s ls = Some s' ->
  zlen ls <= steps_left s - steps_left s'.
Proof.
  intros Hwl. revert s. induction ls as [|l ls IH]; intros s Hinv E; cbn [run_steps] in E; [simplify_eq; unfold zlen; simpl; lia|].
  inv_bind E. pose proof (steps_left_step _ _ _ Hwl Hinv E0). pose proof (run_inv_step _ _ _ Hwl Hinv E0) as Hinv'.
  specialize (IH _ Hinv' E). unfold zlen in *. simpl. lia.
Qed.

(** A run that is not over can go on. *)
Lemma run_progress s : workload_ok -> run_inv s -> workers s <> [] -> run_done c s = false ->
  exists l, is_Some (run_step c interval s l).
Proof.
  intros Hwl Hinv Hne Hd. pose proof (ri_chunks _ Hinv) as [Hn Hch].
  destruct (decide (Exists (fun w => cur w < stop w) (workers s))) as [(w & [t Hw]%list_elem_of_lookup & Hlt)%Exists_exists|Hno].
  - destruct (exec_enabled s t w (0, 0) Hwl Hinv Hw Hlt) as (ix & p & E & _). exists (Exec t (0, 0)). by rewrite E.
  - assert (Hidle : forall t w, workers s !! t = Some w -> cur w = stop w).
    { intros t w Hw. specialize (Hch _ _ Hw). destruct (Z.eq_dec (cur w) (stop w)); [done|]. destruct Hno.
      apply Exists_exists. exists w. split; [by eapply list_elem_of_lookup_2|lia]. }
    assert (Hall : forallb (fun w => cur w =? stop w) (workers s) = true).
    { apply forallb_forall. intros w [t Hw]%list_elem_of_In%list_elem_of_lookup. by rewrite (Hidle _ _ Hw), Z.eqb_refl. }
    unfold run_done in Hd. rewrite Hall, andb_true_r in Hd. btest.
    destruct (workers s) as [|w ws] eqn:Ew; [done|]. exists (Grab 0). cbn [run_step]. rewrite Ew. simpl.
    rewrite (Hidle 0%nat w eq_refl), Z.eqb_refl. cbn [andb]. destruct (Z.ltb_spec (next s) (operations_num c)); [by eexists|lia].
Qed.

Lemma workers_steps s ls s' : run_steps c interval s ls = Some s' -> length (workers s') = length (workers s).
Proof.
  revert s. induction ls as [|l ls IH]; intros s E; cbn [run_steps] in E; [by simplify_eq|]. inv_bind E.
  rewrite (IH _ E). destruct l; cbn [run_step] in E0; inv_bind E0; (destruct (_ && _) in E0 || destruct (_ <? _) in E0); try done.
  - injection E0 as <-. cbn [workers]. apply length_insert.
  - inv_bind E0. destruct x1. injection E0 as <-. cbn [workers]. apply length_insert.
Qed.

(** The counters of the threads when nothing is pending. *)
Lemma done_pending s : run_inv s -> run_done c s = true -> pending (operations_num c) s = [].
Proof.
  intros Hinv [Hnext%Z.eqb_eq Hall]%andb_prop. unfold pending. rewrite Hnext, Z.sub_diag, (seqZ_nil _ 0), app_nil_r by lia.
  clear Hinv Hnext. induction (workers s) as [|w ws IH]; [done|]. apply andb_prop in Hall as [Hw%Z.eqb_eq Hall]. rewrite bind_cons, IH by done.
  unfold chunk. rewrite Hw, Z.sub_diag. apply app_nil_r.
Qed.
End Runs.

(** ** Gathering *)

Section Gather.
Context (c : RunConfig) (to_ns : Z -> option Z).
Implicit Types (ps : list ThreadParam) (st : Stat).

(** The sums of the thread counters. *)
Definition sums st ps : Stat :=
  mkStat (stat_latency st) (throughput st)
    (stat_insert st + zsum success_insert ps) (stat_read st + zsum success_read ps)
    (stat_update st + zsum success_update ps) (stat_erase st + zsum success_erase ps)
    (stat_not_enough st + zsum scan_not_enough ps).

(** All fields of a [Stat] satisfy [P]. *)
Definition stat_all (P : Z -> Prop) st : Prop :=
  P (stat_insert st) /\ P (stat_read st) /\ P (stat_update st) /\ P (stat_erase st) /\ P (stat_not_enough st).

Definition param_nonneg (p : ThreadParam) : Prop :=
  0 <= success_insert p /\ 0 <= success_read p /\ 0 <= success_update p /\ 0 <= success_erase p /\ 0 <= scan_not_enough p.

Lemma mapM_total {A B} (f : A -> option B) l : (forall x, is_Some (f x)) -> exists l', mapM f l = Some l' /\ length l' = length l.
Proof.
  intros Hf. induction l as [|x l (l' & E & Hl)]; [by exists []|]. destruct (Hf x) as [y Hy].
  exists (y :: l'). simpl. rewrite Hy. simpl. rewrite E. simpl. auto.
Qed.

Lemma zsum_nonneg_params f ps : (forall p, p ∈ ps -> 0 <= f p) -> 0 <= zsum f ps.
Proof.
  induction ps as [|p ps IH]; intros Hf; simpl; [lia|]. pose proof (Hf p ltac:(constructor)).
  assert (0 <= zsum f ps); [|lia]. apply IH. intros q Hq. apply Hf. by constructor.
Qed.

(** When the totals fit in 64 bits, gathering computes them. *)
Lemma gather_spec st ps :
  (forall t, is_Some (to_ns t)) -> Forall param_nonneg ps ->
  stat_all (fun x => 0 <= x) st -> stat_all (fun x => x < 2 ^ 64) (sums st ps) ->
  exists st', gather c to_ns st ps = Some st' /\
    sums st ps = mkStat (stat_latency st) (throughput st) (stat_insert st') (stat_read st') (stat_update st')
      (stat_erase st') (stat_not_enough st') /\
    zlen (stat_latency st') =
      zlen (stat_latency st) + if latency_sample c then zsum (fun p => zlen (latency p)) ps else 0.
Proof.
  intros Hns. revert st. induction ps as [|p ps IH]; intros st Hp Hnn Hlt.
  { exists st. split; [done|]. unfold sums. simpl. rewrite !Z.add_0_r. destruct st. split; [done|]. destruct (latency_sample c); lia. }
  apply Forall_cons in Hp as [Hp Hps]. cbn [gather]. unfold gather_one.
  destruct (mapM_total (fun e : Z * Z => a ← to_ns e.1; b ← to_ns e.2; Some (wrap_i64 (b - a))) (latency p)) as (l & El & Hl).
  { intros e. destruct (Hns e.1) as [a ->], (Hns e.2) as [b ->]. by eexists. }
  assert (Hnneg : forall f, (forall p, param_nonneg p -> 0 <= f p) -> 0 <= zsum f ps).
  { intros f Hf. apply zsum_nonneg_params. intros q Hq. rewrite List.Forall_forall in Hps. apply Hf, Hps. by apply list_elem_of_In. }
  pose proof (Hnneg success_insert ltac:(unfold param_nonneg; tauto)). pose proof (Hnneg success_read ltac:(unfold param_nonneg; tauto)).
  pose proof (Hnneg success_update ltac:(unfold param_nonneg; tauto)). pose proof (Hnneg success_erase ltac:(unfold param_nonneg; tauto)).
  pose proof (Hnneg scan_not_enough ltac:(unfold param_nonneg; tauto)).
  unfold stat_all, sums, param_nonneg in *. cbn [zsum stat_insert stat_read stat_update stat_erase stat_not_enough] in *.
  set (lat := if latency_sample c then l else []).
  replace (if latency_sample c then _ else Some []) with (Some lat) by (unfold lat; destruct (latency_sample c); done).
  cbn [mbind option_bind]. unfold wrap64. rewrite !Z.mod_small by lia.
  destruct (IH (mkStat (stat_latency st ++ lat) (throughput st) (stat_insert st + success_insert p) (stat_read st + success_read p)
    (stat_update st + success_update p) (stat_erase st + success_erase p) (stat_not_enough st + scan_not_enough p)))
    as (st' & E & Hs & Hlat); cbn [stat_insert stat_read stat_update stat_erase stat_not_enough]; try lia; try done.
  exists st'. split; [done|]. cbn [stat_latency throughput stat_insert stat_read stat_update stat_erase stat_not_enough] in Hs, Hlat.
  split; [injection Hs; intros; f_equal; lia|].
  rewrite Hlat, zlen_app. unfold lat, zlen. destruct (latency_sample c); simpl; lia.
Qed.
End Gather.

(** ** The results of a run *)

Section Results.
Context {I : Type} `{LawfulIndex I}.
Context (c : RunConfig) (interval : Z) (m0 : gmap Z Z) (ix : I) (threads : Z).

Lemma tally_done exact f wt s : @run_inv I _ _ c interval m0 s -> run_done c s = true -> tally c exact f wt s ->
  Forall (fun p => 0 <= f p) (param <$> workers s) /\
  zsum f (param <$> workers s) <= zsum wt (seqZ 0 (operations_num c)) /\
  (exact = true -> zsum f (param <$> workers s) = zsum wt (seqZ 0 (operations_num c))).
Proof.
  intros Hinv Hd [Hnn Hs]. rewrite (done_pending c interval m0 s Hinv Hd) in Hs. cbn [zsum] in Hs. cbv zeta in Hs.
  replace (zsum f (param <$> workers s)) with (zsum (f ∘ param) (workers s))
    by (clear; induction (workers s) as [|w ws IH]; [done|]; simpl; by rewrite IH).
  split; [|rewrite !Z.add_0_r in Hs; done].
  apply Forall_fmap, Forall_lookup. intros t w Hw. by eapply Hnn.
Qed.

Lemma op_count_bounds op : workload_ok (I:=I) c m0 -> 0 <= op_count c op <= operations_num c.
Proof.
  intros Hwl. apply zsum_seqZ_le; [|apply op_weight_bounds]. rewrite <-(wl_length _ _ Hwl). apply zlen_nonneg.
Qed.

(** The sums of the thread counters when the loop is over. *)
Lemma final_sums s : @run_inv I _ _ c interval m0 s -> run_done c s = true ->
  let ps := param <$> workers s in
  Forall param_nonneg ps /\
  zsum success_read ps = op_count c READ /\ zsum success_insert ps = op_count c INSERT /\
  0 <= zsum success_update ps <= op_count c UPDATE /\ 0 <= zsum scan_not_enough ps <= op_count c SCAN /\
  zsum success_erase ps = 0 /\
  zsum (fun p => zlen (latency p)) ps = zsum (sample_weight c interval) (seqZ 0 (operations_num c)).
Proof.
  intros Hinv Hd ps.
  destruct (tally_done _ _ _ _ Hinv Hd (ri_read _ _ _ _ Hinv)) as (Nr & _ & Er).
  destruct (tally_done _ _ _ _ Hinv Hd (ri_insert _ _ _ _ Hinv)) as (Ni & _ & Ei).
  destruct (tally_done _ _ _ _ Hinv Hd (ri_update _ _ _ _ Hinv)) as (Nu & Lu & _).
  destruct (tally_done _ _ _ _ Hinv Hd (ri_scan _ _ _ _ Hinv)) as (Ns & Ls & _).
  destruct (tally_done _ _ _ _ Hinv Hd (ri_erase _ _ _ _ Hinv)) as (Ne & _ & Ee).
  destruct (tally_done _ _ _ _ Hinv Hd (ri_latency _ _ _ _ Hinv)) as (_ & _ & El).
  rewrite (zsum_zero (fun _ => 0)) in Ee by done.
  assert (Hpos : forall f, Forall (fun p => 0 <= f p) ps -> 0 <= zsum f ps).
  { intros f Hf. apply zsum_nonneg_params. intros p Hp. rewrite List.Forall_forall in Hf. apply Hf. by apply list_elem_of_In. }
  pose proof (Hpos _ Nu). pose proof (Hpos _ Ns). unfold op_count.
  repeat split; try lia; try (by auto). rewrite List.Forall_forall in *. intros p Hp. unfold param_nonneg. auto 10.
Qed.

(** C17: no schedule of the parallel loop gets stuck or runs forever: after any
    sequence of steps of any threads, either the loop is over or some thread can
    take a step, and a sequence has at most twice as many steps as there are
    operations. *)
Theorem run_schedules_end ls s :
  workload_ok c m0 -> idx_rep ix m0 -> 0 < threads ->
  run_steps c interval (run_init ix threads) ls = Some s ->
  zlen ls <= 2 * operations_num c /\ (run_done c s = true \/ exists l, is_Some (run_step c interval s l)).
Proof.
  intros Hwl Hrep Ht E. pose proof (run_inv_init c interval m0 ix threads Hwl Hrep) as Hinit.
  pose proof (run_inv_steps c interval m0 _ _ _ Hwl Hinit E) as Hinv.
  pose proof (steps_left_steps c interval m0 _ _ _ Hwl Hinit E) as Hlen.
  pose proof (steps_left_nonneg c interval m0 s Hinv). unfold steps_left at 1 in Hlen. rewrite pending_init in Hlen.
  assert (zlen (seqZ 0 (operations_num c)) = operations_num c).
  { unfold zlen. rewrite length_seqZ. rewrite Z2Nat.id; [done|]. rewrite <-(wl_length _ _ Hwl). apply zlen_nonneg. }
  cbn [run_init next] in Hlen. split; [lia|]. destruct (run_done c s) eqn:Ed; [by left|right].
  eapply run_progress; try done. intros Hw. pose proof (workers_steps c interval _ _ _ E) as Hl. rewrite Hw in Hl.
  unfold run_init in Hl. cbn [workers length] in Hl. rewrite length_replicate in Hl. lia.
Qed.

(** The results when the loop is over. *)
Lemma run_results_spec ls s to_ns :
  workload_ok c m0 -> idx_rep ix m0 -> (forall t, is_Some (to_ns t)) ->
  run_steps c interval (run_init ix threads) ls = Some s -> run_done c s = true ->
  exists st m, gather c to_ns clear_stat (param <$> workers s) = Some st /\
    stat_read st = op_count c READ /\ stat_insert st = op_count c INSERT /\
    0 <= stat_update st <= op_count c UPDATE /\ 0 <= stat_not_enough st <= op_count c SCAN /\ stat_erase st = 0 /\
    zlen (stat_latency st) = zsum (sample_weight c interval) (seqZ 0 (operations_num c)) /\
    idx_rep (index s) m /\
    forall k, is_Some (m !! k) <-> is_Some (m0 !! k) \/ (INSERT, k) ∈ ops c.
Proof.
  intros Hwl Hrep Hns E Hd. pose proof (run_inv_init c interval m0 ix threads Hwl Hrep) as Hinit.
  pose proof (run_inv_steps c interval m0 _ _ _ Hwl Hinit E) as Hinv.
  destruct (final_sums s Hinv Hd) as (Hnn & Er & Ei & Lu & Ls & Ee & El). set (ps := param <$> workers s) in *.
  pose proof (wl_int _ _ Hwl). unfold int_max in *. pose proof op_count_bounds as Hcnt.
  pose proof (Hcnt READ Hwl). pose proof (Hcnt INSERT Hwl). pose proof (Hcnt UPDATE Hwl). pose proof (Hcnt SCAN Hwl).
  destruct (gather_spec c to_ns clear_stat ps Hns Hnn) as (st & Eg & Hs & Hlat).
  { unfold stat_all, clear_stat. simpl. lia. }
  { unfold stat_all, sums, clear_stat. cbn [stat_insert stat_read stat_update stat_erase stat_not_enough]. lia. }
  destruct (ri_map _ _ _ _ Hinv) as (m & Hrm & Hdom & _). rewrite (done_pending c interval m0 s Hinv Hd) in Hdom.
  unfold sums, clear_stat in Hs. cbn [stat_insert stat_read stat_update stat_erase stat_not_enough stat_latency throughput] in Hs.
  injection Hs as Hsi Hsr Hsu Hse Hsn. exists st, m. split; [done|]. repeat split; try lia; try done.
  - rewrite Hlat. destruct (latency_sample c) eqn:Els; [rewrite El; done|]. unfold sample_weight. rewrite Els.
    rewrite zsum_zero by done. done.
  - intros Hk. apply Hdom in Hk as [?|(i & _ & _ & Hi)]; [by left|right]. apply rd_elem. by exists i.
  - intros Hk. apply Hdom. destruct Hk as [?|(i & Hi)%rd_elem]; [by left|right]. exists i.
    apply rd_Some in Hi as Hr. rewrite (wl_length _ _ Hwl) in Hr. split; [done|]. split; [apply not_elem_of_nil|done].
Qed.

End Results.

(** *** A run of two threads *)

Module Demo.
Import KeepIndex.

Definition config : RunConfig :=
  mkRunConfig [(READ, 5); (INSERT, 4); (UPDATE, 3); (SCAN, 3); (INSERT, 7)] 5 2 true (f64_lit 1 2).

Definition loaded : gmap Z Z := list_to_map [(3, 123456789); (5, 123456789)].

Definition schedule : list Label :=
  [Grab 1; Exec 1 (10, 20); Exec 1 (20, 25); Exec 1 (25, 40); Exec 1 (40, 41); Exec 1 (50, 60)].

Definition final : RunState (gmap Z Z) :=
  default (run_init loaded 2) (run_steps config 2 (run_init loaded 2) schedule).

Example interval_ex : latency_sample_interval config = Some 2.
Proof. vm_compute. reflexivity. Qed.

(** The update of an existing key is not counted: this index keeps it. *)
Example run_ex :
  gather config Some clear_stat (param <$> workers final) = Some (mkStat [10; 15; 10] 0 2 1 0 0 0).
Proof. vm_compute. reflexivity. Qed.

Lemma rd_cases {A} (l : list A) i v (P : Z -> A -> Prop) :
  Forall (fun iv => P iv.1 iv.2) (zip (seqZ 0 (zlen l)) l) -> rd l i = Some v -> P i v.
Proof.
  intros Hall Hi. rewrite List.Forall_forall in Hall. apply (Hall (i, v)). apply list_elem_of_In, list_elem_of_lookup.
  apply rd_Some in Hi as Hr. unfold rd in Hi. destruct (0 <=? i); [|done]. exists (Z.to_nat i).
  apply lookup_zip_with_Some. exists i, v. split; [done|]. split; [|done]. apply lookup_seqZ. lia.
Qed.

Lemma workload : workload_ok (I:=gmap Z Z) config loaded.
Proof.
  constructor; try done.
  - intros i op k Hi Ho.
    refine (rd_cases (ops config) i (op, k) (fun _ v => v.1 = READ \/ v.1 = UPDATE -> is_Some (loaded !! v.2)) _ Hi Ho).
    repeat constructor; intros [Hx|Hx]; try discriminate Hx; by vm_compute; eexists.
  - intros i k Hi. refine (rd_cases (ops config) i (INSERT, k) (fun _ v => v.1 = INSERT -> loaded !! v.2 = None) _ Hi eq_refl).
    repeat constructor; done.
  - intros i j k Hi Hj.
    assert (Hi' : i = if decide (k = 4) then 1 else 4).
    { refine (rd_cases (ops config) i (INSERT, k) (fun i v => v.1 = INSERT -> i = if decide (v.2 = 4) then 1 else 4) _ Hi eq_refl).
      repeat constructor; done. }
    assert (Hj' : j = if decide (k = 4) then 1 else 4); [|congruence].
    refine (rd_cases (ops config) j (INSERT, k) (fun i v => v.1 = INSERT -> i = if decide (v.2 = 4) then 1 else 4) _ Hj eq_refl).
    repeat constructor; done.
Qed.

Lemma run_schedules_end_witness :
  zlen schedule <= 2 * 5 /\ (run_done config final = true \/ exists l, is_Some (run_step config 2 final l)).
Proof.
  apply (run_schedules_end config 2 loaded loaded 2 schedule final workload eq_refl); [lia|].
  vm_compute. reflexivity.
Defined.


End Demo.
