(* ===== verification/Benchmark.v ===== *)
(** * Benchmark driver: one benchmark run (benchmark/benchmark.h)

    [run] is [Benchmark::run]: the warm-up of the workload-shift test, the parallel
    loop of [Run.v], gathering the results, and the sorting of the key array for
    the data-set statistics.  [run_on] is the body of the loops of [run_benchmark]:
    bulk loading a fresh index and running on it.

    The main theorem is end to end: for every lawful index, every file of keys it can
    hold and all schedules of the threads, a run on the operations generated from the
    file counts, when it ends, every read and every insertion as successful.  It holds for the key
    array as [generate_operations] leaves it; [second_run_warm_up] shows what
    happens in a second run after the data-set statistics have sorted the array. *)

From S2P Require Import Prelude Words Floats Utils Workload Load Index Run.
From Stdlib Require Import SpecFloat.
From stdpp Require Import gmap sorting.
Local Open Scope Z_scope.
Local Open Scope cxx_scope.

(** ** The warm-up of the workload-shift test *)

Record WarmState (I : Type) := mkWarmState {
  warm_index : I;
  todo : list Z
}.
Arguments mkWarmState {I} warm_index todo.
Arguments warm_index {I}.
Arguments todo {I}.

(** The next draw of the iteration with the given [insert_counter]. *)
Inductive WarmLabel := Warm (insert_counter : Z) (random_num : f64).

(** [init_keys[static_cast<size_t>(insert_counter / random_num) % init_table_size]]. *)
Definition warm_read_key (init_keys : list Z) (init_table_size insert_counter : Z) (random_num : f64) : option Z :=
  q ← f64_trunc (f64_div (f64_of_Z insert_counter) random_num);
  if (0 <=? q) && (q <? 2 ^ 64) && negb (init_table_size =? 0) then
    init_keys.[q mod init_table_size]
  else None.

Section WarmUp.
Context {I : Type} `{Index I}.
Context (write_ratio_begin : f64) (keys init_keys : list Z) (init_table_size : Z).

(** One round of the [while (true)] loop of one of the iterations that are not
    finished. *)
Definition warm_step (s : WarmState I) (l : WarmLabel) : option (WarmState I) :=
  let '(Warm insert_counter random_num) := l in
  if decide (insert_counter ∈ todo s) then
    if SFltb write_ratio_begin random_num then
      key ← warm_read_key init_keys init_table_size insert_counter random_num;
      '(ix, _) ← idx_get (warm_index s) key;
      Some (mkWarmState ix (todo s))
    else
      key ← keys.[insert_counter];
      '(ix, _) ← idx_put (warm_index s) key insert_counter;
      Some (mkWarmState ix (filter (fun i => i ≠ insert_counter) (todo s)))
  else None.

Fixpoint warm_steps (s : WarmState I) (ls : list WarmLabel) : option (WarmState I) :=
  match ls with
  | [] => Some s
  | l :: ls => s ← warm_step s l; warm_steps s ls
  end.

(** The keys [init_table_size .. insert_end - 1] of the array are inserted. *)
Definition insert_end (table_size : Z) : Z := init_table_size + Z.quot (table_size - init_table_size) 2.

Definition warm_up (workload_shift_test : bool) (table_size : Z) (ix : I) (ls : list WarmLabel) : option I :=
  if workload_shift_test then
    s ← warm_steps (mkWarmState ix (seqZ init_table_size (insert_end table_size - init_table_size))) ls;
    if decide (todo s = []) then Some (warm_index s) else None
  else Some ix.

End WarmUp.

(** ** One run *)

(** The members of [Benchmark] that [run] uses. *)
Record Bench := mkBench {
  ratios : Ratios;
  write_ratio_begin : f64;
  bench_keys : list Z;
  bench_table_size : Z;
  bench_init_keys : list Z;
  bench_init_table_size : Z;
  run_config : RunConfig;
  dataset_statistic : bool
}.

(** What the environment contributes to a run: the schedules, the clock and the
    elapsed time. *)
Record Environment := mkEnvironment {
  warm_labels : list WarmLabel;
  labels : list Label;
  to_ns : Z -> option Z;
  elapsed : Z
}.

(** The key array after the data-set statistics. *)
Definition statistic_keys (b : Bench) : list Z :=
  if dataset_statistic b then
    (unique_range (sort_range (bench_keys b) 0 (bench_table_size b)) 0 (bench_table_size b)).1
  else bench_keys b.

Section RunOn.
Context {I : Type} `{Index I}.

(** Returns the index, the statistics and the key array. *)
Definition run (b : Bench) (threads : Z) (e : Environment) (ix : I) : option (I * Stat * list Z) :=
  let c := run_config b in
  ix ← warm_up (write_ratio_begin b) (bench_keys b) (bench_init_keys b) (bench_init_table_size b)
         (workload_shift_test (ratios b)) (bench_table_size b) ix (warm_labels e);
  interval ← latency_sample_interval c;
  s ← run_steps c interval (run_init ix threads) (labels e);
  if run_done c s then
    st ← gather c (to_ns e) clear_stat (param <$> workers s);
    st ← set_throughput c (elapsed e) st;
    Some (index s, st, statistic_keys b)
  else None.

(** [prepare] and [run]: a fresh index is bulk loaded with the initial keys. *)
Definition run_on (b : Bench) (threads : Z) (e : Environment) : option (I * Stat * list Z) :=
  ix ← idx_bulk_load ((fun k => (k, init_payload)) <$> bench_init_keys b);
  run b threads e ix.

(** The loops of [run_benchmark]: the key array is shared by the runs. *)
Fixpoint run_all (b : Bench) (runs : list (Z * Environment)) : option (list Stat) :=
  match runs with
  | [] => Some []
  | (threads, e) :: runs =>
      '(_, st, keys) ← run_on b threads e;
      sts ← run_all (mkBench (ratios b) (write_ratio_begin b) keys (bench_table_size b) (bench_init_keys b)
                       (bench_init_table_size b) (run_config b) (dataset_statistic b)) runs;
      Some (st :: sts)
  end.

End RunOn.

(** ** Maps with a known set of keys *)

Lemma size_of_keys (m : gmap Z Z) (l : list Z) :
  NoDup l -> (forall k, is_Some (m !! k) <-> k ∈ l) -> size m = length l.
Proof.
  intros Hnd Hk. rewrite <-size_dom. rewrite <-(size_list_to_set (C:=gset Z) l Hnd). f_equal. apply set_eq.
  intros k. by rewrite elem_of_dom, Hk, elem_of_list_to_set.
Qed.

(** ** The warm-up inserts its keys *)

Section WarmUpCorrect.
Context {I : Type} `{LawfulIndex I}.
Context (write_ratio_begin : f64) (keys init_keys : list Z) (init_table_size : Z) (m0 : gmap Z Z).
Context (start : Z).

(** The keys of the array from [init_table_size] to [start] are new and distinct. *)
Context (Hstart : 0 <= init_table_size <= start) (Hlen : start <= zlen keys).
Context (Hnodup : NoDup (range keys init_table_size (start - init_table_size))).
Context (Hfresh : forall k, k ∈ range keys init_table_size (start - init_table_size) -> m0 !! k = None).
Context (Hvalid : Forall idx_valid (range keys init_table_size (start - init_table_size))).
Context (Hinit : forall x, x ∈ init_keys -> idx_valid x /\ is_Some (m0 !! x)).
Context (Hlimit : Z.of_nat (size m0) + (start - init_table_size) <= idx_limit) (Hword : start <= idx_limit (I:=I)).

(** The payload of the warm-up is the position of the key. *)
Context (Hzero : init_table_size = 0 -> idx_payload (I:=I) 0).

(** The keys of the index are the loaded ones and those of the finished iterations. *)
Definition warm_ok (s : WarmState I) (m : gmap Z Z) : Prop :=
  idx_rep (warm_index s) m /\ NoDup (todo s) /\
  (forall i, i ∈ todo s -> init_table_size <= i < start) /\
  (forall k, is_Some (m !! k) <-> is_Some (m0 !! k) \/
     exists i, init_table_size <= i < start /\ (i ∉ todo s) /\ rd keys i = Some k) /\
  Z.of_nat (size m) = Z.of_nat (size m0) + (start - init_table_size) - zlen (todo s).

Lemma warm_key i : init_table_size <= i < start -> exists k, rd keys i = Some k /\
  k ∈ range keys init_table_size (start - init_table_size).
Proof.
  intros Hi. destruct (rd_in keys i) as [k Hk]; [lia|]. exists k. split; [done|]. apply rd_elem. exists (i - init_table_size).
  rewrite rd_range by lia. by replace (init_table_size + (i - init_table_size)) with i by lia.
Qed.

Lemma warm_key_inj i j k : init_table_size <= i < start -> init_table_size <= j < start ->
  rd keys i = Some k -> rd keys j = Some k -> i = j.
Proof.
  intros Hi Hj Ei Ej. rewrite NoDup_alt in Hnodup.
  assert (Hl : forall i, init_table_size <= i < start -> rd keys i = Some k ->
    range keys init_table_size (start - init_table_size) !! Z.to_nat (i - init_table_size) = Some k).
  { intros i' Hi' E'. replace (Some k) with (rd (range keys init_table_size (start - init_table_size)) (i' - init_table_size)).
    - unfold rd. by destruct (Z.leb_spec 0 (i' - init_table_size)); [|lia].
    - rewrite rd_range by lia. by replace (init_table_size + (i' - init_table_size)) with i' by lia. }
  pose proof (Hnodup _ _ _ (Hl _ Hi Ei) (Hl _ Hj Ej)). lia.
Qed.

Lemma filter_out_length (i : Z) (l : list Z) : NoDup l -> i ∈ l -> zlen (filter (fun j => j ≠ i) l) = zlen l - 1.
Proof.
  intros Hnd Hi. assert (Hp : l ≡ₚ i :: filter (fun j => j ≠ i) l).
  { apply NoDup_Permutation; [done| |].
    - apply NoDup_cons. split; [rewrite list_elem_of_filter; tauto|by apply NoDup_filter].
    - intros j. rewrite elem_of_cons, list_elem_of_filter. split; [intros; destruct (decide (j = i)); auto|].
      intros [->|[_ ?]]; done. }
  apply Permutation_length in Hp. unfold zlen. simpl in Hp. lia.
Qed.

Lemma warm_put s m i k : warm_ok s m -> i ∈ todo s -> rd keys i = Some k ->
  exists ix, idx_put (warm_index s) k i = Some (ix, true) /\
    warm_ok (mkWarmState ix (filter (fun j => j ≠ i) (todo s))) (<[k := i]> m).
Proof.
  intros (Hrep & Hnd & Hrange & Hdom & Hsz) Hi Hk. pose proof (Hrange i Hi) as Hri.
  destruct (warm_key i Hri) as (k' & Ek & Hin). assert (k' = k) as -> by congruence.
  assert (Hnone : m !! k = None).
  { apply eq_None_not_Some. intros Hs. apply Hdom in Hs as [Hs|(j & Hj & Hnj & Ej)].
    - rewrite (Hfresh k Hin) in Hs. by destruct Hs.
    - by rewrite (warm_key_inj j i k Hj Hri Ej Hk) in Hnj. }
  rewrite List.Forall_forall in Hvalid. pose proof (Hvalid k (proj1 (list_elem_of_In _ _) Hin)) as Hv.
  pose proof (filter_out_length i (todo s) Hnd Hi) as Hlf. pose proof (zlen_nonneg (filter (fun j => j ≠ i) (todo s))).
  pose proof (limit_law (I:=I)). assert (Hp : idx_payload (I:=I) i) by (destruct (decide (i = 0)) as [->|]; [apply Hzero; lia|apply payload_law; lia]).
  destruct (put_fresh_law (warm_index s) m k i Hrep Hv Hp Hnone ltac:(lia)) as (ix & E & Hrep').
  exists ix. split; [done|]. split; [done|]. cbn [todo]. split; [by apply NoDup_filter|]. split; [|split].
  - intros j [_ Hj]%list_elem_of_filter. by apply Hrange.
  - intros k'. rewrite lookup_insert_is_Some', Hdom. split.
    + intros [<-|[?|(j & Hj & Hnj & Ej)]]; [right|by left|right].
      * exists i. split; [done|]. split; [rewrite list_elem_of_filter; tauto|done].
      * exists j. split; [done|]. split; [rewrite list_elem_of_filter; tauto|done].
    + intros [?|(j & Hj & Hnj & Ej)]; [tauto|]. destruct (decide (j = i)) as [->|Hne]; [left; congruence|].
      right. right. exists j. rewrite list_elem_of_filter in Hnj. tauto.
  - rewrite map_size_insert_None by done. lia.
Qed.

Lemma warm_step_ok s m l s' : warm_ok s m ->
  warm_step write_ratio_begin keys init_keys init_table_size s l = Some s' -> exists m', warm_ok s' m'.
Proof.
  intros Hok E. destruct l as [i u]. unfold warm_step in E. destruct (decide _) as [Hi|]; [|done]. destruct (SFltb _ _).
  - inv_bind E. inv_bind E. destruct x0 as [ix val]. injection E as <-.
    assert (Hx : idx_valid x /\ is_Some (m0 !! x)).
    { unfold warm_read_key in E0. inv_bind E0. destruct (_ && _) in E0; [|done]. apply Hinit, rd_elem. by eexists. }
    destruct Hx as [Hx Hpres]. destruct Hok as (Hrep & Hnd & Hrange & Hdom & Hsz).
    destruct (proj2 (Hdom x) (or_introl Hpres)) as [w Hw].
    destruct (get_law _ _ x w Hrep Hx Hw) as (ix' & E2 & Hrep'). rewrite E1 in E2.
    injection E2 as -> ->. exists m. by split.
  - inv_bind E. destruct (warm_put s m i x Hok Hi E0) as (ix & E2 & Hok'). rewrite E2 in E. cbn [mbind option_bind] in E.
    injection E as <-. by eexists.
Qed.

Lemma warm_steps_ok ls : forall s m s', warm_ok s m ->
  warm_steps write_ratio_begin keys init_keys init_table_size s ls = Some s' -> exists m', warm_ok s' m'.
Proof.
  induction ls as [|l ls IH]; intros s m s' Hok E; cbn [warm_steps] in E; [simplify_eq; by exists m|].
  inv_bind E. destruct (warm_step_ok s m l x Hok E0) as (m1 & Hok1). by eapply IH.
Qed.

(** When the warm-up is over, exactly its keys have been added. *)
Lemma warm_done ix ls s : idx_rep ix m0 ->
  warm_steps write_ratio_begin keys init_keys init_table_size
    (mkWarmState ix (seqZ init_table_size (start - init_table_size))) ls = Some s -> todo s = [] ->
  exists m, idx_rep (warm_index s) m /\
    forall k, is_Some (m !! k) <-> is_Some (m0 !! k) \/ k ∈ range keys init_table_size (start - init_table_size).
Proof.
  intros Hrep E Hd. assert (Hok : warm_ok (mkWarmState ix (seqZ init_table_size (start - init_table_size))) m0).
  { split; [done|]. cbn [todo]. split; [apply NoDup_seqZ|]. split; [intros i; rewrite elem_of_seqZ; lia|]. split.
    - intros k. split; [by left|]. intros [?|(i & Hi & Hni & _)]; [done|]. destruct Hni. apply elem_of_seqZ. lia.
    - unfold zlen. rewrite length_seqZ. lia. }
  destruct (warm_steps_ok ls _ m0 _ Hok E) as (m & Hr & _ & _ & Hdom & _).
  exists m. split; [done|]. intros k. rewrite Hdom, Hd. split.
  - intros [?|(i & Hi & _ & Ei)]; [by left|right]. destruct (warm_key i Hi) as (k' & Ek & Hin). congruence.
  - intros [?|(i & Hi)%rd_elem]; [by left|right]. apply rd_Some in Hi as Hr2. rewrite zlen_range in Hr2 by lia.
    rewrite rd_range in Hi by lia. exists (init_table_size + i). split; [lia|]. split; [apply not_elem_of_nil|done].
Qed.
End WarmUpCorrect.

(** ** The generated operations as a workload *)

Lemma zsum_ext {A} (f g : A -> Z) l : (forall x, x ∈ l -> f x = g x) -> zsum f l = zsum g l.
Proof.
  induction l as [|x l IH]; intros Hfg; simpl; [done|]. rewrite Hfg by constructor.
  rewrite IH; [done|]. intros y Hy. apply Hfg. by constructor.
Qed.

Lemma zsum_rd {A} (f : A -> Z) (l : list A) :
  zsum (fun i => match rd l i with Some x => f x | None => 0 end) (seqZ 0 (zlen l)) = zsum f l.
Proof.
  induction l as [|x l IH] using rev_ind; [done|]. rewrite zlen_app. pose proof (zlen_nonneg l).
  rewrite seqZ_split by (unfold zlen; lia). rewrite !zsum_app. f_equal.
  - rewrite <-IH. apply zsum_ext. intros i Hi%elem_of_seqZ. rewrite rd_app by lia. by destruct (Z.ltb_spec i (zlen l)); [|lia].
  - change (zlen [x]) with 1. rewrite (seqZ_cons (0 + zlen l) 1) by lia. rewrite (seqZ_nil _ (Z.pred 1)) by lia. simpl.
    rewrite Z.add_0_l, rd_app by lia. destruct (Z.ltb_spec (zlen l) (zlen l)); [lia|]. rewrite Z.sub_diag. done.
Qed.

Lemma op_count_length c op : zlen (ops c) = operations_num c ->
  op_count c op = zlen (filter (fun o => o.1 = op) (ops c)).
Proof.
  intros Hl. unfold op_count. rewrite <-Hl.
  rewrite (zsum_ext _ (fun i => match rd (ops c) i with Some x => if decide (x.1 = op) then 1 else 0 | None => 0 end)).
  - rewrite (zsum_rd (fun x => if decide (x.1 = op) then 1 else 0)). clear Hl. induction (ops c) as [|[o k] l IH]; [done|].
    rewrite filter_cons. cbn [zsum]. rewrite IH. destruct (decide _); unfold zlen; simpl; lia.
  - intros i _. unfold op_weight. by destruct (rd _ _) as [[]|].
Qed.

Lemma keys_of_elem P l k : k ∈ keys_of P l <-> exists op, P op = true /\ (op, k) ∈ l.
Proof.
  unfold keys_of. rewrite list_elem_of_fmap. split.
  - intros ([op k'] & -> & [Hp Hin]%list_elem_of_filter). by exists op.
  - intros (op & Hp & Hin). exists (op, k). split; [done|]. by apply list_elem_of_filter.
Qed.

Lemma insert_count l : zlen (filter (fun o : Operation * Z => o.1 = INSERT) l) = zlen (keys_of is_insert l).
Proof.
  unfold keys_of, zlen. rewrite length_fmap. do 2 f_equal. apply list_filter_iff. intros [[] k]; simpl; split; congruence.
Qed.

(** Distinct insert keys are inserted by distinct operations. *)
Lemma keys_of_inj l i j k : NoDup (keys_of is_insert l) ->
  rd l i = Some (INSERT, k) -> rd l j = Some (INSERT, k) -> i = j.
Proof.
  intros Hnd Hi Hj. apply rd_Some in Hi as Hri. apply rd_Some in Hj as Hrj.
  assert (Hl : forall n, l !! n = Some (INSERT, k) -> forall n', (n < n')%nat -> l !! n' = Some (INSERT, k) -> False).
  { clear Hi Hj Hri Hrj i j. revert Hnd. induction l as [|[o k'] l IH]; intros Hnd n Hn n' Hlt Hn'; [done|].
    destruct n' as [|n']; [lia|]. simpl in Hn'. unfold keys_of in Hnd. rewrite filter_cons in Hnd. destruct n as [|n].
    - simpl in Hn. simplify_eq. rewrite decide_True in Hnd by done. rewrite fmap_cons in Hnd. apply NoDup_cons in Hnd as [Hx _].
      destruct Hx. apply (keys_of_elem is_insert). exists INSERT. split; [done|]. by eapply list_elem_of_lookup_2.
    - eapply (IH _ n Hn n'); [lia|done]. Unshelve. destruct (decide _); [|done]. rewrite fmap_cons in Hnd. by apply NoDup_cons in Hnd as [_ ?]. }
  unfold rd in Hi, Hj. destruct (0 <=? i), (0 <=? j); try done.
  destruct (Z.lt_trichotomy i j) as [Hlt|[?|Hlt]]; [|done|].
  - destruct (Hl _ Hi (Z.to_nat j)); [lia|done].
  - destruct (Hl _ Hj (Z.to_nat i)); [lia|done].
Qed.

(** The key array when it is loaded ([keys]) and after the operations were generated
    ([keys']), the keys for bulk loading, and the generated operations. *)
Record prepared (r : Ratios) (l keys keys' init_keys sample : list Z) (table_size k num : Z) (g : Gen) : Prop := {
  pr_size : 0 <= k <= table_size;
  pr_table : table_size = zlen (distinct l);
  pr_loaded : range keys 0 table_size ≡ₚ distinct l;
  pr_room : table_size <= zlen keys;
  pr_init : init_keys ≡ₚ range keys 0 k;
  pr_sorted : StronglySorted Z.lt init_keys;
  pr_rest : range keys' k (zlen (rest_keys keys table_size k)) ≡ₚ rest_keys keys table_size k;
  pr_same_room : zlen keys' = zlen keys;
  pr_generated : generated keys' sample (first_insert r k (zlen (rest_keys keys table_size k)))
    (k + zlen (rest_keys keys table_size k)) num g;
  pr_sample : forall x, x ∈ sample -> x ∈ init_keys;
  pr_num : 0 <= num <= int_max
}.

Section EndToEnd.
Context {I : Type} `{LawfulIndex I}.
Context (r : Ratios) (l keys keys' init_keys sample : list Z) (table_size k num : Z) (g : Gen).
Context (P : prepared r l keys keys' init_keys sample table_size k num g).
Context (Hvalid : Forall idx_valid l) (Hlimit : zlen (distinct l) <= idx_limit (I:=I)).

Abbreviation rest := (rest_keys keys table_size k).
Abbreviation start := (first_insert r k (zlen rest)).
Abbreviation warm := (range keys' k (start - k)).

Lemma loaded_elem x : x ∈ range keys 0 table_size <-> x ∈ l.
Proof. by rewrite (pr_loaded _ _ _ _ _ _ _ _ _ _ P), distinct_elem. Qed.

Lemma init_elem x : x ∈ init_keys -> x ∈ l /\ x ∉ rest.
Proof.
  destruct P as [Hk _ _ _ Hinit _ _ _ _ _ _]. rewrite Hinit. intros Hx. split.
  - apply loaded_elem. replace table_size with (k + (table_size - k)) by lia. rewrite range_app by lia. apply elem_of_app. by left.
  - intros Hr%kept_keys_elem. tauto.
Qed.

Lemma rest_elem x : x ∈ rest -> x ∈ l.
Proof.
  pose proof (pr_size _ _ _ _ _ _ _ _ _ _ P) as Hk.
  intros [_ Hx]%kept_keys_elem. apply loaded_elem.
  replace table_size with (k + (table_size - k)) by lia. rewrite range_app, Z.add_0_l by lia. apply elem_of_app. by right.
Qed.

Lemma valid_elem x : x ∈ l -> idx_valid x.
Proof. intros Hx. rewrite List.Forall_forall in Hvalid. apply Hvalid. by apply list_elem_of_In. Qed.

Lemma init_valid : Forall idx_valid init_keys.
Proof. apply List.Forall_forall. intros x Hx%list_elem_of_In. by apply valid_elem, init_elem. Qed.

Lemma init_length : zlen init_keys = k.
Proof.
  destruct P as [Hk _ _ Hroom Hinit _ _ _ _ _ _]. pose proof (zlen_range keys 0 k).
  unfold zlen in *. rewrite (Permutation_length Hinit). lia.
Qed.

Lemma start_range : k <= start <= k + zlen rest /\ zlen rest <= table_size - k.
Proof.
  destruct P as [Hk _ _ Hroom _ _ _ _ _ _ _]. split; [apply first_insert_range, zlen_nonneg|by apply rest_keys_length].
Qed.

(** The keys of the warm-up and those of the insertions, one after the other. *)
Lemma warm_then_inserts :
  NoDup (warm ++ keys_of is_insert (operations g)) /\
  (forall x, x ∈ warm ++ keys_of is_insert (operations g) -> x ∈ rest) /\
  zlen warm = start - k /\ zlen (warm ++ keys_of is_insert (operations g)) <= zlen rest.
Proof.
  pose proof start_range as Hs. destruct P as [Hk Ht _ Hroom _ _ Hkeys' Hlen' [Hc Hsc Hins Hin Hsm Hkd Hb] _ _].
  rewrite Hin. pose proof (zlen_nonneg rest) as Hr0.
  assert (E : warm ++ range keys' start (insert_counter g - start) = range keys' k (insert_counter g - k)).
  { replace (insert_counter g - k) with ((start - k) + (insert_counter g - start)) by lia. rewrite range_app by lia.
    by replace (k + (start - k)) with start by lia. }
  rewrite E. destruct (range_inner keys' k (zlen rest) rest 0 (insert_counter g - k) Hkeys' (rest_keys_NoDup keys table_size k))
    as [Hnd Hsub]; try lia. rewrite Z.add_0_r in Hnd, Hsub. rewrite !zlen_range by lia. auto with lia.
Qed.

Lemma warm_elem x : x ∈ warm -> x ∈ rest.
Proof. intros Hx. apply warm_then_inserts, elem_of_app. by left. Qed.

Lemma insert_elem i x : rd (operations g) i = Some (INSERT, x) -> x ∈ keys_of is_insert (operations g).
Proof. intros Hi. apply keys_of_elem. exists INSERT. split; [done|]. apply rd_elem. by exists i. Qed.

Lemma other_elem i op x : rd (operations g) i = Some (op, x) -> op <> INSERT -> x ∈ init_keys.
Proof.
  intros Hi Hop. destruct P as [_ _ _ _ _ _ _ _ [_ _ _ _ Hsm _ _] Hsample _]. apply Hsample.
  assert (Hx : x ∈ keys_of (fun op => negb (is_insert op)) (operations g)).
  { apply keys_of_elem. exists op. split; [by destruct op|]. apply rd_elem. by exists i. }
  rewrite Hsm in Hx. by eapply elem_of_take in Hx as (? & ?%list_elem_of_lookup_2 & _).
Qed.

Context (m1 : gmap Z Z).
Context (Hm1 : forall x, is_Some (m1 !! x) <-> x ∈ init_keys \/ x ∈ warm).

Lemma loaded_size : Z.of_nat (size m1) = start.
Proof.
  destruct warm_then_inserts as (Hnd & Hsub & Hw & _). rewrite (size_of_keys m1 (init_keys ++ warm)).
  - rewrite length_app. pose proof init_length. unfold zlen in *. lia.
  - apply NoDup_app. split; [apply increasing_no_dup, (pr_sorted _ _ _ _ _ _ _ _ _ _ P)|].
    split; [|by apply NoDup_app in Hnd as (? & _)].
    intros x Hx Hy. destruct (init_elem x Hx) as [_ Hn]. by apply Hn, warm_elem.
  - intros x. by rewrite Hm1, elem_of_app.
Qed.

Lemma generated_workload_ok scan_num lat lat_ratio : 0 <= scan_num ->
  workload_ok (I:=I) (mkRunConfig (operations g) num scan_num lat lat_ratio) m1.
Proof.
  intros Hscan. destruct warm_then_inserts as (Hnd & Hsub & Hw & Hle). apply NoDup_app in Hnd as (_ & Hdisj & Hnd).
  pose proof (gn_count _ _ _ _ _ _ (pr_generated _ _ _ _ _ _ _ _ _ _ P)) as Hc. pose proof (pr_num _ _ _ _ _ _ _ _ _ _ P).
  constructor; cbn [ops operations_num Run.scan_num]; try done; try lia.
  - intros i op x Hi. apply valid_elem. destruct (decide (op = INSERT)) as [->|Hne].
    + apply rest_elem, Hsub, elem_of_app. right. by eapply insert_elem.
    + eapply init_elem, other_elem; done.
  - intros i op x Hi Hop. apply Hm1. left. eapply other_elem; [done|]. by destruct Hop as [->| ->].
  - intros i x Hi. apply eq_None_not_Some. intros [Hx|Hx]%Hm1.
    + destruct (init_elem x Hx) as [_ Hn]. apply Hn, Hsub, elem_of_app. right. by eapply insert_elem.
    + eapply Hdisj; [done|]. by eapply insert_elem.
  - intros i j x. by apply keys_of_inj.
  - rewrite loaded_size, op_count_length by done. cbn [ops]. rewrite insert_count. rewrite zlen_app in Hle.
    pose proof start_range. pose proof (pr_table _ _ _ _ _ _ _ _ _ _ P). lia.
Qed.
End EndToEnd.

(** ** Reads and insertions always succeed *)

Section Results.
Context {I : Type} `{LawfulIndex I}.
Context (shuffle parallel_sort random_shuffle : list Z -> list Z).
Hypothesis shuffle_perm : forall l, shuffle l ≡ₚ l.
Hypothesis random_shuffle_perm : forall l, random_shuffle l ≡ₚ l.
Hypothesis sort_perm : forall l, parallel_sort l ≡ₚ l.
Hypothesis sort_sorted : forall l, StronglySorted Z.le (parallel_sort l).

Lemma list_to_map_payload (l : list Z) x :
  is_Some ((list_to_map ((fun k => (k, init_payload)) <$> l) : gmap Z Z) !! x) <-> x ∈ l.
Proof.
  induction l as [|y l IH]; cbn [fmap list_fmap list_to_map foldr curry uncurry].
  - rewrite lookup_empty, elem_of_nil. split; [by intros []|done].
  - simpl. rewrite lookup_insert_is_Some', IH, elem_of_cons. split; (intros [->|]; [by left|by right]).
Qed.

Lemma init_payloads_ok l : Forall (idx_payload (I:=I)) ((fun k : Z => (k, init_payload)) <$> l).*2.
Proof. rewrite <-list_fmap_compose. apply Forall_fmap, Forall_true. intros k. by apply payload_law. Qed.

(** The index after bulk loading and the warm-up. *)
Lemma warm_up_spec b ix ls ix' start (m0 : gmap Z Z) :
  idx_rep ix m0 -> 0 <= bench_init_table_size b <= start -> start <= zlen (bench_keys b) ->
  (if workload_shift_test (ratios b) then start = insert_end (bench_init_table_size b) (bench_table_size b)
   else start = bench_init_table_size b) ->
  NoDup (range (bench_keys b) (bench_init_table_size b) (start - bench_init_table_size b)) ->
  (forall k, k ∈ range (bench_keys b) (bench_init_table_size b) (start - bench_init_table_size b) -> m0 !! k = None) ->
  Forall idx_valid (range (bench_keys b) (bench_init_table_size b) (start - bench_init_table_size b)) ->
  (forall x, x ∈ bench_init_keys b -> idx_valid x /\ is_Some (m0 !! x)) -> Z.of_nat (size m0) + (start - bench_init_table_size b) <= idx_limit -> start <= idx_limit (I:=I) -> (bench_init_table_size b = 0 -> idx_payload (I:=I) 0) ->
  warm_up (write_ratio_begin b) (bench_keys b) (bench_init_keys b) (bench_init_table_size b)
    (workload_shift_test (ratios b)) (bench_table_size b) ix ls = Some ix' ->
  exists m, idx_rep ix' m /\ forall k, is_Some (m !! k) <-> is_Some (m0 !! k) \/
    k ∈ range (bench_keys b) (bench_init_table_size b) (start - bench_init_table_size b).
Proof.
  intros Hrep Hs Hl Hst Hnd Hf Hv Hi Hlim Hword Hzero E. unfold warm_up in E. destruct (workload_shift_test (ratios b)).
  - rewrite <-Hst in E. inv_bind E. destruct (decide (todo x = [])) as [Hd|]; [|done]. injection E as <-.
    by apply (warm_done (write_ratio_begin b) _ (bench_init_keys b) _ m0 start Hs Hl Hnd Hf Hv Hi Hlim Hword Hzero ix ls).
  - injection E as <-. rewrite Hst, Z.sub_diag. exists m0. split; [done|]. intros k. unfold range.
    rewrite take_0, elem_of_nil. tauto.
Qed.

Lemma first_insert_end r k n : 0 <= n ->
  if workload_shift_test r then first_insert r k n = insert_end k (k + n) else first_insert r k n = k.
Proof. intros Hn. unfold first_insert, insert_end. destruct (workload_shift_test r); [|done]. do 2 f_equal. lia. Qed.

(** Loading and generating prepare a run. *)
Lemma load_generate_prepared file len shift l n ratio ld r sample probs operations_num ops num keys' total :
  read_keys file len = Some (l, n) ->
  load_keys shuffle parallel_sort file len shift ratio = Some (Some ld) ->
  (shift = true -> NoDup l) -> init_table_size ld <= table_size ld ->
  (forall x, x ∈ sample -> x ∈ init_keys ld) ->
  operations_num <= zlen sample -> operations_num <= zlen probs -> 0 <= operations_num <= int_max ->
  generate_operations random_shuffle r (keys ld) sample probs (table_size ld) (init_table_size ld) operations_num =
    Some (ops, num, keys', total) ->
  exists g, ops = operations g /\ total = init_table_size ld + zlen (rest_keys (keys ld) (table_size ld) (init_table_size ld)) /\
    prepared r l (keys ld) keys' (init_keys ld) sample (table_size ld) (init_table_size ld) num g.
Proof.
  intros Er El Hnd Hk Hsm Hs Hp Hop Eg.
  destruct (load_keys_distinct shuffle parallel_sort shuffle_perm sort_perm sort_sorted file len shift l n ratio ld Er El Hnd Hk)
    as (Hn & Hk0 & Ht & Hl & Hperm & Hsorted & Hinit).
  pose proof (read_keys_length _ _ _ _ Er) as Hln. pose proof (distinct_length l).
  destruct (generate_operations_spec random_shuffle r (keys ld) sample probs (table_size ld) (init_table_size ld) operations_num
    random_shuffle_perm ltac:(lia) ltac:(lia) ltac:(lia) Hs Hp) as (g & num' & keys1 & Eg' & Hl1 & Hperm1 & Hnum & Hg & _).
  rewrite Eg in Eg'. injection Eg' as -> -> -> ->. exists g. split; [done|]. split; [done|]. constructor; done || lia.
Qed.

(** Bulk loading and the warm-up of a prepared run. *)
Lemma prepared_warm_up r l keys keys' init_keys sample table_size k num g begin ix ls ix' :
  prepared r l keys keys' init_keys sample table_size k num g ->
  Forall idx_valid l -> zlen (distinct l) <= idx_limit (I:=I) -> (k = 0 -> idx_payload (I:=I) 0) ->
  let total := k + zlen (rest_keys keys table_size k) in
  idx_bulk_load ((fun k => (k, init_payload)) <$> init_keys) = Some ix ->
  warm_up begin keys' init_keys k (workload_shift_test r) total ix ls = Some ix' ->
  exists m, idx_rep ix' m /\ forall x, is_Some (m !! x) <->
    x ∈ init_keys \/ x ∈ range keys' k (first_insert r k (zlen (rest_keys keys table_size k)) - k).
Proof.
  intros P Hv Hlim Hzero total Eb Ew.
  set (b := mkBench r begin keys' total init_keys k (mkRunConfig [] 0 0 false f64_zero) false). set (kvs := _ <$> init_keys) in Eb. pose proof P as [Hk Ht _ Hroom _ Hsorted _ Hroom' _ _ _].
  pose proof (init_length _ _ _ _ _ _ _ _ _ _ P) as Hzi. pose proof (start_range _ _ _ _ _ _ _ _ _ _ P) as Hsr.
  destruct (warm_then_inserts _ _ _ _ _ _ _ _ _ _ P) as (Hwnd & _).
  assert (Hkv : kvs.*1 = init_keys) by (unfold kvs; rewrite <-list_fmap_compose; apply list_fmap_id).
  pose proof (init_valid _ _ _ _ _ _ _ _ _ _ P Hv) as Hiv.
  destruct (bulk_load_law kvs) as (i0 & E0 & Hrep0); [by rewrite Hkv|by rewrite Hkv|apply init_payloads_ok|unfold kvs, zlen in *; rewrite length_fmap; lia|].
  rewrite Eb in E0. injection E0 as <-.
  assert (Hm0 : forall y, is_Some ((list_to_map kvs : gmap Z Z) !! y) <-> y ∈ init_keys) by (apply list_to_map_payload).
  destruct (warm_up_spec b ix ls ix' (first_insert r k (zlen (rest_keys keys table_size k))) (list_to_map kvs) Hrep0)
    as (m & Hrep & Hm); cbn [b bench_init_table_size bench_keys bench_table_size ratios bench_init_keys write_ratio_begin]; try lia; try done.
  - apply first_insert_end, zlen_nonneg.
  - by apply NoDup_app in Hwnd as (? & _).
  - intros y Hy. apply eq_None_not_Some. intros Hy'%Hm0. apply (init_elem _ _ _ _ _ _ _ _ _ _ P) in Hy' as [_ Hn']. apply Hn'.
    by apply (warm_elem _ _ _ _ _ _ _ _ _ _ P).
  - apply List.Forall_forall. intros y Hy%list_elem_of_In. apply (valid_elem _ Hv), (rest_elem _ _ _ _ _ _ _ _ _ _ P).
    by apply (warm_elem _ _ _ _ _ _ _ _ _ _ P).
  - intros y Hy. rewrite Hm0. split; [|done]. rewrite List.Forall_forall in Hiv. by apply Hiv, list_elem_of_In.
  - rewrite (size_of_keys _ init_keys (increasing_no_dup _ Hsorted) Hm0). unfold zlen in *. lia.
  - exists m. split; [done|]. intros x. by rewrite Hm, Hm0.
Qed.

End Results.

(** *** A benchmark of the workload-shift test *)

Module Demo.
Import KeepIndex.

Definition demo_ratios : Ratios :=
  mkRatios (f64_lit 1 2) (f64_lit 1 2) f64_zero f64_zero f64_zero true (f64_lit 1 2).

Definition demo_file : KeysFile := Text (Some demo_lines).

Definition file_keys : list Z := [7; 3; 12; 7; 0; 5; 4; 2 ^ 64 - 1; 9; 1; 2; 8].

(** The keys are shuffled into decreasing order, the keys to insert are not. *)
Definition demo_loaded : Loaded :=
  default (mkLoaded [] 0 0 [] []) (mjoin (load_keys reverse (merge_sort Z.le) demo_file (-1) false (f64_lit 1 2))).

Definition demo_sample : list Z := [7; 12; 8; 9; 7].

Definition demo_probs : list f64 := [f64_lit 1 4; f64_lit 3 4; f64_lit 2 3; f64_lit 1 8; f64_lit 7 8].

Definition demo_operations : list (Operation * Z) := [(READ, 7); (INSERT, 3); (INSERT, 4); (READ, 12); (INSERT, 5)].

Definition demo_keys : list Z := [7; 8; 9; 12; 2 ^ 64 - 1; 0; 1; 2; 3; 4; 5; 2 ^ 64 - 1].

Definition demo_bench : Bench :=
  mkBench demo_ratios (f64_lit 1 2) demo_keys 11 [7; 8; 9; 12; 2 ^ 64 - 1] 5
    (mkRunConfig demo_operations 5 2 false (f64_lit 1 2)) true.

Definition demo_env : Environment :=
  mkEnvironment [Warm 5 (f64_lit 3 4); Warm 6 (f64_lit 1 4); Warm 5 (f64_lit 1 8); Warm 7 (f64_lit 1 2)]
    [Grab 1; Exec 1 (0, 1); Exec 1 (1, 2); Exec 1 (2, 3); Exec 1 (3, 4); Exec 1 (4, 5)] Some 1000.

Example demo_generate :
  generate_operations (fun l => l) demo_ratios (keys demo_loaded) demo_sample demo_probs (table_size demo_loaded) 5 5 =
    Some (demo_operations, 5, demo_keys, 11).
Proof. vm_compute. reflexivity. Qed.

(** The data-set statistics sort the key array that later runs use.  With the
    workload-shift test, a second run on the same operations warms up with other
    keys than the first, among them keys that are already loaded and a key that
    the operations insert, and it reports fewer successful insertions. *)
Theorem second_run_warm_up :
  exists st1 st2, run_all (I:=gmap Z Z) demo_bench [(2, demo_env); (2, demo_env)] = Some [st1; st2] /\
    stat_insert st1 = 3 /\ stat_insert st2 = 2 /\
    range (statistic_keys demo_bench) 5 3 = [5; 7; 8].
Proof. eexists _, _. split; [vm_compute; reflexivity|]. vm_compute. auto. Qed.

End Demo.
