(* ===== verification/BTreeLock.v ===== *)
(** * BTreeOLC: optimistic locks (competitor/btreeolc/src/BTreeOLC_child_layout.h)

    [OptLock] is one 64-bit word: bit 0 marks the node obsolete, bit 1 locked, the
    rest counts versions.  The functions translate the methods; a method that
    changes the word returns the new one.  [lock_step] lets any number of threads
    call them in any order on one lock that guards a datum; the theorem shows that
    writers exclude each other and that a reader whose validation succeeds saw one
    consistent value. *)

From S2P Require Import Prelude Words.
From stdpp Require Import gmap.
Local Open Scope Z_scope.

(** ** Methods *)

(** [typeVersionLockObsolete{0b100}] *)
Definition initial_version : Z := 4.

Definition isLocked (version : Z) : bool := Z.land version 2 =? 2.
Definition isObsolete (version : Z) : bool := Z.land version 1 =? 1.

(** Returns the version read and the new [needRestart]. *)
Definition readLockOrRestart (word : Z) (needRestart : bool) : Z * bool :=
  (word, isLocked word || isObsolete word || needRestart).

(** [compare_exchange_strong(version, version + 2)]: the new word, the new
    [version] (the word found, when the exchange fails) and [needRestart]. *)
Definition upgradeToWriteLockOrRestart (word version : Z) (needRestart : bool) : Z * Z * bool :=
  if word =? version then (wrap64 (version + 2), wrap64 (version + 2), needRestart)
  else (word, word, true).

Definition writeLockOrRestart (word : Z) (needRestart : bool) : Z * bool :=
  let '(version, needRestart) := readLockOrRestart word needRestart in
  if needRestart then (word, needRestart)
  else
    let '(word, _, needRestart) := upgradeToWriteLockOrRestart word version needRestart in (word, needRestart).

Definition writeUnlock (word : Z) : Z := wrap64 (word + 2).

(** The new [needRestart]. *)
Definition readUnlockOrRestart (word startRead : Z) : bool := negb (startRead =? word).
Definition checkOrRestart (word startRead : Z) : bool := readUnlockOrRestart word startRead.

Definition writeUnlockObsolete (word : Z) : Z := wrap64 (word + 3).

(** ** Words that are neither locked nor obsolete *)

Definition unlocked (w : Z) : Prop := 0 <= w < 2 ^ 64 /\ w mod 4 = 0.

Lemma low_bits w : Z.land w 2 = 2 * ((w / 2) mod 2) /\ Z.land w 1 = w mod 2.
Proof.
  split; [|by change 1 with (Z.ones 1); rewrite Z.land_ones].
  replace (2 * ((w / 2) mod 2)) with (((w / 2 ^ 1) mod 2 ^ 1) * 2 ^ 1) by (change (2 ^ 1) with 2; lia).
  change (Z.land w 2) with (Z.land w (2 ^ 1)).
  apply Z.bits_inj'. intros i Hi. rewrite Z.land_spec, Z.pow2_bits_eqb by lia.
  destruct (Z.eqb_spec 1 i) as [<-|Hne].
  - rewrite Z.mul_pow2_bits by lia. rewrite Z.sub_diag, Z.mod_pow2_bits_low, Z.div_pow2_bits by lia.
    by rewrite andb_true_r.
  - rewrite andb_false_r. rewrite Z.mul_pow2_bits by lia. destruct (Z.eq_dec i 0) as [->|].
    + by rewrite Z.testbit_neg_r by lia.
    + symmetry. apply Z.mod_pow2_bits_high. lia.
Qed.

Lemma isLocked_mod w : isLocked w = (2 <=? w mod 4).
Proof.
  unfold isLocked. destruct (low_bits w) as [-> _].
  assert (w mod 4 = 2 * ((w / 2) mod 2) + w mod 2) by (Z.div_mod_to_equations; lia).
  destruct (Z.eqb_spec (2 * ((w / 2) mod 2)) 2), (Z.leb_spec 2 (w mod 4)); try done; Z.div_mod_to_equations; lia.
Qed.

Lemma isObsolete_mod w : isObsolete w = (w mod 2 =? 1).
Proof. unfold isObsolete. by destruct (low_bits w) as [_ ->]. Qed.

Lemma readLock_unlocked w : unlocked w -> readLockOrRestart w false = (w, false).
Proof.
  intros [_ Hw]. unfold readLockOrRestart. rewrite isLocked_mod, isObsolete_mod, Hw.
  assert (w mod 2 = 0) as -> by (Z.div_mod_to_equations; lia). done.
Qed.

Lemma upgrade_same w : upgradeToWriteLockOrRestart w w false = (wrap64 (w + 2), wrap64 (w + 2), false).
Proof. unfold upgradeToWriteLockOrRestart. by rewrite Z.eqb_refl. Qed.

Lemma readUnlock_same w : readUnlockOrRestart w w = false.
Proof. unfold readUnlockOrRestart. by rewrite Z.eqb_refl. Qed.

(** Locking and unlocking gives an unlocked word again, also when it wraps around. *)
Lemma unlocked_again w : unlocked w -> unlocked (writeUnlock (wrap64 (w + 2))).
Proof.
  intros [Hr Hw]. unfold unlocked, writeUnlock, wrap64. rewrite Z.add_mod_idemp_l by lia. split; [apply Z.mod_pos_bound; lia|].
  assert (2 ^ 64 = 4 * 2 ^ 62) as -> by lia. Z.div_mod_to_equations. lia.
Qed.

Lemma unlocked_initial : unlocked initial_version.
Proof. split; [unfold initial_version; lia|done]. Qed.

#[export] Hint Resolve unlocked_again unlocked_initial : cxx.

(** ** Threads on one lock

    The lock guards a datum.  A thread is idle, reading optimistically since it
    read some version (with the values it has seen), or holds the write lock.  A
    failed check sends it back to idle: it restarts. *)

Section Threads.
Context {A : Type}.

Inductive Mode := Idle | Reading (version : Z) (seen : list A) | Writing.

Record LockState := mkLockState {
  word : Z;
  datum : A;
  modes : list Mode
}.

(** [Checked t seen]: thread [t]'s check succeeded after it had seen these values. *)
Inductive Event := Silent | Checked (t : nat) (seen : list A).

Definition to_mode (s : LockState) (t : nat) (m : Mode) : LockState := mkLockState (word s) (datum s) (<[t := m]> (modes s)).

Inductive lock_step : LockState -> Event -> LockState -> Prop :=
| step_read_lock s t v :
    modes s !! t = Some Idle -> readLockOrRestart (word s) false = (v, false) ->
    lock_step s Silent (to_mode s t (Reading v []))
| step_read s t v seen :
    modes s !! t = Some (Reading v seen) ->
    lock_step s Silent (to_mode s t (Reading v (seen ++ [datum s])))
| step_validate s t v seen :
    modes s !! t = Some (Reading v seen) -> readUnlockOrRestart (word s) v = false ->
    lock_step s (Checked t seen) (to_mode s t Idle)
| step_validate_fails s t v seen :
    modes s !! t = Some (Reading v seen) -> readUnlockOrRestart (word s) v = true ->
    lock_step s Silent (to_mode s t Idle)
| step_upgrade s t v seen w v' :
    modes s !! t = Some (Reading v seen) -> upgradeToWriteLockOrRestart (word s) v false = (w, v', false) ->
    lock_step s (Checked t seen) (mkLockState w (datum s) (<[t := Writing]> (modes s)))
| step_upgrade_fails s t v seen w v' :
    modes s !! t = Some (Reading v seen) -> upgradeToWriteLockOrRestart (word s) v false = (w, v', true) ->
    lock_step s Silent (mkLockState w (datum s) (<[t := Idle]> (modes s)))
| step_write s t d :
    modes s !! t = Some Writing ->
    lock_step s Silent (mkLockState (word s) d (modes s))
| step_unlock s t :
    modes s !! t = Some Writing ->
    lock_step s Silent (mkLockState (writeUnlock (word s)) (datum s) (<[t := Idle]> (modes s)))
| step_unlock_obsolete s t :
    modes s !! t = Some Writing ->
    lock_step s Silent (mkLockState (writeUnlockObsolete (word s)) (datum s) (<[t := Idle]> (modes s))).

Inductive lock_steps : LockState -> list Event -> LockState -> Prop :=
| steps_nil s : lock_steps s [] s
| steps_snoc s es s' e s'' : lock_steps s es s' -> lock_step s' e s'' -> lock_steps s (es ++ [e]) s''.

Definition lock_init (d : A) (threads : nat) : LockState := mkLockState initial_version d (replicate threads Idle).

(** After [n] steps. *)
Record lock_inv (n : Z) (s : LockState) : Prop := {
  word_bound : 4 <= word s <= 4 + 3 * n;
  word_bits : word s mod 4 = 0 \/ word s mod 4 = 1 \/ word s mod 4 = 2;
  writing_bit t : modes s !! t = Some Writing -> word s mod 4 = 2;
  one_writer t1 t2 : modes s !! t1 = Some Writing -> modes s !! t2 = Some Writing -> t1 = t2;
  locked_writer : word s mod 4 = 2 -> exists t, modes s !! t = Some Writing;
  readers t v seen : modes s !! t = Some (Reading v seen) ->
    v <= word s /\ v mod 4 = 0 /\ (v = word s -> Forall (eq (datum s)) seen)
}.

Lemma lock_inv_init d threads : lock_inv 0 (lock_init d threads).
Proof.
  assert (Hm : forall t m, modes (lock_init d threads) !! t = Some m -> m = Idle).
  { intros t m H. by apply lookup_replicate in H as [-> _]. }
  constructor; simpl; try (intros; by match goal with H : replicate _ _ !! _ = Some _ |- _ => apply Hm in H end).
  - unfold initial_version. lia.
  - by left.
  - discriminate.
Qed.

(** Threads other than the one that moved. *)
Lemma moved (s : LockState) t m t' m' : <[t := m]> (modes s) !! t' = Some m' ->
  (t' = t /\ m' = m) \/ (t' <> t /\ modes s !! t' = Some m').
Proof.
  intros H. destruct (decide (t' = t)) as [->|Hne].
  - rewrite list_lookup_insert_Some in H. destruct H as [(_ & -> & _)|(? & _)]; [by left|done].
  - rewrite list_lookup_insert_ne in H by done. by right.
Qed.

(** A thread that reads or becomes idle, the word unchanged. *)
Lemma lock_inv_reader n s t m m' : lock_inv n s -> modes s !! t = Some m -> m <> Writing -> m' <> Writing -> 0 <= n ->
  (forall v seen, m' = Reading v seen -> v <= word s /\ v mod 4 = 0 /\ (v = word s -> Forall (eq (datum s)) seen)) ->
  lock_inv (n + 1) (to_mode s t m').
Proof.
  intros [Hb Hbits Hw H1 Hl Hr] Ht Hm Hm' Hn Hnew.
  assert (Hold : forall t', modes (to_mode s t m') !! t' = Some Writing -> modes s !! t' = Some Writing).
  { intros t' [[-> <-]|[_ ?]]%moved; done. }
  constructor; simpl; eauto; try lia.
  - intros Hx. destruct (Hl Hx) as [t' Ht']. exists t'. rewrite list_lookup_insert_ne; [done|congruence].
  - intros t' v seen [[-> Hv]|[_ ?]]%moved; eauto.
Qed.

(** The writer leaves, with a larger word that is not locked. *)
Lemma lock_inv_release n s t w : lock_inv n s -> modes s !! t = Some Writing -> 0 <= n ->
  word s < w <= word s + 3 -> w mod 4 = 0 \/ w mod 4 = 1 ->
  lock_inv (n + 1) (mkLockState w (datum s) (<[t := Idle]> (modes s))).
Proof.
  intros [Hb Hbits Hw H1 Hl Hr] Ht Hn Hwb Hwm.
  assert (Hnone : forall t', <[t := Idle]> (modes s) !! t' <> Some Writing).
  { intros t' [[_ ?]|[Hne Ht']]%moved; [done|]. by rewrite (H1 t' t Ht' Ht) in Hne. }
  constructor; simpl; try lia; try (intros; exfalso; by eapply Hnone).
  intros t' v seen [[_ ?]|[_ Hrd]]%moved; [done|]. destruct (Hr _ _ _ Hrd) as (? & ? & _). split; [lia|]. split; [done|lia].
Qed.

Lemma lock_inv_step n s e s' : lock_inv n s -> 0 <= n < 2 ^ 62 -> lock_step s e s' ->
  lock_inv (n + 1) s' /\ (forall t seen, e = Checked t seen -> Forall (eq (datum s)) seen).
Proof.
  intros Hi Hn Hs. pose proof Hi as [Hb Hbits Hw H1 Hl Hr].
  destruct Hs as [s t v Ht Hv|s t v seen Ht|s t v seen Ht Hv|s t v seen Ht Hv|s t v seen w v' Ht Hv|
    s t v seen w v' Ht Hv|s t d Ht|s t Ht|s t Ht].
  - split; [|done]. eapply lock_inv_reader; [done..|lia|]. intros ? ? [= <- <-].
    injection Hv as <- Hbit. rewrite isLocked_mod, isObsolete_mod in Hbit. btest. split; [lia|]. split; [|by constructor].
    assert (word s mod 4 <> 1) by (intros; Z.div_mod_to_equations; lia). lia.
  - split; [|done]. destruct (Hr _ _ _ Ht) as (? & ? & Hseen). eapply lock_inv_reader; [done..|lia|].
    intros ? ? [= <- <-]. split; [done|]. split; [done|]. intros E. apply Forall_app. split; [by apply Hseen|by repeat constructor].
  - unfold readUnlockOrRestart in Hv. btest. destruct (Hr _ _ _ Ht) as (_ & _ & Hseen).
    split; [eapply lock_inv_reader; [done..|lia|done]|]. intros ? ? [= <- <-]. by apply Hseen.
  - split; [eapply lock_inv_reader; [done..|lia|done]|done].
  - unfold upgradeToWriteLockOrRestart in Hv. destruct (Z.eqb_spec (word s) v) as [<-|]; [|done]. injection Hv as <- _.
    destruct (Hr _ _ _ Ht) as (_ & Hv0 & Hseen). split; [|intros ? ? [= <- <-]; by apply Hseen].
    assert (wrap64 (word s + 2) = word s + 2) as -> by (unfold wrap64; rewrite Z.mod_small; lia).
    assert (Hm2 : (word s + 2) mod 4 = 2) by (Z.div_mod_to_equations; lia).
    assert (Hnw : forall t', modes s !! t' <> Some Writing) by (intros t' Hx%Hw; lia).
    constructor; simpl; try lia; try done.
    + intros t1 t2 [[-> _]|[_ ?]]%moved [[-> _]|[_ ?]]%moved; try done; exfalso; by eapply Hnw.
    + intros _. exists t. apply list_lookup_insert_eq. by apply lookup_lt_Some in Ht.
    + intros t' v2 seen2 [[_ ?]|[_ Hrd]]%moved; [done|]. destruct (Hr _ _ _ Hrd) as (? & ? & _). split; [lia|]. split; [done|lia].
  - unfold upgradeToWriteLockOrRestart in Hv. destruct (Z.eqb_spec (word s) v) as [<-|]; [done|]. injection Hv as <- _.
    split; [|done]. change (lock_inv (n + 1) (to_mode s t Idle)). eapply lock_inv_reader; [done..|lia|done].
  - split; [|done]. pose proof (Hw _ Ht). constructor; simpl; eauto; try lia.
    intros t' v seen Hrd. destruct (Hr _ _ _ Hrd) as (? & ? & _). split; [done|]. split; [done|]. intros ->. lia.
  - split; [|done]. pose proof (Hw _ Ht). eapply lock_inv_release; [done..|lia| |].
    + unfold writeUnlock, wrap64. rewrite Z.mod_small; lia.
    + unfold writeUnlock, wrap64. rewrite (Z.mod_small (word s + 2)) by lia. left. Z.div_mod_to_equations. lia.
  - split; [|done]. pose proof (Hw _ Ht). eapply lock_inv_release; [done..|lia| |].
    + unfold writeUnlockObsolete, wrap64. rewrite Z.mod_small; lia.
    + unfold writeUnlockObsolete, wrap64. rewrite (Z.mod_small (word s + 3)) by lia. right. Z.div_mod_to_equations. lia.
Qed.

Lemma lock_inv_steps d threads es s : zlen es < 2 ^ 62 -> lock_steps (lock_init d threads) es s -> lock_inv (zlen es) s.
Proof.
  intros Hn Hs. remember (lock_init d threads) as s0 eqn:E0. induction Hs as [s|s es s' e s'' Hs IH He]; subst.
  - apply lock_inv_init.
  - rewrite zlen_app in *. change (zlen [e]) with 1 in *. pose proof (zlen_nonneg es).
    apply (lock_inv_step (zlen es) s' e s''); [apply IH; [lia|done]|lia|done].
Qed.

(** C34: optimistic locking is sound.  On a lock used by any number of threads in any
    interleaving (of fewer than 2^62 steps, so that versions do not wrap around), at
    most one thread holds the write lock, exactly when the word says so, and whenever
    a thread's check succeeds (validation after reading, or the upgrade to a write
    lock) all values it read since it took the version are the current one. *)
Theorem optimistic_lock_sound d threads es s e s' :
  lock_steps (lock_init d threads) es s -> lock_step s e s' -> zlen es < 2 ^ 62 ->
  (forall t1 t2, modes s !! t1 = Some Writing -> modes s !! t2 = Some Writing -> t1 = t2) /\
  (isLocked (word s) = true <-> exists t, modes s !! t = Some Writing) /\
  (forall t seen, e = Checked t seen -> Forall (eq (datum s)) seen).
Proof.
  intros Hs He Hn. pose proof (lock_inv_steps _ _ _ _ Hn Hs) as Hi. pose proof (zlen_nonneg es).
  split; [apply (one_writer _ _ Hi)|]. split; [|by eapply lock_inv_step].
  rewrite isLocked_mod. destruct (word_bits _ _ Hi) as [Hm|[Hm|Hm]]; rewrite Hm; simpl; split; try done;
    try (intros [t Ht%(writing_bit _ _ Hi)]; lia); intros _; by apply (locked_writer _ _ Hi).
Qed.
End Threads.

Arguments Mode : clear implicits.
Arguments LockState : clear implicits.
Arguments Event : clear implicits.

(** Thread 0 reads; thread 1 takes the lock, writes and releases it; thread 0's check
    fails and it reads again. *)
Definition lock_demo : LockState Z := mkLockState 8 7 [Reading 8 [7]; Idle].
Definition lock_demo_events : list (Event Z) :=
  [Silent; Silent; Silent; Checked 1 []; Silent; Silent; Silent; Silent; Silent].

Lemma lock_demo_steps : lock_steps (lock_init 5 2) lock_demo_events lock_demo.
Proof.
  apply (steps_snoc _ [Silent; Silent; Silent; Checked 1 []; Silent; Silent; Silent; Silent] _ Silent) with (2 := step_read (mkLockState 8 7 [Reading 8 []; Idle]) 0 8 [] eq_refl).
  apply (steps_snoc _ [Silent; Silent; Silent; Checked 1 []; Silent; Silent; Silent] _ Silent) with (2 := step_read_lock (mkLockState 8 7 [Idle; Idle]) 0 8 eq_refl eq_refl).
  apply (steps_snoc _ [Silent; Silent; Silent; Checked 1 []; Silent; Silent] _ Silent) with (2 := step_validate_fails (mkLockState 8 7 [Reading 4 [5]; Idle]) 0 4 [5] eq_refl eq_refl).
  apply (steps_snoc _ [Silent; Silent; Silent; Checked 1 []; Silent] _ Silent) with (2 := step_unlock (mkLockState 6 7 [Reading 4 [5]; Writing]) 1 eq_refl).
  apply (steps_snoc _ [Silent; Silent; Silent; Checked 1 []] _ Silent) with (2 := step_write (mkLockState 6 5 [Reading 4 [5]; Writing]) 1 7 eq_refl).
  apply (steps_snoc _ [Silent; Silent; Silent] _ (Checked 1 [])) with (2 := step_upgrade (mkLockState 4 5 [Reading 4 [5]; Reading 4 []]) 1 4 [] 6 6 eq_refl eq_refl).
  apply (steps_snoc _ [Silent; Silent] _ Silent) with (2 := step_read_lock (mkLockState 4 5 [Reading 4 [5]; Idle]) 1 4 eq_refl eq_refl).
  apply (steps_snoc _ [Silent] _ Silent) with (2 := step_read (mkLockState 4 5 [Reading 4 []; Idle]) 0 4 [] eq_refl).
  apply (steps_snoc _ [] _ Silent) with (2 := step_read_lock (mkLockState 4 5 [Idle; Idle]) 0 4 eq_refl eq_refl).
  constructor.
Qed.

Lemma optimistic_lock_sound_witness :
  (forall t1 t2, modes lock_demo !! t1 = Some Writing -> modes lock_demo !! t2 = Some Writing -> t1 = t2) /\
  (isLocked (word lock_demo) = true <-> exists t, modes lock_demo !! t = Some Writing) /\
  (forall t seen, Checked 0 [7] = Checked t seen -> Forall (eq (datum lock_demo)) seen).
Proof.
  apply (optimistic_lock_sound 5 2 lock_demo_events lock_demo (Checked 0 [7]) (mkLockState 8 7 [Idle; Idle]) lock_demo_steps).
  - exact (step_validate lock_demo 0 8 [7] eq_refl eq_refl).
  - reflexivity.
Defined.
