(* ===== verification/BTreeNode.v ===== *)
(** * BTreeOLC: leaf and inner nodes (competitor/btreeolc/src/BTreeOLC_child_layout.h)

    Nodes have arrays of fixed size and a count.  The pairs of a new leaf are
    value-initialised; the keys and children of a new inner node are not, so their
    cells are [option]s and reading an empty one is undefined.  Memory moves are
    checked against the array.

    Every method is specified on the list of entries ([leaf_rep]) or of keys and
    children ([inner_rep]) that the arrays hold. *)

From S2P Require Import Prelude Words BTreeLock.
From Stdlib Require Import Sorted.
From stdpp Require Import list.
Local Open Scope Z_scope.
Local Open Scope cxx_scope.

(** ** Layout *)

Definition pageSize : Z := 512.
(** [sizeof(NodeBase)]: the lock word, the type and the count, padded. *)
Definition node_header : Z := 16.

(** 31 entries of two 8-byte words in a leaf, 31 keys and children in an inner node. *)
Definition leaf_maxEntries : Z := (pageSize - node_header) / (8 + 8).
Definition inner_maxEntries : Z := (pageSize - node_header) / (8 + 8).

Record BTreeLeaf := mkLeaf {
  leaf_version : Z;
  leaf_count : Z;
  leaf_data : list (Z * Z);
  next_leaf : option Z
}.

Record BTreeInner := mkInner {
  inner_version : Z;
  inner_count : Z;
  children : list (option Z);
  inner_keys : list (option Z)
}.

Definition new_leaf : BTreeLeaf := mkLeaf initial_version 0 (replicate (Z.to_nat leaf_maxEntries) (0, 0)) None.

Definition new_inner : BTreeInner :=
  mkInner initial_version 0 (replicate (Z.to_nat inner_maxEntries) None) (replicate (Z.to_nat inner_maxEntries) None).

Definition leaf_isFull (l : BTreeLeaf) : bool := leaf_count l =? leaf_maxEntries.
Definition inner_isFull (i : BTreeInner) : bool := inner_count i =? inner_maxEntries - 1.

(** ** Search *)

(** [lowerBound]: a [do .. while] loop, so it reads a key also when [count] is 0. *)
Definition lowerBound (key_at : Z -> option Z) (count k : Z) : option Z :=
  loop (S (Z.to_nat count)) (fun '(lower, upper) =>
    let mid := Z.quot (upper - lower) 2 + lower in
    middle_key ← key_at mid;
    if k <? middle_key then Some (if lower <? mid then inl (lower, mid) else inr lower)
    else if middle_key <? k then Some (if mid + 1 <? upper then inl (mid + 1, upper) else inr (mid + 1))
    else Some (inr mid)) (0, count).

Definition leaf_key (l : BTreeLeaf) (i : Z) : option Z := fst <$> (leaf_data l).[i].
Definition inner_key (i : BTreeInner) (j : Z) : option Z := mjoin (inner_keys i).[j].

Definition leaf_lowerBound (l : BTreeLeaf) (k : Z) : option Z := lowerBound (leaf_key l) (leaf_count l) k.
Definition inner_lowerBound (i : BTreeInner) (k : Z) : option Z := lowerBound (inner_key i) (inner_count i) k.

(** The branch-free variant; [base] is an offset into the keys. *)
Definition inner_lowerBoundBF (i : BTreeInner) (k : Z) : option Z :=
  base ← loop (S (Z.to_nat (inner_count i))) (fun '(base, n) =>
    if 1 <? n then
      let half := n / 2 in
      key ← inner_key i (base + half);
      Some (inl (if key <? k then base + half else base, n - half))
    else Some (inr base)) (0, inner_count i);
  key ← inner_key i base;
  Some ((if key <? k then 1 else 0) + base).

(** ** Leaves *)

(** [BTreeLeaf::insert]; [None] when the assertion fails. *)
Definition leaf_insert (l : BTreeLeaf) (k p : Z) : option (BTreeLeaf * bool) :=
  if leaf_count l <? leaf_maxEntries then
    if negb (leaf_count l =? 0) then
      pos ← leaf_lowerBound l k;
      found ← if pos <? leaf_count l then key ← leaf_key l pos; Some (key =? k) else Some false;
      if found : bool then Some (l, false)
      else
        data ← memmove (leaf_data l) (pos + 1) pos (leaf_count l - pos);
        data ← wr data pos (k, p);
        Some (mkLeaf (leaf_version l) (leaf_count l + 1) data (next_leaf l), true)
    else
      data ← wr (leaf_data l) 0 (k, p);
      Some (mkLeaf (leaf_version l) (leaf_count l + 1) data (next_leaf l), true)
  else None.

(** [BTreeLeaf::split]: [newp] is the address of the new leaf.  Returns the leaf, the
    new one and the separator. *)
Definition leaf_split (l : BTreeLeaf) (newp : Z) : option (BTreeLeaf * BTreeLeaf * Z) :=
  let new_count := leaf_count l - leaf_count l / 2 in
  let count := leaf_count l - new_count in
  data ← memcpy (leaf_data new_leaf) 0 (leaf_data l) count new_count;
  sep ← leaf_key l (count - 1);
  Some (mkLeaf (leaf_version l) count (leaf_data l) (Some newp),
        mkLeaf (leaf_version new_leaf) new_count data (next_leaf new_leaf), sep).

(** ** Inner nodes *)

(** [BTreeInner::insert]: the new child goes after the one at [pos]. *)
Definition inner_insert (i : BTreeInner) (k child : Z) : option BTreeInner :=
  if inner_count i <? inner_maxEntries - 1 then
    pos ← inner_lowerBound i k;
    keys ← memmove (inner_keys i) (pos + 1) pos (inner_count i - pos + 1);
    kids ← memmove (children i) (pos + 1) pos (inner_count i - pos + 1);
    keys ← wr keys pos (Some k);
    kids ← wr kids pos (Some child);
    a ← kids.[pos];
    b ← kids.[pos + 1];
    kids ← wr kids pos b;
    kids ← wr kids (pos + 1) a;
    Some (mkInner (inner_version i) (inner_count i + 1) kids keys)
  else None.

(** [BTreeInner::split]. *)
Definition inner_split (i : BTreeInner) : option (BTreeInner * BTreeInner * Z) :=
  let new_count := inner_count i - inner_count i / 2 in
  let count := inner_count i - new_count - 1 in
  sep ← inner_key i count;
  keys ← memcpy (inner_keys new_inner) 0 (inner_keys i) (count + 1) (new_count + 1);
  kids ← memcpy (children new_inner) 0 (children i) (count + 1) (new_count + 1);
  Some (mkInner (inner_version i) count (children i) (inner_keys i),
        mkInner (inner_version new_inner) new_count kids keys, sep).

(** [BTree::makeRoot]. *)
Definition make_root (k leftChild rightChild : Z) : option BTreeInner :=
  keys ← wr (inner_keys new_inner) 0 (Some k);
  kids ← wr (children new_inner) 0 (Some leftChild);
  kids ← wr kids 1 (Some rightChild);
  Some (mkInner (inner_version new_inner) 1 kids keys).

(** ** Search: specification *)

(** [p] is the number of keys below [k]; the others are not below. *)
Definition splits_at (ks : list Z) (k p : Z) : Prop :=
  0 <= p <= zlen ks /\
  (forall i x, rd ks i = Some x -> i < p -> x < k) /\ (forall i x, rd ks i = Some x -> p <= i -> k <= x).

Lemma sorted_lookup ks (i j : nat) x y : StronglySorted Z.lt ks -> ks !! i = Some x -> ks !! j = Some y -> (i < j)%nat -> x < y.
Proof.
  intros Hs. revert i j. induction Hs as [|z l Hs IH Hall]; intros i j Hi Hj Hlt; [done|].
  destruct j as [|j]; [lia|]. destruct i as [|i]; simpl in *; [|apply (IH i j); [done..|lia]].
  injection Hi as ->. rewrite List.Forall_forall in Hall. apply Hall, list_elem_of_In. by eapply list_elem_of_lookup_2.
Qed.

Lemma sorted_rd ks i j x y : StronglySorted Z.lt ks -> rd ks i = Some x -> rd ks j = Some y -> i < j -> x < y.
Proof.
  intros Hs Hi Hj Hlt. pose proof (rd_Some _ _ _ Hi). pose proof (rd_Some _ _ _ Hj). unfold rd in *.
  destruct (Z.leb_spec 0 i), (Z.leb_spec 0 j); try lia.
  eapply (sorted_lookup ks (Z.to_nat i) (Z.to_nat j)); [done..|lia].
Qed.

Lemma splits_at_unique ks k p q : splits_at ks k p -> splits_at ks k q -> p = q.
Proof.
  intros (Hp & Lp & Gp) (Hq & Lq & Gq). destruct (Z.lt_trichotomy p q) as [H|[H|H]]; [|done|].
  - destruct (rd_in ks p) as [x Hx]; [lia|]. specialize (Lq p x Hx H). specialize (Gp p x Hx ltac:(lia)). lia.
  - destruct (rd_in ks q) as [x Hx]; [lia|]. specialize (Lp q x Hx H). specialize (Gq q x Hx ltac:(lia)). lia.
Qed.

Section Search.
Context (ks : list Z) (key_at : Z -> option Z).
Context (Hkey : forall i x, rd ks i = Some x -> key_at i = Some x) (Hsorted : StronglySorted Z.lt ks).

Lemma lowerBound_spec k : ks <> [] -> exists p, lowerBound key_at (zlen ks) k = Some p /\ splits_at ks k p.
Proof.
  intros Hne. assert (0 < zlen ks) by (destruct ks; [done|unfold zlen; simpl; lia]).
  destruct (loop_spec (fun '(lower, upper) => 0 <= lower < upper /\ upper <= zlen ks /\
      (forall i x, rd ks i = Some x -> i < lower -> x < k) /\ (forall i x, rd ks i = Some x -> upper <= i -> k < x))
    (splits_at ks k) (fun '(lower, upper) => upper - lower)
    (fun '(lower, upper) =>
      let mid := Z.quot (upper - lower) 2 + lower in
      middle_key ← key_at mid;
      if k <? middle_key then Some (if lower <? mid then inl (lower, mid) else inr lower)
      else if middle_key <? k then Some (if mid + 1 <? upper then inl (mid + 1, upper) else inr (mid + 1))
      else Some (inr mid))) with (fuel := S (Z.to_nat (zlen ks))) (s := (0, zlen ks)) as (p & E & Hp).
  - intros [l u] (Hlu & Hu & HL & HG). cbv zeta.
    assert (Hmid : l <= Z.quot (u - l) 2 + l < u) by (Z.quot_rem_to_equations; lia).
    set (mid := Z.quot (u - l) 2 + l) in *. destruct (rd_in ks mid) as [y Hy]; [lia|].
    rewrite (Hkey _ _ Hy). cbn [mbind option_bind].
    pose proof (fun i x H => sorted_rd ks i mid x y Hsorted H Hy) as Hbelow.
    pose proof (fun i x H => sorted_rd ks mid i y x Hsorted Hy H) as Habove.
    assert (Hat : forall i x, rd ks i = Some x -> i = mid -> x = y) by (intros; subst; congruence).
    assert (Hcase : forall i, i < mid \/ i = mid \/ mid < i) by lia.
    destruct (Z.ltb_spec k y); [|destruct (Z.ltb_spec y k)].
    + assert (HG' : forall i x, rd ks i = Some x -> mid <= i -> k < x).
      { intros i x Hx Hi. destruct (Hcase i) as [?|[?|Hgt]]; [lia|by rewrite (Hat i x Hx)|]. specialize (Habove i x Hx Hgt). lia. }
      destruct (Z.ltb_spec l mid).
      * split; [|lia]. split; [lia|]. split; [lia|done].
      * split; [lia|]. split; [done|]. intros i x Hx Hi. assert (k < x) by (apply (HG' i); [done|lia]). lia.
    + assert (HL' : forall i x, rd ks i = Some x -> i < mid + 1 -> x < k).
      { intros i x Hx Hi. destruct (Hcase i) as [Hl|[?|?]]; [|by rewrite (Hat i x Hx)|lia]. specialize (Hbelow i x Hx Hl). lia. }
      destruct (Z.ltb_spec (mid + 1) u).
      * split; [|lia]. split; [lia|]. split; [lia|done].
      * split; [lia|]. split; [done|]. intros i x Hx Hi. assert (k < x) by (apply (HG i); [done|lia]). lia.
    + assert (y = k) as -> by lia. split; [lia|]. split; [intros i x Hx Hi; by apply (Hbelow i)|].
      intros i x Hx Hi. destruct (Hcase i) as [?|[?|Hgt]]; [lia|rewrite (Hat i x Hx); [lia|done]|]. specialize (Habove i x Hx Hgt). lia.
  - split; [lia|]. split; [lia|]. split; intros i x Hx%rd_Some; lia.
  - simpl. lia.
  - simpl. lia.
  - by exists p.
Qed.
End Search.

(** ** What the arrays hold *)

Record leaf_rep (l : BTreeLeaf) (es : list (Z * Z)) : Prop := {
  leaf_size : zlen (leaf_data l) = leaf_maxEntries;
  leaf_len : leaf_count l = zlen es;
  leaf_holds : exists r, leaf_data l = es ++ r
}.

Record inner_rep (i : BTreeInner) (ks cs : list Z) : Prop := {
  keys_size : zlen (inner_keys i) = inner_maxEntries;
  children_size : zlen (children i) = inner_maxEntries;
  inner_len : inner_count i = zlen ks;
  children_len : zlen cs = zlen ks + 1;
  keys_hold : exists r, inner_keys i = (Some <$> ks) ++ r;
  children_hold : exists r, children i = (Some <$> cs) ++ r
}.

Lemma rd_fmap {A B} (f : A -> B) l i : rd (f <$> l) i = f <$> rd l i.
Proof. unfold rd. destruct (0 <=? i); [apply list_lookup_fmap|done]. Qed.

Lemma rd_app_l {A} (a b : list A) i x : rd a i = Some x -> rd (a ++ b) i = Some x.
Proof. unfold rd. destruct (0 <=? i); [|done]. apply lookup_app_l_Some. Qed.

Lemma leaf_key_rep l es i x : leaf_rep l es -> rd es.*1 i = Some x -> leaf_key l i = Some x.
Proof.
  intros [_ _ [r Hr]] Hx. unfold leaf_key. rewrite rd_fmap in Hx. destruct (rd es i) as [e|] eqn:E; [|done].
  rewrite Hr, (rd_app_l _ _ _ _ E). done.
Qed.

Lemma inner_key_rep i ks cs j x : inner_rep i ks cs -> rd ks j = Some x -> inner_key i j = Some x.
Proof.
  intros [_ _ _ _ [r Hr] _] Hx. unfold inner_key. rewrite Hr.
  by rewrite (rd_app_l (Some <$> ks) r j (Some x)) by (by rewrite rd_fmap, Hx).
Qed.

Lemma leaf_lowerBound_spec l es k : leaf_rep l es -> StronglySorted Z.lt es.*1 -> es <> [] ->
  exists p, leaf_lowerBound l k = Some p /\ splits_at es.*1 k p.
Proof.
  intros Hr Hs Hne. unfold leaf_lowerBound. rewrite (leaf_len _ _ Hr), <-(zlen_fmap fst).
  apply (lowerBound_spec es.*1); [by intros i x; apply leaf_key_rep|done|by destruct es].
Qed.

Lemma inner_lowerBound_spec i ks cs k : inner_rep i ks cs -> StronglySorted Z.lt ks -> ks <> [] ->
  exists p, inner_lowerBound i k = Some p /\ splits_at ks k p.
Proof.
  intros Hr Hs Hne. unfold inner_lowerBound. rewrite (inner_len _ _ _ Hr).
  apply (lowerBound_spec ks); [by intros j x; apply (inner_key_rep i ks cs)|done..].
Qed.

(** The branch-free search of an inner node finds what the plain one finds. *)
Theorem lowerBoundBF_matches i ks cs k : inner_rep i ks cs -> StronglySorted Z.lt ks -> ks <> [] ->
  exists p, inner_lowerBound i k = Some p /\ inner_lowerBoundBF i k = Some p /\ splits_at ks k p.
Proof.
  intros Hr Hs Hne. destruct (inner_lowerBound_spec i ks cs k Hr Hs Hne) as (p & E & Hp). exists p. split; [done|]. split; [|done].
  assert (0 < zlen ks) by (destruct ks; [done|unfold zlen; simpl; lia]). unfold inner_lowerBoundBF.
  destruct Hp as (Hp & HL & HG). rewrite (inner_len _ _ _ Hr).
  destruct (loop_spec (fun '(base, n) => 0 <= base /\ 1 <= n /\ base + n <= zlen ks /\ base <= Z.max 0 (p - 1) /\ p <= base + n)
    (fun base => 0 <= base < zlen ks /\ base <= Z.max 0 (p - 1) /\ p <= base + 1) (fun '(_, n) => n)
    (fun '(base, n) => if 1 <? n then
        key ← inner_key i (base + n / 2);
        Some (inl (if key <? k then base + n / 2 else base, n - n / 2))
      else Some (inr base))) with (fuel := S (Z.to_nat (zlen ks))) (s := (0, zlen ks)) as (base & -> & Hb & Hb1 & Hb2).
  - intros [base n] (H0 & Hn & Hle & Hb1 & Hb2). destruct (Z.ltb_spec 1 n); [|lia].
    assert (Hh : 1 <= n / 2 < n) by (Z.div_mod_to_equations; lia). assert (2 * (n / 2) <= n) by (Z.div_mod_to_equations; lia).
    destruct (rd_in ks (base + n / 2)) as [y Hy]; [lia|]. rewrite (inner_key_rep _ _ _ _ _ Hr Hy). cbn [mbind option_bind].
    split; [|lia]. destruct (Z.ltb_spec y k) as [Hlt|Hge].
    + destruct (Z.lt_ge_cases (base + n / 2) p); [lia|]. specialize (HG _ _ Hy ltac:(lia)). lia.
    + destruct (Z.lt_ge_cases (base + n / 2) p); [|lia]. specialize (HL _ _ Hy ltac:(lia)). lia.
  - lia.
  - simpl. lia.
  - simpl. lia.
  - cbn [mbind option_bind]. destruct (rd_in ks base) as [y Hy]; [lia|]. rewrite (inner_key_rep _ _ _ _ _ Hr Hy). cbn [mbind option_bind].
    f_equal. destruct (Z.ltb_spec y k) as [Hlt|Hge], (Z.lt_ge_cases base p); try lia.
    + specialize (HG _ _ Hy ltac:(lia)). lia.
    + specialize (HL _ _ Hy ltac:(lia)). lia.
Qed.

(** The root after two splits, say: keys 10, 20 and 30. *)
Definition search_demo : BTreeInner :=
  mkInner initial_version 3 ([Some 1; Some 2; Some 3; Some 4] ++ replicate 27 None)
    ([Some 10; Some 20; Some 30] ++ replicate 28 None).

Lemma lowerBoundBF_matches_witness :
  exists p, inner_lowerBound search_demo 25 = Some p /\ inner_lowerBoundBF search_demo 25 = Some p /\ splits_at [10; 20; 30] 25 p.
Proof.
  apply (lowerBoundBF_matches search_demo [10; 20; 30] [1; 2; 3; 4] 25).
  - split; try (vm_compute; reflexivity); eexists; vm_compute; reflexivity.
  - repeat constructor.
  - done.
Defined.

(** ** Moving array elements *)

Lemma rd_mid {A} (a : list A) y l : rd (a ++ y :: l) (zlen a) = Some y.
Proof.
  unfold rd, zlen. destruct (Z.leb_spec 0 (Z.of_nat (length a))); [|lia]. rewrite Nat2Z.id.
  by rewrite lookup_app_r, Nat.sub_diag by lia.
Qed.

Lemma wr_mid {A} (a : list A) y l x : wr (a ++ y :: l) (zlen a) x = Some (a ++ x :: l).
Proof.
  unfold wr. rewrite zlen_app. assert (0 <= zlen a) by apply zlen_nonneg. assert (0 < zlen (y :: l)) by (unfold zlen; simpl; lia).
  destruct (Z.leb_spec 0 (zlen a)); [|lia]. destruct (Z.ltb_spec (zlen a) (zlen a + zlen (y :: l))); [|lia]. cbn [andb].
  f_equal. unfold zlen. by rewrite Nat2Z.id, insert_app_r_alt, Nat.sub_diag by lia.
Qed.

Lemma to_nat_zlen {A} (l : list A) : Z.to_nat (zlen l) = length l.
Proof. unfold zlen. by rewrite Nat2Z.id. Qed.

#[export] Hint Rewrite @zlen_cons @zlen_fmap : cxx.

(** Moving [b] up by one element and writing [x] into the hole. *)
Lemma shift_insert {A} (a b : list A) y r x :
  exists d, memmove (a ++ b ++ y :: r) (zlen a + 1) (zlen a) (zlen b) = Some d /\ wr d (zlen a) x = Some (a ++ x :: b ++ r).
Proof.
  pose proof (zlen_nonneg a). pose proof (zlen_nonneg b). pose proof (zlen_nonneg r).
  exists ((a ++ [default y (head (b ++ [y]))]) ++ b ++ r). split.
  - unfold memmove, memcpy. rewrite !zlen_app, zlen_cons.
    destruct (Z.leb_spec 0 (zlen a + 1)); [|lia]. destruct (Z.leb_spec 0 (zlen a)); [|lia]. destruct (Z.leb_spec 0 (zlen b)); [|lia].
    destruct (Z.leb_spec (zlen a + 1 + zlen b) (zlen a + (zlen b + (1 + zlen r)))); [|lia].
    destruct (Z.leb_spec (zlen a + zlen b) (zlen a + (zlen b + (1 + zlen r)))); [|lia]. cbn [andb]. f_equal. f_equal; [|f_equal].
    + replace (Z.to_nat (zlen a + 1)) with (length a + 1)%nat by (unfold zlen; lia). rewrite firstn_app_2. f_equal. by destruct b.
    + by rewrite !to_nat_zlen, drop_app_length, take_app_length.
    + replace (Z.to_nat (zlen a + 1 + zlen b)) with (length (a ++ b ++ [y])) by (unfold zlen; rewrite !length_app; simpl; lia).
      replace (a ++ b ++ y :: r) with ((a ++ b ++ [y]) ++ r) by (rewrite <-!app_assoc; done). apply drop_app_length.
  - rewrite <-app_assoc. simpl. apply wr_mid.
Qed.

(** The first [zlen b] cells of a fresh array overwritten with [b]. *)
Lemma memcpy_prefix {A} (d : list A) a b r : zlen b <= zlen d ->
  exists r', memcpy d 0 (a ++ b ++ r) (zlen a) (zlen b) = Some (b ++ r') /\ zlen (b ++ r') = zlen d.
Proof.
  intros Hle. pose proof (zlen_nonneg a). pose proof (zlen_nonneg b). pose proof (zlen_nonneg r).
  exists (drop (length b) d). split; [|unfold zlen in *; rewrite length_app, length_drop; lia].
  unfold memcpy. rewrite !zlen_app. change (0 <=? 0) with true.
  destruct (Z.leb_spec 0 (zlen a)); [|lia]. destruct (Z.leb_spec 0 (zlen b)); [|lia].
  destruct (Z.leb_spec (0 + zlen b) (zlen d)); [|lia]. destruct (Z.leb_spec (zlen a + zlen b) (zlen a + (zlen b + zlen r))); [|lia].
  cbn [andb]. f_equal. change (Z.to_nat 0) with 0%nat. rewrite take_0. simpl. f_equal.
  - by rewrite !to_nat_zlen, drop_app_length, take_app_length.
  - change (0 + zlen b) with (zlen b). by rewrite to_nat_zlen.
Qed.

(** A list cut at the position a search returned. *)
Lemma splits_at_cut ks k p : splits_at ks k p ->
  exists k1 k2, ks = k1 ++ k2 /\ zlen k1 = p /\ Forall (fun x => x < k) k1 /\ Forall (fun x => k <= x) k2.
Proof.
  intros (Hp & HL & HG). exists (take (Z.to_nat p) ks), (drop (Z.to_nat p) ks). split; [by rewrite take_drop|].
  split; [unfold zlen in *; rewrite length_take; lia|]. split; apply Forall_lookup; intros i x Hx.
  - assert (i < Z.to_nat p)%nat by (apply lookup_lt_Some in Hx; rewrite length_take in Hx; lia).
    rewrite lookup_take_lt in Hx by done. apply (HL (Z.of_nat i)); [|lia]. unfold rd.
    destruct (Z.leb_spec 0 (Z.of_nat i)); [|lia]. by rewrite Nat2Z.id.
  - rewrite lookup_drop in Hx. apply (HG (p + Z.of_nat i)); [|lia]. unfold rd.
    destruct (Z.leb_spec 0 (p + Z.of_nat i)); [|lia]. by replace (Z.to_nat (p + Z.of_nat i)) with (Z.to_nat p + i)%nat by lia.
Qed.

(** ** Leaves: specification *)

(** The test after the search tells whether the key is stored. *)
Lemma leaf_found l a b k : leaf_rep l (a ++ b) -> StronglySorted Z.lt (a ++ b).*1 ->
  Forall (fun x => x < k) a.*1 -> Forall (fun x => k <= x) b.*1 ->
  (if zlen a <? zlen (a ++ b) then key ← leaf_key l (zlen a); Some (key =? k) else Some false) =
    Some (bool_decide (k ∈ (a ++ b).*1)).
Proof.
  intros Hr Hs Hlow Hhigh.
  rewrite fmap_app. rewrite Forall_forall in Hlow, Hhigh. destruct b as [|[x w] b].
  - rewrite app_nil_r, Z.ltb_irrefl. f_equal. symmetry. apply bool_decide_eq_false. rewrite app_nil_r. intros Hx%Hlow. lia.
  - rewrite zlen_app, zlen_cons. pose proof (zlen_nonneg b). destruct (Z.ltb_spec (zlen a) (zlen a + (1 + zlen b))); [|lia].
    rewrite (leaf_key_rep l (a ++ (x, w) :: b) (zlen a) x Hr) by (rewrite fmap_app, <-(zlen_fmap fst a); apply rd_mid).
    cbn [mbind option_bind]. f_equal. destruct (Z.eqb_spec x k) as [->|Hne'].
    + symmetry. apply bool_decide_eq_true. apply elem_of_app. right. constructor.
    + symmetry. apply bool_decide_eq_false. intros [Hx|Hx]%elem_of_app; [specialize (Hlow k Hx); lia|].
      apply elem_of_cons in Hx as [Hx|Hx]; [by subst|]. rewrite fmap_app in Hs. apply sorted_app_inv in Hs as (_ & Hs & _).
      cbn [fmap list_fmap fst] in Hs. apply StronglySorted_inv in Hs as [_ Hall]. rewrite List.Forall_forall in Hall.
      assert (x < k) by (apply Hall, list_elem_of_In; exact Hx). assert (k <= x) by (apply Hhigh; constructor). lia.
Qed.

Lemma leaf_insert_spec l es k v : leaf_rep l es -> StronglySorted Z.lt es.*1 -> zlen es < leaf_maxEntries ->
  if decide (k ∈ es.*1) then leaf_insert l k v = Some (l, false)
  else exists l' a b, es = a ++ b /\ leaf_insert l k v = Some (l', true) /\ leaf_rep l' (a ++ (k, v) :: b) /\
    StronglySorted Z.lt (a ++ (k, v) :: b).*1 /\ next_leaf l' = next_leaf l /\ leaf_version l' = leaf_version l.
Proof.
  intros Hr Hs Hlen. pose proof Hr as [Hsz Hcnt [r Hd]]. unfold leaf_insert. rewrite Hcnt.
  destruct (Z.ltb_spec (zlen es) leaf_maxEntries); [|lia].
  assert (Hroom : exists y r', r = y :: r').
  { destruct r as [|y r']; [|by exists y, r']. rewrite Hd, app_nil_r in Hsz. lia. }
  destruct Hroom as (y & r' & ->). destruct (Z.eqb_spec (zlen es) 0) as [E0|Hne]; cbn [negb].
  - assert (es = []) as -> by (destruct es; [done|unfold zlen in E0; simpl in E0; lia]). simpl in Hd.
    rewrite decide_False by (simpl; by intros ?%elem_of_nil). rewrite Hd.
    eexists _, [], []. split; [done|]. split; [done|]. split; [|by repeat constructor].
    constructor; cbn; [rewrite <-Hsz, Hd; done|done|by exists r'].
  - destruct (leaf_lowerBound_spec l es k Hr Hs) as (p & -> & Hp); [by intros ->|]. cbn [mbind option_bind].
    destruct (splits_at_cut _ _ _ Hp) as (k1 & k2 & Ek & Hk1 & Hlow & Hhigh).
    apply fmap_app_inv in Ek as (a & b & -> & -> & ->). rewrite zlen_fmap in Hk1. subst p.
    rewrite (leaf_found l a b k Hr Hs Hlow Hhigh). cbn [mbind option_bind]. case_decide as Hin.
    + by rewrite bool_decide_true by done.
    + rewrite bool_decide_false by done. rewrite zlen_app, Hd.
      replace (zlen a + zlen b - zlen a) with (zlen b) by lia. rewrite <-app_assoc.
      destruct (shift_insert a b y r' (k, v)) as (d & -> & E2). cbn [mbind option_bind]. rewrite E2. cbn [mbind option_bind].
      eexists _, a, b. split; [done|]. split; [done|]. split; [|split; [|done]].
      * constructor; cbn.
        -- rewrite <-Hsz, Hd. rewrite !zlen_app, !zlen_cons, !zlen_app. lia.
        -- rewrite !zlen_app, zlen_cons. lia.
        -- exists r'. by rewrite <-app_assoc.
      * rewrite fmap_app in Hs, Hin |- *. cbn [fmap list_fmap fst]. apply sorted_insert; [done|done|].
        rewrite Forall_forall in Hhigh |- *. intros x Hx. specialize (Hhigh x Hx).
        assert (x <> k) by (intros ->; apply Hin, elem_of_app; by right). lia.
Qed.

Lemma leaf_split_spec l es newp : leaf_rep l es -> 2 <= zlen es ->
  exists l1 l2 a e b, es = (a ++ [e]) ++ b /\ leaf_split l newp = Some (l1, l2, e.1) /\
    leaf_rep l1 (a ++ [e]) /\ leaf_rep l2 b /\ zlen b = zlen es - zlen es / 2 /\
    next_leaf l1 = Some newp /\ next_leaf l2 = None /\ leaf_version l1 = leaf_version l /\ leaf_version l2 = initial_version.
Proof.
  intros Hr Hlen. pose proof Hr as [Hsz Hcnt [r Hd]]. unfold leaf_split. rewrite Hcnt.
  assert (Hh : 1 <= zlen es / 2 <= zlen es) by (Z.div_mod_to_equations; lia). set (h := zlen es / 2) in *.
  replace (zlen es - (zlen es - h)) with h by lia.
  destruct (rd_in es (h - 1)) as [e He]; [lia|]. assert (Hel : es !! Z.to_nat (h - 1) = Some e).
  { unfold rd in He. destruct (Z.leb_spec 0 (h - 1)); [done|lia]. }
  pose proof (take_drop_middle _ _ _ Hel) as Hcut. set (a := take (Z.to_nat (h - 1)) es) in *.
  set (b := drop (S (Z.to_nat (h - 1))) es) in *.
  assert (Ha : zlen a = h - 1) by (unfold a, zlen in *; rewrite length_take; lia).
  assert (Hb : zlen b = zlen es - h) by (unfold b, zlen in *; rewrite length_drop; lia).
  assert (Ees : es = (a ++ [e]) ++ b) by (rewrite <-app_assoc; simpl; by rewrite Hcut).
  assert (Hae : zlen (a ++ [e]) = h) by (rewrite zlen_app; change (zlen [e]) with 1; lia).
  destruct (memcpy_prefix (leaf_data new_leaf) (a ++ [e]) b r) as (r' & E & Hzl).
  { unfold new_leaf. cbn [leaf_data]. rewrite zlen_replicate. rewrite Hd, zlen_app in Hsz. pose proof (zlen_nonneg r).
    unfold leaf_maxEntries in *. lia. }
  replace (leaf_data l) with ((a ++ [e]) ++ b ++ r) by (rewrite Hd, Ees at 1; by rewrite <-!app_assoc).
  rewrite Hae, Hb in E. rewrite E. cbn [mbind option_bind].
  rewrite (leaf_key_rep l es (h - 1) e.1 Hr) by (by rewrite rd_fmap, He). cbn [mbind option_bind].
  eexists _, _, a, e, b. split; [done|]. split; [done|]. split; [|split; [|done]].
  - constructor; cbn; [|done|by eexists]. by rewrite app_assoc, <-Ees, <-Hd.
  - constructor; cbn; [by rewrite Hzl|done|by eexists].
Qed.

(** ** Inner nodes: specification *)

(** Swapping two neighbours, as [std::swap] does with four accesses. *)
Lemma swap_mid {A} (a : list A) x y l :
  rd (a ++ x :: y :: l) (zlen a) = Some x /\ rd (a ++ x :: y :: l) (zlen a + 1) = Some y /\
  wr (a ++ x :: y :: l) (zlen a) y = Some (a ++ y :: y :: l) /\
  wr (a ++ y :: y :: l) (zlen a + 1) x = Some (a ++ y :: x :: l).
Proof.
  assert (Hz : forall z : A, zlen (a ++ [z]) = zlen a + 1) by (intros z; by rewrite zlen_app).
  split; [apply rd_mid|]. split; [|split; [apply wr_mid|]].
  - pose proof (rd_mid (a ++ [x]) y l) as E. by rewrite <-app_assoc, Hz in E.
  - pose proof (wr_mid (a ++ [y]) y l x) as E. rewrite Hz in E. by rewrite <-!app_assoc in E.
Qed.

(** The parts of the arrays around the insertion point. *)
Lemma inner_cut i k1 k2 cs : inner_rep i (k1 ++ k2) cs -> zlen k1 + zlen k2 < inner_maxEntries - 1 ->
  exists c1 c c2 z y rk y' rc, cs = c1 ++ c :: c2 /\ zlen c1 = zlen k1 /\ zlen c2 = zlen k2 /\
    inner_keys i = (Some <$> k1) ++ ((Some <$> k2) ++ [z]) ++ y :: rk /\
    children i = (Some <$> c1) ++ (Some <$> (c :: c2)) ++ y' :: rc.
Proof.
  intros [Hks Hcs Hcnt Hcl [rk Hk] [rc Hc]] Hlen. rewrite zlen_app in Hcl.
  pose proof (zlen_nonneg k1). pose proof (zlen_nonneg k2).
  assert (Hrk : exists z y r, rk = z :: y :: r).
  { rewrite Hk, zlen_app, zlen_fmap, zlen_app in Hks. destruct rk as [|z [|y r]]; [| |by eauto];
      unfold zlen in Hks at 3; simpl in Hks; lia. }
  destruct Hrk as (z & y & rk' & ->).
  assert (Hrc : exists y r, rc = y :: r).
  { rewrite Hc, zlen_app, zlen_fmap in Hcs. destruct rc as [|y' r]; [|by eauto].
    unfold zlen in Hcs at 2. simpl in Hcs. change inner_maxEntries with 31 in *. lia. }
  destruct Hrc as (y' & rc' & ->).
  destruct (rd_in cs (zlen k1)) as [c Hcc]; [lia|]. unfold rd in Hcc. destruct (Z.leb_spec 0 (zlen k1)); [|lia].
  pose proof (take_drop_middle _ _ _ Hcc) as Hcut.
  eexists _, c, _, z, y, rk', y', rc'. split; [by symmetry|].
  split; [unfold zlen in *; rewrite length_take; lia|]. split; [unfold zlen in *; rewrite length_drop; lia|].
  split; [by rewrite Hk, fmap_app, <-!app_assoc|]. rewrite Hc, <-Hcut at 1. by rewrite fmap_app, <-!app_assoc.
Qed.

Lemma inner_insert_spec i ks cs k child : inner_rep i ks cs -> StronglySorted Z.lt ks -> ks <> [] ->
  zlen ks < inner_maxEntries - 1 ->
  exists i' k1 k2 c1 c c2, ks = k1 ++ k2 /\ cs = c1 ++ c :: c2 /\ zlen c1 = zlen k1 /\
    Forall (fun x => x < k) k1 /\ Forall (fun x => k <= x) k2 /\
    inner_insert i k child = Some i' /\ inner_rep i' (k1 ++ k :: k2) (c1 ++ c :: child :: c2) /\
    inner_version i' = inner_version i.
Proof.
  intros Hr Hs Hne Hlen. pose proof Hr as [Hks Hcs Hcnt Hcl _ _]. unfold inner_insert. rewrite Hcnt.
  destruct (Z.ltb_spec (zlen ks) (inner_maxEntries - 1)); [|lia].
  destruct (inner_lowerBound_spec i ks cs k Hr Hs Hne) as (p & -> & Hp). cbn [mbind option_bind].
  destruct (splits_at_cut _ _ _ Hp) as (k1 & k2 & -> & <- & Hlow & Hhigh). rewrite zlen_app in *.
  destruct (inner_cut i k1 k2 cs Hr Hlen) as (c1 & c & c2 & z & y & rk & y' & rc & -> & Hc1 & Hc2 & Ek & Ec).
  rewrite Ek, Ec in *.
  destruct (shift_insert (Some <$> k1) ((Some <$> k2) ++ [z]) y rk (Some k)) as (d1 & E1 & W1).
  destruct (shift_insert (Some <$> c1) (Some <$> (c :: c2)) y' rc (Some child)) as (d2 & E2 & W2).
  assert (L1 : zlen ((Some <$> k2) ++ [z]) = zlen k2 + 1) by (rewrite zlen_app, zlen_fmap; done).
  assert (L2 : zlen (Some <$> (c :: c2)) = zlen k2 + 1) by (rewrite zlen_fmap, zlen_cons; lia).
  assert (L3 : zlen (Some <$> c1) = zlen k1) by (rewrite zlen_fmap; lia).
  rewrite L1, zlen_fmap in E1. rewrite zlen_fmap in W1. rewrite L2, L3 in E2. rewrite L3 in W2.
  replace (zlen k1 + zlen k2 - zlen k1 + 1) with (zlen k2 + 1) by lia.
  rewrite E1, E2. cbn [mbind option_bind]. rewrite W1, W2. cbn [mbind option_bind fmap list_fmap app].
  destruct (swap_mid (Some <$> c1) (Some child) (Some c) ((Some <$> c2) ++ rc)) as (R1 & R2 & W3 & W4). rewrite L3 in R1, R2, W3, W4.
  rewrite R1, R2. cbn [mbind option_bind]. rewrite W3. cbn [mbind option_bind]. rewrite W4. cbn [mbind option_bind].
  eexists _, k1, k2, c1, c, c2. split; [done|]. split; [done|]. split; [done|]. split; [done|]. split; [done|].
  split; [done|]. split; [|done]. constructor; cbn.
  - rewrite <-Hks. autorewrite with cxx. lia.
  - rewrite <-Hcs. autorewrite with cxx. lia.
  - rewrite !zlen_app, zlen_cons. lia.
  - rewrite !zlen_app, !zlen_cons. lia.
  - exists (z :: rk). by rewrite fmap_app, <-!app_assoc.
  - exists rc. by rewrite fmap_app, <-!app_assoc.
Qed.

Lemma inner_split_spec i ks cs : inner_rep i ks cs -> 2 <= zlen ks < inner_maxEntries ->
  exists i1 i2 k1 s k2 c1 c2, ks = k1 ++ s :: k2 /\ cs = c1 ++ c2 /\ inner_split i = Some (i1, i2, s) /\
    inner_rep i1 k1 c1 /\ inner_rep i2 k2 c2 /\ zlen k1 = zlen ks / 2 - 1 /\ zlen k2 = zlen ks - zlen ks / 2 /\
    inner_version i1 = inner_version i /\ inner_version i2 = initial_version.
Proof.
  intros Hr Hlen. pose proof Hr as [Hks Hcs Hcnt Hcl [rk Hk] [rc Hc]]. unfold inner_split. rewrite Hcnt.
  assert (Hh : 1 <= zlen ks / 2 < zlen ks) by (Z.div_mod_to_equations; lia). set (h := zlen ks / 2) in *.
  replace (zlen ks - (zlen ks - h) - 1) with (h - 1) by lia.
  destruct (rd_in ks (h - 1)) as [s Hks1]; [lia|]. rewrite (inner_key_rep _ _ _ _ _ Hr Hks1). cbn [mbind option_bind].
  assert (Hel : ks !! Z.to_nat (h - 1) = Some s) by (unfold rd in Hks1; destruct (Z.leb_spec 0 (h - 1)); [done|lia]).
  pose proof (take_drop_middle _ _ _ Hel) as Hcut. set (k1 := take (Z.to_nat (h - 1)) ks) in *.
  set (k2 := drop (S (Z.to_nat (h - 1))) ks) in *.
  assert (Hk1 : zlen k1 = h - 1) by (unfold k1, zlen in *; rewrite length_take; lia).
  assert (Hk2 : zlen k2 = zlen ks - h) by (unfold k2, zlen in *; rewrite length_drop; lia).
  set (c1 := take (Z.to_nat h) cs). set (c2 := drop (Z.to_nat h) cs).
  assert (Hc1 : zlen c1 = h) by (unfold c1, zlen in *; rewrite length_take; lia).
  assert (Hc2 : zlen c2 = zlen ks + 1 - h) by (unfold c2, zlen in *; rewrite length_drop; lia).
  assert (Ecs : cs = c1 ++ c2) by (symmetry; apply take_drop).
  assert (Hrk : exists z r, rk = z :: r).
  { rewrite Hk, zlen_app, zlen_fmap in Hks. destruct rk as [|z r]; [|by eauto]. unfold zlen in Hks at 2. simpl in Hks. lia. }
  destruct Hrk as (z & rk' & ->).
  destruct (memcpy_prefix (inner_keys new_inner) (Some <$> (k1 ++ [s])) ((Some <$> k2) ++ [z]) rk') as (r1 & E1 & Z1).
  { rewrite zlen_app, zlen_fmap. change (zlen [z]) with 1. unfold new_inner. cbn [inner_keys]. rewrite zlen_replicate.
    change inner_maxEntries with 31 in *. lia. }
  destruct (memcpy_prefix (children new_inner) (Some <$> c1) (Some <$> c2) rc) as (r2 & E2 & Z2).
  { rewrite zlen_fmap. unfold new_inner. cbn [children]. rewrite zlen_replicate. change inner_maxEntries with 31 in *. lia. }
  rewrite !zlen_app, !zlen_fmap, !zlen_app in E1. change (zlen [s]) with 1 in E1. change (zlen [z]) with 1 in E1.
  rewrite !zlen_fmap, Hc1, Hc2 in E2. rewrite Hk1, Hk2 in E1.
  assert (Eks : inner_keys i = (Some <$> (k1 ++ [s])) ++ ((Some <$> k2) ++ [z]) ++ rk').
  { rewrite Hk, <-Hcut, !fmap_app, <-!app_assoc. done. }
  assert (Ech : children i = (Some <$> c1) ++ (Some <$> c2) ++ rc) by (by rewrite Hc, Ecs, fmap_app, <-app_assoc).
  rewrite Eks, E1. cbn [mbind option_bind]. rewrite Ech. replace (h - 1 + 1) with h by lia.
  replace (zlen ks - h + 1) with (zlen ks + 1 - h) by lia. rewrite E2. cbn [mbind option_bind].
  eexists _, _, k1, s, k2, c1, c2. split; [done|]. split; [done|]. split; [done|].
  split; [|split; [|repeat split; done || lia]].
  - constructor; cbn; [by rewrite <-Eks|by rewrite <-Ech|lia|lia| |].
    + exists (Some s :: ((Some <$> k2) ++ [z]) ++ rk'). by rewrite fmap_app, <-app_assoc.
    + by eexists.
  - constructor; cbn; [by rewrite Z1|by rewrite Z2|lia|lia|exists (z :: r1); by rewrite <-app_assoc|by eexists].
Qed.

Lemma make_root_spec k c1 c2 : exists i, make_root k c1 c2 = Some i /\ inner_rep i [k] [c1; c2] /\
  inner_version i = initial_version.
Proof.
  eexists. split; [reflexivity|]. split; [|done]. constructor; [done..| |]; by eexists.
Qed.

Lemma new_leaf_rep : leaf_rep new_leaf [].
Proof. constructor; [done..|by eexists]. Qed.
