(* ===== verification/BTreeOLC.v ===== *)
(** * BTreeOLC: the tree (competitor/btreeolc/src/BTreeOLC_child_layout.h, btreeolc.h)

    The tree is a heap of nodes and a root pointer; addresses are integers and a new
    node takes the next free one.  An operation makes attempts: an attempt walks down
    from the root, taking and checking versions on the way, and either finishes or
    asks for a restart.  A full node on the way is split and the attempt restarts.
    The model runs one operation at a time; [BTreeLock] covers the interleavings of
    the lock operations. *)

From S2P Require Import Prelude Words Floats BTreeLock BTreeNode.
From stdpp Require Import gmap.
Local Open Scope Z_scope.
Local Open Scope cxx_scope.

(** ** State *)

(** The type tag of a node is its constructor. *)
Inductive NodeBase := LeafNode (l : BTreeLeaf) | InnerNode (i : BTreeInner).

Definition version_of (nd : NodeBase) : Z :=
  match nd with
  | LeafNode l => leaf_version l
  | InnerNode i => inner_version i
  end.

Definition set_version (nd : NodeBase) (w : Z) : NodeBase :=
  match nd with
  | LeafNode l => LeafNode (mkLeaf w (leaf_count l) (leaf_data l) (next_leaf l))
  | InnerNode i => InnerNode (mkInner w (inner_count i) (children i) (inner_keys i))
  end.

Record BTree := mkBTree {
  root : Z;
  heap : gmap Z NodeBase;
  next_free : Z
}.

Definition store (t : BTree) (p : Z) (nd : NodeBase) : BTree := mkBTree (root t) (<[p := nd]> (heap t)) (next_free t).

Definition alloc (t : BTree) (nd : NodeBase) : BTree * Z :=
  (mkBTree (root t) (<[next_free t := nd]> (heap t)) (next_free t + 1), next_free t).

(** [BTree()] *)
Definition new_tree : BTree := mkBTree 0 {[ 0 := LeafNode new_leaf ]} 1.

(** [makeRoot] *)
Definition makeRoot (t : BTree) (k leftChild rightChild : Z) : option BTree :=
  inner ← make_root k leftChild rightChild;
  let '(t, p) := alloc t (InnerNode inner) in
  Some (mkBTree p (heap t) (next_free t)).

(** ** Locks of nodes *)

(** The new state and [needRestart]. *)
Definition upgrade (t : BTree) (p version : Z) : option (BTree * bool) :=
  nd ← heap t !! p;
  let '(w, _, needRestart) := upgradeToWriteLockOrRestart (version_of nd) version false in
  Some (store t p (set_version nd w), needRestart).

Definition unlock (t : BTree) (p : Z) : option BTree :=
  nd ← heap t !! p;
  Some (store t p (set_version nd (writeUnlock (version_of nd)))).

Definition read_check (t : BTree) (p version : Z) : option bool :=
  nd ← heap t !! p;
  Some (readUnlockOrRestart (version_of nd) version).

(** A parent pointer comes with the version taken when it was visited. *)
Definition check_parent (t : BTree) (parent : option (Z * Z)) : option bool :=
  match parent with
  | Some (p, version) => read_check t p version
  | None => Some false
  end.

Definition upgrade_parent (t : BTree) (parent : option (Z * Z)) : option (BTree * bool) :=
  match parent with
  | Some (p, version) => upgrade t p version
  | None => Some (t, false)
  end.

Definition unlock_parent (t : BTree) (parent : option (Z * Z)) : option BTree :=
  match parent with
  | Some (p, _) => unlock t p
  | None => Some t
  end.

(** ** Splitting a full node *)

Definition split_node (nd : NodeBase) (newp : Z) : option (NodeBase * NodeBase * Z) :=
  match nd with
  | LeafNode l => '(l1, l2, sep) ← leaf_split l newp; Some (LeafNode l1, LeafNode l2, sep)
  | InnerNode i => '(i1, i2, sep) ← inner_split i; Some (InnerNode i1, InnerNode i2, sep)
  end.

(** [parent->insert(sep, newNode)] or [makeRoot(sep, node, newNode)]. *)
Definition add_child (t : BTree) (parent : option (Z * Z)) (sep node newp : Z) : option BTree :=
  match parent with
  | Some (p, _) =>
      match heap t !! p with
      | Some (InnerNode i) => i ← inner_insert i sep newp; Some (store t p (InnerNode i))
      | _ => None
      end
  | None => makeRoot t sep node newp
  end.

(** The block "split if full" of [insert]; the caller restarts after it. *)
Definition split_full (t : BTree) (node versionNode : Z) (parent : option (Z * Z)) : option BTree :=
  '(t, needRestart) ← upgrade_parent t parent;
  if needRestart : bool then Some t
  else
    '(t, needRestart) ← upgrade t node versionNode;
    if needRestart : bool then unlock_parent t parent
    else if (match parent with Some _ => false | None => negb (node =? root t) end) then unlock t node
    else
      nd ← heap t !! node;
      '(nd1, nd2, sep) ← split_node nd (next_free t);
      let '(t, newp) := alloc (store t node nd1) nd2 in
      t ← add_child t parent sep node newp;
      t ← unlock t node;
      unlock_parent t parent.

(** ** Attempts *)

(** The start of an attempt: the root and its version; [None] asks for a restart. *)
Definition enter (t : BTree) : option (option (Z * Z)) :=
  let node := root t in
  nd ← heap t !! node;
  let '(versionNode, needRestart) := readLockOrRestart (version_of nd) false in
  Some (if needRestart || negb (node =? root t) then None else Some (node, versionNode)).

(** One round of the walk down, from an inner node to its child. *)
Definition step_down (t : BTree) (k : Z) (inner : BTreeInner) (node versionNode : Z) (parent : option (Z * Z))
    : option (option (Z * Z)) :=
  needRestart ← check_parent t parent;
  if needRestart : bool then Some None
  else
    pos ← inner_lowerBound inner k;
    child ← mjoin (children inner).[pos];
    needRestart ← read_check t node versionNode;
    if needRestart : bool then Some None
    else
      cnd ← heap t !! child;
      let '(versionChild, needRestart) := readLockOrRestart (version_of cnd) false in
      Some (if needRestart : bool then None else Some (child, versionChild)).

(** A walk takes at most as many rounds as there are nodes. *)
Definition walk {R} (t : BTree) (restart : R) (body : Z -> Z -> option (Z * Z) -> option ((Z * Z * option (Z * Z)) + R))
    : option R :=
  start ← enter t;
  match start with
  | None => Some restart
  | Some (node, versionNode) =>
      loop (S (Z.to_nat (next_free t))) (fun '(node, versionNode, parent) => body node versionNode parent)
        (node, versionNode, None)
  end.

(** The end of an attempt to insert, at a leaf with room. *)
Definition insert_into_leaf (t : BTree) (k v node versionNode : Z) (parent : option (Z * Z))
    : option (BTree * option bool) :=
  '(t, needRestart) ← upgrade t node versionNode;
  if needRestart : bool then Some (t, None)
  else
    needRestart ← check_parent t parent;
    if needRestart : bool then t ← unlock t node; Some (t, None)
    else
      match heap t !! node with
      | Some (LeafNode leaf) =>
          '(leaf, ret) ← leaf_insert leaf k v;
          t ← unlock (store t node (LeafNode leaf)) node;
          Some (t, Some ret)
      | _ => None
      end.

(** The result of an attempt is [None] when it restarts. *)
Definition insert_attempt (t : BTree) (k v : Z) : option (BTree * option bool) :=
  walk t (t, None) (fun node versionNode parent =>
    nd ← heap t !! node;
    match nd with
    | InnerNode inner =>
        if inner_isFull inner then t ← split_full t node versionNode parent; Some (inr (t, None))
        else
          next ← step_down t k inner node versionNode parent;
          Some (match next with
                | Some (child, versionChild) => inl (child, versionChild, Some (node, versionNode))
                | None => inr (t, None)
                end)
    | LeafNode leaf =>
        if leaf_isFull leaf then t ← split_full t node versionNode parent; Some (inr (t, None))
        else r ← insert_into_leaf t k v node versionNode parent; Some (inr r)
    end).

(** Each restart splits a node, so 16 attempts for every node are enough. *)
Definition insert (t : BTree) (k v : Z) : option (BTree * bool) :=
  loop (S (16 * size (heap t))) (fun t =>
    '(t, r) ← insert_attempt t k v;
    Some (match r with
          | Some ret => inr (t, ret)
          | None => inl t
          end)) t.

(** The walk to a leaf that [lookup] and [scan] share. *)
Definition walk_to_leaf (t : BTree) (k : Z) : option (option (Z * Z * option (Z * Z))) :=
  walk t None (fun node versionNode parent =>
    nd ← heap t !! node;
    match nd with
    | InnerNode inner =>
        next ← step_down t k inner node versionNode parent;
        Some (match next with
              | Some (child, versionChild) => inl (child, versionChild, Some (node, versionNode))
              | None => inr None
              end)
    | LeafNode _ => Some (inr (Some (node, versionNode, parent)))
    end).

(** [success] is not initialised: when the key is not found the attempt returns an
    indeterminate value, which is undefined. *)
Definition lookup_attempt (t : BTree) (k : Z) : option (option Z) :=
  found ← walk_to_leaf t k;
  match found with
  | None => Some None
  | Some (node, versionNode, parent) =>
      match heap t !! node with
      | Some (LeafNode leaf) =>
          pos ← leaf_lowerBound leaf k;
          result ← (if pos <? leaf_count leaf then
                      e ← (leaf_data leaf).[pos]; Some (if e.1 =? k then Some e.2 else None)
                    else Some None);
          needRestart ← check_parent t parent;
          if needRestart : bool then Some None
          else
            needRestart ← read_check t node versionNode;
            if needRestart : bool then Some None
            else match result with Some v => Some (Some v) | None => None end
      | _ => None
      end
  end.

(** Without other threads a failed attempt would fail again: one attempt decides. *)
Definition lookup (t : BTree) (k : Z) : option Z :=
  loop 1 (fun _ => r ← lookup_attempt t k; Some (match r with Some v => inr v | None => inl tt end)) tt.

(** [for (i = pos; i < leaf->count; i++)] of [scan]. *)
Definition scan_leaf (leaf : BTreeLeaf) (pos range : Z) (output : list (Z * Z)) : option (list (Z * Z)) :=
  loop (S (Z.to_nat (leaf_count leaf))) (fun '(i, output) =>
    if i <? leaf_count leaf then
      if zlen output =? range then Some (inr output)
      else e ← (leaf_data leaf).[i]; Some (inl (i + 1, output ++ [e]))
    else Some (inr output)) (pos, output).

Definition scan_leaves (t : BTree) (k range node : Z) : option (option (list (Z * Z))) :=
  loop (S (Z.to_nat (next_free t))) (fun '(node, output) =>
    match node with
    | Some p =>
        if zlen output <? range then
          match heap t !! p with
          | Some (LeafNode leaf) =>
              let '(versionNode, needRestart) := readLockOrRestart (leaf_version leaf) false in
              if needRestart : bool then Some (inr None)
              else
                pos ← (if zlen output =? 0 then leaf_lowerBound leaf k else Some 0);
                output ← scan_leaf leaf pos range output;
                needRestart ← read_check t p versionNode;
                Some (if needRestart : bool then inr None else inl (next_leaf leaf, output))
          | _ => None
          end
        else Some (inr (Some output))
    | None => Some (inr (Some output))
    end) (Some node, []).

Definition scan_attempt (t : BTree) (k range : Z) : option (option (list (Z * Z))) :=
  found ← walk_to_leaf t k;
  match found with
  | None => Some None
  | Some (node, _, parent) =>
      needRestart ← check_parent t parent;
      if needRestart : bool then Some None else scan_leaves t k range node
  end.

Definition scan (t : BTree) (k range : Z) : option (list (Z * Z)) :=
  loop 1 (fun _ => r ← scan_attempt t k range; Some (match r with Some l => inr l | None => inl tt end)) tt.

(** ** The adapter: [bulk_load] inserts one key after the other *)

(** The index is an [int]: it must not overflow. *)
Definition bulk_load (kvs : list (Z * Z)) : option BTree :=
  if zlen kvs <=? int_max then
    foldl (fun t kv => t ← t; '(t, _) ← insert t kv.1 kv.2; Some t) (Some new_tree) kvs
  else None.
