(* ===== verification/BTreeInv.v ===== *)
(** * BTreeOLC: the invariant of the tree and its operations

    Every node is assigned a level and an interval [(low, high]] of keys.  The
    intervals of different nodes of a level are disjoint, those of the children of a
    node follow each other and fill the node's interval, and the keys of a leaf lie in
    its interval.  The invariant speaks of the nodes one by one, without a tree
    structure: a split changes the intervals of one node and adds one.

    From it: [insert] terminates, inserts or reports the key, and keeps the
    invariant; [lookup] finds stored keys; [scan] returns the entries of the chain of
    leaves that starts at the leaf of the key, the first ones of the map from there. *)

From S2P Require Import Prelude Words Index BTreeLock BTreeNode BTreeOLC.
From Stdlib Require Import Sorted.
From stdpp Require Import gmap list.
Local Open Scope Z_scope.
Local Open Scope cxx_scope.

(** ** Intervals *)

Record Info := mkInfo {
  level : nat;
  low : Z;
  high : Z
}.

(** The children with the upper ends of their intervals, from [lo] to [hi]. *)
Fixpoint kids_ok (G : gmap Z Info) (l : nat) (lo : Z) (kids : list (Z * Z)) (hi : Z) : Prop :=
  match kids with
  | [] => lo = hi
  | (c, u) :: kids => G !! c = Some (mkInfo l lo u) /\ kids_ok G l u kids hi
  end.

Definition leaf_entries (l : BTreeLeaf) : list (Z * Z) := take (Z.to_nat (leaf_count l)) (leaf_data l).

(** The next leaf, if any, is the one on the right. *)
Definition next_ok (G : gmap Z Info) (hi : Z) (next : option Z) : Prop :=
  match next with
  | Some q => exists i, G !! q = Some i /\ level i = 0%nat /\ low i = hi
  | None => True
  end.

(** Only the last leaf may lack the greatest key of its interval: the others end at a
    separator, which is a stored key. *)
Definition leaf_ok (G : gmap Z Info) (lo hi : Z) (l : BTreeLeaf) : Prop :=
  exists es, leaf_rep l es /\ StronglySorted Z.lt es.*1 /\ Forall (fun k => lo < k <= hi) es.*1 /\
    (next_ok G hi (next_leaf l) /\ (hi = u64_max \/ hi ∈ es.*1)).

Definition inner_ok (G : gmap Z Info) (l : nat) (lo hi : Z) (i : BTreeInner) : Prop :=
  exists ks kids, inner_rep i ks kids.*1 /\ kids.*2 = ks ++ [hi] /\ ks <> [] /\ zlen ks < inner_maxEntries /\
    kids_ok G l lo kids hi.

Definition tnode_ok (G : gmap Z Info) (i : Info) (nd : NodeBase) : Prop :=
  unlocked (version_of nd) /\
  match nd with
  | LeafNode l => level i = 0%nat /\ leaf_ok G (low i) (high i) l
  | InnerNode n => exists l, level i = S l /\ inner_ok G l (low i) (high i) n
  end.

(** What the assignment of intervals must satisfy; [L] is the level of the root. *)
Record info_ok (r : Z) (G : gmap Z Info) (L : nat) : Prop := {
  info_root : G !! r = Some (mkInfo L (-1) u64_max);
  info_interval p i : G !! p = Some i -> -1 <= low i /\ low i < high i /\ high i <= u64_max /\ (level i <= L)%nat;
  info_disjoint p q i j : p <> q -> G !! p = Some i -> G !! q = Some j -> level i = level j ->
    high i <= low j \/ high j <= low i
}.

(** The tree is well formed and stores the map [m]. *)
Record tree_ok (t : BTree) (G : gmap Z Info) (L : nat) (m : gmap Z Z) : Prop := {
  tree_info : info_ok (root t) G L;
  tree_dom p : is_Some (heap t !! p) <-> is_Some (G !! p);
  tree_nodes p nd i : heap t !! p = Some nd -> G !! p = Some i -> tnode_ok G i nd;
  tree_fresh p : is_Some (heap t !! p) -> 0 <= p < next_free t;
  tree_next p l q : heap t !! p = Some (LeafNode l) -> next_leaf l = Some q -> p < q;
  tree_height : Z.of_nat L < next_free t;
  tree_map k v : m !! k = Some v <-> exists p l, heap t !! p = Some (LeafNode l) /\ (k, v) ∈ leaf_entries l
}.

Lemma leaf_entries_rep l es : leaf_rep l es -> leaf_entries l = es.
Proof. intros [_ Hc [r Hr]]. unfold leaf_entries. by rewrite Hc, Hr, to_nat_zlen, take_app_length. Qed.

(** The entries of a leaf and of those that follow it. *)
Fixpoint chain (t : BTree) (fuel : nat) (node : option Z) : list (Z * Z) :=
  match fuel, node with
  | S fuel, Some p =>
      match heap t !! p with
      | Some (LeafNode l) => leaf_entries l ++ chain t fuel (next_leaf l)
      | _ => []
      end
  | _, _ => []
  end.

Definition chain_of (t : BTree) (node : option Z) : list (Z * Z) := chain t (S (Z.to_nat (next_free t))) node.

(** ** Children *)

Lemma kids_ok_app G l a b : forall lo hi, kids_ok G l lo (a ++ b) hi <-> exists mid, kids_ok G l lo a mid /\ kids_ok G l mid b hi.
Proof.
  induction a as [|[c u] a IH]; intros lo hi; simpl.
  - split; [intros H; by exists lo|]. by intros (mid & -> & H).
  - rewrite IH. split.
    + intros (Hc & mid & Ha & Hb). by exists mid.
    + intros (mid & (Hc & Ha) & Hb). split; [done|]. by exists mid.
Qed.

Lemma kids_ok_ext G G' l kids : forall lo hi, (forall c, c ∈ kids.*1 -> G' !! c = G !! c) ->
  kids_ok G l lo kids hi -> kids_ok G' l lo kids hi.
Proof.
  induction kids as [|[c u] kids IH]; intros lo hi Hext; simpl; [done|]. intros [Hc Hk]. split.
  - rewrite Hext; [done|]. constructor.
  - apply IH; [|done]. intros c' Hc'. apply Hext. by constructor.
Qed.

Section Intervals.
Context (r : Z) (G : gmap Z Info) (L : nat) (Hi : info_ok r G L).

Lemma kids_range l kids : forall lo hi, kids_ok G l lo kids hi ->
  lo <= hi /\ forall c, c ∈ kids.*1 -> exists i, G !! c = Some i /\ level i = l /\ lo <= low i /\ high i <= hi.
Proof.
  induction kids as [|[c u] kids IH]; intros lo hi; simpl.
  - intros ->. split; [lia|]. intros c Hc. by apply elem_of_nil in Hc.
  - intros [Hc Hk]. destruct (info_interval _ _ _ Hi _ _ Hc) as (_ & Hlt & _). simpl in Hlt.
    destruct (IH u hi Hk) as [Hle Hin]. split; [lia|]. intros c' [->|Hc']%elem_of_cons.
    + eexists. split; [done|]. simpl. repeat split; lia.
    + destruct (Hin c' Hc') as (i & Ei & El & Hl & Hh). exists i. repeat split; [done|done|lia|lia].
Qed.

(** The upper ends increase. *)
Lemma kids_sorted l kids : forall lo hi, kids_ok G l lo kids hi -> StronglySorted Z.lt (lo :: kids.*2).
Proof.
  induction kids as [|[c u] kids IH]; intros lo hi; simpl; [by repeat constructor|]. intros [Hc Hk].
  destruct (info_interval _ _ _ Hi _ _ Hc) as (_ & Hlt & _). simpl in Hlt. pose proof (IH u hi Hk) as Hs.
  constructor; [done|]. apply StronglySorted_inv in Hs as [_ Hall]. constructor; [lia|].
  rewrite List.Forall_forall in *. intros x Hx. specialize (Hall x Hx). lia.
Qed.

(** Two nodes of a level whose intervals share a key are the same. *)
Lemma same_node p q i j x : G !! p = Some i -> G !! q = Some j -> level i = level j ->
  low i < x <= high i -> low j < x <= high j -> p = q.
Proof.
  intros Hp Hq Hl Hx Hy. destruct (decide (p = q)) as [|Hne]; [done|].
  destruct (info_disjoint _ _ _ Hi p q i j Hne Hp Hq Hl); lia.
Qed.

(** The child a search for [x] selects is the one whose interval contains [x]. *)
Lemma kids_locate l kids ks k1 k2 c1 c c2 lo hi x :
  kids_ok G l lo kids hi -> kids.*2 = ks ++ [hi] -> kids.*1 = c1 ++ c :: c2 -> ks = k1 ++ k2 -> zlen c1 = zlen k1 ->
  Forall (fun y => y < x) k1 -> Forall (fun y => x <= y) k2 -> lo < x <= hi ->
  exists ka lo' u kb, kids = ka ++ (c, u) :: kb /\ ka.*1 = c1 /\ ka.*2 = k1 /\ kb.*1 = c2 /\ u :: kb.*2 = k2 ++ [hi] /\
    kids_ok G l lo ka lo' /\ G !! c = Some (mkInfo l lo' u) /\ kids_ok G l u kb hi /\ lo' < x <= u.
Proof.
  intros Hk H2 H1 -> Hlen Hlow Hhigh Hx. apply fmap_app_inv in H1 as (ka & kb' & E1 & E2 & ->).
  destruct kb' as [|[c' u] kb]; [done|]. simpl in E2. injection E2 as E2 E3. subst c'.
  apply kids_ok_app in Hk as (lo' & Ha & Hc & Hb). fold kids_ok in Hb. rewrite fmap_app in H2. cbn [fmap list_fmap snd] in H2.
  rewrite <-app_assoc in H2. apply app_inj_1 in H2 as [Hk1 Hk2].
  2:{ rewrite E1 in Hlen. unfold zlen in Hlen. rewrite !length_fmap in *. lia. }
  exists ka, lo', u, kb. do 8 (split; [done|]). rewrite Forall_forall in Hlow, Hhigh. split.
  - destruct ka as [|[c' w] ka' _] using rev_ind; [simpl in Ha; lia|].
    apply kids_ok_app in Ha as (mid & _ & _ & Ha). simpl in Ha. subst w. apply Hlow. rewrite <-Hk1, fmap_app.
    apply elem_of_app. right. constructor.
  - assert (Hu : u ∈ k2 ++ [hi]) by (change (u ∈ k2 ++ [hi]); rewrite <-Hk2; constructor).
    apply elem_of_app in Hu as [Hu|Hu%list_elem_of_singleton]; [by apply Hhigh|]. rewrite Hu. lia.
Qed.
End Intervals.

(** ** Walking down *)

Section Walks.
Context (t : BTree) (G : gmap Z Info) (L : nat) (m : gmap Z Z) (T : tree_ok t G L m).
Context (k : Z) (Hk : 0 <= k <= u64_max).

Lemma node_info p nd : heap t !! p = Some nd -> exists i, G !! p = Some i /\ tnode_ok G i nd.
Proof.
  intros Hp. destruct (proj1 (tree_dom _ _ _ _ T p)) as [i Hi]; [by eexists|]. exists i. split; [done|].
  by eapply (tree_nodes _ _ _ _ T).
Qed.

Lemma info_node p i : G !! p = Some i -> exists nd, heap t !! p = Some nd /\ tnode_ok G i nd.
Proof.
  intros Hp. destruct (proj2 (tree_dom _ _ _ _ T p)) as [nd Hn]; [by eexists|]. exists nd. split; [done|].
  by eapply (tree_nodes _ _ _ _ T).
Qed.

(** A parent on the way: an inner node above [node], not full when [strict]. *)
Definition parent_ok (strict : bool) (node : Z) (i : Info) (parent : option (Z * Z)) : Prop :=
  match parent with
  | None => node = root t
  | Some (p, version) => exists pn pi, heap t !! p = Some (InnerNode pn) /\ G !! p = Some pi /\
      version = inner_version pn /\ level pi = S (level i) /\ low pi <= low i /\ high i <= high pi /\
      (strict = true -> inner_isFull pn = false)
  end.

(** The walk has reached a node whose interval contains the key. *)
Definition visiting (strict : bool) (node versionNode : Z) (parent : option (Z * Z)) : Prop :=
  exists nd i, heap t !! node = Some nd /\ G !! node = Some i /\ versionNode = version_of nd /\
    low i < k <= high i /\ parent_ok strict node i parent.

Lemma check_parent_ok strict node i parent : parent_ok strict node i parent -> check_parent t parent = Some false.
Proof.
  destruct parent as [[p v]|]; [|done]. intros (pn & pi & Hp & _ & -> & _). unfold check_parent, read_check. rewrite Hp.
  cbn [mbind option_bind version_of]. by rewrite readUnlock_same.
Qed.

Lemma read_check_ok node nd : heap t !! node = Some nd -> read_check t node (version_of nd) = Some false.
Proof. intros Hn. unfold read_check. rewrite Hn. cbn [mbind option_bind]. by rewrite readUnlock_same. Qed.

Lemma enter_ok strict : exists nd, enter t = Some (Some (root t, version_of nd)) /\ visiting strict (root t) (version_of nd) None.
Proof.
  destruct (info_node _ _ (info_root _ _ _ (tree_info _ _ _ _ T))) as (nd & Hn & Hok). exists nd. unfold enter. rewrite Hn.
  cbn [mbind option_bind]. rewrite (readLock_unlocked _ (proj1 Hok)), Z.eqb_refl. split; [done|].
  exists nd, (mkInfo L (-1) u64_max). split; [done|]. split; [apply (info_root _ _ _ (tree_info _ _ _ _ T))|].
  split; [done|]. split; [simpl; lia|done].
Qed.

(** The child a search selects. *)
Lemma select_child inner i : tnode_ok G i (InnerNode inner) -> low i < k <= high i ->
  exists pos child ci cnd, inner_lowerBound inner k = Some pos /\ mjoin (children inner).[pos] = Some child /\
    heap t !! child = Some cnd /\ G !! child = Some ci /\ tnode_ok G ci cnd /\ low ci < k <= high ci /\
    level i = S (level ci) /\ low i <= low ci /\ high ci <= high i.
Proof.
  intros [Hu (l & Hl & ks & kids & Hr & H2 & Hne & Hlen & Hkids)] Hik.
  pose proof (tree_info _ _ _ _ T) as Hi.
  assert (Hs : StronglySorted Z.lt ks).
  { pose proof (kids_sorted _ _ _ Hi _ _ _ _ Hkids) as Hs. rewrite H2 in Hs. apply StronglySorted_inv in Hs as [Hs _].
    by apply sorted_app_inv in Hs as (Hs & _). }
  destruct (inner_lowerBound_spec inner ks _ k Hr Hs Hne) as (pos & E & Hp). exists pos.
  destruct (splits_at_cut _ _ _ Hp) as (k1 & k2 & Ek & Hk1 & Hlow & Hhigh).
  assert (Hpr : 0 <= pos <= zlen ks) by apply Hp. pose proof (children_len _ _ _ Hr) as Hcn.
  destruct (rd_in kids.*1 pos) as [child Hc]; [lia|].
  assert (Hcl : kids.*1 !! Z.to_nat pos = Some child) by (unfold rd in Hc; destruct (Z.leb_spec 0 pos); [done|lia]).
  pose proof (take_drop_middle _ _ _ Hcl) as Hcut.
  destruct (kids_locate G l kids ks k1 k2 _ child _ _ _ k Hkids H2 (eq_sym Hcut) Ek) as
    (ka & lo' & u & kb & Ekids & _ & _ & _ & _ & Ha & Hci & Hb & Hin); [|done..|].
  { unfold zlen in *. rewrite length_take. lia. }
  destruct (info_node _ _ Hci) as (cnd & Hcnd & Hcok).
  destruct (kids_range _ _ _ Hi _ _ _ _ Ha) as [Hlo _]. destruct (kids_range _ _ _ Hi _ _ _ _ Hb) as [Hhi _].
  exists child, (mkInfo l lo' u), cnd. split; [done|]. split; [|split; [done|split; [done|split; [done|split; [done|done]]]]].
  destruct (children_hold _ _ _ Hr) as [rest ->]. by rewrite (rd_app_l (Some <$> kids.*1) rest pos (Some child)) by (by rewrite rd_fmap, Hc).
Qed.

Lemma step_down_ok strict inner node parent i : heap t !! node = Some (InnerNode inner) -> G !! node = Some i ->
  low i < k <= high i -> parent_ok strict node i parent -> (strict = true -> inner_isFull inner = false) ->
  exists child ci v, step_down t k inner node (inner_version inner) parent = Some (Some (child, v)) /\
    visiting strict child v (Some (node, inner_version inner)) /\ G !! child = Some ci /\ level i = S (level ci).
Proof.
  intros Hn HG Hik Hpar Hfull. unfold step_down. rewrite (check_parent_ok _ _ _ _ Hpar). cbn [mbind option_bind].
  pose proof (tree_nodes _ _ _ _ T _ _ _ Hn HG) as Hok.
  destruct (select_child inner i Hok Hik) as (pos & child & ci & cnd & -> & Hc & Hcn & Hci & Hcok & Hin & Hl & Hlo & Hhi).
  cbn [mbind option_bind]. rewrite Hc. cbn [mbind option_bind].
  rewrite (read_check_ok node (InnerNode inner) Hn : read_check t node (inner_version inner) = Some false). cbn [mbind option_bind].
  rewrite Hcn. cbn [mbind option_bind]. rewrite (readLock_unlocked _ (proj1 Hcok)). exists child, ci, (version_of cnd).
  split; [done|]. split; [|done]. exists cnd, ci. do 4 (split; [done|]). exists inner, i. by repeat split.
Qed.

(** The rule for walks: a round goes one level down or ends with a good result. *)
Lemma walk_spec {R} strict (restart : R) body (Q : R -> Prop) :
  (forall node v parent i, visiting strict node v parent -> G !! node = Some i ->
     match body node v parent with
     | Some (inl (c, vc, pc)) => visiting strict c vc pc /\ exists ci, G !! c = Some ci /\ level i = S (level ci)
     | Some (inr r) => Q r
     | None => False
     end) ->
  exists r, walk t restart body = Some r /\ Q r.
Proof.
  intros Hbody. unfold walk. destruct (enter_ok strict) as (nd & -> & Hv). cbn [mbind option_bind].
  pose proof (info_root _ _ _ (tree_info _ _ _ _ T)) as Hroot. pose proof (tree_height _ _ _ _ T).
  apply (loop_spec (fun '(node, v, parent) => visiting strict node v parent)
    Q (fun '(node, _, _) => match G !! node with Some i => Z.of_nat (level i) | None => 0 end)).
  - intros [[node v] parent] Hvis. pose proof Hvis as (nd' & i & _ & HG & _). specialize (Hbody node v parent i Hvis HG).
    destruct (body node v parent) as [[[[c vc] pc]|r]|]; [|done|done]. destruct Hbody as (Hc & ci & Hci & Hl).
    split; [done|]. rewrite HG, Hci. lia.
  - done.
  - rewrite Hroot. simpl. lia.
  - rewrite Hroot. simpl. lia.
Qed.

(** The leaf whose interval contains the key decides about the key. *)
Lemma leaf_decides p l i : heap t !! p = Some (LeafNode l) -> G !! p = Some i -> low i < k <= high i ->
  forall v, m !! k = Some v <-> (k, v) ∈ leaf_entries l.
Proof.
  intros Hp HG Hik v. rewrite (tree_map _ _ _ _ T). split; [|by intros Hin; exists p, l].
  intros (q & l' & Hq & Hin). destruct (node_info _ _ Hq) as (j & Hj & _ & Hl' & es & Hr & _ & Hall & _).
  destruct (tree_nodes _ _ _ _ T _ _ _ Hp HG) as (_ & Hl & _). rewrite (leaf_entries_rep _ _ Hr) in Hin.
  rewrite List.Forall_forall in Hall. assert (low j < k <= high j).
  { apply Hall, list_elem_of_In, list_elem_of_fmap. by exists (k, v). }
  assert (q = p) as -> by (apply (same_node _ _ _ (tree_info _ _ _ _ T) q p j i k); done || congruence).
  rewrite Hp in Hq. injection Hq as ->. by rewrite (leaf_entries_rep _ _ Hr).
Qed.

Lemma walk_to_leaf_spec : exists node l i parent, walk_to_leaf t k = Some (Some (node, leaf_version l, parent)) /\
  heap t !! node = Some (LeafNode l) /\ G !! node = Some i /\ low i < k <= high i /\ parent_ok false node i parent.
Proof.
  destruct (walk_spec false None (fun node versionNode parent =>
    nd ← heap t !! node;
    match nd with
    | InnerNode inner =>
        next ← step_down t k inner node versionNode parent;
        Some (match next with
              | Some (child, versionChild) => inl (child, versionChild, Some (node, versionNode))
              | None => inr None
              end)
    | LeafNode _ => Some (inr (Some (node, versionNode, parent)))
    end) (fun r => exists node l i parent, r = Some (node, leaf_version l, parent) /\
      heap t !! node = Some (LeafNode l) /\ G !! node = Some i /\ low i < k <= high i /\ parent_ok false node i parent))
    as (r & E & node & l & i & parent & -> & H).
  - intros node v parent i (nd & i' & Hn & HG' & -> & Hik & Hpar) HG. assert (i' = i) as -> by congruence.
    rewrite Hn. cbn [mbind option_bind]. destruct nd as [l|inner].
    + exists node, l, i, parent. by repeat split; try lia.
    + destruct (step_down_ok false inner node parent i Hn HG Hik Hpar ltac:(done)) as (c & ci & vc & E & Hv & Hci & Hl).
      cbn [version_of]. rewrite E. cbn [mbind option_bind]. split; [done|]. by exists ci.
  - exists node, l, i, parent. by rewrite <-E.
Qed.

(** ** lookup *)

Lemma leaf_search l es : leaf_rep l es -> StronglySorted Z.lt es.*1 ->
  exists pos, leaf_lowerBound l k = Some pos /\ 0 <= pos /\
    Forall (fun x => x < k) (take (Z.to_nat pos) es).*1 /\ Forall (fun x => k <= x) (drop (Z.to_nat pos) es).*1.
Proof.
  intros Hr Hs. destruct (decide (es = [])) as [->|Hne].
  - assert (exists pos, leaf_lowerBound l k = Some pos /\ 0 <= pos) as (pos & E & Hpos).
    { destruct Hr as [Hsz Hc [r Hd]]. unfold leaf_lowerBound, lowerBound, leaf_key. rewrite Hc. simpl in Hd. rewrite Hd in *.
      destruct (rd_in r 0) as [e He]; [by rewrite Hsz|]. cbn -[rd]. change (@zlen (Z * Z) []) with 0. change ((0 - 0) `quot` 2 + 0) with 0.
      rewrite He. cbn -[Z.ltb]. change (0 <? 0) with false. change (0 + 1 <? 0) with false. destruct (k <? e.1), (e.1 <? k); eexists; (split; [reflexivity|lia]). }
    exists pos. rewrite take_nil, drop_nil. by repeat split; [..|constructor|constructor].
  - destruct (leaf_lowerBound_spec l es k Hr Hs Hne) as (pos & E & Hp). exists pos. split; [done|]. split; [apply Hp|].
    destruct (splits_at_cut _ _ _ Hp) as (k1 & k2 & Ek & <- & Hlow & Hhigh). rewrite fmap_take, fmap_drop, Ek, to_nat_zlen.
    by rewrite take_app_length, drop_app_length.
Qed.

Lemma lookup_spec : BTreeOLC.lookup t k = m !! k.
Proof.
  destruct walk_to_leaf_spec as (node & l & i & parent & E & Hn & HG & Hik & Hpar%check_parent_ok).
  destruct (tree_nodes _ _ _ _ T _ _ _ Hn HG) as (_ & _ & es & Hr & Hs & _).
  pose proof (leaf_decides node l i Hn HG Hik) as Hm. rewrite (leaf_entries_rep _ _ Hr) in Hm.
  unfold BTreeOLC.lookup, lookup_attempt. cbn [loop]. rewrite E. cbn [mbind option_bind]. rewrite Hn.
  destruct (leaf_search l es Hr Hs) as (pos & -> & Hpos & Hlow & Hhigh). cbn [mbind option_bind].
  rewrite Hpar, (read_check_ok node (LeafNode l) Hn : read_check t node (leaf_version l) = Some false).
  pose proof Hr as [_ Hc [r Hd]]. rewrite Hc, Hd. destruct (Z.ltb_spec pos (zlen es)) as [Hlt|Hge].
  - destruct (rd_in es pos ltac:(lia)) as [[x w] He]. rewrite (rd_app_l _ _ _ _ He). cbn [mbind option_bind fst snd].
    assert (Hel : es !! Z.to_nat pos = Some (x, w)) by (unfold rd in He; destruct (Z.leb_spec 0 pos); [done|lia]).
    rewrite (drop_S es (x, w) (Z.to_nat pos) Hel) in Hhigh. apply Forall_cons in Hhigh as [Hx Hhigh]. cbn [fst] in Hx.
    rewrite <-(take_drop_middle es (Z.to_nat pos) (x, w) Hel) in Hm, Hs. rewrite fmap_app in Hs.
    destruct (Z.eqb_spec x k) as [->|Hne].
    + cbn. symmetry. apply Hm, elem_of_app. right. constructor.
    + cbn. symmetry. apply eq_None_not_Some. intros [v Hv%Hm]. rewrite Forall_forall in Hlow.
      apply elem_of_app in Hv as [Hv|[[= <- <-]|Hv]%elem_of_cons]; [|done|].
      * assert (k < k); [|lia]. apply Hlow, list_elem_of_fmap. by exists (k, v).
      * apply sorted_app_inv in Hs as (_ & Hs & _). apply StronglySorted_inv in Hs as [_ Hall]. rewrite List.Forall_forall in Hall.
        assert (x < k); [|lia]. apply Hall, list_elem_of_In, list_elem_of_fmap. by exists (k, v).
  - cbn. symmetry. apply eq_None_not_Some. intros [v Hv%Hm].
    rewrite take_ge in Hlow by (unfold zlen in *; lia). rewrite Forall_forall in Hlow.
    assert (k < k); [|lia]. apply Hlow, list_elem_of_fmap. by exists (k, v).
Qed.

(** ** scan *)

Lemma scan_leaf_spec l es pos range output : leaf_rep l es -> 0 <= pos -> zlen output <= range ->
  scan_leaf l pos range output = Some (output ++ take (Z.to_nat (range - zlen output)) (drop (Z.to_nat pos) es)).
Proof.
  intros Hr Hpos Hlen. pose proof Hr as [_ Hc [r Hd]]. unfold scan_leaf. rewrite Hc, Hd.
  assert (Hloop : forall fuel pos output, 0 <= pos -> zlen output <= range -> (Z.to_nat (zlen es - pos) < fuel)%nat ->
    loop fuel (fun '(i, output) =>
      if i <? zlen es then
        if zlen output =? range then Some (inr output)
        else e ← (es ++ r).[i]; Some (inl (i + 1, output ++ [e]))
      else Some (inr output)) (pos, output) =
    Some (output ++ take (Z.to_nat (range - zlen output)) (drop (Z.to_nat pos) es))).
  { clear pos output Hpos Hlen. induction fuel as [|fuel IH]; intros pos output Hpos Hlen Hf; [lia|]. cbn [loop].
    destruct (Z.ltb_spec pos (zlen es)) as [Hlt|Hge].
    - destruct (Z.eqb_spec (zlen output) range) as [<-|Hne].
      + by rewrite Z.sub_diag, app_nil_r.
      + destruct (rd_in es pos ltac:(lia)) as [e He]. rewrite (rd_app_l _ _ _ _ He). cbn [mbind option_bind].
        assert (Hel : es !! Z.to_nat pos = Some e) by (unfold rd in He; destruct (Z.leb_spec 0 pos); [done|lia]).
        rewrite IH by (rewrite ?zlen_app; change (zlen [e]) with 1; lia). rewrite (drop_S es e (Z.to_nat pos) Hel).
        rewrite zlen_app. change (zlen [e]) with 1. replace (Z.to_nat (range - zlen output)) with (S (Z.to_nat (range - (zlen output + 1)))) by lia.
        cbn [firstn]. rewrite <-app_assoc. cbn [app]. by replace (Z.to_nat (pos + 1)) with (S (Z.to_nat pos)) by lia.
    - rewrite drop_ge by (unfold zlen in *; lia). by rewrite take_nil, app_nil_r. }
  apply Hloop; [done..|lia].
Qed.

(** The leaf at the start of a chain. *)
Lemma level_0_leaf p i : G !! p = Some i -> level i = 0%nat ->
  exists l es, heap t !! p = Some (LeafNode l) /\ leaf_rep l es /\ StronglySorted Z.lt es.*1 /\
    Forall (fun x => low i < x <= high i) es.*1 /\ next_ok G (high i) (next_leaf l) /\ (high i = u64_max \/ high i ∈ es.*1) /\ unlocked (leaf_version l).
Proof.
  intros Hp Hl. destruct (info_node _ _ Hp) as ([l|n] & Hn & Hu & Hok).
  - destruct Hok as (_ & es & Hr & Hs & Hall & Hnext & Hclosed). by exists l, es.
  - destruct Hok as (l & Hl' & _). congruence.
Qed.

Lemma node_fresh p i : G !! p = Some i -> 0 <= p < next_free t.
Proof. intros Hp. destruct (info_node _ _ Hp) as (nd & Hn & _). apply (tree_fresh _ _ _ _ T). by eexists. Qed.

(** *** The chain of a leaf *)

(** Next leaves are younger: a chain has at most as many leaves as there are nodes. *)
Lemma chain_fuel f : forall f' p, (forall i, p = Some i -> is_Some (G !! i)) ->
  (match p with Some q => next_free t - q | None => 0 end <= Z.of_nat f) ->
  (match p with Some q => next_free t - q | None => 0 end <= Z.of_nat f') -> chain t f p = chain t f' p.
Proof.
  induction f as [|f IH]; intros f' [p|] Hp Hf Hf'; destruct f' as [|f']; cbn [chain]; try done.
  - destruct (Hp p eq_refl) as [i Hi]. pose proof (node_fresh p i Hi). lia.
  - destruct (Hp p eq_refl) as [i Hi]. pose proof (node_fresh p i Hi). lia.
  - destruct (heap t !! p) as [[l|n]|] eqn:Hn; [|done|done]. f_equal. destruct (node_info _ _ Hn) as (i & Hi & _ & _ & es & _ & _ & _ & Hnext & _).
    destruct (next_leaf l) as [q|] eqn:Eq; [|by destruct f, f']. pose proof (tree_next _ _ _ _ T _ _ _ Hn Eq). apply IH; [|lia|lia].
    intros q' [= <-]. destruct Hnext as (j & Hj & _). by exists j.
Qed.

Lemma chain_leaf p i l : G !! p = Some i -> heap t !! p = Some (LeafNode l) -> chain_of t (Some p) = leaf_entries l ++ chain_of t (next_leaf l).
Proof.
  intros Hi Hn. unfold chain_of at 1. cbn [chain]. rewrite Hn. f_equal. unfold chain_of. pose proof (node_fresh p i Hi).
  destruct (node_info _ _ Hn) as (i' & Hi' & _ & _ & es & _ & _ & _ & Hnext & _).
  destruct (next_leaf l) as [q|] eqn:Eq; [|by destruct (Z.to_nat _)]. destruct Hnext as (j & Hj & _).
  pose proof (tree_next _ _ _ _ T _ _ _ Hn Eq). apply chain_fuel; [intros q' [= <-]; by exists j|lia|lia].
Qed.

(** The entries of an interval are those of its leaf. *)
Lemma entries_of_leaf p i l es : G !! p = Some i -> level i = 0%nat -> heap t !! p = Some (LeafNode l) -> leaf_rep l es ->
  StronglySorted Z.lt es.*1 -> Forall (fun x => low i < x <= high i) es.*1 ->
  entries_from m (low i + 1) = es ++ entries_from m (high i + 1).
Proof.
  intros HG Hl Hn Hr Hs Hall. rewrite Forall_forall in Hall. apply increasing_entries_unique.
  - apply entries_from_increasing.
  - rewrite fmap_app. apply sorted_app; [done|apply entries_from_increasing|]. intros x y Hx ([y' v] & -> & Hy)%list_elem_of_fmap.
    apply elem_of_entries_from in Hy as [_ Hy]. specialize (Hall x Hx). simpl. lia.
  - intros [x v]. rewrite elem_of_app, !elem_of_entries_from. split.
    + intros [Hv Hx]. destruct (Z.le_gt_cases x (high i)) as [Hle|]; [left|right; split; [done|lia]].
      apply (tree_map _ _ _ _ T) in Hv as (q & lq & Hq & Hin).
      destruct (node_info _ _ Hq) as (j & Hj & _ & Hlj & es' & Hr' & _ & Hall' & _). rewrite (leaf_entries_rep _ _ Hr') in Hin.
      rewrite Forall_forall in Hall'. assert (low j < x <= high j) by (apply Hall', list_elem_of_fmap; by exists (x, v)).
      assert (q = p) as -> by (apply (same_node _ _ _ (tree_info _ _ _ _ T) q p j i x Hj HG); [congruence|done|lia]).
      rewrite Hn in Hq. injection Hq as <-. by rewrite <-(leaf_entries_rep _ _ Hr), (leaf_entries_rep _ _ Hr').
    + pose proof (info_interval _ _ _ (tree_info _ _ _ _ T) _ _ HG). intros [Hin|[Hv Hx]]; [|split; [done|lia]]. split.
      * apply (tree_map _ _ _ _ T). exists p, l. by rewrite (leaf_entries_rep _ _ Hr).
      * assert (low i < x <= high i); [|lia]. apply Hall, list_elem_of_fmap. by exists (x, v).
Qed.

(** A chain holds the entries of the map from its first leaf to the end of its last. *)
Lemma chain_entries f : forall p i, G !! p = Some i -> level i = 0%nat ->
  exists b, low i <= b /\ entries_from m (low i + 1) = chain t f (Some p) ++ entries_from m (b + 1).
Proof.
  induction f as [|f IH]; intros p i Hp Hl; [by exists (low i)|].
  destruct (level_0_leaf p i Hp Hl) as (l & es & Hn & Hr & Hs & Hall & Hnext & _).
  pose proof (info_interval _ _ _ (tree_info _ _ _ _ T) _ _ Hp). cbn [chain]. rewrite Hn, (leaf_entries_rep _ _ Hr).
  rewrite (entries_of_leaf p i l es Hp Hl Hn Hr Hs Hall). destruct (next_leaf l) as [q|].
  - destruct Hnext as (j & Hj & Hlj & Hjq). rewrite <-Hjq. destruct (IH q j Hj Hlj) as (b & Hb & ->). exists b. split; [lia|]. by rewrite app_assoc.
  - exists (high i). split; [lia|]. destruct f; by rewrite app_nil_r.
Qed.

(** *** The loop over the leaves *)

Lemma filter_ge_all (es : list (Z * Z)) : Forall (fun x => k <= x) es.*1 -> filter (fun e => k <= e.1) es = es.
Proof. rewrite Forall_fmap, Forall_forall. apply filter_every. Qed.

Lemma filter_ge_none (es : list (Z * Z)) : Forall (fun x => x < k) es.*1 -> filter (fun e => k <= e.1) es = [].
Proof. rewrite Forall_fmap, Forall_forall. intros H. apply filter_nothing. intros e He. specialize (H e He). simpl in H. lia. Qed.

(** The part of a leaf that is appended. *)
Lemma leaf_part l es output range : leaf_rep l es -> StronglySorted Z.lt es.*1 -> zlen output < range ->
  (output <> [] -> Forall (fun x => k <= x) es.*1) ->
  exists out, (pos ← (if zlen output =? 0 then leaf_lowerBound l k else Some 0); scan_leaf l pos range output) = Some out /\
    out = output ++ take (Z.to_nat (range - zlen output)) (filter (fun e => k <= e.1) es).
Proof.
  intros Hr Hs Hlt Hge.
  assert (Hpos : exists pos, (if zlen output =? 0 then leaf_lowerBound l k else Some 0) = Some pos /\ 0 <= pos /\
    filter (fun e => k <= e.1) es = drop (Z.to_nat pos) es).
  { destruct (Z.eqb_spec (zlen output) 0) as [E0|Hne].
    - destruct (leaf_search l es Hr Hs) as (pos & E & H0 & Hlow & Hhigh). exists pos. split; [done|]. split; [done|].
      rewrite <-(take_drop (Z.to_nat pos) es) at 1. by rewrite filter_app, filter_ge_none, filter_ge_all.
    - exists 0. split; [done|]. split; [done|]. apply filter_ge_all, Hge. by intros ->. }
  destruct Hpos as (pos & -> & Hpos & ->). cbn [mbind option_bind]. rewrite (scan_leaf_spec l es pos range output Hr Hpos ltac:(lia)). by eexists.
Qed.

(** What the loop has appended and what its chain still holds. *)
Definition scan_inv (range : Z) (full : list (Z * Z)) (s : option Z * list (Z * Z)) : Prop :=
  zlen s.2 <= range /\
  (zlen s.2 = range /\ s.2 = take (Z.to_nat range) full \/ full = s.2 ++ filter (fun e => k <= e.1) (chain_of t s.1)) /\
  match s.1 with
  | Some p => exists i, G !! p = Some i /\ level i = 0%nat /\ (s.2 <> [] -> k <= low i)
  | None => True
  end.

Lemma scan_leaves_spec range node i : 0 <= range -> G !! node = Some i -> level i = 0%nat -> low i < k <= high i ->
  scan_leaves t k range node = Some (Some (take (Z.to_nat range) (filter (fun e => k <= e.1) (chain_of t (Some node))))).
Proof.
  intros Hrange HG Hl Hik. unfold scan_leaves. set (full := filter _ (chain_of t (Some node))).
  match goal with |- loop ?f ?b ?s0 = _ =>
    destruct (loop_spec (fun s => scan_inv range full s /\ (forall p i, s.1 = Some p -> G !! p = Some i -> k <= high i))
      (fun r => r = Some (take (Z.to_nat range) full))
      (fun s => match s.1 with Some p => next_free t - p | None => 0 end) b) with (fuel := f) (s := s0) as (r & -> & ->) end; [| | | |done].
  - intros [[p|] output] [(Hsc & Hfull & Hp) Hhi]; cbn [fst snd] in *.
    2:{ destruct Hfull as [[_ ->]|Hfull]; [done|]. rewrite Hfull. change (filter _ (chain_of t None)) with (@nil (Z * Z)). rewrite app_nil_r, take_ge; [done|]. unfold zlen in *. lia. }
    destruct (Z.ltb_spec (zlen output) range) as [Hlt|Hge].
    2:{ destruct Hfull as [[_ ->]|Hfull]; [done|]. rewrite Hfull, take_app_le, take_ge by (unfold zlen in *; lia). done. }
    destruct Hfull as [[? _]|Hfull]; [lia|]. destruct Hp as (j & Hj & Hlj & Hlow).
    destruct (level_0_leaf p j Hj Hlj) as (l & es & Hn & Hrep & Hs & Hall & Hnext & _ & Hu).
    rewrite Hn. rewrite (readLock_unlocked _ Hu).
    destruct (leaf_part l es output range Hrep Hs Hlt) as (out & E & Eout).
    { intros Ho. specialize (Hlow Ho). eapply Forall_impl; [exact Hall|]. simpl. lia. }
    destruct (if zlen output =? 0 then leaf_lowerBound l k else Some 0) as [pos|]; [|done]. cbn [mbind option_bind] in E |- *. rewrite E.
    cbn [mbind option_bind]. rewrite (read_check_ok p (LeafNode l) Hn : read_check t p (leaf_version l) = Some false). cbn [mbind option_bind].
    rewrite (chain_leaf p j l Hj Hn), (leaf_entries_rep _ _ Hrep), filter_app in Hfull.
    pose proof (node_fresh p j Hj). specialize (Hhi p j eq_refl Hj). split; [split; [split; [|split]|]|]; cbn [fst snd].
    + rewrite Eout, zlen_app. unfold zlen in *. rewrite length_take. lia.
    + rewrite Eout. set (part := filter _ es) in *. destruct (decide (zlen output + zlen part <= range)) as [Hle|Hgt].
      * right. rewrite (take_ge part) by (unfold zlen in *; lia). by rewrite Hfull, <-app_assoc.
      * left. rewrite Hfull, app_assoc, take_app_le by (rewrite length_app; unfold zlen in *; lia).
        rewrite take_app, (take_ge output) by (unfold zlen in *; lia). rewrite zlen_app.
        replace (Z.to_nat range - length output)%nat with (Z.to_nat (range - zlen output)) by (unfold zlen in *; lia). split; [|done].
        unfold zlen in *. rewrite length_take. lia.
    + destruct (next_leaf l) as [q|]; [|done]. destruct Hnext as (jq & Hjq & Hlq & Hle). exists jq. split; [done|]. split; [done|]. lia.
    + intros q iq Eq Hq. rewrite Eq in Hnext. destruct Hnext as (jq & Hjq & _ & Hle). rewrite Hq in Hjq. injection Hjq as <-.
      pose proof (info_interval _ _ _ (tree_info _ _ _ _ T) _ _ Hq). lia.
    + destruct (next_leaf l) as [q|] eqn:En; [|lia]. pose proof (tree_next _ _ _ _ T _ _ _ Hn En).
      destruct Hnext as (jq & Hjq & _). pose proof (node_fresh q jq Hjq). lia.
  - split; [split; [done|split; [by right|]]|].
    + exists i. split; [done|]. split; [done|]. done.
    + intros p j [= <-] Hj. rewrite HG in Hj. injection Hj as <-. lia.
  - cbn [fst]. pose proof (node_fresh node i HG). lia.
  - cbn [fst]. pose proof (node_fresh node i HG). lia.
Qed.

(** A scan returns the entries of the chain of the leaf of the key. *)
Lemma scan_chain range : 0 <= range -> exists node l i parent, walk_to_leaf t k = Some (Some (node, leaf_version l, parent)) /\
  heap t !! node = Some (LeafNode l) /\ G !! node = Some i /\ low i < k <= high i /\ parent_ok false node i parent /\
  scan t k range = Some (take (Z.to_nat range) (filter (fun e => k <= e.1) (chain_of t (Some node)))).
Proof.
  intros Hrange. destruct walk_to_leaf_spec as (node & l & i & parent & E & Hn & HG & Hik & Hpar).
  exists node, l, i, parent. do 5 (split; [done|]). apply check_parent_ok in Hpar.
  destruct (tree_nodes _ _ _ _ T _ _ _ Hn HG) as (_ & Hl & _).
  unfold scan, scan_attempt. cbn [loop]. rewrite E. cbn [mbind option_bind]. rewrite Hpar. cbn [mbind option_bind].
  by rewrite (scan_leaves_spec range node i Hrange HG Hl Hik).
Qed.

Lemma entries_from_filter lo : lo <= k -> filter (fun e => k <= e.1) (entries_from m lo) = entries_from m k.
Proof.
  intros Hlo. apply increasing_entries_unique; [|apply entries_from_increasing|].
  - assert (Hs := entries_from_increasing m lo). induction (entries_from m lo) as [|e l IH]; [constructor|].
    apply StronglySorted_inv in Hs as [Hs Hall]. rewrite filter_cons. case_decide; [|by apply IH]. cbn [fmap list_fmap].
    constructor; [by apply IH|]. rewrite List.Forall_forall in *. intros x (e' & -> & [_ He]%list_elem_of_filter)%list_elem_of_In%list_elem_of_fmap.
    apply Hall, list_elem_of_In, list_elem_of_fmap. by exists e'.
  - intros [x v]. rewrite list_elem_of_filter, !elem_of_entries_from. simpl. split; [tauto|]. intros [? ?]. split; [done|]. split; [done|lia].
Qed.

(** The first entries of the map from [k] on, and at least one if there is any. *)
Lemma scan_spec range : 0 <= range -> exists out, scan t k range = Some out /\
  out `prefix_of` take (Z.to_nat range) (entries_from m k) /\ (out = [] -> take (Z.to_nat range) (entries_from m k) = []).
Proof.
  intros Hrange. destruct (scan_chain range Hrange) as (node & l & i & parent & _ & Hn & HG & Hik & _ & E).
  eexists. split; [exact E|]. destruct (tree_nodes _ _ _ _ T _ _ _ Hn HG) as (_ & Hl & _).
  destruct (chain_entries (S (Z.to_nat (next_free t))) node i HG Hl) as (b & Hb & Hfull). fold (chain_of t (Some node)) in Hfull.
  assert (Hk' : entries_from m k = filter (fun e => k <= e.1) (chain_of t (Some node)) ++ filter (fun e => k <= e.1) (entries_from m (b + 1))).
  { by rewrite <-filter_app, <-Hfull, entries_from_filter by lia. }
  split; [rewrite Hk', take_app; by eexists|]. intros Hnil. destruct (Z.to_nat range) as [|n] eqn:En; [done|].
  assert (Hempty : filter (fun e => k <= e.1) (chain_of t (Some node)) = []) by (by destruct (filter _ (chain_of t (Some node)))).
  rewrite (chain_leaf node i l HG Hn), filter_app in Hempty. apply app_eq_nil in Hempty as [Hempty _].
  destruct (level_0_leaf node i HG Hl) as (l' & es & Hn' & Hr & Hs & Hall & _ & Hclosed & _). rewrite Hn in Hn'. injection Hn' as <-.
  rewrite (leaf_entries_rep _ _ Hr) in Hempty. destruct Hclosed as [Hmax|([x v] & Ex & Hx)%list_elem_of_fmap].
  - rewrite <-(entries_from_filter (low i + 1)) by lia. rewrite (entries_of_leaf node i l es HG Hl Hn Hr Hs Hall), filter_app, Hempty.
    assert (Hend : entries_from m (high i + 1) = []); [|by rewrite Hend].
    destruct (entries_from m (high i + 1)) as [|[x v] rest] eqn:Ee; [done|]. exfalso.
    assert (Hin : (x, v) ∈ entries_from m (high i + 1)) by (rewrite Ee; constructor). apply elem_of_entries_from in Hin as [Hv Hge].
    apply (tree_map _ _ _ _ T) in Hv as (q & lq & Hq & Hin).
    destruct (node_info _ _ Hq) as (j & Hj & _ & Hlj & es' & Hr' & _ & Hall' & _). rewrite (leaf_entries_rep _ _ Hr') in Hin.
    rewrite Forall_forall in Hall'. assert (low j < x <= high j) by (apply Hall', list_elem_of_fmap; by exists (x, v)).
    pose proof (info_interval _ _ _ (tree_info _ _ _ _ T) _ _ Hj). lia.
  - exfalso. assert (Hin : (x, v) ∈ filter (fun e => k <= e.1) es) by (apply list_elem_of_filter; simpl in *; split; [lia|done]).
    rewrite Hempty in Hin. by apply elem_of_nil in Hin.
Qed.
End Walks.
