(* ===== verification/BTreeInsert.v ===== *)
(** * BTreeOLC: insertion keeps the invariant and terminates

    A split cuts the interval of a full node in two and hands the right half to a new
    node; the parent, or a new root, gets the separator.  [phi] counts entries above
    half full over all nodes; a split lowers it, so an insertion restarts at most
    [phi] times. *)

From S2P Require Import Prelude Words Index BTreeLock BTreeNode BTreeOLC BTreeInv.
From Stdlib Require Import Sorted.
From stdpp Require Import gmap list fin_maps.
Local Open Scope Z_scope.
Local Open Scope cxx_scope.

(** ** Nodes without their locks *)

Definition body_ok (G : gmap Z Info) (i : Info) (nd : NodeBase) : Prop :=
  match nd with
  | LeafNode l => level i = 0%nat /\ leaf_ok G (low i) (high i) l
  | InnerNode n => exists l, level i = S l /\ inner_ok G l (low i) (high i) n
  end.

Lemma node_ok_body G i nd : tnode_ok G i nd <-> unlocked (version_of nd) /\ body_ok G i nd.
Proof. by destruct nd. Qed.

Lemma leaf_rep_version l es w : leaf_rep l es -> leaf_rep (mkLeaf w (leaf_count l) (leaf_data l) (next_leaf l)) es.
Proof. by intros [? ? ?]. Qed.

Lemma inner_rep_version n ks cs w : inner_rep n ks cs -> inner_rep (mkInner w (inner_count n) (children n) (inner_keys n)) ks cs.
Proof. by intros [? ? ? ? ? ?]. Qed.

Lemma body_ok_version G i nd w : body_ok G i nd -> body_ok G i (set_version nd w).
Proof.
  destruct nd as [l|n].
  - intros [Hl (es & Hr & H)]. split; [done|]. exists es. split; [by apply leaf_rep_version|done].
  - intros (l & Hl & ks & kids & Hr & H). exists l. split; [done|]. exists ks, kids. split; [by apply inner_rep_version|done].
Qed.

Definition node_entries (nd : NodeBase) : list (Z * Z) :=
  match nd with
  | LeafNode l => leaf_entries l
  | InnerNode _ => []
  end.

Definition next_of (nd : NodeBase) : option Z :=
  match nd with
  | LeafNode l => next_leaf l
  | InnerNode _ => None
  end.

Definition is_full (nd : NodeBase) : bool :=
  match nd with
  | LeafNode l => leaf_isFull l
  | InnerNode n => inner_isFull n
  end.

(** How many entries or keys a node has above half of its room. *)
Definition excess (nd : NodeBase) : Z :=
  match nd with
  | LeafNode l => Z.max 0 (leaf_count l - 15)
  | InnerNode n => Z.max 0 (inner_count n - 15)
  end.

Lemma set_version_same nd w : node_entries (set_version nd w) = node_entries nd /\ next_of (set_version nd w) = next_of nd /\
  excess (set_version nd w) = excess nd /\ version_of (set_version nd w) = w.
Proof. by destruct nd. Qed.

Lemma set_version_twice nd w w' : set_version (set_version nd w) w' = set_version nd w'.
Proof. by destruct nd. Qed.

(** ** The measure *)

Definition phi (h : gmap Z NodeBase) : Z := map_fold (fun _ nd acc => excess nd + acc) 0 h.

Lemma excess_nonneg nd : 0 <= excess nd.
Proof. destruct nd; simpl; lia. Qed.

Lemma phi_new h p nd : h !! p = None -> phi (<[p := nd]> h) = excess nd + phi h.
Proof. intros Hp. unfold phi. rewrite map_fold_insert_L; [done|intros; lia|done]. Qed.

Lemma phi_update h p nd0 nd : h !! p = Some nd0 -> phi (<[p := nd]> h) = phi h - excess nd0 + excess nd.
Proof.
  intros Hp. assert (Hd : delete p h !! p = None) by apply lookup_delete_eq.
  pose proof (phi_new (delete p h) p nd0 Hd) as E0. pose proof (phi_new (delete p h) p nd Hd) as E1.
  rewrite insert_delete_id in E0 by done. rewrite insert_delete_eq in E1. lia.
Qed.

Lemma phi_nonneg h : 0 <= phi h.
Proof.
  induction h as [|p nd h Hp IH] using map_ind; [done|]. rewrite phi_new by done. pose proof (excess_nonneg nd). lia.
Qed.

Lemma phi_bound h : (forall p nd, h !! p = Some nd -> excess nd <= 16) -> phi h <= 16 * Z.of_nat (size h).
Proof.
  induction h as [|p nd h Hp IH] using map_ind; intros Hb; [done|]. rewrite phi_new, map_size_insert_None by done.
  assert (excess nd <= 16) by (apply (Hb p); apply lookup_insert_eq).
  assert (phi h <= 16 * Z.of_nat (size h)); [|lia]. apply IH. intros q nq Hq. apply (Hb q).
  rewrite lookup_insert_ne; [done|]. intros ->. congruence.
Qed.

(** ** Cutting an interval *)

(** [G2] extends [G] except that the interval of [p] is cut at [sep]. *)
Record cut (G G2 : gmap Z Info) (p newp : Z) (l : nat) (lo sep hi : Z) : Prop := {
  cut_before : G !! p = Some (mkInfo l lo hi);
  cut_new : G !! newp = None;
  cut_sep : lo < sep < hi;
  cut_old c i : c <> p -> G !! c = Some i -> G2 !! c = Some i;
  cut_left : G2 !! p = Some (mkInfo l lo sep);
  cut_right : G2 !! newp = Some (mkInfo l sep hi)
}.

Section Cut.
Context (G G2 : gmap Z Info) (p newp : Z) (l : nat) (lo sep hi : Z) (C : cut G G2 p newp l lo sep hi).
Context (r : Z) (L : nat) (Hi : info_ok r G L).

Lemma next_ok_cut h next : next_ok G h next -> next_ok G2 h next.
Proof.
  destruct next as [q|]; [|done]. intros (i & Hq & Hl & Hlow). destruct (decide (q = p)) as [->|Hne].
  - rewrite (cut_before _ _ _ _ _ _ _ _ C) in Hq. injection Hq as <-. eexists. split; [apply (cut_left _ _ _ _ _ _ _ _ C)|done].
  - exists i. split; [by apply (cut_old _ _ _ _ _ _ _ _ C)|done].
Qed.

Lemma kids_ok_cut l' a b kids : kids_ok G l' a kids b -> p ∉ kids.*1 -> kids_ok G2 l' a kids b.
Proof.
  intros Hk Hp. eapply kids_ok_ext; [|done]. intros c Hc. destruct (kids_range _ _ _ Hi _ _ _ _ Hk) as [_ Hin].
  destruct (Hin c Hc) as (i & Hci & _). rewrite Hci. apply (cut_old _ _ _ _ _ _ _ _ C); [|done]. by intros ->.
Qed.

(** A node that is not above [p] keeps its shape. *)
Lemma body_ok_cut i nd : body_ok G i nd -> ~ (level i = S l /\ low i <= lo /\ hi <= high i) -> body_ok G2 i nd.
Proof.
  destruct nd as [lf|n].
  - intros [Hl (es & Hr & Hs & Hall & Hn & Hc)] _. split; [done|]. exists es. do 3 (split; [done|]). split; [by apply next_ok_cut|done].
  - intros (l' & Hl & ks & kids & Hr & H2 & Hne & Hlen & Hk) Hnot. exists l'. split; [done|]. exists ks, kids.
    do 4 (split; [done|]). apply kids_ok_cut; [done|]. intros Hp. apply Hnot.
    destruct (kids_range _ _ _ Hi _ _ _ _ Hk) as [_ Hin]. destruct (Hin p Hp) as (j & Hj & Hlj & Hlo & Hhi).
    rewrite (cut_before _ _ _ _ _ _ _ _ C) in Hj. injection Hj as <-. simpl in *. split; [congruence|lia].
Qed.

(** The parent after the new child has been added. *)
Lemma body_ok_parent i n n' : body_ok G i (InnerNode n) -> level i = S l -> low i <= lo -> hi <= high i ->
  inner_isFull n = false -> inner_insert n sep newp = Some n' -> body_ok G2 i (InnerNode n').
Proof.
  intros (l' & Hl & ks & kids & Hr & H2 & Hne & Hlen & Hk) Hl2 Hlo Hhi Hfull E. assert (l' = l) as -> by congruence.
  pose proof (cut_sep _ _ _ _ _ _ _ _ C) as Hsep.
  assert (Hs : StronglySorted Z.lt ks).
  { pose proof (kids_sorted _ _ _ Hi _ _ _ _ Hk) as Hs. rewrite H2 in Hs. apply StronglySorted_inv in Hs as [Hs _].
    by apply sorted_app_inv in Hs as (Hs & _). }
  assert (Hroom : zlen ks < inner_maxEntries - 1).
  { unfold inner_isFull in Hfull. rewrite (inner_len _ _ _ Hr) in Hfull. btest. lia. }
  destruct (inner_insert_spec n ks _ sep newp Hr Hs Hne Hroom) as (n2 & k1 & k2 & c1 & c & c2 & Ek & Ec & Hc1 & Hlow & Hhigh & E2 & Hr2 & _).
  assert (n2 = n') as -> by congruence.
  destruct (kids_locate G l kids ks k1 k2 c1 c c2 _ _ sep Hk H2 Ec Ek Hc1 Hlow Hhigh ltac:(lia)) as
    (ka & lo' & u & kb & -> & <- & <- & <- & Eu & Ha & Hc & Hb & Hin).
  assert (c = p) as ->.
  { eapply (same_node _ _ _ Hi c p _ _ sep Hc (cut_before _ _ _ _ _ _ _ _ C)); simpl; [done|lia|lia]. }
  rewrite (cut_before _ _ _ _ _ _ _ _ C) in Hc. injection Hc as <- <-.
  exists l. split; [done|]. exists (ka.*2 ++ sep :: k2), (ka ++ (p, sep) :: (newp, hi) :: kb).
  assert ((p ∉ ka.*1) /\ (p ∉ kb.*1)) as [Hna Hnb].
  { split; intros Hp; [destruct (kids_range _ _ _ Hi _ _ _ _ Ha) as [_ Hx]|destruct (kids_range _ _ _ Hi _ _ _ _ Hb) as [_ Hx]];
      destruct (Hx p Hp) as (j & Hj & _ & ? & ?); rewrite (cut_before _ _ _ _ _ _ _ _ C) in Hj; injection Hj as <-; simpl in *; lia. }
  split; [|split; [|split; [|split]]].
  - rewrite fmap_app. exact Hr2.
  - rewrite fmap_app, <-app_assoc. cbn [fmap list_fmap snd app]. by rewrite <-Eu.
  - by destruct ka.
  - rewrite zlen_app, zlen_cons. rewrite Ek, zlen_app in Hroom. lia.
  - apply kids_ok_app. exists lo. split; [by apply kids_ok_cut|]. simpl. split; [apply (cut_left _ _ _ _ _ _ _ _ C)|].
    split; [apply (cut_right _ _ _ _ _ _ _ _ C)|by apply kids_ok_cut].
Qed.
End Cut.

(** ** Splitting one node *)

Lemma excess_full nd : is_full nd = true -> match nd with LeafNode _ => excess nd = 16 | InnerNode _ => excess nd = 15 end.
Proof.
  destruct nd as [lf|n]; simpl; [unfold leaf_isFull|unfold inner_isFull]; intros H; btest;
    change leaf_maxEntries with 31 in *; change inner_maxEntries with 31 in *; lia.
Qed.

(** The halves of a split leaf. *)
Lemma split_leaf_ok G i lf newp : body_ok G i (LeafNode lf) -> leaf_isFull lf = true ->
  exists lf1 lf2 sep, leaf_split lf newp = Some (lf1, lf2, sep) /\ low i < sep < high i /\
    leaf_version lf1 = leaf_version lf /\ leaf_version lf2 = initial_version /\
    next_leaf lf1 = Some newp /\ next_leaf lf2 = None /\ leaf_count lf1 <= 15 /\ leaf_count lf2 <= 16 /\
    leaf_entries lf = leaf_entries lf1 ++ leaf_entries lf2 /\
    forall G2, G2 !! newp = Some (mkInfo 0 sep (high i)) ->
      leaf_ok G2 (low i) sep lf1 /\ leaf_ok G2 sep (high i) lf2.
Proof.
  intros [Hl (es & Hr & Hs & Hall & Hn & Hclosed)] Hfull. unfold leaf_isFull in Hfull. btest.
  rewrite (leaf_len _ _ Hr) in Hfull. change leaf_maxEntries with 31 in Hfull.
  destruct (leaf_split_spec lf es newp Hr ltac:(lia)) as (lf1 & lf2 & a & e & b & Ees & E & Hr1 & Hr2 & Hb & Hn1 & Hn2 & Hv1 & Hv2).
  exists lf1, lf2, e.1. rewrite (leaf_len _ _ Hr1), (leaf_len _ _ Hr2).
  rewrite (leaf_entries_rep _ _ Hr), (leaf_entries_rep _ _ Hr1), (leaf_entries_rep _ _ Hr2). rewrite Hfull in Hb.
  change (31 - 31 / 2) with 16 in Hb. rewrite Ees, zlen_app in Hfull. rewrite Ees, fmap_app in Hs. apply sorted_app_inv in Hs as (Hs1 & Hs2 & Hs12).
  rewrite Forall_forall in Hall.
  assert (Hes : forall x, x ∈ es.*1 <-> x ∈ (a ++ [e]).*1 \/ x ∈ b.*1) by (intros x; by rewrite Ees, fmap_app, elem_of_app).
  assert (He : e.1 ∈ (a ++ [e]).*1) by (rewrite fmap_app; apply elem_of_app; right; constructor).
  assert (Hb1 : exists y, y ∈ b.*1) by (destruct b as [|y b]; [done|exists y.1; constructor]). destruct Hb1 as [y Hy].
  assert (Hsep : low i < e.1 < high i).
  { assert (e.1 < y) by (by apply Hs12). assert (low i < e.1 <= high i) by (apply Hall, Hes; by left).
    assert (low i < y <= high i) by (apply Hall, Hes; by right). lia. }
  split; [done|]. split; [done|]. do 4 (split; [done|]). split; [lia|]. split; [lia|]. split; [done|].
  intros G2 HG2. split.
  - exists (a ++ [e]). split; [done|]. split; [done|]. split.
    + apply Forall_forall. intros x Hx. assert (low i < x <= high i) by (apply Hall, Hes; by left). split; [lia|].
      rewrite fmap_app in Hx, Hs1. apply sorted_app_inv in Hs1 as (_ & _ & Hs1). apply elem_of_app in Hx as [Hx|Hx].
      * assert (x < e.1); [|lia]. apply Hs1; [done|constructor].
      * apply list_elem_of_singleton in Hx. rewrite Hx. lia.
    + rewrite Hn1. split; [|by right]. eexists. split; [done|]. by split.
  - exists b. split; [done|]. split; [done|]. split.
    + apply Forall_forall. intros x Hx. assert (low i < x <= high i) by (apply Hall, Hes; by right).
      assert (e.1 < x) by (by apply Hs12). lia.
    + rewrite Hn2. split; [done|]. destruct Hclosed as [|Hhi%Hes]; [by left|right]. destruct Hhi as [Hhi|]; [|done].
      exfalso. assert (high i < y) by (by apply Hs12). assert (low i < y <= high i) by (apply Hall, Hes; by right). lia.
Qed.

(** The halves of a split inner node. *)
Lemma split_inner_ok r L G i n : info_ok r G L -> body_ok G i (InnerNode n) -> inner_isFull n = true ->
  exists n1 n2 sep l, inner_split n = Some (n1, n2, sep) /\ low i < sep < high i /\ level i = S l /\
    inner_version n1 = inner_version n /\ inner_version n2 = initial_version /\ inner_count n1 <= 15 /\ inner_count n2 <= 15 /\
    inner_ok G l (low i) sep n1 /\ inner_ok G l sep (high i) n2.
Proof.
  intros Hi (l & Hl & ks & kids & Hr & H2 & Hne & Hlen & Hk) Hfull. unfold inner_isFull in Hfull. btest.
  rewrite (inner_len _ _ _ Hr) in Hfull. change inner_maxEntries with 31 in *.
  destruct (inner_split_spec n ks _ Hr ltac:(change inner_maxEntries with 31; lia)) as
    (n1 & n2 & k1 & sep & k2 & c1 & c2 & -> & Ec & E & Hr1 & Hr2 & Hk1 & Hk2 & Hv1 & Hv2).
  rewrite Hfull in Hk1, Hk2. change ((31 - 1) / 2 - 1) with 14 in Hk1. change (31 - 1 - (31 - 1) / 2) with 15 in Hk2.
  apply fmap_app_inv in Ec as (ka & kb & -> & -> & ->). rewrite fmap_app in H2.
  pose proof (children_len _ _ _ Hr1) as Hc1. rewrite zlen_fmap in Hc1.
  replace ((k1 ++ sep :: k2) ++ [high i]) with ((k1 ++ [sep]) ++ k2 ++ [high i]) in H2 by (rewrite <-!app_assoc; done).
  apply app_inj_1 in H2 as [Ha Hb]; [|unfold zlen in *; rewrite length_fmap, length_app; simpl; lia].
  apply kids_ok_app in Hk as (mid & Hka & Hkb).
  assert (mid = sep) as ->.
  { destruct ka as [|[c u] ka' _] using rev_ind; [by destruct k1|]. rewrite fmap_app in Ha. apply app_inj_2 in Ha as [_ Ha]; [|done].
    simpl in Ha. injection Ha as ->. apply kids_ok_app in Hka as (? & _ & Hka). simpl in Hka. symmetry. apply Hka. }
  assert (Hsep : low i < sep < high i).
  { pose proof (kids_sorted _ _ _ Hi _ _ _ _ Hka) as S1. pose proof (kids_sorted _ _ _ Hi _ _ _ _ Hkb) as S2.
    rewrite Ha in S1. rewrite Hb in S2. apply StronglySorted_inv in S1 as [_ S1], S2 as [_ S2]. rewrite List.Forall_forall in S1, S2.
    split; [apply S1|apply S2]; apply List.in_or_app; right; by left. }
  exists n1, n2, sep, l. rewrite (inner_len _ _ _ Hr1), (inner_len _ _ _ Hr2). do 5 (split; [done|]). split; [lia|]. split; [lia|]. split.
  - exists k1, ka. split; [done|]. split; [done|]. split; [by intros ->|]. split; [change inner_maxEntries with 31; lia|done].
  - exists k2, kb. split; [done|]. split; [done|]. split; [by intros ->|]. split; [change inner_maxEntries with 31; lia|done].
Qed.

(** Both kinds of nodes: the two halves, whatever becomes of the rest of the tree. *)
Definition halves (G : gmap Z Info) (p newp : Z) (i : Info) (nd nd1 nd2 : NodeBase) (sep : Z) : Prop :=
  low i < sep < high i /\ version_of nd2 = initial_version /\
  next_of nd1 = (match nd with LeafNode _ => Some newp | InnerNode _ => None end) /\ next_of nd2 = None /\
  excess nd1 + excess nd2 + 14 <= excess nd /\ node_entries nd = node_entries nd1 ++ node_entries nd2 /\
  forall G2, cut G G2 p newp (level i) (low i) sep (high i) ->
    body_ok G2 (mkInfo (level i) (low i) sep) nd1 /\ body_ok G2 (mkInfo (level i) sep (high i)) nd2.

Lemma inner_ok_cut G G2 p newp l lo sep hi r L l' a b n : cut G G2 p newp l lo sep hi -> info_ok r G L -> l' <> l ->
  inner_ok G l' a b n -> inner_ok G2 l' a b n.
Proof.
  intros C Hi Hl (ks & kids & Hr & H2 & Hne & Hlen & Hk). exists ks, kids. do 4 (split; [done|]).
  eapply kids_ok_cut; [done..|]. intros Hp. destruct (kids_range _ _ _ Hi _ _ _ _ Hk) as [_ Hin].
  destruct (Hin p Hp) as (j & Hj & Hlj & _). rewrite (cut_before _ _ _ _ _ _ _ _ C) in Hj. injection Hj as <-. by simpl in Hlj.
Qed.

Lemma split_node_ok r L G p newp i nd : info_ok r G L -> body_ok G i nd -> is_full nd = true ->
  exists nd1 nd2 sep, split_node nd newp = Some (nd1, nd2, sep) /\ version_of nd1 = version_of nd /\
    halves G p newp i nd nd1 nd2 sep.
Proof.
  intros Hi Hok Hfull. pose proof (excess_full nd Hfull) as Hex. destruct nd as [lf|n].
  - destruct (split_leaf_ok G i lf newp Hok Hfull) as (l1 & l2 & sep & E & Hsep & Hv1 & Hv2 & Hn1 & Hn2 & Hc1 & Hc2 & Hes & Hh).
    exists (LeafNode l1), (LeafNode l2), sep. unfold split_node. rewrite E. split; [done|].
    split; [done|]. do 4 (split; [done|]). split; [rewrite Hex; simpl; lia|]. split; [done|]. intros G2 C. destruct Hok as [Hl _].
    pose proof (cut_right _ _ _ _ _ _ _ _ C) as HG2. rewrite Hl in HG2. destruct (Hh G2 HG2) as [H1 H2]. by split.
  - destruct (split_inner_ok r L G i n Hi Hok Hfull) as (n1 & n2 & sep & l & E & Hsep & Hl & Hv1 & Hv2 & Hc1 & Hc2 & H1 & H2).
    exists (InnerNode n1), (InnerNode n2), sep. unfold split_node. rewrite E. split; [done|].
    split; [done|]. do 4 (split; [done|]). split; [rewrite Hex; simpl; lia|].
    split; [done|]. intros G2 C.
    split; exists l; (split; [done|]); (eapply inner_ok_cut; [exact C|exact Hi|rewrite Hl; lia|done]).
Qed.

(** ** The tree after a split *)

Lemma tree_map_entries t G L m k v : tree_ok t G L m -> m !! k = Some v <-> exists p nd, heap t !! p = Some nd /\ (k, v) ∈ node_entries nd.
Proof.
  intros T. rewrite (tree_map _ _ _ _ T). split.
  - intros (p & l & Hp & Hin). by exists p, (LeafNode l).
  - intros (p & [l|n] & Hp & Hin); [by exists p, l|by apply elem_of_nil in Hin].
Qed.

Section SplitTree.
Context (t : BTree) (G : gmap Z Info) (L : nat) (m : gmap Z Z) (T : tree_ok t G L m).
Context (p : Z) (nd : NodeBase) (i : Info) (Hp : heap t !! p = Some nd) (HG : G !! p = Some i).
Context (nd1 nd2 N1 : NodeBase) (sep : Z).
Abbreviation newp := (next_free t).
Context (Hhalves : halves G p newp i nd nd1 nd2 sep).
Context (HN1 : unlocked (version_of N1) /\ exists w, N1 = set_version nd1 w).

(** The tree [t'] with the halves and a node [q] above them: the old parent or a new root. *)
Context (t' : BTree) (G2 : gmap Z Info) (L2 : nat) (q : Z) (qn : BTreeInner) (iq : Info).
Context (Hheap : heap t' = <[q := InnerNode qn]> (<[p := N1]> (<[newp := nd2]> (heap t)))).
Context (C : cut G G2 p newp (level i) (low i) sep (high i)).
Context (Hinfo : info_ok (root t') G2 L2).
Context (Hq : G2 !! q = Some iq) (Hqn : tnode_ok G2 iq (InnerNode qn)) (Hqp : q <> p) (Hqnew : q <> newp).
Context (Hqold : forall l, heap t !! q <> Some (LeafNode l)).
Context (Habove : forall x j, x <> q -> G !! x = Some j -> ~ (level j = S (level i) /\ low j <= low i /\ high i <= high j)).
Context (Hdom : forall x, is_Some (G2 !! x) <-> x = q \/ is_Some (G !! x) \/ x = newp).
Context (Hfree : newp < next_free t' /\ 0 <= q < next_free t' /\ Z.of_nat L2 < next_free t').

Lemma newp_fresh : heap t !! newp = None.
Proof.
  apply eq_None_not_Some. intros H. pose proof (tree_fresh _ _ _ _ T _ H). lia.
Qed.

Lemma split_lookup x : heap t' !! x =
  if decide (x = q) then Some (InnerNode qn) else if decide (x = p) then Some N1
  else if decide (x = newp) then Some nd2 else heap t !! x.
Proof.
  assert (Hne : p <> newp) by (intros E; pose proof newp_fresh as H; rewrite <-E in H; congruence).
  rewrite Hheap. destruct (decide (x = q)) as [->|]; [by rewrite lookup_insert_eq|]. rewrite lookup_insert_ne by done.
  destruct (decide (x = p)) as [->|]; [by rewrite lookup_insert_eq|]. rewrite lookup_insert_ne by done.
  destruct (decide (x = newp)) as [->|]; [by rewrite lookup_insert_eq|]. by rewrite lookup_insert_ne by done.
Qed.

Lemma split_entries k v : m !! k = Some v <-> exists x ndx, heap t' !! x = Some ndx /\ (k, v) ∈ node_entries ndx.
Proof.
  destruct Hhalves as (_ & _ & _ & _ & _ & Hes & _). destruct HN1 as (_ & w & EN1).
  assert (Hne : p <> newp) by (intros E; pose proof newp_fresh as H; rewrite <-E in H; congruence).
  rewrite (tree_map_entries _ _ _ _ _ _ T). split.
  - intros (x & ndx & Hx & Hin). destruct (decide (x = p)) as [->|Hxp].
    + assert (ndx = nd) as -> by congruence. rewrite Hes in Hin. apply elem_of_app in Hin as [Hin|Hin].
      * exists p, N1. rewrite split_lookup, decide_False, decide_True by done. split; [done|]. rewrite EN1. by destruct nd1.
      * exists newp, nd2. rewrite split_lookup, decide_False, decide_False, decide_True by done. done.
    + destruct (decide (x = q)) as [->|Hxq]; [destruct ndx as [l|n]; [by destruct (Hqold l)|by apply elem_of_nil in Hin]|].
      exists x, ndx. rewrite split_lookup, !decide_False; try done. intros ->. by rewrite newp_fresh in Hx.
  - intros (x & ndx & Hx & Hin). rewrite split_lookup in Hx. repeat case_decide; simplify_eq.
    + by apply elem_of_nil in Hin.
    + exists p, nd. split; [done|]. rewrite Hes. apply elem_of_app. left. by destruct nd1.
    + exists p, nd. split; [done|]. rewrite Hes. apply elem_of_app. by right.
    + by exists x, ndx.
Qed.

Lemma split_tree_ok : tree_ok t' G2 L2 m.
Proof.
  pose proof Hhalves as (Hsep & Hv2 & Hnx1 & Hnx2 & _ & _ & Hbody). destruct (Hbody G2 C) as [Hb1 Hb2].
  destruct HN1 as (Hu1 & w & EN1). pose proof newp_fresh as Hfresh.
  assert (Hpf : 0 <= p < newp) by (apply (tree_fresh _ _ _ _ T); by eexists).
  constructor.
  - done.
  - intros x. rewrite split_lookup, Hdom. repeat case_decide; subst; [split; eauto..|]. rewrite (tree_dom _ _ _ _ T). split; [by auto|].
    intros [?|[?|?]]; done.
  - intros x ndx j Hx Hj. rewrite split_lookup in Hx. repeat case_decide; subst.
    + injection Hx as <-. rewrite Hq in Hj. by injection Hj as <-.
    + injection Hx as <-. rewrite (cut_left _ _ _ _ _ _ _ _ C) in Hj. injection Hj as <-. apply node_ok_body. split; [done|].
      by apply body_ok_version.
    + injection Hx as <-. rewrite (cut_right _ _ _ _ _ _ _ _ C) in Hj. injection Hj as <-. apply node_ok_body. split; [|done].
      rewrite Hv2. apply unlocked_initial.
    + destruct (node_info _ _ _ _ T _ _ Hx) as (j' & Hj' & Hok). rewrite (cut_old _ _ _ _ _ _ _ _ C x j') in Hj by done.
      injection Hj as <-. apply node_ok_body in Hok as [Hu Hok]. apply node_ok_body. split; [done|].
      eapply body_ok_cut; [exact C|apply (tree_info _ _ _ _ T)|done|]. by apply (Habove x).
  - intros x. rewrite split_lookup. repeat case_decide; subst; intros Hx; try lia.
    pose proof (tree_fresh _ _ _ _ T x Hx). lia.
  - intros x l y Hx Hn. rewrite split_lookup in Hx. repeat case_decide; subst.
    + done.
    + assert (Hx' : next_of (LeafNode l) = next_of nd1) by (injection Hx as <-; by destruct nd1). simpl in Hx'. rewrite Hn in Hx'.
      rewrite Hnx1 in Hx'. destruct nd; [injection Hx' as ->; lia|done].
    + injection Hx as ->. simpl in Hnx2. congruence.
    + by eapply (tree_next _ _ _ _ T).
  - lia.
  - intros k v. rewrite split_entries. split.
    + intros (x & [l|n] & Hx & Hin); [by exists x, l|by apply elem_of_nil in Hin].
    + intros (x & l & Hx & Hin). by exists x, (LeafNode l).
Qed.
End SplitTree.

(** ** The intervals after a split *)

Definition cut_info (G : gmap Z Info) (p newp : Z) (i : Info) (sep : Z) : gmap Z Info :=
  <[newp := mkInfo (level i) sep (high i)]> (<[p := mkInfo (level i) (low i) sep]> G).

Section CutInfo.
Context (r : Z) (G : gmap Z Info) (L : nat) (Hi : info_ok r G L).
Context (p newp : Z) (i : Info) (sep : Z) (Hp : G !! p = Some i) (Hnew : G !! newp = None) (Hsep : low i < sep < high i).

Lemma cut_info_lookup x j : cut_info G p newp i sep !! x = Some j ->
  (x = newp /\ j = mkInfo (level i) sep (high i)) \/ (x = p /\ j = mkInfo (level i) (low i) sep) \/
  (x <> p /\ x <> newp /\ G !! x = Some j).
Proof.
  unfold cut_info. intros H. destruct (decide (x = newp)) as [->|Hn]; [rewrite lookup_insert_eq in H; left; split; congruence|].
  rewrite lookup_insert_ne in H by done. destruct (decide (x = p)) as [->|Hxp].
  - rewrite lookup_insert_eq in H. right. left. split; congruence.
  - rewrite lookup_insert_ne in H by done. auto.
Qed.

Lemma cut_info_cut : cut G (cut_info G p newp i sep) p newp (level i) (low i) sep (high i).
Proof.
  assert (p <> newp) by congruence. constructor; try done.
  - rewrite Hp. by destruct i.
  - intros c j Hc Hj. assert (c <> newp) by congruence. unfold cut_info. by rewrite !lookup_insert_ne by done.
  - unfold cut_info. by rewrite lookup_insert_ne, lookup_insert_eq by done.
  - unfold cut_info. by rewrite lookup_insert_eq.
Qed.

Lemma cut_info_dom x : is_Some (cut_info G p newp i sep !! x) <-> is_Some (G !! x) \/ x = newp.
Proof.
  unfold cut_info. rewrite !lookup_insert_is_Some'. split; [|intros [?| ->]; auto].
  intros [<-|[<-|?]]; [by right|left; by exists i|by left].
Qed.

Lemma cut_info_interval x j : cut_info G p newp i sep !! x = Some j ->
  -1 <= low j /\ low j < high j /\ high j <= u64_max /\ (level j <= L)%nat.
Proof.
  pose proof (info_interval _ _ _ Hi _ _ Hp). intros [[-> ->]|[[-> ->]|(_ & _ & Hx)]]%cut_info_lookup; simpl; [lia|lia|].
  by apply (info_interval _ _ _ Hi x).
Qed.

Lemma cut_info_disjoint x y a b : x <> y -> cut_info G p newp i sep !! x = Some a -> cut_info G p newp i sep !! y = Some b ->
  level a = level b -> high a <= low b \/ high b <= low a.
Proof.
  intros Hne Hx Hy Hl.
  apply cut_info_lookup in Hx as [[-> ->]|[[-> ->]|(Hxp & _ & Hx)]]; apply cut_info_lookup in Hy as [[-> ->]|[[-> ->]|(Hyp & _ & Hy)]];
    simpl in *; try done; try lia.
  - destruct (info_disjoint _ _ _ Hi p y i b (not_eq_sym Hyp) Hp Hy Hl); lia.
  - destruct (info_disjoint _ _ _ Hi p y i b (not_eq_sym Hyp) Hp Hy Hl); lia.
  - destruct (info_disjoint _ _ _ Hi p x i a (not_eq_sym Hxp) Hp Hx (eq_sym Hl)); lia.
  - destruct (info_disjoint _ _ _ Hi p x i a (not_eq_sym Hxp) Hp Hx (eq_sym Hl)); lia.
  - by apply (info_disjoint _ _ _ Hi x y).
Qed.

(** Not at the root: the root keeps its interval. *)
Lemma cut_info_ok : p <> r -> info_ok r (cut_info G p newp i sep) L.
Proof.
  intros Hpr. constructor; [|apply cut_info_interval|apply cut_info_disjoint].
  apply (cut_old _ _ _ _ _ _ _ _ cut_info_cut); [done|]. apply (info_root _ _ _ Hi).
Qed.

(** At the root: a new one above. *)
Lemma new_root_info_ok r2 : r2 <> newp -> G !! r2 = None ->
  info_ok r2 (<[r2 := mkInfo (S L) (-1) u64_max]> (cut_info G p newp i sep)) (S L).
Proof.
  intros Hr2 Hnone. constructor.
  - by rewrite lookup_insert_eq.
  - intros x j Hx. destruct (decide (x = r2)) as [->|].
    + rewrite lookup_insert_eq in Hx. injection Hx as <-. simpl. unfold u64_max. lia.
    + rewrite lookup_insert_ne in Hx by done. apply cut_info_interval in Hx. lia.
  - intros x y a b Hne Hx Hy Hl.
    assert (Hold : forall z c, z <> r2 -> <[r2 := mkInfo (S L) (-1) u64_max]> (cut_info G p newp i sep) !! z = Some c -> (level c <= L)%nat).
    { intros z c Hz Hc. rewrite lookup_insert_ne in Hc by done. apply cut_info_interval in Hc as (_ & _ & _ & Hc); done. }
    destruct (decide (x = r2)) as [->|Hxr], (decide (y = r2)) as [->|Hyr]; [done| | |].
    + specialize (Hold y b Hyr Hy). rewrite lookup_insert_eq in Hx. injection Hx as <-. simpl in Hl. lia.
    + specialize (Hold x a Hxr Hx). rewrite lookup_insert_eq in Hy. injection Hy as <-. simpl in Hl. lia.
    + rewrite lookup_insert_ne in Hx, Hy by done. by apply (cut_info_disjoint x y).
Qed.
End CutInfo.

(** ** split_full *)

Lemma inner_insert_total G i n sep newp r L : info_ok r G L -> body_ok G i (InnerNode n) -> inner_isFull n = false ->
  exists n', inner_insert n sep newp = Some n' /\ inner_version n' = inner_version n /\ inner_count n' = inner_count n + 1.
Proof.
  intros Hi (l & Hl & ks & kids & Hr & H2 & Hne & Hlen & Hk) Hfull.
  assert (Hs : StronglySorted Z.lt ks).
  { pose proof (kids_sorted _ _ _ Hi _ _ _ _ Hk) as Hs. rewrite H2 in Hs. apply StronglySorted_inv in Hs as [Hs _].
    by apply sorted_app_inv in Hs as (Hs & _). }
  assert (Hroom : zlen ks < inner_maxEntries - 1).
  { unfold inner_isFull in Hfull. rewrite (inner_len _ _ _ Hr) in Hfull. btest. lia. }
  destruct (inner_insert_spec n ks _ sep newp Hr Hs Hne Hroom) as (n' & k1 & k2 & c1 & c & c2 & -> & _ & _ & _ & _ & E & Hr2 & Hv).
  exists n'. split; [done|]. split; [done|]. rewrite (inner_len _ _ _ Hr2), (inner_len _ _ _ Hr), !zlen_app, zlen_cons. lia.
Qed.

Lemma upgrade_ok t p nd : heap t !! p = Some nd ->
  upgrade t p (version_of nd) = Some (store t p (set_version nd (wrap64 (version_of nd + 2))), false).
Proof. intros Hp. unfold upgrade. rewrite Hp. cbn [mbind option_bind]. by rewrite upgrade_same. Qed.

Lemma unlock_ok t p nd : heap t !! p = Some nd -> unlock t p = Some (store t p (set_version nd (writeUnlock (version_of nd)))).
Proof. intros Hp. unfold unlock. by rewrite Hp. Qed.

Lemma lookup_store t p nd x : heap (store t p nd) !! x = if decide (x = p) then Some nd else heap t !! x.
Proof. unfold store. cbn [heap]. case_decide; subst; [by rewrite lookup_insert_eq|by rewrite lookup_insert_ne]. Qed.

Lemma heap_store t p nd : heap (store t p nd) = <[p := nd]> (heap t).
Proof. done. Qed.

(** A locked node that has been split is unlocked at the end. *)
Lemma unlocked_half nd nd1 w : unlocked (version_of nd) -> version_of nd1 = version_of (set_version nd (wrap64 (version_of nd + 2))) ->
  w = writeUnlock (version_of nd1) -> unlocked (version_of (set_version nd1 w)).
Proof.
  intros Hu Hv ->. destruct (set_version_same nd1 (writeUnlock (version_of nd1))) as (_ & _ & _ & ->).
  destruct (set_version_same nd (wrap64 (version_of nd + 2))) as (_ & _ & _ & E). rewrite Hv, E. by apply unlocked_again.
Qed.

(** Look a key up through insertions at keys known to be equal or different. *)
Ltac lookup_inserts := repeat first [rewrite lookup_insert_eq | rewrite lookup_insert_ne by (done || lia)].

Section SplitFull.
Context (t : BTree) (G : gmap Z Info) (L : nat) (m : gmap Z Z) (T : tree_ok t G L m).
Context (node : Z) (nd : NodeBase) (i : Info) (Hn : heap t !! node = Some nd) (HG : G !! node = Some i) (Hfull : is_full nd = true).

Lemma locked_body : body_ok G i (set_version nd (wrap64 (version_of nd + 2))) /\
  is_full (set_version nd (wrap64 (version_of nd + 2))) = true /\ unlocked (version_of nd).
Proof.
  pose proof (tree_nodes _ _ _ _ T _ _ _ Hn HG) as [Hu Hok]%node_ok_body. split; [by apply body_ok_version|]. split; [by destruct nd|done].
Qed.

Lemma halves_locked sep nd1 nd2 newp w : halves G node newp i (set_version nd w) nd1 nd2 sep -> halves G node newp i nd nd1 nd2 sep.
Proof. by destruct nd. Qed.

(** The steps of [split_full] with a parent, given what the node methods return. *)
Lemma split_full_parent_run q qn nd1 nd2 sep qn2 :
  heap t !! q = Some (InnerNode qn) -> q <> node -> q <> next_free t -> node <> next_free t ->
  split_node (set_version nd (wrap64 (version_of nd + 2))) (next_free t) = Some (nd1, nd2, sep) ->
  inner_insert (mkInner (wrap64 (inner_version qn + 2)) (inner_count qn) (children qn) (inner_keys qn)) sep (next_free t) = Some qn2 ->
  split_full t node (version_of nd) (Some (q, inner_version qn)) = Some (mkBTree (root t)
    (<[q := set_version (InnerNode qn2) (writeUnlock (inner_version qn2))]> (<[node := set_version nd1 (writeUnlock (version_of nd1))]>
      (<[next_free t := nd2]> (heap t)))) (next_free t + 1)).
Proof.
  intros Hq Hqn Hqnew Hnn Es Ei. unfold split_full, upgrade_parent.
  rewrite (upgrade_ok t q (InnerNode qn) Hq : upgrade t q (inner_version qn) = _). cbn [mbind option_bind].
  rewrite (upgrade_ok _ node nd) by (by rewrite lookup_store, decide_False). cbn [mbind option_bind].
  rewrite lookup_store, decide_True by done. cbn [mbind option_bind next_free store]. rewrite Es.
  cbn [mbind option_bind alloc store heap root next_free]. unfold add_child. cbn [heap].
  rewrite lookup_insert_ne, lookup_insert_ne, lookup_insert_ne, lookup_insert_eq by done. cbn [set_version version_of].
  rewrite Ei. cbn [mbind option_bind].
  rewrite (unlock_ok _ node nd1) by (rewrite lookup_store, decide_False by done; cbn [heap]; by rewrite lookup_insert_ne, lookup_insert_eq).
  cbn [mbind option_bind unlock_parent].
  rewrite (unlock_ok _ q (InnerNode qn2)) by (rewrite lookup_store, decide_False, lookup_store, decide_True by done; done).
  f_equal. unfold store. cbn [root heap next_free]. f_equal. apply map_eq. intros x.
  destruct (decide (x = q)) as [->|]; [by lookup_inserts|]. destruct (decide (x = node)) as [->|]; [by lookup_inserts|].
  destruct (decide (x = next_free t)) as [->|]; by lookup_inserts.
Qed.

Lemma split_full_root_run nd1 nd2 sep rn : root t = node -> node <> next_free t -> node <> next_free t + 1 ->
  split_node (set_version nd (wrap64 (version_of nd + 2))) (next_free t) = Some (nd1, nd2, sep) ->
  make_root sep node (next_free t) = Some rn ->
  split_full t node (version_of nd) None = Some (mkBTree (next_free t + 1)
    (<[next_free t + 1 := InnerNode rn]> (<[node := set_version nd1 (writeUnlock (version_of nd1))]>
      (<[next_free t := nd2]> (heap t)))) (next_free t + 2)).
Proof.
  intros Hroot Hnn Hnn2 Es Er. unfold split_full, upgrade_parent. cbn [mbind option_bind].
  rewrite (upgrade_ok t node nd Hn). cbn [mbind option_bind root store heap next_free]. rewrite Hroot, Z.eqb_refl. cbn [negb].
  rewrite lookup_insert_eq. cbn [mbind option_bind next_free]. rewrite Es. cbn [mbind option_bind alloc store heap root next_free].
  unfold add_child, makeRoot. rewrite Er. cbn [mbind option_bind alloc heap next_free root].
  rewrite (unlock_ok _ node nd1) by (cbn [heap]; by rewrite lookup_insert_ne, lookup_insert_ne, lookup_insert_eq by done).
  cbn [mbind option_bind unlock_parent]. f_equal. unfold store. cbn [root heap next_free]. f_equal; [|lia]. apply map_eq. intros x.
  destruct (decide (x = node)) as [->|]; [by lookup_inserts|]. destruct (decide (x = next_free t + 1)) as [->|]; [by lookup_inserts|].
  destruct (decide (x = next_free t)) as [->|]; by lookup_inserts.
Qed.
Lemma next_free_info : G !! next_free t = None /\ heap t !! next_free t = None.
Proof.
  assert (Hf : heap t !! next_free t = None) by (by eapply newp_fresh). split; [|done].
  apply eq_None_not_Some. intros Hx%(tree_dom _ _ _ _ T). rewrite Hf in Hx. by destruct Hx.
Qed.

(** The node above a split node is unlocked again. *)
Lemma unlocked_parent qn qn2 : unlocked (inner_version qn) -> inner_version qn2 = wrap64 (inner_version qn + 2) ->
  unlocked (version_of (set_version (InnerNode qn2) (writeUnlock (inner_version qn2)))).
Proof. intros Hu Hv. cbn. rewrite Hv. by apply unlocked_again. Qed.

(** The two halves in the tree [t'] after the split. *)
Definition split_into (t' : BTree) (G' : gmap Z Info) : Prop :=
  exists nd1 nd2 sep w, halves G node (next_free t) i nd nd1 nd2 sep /\ cut G G' node (next_free t) (level i) (low i) sep (high i) /\
    heap t' !! node = Some (set_version nd1 w) /\ heap t' !! next_free t = Some nd2.

(** With a parent: the separator goes into the parent. *)
Lemma split_full_parent q vq : parent_ok t G true node i (Some (q, vq)) ->
  exists t' G', split_full t node (version_of nd) (Some (q, vq)) = Some t' /\ tree_ok t' G' L m /\ phi (heap t') < phi (heap t) /\
    split_into t' G'.
Proof.
  intros (qn & iq & Hq & HGq & -> & Hlq & Hlo & Hhi & Hqf). specialize (Hqf eq_refl).
  destruct locked_body as (Hbody & Hfull' & Hu). pose proof (tree_info _ _ _ _ T) as Hi. destruct next_free_info as [HGnew Hfresh].
  pose proof (tree_nodes _ _ _ _ T _ _ _ Hq HGq) as [Huq Hokq]%node_ok_body.
  assert (Hqn : q <> node) by (intros ->; rewrite HG in HGq; injection HGq as ->; lia).
  assert (Hnn : node <> next_free t) by congruence. assert (Hqnew : q <> next_free t) by congruence.
  destruct (split_node_ok _ _ G node (next_free t) i _ Hi Hbody Hfull') as (nd1 & nd2 & sep & Es & Hv1 & Hh). apply halves_locked in Hh.
  set (qn1 := mkInner (wrap64 (inner_version qn + 2)) (inner_count qn) (children qn) (inner_keys qn)).
  assert (Hokq1 : body_ok G iq (InnerNode qn1)) by (by apply (body_ok_version _ _ (InnerNode qn))).
  destruct (inner_insert_total G iq qn1 sep (next_free t) _ _ Hi Hokq1 Hqf) as (qn2 & Ei & Hv2 & Hc2).
  pose proof Hh as (Hsep & _ & _ & _ & Hex & _). pose proof (cut_info_cut G node (next_free t) i sep HG HGnew Hsep) as C.
  eexists _, (cut_info G node (next_free t) i sep). split; [by eapply split_full_parent_run|]. split; [|split].
  - apply (split_tree_ok t G L m T node nd i Hn HG nd1 nd2 (set_version nd1 (writeUnlock (version_of nd1))) sep Hh) with
      (q := q) (qn := mkInner (writeUnlock (inner_version qn2)) (inner_count qn2) (children qn2) (inner_keys qn2)) (iq := iq);
      cbn [root heap next_free]; try done.
    + split; [by apply (unlocked_half nd)|by eexists].
    + apply cut_info_ok; [done..|]. intros ->. rewrite (info_root _ _ _ Hi) in HG. injection HG as <-.
      pose proof (info_interval _ _ _ Hi _ _ HGq). simpl in *. lia.
    + by apply (cut_old _ _ _ _ _ _ _ _ C).
    + apply node_ok_body. split; [by apply (unlocked_parent qn)|].
      apply (body_ok_version _ _ (InnerNode qn2)). by eapply (body_ok_parent _ _ _ _ _ _ _ _ C _ _ Hi iq qn1 qn2).
    + intros l. congruence.
    + intros x j Hx Hj [Hlj [? ?]]. apply Hx. apply (same_node _ _ _ Hi x q j iq (high i) Hj HGq); [lia|lia|lia].
    + intros x. rewrite (cut_info_dom _ _ _ _ _ HG). split; [tauto|]. intros [->|?]; [left; by eexists|tauto].
    + pose proof (tree_height _ _ _ _ T). pose proof (tree_fresh _ _ _ _ T q ltac:(by eexists)). lia.
  - cbn [heap]. rewrite (phi_update _ q (InnerNode qn)) by (by lookup_inserts). rewrite (phi_update _ node nd) by (by lookup_inserts).
    rewrite phi_new by done. destruct (set_version_same nd1 (writeUnlock (version_of nd1))) as (_ & _ & -> & _).
    cbn [excess inner_count set_version]. change (inner_count qn1) with (inner_count qn) in Hc2. lia.
  - exists nd1, nd2, sep, (writeUnlock (version_of nd1)). split; [done|]. split; [done|]. cbn [heap]. split; by lookup_inserts.
Qed.

(** Without: a new root takes both halves. *)
Lemma split_full_root : node = root t ->
  exists t' G', split_full t node (version_of nd) None = Some t' /\ tree_ok t' G' (S L) m /\ phi (heap t') < phi (heap t) /\
    split_into t' G'.
Proof.
  intros Hroot. destruct locked_body as (Hbody & Hfull' & Hu). pose proof (tree_info _ _ _ _ T) as Hi. destruct next_free_info as [HGnew Hfresh].
  assert (Hnf : 0 <= node < next_free t) by (apply (tree_fresh _ _ _ _ T); by eexists).
  destruct (split_node_ok _ _ G node (next_free t) i _ Hi Hbody Hfull') as (nd1 & nd2 & sep & Es & Hv1 & Hh). apply halves_locked in Hh.
  pose proof Hh as (Hsep & _ & _ & _ & Hex & _). pose proof (cut_info_cut G node (next_free t) i sep HG HGnew Hsep) as C.
  destruct (make_root_spec sep node (next_free t)) as (rn & Er & Hrn & Hvr).
  set (r2 := next_free t + 1) in *.
  assert (Hr2 : heap t !! r2 = None).
  { apply eq_None_not_Some. intros Hx%(tree_fresh _ _ _ _ T). lia. }
  assert (HGr2 : G !! r2 = None).
  { apply eq_None_not_Some. intros Hx%(tree_dom _ _ _ _ T). rewrite Hr2 in Hx. by destruct Hx. }
  pose proof (info_root _ _ _ Hi) as HGroot. rewrite <-Hroot, HG in HGroot. injection HGroot as Ei.
  assert (Hinfo : info_ok r2 (<[r2 := mkInfo (S L) (-1) u64_max]> (cut_info G node (next_free t) i sep)) (S L)).
  { apply (new_root_info_ok (root t)); try done; lia. }
  set (G' := <[r2 := mkInfo (S L) (-1) u64_max]> (cut_info G node (next_free t) i sep)) in *.
  assert (C' : cut G G' node (next_free t) (level i) (low i) sep (high i)).
  { destruct C as [? ? ? H4 H5 H6]. constructor; try done; unfold G'.
    - intros c j Hc Hj. rewrite lookup_insert_ne by congruence. by apply H4.
    - by rewrite lookup_insert_ne by lia.
    - by rewrite lookup_insert_ne by lia. }
  eexists _, G'. split; [eapply split_full_root_run; try done; lia|]. split; [|split].
  - apply (split_tree_ok t G L m T node nd i Hn HG nd1 nd2 (set_version nd1 (writeUnlock (version_of nd1))) sep Hh) with
      (q := r2) (qn := rn) (iq := mkInfo (S L) (-1) u64_max); cbn [root heap next_free]; try done; try lia.
    + split; [by apply (unlocked_half nd)|by eexists].
    + unfold G'. by rewrite lookup_insert_eq.
    + apply node_ok_body. split; [cbn; rewrite Hvr; apply unlocked_initial|]. exists L. split; [done|].
      exists [sep], [(node, sep); (next_free t, u64_max)]. split; [done|]. split; [done|]. split; [done|]. split; [done|].
      simpl. pose proof (cut_left _ _ _ _ _ _ _ _ C') as E1. pose proof (cut_right _ _ _ _ _ _ _ _ C') as E2.
      rewrite Ei in E1, E2. by repeat split.
    + intros l. by rewrite Hr2.
    + intros x j _ Hj [Hlj _]. pose proof (info_interval _ _ _ Hi _ _ Hj). rewrite Ei in Hlj. simpl in Hlj. lia.
    + intros x. unfold G'. rewrite lookup_insert_is_Some', (cut_info_dom _ _ _ _ _ HG). split; [intros [<-|?]; tauto|intros [->|?]; tauto].
    + pose proof (tree_height _ _ _ _ T). lia.
  - cbn [heap]. rewrite phi_new by (lookup_inserts; done). rewrite (phi_update _ node nd) by (by lookup_inserts).
    rewrite phi_new by done. destruct (set_version_same nd1 (writeUnlock (version_of nd1))) as (_ & _ & -> & _).
    cbn [excess]. rewrite (inner_len _ _ _ Hrn). change (zlen [sep]) with 1. lia.
  - exists nd1, nd2, sep, (writeUnlock (version_of nd1)). split; [done|]. split; [done|]. cbn [heap]. split; by lookup_inserts.
Qed.
End SplitFull.

(** ** Inserting into a leaf *)

Lemma tree_ok_leaf t G L m m' p l l' i : tree_ok t G L m -> heap t !! p = Some (LeafNode l) -> G !! p = Some i ->
  tnode_ok G i (LeafNode l') -> next_leaf l' = next_leaf l ->
  (forall x v, m' !! x = Some v <-> if decide (low i < x <= high i) then (x, v) ∈ leaf_entries l' else m !! x = Some v) ->
  tree_ok (store t p (LeafNode l')) G L m'.
Proof.
  intros T Hp HG Hok Hnext Hm. constructor.
  - apply (tree_info _ _ _ _ T).
  - intros x. rewrite lookup_store. case_decide; subst; [split; eauto|apply (tree_dom _ _ _ _ T)].
  - intros x nd j Hx Hj. rewrite lookup_store in Hx. case_decide; subst; [by simplify_eq|by eapply (tree_nodes _ _ _ _ T)].
  - intros x Hx. rewrite lookup_store in Hx. apply (tree_fresh _ _ _ _ T). case_decide; subst; [by eexists|done].
  - intros x lx q Hx Hn. rewrite lookup_store in Hx. case_decide; subst.
    + injection Hx as <-. rewrite Hnext in Hn. by eapply (tree_next _ _ _ _ T).
    + by eapply (tree_next _ _ _ _ T).
  - apply (tree_height _ _ _ _ T).
  - intros x v. rewrite Hm. case_decide as Hx.
    + split; [intros Hin; exists p, l'; by rewrite lookup_store, decide_True|]. intros (q & lq & Hq & Hin).
      rewrite lookup_store in Hq. case_decide as Hqp; [by injection Hq as <-|]. exfalso. apply Hqp.
      destruct (node_info _ _ _ _ T _ _ Hq) as (j & Hj & _ & Hl & es & Hr & _ & Hall & _). rewrite (leaf_entries_rep _ _ Hr) in Hin.
      destruct Hok as (_ & Hl' & _). rewrite Forall_forall in Hall.
      apply (same_node _ _ _ (tree_info _ _ _ _ T) q p j i x Hj HG); [congruence| |done].
      apply Hall, list_elem_of_fmap. by exists (x, v).
    + rewrite (tree_map _ _ _ _ T). split; intros (q & lq & Hq & Hin); exists q, lq.
      * rewrite lookup_store. case_decide as Hqp; [|done]. subst q. rewrite Hp in Hq. injection Hq as <-. exfalso. apply Hx.
        destruct (tree_nodes _ _ _ _ T _ _ _ Hp HG) as (_ & _ & es & Hr & _ & Hall & _). rewrite (leaf_entries_rep _ _ Hr) in Hin.
        rewrite Forall_forall in Hall. apply Hall, list_elem_of_fmap. by exists (x, v).
      * rewrite lookup_store in Hq. case_decide as Hqp; [|done]. injection Hq as <-. exfalso. apply Hx.
        destruct Hok as (_ & _ & es & Hr & _ & Hall & _). rewrite (leaf_entries_rep _ _ Hr) in Hin.
        rewrite Forall_forall in Hall. apply Hall, list_elem_of_fmap. by exists (x, v).
Qed.

Section Insert.
Context (k v : Z) (Hk : 0 <= k <= u64_max).

(** The leaf after the call, and what it means for the map. *)
Lemma leaf_insert_map t G L m p l i w : tree_ok t G L m -> heap t !! p = Some (LeafNode l) -> G !! p = Some i ->
  low i < k <= high i -> leaf_isFull l = false ->
  exists l', leaf_insert (mkLeaf w (leaf_count l) (leaf_data l) (next_leaf l)) k v = Some (l', bool_decide (m !! k = None)) /\
    leaf_version l' = w /\ next_leaf l' = next_leaf l /\ leaf_ok G (low i) (high i) l' /\
    forall x u, put_map m k v !! x = Some u <-> if decide (low i < x <= high i) then (x, u) ∈ leaf_entries l' else m !! x = Some u.
Proof.
  intros T Hp HG Hik Hfull. destruct (tree_nodes _ _ _ _ T _ _ _ Hp HG) as (_ & _ & es & Hr & Hs & Hall & Hnext).
  unfold leaf_isFull in Hfull. btest. rewrite (leaf_len _ _ Hr) in Hfull.
  assert (Hlen : zlen es < leaf_maxEntries).
  { assert (zlen es <= leaf_maxEntries); [|lia]. rewrite <-(leaf_size _ _ Hr). destruct (leaf_holds _ _ Hr) as [r ->].
    rewrite zlen_app. pose proof (zlen_nonneg r). lia. }
  assert (Hmap : forall x, low i < x <= high i -> forall u, m !! x = Some u <-> (x, u) ∈ es).
  { intros x Hx u. rewrite <-(leaf_entries_rep _ _ Hr). by apply (leaf_decides _ _ _ _ T _ p l i). }
  pose proof (leaf_insert_spec _ es k v (leaf_rep_version _ _ w Hr) Hs Hlen) as Hins. unfold put_map. case_decide as Hin.
  - apply list_elem_of_fmap in Hin as ([x u] & E & Hin). simpl in E. subst x.
    assert (Hmk : m !! k = Some u) by (by apply Hmap). rewrite Hins, Hmk. eexists. split; [done|]. split; [done|]. split; [done|].
    split; [by exists es; split; [apply leaf_rep_version|]|]. intros x u'. case_decide; [|done].
    rewrite (leaf_entries_rep _ es) by (by apply leaf_rep_version). by apply Hmap.
  - destruct Hins as (l' & a & b & -> & -> & Hr' & Hs' & Hn' & Hv').
    assert (Hmk : m !! k = None).
    { apply eq_None_not_Some. intros [u Hu]. apply Hin, list_elem_of_fmap. exists (k, u). split; [done|]. by apply Hmap. }
    rewrite Hmk. exists l'. split; [done|]. split; [done|]. split; [done|]. split.
    + exists (a ++ (k, v) :: b). split; [done|]. split; [done|]. rewrite Hn', fmap_app in *. destruct Hnext as [Hnext Hclosed]. split; [|split; [done|]].
      * rewrite Forall_forall in Hall |- *. intros x Hx. apply elem_of_app in Hx as [Hx|[->|Hx]%elem_of_cons]; [|done|]; apply Hall, elem_of_app; auto.
      * rewrite elem_of_app in *. cbn. rewrite elem_of_cons. tauto.
    + intros x u. rewrite (leaf_entries_rep _ _ Hr'). case_decide as Hx.
      * rewrite lookup_insert_Some, (Hmap x Hx), !elem_of_app, elem_of_cons. split.
        -- intros [[-> ->]|[? [?|?]]]; auto.
        -- intros [Hu|[[= -> ->]|Hu]]; [right|by left|right]; (split; [|tauto]); intros <-; apply Hin, list_elem_of_fmap;
             exists (k, u); (split; [done|]); apply elem_of_app; tauto.
      * rewrite lookup_insert_ne; [done|]. by intros <-.
Qed.

Lemma store_twice t p nd nd' : store (store t p nd) p nd' = store t p nd'.
Proof. unfold store. cbn. by rewrite insert_insert_eq. Qed.

Lemma insert_into_leaf_spec t G L m p l i parent : tree_ok t G L m -> heap t !! p = Some (LeafNode l) -> G !! p = Some i ->
  low i < k <= high i -> parent_ok t G true p i parent -> leaf_isFull l = false ->
  exists t', insert_into_leaf t k v p (leaf_version l) parent = Some (t', Some (bool_decide (m !! k = None))) /\
    tree_ok t' G L (put_map m k v).
Proof.
  intros T Hp HG Hik Hpar Hfull.
  destruct (leaf_insert_map t G L m p l i (wrap64 (leaf_version l + 2)) T Hp HG Hik Hfull) as (l' & E & Hv & Hn & Hok & Hm).
  unfold insert_into_leaf. rewrite (upgrade_ok t p (LeafNode l) Hp : upgrade t p (leaf_version l) = _). cbn [mbind option_bind].
  assert (Hcp : check_parent (store t p (set_version (LeafNode l) (wrap64 (version_of (LeafNode l) + 2)))) parent = Some false).
  { destruct parent as [[q vq]|]; [|done]. destruct Hpar as (pn & pi & Hq & HGq & -> & Hl & _). unfold check_parent, read_check.
    rewrite lookup_store, decide_False, Hq; [cbn; by rewrite readUnlock_same|]. intros ->. rewrite Hp in Hq. done. }
  rewrite Hcp. cbn [mbind option_bind]. rewrite lookup_store, decide_True by done. cbn [set_version version_of].
  rewrite E. cbn [mbind option_bind]. rewrite (unlock_ok _ p (LeafNode l')) by (by rewrite lookup_store, decide_True).
  cbn [mbind option_bind]. eexists. split; [done|]. rewrite !store_twice. cbn [set_version version_of].
  pose proof (tree_nodes _ _ _ _ T _ _ _ Hp HG) as (Hu & Hl0 & _).
  eapply (tree_ok_leaf t G L m _ p l _ i T Hp HG); [|done|].
  - split; [|split; [done|]].
    + cbn. rewrite Hv. by apply unlocked_again.
    + destruct Hok as (es & Hr & H). exists es. split; [by apply leaf_rep_version|done].
  - intros x u. rewrite Hm. destruct Hok as (es & Hr & _). rewrite (leaf_entries_rep _ _ Hr).
    by rewrite (leaf_entries_rep _ es) by (by apply leaf_rep_version).
Qed.

(** ** insert *)

Lemma insert_attempt_spec t G L m : tree_ok t G L m ->
  exists t' r, insert_attempt t k v = Some (t', r) /\
    match r with
    | None => (exists G' L', tree_ok t' G' L' m) /\ phi (heap t') < phi (heap t)
    | Some ret => ret = bool_decide (m !! k = None) /\ exists G' L', tree_ok t' G' L' (put_map m k v)
    end.
Proof.
  intros T. unfold insert_attempt.
  match goal with |- context [walk t ?re ?b] => destruct (walk_spec t G L m T k Hk true re b (fun '(t', r) =>
    match r with
    | None => (exists G' L', tree_ok t' G' L' m) /\ phi (heap t') < phi (heap t)
    | Some ret => ret = bool_decide (m !! k = None) /\ exists G' L', tree_ok t' G' L' (put_map m k v)
    end)) as ([t' r] & -> & Hr) end; [|by exists t', r].
  intros node vn parent i (nd & i' & Hn & HG' & -> & Hik & Hpar) HG. assert (i' = i) as -> by congruence.
  rewrite Hn. cbn [mbind option_bind].
  assert (Hsplit : is_full nd = true -> exists t' G' L', split_full t node (version_of nd) parent = Some t' /\
    tree_ok t' G' L' m /\ phi (heap t') < phi (heap t)).
  { intros Hf. destruct parent as [[q vq]|].
    - destruct (split_full_parent t G L m T node nd i Hn HG Hf q vq Hpar) as (t' & G' & ? & ? & ? & _). by exists t', G', L.
    - destruct (split_full_root t G L m T node nd i Hn HG Hf Hpar) as (t' & G' & ? & ? & ? & _). by exists t', G', (S L). }
  destruct nd as [l|n]; cbn [is_full version_of] in *.
  - destruct (leaf_isFull l) eqn:Hf.
    + destruct (Hsplit eq_refl) as (t' & G' & L' & -> & T' & Hphi). cbn [mbind option_bind]. split; [by exists G', L'|done].
    + destruct (insert_into_leaf_spec t G L m node l i parent T Hn HG Hik Hpar Hf) as (t' & -> & T'). cbn [mbind option_bind].
      split; [done|]. by exists G, L.
  - destruct (inner_isFull n) eqn:Hf.
    + destruct (Hsplit eq_refl) as (t' & G' & L' & -> & T' & Hphi). cbn [mbind option_bind]. split; [by exists G', L'|done].
    + destruct (step_down_ok t G L m T k true n node parent i Hn HG Hik Hpar ltac:(done)) as (c & ci & vc & -> & Hv & Hci & Hl).
      cbn [mbind option_bind]. split; [done|]. by exists ci.
Qed.

Lemma tree_phi_bound t G L m : tree_ok t G L m -> phi (heap t) <= 16 * Z.of_nat (size (heap t)).
Proof.
  intros T. apply phi_bound. intros p nd Hp. destruct (node_info _ _ _ _ T _ _ Hp) as (i & _ & Hok).
  apply node_ok_body in Hok as [_ Hok]. destruct nd as [l|n]; cbn [excess].
  - destruct Hok as (_ & es & Hr & _). rewrite (leaf_len _ _ Hr). destruct (leaf_holds _ _ Hr) as [r E].
    pose proof (leaf_size _ _ Hr) as Hs. rewrite E, zlen_app in Hs. pose proof (zlen_nonneg r). change leaf_maxEntries with 31 in Hs. lia.
  - destruct Hok as (l & _ & ks & kids & Hr & _ & _ & Hlen & _). rewrite (inner_len _ _ _ Hr). change inner_maxEntries with 31 in Hlen. lia.
Qed.

Lemma tree_insert_spec t G L m : tree_ok t G L m ->
  exists t' G' L', BTreeOLC.insert t k v = Some (t', bool_decide (m !! k = None)) /\ tree_ok t' G' L' (put_map m k v).
Proof.
  intros T. unfold BTreeOLC.insert.
  match goal with |- context [loop ?f ?b ?s0] =>
    destruct (loop_spec (fun t => exists G L, tree_ok t G L m)
      (fun '(t', ret) => ret = bool_decide (m !! k = None) /\ exists G' L', tree_ok t' G' L' (put_map m k v))
      (fun t => phi (heap t)) b) with (fuel := f) (s := s0) as ([t' ret] & -> & -> & G' & L' & T') end.
  - intros t1 (G1 & L1 & T1). destruct (insert_attempt_spec t1 G1 L1 m T1) as (t2 & [ret|] & -> & H); cbn [mbind option_bind]; [done|].
    destruct H as [H Hphi]. split; [done|]. pose proof (phi_nonneg (heap t2)). lia.
  - by exists G, L.
  - pose proof (tree_phi_bound _ _ _ _ T). lia.
  - apply phi_nonneg.
  - by exists t', G', L'.
Qed.
End Insert.

(** ** The empty tree *)

Lemma new_tree_ok : tree_ok new_tree {[ 0 := mkInfo 0 (-1) u64_max ]} 0 ∅.
Proof.
  constructor; cbn [root heap next_free new_tree].
  - constructor.
    + apply lookup_singleton_eq.
    + intros p i [<- <-]%lookup_singleton_Some. simpl. unfold u64_max. lia.
    + intros p q i j Hne [<- <-]%lookup_singleton_Some [<- <-]%lookup_singleton_Some. done.
  - intros p. by rewrite !lookup_singleton_is_Some.
  - intros p nd i [<- <-]%lookup_singleton_Some [_ <-]%lookup_singleton_Some. split; [apply unlocked_initial|]. split; [done|].
    exists []. split; [apply new_leaf_rep|]. split; [constructor|]. split; [constructor|]. split; [done|by left].
  - intros p <-%lookup_singleton_is_Some. lia.
  - intros p l q [_ E]%lookup_singleton_Some. by injection E as <-.
  - lia.
  - intros k v. rewrite lookup_empty. split; [done|]. intros (p & l & [<- [= <-]]%lookup_singleton_Some & Hin). by apply elem_of_nil in Hin.
Qed.
