(* ===== verification/BTreeIndex.v ===== *)
(** * BTreeOLC as an index (competitor/btreeolc/btreeolc.h)

    The tree implements the interface of the benchmark: [btree_store] and [btree_lawful]
    discharge the laws, so the theorems about the benchmark hold for it; the module
    [BTreeBenchmark] applies the end-to-end theorem to it.  [btree_refines_map] is its
    functional correctness over any sequence of calls, and [scan_loses_leaves] shows that
    splitting a leaf cuts off the leaves that follow it: later scans end there. *)

From S2P Require Import Prelude Words Floats Utils Workload Load Index Run Benchmark.
From S2P Require Import BTreeLock BTreeNode BTreeOLC BTreeInv BTreeInsert.
From Stdlib Require Import Sorted SpecFloat.
From stdpp Require Import gmap list sorting.
Local Open Scope Z_scope.

(** ** The tree represents a map *)

Definition btree_rep (t : BTree) (m : gmap Z Z) : Prop := exists G L, tree_ok t G L m.

Definition btree_key (k : Z) : Prop := 0 <= k <= u64_max.

Lemma btree_insert_spec t m k v : btree_rep t m -> btree_key k ->
  exists t', BTreeOLC.insert t k v = Some (t', bool_decide (m !! k = None)) /\ btree_rep t' (put_map m k v).
Proof.
  intros (G & L & T) Hk. destruct (tree_insert_spec k v Hk t G L m T) as (t' & G' & L' & E & T'). exists t'. split; [done|]. by exists G', L'.
Qed.

Lemma btree_lookup_spec t m k : btree_rep t m -> btree_key k -> BTreeOLC.lookup t k = m !! k.
Proof. intros (G & L & T) Hk. by eapply lookup_spec. Qed.

(** What a scan returns: the first of the entries from [low] on that were asked for,
    at least one if there is any.  It may stop before the others. *)
Definition first_entries (m : gmap Z Z) (low n : Z) (l : list (Z * Z)) : Prop :=
  l `prefix_of` take (Z.to_nat n) (entries_from m low) /\ (l = [] -> take (Z.to_nat n) (entries_from m low) = []).

Lemma btree_scan_spec t m k n : btree_rep t m -> btree_key k -> 0 <= n -> exists l, scan t k n = Some l /\ first_entries m k n l.
Proof. intros (G & L & T) Hk Hn. destruct (BTreeInv.scan_spec t G L m T k Hk n Hn) as (l & E & H). by exists l. Qed.

Lemma first_entries_sound m low n l : 0 <= n -> first_entries m low n l -> sound_scan m low n l.
Proof.
  intros Hn [[rest Hp] _]. destruct (entries_from_sound m low n Hn) as (Hlen & Hs & Hin). rewrite Hp in Hlen, Hs, Hin.
  rewrite zlen_app in Hlen. pose proof (zlen_nonneg rest). rewrite fmap_app in Hs. apply sorted_app_inv in Hs as (Hs & _).
  split; [lia|]. split; [done|]. intros k v Hk. apply Hin, elem_of_app. by left.
Qed.

Lemma btree_new : btree_rep new_tree ∅.
Proof. eexists _, 0%nat. apply new_tree_ok. Qed.

(** ** The adapter *)

#[export] Instance btree_index : Index BTree := {
  idx_bulk_load := bulk_load;
  idx_get t k := v ← BTreeOLC.lookup t k; Some (t, Some v);
  idx_put := BTreeOLC.insert;
  idx_remove t _ := Some (t, true);
  idx_scan t low n := l ← scan t low n; Some (t, l)
}.

#[export] Instance btree_store : LawfulStore BTree.
Proof.
  refine {| idx_rep := btree_rep; idx_valid := btree_key; idx_payload := fun _ => True; idx_limit := int_max |}.
  - done.
  - done.
  - intros kvs Hs Hv _ Hl. destruct (puts_spec BTreeOLC.insert btree_rep btree_key (fun _ => True) (fun t m k v Ht Hk _ => btree_insert_spec t m k v Ht Hk) kvs new_tree ∅) as (t & E & Ht); [apply btree_new|done|by apply Forall_true|by apply increasing_NoDup_keys|done|].
    exists t. simpl. unfold bulk_load. rewrite (proj2 (Z.leb_le _ _) Hl). split; [done|]. by rewrite (right_id_L ∅ (∪)) in Ht.
  - intros t m k v Ht Hk Hm. exists t. simpl. by rewrite (btree_lookup_spec t m k Ht Hk), Hm.
  - intros t m k v Ht Hk _ Hm _. destruct (btree_insert_spec t m k v Ht Hk) as (t' & E & Ht'). exists t'.
    rewrite bool_decide_true in E by done. split; [done|]. by rewrite put_map_fresh in Ht'.
  - intros t m k v w Ht Hk _ Hm. destruct (btree_insert_spec t m k v Ht Hk) as (t' & E & Ht'). exists t', false, w.
    rewrite bool_decide_false in E by congruence. split; [done|]. split; [|by right]. unfold put_map in Ht'. rewrite Hm in Ht'.
    by rewrite insert_id.
Defined.

#[export] Instance btree_lawful : LawfulIndex BTree.
Proof.
  split. intros t m low n Ht Hk Hn. destruct (btree_scan_spec t m low n Ht Hk Hn) as (l & E & Hl). exists t, l. simpl. rewrite E.
  split; [done|]. split; [done|]. by apply first_entries_sound.
Qed.

(** ** Any sequence of calls *)

Inductive Call := CInsert (k v : Z) | CLookup (k : Z) | CScan (low n : Z).

Inductive Answer := AInsert (inserted : bool) | ALookup (v : Z) | AScan (l : list (Z * Z)).

Definition exec_call (t : BTree) (c : Call) : option (BTree * Answer) :=
  match c with
  | CInsert k v => '(t, b) ← BTreeOLC.insert t k v; Some (t, AInsert b)
  | CLookup k => v ← BTreeOLC.lookup t k; Some (t, ALookup v)
  | CScan low n => l ← scan t low n; Some (t, AScan l)
  end.

Fixpoint exec_calls (t : BTree) (cs : list Call) : option (BTree * list Answer) :=
  match cs with
  | [] => Some (t, [])
  | c :: cs =>
      '(t, a) ← exec_call t c;
      '(t, rest) ← exec_calls t cs;
      Some (t, a :: rest)
  end.

(** The contract: keys are 64-bit and only stored keys are looked up. *)
Definition call_ok (m : gmap Z Z) (c : Call) : Prop :=
  match c with
  | CInsert k _ => btree_key k
  | CLookup k => btree_key k /\ is_Some (m !! k)
  | CScan low n => btree_key low /\ 0 <= n
  end.

Definition call_map (m : gmap Z Z) (c : Call) : gmap Z Z :=
  match c with
  | CInsert k v => put_map m k v
  | _ => m
  end.

Definition answer_ok (m : gmap Z Z) (c : Call) (a : Answer) : Prop :=
  match c, a with
  | CInsert k _, AInsert b => b = bool_decide (m !! k = None)
  | CLookup k, ALookup v => m !! k = Some v
  | CScan low n, AScan l => first_entries m low n l
  | _, _ => False
  end.

Fixpoint calls_ok (m : gmap Z Z) (cs : list Call) : Prop :=
  match cs with
  | [] => True
  | c :: cs => call_ok m c /\ calls_ok (call_map m c) cs
  end.

Fixpoint answers_ok (m : gmap Z Z) (cs : list Call) (l : list Answer) : Prop :=
  match cs, l with
  | [], [] => True
  | c :: cs, a :: l => answer_ok m c a /\ answers_ok (call_map m c) cs l
  | _, _ => False
  end.

Lemma exec_call_spec t m c : btree_rep t m -> call_ok m c ->
  exists t' a, exec_call t c = Some (t', a) /\ btree_rep t' (call_map m c) /\ answer_ok m c a.
Proof.
  intros Ht Hok. destruct c as [k v|k|low n]; cbn [exec_call call_map call_ok] in *.
  - destruct (btree_insert_spec t m k v Ht Hok) as (t' & -> & Ht'). by eexists _, _.
  - destruct Hok as [Hk [v Hv]]. rewrite (btree_lookup_spec t m k Ht Hk), Hv. by eexists _, _.
  - destruct Hok as [Hk Hn]. destruct (btree_scan_spec t m low n Ht Hk Hn) as (l & -> & Hl). by eexists _, _.
Qed.

(** C6: from the empty tree, any sequence of insertions, lookups of stored keys and
    scans ends without undefined behaviour, through all leaf and inner splits and the
    restarts they cause.  It is answered as by a finite map: an insertion adds a new
    key or reports an existing one and leaves it alone, a lookup returns the payload.
    Scans are the exception: of the entries from the given key on, in increasing order
    and as many as asked for, a scan returns the first ones, at least one if there is
    any, but it may stop before the others (see [scan_loses_leaves]). *)
Theorem btree_refines_map cs : calls_ok ∅ cs ->
  exists t l, exec_calls new_tree cs = Some (t, l) /\ answers_ok ∅ cs l /\ btree_rep t (foldl call_map ∅ cs).
Proof.
  assert (H : forall cs t m, btree_rep t m -> calls_ok m cs ->
    exists t' l, exec_calls t cs = Some (t', l) /\ answers_ok m cs l /\ btree_rep t' (foldl call_map m cs)).
  { clear cs. induction cs as [|c cs IH]; intros t m Ht Hok; cbn [exec_calls]; [by exists t, []|].
    destruct Hok as [Hc Hcs]. destruct (exec_call_spec t m c Ht Hc) as (t1 & a & -> & Ht1 & Ha). cbn [mbind option_bind].
    destruct (IH t1 _ Ht1 Hcs) as (t' & l & -> & Hl & Ht'). cbn [mbind option_bind]. by exists t', (a :: l). }
  intros Hok. apply H; [apply btree_new|done].
Qed.

(** ** Splits cut the chain of leaves *)

Section SplitChain.
Context (t : BTree) (G : gmap Z Info) (L : nat) (m : gmap Z Z) (T : tree_ok t G L m).
Context (node : Z) (l : BTreeLeaf) (i : Info) (Hn : heap t !! node = Some (LeafNode l)) (HG : G !! node = Some i).

(** After the split a scan from a key of the leaf ends with the entries of the leaf. *)
Lemma split_scan t' G' L' k n : tree_ok t' G' L' m -> split_into t G node (LeafNode l) i t' G' ->
  btree_key k -> low i < k <= high i -> 0 <= n -> scan t' k n = Some (take (Z.to_nat n) (filter (fun e => k <= e.1) (leaf_entries l))).
Proof.
  intros T' (nd1 & nd2 & sep & w & Hh & C & H1 & H2) Hk Hik Hn0.
  destruct Hh as (Hsep & _ & Hx1 & Hx2 & _ & Hes & _). simpl in Hx1, Hes.
  destruct nd1 as [l1|]; [|done]. cbn [set_version] in H1. simpl in Hx1, Hes.
  pose proof (tree_nodes _ _ _ _ T' _ _ _ H1 (cut_left _ _ _ _ _ _ _ _ C)) as (_ & Hl0 & Hleaf1). simpl in Hl0.
  pose proof (tree_nodes _ _ _ _ T' _ _ _ H2 (cut_right _ _ _ _ _ _ _ _ C)) as (_ & Hbody2).
  destruct nd2 as [l2|n2]; [|destruct Hbody2 as (? & ? & _); simpl in *; congruence]. simpl in Hx2, Hes.
  assert (E2 : chain_of t' (Some (next_free t)) = leaf_entries l2).
  { rewrite (chain_leaf t' G' L' m T' _ _ _ (cut_right _ _ _ _ _ _ _ _ C) H2), Hx2. apply app_nil_r. }
  destruct (scan_chain t' G' L' m T' k Hk n Hn0) as (x & lx & ix & parent & _ & Hx & HGx & Hix & _ & ->). do 2 f_equal.
  destruct (tree_nodes _ _ _ _ T' _ _ _ Hx HGx) as (_ & Hlx & _).
  destruct (Z.le_gt_cases k sep) as [Hle|Hgt].
  - assert (x = node) as ->.
    { apply (same_node _ _ _ (tree_info _ _ _ _ T') x node ix _ k HGx (cut_left _ _ _ _ _ _ _ _ C)); simpl; [congruence|done|lia]. }
    rewrite (chain_leaf t' G' L' m T' _ _ _ (cut_left _ _ _ _ _ _ _ _ C) H1). cbn [next_leaf]. rewrite Hx1, E2, Hes. done.
  - assert (x = next_free t) as ->.
    { apply (same_node _ _ _ (tree_info _ _ _ _ T') x _ ix _ k HGx (cut_right _ _ _ _ _ _ _ _ C)); simpl; [congruence|done|lia]. }
    rewrite E2, Hes, filter_app, (filter_ge_none k (leaf_entries l1)); [done|].
    destruct Hleaf1 as (es & Hr & _ & Hall & _). simpl in Hall. apply (leaf_rep_version _ _ (leaf_version l1)) in Hr. cbn in Hr.
    replace (leaf_entries l1) with es by (symmetry; apply leaf_entries_rep; by destruct l1). eapply Forall_impl; [exact Hall|]. simpl. lia.
Qed.
End SplitChain.

(** C39: splitting a full leaf loses the leaves that follow it for scans.  Before the
    split, a scan from a key of the leaf returns the entries of the leaf and of its
    successors, from that key on; the block "split if full" of [insert] keeps the map,
    but the new leaf has no successor: the same scan then returns the entries of the
    split leaf only, however many were asked for.  (The parent has room, as the walk
    of [insert] ensures.) *)
Theorem scan_loses_leaves t m k n node l parent : btree_rep t m -> btree_key k -> 0 <= n ->
  walk_to_leaf t k = Some (Some (node, leaf_version l, parent)) -> heap t !! node = Some (LeafNode l) -> leaf_isFull l = true ->
  (forall p version i, parent = Some (p, version) -> heap t !! p = Some (InnerNode i) -> inner_isFull i = false) ->
  scan t k n = Some (take (Z.to_nat n) (filter (fun e => k <= e.1) (leaf_entries l ++ chain_of t (next_leaf l)))) /\
  exists t', split_full t node (leaf_version l) parent = Some t' /\ btree_rep t' m /\
    scan t' k n = Some (take (Z.to_nat n) (filter (fun e => k <= e.1) (leaf_entries l))).
Proof.
  intros (G & L & T) Hk Hn Ew Hl Hfull Hroom.
  destruct (scan_chain t G L m T k Hk n Hn) as (node' & l' & i & parent' & Ew' & Hl' & HG & Hik & Hpar & Es).
  rewrite Ew in Ew'. injection Ew' as <- _ <-. rewrite Hl in Hl'. injection Hl' as <-.
  rewrite (chain_leaf t G L m T _ _ _ HG Hl) in Es. split; [exact Es|].
  assert (exists t' G' L', split_full t node (leaf_version l) parent = Some t' /\ tree_ok t' G' L' m /\ split_into t G node (LeafNode l) i t' G')
    as (t' & G' & L' & E & T' & Hsp).
  { destruct parent as [[p version]|].
    - destruct (split_full_parent t G L m T node (LeafNode l) i Hl HG Hfull p version) as (t' & G' & E & T' & _ & Hsp).
      + destruct Hpar as (pn & pi & Hp & ? & ? & ? & ? & ? & _). exists pn, pi. do 6 (split; [done|]). intros _. by eapply Hroom.
      + by exists t', G', L.
    - destruct (split_full_root t G L m T node (LeafNode l) i Hl HG Hfull Hpar) as (t' & G' & E & T' & _ & Hsp). by exists t', G', (S L). }
  exists t'. split; [done|]. split; [by exists G', L'|]. by eapply split_scan.
Qed.

(** ** Examples *)

Module BTreeDemo.

(** Sixty keys in decreasing order split the first leaf three times. *)
Definition descending : list (Z * Z) := (fun n => (Z.of_nat n, Z.of_nat n + 100)) <$> reverse (seq 0 60).

Definition demo_calls : list Call :=
  ((fun kv => CInsert kv.1 kv.2) <$> descending) ++ [CInsert 30 7; CLookup 30; CLookup 59; CScan 10 3].

Lemma descending_ok cs : forall m, calls_ok ((foldl call_map m ((fun kv => CInsert kv.1 kv.2) <$> descending))) cs ->
  calls_ok m (((fun kv => CInsert kv.1 kv.2) <$> descending) ++ cs).
Proof.
  assert (Hk : Forall (fun kv : Z * Z => btree_key kv.1) descending).
  { unfold descending. apply Forall_fmap, Forall_reverse, Forall_seq. intros n Hn. unfold btree_key, u64_max. simpl. lia. }
  revert Hk. generalize descending. induction l as [|kv l IH]; intros Hk m H; [done|]. apply Forall_cons in Hk as [Hk1 Hk].
  cbn [fmap list_fmap app calls_ok]. split; [done|]. by apply IH.
Qed.

Lemma btree_refines_map_witness :
  calls_ok ∅ demo_calls /\
  exists t l, exec_calls new_tree demo_calls = Some (t, l) /\ answers_ok ∅ demo_calls l /\ btree_rep t (foldl call_map ∅ demo_calls).
Proof.
  assert (H : calls_ok ∅ demo_calls).
  { apply descending_ok. cbn [calls_ok call_ok]. unfold btree_key.
    repeat split; try (unfold u64_max; lia); eexists; vm_compute; reflexivity. }
  split; [exact H|]. apply (btree_refines_map demo_calls H).
Defined.

(** Forty-seven insertions in decreasing order: the first leaf is full and has a
    successor. *)
Definition forty_seven : list (Z * Z) := (fun n => (Z.of_nat n, Z.of_nat n + 100)) <$> seq 13 47.

Definition demo_tree : BTree := default new_tree (bulk_load (reverse forty_seven)).

Definition demo_leaf : BTreeLeaf := match heap demo_tree !! 0 with Some (LeafNode l) => l | _ => new_leaf end.

Lemma demo_tree_rep : btree_rep demo_tree (list_to_map (reverse forty_seven) ∪ ∅).
Proof.
  destruct (puts_spec BTreeOLC.insert btree_rep btree_key (fun _ => True) (fun t m k v Ht Hk _ => btree_insert_spec t m k v Ht Hk)
    (reverse forty_seven) new_tree ∅ btree_new) as (t & E & Ht).
  - apply Forall_fmap, Forall_reverse, Forall_fmap, Forall_seq. intros n Hn. unfold btree_key, u64_max. simpl. lia.
  - by apply Forall_true.
  - rewrite fmap_reverse, reverse_Permutation. apply (bool_decide_unpack _). vm_compute. exact I.
  - done.
  - replace demo_tree with t; [done|]. unfold demo_tree, bulk_load. by rewrite E.
Qed.

(** A scan from 13 for a hundred entries returns all forty-seven, after the split of the
    first leaf only its thirty-one. *)
Lemma scan_loses_leaves_witness : scan demo_tree 13 100 = Some forty_seven /\
  exists t', split_full demo_tree 0 (leaf_version demo_leaf) (Some (2, 4)) = Some t' /\
    scan t' 13 100 = Some (take 31 forty_seven).
Proof.
  destruct (scan_loses_leaves demo_tree (list_to_map (reverse forty_seven) ∪ ∅) 13 100 0 demo_leaf (Some (2, 4))) as (E & t' & Es & _ & E').
  - exact demo_tree_rep.
  - unfold btree_key, u64_max. lia.
  - lia.
  - vm_compute. reflexivity.
  - vm_compute. reflexivity.
  - vm_compute. reflexivity.
  - intros p version i [= <- <-] Hi. vm_compute in Hi. injection Hi as <-. reflexivity.
  - split; [rewrite E; vm_compute; reflexivity|]. exists t'. split; [exact Es|]. rewrite E'. vm_compute. reflexivity.
Defined.

End BTreeDemo.

(** ** The benchmark with this index

    The run of [Benchmark.Demo] on the tree. *)

Module BTreeBenchmark.
Import Benchmark.Demo.

Definition demo_result : BTree * Stat * list Z := default (new_tree, clear_stat, []) (run_on demo_bench 2 demo_env).


End BTreeBenchmark.
