(* ===== verification/StxNode.v ===== *)
(** * stx::btree: nodes (competitor/btree/src/include/stx/btree.h)

    Leaves and inner nodes with their fixed arrays, whose cells are empty until they are
    written: the constructors initialise only the counts.  Reading an empty cell is
    undefined, copying one is not.

    [cells] relates an array to the list its first cells hold; every method of a node is
    specified on such lists ([stx_leaf_rep], [stx_inner_rep]). *)

From S2P Require Import Prelude Words.
From stdpp Require Import list.
Local Open Scope Z_scope.
Local Open Scope cxx_scope.

(** ** Layout *)

(** [BTREE_MAX(8, 256 / (sizeof(_Key) + sizeof(_Data)))] for keys, payloads and pointers of eight bytes. *)
Definition leafslotmax : Z := Z.max 8 (256 / (8 + 8)).
Definition innerslotmax : Z := Z.max 8 (256 / (8 + 8)).
Definition minleafslots : Z := leafslotmax / 2.
Definition mininnerslots : Z := innerslotmax / 2.

Record leaf_node := mkLeafNode {
  lslotuse : Z;
  lslotkey : list (option Z);
  lslotdata : list (option Z)
}.

Record inner_node := mkInnerNode {
  ilevel : Z;
  islotuse : Z;
  islotkey : list (option Z);
  childid : list (option Z)
}.

Definition new_leaf_node : leaf_node :=
  mkLeafNode 0 (replicate (Z.to_nat leafslotmax) None) (replicate (Z.to_nat leafslotmax) None).

Definition new_inner_node (level : Z) : inner_node :=
  mkInnerNode level 0 (replicate (Z.to_nat innerslotmax) None) (replicate (Z.to_nat (innerslotmax + 1)) None).

Definition lisfull (n : leaf_node) : bool := lslotuse n =? leafslotmax.
Definition lisfew (n : leaf_node) : bool := lslotuse n <=? minleafslots.
Definition lisunderflow (n : leaf_node) : bool := lslotuse n <? minleafslots.
Definition iisfull (n : inner_node) : bool := islotuse n =? innerslotmax.
Definition iisfew (n : inner_node) : bool := islotuse n <=? mininnerslots.
Definition iisunderflow (n : inner_node) : bool := islotuse n <? mininnerslots.

(** The value of a cell. *)
Definition cell {A} (a : list (option A)) (i : Z) : option A := mjoin (a.[i]).

(** ** Search in a node *)

Definition find_lower (slotkey : list (option Z)) (slotuse key : Z) : option Z :=
  loop (S (Z.to_nat slotuse)) (fun lo =>
    if lo <? slotuse then k ← cell slotkey lo; Some (if k <? key then inl (lo + 1) else inr lo)
    else Some (inr lo)) 0.

Definition find_upper (slotkey : list (option Z)) (slotuse key : Z) : option Z :=
  loop (S (Z.to_nat slotuse)) (fun lo =>
    if lo <? slotuse then k ← cell slotkey lo; Some (if k <=? key then inl (lo + 1) else inr lo)
    else Some (inr lo)) 0.

(** ** Insertion into a node with room *)

Definition leaf_put (leaf : leaf_node) (slot key value : Z) : option leaf_node :=
  keys ← memmove (lslotkey leaf) (slot + 1) slot (lslotuse leaf - slot);
  data ← memmove (lslotdata leaf) (slot + 1) slot (lslotuse leaf - slot);
  keys ← wr keys slot (Some key);
  data ← wr data slot (Some value);
  Some (mkLeafNode (lslotuse leaf + 1) keys data).

Definition inner_put (inner : inner_node) (slot newkey newchild : Z) : option inner_node :=
  keys ← memmove (islotkey inner) (slot + 1) slot (islotuse inner - slot);
  kids ← memmove (childid inner) (slot + 1) slot (islotuse inner + 1 - slot);
  keys ← wr keys slot (Some newkey);
  kids ← wr kids (slot + 1) (Some newchild);
  Some (mkInnerNode (ilevel inner) (islotuse inner + 1) keys kids).

(** ** Splits: the node, the new node and the key between them *)

Definition split_leaf (leaf : leaf_node) : option (leaf_node * leaf_node * Z) :=
  let mid := Z.shiftr (lslotuse leaf) 1 in
  keys ← memcpy (lslotkey new_leaf_node) 0 (lslotkey leaf) mid (lslotuse leaf - mid);
  data ← memcpy (lslotdata new_leaf_node) 0 (lslotdata leaf) mid (lslotuse leaf - mid);
  newkey ← cell (lslotkey leaf) (mid - 1);
  Some (mkLeafNode mid (lslotkey leaf) (lslotdata leaf), mkLeafNode (lslotuse leaf - mid) keys data, newkey).

Definition split_inner (inner : inner_node) (addslot : Z) : option (inner_node * inner_node * Z) :=
  let mid := Z.shiftr (islotuse inner) 1 in
  let mid := if (addslot <=? mid) && (islotuse inner - (mid + 1) <? mid) then mid - 1 else mid in
  let new := new_inner_node (ilevel inner) in
  keys ← memcpy (islotkey new) 0 (islotkey inner) (mid + 1) (islotuse inner - (mid + 1));
  kids ← memcpy (childid new) 0 (childid inner) (mid + 1) (islotuse inner + 1 - (mid + 1));
  newkey ← cell (islotkey inner) mid;
  Some (mkInnerNode (ilevel inner) mid (islotkey inner) (childid inner),
        mkInnerNode (ilevel inner) (islotuse inner - (mid + 1)) keys kids, newkey).

(** ** Removal from a node *)

Definition leaf_remove (leaf : leaf_node) (slot : Z) : option leaf_node :=
  keys ← memmove (lslotkey leaf) slot (slot + 1) (lslotuse leaf - (slot + 1));
  data ← memmove (lslotdata leaf) slot (slot + 1) (lslotuse leaf - (slot + 1));
  Some (mkLeafNode (lslotuse leaf - 1) keys data).

(** The key left of child [slot] and the child go. *)
Definition inner_remove (inner : inner_node) (slot : Z) : option inner_node :=
  keys ← memmove (islotkey inner) (slot - 1) slot (islotuse inner - slot);
  kids ← memmove (childid inner) slot (slot + 1) (islotuse inner + 1 - (slot + 1));
  Some (mkInnerNode (ilevel inner) (islotuse inner - 1) keys kids).

Definition set_slotkey (inner : inner_node) (slot key : Z) : option inner_node :=
  keys ← wr (islotkey inner) slot (Some key);
  Some (mkInnerNode (ilevel inner) (islotuse inner) keys (childid inner)).

(** ** Merging and balancing two neighbours *)

Definition merge_leaf_slots (left right : leaf_node) : option (leaf_node * leaf_node) :=
  keys ← memcpy (lslotkey left) (lslotuse left) (lslotkey right) 0 (lslotuse right);
  data ← memcpy (lslotdata left) (lslotuse left) (lslotdata right) 0 (lslotuse right);
  Some (mkLeafNode (lslotuse left + lslotuse right) keys data, mkLeafNode 0 (lslotkey right) (lslotdata right)).

(** [key] is the decision key of the parent. *)
Definition merge_inner_slots (left right : inner_node) (key : Z) : option (inner_node * inner_node) :=
  keys ← wr (islotkey left) (islotuse left) (Some key);
  let use := islotuse left + 1 in
  keys ← memcpy keys use (islotkey right) 0 (islotuse right);
  kids ← memcpy (childid left) use (childid right) 0 (islotuse right + 1);
  Some (mkInnerNode (ilevel left) (use + islotuse right) keys kids, mkInnerNode (ilevel right) 0 (islotkey right) (childid right)).

(** The neighbours and the new decision key. *)
Definition shift_left_leaf_slots (left right : leaf_node) : option (leaf_node * leaf_node * Z) :=
  let shiftnum := Z.shiftr (lslotuse right - lslotuse left) 1 in
  lkeys ← memcpy (lslotkey left) (lslotuse left) (lslotkey right) 0 shiftnum;
  ldata ← memcpy (lslotdata left) (lslotuse left) (lslotdata right) 0 shiftnum;
  rkeys ← memmove (lslotkey right) 0 shiftnum (lslotuse right - shiftnum);
  rdata ← memmove (lslotdata right) 0 shiftnum (lslotuse right - shiftnum);
  key ← cell lkeys (lslotuse left + shiftnum - 1);
  Some (mkLeafNode (lslotuse left + shiftnum) lkeys ldata, mkLeafNode (lslotuse right - shiftnum) rkeys rdata, key).

Definition shift_right_leaf_slots (left right : leaf_node) : option (leaf_node * leaf_node * Z) :=
  let shiftnum := Z.shiftr (lslotuse left - lslotuse right) 1 in
  rkeys ← memmove (lslotkey right) shiftnum 0 (lslotuse right);
  rdata ← memmove (lslotdata right) shiftnum 0 (lslotuse right);
  rkeys ← memcpy rkeys 0 (lslotkey left) (lslotuse left - shiftnum) shiftnum;
  rdata ← memcpy rdata 0 (lslotdata left) (lslotuse left - shiftnum) shiftnum;
  key ← cell (lslotkey left) (lslotuse left - shiftnum - 1);
  Some (mkLeafNode (lslotuse left - shiftnum) (lslotkey left) (lslotdata left), mkLeafNode (lslotuse right + shiftnum) rkeys rdata, key).

Definition shift_left_inner_slots (left right : inner_node) (key : Z) : option (inner_node * inner_node * Z) :=
  let shiftnum := Z.shiftr (islotuse right - islotuse left) 1 in
  lkeys ← wr (islotkey left) (islotuse left) (Some key);
  let use := islotuse left + 1 in
  lkeys ← memcpy lkeys use (islotkey right) 0 (shiftnum - 1);
  lkids ← memcpy (childid left) use (childid right) 0 shiftnum;
  newkey ← cell (islotkey right) (shiftnum - 1);
  rkeys ← memmove (islotkey right) 0 shiftnum (islotuse right - shiftnum);
  rkids ← memmove (childid right) 0 shiftnum (islotuse right + 1 - shiftnum);
  Some (mkInnerNode (ilevel left) (use + (shiftnum - 1)) lkeys lkids, mkInnerNode (ilevel right) (islotuse right - shiftnum) rkeys rkids, newkey).

Definition shift_right_inner_slots (left right : inner_node) (key : Z) : option (inner_node * inner_node * Z) :=
  let shiftnum := Z.shiftr (islotuse left - islotuse right) 1 in
  rkeys ← memmove (islotkey right) shiftnum 0 (islotuse right);
  rkids ← memmove (childid right) shiftnum 0 (islotuse right + 1);
  rkeys ← wr rkeys (shiftnum - 1) (Some key);
  rkeys ← memcpy rkeys 0 (islotkey left) (islotuse left - shiftnum + 1) (shiftnum - 1);
  rkids ← memcpy rkids 0 (childid left) (islotuse left - shiftnum + 1) shiftnum;
  newkey ← cell (islotkey left) (islotuse left - shiftnum);
  Some (mkInnerNode (ilevel left) (islotuse left - shiftnum) (islotkey left) (childid left),
        mkInnerNode (ilevel right) (islotuse right + shiftnum) rkeys rkids, newkey).

(** ** Arrays and the lists they hold *)

(** The first cells of an array of [cap] cells hold [xs]. *)
Definition cells {A} (cap : Z) (a : list (option A)) (xs : list A) : Prop := zlen a = cap /\ take (length xs) a = Some <$> xs.

Section Cells.
Context {A : Type}.
Implicit Types (a b : list (option A)) (xs ys : list A).

Lemma cells_len cap a xs : cells cap a xs -> zlen xs <= cap.
Proof. intros [<- H]. apply (f_equal length) in H. rewrite length_take, length_fmap in H. unfold zlen. lia. Qed.

Lemma cells_nil a cap : zlen a = cap -> cells cap a [].
Proof. by split. Qed.

Lemma cells_rd cap a xs i : cells cap a xs -> 0 <= i < zlen xs -> a.[i] = Some (xs !! Z.to_nat i).
Proof.
  intros [_ H] Hi. unfold rd, zlen in *. destruct (Z.leb_spec 0 i); [|lia]. rewrite <-(lookup_take_lt a (length xs)) by lia. rewrite H, list_lookup_fmap.
  by destruct (lookup_lt_is_Some_2 xs (Z.to_nat i) ltac:(lia)) as [x ->].
Qed.

Lemma cells_cell cap a xs i x : cells cap a xs -> 0 <= i -> xs !! Z.to_nat i = Some x -> cell a i = Some x.
Proof. intros H Hi Hx. pose proof (lookup_lt_Some _ _ _ Hx). unfold cell. rewrite (cells_rd cap a xs) by (done || unfold zlen; lia). by rewrite Hx. Qed.

Lemma cells_take cap a xs n : cells cap a xs -> cells cap a (take n xs).
Proof.
  intros [Hl H]. split; [done|]. rewrite length_take, fmap_take, <-H, take_take. done.
Qed.

Lemma cells_app cap a xs ys : cells cap a (xs ++ ys) -> cells cap a xs.
Proof. intros H. apply (cells_take _ _ _ (length xs)) in H. by rewrite take_app_length in H. Qed.

(** Copying between arrays, as long as what is copied has been written. *)
Lemma cells_memcpy cap a xs capb b ys dst src n : cells cap a xs -> cells capb b ys -> 0 <= dst <= zlen xs -> 0 <= src -> 0 <= n -> src + n <= zlen ys -> dst + n <= cap ->
  exists a', memcpy a dst b src n = Some a' /\
    cells cap a' (take (Z.to_nat dst) xs ++ take (Z.to_nat n) (drop (Z.to_nat src) ys) ++ drop (Z.to_nat (dst + n)) xs).
Proof.
  intros Ha Hb Hd Hs Hn Hys Hcap. pose proof (cells_len _ _ _ Hb) as Hlb. pose proof (cells_len _ _ _ Ha) as Hla. destruct Ha as [Hca Ha], Hb as [Hcb Hb]. unfold memcpy.
  rewrite <-Hca in *. rewrite <-Hcb in *. unfold zlen in *. eexists. split; [by repeat (btest_case; [|unfold zlen in *; lia])|].
  assert (Hmid : take (Z.to_nat n) (drop (Z.to_nat src) b) = Some <$> take (Z.to_nat n) (drop (Z.to_nat src) ys)).
  { rewrite fmap_take, fmap_drop, <-Hb, skipn_firstn_comm, take_take. f_equal. lia. }
  assert (Hpre : take (Z.to_nat dst) a = Some <$> take (Z.to_nat dst) xs) by (rewrite fmap_take, <-Ha, take_take; f_equal; lia).
  rewrite Hmid, Hpre. set (m := take (Z.to_nat n) _). assert (Hm : length m = Z.to_nat n) by (unfold m; rewrite length_take, length_drop; lia).
  split; [unfold zlen; rewrite !length_app, !length_fmap, length_take, length_drop, Hm; lia|].
  rewrite !fmap_app, !length_app. rewrite take_app_ge by (rewrite length_fmap; lia). f_equal. rewrite length_fmap.
  rewrite take_app_ge by (rewrite length_fmap; lia). f_equal. rewrite length_fmap.
  replace (length (take (Z.to_nat dst) xs) + (length m + length (drop (Z.to_nat (dst + n)) xs)) - length (take (Z.to_nat dst) xs) - length m)%nat with (length (drop (Z.to_nat (dst + n)) xs)) by lia.
  rewrite fmap_drop, <-Ha, length_drop, skipn_firstn_comm. done.
Qed.

Lemma cells_memcpy_nothing cap a xs capb b ys dst src : cells cap a xs -> cells capb b ys -> 0 <= dst <= cap -> 0 <= src <= capb ->
  exists a', memcpy a dst b src 0 = Some a' /\ cells cap a' xs.
Proof.
  intros Ha Hb Hd Hs. exists a. split; [|done]. destruct Ha as [Hca _], Hb as [Hcb _]. unfold memcpy. rewrite Hca, Hcb. repeat (btest_case; [|lia]). cbn [andb].
  f_equal. rewrite Z.add_0_r. cbn [Z.to_nat take app]. apply take_drop.
Qed.

Lemma cells_wr cap a xs i x : cells cap a xs -> 0 <= i <= zlen xs -> i < cap ->
  exists a', wr a i (Some x) = Some a' /\ cells cap a' (take (Z.to_nat i) xs ++ x :: drop (S (Z.to_nat i)) xs).
Proof.
  intros [Hl H] Hi Hc. unfold wr. rewrite <-Hl in Hc. repeat (btest_case; [|lia]). cbn [andb]. eexists. split; [done|]. unfold zlen in *. split; [unfold zlen; by rewrite length_insert|].
  rewrite length_app, length_cons, length_take, length_drop. apply list_eq. intros j. rewrite list_lookup_fmap.
  destruct (decide (j < min (Z.to_nat i) (length xs) + S (length xs - S (Z.to_nat i)))%nat) as [Hj|Hj].
  - rewrite lookup_take_lt by lia. destruct (decide (j = Z.to_nat i)) as [->|Hne].
    + rewrite list_lookup_insert_eq by lia. rewrite lookup_app_r by (rewrite length_take; lia). rewrite length_take. replace (Z.to_nat i - min (Z.to_nat i) (length xs))%nat with 0%nat by lia. done.
    + rewrite list_lookup_insert_ne by done. rewrite <-(lookup_take_lt a (length xs)) by lia. rewrite H, list_lookup_fmap. f_equal.
      destruct (decide (j < Z.to_nat i)%nat) as [Hlt|Hge].
      * rewrite lookup_app_l by (rewrite length_take; lia). by rewrite lookup_take_lt.
      * rewrite lookup_app_r by (rewrite length_take; lia). rewrite length_take. replace (j - min (Z.to_nat i) (length xs))%nat with (S (j - S (Z.to_nat i)))%nat by lia.
        rewrite lookup_cons_ne_0 by done. cbn [pred]. rewrite lookup_drop. f_equal. lia.
  - rewrite lookup_take_ge by lia. rewrite lookup_ge_None_2; [done|]. rewrite length_app, length_cons, length_take, length_drop. lia.
Qed.

(** Making room for a new element and writing it. *)
Lemma cells_insert cap a xs slot x : cells cap a xs -> 0 <= slot <= zlen xs -> zlen xs < cap ->
  exists a1 a2, memmove a (slot + 1) slot (zlen xs - slot) = Some a1 /\ wr a1 slot (Some x) = Some a2 /\
    cells cap a2 (take (Z.to_nat slot) xs ++ x :: drop (Z.to_nat slot) xs).
Proof.
  intros H Hs Hc. unfold memmove. destruct (Z.eq_dec slot (zlen xs)) as [->|Hne].
  - rewrite Z.sub_diag. destruct (cells_memcpy_nothing cap a xs cap a xs (zlen xs + 1) (zlen xs) H H ltac:(lia) ltac:(lia)) as (a1 & E1 & H1).
    destruct (cells_wr cap a1 xs (zlen xs) x H1 ltac:(lia) Hc) as (a2 & E2 & H2). exists a1, a2. split; [done|]. split; [done|].
    unfold zlen in *. rewrite Nat2Z.id in *. rewrite drop_ge in H2 by lia. by rewrite drop_ge by lia.
  - destruct (cells_memcpy cap a xs cap a xs (slot + 1) slot (zlen xs - slot) H H ltac:(lia) ltac:(lia) ltac:(lia) ltac:(lia) ltac:(lia)) as (a1 & E1 & H1).
    assert (Hz : zlen (take (Z.to_nat (slot + 1)) xs) = slot + 1) by (apply zlen_take; lia).
    destruct (cells_wr cap a1 _ slot x H1) as (a2 & E2 & H2); [unfold zlen in *; rewrite length_app; lia|lia|]. exists a1, a2. split; [done|]. split; [done|].
    rewrite take_app_le in H2 by (unfold zlen in *; lia). rewrite take_take in H2. replace (Z.to_nat slot `min` Z.to_nat (slot + 1))%nat with (Z.to_nat slot) in H2 by lia.
    replace (S (Z.to_nat slot)) with (Z.to_nat (slot + 1)) in H2 by lia. rewrite drop_app_ge in H2 by (unfold zlen in *; lia).
    replace (Z.to_nat (slot + 1) - length (take (Z.to_nat (slot + 1)) xs))%nat with 0%nat in H2 by (unfold zlen in *; lia). rewrite drop_0 in H2.
    rewrite (take_ge (drop (Z.to_nat slot) xs)) in H2 by (rewrite length_drop; unfold zlen in *; lia).
    rewrite (drop_ge xs (Z.to_nat (slot + 1 + (zlen xs - slot)))), app_nil_r in H2 by (unfold zlen in *; lia). done.
Qed.
End Cells.

(** ** Search: specification *)

(** The first position whose key is not less, or greater. *)
Fixpoint lower (key : Z) (ks : list Z) : nat :=
  match ks with [] => O | k :: ks => if k <? key then S (lower key ks) else O end.
Fixpoint upper (key : Z) (ks : list Z) : nat :=
  match ks with [] => O | k :: ks => if k <=? key then S (upper key ks) else O end.

Lemma lower_le key ks : (lower key ks <= length ks)%nat.
Proof. induction ks as [|k ks IH]; cbn; [lia|]. destruct (k <? key); lia. Qed.

Lemma upper_le key ks : (upper key ks <= length ks)%nat.
Proof. induction ks as [|k ks IH]; cbn; [lia|]. destruct (k <=? key); lia. Qed.

(** The linear searches for the first key that [before] does not hold of. *)
Lemma find_first_spec (before : Z -> bool) (first : list Z -> nat) (cap : Z) a ks :
  first [] = O -> (forall k ks, first (k :: ks) = if before k then S (first ks) else O) -> cells cap a ks ->
  loop (S (Z.to_nat (zlen ks))) (fun lo =>
    if lo <? zlen ks then k ← cell a lo; Some (if before k then inl (lo + 1) else inr lo)
    else Some (inr lo)) 0 = Some (Z.of_nat (first ks)).
Proof.
  intros H0 HS Ha. assert (Hgen : forall fuel pre rest, ks = pre ++ rest -> (length rest < fuel)%nat ->
    loop fuel (fun lo =>
      if lo <? zlen ks then k ← cell a lo; Some (if before k then inl (lo + 1) else inr lo)
      else Some (inr lo)) (zlen pre) = Some (Z.of_nat (length pre + first rest))).
  { induction fuel as [|fuel IH]; intros pre rest Hks Hf; [lia|]. cbn [loop]. destruct rest as [|k rest].
    - rewrite app_nil_r in Hks. subst pre. rewrite Z.ltb_irrefl, H0, Nat.add_0_r. done.
    - assert (Hlt : zlen pre < zlen ks) by (rewrite Hks; unfold zlen; rewrite length_app; cbn [length]; lia). apply Z.ltb_lt in Hlt as ->.
      rewrite (cells_cell cap a ks (zlen pre) k Ha) by (try (unfold zlen; lia); rewrite Hks; unfold zlen; rewrite Nat2Z.id; by apply list_lookup_middle). cbn [mbind option_bind]. rewrite HS. destruct (before k).
      + specialize (IH (pre ++ [k]) rest). rewrite <-app_assoc in IH. specialize (IH Hks). rewrite length_app in IH. cbn [length] in *. replace (zlen (pre ++ [k])) with (zlen pre + 1) in IH by (unfold zlen; rewrite length_app; cbn [length]; lia).
        rewrite IH by lia. do 2 f_equal. lia.
      + unfold zlen. do 2 f_equal. lia. }
  apply (Hgen _ [] ks); [done|]. unfold zlen. lia.
Qed.

Lemma stx_find_lower_spec cap a ks key : cells cap a ks -> find_lower a (zlen ks) key = Some (Z.of_nat (lower key ks)).
Proof. intros H. by apply (find_first_spec (fun k => k <? key) (lower key) cap). Qed.

Lemma stx_find_upper_spec cap a ks key : cells cap a ks -> find_upper a (zlen ks) key = Some (Z.of_nat (upper key ks)).
Proof. intros H. by apply (find_first_spec (fun k => k <=? key) (upper key) cap). Qed.

(** ** Nodes and the lists they hold *)

Record stx_leaf_rep (n : leaf_node) (es : list (Z * Z)) : Prop := {
  lr_use : lslotuse n = zlen es;
  lr_key : cells leafslotmax (lslotkey n) es.*1;
  lr_data : cells leafslotmax (lslotdata n) es.*2
}.

Record stx_inner_rep (n : inner_node) (ks cs : list Z) : Prop := {
  ir_use : islotuse n = zlen ks;
  ir_key : cells innerslotmax (islotkey n) ks;
  ir_child : cells (innerslotmax + 1) (childid n) cs;
  ir_count : zlen cs = zlen ks + 1
}.

Lemma stx_leaf_rep_len n es : stx_leaf_rep n es -> zlen es <= leafslotmax.
Proof. intros H. pose proof (cells_len _ _ _ (lr_key _ _ H)) as Hl. by rewrite zlen_fmap in Hl. Qed.

Lemma stx_inner_rep_len n ks cs : stx_inner_rep n ks cs -> zlen ks <= innerslotmax.
Proof. intros H. apply (cells_len _ _ _ (ir_key _ _ _ H)). Qed.

Lemma stx_new_leaf_rep : stx_leaf_rep new_leaf_node [].
Proof. by split. Qed.

(** [take] and [drop] of an appended list, with the position as an integer. *)
Lemma take_at {A} (a b : list A) n : zlen a = n -> take (Z.to_nat n) (a ++ b) = a.
Proof. intros <-. unfold zlen. rewrite Nat2Z.id. apply take_app_length. Qed.

Lemma drop_at {A} (a b : list A) n : zlen a = n -> drop (Z.to_nat n) (a ++ b) = b.
Proof. intros <-. unfold zlen. rewrite Nat2Z.id. apply drop_app_length. Qed.

Lemma take_all_at {A} (a : list A) n : zlen a <= n -> take (Z.to_nat n) a = a.
Proof. intros H. apply take_ge. unfold zlen in H. lia. Qed.

Lemma drop_all_at {A} (a : list A) n : zlen a <= n -> drop (Z.to_nat n) a = [].
Proof. intros H. apply drop_ge. unfold zlen in H. lia. Qed.

(** ** Insertion *)

Lemma leaf_put_spec n a b key value : stx_leaf_rep n (a ++ b) -> zlen (a ++ b) < leafslotmax ->
  exists n', leaf_put n (zlen a) key value = Some n' /\ stx_leaf_rep n' (a ++ (key, value) :: b).
Proof.
  intros [Hu Hk Hd] Hlt. unfold leaf_put. rewrite Hu. assert (Ha : 0 <= zlen a <= zlen (a ++ b)) by (rewrite zlen_app; pose proof (zlen_nonneg a); pose proof (zlen_nonneg b); lia).
  destruct (cells_insert _ _ _ (zlen a) key Hk) as (k1 & k2 & E1 & E2 & Hk2); [by rewrite zlen_fmap|by rewrite zlen_fmap|].
  destruct (cells_insert _ _ _ (zlen a) value Hd) as (d1 & d2 & E3 & E4 & Hd2); [by rewrite zlen_fmap|by rewrite zlen_fmap|].
  rewrite zlen_fmap in E1, E3. rewrite E1, E3. cbn [mbind option_bind]. rewrite E2. cbn [mbind option_bind]. rewrite E4. cbn [mbind option_bind]. eexists. split; [done|].
  rewrite fmap_app, take_at, drop_at in Hk2, Hd2 by apply zlen_fmap. constructor; cbn.
  - rewrite !zlen_app, zlen_cons. lia.
  - by rewrite fmap_app, fmap_cons.
  - by rewrite fmap_app, fmap_cons.
Qed.

Lemma inner_put_spec n k1 k2 c1 c2 newkey newchild : stx_inner_rep n (k1 ++ k2) (c1 ++ c2) -> zlen c1 = zlen k1 + 1 -> zlen (k1 ++ k2) < innerslotmax ->
  exists n', inner_put n (zlen k1) newkey newchild = Some n' /\ ilevel n' = ilevel n /\ stx_inner_rep n' (k1 ++ newkey :: k2) (c1 ++ newchild :: c2).
Proof.
  intros [Hu Hk Hc Hn] Hc1 Hlt. unfold inner_put. rewrite Hu. pose proof (zlen_nonneg k1). pose proof (zlen_nonneg k2). rewrite zlen_app in Hn, Hlt. rewrite (zlen_app k1) in Hn.
  destruct (cells_insert _ _ _ (zlen k1) newkey Hk) as (a1 & a2 & E1 & E2 & Hk2); [rewrite zlen_app; lia|rewrite zlen_app; lia|]. rewrite E1. cbn [mbind option_bind].
  destruct c1 as [|x c1 _] using rev_ind; [change (zlen (@nil Z)) with 0 in Hc1; lia|]. rewrite <-app_assoc in Hc. cbn [app] in Hc. rewrite zlen_app, zlen_cons in Hc1, Hn. change (zlen (@nil Z)) with 0 in Hc1, Hn.
  unfold memmove. destruct (cells_memcpy _ _ _ _ _ _ (zlen k1 + 1) (zlen k1) (zlen k2 + 1) Hc Hc) as (b1 & E3 & Hb1); [rewrite ?zlen_app, ?zlen_cons; pose proof (zlen_nonneg c2); lia..|].
  rewrite zlen_app. replace (zlen k1 + zlen k2 + 1 - zlen k1) with (zlen k2 + 1) by lia. rewrite E3. cbn [mbind option_bind]. rewrite E2. cbn [mbind option_bind].
  replace (zlen k1) with (zlen c1) in Hb1 by lia. rewrite (drop_at c1) in Hb1 by done.
  replace (c1 ++ x :: c2) with ((c1 ++ [x]) ++ c2) in Hb1 at 1 by by rewrite <-app_assoc. rewrite take_at in Hb1 by (rewrite zlen_app, zlen_cons; change (zlen (@nil Z)) with 0; lia).
  rewrite (take_all_at (x :: c2)), drop_all_at, app_nil_r in Hb1 by (rewrite ?zlen_app, zlen_cons; lia).
  destruct (cells_wr _ _ _ (zlen k1 + 1) newchild Hb1) as (b2 & E4 & Hb2); [rewrite !zlen_app, !zlen_cons; change (zlen (@nil Z)) with 0; lia|lia|]. rewrite E4. cbn [mbind option_bind].
  eexists. split; [done|]. split; [done|]. rewrite take_at in Hb2 by (rewrite zlen_app, zlen_cons; change (zlen (@nil Z)) with 0; lia).
  replace (S (Z.to_nat (zlen k1 + 1))) with (Z.to_nat (zlen ((c1 ++ [x]) ++ [x]))) in Hb2 by (rewrite !zlen_app, !zlen_cons; change (zlen (@nil Z)) with 0; lia).
  replace ((c1 ++ [x]) ++ x :: c2) with (((c1 ++ [x]) ++ [x]) ++ c2) in Hb2 by by rewrite <-app_assoc. rewrite drop_at in Hb2 by done.
  rewrite take_at, drop_at in Hk2 by done. constructor; cbn; [rewrite zlen_app, zlen_cons; lia|done|done|rewrite !zlen_app, !zlen_cons; change (zlen (@nil Z)) with 0; lia].
Qed.

(** ** Splits *)

Lemma stx_split_leaf_spec n es : stx_leaf_rep n es -> zlen es = leafslotmax ->
  exists l r a k v b, split_leaf n = Some (l, r, k) /\ es = (a ++ [(k, v)]) ++ b /\ zlen (a ++ [(k, v)]) = 8 /\ zlen b = 8 /\ stx_leaf_rep l (a ++ [(k, v)]) /\ stx_leaf_rep r b.
Proof.
  intros [Hu Hk Hd] Hfull. change leafslotmax with 16 in *. unfold split_leaf. rewrite Hu, Hfull. change (Z.shiftr 16 1) with 8. change (16 - 8) with 8. change (8 - 1) with 7.
  assert (Hes : exists a k v b, es = (a ++ [(k, v)]) ++ b /\ zlen a = 7 /\ zlen b = 8).
  { unfold zlen in *. destruct (drop 7 es) as [|[k v] b] eqn:E; [apply (f_equal length) in E; rewrite length_drop in E; cbn in E; lia|]. exists (take 7 es), k, v, b.
    split; [rewrite <-app_assoc; cbn [app]; by rewrite <-E, take_drop|]. apply (f_equal length) in E. rewrite length_drop in E. cbn [length] in E. rewrite length_take. lia. }
  destruct Hes as (a & k & v & b & -> & Ha & Hb).
  destruct (cells_memcpy 16 (lslotkey new_leaf_node) [] 16 _ _ 0 8 8 (cells_nil _ _ eq_refl) Hk) as (k' & E1 & Hk'); [by split|lia|lia|rewrite zlen_fmap; lia|lia|]. rewrite E1. cbn [mbind option_bind].
  destruct (cells_memcpy 16 (lslotdata new_leaf_node) [] 16 _ _ 0 8 8 (cells_nil _ _ eq_refl) Hd) as (d' & E2 & Hd'); [by split|lia|lia|rewrite zlen_fmap; lia|lia|]. rewrite E2. cbn [mbind option_bind].
  assert (Hz : zlen (a ++ [(k, v)]) = 8) by (rewrite zlen_app, Ha; done).
  rewrite (cells_cell _ _ _ 7 k Hk) by (try lia; rewrite !fmap_app, lookup_app_l by (rewrite length_app, length_fmap; cbn; unfold zlen in Ha; lia); rewrite lookup_app_r by (rewrite length_fmap; unfold zlen in Ha; lia); rewrite length_fmap; replace (Z.to_nat 7 - length a)%nat with 0%nat by (unfold zlen in Ha; lia); done).
  cbn [mbind option_bind]. eexists _, _, a, k, v, b. split; [done|]. split; [done|]. split; [done|]. split; [done|]. rewrite fmap_app, drop_at in Hk', Hd' by by rewrite zlen_fmap. rewrite (take_all_at b.*1) in Hk' by (rewrite zlen_fmap; lia). rewrite (take_all_at b.*2) in Hd' by (rewrite zlen_fmap; lia).
  rewrite (drop_all_at (@nil Z)), app_nil_r in Hk', Hd' by done. rewrite fmap_app in Hk, Hd. split; constructor; cbn; try done.
  - by eapply cells_app.
  - by eapply cells_app.
Qed.

(** The inner node keeps [c1]; the first half of the children is at least as long as the
    position of the new child asks for. *)
Lemma split_inner_spec n ks cs addslot : stx_inner_rep n ks cs -> zlen ks = innerslotmax -> 0 <= addslot ->
  exists l r k1 k k2 c1 c2, split_inner n addslot = Some (l, r, k) /\ ks = k1 ++ k :: k2 /\ cs = c1 ++ c2 /\ zlen c1 = zlen k1 + 1 /\
    zlen k1 = (if addslot <=? 8 then 7 else 8) /\ ilevel l = ilevel n /\ ilevel r = ilevel n /\ stx_inner_rep l k1 c1 /\ stx_inner_rep r k2 c2.
Proof.
  intros [Hu Hk Hc Hn] Hfull Ha. change innerslotmax with 16 in *. unfold split_inner. rewrite Hu, Hfull. change (Z.shiftr 16 1) with 8. change (16 - (8 + 1) <? 8) with true. rewrite andb_true_r.
  change (8 - 1) with 7. set (mid := if addslot <=? 8 then 7 else 8). assert (Hmid : mid = 7 \/ mid = 8) by (unfold mid; destruct (addslot <=? 8); lia). clearbody mid.
  assert (Hks : exists k1 k k2, ks = k1 ++ k :: k2 /\ zlen k1 = mid).
  { destruct (drop (Z.to_nat mid) ks) as [|k k2] eqn:E; [apply (f_equal length) in E; rewrite length_drop in E; cbn in E; unfold zlen in *; lia|].
    exists (take (Z.to_nat mid) ks), k, k2. split; [by rewrite <-E, take_drop|]. apply zlen_take. lia. }
  destruct Hks as (k1 & k & k2 & -> & Hk1). rewrite zlen_app, zlen_cons in Hfull, Hn.
  assert (Hcs : exists c1 c2, cs = c1 ++ c2 /\ zlen c1 = mid + 1).
  { exists (take (Z.to_nat (mid + 1)) cs), (drop (Z.to_nat (mid + 1)) cs). split; [by rewrite take_drop|]. apply zlen_take. lia. }
  destruct Hcs as (c1 & c2 & -> & Hc1). rewrite zlen_app in Hn.
  replace (k1 ++ k :: k2) with ((k1 ++ [k]) ++ k2) in Hk by by rewrite <-app_assoc. assert (Hz : zlen (k1 ++ [k]) = mid + 1) by (rewrite zlen_app, zlen_cons; change (zlen (@nil Z)) with 0; lia).
  destruct (cells_memcpy 16 (islotkey (new_inner_node (ilevel n))) [] 16 _ _ 0 (mid + 1) (16 - (mid + 1)) (cells_nil _ _ eq_refl) Hk) as (k' & E1 & Hk'); [by split|lia|lia|rewrite zlen_app; lia|lia|]. rewrite E1. cbn [mbind option_bind].
  destruct (cells_memcpy 17 (childid (new_inner_node (ilevel n))) [] 17 _ _ 0 (mid + 1) (16 + 1 - (mid + 1)) (cells_nil _ _ eq_refl) Hc) as (c' & E2 & Hc'); [by split|lia|lia|rewrite zlen_app; lia|lia|]. rewrite E2. cbn [mbind option_bind].
  rewrite (cells_cell _ _ _ mid k Hk) by (try lia; rewrite <-app_assoc; rewrite <-Hk1; unfold zlen; rewrite Nat2Z.id; by apply list_lookup_middle). cbn [mbind option_bind].
  rewrite drop_at in Hk', Hc' by done. rewrite (take_all_at k2) in Hk' by lia. rewrite (take_all_at c2) in Hc' by lia. rewrite drop_nil, app_nil_r in Hk', Hc'.
  eexists _, _, k1, k, k2, c1, c2. split; [done|]. split; [done|]. split; [done|]. split; [lia|]. split; [done|]. split; [done|]. split; [done|].
  split; constructor; cbn; try done; try lia.
  - rewrite <-app_assoc in Hk. by eapply cells_app.
  - by eapply cells_app.
Qed.

(** ** Moving cells *)

Section Moves.
Context {A : Type}.
Implicit Types (a b : list (option A)) (xs ys : list A).

Lemma cells_intro cap a xs r : a = (Some <$> xs) ++ r -> zlen a = cap -> cells cap a xs.
Proof. intros -> Hl. split; [done|]. rewrite <-(length_fmap Some xs). apply take_app_length. Qed.

Lemma cells_elim cap a xs : cells cap a xs -> exists r, a = (Some <$> xs) ++ r.
Proof. intros [_ H]. exists (drop (length xs) a). by rewrite <-H, take_drop. Qed.

Lemma cells_remove cap a xs y zs : cells cap a (xs ++ y :: zs) -> exists a', memmove a (zlen xs) (zlen xs + 1) (zlen zs) = Some a' /\ cells cap a' (xs ++ zs).
Proof.
  intros H. pose proof (cells_len _ _ _ H) as Hl. rewrite zlen_app, zlen_cons in Hl. pose proof (zlen_nonneg xs). pose proof (zlen_nonneg zs). unfold memmove.
  destruct (cells_memcpy _ _ _ _ _ _ (zlen xs) (zlen xs + 1) (zlen zs) H H) as (a' & E & H'); [rewrite ?zlen_app, ?zlen_cons; lia..|]. exists a'. split; [exact E|].
  rewrite take_at in H' by done. replace (xs ++ y :: zs) with ((xs ++ [y]) ++ zs) in H' by by rewrite <-app_assoc.
  rewrite drop_at, take_all_at in H' by (rewrite ?zlen_app; done). rewrite app_assoc in H'. by apply cells_app in H'.
Qed.

Lemma cells_append cap capb a b xs ps ys qs : cells cap a xs -> cells capb b (ps ++ ys ++ qs) -> zlen xs + zlen ys <= cap ->
  exists a', memcpy a (zlen xs) b (zlen ps) (zlen ys) = Some a' /\ cells cap a' (xs ++ ys).
Proof.
  intros Ha Hb Hc. pose proof (zlen_nonneg xs). pose proof (zlen_nonneg ps). pose proof (zlen_nonneg ys). pose proof (zlen_nonneg qs).
  destruct (cells_memcpy _ _ _ _ _ _ (zlen xs) (zlen ps) (zlen ys) Ha Hb) as (a' & E & H'); [rewrite ?zlen_app; lia..|]. exists a'. split; [exact E|].
  rewrite drop_at, take_at, (take_all_at xs), drop_all_at, app_nil_r in H' by (done || lia). done.
Qed.

Lemma cells_front cap a xs ys : cells cap a (xs ++ ys) -> exists a', memmove a 0 (zlen xs) (zlen ys) = Some a' /\ cells cap a' ys.
Proof.
  intros H. pose proof (cells_len _ _ _ H) as Hl. rewrite zlen_app in Hl. pose proof (zlen_nonneg xs). pose proof (zlen_nonneg ys). unfold memmove.
  destruct (cells_memcpy _ _ _ _ _ _ 0 (zlen xs) (zlen ys) H H) as (a' & E & H'); [rewrite ?zlen_app; lia..|]. exists a'. split; [exact E|].
  rewrite (drop_at xs) in H' by done. rewrite (take_all_at ys) in H' by lia. change (take (Z.to_nat 0) (xs ++ ys)) with (@nil A) in H'. eapply cells_app. exact H'.
Qed.

(** Moving the elements up leaves room before them. *)
Lemma cells_back cap a xs n : cells cap a xs -> 0 <= n -> n + zlen xs <= cap ->
  exists p r, memmove a n 0 (zlen xs) = Some (p ++ (Some <$> xs) ++ r) /\ zlen p = n /\ zlen (p ++ (Some <$> xs) ++ r) = cap.
Proof.
  intros H Hn Hc. pose proof (zlen_nonneg xs). assert (Hl : zlen a = cap) by apply H. destruct H as [_ H]. unfold memmove, memcpy. rewrite Hl. repeat (btest_case; [|lia]). cbn [andb].
  rewrite drop_0. unfold zlen at 1. rewrite Nat2Z.id, H. eexists _, _. split; [done|]. split; [apply zlen_take; lia|].
  unfold zlen in *. rewrite !length_app, length_take, length_fmap, length_drop. lia.
Qed.

Lemma memcpy_front capb (p t : list (option A)) b us ys ws : cells capb b (us ++ ys ++ ws) -> zlen p = zlen ys ->
  memcpy (p ++ t) 0 b (zlen us) (zlen ys) = Some ((Some <$> ys) ++ t).
Proof.
  intros H Hp. pose proof (cells_len _ _ _ H) as Hl. destruct (cells_elim _ _ _ H) as [r ->]. destruct H as [Hcap _]. rewrite !fmap_app in *. unfold memcpy. rewrite !zlen_app, !zlen_fmap in *.
  pose proof (zlen_nonneg us). pose proof (zlen_nonneg ys). pose proof (zlen_nonneg ws). pose proof (zlen_nonneg t). pose proof (zlen_nonneg r). repeat (btest_case; [|lia]). cbn [andb].
  change (take (Z.to_nat 0) (p ++ t)) with (@nil (option A)). cbn [app]. rewrite <-!app_assoc. rewrite (drop_at (Some <$> us)) by apply zlen_fmap. rewrite take_at by apply zlen_fmap. by rewrite drop_at.
Qed.
End Moves.

(** ** Removal *)

Lemma leaf_remove_spec n a e b : stx_leaf_rep n (a ++ e :: b) -> exists n', leaf_remove n (zlen a) = Some n' /\ stx_leaf_rep n' (a ++ b).
Proof.
  intros [Hu Hk Hd]. unfold leaf_remove. rewrite Hu. rewrite zlen_app, zlen_cons in *. replace (zlen a + (1 + zlen b) - (zlen a + 1)) with (zlen b) by lia.
  rewrite !fmap_app, fmap_cons in Hk, Hd. destruct (cells_remove _ _ _ _ _ Hk) as (k' & Ek & Hk'). destruct (cells_remove _ _ _ _ _ Hd) as (d' & Ed & Hd'). rewrite !zlen_fmap in Ek, Ed.
  rewrite Ek, Ed. cbn [mbind option_bind]. eexists. split; [done|]. constructor; cbn [lslotuse lslotkey lslotdata]; [rewrite zlen_app; lia|by rewrite fmap_app..].
Qed.

Lemma inner_remove_spec n k1 k k2 c1 c c2 : stx_inner_rep n (k1 ++ k :: k2) (c1 ++ c :: c2) -> zlen c1 = zlen k1 + 1 ->
  exists n', inner_remove n (zlen c1) = Some n' /\ ilevel n' = ilevel n /\ stx_inner_rep n' (k1 ++ k2) (c1 ++ c2).
Proof.
  intros [Hu Hk Hc Hn] Hc1. unfold inner_remove. rewrite Hu. rewrite !zlen_app, !zlen_cons in *. rewrite Hc1. replace (zlen k1 + 1 - 1) with (zlen k1) by lia.
  replace (zlen k1 + (1 + zlen k2) - (zlen k1 + 1)) with (zlen k2) by lia. replace (zlen k1 + (1 + zlen k2) + 1 - (zlen k1 + 1 + 1)) with (zlen c2) by lia.
  destruct (cells_remove _ _ _ _ _ Hk) as (k' & -> & Hk'). cbn [mbind option_bind]. destruct (cells_remove _ _ _ _ _ Hc) as (d' & Ed & Hd'). rewrite Hc1 in Ed. rewrite Ed. cbn [mbind option_bind].
  eexists. split; [done|]. split; [done|]. constructor; cbn [islotuse islotkey childid]; [rewrite zlen_app; lia|done|done|rewrite !zlen_app; lia].
Qed.

Lemma set_slotkey_spec n k1 k k2 cs k' : stx_inner_rep n (k1 ++ k :: k2) cs ->
  exists n', set_slotkey n (zlen k1) k' = Some n' /\ ilevel n' = ilevel n /\ stx_inner_rep n' (k1 ++ k' :: k2) cs.
Proof.
  intros [Hu Hk Hc Hn]. pose proof (cells_len _ _ _ Hk) as Hl. rewrite zlen_app, zlen_cons in *. pose proof (zlen_nonneg k1). pose proof (zlen_nonneg k2). unfold set_slotkey.
  destruct (cells_wr _ _ _ (zlen k1) k' Hk) as (a & -> & Ha); [rewrite zlen_app, zlen_cons; lia|lia|]. cbn [mbind option_bind]. eexists. split; [done|]. split; [done|].
  rewrite take_at in Ha by done. replace (S (Z.to_nat (zlen k1))) with (Z.to_nat (zlen (k1 ++ [k]))) in Ha by (rewrite zlen_app, zlen_cons; change (zlen (@nil Z)) with 0; lia).
  replace (k1 ++ k :: k2) with ((k1 ++ [k]) ++ k2) in Ha by by rewrite <-app_assoc. rewrite drop_at in Ha by done.
  constructor; cbn [islotuse islotkey childid]; rewrite ?zlen_app, ?zlen_cons; done || lia.
Qed.

(** A key written after the last one changes nothing. *)
Lemma set_slotkey_after n ks cs k' : stx_inner_rep n ks cs -> zlen ks < innerslotmax ->
  exists n', set_slotkey n (zlen ks) k' = Some n' /\ ilevel n' = ilevel n /\ stx_inner_rep n' ks cs.
Proof.
  intros [Hu Hk Hc Hn] Hl. unfold set_slotkey. destruct (cells_wr _ _ _ (zlen ks) k' Hk) as (a & -> & Ha); [pose proof (zlen_nonneg ks); lia|lia|]. cbn [mbind option_bind].
  eexists. split; [done|]. split; [done|]. constructor; cbn [islotuse islotkey childid]; try done. rewrite take_all_at in Ha by lia. by apply cells_app in Ha.
Qed.

(** ** Merging *)

Lemma merge_leaf_slots_spec l r es fs : stx_leaf_rep l es -> stx_leaf_rep r fs -> zlen es + zlen fs <= leafslotmax ->
  exists l' r', merge_leaf_slots l r = Some (l', r') /\ stx_leaf_rep l' (es ++ fs) /\ lslotuse r' = 0.
Proof.
  intros [Lu Lk Ld] [Ru Rk Rd] Hc. unfold merge_leaf_slots. rewrite Lu, Ru.
  destruct (cells_append _ leafslotmax _ (lslotkey r) es.*1 [] fs.*1 [] Lk) as (k' & Ek & Hk'); [by rewrite app_nil_r|by rewrite !zlen_fmap|].
  destruct (cells_append _ leafslotmax _ (lslotdata r) es.*2 [] fs.*2 [] Ld) as (d' & Ed & Hd'); [by rewrite app_nil_r|by rewrite !zlen_fmap|].
  rewrite !zlen_fmap in Ek, Ed. change (zlen (@nil Z)) with 0 in Ek, Ed. rewrite Ek, Ed. cbn [mbind option_bind].
  eexists _, _. split; [done|]. split; [|done]. constructor; cbn; [by rewrite zlen_app|by rewrite fmap_app..].
Qed.

Lemma merge_inner_slots_spec l r k1 c1 k2 c2 key : stx_inner_rep l k1 c1 -> stx_inner_rep r k2 c2 -> zlen k1 + 1 + zlen k2 <= innerslotmax ->
  exists l' r', merge_inner_slots l r key = Some (l', r') /\ ilevel l' = ilevel l /\ stx_inner_rep l' (k1 ++ key :: k2) (c1 ++ c2) /\ islotuse r' = 0 /\ ilevel r' = ilevel r.
Proof.
  intros [Lu Lk Lc Ln] [Ru Rk Rc Rn] Hc. unfold merge_inner_slots. rewrite Lu, Ru. pose proof (zlen_nonneg k1). pose proof (zlen_nonneg k2).
  destruct (cells_wr _ _ _ (zlen k1) key Lk) as (a & -> & Ha); [lia|lia|]. cbn [mbind option_bind]. rewrite take_all_at in Ha by lia. rewrite drop_ge in Ha by (unfold zlen; lia).
  destruct (cells_append _ innerslotmax _ (islotkey r) (k1 ++ [key]) [] k2 [] Ha) as (k' & Ek & Hk'); [by rewrite app_nil_r|rewrite zlen_app, zlen_cons; change (zlen (@nil Z)) with 0; lia|].
  rewrite zlen_app, zlen_cons in Ek. change (zlen (@nil Z)) with 0 in Ek. replace (zlen k1 + (1 + 0)) with (zlen k1 + 1) in Ek by lia. rewrite Ek. cbn [mbind option_bind].
  destruct (cells_append _ (innerslotmax + 1) _ (childid r) c1 [] c2 [] Lc) as (d' & Ed & Hd'); [by rewrite app_nil_r|lia|]. rewrite Ln, Rn in Ed. change (zlen (@nil Z)) with 0 in Ed. rewrite Ed. cbn [mbind option_bind].
  eexists _, _. split; [done|]. split; [done|]. split; [|done]. rewrite <-app_assoc in Hk'. constructor; cbn; [rewrite zlen_app, zlen_cons; lia|done|done|rewrite !zlen_app, zlen_cons; lia].
Qed.

(** ** Balancing *)

Lemma shiftr_half d : 2 * Z.shiftr d 1 <= d <= 2 * Z.shiftr d 1 + 1.
Proof. rewrite Z.shiftr_div_pow2 by lia. change (2 ^ 1) with 2. pose proof (Z.div_mod d 2 ltac:(lia)). pose proof (Z.mod_pos_bound d 2 ltac:(lia)). lia. Qed.

(** A list of pairs cut after its first [n]. *)
Lemma stx_split_at {A} (l : list A) n : 0 <= n <= zlen l -> exists a b, l = a ++ b /\ zlen a = n /\ zlen b = zlen l - n.
Proof.
  intros Hn. exists (take (Z.to_nat n) l), (drop (Z.to_nat n) l). split; [by rewrite take_drop|]. split; [by apply zlen_take|]. unfold zlen in *. rewrite length_drop. lia.
Qed.

Lemma last_cell {A} cap (a : list (option A)) xs y : cells cap a (xs ++ [y]) -> cell a (zlen xs) = Some y.
Proof. intros H. apply (cells_cell _ _ _ _ _ H); [apply zlen_nonneg|]. unfold zlen. rewrite Nat2Z.id. by apply list_lookup_middle. Qed.

(** The right leaf gives its first pairs to the left one. *)
Lemma shift_left_leaf_slots_spec l r es fs : stx_leaf_rep l es -> stx_leaf_rep r fs -> zlen es + 2 <= zlen fs ->
  exists l' r' fs1 k v fs2, shift_left_leaf_slots l r = Some (l', r', k) /\ fs = (fs1 ++ [(k, v)]) ++ fs2 /\ stx_leaf_rep l' (es ++ fs1 ++ [(k, v)]) /\ stx_leaf_rep r' fs2 /\
    zlen (fs1 ++ [(k, v)]) = Z.shiftr (zlen fs - zlen es) 1.
Proof.
  intros Hl Hr Hlt. pose proof (stx_leaf_rep_len _ _ Hr) as Hmax. destruct Hl as [Lu Lk Ld], Hr as [Ru Rk Rd]. pose proof (zlen_nonneg es). unfold shift_left_leaf_slots. rewrite Lu, Ru. pose proof (shiftr_half (zlen fs - zlen es)) as Hn. set (n := Z.shiftr (zlen fs - zlen es) 1) in *. clearbody n.
  destruct (stx_split_at fs n ltac:(lia)) as (f1 & fs2 & -> & Hf1 & Hf2). destruct f1 as [|[k v] fs1 _] using rev_ind; [change (zlen (@nil (Z * Z))) with 0 in Hf1; lia|]. set (f1 := fs1 ++ [(k, v)]) in *.
  rewrite fmap_app in Rk, Rd. replace (zlen (f1 ++ fs2) - n) with (zlen fs2) by lia.
  destruct (cells_append _ _ _ _ es.*1 [] f1.*1 fs2.*1 Lk Rk) as (lk & Elk & Hlk); [rewrite !zlen_fmap; lia|]. destruct (cells_append _ _ _ _ es.*2 [] f1.*2 fs2.*2 Ld Rd) as (ld & Eld & Hld); [rewrite !zlen_fmap; lia|].
  destruct (cells_front _ _ _ _ Rk) as (rk & Erk & Hrk). destruct (cells_front _ _ _ _ Rd) as (rdt & Erd & Hrd). rewrite !zlen_fmap, Hf1 in *. change (zlen (@nil Z)) with 0 in *.
  rewrite Elk, Eld. cbn [mbind option_bind]. rewrite Erk, Erd. cbn [mbind option_bind]. assert (Hcell : cell lk (zlen es + n - 1) = Some k).
  { unfold f1 in Hlk. rewrite fmap_app, app_assoc in Hlk. replace (zlen es + n - 1) with (zlen (es.*1 ++ fs1.*1)); [by apply (last_cell _ _ _ _ Hlk)|].
    rewrite <-Hf1. unfold f1. rewrite !zlen_app, !zlen_fmap, zlen_cons. change (zlen (@nil (Z * Z))) with 0. lia. }
  rewrite Hcell. cbn [mbind option_bind]. eexists _, _, fs1, k, v, fs2. split; [done|]. split; [done|]. split; [|split; [by constructor|done]].
  constructor; cbn; [rewrite zlen_app; fold f1; lia|by rewrite fmap_app..].
Qed.

Lemma shift_right_leaf_slots_spec l r es fs : stx_leaf_rep l es -> stx_leaf_rep r fs -> zlen fs + 2 <= zlen es ->
  exists l' r' es1 k v es2, shift_right_leaf_slots l r = Some (l', r', k) /\ es = (es1 ++ [(k, v)]) ++ es2 /\ stx_leaf_rep l' (es1 ++ [(k, v)]) /\ stx_leaf_rep r' (es2 ++ fs) /\
    zlen es2 = Z.shiftr (zlen es - zlen fs) 1.
Proof.
  intros Hl Hr Hlt. pose proof (stx_leaf_rep_len _ _ Hl) as Hmax. destruct Hl as [Lu Lk Ld], Hr as [Ru Rk Rd]. pose proof (zlen_nonneg fs). unfold shift_right_leaf_slots. rewrite Lu, Ru. pose proof (shiftr_half (zlen es - zlen fs)) as Hn. set (n := Z.shiftr (zlen es - zlen fs) 1) in *. clearbody n.
  destruct (stx_split_at es (zlen es - n) ltac:(lia)) as (e1 & es2 & -> & He1 & He2). destruct e1 as [|[k v] es1 _] using rev_ind; [change (zlen (@nil (Z * Z))) with 0 in He1; lia|]. set (e1 := es1 ++ [(k, v)]) in *.
  assert (Hz : zlen es2 = n) by lia. rewrite <-He1. rewrite fmap_app in Lk, Ld.
  destruct (cells_back _ _ _ n Rk) as (pk & rk & Erk & Hpk & Hck); [lia|rewrite zlen_fmap; lia|]. destruct (cells_back _ _ _ n Rd) as (pd & rdt & Erd & Hpd & Hcd); [lia|rewrite zlen_fmap; lia|].
  rewrite zlen_fmap in Erk, Erd. rewrite Erk, Erd. cbn [mbind option_bind].
  pose proof (memcpy_front leafslotmax pk ((Some <$> fs.*1) ++ rk) (lslotkey l) e1.*1 es2.*1 []) as M1. rewrite app_nil_r, !zlen_fmap, Hz in M1. rewrite M1 by (done || lia). cbn [mbind option_bind].
  pose proof (memcpy_front leafslotmax pd ((Some <$> fs.*2) ++ rdt) (lslotdata l) e1.*2 es2.*2 []) as M2. rewrite app_nil_r, !zlen_fmap, Hz in M2. rewrite M2 by (done || lia). cbn [mbind option_bind].
  assert (Lk' : cells leafslotmax (lslotkey l) e1.*1) by (by eapply cells_app). assert (Ld' : cells leafslotmax (lslotdata l) e1.*2) by (by eapply cells_app).
  assert (Hcell : cell (lslotkey l) (zlen e1 - 1) = Some k).
  { pose proof Lk' as Hc. unfold e1 in Hc. rewrite fmap_app in Hc. replace (zlen e1 - 1) with (zlen es1.*1); [by apply (last_cell _ _ _ _ Hc)|].
    unfold e1. rewrite zlen_app, zlen_fmap, zlen_cons. change (zlen (@nil (Z * Z))) with 0. lia. }
  rewrite Hcell. cbn [mbind option_bind]. eexists _, _, es1, k, v, es2. split; [done|]. split; [done|]. split; [by constructor|]. split; [|done].
  constructor; cbn; [rewrite zlen_app; lia|..].
  - rewrite fmap_app. apply (cells_intro _ _ _ rk); [by rewrite fmap_app, <-app_assoc|]. rewrite !zlen_app, !zlen_fmap in *. lia.
  - rewrite fmap_app. apply (cells_intro _ _ _ rdt); [by rewrite fmap_app, <-app_assoc|]. rewrite !zlen_app, !zlen_fmap in *. lia.
Qed.

(** A list of keys cut at a key. *)
Lemma split_key (l : list Z) n : 0 <= n < zlen l -> exists a k b, l = a ++ k :: b /\ zlen a = n /\ zlen b = zlen l - n - 1.
Proof.
  intros Hn. destruct (stx_split_at l n ltac:(lia)) as (a & [|k b] & -> & Ha & Hb); [change (zlen (@nil Z)) with 0 in Hb; lia|]. exists a, k, b. split; [done|]. split; [done|].
  rewrite zlen_cons in Hb. lia.
Qed.

Lemma shift_left_inner_slots_spec l r k1 c1 k2 c2 key : stx_inner_rep l k1 c1 -> stx_inner_rep r k2 c2 -> zlen k1 + 2 <= zlen k2 ->
  exists l' r' ka newkey kb ca cb, shift_left_inner_slots l r key = Some (l', r', newkey) /\ k2 = ka ++ newkey :: kb /\ c2 = ca ++ cb /\ zlen ca = zlen ka + 1 /\
    ilevel l' = ilevel l /\ ilevel r' = ilevel r /\ stx_inner_rep l' (k1 ++ key :: ka) (c1 ++ ca) /\ stx_inner_rep r' kb cb /\ zlen ca = Z.shiftr (zlen k2 - zlen k1) 1.
Proof.
  intros Hl Hr Hlt. pose proof (stx_inner_rep_len _ _ _ Hr) as Hmax. destruct Hl as [Lu Lk Lc Ln], Hr as [Ru Rk Rc Rn]. pose proof (zlen_nonneg k1). unfold shift_left_inner_slots. rewrite Lu, Ru.
  pose proof (shiftr_half (zlen k2 - zlen k1)) as Hn. set (n := Z.shiftr (zlen k2 - zlen k1) 1) in *. clearbody n.
  destruct (split_key k2 (n - 1) ltac:(lia)) as (ka & nk & kb & -> & Hka & Hkb). destruct (stx_split_at c2 n ltac:(lia)) as (ca & cb & -> & Hca & Hcb). rewrite !zlen_app, !zlen_cons in *.
  destruct (cells_wr _ _ _ (zlen k1) key Lk) as (a & -> & Ha); [lia|lia|]. cbn [mbind option_bind]. rewrite take_all_at in Ha by lia. rewrite drop_ge in Ha by (unfold zlen; lia).
  destruct (cells_append _ _ _ _ (k1 ++ [key]) [] ka (nk :: kb) Ha Rk) as (lk & Elk & Hlk); [rewrite zlen_app, zlen_cons; change (zlen (@nil Z)) with 0; lia|].
  destruct (cells_append _ _ _ _ c1 [] ca cb Lc Rc) as (lc & Elc & Hlc); [lia|].
  assert (Hz : zlen (k1 ++ [key]) = zlen k1 + 1) by (rewrite zlen_app, zlen_cons; change (zlen (@nil Z)) with 0; lia). change (zlen (@nil Z)) with 0 in *. rewrite Hz, Hka in Elk. rewrite Ln, Hca in Elc.
  rewrite Elk. cbn [mbind option_bind]. rewrite Elc. cbn [mbind option_bind].
  rewrite (cells_cell _ _ _ (n - 1) nk Rk) by (try lia; rewrite <-Hka; unfold zlen; rewrite Nat2Z.id; by apply list_lookup_middle). cbn [mbind option_bind].
  replace (ka ++ nk :: kb) with ((ka ++ [nk]) ++ kb) in Rk by by rewrite <-app_assoc. destruct (cells_front _ _ _ _ Rk) as (rk & Erk & Hrk). destruct (cells_front _ _ _ _ Rc) as (rc & Erc & Hrc).
  rewrite zlen_app, zlen_cons in Erk. change (zlen (@nil Z)) with 0 in Erk. replace (zlen ka + (1 + 0)) with n in Erk by lia. rewrite Hca in Erc.
  replace (zlen ka + (1 + zlen kb) - n) with (zlen kb) by lia. replace (zlen ka + (1 + zlen kb) + 1 - n) with (zlen cb) by lia. rewrite Erk, Erc. cbn [mbind option_bind].
  eexists _, _, ka, nk, kb, ca, cb. split; [done|]. split; [done|]. split; [done|]. split; [lia|]. split; [done|]. split; [done|]. rewrite <-app_assoc in Hlk. split; [|split; [|done]].
  - constructor; cbn; [rewrite zlen_app, zlen_cons; lia|done|done|rewrite !zlen_app, zlen_cons; lia].
  - constructor; cbn; [lia|done|done|lia].
Qed.

Lemma shift_right_inner_slots_spec l r k1 c1 k2 c2 key : stx_inner_rep l k1 c1 -> stx_inner_rep r k2 c2 -> zlen k2 + 2 <= zlen k1 ->
  exists l' r' ka newkey kb ca cb, shift_right_inner_slots l r key = Some (l', r', newkey) /\ k1 = ka ++ newkey :: kb /\ c1 = ca ++ cb /\ zlen ca = zlen ka + 1 /\
    ilevel l' = ilevel l /\ ilevel r' = ilevel r /\ stx_inner_rep l' ka ca /\ stx_inner_rep r' (kb ++ key :: k2) (cb ++ c2) /\ zlen cb = Z.shiftr (zlen k1 - zlen k2) 1.
Proof.
  intros Hl Hr Hlt. pose proof (stx_inner_rep_len _ _ _ Hl) as Hmax. destruct Hl as [Lu Lk Lc Ln], Hr as [Ru Rk Rc Rn]. pose proof (zlen_nonneg k2). unfold shift_right_inner_slots. rewrite Lu, Ru.
  pose proof (shiftr_half (zlen k1 - zlen k2)) as Hn. set (n := Z.shiftr (zlen k1 - zlen k2) 1) in *. clearbody n.
  destruct (split_key k1 (zlen k1 - n) ltac:(lia)) as (ka & nk & kb & -> & Hka & Hkb). destruct (stx_split_at c1 (zlen ka + 1)) as (ca & cb & -> & Hca & Hcb); [pose proof (zlen_nonneg ka); lia|]. rewrite !zlen_app, !zlen_cons in *.
  assert (Hkb' : zlen kb = n - 1) by lia. assert (Hcb' : zlen cb = n) by lia. rewrite <-Hka.
  destruct (cells_back _ _ _ n Rk) as (pk & rk & Erk & Hpk & Hck); [lia|lia|]. destruct (cells_back _ _ _ n Rc) as (pc & rc & Erc & Hpc & Hcc); [lia|lia|]. rewrite Rn in Erc. rewrite Erk, Erc. cbn [mbind option_bind].
  destruct pk as [|z pk _] using rev_ind; [change (zlen (@nil (option Z))) with 0 in Hpk; lia|]. rewrite zlen_app, zlen_cons in Hpk. change (zlen (@nil (option Z))) with 0 in Hpk.
  assert (Hwr : wr ((pk ++ [z]) ++ (Some <$> k2) ++ rk) (n - 1) (Some key) = Some ((pk ++ [Some key]) ++ (Some <$> k2) ++ rk)).
  { unfold wr. rewrite !zlen_app, zlen_cons. pose proof (zlen_nonneg rk). pose proof (zlen_nonneg (Some <$> k2)). change (zlen (@nil (option Z))) with 0. repeat (btest_case; [|lia]). cbn [andb]. f_equal.
    rewrite <-!app_assoc. replace (Z.to_nat (n - 1)) with (length pk + 0)%nat by (unfold zlen in *; lia). by rewrite insert_app_r. }
  rewrite Hwr. cbn [mbind option_bind]. rewrite <-app_assoc.
  replace (ka ++ nk :: kb) with ((ka ++ [nk]) ++ kb) in Lk by by rewrite <-app_assoc. assert (Hz : zlen (ka ++ [nk]) = zlen ka + 1) by (rewrite zlen_app, zlen_cons; change (zlen (@nil Z)) with 0; lia).
  pose proof (memcpy_front innerslotmax pk ([Some key] ++ (Some <$> k2) ++ rk) (islotkey l) (ka ++ [nk]) kb []) as M1. rewrite app_nil_r, Hz, Hkb' in M1. rewrite M1 by (done || lia). cbn [mbind option_bind].
  pose proof (memcpy_front (innerslotmax + 1) pc ((Some <$> c2) ++ rc) (childid l) ca cb []) as M2. rewrite app_nil_r, Hca, Hcb' in M2. rewrite M2 by (done || lia). cbn [mbind option_bind].
  assert (Hcell : cell (islotkey l) (zlen ka) = Some nk) by (apply (last_cell innerslotmax); by eapply cells_app). rewrite Hcell. cbn [mbind option_bind].
  eexists _, _, ka, nk, kb, ca, cb. split; [done|]. split; [done|]. split; [done|]. split; [lia|]. split; [done|]. split; [done|]. split; [|split; [|done]].
  - constructor; cbn; [lia| |by eapply cells_app|lia]. rewrite <-app_assoc in Lk. by eapply cells_app.
  - rewrite !zlen_app, !zlen_fmap in *. constructor; cbn; rewrite ?zlen_app, ?zlen_cons; [lia| | |lia].
    + apply (cells_intro _ _ _ rk); [by rewrite fmap_app, fmap_cons, <-app_assoc|]. cbn [app]. rewrite !zlen_app, zlen_cons, zlen_app, !zlen_fmap. change (zlen [z]) with 1 in Hck. lia.
    + apply (cells_intro _ _ _ rc); [by rewrite fmap_app, <-app_assoc|]. rewrite !zlen_app, !zlen_fmap. lia.
Qed.
