(* ===== verification/StxTree.v ===== *)
(** * stx::btree: the tree (competitor/btree/src/include/stx/btree.h)

    The heap maps addresses to nodes and the addresses of leaves to their links in the
    chain of leaves; [NULL] is 0.  The subclass of a node is its constructor, and the
    [level] of a leaf is 0.

    Keys and payloads are 64-bit, there are no duplicates and [selfverify] is off: the
    instance the adapter uses.  The assertions ([BTREE_ASSERT]) are not part of the
    operations. *)

From S2P Require Import Prelude Words StxNode.
From stdpp Require Import gmap list.
Local Open Scope Z_scope.
Local Open Scope cxx_scope.

(** ** State *)

Inductive stx_node := SLeaf (n : leaf_node) | SInner (n : inner_node).

(** The links of a leaf. *)
Record Links := mkLinks { prevleaf : Z; nextleaf : Z }.

Record Stx := mkStx {
  m_root : Z;
  m_headleaf : Z;
  m_tailleaf : Z;
  itemcount : Z;
  leaves : Z;
  innernodes : Z;
  nodes : gmap Z stx_node;
  links : gmap Z Links;
  next_free : Z
}.

Definition stx_new : Stx := mkStx 0 0 0 0 0 0 ∅ ∅ 1.

Definition level_of (nd : stx_node) : Z :=
  match nd with SLeaf _ => 0 | SInner n => ilevel n end.

Definition slotuse_of (nd : stx_node) : Z :=
  match nd with SLeaf n => lslotuse n | SInner n => islotuse n end.

Definition get_leaf (t : Stx) (p : Z) : option leaf_node :=
  match nodes t !! p with Some (SLeaf n) => Some n | _ => None end.

Definition get_inner (t : Stx) (p : Z) : option inner_node :=
  match nodes t !! p with Some (SInner n) => Some n | _ => None end.

Definition set_node (t : Stx) (p : Z) (nd : stx_node) : Stx :=
  mkStx (m_root t) (m_headleaf t) (m_tailleaf t) (itemcount t) (leaves t) (innernodes t) (<[p := nd]> (nodes t)) (links t) (next_free t).

Definition set_links (t : Stx) (p : Z) (l : Links) : Stx :=
  mkStx (m_root t) (m_headleaf t) (m_tailleaf t) (itemcount t) (leaves t) (innernodes t) (nodes t) (<[p := l]> (links t)) (next_free t).

Definition set_next (t : Stx) (p q : Z) : option Stx :=
  l ← links t !! p; Some (set_links t p (mkLinks (prevleaf l) q)).

Definition set_prev (t : Stx) (p q : Z) : option Stx :=
  l ← links t !! p; Some (set_links t p (mkLinks q (nextleaf l))).

Definition set_root (t : Stx) (p : Z) : Stx :=
  mkStx p (m_headleaf t) (m_tailleaf t) (itemcount t) (leaves t) (innernodes t) (nodes t) (links t) (next_free t).

Definition set_head (t : Stx) (p : Z) : Stx :=
  mkStx (m_root t) p (m_tailleaf t) (itemcount t) (leaves t) (innernodes t) (nodes t) (links t) (next_free t).

Definition set_tail (t : Stx) (p : Z) : Stx :=
  mkStx (m_root t) (m_headleaf t) p (itemcount t) (leaves t) (innernodes t) (nodes t) (links t) (next_free t).

Definition set_itemcount (t : Stx) (n : Z) : Stx :=
  mkStx (m_root t) (m_headleaf t) (m_tailleaf t) n (leaves t) (innernodes t) (nodes t) (links t) (next_free t).

Definition allocate_leaf (t : Stx) : Stx * Z :=
  (mkStx (m_root t) (m_headleaf t) (m_tailleaf t) (itemcount t) (leaves t + 1) (innernodes t)
     (<[next_free t := SLeaf new_leaf_node]> (nodes t)) (<[next_free t := mkLinks 0 0]> (links t)) (next_free t + 1), next_free t).

Definition allocate_inner (t : Stx) (level : Z) : Stx * Z :=
  (mkStx (m_root t) (m_headleaf t) (m_tailleaf t) (itemcount t) (leaves t) (innernodes t + 1)
     (<[next_free t := SInner (new_inner_node level)]> (nodes t)) (links t) (next_free t + 1), next_free t).

Definition free_node (t : Stx) (p : Z) : option Stx :=
  nd ← nodes t !! p;
  Some match nd with
  | SLeaf _ => mkStx (m_root t) (m_headleaf t) (m_tailleaf t) (itemcount t) (leaves t - 1) (innernodes t) (delete p (nodes t)) (delete p (links t)) (next_free t)
  | SInner _ => mkStx (m_root t) (m_headleaf t) (m_tailleaf t) (itemcount t) (leaves t) (innernodes t - 1) (delete p (nodes t)) (links t) (next_free t)
  end.

(** Rounds enough to reach a leaf from the root: the level of the root and one more. *)
Definition height (t : Stx) : nat :=
  match nodes t !! m_root t with
  | Some nd => S (Z.to_nat (level_of nd))
  | None => O
  end.

(** ** Iterators: a leaf and a slot *)

Definition begin (t : Stx) : Z * Z := (m_headleaf t, 0).

Definition end_ (t : Stx) : option (Z * Z) :=
  if m_tailleaf t =? 0 then Some (0, 0)
  else n ← get_leaf t (m_tailleaf t); Some (m_tailleaf t, lslotuse n).

(** [operator ++] *)
Definition iter_next (t : Stx) (it : Z * Z) : option (Z * Z) :=
  let '(currnode, currslot) := it in
  n ← get_leaf t currnode;
  l ← links t !! currnode;
  if currslot + 1 <? lslotuse n then Some (currnode, currslot + 1)
  else if negb (nextleaf l =? 0) then Some (nextleaf l, 0)
  else Some (currnode, lslotuse n).

(** [operator --] *)
Definition iter_prev (t : Stx) (it : Z * Z) : option (Z * Z) :=
  let '(currnode, currslot) := it in
  l ← links t !! currnode;
  if 0 <? currslot then Some (currnode, currslot - 1)
  else if negb (prevleaf l =? 0) then n ← get_leaf t (prevleaf l); Some (prevleaf l, lslotuse n - 1)
  else Some (currnode, 0).

Definition iter_key (t : Stx) (it : Z * Z) : option Z :=
  n ← get_leaf t it.1; cell (lslotkey n) it.2.

Definition iter_data (t : Stx) (it : Z * Z) : option Z :=
  n ← get_leaf t it.1; cell (lslotdata n) it.2.

Definition iter_eqb (x y : Z * Z) : bool := (x.1 =? y.1) && (x.2 =? y.2).

(** ** Searches *)

(** The leaf a search ends in and the slot the search in it returns. *)
Definition descend (find : list (option Z) -> Z -> Z -> option Z) (t : Stx) (key : Z) : option (Z * leaf_node * Z) :=
  loop (height t) (fun p =>
    nd ← nodes t !! p;
    match nd with
    | SInner inner =>
        slot ← find (islotkey inner) (islotuse inner) key;
        c ← cell (childid inner) slot;
        Some (inl c)
    | SLeaf leaf =>
        slot ← find (lslotkey leaf) (lslotuse leaf) key;
        Some (inr (p, leaf, slot))
    end) (m_root t).

(** [slot < leaf->slotuse && key_equal(key, leaf->slotkey[slot])] *)
Definition key_at (leaf : leaf_node) (slot key : Z) : option bool :=
  if slot <? lslotuse leaf then k ← cell (lslotkey leaf) slot; Some (key =? k) else Some false.

Definition exists_ (t : Stx) (key : Z) : option bool :=
  if m_root t =? 0 then Some false
  else
    '(p, leaf, slot) ← descend find_lower t key;
    key_at leaf slot key.

Definition find (t : Stx) (key : Z) : option (Z * Z) :=
  if m_root t =? 0 then end_ t
  else
    '(p, leaf, slot) ← descend find_lower t key;
    b ← key_at leaf slot key;
    if b : bool then Some (p, slot) else end_ t.

Definition count (t : Stx) (key : Z) : option Z :=
  if m_root t =? 0 then Some 0
  else
    '(p, leaf, slot) ← descend find_lower t key;
    loop (S (Z.to_nat (itemcount t))) (fun '(p, slot, num) =>
      if p =? 0 then Some (inr num)
      else
        leaf ← get_leaf t p;
        b ← key_at leaf slot key;
        if b : bool then
          if lslotuse leaf <=? slot + 1 then l ← links t !! p; Some (inl (nextleaf l, 0, num + 1))
          else Some (inl (p, slot + 1, num + 1))
        else Some (inr num)) (p, slot, 0).

Definition lower_bound (t : Stx) (key : Z) : option (Z * Z) :=
  if m_root t =? 0 then end_ t
  else
    '(p, leaf, slot) ← descend find_lower t key;
    Some (p, slot).

Definition upper_bound (t : Stx) (key : Z) : option (Z * Z) :=
  if m_root t =? 0 then end_ t
  else
    '(p, leaf, slot) ← descend find_upper t key;
    Some (p, slot).

(** ** Insertion *)

(** The state, the new leaf and the key between the leaves. *)
Definition split_leaf_node (t : Stx) (p : Z) : option (Stx * Z * Z) :=
  leaf ← get_leaf t p;
  l ← links t !! p;
  let '(t, newp) := allocate_leaf t in
  t ← (if nextleaf l =? 0 then Some (set_tail t newp) else set_prev t (nextleaf l) newp);
  '(leaf, newleaf, newkey) ← split_leaf leaf;
  let t := set_node (set_node t p (SLeaf leaf)) newp (SLeaf newleaf) in
  let t := set_links t newp (mkLinks p (nextleaf l)) in
  t ← set_next t p newp;
  Some (t, newp, newkey).

Definition split_inner_node (t : Stx) (p addslot : Z) : option (Stx * Z * Z) :=
  inner ← get_inner t p;
  let '(t, newp) := allocate_inner t (ilevel inner) in
  '(inner, newinner, newkey) ← split_inner inner addslot;
  Some (set_node (set_node t p (SInner inner)) newp (SInner newinner), newp, newkey).

(** Insert into the leaf: the state, the iterator, whether the pair was inserted, the split key and the split node. *)
Definition insert_leaf (t : Stx) (p key value : Z) : option (Stx * (Z * Z) * bool * Z * Z) :=
  leaf ← get_leaf t p;
  slot ← find_lower (lslotkey leaf) (lslotuse leaf) key;
  b ← key_at leaf slot key;
  if b : bool then Some (t, (p, slot), false, 0, 0)
  else
    '(t, splitnode, splitkey) ← (if lisfull leaf then split_leaf_node t p else Some (t, 0, 0));
    leaf ← get_leaf t p;
    let '(q, slot) := if negb (splitnode =? 0) && (lslotuse leaf <=? slot) then (splitnode, slot - lslotuse leaf) else (p, slot) in
    leaf ← get_leaf t q;
    leaf ← leaf_put leaf slot key value;
    let t := set_node t q (SLeaf leaf) in
    let splitkey := if negb (q =? splitnode) && (slot =? lslotuse leaf - 1) then key else splitkey in
    Some (t, (q, slot), true, splitkey, splitnode).

(** Put the new child of the inner node [p] behind the child at [slot]. *)
Definition insert_child (t : Stx) (p slot newkey newchild : Z) : option (Stx * Z * Z) :=
  inner ← get_inner t p;
  if iisfull inner then
    '(t, splitnode, splitkey) ← split_inner_node t p slot;
    inner ← get_inner t p;
    splitinner ← get_inner t splitnode;
    if (slot =? islotuse inner + 1) && (islotuse inner <? islotuse splitinner) then
      keys ← wr (islotkey inner) (islotuse inner) (Some splitkey);
      c0 ← cell (childid splitinner) 0;
      kids ← wr (childid inner) (islotuse inner + 1) (Some c0);
      skids ← wr (childid splitinner) 0 (Some newchild);
      let t := set_node t p (SInner (mkInnerNode (ilevel inner) (islotuse inner + 1) keys kids)) in
      let t := set_node t splitnode (SInner (mkInnerNode (ilevel splitinner) (islotuse splitinner) (islotkey splitinner) skids)) in
      Some (t, newkey, splitnode)
    else
      let '(q, slot) := if islotuse inner + 1 <=? slot then (splitnode, slot - (islotuse inner + 1)) else (p, slot) in
      inner ← get_inner t q;
      inner ← inner_put inner slot newkey newchild;
      Some (set_node t q (SInner inner), splitkey, splitnode)
  else
    inner ← inner_put inner slot newkey newchild;
    Some (set_node t p (SInner inner), 0, 0).

Fixpoint insert_descend (fuel : nat) (t : Stx) (p key value : Z) : option (Stx * (Z * Z) * bool * Z * Z) :=
  match fuel with
  | O => None
  | S fuel =>
      nd ← nodes t !! p;
      match nd with
      | SInner inner =>
          slot ← find_lower (islotkey inner) (islotuse inner) key;
          c ← cell (childid inner) slot;
          '(t, it, inserted, newkey, newchild) ← insert_descend fuel t c key value;
          if newchild =? 0 then Some (t, it, inserted, 0, 0)
          else
            '(t, splitkey, splitnode) ← insert_child t p slot newkey newchild;
            Some (t, it, inserted, splitkey, splitnode)
      | SLeaf _ => insert_leaf t p key value
      end
  end.

(** A root above the old root and its sibling. *)
Definition grow_root (t : Stx) (newkey newchild : Z) : option Stx :=
  nd ← nodes t !! m_root t;
  let '(t, newroot) := allocate_inner t (level_of nd + 1) in
  n ← get_inner t newroot;
  keys ← wr (islotkey n) 0 (Some newkey);
  kids ← wr (childid n) 0 (Some (m_root t));
  kids ← wr kids 1 (Some newchild);
  Some (set_root (set_node t newroot (SInner (mkInnerNode (ilevel n) 1 keys kids))) newroot).

Definition insert_start (t : Stx) (key value : Z) : option (Stx * (Z * Z) * bool) :=
  let t := if m_root t =? 0 then let '(t, p) := allocate_leaf t in set_tail (set_head (set_root t p) p) p else t in
  '(t, it, inserted, newkey, newchild) ← insert_descend (height t) t (m_root t) key value;
  t ← (if newchild =? 0 then Some t else grow_root t newkey newchild);
  Some (if inserted : bool then set_itemcount t (itemcount t + 1) else t, it, inserted).

Definition insert := insert_start.

(** ** Clearing *)

(** Free everything below the node. *)
Fixpoint clear_recursive (fuel : nat) (t : Stx) (p : Z) : option Stx :=
  match fuel with
  | O => None
  | S fuel =>
      nd ← nodes t !! p;
      match nd with
      | SLeaf _ => Some t
      | SInner n =>
          for_up 0 (islotuse n + 1) (fun slot t =>
            n ← get_inner t p;
            c ← cell (childid n) slot;
            t ← clear_recursive fuel t c;
            free_node t c) t
      end
  end.

Definition clear (t : Stx) : option Stx :=
  if m_root t =? 0 then Some t
  else
    t ← clear_recursive (height t) t (m_root t);
    t ← free_node t (m_root t);
    Some (mkStx 0 0 0 0 0 0 (nodes t) (links t) (next_free t)).

(** ** Sizes *)

Definition stx_size (t : Stx) : Z := itemcount t.
Definition stx_empty (t : Stx) : bool := stx_size t =? 0.

(** [sizeof] of the tree, of a leaf and of an inner node. *)
Definition sizeof_tree : Z := 56.
Definition sizeof_leaf : Z := 8 + 2 * 8 + leafslotmax * (8 + 8).
Definition sizeof_inner : Z := 8 + innerslotmax * 8 + (innerslotmax + 1) * 8.

Definition memory (t : Stx) : Z := sizeof_tree + innernodes t * sizeof_inner + leaves t * sizeof_leaf.
