(* ===== verification/StxInv.v ===== *)
(** * stx::btree: what a heap represents

    [btree] is the tree of a heap, with the addresses of its nodes and the lists its nodes
    hold; a level tells leaves from inner nodes.  [stx_rep] relates a heap to a tree,
    [stx_wf] holds of the trees the operations build: nodes at least half full and every
    key of an inner node the greatest key below the child on its left.  The leaves are
    linked from left to right ([chain]). *)

From S2P Require Import Prelude Words StxNode StxTree.
From Stdlib Require Import Sorted.
From stdpp Require Import gmap list.
Local Open Scope Z_scope.
Local Open Scope cxx_scope.

(** ** Trees *)

Inductive btree := TLeaf (p : Z) (es : list (Z * Z)) | TInner (p : Z) (ks : list Z) (cs : list btree).

Definition tptr (t : btree) : Z := match t with TLeaf p _ => p | TInner p _ _ => p end.

(** The leaves below a node of level [l], with their addresses. *)
Fixpoint tleaves (l : nat) (t : btree) : list (Z * list (Z * Z)) :=
  match l, t with
  | O, TLeaf p es => [(p, es)]
  | S l, TInner _ _ cs => concat (tleaves l <$> cs)
  | _, _ => []
  end.

(** The entries, the keys and the addresses of the inner nodes. *)
Definition tpairs (l : nat) (t : btree) : list (Z * Z) := concat (tleaves l t).*2.
Definition tkeys (l : nat) (t : btree) : list Z := (tpairs l t).*1.

Fixpoint tinners (l : nat) (t : btree) : list Z :=
  match l, t with
  | S l, TInner p _ cs => p :: concat (tinners l <$> cs)
  | _, _ => []
  end.

Definition tptrs (l : nat) (t : btree) : list Z := (tleaves l t).*1 ++ tinners l t.

(** The heap at the nodes of the tree. *)
Fixpoint stx_rep (h : gmap Z stx_node) (l : nat) (t : btree) : Prop :=
  match l, t with
  | O, TLeaf p es => exists n, h !! p = Some (SLeaf n) /\ stx_leaf_rep n es
  | S l', TInner p ks cs => exists n, h !! p = Some (SInner n) /\ ilevel n = Z.of_nat l /\ stx_inner_rep n ks (tptr <$> cs) /\ Forall (stx_rep h l') cs
  | _, _ => False
  end.

(** Each key is the last one below the child on its left; there is one more child. *)
Fixpoint exact (l : nat) (ks : list Z) (cs : list btree) : Prop :=
  match ks, cs with
  | [], [_] => True
  | k :: ks, c :: cs => last (tkeys l c) = Some k /\ exact l ks cs
  | _, _ => False
  end.

(** [min] is the least number of keys of the node itself; nodes below hold at least eight. *)
Fixpoint stx_wf (min : Z) (l : nat) (t : btree) : Prop :=
  match l, t with
  | O, TLeaf _ es => min <= zlen es
  | S l, TInner _ ks cs => min <= zlen ks /\ exact l ks cs /\ Forall (stx_wf 8 l) cs
  | _, _ => False
  end.

(** ** The chain of leaves *)

(** The leaves [ps] are linked in order, the first back to [prev], the last on to [next]. *)
Fixpoint chain (lk : gmap Z Links) (prev : Z) (ps : list Z) (next : Z) : Prop :=
  match ps with
  | [] => True
  | p :: ps => lk !! p = Some (mkLinks prev (hd next ps)) /\ chain lk p ps next
  end.

Definition last_or (d : Z) (ps : list Z) : Z := default d (last ps).

Record linked (s : Stx) (ps : list Z) : Prop := {
  linked_chain : chain (links s) 0 ps 0;
  linked_head : m_headleaf s = hd 0 ps;
  linked_tail : m_tailleaf s = last_or 0 ps
}.

Lemma last_or_snoc d ps p : last_or d (ps ++ [p]) = p.
Proof. unfold last_or. by rewrite last_snoc. Qed.

Lemma last_or_cons d p ps : last_or d (p :: ps) = last_or p ps.
Proof. unfold last_or. destruct ps as [|q ps _] using rev_ind; [done|]. by rewrite app_comm_cons, !last_snoc. Qed.

Lemma hd_app (d : Z) a b : hd d (a ++ b) = hd (hd d b) a.
Proof. by destruct a. Qed.

Lemma chain_app lk a : forall prev b next, chain lk prev (a ++ b) next <-> chain lk prev a (hd next b) /\ chain lk (last_or prev a) b next.
Proof.
  induction a as [|p a IH]; intros prev b next; cbn [app chain]; [by split; [|intros [_ ?]]|].
  rewrite IH, last_or_cons, hd_app. tauto.
Qed.

Lemma chain_ext lk lk' ps : forall prev next, (forall p, p ∈ ps -> lk' !! p = lk !! p) -> chain lk prev ps next -> chain lk' prev ps next.
Proof.
  induction ps as [|p ps IH]; intros prev next H; [done|]. intros [Hp Hc]. split; [rewrite H; [done|constructor]|].
  apply IH; [|done]. intros q Hq. apply H. by constructor.
Qed.

(** A link of a chain. *)
Lemma chain_lookup lk prev a p b next : chain lk prev (a ++ p :: b) next -> lk !! p = Some (mkLinks (last_or prev a) (hd next b)).
Proof. intros [_ [H _]]%chain_app. done. Qed.

(** The only link that names the next address is the last one. *)
Lemma chain_new_next lk prev a p next next' : chain lk prev (a ++ [p]) next -> p ∉ a ->
  chain (<[p := mkLinks (last_or prev a) next']> lk) prev (a ++ [p]) next'.
Proof.
  intros [Ha _]%chain_app Hp. apply chain_app. cbn [hd chain] in *. split; [|by rewrite lookup_insert_eq]. eapply chain_ext; [|done].
  intros q Hq. apply lookup_insert_ne. by intros ->.
Qed.

Lemma chain_new_prev lk prev prev' p b next : chain lk prev (p :: b) next -> p ∉ b ->
  chain (<[p := mkLinks prev' (hd next b)]> lk) prev' (p :: b) next.
Proof.
  intros [_ Hb] Hp. split; [by rewrite lookup_insert_eq|]. eapply chain_ext; [|done]. intros q Hq. apply lookup_insert_ne. by intros ->.
Qed.

(** ** Lists of trees *)

Definition fleaves (l : nat) (cs : list btree) : list (Z * list (Z * Z)) := concat (tleaves l <$> cs).
Definition fpairs (l : nat) (cs : list btree) : list (Z * Z) := concat (fleaves l cs).*2.
Definition finners (l : nat) (cs : list btree) : list Z := concat (tinners l <$> cs).
Definition fptrs (l : nat) (cs : list btree) : list Z := (fleaves l cs).*1 ++ finners l cs.

Lemma fleaves_app l a b : fleaves l (a ++ b) = fleaves l a ++ fleaves l b.
Proof. unfold fleaves. by rewrite fmap_app, concat_app. Qed.

Lemma fleaves_cons l c cs : fleaves l (c :: cs) = tleaves l c ++ fleaves l cs.
Proof. done. Qed.

Lemma fleaves_one l c : fleaves l [c] = tleaves l c.
Proof. cbn. by rewrite app_nil_r. Qed.

Lemma fpairs_app l a b : fpairs l (a ++ b) = fpairs l a ++ fpairs l b.
Proof. unfold fpairs. by rewrite fleaves_app, fmap_app, concat_app. Qed.

Lemma fpairs_cons l c cs : fpairs l (c :: cs) = tpairs l c ++ fpairs l cs.
Proof. unfold fpairs, tpairs. by rewrite fleaves_cons, fmap_app, concat_app. Qed.

Lemma fpairs_one l c : fpairs l [c] = tpairs l c.
Proof. unfold fpairs, tpairs. by rewrite fleaves_one. Qed.

Lemma finners_app l a b : finners l (a ++ b) = finners l a ++ finners l b.
Proof. unfold finners. by rewrite fmap_app, concat_app. Qed.

Lemma finners_cons l c cs : finners l (c :: cs) = tinners l c ++ finners l cs.
Proof. done. Qed.

Lemma finners_one l c : finners l [c] = tinners l c.
Proof. cbn. by rewrite app_nil_r. Qed.

Lemma fptrs_app l a b : fptrs l (a ++ b) ≡ₚ fptrs l a ++ fptrs l b.
Proof. unfold fptrs. rewrite fleaves_app, finners_app, fmap_app. solve_Permutation. Qed.

Lemma fptrs_cons l c cs : fptrs l (c :: cs) ≡ₚ tptrs l c ++ fptrs l cs.
Proof. unfold fptrs, tptrs. rewrite fleaves_cons, finners_cons, fmap_app. solve_Permutation. Qed.

Lemma tptrs_inner l p ks cs : tptrs (S l) (TInner p ks cs) ≡ₚ p :: fptrs l cs.
Proof. unfold tptrs, fptrs. cbn [tleaves tinners]. fold (fleaves l cs). fold (finners l cs). solve_Permutation. Qed.

Lemma tpairs_leaf p es : tpairs 0 (TLeaf p es) = es.
Proof. apply app_nil_r. Qed.

Lemma tpairs_inner l p ks cs : tpairs (S l) (TInner p ks cs) = fpairs l cs.
Proof. done. Qed.

Lemma fptrs_elem l cs q : q ∈ fptrs l cs <-> exists c, c ∈ cs /\ q ∈ tptrs l c.
Proof.
  induction cs as [|c cs IH].
  - split; [intros H; by apply elem_of_nil in H|]. intros (c & H & _). by apply elem_of_nil in H.
  - rewrite fptrs_cons, elem_of_app, IH. split.
    + intros [H|(c' & H & H')]; [exists c; split; [constructor|done]|exists c'; split; [by constructor|done]].
    + intros (c' & [->|H]%elem_of_cons & H'); [by left|]. right. by exists c'.
Qed.

Lemma tptr_in h l t : stx_rep h l t -> tptr t ∈ tptrs l t.
Proof.
  destruct l as [|l], t as [p es|p ks cs]; try done.
  - intros _. constructor.
  - intros _. rewrite tptrs_inner. constructor.
Qed.

(** The heap matters at the nodes of the tree. *)
Lemma stx_rep_ext h h' l : forall t, (forall q, q ∈ tptrs l t -> h' !! q = h !! q) -> stx_rep h l t -> stx_rep h' l t.
Proof.
  induction l as [|l IH]; intros [p es|p ks cs] Hext; try done.
  - intros (n & Hn & Hr). exists n. split; [|done]. rewrite Hext; [done|]. constructor.
  - intros (n & Hn & Hl & Hr & Hc). exists n. split; [rewrite Hext; [done|]; rewrite tptrs_inner; constructor|]. do 2 (split; [done|]).
    rewrite Forall_forall in Hc |- *. intros c Hin. apply IH; [|by apply Hc]. intros q Hq. apply Hext. rewrite tptrs_inner. apply list_elem_of_further.
    apply fptrs_elem. by exists c.
Qed.

Lemma stx_reps_ext h h' l cs : (forall q, q ∈ fptrs l cs -> h' !! q = h !! q) -> Forall (stx_rep h l) cs -> Forall (stx_rep h' l) cs.
Proof.
  intros Hext. rewrite !Forall_forall. intros H c Hc. eapply stx_rep_ext; [|by apply H]. intros q Hq. apply Hext, fptrs_elem. by exists c.
Qed.

(** ** Separators *)

Lemma exact_len l ks : forall cs, exact l ks cs -> length cs = S (length ks).
Proof. induction ks as [|k ks IH]; intros [|c cs]; cbn; [done| |done|]; [by destruct cs|]. intros [_ H]. by rewrite (IH cs H). Qed.

(** Cut in front of a child. *)
Lemma exact_app l k1 : forall c1 k2 c c2, length c1 = length k1 ->
  (exact l (k1 ++ k2) (c1 ++ c :: c2) <-> Forall2 (fun k c => last (tkeys l c) = Some k) k1 c1 /\ exact l k2 (c :: c2)).
Proof.
  induction k1 as [|k k1 IH]; intros [|c' c1] k2 c c2 Hl; cbn [app]; try done.
  - split; [intros H; split; [constructor|done]|by intros [_ H]].
  - cbn [exact length] in *. rewrite IH by lia. rewrite Forall2_cons. tauto.
Qed.

(** Another first child with the same greatest key. *)
Lemma exact_first l ks c c' cs : exact l ks (c :: cs) -> (ks <> [] -> last (tkeys l c') = last (tkeys l c)) -> exact l ks (c' :: cs).
Proof. destruct ks as [|k ks]; cbn; [by destruct cs|]. intros [H Hx] He. by rewrite He. Qed.

Lemma fkeys_last l c cs : last (tkeys l c) <> None -> (cs <> [] -> last (fpairs l cs).*1 <> None) -> last (fpairs l (c :: cs)).*1 = if cs is [] then last (tkeys l c) else last (fpairs l cs).*1.
Proof.
  intros Hc Hcs. rewrite fpairs_cons, fmap_app, last_app. destruct cs as [|d cs]; [done|].
  specialize (Hcs ltac:(done)). by destruct (last (fpairs l (d :: cs)).*1).
Qed.

(** A well-formed tree has entries. *)
Lemma wf_nonempty l : forall min t, 1 <= min -> stx_wf min l t -> tpairs l t <> [].
Proof.
  induction l as [|l IH]; intros min [p es|p ks cs] Hm; try done; cbn [stx_wf].
  - intros H. unfold tpairs. cbn. rewrite app_nil_r. intros ->. change (zlen (@nil (Z * Z))) with 0 in H. lia.
  - intros (H & Hx & Hc). rewrite tpairs_inner. destruct cs as [|c cs]; [by destruct ks|]. rewrite fpairs_cons. apply Forall_cons in Hc as [Hc _].
    specialize (IH 8 c ltac:(lia) Hc). by destruct (tpairs l c).
Qed.

(** The level of a node that represents a tree. *)
Lemma rep_level s l t : stx_rep (nodes s) l t -> exists nd, nodes s !! tptr t = Some nd /\ level_of nd = Z.of_nat l.
Proof. destruct l, t; try done; cbn [stx_rep tptr]; [intros (n & -> & _)|intros (n & -> & Hl & _)]; by eexists. Qed.

(** ** The state *)

(** The heap holds exactly the trees [cs], of level [l], and the leaves are linked. *)
Record stx_heap (s : Stx) (l : nat) (cs : list btree) : Prop := {
  hp_rep : Forall (stx_rep (nodes s) l) cs;
  hp_nodup : NoDup (fptrs l cs);
  hp_next : 0 < next_free s;
  hp_fresh q : q ∈ fptrs l cs -> 0 < q < next_free s;
  hp_dom q : is_Some (nodes s !! q) -> q ∈ fptrs l cs;
  hp_linked : linked s (fleaves l cs).*1;
  hp_sorted : StronglySorted Z.lt (fpairs l cs).*1;
  hp_items : itemcount s = zlen (fpairs l cs);
  hp_leaves : leaves s = zlen (fleaves l cs);
  hp_inners : innernodes s = zlen (finners l cs)
}.

Record stx_ok (s : Stx) (l : nat) (t : btree) : Prop := {
  ok_heap : stx_heap s l [t];
  ok_root : m_root s = tptr t;
  ok_wf : stx_wf 1 l t
}.

(** The tree stores these entries in this order. *)
Definition stx_holds (s : Stx) (es : list (Z * Z)) : Prop :=
  if m_root s =? 0 then es = [] /\ stx_heap s 0 []
  else exists l t, stx_ok s l t /\ es = tpairs l t.

Lemma heap_rep s l t : stx_heap s l [t] -> stx_rep (nodes s) l t.
Proof. intros H. pose proof (hp_rep _ _ _ H) as Hr. by apply Forall_cons in Hr as [Hr _]. Qed.

Lemma fptrs_one l c : fptrs l [c] ≡ₚ tptrs l c.
Proof. rewrite fptrs_cons. cbn. by rewrite app_nil_r. Qed.

Lemma stx_ok_root s l t : stx_ok s l t -> 0 < m_root s < next_free s.
Proof.
  intros [H -> _]. apply (hp_fresh _ _ _ H). rewrite fptrs_one. by eapply tptr_in, heap_rep.
Qed.

Lemma stx_ok_holds s l t : stx_ok s l t -> stx_holds s (tpairs l t).
Proof. intros H. unfold stx_holds. rewrite (proj2 (Z.eqb_neq _ _)); [by exists l, t|]. pose proof (stx_ok_root _ _ _ H). lia. Qed.

(** One round per level, from the root down. *)
Lemma height_spec s l t : stx_ok s l t -> height s = S l.
Proof.
  intros [H Hr _]. apply heap_rep in H. unfold height. rewrite Hr. destruct l as [|l], t as [p es|p ks cs]; try done.
  - destruct H as (n & Hn & _). cbn [tptr]. by rewrite Hn.
  - destruct H as (n & Hn & Hl & _). cbn [tptr]. rewrite Hn. cbn [level_of]. rewrite Hl. by rewrite Nat2Z.id.
Qed.

Lemma stx_new_holds : stx_holds stx_new [].
Proof. split; [done|]. constructor; try done; [by apply NoDup_nil|by intros q Hq%elem_of_nil|by intros q [? Hq]|constructor]. Qed.

Lemma stx_holds_sorted s es : stx_holds s es -> StronglySorted Z.lt es.*1.
Proof.
  unfold stx_holds. destruct (m_root s =? 0); [intros [-> _]; constructor|]. intros (l & t & [H _ _] & ->).
  pose proof (hp_sorted _ _ _ H) as Hs. by rewrite fpairs_one in Hs.
Qed.

Lemma stx_holds_size s es : stx_holds s es -> stx_size s = zlen es.
Proof.
  unfold stx_holds. destruct (m_root s =? 0).
  - intros (-> & H). apply (hp_items _ _ _ H).
  - intros (l & t & [H _ _] & ->). unfold stx_size. by rewrite (hp_items _ _ _ H), fpairs_one.
Qed.

(** ** Height *)

(** Every inner node has nine children or more, every leaf eight entries or more. *)
Lemma wf_size l : forall t, stx_wf 8 l t -> 8 * 9 ^ Z.of_nat l <= zlen (tpairs l t).
Proof.
  induction l as [|l IH]; intros [p es|p ks cs]; try done; cbn [stx_wf].
  - rewrite tpairs_leaf. cbn. lia.
  - intros (Hk & Hx & Hw). rewrite tpairs_inner. apply exact_len in Hx. assert (Hlen : 9 <= zlen cs) by (unfold zlen in *; lia). clear Hx Hk.
    assert (H : zlen cs * (8 * 9 ^ Z.of_nat l) <= zlen (fpairs l cs)).
    { clear Hlen. induction cs as [|c cs IHc]; [done|]. apply Forall_cons in Hw as [Hc Hw]. rewrite fpairs_cons, zlen_app, zlen_cons. specialize (IHc Hw). specialize (IH c Hc). lia. }
    replace (Z.of_nat (S l)) with (Z.of_nat l + 1) by lia. rewrite Z.pow_add_r by lia. assert (0 <= 9 ^ Z.of_nat l) by (apply Z.pow_nonneg; lia). nia.
Qed.

Lemma wf_root_size l p ks cs : stx_wf 1 (S l) (TInner p ks cs) -> 16 * 9 ^ Z.of_nat l <= zlen (fpairs l cs).
Proof.
  intros (Hk & Hx & Hw). apply exact_len in Hx. destruct cs as [|c1 [|c2 cs]]; [cbn in Hx; lia|cbn in Hx; unfold zlen in Hk; lia|].
  apply Forall_cons in Hw as [H1 Hw]. apply Forall_cons in Hw as [H2 _]. apply wf_size in H1, H2. rewrite !fpairs_cons, !zlen_app. pose proof (zlen_nonneg (fpairs l cs)). lia.
Qed.
