(* ===== verification/StxInsert.v ===== *)
(** * stx::btree: insertion

    [grown] says how a step of an insertion changes a part of the tree, given as the list
    of its subtrees: one pair more, some nodes more, everything else untouched.  A change
    below one child is a change below all of them ([grown_within]); the node above then
    takes the new child, splitting when it is full ([grown_above]). *)

From S2P Require Import Prelude Words StxNode StxTree StxInv.
From Stdlib Require Import Sorted.
From stdpp Require Import gmap list.
Local Open Scope Z_scope.
Local Open Scope cxx_scope.

(** ** Searching sorted keys *)

Lemma sorted_last_max l m : StronglySorted Z.lt l -> last l = Some m -> Forall (fun x => x <= m) l.
Proof.
  intros Hs Hl. destruct l as [|y l _] using rev_ind; [done|]. rewrite last_snoc in Hl. injection Hl as ->.
  apply sorted_app_inv in Hs as (_ & _ & H). apply Forall_app. split; [|repeat constructor; lia].
  rewrite Forall_forall. intros x Hx. specialize (H x m Hx). rewrite elem_of_cons in H. lia.
Qed.

Lemma lower_cut key ks : exists a b, ks = a ++ b /\ length a = lower key ks /\ Forall (fun k => k < key) a /\ (forall y, head b = Some y -> key <= y).
Proof.
  induction ks as [|k ks (a & b & -> & Hl & Ha & Hb)]; [by exists [], []|]. cbn [lower]. destruct (Z.ltb_spec k key).
  - exists (k :: a), b. split; [done|]. split; [by cbn; rewrite Hl|]. split; [by constructor|done].
  - exists [], (k :: a ++ b). split; [done|]. split; [done|]. split; [constructor|]. by intros y [= <-].
Qed.

Lemma sorted_head_le key b : StronglySorted Z.lt b -> (forall y, head b = Some y -> key <= y) -> Forall (fun y => key <= y) b.
Proof.
  destruct b as [|y b]; [done|]. intros [_ H]%StronglySorted_inv Hy. specialize (Hy y eq_refl). rewrite List.Forall_forall in H.
  constructor; [done|]. rewrite Forall_forall. intros x Hx%list_elem_of_In. specialize (H x Hx). lia.
Qed.

(** A sorted list of entries cut at a key. *)
Lemma entries_cut key (es : list (Z * Z)) : StronglySorted Z.lt es.*1 -> exists a b, es = a ++ b /\ Z.of_nat (lower key es.*1) = zlen a /\
  Forall (fun k => k < key) a.*1 /\ Forall (fun k => key <= k) b.*1.
Proof.
  intros Hs. destruct (lower_cut key es.*1) as (k1 & k2 & E & Hl & H1 & H2). rewrite E in Hs. apply sorted_app_inv in Hs as (_ & Hs2 & _).
  destruct (fmap_app_inv _ _ _ _ E) as (a & b & -> & -> & ->). exists a, b. split; [done|]. split; [unfold zlen; rewrite <-Hl, length_fmap; done|].
  split; [done|]. by apply sorted_head_le.
Qed.

(** ** The inner node above *)

Lemma get_inner_set t p n : get_inner (set_node t p (SInner n)) p = Some n.
Proof. unfold get_inner. cbn [nodes set_node]. by rewrite lookup_insert_eq. Qed.

Lemma get_inner_set_ne t p q nd : p <> q -> get_inner (set_node t p nd) q = get_inner t q.
Proof. intros H. unfold get_inner. cbn [nodes set_node]. by rewrite lookup_insert_ne. Qed.

Lemma get_inner_lookup t p n : nodes t !! p = Some (SInner n) -> get_inner t p = Some n.
Proof. unfold get_inner. by intros ->. Qed.

Lemma get_leaf_lookup t p n : nodes t !! p = Some (SLeaf n) -> get_leaf t p = Some n.
Proof. unfold get_leaf. by intros ->. Qed.

Lemma get_leaf_set t p n : get_leaf (set_node t p (SLeaf n)) p = Some n.
Proof. unfold get_leaf. cbn [nodes set_node]. by rewrite lookup_insert_eq. Qed.

Lemma get_leaf_set_ne t p q nd : p <> q -> get_leaf (set_node t p nd) q = get_leaf t q.
Proof. intros H. unfold get_leaf. cbn [nodes set_node]. by rewrite lookup_insert_ne. Qed.

(** Only nodes differ, and only at [p] and at the node allocated next. *)
Record inner_halves (s s' : Stx) (p : Z) (n1 n2 : inner_node) : Prop := {
  is_old : nodes s' !! p = Some (SInner n1);
  is_new : nodes s' !! next_free s = Some (SInner n2);
  is_frame q : q <> p -> q <> next_free s -> nodes s' !! q = nodes s !! q;
  is_fields : s' = mkStx (m_root s) (m_headleaf s) (m_tailleaf s) (itemcount s) (leaves s) (innernodes s + 1) (nodes s') (links s) (next_free s + 1)
}.

(** A split before the child is put. *)
Lemma split_inner_node_spec s p n ks cs addslot : nodes s !! p = Some (SInner n) -> p < next_free s -> stx_inner_rep n ks cs -> zlen ks = innerslotmax -> 0 <= addslot ->
  exists s' l r k1 k k2 c1 c2, split_inner_node s p addslot = Some (s', next_free s, k) /\ inner_halves s s' p l r /\ ks = k1 ++ k :: k2 /\ cs = c1 ++ c2 /\
    zlen c1 = zlen k1 + 1 /\ zlen k1 = (if addslot <=? 8 then 7 else 8) /\ ilevel l = ilevel n /\ ilevel r = ilevel n /\ stx_inner_rep l k1 c1 /\ stx_inner_rep r k2 c2.
Proof.
  intros Hn Hp Hr Hl Ha. destruct (split_inner_spec n ks cs addslot Hr Hl Ha) as (l & r & k1 & k & k2 & c1 & c2 & E & Hks & Hcs & Hc1 & Hk1 & Hil & Hir & Rl & Rr).
  unfold split_inner_node. rewrite (get_inner_lookup _ _ _ Hn). cbn [mbind option_bind allocate_inner]. rewrite E. cbn [mbind option_bind].
  eexists _, l, r, k1, k, k2, c1, c2. split; [done|]. split; [|by repeat (split; [done|])]. constructor; cbn [nodes set_node]; [| | |done].
  - rewrite lookup_insert_ne by lia. by rewrite lookup_insert_eq.
  - by rewrite lookup_insert_eq.
  - intros q Hq Hf. by rewrite !lookup_insert_ne by done.
Qed.

Lemma inner_split_get s s' p n1 n2 : inner_halves s s' p n1 n2 -> get_inner s' p = Some n1 /\ get_inner s' (next_free s) = Some n2.
Proof. intros H. split; apply get_inner_lookup; [apply (is_old _ _ _ _ _ H)|apply (is_new _ _ _ _ _ H)]. Qed.

Lemma inner_split_set_old s s' p n1 n2 n : inner_halves s s' p n1 n2 -> p < next_free s -> inner_halves s (set_node s' p (SInner n)) p n n2.
Proof.
  intros [Ho Hn Hf He] Hp. constructor; cbn [nodes set_node].
  - by rewrite lookup_insert_eq.
  - rewrite lookup_insert_ne by lia. done.
  - intros q Hq Hq'. rewrite lookup_insert_ne by done. by apply Hf.
  - rewrite He at 1. done.
Qed.

Lemma inner_split_set_new s s' p n1 n2 n : inner_halves s s' p n1 n2 -> p < next_free s -> inner_halves s (set_node s' (next_free s) (SInner n)) p n1 n.
Proof.
  intros [Ho Hn Hf He] Hp. constructor; cbn [nodes set_node].
  - rewrite lookup_insert_ne by lia. done.
  - by rewrite lookup_insert_eq.
  - intros q Hq Hq'. rewrite lookup_insert_ne by done. by apply Hf.
  - rewrite He at 1. done.
Qed.

(** Two ways to cut a list. *)
Lemma app_cut {A} (a b c d : list A) : a ++ b = c ++ d -> zlen a <= zlen c -> exists r, c = a ++ r /\ b = r ++ d.
Proof.
  intros H Hl. destruct (List.app_eq_app _ _ _ _ H) as (r & [[-> ->]|[-> ->]]); [|by exists r]. rewrite zlen_app in Hl.
  destruct r; [|rewrite zlen_cons in Hl; pose proof (zlen_nonneg r); lia]. exists []. by rewrite !app_nil_r.
Qed.

(** What the two nodes of a full node hold afterwards. *)
Definition spread (s s' : Stx) (p : Z) (level : Z) (ks cs : list Z) (k : Z) : Prop :=
  exists n1 n2 ka kb ca cb, inner_halves s s' p n1 n2 /\ ks = ka ++ k :: kb /\ cs = ca ++ cb /\ zlen ka = 8 /\ zlen kb = 8 /\ zlen ca = 9 /\
    ilevel n1 = level /\ ilevel n2 = level /\ stx_inner_rep n1 ka ca /\ stx_inner_rep n2 kb cb.

(** The child comes between the nodes: its key goes up. *)
Lemma insert_child_between s s' p l r ka k kb ca c0 cb nc level : inner_halves s s' p l r -> p < next_free s -> zlen ka = 7 -> zlen kb = 8 -> zlen ca = 8 ->
  ilevel l = level -> ilevel r = level -> stx_inner_rep l ka ca -> stx_inner_rep r kb (c0 :: cb) ->
  exists keys kids skids, wr (islotkey l) (zlen ka) (Some k) = Some keys /\ cell (childid r) 0 = Some c0 /\ wr (childid l) (zlen ka + 1) (Some c0) = Some kids /\
    wr (childid r) 0 (Some nc) = Some skids /\
    (forall nk, spread s (set_node (set_node s' p (SInner (mkInnerNode (ilevel l) (zlen ka + 1) keys kids))) (next_free s)
      (SInner (mkInnerNode (ilevel r) (zlen kb) (islotkey r) skids))) p level ((ka ++ [k]) ++ nk :: kb) ((ca ++ [c0]) ++ nc :: cb) nk).
Proof.
  intros Hs Hp Hka Hkb Hca Hil Hir [Lu Lk Lc Ln] [Ru Rk Rc Rn].
  destruct (cells_wr _ _ _ (zlen ka) k Lk) as (keys & Ek & Hkeys); [lia|change innerslotmax with 16; lia|].
  destruct (cells_wr _ _ _ (zlen ca) c0 Lc) as (kids & Ec & Hkids); [lia|change innerslotmax with 16; lia|].
  destruct (cells_wr _ _ _ 0 nc Rc) as (skids & Es & Hskids); [rewrite zlen_cons; pose proof (zlen_nonneg cb); lia|change innerslotmax with 16; lia|].
  rewrite take_all_at, drop_ge in Hkeys, Hkids by (unfold zlen; lia).
  exists keys, kids, skids. split; [done|]. split; [by eapply cells_cell|]. split; [by rewrite <-Ln|]. split; [done|]. intros nk.
  eexists _, _, (ka ++ [k]), kb, (ca ++ [c0]), (nc :: cb). split; [eapply inner_split_set_new; [|done]; eapply inner_split_set_old; [done|done]|].
  rewrite !zlen_app. change (zlen [k]) with 1. change (zlen [c0]) with 1. do 2 (split; [done|]). split; [lia|]. split; [done|]. split; [lia|]. do 2 (split; [done|]). split.
  - constructor; cbn; rewrite ?zlen_app; change (zlen [k]) with 1; change (zlen [c0]) with 1; [done| |done|lia]. done.
  - constructor; cbn; rewrite ?zlen_cons in *; [done|done|done|lia].
Qed.

(** A full node takes the child: the keys and children are spread over two nodes. *)
Lemma insert_child_full s p n k1 k2 c1 c2 nk nc : nodes s !! p = Some (SInner n) -> p < next_free s -> stx_inner_rep n (k1 ++ k2) (c1 ++ c2) ->
  zlen c1 = zlen k1 + 1 -> zlen (k1 ++ k2) = innerslotmax ->
  exists s' k, insert_child s p (zlen k1) nk nc = Some (s', k, next_free s) /\ spread s s' p (ilevel n) (k1 ++ nk :: k2) (c1 ++ nc :: c2) k.
Proof.
  intros Hn Hp Hr Hc1 Hfull. unfold insert_child. rewrite (get_inner_lookup _ _ _ Hn). cbn [mbind option_bind].
  assert (Hf : iisfull n = true) by (unfold iisfull; rewrite (ir_use _ _ _ Hr), Hfull; done). rewrite Hf.
  destruct (split_inner_node_spec s p n _ _ (zlen k1) Hn Hp Hr Hfull (zlen_nonneg k1)) as (s' & l & r & ka & k & kb & ca & cb & E & Hs & Hks & Hcs & Hca & Hka & Hil & Hir & Rl & Rr).
  rewrite E. cbn [mbind option_bind]. destruct (inner_split_get _ _ _ _ _ Hs) as [-> ->]. cbn [mbind option_bind].
  rewrite (ir_use _ _ _ Rl), (ir_use _ _ _ Rr). assert (Hkb : zlen kb = 15 - zlen ka).
  { apply (f_equal zlen) in Hks. rewrite (zlen_app ka), zlen_cons in Hks. change innerslotmax with 16 in Hfull. lia. }
  pose proof (ir_count _ _ _ Rr) as Hcb. destruct (Z.leb_spec (zlen k1) 8) as [H8|H8].
  - destruct (Z.eqb_spec (zlen k1) (zlen ka + 1)) as [E8|N8]; cbn [andb].
    + destruct (Z.ltb_spec (zlen ka) (zlen kb)); [|lia]. change (ka ++ k :: kb) with (ka ++ [k] ++ kb) in Hks. rewrite app_assoc in Hks.
      destruct (app_cut _ _ _ _ Hks) as (q & Eq & Eq2); [rewrite zlen_app; change (zlen [k]) with 1; lia|].
      assert (q = []) as -> by (apply (f_equal zlen) in Eq; rewrite !zlen_app in Eq; change (zlen [k]) with 1 in Eq; destruct q; [done|rewrite zlen_cons in Eq; pose proof (zlen_nonneg q); lia]).
      rewrite app_nil_r in Eq. cbn [app] in Eq2. subst k1 k2. destruct cb as [|c0 cb]; [change (zlen (@nil Z)) with 0 in Hcb; lia|].
      change (ca ++ c0 :: cb) with (ca ++ [c0] ++ cb) in Hcs. rewrite app_assoc in Hcs.
      destruct (app_cut _ _ _ _ Hcs) as (q & Eq & Eq2); [rewrite zlen_app; change (zlen [c0]) with 1; lia|].
      assert (q = []) as -> by (apply (f_equal zlen) in Eq; rewrite !zlen_app in Eq; change (zlen [c0]) with 1 in Eq; destruct q; [done|rewrite zlen_cons in Eq; pose proof (zlen_nonneg q); lia]).
      rewrite app_nil_r in Eq. cbn [app] in Eq2. subst c1 c2.
      destruct (insert_child_between s s' p l r ka k kb ca c0 cb nc (ilevel n) Hs Hp) as (keys & kids & skids & -> & E0 & E1 & E2 & Hsp); [lia|lia|lia|done|done|done|done|].
      cbn [mbind option_bind]. rewrite E0. cbn [mbind option_bind]. rewrite E1. cbn [mbind option_bind]. rewrite E2. cbn [mbind option_bind]. eexists _, nk. split; [done|]. apply Hsp.
    + destruct (Z.leb_spec (zlen ka + 1) (zlen k1)); [lia|]. destruct (inner_split_get _ _ _ _ _ Hs) as [-> _]. cbn [mbind option_bind].
      destruct (app_cut _ _ _ _ Hks) as (kr & -> & ->); [lia|]. destruct (app_cut _ _ _ _ Hcs) as (cr & -> & ->); [lia|].
      destruct (inner_put_spec l k1 kr c1 cr nk nc Rl Hc1) as (n' & -> & Hl' & Rn'); [rewrite Hka; change innerslotmax with 16; lia|]. cbn [mbind option_bind].
      eexists _, k. split; [done|]. exists n', r, (k1 ++ nk :: kr), kb, (c1 ++ nc :: cr), cb. split; [by eapply inner_split_set_old|].
      rewrite <-!app_assoc. rewrite !zlen_app, !zlen_cons in *. split; [done|]. split; [done|]. split; [lia|]. split; [lia|]. split; [lia|]. split; [congruence|]. split; [done|]. by split.
  - destruct (Z.eqb_spec (zlen k1) (zlen ka + 1)); [destruct (Z.ltb_spec (zlen ka) (zlen kb)); [lia|]|]; cbn [andb].
    all: destruct (Z.leb_spec (zlen ka + 1) (zlen k1)); [|lia]; destruct (inner_split_get _ _ _ _ _ Hs) as [_ ->]; cbn [mbind option_bind].
    all: change (ka ++ k :: kb) with (ka ++ [k] ++ kb) in Hks; rewrite app_assoc in Hks; symmetry in Hks, Hcs.
    all: destruct (app_cut _ _ _ _ Hks) as (kr & -> & ->); [rewrite zlen_app; change (zlen [k]) with 1; lia|]; destruct (app_cut _ _ _ _ Hcs) as (cr & -> & ->); [lia|].
    all: rewrite !zlen_app in *; change (zlen [k]) with 1 in *; replace (zlen ka + 1 + zlen kr - (zlen ka + 1)) with (zlen kr) by lia.
    all: destruct (inner_put_spec r kr k2 cr c2 nk nc Rr) as (n' & -> & Hl' & Rn'); [lia|rewrite zlen_app; change innerslotmax with 16; lia|]; cbn [mbind option_bind].
    all: eexists _, k; split; [done|]; exists l, n', ka, (kr ++ nk :: k2), ca, (cr ++ nc :: c2); split; [by eapply inner_split_set_new|].
    all: rewrite <-!app_assoc; rewrite !zlen_app, !zlen_cons in *; split; [done|]; split; [done|]; split; [lia|]; split; [lia|]; split; [lia|]; split; [done|]; split; [congruence|]; by split.
Qed.

(** A node with room takes the child. *)
Lemma insert_child_room s p n k1 k2 c1 c2 nk nc : nodes s !! p = Some (SInner n) -> stx_inner_rep n (k1 ++ k2) (c1 ++ c2) ->
  zlen c1 = zlen k1 + 1 -> zlen (k1 ++ k2) < innerslotmax ->
  exists n', insert_child s p (zlen k1) nk nc = Some (set_node s p (SInner n'), 0, 0) /\ ilevel n' = ilevel n /\ stx_inner_rep n' (k1 ++ nk :: k2) (c1 ++ nc :: c2).
Proof.
  intros Hn Hr Hc1 Hl. unfold insert_child. rewrite (get_inner_lookup _ _ _ Hn). cbn [mbind option_bind].
  assert (Hf : iisfull n = false) by (unfold iisfull; rewrite (ir_use _ _ _ Hr); apply Z.eqb_neq; lia). rewrite Hf.
  destruct (inner_put_spec n k1 k2 c1 c2 nk nc Hr Hc1 Hl) as (n' & -> & Hl' & Hr'). cbn [mbind option_bind]. by exists n'.
Qed.

(** ** The leaf *)

(** Two leaves instead of one; the links are described apart. *)
Record leaf_halves (s s' : Stx) (p : Z) (n1 n2 : leaf_node) : Prop := {
  lsp_old : nodes s' !! p = Some (SLeaf n1);
  lsp_new : nodes s' !! next_free s = Some (SLeaf n2);
  lsp_frame q : q <> p -> q <> next_free s -> nodes s' !! q = nodes s !! q;
  lsp_root : m_root s' = m_root s;
  lsp_items : itemcount s' = itemcount s;
  lsp_leaves : leaves s' = leaves s + 1;
  lsp_inners : innernodes s' = innernodes s;
  lsp_next : next_free s' = next_free s + 1
}.

(** A leaf more in the chain. *)
Lemma chain_splice lk lk' pre p newp post : chain lk 0 (pre ++ p :: post) 0 -> NoDup (pre ++ p :: post) ->
  (forall q, q ∈ pre -> lk' !! q = lk !! q) -> lk' !! p = Some (mkLinks (last_or 0 pre) newp) -> lk' !! newp = Some (mkLinks p (hd 0 post)) ->
  (forall q l, head post = Some q -> lk !! q = Some l -> lk' !! q = Some (mkLinks newp (nextleaf l))) -> (forall q, q ∈ tail post -> lk' !! q = lk !! q) ->
  chain lk' 0 (pre ++ p :: newp :: post) 0.
Proof.
  intros Hc Hnd Hpre Hp Hn Hq Hpost. pose proof (chain_lookup _ _ _ _ _ _ Hc) as Hlp. apply chain_app in Hc as [Ha [_ Hb]].
  apply chain_app. cbn [hd chain]. split; [by eapply chain_ext|]. split; [done|]. split; [done|]. destruct post as [|q post]; [done|]. destruct Hb as [Hb1 Hb2].
  split; [|by eapply chain_ext]. by rewrite (Hq q _ eq_refl Hb1).
Qed.

Lemma split_leaf_node_spec s p pre post n es : nodes s !! p = Some (SLeaf n) -> stx_leaf_rep n es -> zlen es = leafslotmax ->
  linked s (pre ++ p :: post) -> NoDup (pre ++ p :: post) -> Forall (fun q => 0 < q < next_free s) (pre ++ p :: post) ->
  exists s' l r a k v b, split_leaf_node s p = Some (s', next_free s, k) /\ leaf_halves s s' p l r /\ linked s' (pre ++ p :: next_free s :: post) /\
    es = (a ++ [(k, v)]) ++ b /\ zlen (a ++ [(k, v)]) = 8 /\ zlen b = 8 /\ stx_leaf_rep l (a ++ [(k, v)]) /\ stx_leaf_rep r b.
Proof.
  intros Hn Hr Hfull [Hc Hh Ht] Hnd Hall. destruct (stx_split_leaf_spec n es Hr Hfull) as (l & r & a & k & v & b & E & Hes & Ha & Hb & Rl & Rr).
  unfold split_leaf_node. rewrite (get_leaf_lookup _ _ _ Hn). pose proof (chain_lookup _ _ _ _ _ _ Hc) as Hlp. rewrite Hlp. cbn [mbind option_bind allocate_leaf nextleaf prevleaf].
  apply Forall_app in Hall as [Hall1 Hall2]. apply Forall_cons in Hall2 as [Hp Hall2]. rewrite Forall_forall in Hall1, Hall2. set (newp := next_free s) in *.
  pose proof Hnd as Hnd0. apply NoDup_app in Hnd0 as (_ & Hdis & [Hpp Hnd2]%NoDup_cons).
  assert (Hpre : forall q, q ∈ pre -> q <> p /\ q <> newp /\ q ∉ post).
  { intros q Hq. split; [intros ->; apply (Hdis p Hq); constructor|]. split; [specialize (Hall1 q Hq); lia|]. intros H. apply (Hdis q Hq). by constructor. }
  assert (Hpost : forall q, q ∈ post -> q <> p /\ q <> newp /\ q <> 0).
  { intros q Hq. specialize (Hall2 q Hq). split; [by intros ->|]. split; [lia|lia]. }
  destruct post as [|q post].
  - cbn [hd]. rewrite Z.eqb_refl. cbn [mbind option_bind]. rewrite E. cbn [mbind option_bind]. unfold set_next. cbn [links set_links set_node set_tail].
    rewrite lookup_insert_ne by lia. rewrite lookup_insert_ne by lia. rewrite Hlp. cbn [mbind option_bind prevleaf].
    eexists _, l, r, a, k, v, b. split; [done|]. split; [|split; [|by repeat (split; [done|])]].
    + constructor; cbn; try done; [rewrite lookup_insert_ne by lia; by rewrite lookup_insert_eq|by rewrite lookup_insert_eq|].
      intros x Hx Hx'. by rewrite !lookup_insert_ne by done.
    + constructor; cbn [links set_links set_node set_tail m_headleaf m_tailleaf].
      * eapply chain_splice; [exact Hc|done|..].
        -- intros x Hx. destruct (Hpre x Hx) as (? & ? & _). by rewrite !lookup_insert_ne by done.
        -- by rewrite lookup_insert_eq.
        -- rewrite lookup_insert_ne by lia. by rewrite lookup_insert_eq.
        -- done.
        -- intros x Hx. by apply elem_of_nil in Hx.
      * rewrite Hh. by rewrite !hd_app.
      * replace (pre ++ [p; newp]) with ((pre ++ [p]) ++ [newp]) by by rewrite <-app_assoc. by rewrite last_or_snoc.
  - cbn [hd]. destruct (Hpost q ltac:(constructor)) as (Hqp & Hqn & Hq0). rewrite (proj2 (Z.eqb_neq _ _) Hq0). unfold set_prev. cbn [links]. rewrite lookup_insert_ne by done.
    replace (pre ++ p :: q :: post) with ((pre ++ [p]) ++ q :: post) in Hc by by rewrite <-app_assoc.
    pose proof (chain_lookup _ _ _ _ _ _ Hc) as Hlq. rewrite Hlq. rewrite <-app_assoc in Hc. cbn [app] in Hc. cbn [mbind option_bind]. rewrite E. cbn [mbind option_bind]. unfold set_next. cbn [links set_links set_node nextleaf].
    rewrite lookup_insert_ne by lia. rewrite lookup_insert_ne by done. rewrite lookup_insert_ne by lia. rewrite Hlp. cbn [mbind option_bind prevleaf].
    eexists _, l, r, a, k, v, b. split; [done|]. split; [|split; [|by repeat (split; [done|])]].
    + constructor; cbn; try done; [rewrite lookup_insert_ne by lia; by rewrite lookup_insert_eq|by rewrite lookup_insert_eq|].
      intros x Hx Hx'. by rewrite !lookup_insert_ne by done.
    + constructor; cbn [links set_links set_node m_headleaf m_tailleaf].
      * eapply chain_splice; [exact Hc|done|..].
        -- intros x Hx. destruct (Hpre x Hx) as (? & ? & Hx'). rewrite !lookup_insert_ne; [done|done|intros ->; apply Hx'; constructor|done|done].
        -- by rewrite lookup_insert_eq.
        -- rewrite lookup_insert_ne by lia. by rewrite lookup_insert_eq.
        -- intros x lx [= <-] Hx. rewrite lookup_insert_ne by done. rewrite lookup_insert_ne by done. rewrite lookup_insert_eq. rewrite Hlq in Hx. by injection Hx as <-.
        -- intros x Hx. apply NoDup_cons in Hnd2 as [Hqq _]. destruct (Hpost x ltac:(by constructor)) as (? & ? & _). rewrite !lookup_insert_ne; [done|done|by intros ->|done|done].
      * rewrite Hh. by rewrite !hd_app.
      * rewrite Ht. replace (pre ++ p :: q :: post) with ((pre ++ [p]) ++ q :: post) by by rewrite <-app_assoc. replace (pre ++ p :: newp :: q :: post) with ((pre ++ [p; newp]) ++ q :: post) by by rewrite <-app_assoc.
        unfold last_or. rewrite !last_app. destruct (last (q :: post)) eqn:El; [done|]. by apply last_None in El.
Qed.

(** ** A part of the tree takes a pair *)

Record grown (s s' : Stx) (l : nat) (cs cs' : list btree) (pre post : list Z) (key value : Z) (it : Z * Z) : Prop := {
  gr_rep : Forall (stx_rep (nodes s') l) cs';
  gr_pairs : exists a b, fpairs l cs = a ++ b /\ fpairs l cs' = a ++ (key, value) :: b /\ Forall (fun k => k < key) a.*1 /\ Forall (fun k => key < k) b.*1;
  gr_nodup : NoDup (fptrs l cs');
  gr_fresh q : q ∈ fptrs l cs' -> q ∈ fptrs l cs \/ next_free s <= q < next_free s';
  gr_old q : q ∈ fptrs l cs -> q ∈ fptrs l cs';
  gr_frame q : q ∉ fptrs l cs -> q < next_free s -> nodes s' !! q = nodes s !! q;
  gr_dom q : is_Some (nodes s' !! q) -> q ∈ fptrs l cs' \/ is_Some (nodes s !! q);
  gr_next : next_free s <= next_free s';
  gr_linked : linked s' (pre ++ (fleaves l cs').*1 ++ post);
  gr_root : m_root s' = m_root s;
  gr_items : itemcount s' = itemcount s;
  gr_leaves : leaves s' = leaves s + (zlen (fleaves l cs') - zlen (fleaves l cs));
  gr_inners : innernodes s' = innernodes s + (zlen (finners l cs') - zlen (finners l cs));
  gr_it : exists p es slot, it = (p, Z.of_nat slot) /\ (p, es) ∈ fleaves l cs' /\ es !! slot = Some (key, value)
}.

(** The node stays one or splits in two. *)
Definition one_or_two (l : nat) (min : Z) (t : btree) (sk sn : Z) (ts : list btree) : Prop :=
  (exists t1, ts = [t1] /\ sn = 0 /\ tptr t1 = tptr t /\ stx_wf min l t1) \/
  (exists t1 t2, ts = [t1; t2] /\ 0 < sn /\ tptr t1 = tptr t /\ tptr t2 = sn /\ last (tkeys l t1) = Some sk /\ stx_wf 8 l t1 /\ stx_wf 8 l t2).

Lemma leaf_split_set_old s s' p n1 n2 n : leaf_halves s s' p n1 n2 -> p < next_free s -> leaf_halves s (set_node s' p (SLeaf n)) p n n2.
Proof.
  intros [Ho Hn Hf H1 H2 H3 H4 H5] Hp. constructor; cbn; try done; [by rewrite lookup_insert_eq|by rewrite lookup_insert_ne by lia|].
  intros q Hq Hq'. rewrite lookup_insert_ne by done. by apply Hf.
Qed.

Lemma leaf_split_set_new s s' p n1 n2 n : leaf_halves s s' p n1 n2 -> p < next_free s -> leaf_halves s (set_node s' (next_free s) (SLeaf n)) p n1 n.
Proof.
  intros [Ho Hn Hf H1 H2 H3 H4 H5] Hp. constructor; cbn; try done; [by rewrite lookup_insert_ne by lia|by rewrite lookup_insert_eq|].
  intros q Hq Hq'. rewrite lookup_insert_ne by done. by apply Hf.
Qed.

Lemma linked_fields s s' ps : links s' = links s -> m_headleaf s' = m_headleaf s -> m_tailleaf s' = m_tailleaf s -> linked s ps -> linked s' ps.
Proof. intros E1 E2 E3 [H1 H2 H3]. constructor; congruence. Qed.

(** A pair put into the only leaf. *)
Lemma leaf_grown s p n' a b pre post key value : stx_leaf_rep n' (a ++ (key, value) :: b) -> Forall (fun k => k < key) a.*1 -> Forall (fun k => key < k) b.*1 ->
  linked s (pre ++ p :: post) ->
  grown s (set_node s p (SLeaf n')) 0 [TLeaf p (a ++ b)] [TLeaf p (a ++ (key, value) :: b)] pre post key value (p, zlen a).
Proof.
  intros Hr Ha Hb Hl. constructor; try done.
  - repeat constructor. exists n'. split; [apply lookup_insert_eq|done].
  - exists a, b. by rewrite !fpairs_one, !tpairs_leaf.
  - repeat constructor. by apply not_elem_of_nil.
  - by left.
  - intros q Hq _. apply lookup_insert_ne. intros ->. apply Hq. constructor.
  - intros q Hq. destruct (decide (q = p)) as [->|Hne]; [left; constructor|right]. cbn [nodes set_node] in Hq. by rewrite lookup_insert_ne in Hq.
  - by apply (linked_fields s).
  - unfold zlen. cbn. lia.
  - unfold zlen. cbn. lia.
  - exists p, (a ++ (key, value) :: b), (length a). split; [done|]. split; [constructor|by apply list_lookup_middle].
Qed.

(** A pair put into one of the halves of a leaf. *)
Lemma leaf_split_grown s s' p l r e1 e2 e1' e2' pre post key value it a b : leaf_halves s s' p l r -> 0 < p < next_free s -> stx_leaf_rep l e1' -> stx_leaf_rep r e2' ->
  e1 ++ e2 = a ++ b -> e1' ++ e2' = a ++ (key, value) :: b -> Forall (fun k => k < key) a.*1 -> Forall (fun k => key < k) b.*1 ->
  linked s' (pre ++ p :: next_free s :: post) ->
  (exists q es slot, it = (q, Z.of_nat slot) /\ (q, es) ∈ [(p, e1'); (next_free s, e2')] /\ es !! slot = Some (key, value)) ->
  grown s s' 0 [TLeaf p (e1 ++ e2)] [TLeaf p e1'; TLeaf (next_free s) e2'] pre post key value it.
Proof.
  intros [Ho Hn Hf H1 H2 H3 H4 H5] Hp Rl Rr E E' Ha Hb Hl Hit. constructor; try done; try (rewrite ?H3, ?H4, ?H5; unfold zlen; cbn; lia).
  - constructor; [by exists l|]. constructor; [by exists r|constructor].
  - exists a, b. split; [by rewrite fpairs_one, tpairs_leaf|]. by rewrite fpairs_cons, fpairs_one, !tpairs_leaf.
  - cbn. constructor; [|repeat constructor; by apply not_elem_of_nil]. intros ->%list_elem_of_singleton. lia.
  - intros q [->|[->|Hq]%elem_of_cons]%elem_of_cons; [left; constructor|right; cbn; lia|by apply elem_of_nil in Hq].
  - intros q [->|Hq]%elem_of_cons; [constructor|by apply elem_of_nil in Hq].
  - intros q Hq Hlt. apply Hf; [|lia]. intros ->. apply Hq. constructor.
  - intros q Hq. destruct (decide (q = p)) as [->|Hne]; [left; constructor|]. destruct (decide (q = next_free s)) as [->|Hne']; [left; constructor; constructor|].
    right. by rewrite Hf in Hq.
Qed.

Lemma key_at_spec n es slot key : stx_leaf_rep n es -> 0 <= slot -> key_at n slot key = Some (match es !! Z.to_nat slot with Some e => key =? e.1 | None => false end).
Proof.
  intros [Hu Hk _] Hs. unfold key_at. rewrite Hu. destruct (Z.ltb_spec slot (zlen es)) as [Hlt|Hge].
  - destruct (lookup_lt_is_Some_2 es (Z.to_nat slot)) as [e He]; [unfold zlen in Hlt; lia|]. rewrite He.
    by rewrite (cells_cell _ _ _ slot e.1 Hk) by (done || by rewrite list_lookup_fmap, He).
  - rewrite lookup_ge_None_2; [done|]. unfold zlen in Hge. lia.
Qed.

Lemma insert_leaf_spec s p pre post n es min key value : nodes s !! p = Some (SLeaf n) -> stx_leaf_rep n es -> StronglySorted Z.lt es.*1 -> min <= zlen es -> min <= 8 ->
  linked s (pre ++ p :: post) -> NoDup (pre ++ p :: post) -> Forall (fun q => 0 < q < next_free s) (pre ++ p :: post) ->
  if decide (key ∈ es.*1) then exists slot w, insert_leaf s p key value = Some (s, (p, Z.of_nat slot), false, 0, 0) /\ es !! slot = Some (key, w)
  else exists s' it sk sn ts, insert_leaf s p key value = Some (s', it, true, sk, sn) /\ grown s s' 0 [TLeaf p es] ts pre post key value it /\ one_or_two 0 min (TLeaf p es) sk sn ts.
Proof.
  intros Hn Hr Hs Hmin H8 Hl Hnd Hall. destruct (entries_cut key es Hs) as (a & b & -> & Hlow & Ha & Hb).
  unfold insert_leaf. rewrite (get_leaf_lookup _ _ _ Hn). cbn [mbind option_bind].
  pose proof (stx_find_lower_spec _ _ _ key (lr_key _ _ Hr)) as Hfind. rewrite zlen_fmap, <-(lr_use _ _ Hr), Hlow in Hfind. rewrite Hfind. cbn [mbind option_bind].
  rewrite (key_at_spec _ _ _ key Hr (zlen_nonneg a)). cbn [mbind option_bind]. rewrite lookup_app_r by (unfold zlen; lia). replace (Z.to_nat (zlen a) - length a)%nat with O by (unfold zlen; lia).
  rewrite fmap_app in Hs |- *. pose proof Hs as Hs0. apply sorted_app_inv in Hs0 as (_ & Hsb & _).
  destruct (decide (key ∈ a.*1 ++ b.*1)) as [Hin|Hnot].
  { apply elem_of_app in Hin as [Hin|Hin]; [rewrite Forall_forall in Ha; specialize (Ha key Hin); lia|].
    destruct b as [|[k w] b]; [by apply elem_of_nil in Hin|]. assert (k = key) as ->.
    { apply Forall_cons in Hb as [Hk _]. cbn in Hk. apply elem_of_cons in Hin as [?|Hin]; [done|]. apply StronglySorted_inv in Hsb as [_ Hsb].
      rewrite List.Forall_forall in Hsb. apply list_elem_of_In in Hin. specialize (Hsb key Hin). cbn in Hsb. lia. }
    cbn. rewrite Z.eqb_refl. exists (length a), w. split; [done|]. by apply list_lookup_middle. }
  assert (Hb' : Forall (fun k => key < k) b.*1).
  { rewrite Forall_forall in Hb |- *. intros x Hx. specialize (Hb x Hx). assert (x <> key); [|lia]. intros ->. apply Hnot, elem_of_app. by right. }
  assert (Hno : match b !! 0%nat with Some e => key =? e.1 | None => false end = false).
  { destruct b as [|[k w] b]; [done|]. apply Forall_cons in Hb' as [Hk _]. cbn in Hk |- *. apply Z.eqb_neq. lia. }
  rewrite Hno. clear Hno. assert (Hp : 0 < p < next_free s) by (rewrite Forall_forall in Hall; apply Hall, elem_of_app; right; constructor).
  unfold lisfull. rewrite (lr_use _ _ Hr). destruct (Z.eqb_spec (zlen (a ++ b)) leafslotmax) as [Hfull|Hroom].
  - destruct (split_leaf_node_spec s p pre post n _ Hn Hr Hfull Hl Hnd Hall) as (s1 & l & r & x & k & v & y & E & Hsp & Hl1 & Ecut & Hx & Hy & Rl & Rr).
    rewrite E. cbn [mbind option_bind]. rewrite (get_leaf_lookup _ _ _ (lsp_old _ _ _ _ _ Hsp)). cbn [mbind option_bind]. rewrite (lr_use _ _ Rl), Hx.
    rewrite (proj2 (Z.eqb_neq (next_free s) 0)) by lia. cbn [negb andb]. rewrite Ecut in Hmin |- *. set (e1 := x ++ [(k, v)]) in *.
    destruct (Z.leb_spec 8 (zlen a)) as [Hge|Hlt].
    + rewrite (get_leaf_lookup _ _ _ (lsp_new _ _ _ _ _ Hsp)). cbn [mbind option_bind]. symmetry in Ecut. destruct (app_cut _ _ _ _ Ecut) as (a' & -> & ->); [lia|].
      rewrite zlen_app, Hx. replace (8 + zlen a' - 8) with (zlen a') by lia.
      destruct (leaf_put_spec r a' b key value Rr) as (r' & -> & Rr'); [rewrite Hy; done|]. cbn [mbind option_bind]. rewrite Z.eqb_refl. cbn [negb andb].
      eexists _, _, k, (next_free s), [TLeaf p e1; TLeaf (next_free s) (a' ++ (key, value) :: b)]. split; [done|]. split.
      * apply (leaf_split_grown s _ p l r' e1 (a' ++ b) e1 (a' ++ (key, value) :: b) pre post key value _ (e1 ++ a') b); try done.
        -- by eapply leaf_split_set_new; [|lia].
        -- by rewrite <-app_assoc.
        -- by apply (linked_fields s1).
        -- exists (next_free s), (a' ++ (key, value) :: b), (length a'). split; [done|]. split; [constructor; constructor|by apply list_lookup_middle].
      * right. exists (TLeaf p e1), (TLeaf (next_free s) (a' ++ (key, value) :: b)). split; [done|]. split; [lia|]. do 2 (split; [done|]). split; [|split].
        -- unfold tkeys, tpairs, e1. cbn. rewrite app_nil_r, fmap_app. apply last_snoc.
        -- cbn. rewrite Hx. lia.
        -- cbn. rewrite !zlen_app, zlen_cons in *. lia.
    + rewrite (get_leaf_lookup _ _ _ (lsp_old _ _ _ _ _ Hsp)). cbn [mbind option_bind]. destruct (app_cut _ _ _ _ Ecut) as (e1r & E1 & ->); [lia|].
      rewrite E1 in Rl. destruct (leaf_put_spec l a e1r key value Rl) as (l' & -> & Rl'); [rewrite <-E1, Hx; done|]. cbn [mbind option_bind]. rewrite (lr_use _ _ Rl').
      rewrite (proj2 (Z.eqb_neq p (next_free s))) by lia. cbn [negb andb].
      assert (Hlen : zlen (a ++ (key, value) :: e1r) = 9) by (rewrite zlen_app, zlen_cons; apply (f_equal zlen) in E1; rewrite Hx, zlen_app in E1; lia).
      rewrite Hlen, (proj2 (Z.eqb_neq (zlen a) (9 - 1))) by lia. assert (He1r : exists z, e1r = z ++ [(k, v)]).
      { destruct e1r as [|e z _] using rev_ind; [rewrite app_nil_r in E1; rewrite <-E1, Hx in Hlt; lia|]. unfold e1 in E1. rewrite app_assoc in E1. apply app_inj_2 in E1 as [_ [= <-]]; [|done]. by exists z. }
      eexists _, _, k, (next_free s), [TLeaf p (a ++ (key, value) :: e1r); TLeaf (next_free s) y]. split; [done|]. split.
      * apply (leaf_split_grown s _ p l' r e1 y (a ++ (key, value) :: e1r) y pre post key value _ a (e1r ++ y)); try done.
        -- by eapply leaf_split_set_old; [|lia].
        -- by rewrite <-app_assoc.
        -- by apply (linked_fields s1).
        -- exists p, (a ++ (key, value) :: e1r), (length a). split; [done|]. split; [constructor|by apply list_lookup_middle].
      * right. exists (TLeaf p (a ++ (key, value) :: e1r)), (TLeaf (next_free s) y). split; [done|]. split; [lia|]. do 2 (split; [done|]). split; [|split].
        -- destruct He1r as [z ->]. unfold tkeys, tpairs. cbn. rewrite app_nil_r. rewrite app_comm_cons, app_assoc, fmap_app. apply last_snoc.
        -- cbn. lia.
        -- cbn. lia.
  - cbn [mbind option_bind]. rewrite (get_leaf_lookup _ _ _ Hn). cbn [mbind option_bind]. rewrite Z.eqb_refl. cbn [negb andb]. rewrite (get_leaf_lookup _ _ _ Hn). cbn [mbind option_bind].
    pose proof (stx_leaf_rep_len _ _ Hr). destruct (leaf_put_spec n a b key value Hr) as (n' & -> & Hr'); [lia|]. cbn [mbind option_bind].
    eexists _, (p, zlen a), _, 0, [TLeaf p (a ++ (key, value) :: b)]. split; [done|]. split; [by apply leaf_grown|]. left. eexists. split; [done|]. split; [done|]. split; [done|].
    cbn. rewrite !zlen_app, zlen_cons in *. lia.
Qed.

(** ** From a child to its siblings *)

Lemma fptrs_bounds l cs s : (forall q, q ∈ fptrs l cs -> 0 < q < next_free s) -> forall c, c ∈ cs -> forall q, q ∈ tptrs l c -> 0 < q < next_free s.
Proof. intros H c Hc q Hq. apply H, fptrs_elem. by exists c. Qed.

Lemma grown_within s s' l c1 c c2 ts pre post key value it : grown s s' l [c] ts (pre ++ (fleaves l c1).*1) ((fleaves l c2).*1 ++ post) key value it ->
  NoDup (fptrs l (c1 ++ c :: c2)) -> Forall (stx_rep (nodes s) l) (c1 ++ c :: c2) -> (forall q, q ∈ fptrs l (c1 ++ c :: c2) -> 0 < q < next_free s) ->
  Forall (fun k => k < key) (fpairs l c1).*1 -> Forall (fun k => key < k) (fpairs l c2).*1 ->
  grown s s' l (c1 ++ c :: c2) (c1 ++ ts ++ c2) pre post key value it.
Proof.
  intros [G1 (a & b & Ga & Gb & Gl & Gh) G3 G4 G5 G6 G7 G8 G9 G10 G11 G12 G13 (p & es & slot & Gi1 & Gi2 & Gi3)] Hnd Hrep Hfr Hl Hh.
  change (c1 ++ c :: c2) with (c1 ++ [c] ++ c2) in *. assert (Hperm : forall x, fptrs l (c1 ++ x ++ c2) ≡ₚ fptrs l x ++ (fptrs l c1 ++ fptrs l c2)).
  { intros x. rewrite !fptrs_app. solve_Permutation. }
  assert (Helem : forall x q, q ∈ fptrs l (c1 ++ x ++ c2) <-> q ∈ fptrs l x \/ q ∈ fptrs l c1 ++ fptrs l c2) by (intros x q; by rewrite Hperm, elem_of_app).
  rewrite Hperm in Hnd. apply NoDup_app in Hnd as (_ & Hdis & Hnd).
  assert (Hold : forall q, q ∈ fptrs l c1 ++ fptrs l c2 -> (q ∉ fptrs l [c]) /\ 0 < q < next_free s).
  { intros q Hq. split; [intros Hc; by apply (Hdis q Hc)|]. apply Hfr, Helem. by right. }
  apply Forall_app in Hrep as [R1 R2]. apply Forall_app in R2 as [R2 R3]. constructor; try done.
  - apply Forall_app. split; [|apply Forall_app; split; [done|]].
    + eapply stx_reps_ext; [|exact R1]. intros q Hq. destruct (Hold q) as [? ?]; [apply elem_of_app; by left|]. apply G6; [done|lia].
    + eapply stx_reps_ext; [|exact R3]. intros q Hq. destruct (Hold q) as [? ?]; [apply elem_of_app; by right|]. apply G6; [done|lia].
  - exists (fpairs l c1 ++ a), (b ++ fpairs l c2). rewrite !fpairs_app, Ga, Gb, <-!app_assoc. split; [done|]. split; [done|]. rewrite !fmap_app, !Forall_app. done.
  - rewrite Hperm. apply NoDup_app. split; [done|]. split; [|done]. intros q Hq Hq'. destruct (Hold q Hq') as [Hc Hb]. destruct (G4 q Hq) as [?|?]; [done|lia].
  - intros q [Hq|Hq]%Helem; [|left; apply Helem; by right]. destruct (G4 q Hq) as [?|?]; [left; apply Helem; by left|by right].
  - intros q [Hq|Hq]%Helem; apply Helem; [left; by apply G5|by right].
  - intros q Hq Hlt. apply G6; [|done]. intros H. apply Hq, Helem. by left.
  - intros q Hq. destruct (G7 q Hq) as [?|?]; [left; apply Helem; by left|by right].
  - rewrite !fleaves_app, !fmap_app. rewrite <-!app_assoc in G9. rewrite <-!app_assoc. exact G9.
  - rewrite G12, !fleaves_app, !zlen_app. lia.
  - rewrite G13, !finners_app, !zlen_app. lia.
  - exists p, es, slot. split; [done|]. split; [|done]. rewrite !fleaves_app, !elem_of_app. tauto.
Qed.

(** ** From the children to the node above them *)

Lemma grown_fresh s s' l cs cs' pre post key value it : grown s s' l cs cs' pre post key value it -> (forall q, q ∈ fptrs l cs -> 0 < q < next_free s) ->
  forall p, p ∉ fptrs l cs -> p < next_free s -> forall q, q ∈ fptrs l cs' -> q <> p /\ q < next_free s'.
Proof.
  intros G Hb p Hp Hlt q Hq. pose proof (gr_next _ _ _ _ _ _ _ _ _ _ G). destruct (gr_fresh _ _ _ _ _ _ _ _ _ _ G q Hq) as [H'|H'].
  - specialize (Hb q H'). split; [by intros ->|lia].
  - split; [lia|lia].
Qed.

(** The node [p] is written again, together with the new nodes [extra]. *)
Lemma grown_above s s1 s2 l p ks cs cs1 ts extra pre post key value it : grown s s1 l cs cs1 pre post key value it ->
  (forall q, q ∈ fptrs l cs -> 0 < q < next_free s) -> p ∉ fptrs l cs -> p < next_free s ->
  Forall (stx_rep (nodes s2) (S l)) ts -> fleaves (S l) ts = fleaves l cs1 -> finners (S l) ts ≡ₚ (p :: extra) ++ finners l cs1 ->
  NoDup extra -> (forall q, q ∈ extra -> next_free s1 <= q < next_free s2) -> (forall q, q ∉ p :: extra -> nodes s2 !! q = nodes s1 !! q) ->
  next_free s1 <= next_free s2 -> m_root s2 = m_root s1 -> m_headleaf s2 = m_headleaf s1 -> m_tailleaf s2 = m_tailleaf s1 -> links s2 = links s1 ->
  itemcount s2 = itemcount s1 -> leaves s2 = leaves s1 -> innernodes s2 = innernodes s1 + zlen extra ->
  grown s s2 (S l) [TInner p ks cs] ts pre post key value it.
Proof.
  intros G Hb Hp Hlt Hrep Hlv Hin Hnde Hex Hfr Hnx E1 E2 E3 E4 E5 E6 E7. pose proof (grown_fresh _ _ _ _ _ _ _ _ _ _ G Hb p Hp Hlt) as Hgf.
  destruct G as [G1 G2 G3 G4 G5 G6 G7 G8 G9 G10 G11 G12 G13 G14].
  assert (Hperm : fptrs (S l) ts ≡ₚ (p :: extra) ++ fptrs l cs1) by (unfold fptrs; rewrite Hlv, Hin; solve_Permutation).
  assert (Hold : fptrs (S l) [TInner p ks cs] ≡ₚ p :: fptrs l cs) by (rewrite fptrs_cons, tptrs_inner; cbn; by rewrite app_nil_r).
  assert (Hp1 : p ∉ extra) by (intros H; specialize (Hex p H); lia).
  constructor; try congruence.
  - destruct G2 as (a & b & Ga & Gb & H). exists a, b. rewrite fpairs_one, tpairs_inner. split; [done|]. split; [|done]. unfold fpairs. by rewrite Hlv.
  - rewrite Hperm. apply NoDup_app. split; [by constructor|]. split; [|done]. intros q [->|Hq]%elem_of_cons Hq'; destruct (Hgf _ Hq'); [done|]. specialize (Hex q Hq). lia.
  - intros q. rewrite Hperm, Hold. intros [[->|Hq]%elem_of_cons|Hq]%elem_of_app; [left; constructor| |].
    + specialize (Hex q Hq). right. lia.
    + destruct (G4 q Hq); [left; by constructor|right; lia].
  - intros q. rewrite Hperm, Hold. intros [->|Hq]%elem_of_cons; [constructor|]. apply elem_of_app. right. by apply G5.
  - intros q Hq Hql. rewrite Hold in Hq. apply not_elem_of_cons in Hq as [Hq1 Hq2]. rewrite Hfr; [by apply G6|]. intros [?|Hq]%elem_of_cons; [done|]. specialize (Hex q Hq). lia.
  - intros q Hq. rewrite Hperm, elem_of_app. destruct (decide (q ∈ p :: extra)) as [?|Hn]; [by left; left|]. rewrite Hfr in Hq by done. destruct (G7 q Hq); [left; by right|by right].
  - lia.
  - rewrite Hlv. by apply (linked_fields s1).
  - rewrite E6, G12, Hlv. do 2 f_equal. by rewrite fleaves_one.
  - rewrite E7, G13. assert (Hz : zlen (finners (S l) ts) = 1 + zlen extra + zlen (finners l cs1)).
    { unfold zlen in *. rewrite Hin. cbn [app]. rewrite length_cons, length_app. lia. }
    rewrite Hz, finners_one. cbn [tinners]. fold (finners l cs). rewrite zlen_cons. lia.
  - destruct G14 as (q & es & slot & H1 & H2 & H3). exists q, es, slot. by rewrite Hlv.
Qed.

(** ** The child a search goes to *)

Lemma exact_below l key k1 : forall c1, Forall2 (fun k c => last (tkeys l c) = Some k) k1 c1 -> Forall (fun k => k < key) k1 ->
  StronglySorted Z.lt (fpairs l c1).*1 -> Forall (fun k => k < key) (fpairs l c1).*1.
Proof.
  induction k1 as [|k k1 IH]; intros [|c c1] H2 Hk Hs; try by inversion H2. apply Forall2_cons in H2 as [Hc H2]. apply Forall_cons in Hk as [Hk Hk1].
  rewrite fpairs_cons, fmap_app in Hs |- *. apply sorted_app_inv in Hs as (Hs1 & Hs2 & _). apply Forall_app. split; [|by apply IH].
  pose proof (sorted_last_max _ _ Hs1 Hc) as Hm. eapply Forall_impl; [exact Hm|]. cbn. intros x Hx. lia.
Qed.

(** The child that [find_lower] selects: smaller keys to the left, greater keys to the right. *)
Lemma child_cut l ks cs key : exact l ks cs -> StronglySorted Z.lt (fpairs l cs).*1 ->
  exists k1 k2 c1 c c2, ks = k1 ++ k2 /\ cs = c1 ++ c :: c2 /\ zlen c1 = zlen k1 /\ Z.of_nat (lower key ks) = zlen k1 /\
    Forall2 (fun k c => last (tkeys l c) = Some k) k1 c1 /\ exact l k2 (c :: c2) /\
    Forall (fun k => k < key) (fpairs l c1).*1 /\ Forall (fun k => key < k) (fpairs l c2).*1 /\ (k2 <> [] -> exists m, last (tkeys l c) = Some m /\ key <= m).
Proof.
  intros Hx Hs. destruct (lower_cut key ks) as (k1 & k2 & -> & Hl & H1 & H2). pose proof (exact_len _ _ _ Hx) as Hlen. rewrite length_app in Hlen.
  destruct (drop (length k1) cs) as [|c c2] eqn:Ed; [apply (f_equal length) in Ed; rewrite length_drop in Ed; cbn in Ed; lia|].
  exists k1, k2, (take (length k1) cs), c, c2. assert (Hcs : cs = take (length k1) cs ++ c :: c2) by (rewrite <-Ed; symmetry; apply take_drop).
  assert (Ht : length (take (length k1) cs) = length k1) by (rewrite length_take; lia). split; [done|]. split; [done|]. split; [unfold zlen; lia|]. split; [unfold zlen; lia|].
  set (c1 := take (length k1) cs) in *. clearbody c1. subst cs. apply exact_app in Hx as [Hx1 Hx2]; [|done]. split; [done|]. split; [done|].
  rewrite fpairs_app, fpairs_cons, !fmap_app in Hs. apply sorted_app_inv in Hs as (Hs1 & Hs2 & _). split; [by eapply exact_below|].
  apply sorted_app_inv in Hs2 as (Hs2 & _ & Hcc). destruct k2 as [|k k2]; [destruct c2; [|done]; split; [constructor|done]|].
  cbn in Hx2. destruct Hx2 as [Hlast _]. specialize (H2 k eq_refl). split; [|intros _; by exists k].
  rewrite Forall_forall. intros x Hx. assert (k < x); [|lia]. apply Hcc; [|done]. by apply list_elem_of_lookup; exists (pred (length (tkeys l c))); rewrite <-last_lookup.
Qed.

(** A node cut behind the child its key [k] belongs to. *)
Lemma exact_split l ka k kb : forall ta tb, exact l (ka ++ k :: kb) (ta ++ tb) -> length ta = S (length ka) ->
  exact l ka ta /\ exact l kb tb /\ last (fpairs l ta).*1 = Some k.
Proof.
  induction ka as [|k' ka IH]; intros ta tb Hx Hl.
  - destruct ta as [|c [|? ta]]; try done. cbn [app exact] in Hx. destruct Hx as [Hc Hx]. split; [done|]. split; [done|]. by rewrite fpairs_one.
  - destruct ta as [|c ta]; [done|]. cbn [app exact length] in *. destruct Hx as [Hc Hx]. destruct (IH ta tb Hx ltac:(lia)) as (H1 & H2 & H3).
    split; [done|]. split; [done|]. rewrite fpairs_cons, fmap_app, last_app. by rewrite H3.
Qed.

(** A pair put in front of the greatest one leaves the greatest one. *)
Lemma last_insert (a b : list (Z * Z)) key value m : Forall (fun k => k < key) a.*1 -> last (a ++ b).*1 = Some m -> key <= m ->
  last (a ++ (key, value) :: b).*1 = last (a ++ b).*1.
Proof.
  intros Ha Hm Hk. destruct b as [|e b _] using rev_ind.
  - rewrite app_nil_r in Hm. rewrite Forall_forall in Ha. assert (m < key); [|lia]. apply Ha, list_elem_of_lookup. exists (pred (length a.*1)). by rewrite <-last_lookup.
  - rewrite app_comm_cons, !app_assoc, !(fmap_app fst _ [e]), !last_app. done.
Qed.

(** An inner node [p] whose child [c] has taken the pair. *)
Section Above.
Context (s s1 : Stx) (l : nat) (p : Z) (n : inner_node) (k1 k2 : list Z) (c1 : list btree) (c : btree) (c2 : list btree).
Context (pre post : list Z) (key value : Z) (it : Z * Z) (ts : list btree) (min : Z).
Context (Hn : nodes s !! p = Some (SInner n)) (Hlev : ilevel n = Z.of_nat (S l)) (Hr : stx_inner_rep n (k1 ++ k2) (tptr <$> (c1 ++ c :: c2))) (Hlen : zlen c1 = zlen k1).
Context (Hx1 : Forall2 (fun k c => last (tkeys l c) = Some k) k1 c1) (Hx2 : exact l k2 (c :: c2)) (Hwf : Forall (stx_wf 8 l) (c1 ++ c :: c2)) (Hmin : min <= zlen (k1 ++ k2)) (Hmin8 : min <= 8).
Context (Hp : p ∉ fptrs l (c1 ++ c :: c2)) (Hpf : 0 < p < next_free s) (Hb : forall q, q ∈ fptrs l (c1 ++ c :: c2) -> 0 < q < next_free s).
Context (Hmax : k2 <> [] -> exists m, last (tkeys l c) = Some m /\ key <= m).
Context (Hg : grown s s1 l (c1 ++ c :: c2) (c1 ++ ts ++ c2) pre post key value it).
Context (Hgc : grown s s1 l [c] ts (pre ++ (fleaves l c1).*1) ((fleaves l c2).*1 ++ post) key value it).

Lemma above_node : nodes s1 !! p = Some (SInner n).
Proof. rewrite (gr_frame _ _ _ _ _ _ _ _ _ _ Hg p Hp); [exact Hn|lia]. Qed.

Lemma above_fresh q : q ∈ fptrs l (c1 ++ ts ++ c2) -> q <> p /\ q < next_free s1.
Proof. apply (grown_fresh _ _ _ _ _ _ _ _ _ _ Hg); [done|done|lia]. Qed.

Lemma above_last : k2 <> [] -> last (fpairs l ts).*1 = last (tkeys l c).
Proof.
  intros Hk. destruct (Hmax Hk) as (m & Hm & Hle). destruct (gr_pairs _ _ _ _ _ _ _ _ _ _ Hgc) as (a & b & Ea & Eb & Ha & _).
  unfold tkeys in *. rewrite fpairs_one in Ea. rewrite Eb, Ea in *. by apply last_insert with m.
Qed.

Lemma above_wf : Forall (stx_wf 8 l) c1 /\ Forall (stx_wf 8 l) c2.
Proof. apply Forall_app in Hwf as [H1 H2]. by apply Forall_cons in H2 as [_ H2]. Qed.

(** The child has not split. *)
Lemma above_one t1 : ts = [t1] -> tptr t1 = tptr c -> stx_wf 8 l t1 ->
  exists ts', grown s s1 (S l) [TInner p (k1 ++ k2) (c1 ++ c :: c2)] ts' pre post key value it /\ one_or_two (S l) min (TInner p (k1 ++ k2) (c1 ++ c :: c2)) 0 0 ts'.
Proof.
  intros Hts Ht Hw. exists [TInner p (k1 ++ k2) (c1 ++ t1 :: c2)]. destruct above_wf as [W1 W2]. pose proof Hg as Hg1. rewrite Hts in Hg1. cbn [app] in Hg1. split.
  - apply (grown_above s s1 s1 l p _ _ _ _ [] pre post key value it Hg1 Hb Hp (proj2 Hpf)); try done.
    + repeat constructor. exists n. split; [exact above_node|]. split; [done|]. split; [|apply (gr_rep _ _ _ _ _ _ _ _ _ _ Hg1)].
      rewrite fmap_app, fmap_cons, Ht. by rewrite fmap_app, fmap_cons in Hr.
    + by rewrite fleaves_one.
    + by rewrite finners_one.
    + constructor.
    + intros q Hq. by apply elem_of_nil in Hq.
    + change (zlen (@nil Z)) with 0. lia.
  - left. eexists. split; [done|]. split; [done|]. split; [done|]. cbn [stx_wf]. split; [done|]. split.
    + apply exact_app; [unfold zlen in Hlen; lia|]. split; [done|]. eapply exact_first; [exact Hx2|]. intros Hk. pose proof (above_last Hk) as H. by rewrite Hts, fpairs_one in H.
    + apply Forall_app. split; [done|]. by constructor.
Qed.

(** The child has split: the keys and children the node should hold. *)
Lemma above_exact sk t1 t2 : ts = [t1; t2] -> last (tkeys l t1) = Some sk -> stx_wf 8 l t2 -> exact l (k1 ++ sk :: k2) (c1 ++ t1 :: t2 :: c2).
Proof.
  intros Hts Hl Hw. apply exact_app; [unfold zlen in Hlen; lia|]. split; [done|]. cbn [exact]. split; [done|]. eapply exact_first; [exact Hx2|].
  intros Hk. rewrite <-above_last by done. rewrite Hts, fpairs_cons, fpairs_one, fmap_app, last_app. unfold tkeys.
  destruct (last (tpairs l t2).*1) eqn:E2; [done|]. apply last_None, fmap_nil_inv in E2. by destruct (wf_nonempty l 8 t2 ltac:(lia) Hw).
Qed.

Lemma above_rep s2 extra ps ks cs : (forall q, q ∉ p :: extra -> nodes s2 !! q = nodes s1 !! q) -> (forall q, q ∈ extra -> next_free s1 <= q) ->
  nodes s2 !! ps = Some (SInner ks) -> ilevel ks = Z.of_nat (S l) -> forall kk, stx_inner_rep ks kk (tptr <$> cs) -> (forall c', c' ∈ cs -> c' ∈ c1 ++ ts ++ c2) ->
  stx_rep (nodes s2) (S l) (TInner ps kk cs).
Proof.
  intros Hfr Hex Hps Hil kk Hrep Hsub. exists ks. split; [done|]. split; [done|]. split; [done|]. rewrite Forall_forall. intros c' Hc'. specialize (Hsub c' Hc').
  pose proof (gr_rep _ _ _ _ _ _ _ _ _ _ Hg) as Hrs. rewrite Forall_forall in Hrs. eapply stx_rep_ext; [|by apply Hrs]. intros q Hq. apply Hfr.
  destruct (above_fresh q) as [H1 H2]; [apply fptrs_elem; by exists c'|]. intros [?|Hqe]%elem_of_cons; [done|]. specialize (Hex q Hqe). lia.
Qed.

(** The node takes the new child. *)
Lemma above_two sk t1 t2 : ts = [t1; t2] -> tptr t1 = tptr c -> last (tkeys l t1) = Some sk -> stx_wf 8 l t1 -> stx_wf 8 l t2 ->
  exists s2 sk' sn' ts', insert_child s1 p (zlen k1) sk (tptr t2) = Some (s2, sk', sn') /\
    grown s s2 (S l) [TInner p (k1 ++ k2) (c1 ++ c :: c2)] ts' pre post key value it /\ one_or_two (S l) min (TInner p (k1 ++ k2) (c1 ++ c :: c2)) sk' sn' ts'.
Proof.
  intros Hts Ht Hl W1 W2. pose proof (above_exact sk t1 t2 Hts Hl W2) as Hx. destruct above_wf as [Wc1 Wc2]. pose proof (gr_next _ _ _ _ _ _ _ _ _ _ Hg) as Hnext.
  assert (Hr' : stx_inner_rep n (k1 ++ k2) (((tptr <$> c1) ++ [tptr c]) ++ (tptr <$> c2))) by (rewrite fmap_app, fmap_cons in Hr; by rewrite <-app_assoc).
  assert (Hptrs : ((tptr <$> c1) ++ [tptr c]) ++ tptr t2 :: (tptr <$> c2) = tptr <$> (c1 ++ t1 :: t2 :: c2)) by (by rewrite fmap_app, !fmap_cons, Ht, <-app_assoc).
  assert (Hclen : zlen ((tptr <$> c1) ++ [tptr c]) = zlen k1 + 1) by (rewrite zlen_app, zlen_fmap; change (zlen [tptr c]) with 1; lia).
  assert (Hwfs : Forall (stx_wf 8 l) (c1 ++ t1 :: t2 :: c2)) by (apply Forall_app; split; [done|]; by repeat constructor).
  pose proof Hg as Hg1. rewrite Hts in Hg1. cbn [app] in Hg1.
  pose proof (stx_inner_rep_len _ _ _ Hr) as Hmaxlen. destruct (Z.eq_dec (zlen (k1 ++ k2)) innerslotmax) as [Hfull|Hroom].
  - destruct (insert_child_full s1 p n k1 k2 _ _ sk (tptr t2) above_node ltac:(lia) Hr' Hclen Hfull) as
      (s2 & k & E & n1 & n2 & ka & kb & ca & cb & [So Sn Sf Se] & Hks & Hcs & Hka & Hkb & Hca & L1 & L2 & R1 & R2).
    rewrite Hptrs in Hcs. destruct (fmap_app_inv _ _ _ _ Hcs) as (ta & tb & -> & -> & Hcut). rewrite Hks, Hcut in Hx. rewrite zlen_fmap in Hca.
    destruct (exact_split l ka k kb ta tb Hx) as (X1 & X2 & Hlast); [unfold zlen in *; lia|]. rewrite Hcut in Hwfs, Hg1. apply Forall_app in Hwfs as [Wa Wb].
    exists s2, k, (next_free s1), [TInner p ka ta; TInner (next_free s1) kb tb]. split; [done|]. split.
    + apply (grown_above s s1 s2 l p _ _ _ _ [next_free s1] pre post key value it Hg1 Hb Hp (proj2 Hpf)); try (rewrite Se; done).
      * assert (Hfr : forall q, q ∉ [p; next_free s1] -> nodes s2 !! q = nodes s1 !! q) by (intros q Hq; apply Sf; intros ->; apply Hq; repeat constructor).
        assert (Hge : forall q, q ∈ [next_free s1] -> next_free s1 <= q) by (intros q ->%list_elem_of_singleton; lia).
        assert (Hsub : forall c', c' ∈ ta \/ c' ∈ tb -> c' ∈ c1 ++ ts ++ c2) by (intros c' Hc'; rewrite Hts; cbn [app]; rewrite Hcut; by apply elem_of_app).
        constructor; [|constructor; [|constructor]].
        -- apply (above_rep s2 [next_free s1] p n1 ta); auto. by rewrite L1.
        -- apply (above_rep s2 [next_free s1] (next_free s1) n2 tb); auto. by rewrite L2.
      * rewrite fleaves_app. unfold fleaves at 1. cbn. by rewrite app_nil_r.
      * rewrite finners_app. unfold finners at 1. cbn. rewrite app_nil_r. fold (finners l ta) (finners l tb). solve_Permutation.
      * repeat constructor. by apply not_elem_of_nil.
      * intros q ->%list_elem_of_singleton. rewrite Se. cbn. lia.
      * intros q Hq. apply Sf; intros ->; apply Hq; repeat constructor.
      * rewrite Se. cbn. lia.
    + right. eexists _, _. split; [done|]. split; [lia|]. do 2 (split; [done|]). split; [done|]. split; cbn [stx_wf].
      * split; [lia|]. by split.
      * split; [lia|]. by split.
  - destruct (insert_child_room s1 p n k1 k2 _ _ sk (tptr t2) above_node Hr' Hclen ltac:(lia)) as (n' & E & L1 & R1). rewrite Hptrs in R1.
    exists (set_node s1 p (SInner n')), 0, 0, [TInner p (k1 ++ sk :: k2) (c1 ++ t1 :: t2 :: c2)]. split; [done|]. split.
    + apply (grown_above s s1 _ l p _ _ _ _ [] pre post key value it Hg1 Hb Hp (proj2 Hpf)); try done.
      * constructor; [|constructor]. apply (above_rep _ [] p n'); cbn [nodes set_node]; [|by intros q Hq%elem_of_nil|by rewrite lookup_insert_eq|congruence|done|].
        -- intros q Hq. apply lookup_insert_ne. intros ->. apply Hq. constructor.
        -- intros c' Hc'. rewrite Hts. done.
      * by rewrite fleaves_one.
      * by rewrite finners_one.
      * constructor.
      * intros q Hq. by apply elem_of_nil in Hq.
      * intros q Hq. apply lookup_insert_ne. intros ->. apply Hq. constructor.
      * change (zlen (@nil Z)) with 0. cbn. lia.
    + left. eexists. split; [done|]. split; [done|]. split; [done|]. cbn [stx_wf]. split; [|by split]. rewrite !zlen_app, zlen_cons in *. lia.
Qed.
End Above.

(** ** The whole descent *)

Lemma NoDup_leaves l cs : NoDup (fptrs l cs) -> NoDup (fleaves l cs).*1.
Proof. unfold fptrs. intros H. by apply NoDup_app in H as (H & _). Qed.

Lemma insert_descend_spec l : forall fuel s t min pre post key value,
  (l < fuel)%nat -> stx_rep (nodes s) l t -> stx_wf min l t -> min <= 8 -> NoDup (tptrs l t) -> (forall q, q ∈ tptrs l t -> 0 < q < next_free s) ->
  linked s (pre ++ (tleaves l t).*1 ++ post) -> NoDup (pre ++ (tleaves l t).*1 ++ post) -> Forall (fun q => 0 < q < next_free s) (pre ++ (tleaves l t).*1 ++ post) ->
  StronglySorted Z.lt (tkeys l t) ->
  if decide (key ∈ tkeys l t) then exists q slot es w, insert_descend fuel s (tptr t) key value = Some (s, (q, Z.of_nat slot), false, 0, 0) /\ (q, es) ∈ tleaves l t /\ es !! slot = Some (key, w)
  else exists s' it sk sn ts, insert_descend fuel s (tptr t) key value = Some (s', it, true, sk, sn) /\ grown s s' l [t] ts pre post key value it /\ one_or_two l min t sk sn ts.
Proof.
  induction l as [|l IH]; intros [|fuel] s [p es|p ks cs] min pre post key value Hf Hrep Hwf Hmin8 Hnd Hb Hl Hndl Hall Hs; try done; try lia; cbn [insert_descend tptr].
  - destruct Hrep as (n & Hn & Hr). rewrite Hn. cbn [mbind option_bind]. unfold tkeys in *. rewrite tpairs_leaf in *. cbn [tleaves fmap list_fmap fst app] in Hl, Hndl, Hall.
    pose proof (insert_leaf_spec s p pre post n es min key value Hn Hr Hs Hwf Hmin8 Hl Hndl Hall) as H. destruct (decide (key ∈ es.*1)); [|done].
    destruct H as (slot & w & E & Hw). exists p, slot, es, w. split; [done|]. split; [constructor|done].
  - destruct Hrep as (n & Hn & Hlev & Hr & Hreps). destruct Hwf as (Hmin & Hx & Hwf). rewrite Hn. cbn [mbind option_bind]. unfold tkeys in *. rewrite tpairs_inner in *.
    change (tleaves (S l) (TInner p ks cs)) with (fleaves l cs) in *. rewrite tptrs_inner in Hnd. apply NoDup_cons in Hnd as [Hp Hnd].
    assert (Hpf : 0 < p < next_free s) by (apply Hb; rewrite tptrs_inner; constructor). assert (Hbc : forall q, q ∈ fptrs l cs -> 0 < q < next_free s) by (intros q Hq; apply Hb; rewrite tptrs_inner; by constructor).
    destruct (child_cut l ks cs key Hx Hs) as (k1 & k2 & c1 & c & c2 & -> & -> & Hlen & Hlow & Hx1 & Hx2 & Hbelow & Habove & Hmax).
    pose proof (stx_find_lower_spec _ _ _ key (ir_key _ _ _ Hr)) as Hfind. rewrite <-(ir_use _ _ _ Hr), Hlow in Hfind. rewrite Hfind. cbn [mbind option_bind].
    rewrite (cells_cell _ _ _ (zlen k1) (tptr c) (ir_child _ _ _ Hr)) by (try apply zlen_nonneg; rewrite fmap_app, fmap_cons; apply list_lookup_middle; rewrite length_fmap; unfold zlen in *; lia).
    cbn [mbind option_bind]. rewrite fleaves_app, fleaves_cons, !fmap_app in Hl, Hndl, Hall.
    assert (Eapp : pre ++ ((fleaves l c1).*1 ++ (tleaves l c).*1 ++ (fleaves l c2).*1) ++ post = (pre ++ (fleaves l c1).*1) ++ (tleaves l c).*1 ++ (fleaves l c2).*1 ++ post) by by rewrite <-!app_assoc.
    rewrite Eapp in Hl, Hndl, Hall. pose proof Hreps as Hr0. apply Forall_app in Hr0 as [_ Hr0]. apply Forall_cons in Hr0 as [Hrc _]. pose proof Hwf as Hw0. apply Forall_app in Hw0 as [_ Hw0]. apply Forall_cons in Hw0 as [Hwc _].
    assert (Hndc : NoDup (tptrs l c)) by (rewrite fptrs_app, fptrs_cons in Hnd; apply NoDup_app in Hnd as (_ & _ & Hnd); by apply NoDup_app in Hnd as (Hnd & _)).
    assert (Hcb : forall q, q ∈ tptrs l c -> 0 < q < next_free s) by (intros q Hq; apply Hbc, fptrs_elem; exists c; split; [apply elem_of_app; right; constructor|done]).
    rewrite fpairs_app, fpairs_cons, !fmap_app in Hs |- *. pose proof Hs as Hs0. apply sorted_app_inv in Hs0 as (_ & Hs0 & _). apply sorted_app_inv in Hs0 as (Hsc & _).
    pose proof (IH fuel s c 8 _ _ key value ltac:(lia) Hrc Hwc ltac:(lia) Hndc Hcb Hl Hndl Hall Hsc) as H. fold (tkeys l c) in *. rewrite Forall_forall in Hbelow, Habove.
    destruct (decide (key ∈ tkeys l c)) as [Hin|Hnot].
    + rewrite decide_True by (rewrite !elem_of_app; tauto). destruct H as (q & slot & es & w & -> & Hq & Hw). cbn. exists q, slot, es, w. split; [done|]. split; [|done].
      rewrite fleaves_app, fleaves_cons, !elem_of_app. tauto.
    + rewrite decide_False.
      2:{ rewrite !elem_of_app. intros [Hi|[Hi|Hi]]; [specialize (Hbelow key Hi); lia|done|specialize (Habove key Hi); lia]. }
      destruct H as (s1 & it & sk & sn & ts & -> & Hg & Hot). cbn [mbind option_bind].
      rewrite <-Forall_forall in Hbelow, Habove. pose proof (grown_within s s1 l c1 c c2 ts pre post key value it Hg Hnd Hreps Hbc Hbelow Habove) as Hgw.
      destruct Hot as [(t1 & Hts & -> & Ht & Hw)|(t1 & t2 & Hts & Hsn & Ht & Ht2 & Hlast & W1 & W2)].
      * rewrite Z.eqb_refl. destruct (above_one s s1 l p n k1 k2 c1 c c2 pre post key value it ts min) with (t1 := t1) as (ts' & H1 & H2); try done. by exists s1, it, 0, 0, ts'.
      * rewrite (proj2 (Z.eqb_neq sn 0)) by lia. subst sn.
        destruct (above_two s s1 l p n k1 k2 c1 c c2 pre post key value it ts min) with (sk := sk) (t1 := t1) (t2 := t2) as (s2 & sk' & sn' & ts' & -> & H1 & H2); try done.
        cbn [mbind option_bind]. by exists s2, it, sk', sn', ts'.
Qed.

(** ** The state afterwards *)

Lemma grown_heap s s' l cs cs' key value it : stx_heap s l cs -> grown s s' l cs cs' [] [] key value it ->
  stx_heap (set_itemcount s' (itemcount s' + 1)) l cs' /\ exists a b, fpairs l cs = a ++ b /\ fpairs l cs' = a ++ (key, value) :: b /\ Forall (fun k => k < key) a.*1 /\ Forall (fun k => key < k) b.*1.
Proof.
  intros [H1 H2 H0 H3 H4 H5 H6 H7 H8 H9] [G1 G2 G3 G4 G5 G6 G7 G8 G9 G10 G11 G12 G13 G14]. split; [|done].
  destruct G2 as (a & b & Ga & Gb & Gl & Gh). constructor; cbn [nodes set_itemcount next_free itemcount leaves innernodes]; try done; try lia.
  - intros q Hq. destruct (G4 q Hq) as [Hq'|Hq']; [specialize (H3 q Hq'); lia|lia].
  - intros q Hq. destruct (G7 q Hq) as [?|Hq']; [done|]. by apply G5, H4.
  - rewrite app_nil_r in G9. by apply (linked_fields s').
  - rewrite Gb, fmap_app, fmap_cons. apply sorted_insert; [by rewrite Ga, fmap_app in H6|done|done].
  - rewrite G11, H7, Ga, Gb, !zlen_app, zlen_cons. lia.
Qed.

(** The root and its sibling below a new root. *)
Lemma grow_root_spec s n l t1 t2 sk : stx_heap (set_itemcount s n) l [t1; t2] -> m_root s = tptr t1 -> last (tkeys l t1) = Some sk -> stx_wf 8 l t1 -> stx_wf 8 l t2 ->
  exists s', grow_root s sk (tptr t2) = Some s' /\ stx_ok (set_itemcount s' n) (S l) (TInner (next_free s) [sk] [t1; t2]) /\ itemcount s' = itemcount s.
Proof.
  intros [H1 H2 H0 H3 H4 H5 H6 H7 H8 H9] Hroot Hl W1 W2. cbn [nodes next_free itemcount leaves innernodes set_itemcount] in *. set (p := next_free s) in *. assert (Hp : p ∉ fptrs l [t1; t2]) by (intros H; specialize (H3 p H); lia).
  assert (Hlev : exists nd, nodes s !! tptr t1 = Some nd /\ level_of nd = Z.of_nat l).
  { apply Forall_cons in H1 as [H1 _]. destruct l as [|l], t1 as [q es|q ks cs]; try done; destruct H1 as (x & Hx & H1); cbn [tptr]; rewrite Hx; eexists; (split; [done|]); [done|]. cbn. by destruct H1 as [-> _]. }
  destruct Hlev as (nd & Hnd & Hlev). unfold grow_root. rewrite Hroot, Hnd. cbn [mbind option_bind allocate_inner]. unfold get_inner. cbn [nodes]. rewrite lookup_insert_eq. cbn [mbind option_bind].
  destruct (cells_wr innerslotmax (islotkey (new_inner_node (level_of nd + 1))) [] 0 sk) as (keys & -> & Hk); [by split|done|done|]. cbn [mbind option_bind m_root]. rewrite ?Hroot.
  destruct (cells_wr (innerslotmax + 1) (childid (new_inner_node (level_of nd + 1))) [] 0 (tptr t1)) as (kids & Ek & Hc); [by split|done|done|]. rewrite Ek. cbn [mbind option_bind].
  destruct (cells_wr (innerslotmax + 1) kids [tptr t1] 1 (tptr t2) Hc) as (kids' & -> & Hc'); [done|done|]. cbn [mbind option_bind].
  eexists. split; [done|]. split; [|done]. cbn in Hk, Hc'. fold p. split; cbn [m_root set_root set_itemcount tptr]; [|done|].
  - assert (Hperm : fptrs (S l) [TInner p [sk] [t1; t2]] ≡ₚ p :: fptrs l [t1; t2]) by (rewrite fptrs_one; apply tptrs_inner).
    constructor; cbn [nodes set_root set_node set_itemcount next_free itemcount leaves innernodes]; try lia.
    + repeat constructor. eexists. split; [apply lookup_insert_eq|]. split; [cbn; lia|]. split; [by constructor|].
      eapply stx_reps_ext; [|exact H1]. intros q Hq. rewrite !lookup_insert_ne; [done|by intros ->..].
    + rewrite Hperm. by constructor.
    + intros q. rewrite Hperm. intros [->|Hq]%elem_of_cons; [lia|]. specialize (H3 q Hq). lia.
    + intros q. rewrite Hperm. destruct (decide (q = p)) as [->|Hne]; [constructor|]. rewrite !lookup_insert_ne by done. intros Hq. apply list_elem_of_further. by apply H4.
    + rewrite fleaves_one. by apply (linked_fields (set_itemcount s n)).
    + by rewrite fpairs_one.
    + by rewrite fpairs_one.
    + by rewrite fleaves_one.
    + rewrite finners_one. cbn [tinners]. fold (finners l [t1; t2]). rewrite zlen_cons. lia.
  - split; [done|]. split; [done|]. by repeat constructor.
Qed.

Lemma heap_fields s s' l cs : stx_heap s l cs -> nodes s' = nodes s -> links s' = links s -> next_free s' = next_free s -> m_headleaf s' = m_headleaf s -> m_tailleaf s' = m_tailleaf s ->
  itemcount s' = itemcount s -> leaves s' = leaves s -> innernodes s' = innernodes s -> stx_heap s' l cs.
Proof. intros [] E1 E2 E3 E4 E5 E6 E7 E8. constructor; rewrite ?E1, ?E3, ?E6, ?E7, ?E8; try done. by apply (linked_fields s). Qed.

(** Insertion below a root: also into the empty leaf that [insert_start] begins with. *)
Lemma insert_root_spec s l t min key value : stx_heap s l [t] -> m_root s = tptr t -> stx_wf min l t -> min <= 1 -> (min = 1 \/ l = O) ->
  if decide (key ∈ tkeys l t) then exists q slot es w, insert_descend (S l) s (tptr t) key value = Some (s, (q, Z.of_nat slot), false, 0, 0) /\ (q, es) ∈ tleaves l t /\ es !! slot = Some (key, w)
  else exists s1 it sk sn s2 a b, insert_descend (S l) s (tptr t) key value = Some (s1, it, true, sk, sn) /\
    (if sn =? 0 then Some s1 else grow_root s1 sk sn) = Some s2 /\ tpairs l t = a ++ b /\ stx_holds (set_itemcount s2 (itemcount s2 + 1)) (a ++ (key, value) :: b).
Proof.
  intros H Hroot Hwf Hmin Hm. pose proof H as H'. destruct H' as [H1 H2 H0 H3 H4 H5 H6 H7 H8 H9]. apply Forall_cons in H1 as [H1 _]. rewrite fptrs_one in H2. rewrite fleaves_one in H5. rewrite fpairs_one in H6.
  assert (H3' : forall q, q ∈ tptrs l t -> 0 < q < next_free s) by (intros q Hq; apply H3; by rewrite fptrs_one).
  pose proof (insert_descend_spec l (S l) s t min [] [] key value ltac:(lia) H1 Hwf ltac:(lia) H2 H3') as HD. cbn [app] in HD. rewrite app_nil_r in HD.
  assert (Hsub : forall q, q ∈ (tleaves l t).*1 -> q ∈ tptrs l t) by (intros q Hq; apply elem_of_app; by left).
  specialize (HD H5). specialize (HD ltac:(by apply NoDup_app in H2 as (? & _))). specialize (HD ltac:(apply Forall_forall; auto) H6).
  destruct (decide (key ∈ tkeys l t)); [done|]. destruct HD as (s1 & it & sk & sn & ts & E & Hg & Hot).
  destruct (grown_heap s s1 l _ _ key value it H Hg) as [Hh (a & b & Ea & Eb & _)]. rewrite fpairs_one in Ea.
  destruct Hot as [(t1 & -> & -> & Ht & Hw)|(t1 & t2 & -> & Hsn & Ht & Ht2 & Hlast & W1 & W2)].
  - exists s1, it, sk, 0, s1, a, b. split; [done|]. split; [done|]. split; [done|]. rewrite fpairs_one in Eb. rewrite <-Eb. apply stx_ok_holds. split; [done| |].
    + cbn [m_root set_itemcount]. by rewrite (gr_root _ _ _ _ _ _ _ _ _ _ Hg), Hroot.
    + destruct Hm as [->| ->]; [done|]. destruct t1 as [q es|]; [|done]. rewrite tpairs_leaf in Eb. cbn. rewrite Eb, zlen_app, zlen_cons. pose proof (zlen_nonneg a). pose proof (zlen_nonneg b). lia.
  - destruct (grow_root_spec s1 (itemcount s1 + 1) l t1 t2 sk Hh) as (s2 & E2 & Hok & Hi); [by rewrite (gr_root _ _ _ _ _ _ _ _ _ _ Hg), Hroot, Ht|done|done|done|].
    rewrite Ht2 in E2. exists s1, it, sk, sn, s2, a, b. rewrite (proj2 (Z.eqb_neq sn 0)) by lia. split; [done|]. split; [done|]. split; [done|]. rewrite Hi.
    apply stx_ok_holds in Hok. rewrite tpairs_inner in Hok. by rewrite Eb in Hok.
Qed.

(** Insertion: an existing key is reported and left alone; a new pair takes its place in the order. *)
Lemma stx_insert_start_spec s es key value : stx_holds s es ->
  if decide (key ∈ es.*1) then exists it, insert_start s key value = Some (s, it, false)
  else exists s' it a b, insert_start s key value = Some (s', it, true) /\ es = a ++ b /\ stx_holds s' (a ++ (key, value) :: b).
Proof.
  unfold stx_holds at 1. intros H. unfold insert_start. destruct (m_root s =? 0) eqn:E0.
  - destruct H as [-> H]. rewrite decide_False by apply not_elem_of_nil. cbn [allocate_leaf]. set (p := next_free s). set (s0 := set_tail _ p).
    assert (Hh : stx_heap s0 0 [TLeaf p []]).
    { destruct H as [H1 H2 H0 H3 H4 H5 H6 H7 H8 H9]. constructor; cbn; try done; try lia.
      - repeat constructor. exists new_leaf_node. split; [apply lookup_insert_eq|apply stx_new_leaf_rep].
      - repeat constructor. by apply not_elem_of_nil.
      - intros q ->%list_elem_of_singleton. fold p in H0. lia.
      - intros q. destruct (decide (q = p)) as [->|]; [constructor|]. rewrite lookup_insert_ne by done. intros Hq%H4. by apply elem_of_nil in Hq.
      - constructor; cbn; [|done|done]. by rewrite lookup_insert_eq.
      - rewrite H8. done. }
    assert (Hht : height s0 = 1%nat) by (unfold height; cbn; by rewrite lookup_insert_eq). rewrite Hht.
    pose proof (insert_root_spec s0 0 _ 0 key value Hh eq_refl ltac:(done) ltac:(lia) ltac:(by right)) as HD. rewrite decide_False in HD by apply not_elem_of_nil.
    destruct HD as (s1 & it & sk & sn & s2 & a & b & E1 & E2 & Eab & Hok). change (m_root s0) with (tptr (TLeaf p [])). rewrite E1. cbn [mbind option_bind]. rewrite E2. cbn [mbind option_bind].
    eexists _, it, a, b. split; [done|]. done.
  - destruct H as (l & t & Hok & ->). rewrite (height_spec _ _ _ Hok). destruct Hok as [Hh Hr Hw]. rewrite Hr.
    pose proof (insert_root_spec s l t 1 key value Hh Hr Hw ltac:(lia) ltac:(by left)) as HD. fold (tkeys l t). destruct (decide (key ∈ tkeys l t)).
    + destruct HD as (q & slot & es & w & E & _). rewrite E. cbn. by eexists.
    + destruct HD as (s1 & it & sk & sn & s2 & a & b & E1 & E2 & Eab & Hok). rewrite E1. cbn [mbind option_bind]. rewrite E2. cbn [mbind option_bind].
      eexists _, it, a, b. split; [done|]. done.
Qed.
