(* ===== verification/StxSearch.v ===== *)
(** * stx::btree: searches and iterators

    The leaves of a tree, from left to right, hold its entries in order.  [position] says
    which entry an iterator points to; the end is behind the last entry of the last leaf.
    [lower_bound] and [upper_bound] return the iterator at the right index, [++] and [--]
    move by one, [find], [exists] and [count] decide whether the key is stored. *)

From S2P Require Import Prelude Words Index StxNode StxTree StxInv StxInsert.
From Stdlib Require Import Sorted.
From stdpp Require Import gmap list.
Local Open Scope Z_scope.
Local Open Scope cxx_scope.

(** ** The first key not smaller *)

Lemma lower_app_below key a b : Forall (fun k => k < key) a -> lower key (a ++ b) = (length a + lower key b)%nat.
Proof. induction 1 as [|k a Hk _ IH]; [done|]. cbn [app lower length]. rewrite (proj2 (Z.ltb_lt _ _) Hk), IH. lia. Qed.

Lemma lower_app_in key a b m : last a = Some m -> key <= m -> StronglySorted Z.lt a -> lower key (a ++ b) = lower key a.
Proof.
  induction a as [|k a IH]; intros Hl Hm Hs; [done|]. cbn [app lower]. destruct (Z.ltb_spec k key) as [Hlt|]; [|done].
  apply StronglySorted_inv in Hs as [Hs _]. destruct a as [|k' a]; [cbn in Hl; injection Hl as ->; lia|]. f_equal. by apply IH.
Qed.

Lemma lower_in_lt key a m : last a = Some m -> key <= m -> (lower key a < length a)%nat.
Proof.
  induction a as [|k a IH]; intros Hl Hm; [done|]. cbn [lower length]. destruct (Z.ltb_spec k key) as [Hlt|]; [|lia].
  destruct a as [|k' a]; [cbn in Hl; injection Hl as ->; lia|]. apply IH in Hl; [|done]. cbn [length] in *. lia.
Qed.

(** Where a stored key is found. *)
Lemma lower_lookup key (es : list (Z * Z)) : StronglySorted Z.lt es.*1 -> es !! lower key es.*1 = (e ← head (drop (lower key es.*1) es); Some e).
Proof. intros _. rewrite <-(Nat.add_0_r (lower key es.*1)) at 1. rewrite <-lookup_drop. by destruct (drop _ es). Qed.

Lemma lower_found key v (es : list (Z * Z)) : StronglySorted Z.lt es.*1 -> (key, v) ∈ es <-> es !! lower key es.*1 = Some (key, v).
Proof.
  intros Hs. split; [|intros H; by eapply list_elem_of_lookup_2]. intros Hin. destruct (entries_cut key es Hs) as (a & b & -> & Hl & Ha & Hb).
  replace (lower key (a ++ b).*1) with (length a) by (unfold zlen in Hl; lia). rewrite lookup_app_r, Nat.sub_diag by lia.
  assert (Hinb : (key, v) ∈ b).
  { apply elem_of_app in Hin as [Hin|]; [|done]. rewrite Forall_forall in Ha. assert (key < key); [|lia]. apply Ha, list_elem_of_fmap. by exists (key, v). }
  destruct b as [|[k w] b]; [by apply elem_of_nil in Hinb|]. cbn. apply elem_of_cons in Hinb as [[= <- <-]|Hinb]; [done|].
  apply Forall_cons in Hb as [Hk _]. cbn in Hk. rewrite fmap_app in Hs. apply sorted_app_inv in Hs as (_ & Hs & _). apply StronglySorted_inv in Hs as [_ Hs].
  rewrite List.Forall_forall in Hs. assert (k < key); [|lia]. apply Hs, list_elem_of_In, list_elem_of_fmap. by exists (key, v).
Qed.

Lemma lower_none key (es : list (Z * Z)) : StronglySorted Z.lt es.*1 -> key ∉ es.*1 -> match es !! lower key es.*1 with Some e => key =? e.1 | None => false end = false.
Proof.
  intros Hs Hnot. destruct (es !! lower key es.*1) as [[k v]|] eqn:E; [|done]. apply Z.eqb_neq. cbn. intros <-. apply Hnot, list_elem_of_fmap. exists (key, v).
  split; [done|]. by eapply list_elem_of_lookup_2.
Qed.

(** ** Positions *)

Definition position (lvs : list (Z * list (Z * Z))) (i : nat) (it : Z * Z) : Prop :=
  exists a p es b slot, lvs = a ++ (p, es) :: b /\ it = (p, Z.of_nat slot) /\ i = (length (concat a.*2) + slot)%nat /\
    ((slot < length es)%nat \/ b = [] /\ slot = length es).

Lemma position_app lvs1 lvs2 i it : position lvs2 i it -> position (lvs1 ++ lvs2) (length (concat lvs1.*2) + i) it.
Proof.
  intros (a & p & es & b & slot & -> & -> & -> & H). exists (lvs1 ++ a), p, es, b, slot. rewrite fmap_app, concat_app, length_app, <-app_assoc.
  split; [done|]. split; [done|]. split; [lia|done].
Qed.

Lemma position_inner lvs1 lvs2 i it : position lvs1 i it -> (lvs2 = [] \/ (i < length (concat lvs1.*2))%nat) -> position (lvs1 ++ lvs2) i it.
Proof.
  intros (a & p & es & b & slot & -> & -> & -> & H) Hor. exists a, p, es, (b ++ lvs2), slot. rewrite <-app_assoc. split; [done|]. split; [done|]. split; [done|].
  destruct H as [?|[-> ->]]; [by left|]. destruct Hor as [->|Hlt]; [by right|]. exfalso. rewrite fmap_app, concat_app, length_app in Hlt. cbn in Hlt. rewrite app_nil_r in Hlt. lia.
Qed.

(** ** The descent *)

Lemma find_upper_lower a n key : find_upper a n key = find_lower a n (key + 1).
Proof.
  unfold find_upper, find_lower. generalize (S (Z.to_nat n)) 0. induction n0 as [|f IH]; intros lo; [done|]. cbn [loop].
  destruct (lo <? n); [|done]. destruct (cell a lo) as [k|]; [|done]. cbn [mbind option_bind].
  replace (k <=? key) with (k <? key + 1) by (destruct (Z.ltb_spec k (key + 1)), (Z.leb_spec k key); lia). destruct (k <? key + 1); [apply IH|done].
Qed.

Lemma upper_bound_lower t key : upper_bound t key = lower_bound t (key + 1).
Proof.
  unfold upper_bound, lower_bound, descend. destruct (m_root t =? 0); [done|]. generalize (height t) (m_root t). induction n as [|f IH]; intros p; [done|]. cbn [loop].
  destruct (nodes t !! p) as [[leaf|inner]|]; [| |done]; cbn [mbind option_bind]; rewrite find_upper_lower.
  - destruct (find_lower _ _ _); done.
  - destruct (find_lower _ _ _); [|done]. cbn [mbind option_bind]. destruct (cell (childid inner) z); [|done]. cbn [mbind option_bind]. apply IH.
Qed.

(** One descent: the leaf, with the position of the first key not smaller. *)
Lemma descend_rep s key l : forall fuel t, (l < fuel)%nat -> stx_rep (nodes s) l t -> stx_wf 1 l t -> StronglySorted Z.lt (tkeys l t) ->
  exists p leaf es slot, loop fuel (fun p =>
    nd ← nodes s !! p;
    match nd with
    | SInner inner => slot ← find_lower (islotkey inner) (islotuse inner) key; c ← cell (childid inner) slot; Some (inl c)
    | SLeaf leaf => slot ← find_lower (lslotkey leaf) (lslotuse leaf) key; Some (inr (p, leaf, slot))
    end) (tptr t) = Some (p, leaf, Z.of_nat slot) /\ nodes s !! p = Some (SLeaf leaf) /\ stx_leaf_rep leaf es /\ (p, es) ∈ tleaves l t /\
    es !! slot = tpairs l t !! lower key (tkeys l t) /\ (slot <= length es)%nat /\ position (tleaves l t) (lower key (tkeys l t)) (p, Z.of_nat slot).
Proof.
  induction l as [|l IH]; intros [|fuel] [p es|p ks cs] Hf Hrep Hwf Hs; try done; try lia; cbn [loop tptr].
  - destruct Hrep as (n & Hn & Hr). rewrite Hn. cbn [mbind option_bind]. pose proof (stx_find_lower_spec _ _ _ key (lr_key _ _ Hr)) as Hfind. rewrite zlen_fmap, <-(lr_use _ _ Hr) in Hfind.
    rewrite Hfind. cbn [mbind option_bind]. unfold tkeys. rewrite tpairs_leaf. pose proof (lower_le key es.*1) as Hle. rewrite length_fmap in Hle.
    exists p, n, es, (lower key es.*1). split; [done|]. split; [done|]. split; [done|]. split; [constructor|]. split; [done|]. split; [done|].
    exists [], p, es, [], (lower key es.*1). split; [done|]. split; [done|]. split; [done|]. destruct (decide (lower key es.*1 < length es)%nat); [by left|right; split; [done|lia]].
  - destruct Hrep as (n & Hn & _ & Hr & Hreps). destruct Hwf as (_ & Hx & Hwf). rewrite Hn. cbn [mbind option_bind]. unfold tkeys in *. rewrite tpairs_inner in *.
    destruct (child_cut l ks cs key Hx Hs) as (k1 & k2 & c1 & c & c2 & -> & -> & Hlen & Hlow & Hx1 & Hx2 & Hbelow & Habove & Hmax).
    pose proof (stx_find_lower_spec _ _ _ key (ir_key _ _ _ Hr)) as Hfind. rewrite <-(ir_use _ _ _ Hr), Hlow in Hfind. rewrite Hfind. cbn [mbind option_bind].
    rewrite (cells_cell _ _ _ (zlen k1) (tptr c) (ir_child _ _ _ Hr)) by (try apply zlen_nonneg; rewrite fmap_app, fmap_cons; apply list_lookup_middle; rewrite length_fmap; unfold zlen in *; lia).
    cbn [mbind option_bind]. apply Forall_app in Hreps as [_ Hreps]. apply Forall_cons in Hreps as [Hrc _]. apply Forall_app in Hwf as [_ Hwf]. apply Forall_cons in Hwf as [Hwc _].
    rewrite fpairs_app, fpairs_cons, !fmap_app in Hs |- *. apply sorted_app_inv in Hs as (_ & Hs & _). pose proof Hs as Hs0. apply sorted_app_inv in Hs0 as (Hsc & _).
    assert (Hwc1 : stx_wf 1 l c) by (destruct l, c; cbn in *; try done; [lia|]; destruct Hwc as (? & ? & ?); split; [lia|done]).
    destruct (IH fuel c ltac:(lia) Hrc Hwc1 Hsc) as (p' & leaf & es & slot & -> & Hleaf & Hrl & Hin & Hes & Hle & Hpos).
    exists p', leaf, es, slot. split; [done|]. split; [done|]. split; [done|]. change (tleaves (S l) (TInner p (k1 ++ k2) (c1 ++ c :: c2))) with (fleaves l (c1 ++ c :: c2)).
    rewrite fleaves_app, fleaves_cons. split; [rewrite !elem_of_app; tauto|]. rewrite lower_app_below, length_fmap by done. fold (tkeys l c) in *.
    assert (Hlt : lower key (tkeys l c ++ (fpairs l c2).*1) = lower key (tkeys l c) /\ (fpairs l c2 = [] /\ fleaves l c2 = [] \/ (lower key (tkeys l c) < length (tpairs l c))%nat)).
    { destruct k2 as [|k k2].
      - destruct c2; [|done]. cbn. rewrite app_nil_r. split; [done|by left].
      - destruct (Hmax ltac:(done)) as (m & Hm & Hk). split; [by eapply lower_app_in|right]. pose proof (lower_in_lt _ _ _ Hm Hk) as H. unfold tkeys in H at 2. by rewrite length_fmap in H. }
    destruct Hlt as [-> Hor]. split; [|split; [done|]].
    + rewrite lookup_app_r by lia. replace (length (fpairs l c1) + lower key (tkeys l c) - length (fpairs l c1))%nat with (lower key (tkeys l c)) by lia. rewrite Hes.
      destruct Hor as [[-> _]|Hor]; [by rewrite app_nil_r|by rewrite lookup_app_l].
    + apply position_app, position_inner; [done|]. destruct Hor as [[_ ->]|Hor]; [by left|by right].
Qed.

(** ** Iterators *)

(** The iterator points to the entry of index [i] of the tree, or to the end. *)
Definition at_index (s : Stx) (es : list (Z * Z)) (i : nat) (it : Z * Z) : Prop :=
  if m_root s =? 0 then es = [] /\ i = O /\ it = (0, 0) else exists l t, stx_ok s l t /\ es = tpairs l t /\ position (tleaves l t) i it.

Lemma at_index_le s es i it : at_index s es i it -> (i <= length es)%nat.
Proof.
  unfold at_index. destruct (m_root s =? 0); [by intros (-> & -> & _)|]. intros (l & t & _ & -> & a & p & fs & b & slot & E & _ & -> & H).
  unfold tpairs. rewrite E, fmap_app, concat_app, fmap_cons, length_app. cbn. rewrite length_app. destruct H as [?|[_ ->]]; lia.
Qed.

Lemma leaf_below h l : forall min t p es, 1 <= min -> stx_rep h l t -> stx_wf min l t -> (p, es) ∈ tleaves l t ->
  exists leaf, h !! p = Some (SLeaf leaf) /\ stx_leaf_rep leaf es /\ es <> [].
Proof.
  induction l as [|l IH]; intros min [q fs|q ks cs] p es Hm Hr Hw Hin; try done; cbn [tleaves] in Hin.
  - destruct Hr as (n & Hn & Hr). apply list_elem_of_singleton in Hin as [= -> ->]. exists n. split; [done|]. split; [done|]. intros ->. cbn in Hw. change (zlen (@nil (Z * Z))) with 0 in Hw. lia.
  - destruct Hr as (n & _ & _ & _ & Hr), Hw as (_ & _ & Hw). apply list_elem_of_In, in_concat in Hin as (lv & (c & -> & Hc)%list_elem_of_In%list_elem_of_fmap & Hin%list_elem_of_In).
    rewrite Forall_forall in Hr, Hw. by apply (IH 8 c p es ltac:(lia) (Hr c Hc) (Hw c Hc)).
Qed.

Section Leaves.
Context (s : Stx) (l : nat) (t : btree) (Hok : stx_ok s l t).

Lemma stx_leaf_at a p es b : tleaves l t = a ++ (p, es) :: b ->
  exists leaf, get_leaf s p = Some leaf /\ stx_leaf_rep leaf es /\ es <> [] /\ links s !! p = Some (mkLinks (last_or 0 a.*1) (hd 0 b.*1)) /\ 0 < p.
Proof.
  intros E. destruct Hok as [Hh _ Hw]. pose proof (hp_linked _ _ _ Hh) as [Hc _ _]. rewrite fleaves_one, E, fmap_app, fmap_cons in Hc. apply chain_lookup in Hc.
  assert (Hin : (p, es) ∈ tleaves l t) by (rewrite E; apply elem_of_app; right; constructor).
  destruct (leaf_below (nodes s) l 1 t p es ltac:(lia) (heap_rep _ _ _ Hh) Hw Hin) as (leaf & Hn & Hr & Hne). exists leaf. split; [by apply get_leaf_lookup|].
  split; [done|]. split; [done|]. split; [done|]. apply (hp_fresh _ _ _ Hh). rewrite fptrs_one. apply elem_of_app. left. apply list_elem_of_fmap. by exists (p, es).
Qed.

(** An entry behind the leaf [p] is in the next leaf. *)
Lemma stx_next i it : position (tleaves l t) i it -> (i < length (tpairs l t))%nat -> exists it', iter_next s it = Some it' /\ position (tleaves l t) (S i) it'.
Proof.
  intros (a & p & es & b & slot & E & -> & -> & Hslot) Hlt. destruct (stx_leaf_at a p es b E) as (leaf & Hl & Hr & Hne & Hlk & _). unfold iter_next. rewrite Hl, Hlk. cbn [mbind option_bind nextleaf].
  rewrite (lr_use _ _ Hr). assert (Hs : (slot < length es)%nat).
  { destruct Hslot as [?|[-> ->]]; [done|]. unfold tpairs in Hlt. rewrite E, fmap_app, concat_app, length_app in Hlt. cbn in Hlt. rewrite app_nil_r in Hlt. lia. }
  destruct (Z.ltb_spec (Z.of_nat slot + 1) (zlen es)) as [Hin|Hout].
  - eexists. split; [done|]. exists a, p, es, b, (S slot). split; [done|]. split; [f_equal; lia|]. split; [lia|]. left. unfold zlen in Hin. lia.
  - assert (Eslot : S slot = length es) by (unfold zlen in Hout; lia). destruct b as [|[q fs] b]; cbn [fmap list_fmap hd].
    + rewrite Z.eqb_refl. cbn [negb]. eexists. split; [done|]. exists a, p, es, [], (length es). split; [done|]. split; [done|]. split; [lia|by right].
    + replace (a ++ (p, es) :: (q, fs) :: b) with ((a ++ [(p, es)]) ++ (q, fs) :: b) in E by by rewrite <-app_assoc. destruct (stx_leaf_at _ _ _ _ E) as (leaf2 & _ & _ & Hne2 & _ & Hq).
      cbn [fst]. rewrite (proj2 (Z.eqb_neq q 0)) by lia. cbn [negb]. eexists. split; [done|]. exists (a ++ [(p, es)]), q, fs, b, O. split; [done|]. split; [done|]. split.
      * rewrite fmap_app, concat_app, length_app. cbn. rewrite app_nil_r. lia.
      * left. destruct fs; [done|cbn; lia].
Qed.

(** The end stays where it is. *)
Lemma stx_next_end it : position (tleaves l t) (length (tpairs l t)) it -> iter_next s it = Some it.
Proof.
  intros (a & p & es & b & slot & E & -> & Hi & Hslot). destruct (stx_leaf_at a p es b E) as (leaf & Hl & Hr & Hne & Hlk & _). unfold iter_next. rewrite Hl, Hlk. cbn [mbind option_bind nextleaf].
  unfold tpairs in Hi. rewrite E, fmap_app, fmap_cons, concat_app, length_app in Hi. cbn in Hi. rewrite length_app in Hi. rewrite (lr_use _ _ Hr).
  destruct Hslot as [Hlt|[-> ->]]; [lia|]. cbn [fmap list_fmap hd]. rewrite Z.eqb_refl. unfold zlen. destruct (Z.ltb_spec (Z.of_nat (length es) + 1) (Z.of_nat (length es))); [lia|]. done.
Qed.

Lemma stx_prev i it : position (tleaves l t) (S i) it -> exists it', iter_prev s it = Some it' /\ position (tleaves l t) i it'.
Proof.
  intros (a & p & es & b & slot & E & -> & Hi & Hslot). destruct (stx_leaf_at a p es b E) as (leaf & Hl & Hr & Hne & Hlk & _). unfold iter_prev. rewrite Hlk. cbn [mbind option_bind prevleaf].
  destruct (Z.ltb_spec 0 (Z.of_nat slot)) as [Hpos|Hzero].
  - eexists. split; [done|]. exists a, p, es, b, (pred slot). split; [done|]. split; [f_equal; lia|]. split; [lia|]. left. destruct Hslot as [?|[_ ->]]; [lia|]. destruct es; [done|cbn; lia].
  - assert (slot = O) as -> by lia. destruct a as [|[q fs] a _] using rev_ind; [cbn in Hi; lia|]. rewrite fmap_app. cbn [fmap list_fmap fst]. rewrite last_or_snoc.
    rewrite <-app_assoc in E. cbn [app] in E. destruct (stx_leaf_at _ _ _ _ E) as (leaf2 & Hl2 & Hr2 & Hne2 & _ & Hq). rewrite (proj2 (Z.eqb_neq q 0)) by lia. cbn [negb]. rewrite Hl2. cbn [mbind option_bind].
    rewrite (lr_use _ _ Hr2). eexists. split; [done|]. exists a, q, fs, ((p, es) :: b), (pred (length fs)). split; [done|]. assert (length fs <> O) by (destruct fs; [done|cbn; lia]). split; [unfold zlen; f_equal; lia|].
    rewrite fmap_app, concat_app, length_app in Hi. cbn in Hi. rewrite app_nil_r in Hi. split; [lia|left; lia].
Qed.

Lemma stx_deref i it k v : position (tleaves l t) i it -> tpairs l t !! i = Some (k, v) -> iter_key s it = Some k /\ iter_data s it = Some v.
Proof.
  intros (a & p & es & b & slot & E & -> & -> & Hslot) He. destruct (stx_leaf_at a p es b E) as (leaf & Hl & [_ Hk Hd] & _). unfold iter_key, iter_data. cbn [fst snd]. rewrite Hl. cbn [mbind option_bind].
  unfold tpairs in He. rewrite E, fmap_app, fmap_cons, concat_app in He. rewrite lookup_app_r in He by lia. replace (length (concat a.*2) + slot - length (concat a.*2))%nat with slot in He by lia.
  cbn in He. assert (Hs : es !! slot = Some (k, v)).
  { destruct Hslot as [?|[-> ->]]; [by rewrite lookup_app_l in He|]. cbn in He. rewrite app_nil_r, lookup_ge_None_2 in He; [done|lia]. }
  split.
  - apply (cells_cell _ _ _ _ _ Hk); [lia|]. by rewrite Nat2Z.id, list_lookup_fmap, Hs.
  - apply (cells_cell _ _ _ _ _ Hd); [lia|]. by rewrite Nat2Z.id, list_lookup_fmap, Hs.
Qed.

(** Different indices, different iterators. *)
Lemma stx_position_eq i j x y : position (tleaves l t) i x -> position (tleaves l t) j y -> iter_eqb x y = bool_decide (i = j).
Proof.
  intros (a & p & es & b & slot & E & -> & -> & Hslot) (a' & p' & es' & b' & slot' & E' & -> & -> & Hslot').
  destruct Hok as [Hh _ _]. pose proof (hp_nodup _ _ _ Hh) as Hnd. apply NoDup_leaves in Hnd. rewrite fleaves_one in Hnd. unfold iter_eqb. cbn [fst snd].
  destruct (decide (p = p')) as [<-|Hne].
  - assert (a = a') as <-.
    { rewrite E in E'. pose proof (f_equal (fmap fst) E') as E1. rewrite !fmap_app in E1. cbn [fmap list_fmap fst] in E1. rewrite E, fmap_app in Hnd. cbn [fmap list_fmap fst] in Hnd.
      enough (length a = length a') by (by apply app_inj_1 in E' as [-> _]).
      pose proof (f_equal (fun l => l !! length a) E1) as L1. cbn in L1. rewrite list_lookup_middle in L1 by by rewrite length_fmap.
      assert (L2 : (a'.*1 ++ p :: b'.*1) !! length a' = Some p) by (apply list_lookup_middle; by rewrite length_fmap).
      rewrite E1 in Hnd. eapply (NoDup_lookup _ _ _ _ Hnd); [by symmetry|exact L2]. }
    rewrite Z.eqb_refl. cbn [andb]. destruct (Z.eqb_spec (Z.of_nat slot) (Z.of_nat slot')); [rewrite bool_decide_true; [done|lia]|rewrite bool_decide_false; [done|lia]].
  - rewrite (proj2 (Z.eqb_neq _ _) Hne). cbn [andb]. rewrite bool_decide_false; [done|]. intros Hi. rewrite E in E'.
    destruct (List.app_eq_app _ _ _ _ E') as (r & [[Ha Hb]|[Ha Hb]]).
    + destruct r as [|[q fs] r]; [cbn in Hb; congruence|]. injection Hb as <- <- ->. subst a. rewrite fmap_app, concat_app, length_app in Hi. cbn in Hi. rewrite length_app in Hi.
      destruct Hslot' as [?|[? _]]; [lia|]. by destruct r.
    + destruct r as [|[q fs] r]; [cbn in Hb; congruence|]. injection Hb as <- <- ->. subst a'. rewrite fmap_app, concat_app, length_app in Hi. cbn in Hi. rewrite length_app in Hi.
      destruct Hslot as [?|[? _]]; [lia|]. by destruct r.
Qed.

Lemma stx_begin : position (tleaves l t) 0 (begin s).
Proof.
  destruct Hok as [Hh _ Hw]. pose proof (hp_linked _ _ _ Hh) as [_ Hhd _]. rewrite fleaves_one in Hhd. unfold begin. rewrite Hhd.
  pose proof (wf_nonempty l 1 t ltac:(lia) Hw) as Hne. unfold tpairs in Hne. destruct (tleaves l t) as [|[p es] b] eqn:E; [done|].
  exists [], p, es, b, O. split; [done|]. split; [done|]. split; [done|]. left. destruct (stx_leaf_at [] p es b E) as (_ & _ & _ & H & _). destruct es; [done|cbn; lia].
Qed.

Lemma stx_end : exists it, end_ s = Some it /\ position (tleaves l t) (length (tpairs l t)) it.
Proof.
  pose proof Hok as [Hh _ Hw]. pose proof (hp_linked _ _ _ Hh) as [_ _ Ht]. rewrite fleaves_one in Ht. unfold end_.
  pose proof (wf_nonempty l 1 t ltac:(lia) Hw) as Hne. unfold tpairs in *. destruct (tleaves l t) as [|[p es] a _] eqn:E using rev_ind; [done|].
  rewrite fmap_app in Ht. cbn [fmap list_fmap fst] in Ht. rewrite last_or_snoc in Ht. rewrite Ht.
  destruct (stx_leaf_at a p es [] E) as (leaf & Hl & Hr & _ & _ & Hp). rewrite (proj2 (Z.eqb_neq p 0)) by lia. rewrite Hl. cbn [mbind option_bind]. eexists. split; [done|].
  exists a, p, es, [], (length es). split; [done|]. split; [by rewrite (lr_use _ _ Hr)|]. split; [|by right]. rewrite fmap_app, concat_app, length_app. cbn. by rewrite app_nil_r.
Qed.

Lemma stx_descend key : exists p leaf es slot, descend find_lower s key = Some (p, leaf, Z.of_nat slot) /\ get_leaf s p = Some leaf /\ stx_leaf_rep leaf es /\
  es !! slot = tpairs l t !! lower key (tkeys l t) /\ position (tleaves l t) (lower key (tkeys l t)) (p, Z.of_nat slot).
Proof.
  pose proof Hok as [Hh Hr Hw]. pose proof (hp_sorted _ _ _ Hh) as Hs. rewrite fpairs_one in Hs.
  destruct (descend_rep s key l (S l) t ltac:(lia) (heap_rep _ _ _ Hh) Hw Hs) as (p & leaf & es & slot & E & Hn & Hrl & Hin & Hes & _ & Hpos).
  exists p, leaf, es, slot. unfold descend. rewrite (height_spec _ _ _ Hok), Hr. split; [exact E|]. split; [by apply get_leaf_lookup|]. by split.
Qed.
End Leaves.

(** ** What the operations return *)

Section Operations.
Context (s : Stx) (es : list (Z * Z)) (Hs : stx_holds s es).

Lemma stx_begin_spec : at_index s es 0 (begin s).
Proof.
  unfold stx_holds in Hs. unfold at_index. destruct (m_root s =? 0); [|destruct Hs as (l & t & Hok & ->); exists l, t; split; [done|]; split; [done|]; by apply stx_begin].
  destruct Hs as [-> H]. destruct (hp_linked _ _ _ H) as [_ Hh _]. unfold begin. by rewrite Hh.
Qed.

Lemma stx_end_spec : exists it, end_ s = Some it /\ at_index s es (length es) it.
Proof.
  unfold stx_holds in Hs. unfold at_index. destruct (m_root s =? 0).
  - destruct Hs as [-> H]. destruct (hp_linked _ _ _ H) as [_ _ Ht]. unfold end_. rewrite Ht. cbn. by eexists.
  - destruct Hs as (l & t & Hok & ->). destruct (stx_end s l t Hok) as (it & E & Hp). exists it. split; [done|]. by exists l, t.
Qed.

Lemma stx_lower_bound_spec key : exists it, lower_bound s key = Some it /\ at_index s es (lower key es.*1) it.
Proof.
  unfold stx_holds in Hs. unfold lower_bound, at_index. destruct (m_root s =? 0) eqn:E0.
  - destruct Hs as [-> H]. destruct (hp_linked _ _ _ H) as [_ _ Ht]. unfold end_. rewrite Ht. cbn. by eexists.
  - destruct Hs as (l & t & Hok & ->). destruct (stx_descend s l t Hok key) as (p & leaf & fs & slot & -> & _ & _ & _ & Hp). eexists. split; [done|]. by exists l, t.
Qed.

Lemma stx_upper_bound_spec key : exists it, upper_bound s key = Some it /\ at_index s es (lower (key + 1) es.*1) it.
Proof. rewrite upper_bound_lower. apply stx_lower_bound_spec. Qed.

(** The search that [exists], [find] and [count] begin with. *)
Lemma stx_search_spec key : m_root s <> 0 -> exists l t p leaf slot, stx_ok s l t /\ es = tpairs l t /\ descend find_lower s key = Some (p, leaf, Z.of_nat slot) /\
  key_at leaf (Z.of_nat slot) key = Some (bool_decide (key ∈ es.*1)) /\ position (tleaves l t) (lower key es.*1) (p, Z.of_nat slot).
Proof.
  intros H0. pose proof (stx_holds_sorted _ _ Hs) as Hsort. unfold stx_holds in Hs. rewrite (proj2 (Z.eqb_neq _ _) H0) in Hs. destruct Hs as (l & t & Hok & Ees).
  destruct (stx_descend s l t Hok key) as (p & leaf & fs & slot & E & _ & Hr & Hfs & Hp). exists l, t, p, leaf, slot. split; [done|]. split; [done|]. split; [done|].
  rewrite Ees in *. split; [|done]. rewrite (key_at_spec _ _ _ key Hr) by lia. rewrite Nat2Z.id, Hfs. f_equal. unfold tkeys. case_bool_decide as Hin.
  - apply list_elem_of_fmap in Hin as ([k v] & -> & Hin). apply lower_found in Hin; [|done]. cbn [fst]. rewrite Hin. cbn. apply Z.eqb_refl.
  - by apply lower_none.
Qed.

Lemma exists_spec key : exists_ s key = Some (bool_decide (key ∈ es.*1)).
Proof.
  unfold exists_. destruct (Z.eqb_spec (m_root s) 0) as [E0|N0].
  - unfold stx_holds in Hs. rewrite E0 in Hs. destruct Hs as [-> _]. by rewrite bool_decide_false by apply not_elem_of_nil.
  - destruct (stx_search_spec key N0) as (l & t & p & leaf & slot & _ & _ & E & Hk & _). by rewrite E.
Qed.

Lemma stx_find_spec key : exists it, StxTree.find s key = Some it /\ at_index s es (if decide (key ∈ es.*1) then lower key es.*1 else length es) it.
Proof.
  unfold StxTree.find. destruct (Z.eqb_spec (m_root s) 0) as [E0|N0].
  - assert (Hnil : es = []) by (unfold stx_holds in Hs; rewrite E0 in Hs; by destruct Hs). rewrite Hnil. cbn. rewrite decide_False by apply not_elem_of_nil. destruct stx_end_spec as (it & E & H). rewrite Hnil in H. by exists it.
  - destruct (stx_search_spec key N0) as (l & t & p & leaf & slot & Hok & Ees & E & Hk & Hp). rewrite E. cbn [mbind option_bind]. rewrite Hk. cbn [mbind option_bind]. case_bool_decide as Hin.
    + rewrite decide_True by done. eexists. split; [done|]. unfold at_index. rewrite (proj2 (Z.eqb_neq _ _) N0). by exists l, t.
    + rewrite decide_False by done. apply stx_end_spec.
Qed.

(** The next entry has another key. *)
Lemma next_key_differs key : key ∈ es.*1 -> match es !! S (lower key es.*1) with Some e => key =? e.1 | None => false end = false.
Proof.
  intros ([k v] & -> & Hin)%list_elem_of_fmap. pose proof (stx_holds_sorted _ _ Hs) as Hsort. apply lower_found in Hin; [|done]. cbn [fst] in *.
  destruct (es !! S (lower k es.*1)) as [[k' v']|] eqn:E; [|done]. apply Z.eqb_neq. cbn. intros <-.
  pose proof (increasing_NoDup_keys _ Hsort) as Hnd. enough (lower k es.*1 = S (lower k es.*1)) by lia. eapply (NoDup_lookup es.*1); [done| |]; rewrite list_lookup_fmap; [by rewrite Hin|by rewrite E].
Qed.

Lemma count_spec key : count s key = Some (if bool_decide (key ∈ es.*1) then 1 else 0).
Proof.
  unfold count. destruct (Z.eqb_spec (m_root s) 0) as [E0|N0].
  - unfold stx_holds in Hs. rewrite E0 in Hs. destruct Hs as [-> _]. by rewrite bool_decide_false by apply not_elem_of_nil.
  - destruct (stx_search_spec key N0) as (l & t & p & leaf & slot & Hok & Ees & E & Hk & Hp). rewrite E. cbn [mbind option_bind]. cbn [loop].
    destruct Hp as (a & p' & fs & b & slot' & Elv & Ep & Hi & Hslot). injection Ep as <- <-%Nat2Z.inj. destruct (stx_leaf_at s l t Hok a p fs b Elv) as (leaf' & Hl & Hr & Hne & Hlk & Hpp).
    assert (leaf' = leaf) as ->.
    { destruct (stx_descend s l t Hok key) as (p0 & leaf0 & fs0 & slot0 & E' & Hl0 & _). rewrite E in E'. injection E' as <- <- _. congruence. }
    rewrite (proj2 (Z.eqb_neq p 0)) by lia. rewrite Hl. cbn [mbind option_bind]. rewrite Hk. cbn [mbind option_bind]. case_bool_decide as Hin; [|done].
    pose proof (next_key_differs key Hin) as Hnext. pose proof (stx_holds_size _ _ Hs) as Hsz. unfold stx_size in Hsz. assert (Hlen : es <> []) by (intros ->; by apply elem_of_nil in Hin).
    destruct (Z.to_nat (itemcount s)) as [|f] eqn:Ef; [destruct es; [done|rewrite zlen_cons in Hsz; pose proof (zlen_nonneg l0); lia]|].
    assert (Hlv : es = concat a.*2 ++ fs ++ concat b.*2) by (rewrite Ees; unfold tpairs; by rewrite Elv, fmap_app, concat_app).
    assert (Hslt : (slot < length fs)%nat).
    { destruct Hslot as [?|[-> ->]]; [done|]. assert (lower key es.*1 < length es)%nat; [|rewrite Hlv, !length_app in *; cbn in *; lia].
      apply list_elem_of_fmap in Hin as ([k v] & -> & Hin). apply lower_found in Hin; [by eapply lookup_lt_Some|by eapply stx_holds_sorted]. }
    rewrite (lr_use _ _ Hr). destruct (Z.leb_spec (zlen fs) (Z.of_nat slot + 1)) as [Hend|Hmore].
    + rewrite Hlk. cbn [mbind option_bind nextleaf loop]. destruct b as [|[q gs] b]; [done|]. cbn [fmap list_fmap hd fst]. replace (a ++ (p, fs) :: (q, gs) :: b) with ((a ++ [(p, fs)]) ++ (q, gs) :: b) in Elv by by rewrite <-app_assoc.
      destruct (stx_leaf_at s l t Hok _ q gs b Elv) as (leaf2 & Hl2 & Hr2 & Hne2 & _ & Hq). rewrite (proj2 (Z.eqb_neq q 0)) by lia. rewrite Hl2. cbn [mbind option_bind].
      rewrite (key_at_spec _ _ 0 key Hr2) by lia. cbn [mbind option_bind]. assert (Hg : es !! S (lower key es.*1) = gs !! 0%nat).
      { rewrite Hi. rewrite Hlv at 1. rewrite lookup_app_r by lia. unfold zlen in Hend. rewrite lookup_app_r by lia. cbn. replace (S (length (concat a.*2) + slot) - length (concat a.*2) - length fs)%nat with O by lia. by destruct gs. }
      rewrite Hg in Hnext. change (Z.to_nat 0) with O. by rewrite Hnext.
    + cbn [loop]. rewrite (proj2 (Z.eqb_neq p 0)) by lia. rewrite Hl. cbn [mbind option_bind]. rewrite (key_at_spec _ _ (Z.of_nat slot + 1) key Hr) by lia. cbn [mbind option_bind].
      assert (Hg : es !! S (lower key es.*1) = fs !! Z.to_nat (Z.of_nat slot + 1)).
      { rewrite Hi. rewrite Hlv at 1. rewrite lookup_app_r by lia. unfold zlen in Hmore. rewrite lookup_app_l by lia. f_equal. lia. }
      rewrite Hg in Hnext. by rewrite Hnext.
Qed.
End Operations.
