(* ===== verification/StxBulk.v ===== *)
(** * stx::btree: bulk loading

    The sorted pairs are spread evenly over as few leaves as hold them, the leaves over as
    few nodes of level 1 as hold them, and so on up to one node, the root. *)

From S2P Require Import Prelude Words Index StxNode StxTree StxInv StxInsert.
From Stdlib Require Import Sorted.
From stdpp Require Import gmap list.
Local Open Scope Z_scope.
Local Open Scope cxx_scope.

(** ** Leaves *)

Definition ceil_div (n d : Z) : Z := (n + d - 1) / d.

(** [leaf->set_slot(s, *it)] for every slot. *)
Definition fill_leaf (kvs : list (Z * Z)) (it slotuse : Z) : option leaf_node :=
  for_up 0 slotuse (fun s n =>
    kv ← kvs.[it + s];
    keys ← wr (lslotkey n) s (Some kv.1);
    data ← wr (lslotdata n) s (Some kv.2);
    Some (mkLeafNode (lslotuse n) keys data)) (mkLeafNode slotuse (lslotkey new_leaf_node) (lslotdata new_leaf_node)).

(** One leaf behind the last one. *)
Definition append_leaf (kvs : list (Z * Z)) (t : Stx) (it slotuse : Z) : option Stx :=
  let '(t, leaf) := allocate_leaf t in
  n ← fill_leaf kvs it slotuse;
  let t := set_node t leaf (SLeaf n) in
  t ← (if negb (m_tailleaf t =? 0) then t ← set_next t (m_tailleaf t) leaf; set_prev t leaf (m_tailleaf t)
       else Some (set_head t leaf));
  Some (set_tail t leaf).

Definition load_leaves (kvs : list (Z * Z)) (t : Stx) : option Stx :=
  let num_leaves := ceil_div (zlen kvs) leafslotmax in
  '(t, _, _) ← for_up 0 num_leaves (fun i '(t, it, num_items) =>
    let slotuse := num_items / (num_leaves - i) in
    t ← append_leaf kvs t it slotuse;
    Some (t, it + slotuse, num_items - slotuse)) (t, 0, zlen kvs);
  Some t.

(** ** Levels of inner nodes *)

(** An element of [nextlevel] is a node and the address of the greatest key below it: a leaf and a slot. *)

Definition put_child (n : inner_node) (s key child : Z) : option inner_node :=
  keys ← wr (islotkey n) s (Some key);
  kids ← wr (childid n) s (Some child);
  Some (mkInnerNode (ilevel n) (islotuse n) keys kids).

Definition put_last_child (n : inner_node) (child : Z) : option inner_node :=
  kids ← wr (childid n) (islotuse n) (Some child);
  Some (mkInnerNode (ilevel n) (islotuse n) (islotkey n) kids).

(** The nodes above the leaves: the state and the nodes. *)
Definition load_level1 (t : Stx) (num_leaves : Z) : option (Stx * Z * list (Z * (Z * Z))) :=
  let num_parents := ceil_div num_leaves (innerslotmax + 1) in
  '(t, _, _, nextlevel) ← for_up 0 num_parents (fun i '(t, leaf, num_leaves, nextlevel) =>
    let '(t, n) := allocate_inner t 1 in
    let slotuse := num_leaves / (num_parents - i) - 1 in
    '(nd, leaf) ← for_up 0 slotuse (fun s '(nd, leaf) =>
      ln ← get_leaf t leaf;
      k ← cell (lslotkey ln) (lslotuse ln - 1);
      nd ← put_child nd s k leaf;
      l ← links t !! leaf;
      Some (nd, nextleaf l)) (mkInnerNode 1 slotuse (islotkey (new_inner_node 1)) (childid (new_inner_node 1)), leaf);
    nd ← put_last_child nd leaf;
    let t := set_node t n (SInner nd) in
    ln ← get_leaf t leaf;
    nextlevel ← wr nextlevel i (n, (leaf, lslotuse ln - 1));
    l ← links t !! leaf;
    Some (t, nextleaf l, num_leaves - (slotuse + 1), nextlevel))
    (t, m_headleaf t, num_leaves, replicate (Z.to_nat num_parents) (0, (0, 0)));
  Some (t, num_parents, nextlevel).

(** The nodes of level [level] above [num_children] nodes. *)
Definition load_level (t : Stx) (level num_children : Z) (nextlevel : list (Z * (Z * Z))) : option (Stx * Z * list (Z * (Z * Z))) :=
  let num_parents := ceil_div num_children (innerslotmax + 1) in
  '(t, _, _, nextlevel) ← for_up 0 num_parents (fun i '(t, inner_index, num_children, nextlevel) =>
    let '(t, n) := allocate_inner t level in
    let slotuse := num_children / (num_parents - i) - 1 in
    '(nd, inner_index) ← for_up 0 slotuse (fun s '(nd, inner_index) =>
      c ← nextlevel.[inner_index];
      ln ← get_leaf t c.2.1;
      k ← cell (lslotkey ln) c.2.2;
      nd ← put_child nd s k c.1;
      Some (nd, inner_index + 1)) (mkInnerNode level slotuse (islotkey (new_inner_node level)) (childid (new_inner_node level)), inner_index);
    c ← nextlevel.[inner_index];
    nd ← put_last_child nd c.1;
    let t := set_node t n (SInner nd) in
    nextlevel ← wr nextlevel i (n, c.2);
    Some (t, inner_index + 1, num_children - (slotuse + 1), nextlevel)) (t, 0, num_children, nextlevel);
  Some (t, num_parents, nextlevel).

Definition load_levels (t : Stx) (num_parents : Z) (nextlevel : list (Z * (Z * Z))) : option (Stx * list (Z * (Z * Z))) :=
  loop (S (Z.to_nat num_parents)) (fun '(t, level, num_parents, nextlevel) =>
    if num_parents =? 1 then Some (inr (t, nextlevel))
    else
      '(t, num_parents, nextlevel) ← load_level t level num_parents nextlevel;
      Some (inl (t, level + 1, num_parents, nextlevel))) (t, 2, num_parents, nextlevel).

Definition bulk_load (t : Stx) (kvs : list (Z * Z)) : option Stx :=
  t ← load_leaves kvs (set_itemcount t (zlen kvs));
  if m_headleaf t =? m_tailleaf t then Some (set_root t (m_headleaf t))
  else
    '(t, num_parents, nextlevel) ← load_level1 t (ceil_div (zlen kvs) leafslotmax);
    '(t, nextlevel) ← load_levels t num_parents nextlevel;
    r ← nextlevel.[0];
    Some (set_root t r.1).

(** ** Even shares *)

(** [n] items over [r] places, between [lo] and [hi] for each: the first place takes [n / r] and the rest stays between the bounds. *)
Lemma share lo hi r n : 0 < r -> lo * r <= n <= hi * r -> lo <= n / r <= hi /\ lo * (r - 1) <= n - n / r <= hi * (r - 1).
Proof.
  intros Hr Hn. pose proof (Z.div_mod n r ltac:(lia)) as Hd. pose proof (Z.mod_pos_bound n r Hr) as Hm. set (q := n / r) in *. set (m := n mod r) in *.
  assert (lo <= q) by nia. assert (q <= hi) by nia. split; [lia|]. split; [nia|]. destruct (Z.eq_dec q hi); nia.
Qed.

Lemma ceil_div_bounds n d : 0 < d -> 0 <= n -> d * (ceil_div n d - 1) < n <= d * ceil_div n d \/ n = 0 /\ ceil_div n d = 0.
Proof.
  intros Hd Hn. unfold ceil_div. pose proof (Z.div_mod (n + d - 1) d ltac:(lia)) as H. pose proof (Z.mod_pos_bound (n + d - 1) d Hd) as Hm.
  destruct (Z.eq_dec n 0) as [->|]; [right; split; [done|]; apply Z.div_small; lia|]. left. set (q := (n + d - 1) / d) in *. nia.
Qed.

(** ** Filling a leaf *)

Lemma cells_push {A} cap (a : list (option A)) xs x : cells cap a xs -> zlen xs < cap -> exists a', wr a (zlen xs) (Some x) = Some a' /\ cells cap a' (xs ++ [x]).
Proof.
  intros H Hl. destruct (cells_wr _ _ _ (zlen xs) x H) as (a' & E & Ha); [pose proof (zlen_nonneg xs); lia|done|]. exists a'. split; [done|].
  by rewrite take_all_at, drop_ge in Ha by (unfold zlen; lia).
Qed.

Lemma rd_middle {A} (a : list A) x b : rd (a ++ x :: b) (zlen a) = Some x.
Proof. unfold rd, zlen. rewrite (proj2 (Z.leb_le _ _)) by lia. rewrite Nat2Z.id. by apply list_lookup_middle. Qed.

(** The list [es] cut before the element of index [i]. *)
Lemma cut_at {A} (es : list A) i : 0 <= i < zlen es -> exists xs x ys, es = xs ++ x :: ys /\ zlen xs = i.
Proof.
  intros Hi. destruct (stx_split_at es i ltac:(lia)) as (xs & [|x ys] & -> & Hx & Hy); [change (zlen (@nil A)) with 0 in Hy; lia|]. by exists xs, x, ys.
Qed.

Lemma take_snoc_at {A} (xs : list A) x ys i : zlen xs = i -> take (Z.to_nat (i + 1)) (xs ++ x :: ys) = xs ++ [x].
Proof. intros <-. replace (xs ++ x :: ys) with ((xs ++ [x]) ++ ys) by by rewrite <-app_assoc. apply take_at. rewrite zlen_app. done. Qed.

Lemma fill_leaf_spec a es b : zlen es <= leafslotmax -> exists n, fill_leaf (a ++ es ++ b) (zlen a) (zlen es) = Some n /\ stx_leaf_rep n es.
Proof.
  intros Hl. unfold fill_leaf.
  destruct (for_up_spec (fun i n => lslotuse n = zlen es /\ cells leafslotmax (lslotkey n) (take (Z.to_nat i) es).*1 /\ cells leafslotmax (lslotdata n) (take (Z.to_nat i) es).*2)
    (fun s n => kv ← (a ++ es ++ b).[zlen a + s]; keys ← wr (lslotkey n) s (Some kv.1); data ← wr (lslotdata n) s (Some kv.2); Some (mkLeafNode (lslotuse n) keys data))
    0 (zlen es) (mkLeafNode (zlen es) (lslotkey new_leaf_node) (lslotdata new_leaf_node))) as (n & E & Hu & Hk & Hd); [apply zlen_nonneg|by repeat split| |].
  - intros i n Hi (Hu & Hk & Hd). destruct (cut_at es i Hi) as (xs & [k v] & ys & -> & Hx). rewrite take_at in Hk, Hd by done.
    replace (a ++ (xs ++ (k, v) :: ys) ++ b) with ((a ++ xs) ++ (k, v) :: ys ++ b) by by rewrite <-!app_assoc. replace (zlen a + i) with (zlen (a ++ xs)) by (rewrite zlen_app; lia). rewrite rd_middle. cbn [mbind option_bind fst snd].
    rewrite zlen_app, zlen_cons in Hl. pose proof (zlen_nonneg ys). destruct (cells_push _ _ _ k Hk) as (keys & Ek & Hk'); [rewrite zlen_fmap; lia|]. destruct (cells_push _ _ _ v Hd) as (data & Ed & Hd'); [rewrite zlen_fmap; lia|].
    rewrite zlen_fmap, Hx in Ek, Ed. rewrite Ek. cbn [mbind option_bind]. rewrite Ed. cbn [mbind option_bind]. eexists. split; [done|]. cbn [lslotuse lslotkey lslotdata].
    rewrite take_snoc_at by done. by rewrite !fmap_app.
  - exists n. split; [done|]. rewrite take_all_at in Hk, Hd by lia. by constructor.
Qed.

(** ** The leaves *)

(** A leaf at the end of the chain. *)
Lemma append_leaf_spec s n cs a es b : stx_heap (set_itemcount s n) 0 cs -> 0 < zlen es <= leafslotmax -> (forall x y, x ∈ (fpairs 0 cs).*1 -> y ∈ es.*1 -> x < y) -> StronglySorted Z.lt es.*1 ->
  exists s', append_leaf (a ++ es ++ b) s (zlen a) (zlen es) = Some s' /\ stx_heap (set_itemcount s' (n + zlen es)) 0 (cs ++ [TLeaf (next_free s) es]) /\
    m_root s' = m_root s /\ itemcount s' = itemcount s.
Proof.
  intros [H1 H2 H0 H3 H4 H5 H6 H7 H8 H9] Hes Hlt Hs. cbn [nodes next_free itemcount leaves innernodes set_itemcount] in *. unfold append_leaf. cbn [allocate_leaf]. set (p := next_free s) in *.
  destruct (fill_leaf_spec a es b ltac:(lia)) as (ln & -> & Hr). cbn [mbind option_bind m_tailleaf set_node]. destruct H5 as [Hc Hh Ht]. cbn [links m_headleaf m_tailleaf set_itemcount] in *.
  assert (Hp : p ∉ fptrs 0 cs) by (intros H; specialize (H3 p H); lia). assert (Hplv : p ∉ (fleaves 0 cs).*1) by (intros H; apply Hp, elem_of_app; by left).
  set (s0 := set_node _ p _).
  assert (Hlinks : exists s', (if negb (m_tailleaf s =? 0) then t ← set_next s0 (m_tailleaf s) p; set_prev t p (m_tailleaf t) else Some (set_head s0 p)) = Some s' /\
    linked (set_tail s' p) ((fleaves 0 cs).*1 ++ [p]) /\ m_root s' = m_root s /\ itemcount s' = itemcount s /\ leaves s' = leaves s + 1 /\ innernodes s' = innernodes s /\ nodes s' = nodes s0 /\ next_free s' = p + 1).
  { destruct (fleaves 0 cs).*1 as [|q ps _] eqn:Eps using rev_ind.
    - rewrite Ht. cbn. eexists. split; [done|]. split; [|done]. constructor; [|done|done]. split; [|done]. apply lookup_insert_eq.
    - rewrite last_or_snoc in Ht. assert (Hq : 0 < q < p) by (apply H3, elem_of_app; left; rewrite Eps; apply elem_of_app; right; constructor).
      rewrite Ht, (proj2 (Z.eqb_neq q 0)) by lia. cbn [negb]. unfold set_next, set_prev. cbn [links set_node s0]. rewrite lookup_insert_ne by lia.
      pose proof (chain_lookup _ _ _ _ _ _ Hc) as Hlq. rewrite Hlq. cbn [mbind option_bind links set_links prevleaf]. rewrite lookup_insert_ne by lia. cbn [links set_node s0]. rewrite lookup_insert_eq. cbn [mbind option_bind nextleaf m_tailleaf set_links set_node s0]. rewrite Ht.
      eexists. split; [done|]. split; [|done]. apply not_elem_of_app in Hplv as [Hp1 Hp2]. assert (Hndq : q ∉ ps).
      { apply NoDup_leaves in H2. rewrite Eps in H2. apply NoDup_app in H2 as (_ & H2 & _). intros Hx. apply (H2 q Hx). constructor. }
      constructor; cbn [links set_links set_tail m_headleaf m_tailleaf set_node s0].
      + rewrite <-app_assoc. apply chain_app in Hc as [Hc _]. apply chain_app. cbn [hd app chain] in *. split; [|split; [|split; [|done]]].
        * eapply chain_ext; [|exact Hc]. intros x Hx. rewrite !lookup_insert_ne; [done|intros ->; done..].
        * rewrite lookup_insert_ne by lia. by rewrite lookup_insert_eq.
        * by rewrite lookup_insert_eq.
      + rewrite Hh, !hd_app. by destruct ps.
      + by rewrite last_or_snoc. }
  destruct Hlinks as (s' & E & Hlk & E1 & E2 & E3 & E4 & E5 & E6). cbn [m_tailleaf] in E. rewrite E. cbn [mbind option_bind]. eexists. split; [done|]. split; [|done].
  assert (Hlv : fleaves 0 (cs ++ [TLeaf p es]) = fleaves 0 cs ++ [(p, es)]) by (by rewrite fleaves_app).
  assert (Hpr : fpairs 0 (cs ++ [TLeaf p es]) = fpairs 0 cs ++ es) by (by rewrite fpairs_app, fpairs_one, tpairs_leaf).
  assert (Hperm : fptrs 0 (cs ++ [TLeaf p es]) ≡ₚ p :: fptrs 0 cs) by (rewrite fptrs_app; cbn; by rewrite Permutation_app_comm).
  constructor; cbn [nodes set_tail set_itemcount next_free itemcount leaves innernodes]; try lia.
  - rewrite E5. cbn [nodes set_node s0]. apply Forall_app. split.
    + eapply stx_reps_ext; [|exact H1]. intros q Hq. rewrite !lookup_insert_ne; [done|by intros ->..].
    + repeat constructor. exists ln. split; [apply lookup_insert_eq|done].
  - rewrite Hperm. by constructor.
  - intros q. rewrite Hperm, E6. intros [->|Hq]%elem_of_cons; [lia|]. specialize (H3 q Hq). lia.
  - intros q. rewrite Hperm, E5. cbn [nodes set_node s0]. destruct (decide (q = p)) as [->|Hne]; [constructor|]. rewrite !lookup_insert_ne by done. intros Hq. apply list_elem_of_further. by apply H4.
  - rewrite Hlv, fmap_app. by apply (linked_fields (set_tail s' p)).
  - rewrite Hpr, fmap_app. by apply sorted_app.
  - rewrite Hpr, zlen_app. lia.
  - rewrite Hlv, zlen_app. change (zlen [(p, es)]) with 1. lia.
  - rewrite E4, H9. rewrite finners_app, zlen_app. change (zlen (finners 0 [TLeaf p es])) with 0. lia.
Qed.

(** The least number of entries of a node among [n] of them: only a single one may be less than half full. *)
Definition least (single half n : Z) : Z := if n =? 1 then single else half.

Lemma load_leaves_spec s kvs : stx_heap (set_itemcount s 0) 0 [] -> itemcount s = zlen kvs -> StronglySorted Z.lt kvs.*1 ->
  exists s' cs, load_leaves kvs s = Some s' /\ stx_heap s' 0 cs /\ fpairs 0 cs = kvs /\ zlen cs = ceil_div (zlen kvs) leafslotmax /\
    Forall (stx_wf (least 1 8 (zlen cs)) 0) cs /\ m_root s' = m_root s.
Proof.
  intros Hh Hi Hs. unfold load_leaves. set (P := ceil_div (zlen kvs) leafslotmax). set (lo := least 1 8 P).
  assert (HP : 0 <= P /\ lo * P <= zlen kvs <= 16 * P).
  { pose proof (zlen_nonneg kvs). destruct (ceil_div_bounds (zlen kvs) leafslotmax ltac:(done) ltac:(done)) as [Hb|[E0 Hz]]; [|unfold P; rewrite Hz; lia].
    fold P in Hb. change leafslotmax with 16 in Hb. unfold lo, least. destruct (Z.eqb_spec P 1); lia. }
  assert (Hlo : 1 <= lo) by (unfold lo, least; destruct (P =? 1); lia).
  destruct (for_up_spec (fun i '(t, it, num_items) => exists cs rest, kvs = fpairs 0 cs ++ rest /\ it = zlen (fpairs 0 cs) /\ num_items = zlen rest /\ zlen cs = i /\
      stx_heap (set_itemcount t it) 0 cs /\ Forall (stx_wf lo 0) cs /\ lo * (P - i) <= num_items <= 16 * (P - i) /\ m_root t = m_root s /\ itemcount t = itemcount s)
    (fun i '(t, it, num_items) => t ← append_leaf kvs t it (num_items / (P - i)); Some (t, it + num_items / (P - i), num_items - num_items / (P - i)))
    0 P (s, 0, zlen kvs)) as ([[t it] num] & E & cs & rest & Ek & -> & -> & Hz & Hh' & Hw & Hb & Er & Ei); [lia| | |].
  - exists [], kvs. do 5 (split; [done|]). split; [constructor|]. split; [|done]. lia.
  - intros i [[t it] num] Hir (cs & rest & Ek & -> & -> & Hz & Hh' & Hw & Hb & Er & Ei).
    destruct (share lo 16 (P - i) (zlen rest) ltac:(lia) Hb) as [Hq Hrest]. set (q := zlen rest / (P - i)) in *. pose proof (zlen_nonneg rest).
    assert (Hqr : q <= zlen rest) by (unfold q; apply Z.div_le_upper_bound; nia). destruct (stx_split_at rest q ltac:(lia)) as (es & rest' & -> & Hes & Hrest').
    rewrite Ek, !fmap_app in Hs. apply sorted_app_inv in Hs as (_ & Hs2 & Hlt). apply sorted_app_inv in Hs2 as (Hs2 & _ & _).
    destruct (append_leaf_spec t _ cs (fpairs 0 cs) es rest' Hh') as (t' & E & Hh2 & E1 & E2); [change leafslotmax with 16; lia| |done|].
    { intros x y Hx Hy. apply Hlt; [done|]. apply elem_of_app. by left. }
    rewrite Hes in E. rewrite Ek, E. cbn [mbind option_bind]. eexists. split; [done|]. exists (cs ++ [TLeaf (next_free t) es]), rest'.
    assert (Hpr : fpairs 0 (cs ++ [TLeaf (next_free t) es]) = fpairs 0 cs ++ es) by (by rewrite fpairs_app, fpairs_one, tpairs_leaf).
    rewrite Hpr, (zlen_app _ es), <-app_assoc, <-Hes. split; [done|]. split; [done|]. split; [lia|]. split; [rewrite zlen_app; change (zlen [TLeaf (next_free t) es]) with 1; lia|].
    split; [done|]. split; [apply Forall_app; split; [done|]; repeat constructor; cbn; lia|]. split; [replace (P - (i + 1)) with (P - i - 1) by lia; lia|]. split; congruence.
  - rewrite E. cbn [mbind option_bind]. assert (rest = []) as -> by (destruct rest; [done|rewrite zlen_cons in Hb; pose proof (zlen_nonneg rest); lia]). rewrite app_nil_r in Ek.
    exists t, cs. split; [done|]. split; [eapply heap_fields; [exact Hh'|..]; try done; cbn; congruence|]. rewrite Hz. by repeat (split; [done|]).
Qed.

(** ** Parents *)

Definition kids_of (t : btree) : list btree := match t with TLeaf _ _ => [] | TInner _ _ cs => cs end.

(** Nodes of level [S l] added to the heap of [s]; their children are [done], from the left. *)
Record parents (s t : Stx) (l : nat) (done ds : list btree) : Prop := {
  pa_rep : Forall (stx_rep (nodes t) (S l)) ds;
  pa_kids : concat (kids_of <$> ds) = done;
  pa_ptr : tptr <$> ds = (fun j => next_free s + Z.of_nat j) <$> seq 0 (length ds);
  pa_old q : q < next_free s -> nodes t !! q = nodes s !! q;
  pa_dom q : is_Some (nodes t !! q) -> is_Some (nodes s !! q) \/ next_free s <= q < next_free t;
  pa_fields : t = mkStx (m_root s) (m_headleaf s) (m_tailleaf s) (itemcount s) (leaves s) (innernodes s + zlen ds) (nodes t) (links s) (next_free s + zlen ds)
}.

Lemma parents_none s l : parents s s l [] [].
Proof.
  constructor; try done; [by left|]. change (zlen (@nil btree)) with 0. rewrite !Z.add_0_r. by destruct s.
Qed.

(** A node more. *)
Lemma parents_add s t l dn ds chunk rest ks nd : parents s t l dn ds -> stx_heap s l (dn ++ chunk ++ rest) ->
  ilevel nd = Z.of_nat (S l) -> stx_inner_rep nd ks (tptr <$> chunk) ->
  parents s (set_node (allocate_inner t (Z.of_nat (S l))).1 (next_free t) (SInner nd)) l (dn ++ chunk) (ds ++ [TInner (next_free t) ks chunk]).
Proof.
  intros [H1 H2 H3 H4 H5 H6] Hh Hl Hr. cbn [allocate_inner fst]. assert (Hnf : next_free t = next_free s + zlen ds) by by rewrite H6.
  set (t' := set_node _ _ _). assert (Hold : forall q, q < next_free t -> nodes t' !! q = nodes t !! q) by (intros q Hq; cbn; by rewrite !lookup_insert_ne by lia).
  pose proof (zlen_nonneg ds). assert (Hcs : forall c, c ∈ dn ++ chunk ++ rest -> stx_rep (nodes s) l c /\ forall q, q ∈ tptrs l c -> q < next_free s).
  { intros c Hc. pose proof (hp_rep _ _ _ Hh) as Hrep. rewrite Forall_forall in Hrep. split; [by apply Hrep|]. intros q Hq. apply (hp_fresh _ _ _ Hh q), fptrs_elem. by exists c. }
  assert (Hnew : nodes t' !! next_free t = Some (SInner nd)) by apply lookup_insert_eq. constructor.
  - apply Forall_app. split.
    + rewrite Forall_forall in H1 |- *. intros d Hd. eapply stx_rep_ext; [|by apply H1]. intros q Hq. apply Hold. pose proof (H1 d Hd) as Hrd.
      destruct d as [|p ks' cs']; [done|]. rewrite tptrs_inner in Hq. apply elem_of_cons in Hq as [->|Hq].
      * assert (Hp : p ∈ tptr <$> ds) by (apply list_elem_of_fmap; by exists (TInner p ks' cs')). rewrite H3 in Hp. apply list_elem_of_fmap in Hp as (j & -> & Hj%elem_of_seq). unfold zlen in *. lia.
      * apply fptrs_elem in Hq as (c & Hc & Hq). destruct (Hcs c) as [_ Hlt]; [|specialize (Hlt q Hq); lia].
        rewrite <-H2. apply elem_of_app. left. apply list_elem_of_In, in_concat. exists cs'. split; [|by apply list_elem_of_In]. apply list_elem_of_In, list_elem_of_fmap. by exists (TInner p ks' cs').
    + repeat constructor. exists nd. split; [done|]. split; [done|]. split; [done|]. rewrite Forall_forall. intros c Hc. destruct (Hcs c) as [Hrc Hlt]; [rewrite !elem_of_app; tauto|].
      eapply stx_rep_ext; [|exact Hrc]. intros q Hq. specialize (Hlt q Hq). rewrite Hold by lia. apply H4. lia.
  - rewrite fmap_app, concat_app, H2. cbn. by rewrite app_nil_r.
  - rewrite fmap_app, H3, length_app, seq_app, fmap_app. cbn. f_equal. f_equal. unfold zlen in Hnf. lia.
  - intros q Hq. rewrite Hold by lia. by apply H4.
  - intros q. destruct (decide (q = next_free t)) as [->|Hne]; [right; cbn; lia|]. cbn. rewrite !lookup_insert_ne by done. intros [?|?]%H5; [by left|right; lia].
  - assert (Hf : m_root t = m_root s /\ m_headleaf t = m_headleaf s /\ m_tailleaf t = m_tailleaf s /\ itemcount t = itemcount s /\ leaves t = leaves s /\
      innernodes t = innernodes s + zlen ds /\ links t = links s) by by rewrite H6.
    destruct Hf as (F1 & F2 & F3 & F4 & F5 & F6 & F7). rewrite zlen_app. change (zlen [TInner (next_free t) ks chunk]) with 1. unfold t', set_node. cbn. f_equal; try done; lia.
Qed.

Lemma fleaves_parents h l ds : Forall (stx_rep h (S l)) ds -> fleaves (S l) ds = fleaves l (concat (kids_of <$> ds)) /\
  finners (S l) ds ≡ₚ (tptr <$> ds) ++ finners l (concat (kids_of <$> ds)).
Proof.
  induction ds as [|d ds IH]; intros H; [done|]. apply Forall_cons in H as [Hd H]. destruct (IH H) as [E1 E2]. destruct d as [|p ks cs]; [done|].
  rewrite fleaves_cons, finners_cons. cbn [fmap list_fmap concat tptr kids_of]. rewrite fleaves_app, finners_app, E1, E2. split; [done|].
  cbn [tinners]. fold (finners l cs). cbn [app]. solve_Permutation.
Qed.

(** All children have a parent: a heap of the next level. *)
Lemma parents_heap s t l cs ds : parents s t l cs ds -> stx_heap s l cs -> stx_heap t (S l) ds.
Proof.
  intros [H1 H2 H3 H4 H5 H6] [G1 G2 G0 G3 G4 G5 G6 G7 G8 G9]. destruct (fleaves_parents _ _ _ H1) as [El Ei]. rewrite H2 in El, Ei.
  assert (Ep : fpairs (S l) ds = fpairs l cs) by (unfold fpairs; by rewrite El).
  assert (Hperm : fptrs (S l) ds ≡ₚ (tptr <$> ds) ++ fptrs l cs) by (unfold fptrs; rewrite El, Ei; solve_Permutation).
  assert (Hnew : forall q, q ∈ tptr <$> ds <-> next_free s <= q < next_free s + zlen ds).
  { intros q. rewrite H3, list_elem_of_fmap. unfold zlen. split; [intros (j & -> & Hj%elem_of_seq); lia|]. intros Hq. exists (Z.to_nat (q - next_free s)). rewrite elem_of_seq. lia. }
  pose proof (zlen_nonneg ds). assert (Hnf : next_free t = next_free s + zlen ds) by by rewrite H6. constructor.
  - done.
  - rewrite Hperm. apply NoDup_app. split; [|split; [|done]].
    + rewrite H3. apply NoDup_fmap_2; [intros x y; lia|apply NoDup_seq].
    + intros q Hq%Hnew Hq'. specialize (G3 q Hq'). lia.
  - lia.
  - intros q. rewrite Hperm, elem_of_app, Hnew, Hnf. intros [Hq|Hq]; [lia|]. specialize (G3 q Hq). lia.
  - intros q Hq. rewrite Hperm, elem_of_app, Hnew, <-Hnf. destruct (H5 q Hq) as [Hq'|?]; [right; by apply G4|by left].
  - rewrite El. apply (linked_fields s); [by rewrite H6..|done].
  - by rewrite Ep.
  - rewrite Ep, H6. done.
  - rewrite El, H6. done.
  - rewrite H6. cbn. rewrite G9. assert (Hz : zlen (finners (S l) ds) = zlen ((tptr <$> ds) ++ finners l cs)) by (unfold zlen; by rewrite Ei). rewrite Hz, zlen_app, zlen_fmap. lia.
Qed.

(** ** Filling an inner node *)

(** The first children with the keys to their right are in place. *)
Record part (nd : inner_node) (level slotuse : Z) (xs : list (Z * Z)) : Prop := {
  pt_level : ilevel nd = level;
  pt_use : islotuse nd = slotuse;
  pt_key : cells innerslotmax (islotkey nd) xs.*2;
  pt_child : cells (innerslotmax + 1) (childid nd) xs.*1
}.

Lemma put_child_spec nd level slotuse xs c k : part nd level slotuse xs -> zlen xs < innerslotmax ->
  exists nd', put_child nd (zlen xs) k c = Some nd' /\ part nd' level slotuse (xs ++ [(c, k)]).
Proof.
  intros [Hl Hu Hk Hc] Hlt. unfold put_child. destruct (cells_push _ _ _ k Hk) as (keys & Ek & Hk'); [by rewrite zlen_fmap|]. destruct (cells_push _ _ _ c Hc) as (kids & Ec & Hc'); [rewrite zlen_fmap; lia|].
  rewrite zlen_fmap in Ek, Ec. rewrite Ek. cbn [mbind option_bind]. rewrite Ec. cbn [mbind option_bind]. eexists. split; [done|]. constructor; cbn; [done|done|by rewrite fmap_app..].
Qed.

Lemma put_last_child_spec nd level xs c : part nd level (zlen xs) xs -> zlen xs <= innerslotmax ->
  exists nd', put_last_child nd c = Some nd' /\ ilevel nd' = level /\ stx_inner_rep nd' xs.*2 (xs.*1 ++ [c]).
Proof.
  intros [Hl Hu Hk Hc] Hlt. unfold put_last_child. rewrite Hu. destruct (cells_push _ _ _ c Hc) as (kids & Ec & Hc'); [rewrite zlen_fmap; lia|]. rewrite zlen_fmap in Ec. rewrite Ec. cbn [mbind option_bind].
  eexists. split; [done|]. split; [done|]. constructor; cbn; [by rewrite zlen_fmap|done|done|]. rewrite zlen_app, !zlen_fmap. done.
Qed.

Lemma part_new level slotuse : part (mkInnerNode level slotuse (islotkey (new_inner_node level)) (childid (new_inner_node level))) level slotuse [].
Proof. by repeat split. Qed.

(** ** One level *)

Definition maxkey (l : nat) (c : btree) : Z := default 0 (last (tkeys l c)).

Lemma last_maxkey l c : stx_wf 8 l c -> last (tkeys l c) = Some (maxkey l c).
Proof.
  intros H%wf_nonempty; [|lia]. unfold maxkey. destruct (last (tkeys l c)) eqn:E; [done|]. by apply last_None, fmap_nil_inv in E.
Qed.

Lemma exact_maxkeys l ci c : Forall (stx_wf 8 l) ci -> exact l (maxkey l <$> ci) (ci ++ [c]).
Proof. induction 1 as [|d ci Hd _ IH]; [done|]. cbn. split; [by apply last_maxkey|exact IH]. Qed.

(** The address of the greatest key. *)
Definition max_at (h : gmap Z stx_node) (l : nat) (c : btree) (mp : Z * Z) : Prop :=
  exists leaf, h !! mp.1 = Some (SLeaf leaf) /\ cell (lslotkey leaf) mp.2 = Some (maxkey l c).

(** [nl] holds the nodes [cs] from index [off] on. *)
Definition entries (h : gmap Z stx_node) (nl : list (Z * (Z * Z))) (off : Z) (l : nat) (cs : list btree) : Prop :=
  forall j c, cs !! j = Some c -> exists mp, nl.[off + Z.of_nat j] = Some (tptr c, mp) /\ max_at h l c mp.

Lemma entries_app h nl off l a b : entries h nl off l (a ++ b) -> entries h nl off l a /\ entries h nl (off + zlen a) l b.
Proof.
  intros H. split.
  - intros j c Hj. apply H. by apply lookup_app_l_Some.
  - intros j c Hj. destruct (H (length a + j)%nat c) as (mp & E & Hm); [rewrite lookup_app_r by lia; by replace (length a + j - length a)%nat with j by lia|].
    exists mp. split; [|done]. rewrite <-E. f_equal. unfold zlen. lia.
Qed.

Lemma entries_wr h nl nl' off l cs i e : wr nl i e = Some nl' -> i < off \/ off + zlen cs <= i -> entries h nl off l cs -> entries h nl' off l cs.
Proof.
  intros Hw Hi H j c Hj. destruct (H j c Hj) as (mp & E & Hm). exists mp. split; [|done]. rewrite (rd_wr _ _ _ _ _ Hw). apply lookup_lt_Some in Hj.
  rewrite (proj2 (Z.eqb_neq _ _)); [done|]. unfold zlen in Hi. lia.
Qed.

Lemma entries_snoc h nl l ds d mp : entries h nl 0 l ds -> nl.[zlen ds] = Some (tptr d, mp) -> max_at h l d mp -> entries h nl 0 l (ds ++ [d]).
Proof.
  intros H E Hm j c Hj. destruct (decide (j < length ds)%nat) as [Hlt|Hge].
  - rewrite lookup_app_l in Hj by done. by apply H.
  - rewrite lookup_app_r in Hj by lia. apply list_lookup_singleton_Some in Hj as [Hj <-]. exists mp. split; [|done]. rewrite <-E. f_equal. unfold zlen. lia.
Qed.

(** The node above [ci] and [c] once its keys are in place. *)
Definition children_of (l : nat) (ci : list btree) : list (Z * Z) := (fun c => (tptr c, maxkey l c)) <$> ci.

Lemma children_of_fst l ci c : (children_of l ci).*1 ++ [tptr c] = tptr <$> (ci ++ [c]).
Proof. unfold children_of. by rewrite fmap_app, <-list_fmap_compose. Qed.

Lemma children_of_snd l ci : (children_of l ci).*2 = maxkey l <$> ci.
Proof. unfold children_of. by rewrite <-list_fmap_compose. Qed.

Lemma fill_upper t nl idx level l ci c : entries (nodes t) nl idx l (ci ++ [c]) -> zlen ci <= innerslotmax ->
  exists nd, for_up 0 (zlen ci) (fun s '(nd, inner_index) =>
      c ← nl.[inner_index];
      ln ← get_leaf t c.2.1;
      k ← cell (lslotkey ln) c.2.2;
      nd ← put_child nd s k c.1;
      Some (nd, inner_index + 1)) (mkInnerNode level (zlen ci) (islotkey (new_inner_node level)) (childid (new_inner_node level)), idx) = Some (nd, idx + zlen ci) /\
    part nd level (zlen ci) (children_of l ci).
Proof.
  intros He Hl. match goal with |- context [for_up 0 _ ?b ?s0] =>
    destruct (for_up_spec (fun s '(nd, ii) => ii = idx + s /\ part nd level (zlen ci) (children_of l (take (Z.to_nat s) ci))) b 0 (zlen ci) s0) as ([nd ii] & -> & -> & Hp) end.
  - apply zlen_nonneg.
  - split; [lia|apply part_new].
  - intros s [nd ii] Hs [-> Hp]. destruct (cut_at ci s Hs) as (xs & d & ys & -> & Hx). rewrite take_at in Hp by done.
    destruct (He (length xs) d) as (mp & E & leaf & Hleaf & Hk); [rewrite <-app_assoc; by apply list_lookup_middle|]. replace (Z.of_nat (length xs)) with s in E by (unfold zlen in Hx; lia). rewrite E. cbn [mbind option_bind fst snd].
    rewrite (get_leaf_lookup _ _ _ Hleaf). cbn [mbind option_bind]. rewrite Hk. cbn [mbind option_bind].
    assert (Hz : zlen (children_of l xs) = s) by (unfold children_of; by rewrite zlen_fmap). destruct (put_child_spec nd level _ _ (tptr d) (maxkey l d) Hp) as (nd' & En & Hp'); [rewrite zlen_app, zlen_cons in *; pose proof (zlen_nonneg ys); lia|].
    rewrite Hz in En. rewrite En. cbn [mbind option_bind]. eexists. split; [done|]. split; [lia|]. rewrite take_snoc_at by done. unfold children_of in *. by rewrite fmap_app.
  - exists nd. split; [done|]. by rewrite take_all_at in Hp by lia.
Qed.

Lemma fill_level1 t nl level (cs1 : list btree) ci c cs2 prev next : chain (links t) prev (tptr <$> (cs1 ++ (ci ++ [c]) ++ cs2)) next ->
  (forall d, d ∈ ci -> exists leaf, nodes t !! tptr d = Some (SLeaf leaf) /\ cell (lslotkey leaf) (lslotuse leaf - 1) = Some (maxkey 0 d)) -> zlen ci <= innerslotmax -> nl = hd 0 (tptr <$> (ci ++ [c])) ->
  exists nd, for_up 0 (zlen ci) (fun s '(nd, leaf) =>
      ln ← get_leaf t leaf;
      k ← cell (lslotkey ln) (lslotuse ln - 1);
      nd ← put_child nd s k leaf;
      l ← links t !! leaf;
      Some (nd, nextleaf l)) (mkInnerNode level (zlen ci) (islotkey (new_inner_node level)) (childid (new_inner_node level)), nl) = Some (nd, tptr c) /\
    part nd level (zlen ci) (children_of 0 ci).
Proof.
  intros Hc He Hl ->. match goal with |- context [for_up 0 _ ?b ?s0] =>
    destruct (for_up_spec (fun s '(nd, leaf) => leaf = hd 0 (tptr <$> (drop (Z.to_nat s) ci ++ [c])) /\ part nd level (zlen ci) (children_of 0 (take (Z.to_nat s) ci))) b 0 (zlen ci) s0) as ([nd lf] & -> & -> & Hp) end.
  - apply zlen_nonneg.
  - split; [done|apply part_new].
  - intros s [nd lf] Hs [-> Hp]. destruct (cut_at ci s Hs) as (xs & d & ys & -> & Hx). rewrite take_at in Hp by done. rewrite drop_at by done. cbn [app fmap list_fmap hd].
    destruct (He d) as (leaf & Hleaf & Hk); [apply elem_of_app; right; constructor|]. rewrite (get_leaf_lookup _ _ _ Hleaf). cbn [mbind option_bind]. rewrite Hk. cbn [mbind option_bind].
    assert (Hz : zlen (children_of 0 xs) = s) by (unfold children_of; by rewrite zlen_fmap). destruct (put_child_spec nd level _ _ (tptr d) (maxkey 0 d) Hp) as (nd' & En & Hp'); [rewrite zlen_app, zlen_cons in *; pose proof (zlen_nonneg ys); lia|].
    rewrite Hz in En. rewrite En. cbn [mbind option_bind].
    replace (cs1 ++ ((xs ++ d :: ys) ++ [c]) ++ cs2) with ((cs1 ++ xs) ++ d :: (ys ++ [c]) ++ cs2) in Hc by (by rewrite <-!app_assoc). rewrite fmap_app, fmap_cons in Hc.
    rewrite (chain_lookup _ _ _ _ _ _ Hc). cbn [mbind option_bind nextleaf]. eexists. split; [done|]. split.
    + replace (xs ++ d :: ys) with ((xs ++ [d]) ++ ys) by by rewrite <-app_assoc. rewrite drop_at by (by rewrite zlen_app, Hx). rewrite fmap_app, hd_app. by destruct ys.
    + rewrite take_snoc_at by done. unfold children_of in *. by rewrite fmap_app.
  - exists nd. rewrite drop_all_at by lia. split; [done|]. by rewrite take_all_at in Hp by lia.
Qed.

(** The state of a level after [i] nodes. *)
Record level_inv (s : Stx) (l : nat) (cs : list btree) (P lo i : Z) (dn rest ds : list btree) (t : Stx) (num : Z) (nl : list (Z * (Z * Z))) : Prop := {
  lv_cs : cs = dn ++ rest;
  lv_par : parents s t l dn ds;
  lv_num : num = zlen rest;
  lv_ds : zlen ds = i;
  lv_bounds : lo * (P - i) <= zlen rest <= 17 * (P - i);
  lv_wf : Forall (stx_wf (lo - 1) (S l)) ds;
  lv_entries : entries (nodes s) nl 0 (S l) ds
}.

(** The children of the next node. *)
Lemma next_chunk s l cs P lo i dn rest ds t num nl : level_inv s l cs P lo i dn rest ds t num nl -> 0 <= i < P -> 2 <= lo ->
  exists ci c rest', rest = (ci ++ [c]) ++ rest' /\ zlen ci = num / (P - i) - 1 /\ lo - 1 <= zlen ci <= 16 /\ lo * (P - (i + 1)) <= zlen rest' <= 17 * (P - (i + 1)).
Proof.
  intros [_ _ -> _ Hb _ _] Hi Hlo. destruct (share lo 17 (P - i) (zlen rest) ltac:(lia) Hb) as [Hq Hr]. set (q := zlen rest / (P - i)) in *. pose proof (zlen_nonneg rest).
  assert (Hqr : q <= zlen rest) by (unfold q; apply Z.div_le_upper_bound; nia). destruct (stx_split_at rest q ltac:(lia)) as (a & rest' & -> & Ha & Hr').
  destruct a as [|c ci _] using rev_ind; [change (zlen (@nil btree)) with 0 in Ha; lia|]. rewrite zlen_app in Ha. change (zlen [c]) with 1 in Ha. exists ci, c, rest'. split; [done|]. split; [lia|]. split; [lia|].
  replace (P - (i + 1)) with (P - i - 1) by lia. lia.
Qed.

Lemma maxkey_last l p ks ci c : stx_wf 8 l c -> maxkey (S l) (TInner p ks (ci ++ [c])) = maxkey l c.
Proof.
  intros Hw. unfold maxkey. f_equal. unfold tkeys. rewrite tpairs_inner, fpairs_app, fpairs_one, fmap_app, last_app. fold (tkeys l c). by rewrite (last_maxkey l c Hw).
Qed.

Lemma level_step s l cs P lo i dn ci c rest' ds t num nl nl' nd mp : level_inv s l cs P lo i dn ((ci ++ [c]) ++ rest') ds t num nl -> stx_heap s l cs -> Forall (stx_wf 8 l) cs ->
  lo - 1 <= zlen ci -> lo * (P - (i + 1)) <= zlen rest' <= 17 * (P - (i + 1)) ->
  ilevel nd = Z.of_nat (S l) -> stx_inner_rep nd (maxkey l <$> ci) (tptr <$> (ci ++ [c])) -> wr nl i (next_free t, mp) = Some nl' -> max_at (nodes s) l c mp ->
  level_inv s l cs P lo (i + 1) (dn ++ (ci ++ [c])) rest' (ds ++ [TInner (next_free t) (maxkey l <$> ci) (ci ++ [c])])
    (set_node (allocate_inner t (Z.of_nat (S l))).1 (next_free t) (SInner nd)) (num - (zlen ci + 1)) nl'.
Proof.
  intros [Ecs Hpar -> Hds Hb Hwf Hent] Hh Hw Hci Hb' Hl Hr Hwr Hm. rewrite Ecs in Hw. apply Forall_app in Hw as [_ Hw]. apply Forall_app in Hw as [Hw _]. apply Forall_app in Hw as [Hwi Hwc].
  apply Forall_cons in Hwc as [Hwc _]. constructor.
  - by rewrite Ecs, !app_assoc.
  - rewrite Ecs in Hh. by apply parents_add with rest'.
  - rewrite zlen_app, zlen_app. change (zlen [c]) with 1. lia.
  - rewrite zlen_app. change (zlen [TInner _ _ _]) with 1. lia.
  - done.
  - apply Forall_app. split; [done|]. constructor; [|constructor]. cbn [stx_wf]. rewrite zlen_fmap. split; [done|]. split; [by apply exact_maxkeys|]. apply Forall_app. split; [done|]. by repeat constructor.
  - apply entries_snoc with mp.
    + eapply entries_wr; [exact Hwr|lia|done].
    + rewrite (rd_wr _ _ _ _ _ Hwr), Hds, Z.eqb_refl. done.
    + destruct Hm as (leaf & H1 & H2). exists leaf. split; [done|]. by rewrite maxkey_last.
Qed.

Lemma allocated_old s t l dn ds level q : parents s t l dn ds -> q < next_free s -> nodes (allocate_inner t level).1 !! q = nodes s !! q.
Proof.
  intros Hp Hq. pose proof (pa_fields _ _ _ _ _ Hp) as Hf. assert (Hnf : next_free t = next_free s + zlen ds) by by rewrite Hf. pose proof (zlen_nonneg ds).
  cbn. rewrite lookup_insert_ne by lia. by apply (pa_old _ _ _ _ _ Hp).
Qed.

Lemma max_at_old s t l cs c mp : stx_heap s l cs -> (forall q, q < next_free s -> nodes t !! q = nodes s !! q) -> max_at (nodes s) l c mp -> max_at (nodes t) l c mp.
Proof.
  intros Hh Hold (leaf & Hl & Hk). exists leaf. split; [|done]. rewrite Hold; [done|]. apply (hp_fresh _ _ _ Hh). apply (hp_dom _ _ _ Hh). by eexists.
Qed.

Lemma entries_old s t nl off l l' cs ds : stx_heap s l cs -> (forall q, q < next_free s -> nodes t !! q = nodes s !! q) -> entries (nodes s) nl off l' ds -> entries (nodes t) nl off l' ds.
Proof.
  intros Hh Hold H j c Hj. destruct (H j c Hj) as (mp & E & leaf & Hl & Hk). exists mp. split; [done|]. exists leaf. split; [|done]. rewrite Hold; [done|].
  apply (hp_fresh _ _ _ Hh). apply (hp_dom _ _ _ Hh). by eexists.
Qed.

(** How a level ends. *)
Definition level_done (s t : Stx) (l : nat) (cs ds : list btree) (nl : list (Z * (Z * Z))) : Prop :=
  stx_heap t (S l) ds /\ Forall (stx_wf (least 1 8 (zlen ds)) (S l)) ds /\ zlen ds = ceil_div (zlen cs) 17 /\ entries (nodes t) nl 0 (S l) ds /\ fleaves (S l) ds = fleaves l cs.

Lemma level_inv_done s l cs dn rest ds t num nl : level_inv s l cs (ceil_div (zlen cs) 17) (least 2 9 (ceil_div (zlen cs) 17)) (ceil_div (zlen cs) 17) dn rest ds t num nl -> stx_heap s l cs ->
  level_done s t l cs ds nl.
Proof.
  intros [Ecs Hpar _ Hds Hb Hwf Hent] Hh. assert (rest = []) as -> by (destruct rest; [done|rewrite zlen_cons in Hb; pose proof (zlen_nonneg rest); lia]). rewrite app_nil_r in Ecs. subst dn.
  split; [by eapply parents_heap|]. split; [|split; [done|split]].
  - rewrite Hds. unfold least in *. destruct (ceil_div (zlen cs) 17 =? 1); exact Hwf.
  - eapply entries_old; [exact Hh|apply (pa_old _ _ _ _ _ Hpar)|done].
  - destruct (fleaves_parents _ _ _ (pa_rep _ _ _ _ _ Hpar)) as [E _]. by rewrite (pa_kids _ _ _ _ _ Hpar) in E.
Qed.

(** The number of parents. *)
Lemma parents_count n : 2 <= n -> 0 < ceil_div n 17 < n /\ 2 <= least 2 9 (ceil_div n 17) /\ least 2 9 (ceil_div n 17) * ceil_div n 17 <= n <= 17 * ceil_div n 17.
Proof.
  intros Hn. destruct (ceil_div_bounds n 17 ltac:(lia) ltac:(lia)) as [Hb|[? _]]; [|lia]. unfold least. destruct (Z.eqb_spec (ceil_div n 17) 1); lia.
Qed.

Lemma level_inv_start s l cs nl : 2 <= zlen cs -> level_inv s l cs (ceil_div (zlen cs) 17) (least 2 9 (ceil_div (zlen cs) 17)) 0 [] cs [] s (zlen cs) nl.
Proof.
  intros Hn. destruct (parents_count _ Hn) as (_ & _ & Hb). constructor; try done; [apply parents_none|by rewrite Z.sub_0_r].
Qed.

Lemma load_level_spec s l cs nl : stx_heap s l cs -> Forall (stx_wf 8 l) cs -> 2 <= zlen cs -> entries (nodes s) nl 0 l cs -> zlen cs <= zlen nl ->
  exists t ds nl', load_level s (Z.of_nat (S l)) (zlen cs) nl = Some (t, zlen ds, nl') /\ level_done s t l cs ds nl' /\ zlen nl' = zlen nl.
Proof.
  intros Hh Hw Hn He Hl. unfold load_level. change (innerslotmax + 1) with 17. destruct (parents_count _ Hn) as (HP & Hlo & _). pose proof (level_inv_start s l cs nl Hn) as Hst.
  set (P := ceil_div (zlen cs) 17) in *. set (lo := least 2 9 P) in *.
  match goal with |- context [for_up 0 P ?b ?s0] =>
    destruct (for_up_spec (fun i '(t, idx, num, nl') => exists dn rest ds, level_inv s l cs P lo i dn rest ds t num nl' /\ idx = zlen dn /\ zlen nl' = zlen nl /\ entries (nodes s) nl' idx l rest /\ i <= zlen dn)
      b 0 P s0) as ([[[t idx] num] nl'] & -> & dn & rest & ds & Hinv & _ & Hnl & _) end; [lia| | |].
  - exists [], cs, []. split; [done|]. by repeat (split; [done|]).
  - intros i [[[t idx] num] nl'] Hi (dn & rest & ds & Hinv & -> & Hnl & Hent & Hid).
    destruct (next_chunk _ _ _ _ _ _ _ _ _ _ _ _ Hinv Hi Hlo) as (ci & c & rest' & -> & Huse & Hci & Hb). rewrite <-Huse.
    pose proof (lv_par _ _ _ _ _ _ _ _ _ _ _ _ Hinv) as Hpar. pose proof (entries_app _ _ _ _ _ _ Hent) as [Hent1 Hent2].
    assert (Hcsl : zlen cs = zlen dn + (zlen ci + 1 + zlen rest')) by (rewrite (lv_cs _ _ _ _ _ _ _ _ _ _ _ _ Hinv), !zlen_app; change (zlen [c]) with 1; lia). pose proof (zlen_nonneg rest').
    destruct (fill_upper (allocate_inner t (Z.of_nat (S l))).1 nl' (zlen dn) (Z.of_nat (S l)) l ci c) as (nd & E & Hp); [|change innerslotmax with 16; lia|].
    { eapply entries_old; [exact Hh| |exact Hent1]. intros q Hq. by eapply allocated_old. }
    cbn [allocate_inner fst snd] in E |- *. rewrite E. cbn [mbind option_bind].
    destruct (Hent1 (length ci) c) as (mp & Emp & Hmp); [by apply list_lookup_middle|]. change (Z.of_nat (length ci)) with (zlen ci) in Emp. rewrite Emp. cbn [mbind option_bind fst snd].
    assert (Hz : zlen (children_of l ci) = zlen ci) by (unfold children_of; by rewrite zlen_fmap). rewrite <-Hz in Hp. destruct (put_last_child_spec nd _ _ (tptr c) Hp) as (nd' & -> & Hlev & Hrep); [rewrite Hz; change innerslotmax with 16; lia|]. cbn [mbind option_bind].
    destruct (wr_in nl' i (next_free t, mp)) as [nl2 Hwr]; [lia|]. rewrite Hwr. cbn [mbind option_bind]. eexists. split; [done|].
    rewrite children_of_fst, children_of_snd in Hrep. exists (dn ++ (ci ++ [c])), rest', (ds ++ [TInner (next_free t) (maxkey l <$> ci) (ci ++ [c])]).
    split; [apply (level_step s l cs P lo i dn ci c rest' ds t num nl' nl2 nd' mp); try done; lia|].
    assert (Hdn : zlen (dn ++ (ci ++ [c])) = zlen dn + (zlen ci + 1)) by (rewrite !zlen_app; change (zlen [c]) with 1; lia). split; [lia|]. split; [by rewrite (zlen_wr _ _ _ _ Hwr)|]. split; [|lia].
    eapply entries_wr; [exact Hwr|lia|]. rewrite zlen_app in Hent2. change (zlen [c]) with 1 in Hent2. by replace (zlen dn + zlen ci + 1) with (zlen dn + (zlen ci + 1)) by lia.
  - cbn [mbind option_bind]. exists t, ds, nl'. rewrite (lv_ds _ _ _ _ _ _ _ _ _ _ _ _ Hinv). split; [done|]. split; [|done]. by eapply level_inv_done.
Qed.

(** The greatest key of a leaf is its last one. *)
Lemma leaf_max s cs c : stx_heap s 0 cs -> Forall (stx_wf 8 0) cs -> c ∈ cs -> exists leaf, nodes s !! tptr c = Some (SLeaf leaf) /\ cell (lslotkey leaf) (lslotuse leaf - 1) = Some (maxkey 0 c).
Proof.
  intros Hh Hw Hc. pose proof (hp_rep _ _ _ Hh) as Hr. rewrite Forall_forall in Hr, Hw. specialize (Hr c Hc). specialize (Hw c Hc). pose proof (last_maxkey 0 c Hw) as Hl. destruct c as [p es|]; [|done].
  destruct Hr as (leaf & Hn & [Hu Hk _]). exists leaf. split; [done|]. unfold tkeys in Hl. rewrite tpairs_leaf in Hl. rewrite Hu. rewrite last_lookup in Hl.
  assert (Hne : length es <> O) by (cbn in Hw; unfold zlen in Hw; lia). apply (cells_cell _ _ _ _ _ Hk); [unfold zlen; lia|]. rewrite length_fmap in Hl. rewrite <-Hl. f_equal. unfold zlen. lia.
Qed.

Lemma leaf_ptrs cs : Forall (fun c => exists p es, c = TLeaf p es) cs -> (fleaves 0 cs).*1 = tptr <$> cs.
Proof. induction 1 as [|c cs (p & es & ->) _ IH]; [done|]. cbn [fmap list_fmap]. by rewrite fleaves_cons, fmap_app, IH. Qed.

Lemma load_level1_spec s cs : stx_heap s 0 cs -> Forall (stx_wf 8 0) cs -> 2 <= zlen cs ->
  exists t ds nl', load_level1 s (zlen cs) = Some (t, zlen ds, nl') /\ level_done s t 0 cs ds nl' /\ zlen nl' = zlen ds.
Proof.
  intros Hh Hw Hn. unfold load_level1. change (innerslotmax + 1) with 17. destruct (parents_count _ Hn) as (HP & Hlo & _). set (nl := replicate _ _). pose proof (level_inv_start s 0 cs nl Hn) as Hst.
  set (P := ceil_div (zlen cs) 17) in *. set (lo := least 2 9 P) in *. assert (Hnl0 : zlen nl = P) by (unfold nl; rewrite zlen_replicate; lia).
  assert (Hlv : (fleaves 0 cs).*1 = tptr <$> cs).
  { apply leaf_ptrs. pose proof (hp_rep _ _ _ Hh) as Hr. eapply Forall_impl; [exact Hr|]. intros [p es|]; [|done]. by exists p, es. }
  pose proof (hp_linked _ _ _ Hh) as [Hc Hhd _]. rewrite Hlv in Hc, Hhd.
  match goal with |- context [for_up 0 P ?b ?s0] =>
    destruct (for_up_spec (fun i '(t, leaf, num, nl') => exists dn rest ds, level_inv s 0 cs P lo i dn rest ds t num nl' /\ leaf = hd 0 (tptr <$> rest) /\ zlen nl' = P)
      b 0 P s0) as ([[[t leaf] num] nl'] & -> & dn & rest & ds & Hinv & _ & Hnl) end; [lia| | |].
  - exists [], cs, []. split; [done|]. by split.
  - intros i [[[t leaf] num] nl'] Hi (dn & rest & ds & Hinv & -> & Hnl).
    destruct (next_chunk _ _ _ _ _ _ _ _ _ _ _ _ Hinv Hi Hlo) as (ci & c & rest' & -> & Huse & Hci & Hb). rewrite <-Huse.
    pose proof (lv_par _ _ _ _ _ _ _ _ _ _ _ _ Hinv) as Hpar. pose proof (lv_cs _ _ _ _ _ _ _ _ _ _ _ _ Hinv) as Ecs. rewrite Ecs in Hc. pose proof (pa_fields _ _ _ _ _ Hpar) as Hf.
    assert (Hlinks : links t = links s) by by rewrite Hf. assert (Hmax : forall d, d ∈ cs -> exists leaf, nodes s !! tptr d = Some (SLeaf leaf) /\ cell (lslotkey leaf) (lslotuse leaf - 1) = Some (maxkey 0 d)) by (intros d Hd; by eapply leaf_max).
    assert (Hmax' : forall d, d ∈ cs -> exists leaf, nodes (allocate_inner t 1).1 !! tptr d = Some (SLeaf leaf) /\ cell (lslotkey leaf) (lslotuse leaf - 1) = Some (maxkey 0 d)).
    { intros d Hd. destruct (Hmax d Hd) as (lf & Hlf & Hk). exists lf. split; [|done]. rewrite (allocated_old _ _ _ _ _ _ _ Hpar); [done|]. apply (hp_fresh _ _ _ Hh), (hp_dom _ _ _ Hh). by eexists. }
    destruct (fill_level1 (allocate_inner t 1).1 (hd 0 (tptr <$> (ci ++ [c]))) 1 dn ci c rest' 0 0) as (nd & E & Hp); [cbn; by rewrite Hlinks| |change innerslotmax with 16; lia|done|].
    { intros d Hd. apply Hmax'. rewrite Ecs, !elem_of_app. tauto. }
    assert (Hhd2 : hd 0 (tptr <$> (ci ++ [c]) ++ rest') = hd 0 (tptr <$> (ci ++ [c]))) by (by destruct ci). rewrite Hhd2.
    cbn [allocate_inner fst snd] in E |- *. rewrite E. cbn [mbind option_bind].
    assert (Hz : zlen (children_of 0 ci) = zlen ci) by (unfold children_of; by rewrite zlen_fmap). rewrite <-Hz in Hp. destruct (put_last_child_spec nd _ _ (tptr c) Hp) as (nd' & -> & Hlev & Hrep); [rewrite Hz; change innerslotmax with 16; lia|]. cbn [mbind option_bind].
    assert (Hcin : c ∈ cs) by (rewrite Ecs, !elem_of_app; right; left; right; constructor). destruct (Hmax c Hcin) as (lf & Hlf & Hk). destruct (Hmax' c Hcin) as (lf' & Hlf' & Hk').
    assert (Hne : tptr c <> next_free t).
    { pose proof (zlen_nonneg ds). assert (Hnf : next_free t = next_free s + zlen ds) by by rewrite Hf. assert (0 < tptr c < next_free s) by (apply (hp_fresh _ _ _ Hh), (hp_dom _ _ _ Hh); by eexists). lia. }
    rewrite get_leaf_set_ne by done. unfold get_leaf. cbn [nodes]. cbn [allocate_inner fst nodes] in Hlf'. rewrite Hlf'. cbn [mbind option_bind].
    destruct (wr_in nl' i (next_free t, (tptr c, lslotuse lf' - 1))) as [nl2 Hwr]; [lia|]. rewrite Hwr. cbn [mbind option_bind links set_node]. rewrite Hlinks.
    replace (dn ++ (ci ++ [c]) ++ rest') with ((dn ++ ci) ++ c :: rest') in Hc by (by rewrite <-!app_assoc). rewrite fmap_app, fmap_cons in Hc. rewrite (chain_lookup _ _ _ _ _ _ Hc). cbn [mbind option_bind nextleaf]. eexists. split; [done|].
    rewrite children_of_fst, children_of_snd in Hrep. exists (dn ++ (ci ++ [c])), rest', (ds ++ [TInner (next_free t) (maxkey 0 <$> ci) (ci ++ [c])]).
    split; [|split; [done|by rewrite (zlen_wr _ _ _ _ Hwr)]].
    rewrite <-Hlinks. apply (level_step s 0 cs P lo i dn ci c rest' ds t num nl' nl2 nd' (tptr c, lslotuse lf' - 1)); try done; [lia|].
    assert (lf' = lf) as ->; [|by exists lf]. rewrite lookup_insert_ne in Hlf' by done. rewrite (pa_old _ _ _ _ _ Hpar) in Hlf'; [congruence|]. apply (hp_fresh _ _ _ Hh), (hp_dom _ _ _ Hh). by eexists.
  - cbn [mbind option_bind]. exists t, ds, nl'. rewrite (lv_ds _ _ _ _ _ _ _ _ _ _ _ _ Hinv). split; [done|]. split; [|done]. by eapply level_inv_done.
Qed.

(** ** The levels above and the root *)

Lemma load_levels_spec s cs nl : stx_heap s 1 cs -> Forall (stx_wf (least 1 8 (zlen cs)) 1) cs -> 1 <= zlen cs -> entries (nodes s) nl 0 1 cs -> zlen cs <= zlen nl ->
  exists t nl' l r mp, load_levels s (zlen cs) nl = Some (t, nl') /\ stx_heap t l [r] /\ stx_wf 1 l r /\ nl'.[0] = Some (tptr r, mp) /\ fleaves l [r] = fleaves 1 cs.
Proof.
  intros Hh Hw Hn He Hl. unfold load_levels.
  match goal with |- context [loop ?f ?b ?s0] =>
    destruct (loop_spec (fun '(t, level, num, nl) => exists l ds, level = Z.of_nat (S l) /\ num = zlen ds /\ stx_heap t l ds /\ Forall (stx_wf (least 1 8 (zlen ds)) l) ds /\ 1 <= zlen ds /\
        entries (nodes t) nl 0 l ds /\ zlen ds <= zlen nl /\ fleaves l ds = fleaves 1 cs)
      (fun '(t, nl') => exists l r mp, stx_heap t l [r] /\ stx_wf 1 l r /\ nl'.[0] = Some (tptr r, mp) /\ fleaves l [r] = fleaves 1 cs)
      (fun '(_, _, num, _) => num) b) with (fuel := f) (s := s0) as ([t nl'] & -> & l & r & mp & H) end.
  - intros [[[t level] num] nl1] (l & ds & -> & -> & Hh1 & Hw1 & Hn1 & He1 & Hl1 & Ep). destruct (Z.eqb_spec (zlen ds) 1) as [E1|N1].
    + destruct ds as [|r [|? ds]]; [done| |rewrite !zlen_cons in E1; pose proof (zlen_nonneg ds); lia]. destruct (He1 O r eq_refl) as (mp & E & _).
      exists l, r, mp. split; [done|]. apply Forall_cons in Hw1 as [Hw1 _]. by split.
    + assert (Hw8 : Forall (stx_wf 8 l) ds) by (unfold least in Hw1; by rewrite (proj2 (Z.eqb_neq _ _) N1) in Hw1).
      destruct (load_level_spec t l ds nl1 Hh1 Hw8 ltac:(lia) He1 Hl1) as (t2 & ds2 & nl2 & -> & (Hh2 & Hw2 & Hz2 & He2 & Ep2) & Hnl2). cbn [mbind option_bind].
      destruct (parents_count (zlen ds) ltac:(lia)) as (Hc & _). split; [|lia]. exists (S l), ds2. split; [lia|]. split; [done|]. split; [done|]. split; [done|]. split; [lia|]. split; [done|]. split; [lia|congruence].
  - by exists 1%nat, cs.
  - lia.
  - lia.
  - exists t, nl', l, r, mp. by split.
Qed.

(** Bulk loading a sorted range into an empty tree: the tree stores exactly the pairs of the range, in as few leaves as possible. *)
Lemma stx_loads s kvs : stx_holds s [] -> m_root s = 0 -> StronglySorted Z.lt kvs.*1 ->
  exists s', bulk_load s kvs = Some s' /\ stx_holds s' kvs /\ leaves s' = ceil_div (zlen kvs) leafslotmax.
Proof.
  unfold stx_holds at 1. intros H E0 Hs. rewrite E0 in H. destruct H as [_ Hh]. unfold bulk_load.
  destruct (load_leaves_spec (set_itemcount s (zlen kvs)) kvs) as (s1 & cs & -> & Hh1 & Ek & Hz & Hw & Er); [|done|done|].
  { eapply heap_fields; [exact Hh|..]; try done. cbn. by destruct Hh as [_ _ _ _ _ _ _ Hi _ _]. }
  cbn [mbind option_bind]. pose proof (hp_linked _ _ _ Hh1) as [_ Hhd Htl]. cbn [m_root set_itemcount] in Er. rewrite E0 in Er.
  assert (Hleaf : (fleaves 0 cs).*1 = tptr <$> cs).
  { apply leaf_ptrs. pose proof (hp_rep _ _ _ Hh1) as Hr. eapply Forall_impl; [exact Hr|]. intros [p es|]; [|done]. by exists p, es. }
  rewrite Hleaf in Hhd, Htl.
  assert (Hlvs : leaves s1 = ceil_div (zlen kvs) leafslotmax) by (rewrite (hp_leaves _ _ _ Hh1), <-(zlen_fmap fst), Hleaf, zlen_fmap; exact Hz).
  destruct cs as [|c [|c2 cs]].
  - rewrite Hhd, Htl, Z.eqb_refl. eexists. split; [done|]. split; [|exact Hlvs]. unfold stx_holds. cbn [m_root set_root fmap list_fmap hd]. rewrite Z.eqb_refl. rewrite <-Ek. split; [done|]. by eapply heap_fields; [exact Hh1|..].
  - rewrite Hhd, Htl, Z.eqb_refl. eexists. split; [done|]. split; [|exact Hlvs]. rewrite <-Ek, fpairs_one. apply stx_ok_holds. split; [by eapply heap_fields; [exact Hh1|..]|done|]. by apply Forall_cons in Hw as [Hw _].
  - set (C := c :: c2 :: cs) in *. assert (Hlen : 2 <= zlen C) by (unfold C; rewrite !zlen_cons; pose proof (zlen_nonneg cs); lia).
    assert (Hne : m_headleaf s1 <> m_tailleaf s1).
    { rewrite Hhd, Htl. pose proof (NoDup_leaves _ _ (hp_nodup _ _ _ Hh1)) as Hnd. rewrite Hleaf in Hnd. unfold C in *. cbn [fmap list_fmap hd] in *. rewrite last_or_cons, last_or_cons.
      apply NoDup_cons in Hnd as [Hnot _]. intros Heq. apply Hnot. rewrite Heq. unfold last_or. destruct (last (tptr <$> cs)) as [x|] eqn:El; cbn; [|constructor].
      apply list_elem_of_further. apply list_elem_of_lookup. exists (pred (length (tptr <$> cs))). by rewrite <-last_lookup. }
    rewrite (proj2 (Z.eqb_neq _ _) Hne), <-Hz. assert (Hw8 : Forall (stx_wf 8 0) C) by (unfold least in Hw; rewrite (proj2 (Z.eqb_neq (zlen C) 1)) in Hw by lia; exact Hw).
    destruct (load_level1_spec s1 C Hh1 Hw8 Hlen) as (t & ds & nl & -> & (Hh2 & Hw2 & Hz2 & He2 & Ep2) & Hnl). cbn [mbind option_bind]. destruct (parents_count (zlen C) Hlen) as (Hc & _).
    destruct (load_levels_spec t ds nl Hh2 Hw2 ltac:(lia) He2 ltac:(lia)) as (t3 & nl3 & l & r & mp & -> & Hh3 & Hw3 & E3 & Ep3). cbn [mbind option_bind]. rewrite E3. cbn [mbind option_bind fst].
    eexists. split; [done|]. rewrite Ep2 in Ep3. split.
    + assert (Ep : fpairs l [r] = kvs) by (unfold fpairs; rewrite Ep3; exact Ek). rewrite fpairs_one in Ep. rewrite <-Ep. apply stx_ok_holds. split; [by eapply heap_fields; [exact Hh3|..]|done|done].
    + cbn [leaves set_root]. rewrite (hp_leaves _ _ _ Hh3), Ep3, <-(hp_leaves _ _ _ Hh1), Hz. exact Hlvs.
Qed.
