(* ===== verification/StxErase.v ===== *)
(** * stx::btree: removal (competitor/btree/src/include/stx/btree.h)

    [erase_one_descend] removes the pair from its leaf.  A node that is no longer half full
    takes pairs or children from a neighbour, or merges with one; its parent then removes
    the emptied node.  The parent and both neighbours are passed down; neighbours may hang
    below another parent, and then they only help to decide.  The second half of the file specifies merging two
    neighbours and moving pairs or children between them; StxRemove.v puts them together. *)

From S2P Require Import Prelude Words Index StxNode StxTree StxInv StxInsert StxSearch.
From Stdlib Require Import Sorted.
From stdpp Require Import gmap list.
Local Open Scope Z_scope.
Local Open Scope cxx_scope.

(** ** Results *)

Definition btree_ok : Z := 0.
Definition btree_not_found : Z := 1.
Definition btree_update_lastkey : Z := 2.
Definition btree_fixmerge : Z := 4.

Record result_t := mkResult { rflags : Z; lastkey : Z }.

Definition rok : result_t := mkResult btree_ok 0.

Definition has (r : result_t) (f : Z) : bool := negb (Z.land (rflags r) f =? 0).

(** [operator |=] *)
Definition merge_result (r other : result_t) : result_t :=
  mkResult (Z.lor (rflags r) (rflags other)) (if has other btree_update_lastkey then lastkey other else lastkey r).

(** ** Neighbours *)

(** [n->isfew()], [n->isunderflow()] *)
Definition few (t : Stx) (p : Z) : option bool :=
  nd ← nodes t !! p;
  Some match nd with SLeaf n => lisfew n | SInner n => iisfew n end.

Definition underflow (t : Stx) (p : Z) : option bool :=
  nd ← nodes t !! p;
  Some match nd with SLeaf n => lisunderflow n | SInner n => iisunderflow n end.

Definition slots (t : Stx) (p : Z) : option Z :=
  nd ← nodes t !! p; Some (slotuse_of nd).

(** [n == NULL || n->isfew()] and [n != NULL && n->isfew()] *)
Definition null_or_few (t : Stx) (p : Z) : option bool := if p =? 0 then Some true else few t p.
Definition some_and_few (t : Stx) (p : Z) : option bool := if p =? 0 then Some false else few t p.
Definition some_not_few (t : Stx) (p : Z) : option bool := if p =? 0 then Some false else b ← few t p; Some (negb b).

(** [parent->slotkey[slot] = key] *)
Definition set_parent_key (t : Stx) (p slot key : Z) : option Stx :=
  n ← get_inner t p;
  n ← set_slotkey n slot key;
  Some (set_node t p (SInner n)).

(** ** Merging and balancing *)

Definition merge_leaves (t : Stx) (left right : Z) : option (Stx * result_t) :=
  l ← get_leaf t left;
  r ← get_leaf t right;
  '(l, r) ← merge_leaf_slots l r;
  let t := set_node (set_node t left (SLeaf l)) right (SLeaf r) in
  lr ← links t !! right;
  t ← set_next t left (nextleaf lr);
  t ← (if negb (nextleaf lr =? 0) then set_prev t (nextleaf lr) left else Some (set_tail t left));
  Some (t, mkResult btree_fixmerge 0).

Definition merge_inner (t : Stx) (left right parent parentslot : Z) : option (Stx * result_t) :=
  l ← get_inner t left;
  r ← get_inner t right;
  pn ← get_inner t parent;
  key ← cell (islotkey pn) parentslot;
  '(l, r) ← merge_inner_slots l r key;
  Some (set_node (set_node t left (SInner l)) right (SInner r), mkResult btree_fixmerge 0).

Definition shift_left_leaf (t : Stx) (left right parent parentslot : Z) : option (Stx * result_t) :=
  l ← get_leaf t left;
  r ← get_leaf t right;
  '(l, r, key) ← shift_left_leaf_slots l r;
  let t := set_node (set_node t left (SLeaf l)) right (SLeaf r) in
  pn ← get_inner t parent;
  if parentslot <? islotuse pn then t ← set_parent_key t parent parentslot key; Some (t, rok)
  else Some (t, mkResult btree_update_lastkey key).

Definition shift_right_leaf (t : Stx) (left right parent parentslot : Z) : option Stx :=
  l ← get_leaf t left;
  r ← get_leaf t right;
  '(l, r, key) ← shift_right_leaf_slots l r;
  set_parent_key (set_node (set_node t left (SLeaf l)) right (SLeaf r)) parent parentslot key.

Definition shift_left_inner (t : Stx) (left right parent parentslot : Z) : option Stx :=
  l ← get_inner t left;
  r ← get_inner t right;
  pn ← get_inner t parent;
  key ← cell (islotkey pn) parentslot;
  '(l, r, newkey) ← shift_left_inner_slots l r key;
  set_parent_key (set_node (set_node t left (SInner l)) right (SInner r)) parent parentslot newkey.

Definition shift_right_inner (t : Stx) (left right parent parentslot : Z) : option Stx :=
  l ← get_inner t left;
  r ← get_inner t right;
  pn ← get_inner t parent;
  key ← cell (islotkey pn) parentslot;
  '(l, r, newkey) ← shift_right_inner_slots l r key;
  set_parent_key (set_node (set_node t left (SInner l)) right (SInner r)) parent parentslot newkey.

(** ** A node that is no longer half full *)

(** Where a node hangs: its neighbours, their parents, its parent and its slot there. *)
Record Around := mkAround { left : Z; right : Z; leftparent : Z; rightparent : Z; parent : Z; parentslot : Z }.

Inductive Remedy := MergeLeft | MergeRight | TakeRight | TakeLeft.

(** The cases of the code after the first, the same for leaves and inner nodes. *)
Definition choose (t : Stx) (a : Around) : option Remedy :=
  lf ← null_or_few t (left a);
  rf ← null_or_few t (right a);
  sl ← some_and_few t (left a);
  nr ← some_not_few t (right a);
  nl ← some_not_few t (left a);
  sr ← some_and_few t (right a);
  if lf && rf then Some (if leftparent a =? parent a then MergeLeft else MergeRight)
  else if sl && nr then Some (if rightparent a =? parent a then TakeRight else MergeLeft)
  else if nl && sr then Some (if leftparent a =? parent a then TakeLeft else MergeRight)
  else if leftparent a =? rightparent a then
    ls ← slots t (left a);
    rs ← slots t (right a);
    Some (if ls <=? rs then TakeRight else TakeLeft)
  else Some (if leftparent a =? parent a then TakeLeft else TakeRight).

Definition fix_leaf (t : Stx) (leaf : Z) (a : Around) (myres : result_t) : option (Stx * result_t) :=
  if (left a =? 0) && (right a =? 0) then
    t ← free_node t (m_root t);
    Some (set_tail (set_head (set_root t 0) 0) 0, rok)
  else
    f ← choose t a;
    match f with
    | MergeLeft => '(t, r) ← merge_leaves t (left a) leaf; Some (t, merge_result myres r)
    | MergeRight => '(t, r) ← merge_leaves t leaf (right a); Some (t, merge_result myres r)
    | TakeRight => '(t, r) ← shift_left_leaf t leaf (right a) (rightparent a) (parentslot a); Some (t, merge_result myres r)
    | TakeLeft => t ← shift_right_leaf t (left a) leaf (leftparent a) (parentslot a - 1); Some (t, myres)
    end.

(** Take the pair at [slot] out of the leaf. *)
Definition erase_at (t : Stx) (curr slot : Z) (a : Around) : option (Stx * result_t) :=
  leaf ← get_leaf t curr;
  leaf ← leaf_remove leaf slot;
  let t := set_node t curr (SLeaf leaf) in
  '(t, myres) ← (if slot =? lslotuse leaf then
    pu ← (if parent a =? 0 then Some 0 else pn ← get_inner t (parent a); Some (islotuse pn));
    if negb (parent a =? 0) && (parentslot a <? pu) then
      k ← cell (lslotkey leaf) (lslotuse leaf - 1);
      t ← set_parent_key t (parent a) (parentslot a) k;
      Some (t, rok)
    else if 1 <=? lslotuse leaf then
      k ← cell (lslotkey leaf) (lslotuse leaf - 1);
      Some (t, merge_result rok (mkResult btree_update_lastkey k))
    else Some (t, rok)
  else Some (t, rok));
  if lisunderflow leaf && negb ((curr =? m_root t) && (1 <=? lslotuse leaf)) then fix_leaf t curr a myres
  else Some (t, myres).

(** ** An inner node after a removal below it *)

Definition fix_inner (t : Stx) (inner : Z) (a : Around) (myres : result_t) : option (Stx * result_t) :=
  if (left a =? 0) && (right a =? 0) then
    n ← get_inner t inner;
    c ← cell (childid n) 0;
    t ← free_node (set_root t c) inner;
    Some (t, rok)
  else
    f ← choose t a;
    match f with
    | MergeLeft => '(t, r) ← merge_inner t (left a) inner (leftparent a) (parentslot a - 1); Some (t, merge_result myres r)
    | MergeRight => '(t, r) ← merge_inner t inner (right a) (rightparent a) (parentslot a); Some (t, merge_result myres r)
    | TakeRight => t ← shift_left_inner t inner (right a) (rightparent a) (parentslot a); Some (t, myres)
    | TakeLeft => t ← shift_right_inner t (left a) inner (leftparent a) (parentslot a - 1); Some (t, myres)
    end.

(** The neighbours of the child at [slot]. *)
Definition around_child (t : Stx) (curr : Z) (inner : inner_node) (slot : Z) (a : Around) : option Around :=
  '(myleft, myleftparent) ← (if slot =? 0 then
      l ← (if left a =? 0 then Some 0 else ln ← get_inner t (left a); cell (childid ln) (islotuse ln - 1));
      Some (l, leftparent a)
    else l ← cell (childid inner) (slot - 1); Some (l, curr));
  '(myright, myrightparent) ← (if slot =? islotuse inner then
      r ← (if right a =? 0 then Some 0 else rn ← get_inner t (right a); cell (childid rn) 0);
      Some (r, rightparent a)
    else r ← cell (childid inner) (slot + 1); Some (r, curr));
  Some (mkAround myleft myright myleftparent myrightparent curr slot).

(** The new greatest key goes to the parent or further up. *)
Definition pass_lastkey (t : Stx) (a : Around) (result : result_t) : option (Stx * result_t) :=
  if has result btree_update_lastkey then
    pu ← (if parent a =? 0 then Some 0 else pn ← get_inner t (parent a); Some (islotuse pn));
    if negb (parent a =? 0) && (parentslot a <? pu) then
      t ← set_parent_key t (parent a) (parentslot a) (lastkey result);
      Some (t, rok)
    else Some (t, merge_result rok (mkResult btree_update_lastkey (lastkey result)))
  else Some (t, rok).

(** Remove the child that a merge has emptied. *)
Definition remove_merged (t : Stx) (curr slot : Z) : option Stx :=
  inner ← get_inner t curr;
  c ← cell (childid inner) slot;
  u ← slots t c;
  let slot := if negb (u =? 0) then slot + 1 else slot in
  c ← cell (childid inner) slot;
  t ← free_node t c;
  inner ← inner_remove inner slot;
  inner ← (if ilevel inner =? 1 then
      c ← cell (childid inner) (slot - 1);
      child ← get_leaf t c;
      k ← cell (lslotkey child) (lslotuse child - 1);
      set_slotkey inner (slot - 1) k
    else Some inner);
  Some (set_node t curr (SInner inner)).

(** What an inner node does with the result from its child at [slot]. *)
Definition after_child (t : Stx) (curr slot : Z) (a : Around) (result : result_t) : option (Stx * result_t) :=
  '(t, myres) ← pass_lastkey t a result;
  t ← (if has result btree_fixmerge then remove_merged t curr slot else Some t);
  inner ← get_inner t curr;
  if iisunderflow inner && negb ((curr =? m_root t) && (1 <=? islotuse inner)) then fix_inner t curr a myres
  else Some (t, myres).

Fixpoint erase_one_descend (fuel : nat) (t : Stx) (key curr : Z) (a : Around) : option (Stx * result_t) :=
  match fuel with
  | O => None
  | S fuel =>
      nd ← nodes t !! curr;
      match nd with
      | SLeaf leaf =>
          slot ← find_lower (lslotkey leaf) (lslotuse leaf) key;
          b ← key_at leaf slot key;
          if b : bool then erase_at t curr slot a else Some (t, mkResult btree_not_found 0)
      | SInner inner =>
          slot ← find_lower (islotkey inner) (islotuse inner) key;
          c ← cell (childid inner) slot;
          ca ← around_child t curr inner slot a;
          '(t, result) ← erase_one_descend fuel t key c ca;
          if has result btree_not_found then Some (t, result) else after_child t curr slot a result
      end
  end.

Definition no_around : Around := mkAround 0 0 0 0 0 0.

Definition erase_one (t : Stx) (key : Z) : option (Stx * bool) :=
  if m_root t =? 0 then Some (t, false)
  else
    '(t, result) ← erase_one_descend (height t) t key (m_root t) no_around;
    let found := negb (has result btree_not_found) in
    Some (if found then set_itemcount t (itemcount t - 1) else t, found).

(** [while (erase_one(key)) { ++c; if (!allow_duplicates) break; }] *)
Definition erase (t : Stx) (key : Z) : option (Stx * Z) :=
  '(t, b) ← erase_one t key;
  Some (t, if b : bool then 1 else 0).

(** ** Removal at an iterator *)

(** The descent looks for the leaf of the iterator from the first child that may hold its key on. *)
Fixpoint erase_iter_descend (fuel : nat) (t : Stx) (it : Z * Z) (curr : Z) (a : Around) : option (Stx * result_t) :=
  match fuel with
  | O => None
  | S fuel =>
      nd ← nodes t !! curr;
      match nd with
      | SLeaf leaf =>
          if negb (curr =? it.1) then Some (t, mkResult btree_not_found 0)
          else if lslotuse leaf <=? it.2 then Some (t, mkResult btree_not_found 0)
          else erase_at t curr it.2 a
      | SInner inner =>
          key ← iter_key t it;
          slot ← find_lower (islotkey inner) (islotuse inner) key;
          '(t, slot, result) ← loop (S (S (Z.to_nat (islotuse inner)))) (fun '(t, slot) =>
            if slot <=? islotuse inner then
              c ← cell (childid inner) slot;
              ca ← around_child t curr inner slot a;
              '(t, result) ← erase_iter_descend fuel t it c ca;
              if negb (has result btree_not_found) then Some (inr (t, slot, Some result))
              else if slot <? islotuse inner then
                k ← cell (islotkey inner) slot;
                if k <? key then Some (inr (t, slot, None)) else Some (inl (t, slot + 1))
              else Some (inl (t, slot + 1))
            else Some (inr (t, slot, None))) (t, slot);
          match result with
          | Some result => after_child t curr slot a result
          | None => Some (t, mkResult btree_not_found 0)
          end
      end
  end.

Definition erase_iter (t : Stx) (it : Z * Z) : option Stx :=
  if m_root t =? 0 then Some t
  else
    '(t, result) ← erase_iter_descend (height t) t it (m_root t) no_around;
    Some (if negb (has result btree_not_found) then set_itemcount t (itemcount t - 1) else t).

(** * Merging and balancing neighbours

    [changed] says how a step of a removal changes some subtrees of one parent: which nodes
    they have afterwards, which emptied nodes are still allocated, which nodes outside were
    written, and that the leaves stay linked.  The steps of a removal compose.  Merging
    two neighbours and moving pairs or children between them are such steps. *)

(** ** Steps *)

(** [P] holds the nodes above that are written, [G] the emptied nodes. *)
Record changed (s s' : Stx) (l : nat) (cs cs' : list btree) (P G : list Z) (pre post : list Z) : Prop := {
  ch_rep : Forall (stx_rep (nodes s') l) cs';
  ch_nodup : NoDup (fptrs l cs' ++ G);
  ch_sub q : q ∈ fptrs l cs' ++ G -> q ∈ fptrs l cs;
  ch_frame q : q ∉ fptrs l cs -> q ∉ P -> nodes s' !! q = nodes s !! q;
  ch_dom q : q ∈ fptrs l cs -> is_Some (nodes s' !! q) -> q ∈ fptrs l cs' ++ G;
  ch_linked : linked s' (pre ++ (fleaves l cs').*1 ++ post);
  ch_root : m_root s' = m_root s;
  ch_next : next_free s' = next_free s;
  ch_items : itemcount s' = itemcount s;
  ch_leaves : leaves s' - zlen (fleaves l cs') - (if l is O then zlen G else 0) = leaves s - zlen (fleaves l cs);
  ch_inners : innernodes s' - zlen (finners l cs') - (if l is O then 0 else zlen G) = innernodes s - zlen (finners l cs)
}.

Lemma changed_trans s s1 s2 l cs cs1 cs2 P G pre post : changed s s1 l cs cs1 P [] pre post -> changed s1 s2 l cs1 cs2 P G pre post -> (forall q, q ∈ P -> q ∉ fptrs l cs) ->
  changed s s2 l cs cs2 P G pre post.
Proof.
  intros [A1 A2 A3 A4 A5 A6 A7 A8 A9 A10 A11] [B1 B2 B3 B4 B5 B6 B7 B8 B9 B10 B11] HP.
  assert (Hsub : forall q, q ∈ fptrs l cs1 -> q ∈ fptrs l cs) by (intros q Hq; apply A3, elem_of_app; by left).
  constructor; try done; try congruence.
  - intros q Hq. by apply Hsub, B3.
  - intros q Hq Hp. rewrite B4; [by apply A4| |done]. intros H. by apply Hq, Hsub.
  - intros q Hq Hs. destruct (decide (q ∈ fptrs l cs1)) as [Hin|Hnot]; [by apply B5|]. rewrite B4 in Hs; [|done|intros H; by apply (HP q H)].
    exfalso. apply Hnot. specialize (A5 q Hq Hs). by rewrite app_nil_r in A5.
  - change (zlen (@nil Z)) with 0 in *. destruct l; lia.
  - change (zlen (@nil Z)) with 0 in *. destruct l; lia.
Qed.

(** A node above is written. *)
Lemma changed_set s s' l cs cs' P G pre post x nd : changed s s' l cs cs' P G pre post -> x ∉ fptrs l cs -> changed s (set_node s' x nd) l cs cs' (x :: P) G pre post.
Proof.
  intros [A1 A2 A3 A4 A5 A6 A7 A8 A9 A10 A11] Hx. assert (Hx' : forall q, q ∈ fptrs l cs' ++ G -> q <> x) by (intros q Hq ->; by apply Hx, A3).
  constructor; cbn [nodes set_node]; try done.
  - eapply stx_reps_ext; [|exact A1]. intros q Hq. apply lookup_insert_ne. intros <-. apply (Hx' x); [apply elem_of_app; by left|done].
  - intros q Hq Hp. apply not_elem_of_cons in Hp as [Hne Hp]. rewrite lookup_insert_ne by done. by apply A4.
  - intros q Hq. rewrite lookup_insert_ne; [by apply A5|]. by intros <-.
  - by apply (linked_fields s').
Qed.

Lemma changed_weaken s s' l cs cs' P P' G pre post : changed s s' l cs cs' P G pre post -> (forall q, q ∈ P -> q ∈ P') -> changed s s' l cs cs' P' G pre post.
Proof. intros [A1 A2 A3 A4 A5 A6 A7 A8 A9 A10 A11] H. constructor; try done. intros q Hq Hp. apply A4; [done|]. intros Hin. by apply Hp, H. Qed.

Lemma changed_refl s l cs P pre post : Forall (stx_rep (nodes s) l) cs -> NoDup (fptrs l cs) -> linked s (pre ++ (fleaves l cs).*1 ++ post) -> changed s s l cs cs P [] pre post.
Proof. intros H1 H2 H3. constructor; rewrite ?app_nil_r; try done; change (zlen (@nil Z)) with 0; destruct l; lia. Qed.

(** From neighbouring children to all of them. *)
Lemma changed_within s s' l ca ds ds' cb P G pre post : changed s s' l ds ds' P G (pre ++ (fleaves l ca).*1) ((fleaves l cb).*1 ++ post) ->
  NoDup (fptrs l (ca ++ ds ++ cb)) -> Forall (stx_rep (nodes s) l) (ca ++ ds ++ cb) -> (forall q, q ∈ P -> q ∉ fptrs l (ca ++ ds ++ cb)) ->
  changed s s' l (ca ++ ds ++ cb) (ca ++ ds' ++ cb) P G pre post.
Proof.
  intros [A1 A2 A3 A4 A5 A6 A7 A8 A9 A10 A11] Hnd Hrep HP. assert (Hperm : forall x, fptrs l (ca ++ x ++ cb) ≡ₚ fptrs l x ++ (fptrs l ca ++ fptrs l cb)) by (intros x; rewrite !fptrs_app; solve_Permutation).
  assert (Helem : forall x q, q ∈ fptrs l (ca ++ x ++ cb) <-> q ∈ fptrs l x \/ q ∈ (fptrs l ca ++ fptrs l cb)) by (intros x q; by rewrite Hperm, elem_of_app).
  rewrite Hperm in Hnd. apply NoDup_app in Hnd as (_ & Hdis & Hnd).
  assert (Hold : forall q, q ∈ (fptrs l ca ++ fptrs l cb) -> nodes s' !! q = nodes s !! q).
  { intros q Hq. apply A4; [intros Hc; by apply (Hdis q Hc)|]. intros Hp. apply (HP q Hp), Helem. by right. }
  apply Forall_app in Hrep as [R1 R2]. apply Forall_app in R2 as [_ R3]. constructor; try done.
  - apply Forall_app. split; [|apply Forall_app; split; [done|]]; (eapply stx_reps_ext; [|eassumption]); intros q Hq; apply Hold, elem_of_app; [by left|by right].
  - assert (Hp2 : fptrs l (ca ++ ds' ++ cb) ++ G ≡ₚ (fptrs l ds' ++ G) ++ (fptrs l ca ++ fptrs l cb)) by (rewrite Hperm; solve_Permutation).
    rewrite Hp2. apply NoDup_app. split; [done|]. split; [|done]. intros q Hq%A3 Hq'. by apply (Hdis q Hq).
  - intros q [Hq%Helem|Hq]%elem_of_app; apply Helem; [|left; apply A3, elem_of_app; by right]. destruct Hq as [Hq|Hq]; [left; apply A3, elem_of_app; by left|by right].
  - intros q Hq Hp. apply A4; [|done]. intros H. apply Hq, Helem. by left.
  - intros q [Hq|Hq]%Helem Hs; rewrite elem_of_app, Helem; [|tauto]. specialize (A5 q Hq Hs). apply elem_of_app in A5. tauto.
  - rewrite !fleaves_app, !fmap_app. rewrite <-!app_assoc in A6. rewrite <-!app_assoc. exact A6.
  - rewrite !fleaves_app, !zlen_app. lia.
  - rewrite !finners_app, !zlen_app. lia.
Qed.

(** From the children to their parent, once the parent holds what it should. *)
Lemma changed_above s s' l p ks cs ks' cs' P n' pre post : changed s s' l cs cs' (p :: P) [] pre post -> p ∉ fptrs l cs ->
  nodes s' !! p = Some (SInner n') -> ilevel n' = Z.of_nat (S l) -> stx_inner_rep n' ks' (tptr <$> cs') ->
  changed s s' (S l) [TInner p ks cs] [TInner p ks' cs'] P [] pre post.
Proof.
  intros [A1 A2 A3 A4 A5 A6 A7 A8 A9 A10 A11] Hp Hn Hl Hr. rewrite app_nil_r in *.
  assert (Hperm : forall k c, fptrs (S l) [TInner p k c] ≡ₚ p :: fptrs l c) by (intros k c; rewrite fptrs_one; apply tptrs_inner).
  assert (Hsub : forall q, q ∈ fptrs l cs' -> q ∈ fptrs l cs) by (intros q Hq; by apply A3).
  constructor; rewrite ?app_nil_r; try done.
  - constructor; [|constructor]. by exists n'.
  - rewrite Hperm. constructor; [|done]. intros H. by apply Hp, Hsub.
  - intros q. rewrite !Hperm. intros [->|Hq]%elem_of_cons; [constructor|]. apply list_elem_of_further. by apply Hsub.
  - intros q Hq Hq'. rewrite Hperm in Hq. apply not_elem_of_cons in Hq as [Hne Hq]. apply A4; [done|]. by apply not_elem_of_cons.
  - intros q. rewrite !Hperm. intros [->|Hq]%elem_of_cons Hs; [constructor|]. apply list_elem_of_further. specialize (A5 q Hq Hs). done.
  - by rewrite fleaves_one.
  - rewrite !fleaves_one. cbn [tleaves]. fold (fleaves l cs) (fleaves l cs'). change (zlen (@nil Z)) with 0 in *. destruct l; lia.
  - rewrite !finners_one. cbn [tinners]. fold (finners l cs) (finners l cs'). rewrite !zlen_cons. change (zlen (@nil Z)) with 0 in *. destruct l; lia.
Qed.

(** ** Sizes *)

Definition tsize (t : btree) : Z := match t with TLeaf _ es => zlen es | TInner _ ks _ => zlen ks end.

(** A node a merge has emptied. *)
Definition emptied (s : Stx) (l : nat) (q : Z) : Prop :=
  exists nd, nodes s !! q = Some nd /\ slotuse_of nd = 0 /\ match nd with SLeaf _ => l = O | SInner _ => l <> O end.

Lemma rep_slots s l t : stx_rep (nodes s) l t -> slots s (tptr t) = Some (tsize t).
Proof.
  destruct l as [|l], t as [p es|p ks cs]; try done; unfold slots; cbn [stx_rep tptr tsize].
  - intros (n & -> & Hr). cbn. by rewrite (lr_use _ _ Hr).
  - intros (n & -> & _ & Hr & _). cbn. by rewrite (ir_use _ _ _ Hr).
Qed.

Lemma rep_few s l t : stx_rep (nodes s) l t -> few s (tptr t) = Some (tsize t <=? 8).
Proof.
  destruct l as [|l], t as [p es|p ks cs]; try done; unfold few; cbn [stx_rep tptr tsize].
  - intros (n & -> & Hr). cbn. unfold lisfew. by rewrite (lr_use _ _ Hr).
  - intros (n & -> & _ & Hr & _). cbn. unfold iisfew. by rewrite (ir_use _ _ _ Hr).
Qed.

Lemma wf_tsize min l t : stx_wf min l t -> min <= tsize t.
Proof. destruct l, t; try done. by intros [H _]. Qed.

Lemma wf_least min min' l t : stx_wf min l t -> min' <= tsize t -> stx_wf min' l t.
Proof. destruct l, t; cbn; try done. by intros (_ & H). Qed.

Lemma wf_keys min l t : 1 <= min -> stx_wf min l t -> tkeys l t <> [].
Proof. intros Hm Hw H. apply (wf_nonempty l min t Hm Hw). unfold tkeys in H. by destruct (tpairs l t). Qed.

(** The last keys of a part that ends in a subtree. *)
Lemma last_fkeys l cs t : tkeys l t <> [] -> last (fpairs l (cs ++ [t])).*1 = last (tkeys l t).
Proof.
  intros H. rewrite fpairs_app, fpairs_one, fmap_app, last_app. fold (tkeys l t). destruct (tkeys l t) as [|k ks _] using rev_ind; [done|]. by rewrite last_snoc.
Qed.

Lemma same_last l x y x' y' : tkeys l y <> [] -> tkeys l y' <> [] -> fpairs l [x'; y'] = fpairs l [x; y] -> last (tkeys l y') = last (tkeys l y).
Proof. intros H H' E. rewrite <-(last_fkeys l [x] y), <-(last_fkeys l [x'] y') by done. cbn [app]. by rewrite E. Qed.

(** ** Merging leaves *)

Lemma merge_links s s1 px py pre post : linked s (pre ++ px :: py :: post) -> NoDup (pre ++ px :: py :: post) -> Forall (fun q => q <> 0) (pre ++ px :: py :: post) ->
  links s1 = links s -> m_headleaf s1 = m_headleaf s -> m_tailleaf s1 = m_tailleaf s ->
  exists lr s2 s3, links s1 !! py = Some lr /\ set_next s1 px (nextleaf lr) = Some s2 /\
    (if negb (nextleaf lr =? 0) then set_prev s2 (nextleaf lr) px else Some (set_tail s2 px)) = Some s3 /\
    linked s3 (pre ++ px :: post) /\ nodes s3 = nodes s1 /\ m_root s3 = m_root s1 /\ next_free s3 = next_free s1 /\ itemcount s3 = itemcount s1 /\ leaves s3 = leaves s1 /\ innernodes s3 = innernodes s1.
Proof.
  intros [Hc Hh Ht] Hnd H0 El Eh Et. rewrite El. pose proof (chain_lookup _ _ _ _ _ _ Hc) as Hlx. cbn [hd] in Hlx.
  pose proof Hc as Hc0. rewrite (app_assoc pre [px] (py :: post) : pre ++ px :: py :: post = _) in Hc0. pose proof (chain_lookup _ _ _ _ _ _ Hc0) as Hly. rewrite last_or_snoc in Hly.
  apply chain_app in Hc as [Ha [_ [_ Hb]]]. apply NoDup_app in Hnd as (Hpre & Hdis & Hnd). apply NoDup_cons in Hnd as [Hx Hnd]. apply NoDup_cons in Hnd as [Hy Hnd].
  assert (Hhd : hd 0 (pre ++ px :: py :: post) = hd 0 (pre ++ px :: post)) by by rewrite !hd_app.
  exists (mkLinks px (hd 0 post)). unfold set_next. rewrite El, Hlx. cbn [mbind option_bind nextleaf prevleaf]. destruct post as [|q post].
  - eexists _, _. split; [done|]. split; [done|]. split; [done|]. split; [|done]. constructor; cbn [links set_links set_tail m_headleaf m_tailleaf hd].
    + rewrite El. apply (chain_new_next _ _ _ _ py); [|intros H; apply (Hdis px H); constructor]. apply chain_app. split; [exact Ha|]. by split.
    + by rewrite Eh, Hh.
    + by rewrite last_or_snoc.
  - apply Forall_app in H0 as [_ H0]. do 2 apply Forall_cons in H0 as [_ H0]. apply Forall_cons in H0 as [H0 _].
    apply not_elem_of_cons in Hx as [Hxy Hx]. apply not_elem_of_cons in Hx as [Hxq Hx]. destruct Hb as [Hq Hb]. apply NoDup_cons in Hnd as [Hqq Hnd].
    eexists _, _. split; [done|]. split; [done|]. cbn [hd]. rewrite (proj2 (Z.eqb_neq _ _) H0). cbn [negb]. unfold set_prev. cbn [links set_links]. rewrite El, lookup_insert_ne by done. rewrite Hq. cbn [mbind option_bind nextleaf].
    split; [done|]. split; [|done]. constructor; cbn [links set_links m_headleaf m_tailleaf].
    + apply chain_app. split; [|split; [|split]].
      * eapply chain_ext; [|exact Ha]. intros z Hz. rewrite !lookup_insert_ne; [by rewrite El|intros ->; apply (Hdis z Hz); constructor|intros ->; apply (Hdis z Hz); do 2 apply list_elem_of_further; constructor].
      * cbn [hd]. rewrite lookup_insert_ne by done. by rewrite lookup_insert_eq.
      * by rewrite lookup_insert_eq.
      * eapply chain_ext; [|exact Hb]. intros z Hz. rewrite !lookup_insert_ne; [by rewrite El|by intros ->..].
    + by rewrite Eh, Hh.
    + rewrite Et, Ht. rewrite (app_assoc pre [px; py] (q :: post) : pre ++ px :: py :: q :: post = _), (app_assoc pre [px] (q :: post) : pre ++ px :: q :: post = _).
      unfold last_or. rewrite !last_app. destruct (last (q :: post)) eqn:E; [done|]. by apply last_None in E.
Qed.

Lemma merge_leaves_pair s px ex py ey pre post : Forall (stx_rep (nodes s) 0) [TLeaf px ex; TLeaf py ey] -> linked s (pre ++ [px; py] ++ post) ->
  NoDup (pre ++ [px; py] ++ post) -> Forall (fun q => q <> 0) (pre ++ [px; py] ++ post) -> zlen ex + zlen ey <= 16 ->
  exists s', merge_leaves s px py = Some (s', mkResult btree_fixmerge 0) /\ changed s s' 0 [TLeaf px ex; TLeaf py ey] [TLeaf px (ex ++ ey)] [] [py] pre post /\ emptied s' 0 py.
Proof.
  intros [(nx & Hnx & Rx) Hr]%Forall_cons Hl Hnd H0 Hlen. apply Forall_cons in Hr as [(ny & Hny & Ry) _].
  assert (Hxy : px <> py) by (intros ->; apply NoDup_app in Hnd as (_ & _ & Hnd); apply NoDup_cons in Hnd as [Hnd _]; apply Hnd; constructor).
  unfold merge_leaves. rewrite (get_leaf_lookup _ _ _ Hnx), (get_leaf_lookup _ _ _ Hny). cbn [mbind option_bind].
  destruct (merge_leaf_slots_spec nx ny ex ey Rx Ry Hlen) as (nx' & ny' & -> & Rx' & Hy0). cbn [mbind option_bind].
  set (s1 := set_node (set_node s px (SLeaf nx')) py (SLeaf ny')).
  destruct (merge_links s s1 px py pre post Hl Hnd H0 eq_refl eq_refl eq_refl) as (lr & s2 & s3 & -> & E2 & E3 & Hl3 & En & Er & Ef & Ei & Elv & Ein). cbn [mbind option_bind]. rewrite E2. cbn [mbind option_bind]. rewrite E3. cbn [mbind option_bind].
  assert (Hx3 : nodes s3 !! px = Some (SLeaf nx')) by (rewrite En; cbn [s1 nodes set_node]; rewrite lookup_insert_ne by done; by rewrite lookup_insert_eq).
  assert (Hy3 : nodes s3 !! py = Some (SLeaf ny')) by (rewrite En; cbn [s1 nodes set_node]; by rewrite lookup_insert_eq).
  exists s3. split; [done|]. split; [|by exists (SLeaf ny')]. constructor; try done.
  - constructor; [|constructor]. by exists nx'.
  - cbn. constructor; [|by constructor; [apply not_elem_of_nil|constructor]]. by rewrite list_elem_of_singleton.
  - intros q Hq _. cbn in Hq. apply not_elem_of_cons in Hq as [Hq1 Hq]. apply not_elem_of_cons in Hq as [Hq2 _]. rewrite En. cbn [s1 nodes set_node]. by rewrite !lookup_insert_ne.
  - rewrite Elv. unfold s1, zlen. cbn. lia.
  - rewrite Ein. unfold s1, zlen. cbn. lia.
Qed.

(** ** Moving pairs between leaves *)

Lemma set_parent_key_spec t p n k1 k k2 cs key : nodes t !! p = Some (SInner n) -> stx_inner_rep n (k1 ++ k :: k2) cs ->
  exists n', set_parent_key t p (zlen k1) key = Some (set_node t p (SInner n')) /\ ilevel n' = ilevel n /\ stx_inner_rep n' (k1 ++ key :: k2) cs.
Proof.
  intros Hn Hr. unfold set_parent_key. rewrite (get_inner_lookup _ _ _ Hn). cbn [mbind option_bind].
  destruct (set_slotkey_spec n k1 k k2 cs key Hr) as (n' & -> & Hl & Hr'). by exists n'.
Qed.

(** Two leaves are written and no link changes. *)
Lemma changed_leaves s px ex py ey ex' ey' nx' ny' pre post : linked s (pre ++ [px; py] ++ post) -> px <> py -> stx_leaf_rep nx' ex' -> stx_leaf_rep ny' ey' ->
  changed s (set_node (set_node s px (SLeaf nx')) py (SLeaf ny')) 0 [TLeaf px ex; TLeaf py ey] [TLeaf px ex'; TLeaf py ey'] [] [] pre post.
Proof.
  intros Hl Hxy Rx Ry. constructor; rewrite ?app_nil_r; try done.
  - constructor; [|constructor; [|constructor]]; eexists; (split; [|done]); cbn [nodes set_node]; [rewrite lookup_insert_ne by done|]; by rewrite lookup_insert_eq.
  - cbn. constructor; [by rewrite list_elem_of_singleton|]. constructor; [apply not_elem_of_nil|constructor].
  - intros q Hq _. cbn in Hq. apply not_elem_of_cons in Hq as [Hq1 Hq]. apply not_elem_of_cons in Hq as [Hq2 _]. cbn [nodes set_node]. by rewrite !lookup_insert_ne.
  - by apply (linked_fields s).
  - unfold zlen. cbn. lia.
  - unfold zlen. cbn. lia.
Qed.

(** The keys of the parent [pp] around two neighbours, before and after [step] moves something between them. *)
Definition rebalanced (s : Stx) (l : nat) (pp : Z) (k1 k2 cs : list Z) (lev : Z) (x y : btree) (pre post : list Z) (s' : Stx) : Prop :=
  exists x' y' n' k', changed s s' l [x; y] [x'; y'] [pp] [] pre post /\ tptr x' = tptr x /\ tptr y' = tptr y /\ fpairs l [x'; y'] = fpairs l [x; y] /\
    stx_wf 8 l x' /\ stx_wf 8 l y' /\ last (tkeys l x') = Some k' /\ nodes s' !! pp = Some (SInner n') /\ ilevel n' = lev /\ stx_inner_rep n' (k1 ++ k' :: k2) cs.

Section Leaves.
Context (s : Stx) (pp : Z) (np : inner_node) (k1 : list Z) (k : Z) (k2 cs : list Z) (px : Z) (ex : list (Z * Z)) (py : Z) (ey : list (Z * Z)) (pre post : list Z).
Context (Hnp : nodes s !! pp = Some (SInner np)) (Hrp : stx_inner_rep np (k1 ++ k :: k2) cs) (Hrep : Forall (stx_rep (nodes s) 0) [TLeaf px ex; TLeaf py ey]).
Context (Hl : linked s (pre ++ [px; py] ++ post)) (Hxy : px <> py) (Hpp : pp ∉ [px; py]).

Let get_parent nx' ny' : nodes (set_node (set_node s px (SLeaf nx')) py (SLeaf ny')) !! pp = Some (SInner np).
Proof. apply not_elem_of_cons in Hpp as [H1 H2]. apply not_elem_of_cons in H2 as [H2 _]. cbn [nodes set_node]. by rewrite !lookup_insert_ne by done. Qed.

Lemma shift_left_leaf_pair : zlen ex = 7 -> 9 <= zlen ey ->
  exists s', shift_left_leaf s px py pp (zlen k1) = Some (s', rok) /\ rebalanced s 0 pp k1 k2 cs (ilevel np) (TLeaf px ex) (TLeaf py ey) pre post s'.
Proof.
  intros H7 H9. pose proof Hrep as Hr. apply Forall_cons in Hr as [(nx & Hnx & Rx) Hr]. apply Forall_cons in Hr as [(ny & Hny & Ry) _].
  unfold shift_left_leaf. rewrite (get_leaf_lookup _ _ _ Hnx), (get_leaf_lookup _ _ _ Hny). cbn [mbind option_bind].
  destruct (shift_left_leaf_slots_spec nx ny ex ey Rx Ry ltac:(lia)) as (nx' & ny' & e1 & k' & v & e2 & -> & -> & Rx' & Ry' & Hn). cbn [mbind option_bind].
  rewrite (get_inner_lookup _ _ _ (get_parent nx' ny')). cbn [mbind option_bind]. rewrite (ir_use _ _ _ Hrp), zlen_app, zlen_cons. pose proof (zlen_nonneg k2). destruct (Z.ltb_spec (zlen k1) (zlen k1 + (1 + zlen k2))); [|lia].
  destruct (set_parent_key_spec _ pp np k1 k k2 cs k' (get_parent nx' ny') Hrp) as (n' & -> & Hlev & Rp). cbn [mbind option_bind].
  eexists. split; [done|]. exists (TLeaf px (ex ++ e1 ++ [(k', v)])), (TLeaf py e2), n', k'.
  split; [by apply changed_set; [apply changed_leaves|]|]. split; [done|]. split; [done|]. rewrite <-!app_assoc in *. cbn [app] in *. pose proof (stx_leaf_rep_len _ _ Ry) as Hmax. change leafslotmax with 16 in Hmax.
  pose proof (shiftr_half (zlen (e1 ++ (k', v) :: e2) - zlen ex)) as Hh. rewrite <-Hn in Hh. rewrite !zlen_app, !zlen_cons in *. change (zlen (@nil (Z * Z))) with 0 in *.
  split; [unfold fpairs; cbn; by rewrite <-!app_assoc|]. cbn [stx_wf]. rewrite !zlen_app, zlen_cons. change (zlen (@nil (Z * Z))) with 0. split; [lia|]. split; [lia|].
  split; [unfold tkeys, tpairs; cbn; rewrite app_nil_r, app_assoc, fmap_app; apply last_snoc|]. split; [cbn [nodes set_node]; by rewrite lookup_insert_eq|]. done.
Qed.

Lemma shift_right_leaf_pair : 9 <= zlen ex -> zlen ey = 7 ->
  exists s', shift_right_leaf s px py pp (zlen k1) = Some s' /\ rebalanced s 0 pp k1 k2 cs (ilevel np) (TLeaf px ex) (TLeaf py ey) pre post s'.
Proof.
  intros H9 H7. pose proof Hrep as Hr. apply Forall_cons in Hr as [(nx & Hnx & Rx) Hr]. apply Forall_cons in Hr as [(ny & Hny & Ry) _].
  unfold shift_right_leaf. rewrite (get_leaf_lookup _ _ _ Hnx), (get_leaf_lookup _ _ _ Hny). cbn [mbind option_bind].
  destruct (shift_right_leaf_slots_spec nx ny ex ey Rx Ry ltac:(lia)) as (nx' & ny' & e1 & k' & v & e2 & -> & -> & Rx' & Ry' & Hn). cbn [mbind option_bind].
  destruct (set_parent_key_spec _ pp np k1 k k2 cs k' (get_parent nx' ny') Hrp) as (n' & -> & Hlev & Rp).
  eexists. split; [done|]. exists (TLeaf px (e1 ++ [(k', v)])), (TLeaf py (e2 ++ ey)), n', k'.
  split; [by apply changed_set; [apply changed_leaves|]|]. split; [done|]. split; [done|].
  pose proof (shiftr_half (zlen ((e1 ++ [(k', v)]) ++ e2) - zlen ey)) as Hh. rewrite <-Hn in Hh. rewrite !zlen_app, !zlen_cons in *. change (zlen (@nil (Z * Z))) with 0 in *.
  split; [unfold fpairs; cbn; by rewrite <-!app_assoc|]. cbn [stx_wf]. rewrite !zlen_app, zlen_cons. change (zlen (@nil (Z * Z))) with 0. split; [lia|]. split; [lia|].
  split; [unfold tkeys, tpairs; cbn; rewrite app_nil_r, fmap_app; apply last_snoc|]. split; [cbn [nodes set_node]; by rewrite lookup_insert_eq|]. done.
Qed.
End Leaves.

(** ** Merging inner nodes and moving children between them *)

Lemma wfs_keys l cs : Forall (stx_wf 8 l) cs -> Forall (fun c => tkeys l c <> []) cs.
Proof. intros H. eapply Forall_impl; [exact H|]. intros c Hc. by apply (wf_keys 8). Qed.

Lemma exact_join l k1 c1 k k2 c2 : exact l k1 c1 -> Forall (fun c => tkeys l c <> []) c1 -> last (fpairs l c1).*1 = Some k -> exact l k2 c2 -> exact l (k1 ++ k :: k2) (c1 ++ c2).
Proof.
  intros H1 Hne Hk H2. pose proof (exact_len _ _ _ H1) as Hlen. destruct c1 as [|c c1 _] using rev_ind; [done|]. rewrite length_app in Hlen. cbn in Hlen.
  rewrite <-(app_nil_r k1) in H1. apply exact_app in H1 as [H1 _]; [|lia]. rewrite <-app_assoc. cbn [app]. apply exact_app; [lia|]. split; [done|].
  apply Forall_app in Hne as [_ Hne]. apply Forall_cons in Hne as [Hne _]. rewrite last_fkeys in Hk by done. by split.
Qed.

Lemma exact_cut l k1 c1 k k2 c2 : exact l (k1 ++ k :: k2) (c1 ++ c2) -> zlen c1 = zlen k1 + 1 -> Forall (fun c => tkeys l c <> []) c1 ->
  exact l k1 c1 /\ exact l k2 c2 /\ last (fpairs l c1).*1 = Some k.
Proof.
  intros H Hlen Hne. destruct c1 as [|c c1 _] using rev_ind; [change (zlen (@nil btree)) with 0 in Hlen; pose proof (zlen_nonneg k1); lia|].
  rewrite zlen_app in Hlen. assert (Hl : length c1 = length k1) by (unfold zlen in Hlen; cbn in Hlen; lia). rewrite <-app_assoc in H. cbn [app] in H.
  apply exact_app in H as [H1 [Hk H2]]; [|done]. split; [rewrite <-(app_nil_r k1); apply exact_app; [done|]; by split|]. split; [done|].
  apply Forall_app in Hne as [_ Hne]. apply Forall_cons in Hne as [Hne _]. by rewrite last_fkeys.
Qed.

Lemma inner_pair_perm l px kx cx py ky cy : fptrs (S l) [TInner px kx cx; TInner py ky cy] ≡ₚ px :: py :: fptrs l (cx ++ cy).
Proof. rewrite fptrs_cons, fptrs_one, !tptrs_inner, fptrs_app. solve_Permutation. Qed.

Lemma inner_pair_leaves l px kx cx py ky cy : fleaves (S l) [TInner px kx cx; TInner py ky cy] = fleaves l (cx ++ cy).
Proof. by rewrite fleaves_cons, fleaves_one, fleaves_app. Qed.

Lemma inner_pair_pairs l px kx cx py ky cy : fpairs (S l) [TInner px kx cx; TInner py ky cy] = fpairs l (cx ++ cy).
Proof. unfold fpairs. by rewrite inner_pair_leaves. Qed.

Lemma inner_pair_inners l px kx cx py ky cy : zlen (finners (S l) [TInner px kx cx; TInner py ky cy]) = 2 + zlen (finners l (cx ++ cy)).
Proof.
  rewrite finners_cons, finners_one, finners_app, zlen_app. cbn [tinners]. fold (finners l cx) (finners l cy). rewrite !zlen_cons, zlen_app. lia.
Qed.

(** Two inner nodes are written, which hold the same children in the same order. *)
Lemma changed_inners s l px kx cx py ky cy kx' cx' ky' cy' nx' ny' pre post :
  Forall (stx_rep (nodes s) l) (cx ++ cy) -> NoDup (fptrs (S l) [TInner px kx cx; TInner py ky cy]) -> linked s (pre ++ (fleaves l (cx ++ cy)).*1 ++ post) ->
  cx' ++ cy' = cx ++ cy -> ilevel nx' = Z.of_nat (S l) -> ilevel ny' = Z.of_nat (S l) -> stx_inner_rep nx' kx' (tptr <$> cx') -> stx_inner_rep ny' ky' (tptr <$> cy') ->
  changed s (set_node (set_node s px (SInner nx')) py (SInner ny')) (S l) [TInner px kx cx; TInner py ky cy] [TInner px kx' cx'; TInner py ky' cy'] [] [] pre post.
Proof.
  intros Hr Hnd Hl Hc Lx Ly Rx Ry. pose proof Hnd as Hnd0. rewrite inner_pair_perm in Hnd0. apply NoDup_cons in Hnd0 as [Hx Hnd0]. apply NoDup_cons in Hnd0 as [Hy _]. apply not_elem_of_cons in Hx as [Hxy Hx].
  assert (Hr' : Forall (stx_rep (<[py:=SInner ny']> (<[px:=SInner nx']> (nodes s))) l) (cx' ++ cy')).
  { rewrite Hc. eapply stx_reps_ext; [|exact Hr]. intros q Hq. rewrite !lookup_insert_ne; [done|by intros ->..]. }
  apply Forall_app in Hr' as [Hrx Hry]. constructor; rewrite ?app_nil_r; cbn [nodes set_node]; try done.
  - constructor; [|constructor; [|constructor]]; eexists; (split; [|split; [|split; [eassumption|done]]]); try done; [rewrite lookup_insert_ne by done|]; by rewrite lookup_insert_eq.
  - by rewrite inner_pair_perm, Hc, <-(inner_pair_perm l px kx cx py ky cy).
  - intros q. by rewrite !inner_pair_perm, Hc.
  - intros q. rewrite inner_pair_perm. intros Hq _. apply not_elem_of_cons in Hq as [Hq1 Hq]. apply not_elem_of_cons in Hq as [Hq2 _]. by rewrite !lookup_insert_ne.
  - intros q Hq _. by rewrite inner_pair_perm, Hc, <-(inner_pair_perm l px kx cx py ky cy).
  - rewrite inner_pair_leaves, Hc. by apply (linked_fields s).
  - rewrite !inner_pair_leaves, Hc. cbn. lia.
  - rewrite !inner_pair_inners, Hc. change (zlen (@nil Z)) with 0. cbn. lia.
Qed.

Section Inners.
Context (s : Stx) (pp : Z) (np : inner_node) (k1 : list Z) (k : Z) (k2 cs : list Z) (l : nat).
Context (px : Z) (kx : list Z) (cx : list btree) (py : Z) (ky : list Z) (cy : list btree) (pre post : list Z).
Context (Hnp : nodes s !! pp = Some (SInner np)) (Hrp : stx_inner_rep np (k1 ++ k :: k2) cs).
Context (Hrep : Forall (stx_rep (nodes s) (S l)) [TInner px kx cx; TInner py ky cy]).
Context (Hx : stx_wf 7 (S l) (TInner px kx cx)) (Hy : stx_wf 7 (S l) (TInner py ky cy)) (Hk : last (tkeys (S l) (TInner px kx cx)) = Some k).
Context (Hl : linked s (pre ++ (fleaves (S l) [TInner px kx cx; TInner py ky cy]).*1 ++ post)) (Hnd : NoDup (fptrs (S l) [TInner px kx cx; TInner py ky cy])).
Context (Hpp : pp ∉ fptrs (S l) [TInner px kx cx; TInner py ky cy]).

Let facts : exists nx ny, nodes s !! px = Some (SInner nx) /\ nodes s !! py = Some (SInner ny) /\ ilevel nx = Z.of_nat (S l) /\ ilevel ny = Z.of_nat (S l) /\
  stx_inner_rep nx kx (tptr <$> cx) /\ stx_inner_rep ny ky (tptr <$> cy) /\ Forall (stx_rep (nodes s) l) (cx ++ cy) /\ px <> py /\ pp <> px /\ pp <> py /\ (px ∉ fptrs l (cx ++ cy)) /\ (py ∉ fptrs l (cx ++ cy)).
Proof.
  pose proof Hrep as Hr. apply Forall_cons in Hr as [(nx & Hnx & Lx & Rx & Cx) Hr]. apply Forall_cons in Hr as [(ny & Hny & Ly & Ry & Cy) _]. exists nx, ny. do 6 (split; [done|]).
  split; [by apply Forall_app|]. pose proof Hnd as Hnd'. rewrite inner_pair_perm in Hnd'. apply NoDup_cons in Hnd' as [H1 H2]. apply NoDup_cons in H2 as [H2 _]. apply not_elem_of_cons in H1 as [H0 H1].
  pose proof Hpp as Hpp'. rewrite inner_pair_perm in Hpp'. apply not_elem_of_cons in Hpp' as [H3 H4]. by apply not_elem_of_cons in H4 as [H4 _].
Qed.

Let pred_key : cell (islotkey np) (zlen k1) = Some k.
Proof. apply (cells_cell _ _ _ _ _ (ir_key _ _ _ Hrp) (zlen_nonneg k1)). unfold zlen. rewrite Nat2Z.id. by apply list_lookup_middle. Qed.

Let joined : exact l (kx ++ k :: ky) (cx ++ cy) /\ Forall (stx_wf 8 l) (cx ++ cy).
Proof.
  destruct Hx as (_ & Ex & Wx), Hy as (_ & Ey & Wy). split; [|by apply Forall_app]. apply exact_join; [done|by apply wfs_keys| |done]. exact Hk.
Qed.

Lemma merge_inner_pair : zlen kx + zlen ky <= 15 ->
  exists s', merge_inner s px py pp (zlen k1) = Some (s', mkResult btree_fixmerge 0) /\
    changed s s' (S l) [TInner px kx cx; TInner py ky cy] [TInner px (kx ++ k :: ky) (cx ++ cy)] [] [py] pre post /\ emptied s' (S l) py /\ stx_wf 8 (S l) (TInner px (kx ++ k :: ky) (cx ++ cy)).
Proof.
  intros Hlen. destruct facts as (nx & ny & Hnx & Hny & Lx & Ly & Rx & Ry & Hc & Hxy & Hpx & Hpy & Fx & Fy). destruct joined as [He Hw].
  unfold merge_inner. rewrite (get_inner_lookup _ _ _ Hnx), (get_inner_lookup _ _ _ Hny), (get_inner_lookup _ _ _ Hnp). cbn [mbind option_bind]. rewrite pred_key. cbn [mbind option_bind].
  destruct (merge_inner_slots_spec nx ny kx _ ky _ k Rx Ry) as (nx' & ny' & -> & Lx' & Rx' & Hy0 & Ly'); [change innerslotmax with 16; lia|]. cbn [mbind option_bind].
  eexists. split; [done|]. split; [|split].
  - assert (Hperm : fptrs (S l) [TInner px (kx ++ k :: ky) (cx ++ cy)] ++ [py] ≡ₚ fptrs (S l) [TInner px kx cx; TInner py ky cy]).
    { rewrite inner_pair_perm, fptrs_one, tptrs_inner. solve_Permutation. }
    constructor; rewrite ?Hperm; cbn [nodes set_node]; try done.
    + constructor; [|constructor]. exists nx'. rewrite lookup_insert_ne by done. rewrite lookup_insert_eq. split; [done|]. split; [congruence|]. rewrite fmap_app. split; [done|].
      eapply stx_reps_ext; [|exact Hc]. intros q Hq. rewrite !lookup_insert_ne; [done|by intros ->..].
    + intros q Hq. by rewrite <-Hperm.
    + intros q. rewrite inner_pair_perm. intros Hq _. apply not_elem_of_cons in Hq as [Hq1 Hq]. apply not_elem_of_cons in Hq as [Hq2 _]. by rewrite !lookup_insert_ne.
    + intros q Hq _. by rewrite Hperm.
    + rewrite inner_pair_leaves in Hl. rewrite fleaves_one. by apply (linked_fields s).
    + rewrite inner_pair_leaves, fleaves_one. cbn. fold (fleaves l (cx ++ cy)). lia.
    + rewrite inner_pair_inners, finners_one. cbn [tinners]. fold (finners l (cx ++ cy)). rewrite zlen_cons. unfold zlen. cbn. lia.
  - exists (SInner ny'). cbn [nodes set_node]. by rewrite lookup_insert_eq.
  - split; [|by split]. rewrite zlen_app, zlen_cons. pose proof (wf_tsize _ _ _ Hx). pose proof (wf_tsize _ _ _ Hy). cbn [tsize] in *. lia.
Qed.

(** What the two nodes hold after a shift, where the children are the same. *)
Let shifted nx' ny' kx' k' ky' cx' cy' : kx' ++ k' :: ky' = kx ++ k :: ky -> cx' ++ cy' = cx ++ cy -> zlen cx' = zlen kx' + 1 -> ilevel nx' = Z.of_nat (S l) -> ilevel ny' = Z.of_nat (S l) ->
  stx_inner_rep nx' kx' (tptr <$> cx') -> stx_inner_rep ny' ky' (tptr <$> cy') -> 8 <= zlen kx' -> 8 <= zlen ky' ->
  exists s', set_parent_key (set_node (set_node s px (SInner nx')) py (SInner ny')) pp (zlen k1) k' = Some s' /\ rebalanced s (S l) pp k1 k2 cs (ilevel np) (TInner px kx cx) (TInner py ky cy) pre post s'.
Proof.
  intros Ek Ec Hlen Lx Ly Rx Ry H8x H8y. destruct facts as (nx & ny & _ & _ & _ & _ & _ & _ & Hc & Hxy & Hpx & Hpy & _ & _). destruct joined as [He Hw]. rewrite <-Ek, <-Ec in He. rewrite <-Ec in Hw.
  assert (Hp1 : nodes (set_node (set_node s px (SInner nx')) py (SInner ny')) !! pp = Some (SInner np)) by (cbn [nodes set_node]; by rewrite !lookup_insert_ne by done).
  destruct (set_parent_key_spec _ pp np k1 k k2 cs k' Hp1 Hrp) as (n' & -> & Hlev & Rp). eexists. split; [done|]. pose proof (wfs_keys _ _ Hw) as Hne. apply Forall_app in Hne as [Hne _].
  destruct (exact_cut l kx' cx' k' ky' cy' He Hlen Hne) as (Ex & Ey & Hk'). apply Forall_app in Hw as [Wx Wy].
  exists (TInner px kx' cx'), (TInner py ky' cy'), n', k'. rewrite inner_pair_leaves in Hl.
  split; [apply changed_set; [by apply changed_inners|done]|]. do 2 (split; [done|]). split; [by rewrite !inner_pair_pairs, Ec|]. do 2 (split; [done|]). split; [exact Hk'|].
  split; [cbn [nodes set_node]; by rewrite lookup_insert_eq|]. by split.
Qed.

Lemma shift_left_inner_pair : zlen kx = 7 -> 9 <= zlen ky ->
  exists s', shift_left_inner s px py pp (zlen k1) = Some s' /\ rebalanced s (S l) pp k1 k2 cs (ilevel np) (TInner px kx cx) (TInner py ky cy) pre post s'.
Proof.
  intros H7 H9. destruct facts as (nx & ny & Hnx & Hny & Lx & Ly & Rx & Ry & Hc & Hxy & Hpx & Hpy & _).
  unfold shift_left_inner. rewrite (get_inner_lookup _ _ _ Hnx), (get_inner_lookup _ _ _ Hny), (get_inner_lookup _ _ _ Hnp). cbn [mbind option_bind]. rewrite pred_key. cbn [mbind option_bind].
  destruct (shift_left_inner_slots_spec nx ny kx _ ky _ k Rx Ry ltac:(lia)) as (nx' & ny' & ka & k' & kb & ca & cb & -> & Eky & Ecy & Hca & Lx' & Ly' & Rx' & Ry' & Hn). cbn [mbind option_bind].
  apply fmap_app_inv in Ecy as (da & db & -> & -> & Ecy). rewrite <-fmap_app in Rx'. pose proof (shiftr_half (zlen ky - zlen kx)) as Hh. rewrite <-Hn, zlen_fmap in Hh. rewrite zlen_fmap in Hca.
  pose proof (ir_count _ _ _ Rx) as Hcx. rewrite zlen_fmap in Hcx. assert (Hzk : zlen ky = zlen ka + (1 + zlen kb)) by by rewrite Eky, zlen_app, zlen_cons. pose proof (stx_inner_rep_len _ _ _ Ry) as Hmax. change innerslotmax with 16 in Hmax.
  apply (shifted nx' ny' (kx ++ k :: ka) k' kb (cx ++ da) db); try congruence; rewrite ?zlen_app, ?zlen_cons; try lia.
  - by rewrite <-app_assoc, Eky.
  - by rewrite <-app_assoc, Ecy.
Qed.

Lemma shift_right_inner_pair : 9 <= zlen kx -> zlen ky = 7 ->
  exists s', shift_right_inner s px py pp (zlen k1) = Some s' /\ rebalanced s (S l) pp k1 k2 cs (ilevel np) (TInner px kx cx) (TInner py ky cy) pre post s'.
Proof.
  intros H9 H7. destruct facts as (nx & ny & Hnx & Hny & Lx & Ly & Rx & Ry & Hc & Hxy & Hpx & Hpy & _).
  unfold shift_right_inner. rewrite (get_inner_lookup _ _ _ Hnx), (get_inner_lookup _ _ _ Hny), (get_inner_lookup _ _ _ Hnp). cbn [mbind option_bind]. rewrite pred_key. cbn [mbind option_bind].
  destruct (shift_right_inner_slots_spec nx ny kx _ ky _ k Rx Ry ltac:(lia)) as (nx' & ny' & ka & k' & kb & ca & cb & -> & Ekx & Ecx & Hca & Lx' & Ly' & Rx' & Ry' & Hn). cbn [mbind option_bind].
  apply fmap_app_inv in Ecx as (da & db & -> & -> & Ecx). rewrite <-fmap_app in Ry'. pose proof (shiftr_half (zlen kx - zlen ky)) as Hh. rewrite <-Hn, zlen_fmap in Hh. rewrite zlen_fmap in Hca.
  pose proof (ir_count _ _ _ Rx) as Hcx. rewrite zlen_fmap, Ecx, zlen_app in Hcx. assert (Hzk : zlen kx = zlen ka + (1 + zlen kb)) by by rewrite Ekx, zlen_app, zlen_cons.
  apply (shifted nx' ny' ka k' (kb ++ k :: ky) da (db ++ cy)); try congruence; rewrite ?zlen_app, ?zlen_cons; try lia.
  - rewrite Ekx, <-app_assoc. done.
  - by rewrite Ecx, <-app_assoc.
Qed.
End Inners.
