(* ===== verification/StxRemove.v ===== *)
(** * stx::btree: removal keeps the tree

    The descent removes the pair from its leaf; on the way back every node that is no
    longer half full is merged with a neighbour or takes something from it
    ([choose_spec]), and its parent removes an emptied node ([remove_merged_spec]).  All
    nodes but the root are at least half full again, and every separator is again the
    greatest key on its left ([settled]).  Removal at an iterator does the same as removal
    of the key it stands on. *)

From S2P Require Import Prelude Words Index StxNode StxTree StxInv StxInsert StxSearch StxErase.
From Stdlib Require Import Sorted.
From stdpp Require Import gmap list.
Local Open Scope Z_scope.
Local Open Scope cxx_scope.

(** ** Neighbours *)

(** A subtree away from the nodes [P]. *)
Definition outer (s : Stx) (l : nat) (P : list Z) (q : Z) : Prop :=
  exists t, tptr t = q /\ stx_rep (nodes s) l t /\ stx_wf 8 l t /\ forall x, x ∈ tptrs l t -> x ∉ P.

(** The neighbour [q] below [par] on one side, where [o] is the sibling on that side. *)
Definition side (s : Stx) (l : nat) (pp : Z) (P : list Z) (par q : Z) (o : option btree) : Prop :=
  match o with
  | Some x => par = pp /\ q = tptr x
  | None => (par ∉ pp :: P) /\ (q = 0 \/ outer s l (pp :: P) q)
  end.

(** The child [c] of [pp] between its siblings, and what was passed down about them. *)
Record placed (s : Stx) (l : nat) (pp : Z) (c1 : list btree) (c : btree) (c2 : list btree) (a : Around) : Prop := {
  pl_parent : parent a = pp;
  pl_slot : parentslot a = zlen c1;
  pl_left : side s l pp (fptrs l (c1 ++ c :: c2)) (leftparent a) (left a) (last c1);
  pl_right : side s l pp (fptrs l (c1 ++ c :: c2)) (rightparent a) (right a) (head c2)
}.

(** ** Which remedy *)

Lemma side_view s q b : (q = 0 \/ few s q = Some b) -> exists nf sf sn, null_or_few s q = Some nf /\ some_and_few s q = Some sf /\ some_not_few s q = Some sn /\
  ((nf = true /\ sf = false /\ sn = false) \/ (nf = b /\ sf = b /\ sn = negb b)).
Proof.
  unfold null_or_few, some_and_few, some_not_few. intros H. destruct (Z.eqb_spec q 0) as [->|Hq]; [eauto 10|]. destruct H as [?|H]; [done|]. rewrite H. cbn. eauto 10.
Qed.

Lemma sibling_view s l x : tptr x <> 0 -> stx_rep (nodes s) l x -> null_or_few s (tptr x) = Some (tsize x <=? 8) /\ some_and_few s (tptr x) = Some (tsize x <=? 8) /\ some_not_few s (tptr x) = Some (negb (tsize x <=? 8)).
Proof.
  intros Hx Hr. unfold null_or_few, some_and_few, some_not_few. rewrite (proj2 (Z.eqb_neq _ _) Hx), (rep_few s l x Hr). done.
Qed.

(** A neighbour is there when it is needed, and it has as many pairs or children as needed. *)
Definition remedy_fits (pp : Z) (a : Around) (c1 c2 : list btree) (f : Remedy) : Prop :=
  match f with
  | MergeLeft => exists d x, c1 = d ++ [x] /\ left a = tptr x /\ leftparent a = pp /\ tsize x <= 8
  | TakeLeft => exists d x, c1 = d ++ [x] /\ left a = tptr x /\ leftparent a = pp /\ 9 <= tsize x
  | MergeRight => exists y d, c2 = y :: d /\ right a = tptr y /\ rightparent a = pp /\ tsize y <= 8
  | TakeRight => exists y d, c2 = y :: d /\ right a = tptr y /\ rightparent a = pp /\ 9 <= tsize y
  end.

Lemma choose_spec s l pp c1 c2 a : parent a = pp -> c1 ++ c2 <> [] -> Forall (fun c => tptr c <> 0) (c1 ++ c2) -> Forall (stx_rep (nodes s) l) (c1 ++ c2) ->
  match last c1 with Some x => leftparent a = pp /\ left a = tptr x | None => leftparent a <> pp /\ (left a = 0 \/ exists b, few s (left a) = Some b) end ->
  match head c2 with Some y => rightparent a = pp /\ right a = tptr y | None => rightparent a <> pp /\ (right a = 0 \/ exists b, few s (right a) = Some b) end ->
  exists f, StxErase.choose s a = Some f /\ remedy_fits pp a c1 c2 f.
Proof.
  intros Ep Hne H0 Hr HL HR. apply Forall_app in H0 as [H01 H02]. apply Forall_app in Hr as [Hr1 Hr2]. unfold StxErase.choose. rewrite Ep.
  destruct c1 as [|x d1 _] using rev_ind.
  - cbn [last] in HL. destruct HL as [HLp HL]. destruct c2 as [|y d2]; [done|]. cbn [head] in HR. destruct HR as [HRp HRq].
    apply Forall_cons in H02 as [H0y _]. apply Forall_cons in Hr2 as [Hry _]. destruct (sibling_view s l y H0y Hry) as (Y1 & Y2 & Y3). rewrite <-HRq in Y1, Y2, Y3. rewrite Y1, Y2, Y3.
    assert (HL' : exists b, left a = 0 \/ few s (left a) = Some b) by (destruct HL as [?|[b ?]]; [exists true; by left|exists b; by right]). destruct HL' as [b HL'].
    destruct (side_view s (left a) b HL') as (nf & sf & sn & -> & -> & -> & HV). cbn [mbind option_bind]. rewrite (proj2 (Z.eqb_neq (leftparent a) pp) HLp), HRp, Z.eqb_refl, (proj2 (Z.eqb_neq (leftparent a) pp) HLp).
    destruct HV as [(-> & -> & ->)|(-> & -> & ->)]; [|destruct b]; destruct (Z.leb_spec (tsize y) 8); cbn [andb negb]; eexists; (split; [done|]); exists y, d2; repeat split; try done; lia.
  - rewrite last_snoc in HL. destruct HL as [HLp HLq]. apply Forall_app in H01 as [_ H0x]. apply Forall_cons in H0x as [H0x _]. apply Forall_app in Hr1 as [_ Hrx]. apply Forall_cons in Hrx as [Hrx _].
    destruct (sibling_view s l x H0x Hrx) as (X1 & X2 & X3). rewrite <-HLq in X1, X2, X3. rewrite X1, X2, X3. destruct c2 as [|y d2].
    + cbn [head] in HR. destruct HR as [HRp HR]. assert (HR' : exists b, right a = 0 \/ few s (right a) = Some b) by (destruct HR as [?|[b ?]]; [exists true; by left|exists b; by right]). destruct HR' as [b HR'].
      destruct (side_view s (right a) b HR') as (nf & sf & sn & -> & -> & -> & HV). cbn [mbind option_bind]. rewrite HLp, Z.eqb_refl, (proj2 (Z.eqb_neq _ _) HRp), (proj2 (Z.eqb_neq pp _) (not_eq_sym HRp)).
      destruct HV as [(-> & -> & ->)|(-> & -> & ->)]; [|destruct b]; destruct (Z.leb_spec (tsize x) 8); cbn [andb negb]; eexists; (split; [done|]); exists d1, x; repeat split; try done; lia.
    + cbn [head] in HR. destruct HR as [HRp HRq]. apply Forall_cons in H02 as [H0y _]. apply Forall_cons in Hr2 as [Hry _].
      destruct (sibling_view s l y H0y Hry) as (Y1 & Y2 & Y3). rewrite <-HRq in Y1, Y2, Y3. rewrite Y1, Y2, Y3. cbn [mbind option_bind]. rewrite HLp, HRp, Z.eqb_refl, HLq, HRq.
      rewrite (rep_slots s l x Hrx), (rep_slots s l y Hry). cbn [mbind option_bind].
      destruct (Z.leb_spec (tsize x) 8), (Z.leb_spec (tsize y) 8); cbn [andb negb]; [..|destruct (tsize x <=? tsize y)]; eexists; (split; [done|]); cbn [remedy_fits];
        first [exists d1, x; repeat split; try done; lia|exists y, d2; repeat split; try done; lia].
Qed.

(** ** The operations on leaves and on inner nodes in one form *)

Definition merge_any (l : nat) (t : Stx) (x y parent slot : Z) : option (Stx * result_t) :=
  match l with O => merge_leaves t x y | S _ => merge_inner t x y parent slot end.

Definition take_right_any (l : nat) (t : Stx) (x y parent slot : Z) : option (Stx * result_t) :=
  match l with O => shift_left_leaf t x y parent slot | S _ => t ← shift_left_inner t x y parent slot; Some (t, rok) end.

Definition take_left_any (l : nat) (t : Stx) (x y parent slot : Z) : option Stx :=
  match l with O => shift_right_leaf t x y parent slot | S _ => shift_right_inner t x y parent slot end.

Section Any.
Context (s : Stx) (l : nat) (pp : Z) (np : inner_node) (k1 : list Z) (k : Z) (k2 cs : list Z) (x y : btree) (pre post : list Z).
Context (Hnp : nodes s !! pp = Some (SInner np)) (Hrp : stx_inner_rep np (k1 ++ k :: k2) cs).

Definition pair_ok : Prop :=
  Forall (stx_rep (nodes s) l) [x; y] /\ stx_wf 7 l x /\ stx_wf 7 l y /\ last (tkeys l x) = Some k /\ linked s (pre ++ (fleaves l [x; y]).*1 ++ post) /\
  NoDup (fptrs l [x; y]) /\ (pp ∉ fptrs l [x; y]) /\
  (l = O -> NoDup (pre ++ (fleaves l [x; y]).*1 ++ post) /\ Forall (fun q => q <> 0) (pre ++ (fleaves l [x; y]).*1 ++ post)).

Lemma merge_any_spec : pair_ok -> tsize x + tsize y <= 15 ->
  exists s' t, merge_any l s (tptr x) (tptr y) pp (zlen k1) = Some (s', mkResult btree_fixmerge 0) /\ changed s s' l [x; y] [t] [] [tptr y] pre post /\
    tptr t = tptr x /\ fpairs l [t] = fpairs l [x; y] /\ stx_wf 8 l t /\ emptied s' l (tptr y).
Proof.
  intros (Hr & Wx & Wy & Hk & Hl & Hnd & Hpp & Hch) Hsz. destruct l as [|l'].
  - destruct x as [px ex|], y as [py ey|]; try done. destruct (Hch eq_refl) as [Hn H0]. cbn [tsize stx_wf merge_any tptr] in *.
    destruct (merge_leaves_pair s px ex py ey pre post Hr Hl Hn H0 ltac:(lia)) as (s' & E & Hc & He). exists s', (TLeaf px (ex ++ ey)). do 3 (split; [done|]).
    split; [unfold fpairs; cbn; by rewrite !app_nil_r|]. split; [|done]. cbn [stx_wf]. rewrite zlen_app. lia.
  - destruct x as [|px kx cx], y as [|py ky cy]; try done. cbn [tsize merge_any tptr] in *.
    destruct (merge_inner_pair s pp np k1 k k2 cs l' px kx cx py ky cy pre post Hnp Hrp Hr Wx Wy Hk Hl Hnd Hpp Hsz) as (s' & E & Hc & He & Hw).
    exists s', (TInner px (kx ++ k :: ky) (cx ++ cy)). do 3 (split; [done|]). split; [|done]. by rewrite inner_pair_pairs, fpairs_one.
Qed.

Lemma take_right_any_spec : pair_ok -> tsize x = 7 -> 9 <= tsize y ->
  exists s', take_right_any l s (tptr x) (tptr y) pp (zlen k1) = Some (s', rok) /\ rebalanced s l pp k1 k2 cs (ilevel np) x y pre post s'.
Proof.
  intros (Hr & Wx & Wy & Hk & Hl & Hnd & Hpp & Hch) H7 H9. destruct l as [|l'].
  - destruct x as [px ex|], y as [py ey|]; try done. destruct (Hch eq_refl) as [Hn H0]. cbn [tsize tptr take_right_any] in *.
    apply NoDup_cons in Hnd as [Hxy _]. apply (shift_left_leaf_pair s pp np k1 k k2 cs px ex py ey pre post Hnp Hrp Hr Hl); try done. intros ->. apply Hxy. constructor.
  - destruct x as [|px kx cx], y as [|py ky cy]; try done. cbn [tsize tptr take_right_any] in *.
    destruct (shift_left_inner_pair s pp np k1 k k2 cs l' px kx cx py ky cy pre post Hnp Hrp Hr Wx Wy Hk Hl Hnd Hpp H7 H9) as (s' & -> & H). by exists s'.
Qed.

Lemma take_left_any_spec : pair_ok -> 9 <= tsize x -> tsize y = 7 ->
  exists s', take_left_any l s (tptr x) (tptr y) pp (zlen k1) = Some s' /\ rebalanced s l pp k1 k2 cs (ilevel np) x y pre post s'.
Proof.
  intros (Hr & Wx & Wy & Hk & Hl & Hnd & Hpp & Hch) H9 H7. destruct l as [|l'].
  - destruct x as [px ex|], y as [py ey|]; try done. destruct (Hch eq_refl) as [Hn H0]. cbn [tsize tptr take_left_any] in *.
    apply NoDup_cons in Hnd as [Hxy _]. apply (shift_right_leaf_pair s pp np k1 k k2 cs px ex py ey pre post Hnp Hrp Hr Hl); try done. intros ->. apply Hxy. constructor.
  - destruct x as [|px kx cx], y as [|py ky cy]; try done. cbn [tsize tptr take_left_any] in *.
    apply (shift_right_inner_pair s pp np k1 k k2 cs l' px kx cx py ky cy pre post Hnp Hrp Hr Wx Wy Hk Hl Hnd Hpp H9 H7).
Qed.
End Any.

(** ** The children of a node after a removal below one of them *)

(** With [merged] a neighbour of the child at slot [i], or the child, is empty: the node still points to it, and the key between the two is still there.
    [P] holds the nodes further up that were written. *)
Definition settled (s s' : Stx) (l : nat) (pp : Z) (P : list Z) (ks : list Z) (cs : list btree) (ks' : list Z) (cs' : list btree) (i : Z) (merged : bool) (pre post : list Z) : Prop :=
  exists n, nodes s' !! pp = Some (SInner n) /\ ilevel n = Z.of_nat (S l) /\ exact l ks' cs' /\ Forall (stx_wf 8 l) cs' /\ zlen ks' = zlen ks - (if merged then 1 else 0) /\
    if merged then exists ca t cb q ka k kb, cs' = ca ++ t :: cb /\ ks' = ka ++ kb /\ zlen ka = zlen ca /\ stx_inner_rep n (ka ++ k :: kb) ((tptr <$> ca) ++ tptr t :: q :: (tptr <$> cb)) /\
      emptied s' l q /\ (i = zlen ca \/ i = zlen ca + 1) /\ changed s s' l cs cs' (pp :: P) [q] pre post
    else stx_inner_rep n ks' (tptr <$> cs') /\ changed s s' l cs cs' (pp :: P) [] pre post.

Section Pair.
Context (s : Stx) (l : nat) (pp : Z) (np : inner_node) (k1 : list Z) (k : Z) (k2 : list Z) (d1 : list btree) (x y : btree) (d2 : list btree) (pre post : list Z).
Context (Hnp : nodes s !! pp = Some (SInner np)) (Hlev : ilevel np = Z.of_nat (S l)) (Hrp : stx_inner_rep np (k1 ++ k :: k2) (tptr <$> (d1 ++ x :: y :: d2))).
Context (Hlen : length d1 = length k1) (Hx : exact l (k1 ++ k :: k2) (d1 ++ x :: y :: d2)) (Hrep : Forall (stx_rep (nodes s) l) (d1 ++ x :: y :: d2)).
Context (Hnd : NoDup (fptrs l (d1 ++ x :: y :: d2))) (Hpp : pp ∉ fptrs l (d1 ++ x :: y :: d2)) (W1 : Forall (stx_wf 8 l) d1) (W2 : Forall (stx_wf 8 l) d2) (Wy : stx_wf 7 l y).

Let pair_app : d1 ++ x :: y :: d2 = d1 ++ [x; y] ++ d2.
Proof. done. Qed.

Let pair_out : pp ∉ fptrs l [x; y].
Proof. intros H. apply Hpp. rewrite pair_app, !fptrs_app, !elem_of_app. tauto. Qed.

Let pair_within s' ds P G : changed s s' l [x; y] ds P G (pre ++ (fleaves l d1).*1) ((fleaves l d2).*1 ++ post) -> (forall q, q ∈ P -> q = pp) -> changed s s' l (d1 ++ x :: y :: d2) (d1 ++ ds ++ d2) [pp] G pre post.
Proof.
  intros H HP. rewrite pair_app. apply (changed_weaken _ _ _ _ _ P); [|intros q Hq; rewrite (HP q Hq); constructor]. apply changed_within; try done. intros q Hq. by rewrite (HP q Hq).
Qed.

Lemma settle_merge s' t i : changed s s' l [x; y] [t] [] [tptr y] (pre ++ (fleaves l d1).*1) ((fleaves l d2).*1 ++ post) -> tptr t = tptr x -> fpairs l [t] = fpairs l [x; y] ->
  stx_wf 8 l t -> emptied s' l (tptr y) -> (i = zlen d1 \/ i = zlen d1 + 1) ->
  settled s s' l pp [] (k1 ++ k :: k2) (d1 ++ x :: y :: d2) (k1 ++ k2) (d1 ++ t :: d2) i true pre post /\ fpairs l (d1 ++ t :: d2) = fpairs l (d1 ++ x :: y :: d2).
Proof.
  intros Hc Ht Hp Wt He Hi. split; [|rewrite pair_app; change (t :: d2) with ([t] ++ d2); by rewrite !fpairs_app, Hp].
  exists np. split; [rewrite (ch_frame _ _ _ _ _ _ _ _ _ Hc); [done|done|apply not_elem_of_nil]|]. split; [done|]. split; [|split; [|split]].
  - apply exact_app in Hx as [H1 [_ H2]]; [|done]. apply exact_app; [done|]. split; [done|]. eapply exact_first; [exact H2|]. intros _.
    rewrite <-(last_fkeys l [] t), <-(last_fkeys l [x] y) by (eapply wf_keys; [|eassumption]; lia). cbn [app]. by rewrite Hp.
  - apply Forall_app. split; [done|]. by constructor.
  - rewrite !zlen_app, zlen_cons. lia.
  - exists d1, t, d2, (tptr y), k1, k, k2. split; [done|]. split; [done|]. split; [unfold zlen; lia|]. split; [rewrite Ht; by rewrite fmap_app in Hrp|]. split; [done|]. split; [done|].
    apply (pair_within s' [t] []); [done|]. intros q Hq. by apply elem_of_nil in Hq.
Qed.

Lemma settle_shift s' i : rebalanced s l pp k1 k2 (tptr <$> (d1 ++ x :: y :: d2)) (ilevel np) x y (pre ++ (fleaves l d1).*1) ((fleaves l d2).*1 ++ post) s' ->
  exists ks' cs', settled s s' l pp [] (k1 ++ k :: k2) (d1 ++ x :: y :: d2) ks' cs' i false pre post /\ fpairs l cs' = fpairs l (d1 ++ x :: y :: d2).
Proof.
  intros (x' & y' & n' & k' & Hc & Ex & Ey & Hp & Wx' & Wy' & Hk & Hn' & Hl' & Hr'). exists (k1 ++ k' :: k2), (d1 ++ [x'; y'] ++ d2).
  split; [|rewrite pair_app, !fpairs_app; by rewrite Hp]. exists n'. split; [done|]. split; [congruence|]. split; [|split; [|split]].
  - apply exact_app in Hx as [H1 [_ H2]]; [|done]. cbn [app]. apply exact_app; [done|]. split; [done|]. split; [done|]. eapply exact_first; [exact H2|]. intros _.
    apply (same_last l x y x' y'); [eapply wf_keys; [|exact Wy]; lia|eapply wf_keys; [|exact Wy']; lia|done].
  - apply Forall_app. split; [done|]. by repeat constructor.
  - rewrite !zlen_app, !zlen_cons. lia.
  - split; [rewrite !fmap_app in *; cbn [fmap list_fmap app] in *; by rewrite Ex, Ey|]. apply (pair_within s' [x'; y'] [pp]); [done|]. by intros q ->%list_elem_of_singleton.
Qed.
Context (Wx : stx_wf 7 l x) (Hl : linked s (pre ++ (fleaves l (d1 ++ x :: y :: d2)).*1 ++ post)).
Context (Hch : l = O -> NoDup (pre ++ (fleaves l (d1 ++ x :: y :: d2)).*1 ++ post) /\ Forall (fun q => q <> 0) (pre ++ (fleaves l (d1 ++ x :: y :: d2)).*1 ++ post)).

Let pre' := pre ++ (fleaves l d1).*1.
Let post' := (fleaves l d2).*1 ++ post.

Let chain_eq : pre ++ (fleaves l (d1 ++ x :: y :: d2)).*1 ++ post = pre' ++ (fleaves l [x; y]).*1 ++ post'.
Proof. unfold pre', post'. by rewrite pair_app, !fleaves_app, !fmap_app, <-!app_assoc. Qed.

Let pair_rep : Forall (stx_rep (nodes s) l) [x; y].
Proof. pose proof Hrep as H. rewrite pair_app in H. apply Forall_app in H as [_ H]. by apply Forall_app in H as [H _]. Qed.

Let pair_nodup : NoDup (fptrs l [x; y]).
Proof. pose proof Hnd as H. rewrite pair_app, !fptrs_app in H. apply NoDup_app in H as (_ & _ & H). by apply NoDup_app in H as (H & _). Qed.

Let pair_linked : linked s (pre' ++ (fleaves l [x; y]).*1 ++ post').
Proof. by rewrite <-chain_eq. Qed.

Let pair_key : last (tkeys l x) = Some k.
Proof. by apply exact_app in Hx as [_ [H _]]. Qed.

Lemma pair_is_ok : pair_ok s l pp k x y pre' post'.
Proof. split; [done|]. do 6 (split; [done|]). intros E. rewrite <-chain_eq. by apply Hch. Qed.

Lemma merge_pair i : tsize x + tsize y <= 15 -> (i = zlen d1 \/ i = zlen d1 + 1) ->
  exists s' ks' cs', merge_any l s (tptr x) (tptr y) pp (zlen k1) = Some (s', mkResult btree_fixmerge 0) /\
    settled s s' l pp [] (k1 ++ k :: k2) (d1 ++ x :: y :: d2) ks' cs' i true pre post /\ fpairs l cs' = fpairs l (d1 ++ x :: y :: d2).
Proof.
  intros Hsz Hi. destruct (merge_any_spec _ _ _ _ _ _ _ _ _ _ _ _ Hnp Hrp pair_is_ok Hsz) as (s' & t & E & Hc & Ht & Hp & Wt & He).
  exists s', (k1 ++ k2), (d1 ++ t :: d2). split; [done|]. by apply settle_merge.
Qed.

Lemma take_right_pair i : tsize x = 7 -> 9 <= tsize y -> exists s' ks' cs', take_right_any l s (tptr x) (tptr y) pp (zlen k1) = Some (s', rok) /\
    settled s s' l pp [] (k1 ++ k :: k2) (d1 ++ x :: y :: d2) ks' cs' i false pre post /\ fpairs l cs' = fpairs l (d1 ++ x :: y :: d2).
Proof.
  intros H7 H9. destruct (take_right_any_spec _ _ _ _ _ _ _ _ _ _ _ _ Hnp Hrp pair_is_ok H7 H9) as (s' & E & Hr). destruct (settle_shift s' i Hr) as (ks' & cs' & H). by exists s', ks', cs'.
Qed.

Lemma take_left_pair i : 9 <= tsize x -> tsize y = 7 -> exists s' ks' cs', take_left_any l s (tptr x) (tptr y) pp (zlen k1) = Some s' /\
    settled s s' l pp [] (k1 ++ k :: k2) (d1 ++ x :: y :: d2) ks' cs' i false pre post /\ fpairs l cs' = fpairs l (d1 ++ x :: y :: d2).
Proof.
  intros H9 H7. destruct (take_left_any_spec _ _ _ _ _ _ _ _ _ _ _ _ Hnp Hrp pair_is_ok H9 H7) as (s' & E & Hr). destruct (settle_shift s' i Hr) as (ks' & cs' & H). by exists s', ks', cs'.
Qed.
End Pair.

(** ** A child that is no longer half full *)

(** The children of [pp], of which [c] may have too few pairs or children. *)
Record family (s : Stx) (l : nat) (pp : Z) (ks : list Z) (c1 : list btree) (c : btree) (c2 : list btree) (pre post : list Z) : Prop := {
  fa_node : exists np, nodes s !! pp = Some (SInner np) /\ ilevel np = Z.of_nat (S l) /\ stx_inner_rep np ks (tptr <$> (c1 ++ c :: c2));
  fa_exact : exact l ks (c1 ++ c :: c2);
  fa_rep : Forall (stx_rep (nodes s) l) (c1 ++ c :: c2);
  fa_nodup : NoDup (fptrs l (c1 ++ c :: c2));
  fa_pos q : q ∈ fptrs l (c1 ++ c :: c2) -> q <> 0;
  fa_out : pp ∉ fptrs l (c1 ++ c :: c2);
  fa_linked : linked s (pre ++ (fleaves l (c1 ++ c :: c2)).*1 ++ post);
  fa_chain : l = O -> NoDup (pre ++ (fleaves l (c1 ++ c :: c2)).*1 ++ post) /\ Forall (fun q => q <> 0) (pre ++ (fleaves l (c1 ++ c :: c2)).*1 ++ post);
  fa_wf : Forall (stx_wf 8 l) (c1 ++ c2)
}.

Definition with_flag (r : result_t) (merged : bool) : result_t := mkResult (Z.lor (rflags r) (if merged then btree_fixmerge else 0)) (lastkey r).

Lemma merge_result_fixmerge r k : merge_result r (mkResult btree_fixmerge k) = with_flag r true.
Proof. done. Qed.

Lemma merge_result_rok r : merge_result r rok = with_flag r false.
Proof. done. Qed.

Lemma with_flag_false r : with_flag r false = r.
Proof. unfold with_flag. rewrite Z.lor_0_r. by destruct r. Qed.

Definition fix_any (l : nat) (t : Stx) (p : Z) (a : Around) (r : result_t) : option (Stx * result_t) :=
  f ← StxErase.choose t a;
  match f with
  | MergeLeft => '(t, r') ← merge_any l t (left a) p (leftparent a) (parentslot a - 1); Some (t, merge_result r r')
  | MergeRight => '(t, r') ← merge_any l t p (right a) (rightparent a) (parentslot a); Some (t, merge_result r r')
  | TakeRight => '(t, r') ← take_right_any l t p (right a) (rightparent a) (parentslot a); Some (t, merge_result r r')
  | TakeLeft => t ← take_left_any l t (left a) p (leftparent a) (parentslot a - 1); Some (t, r)
  end.

Lemma fix_leaf_any t p a r : (left a =? 0) && (right a =? 0) = false -> fix_leaf t p a r = fix_any 0 t p a r.
Proof. intros H. unfold fix_leaf. by rewrite H. Qed.

Lemma fix_inner_any l t p a r : (left a =? 0) && (right a =? 0) = false -> fix_inner t p a r = fix_any (S l) t p a r.
Proof.
  intros H. unfold fix_inner, fix_any. rewrite H. destruct (StxErase.choose t a) as [[]|]; try done. cbn. destruct (shift_left_inner _ _ _ _ _) as [t'|]; [|done]. cbn. by rewrite merge_result_rok, with_flag_false.
Qed.

(** The keys around the child behind [d1]. *)
Lemma cut_keys l ks d1 x y d2 : exact l ks (d1 ++ x :: y :: d2) -> exists k1 k k2, ks = k1 ++ k :: k2 /\ length d1 = length k1.
Proof.
  intros H. apply exact_len in H. rewrite length_app in H. cbn in H. destruct (split_key ks (zlen d1)) as (k1 & k & k2 & -> & Hk & _); [unfold zlen; lia|].
  exists k1, k, k2. split; [done|]. unfold zlen in Hk. lia.
Qed.

Definition sibling_or (s : Stx) (pp par q : Z) (o : option btree) : Prop :=
  match o with Some x => par = pp /\ q = tptr x | None => par <> pp /\ (q = 0 \/ exists b, few s q = Some b) end.

Lemma family_ptrs s l pp ks c1 c c2 pre post : family s l pp ks c1 c c2 pre post -> Forall (fun c => tptr c <> 0) (c1 ++ c2) /\ Forall (stx_rep (nodes s) l) (c1 ++ c2).
Proof.
  intros H. pose proof (fa_rep _ _ _ _ _ _ _ _ _ H) as Hr. apply Forall_app in Hr as [H1 H2]. apply Forall_cons in H2 as [_ H2]. split; [|by apply Forall_app].
  rewrite Forall_forall in H1, H2 |- *. intros x Hx. apply (fa_pos _ _ _ _ _ _ _ _ _ H). apply fptrs_elem. exists x. rewrite !elem_of_app, elem_of_cons in *. split; [tauto|].
  apply (tptr_in (nodes s)). destruct Hx; [by apply H1|by apply H2].
Qed.

Lemma fix_any_spec s l pp ks c1 c c2 pre post a r : family s l pp ks c1 c c2 pre post -> stx_wf 7 l c -> tsize c = 7 -> c1 ++ c2 <> [] -> parent a = pp -> parentslot a = zlen c1 ->
  sibling_or s pp (leftparent a) (left a) (last c1) -> sibling_or s pp (rightparent a) (right a) (head c2) ->
  exists s' merged ks' cs', fix_any l s (tptr c) a r = Some (s', with_flag r merged) /\
    settled s s' l pp [] ks (c1 ++ c :: c2) ks' cs' (zlen c1) merged pre post /\ fpairs l cs' = fpairs l (c1 ++ c :: c2).
Proof.
  intros Hf Wc H7 Hne Hpar Hslot HL HR. destruct (family_ptrs _ _ _ _ _ _ _ _ _ Hf) as [H0 Hr]. pose proof Hf as [(np & Hnp & Hlev & Hrp) Hx Hrep Hnd Hpos Hout Hlk Hch Hwf].
  destruct (choose_spec s l pp c1 c2 a Hpar Hne H0 Hr HL HR) as (f & Ef & Hfit). unfold fix_any. rewrite Ef. cbn [mbind option_bind]. rewrite Hslot. apply Forall_app in Hwf as [W1 W2].
  destruct f; cbn [remedy_fits] in Hfit.
  - destruct Hfit as (d & x & -> & Eq & Ep & Hsz). rewrite Eq, Ep. rewrite zlen_app. change (zlen [x]) with 1. replace (zlen d + 1 - 1) with (zlen d) by lia. rewrite <-app_assoc in *. cbn [app] in *.
    destruct (cut_keys _ _ _ _ _ _ Hx) as (k1 & k & k2 & -> & Hlen). apply Forall_app in W1 as [W1 Wx]. apply Forall_cons in Wx as [Wx _]. assert (Ez : zlen d = zlen k1) by (unfold zlen; lia).
    destruct (merge_pair s l pp np k1 k k2 d x c c2 pre post) with (i := zlen d + 1) as (s' & ks' & cs' & E & H); try done; [by eapply wf_least; [|pose proof (wf_tsize _ _ _ Wx); lia]|lia|by right|].
    rewrite Ez. rewrite E. cbn. rewrite merge_result_fixmerge, <-Ez. by exists s', true, ks', cs'.
  - destruct Hfit as (y & d & -> & Eq & Ep & Hsz). rewrite Eq, Ep. destruct (cut_keys _ _ _ _ _ _ Hx) as (k1 & k & k2 & -> & Hlen). apply Forall_cons in W2 as [Wy W2]. assert (Ez : zlen c1 = zlen k1) by (unfold zlen; lia).
    destruct (merge_pair s l pp np k1 k k2 c1 c y d pre post) with (i := zlen c1) as (s' & ks' & cs' & E & H); try done; [by eapply wf_least; [|pose proof (wf_tsize _ _ _ Wy); lia]|lia|by left|].
    rewrite Ez. rewrite E. cbn. rewrite merge_result_fixmerge, <-Ez. by exists s', true, ks', cs'.
  - destruct Hfit as (y & d & -> & Eq & Ep & Hsz). rewrite Eq, Ep. destruct (cut_keys _ _ _ _ _ _ Hx) as (k1 & k & k2 & -> & Hlen). apply Forall_cons in W2 as [Wy W2]. assert (Ez : zlen c1 = zlen k1) by (unfold zlen; lia).
    destruct (take_right_pair s l pp np k1 k k2 c1 c y d pre post) with (i := zlen c1) as (s' & ks' & cs' & E & H); try done; [by eapply wf_least; [|pose proof (wf_tsize _ _ _ Wy); lia]|].
    rewrite Ez. rewrite E. cbn. rewrite merge_result_rok, <-Ez. by exists s', false, ks', cs'.
  - destruct Hfit as (d & x & -> & Eq & Ep & Hsz). rewrite Eq, Ep. rewrite zlen_app. change (zlen [x]) with 1. replace (zlen d + 1 - 1) with (zlen d) by lia. rewrite <-app_assoc in *. cbn [app] in *.
    destruct (cut_keys _ _ _ _ _ _ Hx) as (k1 & k & k2 & -> & Hlen). apply Forall_app in W1 as [W1 Wx]. apply Forall_cons in Wx as [Wx _]. assert (Ez : zlen d = zlen k1) by (unfold zlen; lia).
    destruct (take_left_pair s l pp np k1 k k2 d x c c2 pre post) with (i := zlen d + 1) as (s' & ks' & cs' & E & H); try done; [by eapply wf_least; [|pose proof (wf_tsize _ _ _ Wx); lia]|].
    rewrite Ez. rewrite E. cbn. rewrite <-Ez. exists s', false, ks', cs'. by rewrite with_flag_false.
Qed.

(** ** The node above removes what a merge has emptied *)

Lemma settled_set s s' l p P ks cs ks' cs' i merged pre post x nd : settled s s' l p P ks cs ks' cs' i merged pre post -> x <> p -> x ∉ fptrs l cs ->
  settled s (set_node s' x nd) l p (x :: P) ks cs ks' cs' i merged pre post.
Proof.
  intros (n & Hn & Hl & Hx & Hw & Hk & H) Hne Hout. exists n. split; [cbn [nodes set_node]; by rewrite lookup_insert_ne|]. do 4 (split; [done|]).
  assert (HP : forall q, q ∈ x :: p :: P -> q ∈ p :: x :: P) by (intros q; rewrite !elem_of_cons; tauto). destruct merged.
  - destruct H as (ca & t & cb & q & ka & k & kb & H1 & H2 & H3 & H4 & (nd' & E1 & E2) & H6 & H7). exists ca, t, cb, q, ka, k, kb. do 4 (split; [done|]). split; [|split; [done|]].
    + exists nd'. split; [|done]. cbn [nodes set_node]. rewrite lookup_insert_ne; [done|]. intros ->. apply Hout, (ch_sub _ _ _ _ _ _ _ _ _ H7), elem_of_app. right. constructor.
    + eapply changed_weaken; [|exact HP]. by apply changed_set.
  - destruct H as [H1 H2]. split; [done|]. eapply changed_weaken; [|exact HP]. by apply changed_set.
Qed.

(** Freeing an emptied node. *)
Lemma changed_free s s' l cs cs' P q pre post : changed s s' l cs cs' P [q] pre post -> emptied s' l q -> NoDup (pre ++ (fleaves l cs).*1 ++ post) ->
  exists s2, free_node s' q = Some s2 /\ changed s s2 l cs cs' P [] pre post /\ (forall x, x <> q -> nodes s2 !! x = nodes s' !! x).
Proof.
  intros [A1 A2 A3 A4 A5 A6 A7 A8 A9 A10 A11] (nd & Hq & Hu & Hk) Hch. unfold free_node. rewrite Hq. cbn [mbind option_bind]. eexists. split; [done|].
  apply NoDup_app in A2 as (A2 & Hdis & _). assert (Hne : forall x, x ∈ fptrs l cs' -> x <> q) by (intros x Hx ->; apply (Hdis q Hx); constructor).
  assert (Hqc : q ∈ fptrs l cs) by (apply A3, elem_of_app; right; constructor). set (s2 := match nd with SLeaf _ => _ | SInner _ => _ end).
  assert (Hnodes : nodes s2 = delete q (nodes s')) by by destruct nd.
  split; [|intros x Hx; rewrite Hnodes; by apply lookup_delete_ne]. constructor; rewrite ?Hnodes, ?app_nil_r.
  - eapply stx_reps_ext; [|exact A1]. intros x Hx. apply lookup_delete_ne. intros ->. by apply (Hne x).
  - done.
  - intros x Hx. apply A3, elem_of_app. by left.
  - intros x Hx HP. rewrite lookup_delete_ne by (by intros ->). by apply A4.
  - intros x Hx Hs. destruct (decide (x = q)) as [->|Hxq]; [rewrite lookup_delete_eq in Hs; by destruct Hs|]. rewrite lookup_delete_ne in Hs by done. specialize (A5 x Hx Hs).
    apply elem_of_app in A5 as [A5|A5]; [done|]. by apply list_elem_of_singleton in A5.
  - destruct nd; [|by apply (linked_fields s')]. subst l. destruct A6 as [C1 C2 C3]. constructor; [|done..]. eapply chain_ext; [|exact C1]. intros x Hx. apply lookup_delete_ne. intros ->.
    apply NoDup_app in Hch as (_ & Hc1 & Hch). apply NoDup_app in Hch as (_ & Hc2 & _). assert (Hql : x ∈ (fleaves 0 cs).*1).
    { apply elem_of_app in Hqc as [?|Hqc]; [done|]. exfalso. clear -Hqc. induction cs as [|[] cs IH]; [by apply elem_of_nil in Hqc|by apply IH..]. }
    apply elem_of_app in Hx as [Hx|Hx]; [apply (Hc1 x Hx), elem_of_app; by left|]. apply elem_of_app in Hx as [Hx|Hx]; [apply (Hne x); [apply elem_of_app; by left|done]|by apply (Hc2 x Hql)].
  - by destruct nd.
  - by destruct nd.
  - by destruct nd.
  - destruct nd; [subst l; cbn|destruct l as [|l]; [done|]]; cbn in *; change (zlen [q]) with 1 in *; change (zlen (@nil Z)) with 0; lia.
  - destruct nd; [subst l; cbn|destruct l as [|l]; [done|]]; cbn in *; change (zlen [q]) with 1 in *; change (zlen (@nil Z)) with 0; lia.
Qed.

Lemma remove_merged_spec s s2 l p P pre post dc ca t cb q ka k kb n i : changed s s2 l dc (ca ++ t :: cb) (p :: P) [q] pre post -> NoDup (pre ++ (fleaves l dc).*1 ++ post) -> p ∉ fptrs l dc ->
  nodes s2 !! p = Some (SInner n) -> ilevel n = Z.of_nat (S l) -> stx_inner_rep n (ka ++ k :: kb) ((tptr <$> ca) ++ tptr t :: q :: (tptr <$> cb)) -> zlen ka = zlen ca ->
  exact l (ka ++ kb) (ca ++ t :: cb) -> Forall (stx_wf 8 l) (ca ++ t :: cb) -> emptied s2 l q -> (i = zlen ca \/ i = zlen ca + 1) ->
  exists s3 n3, remove_merged s2 p i = Some s3 /\ changed s s3 l dc (ca ++ t :: cb) (p :: P) [] pre post /\ nodes s3 !! p = Some (SInner n3) /\ ilevel n3 = Z.of_nat (S l) /\
    stx_inner_rep n3 (ka ++ kb) (tptr <$> (ca ++ t :: cb)) /\ (forall x, x <> p -> x <> q -> nodes s3 !! x = nodes s2 !! x).
Proof.
  intros Hc Hch Hp Hn Hlev Hr Hz Hx Hw He Hi. unfold remove_merged. rewrite (get_inner_lookup _ _ _ Hn). cbn [mbind option_bind].
  destruct (changed_free _ _ _ _ _ _ _ _ _ Hc He Hch) as (s3 & Ef & Hc3 & Hf3). pose proof (ch_rep _ _ _ _ _ _ _ _ _ Hc) as Hrep. apply Forall_app in Hrep as [_ Hrep]. apply Forall_cons in Hrep as [Hrt _].
  pose proof Hw as Hw0. apply Forall_app in Hw0 as [_ Hw0]. apply Forall_cons in Hw0 as [Hwt _]. pose proof (wf_tsize _ _ _ Hwt) as Hsz. pose proof (zlen_nonneg ca) as H0.
  assert (Ht : cell (childid n) (zlen ca) = Some (tptr t)).
  { apply (cells_cell _ _ _ _ _ (ir_child _ _ _ Hr)); [done|]. apply list_lookup_middle. rewrite length_fmap. unfold zlen. lia. }
  assert (Hq : cell (childid n) (zlen ca + 1) = Some q).
  { apply (cells_cell _ _ _ _ _ (ir_child _ _ _ Hr)); [lia|]. replace ((tptr <$> ca) ++ tptr t :: q :: (tptr <$> cb)) with (((tptr <$> ca) ++ [tptr t]) ++ q :: (tptr <$> cb)) by by rewrite <-app_assoc.
    apply list_lookup_middle. rewrite length_app, length_fmap. cbn. unfold zlen. lia. }
  assert (Hpq : p <> q) by (intros ->; apply Hp, (ch_sub _ _ _ _ _ _ _ _ _ Hc), elem_of_app; right; constructor).
  assert (Hslot : exists c u, cell (childid n) i = Some c /\ slots s2 c = Some u /\ (if negb (u =? 0) then i + 1 else i) = zlen ca + 1).
  { destruct Hi as [->| ->].
    - exists (tptr t), (tsize t). split; [done|]. split; [by apply (rep_slots _ l)|]. rewrite (proj2 (Z.eqb_neq _ _)) by lia. done.
    - exists q, 0. split; [done|]. split; [|done]. destruct He as (nd & E1 & E2 & _). unfold slots. rewrite E1. cbn. by rewrite E2. }
  destruct Hslot as (c & u & -> & Eu & Es). cbn [mbind option_bind]. rewrite Eu. cbn [mbind option_bind]. rewrite Es, Hq. cbn [mbind option_bind]. rewrite Ef. cbn [mbind option_bind].
  destruct (inner_remove_spec n ka k kb ((tptr <$> ca) ++ [tptr t]) q (tptr <$> cb)) as (n' & En & Hlev' & Hr'); [by rewrite <-app_assoc|rewrite zlen_app, zlen_fmap; change (zlen [tptr t]) with 1; lia|].
  rewrite zlen_app, zlen_fmap in En. change (zlen [tptr t]) with 1 in En. rewrite En. cbn [mbind option_bind]. replace (((tptr <$> ca) ++ [tptr t]) ++ (tptr <$> cb)) with (tptr <$> (ca ++ t :: cb)) in Hr' by (rewrite fmap_app, <-app_assoc; done).
  assert (Hkey : exists n3, (if ilevel n' =? 1 then c ← cell (childid n') (zlen ca + 1 - 1); child ← get_leaf s3 c; k ← cell (lslotkey child) (lslotuse child - 1); set_slotkey n' (zlen ca + 1 - 1) k else Some n') = Some n3 /\
    ilevel n3 = ilevel n' /\ stx_inner_rep n3 (ka ++ kb) (tptr <$> (ca ++ t :: cb))).
  { rewrite Hlev', Hlev. destruct l as [|l]; [|rewrite (proj2 (Z.eqb_neq _ _)) by lia; exists n'; split; [done|]; split; [congruence|done]]. change (Z.of_nat 1 =? 1) with true. cbv iota. replace (zlen ca + 1 - 1) with (zlen ca) by lia.
    rewrite (cells_cell _ _ _ (zlen ca) (tptr t) (ir_child _ _ _ Hr')); [|done|rewrite fmap_app; apply list_lookup_middle; rewrite length_fmap; unfold zlen; lia].
    pose proof (ch_rep _ _ _ _ _ _ _ _ _ Hc3) as Hrep3. apply Forall_app in Hrep3 as [_ Hrep3]. apply Forall_cons in Hrep3 as [Hrt3 _]. destruct t as [pt et|]; [|done]. destruct Hrt3 as (nt & Hnt & Rt).
    cbn [tptr mbind option_bind]. rewrite (get_leaf_lookup _ _ _ Hnt). cbn [mbind option_bind tsize] in *. rewrite (lr_use _ _ Rt). destruct et as [|[k' v] et _] using rev_ind; [change (zlen (@nil (Z * Z))) with 0 in Hsz; lia|].
    pose proof (lr_key _ _ Rt) as Hk'. rewrite fmap_app in Hk'. apply last_cell in Hk'. rewrite zlen_app. change (zlen [(k', v)]) with 1. replace (zlen et + 1 - 1) with (zlen et) by lia. rewrite zlen_fmap in Hk'. rewrite Hk'. cbn [mbind option_bind fst].
    rewrite <-Hz. destruct kb as [|k0 kb].
    - rewrite app_nil_r in *. pose proof (stx_inner_rep_len _ _ _ Hr) as Hmax. rewrite zlen_app, zlen_cons in Hmax. change (zlen (@nil Z)) with 0 in Hmax.
      destruct (set_slotkey_after n' ka _ k' Hr' ltac:(lia)) as (n3 & -> & Hl3 & H). exists n3. split; [done|]. split; [congruence|done].
    - destruct (set_slotkey_spec n' ka k0 kb _ k' Hr') as (n3 & -> & Hl3 & Hr3). exists n3. split; [done|]. split; [congruence|].
      apply exact_app in Hx as [_ [Hk0 _]]; [|unfold zlen in Hz; lia]. unfold tkeys in Hk0. rewrite tpairs_leaf in Hk0. assert (E : last (et ++ [(k', v)]).*1 = Some k') by (rewrite fmap_app; apply last_snoc).
      rewrite E in Hk0. by injection Hk0 as ->. }
  destruct Hkey as (n3 & -> & Hlev3 & Hr3). cbn [mbind option_bind]. eexists _, n3. split; [done|]. split; [|split; [cbn [nodes set_node]; by rewrite lookup_insert_eq|split; [congruence|split; [done|]]]].
  - eapply changed_weaken; [by apply changed_set|]. intros x. rewrite !elem_of_cons. tauto.
  - intros x Hxp Hxq. cbn [nodes set_node]. rewrite lookup_insert_ne by done. by apply Hf3.
Qed.

Lemma children_fixed s s2 l p P ks cs ks' cs' i merged pre post : settled s s2 l p P ks cs ks' cs' i merged pre post -> NoDup (pre ++ (fleaves l cs).*1 ++ post) -> p ∉ fptrs l cs ->
  exists s3 n3, (if merged : bool then remove_merged s2 p i else Some s2) = Some s3 /\ changed s s3 l cs cs' (p :: P) [] pre post /\ nodes s3 !! p = Some (SInner n3) /\ ilevel n3 = Z.of_nat (S l) /\
    stx_inner_rep n3 ks' (tptr <$> cs') /\ (forall x, x ∉ fptrs l cs -> x <> p -> nodes s3 !! x = nodes s2 !! x).
Proof.
  intros (n & Hn & Hl & Hx & Hw & Hk & H) Hch Hp. destruct merged.
  - destruct H as (ca & t & cb & q & ka & k & kb & -> & -> & Hz & Hr & He & Hi & Hc).
    destruct (remove_merged_spec s s2 l p P pre post cs ca t cb q ka k kb n i Hc Hch Hp Hn Hl Hr Hz Hx Hw He Hi) as (s3 & n3 & E & Hc3 & Hn3 & Hl3 & Hr3 & Hf). exists s3, n3. do 5 (split; [done|]).
    intros x Hx1 Hx2. apply Hf; [done|]. intros ->. apply Hx1, (ch_sub _ _ _ _ _ _ _ _ _ Hc), elem_of_app. right. constructor.
  - destruct H as [Hr Hc]. exists s2, n. done.
Qed.

(** ** The greatest key below a child has changed *)

(** The parent is told, or the result says that someone further up must be. *)
Definition last_told (r : result_t) (c2 : list btree) (new old : option Z) : Prop :=
  (r = rok /\ (c2 = [] -> new = old)) \/ (c2 = [] /\ exists k, r = mkResult btree_update_lastkey k /\ new = Some k).

Definition tell (t : Stx) (a : Around) (k : Z) : option (Stx * result_t) :=
  pu ← (if parent a =? 0 then Some 0 else pn ← get_inner t (parent a); Some (islotuse pn));
  if negb (parent a =? 0) && (parentslot a <? pu) then t ← set_parent_key t (parent a) (parentslot a) k; Some (t, rok)
  else Some (t, merge_result rok (mkResult btree_update_lastkey k)).

Lemma set_node_id t p nd : nodes t !! p = Some nd -> set_node t p nd = t.
Proof. intros H. destruct t. unfold set_node. cbn in *. f_equal. by apply insert_id. Qed.

Lemma tell_spec t l pp np ks c1 c c2 a k : nodes t !! pp = Some (SInner np) -> stx_inner_rep np ks (tptr <$> (c1 ++ c :: c2)) -> exact l ks (c1 ++ c :: c2) -> parent a = pp -> pp <> 0 -> parentslot a = zlen c1 ->
  exists np' ks' r, tell t a k = Some (set_node t pp (SInner np'), r) /\ ilevel np' = ilevel np /\ stx_inner_rep np' ks' (tptr <$> (c1 ++ c :: c2)) /\ zlen ks' = zlen ks /\
    (forall c', last (tkeys l c') = Some k -> exact l ks' (c1 ++ c' :: c2)) /\ forall old, last_told r c2 (Some k) old.
Proof.
  intros Hn Hr Hx Hp H0 Hs. unfold tell. rewrite Hp, Hs. rewrite (proj2 (Z.eqb_neq _ _) H0), (get_inner_lookup _ _ _ Hn). cbn [mbind option_bind negb andb]. rewrite (ir_use _ _ _ Hr).
  destruct c2 as [|y c2].
  - pose proof (exact_len _ _ _ Hx) as Hlen. rewrite length_app in Hlen. cbn in Hlen. destruct (Z.ltb_spec (zlen c1) (zlen ks)) as [Hlt|_]; [unfold zlen in Hlt; lia|].
    exists np, ks, (mkResult btree_update_lastkey k). rewrite (set_node_id _ _ _ Hn). do 4 (split; [done|]). split; [|intros old; right; split; [done|]; by exists k].
    intros c' Hc'. rewrite <-(app_nil_r ks) in Hx |- *. apply exact_app in Hx as [Hx _]; [|lia]. apply exact_app; [lia|]. by split.
  - destruct (cut_keys _ _ _ _ _ _ Hx) as (k1 & k0 & k2 & -> & Hlen). assert (Ez : zlen c1 = zlen k1) by (unfold zlen; lia). pose proof (zlen_nonneg k2).
    rewrite zlen_app, zlen_cons. destruct (Z.ltb_spec (zlen c1) (zlen k1 + (1 + zlen k2))); [|lia]. rewrite Ez. destruct (set_parent_key_spec t pp np k1 k0 k2 _ k Hn Hr) as (np' & -> & Hl & Hr'). cbn [mbind option_bind].
    exists np', (k1 ++ k :: k2), rok. do 3 (split; [done|]). split; [by rewrite !zlen_app, !zlen_cons|]. split; [|intros old; by left].
    intros c' Hc'. apply exact_app in Hx as [Hx1 [_ Hx2]]; [|done]. apply exact_app; [done|]. by split.
Qed.

(** When the greatest key stays, the separators do. *)
Lemma exact_same l ks c1 c c' c2 : exact l ks (c1 ++ c :: c2) -> last (tkeys l c') = last (tkeys l c) -> exact l ks (c1 ++ c' :: c2).
Proof.
  intros Hx He. pose proof (exact_len _ _ _ Hx) as Hlen. rewrite length_app in Hlen. cbn in Hlen. rewrite <-(take_drop (length c1) ks) in Hx |- *.
  assert (Hl : length c1 = length (take (length c1) ks)) by (rewrite length_take; lia). apply exact_app in Hx as [H1 H2]; [|done]. apply exact_app; [done|]. split; [done|].
  by eapply exact_first.
Qed.

(** ** A child after the removal, before it is balanced *)

Lemma changed_chain s s1 l pp ks c1 c c' c2 ks1 n1 pre post : family s l pp ks c1 c c2 pre post -> changed s s1 l (c1 ++ c :: c2) (c1 ++ c' :: c2) [pp] [] pre post ->
  nodes s1 !! pp = Some (SInner n1) -> ilevel n1 = Z.of_nat (S l) -> stx_inner_rep n1 ks1 (tptr <$> (c1 ++ c' :: c2)) -> exact l ks1 (c1 ++ c' :: c2) ->
  (l = O -> (tleaves l c').*1 = (tleaves l c).*1) -> family s1 l pp ks1 c1 c' c2 pre post.
Proof.
  intros [F1 F2 F3 F4 F5 F6 F7 F8 F9] Hc Hn Hl Hr Hx Hlv. pose proof (ch_nodup _ _ _ _ _ _ _ _ _ Hc) as Hnd. rewrite app_nil_r in Hnd.
  assert (Hsub : forall q, q ∈ fptrs l (c1 ++ c' :: c2) -> q ∈ fptrs l (c1 ++ c :: c2)) by (intros q Hq; apply (ch_sub _ _ _ _ _ _ _ _ _ Hc); by rewrite app_nil_r).
  constructor; try done.
  - by exists n1.
  - apply (ch_rep _ _ _ _ _ _ _ _ _ Hc).
  - intros q Hq. by apply F5, Hsub.
  - intros Hq. by apply F6, Hsub.
  - apply (ch_linked _ _ _ _ _ _ _ _ _ Hc).
  - intros E. specialize (F8 E). rewrite fleaves_app, fleaves_cons, !fmap_app in *. by rewrite (Hlv E).
Qed.

Lemma side_sibling s s1 l pp cs cs1 P par q o pre post : side s l pp (fptrs l cs) par q o -> changed s s1 l cs cs1 [pp] P pre post -> sibling_or s1 pp par q o.
Proof.
  destruct o as [x|]; [done|]. intros [Hp Hq] Hc. apply not_elem_of_cons in Hp as [Hp _]. split; [done|]. destruct Hq as [->|(t & <- & Hr & Hw & Hd)]; [by left|]. right.
  exists (tsize t <=? 8). apply (rep_few s1 l t). eapply stx_rep_ext; [|exact Hr]. intros x Hx. specialize (Hd x Hx). apply not_elem_of_cons in Hd as [Hd1 Hd2].
  apply (ch_frame _ _ _ _ _ _ _ _ _ Hc); [done|]. by rewrite list_elem_of_singleton.
Qed.

(** What a removal below [c] has done by the time [c] is balanced. *)
Record slim (s s1 : Stx) (l : nat) (pp : Z) (ks : list Z) (c1 : list btree) (c c' : btree) (c2 : list btree) (ks1 : list Z) (r : result_t) (pre post : list Z) : Prop := {
  sl_changed : changed s s1 l (c1 ++ c :: c2) (c1 ++ c' :: c2) [pp] [] pre post;
  sl_family : family s1 l pp ks1 c1 c' c2 pre post;
  sl_ptr : tptr c' = tptr c;
  sl_wf : stx_wf 7 l c';
  sl_len : zlen ks1 = zlen ks;
  sl_told : last_told r c2 (last (tkeys l c')) (last (tkeys l c))
}.

Lemma settled_trans s s1 s2 l pp P ks ks1 cs cs1 ks' cs' i merged pre post : changed s s1 l cs cs1 (pp :: P) [] pre post -> zlen ks1 = zlen ks -> (forall q, q ∈ pp :: P -> q ∉ fptrs l cs) ->
  settled s1 s2 l pp P ks1 cs1 ks' cs' i merged pre post -> settled s s2 l pp P ks cs ks' cs' i merged pre post.
Proof.
  intros Hc Hz HP (n & Hn & Hl & Hx & Hw & Hk & H). exists n. do 4 (split; [done|]). split; [lia|]. destruct merged.
  - destruct H as (ca & t & cb & q & ka & k & kb & H1 & H2 & H3 & H4 & H5 & H6 & H7). exists ca, t, cb, q, ka, k, kb. do 6 (split; [done|]). by eapply changed_trans.
  - destruct H as [H1 H2]. split; [done|]. by eapply changed_trans.
Qed.

(** Balancing it, by the operations for its level. *)
Lemma slim_fixed s s1 l pp ks c1 c c' c2 ks1 r pre post a fix_ : slim s s1 l pp ks c1 c c' c2 ks1 r pre post -> placed s l pp c1 c c2 a -> c1 ++ c2 <> [] -> pp ∉ fptrs l (c1 ++ c :: c2) ->
  ((left a =? 0) && (right a =? 0) = false -> fix_ = fix_any l s1 (tptr c') a r) ->
  exists s' merged ks' cs', (if tsize c' <? 8 then fix_ else Some (s1, r)) = Some (s', with_flag r merged) /\
    settled s s' l pp [] ks (c1 ++ c :: c2) ks' cs' (zlen c1) merged pre post /\ fpairs l cs' = fpairs l (c1 ++ c' :: c2).
Proof.
  intros [Hc Hf Ep Hw Hz Ht] [P1 P2 P3 P4] Hne Hpp Hfix. pose proof (wf_tsize _ _ _ Hw) as Hsz. pose proof (side_sibling _ _ _ _ _ _ _ _ _ _ _ _ P3 Hc) as HL. pose proof (side_sibling _ _ _ _ _ _ _ _ _ _ _ _ P4 Hc) as HR.
  assert (HP : forall q, q ∈ [pp] -> q ∉ fptrs l (c1 ++ c :: c2)) by (by intros q ->%list_elem_of_singleton).
  destruct (Z.ltb_spec (tsize c') 8) as [H7|H8].
  - rewrite Hfix; clear Hfix.
    + destruct (fix_any_spec s1 l pp ks1 c1 c' c2 pre post a r Hf Hw ltac:(lia) Hne P1 P2 HL HR) as (s' & merged & ks' & cs' & E & Hs & Hp). exists s', merged, ks', cs'. split; [done|]. split; [|done].
      by eapply settled_trans.
    + destruct (family_ptrs _ _ _ _ _ _ _ _ _ Hf) as [H0 _]. rewrite Forall_forall in H0. destruct c1 as [|x d1 _] using rev_ind.
      * destruct c2 as [|y d2]; [done|]. destruct HR as [_ Hq]. rewrite andb_comm, (proj2 (Z.eqb_neq (right a) 0)); [done|]. rewrite Hq. apply H0. constructor.
      * rewrite last_snoc in HL. destruct HL as [_ Hq]. rewrite (proj2 (Z.eqb_neq (left a) 0)); [done|]. rewrite Hq. apply H0. rewrite !elem_of_app, list_elem_of_singleton. tauto.
  - exists s1, false, ks1, (c1 ++ c' :: c2). rewrite with_flag_false. split; [done|]. split; [|done]. destruct Hf as [(n1 & Hn1 & Hl1 & Hr1) F2 F3 F4 F5 F6 F7 F8 F9]. exists n1. split; [done|]. split; [done|]. split; [done|].
    split; [|split; [lia|done]]. apply Forall_app in F9 as [W1 W2]. apply Forall_app. split; [done|]. constructor; [|done]. by eapply wf_least.
Qed.

(** ** The leaf *)

Lemma changed_leaf s p es es' n' pre post : linked s (pre ++ [p] ++ post) -> stx_leaf_rep n' es' -> changed s (set_node s p (SLeaf n')) 0 [TLeaf p es] [TLeaf p es'] [] [] pre post.
Proof.
  intros Hl Hr. constructor; rewrite ?app_nil_r; try done.
  - constructor; [|constructor]. exists n'. cbn [nodes set_node]. by rewrite lookup_insert_eq.
  - cbn. constructor; [apply not_elem_of_nil|constructor].
  - intros q Hq _. cbn in Hq. apply not_elem_of_cons in Hq as [Hq _]. cbn [nodes set_node]. by rewrite lookup_insert_ne.
  - by apply (linked_fields s).
  - unfold zlen. cbn. lia.
  - unfold zlen. cbn. lia.
Qed.

(** One child is written, and then the parent. *)
Lemma changed_child s s1 l pp c1 c c' c2 nd pre post : changed s s1 l [c] [c'] [] [] (pre ++ (fleaves l c1).*1) ((fleaves l c2).*1 ++ post) -> NoDup (fptrs l (c1 ++ c :: c2)) ->
  Forall (stx_rep (nodes s) l) (c1 ++ c :: c2) -> pp ∉ fptrs l (c1 ++ c :: c2) -> changed s (set_node s1 pp nd) l (c1 ++ c :: c2) (c1 ++ c' :: c2) [pp] [] pre post.
Proof.
  intros Hc Hnd Hr Hp. apply changed_set; [|done]. apply (changed_within s s1 l c1 [c] [c'] c2 [] []); try done. intros q Hq. by apply elem_of_nil in Hq.
Qed.

Lemma erase_at_slim s pp ks c1 p es c2 pre post a x key v y : family s 0 pp ks c1 (TLeaf p es) c2 pre post -> 8 <= zlen es -> placed s 0 pp c1 (TLeaf p es) c2 a -> pp <> 0 -> m_root s <> p ->
  es = x ++ (key, v) :: y ->
  exists s1 ks1 r, erase_at s p (zlen x) a = (if tsize (TLeaf p (x ++ y)) <? 8 then fix_leaf s1 p a r else Some (s1, r)) /\ slim s s1 0 pp ks c1 (TLeaf p es) (TLeaf p (x ++ y)) c2 ks1 r pre post.
Proof.
  intros Hf H8 Hpl H0 Hroot Ees. pose proof Hf as [(np & Hnp & Hlev & Hrp) Hx Hrep Hnd Hpos Hout Hlk Hch Hwf]. destruct Hpl as [P1 P2 _ _].
  pose proof Hrep as Hr0. apply Forall_app in Hr0 as [_ Hr0]. apply Forall_cons in Hr0 as [(n & Hn & Hr) _]. unfold erase_at. rewrite (get_leaf_lookup _ _ _ Hn). cbn [mbind option_bind].
  rewrite Ees in Hr. destruct (leaf_remove_spec n x (key, v) y Hr) as (n' & -> & Hr'). cbn [mbind option_bind]. rewrite (lr_use _ _ Hr'). set (t := set_node s p (SLeaf n')).
  assert (Hpp : pp <> p) by (intros ->; apply Hout, fptrs_elem; exists (TLeaf p es); split; [apply elem_of_app; right; constructor|constructor]).
  assert (Hnt : nodes t !! pp = Some (SInner np)) by (cbn [t nodes set_node]; by rewrite lookup_insert_ne by done).
  assert (Hlen : 7 <= zlen (x ++ y)) by (rewrite Ees, zlen_app, zlen_cons in H8; rewrite zlen_app; lia).
  assert (Hct : forall nd, changed s (set_node t pp nd) 0 (c1 ++ TLeaf p es :: c2) (c1 ++ TLeaf p (x ++ y) :: c2) [pp] [] pre post).
  { intros nd. apply changed_child; try done. apply changed_leaf; [|done]. rewrite fleaves_app, fleaves_cons, !fmap_app in Hlk. rewrite <-!app_assoc in *. exact Hlk. }
  assert (Hgo : exists np' ks1 r, (if zlen x =? zlen (x ++ y) then
      pu ← (if parent a =? 0 then Some 0 else pn ← get_inner t (parent a); Some (islotuse pn));
      if negb (parent a =? 0) && (parentslot a <? pu) then k ← cell (lslotkey n') (zlen (x ++ y) - 1); t ← set_parent_key t (parent a) (parentslot a) k; Some (t, rok)
      else if 1 <=? zlen (x ++ y) then k ← cell (lslotkey n') (zlen (x ++ y) - 1); Some (t, merge_result rok (mkResult btree_update_lastkey k)) else Some (t, rok)
    else Some (t, rok)) = Some (set_node t pp (SInner np'), r) /\ ilevel np' = ilevel np /\ stx_inner_rep np' ks1 (tptr <$> (c1 ++ TLeaf p es :: c2)) /\ zlen ks1 = zlen ks /\
    exact 0 ks1 (c1 ++ TLeaf p (x ++ y) :: c2) /\ last_told r c2 (last (tkeys 0 (TLeaf p (x ++ y)))) (last (tkeys 0 (TLeaf p es)))).
  { destruct (Z.eqb_spec (zlen x) (zlen (x ++ y))) as [E|E].
    - assert (y = []) as -> by (rewrite zlen_app in E; destruct y; [done|rewrite zlen_cons in E; pose proof (zlen_nonneg y); lia]). rewrite app_nil_r in *.
      destruct x as [|[k w] z _] using rev_ind; [change (zlen (@nil (Z * Z))) with 0 in Hlen; lia|].
      assert (Hk : last (tkeys 0 (TLeaf p (z ++ [(k, w)]))) = Some k) by (unfold tkeys; rewrite tpairs_leaf, fmap_app; apply last_snoc).
      pose proof (lr_key _ _ Hr') as Hc. rewrite fmap_app in Hc. apply last_cell in Hc. rewrite zlen_fmap in Hc. cbn [fst] in Hc.
      replace (zlen (z ++ [(k, w)]) - 1) with (zlen z) by (rewrite zlen_app; change (zlen [(k, w)]) with 1; lia). rewrite Hc.
      destruct (tell_spec t 0 pp np ks c1 (TLeaf p es) c2 a k Hnt Hrp Hx P1 H0 P2) as (np' & ks1 & r & Et & A1 & A2 & A3 & A4 & A5).
      exists np', ks1, r. rewrite Hk. split; [|by auto 10]. rewrite <-Et. unfold tell. cbn [mbind option_bind]. rewrite (proj2 (Z.leb_le 1 _)) by lia. done.
    - exists np, ks, rok. rewrite (set_node_id _ _ _ Hnt). do 4 (split; [done|]). assert (Hs : last (tkeys 0 (TLeaf p (x ++ y))) = last (tkeys 0 (TLeaf p es))).
      { unfold tkeys. rewrite !tpairs_leaf, Ees, !fmap_app, !last_app. destruct y as [|e y]; [by rewrite app_nil_r in E|]. change (last ((key, v) :: e :: y).*1) with (last (e :: y).*1). by destruct (last (e :: y).*1) eqn:El; [|apply last_None in El]. }
      split; [by eapply exact_same|]. left. by split. }
  destruct Hgo as (np' & ks1 & r & -> & L1 & R1 & Z1 & X1 & T1). cbn [mbind option_bind]. exists (set_node t pp (SInner np')), ks1, r. split.
  - unfold lisunderflow. rewrite (lr_use _ _ Hr'). cbn [m_root set_node t]. rewrite (proj2 (Z.eqb_neq p _)) by by apply not_eq_sym. cbn [andb negb]. by rewrite andb_true_r.
  - constructor; [apply Hct| |done|cbn; lia|done|done]. eapply changed_chain; [exact Hf|apply Hct|cbn [nodes set_node]; by rewrite lookup_insert_eq|congruence| |done|done].
    rewrite !fmap_app in *. exact R1.
Qed.

(** ** What is passed down about neighbours *)

(** A neighbour of the node [c] itself, whether it is a sibling or not. *)
Definition flank (s : Stx) (l : nat) (P : list Z) (par q : Z) : Prop := (par ∉ P) /\ (q = 0 \/ outer s l P q).

Lemma side_flank s l pp ks c1 c c2 pre post par q o : family s l pp ks c1 c c2 pre post -> side s l pp (fptrs l (c1 ++ c :: c2)) par q o -> (forall x, o = Some x -> x ∈ c1 ++ c2) -> flank s l (tptrs l c) par q.
Proof.
  intros Hf Hs Ho. assert (Hsub : forall z, z ∈ tptrs l c -> z ∈ fptrs l (c1 ++ c :: c2)) by (intros z Hz; apply fptrs_elem; exists c; split; [apply elem_of_app; right; constructor|done]).
  destruct o as [x|]; cbn in Hs.
  - destruct Hs as [-> ->]. split; [intros H; by apply (fa_out _ _ _ _ _ _ _ _ _ Hf), Hsub|]. right. exists x. specialize (Ho x eq_refl). split; [done|].
    pose proof (fa_rep _ _ _ _ _ _ _ _ _ Hf) as Hr. pose proof (fa_wf _ _ _ _ _ _ _ _ _ Hf) as Hw. pose proof (fa_nodup _ _ _ _ _ _ _ _ _ Hf) as Hnd. rewrite Forall_forall in Hr, Hw.
    split; [apply Hr; rewrite elem_of_app, elem_of_cons in *; tauto|]. split; [by apply Hw|]. intros z Hz Hzc.
    assert (Hperm : fptrs l (c1 ++ c :: c2) ≡ₚ tptrs l c ++ fptrs l (c1 ++ c2)) by (rewrite !fptrs_app, fptrs_cons; solve_Permutation).
    rewrite Hperm in Hnd. apply NoDup_app in Hnd as (_ & Hd & _). apply (Hd z Hzc), fptrs_elem. by exists x.
  - destruct Hs as [Hp Hq]. apply not_elem_of_cons in Hp as [_ Hp]. split; [intros H; by apply Hp, Hsub|]. destruct Hq as [?|(t & H1 & H2 & H3 & H4)]; [by left|]. right. exists t. do 3 (split; [done|]).
    intros z Hz Hzc. specialize (H4 z Hz). apply not_elem_of_cons in H4 as [_ H4]. by apply H4, Hsub.
Qed.

Lemma placed_flanks s l pp ks c1 c c2 pre post a : family s l pp ks c1 c c2 pre post -> placed s l pp c1 c c2 a ->
  flank s l (tptrs l c) (leftparent a) (left a) /\ flank s l (tptrs l c) (rightparent a) (right a).
Proof.
  intros Hf [_ _ PL PR]. split; [eapply side_flank; [exact Hf|exact PL|]|eapply side_flank; [exact Hf|exact PR|]].
  - intros x Hx. apply elem_of_app. left. apply last_Some in Hx as [d ->]. apply elem_of_app. right. constructor.
  - intros x Hx. apply elem_of_app. right. destruct c2 as [|y d]; [done|]. injection Hx as ->. constructor.
Qed.

(** A child of a neighbour. *)
Lemma outer_child s l P q : outer s (S l) P q -> exists n, get_inner s q = Some n /\
  (exists z, cell (childid n) (islotuse n - 1) = Some z /\ outer s l P z) /\ (exists z, cell (childid n) 0 = Some z /\ outer s l P z).
Proof.
  intros ([|p ks cs] & <- & Hr & Hw & Hd); [done|]. destruct Hr as (n & Hn & _ & Hr & Hc). destruct Hw as (H8 & Hx & Hw). exists n. split; [by apply get_inner_lookup|].
  assert (Hch : forall i c, cs !! Z.to_nat i = Some c -> 0 <= i -> exists z, cell (childid n) i = Some z /\ outer s l P z).
  { intros i c Hi H0. exists (tptr c). split; [apply (cells_cell _ _ _ _ _ (ir_child _ _ _ Hr) H0); by rewrite list_lookup_fmap, Hi|]. exists c. split; [done|].
    apply list_elem_of_lookup_2 in Hi. rewrite Forall_forall in Hc, Hw. split; [by apply Hc|]. split; [by apply Hw|]. intros x Hx'. apply Hd. rewrite tptrs_inner. apply list_elem_of_further, fptrs_elem. by exists c. }
  pose proof (exact_len _ _ _ Hx) as Hlen. rewrite (ir_use _ _ _ Hr).
  destruct (lookup_lt_is_Some_2 cs (Z.to_nat (zlen ks - 1))) as [c Hcx]; [unfold zlen in *; lia|]. destruct (lookup_lt_is_Some_2 cs (Z.to_nat 0)) as [c' Hcx']; [rewrite Hlen; cbn; lia|].
  split; [by apply (Hch _ c); [|lia]|by apply (Hch _ c'); [|lia]].
Qed.

Lemma around_child_spec s l p n ks d1 d d2 a : nodes s !! p = Some (SInner n) -> stx_inner_rep n ks (tptr <$> (d1 ++ d :: d2)) ->
  flank s (S l) (p :: fptrs l (d1 ++ d :: d2)) (leftparent a) (left a) -> flank s (S l) (p :: fptrs l (d1 ++ d :: d2)) (rightparent a) (right a) ->
  exists a', around_child s p n (zlen d1) a = Some a' /\ placed s l p d1 d d2 a'.
Proof.
  intros Hn Hr [FL1 FL2] [FR1 FR2]. set (ds := d1 ++ d :: d2) in *. unfold around_child. assert (Hlen : zlen ds = zlen ks + 1) by (pose proof (ir_count _ _ _ Hr) as H; by rewrite zlen_fmap in H).
  assert (Hcell : forall i c, ds !! Z.to_nat i = Some c -> 0 <= i -> cell (childid n) i = Some (tptr c)) by (intros i c Hi H0; apply (cells_cell _ _ _ _ _ (ir_child _ _ _ Hr) H0); by rewrite list_lookup_fmap, Hi).
  assert (HL : exists myleft mypar, (if zlen d1 =? 0 then l ← (if left a =? 0 then Some 0 else ln ← get_inner s (left a); cell (childid ln) (islotuse ln - 1)); Some (l, leftparent a)
      else l ← cell (childid n) (zlen d1 - 1); Some (l, p)) = Some (myleft, mypar) /\ side s l p (fptrs l ds) mypar myleft (last d1)).
  { destruct d1 as [|x d1 _] using rev_ind.
    - change (zlen (@nil btree) =? 0) with true. cbv iota. destruct (Z.eqb_spec (left a) 0) as [E|E]; [exists 0, (leftparent a); split; [done|]; split; [done|by left]|].
      destruct FL2 as [?|FL2]; [done|]. destruct (outer_child _ _ _ _ FL2) as (ln & -> & (z & Hz & Ho) & _). cbn [mbind option_bind]. rewrite Hz. cbn [mbind option_bind]. exists z, (leftparent a). split; [done|]. split; [done|by right].
    - rewrite zlen_app. change (zlen [x]) with 1. pose proof (zlen_nonneg d1). rewrite (proj2 (Z.eqb_neq _ _)) by lia. replace (zlen d1 + 1 - 1) with (zlen d1) by lia.
      rewrite (Hcell (zlen d1) x); [|unfold ds; rewrite <-app_assoc; apply list_lookup_middle; unfold zlen; lia|done]. cbn [mbind option_bind]. exists (tptr x), p. split; [done|]. by rewrite last_snoc. }
  assert (HR : exists myright mypar, (if zlen d1 =? islotuse n then r ← (if right a =? 0 then Some 0 else rn ← get_inner s (right a); cell (childid rn) 0); Some (r, rightparent a)
      else r ← cell (childid n) (zlen d1 + 1); Some (r, p)) = Some (myright, mypar) /\ side s l p (fptrs l ds) mypar myright (head d2)).
  { rewrite (ir_use _ _ _ Hr). unfold ds in Hlen. rewrite zlen_app, zlen_cons in Hlen. destruct d2 as [|y d2].
    - change (zlen (@nil btree)) with 0 in Hlen. rewrite (proj2 (Z.eqb_eq _ _)) by lia. destruct (Z.eqb_spec (right a) 0) as [E|E]; [exists 0, (rightparent a); split; [done|]; split; [done|by left]|].
      destruct FR2 as [?|FR2]; [done|]. destruct (outer_child _ _ _ _ FR2) as (rn & -> & _ & (z & Hz & Ho)). cbn [mbind option_bind]. rewrite Hz. cbn [mbind option_bind]. exists z, (rightparent a). split; [done|]. split; [done|by right].
    - rewrite zlen_cons in Hlen. pose proof (zlen_nonneg d2). pose proof (zlen_nonneg d1). rewrite (proj2 (Z.eqb_neq _ _)) by lia.
      rewrite (Hcell (zlen d1 + 1) y); [|unfold ds; rewrite (app_assoc d1 [d] (y :: d2) : d1 ++ d :: y :: d2 = _); apply list_lookup_middle; rewrite length_app; cbn; unfold zlen; lia|lia].
      cbn [mbind option_bind]. by exists (tptr y), p. }
  destruct HL as (ml & mp & EL & HL). destruct HR as (mr & mq & ER & HR). rewrite EL. cbn [mbind option_bind]. rewrite ER. cbn [mbind option_bind]. eexists. split; [done|]. by constructor.
Qed.

(** ** The descent *)

(** The pair is gone from below [c], and the children of [pp] are in order but for an emptied one. *)
Definition erased (s : Stx) (l : nat) (pp : Z) (ks : list Z) (c1 : list btree) (c : btree) (c2 : list btree) (pre post : list Z) (key : Z) (s' : Stx) (r : result_t) : Prop :=
  has r btree_not_found = false /\ exists ks' cs' x v y, settled s s' l pp [] ks (c1 ++ c :: c2) ks' cs' (zlen c1) (has r btree_fixmerge) pre post /\
    fpairs l (c1 ++ c :: c2) = x ++ (key, v) :: y /\ fpairs l cs' = x ++ y /\
    if has r btree_update_lastkey then c2 = [] /\ last (fpairs l cs').*1 = Some (lastkey r) else last (fpairs l cs').*1 = last (fpairs l (c1 ++ c :: c2)).*1.

Lemma settled_frame s s' l p P ks cs ks' cs' i merged pre post : settled s s' l p P ks cs ks' cs' i merged pre post ->
  m_root s' = m_root s /\ forall x, x ∉ fptrs l cs -> x ∉ p :: P -> nodes s' !! x = nodes s !! x.
Proof.
  intros (n & _ & _ & _ & _ & _ & H). assert (HC : exists G, changed s s' l cs cs' (p :: P) G pre post) by (destruct merged; [destruct H as (?&?&?&?&?&?&?&_&_&_&_&_&_&?)|destruct H]; eauto).
  destruct HC as [G HC]. split; [apply (ch_root _ _ _ _ _ _ _ _ _ HC)|]. intros x H1 H2. by apply (ch_frame _ _ _ _ _ _ _ _ _ HC).
Qed.

Lemma last_app_some {A} (a b : list A) : b <> [] -> last (a ++ b) = last b.
Proof. intros H. rewrite last_app. destruct (last b) eqn:E; [done|]. by apply last_None in E. Qed.

Lemma slim_erased s s1 l pp ks c1 c c' c2 ks1 r pre post a fix_ key x v y : slim s s1 l pp ks c1 c c' c2 ks1 r pre post -> placed s l pp c1 c c2 a -> c1 ++ c2 <> [] -> pp ∉ fptrs l (c1 ++ c :: c2) ->
  ((left a =? 0) && (right a =? 0) = false -> fix_ = fix_any l s1 (tptr c') a r) -> tpairs l c = x ++ (key, v) :: y -> tpairs l c' = x ++ y ->
  exists s' r', (if tsize c' <? 8 then fix_ else Some (s1, r)) = Some (s', r') /\ erased s l pp ks c1 c c2 pre post key s' r'.
Proof.
  intros Hs Hpl Hne Hpp Hfix Ec Ec'. destruct (slim_fixed _ _ _ _ _ _ _ _ _ _ _ _ _ _ _ Hs Hpl Hne Hpp Hfix) as (s' & merged & ks' & cs' & E & Hset & Hp). exists s', (with_flag r merged). split; [done|].
  assert (Hc' : tkeys l c' <> []) by (eapply wf_keys; [|apply (sl_wf _ _ _ _ _ _ _ _ _ _ _ _ _ Hs)]; lia). assert (Hc : tkeys l c <> []) by (unfold tkeys; rewrite Ec, fmap_app; by destruct x.*1).
  pose proof (fa_wf _ _ _ _ _ _ _ _ _ (sl_family _ _ _ _ _ _ _ _ _ _ _ _ _ Hs)) as Hw. apply Forall_app in Hw as [_ Hw].
  assert (Hlast : forall z, tkeys l z <> [] -> last (fpairs l (c1 ++ z :: c2)).*1 = if c2 is [] then last (tkeys l z) else last (fpairs l c2).*1).
  { intros z Hz. destruct c2 as [|w c2]; [by apply last_fkeys|]. rewrite (app_assoc c1 [z] (w :: c2) : c1 ++ z :: w :: c2 = _), fpairs_app, fmap_app. apply last_app_some.
    apply Forall_cons in Hw as [Hw _]. rewrite fpairs_cons, fmap_app. fold (tkeys l w). apply (wf_keys 8) in Hw; [|lia]. by destruct (tkeys l w). }
  assert (Hres : has (with_flag r merged) btree_not_found = false /\ has (with_flag r merged) btree_fixmerge = merged /\
    (has (with_flag r merged) btree_update_lastkey = false /\ (c2 = [] -> last (tkeys l c') = last (tkeys l c)) \/
     has (with_flag r merged) btree_update_lastkey = true /\ c2 = [] /\ last (tkeys l c') = Some (lastkey (with_flag r merged)))).
  { destruct (sl_told _ _ _ _ _ _ _ _ _ _ _ _ _ Hs) as [[-> H]|(H1 & k & -> & H2)]; destruct merged; (split; [done|]); (split; [done|]); [by left|by left|by right|by right]. }
  destruct Hres as (H1 & H2 & H3). split; [done|]. exists ks', cs', (fpairs l c1 ++ x), v, (y ++ fpairs l c2). rewrite H2. split; [done|].
  split; [rewrite fpairs_app, fpairs_cons, Ec, <-!app_assoc; done|]. split; [rewrite Hp, fpairs_app, fpairs_cons, Ec', <-!app_assoc; done|].
  rewrite Hp, !Hlast by done. destruct H3 as [[-> H3]|(-> & -> & H3)]; [|done]. destruct c2; [by apply H3|done].
Qed.

Lemma after_child_slim s s1 l pp ks c1 p kc d1 d d2 c2 pre post a r key : family s (S l) pp ks c1 (TInner p kc (d1 ++ d :: d2)) c2 pre post -> stx_wf 8 (S l) (TInner p kc (d1 ++ d :: d2)) ->
  placed s (S l) pp c1 (TInner p kc (d1 ++ d :: d2)) c2 a -> pp <> 0 -> m_root s <> p -> NoDup (pre ++ (fleaves (S l) (c1 ++ TInner p kc (d1 ++ d :: d2) :: c2)).*1 ++ post) ->
  erased s l p kc d1 d d2 (pre ++ (fleaves (S l) c1).*1) ((fleaves (S l) c2).*1 ++ post) key s1 r ->
  exists s3 ks1 r3 kc' dc' x v y, after_child s1 p (zlen d1) a r = (if tsize (TInner p kc' dc') <? 8 then fix_inner s3 p a r3 else Some (s3, r3)) /\
    slim s s3 (S l) pp ks c1 (TInner p kc (d1 ++ d :: d2)) (TInner p kc' dc') c2 ks1 r3 pre post /\
    tpairs (S l) (TInner p kc (d1 ++ d :: d2)) = x ++ (key, v) :: y /\ tpairs (S l) (TInner p kc' dc') = x ++ y.
Proof.
  set (dc := d1 ++ d :: d2). set (c := TInner p kc dc). intros Hf Hwf Hpl H0 Hroot Hch (Hnf & kc' & dc' & x & v & y & Hset & Epre & Epost & Hlast).
  pose proof Hf as [(np & Hnp & Hlev & Hrp) Hx Hrep Hnd Hpos Hout Hlk _ Hwfs]. destruct Hpl as [P1 P2 _ _]. destruct Hwf as (H8 & Hxc & Hwc).
  pose proof Hrep as Hr0. apply Forall_app in Hr0 as [_ Hr0]. apply Forall_cons in Hr0 as [(n & Hn & Hln & Hrn & Hrc) _].
  assert (Hperm : fptrs (S l) (c1 ++ c :: c2) ≡ₚ (p :: fptrs l dc) ++ fptrs (S l) (c1 ++ c2)) by (rewrite !fptrs_app, fptrs_cons; unfold c; rewrite tptrs_inner; solve_Permutation).
  assert (Hpp : pp ∉ p :: fptrs l dc) by (intros H; apply Hout; rewrite Hperm; apply elem_of_app; by left). apply not_elem_of_cons in Hpp as [Hpp Hppd].
  assert (Hpd : p ∉ fptrs l dc) by (rewrite Hperm in Hnd; apply NoDup_app in Hnd as (Hnd & _); by apply NoDup_cons in Hnd as [? _]).
  destruct (settled_frame _ _ _ _ _ _ _ _ _ _ _ _ _ Hset) as [Hroot1 Hframe]. assert (Hnp1 : nodes s1 !! pp = Some (SInner np)) by (rewrite Hframe; [done|done|by rewrite list_elem_of_singleton]).
  assert (Ht : exists np' ks1 r3, pass_lastkey s1 a r = Some (set_node s1 pp (SInner np'), r3) /\ ilevel np' = ilevel np /\ stx_inner_rep np' ks1 (tptr <$> (c1 ++ c :: c2)) /\ zlen ks1 = zlen ks /\
    exact (S l) ks1 (c1 ++ TInner p kc' dc' :: c2) /\ last_told r3 c2 (last (tkeys (S l) (TInner p kc' dc'))) (last (tkeys (S l) c))).
  { unfold pass_lastkey. destruct (has r btree_update_lastkey) eqn:Eu.
    - destruct Hlast as [-> Hlast]. destruct (tell_spec s1 (S l) pp np ks c1 c c2 a (lastkey r) Hnp1 Hrp Hx P1 H0 P2) as (np' & ks1 & r3 & Et & A1 & A2 & A3 & A4 & A5).
      exists np', ks1, r3. split; [exact Et|]. do 3 (split; [done|]). split; [by apply A4|]. unfold tkeys. rewrite tpairs_inner. rewrite Hlast. apply A5.
    - exists np, ks, rok. rewrite (set_node_id _ _ _ Hnp1). do 4 (split; [done|]). split; [by eapply exact_same|]. left. by split. }
  destruct Ht as (np' & ks1 & r3 & Et & L1 & R1 & Z1 & X1 & T1). pose proof (settled_set _ _ _ _ _ _ _ _ _ _ _ _ _ pp (SInner np') Hset Hpp Hppd) as Hset2.
  assert (Hch' : NoDup ((pre ++ (fleaves (S l) c1).*1) ++ (fleaves l dc).*1 ++ (fleaves (S l) c2).*1 ++ post)).
  { rewrite fleaves_app, fleaves_cons, !fmap_app in Hch. rewrite <-!app_assoc in *. exact Hch. }
  destruct (children_fixed _ _ _ _ _ _ _ _ _ _ _ _ _ Hset2 Hch' Hpd) as (s3 & n3 & E3 & Hc3 & Hn3 & Hl3 & Hr3 & Hf3).
  exists s3, ks1, r3, kc', dc', x, v, y. split; [|split; [|by split]].
  - unfold after_child. rewrite Et. cbn [mbind option_bind]. rewrite E3. cbn [mbind option_bind]. rewrite (get_inner_lookup _ _ _ Hn3). cbn [mbind option_bind]. unfold iisunderflow. rewrite (ir_use _ _ _ Hr3).
    rewrite (ch_root _ _ _ _ _ _ _ _ _ Hc3), (proj2 (Z.eqb_neq p _)) by by apply not_eq_sym. cbn [andb negb]. by rewrite andb_true_r.
  - assert (Hca : changed s s3 (S l) [c] [TInner p kc' dc'] [pp] [] (pre ++ (fleaves (S l) c1).*1) ((fleaves (S l) c2).*1 ++ post)) by by eapply changed_above.
    assert (Hcw : changed s s3 (S l) (c1 ++ c :: c2) (c1 ++ TInner p kc' dc' :: c2) [pp] [] pre post).
    { apply (changed_within s s3 (S l) c1 [c] [TInner p kc' dc'] c2 [pp] []); try done. by intros q ->%list_elem_of_singleton. }
    destruct Hset as (n1 & _ & _ & Hx1 & Hw1 & Hz1 & _). assert (Hnp3 : nodes s3 !! pp = Some (SInner np')) by (rewrite Hf3 by done; cbn [nodes set_node]; by rewrite lookup_insert_eq).
    constructor; try done; [|split; [destruct (has r btree_fixmerge); lia|done]].
    eapply changed_chain; [exact Hf|exact Hcw|exact Hnp3|congruence| |done|done]. rewrite !fmap_app in *. exact R1.
Qed.

(** The iterator stands on the pair with this key. *)
Definition stands_on (l : nat) (c : btree) (key : Z) (it : Z * Z) : Prop :=
  exists q es slot v, it = (q, Z.of_nat slot) /\ (q, es) ∈ tleaves l c /\ es !! slot = Some (key, v).

Lemma flank_perm s l P P' par q : P ≡ₚ P' -> flank s l P par q -> flank s l P' par q.
Proof.
  intros HP [H1 H2]. split; [by rewrite <-HP|]. destruct H2 as [?|(t & A & B & C & D)]; [by left|]. right. exists t. do 3 (split; [done|]). intros x Hx. rewrite <-HP. by apply D.
Qed.

Lemma leaf_pair_key l cs q es slot key v : (q, es) ∈ fleaves l cs -> es !! slot = Some (key, v) -> key ∈ (fpairs l cs).*1.
Proof.
  intros Hq Hv. apply list_elem_of_fmap. exists (key, v). split; [done|]. unfold fpairs. apply list_elem_of_In, List.in_concat. exists es. split; [|by apply list_elem_of_In, (list_elem_of_lookup_2 _ slot)].
  apply list_elem_of_In, list_elem_of_fmap. by exists (q, es).
Qed.

(** The children of a child, as a family of their own. *)
Lemma family_below s l pp ks c1 p kc d1 d d2 c2 pre post : family s (S l) pp ks c1 (TInner p kc (d1 ++ d :: d2)) c2 pre post -> stx_wf 8 (S l) (TInner p kc (d1 ++ d :: d2)) ->
  NoDup (pre ++ (fleaves (S l) (c1 ++ TInner p kc (d1 ++ d :: d2) :: c2)).*1 ++ post) -> Forall (fun q => q <> 0) (pre ++ (fleaves (S l) (c1 ++ TInner p kc (d1 ++ d :: d2) :: c2)).*1 ++ post) ->
  family s l p kc d1 d d2 (pre ++ (fleaves (S l) c1).*1) ((fleaves (S l) c2).*1 ++ post).
Proof.
  set (dc := d1 ++ d :: d2). set (c := TInner p kc dc). intros [F1 F2 F3 F4 F5 F6 F7 _ F9] (H8 & Hx & Hw) Hch H0.
  assert (Echain : pre ++ (fleaves (S l) (c1 ++ c :: c2)).*1 ++ post = (pre ++ (fleaves (S l) c1).*1) ++ (fleaves l dc).*1 ++ (fleaves (S l) c2).*1 ++ post).
  { rewrite fleaves_app, fleaves_cons, !fmap_app, <-!app_assoc. done. }
  assert (Hperm : fptrs (S l) (c1 ++ c :: c2) ≡ₚ (p :: fptrs l dc) ++ fptrs (S l) (c1 ++ c2)) by (rewrite !fptrs_app, fptrs_cons; unfold c; rewrite tptrs_inner; solve_Permutation).
  apply Forall_app in F3 as [_ F3]. apply Forall_cons in F3 as [(n & Hn & Hl & Hr & Hc) _]. rewrite Hperm in F4. apply NoDup_app in F4 as (F4 & _). apply NoDup_cons in F4 as [Hp Hnd].
  constructor; fold dc; try done.
  - by exists n.
  - intros q Hq. apply F5. rewrite Hperm. apply elem_of_app. left. by constructor.
  - by rewrite <-Echain.
  - intros _. by rewrite <-Echain.
  - apply Forall_app in Hw as [W1 W2]. apply Forall_cons in W2 as [_ W2]. by apply Forall_app.
Qed.

(** The leaf and the slot of a key. *)
Lemma sorted_unique (es : list (Z * Z)) i j key v w : StronglySorted Z.lt es.*1 -> es !! i = Some (key, v) -> es !! j = Some (key, w) -> i = j.
Proof.
  intros Hs Hi Hj. assert (Hi' : es.*1 !! i = Some key) by by rewrite list_lookup_fmap, Hi. assert (Hj' : es.*1 !! j = Some key) by by rewrite list_lookup_fmap, Hj.
  assert (HN : NoDup es.*1). { clear -Hs. induction es as [|e es IH]; [constructor|]. apply StronglySorted_inv in Hs as [Hs Hf]. constructor; [|by apply IH]. intros Hin%list_elem_of_In. rewrite List.Forall_forall in Hf. specialize (Hf _ Hin). lia. }
  by eapply NoDup_lookup.
Qed.

Lemma stx_leaf_search n es key : stx_leaf_rep n es -> StronglySorted Z.lt es.*1 -> exists slot, find_lower (lslotkey n) (lslotuse n) key = Some slot /\
  if decide (key ∈ es.*1) then exists x v y, es = x ++ (key, v) :: y /\ slot = zlen x /\ key_at n slot key = Some true else key_at n slot key = Some false.
Proof.
  intros Hr Hs. destruct (entries_cut key es Hs) as (x & b & Ees & Hlow & Ha & Hb). exists (zlen x).
  pose proof (stx_find_lower_spec _ _ _ key (lr_key _ _ Hr)) as Hfind. rewrite zlen_fmap, <-(lr_use _ _ Hr), Hlow in Hfind. split; [done|].
  rewrite (key_at_spec _ _ _ key Hr (zlen_nonneg x)).
  assert (Hnth : es !! Z.to_nat (zlen x) = head b) by (rewrite Ees; unfold zlen; rewrite Nat2Z.id; by destruct b; [rewrite app_nil_r; apply lookup_ge_None_2|apply list_lookup_middle]).
  rewrite Hnth. pose proof Hs as Hs0. rewrite Ees, fmap_app in Hs0. apply sorted_app_inv in Hs0 as (_ & Hsb & _). destruct (decide (key ∈ es.*1)) as [Hin|Hnot].
  - rewrite Ees, fmap_app, elem_of_app in Hin. destruct Hin as [Hin|Hin]; [rewrite Forall_forall in Ha; specialize (Ha key Hin); lia|]. destruct b as [|[k w] y]; [by apply elem_of_nil in Hin|].
    assert (k = key) as ->.
    { apply Forall_cons in Hb as [Hk _]. cbn in Hk. apply elem_of_cons in Hin as [?|Hin]; [done|]. apply StronglySorted_inv in Hsb as [_ Hsb]. rewrite List.Forall_forall in Hsb. apply list_elem_of_In in Hin. specialize (Hsb key Hin). cbn in Hsb. lia. }
    exists x, w, y. cbn [head fst]. by rewrite Z.eqb_refl.
  - destruct b as [|[k w] y]; [done|]. cbn [head fst]. rewrite (proj2 (Z.eqb_neq key k)); [done|]. intros ->. apply Hnot. rewrite Ees, fmap_app. apply elem_of_app. right. constructor.
Qed.

(** At a leaf the descent to an iterator does what the descent to its key does. *)
Lemma erase_iter_leaf fuel s p n x key v y a it : nodes s !! p = Some (SLeaf n) -> stx_leaf_rep n (x ++ (key, v) :: y) -> StronglySorted Z.lt (x ++ (key, v) :: y).*1 ->
  stands_on 0 (TLeaf p (x ++ (key, v) :: y)) key it -> erase_iter_descend (S fuel) s it p a = erase_at s p (zlen x) a.
Proof.
  intros Hn Hr Hs (q & es' & slot & w & -> & Hq & Hv). apply list_elem_of_singleton in Hq as [= -> ->]. cbn [erase_iter_descend]. rewrite Hn. cbn [mbind option_bind fst snd]. rewrite Z.eqb_refl. cbn [negb].
  assert (slot = length x) as -> by (eapply sorted_unique; [exact Hs|exact Hv|by apply list_lookup_middle]).
  pose proof (zlen_nonneg y). rewrite (lr_use _ _ Hr), (proj2 (Z.leb_gt _ _)); [done|]. rewrite zlen_app, zlen_cons. unfold zlen in *. lia.
Qed.

Lemma erase_leaf_spec fuel s pp ks c1 p es c2 pre post a key : family s 0 pp ks c1 (TLeaf p es) c2 pre post -> 8 <= zlen es -> placed s 0 pp c1 (TLeaf p es) c2 a -> pp <> 0 -> m_root s <> p ->
  c1 ++ c2 <> [] -> StronglySorted Z.lt es.*1 ->
  if decide (key ∈ es.*1) then exists s' r, erase_one_descend (S fuel) s key p a = Some (s', r) /\ erased s 0 pp ks c1 (TLeaf p es) c2 pre post key s' r /\
    (forall it, stands_on 0 (TLeaf p es) key it -> erase_iter_descend (S fuel) s it p a = Some (s', r))
  else erase_one_descend (S fuel) s key p a = Some (s, mkResult btree_not_found 0).
Proof.
  intros Hf H8 Hpl H0 Hroot Hne Hs. pose proof (fa_rep _ _ _ _ _ _ _ _ _ Hf) as Hrep. apply Forall_app in Hrep as [_ Hrep]. apply Forall_cons in Hrep as [(n & Hn & Hr) _].
  cbn [erase_one_descend]. rewrite Hn. cbn [mbind option_bind]. destruct (stx_leaf_search n es key Hr Hs) as (slot & -> & Hk). cbn [mbind option_bind].
  destruct (decide (key ∈ es.*1)) as [Hin|Hnot]; [|by rewrite Hk]. destruct Hk as (x & w & y & Ees & -> & ->). cbn [mbind option_bind].
  destruct (erase_at_slim s pp ks c1 p es c2 pre post a x key w y Hf H8 Hpl H0 Hroot Ees) as (s1 & ks1 & r & E & Hsl).
  destruct (slim_erased _ _ _ _ _ _ _ _ _ _ _ _ _ _ (fix_leaf s1 p a r) key x w y Hsl Hpl Hne (fa_out _ _ _ _ _ _ _ _ _ Hf)) as (s' & r' & E' & He); [apply fix_leaf_any|by rewrite tpairs_leaf..|].
  exists s', r'. rewrite E. split; [done|]. split; [done|]. intros it Hst. subst es. by rewrite (erase_iter_leaf fuel s p n x key w y a it Hn Hr Hs Hst), E.
Qed.

(** The step from an inner node to the child that [find_lower] selects. *)
Lemma inner_step s p n kc d1 d d2 key a a' : nodes s !! p = Some (SInner n) -> stx_inner_rep n kc (tptr <$> (d1 ++ d :: d2)) -> Z.of_nat (lower key kc) = zlen d1 -> around_child s p n (zlen d1) a = Some a' ->
  (forall fuel, erase_one_descend (S fuel) s key p a = '(t, r) ← erase_one_descend fuel s key (tptr d) a'; if has r btree_not_found then Some (t, r) else after_child t p (zlen d1) a r) /\
  (forall fuel it s1 r, iter_key s it = Some key -> erase_iter_descend fuel s it (tptr d) a' = Some (s1, r) -> has r btree_not_found = false ->
    erase_iter_descend (S fuel) s it p a = after_child s1 p (zlen d1) a r).
Proof.
  intros Hn Hr Hlow Ea. pose proof (stx_find_lower_spec _ _ _ key (ir_key _ _ _ Hr)) as Hfind. rewrite <-(ir_use _ _ _ Hr), Hlow in Hfind.
  assert (Hcell : cell (childid n) (zlen d1) = Some (tptr d)).
  { apply (cells_cell _ _ _ _ _ (ir_child _ _ _ Hr) (zlen_nonneg d1)). rewrite fmap_app. apply list_lookup_middle. rewrite length_fmap. unfold zlen. lia. }
  split; intros fuel; cbn [erase_one_descend erase_iter_descend].
  - rewrite Hn. cbn [mbind option_bind]. rewrite Hfind. cbn [mbind option_bind]. rewrite Hcell. cbn [mbind option_bind]. by rewrite Ea.
  - intros it s1 r Hk Hit Hnf. rewrite Hn. cbn [mbind option_bind]. rewrite Hk. cbn [mbind option_bind]. rewrite Hfind. cbn [mbind option_bind loop].
    pose proof (ir_count _ _ _ Hr) as Hc. rewrite zlen_fmap, zlen_app, zlen_cons in Hc. pose proof (zlen_nonneg d2). rewrite (proj2 (Z.leb_le _ _)) by (rewrite (ir_use _ _ _ Hr); lia).
    rewrite Hcell. cbn [mbind option_bind]. rewrite Ea. cbn [mbind option_bind]. rewrite Hit. cbn [mbind option_bind]. by rewrite Hnf.
Qed.

(** A key below a node is below the selected child. *)
Lemma key_child l p kc d1 d d2 key : Forall (fun k => k < key) (fpairs l d1).*1 -> Forall (fun k => key < k) (fpairs l d2).*1 ->
  (key ∈ tkeys (S l) (TInner p kc (d1 ++ d :: d2)) <-> key ∈ tkeys l d) /\ (forall it, stands_on (S l) (TInner p kc (d1 ++ d :: d2)) key it -> stands_on l d key it).
Proof.
  rewrite !Forall_forall. intros H1 H2. split.
  - unfold tkeys at 1. rewrite tpairs_inner, fpairs_app, fpairs_cons, !fmap_app, !elem_of_app. fold (tkeys l d). split; [|tauto]. intros [H|[H|H]]; [specialize (H1 key H); lia|done|specialize (H2 key H); lia].
  - intros it (q & es & slot & w & -> & Hq & Hv). exists q, es, slot, w. split; [done|]. split; [|done]. change (tleaves (S l) (TInner p kc (d1 ++ d :: d2))) with (fleaves l (d1 ++ d :: d2)) in Hq.
    rewrite fleaves_app, fleaves_cons, !elem_of_app in Hq. destruct Hq as [Hq|[Hq|Hq]]; [|done|]; apply (leaf_pair_key _ _ _ _ _ _ _ Hq) in Hv; [specialize (H1 key Hv)|specialize (H2 key Hv)]; lia.
Qed.

Lemma sorted_child l p kc d1 d d2 : StronglySorted Z.lt (tkeys (S l) (TInner p kc (d1 ++ d :: d2))) -> StronglySorted Z.lt (tkeys l d).
Proof.
  unfold tkeys at 1. rewrite tpairs_inner, fpairs_app, fpairs_cons, !fmap_app. intros Hs. apply sorted_app_inv in Hs as (_ & Hs & _). by apply sorted_app_inv in Hs as (Hs & _).
Qed.

Lemma children_siblings l kc (d1 : list btree) d d2 : exact l kc (d1 ++ d :: d2) -> 1 <= zlen kc -> d1 ++ d2 <> [].
Proof. intros Hx H. apply exact_len in Hx. rewrite length_app in Hx. cbn in Hx. intros [-> ->]%app_eq_nil. cbn in Hx. unfold zlen in H. lia. Qed.

Lemma erase_descend_spec l : forall fuel s pp ks c1 c c2 pre post a key, (l < fuel)%nat -> family s l pp ks c1 c c2 pre post -> stx_wf 8 l c -> placed s l pp c1 c c2 a -> pp <> 0 -> m_root s ∉ tptrs l c ->
  NoDup (pre ++ (fleaves l (c1 ++ c :: c2)).*1 ++ post) -> Forall (fun q => q <> 0) (pre ++ (fleaves l (c1 ++ c :: c2)).*1 ++ post) -> c1 ++ c2 <> [] -> StronglySorted Z.lt (tkeys l c) ->
  if decide (key ∈ tkeys l c) then exists s' r, erase_one_descend fuel s key (tptr c) a = Some (s', r) /\ erased s l pp ks c1 c c2 pre post key s' r /\
    (forall it, stands_on l c key it -> iter_key s it = Some key -> erase_iter_descend fuel s it (tptr c) a = Some (s', r))
  else erase_one_descend fuel s key (tptr c) a = Some (s, mkResult btree_not_found 0).
Proof.
  induction l as [|l IH]; intros [|fuel] s pp ks c1 c c2 pre post a key Hfu Hf Hwf Hpl H0 Hroot Hch Hnz Hne Hs; try lia; destruct c as [p es|p kc dc]; try done.
  - unfold tkeys in *. rewrite tpairs_leaf in *. assert (Hr : m_root s <> p) by (intros E; apply Hroot; rewrite E; constructor).
    pose proof (erase_leaf_spec fuel s pp ks c1 p es c2 pre post a key Hf Hwf Hpl H0 Hr Hne Hs) as H. destruct (decide (key ∈ es.*1)); [|done]. destruct H as (s' & r & E & He & Hi). exists s', r. split; [done|]. split; [done|]. intros it Hit _. by apply Hi.
  - pose proof Hwf as (H8 & Hx & Hw). destruct (child_cut l kc dc key Hx Hs) as (k1 & k2 & d1 & d & d2 & Ekc & -> & Hlen & Hlow & _ & _ & Hbelow & Habove & _). rewrite <-Hlen in Hlow.
    pose proof (family_below _ _ _ _ _ _ _ _ _ _ _ _ _ Hf Hwf Hch Hnz) as Hfd. pose proof (fa_node _ _ _ _ _ _ _ _ _ Hfd) as (n & Hn & Hlev & Hr).
    destruct (placed_flanks _ _ _ _ _ _ _ _ _ _ Hf Hpl) as [HL HR]. apply (flank_perm _ _ _ _ _ _ (tptrs_inner _ _ _ _)) in HL, HR.
    destruct (around_child_spec s l p n kc d1 d d2 a Hn Hr HL HR) as (a' & Ea & Hpl'). destruct (inner_step s p n kc d1 d d2 key a a' Hn Hr Hlow Ea) as [Estep Istep]. cbn [tptr]. rewrite Estep.
    destruct (key_child l p kc d1 d d2 key Hbelow Habove) as [Hkey Hst].
    assert (Hroot' : m_root s <> p /\ m_root s ∉ tptrs l d).
    { rewrite tptrs_inner in Hroot. apply not_elem_of_cons in Hroot as [? Hroot]. split; [done|]. intros Hq. apply Hroot, fptrs_elem. exists d. split; [apply elem_of_app; right; constructor|done]. }
    assert (Hp0 : p <> 0). { apply (fa_pos _ _ _ _ _ _ _ _ _ Hf), fptrs_elem. exists (TInner p kc (d1 ++ d :: d2)). split; [apply elem_of_app; right; constructor|]. rewrite tptrs_inner. constructor. }
    pose proof Hw as Hwd. apply Forall_app in Hwd as [_ Hwd]. apply Forall_cons in Hwd as [Hwd _].
    assert (Echain : pre ++ (fleaves (S l) (c1 ++ TInner p kc (d1 ++ d :: d2) :: c2)).*1 ++ post = (pre ++ (fleaves (S l) c1).*1) ++ (fleaves l (d1 ++ d :: d2)).*1 ++ (fleaves (S l) c2).*1 ++ post).
    { rewrite fleaves_app, (fleaves_cons (S l)), !fmap_app, <-!app_assoc. done. }
    rewrite Echain in Hch, Hnz. pose proof (IH fuel s p kc d1 d d2 _ _ a' key ltac:(lia) Hfd Hwd Hpl' Hp0 (proj2 Hroot') Hch Hnz (children_siblings _ _ _ _ _ Hx ltac:(lia)) (sorted_child _ _ _ _ _ _ Hs)) as H. rewrite <-Echain in Hch, Hnz.
    destruct (decide (key ∈ tkeys l d)) as [Hin|Hnot]; [rewrite decide_True by tauto|rewrite decide_False by tauto; by rewrite H].
    destruct H as (s1 & r & E1 & He & Hit). rewrite E1. cbn [mbind option_bind]. pose proof He as (Hnf & _). rewrite Hnf.
    destruct (after_child_slim s s1 l pp ks c1 p kc d1 d d2 c2 pre post a r key Hf Hwf Hpl H0 (proj1 Hroot') Hch He) as (s3 & ks1 & r3 & kc' & dc' & x & v & y & E3 & Hsl & Epre & Epost).
    destruct (slim_erased _ _ _ _ _ _ _ _ _ _ _ _ _ _ (fix_inner s3 p a r3) key x v y Hsl Hpl Hne (fa_out _ _ _ _ _ _ _ _ _ Hf)) as (s' & r' & E' & He'); [apply fix_inner_any|done|done|].
    exists s', r'. rewrite E3. split; [done|]. split; [done|]. intros it Hit' Hk. rewrite (Istep fuel it s1 r Hk); [by rewrite E3|by apply Hit; [apply Hst|]|done].
Qed.

(** ** The root *)

Lemma changed_heap s s' l cs cs' x key v y : stx_heap s l cs -> changed s s' l cs cs' [] [] [] [] -> fpairs l cs = x ++ (key, v) :: y -> fpairs l cs' = x ++ y ->
  stx_heap (set_itemcount s' (itemcount s' - 1)) l cs'.
Proof.
  intros [H1 H2 H0 H3 H4 H5 H6 H7 H8 H9] [A1 A2 A3 A4 A5 A6 A7 A8 A9 A10 A11] Epre Epost. rewrite !app_nil_r in *. change (zlen (@nil Z)) with 0 in *.
  constructor; cbn [nodes set_itemcount next_free itemcount leaves innernodes]; try done.
  - by rewrite A8.
  - intros q Hq. rewrite A8. by apply H3, A3.
  - intros q Hq. destruct (decide (q ∈ fptrs l cs)) as [Hin|Hnot]; [by apply A5|]. exfalso. apply Hnot, H4. rewrite <-A4; [done|done|apply not_elem_of_nil].
  - by apply (linked_fields s').
  - rewrite Epost, fmap_app. rewrite Epre, fmap_app, fmap_cons in H6. apply sorted_app_inv in H6 as (S1 & S2 & S3). apply StronglySorted_inv in S2 as [S2 _].
    apply sorted_app; [done|done|]. intros a b Ha Hb. apply S3; [done|by constructor].
  - rewrite A9, H7, Epre, Epost, !zlen_app, zlen_cons. lia.
  - destruct l; lia.
  - destruct l; lia.
Qed.

(** The only leaf, empty, goes. *)
Lemma heap_free_leaf s p n : stx_heap s 0 [TLeaf p []] -> nodes s !! p = Some (SLeaf n) -> exists s1, free_node s p = Some s1 /\ stx_heap (set_tail (set_head (set_root s1 0) 0) 0) 0 [].
Proof.
  intros [H1 H2 H0 H3 H4 H5 H6 H7 H8 H9] Hn. unfold free_node. rewrite Hn. cbn [mbind option_bind]. eexists. split; [done|]. cbn in *. constructor; cbn; try done.
  - constructor.
  - intros q Hq. by apply elem_of_nil in Hq.
  - intros q Hq. destruct (decide (q = p)) as [->|Hne]; [rewrite lookup_delete_eq in Hq; by destruct Hq|]. rewrite lookup_delete_ne in Hq by done. apply H4 in Hq. by apply list_elem_of_singleton in Hq.
  - rewrite H8. done.
Qed.

(** The root, left with one child, goes. *)
Lemma heap_shrink s l p n d : stx_heap s (S l) [TInner p [] [d]] -> nodes s !! p = Some (SInner n) -> exists s1, free_node (set_root s (tptr d)) p = Some s1 /\ stx_heap s1 l [d] /\ m_root s1 = tptr d /\ itemcount s1 = itemcount s.
Proof.
  intros [H1 H2 H0 H3 H4 H5 H6 H7 H8 H9] Hn. unfold free_node. cbn [nodes set_root]. rewrite Hn. cbn [mbind option_bind]. eexists. split; [done|]. split; [|done].
  assert (Hperm : fptrs (S l) [TInner p [] [d]] ≡ₚ p :: fptrs l [d]) by (rewrite fptrs_one; apply tptrs_inner). rewrite Hperm in H2. apply NoDup_cons in H2 as [Hp H2].
  rewrite fleaves_one in H5, H8. rewrite fpairs_one, tpairs_inner in H6, H7. change (tleaves (S l) (TInner p [] [d])) with (fleaves l [d]) in *.
  apply Forall_cons in H1 as [(n' & _ & _ & _ & Hc) _]. constructor; cbn; try done.
  - eapply stx_reps_ext; [|exact Hc]. intros q Hq. apply lookup_delete_ne. by intros ->.
  - intros q Hq. apply H3. rewrite Hperm. by constructor.
  - intros q Hq. destruct (decide (q = p)) as [->|Hne]; [rewrite lookup_delete_eq in Hq; by destruct Hq|]. rewrite lookup_delete_ne in Hq by done. apply H4 in Hq. rewrite Hperm in Hq. by apply elem_of_cons in Hq as [?|?].
  - by apply (linked_fields s).
  - rewrite H9. change (finners (S l) [TInner p [] [d]]) with ((p :: finners l [d]) ++ []). rewrite app_nil_r, zlen_cons. unfold finners. cbn. lia.
Qed.

Definition erased_root (s : Stx) (l : nat) (t : btree) (key : Z) (out : option (Stx * result_t)) : Prop :=
  exists s' r x v y, out = Some (s', r) /\ has r btree_not_found = false /\ tpairs l t = x ++ (key, v) :: y /\ stx_holds (set_itemcount s' (itemcount s' - 1)) (x ++ y).

Lemma leaf_root_spec s p n x key v y : stx_heap s 0 [TLeaf p (x ++ (key, v) :: y)] -> m_root s = p -> nodes s !! p = Some (SLeaf n) -> stx_leaf_rep n (x ++ (key, v) :: y) ->
  erased_root s 0 (TLeaf p (x ++ (key, v) :: y)) key (erase_at s p (zlen x) no_around).
Proof.
  intros Hh Hroot Hn Hr. unfold erase_at. rewrite (get_leaf_lookup _ _ _ Hn). cbn [mbind option_bind]. destruct (leaf_remove_spec n x (key, v) y Hr) as (n' & -> & Hr'). cbn [mbind option_bind]. rewrite (lr_use _ _ Hr').
  set (t := set_node s p (SLeaf n')). pose proof (hp_linked _ _ _ Hh) as Hl. cbn in Hl.
  assert (Hc : changed s t 0 [TLeaf p (x ++ (key, v) :: y)] [TLeaf p (x ++ y)] [] [] [] []) by by apply changed_leaf.
  assert (Hh' : stx_heap (set_itemcount t (itemcount t - 1)) 0 [TLeaf p (x ++ y)]).
  { eapply changed_heap; [exact Hh|exact Hc| |]; rewrite fpairs_one, tpairs_leaf; done. }
  change (parent no_around) with 0. cbn [Z.eqb negb andb mbind option_bind].
  assert (Hgo : exists r, (if zlen x =? zlen (x ++ y) then if 1 <=? zlen (x ++ y) then k ← cell (lslotkey n') (zlen (x ++ y) - 1); Some (t, merge_result rok (mkResult btree_update_lastkey k)) else Some (t, rok) else Some (t, rok)) = Some (t, r) /\ has r btree_not_found = false).
  { destruct (zlen x =? zlen (x ++ y)); [|by exists rok]. destruct (Z.leb_spec 1 (zlen (x ++ y))) as [H1|]; [|by exists rok]. remember (x ++ y) as es eqn:Ees. destruct es as [|[k w] es _] using rev_ind; [done|].
    pose proof (lr_key _ _ Hr') as Hk. rewrite fmap_app in Hk. apply last_cell in Hk. rewrite zlen_fmap in Hk. rewrite zlen_app. change (zlen [(k, w)]) with 1. replace (zlen es + 1 - 1) with (zlen es) by lia. rewrite Hk. by eexists. }
  destruct Hgo as (r & -> & Hnf). cbn [mbind option_bind]. unfold lisunderflow. rewrite (lr_use _ _ Hr'). cbn [m_root set_node t]. rewrite Hroot, Z.eqb_refl. cbn [andb].
  unfold erased_root. destruct (Z.leb_spec 1 (zlen (x ++ y))) as [H1|H1]; cbn [negb].
  - rewrite andb_false_r. exists t, r, x, v, y. split; [done|]. split; [done|]. split; [by rewrite tpairs_leaf|].
    assert (Hok : stx_ok (set_itemcount t (itemcount t - 1)) 0 (TLeaf p (x ++ y))) by (split; [done|done|done]). apply stx_ok_holds in Hok. by rewrite tpairs_leaf in Hok.
  - assert (x ++ y = []) as E by (destruct (x ++ y); [done|rewrite zlen_cons in H1; pose proof (zlen_nonneg l); lia]). apply app_eq_nil in E as [-> ->]. cbn [zlen length app]. change (zlen (@nil (Z * Z)) <? minleafslots) with true. cbn [andb].
    unfold fix_leaf. cbn [left right no_around Z.eqb andb]. cbn [m_root set_node t]. rewrite Hroot.
    destruct (heap_free_leaf (set_itemcount t (itemcount t - 1)) p n' Hh') as (s1 & Ef & Hs1); [cbn; by rewrite lookup_insert_eq|].
    assert (Hn' : nodes t !! p = Some (SLeaf n')) by (cbn; by rewrite lookup_insert_eq).
    unfold free_node in Ef |- *. cbn [nodes set_itemcount] in Ef. rewrite Hn' in Ef |- *. cbn [mbind option_bind] in Ef |- *. injection Ef as <-.
    eexists _, rok, [], v, []. split; [done|]. split; [done|]. split; [done|]. unfold stx_holds. cbn [m_root set_itemcount set_tail set_head set_root Z.eqb]. split; [done|]. exact Hs1.
Qed.

Lemma stx_holds_ok s l t es : stx_ok s l t -> tpairs l t = es -> stx_holds s es.
Proof. intros H <-. by apply stx_ok_holds. Qed.

Lemma after_child_root s s1 l p kc d1 d d2 r key : stx_ok s (S l) (TInner p kc (d1 ++ d :: d2)) -> erased s l p kc d1 d d2 [] [] key s1 r ->
  erased_root s (S l) (TInner p kc (d1 ++ d :: d2)) key (after_child s1 p (zlen d1) no_around r).
Proof.
  set (dc := d1 ++ d :: d2). intros [Hh Hroot Hwf] (Hnf & kc' & dc' & x & v & y & Hset & Epre & Epost & _). destruct (settled_frame _ _ _ _ _ _ _ _ _ _ _ _ _ Hset) as [Hroot1 _].
  pose proof (hp_nodup _ _ _ Hh) as Hnd. rewrite fptrs_one, tptrs_inner in Hnd. apply NoDup_cons in Hnd as [Hp Hnd].
  destruct (children_fixed _ _ _ _ _ _ _ _ _ _ _ _ _ Hset) as (s3 & n3 & E3 & Hc3 & Hn3 & Hl3 & Hr3 & _); [cbn [app]; rewrite app_nil_r; by apply NoDup_leaves|done|].
  assert (Epl : exists r3, pass_lastkey s1 no_around r = Some (s1, r3) /\ has r3 btree_not_found = false).
  { unfold pass_lastkey. destruct (has r btree_update_lastkey); [|by exists rok]. change (parent no_around) with 0. cbn [Z.eqb negb andb mbind option_bind]. by eexists. }
  destruct Epl as (r3 & Epl & Hnf3). unfold after_child. rewrite Epl. cbn [mbind option_bind]. rewrite E3. cbn [mbind option_bind]. rewrite (get_inner_lookup _ _ _ Hn3). cbn [mbind option_bind].
  assert (Hca : changed s s3 (S l) [TInner p kc dc] [TInner p kc' dc'] [] [] [] []) by by eapply changed_above.
  assert (Hh' : stx_heap (set_itemcount s3 (itemcount s3 - 1)) (S l) [TInner p kc' dc']).
  { eapply changed_heap; [exact Hh|exact Hca|rewrite fpairs_one, tpairs_inner; exact Epre|]. by rewrite fpairs_one, tpairs_inner. }
  destruct Hset as (_ & _ & _ & Hx & Hw & _). assert (Hroot3 : m_root s3 = p) by (rewrite (ch_root _ _ _ _ _ _ _ _ _ Hc3); exact Hroot).
  unfold iisunderflow. rewrite (ir_use _ _ _ Hr3), Hroot3, Z.eqb_refl. cbn [andb]. destruct (Z.leb_spec 1 (zlen kc')) as [H1|H1]; cbn [negb].
  - rewrite andb_false_r. exists s3, r3, x, v, y. do 3 (split; [done|]). apply (stx_holds_ok _ (S l) (TInner p kc' dc')); [|done]. split; [done|done|]. by split.
  - assert (kc' = []) as -> by (destruct kc'; [done|rewrite zlen_cons in H1; pose proof (zlen_nonneg kc'); lia]). destruct dc' as [|d' [|]]; try done. change (zlen (@nil Z) <? mininnerslots) with true. cbn [andb].
    unfold fix_inner. cbn [left right no_around Z.eqb andb]. rewrite (get_inner_lookup _ _ _ Hn3). cbn [mbind option_bind].
    rewrite (cells_cell _ _ _ 0 (tptr d') (ir_child _ _ _ Hr3)) by done. cbn [mbind option_bind].
    destruct (heap_shrink (set_itemcount s3 (itemcount s3 - 1)) l p n3 d' Hh' Hn3) as (s4 & Ef & Hs4 & Hroot4 & Hi4).
    unfold free_node in Ef |- *. cbn [nodes set_itemcount set_root] in Ef |- *. rewrite Hn3 in Ef |- *. cbn [mbind option_bind] in Ef |- *. injection Ef as <-.
    eexists _, rok, x, v, y. do 3 (split; [done|]). apply (stx_holds_ok _ l d'); [|rewrite <-Epost; by rewrite fpairs_one]. split; [exact Hs4|done|].
    apply Forall_cons in Hw as [Hw _]. eapply wf_least; [exact Hw|]. pose proof (wf_tsize _ _ _ Hw). lia.
Qed.

(** The children of the root. *)
Lemma root_family s l p kc d1 d d2 : stx_ok s (S l) (TInner p kc (d1 ++ d :: d2)) -> family s l p kc d1 d d2 [] [].
Proof.
  intros [Hh Hroot (H1 & Hx & Hw)]. pose proof (heap_rep _ _ _ Hh) as (n & Hn & Hl & Hr & Hc). pose proof (hp_nodup _ _ _ Hh) as Hnd. rewrite fptrs_one, tptrs_inner in Hnd. apply NoDup_cons in Hnd as [Hp Hnd].
  assert (Hpos : forall q, q ∈ fptrs l (d1 ++ d :: d2) -> q <> 0).
  { intros q Hq. assert (0 < q < next_free s); [|lia]. apply (hp_fresh _ _ _ Hh). rewrite fptrs_one, tptrs_inner. by constructor. }
  pose proof (hp_linked _ _ _ Hh) as Hlk. rewrite fleaves_one in Hlk. change (tleaves (S l) (TInner p kc (d1 ++ d :: d2))) with (fleaves l (d1 ++ d :: d2)) in Hlk.
  constructor; cbn [app]; rewrite ?app_nil_r; try done.
  - by exists n.
  - intros _. split; [by apply NoDup_leaves|]. rewrite Forall_forall. intros q Hq. apply Hpos, elem_of_app. by left.
  - apply Forall_app in Hw as [W1 W2]. apply Forall_cons in W2 as [_ W2]. by apply Forall_app.
Qed.

Lemma erase_root_spec s l t key : stx_ok s l t ->
  if decide (key ∈ tkeys l t) then exists out, erase_one_descend (S l) s key (tptr t) no_around = out /\ erased_root s l t key out /\
    (forall it, stands_on l t key it -> iter_key s it = Some key -> erase_iter_descend (S l) s it (tptr t) no_around = out)
  else erase_one_descend (S l) s key (tptr t) no_around = Some (s, mkResult btree_not_found 0).
Proof.
  intros Hok. pose proof Hok as [Hh Hroot Hwf]. pose proof (hp_sorted _ _ _ Hh) as Hs. rewrite fpairs_one in Hs. fold (tkeys l t) in Hs. pose proof (heap_rep _ _ _ Hh) as Hrep.
  destruct l as [|l], t as [p es|p kc dc]; try done.
  - destruct Hrep as (n & Hn & Hr). unfold tkeys in *. rewrite tpairs_leaf in *. cbn [erase_one_descend tptr]. rewrite Hn. cbn [mbind option_bind]. destruct (stx_leaf_search n es key Hr Hs) as (slot & -> & Hk). cbn [mbind option_bind].
    destruct (decide (key ∈ es.*1)) as [Hin|Hnot]; [|by rewrite Hk]. destruct Hk as (x & w & y & -> & -> & ->). cbn [mbind option_bind]. eexists. split; [done|]. split; [by apply (leaf_root_spec s p n)|].
    intros it Hst _. by apply (erase_iter_leaf 0 s p n x key w y).
  - pose proof Hwf as (H1 & Hx & Hw). destruct (child_cut l kc dc key Hx Hs) as (k1 & k2 & d1 & d & d2 & Ekc & -> & Hlen & Hlow & _ & _ & Hbelow & Habove & _). rewrite <-Hlen in Hlow.
    pose proof (root_family s l p kc d1 d d2 Hok) as Hfd. pose proof (fa_node _ _ _ _ _ _ _ _ _ Hfd) as (n & Hn & Hlev & Hr).
    assert (Hp0 : 0 < p < next_free s) by (cbn [tptr] in Hroot; rewrite <-Hroot; by eapply stx_ok_root). pose proof (fa_pos _ _ _ _ _ _ _ _ _ Hfd) as Hpos. pose proof (fa_out _ _ _ _ _ _ _ _ _ Hfd) as Hout.
    assert (Hfl : flank s (S l) (p :: fptrs l (d1 ++ d :: d2)) 0 0) by (split; [intros [?|Hq]%elem_of_cons; [lia|by apply (Hpos 0 Hq)]|by left]).
    destruct (around_child_spec s l p n kc d1 d d2 no_around Hn Hr Hfl Hfl) as (a' & Ea & Hpl'). destruct (inner_step s p n kc d1 d d2 key no_around a' Hn Hr Hlow Ea) as [Estep Istep]. cbn [tptr]. rewrite Estep.
    destruct (key_child l p kc d1 d d2 key Hbelow Habove) as [Hkey Hst].
    assert (Hroot' : m_root s ∉ tptrs l d). { rewrite Hroot. intros Hq. apply Hout, fptrs_elem. exists d. split; [apply elem_of_app; right; constructor|done]. }
    pose proof Hw as Hwd. apply Forall_app in Hwd as [_ Hwd]. apply Forall_cons in Hwd as [Hwd _].
    pose proof (NoDup_leaves _ _ (fa_nodup _ _ _ _ _ _ _ _ _ Hfd)) as Hch. assert (Hnz : Forall (fun q => q <> 0) (fleaves l (d1 ++ d :: d2)).*1) by (rewrite Forall_forall; intros q Hq; apply Hpos, elem_of_app; by left).
    rewrite <-(app_nil_r (fleaves l (d1 ++ d :: d2)).*1) in Hch, Hnz.
    pose proof (erase_descend_spec l (S l) s p kc d1 d d2 [] [] a' key ltac:(lia) Hfd Hwd Hpl' ltac:(lia) Hroot' Hch Hnz (children_siblings _ _ _ _ _ Hx ltac:(lia)) (sorted_child _ _ _ _ _ _ Hs)) as H.
    destruct (decide (key ∈ tkeys l d)) as [Hin|Hnot]; [rewrite decide_True by tauto|rewrite decide_False by tauto; by rewrite H].
    destruct H as (s1 & r & E1 & He & Hit). rewrite E1. cbn [mbind option_bind]. pose proof He as (Hnf & _). rewrite Hnf. eexists. split; [done|]. split; [by apply after_child_root|].
    intros it Hit' Hk. apply Istep; [done|by apply Hit; [apply Hst|]|done].
Qed.

(** ** The operations *)

(** A stored key is removed with its pair, and nothing else; another key changes nothing. *)
Lemma erase_one_spec s es key : stx_holds s es ->
  if decide (key ∈ es.*1) then exists s' x v y, StxErase.erase_one s key = Some (s', true) /\ es = x ++ (key, v) :: y /\ stx_holds s' (x ++ y)
  else StxErase.erase_one s key = Some (s, false).
Proof.
  unfold stx_holds at 1. unfold StxErase.erase_one. intros H. destruct (m_root s =? 0); [destruct H as [-> _]; done|]. destruct H as (l & t & Hok & ->).
  rewrite (height_spec _ _ _ Hok), (ok_root _ _ _ Hok). pose proof (erase_root_spec s l t key Hok) as H. fold (tkeys l t). destruct (decide (key ∈ tkeys l t)); [|by rewrite H].
  destruct H as (out & -> & (s' & r & x & v & y & -> & Hnf & E & Hh) & _). cbn [mbind option_bind]. rewrite Hnf. cbn [negb]. by exists (set_itemcount s' (itemcount s' - 1)), x, v, y.
Qed.

(** Removal at an iterator is removal of the key it stands on. *)
Lemma erase_iter_spec s es i it key v : at_index s es i it -> es !! i = Some (key, v) -> exists s', StxErase.erase_one s key = Some (s', true) /\ erase_iter s it = Some s'.
Proof.
  unfold at_index, StxErase.erase_one, erase_iter. intros H Hi. destruct (m_root s =? 0); [by destruct H as (-> & _)|]. destruct H as (l & t & Hok & -> & Hpos).
  rewrite (height_spec _ _ _ Hok), (ok_root _ _ _ Hok). pose proof (erase_root_spec s l t key Hok) as H. destruct (stx_deref s l t Hok i it key v Hpos Hi) as [Hk _].
  rewrite decide_True in H by (apply list_elem_of_fmap; exists (key, v); split; [done|by eapply list_elem_of_lookup_2]).
  assert (Hst : stands_on l t key it).
  { destruct Hpos as (a & p & fs & b & slot & E & -> & -> & Hslot). exists p, fs, slot, v. split; [done|]. rewrite E. split; [apply elem_of_app; right; constructor|].
    unfold tpairs in Hi. rewrite E, fmap_app, fmap_cons, concat_app, lookup_app_r in Hi by lia. replace (length (concat a.*2) + slot - length (concat a.*2))%nat with slot in Hi by lia. cbn [concat snd] in Hi.
    destruct Hslot as [Hlt|[-> ->]]; [by rewrite lookup_app_l in Hi|]. cbn in Hi. rewrite app_nil_r, lookup_ge_None_2 in Hi by lia. done. }
  destruct H as (out & Eo & (s' & r & x & w & y & -> & Hnf & E & Hh) & Hiter). rewrite Eo, (Hiter it Hst Hk). cbn [mbind option_bind]. rewrite Hnf. cbn [negb]. by eexists.
Qed.

(** ** Clearing *)

(** The nodes [P] are gone and the others as they were. *)
Definition gone (s s' : Stx) (P : list Z) : Prop :=
  (m_root s' = m_root s /\ next_free s' = next_free s) /\ (forall q, q ∉ P -> nodes s' !! q = nodes s !! q) /\ (forall q, q ∈ P -> nodes s' !! q = None).

Lemma gone_nil s : gone s s [].
Proof. split; [done|]. split; [done|]. intros q Hq. by apply elem_of_nil in Hq. Qed.

Lemma gone_trans s s1 s2 P Q : gone s s1 P -> gone s1 s2 Q -> gone s s2 (P ++ Q).
Proof.
  intros ([A0 A1] & A2 & A3) ([B0 B1] & B2 & B3). split; [split; congruence|]. split.
  - intros q Hq. rewrite elem_of_app in Hq. rewrite B2, A2 by tauto. done.
  - intros q Hq. destruct (decide (q ∈ Q)) as [?|Hn]; [by apply B3|]. apply elem_of_app in Hq as [Hq|?]; [|done]. rewrite B2 by done. by apply A3.
Qed.

Lemma gone_perm s s' P Q : P ≡ₚ Q -> gone s s' P -> gone s s' Q.
Proof. intros HP (A1 & A2 & A3). split; [done|]. split; intros q; rewrite <-HP; [apply A2|apply A3]. Qed.

Lemma free_gone s p : is_Some (nodes s !! p) -> exists s', free_node s p = Some s' /\ gone s s' [p].
Proof.
  intros [nd Hn]. unfold free_node. rewrite Hn. cbn [mbind option_bind]. eexists. split; [done|]. destruct nd; (split; [done|]); cbn; split; intros q Hq.
  all: try (apply lookup_delete_ne; intros ->; apply Hq; constructor).
  all: apply list_elem_of_singleton in Hq as ->; apply lookup_delete_eq.
Qed.

(** The nodes below the root of the subtree. *)
Definition tbelow (l : nat) (t : btree) : list Z := match l, t with S l, TInner _ _ cs => fptrs l cs | _, _ => [] end.

Lemma tptrs_below h l t : stx_rep h l t -> tptrs l t ≡ₚ tptr t :: tbelow l t.
Proof. destruct l, t; try done. intros _. apply tptrs_inner. Qed.

Lemma clear_recursive_spec l : forall fuel s t, (l < fuel)%nat -> stx_rep (nodes s) l t -> NoDup (tptrs l t) -> exists s', clear_recursive fuel s (tptr t) = Some s' /\ gone s s' (tbelow l t).
Proof.
  induction l as [|l IH]; intros [|fuel] s [p es|p ks cs] Hf Hr Hnd; try done; try lia; cbn [clear_recursive tptr tbelow].
  - destruct Hr as (n & -> & _). exists s. split; [done|apply gone_nil].
  - destruct Hr as (n & Hn & _ & Hr & Hc). rewrite Hn. cbn [mbind option_bind]. rewrite tptrs_inner in Hnd. apply NoDup_cons in Hnd as [Hp Hnd].
    pose proof (ir_count _ _ _ Hr) as Hlen. rewrite zlen_fmap in Hlen. rewrite (ir_use _ _ _ Hr), <-Hlen.
    destruct (for_up_spec (fun i t => gone s t (fptrs l (take (Z.to_nat i) cs))) (fun slot t => n ← get_inner t p; c ← cell (childid n) slot; t ← clear_recursive fuel t c; free_node t c) 0 (zlen cs) s) as (s' & E & H);
      [apply zlen_nonneg|apply gone_nil| |exists s'; split; [exact E|]; by rewrite take_all_at in H].
    intros i t Hi Hg. destruct (lookup_lt_is_Some_2 cs (Z.to_nat i)) as [c Hci]; [unfold zlen in Hi; lia|].
    assert (Hsplit : cs = take (Z.to_nat i) cs ++ c :: drop (S (Z.to_nat i)) cs) by (symmetry; by apply take_drop_middle).
    assert (Hsub : forall q, q ∈ fptrs l (take (Z.to_nat i) cs) -> q ∈ fptrs l cs) by (intros q Hq; rewrite Hsplit, fptrs_app, elem_of_app; by left).
    destruct Hg as (G1 & G2 & G3). rewrite (get_inner_lookup t p n) by (rewrite G2; [done|]; intros Hq; by apply Hp, Hsub). cbn [mbind option_bind].
    rewrite (cells_cell _ _ _ i (tptr c) (ir_child _ _ _ Hr)) by (lia || by rewrite list_lookup_fmap, Hci). cbn [mbind option_bind].
    rewrite Hsplit, fptrs_app, fptrs_cons in Hnd. apply NoDup_app in Hnd as (_ & Hd & Hnd). apply NoDup_app in Hnd as (Hndc & _).
    assert (Hrc : stx_rep (nodes t) l c).
    { rewrite Forall_forall in Hc. eapply stx_rep_ext; [|apply Hc; by eapply list_elem_of_lookup_2]. intros q Hq. apply G2. intros Hq'. apply (Hd q Hq'), elem_of_app. by left. }
    destruct (IH fuel t c ltac:(lia) Hrc Hndc) as (t1 & -> & Hg1). cbn [mbind option_bind]. pose proof (tptrs_below _ _ _ Hrc) as Hperm. rewrite Hperm in Hndc. apply NoDup_cons in Hndc as [Hnb _].
    destruct (free_gone t1 (tptr c)) as (t2 & -> & Hg2).
    { destruct Hg1 as (_ & H2 & _). rewrite H2 by done. destruct l as [|l'], c; try done; destruct Hrc as (x & Hx & _); cbn [tptr]; by rewrite Hx. }
    exists t2. split; [done|]. replace (Z.to_nat (i + 1)) with (S (Z.to_nat i)) by lia. rewrite (take_S_r _ _ _ Hci). eapply gone_perm; [|eapply gone_trans; [split; [exact G1|split; [exact G2|exact G3]]|eapply gone_trans; [exact Hg1|exact Hg2]]].
    rewrite fptrs_app, fptrs_one, Hperm. solve_Permutation.
Qed.

Lemma clear_spec s es : stx_holds s es -> exists s', StxTree.clear s = Some s' /\ stx_holds s' [] /\ m_root s' = 0.
Proof.
  unfold stx_holds at 1. unfold StxTree.clear. intros H. destruct (Z.eqb_spec (m_root s) 0) as [E|E].
  - destruct H as [-> H]. exists s. split; [done|]. split; [|done]. unfold stx_holds. by rewrite (proj2 (Z.eqb_eq _ _) E).
  - destruct H as (l & t & Hok & ->). rewrite (height_spec _ _ _ Hok). destruct Hok as [Hh Hroot _]. rewrite Hroot. pose proof (heap_rep _ _ _ Hh) as Hr. pose proof (hp_nodup _ _ _ Hh) as Hnd. rewrite fptrs_one in Hnd.
    destruct (clear_recursive_spec l (S l) s t ltac:(lia) Hr Hnd) as (s1 & -> & Hg1). cbn [mbind option_bind]. rewrite (proj1 (proj1 Hg1)), Hroot. pose proof (tptrs_below _ _ _ Hr) as Hperm. rewrite Hperm in Hnd. apply NoDup_cons in Hnd as [Hnb _].
    destruct (free_gone s1 (tptr t)) as (s2 & -> & Hg2).
    { destruct Hg1 as (_ & H2 & _). rewrite H2 by done. destruct l as [|l'], t; try done; destruct Hr as (x & Hx & _); cbn [tptr]; by rewrite Hx. }
    cbn [mbind option_bind]. pose proof (gone_trans _ _ _ _ _ Hg1 Hg2) as (G1 & G2 & G3). eexists. split; [done|]. split; [|done]. split; [done|]. constructor; cbn; try done.
    + constructor.
    + rewrite (proj2 G1). apply (hp_next _ _ _ Hh).
    + intros q Hq. by apply elem_of_nil in Hq.
    + intros q Hq. exfalso. destruct (decide (q ∈ tbelow l t ++ [tptr t])) as [Hin|Hnot]; [rewrite (G3 q Hin) in Hq; by destruct Hq|]. rewrite G2 in Hq by done. apply Hnot.
      apply (hp_dom _ _ _ Hh) in Hq. rewrite fptrs_one, Hperm in Hq. rewrite elem_of_app, list_elem_of_singleton. apply elem_of_cons in Hq. tauto.
    + constructor.
Qed.
