(* ===== verification/StxIndex.v ===== *)
(** * stx::btree as an index (competitor/btree/btree.h)

    The tree under any sequence of calls, removals included, is a finite map ([stx_refines_map]), and the
    adapter implements the interface of the benchmark ([stx_lawful]).  The adapter's [scan]
    writes no results and counts one entry more than it reads ([stx_scan_counts]). *)

From S2P Require Import Prelude Words Index StxNode StxTree StxInv StxInsert StxSearch StxBulk StxErase StxRemove.
From Stdlib Require Import Sorted.
From stdpp Require Import gmap list sorting.
Local Open Scope Z_scope.
Local Open Scope cxx_scope.

(** ** The adapter *)

Definition stx_get (t : Stx) (key : Z) : option (option Z) :=
  it ← StxTree.find t key;
  e ← end_ t;
  if iter_eqb it e then Some None else v ← iter_data t it; Some (Some v).

Definition stx_put (t : Stx) (key value : Z) : option (Stx * bool) :=
  '(t, _, inserted) ← StxTree.insert t key value; Some (t, inserted).

Definition stx_remove (t : Stx) (key : Z) : option (Stx * bool) := Some (t, true).

(** The return value; [result] is not written. *)
Definition stx_scan (t : Stx) (key_low_bound key_num : Z) : option Z :=
  it ← lower_bound t key_low_bound;
  e ← end_ t;
  if iter_eqb it e then Some 0
  else loop (S (Z.to_nat key_num)) (fun '(i, it, sum) =>
    if i <? key_num then
      it ← iter_next t it;
      e ← end_ t;
      if iter_eqb it e then Some (inr (sum + 1))
      else _ ← iter_data t it; Some (inl (i + 1, it, sum + 1))
    else Some (inr sum)) (0, it, 1).

Definition stx_bulk_load (kvs : list (Z * Z)) : option Stx := bulk_load stx_new kvs.

(** ** A client: [for (it = lower_bound(low); it != end() && n--; ++it)] *)

Fixpoint collect (n : nat) (t : Stx) (it : Z * Z) : option (list (Z * Z)) :=
  match n with
  | O => Some []
  | S n =>
      e ← end_ t;
      if iter_eqb it e then Some []
      else
        k ← iter_key t it;
        v ← iter_data t it;
        it ← iter_next t it;
        rest ← collect n t it;
        Some ((k, v) :: rest)
  end.

Definition range (t : Stx) (low n : Z) : option (list (Z * Z)) :=
  it ← lower_bound t low;
  collect (Z.to_nat n) t it.

(** A client: [it = find(key); if (it != end()) erase(it)] *)
Definition erase_found (t : Stx) (key : Z) : option (Stx * bool) :=
  it ← StxTree.find t key;
  e ← end_ t;
  if iter_eqb it e then Some (t, false) else t ← erase_iter t it; Some (t, true).

(** ** What the iterators see *)

Section Iterate.
Context (s : Stx) (l : nat) (t : btree) (Hok : stx_ok s l t).

Lemma stx_collect_spec n : forall i it, position (tleaves l t) i it -> collect n s it = Some (take n (drop i (tpairs l t))).
Proof.
  induction n as [|n IH]; intros i it Hp; [done|]. cbn [collect]. destruct (stx_end s l t Hok) as (e & -> & He). cbn [mbind option_bind].
  rewrite (stx_position_eq s l t Hok _ _ _ _ Hp He). case_bool_decide as Hi; [rewrite Hi, drop_all; done|].
  assert (Hlt : (i < length (tpairs l t))%nat).
  { assert (i <= length (tpairs l t))%nat; [|lia]. apply (at_index_le s (tpairs l t) i it). unfold at_index. pose proof (stx_ok_root _ _ _ Hok). rewrite (proj2 (Z.eqb_neq _ _)) by lia. by exists l, t. }
  destruct (lookup_lt_is_Some_2 _ _ Hlt) as [[k v] Hkv]. destruct (stx_deref s l t Hok i it k v Hp Hkv) as [-> ->]. cbn [mbind option_bind].
  destruct (stx_next s l t Hok i it Hp Hlt) as (it' & -> & Hp'). cbn [mbind option_bind]. rewrite (IH (S i) it' Hp'). cbn [mbind option_bind]. by rewrite (drop_S _ (k, v) i Hkv).
Qed.

Lemma stx_scan_loop key_num : forall f i it sum j, position (tleaves l t) j it -> (j < length (tpairs l t))%nat -> 0 <= i <= key_num -> (Z.to_nat (key_num - i) < f)%nat ->
  loop f (fun '(i, it, sum) =>
    if i <? key_num then
      it ← iter_next s it;
      e ← end_ s;
      if iter_eqb it e then Some (inr (sum + 1))
      else _ ← iter_data s it; Some (inl (i + 1, it, sum + 1))
    else Some (inr sum)) (i, it, sum) = Some (sum + Z.min (key_num - i) (zlen (tpairs l t) - Z.of_nat j)).
Proof.
  destruct (stx_end s l t Hok) as (e & -> & He). cbn [mbind option_bind]. induction f as [|f IH]; intros i it sum j Hp Hj Hi Hf; [lia|]. cbn [loop]. unfold zlen. destruct (Z.ltb_spec i key_num) as [Hlt|Hge]; [|f_equal; lia].
  destruct (stx_next s l t Hok j it Hp Hj) as (it' & -> & Hp'). cbn [mbind option_bind].
  rewrite (stx_position_eq s l t Hok _ _ _ _ Hp' He). case_bool_decide as Hend; [f_equal; lia|].
  destruct (lookup_lt_is_Some_2 (tpairs l t) (S j)) as [[k v] Hkv]; [lia|]. destruct (stx_deref s l t Hok (S j) it' k v Hp' Hkv) as [_ ->]. cbn [mbind option_bind].
  rewrite (IH (i + 1) it' (sum + 1) (S j)) by (done || lia). unfold zlen. f_equal. lia.
Qed.
End Iterate.

Lemma range_spec s es low n : stx_holds s es -> range s low n = Some (take (Z.to_nat n) (drop (lower low es.*1) es)).
Proof.
  intros Hs. unfold range. destruct (stx_lower_bound_spec s es Hs low) as (it & -> & Hat). cbn [mbind option_bind]. unfold at_index in Hat. destruct (Z.eqb_spec (m_root s) 0) as [E0|N0].
  - destruct Hat as (-> & _ & ->). unfold stx_holds in Hs. rewrite E0 in Hs. destruct Hs as [_ H]. destruct (hp_linked _ _ _ H) as [_ _ Ht]. destruct (Z.to_nat n); [done|]. cbn. unfold end_. rewrite Ht. done.
  - destruct Hat as (l & t & Hok & -> & Hp). by apply stx_collect_spec.
Qed.

(** C28: a scan of the adapter returns 0 when no key is large enough.  Otherwise it returns one more than the smaller of
    the number asked for and the number of entries from the low bound on, the first one included: the entry it starts at
    is counted before the loop, and the loop counts the step to the end. *)
Theorem stx_scan_counts s es low n : stx_holds s es -> 0 <= n ->
  stx_scan s low n = Some (let left := zlen (drop (lower low es.*1) es) in if left =? 0 then 0 else 1 + Z.min n left).
Proof.
  intros Hs Hn. unfold stx_scan. destruct (stx_lower_bound_spec s es Hs low) as (it & -> & Hat). cbn [mbind option_bind]. pose proof (at_index_le _ _ _ _ Hat) as Hle. unfold at_index in Hat.
  assert (Hz : zlen (drop (lower low es.*1) es) = zlen es - Z.of_nat (lower low es.*1)) by (unfold zlen; rewrite length_drop; lia). rewrite Hz.
  destruct (Z.eqb_spec (m_root s) 0) as [E0|N0].
  - destruct Hat as (-> & _ & ->). unfold stx_holds in Hs. rewrite E0 in Hs. destruct Hs as [_ H]. destruct (hp_linked _ _ _ H) as [_ _ Ht]. unfold end_. rewrite Ht. done.
  - destruct Hat as (l & t & Hok & -> & Hp). destruct (stx_end s l t Hok) as (e & Ee & He). rewrite Ee at 1. cbn [mbind option_bind]. rewrite (stx_position_eq s l t Hok _ _ _ _ Hp He).
    case_bool_decide as Hi; [rewrite (proj2 (Z.eqb_eq _ _)) by (unfold zlen; lia); done|]. rewrite (proj2 (Z.eqb_neq _ _)) by (unfold zlen; lia).
    rewrite (stx_scan_loop s l t Hok n _ 0 it 1 _ Hp) by lia. f_equal. lia.
Qed.

(** ** The tree represents a map *)

Definition stx_tree (t : Stx) (m : gmap Z Z) : Prop := exists es, stx_holds t es /\ forall k v, m !! k = Some v <-> (k, v) ∈ es.

Lemma stx_tree_new : stx_tree stx_new ∅.
Proof. exists []. split; [apply stx_new_holds|]. intros k v. rewrite lookup_empty. split; [done|]. by intros H%elem_of_nil. Qed.

Lemma stx_tree_keys es (m : gmap Z Z) k : (forall k v, m !! k = Some v <-> (k, v) ∈ es) -> k ∈ es.*1 <-> is_Some (m !! k).
Proof.
  intros Hm. split.
  - intros ([k' v] & -> & Hin)%list_elem_of_fmap. exists v. by apply Hm.
  - intros [v Hv%Hm]. apply list_elem_of_fmap. by exists (k, v).
Qed.

Lemma stx_tree_size t (m : gmap Z Z) es : stx_holds t es -> (forall k v, m !! k = Some v <-> (k, v) ∈ es) -> Z.of_nat (size m) = zlen es.
Proof.
  intros H Hm. assert (Hnd : NoDup es.*1) by (by apply increasing_NoDup_keys, (stx_holds_sorted t)). assert (m = list_to_map es) as ->.
  { apply map_eq. intros k. apply option_eq. intros v. by rewrite Hm, elem_of_list_to_map. }
  rewrite <-size_dom, dom_list_to_map_L, size_list_to_set by done. unfold zlen. by rewrite length_fmap.
Qed.

Lemma stx_insert_spec t m k v : stx_tree t m -> exists t', stx_put t k v = Some (t', bool_decide (m !! k = None)) /\ stx_tree t' (put_map m k v).
Proof.
  intros (es & Hs & Hm). pose proof (stx_tree_keys es m k Hm) as Hk. pose proof (stx_insert_start_spec t es k v Hs) as H. unfold stx_put, StxTree.insert. destruct (decide (k ∈ es.*1)) as [Hin|Hnot].
  - destruct H as (it & ->). cbn [mbind option_bind]. apply Hk in Hin as [w Hw]. exists t. rewrite bool_decide_false by congruence. split; [done|].
    exists es. split; [done|]. unfold put_map. by rewrite Hw.
  - destruct H as (t' & it & a & b & -> & -> & Hs'). cbn [mbind option_bind]. assert (Hn : m !! k = None) by (apply eq_None_not_Some; by rewrite <-Hk). exists t'. rewrite bool_decide_true by done. split; [done|].
    rewrite put_map_fresh by done. exists (a ++ (k, v) :: b). split; [done|]. intros x w. destruct (decide (x = k)) as [->|Hne].
    + rewrite lookup_insert_eq. rewrite elem_of_app, elem_of_cons. split; [intros [= ->]; tauto|]. intros [H|[[= ->]|H]]; [|done|]; exfalso; apply Hnot; apply list_elem_of_fmap; exists (k, w); rewrite elem_of_app; tauto.
    + rewrite lookup_insert_ne by done. rewrite Hm, !elem_of_app, elem_of_cons. split; [tauto|]. intros [H|[[= ? ?]|H]]; [tauto|done|tauto].
Qed.

Lemma stx_get_spec t m k : stx_tree t m -> stx_get t k = Some (m !! k).
Proof.
  intros (es & Hs & Hm). pose proof (stx_tree_keys es m k Hm) as Hk. unfold stx_get. destruct (stx_find_spec t es Hs k) as (it & -> & Hat). cbn [mbind option_bind].
  destruct (stx_end_spec t es Hs) as (e & Ee & He). rewrite Ee. cbn [mbind option_bind]. unfold at_index in Hat, He. pose proof (stx_holds_sorted _ _ Hs) as Hsort. destruct (m_root t =? 0) eqn:E0.
  - destruct Hat as (-> & _ & ->), He as (_ & _ & ->). cbn. f_equal. symmetry. apply eq_None_not_Some. rewrite <-Hk. apply not_elem_of_nil.
  - destruct Hat as (l & tr & Hok & Ees & Hp). destruct (stx_end t l tr Hok) as (e' & Ee' & He'). rewrite Ee in Ee'. injection Ee' as <-.
    rewrite (stx_position_eq t l tr Hok _ _ _ _ Hp He'). destruct (decide (k ∈ es.*1)) as [Hin|Hnot].
    + pose proof Hin as ([k' v] & Ek & Hv)%list_elem_of_fmap. cbn in Ek. subst k'. assert (Hmv : m !! k = Some v) by by apply Hm. apply lower_found in Hv; [|done]. pose proof (lookup_lt_Some _ _ _ Hv).
      rewrite <-Ees in *. rewrite bool_decide_false by lia. rewrite Ees in Hp, Hv. destruct (stx_deref t l tr Hok _ it k v Hp Hv) as [_ ->]. cbn. by rewrite Hmv.
    + rewrite bool_decide_true by by rewrite Ees. f_equal. symmetry. apply eq_None_not_Some. by rewrite <-Hk.
Qed.

Lemma at_index_end t es i it e : at_index t es i it -> end_ t = Some e -> stx_holds t es -> iter_eqb it e = bool_decide (i = length es).
Proof.
  unfold at_index, stx_holds. destruct (m_root t =? 0).
  - intros (-> & -> & ->) Ee [_ H]. destruct (hp_linked _ _ _ H) as [_ _ Ht]. unfold end_ in Ee. rewrite Ht in Ee. by injection Ee as <-.
  - intros (l & tr & Hok & -> & Hp) Ee _. destruct (stx_end t l tr Hok) as (e' & Ee' & He'). rewrite Ee in Ee'. injection Ee' as <-. by apply (stx_position_eq t l tr Hok).
Qed.

(** Removal of a key and removal at the iterator of that key. *)
Lemma stx_erase_spec t m k : stx_tree t m -> exists t', StxErase.erase_one t k = Some (t', bool_decide (is_Some (m !! k))) /\ erase_found t k = Some (t', bool_decide (is_Some (m !! k))) /\ stx_tree t' (delete k m).
Proof.
  intros (es & Hs & Hm). pose proof (stx_tree_keys es m k Hm) as Hk. pose proof (erase_one_spec t es k Hs) as H. pose proof (stx_holds_sorted _ _ Hs) as Hsort. unfold erase_found.
  destruct (stx_find_spec t es Hs k) as (it & Ef & Hat). rewrite Ef. cbn [mbind option_bind]. destruct (stx_end_spec t es Hs) as (e & Ee & He). rewrite Ee. cbn [mbind option_bind]. rewrite (at_index_end t es _ _ _ Hat Ee Hs).
  destruct (decide (k ∈ es.*1)) as [Hin|Hnot].
  - rewrite (bool_decide_true (is_Some _)) by by apply Hk. pose proof Hin as ([k' v] & Ek & Hv)%list_elem_of_fmap. cbn in Ek. subst k'. apply lower_found in Hv; [|done]. pose proof (lookup_lt_Some _ _ _ Hv).
    rewrite bool_decide_false by lia. destruct (erase_iter_spec t es _ it k v Hat Hv) as (s' & E & ->). destruct H as (t' & x & w & y & E' & Ees & Ht'). rewrite E in E'. injection E' as <-. exists s'. split; [done|]. split; [done|].
    exists (x ++ y). split; [done|]. intros k' v'. rewrite Ees in Hm, Hsort. rewrite fmap_app, fmap_cons in Hsort. apply sorted_app_inv in Hsort as (_ & Hsy & Hxy). apply StronglySorted_inv in Hsy as [_ Hsy]. cbn [fst] in Hxy, Hsy. rewrite List.Forall_forall in Hsy.
    destruct (decide (k' = k)) as [->|Hne].
    + rewrite lookup_delete_eq. split; [done|]. rewrite elem_of_app. intros [Hi|Hi]; apply (list_elem_of_fmap_2 fst) in Hi; cbn in Hi; [specialize (Hxy k k Hi ltac:(constructor))|apply list_elem_of_In in Hi; specialize (Hsy k Hi)]; lia.
    + rewrite lookup_delete_ne by done. rewrite Hm, !elem_of_app, elem_of_cons. split; [|tauto]. intros [?|[[= ? ?]|?]]; [tauto|done|tauto].
  - assert (Hn : m !! k = None) by (apply eq_None_not_Some; by rewrite <-Hk). rewrite Hn. rewrite (bool_decide_false (is_Some None)) by by intros [? ?]. rewrite bool_decide_true by done.
    exists t. split; [done|]. split; [done|]. rewrite delete_id by done. by exists es.
Qed.

Lemma stx_tree_empty t : stx_holds t [] -> stx_tree t ∅.
Proof. intros H. exists []. split; [done|]. intros k v. rewrite lookup_empty. split; [done|]. by intros Hi%elem_of_nil. Qed.

Lemma stx_range_spec t m low n : stx_tree t m -> range t low n = Some (take (Z.to_nat n) (entries_from m low)).
Proof.
  intros (es & Hs & Hm). rewrite (range_spec t es low n Hs). do 2 f_equal. pose proof (stx_holds_sorted _ _ Hs) as Hsort. apply increasing_entries_unique; [|apply entries_from_increasing|].
  - rewrite fmap_drop. rewrite <-(take_drop (lower low es.*1) es.*1) in Hsort. by apply sorted_app_inv in Hsort as (_ & H & _).
  - intros [k v]. rewrite elem_of_entries_from, Hm. destruct (entries_cut low es Hsort) as (a & b & -> & Hl & Ha & Hb). replace (lower low (a ++ b).*1) with (length a) by (unfold zlen in Hl; lia).
    rewrite drop_app_length. rewrite Forall_forall in Ha, Hb. rewrite elem_of_app. split.
    + intros H. split; [by right|]. apply Hb, list_elem_of_fmap. by exists (k, v).
    + intros [[H|H] Hle]; [|done]. assert (k < low); [|lia]. apply Ha, list_elem_of_fmap. by exists (k, v).
Qed.

Lemma stx_bulk_load_spec kvs : StronglySorted Z.lt kvs.*1 -> exists t, stx_bulk_load kvs = Some t /\ stx_tree t (list_to_map kvs).
Proof.
  intros Hs. destruct (stx_loads stx_new kvs stx_new_holds eq_refl Hs) as (t & E & Ht & _). exists t. split; [done|]. exists kvs. split; [done|].
  intros k v. symmetry. apply elem_of_list_to_map. by apply increasing_NoDup_keys.
Qed.

(** ** The interface of the benchmark *)

#[export] Instance stx_index : Index Stx := {
  idx_bulk_load := stx_bulk_load;
  idx_get t k := v ← stx_get t k; Some (t, v);
  idx_put := stx_put;
  idx_remove := stx_remove;
  idx_scan t low n := _ ← stx_scan t low n; Some (t, [])
}.

#[export] Instance stx_store : LawfulStore Stx.
Proof.
  refine {| idx_rep := stx_tree; idx_valid := fun _ => True; idx_payload := fun _ => True; idx_limit := u64_max |}.
  - done.
  - done.
  - intros kvs Hs _ _ _. by apply stx_bulk_load_spec.
  - intros t m k v Ht _ Hm. exists t. cbn. by rewrite (stx_get_spec t m k Ht), Hm.
  - intros t m k v Ht _ _ Hm _. destruct (stx_insert_spec t m k v Ht) as (t' & E & Ht'). exists t'. rewrite bool_decide_true in E by done. split; [done|]. by rewrite put_map_fresh in Ht'.
  - intros t m k v w Ht _ _ Hm. destruct (stx_insert_spec t m k v Ht) as (t' & E & Ht'). exists t', false, w. rewrite bool_decide_false in E by congruence. split; [done|].
    split; [|by right]. unfold put_map in Ht'. rewrite Hm in Ht'. by rewrite insert_id.
Defined.

#[export] Instance stx_lawful : LawfulIndex Stx.
Proof.
  split. intros t m low n Ht _ Hn. exists t, []. destruct Ht as (es & Hs & Hm). cbn. rewrite (stx_scan_counts t es low n Hs Hn). cbn. split; [done|]. split; [by exists es|]. split; [done|]. split; [constructor|]. by intros k v H%elem_of_nil.
Qed.

(** ** Any sequence of calls *)

Inductive StxCall := SInsert (k v : Z) | SFind (k : Z) | SExists (k : Z) | SCount (k : Z) | SRange (low n : Z) |
  SErase (k : Z) | SEraseFound (k : Z) | SClear.

Inductive StxAnswer := AsInsert (inserted : bool) | AsFind (v : option Z) | AsExists (b : bool) | AsCount (n : Z) | AsRange (l : list (Z * Z)) |
  AsErase (n : Z) | AsEraseFound (b : bool) | AsClear.

Definition stx_exec (t : Stx) (c : StxCall) : option (Stx * StxAnswer) :=
  match c with
  | SInsert k v => '(t, b) ← stx_put t k v; Some (t, AsInsert b)
  | SFind k => v ← stx_get t k; Some (t, AsFind v)
  | SExists k => b ← exists_ t k; Some (t, AsExists b)
  | SCount k => n ← StxTree.count t k; Some (t, AsCount n)
  | SRange low n => l ← range t low n; Some (t, AsRange l)
  | SErase k => '(t, n) ← StxErase.erase t k; Some (t, AsErase n)
  | SEraseFound k => '(t, b) ← erase_found t k; Some (t, AsEraseFound b)
  | SClear => t ← StxTree.clear t; Some (t, AsClear)
  end.

Fixpoint stx_execs (t : Stx) (cs : list StxCall) : option (Stx * list StxAnswer) :=
  match cs with
  | [] => Some (t, [])
  | c :: cs => '(t, a) ← stx_exec t c; '(t, rest) ← stx_execs t cs; Some (t, a :: rest)
  end.

(** The same calls on a finite map. *)
Definition map_exec (m : gmap Z Z) (c : StxCall) : gmap Z Z * StxAnswer :=
  match c with
  | SInsert k v => (put_map m k v, AsInsert (bool_decide (m !! k = None)))
  | SFind k => (m, AsFind (m !! k))
  | SExists k => (m, AsExists (bool_decide (is_Some (m !! k))))
  | SCount k => (m, AsCount (if bool_decide (is_Some (m !! k)) then 1 else 0))
  | SRange low n => (m, AsRange (take (Z.to_nat n) (entries_from m low)))
  | SErase k => (delete k m, AsErase (if bool_decide (is_Some (m !! k)) then 1 else 0))
  | SEraseFound k => (delete k m, AsEraseFound (bool_decide (is_Some (m !! k))))
  | SClear => (∅, AsClear)
  end.

Fixpoint map_execs (m : gmap Z Z) (cs : list StxCall) : gmap Z Z * list StxAnswer :=
  match cs with
  | [] => (m, [])
  | c :: cs => let '(m, a) := map_exec m c in let '(m, rest) := map_execs m cs in (m, a :: rest)
  end.

Lemma stx_exec_spec t m c : stx_tree t m -> exists t', stx_exec t c = Some (t', (map_exec m c).2) /\ stx_tree t' (map_exec m c).1.
Proof.
  intros Ht. destruct c as [k v|k|k|k|low n|k|k|]; cbn [stx_exec map_exec fst snd].
  - destruct (stx_insert_spec t m k v Ht) as (t' & -> & Ht'). by exists t'.
  - exists t. by rewrite (stx_get_spec t m k Ht).
  - exists t. pose proof Ht as (es & Hs & Hm). rewrite (exists_spec t es Hs k). cbn. split; [|done]. do 3 f_equal. apply bool_decide_ext, (stx_tree_keys es m k Hm).
  - exists t. pose proof Ht as (es & Hs & Hm). rewrite (count_spec t es Hs k). cbn. split; [|done]. do 3 f_equal. by rewrite (bool_decide_ext _ _ (stx_tree_keys es m k Hm)).
  - exists t. by rewrite (stx_range_spec t m low n Ht).
  - destruct (stx_erase_spec t m k Ht) as (t' & E & _ & Ht'). exists t'. unfold StxErase.erase. rewrite E. cbn [mbind option_bind]. by case_bool_decide.
  - destruct (stx_erase_spec t m k Ht) as (t' & _ & E & Ht'). exists t'. by rewrite E.
  - destruct Ht as (es & Hs & _). destruct (clear_spec t es Hs) as (t' & -> & Ht' & _). exists t'. split; [done|]. by apply stx_tree_empty.
Qed.

Lemma stx_execs_spec cs : forall t m, stx_tree t m -> exists t', stx_execs t cs = Some (t', (map_execs m cs).2) /\ stx_tree t' (map_execs m cs).1.
Proof.
  induction cs as [|c cs IH]; intros t m Ht; cbn [stx_execs map_execs]; [by exists t|]. destruct (stx_exec_spec t m c Ht) as (t1 & -> & Ht1). cbn [mbind option_bind].
  destruct (map_exec m c) as [m1 a]. destruct (IH t1 m1 Ht1) as (t' & -> & Ht'). cbn [mbind option_bind fst snd] in *. destruct (map_execs m1 cs). by exists t'.
Qed.

(** C7: from the empty tree, any sequence of insertions, removals (by key and at an iterator), lookups, membership
    tests, counts, range scans and clearings ends without undefined behaviour, through all splits, merges, shifts and
    changes of the root, and is answered exactly as by a finite map: a new key is inserted, an existing one is reported
    and left alone, a removal takes away that key and no other, and a range scan that starts at [lower_bound] and
    follows the iterator returns exactly the stored pairs from there on, in order. *)
Theorem stx_refines_map cs : exists t, stx_execs stx_new cs = Some (t, (map_execs ∅ cs).2) /\ stx_tree t (map_execs ∅ cs).1.
Proof. apply stx_execs_spec, stx_tree_new. Qed.

(** C26: bulk loading pairs with increasing keys into an empty tree ends without undefined behaviour and stores exactly
    these pairs: a scan of any range returns them in order.  The tree has as few leaves as hold the pairs, and every node
    but the root is at least half full. *)
Theorem stx_bulk_load_exact kvs : StronglySorted Z.lt kvs.*1 ->
  exists t, stx_bulk_load kvs = Some t /\ stx_holds t kvs /\ leaves t = ceil_div (zlen kvs) leafslotmax /\
    forall low n, range t low n = Some (take (Z.to_nat n) (drop (lower low kvs.*1) kvs)).
Proof.
  intros Hs. destruct (stx_loads stx_new kvs stx_new_holds eq_refl Hs) as (t & E & Ht & Hl). exists t. split; [done|]. split; [done|]. split; [done|].
  intros low n. by apply range_spec.
Qed.

(** The root of a tree with many levels has many pairs below it. *)
Lemma root_level_size s es nd : stx_holds s es -> nodes s !! m_root s = Some nd -> 0 < level_of nd -> 16 * 9 ^ (level_of nd - 1) <= zlen es.
Proof.
  unfold stx_holds. intros H Hnd Hl. destruct (Z.eqb_spec (m_root s) 0) as [E0|].
  - destruct H as [-> H]. rewrite E0 in Hnd. pose proof (hp_fresh _ _ _ H 0) as Hf. exfalso.
    assert (0 ∈ fptrs 0 []) as []%elem_of_nil by (apply (hp_dom _ _ _ H); by eexists).
  - destruct H as (l & t & [H Hr Hw] & ->). apply heap_rep in H. destruct (rep_level s l t H) as (nd' & E & Elev). rewrite Hr, E in Hnd. injection Hnd as <-.
    rewrite Elev in *. destruct l as [|h]; [lia|]. replace (Z.of_nat (S h) - 1) with (Z.of_nat h) by lia.
    destruct t as [|p ks cs]; [done|]. rewrite tpairs_inner. by eapply wf_root_size.
Qed.

(** C29: the tree stays shallow: after bulk loading any pairs in increasing order of keys and any sequence of insertions,
    removals, lookups, scans and clearings, a root of level [h > 0] has at least 16 * 9^(h - 1) stored pairs below it.
    (The level of a node is its distance to the leaves, so every descent takes a number of rounds logarithmic in the
    number of pairs.) *)
Theorem stx_height_bound kvs cs : StronglySorted Z.lt kvs.*1 ->
  exists t t' answers, stx_bulk_load kvs = Some t /\ stx_execs t cs = Some (t', answers) /\
    forall nd, nodes t' !! m_root t' = Some nd -> 0 < level_of nd ->
      16 * 9 ^ (level_of nd - 1) <= Z.of_nat (size (map_execs (list_to_map kvs) cs).1).
Proof.
  intros Hs. destruct (stx_bulk_load_spec kvs Hs) as (t & E & Ht). destruct (stx_execs_spec cs t _ Ht) as (t' & E' & es & Hes & Hm).
  eexists t, t', _. split; [done|]. split; [done|]. intros nd Hnd Hl. rewrite (stx_tree_size t' _ es Hes Hm). by eapply root_level_size.
Qed.

(** ** Examples *)

Module StxDemo.

(** Forty pairs with even keys. *)
Definition demo_pairs : list (Z * Z) := (fun n => (2 * Z.of_nat n, Z.of_nat n + 100)) <$> seq 0 40.

Lemma demo_pairs_sorted : StronglySorted Z.lt demo_pairs.*1.
Proof. repeat constructor. Qed.

Lemma stx_scan_counts_witness : exists t, stx_bulk_load demo_pairs = Some t /\ stx_scan t 11 1000 = Some 35 /\ stx_scan t 11 5 = Some 6 /\ stx_scan t 79 5 = Some 0.
Proof.
  destruct (stx_loads stx_new demo_pairs stx_new_holds eq_refl demo_pairs_sorted) as (t & E & Ht & _). exists t. split; [exact E|].
  split; [rewrite (stx_scan_counts t demo_pairs 11 1000 Ht ltac:(lia)); vm_compute; reflexivity|].
  split; [rewrite (stx_scan_counts t demo_pairs 11 5 Ht ltac:(lia)); vm_compute; reflexivity|].
  rewrite (stx_scan_counts t demo_pairs 79 5 Ht ltac:(lia)); vm_compute; reflexivity.
Defined.

Lemma stx_bulk_load_exact_witness : exists t, stx_bulk_load demo_pairs = Some t /\ leaves t = 3 /\ range t 11 3 = Some [(12, 106); (14, 107); (16, 108)].
Proof.
  destruct (stx_bulk_load_exact demo_pairs demo_pairs_sorted) as (t & E & _ & Hl & Hr). exists t. split; [exact E|]. split; [exact Hl|].
  rewrite (Hr 11 3). vm_compute. reflexivity.
Defined.

(** Three hundred insertions in decreasing order, through splits of leaves, inner nodes and roots. *)
Definition descending_calls : list StxCall := (fun n => SInsert (Z.of_nat n) (Z.of_nat n + 1000)) <$> reverse (seq 0 300).

Definition demo_state : Stx := (default (stx_new, []) (stx_execs stx_new descending_calls)).1.

Example demo_insertions : height demo_state = 3%nat /\ leaves demo_state = 37 /\ innernodes demo_state = 5 /\ range demo_state 297 10 = Some [(297, 1297); (298, 1298); (299, 1299)] /\ stx_scan demo_state 0 1000 = Some 301.
Proof. by vm_compute. Qed.

(** Three hundred more insertions: the root has level 2, and 144 pairs are the least. *)
Lemma stx_height_bound_witness : exists t t' answers, stx_bulk_load demo_pairs = Some t /\ stx_execs t descending_calls = Some (t', answers) /\
  (level_of <$> nodes t' !! m_root t') = Some 2 /\ 16 * 9 <= Z.of_nat (size (map_execs (list_to_map demo_pairs) descending_calls).1).
Proof.
  destruct (stx_height_bound demo_pairs descending_calls demo_pairs_sorted) as (t & t' & answers & E & E' & H). exists t, t', answers.
  split; [exact E|]. split; [exact E'|].
  assert (Hv : (t ← stx_bulk_load demo_pairs; '(t', _) ← stx_execs t descending_calls; level_of <$> nodes t' !! m_root t') = Some 2) by (vm_compute; reflexivity).
  rewrite E in Hv. cbn [mbind option_bind] in Hv. rewrite E' in Hv. cbn [mbind option_bind] in Hv. split; [exact Hv|].
  destruct (nodes t' !! m_root t') as [nd|] eqn:En; [|discriminate Hv]. injection Hv as Hl. specialize (H nd eq_refl). rewrite Hl in H. apply (H eq_refl).
Defined.

(** Two hundred and fifty of them removed again, in an order that merges and balances on all levels. *)
Definition removing_calls : list StxCall := (fun n => SErase ((Z.of_nat n * 7) mod 300)) <$> seq 0 250.

Definition removed_state : Stx := (default (stx_new, []) (stx_execs demo_state removing_calls)).1.

Example demo_removals : height removed_state = 2%nat /\ leaves removed_state = 5 /\ innernodes removed_state = 1 /\ stx_size removed_state = 50 /\ range removed_state 290 10 = Some [(292, 1292); (293, 1293); (299, 1299)] /\
  (stx_execs removed_state [SEraseFound 292; SEraseFound 292; SErase 292; SRange 290 10; SClear; SFind 13]) ≫= (fun r => Some r.2) = Some [AsEraseFound true; AsEraseFound false; AsErase 0; AsRange [(293, 1293); (299, 1299)]; AsClear; AsFind None].
Proof. by vm_compute. Qed.

End StxDemo.
