(* ===== verification/StxCheck.v ===== *)
(** * stx::btree: the checker (competitor/btree/src/include/stx/btree.h)

    [verify] walks the tree and the chain of leaves and asserts the invariants the authors
    state; a failed assertion is [None], like undefined behaviour.  Every tree that
    represents fewer than 2^32 pairs passes ([verify_holds]), so every such tree that the
    operations build does ([verify_always]).  With more pairs the 32-bit counter of
    [verify_leaflinks] wraps around and the last assertion fails. *)

From S2P Require Import Prelude Words StxNode StxTree StxInv StxInsert StxSearch StxBulk StxErase StxRemove StxIndex.
From Stdlib Require Import Sorted.
From stdpp Require Import gmap list.
Local Open Scope Z_scope.
Local Open Scope cxx_scope.

(** ** Definitions *)

(** [assert(b)] *)
Definition assert_ (b : bool) : option unit := if b then Some tt else None.

(** [struct tree_stats] *)
Record tree_stats := mkStats { v_itemcount : Z; v_leaves : Z; v_innernodes : Z }.

(** The keys of a node do not decrease. *)
Definition verify_keys (slotkey : list (option Z)) (slotuse : Z) : option unit :=
  for_up 0 (slotuse - 1) (fun slot _ =>
    k ← cell slotkey slot;
    k' ← cell slotkey (slot + 1);
    assert_ (k <=? k')) tt.

(** [leafa->nextleaf == leafb] and [leafa == leafb->prevleaf] *)
Definition verify_links (t : Stx) (leafa leafb : Z) : option unit :=
  la ← links t !! leafa;
  _ ← assert_ (nextleaf la =? leafb);
  lb ← links t !! leafb;
  assert_ (leafa =? prevleaf lb).

(** The least key, the greatest key and the statistics so far. *)
Fixpoint verify_node (fuel : nat) (t : Stx) (n : Z) (vstats : tree_stats) : option (Z * Z * tree_stats) :=
  match fuel with
  | O => None
  | S fuel =>
      nd ← nodes t !! n;
      match nd with
      | SLeaf leaf =>
          _ ← assert_ ((n =? m_root t) || negb (lisunderflow leaf));
          _ ← assert_ (0 <? lslotuse leaf);
          _ ← verify_keys (lslotkey leaf) (lslotuse leaf);
          minkey ← cell (lslotkey leaf) 0;
          maxkey ← cell (lslotkey leaf) (lslotuse leaf - 1);
          Some (minkey, maxkey, mkStats (v_itemcount vstats + lslotuse leaf) (v_leaves vstats + 1) (v_innernodes vstats))
      | SInner inner =>
          let vstats := mkStats (v_itemcount vstats) (v_leaves vstats) (v_innernodes vstats + 1) in
          _ ← assert_ ((n =? m_root t) || negb (iisunderflow inner));
          _ ← assert_ (0 <? islotuse inner);
          _ ← verify_keys (islotkey inner) (islotuse inner);
          for_up 0 (islotuse inner + 1) (fun slot '(minkey, maxkey, vstats) =>
            subnode ← cell (childid inner) slot;
            sub ← nodes t !! subnode;
            _ ← assert_ (level_of sub + 1 =? ilevel inner);
            '(subminkey, submaxkey, vstats) ← verify_node fuel t subnode vstats;
            minkey ← (if slot =? 0 then Some subminkey else k ← cell (islotkey inner) (slot - 1); _ ← assert_ (k <=? subminkey); Some minkey);
            maxkey ← (if slot =? islotuse inner then Some submaxkey else k ← cell (islotkey inner) slot; _ ← assert_ (k =? submaxkey); Some maxkey);
            _ ← (if (ilevel inner =? 1) && (slot <? islotuse inner) then
                leafa ← cell (childid inner) slot;
                leafb ← cell (childid inner) (slot + 1);
                verify_links t leafa leafb
              else Some tt);
            _ ← (if (ilevel inner =? 2) && (slot <? islotuse inner) then
                a ← cell (childid inner) slot;
                parenta ← get_inner t a;
                b ← cell (childid inner) (slot + 1);
                parentb ← get_inner t b;
                leafa ← cell (childid parenta) (islotuse parenta);
                leafb ← cell (childid parentb) 0;
                verify_links t leafa leafb
              else Some tt);
            Some (minkey, maxkey, vstats)) (0, 0, vstats)
      end
  end.

(** [testcount] is an [unsigned int]. *)
Definition wrap_count (z : Z) : Z := z mod 2 ^ 32.

(** One round of the loop of [verify_leaflinks]. *)
Definition verify_leaf (t : Stx) (st : Z * Z) : option ((Z * Z) + Z) :=
  let '(n, testcount) := st in
  if n =? 0 then Some (inr testcount)
  else
    leaf ← get_leaf t n;
    _ ← assert_ (0 <? lslotuse leaf);
    _ ← verify_keys (lslotkey leaf) (lslotuse leaf);
    l ← links t !! n;
    _ ← (if negb (nextleaf l =? 0) then
        k ← cell (lslotkey leaf) (lslotuse leaf - 1);
        next ← get_leaf t (nextleaf l);
        k' ← cell (lslotkey next) 0;
        _ ← assert_ (k <=? k');
        l' ← links t !! nextleaf l;
        assert_ (n =? prevleaf l')
      else assert_ (m_tailleaf t =? n));
    Some (inl (nextleaf l, wrap_count (testcount + lslotuse leaf))).

Definition verify_leaflinks (t : Stx) : option unit :=
  _ ← get_leaf t (m_headleaf t);
  l ← links t !! m_headleaf t;
  _ ← assert_ (prevleaf l =? 0);
  testcount ← loop (S (Z.to_nat (leaves t))) (verify_leaf t) (m_headleaf t, 0);
  assert_ (testcount =? stx_size t).

Definition verify (t : Stx) : option unit :=
  if m_root t =? 0 then Some tt
  else
    '(_, _, vstats) ← verify_node (height t) t (m_root t) (mkStats 0 0 0);
    _ ← assert_ (v_itemcount vstats =? itemcount t);
    _ ← assert_ (v_leaves vstats =? leaves t);
    _ ← assert_ (v_innernodes vstats =? innernodes t);
    verify_leaflinks t.

(** ** Nodes *)

Lemma sorted_lookup_lt ks i j a b : StronglySorted Z.lt ks -> ks !! i = Some a -> ks !! j = Some b -> (i < j)%nat -> a < b.
Proof.
  revert i j. induction ks as [|k ks IH]; intros i j Hs Hi Hj Hlt; [done|]. apply StronglySorted_inv in Hs as [Hs Hf]. destruct j as [|j]; [lia|]. destruct i as [|i].
  - injection Hi as ->. rewrite List.Forall_forall in Hf. apply Hf, list_elem_of_In. by eapply list_elem_of_lookup_2.
  - apply (IH i j); try done. lia.
Qed.

Lemma verify_keys_spec cap a ks : cells cap a ks -> StronglySorted Z.lt ks -> verify_keys a (zlen ks) = Some tt.
Proof.
  intros Ha Hs. unfold verify_keys. destruct (Z.leb_spec (zlen ks) 1); [apply for_up_empty; lia|].
  destruct (for_up_spec (fun _ _ => True) (fun slot (_ : unit) => k ← cell a slot; k' ← cell a (slot + 1); assert_ (k <=? k')) 0 (zlen ks - 1) tt) as ([] & E & _); [lia|done| |done].
  intros i [] Hi _. destruct (lookup_lt_is_Some_2 ks (Z.to_nat i)) as [x Hx]; [unfold zlen in Hi; lia|]. destruct (lookup_lt_is_Some_2 ks (Z.to_nat (i + 1))) as [y Hy]; [unfold zlen in Hi; lia|].
  rewrite (cells_cell _ _ _ _ _ Ha (proj1 Hi) Hx), (cells_cell _ _ _ (i + 1) _ Ha ltac:(lia) Hy). cbn [mbind option_bind]. pose proof (sorted_lookup_lt _ _ _ _ _ Hs Hx Hy ltac:(lia)).
  unfold assert_. rewrite (proj2 (Z.leb_le _ _)) by lia. by exists tt.
Qed.

Lemma verify_links_spec s a p q b : linked s (a ++ p :: q :: b) -> verify_links s p q = Some tt.
Proof.
  intros [Hc _ _]. unfold verify_links. rewrite (chain_lookup _ _ _ _ _ _ Hc). cbn [mbind option_bind nextleaf hd]. unfold assert_. rewrite Z.eqb_refl. cbn [mbind option_bind].
  rewrite (app_assoc a [p] (q :: b) : a ++ p :: q :: b = _) in Hc. rewrite (chain_lookup _ _ _ _ _ _ Hc). cbn [mbind option_bind prevleaf]. by rewrite last_or_snoc, Z.eqb_refl.
Qed.

Definition plus (v : tree_stats) (a b c : Z) : tree_stats := mkStats (v_itemcount v + a) (v_leaves v + b) (v_innernodes v + c).

Lemma assert_true b : b = true -> assert_ b = Some tt.
Proof. by intros ->. Qed.

(** Neighbouring children are linked, by themselves or by their first and last leaves. *)
Lemma sibling_links_1 s d1 x y d2 pre post : Forall (stx_rep (nodes s) 0) [x; y] -> linked s (pre ++ (fleaves 0 (d1 ++ x :: y :: d2)).*1 ++ post) -> verify_links s (tptr x) (tptr y) = Some tt.
Proof.
  intros [Hx Hy]%Forall_cons Hl. apply Forall_cons in Hy as [Hy _]. destruct x as [px ex|], y as [py ey|]; try done. rewrite fleaves_app, !fleaves_cons, !fmap_app, <-!app_assoc in Hl. cbn [tleaves fmap list_fmap app fst] in Hl.
  rewrite app_assoc in Hl. by eapply verify_links_spec.
Qed.

Lemma sibling_links_2 s d1 px kx cx py ky cy d2 pre post nx ny : Forall (stx_rep (nodes s) 1) [TInner px kx cx; TInner py ky cy] -> linked s (pre ++ (fleaves 1 (d1 ++ TInner px kx cx :: TInner py ky cy :: d2)).*1 ++ post) ->
  nodes s !! px = Some (SInner nx) -> nodes s !! py = Some (SInner ny) ->
  exists a b, cell (childid nx) (islotuse nx) = Some a /\ cell (childid ny) 0 = Some b /\ verify_links s a b = Some tt.
Proof.
  intros [(nx' & Ex & _ & Rx & Cx) Hy]%Forall_cons Hl Hnx Hny. apply Forall_cons in Hy as [(ny' & Ey & _ & Ry & Cy) _]. rewrite Hnx in Ex. injection Ex as <-. rewrite Hny in Ey. injection Ey as <-.
  pose proof (ir_count _ _ _ Rx) as Nx. pose proof (ir_count _ _ _ Ry) as Ny. rewrite zlen_fmap in Nx, Ny. pose proof (zlen_nonneg kx). pose proof (zlen_nonneg ky).
  destruct cx as [|x cx _] using rev_ind; [change (zlen (@nil btree)) with 0 in Nx; lia|]. destruct cy as [|y cy]; [change (zlen (@nil btree)) with 0 in Ny; lia|].
  rewrite zlen_app in Nx. change (zlen [x]) with 1 in Nx. apply Forall_app in Cx as [_ Cx]. apply Forall_cons in Cx as [Hx _]. apply Forall_cons in Cy as [Hy _].
  exists (tptr x), (tptr y). split; [|split].
  - rewrite (ir_use _ _ _ Rx). apply (cells_cell _ _ _ _ _ (ir_child _ _ _ Rx)); [done|]. rewrite fmap_app. apply list_lookup_middle. rewrite length_fmap. unfold zlen in *. lia.
  - by apply (cells_cell _ _ _ _ _ (ir_child _ _ _ Ry)).
  - rewrite fleaves_app, !fleaves_cons in Hl. change (tleaves 1 (TInner px kx (cx ++ [x]))) with (fleaves 0 (cx ++ [x])) in Hl. change (tleaves 1 (TInner py ky (y :: cy))) with (fleaves 0 (y :: cy)) in Hl.
    rewrite fleaves_app, fleaves_one, fleaves_cons, !fmap_app, <-!app_assoc in Hl. destruct x as [px' ex|], y as [py' ey|]; try done. cbn [tleaves fmap list_fmap app fst] in Hl.
    rewrite !app_assoc in Hl. by eapply verify_links_spec.
Qed.

(** The body of the loop over the children of [inner]. *)
Definition verify_child (fuel : nat) (t : Stx) (inner : inner_node) (slot : Z) (st : Z * Z * tree_stats) : option (Z * Z * tree_stats) :=
  let '(minkey, maxkey, vstats) := st in
  subnode ← cell (childid inner) slot;
  sub ← nodes t !! subnode;
  _ ← assert_ (level_of sub + 1 =? ilevel inner);
  '(subminkey, submaxkey, vstats) ← verify_node fuel t subnode vstats;
  minkey ← (if slot =? 0 then Some subminkey else k ← cell (islotkey inner) (slot - 1); _ ← assert_ (k <=? subminkey); Some minkey);
  maxkey ← (if slot =? islotuse inner then Some submaxkey else k ← cell (islotkey inner) slot; _ ← assert_ (k =? submaxkey); Some maxkey);
  _ ← (if (ilevel inner =? 1) && (slot <? islotuse inner) then
      leafa ← cell (childid inner) slot;
      leafb ← cell (childid inner) (slot + 1);
      verify_links t leafa leafb
    else Some tt);
  _ ← (if (ilevel inner =? 2) && (slot <? islotuse inner) then
      a ← cell (childid inner) slot;
      parenta ← get_inner t a;
      b ← cell (childid inner) (slot + 1);
      parentb ← get_inner t b;
      leafa ← cell (childid parenta) (islotuse parenta);
      leafb ← cell (childid parentb) 0;
      verify_links t leafa leafb
    else Some tt);
  Some (minkey, maxkey, vstats).

Section Child.
Context (s : Stx) (l fuel : nat) (n : inner_node) (ks : list Z) (d1 : list btree) (d : btree) (d2 : list btree) (pre post : list Z).
Context (Hlev : ilevel n = Z.of_nat (S l)) (Hr : stx_inner_rep n ks (tptr <$> (d1 ++ d :: d2))) (Hx : exact l ks (d1 ++ d :: d2)) (Hrep : Forall (stx_rep (nodes s) l) (d1 ++ d :: d2)).
Context (Hs : StronglySorted Z.lt (fpairs l (d1 ++ d :: d2)).*1) (Hl : linked s (pre ++ (fleaves l (d1 ++ d :: d2)).*1 ++ post)).

Let len : zlen ks = zlen d1 + zlen d2.
Proof. pose proof (ir_count _ _ _ Hr) as H. rewrite zlen_fmap, zlen_app, zlen_cons in H. lia. Qed.

Let child_at : cell (childid n) (zlen d1) = Some (tptr d).
Proof. apply (cells_cell _ _ _ _ _ (ir_child _ _ _ Hr) (zlen_nonneg d1)). rewrite fmap_app. apply list_lookup_middle. rewrite length_fmap. unfold zlen. lia. Qed.

Let next_at y d3 : d2 = y :: d3 -> cell (childid n) (zlen d1 + 1) = Some (tptr y).
Proof.
  intros E. pose proof (zlen_nonneg d1). apply (cells_cell _ _ _ _ _ (ir_child _ _ _ Hr)); [lia|]. rewrite E, (app_assoc d1 [d] (y :: d3) : d1 ++ d :: y :: d3 = _), fmap_app. apply list_lookup_middle.
  rewrite length_fmap, length_app. cbn. unfold zlen. lia.
Qed.

(** The key on the left is less than every key below the child. *)
Let key_before k1 : zlen d1 <> 0 -> head (tkeys l d) = Some k1 -> exists k, cell (islotkey n) (zlen d1 - 1) = Some k /\ assert_ (k <=? k1) = Some tt.
Proof.
  intros H0 Hk1. destruct d1 as [|x e1 _] using rev_ind; [done|]. clear child_at next_at len. rewrite zlen_app in *. change (zlen [x]) with 1 in *. replace (zlen e1 + 1 - 1) with (zlen e1) by lia.
  rewrite <-app_assoc in *. cbn [app] in *. destruct (cut_keys l ks e1 x d d2 Hx) as (ka & k & kb & -> & Hlen). exists k. split.
  - apply (cells_cell _ _ _ _ _ (ir_key _ _ _ Hr) (zlen_nonneg e1)). apply list_lookup_middle. unfold zlen. lia.
  - apply exact_app in Hx as [_ [Hk _]]; [|done]. rewrite fpairs_app, !fpairs_cons, !fmap_app in Hs. apply sorted_app_inv in Hs as (_ & Hs' & _). apply sorted_app_inv in Hs' as (_ & _ & Hlt).
    apply assert_true, Z.leb_le. assert (k < k1); [|lia]. apply Hlt; [by apply last_Some_elem_of|]. apply elem_of_app. left. fold (tkeys l d). destruct (tkeys l d); [done|]. injection Hk1 as ->. constructor.
Qed.

(** The key on the right is the greatest key below the child. *)
Let key_after k2 : zlen d1 <> zlen ks -> last (tkeys l d) = Some k2 -> exists k, cell (islotkey n) (zlen d1) = Some k /\ assert_ (k =? k2) = Some tt.
Proof.
  intros H0 Hk2. destruct d2 as [|y e2]; [change (zlen (@nil btree)) with 0 in len; lia|]. destruct (cut_keys l ks d1 d y e2 Hx) as (ka & k & kb & Ek & Hlen). exists k. rewrite Ek in *. split.
  - apply (cells_cell _ _ _ _ _ (ir_key _ _ _ Hr) (zlen_nonneg d1)). apply list_lookup_middle. unfold zlen. lia.
  - apply exact_app in Hx as [_ [Hk _]]; [|done]. rewrite Hk2 in Hk. injection Hk as ->. apply assert_true, Z.eqb_refl.
Qed.

Let links_1 : (if (ilevel n =? 1) && (zlen d1 <? zlen ks) then
  leafa ← cell (childid n) (zlen d1); leafb ← cell (childid n) (zlen d1 + 1); verify_links s leafa leafb else Some tt) = Some tt.
Proof.
  rewrite Hlev. destruct (Z.eqb_spec (Z.of_nat (S l)) 1) as [E|]; [|done]. destruct (Z.ltb_spec (zlen d1) (zlen ks)) as [Hlt|]; [|done]. cbn [andb]. assert (l = 0%nat) as -> by lia.
  destruct d2 as [|y e2] eqn:E2; [change (zlen (@nil btree)) with 0 in len; lia|]. rewrite child_at, (next_at y e2 eq_refl). cbn [mbind option_bind].
  apply (sibling_links_1 s d1 d y e2 pre post); [|done]. apply Forall_app in Hrep as [_ [Hd [Hy _]%Forall_cons]%Forall_cons]. by repeat constructor.
Qed.

Let links_2 : (if (ilevel n =? 2) && (zlen d1 <? zlen ks) then
  a ← cell (childid n) (zlen d1); parenta ← get_inner s a; b ← cell (childid n) (zlen d1 + 1); parentb ← get_inner s b;
  leafa ← cell (childid parenta) (islotuse parenta); leafb ← cell (childid parentb) 0; verify_links s leafa leafb else Some tt) = Some tt.
Proof.
  rewrite Hlev. destruct (Z.eqb_spec (Z.of_nat (S l)) 2) as [E|]; [|done]. destruct (Z.ltb_spec (zlen d1) (zlen ks)) as [Hlt|]; [|done]. cbn [andb]. assert (l = 1%nat) as -> by lia.
  destruct d2 as [|y e2] eqn:E2; [change (zlen (@nil btree)) with 0 in len; lia|]. rewrite child_at, (next_at y e2 eq_refl). cbn [mbind option_bind].
  apply Forall_app in Hrep as [_ [Hd [Hy _]%Forall_cons]%Forall_cons]. destruct d as [|px kx cx]; [done|]. destruct y as [|py ky cy]; [done|].
  pose proof Hd as (nx & Ex & _). pose proof Hy as (ny & Ey & _). unfold get_inner. cbn [tptr]. rewrite Ex, Ey. cbn [mbind option_bind].
  destruct (sibling_links_2 s d1 px kx cx py ky cy e2 pre post nx ny ltac:(by repeat constructor) Hl Ex Ey) as (a & b & -> & -> & Hv). cbn [mbind option_bind]. exact Hv.
Qed.

(** One round of the loop: the least key of the first child, the greatest of the last. *)
Lemma verify_child_spec v k1 k2 v' mn mx : head (tkeys l d) = Some k1 -> last (tkeys l d) = Some k2 -> verify_node fuel s (tptr d) v = Some (k1, k2, v') ->
  verify_child fuel s n (zlen d1) (mn, mx, v) = Some (if zlen d1 =? 0 then k1 else mn, if zlen d1 =? zlen ks then k2 else mx, v').
Proof.
  intros H1 H2 E. unfold verify_child. pose proof links_1 as L1. pose proof links_2 as L2. rewrite Hlev in L1, L2. rewrite child_at in L1, L2 |- *. cbn [mbind option_bind]. destruct (rep_level s l d) as (nd & -> & Hd); [by apply Forall_app in Hrep as [_ [Hd _]%Forall_cons]|].
  cbn [mbind option_bind]. rewrite Hd, Hlev, assert_true by (apply Z.eqb_eq; lia). cbn [mbind option_bind]. rewrite E. cbn [mbind option_bind]. rewrite (ir_use _ _ _ Hr).
  replace (if zlen d1 =? 0 then Some k1 else _) with (Some (if zlen d1 =? 0 then k1 else mn)).
  2:{ destruct (Z.eqb_spec (zlen d1) 0); [done|]. destruct (key_before k1) as (k & -> & Hk); [done|done|]. cbn [mbind option_bind]. by rewrite Hk. }
  cbn [mbind option_bind]. replace (if zlen d1 =? zlen ks then Some k2 else _) with (Some (if zlen d1 =? zlen ks then k2 else mx)).
  2:{ destruct (Z.eqb_spec (zlen d1) (zlen ks)); [done|]. destruct (key_after k2) as (k & -> & Hk); [done|done|]. cbn [mbind option_bind]. by rewrite Hk. }
  cbn [mbind option_bind]. cbn [mbind option_bind] in L1, L2. rewrite L1. cbn [mbind option_bind]. by rewrite L2.
Qed.
End Child.

(** ** The tree *)

Lemma assert_half (s : Stx) p min x : p = m_root s \/ min = 8 -> min <= x -> assert_ ((p =? m_root s) || negb (x <? 8)) = Some tt.
Proof. intros [->| ->] H; apply assert_true, orb_true_iff; [left; apply Z.eqb_refl|right; by apply negb_true_iff, Z.ltb_ge]. Qed.

(** The separators are keys of the tree, in order. *)
Lemma exact_sorted l ks : forall cs, exact l ks cs -> StronglySorted Z.lt (fpairs l cs).*1 -> StronglySorted Z.lt ks /\ Forall (fun k => k ∈ (fpairs l cs).*1) ks.
Proof.
  induction ks as [|k ks IH]; intros [|c cs] Hx Hs; try done; [split; constructor|]. destruct Hx as [Hk Hx]. rewrite fpairs_cons, fmap_app in *. apply sorted_app_inv in Hs as (_ & Hs & Hlt).
  destruct (IH cs Hx Hs) as [Hks Hin]. apply last_Some_elem_of in Hk. rewrite Forall_forall in Hin. split.
  - constructor; [done|]. apply List.Forall_forall. intros x Hx'. apply Hlt; [done|]. by apply Hin, list_elem_of_In.
  - constructor; [apply elem_of_app; by left|]. apply Forall_forall. intros x Hx'. apply elem_of_app. right. by apply Hin.
Qed.

Lemma plus_assoc v a b c a' b' c' : plus (plus v a b c) a' b' c' = plus v (a + a') (b + b') (c + c').
Proof. destruct v. unfold plus. cbn. f_equal; lia. Qed.

(** What the loop over the children has gathered before a slot. *)
Definition gathered (l : nat) (cs : list btree) (v : tree_stats) (slot : Z) (st : Z * Z * tree_stats) : Prop :=
  let seen := take (Z.to_nat slot) cs in
  st.2 = plus v (zlen (fpairs l seen)) (zlen (fleaves l seen)) (zlen (finners l seen)) /\
  (0 < slot -> head (fpairs l seen).*1 = Some st.1.1) /\ (slot = zlen cs -> last (fpairs l seen).*1 = Some st.1.2).

Lemma gathered_step l cs v d1 d d2 st k1 k2 : cs = d1 ++ d :: d2 -> head (tkeys l d) = Some k1 -> last (tkeys l d) = Some k2 -> gathered l cs v (zlen d1) st ->
  gathered l cs v (zlen d1 + 1) (if zlen d1 =? 0 then k1 else st.1.1, if zlen d1 =? zlen cs - 1 then k2 else st.1.2, plus st.2 (zlen (tpairs l d)) (zlen (tleaves l d)) (zlen (tinners l d))).
Proof.
  intros -> H1 H2 (G1 & G2 & _). unfold gathered in *. replace (Z.to_nat (zlen d1)) with (length d1) in G1, G2 by (unfold zlen; lia). rewrite take_app_length in G1, G2.
  replace (Z.to_nat (zlen d1 + 1)) with (length d1 + 1)%nat by (unfold zlen; lia). rewrite take_app_add. cbn [take firstn fst snd]. rewrite fpairs_app, fleaves_app, finners_app, fpairs_one, fleaves_one, finners_one, !zlen_app, fmap_app.
  fold (tkeys l d). split; [|split].
  - by rewrite G1, plus_assoc.
  - intros _. pose proof (zlen_nonneg d1). destruct (Z.eqb_spec (zlen d1) 0) as [E|E].
    + destruct d1; [done|]. rewrite zlen_cons in E. pose proof (zlen_nonneg d1). lia.
    + rewrite head_app, (G2 ltac:(lia)). done.
  - intros E. rewrite last_app, H2. rewrite (proj2 (Z.eqb_eq _ _)) by lia. done.
Qed.

Lemma verify_node_inner fuel s p n v : nodes s !! p = Some (SInner n) -> verify_node (S fuel) s p v =
  (_ ← assert_ ((p =? m_root s) || negb (iisunderflow n)); _ ← assert_ (0 <? islotuse n); _ ← verify_keys (islotkey n) (islotuse n);
   for_up 0 (islotuse n + 1) (verify_child fuel s n) (0, 0, mkStats (v_itemcount v) (v_leaves v) (v_innernodes v + 1))).
Proof. intros E. cbn [verify_node]. by rewrite E. Qed.

(** The number of levels is fuel enough; the statistics count the nodes and entries below. *)
Lemma verify_node_spec s l : forall fuel min t pre post v, (l < fuel)%nat -> 1 <= min -> (tptr t = m_root s \/ min = 8) ->
  stx_rep (nodes s) l t -> stx_wf min l t -> StronglySorted Z.lt (tkeys l t) -> linked s (pre ++ (tleaves l t).*1 ++ post) ->
  exists k1 k2, head (tkeys l t) = Some k1 /\ last (tkeys l t) = Some k2 /\
    verify_node fuel s (tptr t) v = Some (k1, k2, plus v (zlen (tpairs l t)) (zlen (tleaves l t)) (zlen (tinners l t))).
Proof.
  induction l as [|l IH]; intros [|fuel] min [p es|p ks cs] pre post v Hf Hm Hroot; try done; try lia; cbn [tptr] in *.
  - intros (n & E & Hr) Hw Hs _. cbn [verify_node]. unfold tkeys in *. rewrite tpairs_leaf in *. cbn [stx_wf] in Hw. rewrite E. cbn [mbind option_bind].
    unfold lisunderflow. change minleafslots with 8. rewrite (lr_use _ _ Hr), (assert_half s p min (zlen es) Hroot Hw). cbn [mbind option_bind]. rewrite (assert_true (0 <? _)) by (apply Z.ltb_lt; lia). cbn [mbind option_bind].
    rewrite <-(zlen_fmap fst es), (verify_keys_spec _ _ _ (lr_key _ _ Hr) Hs), zlen_fmap. cbn [mbind option_bind].
    destruct es as [|e es]; [change (zlen (@nil (Z * Z))) with 0 in Hw; lia|]. destruct (last (e :: es).*1) as [k2|] eqn:E2; [|by apply last_None in E2].
    exists e.1, k2. do 2 (split; [done|]). rewrite (cells_cell _ _ _ 0 e.1 (lr_key _ _ Hr)); [|done|done]. cbn [mbind option_bind].
    rewrite (cells_cell _ _ _ (zlen (e :: es) - 1) k2 (lr_key _ _ Hr)); [|lia|].
    + cbn [mbind option_bind]. unfold plus. do 2 f_equal. f_equal; unfold zlen; cbn [tleaves tinners length]; lia.
    + rewrite last_lookup, length_fmap in E2. rewrite <-E2. f_equal. unfold zlen. lia.
  - intros (n & E & Hlev & Hr & Hc) (Hk & Hx & Hw) Hs Hl. unfold tkeys in *. rewrite tpairs_inner in *. destruct (exact_sorted _ _ _ Hx Hs) as [Hks _]. rewrite (verify_node_inner _ _ _ _ _ E).
    unfold iisunderflow. change mininnerslots with 8. rewrite (ir_use _ _ _ Hr), (assert_half s p min (zlen ks) Hroot Hk). cbn [mbind option_bind]. rewrite (assert_true (0 <? _)) by (apply Z.ltb_lt; lia). cbn [mbind option_bind].
    rewrite (verify_keys_spec _ _ _ (ir_key _ _ _ Hr) Hks). cbn [mbind option_bind]. assert (Hn : zlen cs = zlen ks + 1) by (pose proof (ir_count _ _ _ Hr) as H; by rewrite zlen_fmap in H).
    destruct (for_up_spec (gathered l cs (plus v 0 0 1)) (verify_child fuel s n) 0 (zlen ks + 1) (0, 0, mkStats (v_itemcount v) (v_leaves v) (v_innernodes v + 1))) as ([[k1 k2] w] & Ef & G1 & G2 & G3); [lia| | |].
    + unfold gathered. change (Z.to_nat 0) with 0%nat. rewrite take_0. split; [|split; [lia|intros; lia]]. unfold plus, zlen. cbn. f_equal; lia.
    + intros i [[mn mx] w] Hi G. destruct (lookup_lt_is_Some_2 cs (Z.to_nat i)) as [d Hd]; [unfold zlen in *; lia|]. apply list_elem_of_split_length in Hd as (d1 & d2 & Ecs & Hd1).
      assert (i = zlen d1) as -> by (unfold zlen; lia). rewrite Ecs in Hr, Hx, Hc, Hw, Hs, Hl. cbn [tleaves] in Hl. fold (fleaves l (d1 ++ d :: d2)) in Hl.
      pose proof Hc as Hc'. pose proof Hw as Hw'. apply Forall_app in Hc' as [_ [Hcd _]%Forall_cons]. apply Forall_app in Hw' as [_ [Hwd _]%Forall_cons].
      destruct (IH fuel 8 d (pre ++ (fleaves l d1).*1) ((fleaves l d2).*1 ++ post) w) as (a & b & Ha & Hb & Ev); [lia|lia|by right|done|done| | |].
      * rewrite fpairs_app, fpairs_cons, !fmap_app in Hs. apply sorted_app_inv in Hs as (_ & Hs & _). by apply sorted_app_inv in Hs as (Hs & _).
      * rewrite fleaves_app, fleaves_cons, !fmap_app, <-!app_assoc in Hl. by rewrite <-!app_assoc.
      * rewrite (verify_child_spec s l fuel n ks d1 d d2 pre post Hlev Hr Hx Hc Hs Hl w a b _ mn mx Ha Hb Ev). eexists. split; [done|].
        pose proof (gathered_step l cs _ d1 d d2 _ a b Ecs Ha Hb G) as H. rewrite Hn in H. by replace (zlen ks + 1 - 1) with (zlen ks) in H by lia.
    + exists k1, k2. unfold gathered in *. rewrite <-Hn in G1, G2, G3. rewrite take_ge in G1, G2, G3 by (unfold zlen; lia). cbn [fst snd] in *. do 2 (split; [apply G2 || apply G3; lia|]).
      etransitivity; [exact Ef|]. rewrite G1, plus_assoc. cbn [tleaves tinners]. rewrite zlen_cons. unfold fleaves, finners. do 2 f_equal.
Qed.

(** ** The chain *)

(** What the tree says of its leaves. *)
Definition leaf_good (s : Stx) (pe : Z * list (Z * Z)) : Prop :=
  0 < pe.1 /\ pe.2 <> [] /\ exists n, get_leaf s pe.1 = Some n /\ stx_leaf_rep n pe.2.

Lemma verify_leaf_step s pre p es ls c : Forall (leaf_good s) ((p, es) :: ls) -> linked s (pre ++ p :: ls.*1) -> StronglySorted Z.lt (es ++ concat ls.*2).*1 ->
  verify_leaf s (p, c) = Some (inl (hd 0 ls.*1, wrap_count (c + zlen es))).
Proof.
  intros [(Hp & Hne & n & En & Hr) Hg]%Forall_cons Hl Hs. cbn [fst snd] in *. rewrite fmap_app in Hs. apply sorted_app_inv in Hs as (Hs & _ & Hlt).
  pose proof (linked_chain _ _ Hl) as Hc. pose proof (chain_lookup _ _ _ _ _ _ Hc) as Elk. unfold verify_leaf. rewrite (proj2 (Z.eqb_neq _ _)) by lia. rewrite En. cbn [mbind option_bind].
  destruct (last es.*1) as [k|] eqn:Ek; [|by apply last_None, fmap_nil_inv in Ek]. assert (He : 0 < zlen es) by (destruct es; [done|]; rewrite zlen_cons; pose proof (zlen_nonneg es); lia).
  rewrite (lr_use _ _ Hr), (assert_true (0 <? _)) by (by apply Z.ltb_lt). cbn [mbind option_bind].
  rewrite <-(zlen_fmap fst es), (verify_keys_spec _ _ _ (lr_key _ _ Hr) Hs), zlen_fmap. cbn [mbind option_bind]. rewrite Elk. cbn [mbind option_bind nextleaf].
  destruct ls as [|[q fs] ls]; cbn [fmap list_fmap hd fst snd concat] in *.
  - rewrite Z.eqb_refl. cbn [negb]. rewrite (linked_tail _ _ Hl), last_or_snoc, (assert_true (_ =? _)) by apply Z.eqb_refl. done.
  - apply Forall_cons in Hg as [(Hq & Hne' & m & Em & Hm) _]. cbn [fst snd] in *. rewrite (proj2 (Z.eqb_neq q 0)) by lia. cbn [negb].
    rewrite (cells_cell _ _ _ (zlen es - 1) k (lr_key _ _ Hr)); [|lia|]. 2:{ rewrite last_lookup, length_fmap in Ek. rewrite <-Ek. f_equal. unfold zlen. lia. }
    cbn [mbind option_bind]. rewrite Em. cbn [mbind option_bind]. destruct fs as [|f fs]; [done|]. rewrite (cells_cell _ _ _ 0 f.1 (lr_key _ _ Hm)) by done. cbn [mbind option_bind].
    rewrite (assert_true (_ <=? _)). 2:{ apply Z.leb_le. assert (k < f.1); [|lia]. apply Hlt; [by apply last_Some_elem_of|constructor]. }
    cbn [mbind option_bind]. rewrite (app_assoc pre [p] (q :: ls.*1) : pre ++ p :: q :: ls.*1 = _) in Hc. rewrite (chain_lookup _ _ _ _ _ _ Hc). cbn [mbind option_bind prevleaf].
    rewrite last_or_snoc, (assert_true (_ =? _)) by apply Z.eqb_refl. done.
Qed.

Lemma verify_leaves_spec s ls : forall pre c, Forall (leaf_good s) ls -> linked s (pre ++ ls.*1) -> StronglySorted Z.lt (concat ls.*2).*1 ->
  c = wrap_count c -> loop (S (length ls)) (verify_leaf s) (hd 0 ls.*1, c) = Some (wrap_count (c + zlen (concat ls.*2))).
Proof.
  induction ls as [|[p es] ls IH]; intros pre c Hg Hl Hs Hc.
  - cbn. f_equal. rewrite Hc at 1. f_equal. unfold zlen. cbn. lia.
  - cbn [length loop]. change (hd 0 ((p, es) :: ls).*1) with p. rewrite (verify_leaf_step s pre p es ls c Hg Hl Hs). cbn [fmap list_fmap fst snd concat] in *. rewrite fmap_app in Hs. apply sorted_app_inv in Hs as (_ & Hs & _).
    apply Forall_cons in Hg as [_ Hg]. etransitivity; [apply (IH (pre ++ [p])); [done|by rewrite <-app_assoc|done|]|]; unfold wrap_count; [by rewrite Z.mod_mod|].
    f_equal. rewrite Z.add_mod_idemp_l by done. f_equal. rewrite zlen_app. lia.
Qed.

Lemma leaves_good s l : forall min t, 1 <= min -> stx_rep (nodes s) l t -> stx_wf min l t -> (forall q, q ∈ (tleaves l t).*1 -> 0 < q) -> Forall (leaf_good s) (tleaves l t).
Proof.
  induction l as [|l IH]; intros min [p es|p ks cs] Hm Hr Hw Hq; try done.
  - destruct Hr as (n & E & Hr). cbn [stx_wf] in Hw. repeat constructor; cbn [fst snd]; [apply Hq; constructor| |].
    + intros ->. change (zlen (@nil (Z * Z))) with 0 in Hw. lia.
    + exists n. split; [|done]. unfold get_leaf. by rewrite E.
  - destruct Hr as (n & _ & _ & _ & Hc). destruct Hw as (_ & _ & Hw). cbn [tleaves] in *. apply Forall_concat, Forall_fmap, Forall_forall. intros c Hin. rewrite Forall_forall in Hc, Hw.
    apply (IH 8); [lia|by apply Hc|by apply Hw|]. intros q H. apply Hq. apply list_elem_of_fmap in H as (x & -> & Hx). apply list_elem_of_fmap. exists x. split; [done|].
    apply list_elem_of_In, List.in_concat. exists (tleaves l c). split; apply list_elem_of_In; [|done]. apply list_elem_of_fmap. by exists c.
Qed.

(** The count is right below 2^32. *)
Lemma count_fits n : 0 <= n -> (wrap_count n =? n) = (n <? 2 ^ 32).
Proof.
  intros Hn. unfold wrap_count. destruct (Z.ltb_spec n (2 ^ 32)); [apply Z.eqb_eq, Z.mod_small; lia|].
  apply Z.eqb_neq. pose proof (Z.mod_pos_bound n (2 ^ 32) eq_refl). lia.
Qed.

Lemma verify_leaflinks_spec s l t : stx_ok s l t -> verify_leaflinks s = assert_ (zlen (tpairs l t) <? 2 ^ 32).
Proof.
  intros [H Hroot Hw]. pose proof (heap_rep _ _ _ H) as Hr. pose proof (hp_linked _ _ _ H) as Hl. pose proof (hp_sorted _ _ _ H) as Hs. pose proof (hp_items _ _ _ H) as Hi. pose proof (hp_leaves _ _ _ H) as Hn.
  rewrite fpairs_one in Hs, Hi. rewrite fleaves_one in Hl, Hn. assert (Hg : Forall (leaf_good s) (tleaves l t)).
  { apply (leaves_good s l 1); [lia|done|done|]. intros q Hq. apply (hp_fresh _ _ _ H). rewrite fptrs_one. apply elem_of_app. by left. }
  pose proof (wf_nonempty l 1 t ltac:(lia) Hw) as Hne. unfold tpairs in *. unfold verify_leaflinks. rewrite (linked_head _ _ Hl). pose proof (verify_leaves_spec s (tleaves l t) [] 0 Hg Hl Hs eq_refl) as Ev.
  pose proof (linked_chain _ _ Hl) as Hc. destruct (tleaves l t) as [|[p es] ls] eqn:E; [done|]. pose proof Hg as [(_ & _ & n & En & _) _]%Forall_cons. cbn [fmap list_fmap hd fst] in *. rewrite En.
  cbn [mbind option_bind]. rewrite (chain_lookup _ _ [] _ _ _ Hc). cbn [mbind option_bind prevleaf]. change (last_or 0 []) with 0. cbn [Z.eqb assert_ mbind option_bind].
  rewrite Hn. replace (Z.to_nat (zlen ((p, es) :: ls))) with (length ((p, es) :: ls)) by (unfold zlen; lia).
  rewrite Ev. cbn [mbind option_bind]. unfold stx_size. rewrite Hi, Z.add_0_l. f_equal. apply count_fits, zlen_nonneg.
Qed.

Lemma verify_holds s es : stx_holds s es -> verify s = assert_ (zlen es <? 2 ^ 32).
Proof.
  unfold stx_holds, verify. destruct (m_root s =? 0); [by intros [-> _]|]. intros (l & t & Hok & ->). pose proof (height_spec _ _ _ Hok) as Hh. pose proof (verify_leaflinks_spec _ _ _ Hok) as Hv. destruct Hok as [H Hroot Hw].
  pose proof (hp_sorted _ _ _ H) as Hs. pose proof (hp_linked _ _ _ H) as Hl. pose proof (hp_items _ _ _ H) as H1. pose proof (hp_leaves _ _ _ H) as H2. pose proof (hp_inners _ _ _ H) as H3.
  rewrite fpairs_one in Hs, H1. rewrite fleaves_one in Hl, H2. rewrite finners_one in H3. rewrite Hh, Hroot.
  destruct (verify_node_spec s l (S l) 1 t [] [] (mkStats 0 0 0)) as (k1 & k2 & _ & _ & E); [lia|lia|by left|by apply heap_rep|done|done|by rewrite app_nil_r|].
  rewrite E. cbn [mbind option_bind plus v_itemcount v_leaves v_innernodes]. rewrite !Z.add_0_l, H1, H2, H3, !Z.eqb_refl. cbn [assert_ mbind option_bind]. exact Hv.
Qed.

(** The checker passes a tree with fewer than 2^32 pairs and no other. *)
Definition passes (m : gmap Z Z) : option unit := assert_ (Z.of_nat (size m) <? 2 ^ 32).

Lemma verify_tree t m : stx_tree t m -> verify t = passes m.
Proof. intros (es & H & Hm). unfold passes. rewrite (stx_tree_size t m es H Hm). by apply verify_holds. Qed.

(** C27: the authors' own checker passes every tree with fewer than 2^32 pairs: after bulk loading any pairs in increasing
    order of keys, and again after any sequence of insertions, removals, lookups, scans and clearings, [verify] passes
    every assertion.  Nodes other than the root are at least half full, keys are sorted, separators are the greatest keys
    on their left, levels decrease by one, the leaves are linked both ways in order, and the counters of items, leaves and
    inner nodes are exact.  On a tree with 2^32 pairs or more it fails: its counter of the pairs in the leaves is a 32-bit
    integer, which wraps around. *)
Theorem verify_always kvs cs : StronglySorted Z.lt kvs.*1 ->
  exists t t' answers, stx_bulk_load kvs = Some t /\ verify t = passes (list_to_map kvs) /\
    stx_execs t cs = Some (t', answers) /\ verify t' = passes (map_execs (list_to_map kvs) cs).1.
Proof.
  intros Hs. destruct (stx_bulk_load_spec kvs Hs) as (t & E & Ht). destruct (stx_execs_spec cs t _ Ht) as (t' & E' & Ht'). exists t, t', (map_execs (list_to_map kvs) cs).2.
  split; [done|]. split; [by apply verify_tree|]. split; [done|]. by apply verify_tree.
Qed.

(** ** Examples *)

Lemma verify_always_witness : exists t t' answers, stx_bulk_load StxDemo.demo_pairs = Some t /\ stx_execs t [SErase 4; SInsert 5 6] = Some (t', answers) /\ verify t' = Some tt.
Proof. destruct (verify_always StxDemo.demo_pairs [SErase 4; SInsert 5 6] StxDemo.demo_pairs_sorted) as (t & t' & a & E & _ & E' & Hv). exists t, t', a. split; [exact E|]. split; [exact E'|]. rewrite Hv. vm_compute. reflexivity. Defined.

(** The checker is not vacuous: it rejects a wrong counter, a broken link and an unsorted leaf. *)
Definition break_link (t : Stx) : Stx := set_links t (m_tailleaf t) (mkLinks 0 0).

Definition break_key (t : Stx) : Stx :=
  match nodes t !! m_tailleaf t with
  | Some (SLeaf n) => set_node t (m_tailleaf t) (SLeaf (mkLeafNode (lslotuse n) (<[0%nat := Some 1000]> (lslotkey n)) (lslotdata n)))
  | _ => t
  end.

Example demo_verify : verify StxDemo.demo_state = Some tt /\ verify StxDemo.removed_state = Some tt /\
  verify (set_itemcount StxDemo.demo_state 299) = None /\ verify (break_link StxDemo.demo_state) = None /\ verify (break_key StxDemo.demo_state) = None.
Proof. by vm_compute. Qed.
