(* ===== verification/Flags.v ===== *)
(** * Command line (benchmark/flags.h, [Benchmark::parse_args])

    [parse_flags] turns the arguments into a map, the [get_...] functions read it,
    and [parse_args] fills in the parameters of the benchmark.  A call can be rejected,
    by a thrown exception or an aborted [INVARIANT], or be undefined: a missing
    required flag is not rejected, the end iterator is dereferenced instead.
    [std::stod] is an argument. *)

From S2P Require Import Prelude Words Floats Numerals.
From Stdlib Require Import SpecFloat.
From Stdlib Require Import Ascii String.
From stdpp Require Import gmap strings.
Local Open Scope string_scope.
Local Open Scope Z_scope.

(** ** Outcomes *)

Inductive Outcome (A : Type) := Ok (a : A) | Rejected | Undefined.
Arguments Ok {A} a.
Arguments Rejected {A}.
Arguments Undefined {A}.

#[export] Instance outcome_bind : MBind Outcome := fun A B f o =>
  match o with
  | Ok a => f a
  | Rejected => Rejected
  | Undefined => Undefined
  end.

(** A conversion that throws when it fails. *)
Definition or_throw {A} (o : option A) : Outcome A := match o with Some a => Ok a | None => Rejected end.

(** ** Parsing *)

(** The part before and the part after the first [=], as [find] and [substr] give them. *)
Fixpoint split_equals (s : string) : string * option string :=
  match s with
  | EmptyString => (EmptyString, None)
  | String c s' =>
      if Ascii.eqb c "=" then (EmptyString, Some s')
      else let '(k, v) := split_equals s' in (String c k, v)
  end.

(** One argument: [None] when it does not start with [--]. *)
Definition parse_flag (arg : string) : option (string * string) :=
  match arg with
  | String "-" (String "-" s) =>
      let '(key, val) := split_equals s in Some (key, default "" val)
  | _ => None
  end.

Fixpoint parse_flags_from (args : list string) (flags : gmap string string) : gmap string string :=
  match args with
  | [] => flags
  | arg :: args =>
      parse_flags_from args (match parse_flag arg with
                             | Some (key, val) => <[key := val]> flags
                             | None => flags
                             end)
  end.

(** [argv[0]] is the program. *)
Definition parse_flags (argv : list string) : gmap string string := parse_flags_from (tail argv) ∅.

Definition get_with_default (m : gmap string string) (key defval : string) : string :=
  default defval (m !! key).

(** A missing flag is reported, and then [it->second] is read all the same. *)
Definition get_required (m : gmap string string) (key : string) : Outcome string :=
  match m !! key with
  | Some s => Ok s
  | None => Undefined
  end.

Definition get_boolean_flag (m : gmap string string) (key : string) : bool := bool_decide (is_Some (m !! key)).

(** [std::getline(s, val, ',')] until it fails: an empty last piece is not read. *)
Fixpoint split_commas (cur : string) (s : string) : list string :=
  match s with
  | EmptyString => match cur with EmptyString => [] | _ => [cur] end
  | String c s' =>
      if Ascii.eqb c "," then cur :: split_commas EmptyString s'
      else split_commas (cur ++ String c EmptyString)%string s'
  end.

Definition get_comma_separated (m : gmap string string) (key : string) : list string :=
  match m !! key with
  | None => []
  | Some s => split_commas EmptyString s
  end.

(** ** parse_args *)

Record Args := mkArgs {
  keys_file_path : string;
  keys_file_type : string;
  read_ratio : f64;
  insert_ratio : f64;
  delete_ratio : f64;
  update_ratio : f64;
  scan_ratio : f64;
  scan_num : Z;
  operations_num : Z;
  table_size : Z;
  init_table_ratio : f64;
  all_thread_num : list string;
  all_index_type : list string;
  sample_distribution : string;
  latency_sample : bool;
  latency_sample_ratio : f64;
  error_bound : Z;
  output_path : string;
  random_seed : Z;
  variance : f64;
  memory_record : bool;
  dataset_statistic : bool;
  workload_shift_test : bool;
  data_shift : bool;
  write_ratio_begin : f64;
  write_ratio_end : f64
}.

Section ParseArgs.
Context (stod : string -> option f64).

(** [read_ratio + insert_ratio + delete_ratio + update_ratio + scan_ratio]. *)
Definition ratio_sum (a : Args) : f64 :=
  f64_add (f64_add (f64_add (f64_add (read_ratio a) (insert_ratio a)) (delete_ratio a)) (update_ratio a)) (scan_ratio a).

(** The three [INVARIANT]s. *)
Definition check_args (a : Args) : bool :=
  SFltb (f64_lit 9999 10000) (ratio_sum a) && SFltb (ratio_sum a) (f64_lit 10001 10000) &&
  (String.eqb (sample_distribution a) "zipf" || String.eqb (sample_distribution a) "uniform") &&
  (0 <? zlen (all_thread_num a)).

(** A [size_t] from an [int]. *)
Definition to_size (z : Z) : Z := wrap64 z.

(** The ratios of the workload-shift test replace those of the flags; the write
    ratios have no value otherwise. *)
Definition shift_ratios (flags : gmap string string) (shift : bool) (read insert : f64)
    : Outcome (f64 * f64 * f64 * f64) :=
  if shift then
    begin ← or_throw (stod (get_with_default flags "write_ratio_begin" "0"));
    end_ ← or_throw (stod (get_with_default flags "write_ratio_end" "0"));
    Ok (f64_sub (f64_of_Z 1) end_, end_, begin, end_)
  else Ok (read, insert, f64_zero, f64_zero).

(** [parse_args] before the [INVARIANT]s. *)
Definition read_args (flags : gmap string string) : Outcome Args :=
  file ← get_required flags "keys_file";
  let type := get_with_default flags "keys_file_type" "binary" in
  read ← (s ← get_required flags "read"; or_throw (stod s));
  insert ← or_throw (stod (get_with_default flags "insert" "0"));
  delete ← or_throw (stod (get_with_default flags "delete" "0"));
  update ← or_throw (stod (get_with_default flags "update" "0"));
  scan ← or_throw (stod (get_with_default flags "scan" "0"));
  num ← or_throw (stoi (get_with_default flags "scan_num" "100"));
  operations ← or_throw (stoi (get_with_default flags "operations_num" "1000000000"));
  table ← or_throw (stoi (get_with_default flags "table_size" "-1"));
  init ← or_throw (stod (get_with_default flags "init_table_ratio" "0.5"));
  let threads := get_comma_separated flags "thread_num" in
  let indexes := get_comma_separated flags "index_type" in
  let distribution := get_with_default flags "sample_distribution" "uniform" in
  let sample := get_boolean_flag flags "latency_sample" in
  sample_ratio ← or_throw (stod (get_with_default flags "latency_sample_ratio" "0.001"));
  bound ← or_throw (stoi (get_with_default flags "error_bound" "64"));
  let output := get_with_default flags "output_path" "./result" in
  seed ← or_throw (stoul (get_with_default flags "seed" "1866"));
  var ← or_throw (stod (get_with_default flags "variance" "20"));
  let memory := get_boolean_flag flags "memory" in
  let statistic := get_boolean_flag flags "dataset_statistic" in
  let shift := get_boolean_flag flags "workload_shift_test" in
  let data := get_boolean_flag flags "data_shift" in
  '(read, insert, begin, end_) ← shift_ratios flags shift read insert;
  Ok (mkArgs file type read insert delete update scan (to_size num) (to_size operations) table init
        threads indexes distribution sample sample_ratio bound output seed var memory statistic shift data
        begin end_).

Definition parse_args (argv : list string) : Outcome Args :=
  a ← read_args (parse_flags argv);
  if check_args a then Ok a else Rejected.

End ParseArgs.

(** ** Flags round trip *)

Fixpoint contains (c : ascii) (s : string) : bool :=
  match s with
  | EmptyString => false
  | String d s' => Ascii.eqb d c || contains c s'
  end.

Definition print_flag (kv : string * string) : string :=
  String "-" (String "-" (kv.1 ++ String "=" kv.2)).

Lemma split_equals_app k v : contains "=" k = false -> split_equals (k ++ String "=" v) = (k, Some v).
Proof.
  induction k as [|c k IH]; intros Hk; [done|]. cbn [contains] in Hk. apply orb_false_elim in Hk as [Hc Hk].
  change (split_equals (String c (k ++ String "=" v)) = (String c k, Some v)). cbn [split_equals].
  by rewrite Hc, IH.
Qed.

Lemma parse_print_flag kv : contains "=" kv.1 = false -> parse_flag (print_flag kv) = Some kv.
Proof. intros Hk. destruct kv as [k v]. cbn in *. by rewrite split_equals_app. Qed.

(** Later flags override earlier ones; arguments that do not parse are skipped. *)
Lemma parse_flags_from_spec args flags :
  parse_flags_from args flags = list_to_map (reverse (omap parse_flag args)) ∪ flags.
Proof.
  revert flags. induction args as [|arg args IH]; intros flags; cbn [parse_flags_from omap list_omap].
  - by rewrite reverse_nil, list_to_map_nil, (left_id_L ∅ (∪)).
  - rewrite IH. destruct (parse_flag arg) as [[k v]|]; [|done].
    rewrite reverse_cons, list_to_map_app, list_to_map_cons, list_to_map_nil, insert_empty, <-(assoc_L (∪)).
    by rewrite insert_union_singleton_l.
Qed.

Lemma omap_parse_print kvs : Forall (fun kv => contains "=" kv.1 = false) kvs -> omap parse_flag (print_flag <$> kvs) = kvs.
Proof.
  induction 1 as [|kv kvs Hk _ IH]; [done|]. rewrite fmap_cons. cbn [omap list_omap]. by rewrite parse_print_flag, IH.
Qed.

(** C37: flags round trip: printing any list of keys (without an equals sign) and
    values as [--key=value] and parsing the command line gives back the map of
    these pairs, the last value of a key winning; arguments in between that do not
    start with two dashes change nothing. *)
Theorem parse_flags_print prog kvs args : Forall (fun kv => contains "=" kv.1 = false) kvs ->
  filter (fun a => parse_flag a ≠ None) args = print_flag <$> kvs ->
  parse_flags (prog :: args) = list_to_map (reverse kvs).
Proof.
  intros Hk Hf. unfold parse_flags. cbn [tail]. rewrite parse_flags_from_spec, (right_id_L ∅ (∪)).
  rewrite <-(omap_parse_print kvs Hk) at 1. rewrite <-Hf. do 2 f_equal. clear.
  induction args as [|a args IH]; [done|]. cbn [omap list_omap]. rewrite filter_cons. destruct (parse_flag a) eqn:E.
  - rewrite decide_True by done. cbn [omap list_omap]. by rewrite E, IH.
  - rewrite decide_False by auto. done.
Qed.

(** ** Lists of values round trip *)

Fixpoint join_commas (l : list string) : string :=
  match l with
  | [] => EmptyString
  | [x] => x
  | x :: l => x ++ String "," (join_commas l)
  end.

Lemma app_empty_r (s : string) : s ++ EmptyString = s.
Proof. induction s as [|c s IH]; [done|]. change (String c (s ++ EmptyString) = String c s). by rewrite IH. Qed.

Lemma app_cons_r (s t : string) c : s ++ String c t = (s ++ String c EmptyString) ++ t.
Proof. induction s as [|d s IH]; [done|]. change (String d (s ++ String c t) = String d ((s ++ String c EmptyString) ++ t)). by rewrite IH. Qed.

Lemma split_commas_piece cur x rest : contains "," x = false ->
  split_commas cur (x ++ rest) = split_commas (cur ++ x) rest.
Proof.
  revert cur. induction x as [|c x IH]; intros cur Hx; [by rewrite app_empty_r|].
  cbn [contains] in Hx. apply orb_false_elim in Hx as [Hc Hx].
  change (split_commas cur (String c (x ++ rest)) = split_commas (cur ++ String c x) rest). cbn [split_commas].
  by rewrite Hc, IH, <-app_cons_r.
Qed.

Lemma split_join l : Forall (fun x => contains "," x = false) l -> last l <> Some EmptyString ->
  split_commas EmptyString (join_commas l) = l.
Proof.
  induction 1 as [|x l Hx Hl IH]; intros Hlast; [done|]. destruct l as [|y l].
  - cbn [join_commas]. rewrite <-(app_empty_r x) at 1. rewrite split_commas_piece by done. by destruct x.
  - change (join_commas (x :: y :: l)) with (x ++ String "," (join_commas (y :: l))).
    rewrite split_commas_piece by done. cbn [split_commas]. rewrite Ascii.eqb_refl. f_equal. apply IH.
    by rewrite last_cons_cons in Hlast.
Qed.

(** Comma-separated flags round trip: joining values without commas gives a
    flag that is split back into exactly these values, unless the last one is
    empty (which is dropped). *)
Theorem get_comma_separated_join m key l : Forall (fun x => contains "," x = false) l -> last l <> Some EmptyString ->
  get_comma_separated (<[key := join_commas l]> m) key = l.
Proof. intros Hl Hlast. unfold get_comma_separated. rewrite lookup_insert_eq. by apply split_join. Qed.

(** ** Accepted arguments *)

Section Accepted.
Context (stod : string -> option f64).

(** The flags that are read as floating-point numbers, with their defaults; [read]
    has none. *)
Definition float_flags (flags : gmap string string) : list (string * string) :=
  [("read", ""); ("insert", "0"); ("delete", "0"); ("update", "0"); ("scan", "0"); ("init_table_ratio", "0.5");
   ("latency_sample_ratio", "0.001"); ("variance", "20")] ++
  (if get_boolean_flag flags "workload_shift_test" then [("write_ratio_begin", "0"); ("write_ratio_end", "0")] else []).

Definition int_flags : list (string * string) :=
  [("scan_num", "100"); ("operations_num", "1000000000"); ("table_size", "-1"); ("error_bound", "64")].

(** Some flag does not hold the number it should. *)
Definition bad_number (flags : gmap string string) : Prop :=
  Exists (fun f => stod (get_with_default flags f.1 f.2) = None) (float_flags flags) \/
  Exists (fun f => stoi (get_with_default flags f.1 f.2) = None) int_flags \/
  stoul (get_with_default flags "seed" "1866") = None.

(** The parameters are those of the command line. *)
Record args_of (flags : gmap string string) (a : Args) : Prop := {
  ao_keys : flags !! "keys_file" = Some (keys_file_path a);
  ao_read : exists s x, flags !! "read" = Some s /\ stod s = Some x /\
    (workload_shift_test a = false -> read_ratio a = x /\ stod (get_with_default flags "insert" "0") = Some (insert_ratio a));
  ao_shift : workload_shift_test a = get_boolean_flag flags "workload_shift_test";
  ao_write : workload_shift_test a = true ->
    stod (get_with_default flags "write_ratio_end" "0") = Some (write_ratio_end a) /\
    read_ratio a = f64_sub (f64_of_Z 1) (write_ratio_end a) /\ insert_ratio a = write_ratio_end a;
  ao_delete : stod (get_with_default flags "delete" "0") = Some (delete_ratio a);
  ao_update : stod (get_with_default flags "update" "0") = Some (update_ratio a);
  ao_scan : stod (get_with_default flags "scan" "0") = Some (scan_ratio a);
  ao_threads : all_thread_num a = get_comma_separated flags "thread_num";
  ao_dist : sample_distribution a = get_with_default flags "sample_distribution" "uniform";
  ao_operations : exists z, stoi (get_with_default flags "operations_num" "1000000000") = Some z /\ operations_num a = wrap64 z;
  ao_table : stoi (get_with_default flags "table_size" "-1") = Some (table_size a)
}.

Ltac next_number :=
  match goal with
  | |- context [or_throw ?o ≫= _] => destruct o eqn:?; cbn [or_throw mbind outcome_bind]
  end.

Ltac bad_flag :=
  unfold bad_number, float_flags, int_flags; rewrite ?Exists_app, ?Exists_cons; cbn [fst snd]; tauto.

Ltac no_bad_flag :=
  unfold int_flags; rewrite ?Exists_app, ?Exists_cons, ?Exists_nil; cbn [fst snd]; intros Hbad;
  repeat (destruct Hbad as [Hbad|Hbad]); congruence.

Lemma read_args_spec flags :
  match read_args stod flags with
  | Ok a => args_of flags a /\ ~ bad_number flags
  | Rejected => is_Some (flags !! "keys_file") /\ is_Some (flags !! "read") /\ bad_number flags
  | Undefined => flags !! "keys_file" = None \/ flags !! "read" = None
  end.
Proof.
  unfold read_args, get_required. destruct (flags !! "keys_file") as [file|] eqn:Ef; [|by left]. cbn [mbind outcome_bind].
  destruct (flags !! "read") as [rd|] eqn:Er; [|by right]. cbn [mbind outcome_bind].
  assert (Erd : get_with_default flags "read" "" = rd) by (unfold get_with_default; by rewrite Er).
  destruct (stod rd) as [x|] eqn:Ex; rewrite <-Erd in Ex; cbn [or_throw mbind outcome_bind]; [|split; [done|]; split; [done|bad_flag]].
  do 12 (next_number; [|split; [done|]; split; [done|bad_flag]]). unfold shift_ratios.
  destruct (get_boolean_flag flags "workload_shift_test") eqn:Es.
  - do 2 (next_number; [|split; [done|]; split; [done|unfold bad_number, float_flags; rewrite Es; bad_flag]]).
    split; [|unfold bad_number, float_flags; rewrite Es; no_bad_flag]. by rewrite Erd in Ex; constructor; cbn; rewrite ?Es; try done; eauto 10; try (exists rd, x).
  - cbn [mbind outcome_bind]. split; [|unfold bad_number, float_flags; rewrite Es; no_bad_flag]. by rewrite Erd in Ex; constructor; cbn; rewrite ?Es; try done; eauto 10; try (exists rd, x).
Qed.

Lemma stoi_range s z : stoi s = Some z -> int_min <= z <= int_max.
Proof. unfold stoi. destruct (read_numeral s) as [[neg v] seen]. destruct (_ && _) eqn:Eb; [|done]. btest. by intros [= <-]. Qed.

(** The [INVARIANT]s: the ratios add up to one within the tolerance, the distribution
    is known, and there is a thread count. *)
Definition consistent (a : Args) : Prop :=
  SFltb (f64_lit 9999 10000) (ratio_sum a) = true /\ SFltb (ratio_sum a) (f64_lit 10001 10000) = true /\
  (sample_distribution a = "zipf" \/ sample_distribution a = "uniform") /\ all_thread_num a <> [].

Lemma check_args_consistent a : check_args a = true <-> consistent a.
Proof.
  unfold check_args, consistent. rewrite !andb_true_iff, orb_true_iff, !String.eqb_eq, Z.ltb_lt.
  assert (0 < zlen (all_thread_num a) <-> all_thread_num a <> []); [|tauto].
  destruct (all_thread_num a) as [|x l]; [split; [done|by intros []]|]. split; [done|]. intros _. unfold zlen. simpl. lia.
Qed.

End Accepted.

(** *** Examples *)

Definition demo_argv : list string :=
  ["microbench"; "--keys_file=a"; "oops"; "--read=0.5"; "--insert=0.5"; "--thread_num=1,2"; "--index_type=alex"; "--read=1";
   "--insert=0"; "--latency_sample"].

(** A reader of the two numerals of the example. *)
Definition demo_stod (s : string) : option f64 :=
  if String.eqb s "1" then Some (f64_of_Z 1) else if String.eqb s "0" then Some f64_zero else Some (f64_lit 1 2).

Lemma parse_flags_print_witness :
  parse_flags ["p"; "--a=1"; "junk"; "--b=x=y"; "--a=2"] = list_to_map (reverse [("a", "1"); ("b", "x=y"); ("a", "2")]).
Proof.
  apply (parse_flags_print "p" [("a", "1"); ("b", "x=y"); ("a", "2")]); [by repeat constructor|vm_compute; reflexivity].
Defined.

Lemma get_comma_separated_join_witness :
  get_comma_separated (<["thread_num" := "1,2,,8"]> ∅) "thread_num" = ["1"; "2"; ""; "8"].
Proof. apply (get_comma_separated_join ∅ "thread_num" ["1"; "2"; ""; "8"]); [by repeat constructor|done]. Defined.

(** An accepted command line, one whose ratios add up to two and one without a read
    ratio. *)
Example demo_args :
  (match parse_args demo_stod demo_argv with Ok a => (all_thread_num a, operations_num a, table_size a) | _ => ([], 0, 0) end) =
    (["1"; "2"], 1000000000, -1) /\
  parse_args demo_stod ["microbench"; "--keys_file=a"; "--read=1"; "--insert=1"; "--thread_num=1"] = Rejected /\
  parse_args demo_stod ["microbench"; "--keys_file=a"; "--insert=1"; "--thread_num=1"] = Undefined.
Proof. vm_compute. done. Qed.
