(* ===== verification/PlaModel.v ===== *)
(** * Optimal piecewise linear model (competitor/pgm/src/piecewise_linear_model.hpp)

    [OptimalPiecewiseLinearModel] decides, point by point, whether one line can
    still pass through the error bars of all points of the current segment.  It keeps two
    extreme lines, given by the corners of [rectangle], and two convex hulls.  The
    same class appears in benchmark/pgm_metric.h.

    Keys and ranks are 64-bit; differences, products and determinants are computed in
    [__int128], and one that does not fit is undefined behaviour: [None].  Ranks up to
    [2^62] (with [epsilon]) are small enough for any keys, ranks near [2^64] are not.

    [add_point] is proved to be exact: it accepts a point if and only if some line
    passes through the error bars of all points of the segment, and the lines it keeps
    do.  The error bar of a rank reaches [epsilon] up and down but, the ranks being
    unsigned, never below 0: a line that is below 0 at a rank less than [epsilon] does
    not count, although it may be within [epsilon] of the rank. *)

From S2P Require Import Prelude Words.
From stdpp Require Import list.
Local Open Scope Z_scope.
Local Open Scope cxx_scope.

(** ** Data *)

Record Slope := mkSlope { dx : Z; dy : Z }.

Record Point := mkPoint { px : Z; py : Z }.

(** The members of the class; [r0] .. [r3] are [rectangle]. *)
Record Model := mkModel {
  lower : list Point;
  upper : list Point;
  first_x : Z;
  last_x : Z;
  lower_start : Z;
  upper_start : Z;
  points_in_hull : Z;
  r0 : Point;
  r1 : Point;
  r2 : Point;
  r3 : Point
}.

(** ** Operations *)

(** The comparisons of [Slope]; the products are [__int128]. *)
Definition slope_lt (s p : Slope) : option bool :=
  a ← int128 (dy s * dx p); b ← int128 (dx s * dy p); Some (a <? b).
Definition slope_gt (s p : Slope) : option bool :=
  a ← int128 (dy s * dx p); b ← int128 (dx s * dy p); Some (b <? a).

(** [Point::operator-]. *)
Definition point_minus (a b : Point) : Slope := mkSlope (px a - px b) (py a - py b).

Definition cross (O A B : Point) : option Z :=
  let OA := point_minus A O in
  let OB := point_minus B O in
  a ← int128 (dx OA * dy OB);
  b ← int128 (dy OA * dx OB);
  int128 (a - b).

(** A model without points, as after construction or [reset]. *)
Definition new_model : Model := mkModel [] [] 0 0 0 0 0 (mkPoint 0 0) (mkPoint 0 0) (mkPoint 0 0) (mkPoint 0 0).

Definition reset (m : Model) : Model :=
  mkModel [] [] (first_x m) (last_x m) (lower_start m) (upper_start m) 0 (r0 m) (r1 m) (r2 m) (r3 m).

(** The two corners of the error bar of a point, clipped to the range of [Y]. *)
Definition max_y : Z := u64_max.
Definition min_y : Z := 0.

Definition upper_point (epsilon x y : Z) : Point :=
  mkPoint x (if max_y - epsilon <=? y then max_y else y + epsilon).

Definition lower_point (epsilon x y : Z) : Point :=
  mkPoint x (if y <=? min_y + epsilon then min_y else y - epsilon).

(** The loop "Find extreme slope": walks along a hull from [start] until [stop]. *)
Definition extreme (stop : Slope -> Slope -> option bool) (hull : list Point) (start : Z) (p : Point) : option Z :=
  h ← hull.[start];
  loop (S (length hull)) (fun '(i, best, best_i) =>
    if i <? zlen hull then
      h ← hull.[i];
      let val := point_minus h p in
      worse ← stop val best;
      Some (if (worse : bool) then inr best_i else inl (i + 1, val, i))
    else Some (inr best_i)) (start + 1, point_minus h p, start).

(** The loop "Hull update": where the hull ends when the last points that [bad]
    rejects are dropped; the two first points from [start] are not tested. *)
Definition hull_end (bad : Z -> bool) (hull : list Point) (start : Z) (p : Point) : option Z :=
  loop (S (length hull)) (fun end_ =>
    if start + 2 <=? end_ then
      a ← hull.[end_ - 2];
      b ← hull.[end_ - 1];
      c ← cross a b p;
      Some (if bad c then inl (end_ - 1) else inr end_)
    else Some (inr end_)) (zlen hull).

(** [resize] and [push_back]. *)
Definition push (hull : list Point) (end_ : Z) (p : Point) : list Point := take (Z.to_nat end_) hull ++ [p].

(** The block guarded by [p1 - rectangle[1] < slope2]. *)
Definition update_max (m : Model) (p1 : Point) : option Model :=
  min_i ← extreme slope_gt (lower m) (lower_start m) p1;
  corner ← (lower m).[min_i];
  end_ ← hull_end (fun c => c <=? 0) (upper m) (upper_start m) p1;
  Some (mkModel (lower m) (push (upper m) end_ p1) (first_x m) (last_x m) min_i (upper_start m)
    (points_in_hull m) (r0 m) corner (r2 m) p1).

(** The block guarded by [p2 - rectangle[0] > slope1]. *)
Definition update_min (m : Model) (p2 : Point) : option Model :=
  max_i ← extreme slope_lt (upper m) (upper_start m) p2;
  corner ← (upper m).[max_i];
  end_ ← hull_end (fun c => 0 <=? c) (lower m) (lower_start m) p2;
  Some (mkModel (push (lower m) end_ p2) (upper m) (first_x m) (last_x m) (lower_start m) max_i
    (points_in_hull m) corner (r1 m) p2 (r3 m)).

Definition set_last (m : Model) (x : Z) : Model :=
  mkModel (lower m) (upper m) (first_x m) x (lower_start m) (upper_start m) (points_in_hull m)
    (r0 m) (r1 m) (r2 m) (r3 m).

Definition set_count (m : Model) (n : Z) : Model :=
  mkModel (lower m) (upper m) (first_x m) (last_x m) (lower_start m) (upper_start m) n
    (r0 m) (r1 m) (r2 m) (r3 m).

(** Returns the model and whether the point was accepted; [None] is the exception
    for points that do not increase, or an overflow. *)
Definition add_point (epsilon : Z) (m : Model) (x y : Z) : option (Model * bool) :=
  if (0 <? points_in_hull m) && (x <=? last_x m) then None
  else
    let m := set_last m x in
    let p1 := upper_point epsilon x y in
    let p2 := lower_point epsilon x y in
    if points_in_hull m =? 0 then
      Some (mkModel [p2] [p1] x x 0 0 1 p1 p2 (r2 m) (r3 m), true)
    else if points_in_hull m =? 1 then
      Some (mkModel (lower m ++ [p2]) (upper m ++ [p1]) (first_x m) (last_x m) (lower_start m) (upper_start m) 2
        (r0 m) (r1 m) p2 p1, true)
    else
      let slope1 := point_minus (r2 m) (r0 m) in
      let slope2 := point_minus (r3 m) (r1 m) in
      outside_line1 ← slope_lt (point_minus p1 (r2 m)) slope1;
      outside_line2 ← slope_gt (point_minus p2 (r3 m)) slope2;
      if outside_line1 || outside_line2 then
        Some (set_count m 0, false)
      else
        steeper ← slope_lt (point_minus p1 (r1 m)) slope2;
        m ← (if (steeper : bool) then update_max m p1 else Some m);
        flatter ← slope_gt (point_minus p2 (r0 m)) slope1;
        m ← (if (flatter : bool) then update_min m p2 else Some m);
        Some (set_count m (points_in_hull m + 1), true).

(** ** Lines *)

(** The line [lq * y = lp * x + lr]. *)
Record Line := mkLine { lp : Z; lq : Z; lr : Z }.

(** Positive when the line is above the point, negative when it is below. *)
Definition ev (l : Line) (P : Point) : Z := lp l * px P + lr l - lq l * py P.

Definition through (A B : Point) : Line :=
  mkLine (py B - py A) (px B - px A) ((px B - px A) * py A - (py B - py A) * px A).

(** A line through the error bars of all points: at each key it is at most the rank plus
    [epsilon] and at least the rank minus [epsilon] or, where that is negative, 0. *)
Definition fits (epsilon : Z) (l : Line) (pts : list (Z * Z)) : Prop :=
  0 < lq l /\ forall x y, (x, y) ∈ pts ->
    ev l (upper_point epsilon x y) <= 0 /\ 0 <= ev l (lower_point epsilon x y).

Lemma ev_first A B : ev (through A B) A = 0.
Proof. unfold ev, through. cbn. ring. Qed.

Lemma ev_second A B : ev (through A B) B = 0.
Proof. unfold ev, through. cbn. ring. Qed.

(** The basic identity: any line and the line through [A] and [B]. *)
Lemma ev_identity l A B P :
  (px B - px A) * ev l P = (px B - px P) * ev l A + (px P - px A) * ev l B + lq l * ev (through A B) P.
Proof. unfold ev, through. cbn. ring. Qed.

(** What [cross] computes, unbounded. *)
Definition turn (O A B : Point) : Z := (px A - px O) * (py B - py O) - (py A - py O) * (px B - px O).

Lemma ev_turn A B P : ev (through A B) P = - turn A B P.
Proof. unfold ev, through, turn. cbn. ring. Qed.

Lemma ev_swap M N P : ev (through M N) P = - ev (through P N) M.
Proof. unfold ev, through. cbn. ring. Qed.

(** *** Points whose products fit *)

Definition small (P : Point) : Prop := 0 <= px P < 2 ^ 64 /\ 0 <= py P <= 2 ^ 62.

Lemma int128_mul a b : - 2 ^ 64 < a < 2 ^ 64 -> - 2 ^ 62 <= b <= 2 ^ 62 -> int128 (a * b) = Some (a * b) /\ - 2 ^ 126 < a * b < 2 ^ 126.
Proof. intros Ha Hb. assert (- 2 ^ 126 < a * b < 2 ^ 126) by nia. split; [apply int128_in; lia|done]. Qed.

Lemma cross_turn O A B : small O -> small A -> small B -> cross O A B = Some (turn O A B).
Proof.
  intros [H1 H2] [H3 H4] [H5 H6]. unfold cross, point_minus, turn. cbn [dx dy].
  destruct (int128_mul (px A - px O) (py B - py O)) as [-> Ha]; [lia|lia|]. cbn [mbind option_bind].
  destruct (int128_mul (px B - px O) (py A - py O)) as [Hb Hc]; [lia|lia|]. rewrite (Z.mul_comm (py A - py O)), Hb. cbn [mbind option_bind].
  apply int128_in. lia.
Qed.

(** The comparisons of the code are positions relative to a line. *)
Lemma slope_cmp p a b c : small p -> small a -> small b -> small c ->
  slope_lt (point_minus p a) (point_minus b c) = Some ((py p - py a) * (px b - px c) <? (px p - px a) * (py b - py c)) /\
  slope_gt (point_minus p a) (point_minus b c) = Some ((px p - px a) * (py b - py c) <? (py p - py a) * (px b - px c)).
Proof.
  intros [H1 H2] [H3 H4] [H5 H6] [H7 H8]. unfold slope_lt, slope_gt, point_minus. cbn [dx dy].
  destruct (int128_mul (px b - px c) (py p - py a)) as [E1 _]; [lia|lia|]. destruct (int128_mul (px p - px a) (py b - py c)) as [E2 _]; [lia|lia|].
  rewrite (Z.mul_comm (py p - py a)), E1, E2. done.
Qed.

Lemma slope_lt_ev p a b : small p -> small a -> small b -> slope_lt (point_minus p a) (point_minus b a) = Some (0 <? ev (through a b) p).
Proof. intros. destruct (slope_cmp p a b a) as [-> _]; [done..|]. f_equal. unfold ev, through. cbn. repeat btest_case; try done; lia. Qed.

Lemma slope_lt_ev' p a b : small p -> small a -> small b -> slope_lt (point_minus p b) (point_minus b a) = Some (0 <? ev (through a b) p).
Proof. intros. destruct (slope_cmp p b b a) as [-> _]; [done..|]. f_equal. unfold ev, through. cbn. repeat btest_case; try done; lia. Qed.

Lemma slope_gt_ev p a b : small p -> small a -> small b -> slope_gt (point_minus p a) (point_minus b a) = Some (ev (through a b) p <? 0).
Proof. intros. destruct (slope_cmp p a b a) as [_ ->]; [done..|]. f_equal. unfold ev, through. cbn. repeat btest_case; try done; lia. Qed.

Lemma slope_gt_ev' p a b : small p -> small a -> small b -> slope_gt (point_minus p b) (point_minus b a) = Some (ev (through a b) p <? 0).
Proof. intros. destruct (slope_cmp p b b a) as [_ ->]; [done..|]. f_equal. unfold ev, through. cbn. repeat btest_case; try done; lia. Qed.

(** Along a hull, relative to the line from the best point [M] so far to [N]. *)
Lemma stop_gt_ev P M N : small P -> small M -> small N -> slope_gt (point_minus P N) (point_minus M N) = Some (0 <? ev (through M N) P).
Proof. intros. destruct (slope_cmp P N M N) as [_ ->]; [done..|]. f_equal. unfold ev, through. cbn. repeat btest_case; try done; lia. Qed.

Lemma stop_lt_ev P M N : small P -> small M -> small N -> slope_lt (point_minus P N) (point_minus M N) = Some (ev (through M N) P <? 0).
Proof. intros. destruct (slope_cmp P N M N) as [-> _]; [done..|]. f_equal. unfold ev, through. cbn. repeat btest_case; try done; lia. Qed.

(** ** Both sides at once

    The two blocks of [add_point] are mirror images.  The sign [t] is 1 where a new
    upper point meets the lower hull and -1 where a new lower point meets the upper
    hull; [E] is positive when the line lies on the far side of the point. *)

Section Sides.
Context (t : Z) (Ht : t = 1 \/ t = -1).

Definition E (l : Line) (P : Point) : Z := t * ev l P.

Lemma E_identity l A B P :
  (px B - px A) * E l P = (px B - px P) * E l A + (px P - px A) * E l B + lq l * E (through A B) P.
Proof. unfold E. pose proof (ev_identity l A B P). destruct Ht as [->| ->]; lia. Qed.

Lemma E_first A B : E (through A B) A = 0.
Proof. unfold E. rewrite ev_first. lia. Qed.

Lemma E_second A B : E (through A B) B = 0.
Proof. unfold E. rewrite ev_second. lia. Qed.

Lemma E_swap M N P : E (through M N) P = - E (through P N) M.
Proof. unfold E. rewrite ev_swap. lia. Qed.

(** A line on the near side of [A] and on the far side of [B] is, to the right of
    [B], on the near side of what the line through [A] and [B] is on the near side of. *)
Lemma right_of A B P l : px A < px B <= px P -> 0 < lq l -> 0 <= E l A -> E l B <= 0 ->
  (E (through A B) P <= 0 -> E l P <= 0) /\ (E (through A B) P < 0 -> E l P < 0).
Proof.
  intros Hx Hq HA HB. pose proof (E_identity l A B P) as Hid.
  assert ((px B - px P) * E l A <= 0) by nia. assert ((px P - px A) * E l B <= 0) by nia. split; intros HP.
  - assert (lq l * E (through A B) P <= 0) by nia. nia.
  - assert (lq l * E (through A B) P < 0) by nia. nia.
Qed.

(** Points left of [M] that the line through [M] and [N] is on the far side of. *)
Lemma left_of M N P l : px P <= px M < px N -> 0 < lq l -> 0 <= E l M -> E l N <= 0 ->
  0 <= E (through M N) P -> 0 <= E l P.
Proof.
  intros Hx Hq HM HN HP. pose proof (E_identity l M N P) as Hid.
  assert (0 <= (px N - px P) * E l M) by nia. assert (0 <= (px P - px M) * E l N) by nia.
  assert (0 <= lq l * E (through M N) P) by nia. nia.
Qed.

(** The line through [M] and [N] compared with a line that passes on the far side of
    both, and with one that passes between them. *)
Lemma between M N P l : px M <= px P <= px N -> px M < px N -> 0 < lq l -> 0 <= E l M -> 0 <= E l N -> E l P <= 0 ->
  E (through M N) P <= 0.
Proof.
  intros Hx Hmn Hq HM HN HP. pose proof (E_identity l M N P) as Hid.
  assert (0 <= (px N - px P) * E l M) by nia. assert (0 <= (px P - px M) * E l N) by nia.
  assert ((px N - px M) * E l P <= 0) by nia. nia.
Qed.

Lemma before M N P l : px P <= px M < px N -> 0 < lq l -> 0 <= E l M -> E l N <= 0 -> E l P <= 0 ->
  E (through M N) P <= 0.
Proof.
  intros Hx Hq HM HN HP. pose proof (E_identity l M N P) as Hid.
  assert (0 <= (px N - px P) * E l M) by nia. assert (0 <= (px P - px M) * E l N) by nia.
  assert ((px N - px M) * E l P <= 0) by nia. nia.
Qed.

(** ** Hulls *)

Definition pt (hull : list Point) (j : Z) : Point := at_ (mkPoint 0 0) hull j.

Lemma rd_pt hull j : 0 <= j < zlen hull -> rd hull j = Some (pt hull j).
Proof. apply rd_at. Qed.

(** From [start] on, [x] increases and the points turn: [sg * t * turn > 0]. *)
Record chain (sg : Z) (hull : list Point) (start : Z) : Prop := {
  ch_start : 0 <= start < zlen hull;
  ch_incr : forall j, start <= j -> j + 1 < zlen hull -> px (pt hull j) < px (pt hull (j + 1));
  ch_turn : forall j, start <= j -> j + 2 < zlen hull ->
    0 < sg * (t * turn (pt hull j) (pt hull (j + 1)) (pt hull (j + 2)))
}.

Lemma chain_incr sg hull start : chain sg hull start ->
  forall j k, start <= j < k -> k < zlen hull -> px (pt hull j) < px (pt hull k).
Proof.
  intros Hc j k Hjk Hk. replace k with (j + 1 + Z.of_nat (Z.to_nat (k - j - 1))) in * by lia.
  induction (Z.to_nat (k - j - 1)) as [|n IH].
  - replace (j + 1 + Z.of_nat 0) with (j + 1) in * by lia. apply (ch_incr _ _ _ Hc); lia.
  - etransitivity; [apply IH; lia|]. replace (j + 1 + Z.of_nat (S n)) with (j + 1 + Z.of_nat n + 1) in * by lia.
    apply (ch_incr _ _ _ Hc); lia.
Qed.

Lemma chain_drop sg hull start start' : chain sg hull start -> start <= start' < zlen hull -> chain sg hull start'.
Proof. intros [Hs Hi Ht'] Hle. constructor; [lia|intros; apply Hi; lia|intros; apply Ht'; lia]. Qed.

(** Once the points of the hull fall behind a line, they stay behind it. *)
Lemma chain_tail hull start l m : chain (-1) hull start -> 0 < lq l -> start <= m ->
  0 <= E l (pt hull m) -> E l (pt hull m) <= E l (pt hull (m + 1)) ->
  forall j, m <= j < zlen hull -> 0 <= E l (pt hull j).
Proof.
  intros Hc Hq Hm H0 H1.
  assert (Hup : forall n, m + 1 + Z.of_nat n < zlen hull ->
    0 <= E l (pt hull (m + Z.of_nat n)) <= E l (pt hull (m + 1 + Z.of_nat n))).
  { induction n as [|n IH]; intros Hn.
    - replace (m + Z.of_nat 0) with m by lia. by replace (m + 1 + Z.of_nat 0) with (m + 1) by lia.
    - destruct IH as [Ha Hb]; [lia|]. set (j := m + Z.of_nat n) in *.
      replace (m + Z.of_nat (S n)) with (j + 1) by lia. replace (m + 1 + Z.of_nat n) with (j + 1) in Hb by lia.
      replace (m + 1 + Z.of_nat (S n)) with (j + 2) in * by lia. split; [lia|].
      pose proof (ch_incr _ _ _ Hc j ltac:(lia) ltac:(lia)) as X1. pose proof (ch_incr _ _ _ Hc (j + 1) ltac:(lia) ltac:(lia)) as X2.
      replace (j + 1 + 1) with (j + 2) in X2 by lia. pose proof (ch_turn _ _ _ Hc j ltac:(lia) ltac:(lia)) as Hturn.
      set (A := pt hull j) in *. set (B := pt hull (j + 1)) in *. set (C := pt hull (j + 2)) in *.
      pose proof (E_identity l A B C) as Hid.
      assert (E (through A B) C = - (t * turn A B C)) as HE by (unfold E; rewrite ev_turn; lia).
      assert (0 <= lq l * E (through A B) C) by nia. nia. }
  intros j Hj. destruct (Z.eq_dec j m) as [->|]; [done|].
  specialize (Hup (Z.to_nat (j - m - 1)) ltac:(lia)). replace (m + 1 + Z.of_nat (Z.to_nat (j - m - 1))) with j in Hup by lia. lia.
Qed.

(** ** The loops *)

(** Where hull points may lie with respect to the new point [N]. *)
Definition precedes (N P : Point) : Prop := px P < px N \/ (px P = px N /\ 0 < t * (py N - py P)).

Lemma precedes_same_x M N P : px M < px N -> px P = px N -> 0 < t * (py N - py P) -> 0 < E (through M N) P.
Proof.
  intros HM Hx Hy. assert (Eq : E (through M N) P = (px N - px M) * (t * (py N - py P))).
  { unfold E, ev, through. cbn. rewrite Hx. ring. }
  rewrite Eq. apply Z.mul_pos_pos; lia.
Qed.

Lemma better_point M N P Q : px Q <= px M < px N -> px M < px P -> px P < px N -> E (through M N) P <= 0 ->
  0 <= E (through M N) Q -> 0 <= E (through P N) Q.
Proof.
  intros HQ HMP HPN HP HE. pose proof (E_identity (through P N) M N Q) as Hid.
  rewrite E_second in Hid. rewrite (E_swap M N P) in HP. cbn [lq through] in Hid. nia.
Qed.

(** The extreme slope is found: the line from the chosen point to [N] leaves the
    whole hull on one side. *)
Lemma extreme_spec stop hull start N :
  (forall P M, small P -> small M -> stop (point_minus P N) (point_minus M N) = Some (0 <? E (through M N) P)) ->
  (forall j, start <= j < zlen hull -> small (pt hull j)) ->
  chain (-1) hull start -> px (pt hull start) < px N ->
  (forall j, start <= j < zlen hull -> precedes N (pt hull j)) ->
  exists m, extreme stop hull start N = Some m /\ start <= m < zlen hull /\ px (pt hull m) < px N /\
    forall j, start <= j < zlen hull -> 0 <= E (through (pt hull m) N) (pt hull j).
Proof.
  intros Hstop Hsm Hc H0 Hpre. pose proof (ch_start _ _ _ Hc) as Hs. unfold extreme. rewrite (rd_pt hull start) by done.
  cbn [mbind option_bind].
  match goal with |- context [loop _ ?b _] =>
    destruct (loop_spec (fun '(i, best, m) => i = m + 1 /\ best = point_minus (pt hull m) N /\ start <= m < zlen hull /\
        px (pt hull m) < px N /\ forall j, start <= j <= m -> 0 <= E (through (pt hull m) N) (pt hull j))
      (fun m => start <= m < zlen hull /\ px (pt hull m) < px N /\
        forall j, start <= j < zlen hull -> 0 <= E (through (pt hull m) N) (pt hull j))
      (fun '(i, _, _) => zlen hull - i) b) with (fuel := S (length hull)) (s := (start + 1, point_minus (pt hull start) N, start))
      as (m & Hl & HQ) end.
  - intros [[i best] m] (-> & -> & Hm & Hpm & Hall). destruct (Z.ltb_spec (m + 1) (zlen hull)) as [Hlt|Hge].
    + rewrite (rd_pt hull (m + 1)) by lia. cbn [mbind option_bind]. rewrite Hstop by (apply Hsm; lia). cbn [mbind option_bind].
      pose proof (ch_incr _ _ _ Hc m ltac:(lia) Hlt) as Hx. destruct (Z.ltb_spec 0 (E (through (pt hull m) N) (pt hull (m + 1)))) as [HE|HE].
      * split; [done|]. split; [done|]. intros j Hj. destruct (Z.le_gt_cases j m); [apply Hall; lia|].
        apply (chain_tail hull start _ m Hc); [cbn; lia|lia|rewrite E_first; lia|rewrite E_first; lia|lia].
      * assert (Hp : px (pt hull (m + 1)) < px N).
        { destruct (Hpre (m + 1) ltac:(lia)) as [?|[Hex Hey]]; [done|].
          pose proof (precedes_same_x (pt hull m) N _ Hpm Hex Hey). lia. }
        split; [|lia]. split; [done|]. split; [done|]. split; [lia|]. split; [done|].
        intros j Hj. destruct (Z.eq_dec j (m + 1)) as [->|]; [rewrite E_first; lia|].
        apply (better_point (pt hull m)); try done; [|apply Hall; lia].
        destruct (Z.eq_dec j m) as [->|]; [lia|]. pose proof (chain_incr _ _ _ Hc j m ltac:(lia) ltac:(lia)). lia.
    + split; [done|]. split; [done|]. intros j Hj. apply Hall. lia.
  - split; [done|]. split; [done|]. split; [lia|]. split; [done|]. intros j Hj. replace j with start by lia. rewrite E_first. lia.
  - unfold zlen. lia.
  - lia.
  - by exists m.
Qed.

Lemma popped A B N l : px A < px B < px N -> 0 < lq l -> t * turn A B N <= 0 -> E l A <= 0 -> E l N <= 0 -> E l B <= 0.
Proof.
  intros Hx Hq Hcr HA HN. pose proof (E_identity l A N B) as Hid.
  assert (E (through A N) B = t * turn A B N) as HE by (unfold E, ev, through, turn; cbn; ring).
  assert (lq l * E (through A N) B <= 0) by nia. assert ((px N - px B) * E l A <= 0) by nia.
  assert ((px B - px A) * E l N <= 0) by nia. nia.
Qed.

(** The dropped points are implied by the last kept one and the new one. *)
Lemma hull_end_spec bad hull start N :
  (forall c, bad c = (t * c <=? 0)) -> (forall j, start <= j < zlen hull -> small (pt hull j)) -> small N -> chain 1 hull start ->
  (forall j, start <= j < zlen hull -> px (pt hull j) < px N) ->
  exists e, hull_end bad hull start N = Some e /\ start + 1 <= e <= zlen hull /\
    (start + 2 <= e -> 0 < t * turn (pt hull (e - 2)) (pt hull (e - 1)) N) /\
    forall l, 0 < lq l -> E l (pt hull (e - 1)) <= 0 -> E l N <= 0 -> forall j, e <= j < zlen hull -> E l (pt hull j) <= 0.
Proof.
  intros Hbad Hsm HsN Hc Hx. pose proof (ch_start _ _ _ Hc) as Hs. unfold hull_end.
  match goal with |- context [loop _ ?b _] =>
    destruct (loop_spec (fun e => start + 1 <= e <= zlen hull /\ forall l, 0 < lq l -> E l (pt hull (e - 1)) <= 0 -> E l N <= 0 ->
        forall j, e <= j < zlen hull -> E l (pt hull j) <= 0)
      (fun e => start + 1 <= e <= zlen hull /\ (start + 2 <= e -> 0 < t * turn (pt hull (e - 2)) (pt hull (e - 1)) N) /\
        forall l, 0 < lq l -> E l (pt hull (e - 1)) <= 0 -> E l N <= 0 -> forall j, e <= j < zlen hull -> E l (pt hull j) <= 0)
      (fun e => e) b) with (fuel := S (length hull)) (s := zlen hull) as (e & Hl & HQ) end.
  - intros e [He Himp]. destruct (Z.leb_spec (start + 2) e) as [Hle|Hgt]; [|split; [done|]; split; [lia|done]].
    rewrite (rd_pt hull (e - 2)), (rd_pt hull (e - 1)) by lia. cbn [mbind option_bind].
    rewrite cross_turn by (done || (apply Hsm; lia)). cbn [mbind option_bind]. rewrite Hbad.
    destruct (Z.leb_spec (t * turn (pt hull (e - 2)) (pt hull (e - 1)) N) 0) as [Hcr|Hcr]; [|split; [done|]; split; [lia|done]].
    split; [|lia]. split; [lia|]. intros l Hq HA HN j Hj. replace (e - 1 - 1) with (e - 2) in HA by lia.
    pose proof (ch_incr _ _ _ Hc (e - 2) ltac:(lia) ltac:(lia)) as Hinc. replace (e - 2 + 1) with (e - 1) in Hinc by lia.
    pose proof (Hx (e - 1) ltac:(lia)). assert (HB : E l (pt hull (e - 1)) <= 0) by (apply (popped (pt hull (e - 2)) _ N); done || lia).
    destruct (Z.eq_dec j (e - 1)) as [->|]; [done|]. apply Himp; done || lia.
  - split; [lia|]. intros. lia.
  - unfold zlen. lia.
  - lia.
  - exists e. tauto.
Qed.

Lemma zlen_push hull e N : 0 <= e <= zlen hull -> zlen (push hull e N) = e + 1.
Proof. intros He. unfold push, zlen in *. rewrite length_app, length_take. simpl. lia. Qed.

Lemma pt_push hull e N j : 0 <= e <= zlen hull -> 0 <= j <= e -> pt (push hull e N) j = if j =? e then N else pt hull j.
Proof.
  intros He Hj. unfold pt, at_, push, rd. destruct (Z.leb_spec 0 j); [|lia]. unfold zlen in He. btest_case.
  - subst. rewrite lookup_app_r by (rewrite length_take; lia). rewrite length_take.
    replace (Z.to_nat e - _)%nat with 0%nat by lia. done.
  - rewrite lookup_app_l by (rewrite length_take; lia). rewrite lookup_take_lt by lia. done.
Qed.

Lemma push_chain hull start e N : chain 1 hull start -> start + 1 <= e <= zlen hull ->
  (forall j, start <= j < zlen hull -> px (pt hull j) < px N) ->
  (start + 2 <= e -> 0 < t * turn (pt hull (e - 2)) (pt hull (e - 1)) N) -> chain 1 (push hull e N) start.
Proof.
  intros Hc He Hx Hcr. pose proof (ch_start _ _ _ Hc) as Hs. constructor; rewrite ?zlen_push by lia; [lia| |].
  - intros j Hj Hlt. rewrite !pt_push by lia. destruct (Z.eqb_spec j e); [lia|].
    btest_case; [apply Hx; lia|apply (ch_incr _ _ _ Hc); lia].
  - intros j Hj Hlt. rewrite !pt_push by lia. destruct (Z.eqb_spec j e), (Z.eqb_spec (j + 1) e); [lia|lia|lia|].
    btest_case; [|apply (ch_turn _ _ _ Hc); lia]. rewrite Z.mul_1_l. replace j with (e - 2) by lia.
    replace (e - 2 + 1) with (e - 1) by lia. apply Hcr. lia.
Qed.

(** ** One new corner

    [same] are the corners of the kind of [N] so far, [opp] the others; [SH] and [OH]
    are the hulls of the two kinds.  The line through [A] and [B] is the extreme line
    that [N] may cut off, [lb] the other one. *)

Definition feasible (same opp : Point -> Prop) (l : Line) : Prop :=
  0 < lq l /\ (forall P, same P -> E l P <= 0) /\ (forall P, opp P -> 0 <= E l P).

(** The two hulls stand for all corners. *)
Definition implied (same opp : Point -> Prop) (SH OH : list Point) (ss os : Z) : Prop :=
  forall l, 0 < lq l -> (forall j, ss <= j < zlen SH -> E l (pt SH j) <= 0) ->
    (forall j, os <= j < zlen OH -> 0 <= E l (pt OH j)) -> feasible same opp l.

Section Corner.
Context (same opp : Point -> Prop) (SH OH : list Point) (ss os : Z) (N A B : Point) (lb : Line).
Context (HS : chain 1 SH ss) (HO : chain (-1) OH os).
Context (HSin : forall j, ss <= j < zlen SH -> same (pt SH j)) (HOin : forall j, os <= j < zlen OH -> opp (pt OH j)).
Context (Hsame : forall P, same P -> px P < px N) (Hopp : forall P, opp P -> precedes N P).
Context (Hos : px (pt OH os) < px N).
Context (HA : opp A) (HB : same B) (HAB : px A < px B).
Context (Hla : feasible same opp (through A B)) (Hlb : feasible same opp lb) (HlbN : E lb N <= 0).
Context (Himp : implied same opp SH OH ss os).

(** A corner that does not cut off the extreme line is implied by the others. *)
Lemma corner_implied l : E (through A B) N <= 0 -> feasible same opp l -> E l N <= 0.
Proof.
  intros HN (Hq & Hs & Ho). pose proof (Hsame B HB). apply (right_of A B N l); [lia|done|by apply Ho|by apply Hs|done].
Qed.

(** A corner beyond the extreme line leaves no line. *)
Lemma corner_excluded l : E (through A B) N < 0 -> feasible same opp l -> E l N < 0.
Proof.
  intros HN (Hq & Hs & Ho). pose proof (Hsame B HB). apply (right_of A B N l); [lia|done|by apply Ho|by apply Hs|done].
Qed.

Context (Hsmall : forall P, same P -> small P) (Hsmall' : forall P, opp P -> small P) (HsN : small N).
Context (stop : Slope -> Slope -> option bool) (bad : Z -> bool).
Context (Hstop : forall P M, small P -> small M -> stop (point_minus P N) (point_minus M N) = Some (0 <? E (through M N) P)).
Context (Hbad : forall c, bad c = (t * c <=? 0)).

(** The new extreme line fits, and the new hulls stand for all corners and [N]. *)
Lemma corner_update : 0 < E (through A B) N ->
  exists m e, extreme stop OH os N = Some m /\ hull_end bad SH ss N = Some e /\
    let M := pt OH m in
    let SH' := push SH e N in
    os <= m < zlen OH /\ ss + 1 <= e <= zlen SH /\ opp M /\ px M < px N /\
    chain 1 SH' ss /\ chain (-1) OH m /\ (forall j, ss <= j < zlen SH' -> same (pt SH' j) \/ pt SH' j = N) /\
    feasible same opp (through M N) /\
    implied (fun P => same P \/ P = N) opp SH' OH ss m.
Proof.
  intros HN. pose proof (ch_start _ _ _ HS) as Hss.
  assert (HSx : forall j, ss <= j < zlen SH -> px (pt SH j) < px N) by (intros j Hj; by apply Hsame, HSin).
  destruct (extreme_spec stop OH os N Hstop) as (m & Em & Hm & HMN & Htan); [intros j Hj; by apply Hsmall', HOin|done|done|intros j Hj; by apply Hopp, HOin|].
  destruct (hull_end_spec bad SH ss N Hbad ltac:(intros j Hj; by apply Hsmall, HSin) HsN HS HSx) as (e & Ee & He & Hcr & Hpop).
  exists m, e. split; [done|]. split; [done|]. set (M := pt OH m) in *. cbv zeta.
  assert (HM : opp M) by (apply HOin; lia).
  split; [done|]. split; [done|]. split; [done|]. split; [done|]. split; [by apply push_chain|]. split; [by eapply chain_drop|].
  split; [intros j; rewrite zlen_push by lia; intros Hj; rewrite pt_push by lia; btest_case; [by right|left; apply HSin; lia]|].
  assert (Hnew : forall P, same P -> E (through M N) P <= 0).
  { destruct Hla as (Hqa & Hsa & Hoa), Hlb as (Hqb & Hsb & Hob). intros P HP. pose proof (Hsame P HP).
    destruct (Z.le_gt_cases (px M) (px P)).
    - apply (between M N P (through A B)); try lia; [by apply Hoa|by apply Hsa].
    - apply (before M N P lb); try lia; [by apply Hob|by apply Hsb]. }
  split; [apply Himp; [cbn; lia|intros j Hj; apply Hnew, HSin; lia|done]|].
  intros l Hq HS' HO'. assert (HlN : E l N <= 0).
  { specialize (HS' e). rewrite zlen_push, pt_push, Z.eqb_refl in HS' by lia. apply HS'. lia. }
  assert (Hkept : forall j, ss <= j < e -> E l (pt SH j) <= 0).
  { intros j Hj. specialize (HS' j). rewrite zlen_push, pt_push in HS' by lia. destruct (Z.eqb_spec j e); [lia|]. apply HS'. lia. }
  destruct (Himp l Hq) as (_ & Hs & Ho).
  - intros j Hj. destruct (Z.lt_ge_cases j e); [apply Hkept; lia|]. apply (Hpop l Hq); [apply Hkept; lia|done|lia].
  - intros j Hj. destruct (Z.le_gt_cases m j); [apply HO'; lia|].
    pose proof (chain_incr _ _ _ HO j m ltac:(lia) ltac:(lia)) as Hjm. fold M in Hjm.
    apply (left_of M N); [lia|done|apply HO'; lia|done|apply Htan; lia].
  - split; [done|]. split; [|done]. intros P [HP| ->]; [by apply Hs|done].
Qed.
End Corner.
End Sides.

(** ** Mirror images *)

Lemma E_flip l P : E (-1) l P = - E 1 l P.
Proof. unfold E. lia. Qed.

Lemma chain_flip sg hull start : chain 1 sg hull start <-> chain (-1) (- sg) hull start.
Proof. split; (intros [Hs Hi Ht]; constructor; [done|done|intros j H1 H2; specialize (Ht j H1 H2); lia]). Qed.

Lemma feasible_flip same opp l : feasible 1 same opp l <-> feasible (-1) opp same l.
Proof.
  unfold feasible. setoid_rewrite E_flip. split; intros (Hq & H1 & H2); (split; [done|]); split; intros P HP;
    (specialize (H1 P) || idtac); (specialize (H2 P) || idtac); try (specialize (H1 HP)); try (specialize (H2 HP)); lia.
Qed.

Lemma implied_flip same opp SH OH ss os : implied 1 same opp SH OH ss os <-> implied (-1) opp same OH SH os ss.
Proof.
  unfold implied. setoid_rewrite E_flip. split; intros Hi l Hq H1 H2; apply feasible_flip; apply Hi; try done;
    intros j Hj; (specialize (H1 j) || idtac); (specialize (H2 j) || idtac); try (specialize (H1 Hj)); try (specialize (H2 Hj)); lia.
Qed.

(** ** The two blocks of [add_point] *)

(** The invariant for two points at least, for the upper corners [up] and the lower
    corners [lo]. *)
Record hulls_ok (up lo : Point -> Prop) (m : Model) : Prop := {
  ho_corners : up (r0 m) /\ lo (r1 m) /\ lo (r2 m) /\ up (r3 m);
  ho_left : px (r0 m) < px (r2 m) /\ px (r1 m) < px (r3 m);
  ho_upper : chain 1 1 (upper m) (upper_start m);
  ho_lower : chain 1 (-1) (lower m) (lower_start m);
  ho_ups : forall j, upper_start m <= j < zlen (upper m) -> up (pt (upper m) j);
  ho_los : forall j, lower_start m <= j < zlen (lower m) -> lo (pt (lower m) j);
  ho_min : feasible 1 up lo (through (r0 m) (r2 m));
  ho_max : feasible 1 up lo (through (r1 m) (r3 m));
  ho_implied : implied 1 up lo (upper m) (lower m) (upper_start m) (lower_start m)
}.

Lemma feasible_weaken (up up' lo lo' : Point -> Prop) l :
  (forall P, up' P -> up P) -> (forall P, lo' P -> lo P) -> feasible 1 up lo l -> feasible 1 up' lo' l.
Proof. intros Hu Hl (Hq & Hup & Hlo). split; [done|]. split; auto. Qed.

Lemma hulls_ok_iff (up up' lo lo' : Point -> Prop) m :
  (forall P, up P <-> up' P) -> (forall P, lo P <-> lo' P) -> hulls_ok up lo m -> hulls_ok up' lo' m.
Proof.
  intros Hu Hl [(C0 & C1 & C2 & C3) L U1 U2 I1 I2 F1 F2 Im].
  assert (Hf : forall l, feasible 1 up lo l -> feasible 1 up' lo' l) by (intros l; apply feasible_weaken; intros P HP; by apply Hu || by apply Hl).
  constructor; auto.
  - by rewrite <-!Hu, <-!Hl.
  - intros j Hj. by apply Hu, I1.
  - intros j Hj. by apply Hl, I2.
  - intros l Hq H1 H2. by apply Hf, Im.
Qed.

Section Blocks.
Context (up lo : Point -> Prop) (m : Model) (N L : Point).
Context (Hbar : px L = px N /\ py L < py N).
Context (Hsu : forall P, up P -> small P) (Hsl : forall P, lo P -> small P) (HsN : small N) (HsL : small L).

(** The new upper corner [N]. *)
Section UpperCorner.
Context (Hok : hulls_ok up lo m) (Hup : forall P, up P -> px P < px N) (Hlo : forall P, lo P -> px P < px N).
Context (Hout1 : E 1 (through (r0 m) (r2 m)) N <= 0) (Hout2 : 0 <= E 1 (through (r1 m) (r3 m)) L).

(** The model after the first block. *)
Definition first_block : option Model :=
  steeper ← slope_lt (point_minus N (r1 m)) (point_minus (r3 m) (r1 m));
  if (steeper : bool) then update_max m N else Some m.

Lemma first_block_ok : exists m', first_block = Some m' /\
  hulls_ok (fun P => up P \/ P = N) lo m' /\ r0 m' = r0 m /\ r2 m' = r2 m /\
  0 <= E 1 (through (r1 m') (r3 m')) L /\ px (pt (upper m') (upper_start m')) < px N /\
  first_x m' = first_x m /\ last_x m' = last_x m /\ points_in_hull m' = points_in_hull m.
Proof.
  destruct Hok as [(C0 & C1 & C2 & C3) [L1 L2] U1 U2 I1 I2 F1 F2 Im]. pose proof (ch_start _ _ _ _ U1) as Hus. pose proof (ch_start _ _ _ _ U2) as Hls.
  assert (Hopp : forall P, lo P -> precedes 1 N P) by (intros P HP; left; by apply Hlo).
  assert (Hadd : forall l, feasible 1 up lo l -> E 1 l N <= 0 -> feasible 1 (fun P => up P \/ P = N) lo l).
  { intros l (Hq & Hu & Hl) HN. split; [done|]. split; [|done]. intros P [HP| ->]; auto. }
  unfold first_block. rewrite slope_lt_ev by auto. cbn [mbind option_bind]. destruct (Z.ltb_spec 0 (ev (through (r1 m) (r3 m)) N)) as [Hcut|Hcut].
  - destruct (corner_update 1 ltac:(by left) up lo (upper m) (lower m) (upper_start m) (lower_start m) N (r1 m) (r3 m)
      (through (r0 m) (r2 m)) U1 U2 I1 I2 Hup Hopp ltac:(apply Hlo, I2; lia) F2 F1 Hout1 Im Hsu Hsl HsN slope_gt (fun c => c <=? 0))
      as (mi & e & Em & Ee & Hm & He & HM & HMN & Hc1 & Hc2 & Hin & Hf & Himp).
    { intros P M HP HM. rewrite stop_gt_ev by done. unfold E. by rewrite Z.mul_1_l. }
    { intros c. by rewrite Z.mul_1_l. }
    { unfold E. lia. }
    unfold update_max. rewrite Em. cbn [mbind option_bind]. rewrite (rd_pt (lower m) mi) by lia. cbn [mbind option_bind].
    rewrite Ee. cbn [mbind option_bind]. eexists. split; [done|].
    cbn [r0 r1 r2 r3 upper lower upper_start lower_start first_x last_x points_in_hull].
    split; [constructor; cbn [r0 r1 r2 r3 upper lower upper_start lower_start]; auto|].
    + intros j Hj. apply I2. lia.
    + apply Hadd; [done|]. unfold E. rewrite ev_second. lia.
    + split; [done|]. split; [done|]. split; [|split; [|done]].
      * unfold E, ev, through. cbn. destruct Hbar as [-> Hy]. nia.
      * rewrite pt_push by lia. destruct (Z.eqb_spec (upper_start m) e); [lia|]. apply Hup, I1. lia.
  - exists m. split; [done|]. split; [|split; [done|]; split; [done|]; split; [done|]; split; [apply Hup, I1; lia|done]].
    constructor; auto.
    + apply Hadd; [done|]. unfold E. lia.
    + intros l Hq H1 H2. specialize (Im l Hq H1 H2). apply Hadd; [done|].
      apply (corner_implied 1 ltac:(by left) up lo N (r1 m) (r3 m) Hup C1 C3 L2); [unfold E; lia|done].
Qed.
End UpperCorner.

(** The new lower corner [L]. *)
Section LowerCorner.
Context (Hok : hulls_ok up lo m) (Hlo : forall P, lo P -> px P < px L).
Context (Hup : forall P, up P -> px P < px L \/ (px P = px L /\ py L < py P)).
Context (Hfirst : px (pt (upper m) (upper_start m)) < px L) (Hmax : 0 <= E 1 (through (r1 m) (r3 m)) L).

(** The model after the second block. *)
Definition second_block : option Model :=
  flatter ← slope_gt (point_minus L (r0 m)) (point_minus (r2 m) (r0 m));
  if (flatter : bool) then update_min m L else Some m.

Lemma second_block_ok : exists m', second_block = Some m' /\ hulls_ok up (fun P => lo P \/ P = L) m' /\
  first_x m' = first_x m /\ last_x m' = last_x m /\ points_in_hull m' = points_in_hull m.
Proof.
  destruct Hok as [(C0 & C1 & C2 & C3) [L1 L2] U1 U2 I1 I2 F1 F2 Im]. pose proof (ch_start _ _ _ _ U1) as Hus. pose proof (ch_start _ _ _ _ U2) as Hls.
  assert (Hopp : forall P, up P -> precedes (-1) L P) by (intros P HP; destruct (Hup P HP) as [?|[? ?]]; [by left|right; split; [done|lia]]).
  assert (Hadd : forall l, feasible 1 up lo l -> 0 <= E 1 l L -> feasible 1 up (fun P => lo P \/ P = L) l).
  { intros l (Hq & Hu & Hl) HN. split; [done|]. split; [done|]. intros P [HP| ->]; auto. }
  unfold second_block. rewrite slope_gt_ev by auto. cbn [mbind option_bind]. destruct (Z.ltb_spec (ev (through (r0 m) (r2 m)) L) 0) as [Hcut|Hcut].
  - destruct (corner_update (-1) ltac:(by right) lo up (lower m) (upper m) (lower_start m) (upper_start m) L (r0 m) (r2 m)
      (through (r1 m) (r3 m)) (proj1 (chain_flip _ _ _) U2) (proj1 (chain_flip _ _ _) U1) I2 I1 Hlo Hopp Hfirst
      (proj1 (feasible_flip _ _ _) F1) (proj1 (feasible_flip _ _ _) F2) ltac:(rewrite E_flip; lia)
      (proj1 (implied_flip _ _ _ _ _ _) Im) Hsl Hsu HsL slope_lt (fun c => 0 <=? c))
      as (mi & e & Em & Ee & Hm & He & HM & HMN & Hc1 & Hc2 & Hin & Hf & Himp).
    { intros P M HP HM. rewrite stop_lt_ev by done. f_equal. unfold E. repeat btest_case; done || lia. }
    { intros c. repeat btest_case; done || lia. }
    { unfold E. lia. }
    unfold update_min. rewrite Em. cbn [mbind option_bind]. rewrite (rd_pt (upper m) mi) by lia. cbn [mbind option_bind].
    rewrite Ee. cbn [mbind option_bind]. eexists. split; [done|].
    split; [|done]. constructor; cbn [r0 r1 r2 r3 upper lower upper_start lower_start]; auto.
    + by apply chain_flip.
    + by apply chain_flip.
    + intros j Hj. apply I1. lia.
    + apply Hadd; [by apply feasible_flip|]. unfold E. rewrite ev_second. lia.
    + by apply implied_flip.
  - exists m. split; [done|]. split; [|done]. constructor; auto.
    + apply Hadd; [done|]. unfold E. lia.
    + intros l Hq H1 H2. specialize (Im l Hq H1 H2). apply Hadd; [done|].
      enough (E (-1) l L <= 0) by (rewrite E_flip in *; lia).
      apply (corner_implied (-1) ltac:(by right) lo up L (r0 m) (r2 m) Hlo C0 C2 L1); [unfold E; lia|by apply feasible_flip].
Qed.
End LowerCorner.
End Blocks.

(** ** The invariant of a segment *)

Section Segment.
Context (epsilon : Z) (Heps : 0 < epsilon <= max_y).
Implicit Types (pts : list (Z * Z)) (m : Model).

Definition ups pts (P : Point) : Prop := exists x y, (x, y) ∈ pts /\ P = upper_point epsilon x y.
Definition los pts (P : Point) : Prop := exists x y, (x, y) ∈ pts /\ P = lower_point epsilon x y.

(** 64-bit keys, and ranks small enough for the products of the code. *)
Definition ranks_ok pts : Prop := forall x y, (x, y) ∈ pts -> 0 <= x < 2 ^ 64 /\ 0 <= y <= 2 ^ 62 - epsilon.

Lemma rank_range y : 0 <= y <= 2 ^ 62 - epsilon -> 0 <= y <= max_y.
Proof using Heps. unfold max_y, u64_max. lia. Qed.

Lemma upper_small x y : 0 <= x < 2 ^ 64 -> 0 <= y <= 2 ^ 62 - epsilon -> small (upper_point epsilon x y).
Proof using Heps. intros Hx Hy. split; [done|]. unfold upper_point, max_y, u64_max. cbn [py]. repeat btest_case; lia. Qed.

Lemma lower_small x y : 0 <= x < 2 ^ 64 -> 0 <= y <= 2 ^ 62 - epsilon -> small (lower_point epsilon x y).
Proof using Heps. intros Hx Hy. split; [done|]. unfold lower_point, min_y. cbn [py]. repeat btest_case; lia. Qed.

Lemma ups_small pts P : ranks_ok pts -> ups pts P -> small P.
Proof using Heps. intros Hr (x & y & Hin & ->). apply upper_small; by apply (Hr x y). Qed.

Lemma los_small pts P : ranks_ok pts -> los pts P -> small P.
Proof using Heps. intros Hr (x & y & Hin & ->). apply lower_small; by apply (Hr x y). Qed.

Lemma fits_feasible l pts : fits epsilon l pts <-> feasible 1 (ups pts) (los pts) l.
Proof.
  unfold fits, feasible, E. split.
  - intros [Hq Hf]. split; [done|]. split; intros P (x & y & Hin & ->); specialize (Hf x y Hin); lia.
  - intros (Hq & Hu & Hl). split; [done|]. intros x y Hin.
    specialize (Hu (upper_point epsilon x y)). specialize (Hl (lower_point epsilon x y)).
    assert (1 * ev l (upper_point epsilon x y) <= 0) by (apply Hu; by exists x, y).
    assert (0 <= 1 * ev l (lower_point epsilon x y)) by (apply Hl; by exists x, y). lia.
Qed.

(** One point. *)
Definition one_ok (x y : Z) m : Prop :=
  lower m = [lower_point epsilon x y] /\ upper m = [upper_point epsilon x y] /\ lower_start m = 0 /\ upper_start m = 0 /\
  r0 m = upper_point epsilon x y /\ r1 m = lower_point epsilon x y.

Definition segment_ok pts m : Prop :=
  points_in_hull m = zlen pts /\ (forall x y, last pts = Some (x, y) -> last_x m = x) /\
  match pts with
  | [] => True
  | [(x, y)] => one_ok x y m
  | _ => hulls_ok (ups pts) (los pts) m
  end.

Lemma bar_order x y : 0 <= y <= max_y -> py (lower_point epsilon x y) < py (upper_point epsilon x y).
Proof. intros Hy. unfold lower_point, upper_point, min_y, max_y in *. cbn. repeat btest_case; lia. Qed.

Lemma ups_snoc pts x y P : ups (pts ++ [(x, y)]) P <-> ups pts P \/ P = upper_point epsilon x y.
Proof.
  unfold ups. split.
  - intros (x' & y' & [Hin|Hin%list_elem_of_singleton]%elem_of_app & ->); [left; by exists x', y'|right; by simplify_eq].
  - intros [(x' & y' & Hin & ->)| ->]; [exists x', y'|exists x, y]; rewrite elem_of_app, ?list_elem_of_singleton; auto.
Qed.

Lemma los_snoc pts x y P : los (pts ++ [(x, y)]) P <-> los pts P \/ P = lower_point epsilon x y.
Proof.
  unfold los. split.
  - intros (x' & y' & [Hin|Hin%list_elem_of_singleton]%elem_of_app & ->); [left; by exists x', y'|right; by simplify_eq].
  - intros [(x' & y' & Hin & ->)| ->]; [exists x', y'|exists x, y]; rewrite elem_of_app, ?list_elem_of_singleton; auto.
Qed.

Lemma feasible_snoc l pts x y :
  feasible 1 (ups (pts ++ [(x, y)])) (los (pts ++ [(x, y)])) l <->
  feasible 1 (ups pts) (los pts) l /\ E 1 l (upper_point epsilon x y) <= 0 /\ 0 <= E 1 l (lower_point epsilon x y).
Proof.
  unfold feasible. setoid_rewrite ups_snoc. setoid_rewrite los_snoc. split.
  - intros (Hq & Hu & Hl). split; [split; [done|]; split; auto|]. auto.
  - intros ((Hq & Hu & Hl) & Hu' & Hl'). split; [done|]. split; intros P [HP| ->]; auto.
Qed.

(** ** add_point *)

Lemma hulls_ok_same up lo m m' : upper m' = upper m -> lower m' = lower m -> upper_start m' = upper_start m ->
  lower_start m' = lower_start m -> r0 m' = r0 m -> r1 m' = r1 m -> r2 m' = r2 m -> r3 m' = r3 m ->
  hulls_ok up lo m -> hulls_ok up lo m'.
Proof. intros E1 E2 E3 E4 E5 E6 E7 E8 []. constructor; rewrite ?E1, ?E2, ?E3, ?E4, ?E5, ?E6, ?E7, ?E8; done. Qed.

(** The second point of a segment. *)
Lemma two_points_ok x1 y1 x2 y2 m : one_ok x1 y1 m -> x1 < x2 -> 0 <= y1 <= max_y -> 0 <= y2 <= max_y ->
  let p1 := upper_point epsilon x2 y2 in
  let p2 := lower_point epsilon x2 y2 in
  hulls_ok (ups [(x1, y1); (x2, y2)]) (los [(x1, y1); (x2, y2)])
    (mkModel (lower m ++ [p2]) (upper m ++ [p1]) (first_x m) (last_x m) (lower_start m) (upper_start m) 2 (r0 m) (r1 m) p2 p1).
Proof.
  intros (-> & -> & -> & -> & -> & ->) Hx Hy1 Hy2 p1 p2. pose proof (bar_order x1 y1 Hy1) as B1. pose proof (bar_order x2 y2 Hy2) as B2.
  set (q1 := upper_point epsilon x1 y1) in *. set (q2 := lower_point epsilon x1 y1) in *. fold p1 p2 in B2.
  assert (Hpx : px q1 = x1 /\ px q2 = x1 /\ px p1 = x2 /\ px p2 = x2) by done. destruct Hpx as (X1 & X2 & X3 & X4).
  assert (Hup : forall P, ups [(x1, y1); (x2, y2)] P <-> P = q1 \/ P = p1).
  { intros P. unfold ups. split; [intros (x & y & Hin & ->); rewrite !elem_of_cons, elem_of_nil in Hin; 
      destruct Hin as [?|[?|?]]; simplify_eq; [by left|by right|done]|].
    intros [->| ->]; [exists x1, y1|exists x2, y2]; rewrite !elem_of_cons; auto. }
  assert (Hlo : forall P, los [(x1, y1); (x2, y2)] P <-> P = q2 \/ P = p2).
  { intros P. unfold los. split; [intros (x & y & Hin & ->); rewrite !elem_of_cons, elem_of_nil in Hin; 
      destruct Hin as [?|[?|?]]; simplify_eq; [by left|by right|done]|].
    intros [->| ->]; [exists x1, y1|exists x2, y2]; rewrite !elem_of_cons; auto. }
  assert (Hj : forall j, 0 <= j < 2 -> j = 0 \/ j = 1) by lia.
  apply (hulls_ok_iff (fun P => P = q1 \/ P = p1) _ (fun P => P = q2 \/ P = p2)); [by intros; rewrite Hup|by intros; rewrite Hlo|].
  constructor; cbn [r0 r1 r2 r3 upper lower upper_start lower_start app].
  - auto.
  - lia.
  - constructor; unfold zlen; cbn [length]; [lia| |lia]. intros j ??. replace j with 0 by lia. change (px q1 < px p1). lia.
  - constructor; unfold zlen; cbn [length]; [lia| |lia]. intros j ??. replace j with 0 by lia. change (px q2 < px p2). lia.
  - intros j [->| ->]%Hj; [by left|by right].
  - intros j [->| ->]%Hj; [by left|by right].
  - split; [cbn; lia|]. unfold E, ev, through. cbn [lp lq lr]. split; (intros P [->| ->]); nia.
  - split; [cbn; lia|]. unfold E, ev, through. cbn [lp lq lr]. split; (intros P [->| ->]); nia.
  - intros l Hq H1 H2. split; [done|]. split.
    + intros P [->| ->]; [apply (H1 0)|apply (H1 1)]; unfold zlen; cbn; lia.
    + intros P [->| ->]; [apply (H2 0)|apply (H2 1)]; unfold zlen; cbn; lia.
Qed.

(** Later points: accepted exactly if some line still fits. *)
Lemma add_point_many pts m x y : hulls_ok (ups pts) (los pts) m -> 2 <= points_in_hull m ->
  (forall x' y', (x', y') ∈ pts -> x' < x) -> last_x m < x -> ranks_ok (pts ++ [(x, y)]) ->
  exists m' b, add_point epsilon m x y = Some (m', b) /\ last_x m' = x /\
    if b then hulls_ok (ups (pts ++ [(x, y)])) (los (pts ++ [(x, y)])) m' /\ points_in_hull m' = points_in_hull m + 1
    else points_in_hull m' = 0 /\ forall l, ~ fits epsilon l (pts ++ [(x, y)]).
Proof.
  intros Hok Hn Hx Hlast Hr. destruct (Hr x y ltac:(apply elem_of_app; right; constructor)) as [Hx64 Hyr]. pose proof (rank_range y Hyr) as Hy.
  assert (Hrp : ranks_ok pts) by (intros x' y' Hin; apply Hr, elem_of_app; by left).
  pose proof (upper_small x y Hx64 Hyr) as HsN. pose proof (lower_small x y Hx64 Hyr) as HsL.
  assert (Hsu : forall P, ups pts P -> small P) by (intros P; by apply ups_small). assert (Hsl : forall P, los pts P -> small P) by (intros P; by apply los_small).
  pose proof (bar_order x y Hy) as Hbar. unfold add_point.
  destruct (Z.leb_spec x (last_x m)); [lia|]. rewrite andb_false_r. cbn [points_in_hull set_last r0 r1 r2 r3].
  destruct (Z.eqb_spec (points_in_hull m) 0), (Z.eqb_spec (points_in_hull m) 1); try lia.
  set (N := upper_point epsilon x y) in *. set (L := lower_point epsilon x y) in *. 
  assert (Hup : forall P, ups pts P -> px P < px N) by (intros P (x' & y' & Hin & ->); by apply (Hx _ _ Hin)).
  assert (Hlo : forall P, los pts P -> px P < px N) by (intros P (x' & y' & Hin & ->); by apply (Hx _ _ Hin)).
  pose proof Hok as [(C0 & C1 & C2 & C3) [L1 L2] _ _ _ _ F1 F2 _]. rewrite slope_lt_ev', slope_gt_ev' by auto. cbn [mbind option_bind].
  destruct (Z.ltb_spec 0 (ev (through (r0 m) (r2 m)) N)) as [Ho1|Ho1]; cbn [orb].
  { eexists _, false. split; [done|]. split; [done|]. split; [done|]. intros l Hf.
    apply fits_feasible, feasible_snoc in Hf as (Hf & HN & _). fold N in HN.
    enough (E (-1) l N < 0) by (rewrite E_flip in *; lia). apply feasible_flip in Hf.
    apply (corner_excluded (-1) ltac:(by right) (los pts) (ups pts) N (r0 m) (r2 m) Hlo C0 C2 L1); [unfold E; lia|done]. }
  destruct (Z.ltb_spec (ev (through (r1 m) (r3 m)) L) 0) as [Ho2|Ho2].
  { eexists _, false. split; [done|]. split; [done|]. split; [done|]. intros l Hf.
    apply fits_feasible, feasible_snoc in Hf as (Hf & _ & HL). fold L in HL.
    enough (E 1 l L < 0) by lia.
    apply (corner_excluded 1 ltac:(by left) (ups pts) (los pts) L (r1 m) (r3 m) Hup C1 C3 L2); [unfold E; lia|done]. }
  assert (Hok' : hulls_ok (ups pts) (los pts) (set_last m x)) by (by apply (hulls_ok_same _ _ m)).
  destruct (first_block_ok (ups pts) (los pts) (set_last m x) N L (conj eq_refl Hbar) Hsu Hsl HsN Hok' Hup Hlo)
    as (m1 & E1 & Hok1 & Er0 & Er2 & Hmax & Hfirst & Ef & El & Ep); [unfold E; cbn [r0 r2 set_last]; lia|unfold E; cbn [r1 r3 set_last]; lia|].
  unfold first_block in E1. cbn [r1 r3 set_last] in E1. inv_bind E1. match goal with H : slope_lt _ _ = Some _ |- _ => rewrite H end. cbn [mbind option_bind]. rewrite E1. cbn [mbind option_bind].
  assert (Hsu1 : forall P, ups pts P \/ P = N -> small P) by (intros P [HP| ->]; auto).
  destruct (second_block_ok _ _ m1 L Hsu1 Hsl HsL Hok1 Hlo) as (m2 & E2 & Hok2 & Ef2 & El2 & Ep2); [|done|done|].
  { intros P [HP| ->]; [left; by apply Hup|right; done]. }
  unfold second_block in E2. rewrite Er0, Er2 in E2. cbn [r0 r2 set_last] in E2. rewrite Er0. cbn [r0 set_last]. inv_bind E2. match goal with H : slope_gt _ _ = Some _ |- _ => rewrite H end. cbn [mbind option_bind]. rewrite E2. cbn [mbind option_bind].
  eexists _, true. split; [done|]. cbn [last_x set_count points_in_hull]. split; [by rewrite El2, El|]. split; [|rewrite Ep2, Ep; done].
  apply (hulls_ok_same _ _ m2); try done.
  apply (hulls_ok_iff _ _ _ _ _) with (3 := Hok2); intros P; by rewrite ?ups_snoc, ?los_snoc.
Qed.

Lemma fits_one x y : 0 <= y <= max_y -> fits epsilon (mkLine 0 1 (py (lower_point epsilon x y))) [(x, y)].
Proof.
  intros Hy. pose proof (bar_order x y Hy). split; [done|]. intros x' y' [= -> ->]%list_elem_of_singleton.
  unfold ev. cbn [lp lq lr]. lia.
Qed.

(** [add_point] on a segment of any size. *)
Lemma add_point_spec pts m x y : segment_ok pts m -> ranks_ok (pts ++ [(x, y)]) ->
  (forall x' y', (x', y') ∈ pts -> x' < x) ->
  exists m' b, add_point epsilon m x y = Some (m', b) /\
    if b then segment_ok (pts ++ [(x, y)]) m' /\ exists l, fits epsilon l (pts ++ [(x, y)])
    else points_in_hull m' = 0 /\ forall l, ~ fits epsilon l (pts ++ [(x, y)]).
Proof.
  intros (Hcnt & Hlast & Hok) Hr Hx. assert (Hy : 0 <= y <= max_y) by (apply rank_range, (Hr x y); rewrite elem_of_app, list_elem_of_singleton; auto).
  destruct pts as [|[x1 y1] [|[x2 y2] pts]].
  - exists (mkModel [lower_point epsilon x y] [upper_point epsilon x y] x x 0 0 1 (upper_point epsilon x y) (lower_point epsilon x y)
      (r2 m) (r3 m)), true. unfold add_point. change (points_in_hull m = 0) in Hcnt. cbn [points_in_hull set_last]. rewrite Hcnt.
    split; [done|]. split; [|eexists; by apply fits_one]. split; [done|]. split; [by intros ?? [= -> ->]|done].
  - change (points_in_hull m = 1) in Hcnt. specialize (Hlast x1 y1 eq_refl). specialize (Hx x1 y1 ltac:(constructor)).
    assert (Hy1 : 0 <= y1 <= max_y) by (apply rank_range, (Hr x1 y1); constructor). pose proof (two_points_ok x1 y1 x y m Hok Hx Hy1 Hy) as H2.
    eexists _, true. unfold add_point. destruct (Z.leb_spec x (last_x m)); [lia|]. rewrite andb_false_r.
    cbn [points_in_hull set_last lower upper first_x last_x lower_start upper_start r0 r1]. rewrite Hcnt. cbn [Z.eqb Pos.eqb]. split; [done|].
    split; [|exists (through (r1 m) (upper_point epsilon x y)); apply fits_feasible; apply (ho_max _ _ _ H2)].
    split; [done|]. split; [by intros ?? [= -> ->]|]. by apply (hulls_ok_same _ _ _ _) with (9 := H2).
  - set (old := (x1, y1) :: (x2, y2) :: pts) in *. change (hulls_ok (ups old) (los old) m) in Hok.
    assert (Hold : last_x m < x).
    { destruct (last old) as [[x' y']|] eqn:El; [|by apply last_None in El]. rewrite (Hlast x' y' eq_refl). apply (Hx x' y').
      by apply last_Some_elem_of in El. }
    destruct (add_point_many old m x y Hok) as (m' & b & E1 & E2 & Hb); [rewrite Hcnt; unfold zlen, old; simpl; lia|done|done|done|].
    exists m', b. split; [done|]. destruct b; [|done]. destruct Hb as [Hb Hc].
    split; [|exists (through (r1 m') (r3 m')); apply fits_feasible; apply (ho_max _ _ _ Hb)].
    split; [rewrite Hc, Hcnt, zlen_app; done|]. split; [|exact Hb].
    intros x' y'. rewrite last_snoc. by intros [= -> ->].
Qed.

(** C12: [add_point] is exact.  On a segment built by earlier calls, for 64-bit keys
    and ranks up to [2^62 - epsilon], it never throws for an increasing key, none of its
    [__int128] operations overflows, and it accepts the point if and only if some line
    passes through the error bars (the ranks plus and minus [epsilon], cut off at 0) of
    all points of the segment including the new one; when it accepts, the line through
    the corners [rectangle[1]] and [rectangle[3]] (if there are two points) is such a
    line. *)
Theorem add_point_exact pts m x y : segment_ok pts m -> ranks_ok (pts ++ [(x, y)]) ->
  (forall x' y', (x', y') ∈ pts -> x' < x) ->
  exists m' b, add_point epsilon m x y = Some (m', b) /\
    (b = true <-> exists l, fits epsilon l (pts ++ [(x, y)])) /\
    (b = true -> segment_ok (pts ++ [(x, y)]) m' /\
       (1 <= zlen pts -> fits epsilon (through (r1 m') (r3 m')) (pts ++ [(x, y)]))).
Proof.
  intros Hok Hr Hx. destruct (add_point_spec pts m x y Hok Hr Hx) as (m' & b & E1 & Hb). exists m', b. split; [done|].
  destruct b.
  - destruct Hb as [Hok' Hf]. split; [done|]. intros _. split; [done|]. intros Hn. destruct Hok' as (_ & _ & Hok').
    destruct pts as [|p1 pts]; [done|]. destruct p1 as [x1 y1]. apply fits_feasible.
    destruct pts as [|[x2 y2] pts]; [apply (ho_max _ _ _ Hok')|]. apply (ho_max _ _ _ Hok').
  - split; [|done]. split; [done|]. intros [l Hl]. by destruct Hb as [_ Hb]; destruct (Hb l).
Qed.
End Segment.

(** *** Limits *)

(** With ranks near [2^64] a product of the third call does not fit in [__int128]. *)
Example add_point_overflows :
  ('(m, _) ← add_point 1 new_model 0 0; '(m, _) ← add_point 1 m (2 ^ 64 - 2) (2 ^ 64 - 2); Some (points_in_hull m, add_point 1 m (2 ^ 64 - 1) 0)) = Some (2, None).
Proof. vm_compute. reflexivity. Qed.

(** The line [y = x - 8] is within 10 of all these points, but is not through the error
    bar of the first, which ends at 0: the fourth point is rejected. *)
Example clipped_bar :
  (foldl (fun r p => '(m, acc) ← r; '(m, b) ← add_point 10 m p.1 p.2; Some (m, acc ++ [b])) (Some (new_model, [])) [(0, 0); (16, 1); (19, 4); (215, 200)]) ≫= (fun r => Some r.2)
    = Some [true; true; true; false] /\
  Forall (fun p => Z.abs (p.1 - 8 - p.2) <= 10) [(0, 0); (16, 1); (19, 4); (215, 200)].
Proof. split; [vm_compute; reflexivity|]. repeat constructor; cbn; lia. Qed.
