(* ===== verification/PlaSegment.v ===== *)
(** * Segmentation (competitor/pgm/src/piecewise_linear_model.hpp, benchmark/pgm_metric.h)

    [make_segmentation] cuts a sequence of points with increasing keys greedily into
    segments, each of which one line approximates; [PGM_metric] counts the segments
    of a data set.  Both are proved optimal: no division of the points into
    consecutive groups, each with a line through the error bars of its points, has
    fewer groups.  The bars are those of [add_point], cut off at rank 0; an example
    below shows that lines within [epsilon] of the ranks can do with fewer. *)

From S2P Require Import Prelude Words Floats PlaModel.
From Stdlib Require Import SpecFloat.
From stdpp Require Import list sorting.
Local Open Scope Z_scope.
Local Open Scope cxx_scope.

(** ** Data *)

Record CanonicalSegment := mkSegment {
  c0 : Point;
  c1 : Point;
  c2 : Point;
  c3 : Point;
  first : Z
}.

(** ** Operations *)

Definition get_segment (m : Model) : CanonicalSegment :=
  if points_in_hull m =? 1 then mkSegment (r0 m) (r1 m) (r0 m) (r1 m) (first_x m)
  else mkSegment (r0 m) (r1 m) (r2 m) (r3 m) (first_x m).

(** The loop over the points after the first; [p] is the last key that was added. *)
Fixpoint segment_loop (epsilon : Z) (m : Model) (p : Z) (rest : list (Z * Z)) (out : list CanonicalSegment) (c : Z)
    : option (Model * list CanonicalSegment * Z) :=
  match rest with
  | [] => Some (m, out, c)
  | (x, y) :: rest =>
      if x =? p then segment_loop epsilon m p rest out c
      else
        '(m', ok) ← add_point epsilon m x y;
        if (ok : bool) then segment_loop epsilon m' x rest out c
        else
          let out := out ++ [get_segment m'] in
          '(m', _) ← add_point epsilon m' x y;
          segment_loop epsilon m' x rest out (c + 1)
  end.

(** Returns what was passed to [out] and the number of segments. *)
Definition make_segmentation (epsilon : Z) (points : list (Z * Z)) : option (list CanonicalSegment * Z) :=
  match points with
  | [] => Some ([], 0)
  | (x, y) :: rest =>
      '(m, _) ← add_point epsilon new_model x y;
      '(m, out, c) ← segment_loop epsilon m x rest [] 0;
      Some (out ++ [get_segment m], c + 1)
  end.

(** [(long double) slope]. *)
Definition slope_value (s : Slope) : f80 := f80_div (f80_of_Z (dy s)) (f80_of_Z (dx s)).

Definition one_point (r0 r1 r2 r3 : Point) : bool :=
  (px r0 =? px r2) && (py r0 =? py r2) && (px r1 =? px r3) && (py r1 =? py r3).

(** The intercept of the line through two corners at [origin], rounded; computed in
    [__int128]. *)
Definition intercept_at (r1 r3 : Point) (origin : Z) : option Z :=
  let slope := point_minus r3 r1 in
  intercept_n ← int128 (dy slope * (origin - px r1));
  let intercept_d := dx slope in
  let rounding_term := Z.quot ((if xorb (intercept_n <? 0) (intercept_d <? 0) then -1 else 1) * intercept_d) 2 in
  sum ← int128 (intercept_n + rounding_term);
  if intercept_d =? 0 then None else int128 (Z.quot sum intercept_d + py r1).

(** The branch for integral keys and ranks. *)
Definition get_floating_point_segment (r0 r1 r2 r3 : Point) (origin : Z) : option (f80 * Z) :=
  if one_point r0 r1 r2 r3 then Some (f80_of_Z 0, wrap64 (py r0 + py r1) / 2)
  else intercept ← intercept_at r1 r3 origin; Some (slope_value (point_minus r3 r1), intercept).

(** [(int64_t)] of a floating-point number: undefined out of range. *)
Definition f80_to_i64 (x : f80) : option Z :=
  z ← f64_trunc x; if (- 2 ^ 63 <=? z) && (z <? 2 ^ 63) then Some z else None.

(** The squared error of one point; the subtraction wraps around, its square is right. *)
Definition squared_error (slope : f80) (intercept first_x : Z) (point : Z * Z) : option Z :=
  p ← f80_to_i64 (f80_mul slope (f80_of_Z (wrap64 (point.1 - first_x))));
  let predict_pos := wrap64 (p + intercept) in
  let val := wrap64 (predict_pos - point.2) in
  Some (wrap64 (val * val)).

(** The metric uses a copy of the model class that also keeps the last rank and the
    points of the segment; its hull is that of [PlaModel]. *)
Record MetricModel := mkMetric {
  hull : Model;
  last_rank : Z;
  points : list (Z * Z)
}.

Definition new_metric : MetricModel := mkMetric new_model 0 [].

(** The copy of [add_point]: a rejected point leaves [points] alone. *)
Definition metric_add_point (epsilon : Z) (mm : MetricModel) (x y : Z) : option (MetricModel * bool) :=
  '(m, ok) ← add_point epsilon (hull mm) x y;
  Some (mkMetric m y (if ok : bool then points mm ++ [(x, y)] else points mm), ok).

Definition metric_reset (mm : MetricModel) : MetricModel := mkMetric (reset (hull mm)) (last_rank mm) [].

Definition get_mse_metric (mm : MetricModel) : option f64 :=
  let m := hull mm in
  '(slope, intercept) ← get_floating_point_segment (r0 m) (r1 m) (r2 m) (r3 m) (first_x m);
  errors ← mapM (squared_error slope (wrap64 intercept) (first_x m)) (points mm);
  let sum := foldl (fun sum e => f80_add sum (f80_of_Z e)) (f80_of_Z 0) errors in
  Some (f64_of_f80 (f80_div sum (f80_of_Z (zlen (points mm))))).

(** The loop of [PGM_metric] over the sorted keys: [i] is the rank of the next one,
    [mse] whether the caller asked for the error. *)
Fixpoint metric_loop (epsilon : Z) (mse : bool) (segment : MetricModel) (i : Z) (keys : list Z)
    (metric : Z) (mse_sum : f64) : option (Z * f64) :=
  match keys with
  | [] => Some (metric, mse_sum)
  | x :: keys =>
      '(segment, ok) ← metric_add_point epsilon segment x i;
      if (ok : bool) then metric_loop epsilon mse segment (i + 1) keys metric mse_sum
      else
        mse_sum ← (if mse then mse_segment ← get_mse_metric segment; Some (f64_add mse_sum mse_segment) else Some mse_sum);
        '(segment, _) ← metric_add_point epsilon (metric_reset segment) x i;
        metric_loop epsilon mse segment (i + 1) keys (metric + 1) mse_sum
  end.

(** Returns the number of segments and, if asked for, the mean of the errors. *)
Definition PGM_metric (keys : list Z) (error_bound : Z) (mse : bool) : option (Z * option f64) :=
  '(metric, mse_sum) ← metric_loop (wrap64 error_bound) mse new_metric 0 (merge_sort Z.le keys) 1 f64_zero;
  Some (metric, if mse then Some (f64_div mse_sum (f64_of_Z metric)) else None).

(** ** Divisions into groups *)

Definition fits_some (epsilon : Z) (pts : list (Z * Z)) : Prop := exists l, fits epsilon l pts.

Lemma fits_sub epsilon (a b : list (Z * Z)) : (forall p, p ∈ a -> p ∈ b) -> fits_some epsilon b -> fits_some epsilon a.
Proof. intros Hs [l [Hq Hf]]. exists l. split; [done|]. intros x y Hin. apply Hf. by apply Hs. Qed.

(** Dropping points at the front costs no group. *)
Lemma trim_groups epsilon groups a b : concat groups = a ++ b -> Forall (fits_some epsilon) groups ->
  exists groups', concat groups' = b /\ Forall (fits_some epsilon) groups' /\ (length groups' <= length groups)%nat.
Proof.
  revert a. induction groups as [|g groups IH]; intros a Hc Hf; simpl in Hc.
  { symmetry in Hc. apply app_nil in Hc as [-> ->]. by exists []. }
  apply Forall_cons in Hf as [Hg Hf]. destruct (decide (length a <= length g)%nat) as [Hle|Hgt].
  - exists (drop (length a) g :: groups). simpl. split; [|split; [|lia]].
    + apply (f_equal (drop (length a))) in Hc. rewrite drop_app_length in Hc. rewrite <-Hc. by rewrite drop_app_le.
    + constructor; [|done]. eapply fits_sub; [|done]. intros p Hp.
      rewrite <-(take_drop (length a) g). apply elem_of_app. by right.
  - assert (Hsplit : exists a', a = g ++ a' /\ concat groups = a' ++ b).
    { exists (drop (length g) a). split.
      - rewrite <-(take_drop (length g) a) at 1. f_equal. apply (f_equal (take (length g))) in Hc.
        rewrite take_app_length in Hc. rewrite take_app_le in Hc by lia. done.
      - apply (f_equal (drop (length g))) in Hc. rewrite drop_app_length in Hc. rewrite drop_app_le in Hc by lia. done. }
    destruct Hsplit as (a' & -> & Hc'). destruct (IH a' Hc' Hf) as (g' & H1 & H2 & H3). exists g'. simpl. auto with lia.
Qed.

(** When [cur] cannot be extended by [p], a group that starts with [cur] is needed. *)
Lemma greedy_step epsilon groups cur p rest : concat groups = cur ++ p :: rest -> Forall (fits_some epsilon) groups ->
  ~ fits_some epsilon (cur ++ [p]) ->
  exists groups', concat groups' = p :: rest /\ Forall (fits_some epsilon) groups' /\ (length groups' < length groups)%nat.
Proof.
  intros Hc Hf Hno. destruct groups as [|g groups]; [by destruct cur|]. simpl in Hc. apply Forall_cons in Hf as [Hg Hf].
  destruct (decide (length g <= length cur)%nat) as [Hle|Hgt].
  - assert (Hc' : concat groups = drop (length g) cur ++ p :: rest).
    { apply (f_equal (drop (length g))) in Hc. rewrite drop_app_length in Hc. rewrite drop_app_le in Hc by lia. done. }
    destruct (trim_groups epsilon groups _ _ Hc' Hf) as (g' & H1 & H2 & H3). exists g'. simpl. auto with lia.
  - destruct Hno. eapply fits_sub; [|exact Hg]. intros q Hq.
    apply (f_equal (take (length (cur ++ [p])))) in Hc. replace (cur ++ p :: rest) with ((cur ++ [p]) ++ rest) in Hc by (by rewrite <-app_assoc).
    rewrite take_app_length, take_app_le in Hc by (rewrite length_app; simpl; lia). rewrite <-Hc in Hq.
    rewrite <-(take_drop (length (cur ++ [p])) g). apply elem_of_app. by left.
Qed.

(** A division into the least number of groups. *)
Definition optimal (epsilon : Z) (pts : list (Z * Z)) (groups : list (list (Z * Z))) : Prop :=
  concat groups = pts /\ Forall (fits_some epsilon) groups /\
  forall groups', concat groups' = pts -> Forall (fits_some epsilon) groups' -> (length groups <= length groups')%nat.

(** The greedy choice is optimal. *)
Lemma optimal_cons epsilon cur p rest groups : fits_some epsilon cur -> ~ fits_some epsilon (cur ++ [p]) ->
  optimal epsilon (p :: rest) groups -> optimal epsilon (cur ++ p :: rest) (cur :: groups).
Proof.
  intros Hcur Hno (Hc & Hf & Hmin). split; [simpl; by rewrite Hc|]. split; [by constructor|].
  intros groups' Hc' Hf'. destruct (greedy_step epsilon groups' cur p rest Hc' Hf' Hno) as (g & H1 & H2 & H3).
  specialize (Hmin g H1 H2). simpl. lia.
Qed.

Lemma optimal_one epsilon pts : pts <> [] -> fits_some epsilon pts -> optimal epsilon pts [pts].
Proof.
  intros Hne Hf. split; [simpl; by rewrite app_nil_r|]. split; [by constructor|].
  intros [|g groups'] Hc _; [by simpl in Hc; subst|]. simpl. lia.
Qed.

(** ** The greedy loops *)

Section Greedy.
Context (epsilon : Z) (Heps : 0 < epsilon <= max_y).

(** What a canonical segment says about its points: where it starts, and that two of
    its corners are ends of error bars and the line through them passes through all bars. *)
Definition describes (cs : CanonicalSegment) (g : list (Z * Z)) : Prop :=
  (exists x y, head g = Some (x, y) /\ first cs = x) /\
  (if decide (length g = 1%nat) then
     exists x y, g = [(x, y)] /\ c0 cs = upper_point epsilon x y /\ c1 cs = lower_point epsilon x y /\ c2 cs = c0 cs /\ c3 cs = c1 cs
   else fits epsilon (through (c1 cs) (c3 cs)) g /\ los epsilon g (c1 cs) /\ ups epsilon g (c3 cs)).

(** The keys of [pts] increase. *)
Definition keys_increase (pts : list (Z * Z)) : Prop := StronglySorted (fun p q => p.1 < q.1) pts.

Lemma increase_app a p b : keys_increase (a ++ p :: b) -> forall x y, (x, y) ∈ a -> x < p.1.
Proof.
  induction a as [|q a IH]; intros Hs x y Hin; [by apply elem_of_nil in Hin|]. apply StronglySorted_inv in Hs as [Hs Hall].
  apply elem_of_cons in Hin as [<-|Hin]; [|by eapply IH]. rewrite List.Forall_forall in Hall. apply (Hall p).
  apply list_elem_of_In, elem_of_app. right. constructor.
Qed.

Lemma increase_suffix a b : keys_increase (a ++ b) -> keys_increase b.
Proof. induction a as [|q a IH]; [done|]. intros Hs. apply StronglySorted_inv in Hs as [Hs _]. auto. Qed.

(** What [add_point] does not change. *)
Lemma add_point_fields m x y m' b : add_point epsilon m x y = Some (m', b) -> points_in_hull m <> 0 ->
  first_x m' = first_x m /\
  (b = false -> points_in_hull m <> 1 /\ r0 m' = r0 m /\ r1 m' = r1 m /\ r2 m' = r2 m /\ r3 m' = r3 m).
Proof.
  intros Hadd Hne. unfold add_point in Hadd. destruct (_ && _) in Hadd; [done|].
  cbn [points_in_hull set_last r0 r1 r2 r3 first_x] in Hadd. destruct (Z.eqb_spec (points_in_hull m) 0); [done|].
  destruct (Z.eqb_spec (points_in_hull m) 1); [by simplify_eq|].
  inv_bind Hadd. inv_bind Hadd. destruct (_ || _) in Hadd; [by simplify_eq|].
  inv_bind Hadd. inv_bind Hadd. inv_bind Hadd. inv_bind Hadd. injection Hadd as <- <-. split; [|done]. cbn [first_x set_count].
  assert (H1 : first_x x3 = first_x m) by (destruct x2; [|by simplify_eq]; unfold update_max in E2; do 3 inv_bind E2; by simplify_eq).
  destruct x4; [|by simplify_eq]. unfold update_min in E4. do 3 inv_bind E4. by simplify_eq.
Qed.

(** The first key of the segment. *)
Definition starts_at (m : Model) (cur : list (Z * Z)) : Prop := exists x y, head cur = Some (x, y) /\ first_x m = x.

Lemma get_segment_describes m cur : segment_ok epsilon cur m -> starts_at m cur -> describes (get_segment m) cur.
Proof.
  intros (Hn & _ & Hok) (x & y & Hh & Hf). destruct cur as [|[x1 y1] [|[x2 y2] cur]]; [done| |].
  - change (points_in_hull m = 1) in Hn. unfold get_segment. rewrite Hn. cbn [Z.eqb Pos.eqb]. simpl in Hh. simplify_eq.
    split; [by exists (first_x m), y|]. destruct Hok as (_ & _ & _ & _ & E0 & E1). simpl. exists (first_x m), y. by rewrite E0, E1.
  - unfold get_segment. assert (points_in_hull m <> 1) by (rewrite Hn; unfold zlen; simpl; lia).
    destruct (Z.eqb_spec (points_in_hull m) 1); [done|]. split; [exists x, y; done|]. simpl. destruct (ho_corners _ _ _ Hok) as (_ & C1 & _ & C3). split; [apply fits_feasible; apply (ho_max _ _ _ Hok)|done].
Qed.

(** The segment that is handed out when a point was rejected. *)
Lemma rejected_describes m m' x y cur : segment_ok epsilon cur m -> starts_at m cur ->
  add_point epsilon m x y = Some (m', false) -> points_in_hull m' = 0 -> cur <> [] -> describes (get_segment m') cur.
Proof.
  intros Hok Hst Hadd H0 Hne. destruct Hok as (Hn & Hl & Hok).
  assert (Hp : points_in_hull m <> 0) by (rewrite Hn; destruct cur; [done|unfold zlen; simpl; lia]).
  destruct (add_point_fields m x y m' false Hadd Hp) as [Hf Hr]. destruct (Hr eq_refl) as (H1 & E0 & E1 & E2 & E3).
  pose proof (get_segment_describes m cur (conj Hn (conj Hl Hok)) Hst) as Hd.
  unfold get_segment in *. rewrite H0, E0, E1, E2, E3, Hf. destruct (Z.eqb_spec (points_in_hull m) 1); [done|]. exact Hd.
Qed.

(** A segment of one point. *)
Lemma restart_ok m x y : points_in_hull m = 0 ->
  exists m', add_point epsilon m x y = Some (m', true) /\ segment_ok epsilon [(x, y)] m' /\ starts_at m' [(x, y)].
Proof.
  intros H0. unfold add_point. rewrite H0. cbn [Z.ltb andb points_in_hull set_last]. rewrite H0. cbn [Z.eqb Z.compare].
  eexists. split; [done|]. split; [|by exists x, y]. split; [done|]. split; [by intros ?? [= -> ->]|done].
Qed.

(** One round of the greedy loop: either the segment grows, or it is complete and the
    next one starts. *)
Lemma greedy_round m cur x y rest : segment_ok epsilon cur m -> starts_at m cur -> cur <> [] ->
  keys_increase (cur ++ (x, y) :: rest) -> ranks_ok epsilon (cur ++ (x, y) :: rest) ->
  exists m' b, add_point epsilon m x y = Some (m', b) /\
    if b then segment_ok epsilon (cur ++ [(x, y)]) m' /\ starts_at m' (cur ++ [(x, y)]) /\ fits_some epsilon (cur ++ [(x, y)])
    else points_in_hull m' = 0 /\ ~ fits_some epsilon (cur ++ [(x, y)]) /\ describes (get_segment m') cur.
Proof.
  intros Hok Hst Hne Hinc Hr.
  assert (Hr' : ranks_ok epsilon (cur ++ [(x, y)])).
  { intros x' y' Hin. apply (Hr x' y'). revert Hin. rewrite !elem_of_app, !elem_of_cons, elem_of_nil. tauto. }
  destruct (add_point_spec epsilon Heps cur m x y Hok Hr') as (m' & b & Hadd & Hb).
  { intros x' y'. apply (increase_app cur (x, y) rest Hinc). }
  exists m', b. split; [done|]. destruct b.
  - destruct Hb as [Hok' Hf]. split; [done|]. split; [|done]. destruct Hst as (x0 & y0 & Hh & Hfx). exists x0, y0.
    split; [by destruct cur|]. destruct Hok as (Hn & _). rewrite <-Hfx.
    apply (add_point_fields m x y m' true Hadd). rewrite Hn. destruct cur; [done|unfold zlen; simpl; lia].
  - destruct Hb as [H0 Hno]. split; [done|]. split; [intros [l Hl]; by destruct (Hno l)|]. by eapply rejected_describes.
Qed.

(** ** make_segmentation *)

(** The points with a new key, from the key [p] on. *)
Fixpoint new_keys (p : Z) (rest : list (Z * Z)) : list (Z * Z) :=
  match rest with
  | [] => []
  | (x, y) :: rest => if x =? p then new_keys p rest else (x, y) :: new_keys x rest
  end.

(** The first point of every key. *)
Definition first_points (points : list (Z * Z)) : list (Z * Z) :=
  match points with
  | [] => []
  | (x, y) :: rest => (x, y) :: new_keys x rest
  end.

Lemma segment_loop_spec rest : forall m p cur out c, segment_ok epsilon cur m -> starts_at m cur -> cur <> [] ->
  fits_some epsilon cur -> keys_increase (cur ++ new_keys p rest) -> ranks_ok epsilon (cur ++ new_keys p rest) ->
  exists m' out' groups g, segment_loop epsilon m p rest out c = Some (m', out ++ out', c + zlen out') /\
    optimal epsilon (cur ++ new_keys p rest) (groups ++ [g]) /\ Forall2 describes out' groups /\ describes (get_segment m') g.
Proof.
  induction rest as [|[x y] rest IH]; intros m p cur out c Hok Hst Hne Hfit Hinc Hr; cbn [segment_loop new_keys] in *.
  { exists m, [], [], cur. rewrite !app_nil_r, Z.add_0_r. split; [done|]. split; [by apply optimal_one|].
    split; [constructor|by apply get_segment_describes]. }
  destruct (Z.eqb_spec x p) as [->|Hxp]; [by apply IH|].
  destruct (greedy_round m cur x y _ Hok Hst Hne Hinc Hr) as (m' & [] & -> & Hb); cbn [mbind option_bind].
  - destruct Hb as (Hok' & Hst' & Hfit'). replace (cur ++ (x, y) :: new_keys x rest) with ((cur ++ [(x, y)]) ++ new_keys x rest) in *
      by (by rewrite <-app_assoc). apply IH; try done. by destruct cur.
  - destruct Hb as (H0 & Hno & Hd). assert (Hy : 0 <= y <= max_y) by (apply (rank_range epsilon Heps), (Hr x y), elem_of_app; right; constructor).
    destruct (restart_ok m' x y H0) as (m1 & -> & Hok1 & Hst1). cbn [mbind option_bind].
    destruct (IH m1 x [(x, y)] (out ++ [get_segment m']) (c + 1) Hok1 Hst1) as (m2 & out2 & gs & g & E2 & Hopt & Hds & Hdg).
    + done.
    + eexists. by apply fits_one.
    + by eapply increase_suffix.
    + intros x' y' Hin. apply (Hr x' y'), elem_of_app. right. exact Hin.
    + exists m2, (get_segment m' :: out2), (cur :: gs), g. rewrite E2, <-app_assoc. split; [f_equal; f_equal; unfold zlen; simpl; lia|].
      split; [by apply optimal_cons|]. split; [by constructor|done].
Qed.

Lemma make_segmentation_spec points : points <> [] ->
  keys_increase (first_points points) -> ranks_ok epsilon (first_points points) ->
  exists out c groups, make_segmentation epsilon points = Some (out, c) /\ c = zlen out /\
    Forall2 describes out groups /\ optimal epsilon (first_points points) groups.
Proof.
  intros Hne Hinc Hr. destruct points as [|[x y] rest]; [done|]. cbn [first_points] in *. unfold make_segmentation.
  assert (Hy : 0 <= y <= max_y) by (apply (rank_range epsilon Heps), (Hr x y); constructor).
  destruct (restart_ok new_model x y eq_refl) as (m & -> & Hok & Hst). cbn [mbind option_bind].
  destruct (segment_loop_spec rest m x [(x, y)] [] 0 Hok Hst) as (m' & out & gs & g & E1 & Hopt & Hds & Hdg); [done| |done|done|].
  { eexists. by apply fits_one. }
  rewrite E1. cbn [mbind option_bind app]. exists (out ++ [get_segment m']), (zlen out + 1), (gs ++ [g]).
  split; [done|]. split; [by rewrite zlen_app|]. split; [|done]. apply Forall2_app; [done|]. by constructor.
Qed.

(** C11: [make_segmentation] is correct and optimal for the error bars of the model.  For
    any points whose 64-bit keys do not decrease (equal keys are represented by their
    first point) and whose ranks are at most [2^62 - epsilon] it returns as many canonical
    segments as it says; they describe consecutive groups that together are exactly those
    points, the line of each segment passes through the error bar of every point of its
    group (the rank plus and minus [epsilon], cut off at 0), and no division into such
    groups has fewer groups. *)
Theorem make_segmentation_optimal points : points <> [] ->
  keys_increase (first_points points) -> ranks_ok epsilon (first_points points) ->
  exists out c groups, make_segmentation epsilon points = Some (out, c) /\ c = zlen out /\
    Forall2 describes out groups /\ optimal epsilon (first_points points) groups.
Proof. apply make_segmentation_spec. Qed.

(** ** PGM_metric *)

(** The sorted keys with their ranks. *)
Fixpoint ranked (i : Z) (keys : list Z) : list (Z * Z) :=
  match keys with
  | [] => []
  | x :: keys => (x, i) :: ranked (i + 1) keys
  end.

(** *** The error of a segment *)

(** Division rounded to the nearest integer, as [intercept_at] does it. *)
Lemma rounded_quot n d : 0 < d -> let r := Z.quot ((if n <? 0 then -1 else 1) * d) 2 in - d <= r <= d /\ Z.abs (2 * (d * Z.quot (n + r) d - n)) <= d.
Proof.
  intros Hd r. pose proof (Z.div_mod d 2 ltac:(lia)). pose proof (Z.mod_pos_bound d 2 ltac:(lia)). unfold r. destruct (Z.ltb_spec n 0) as [Hn0|Hn0].
  - replace (-1 * d) with (- d) by lia. rewrite Z.quot_opp_l, (Z.quot_div_nonneg d 2) by lia.
    replace (n + - (d / 2)) with (- (- n + d / 2)) by lia. rewrite Z.quot_opp_l, Z.quot_div_nonneg by lia.
    pose proof (Z.div_mod (- n + d / 2) d ltac:(lia)). pose proof (Z.mod_pos_bound (- n + d / 2) d ltac:(lia)). lia.
  - rewrite Z.mul_1_l, (Z.quot_div_nonneg d 2), Z.quot_div_nonneg by lia.
    pose proof (Z.div_mod (n + d / 2) d ltac:(lia)). pose proof (Z.mod_pos_bound (n + d / 2) d ltac:(lia)). lia.
Qed.

(** The integer intercept of a segment is the value of its line at the origin, rounded to
    the nearest integer. *)
Lemma intercept_at_nearest r1 r3 origin i : px r1 < px r3 -> intercept_at r1 r3 origin = Some i ->
  let d := px r3 - px r1 in
  let n := (py r3 - py r1) * (origin - px r1) in
  Z.abs (2 * (d * (i - py r1) - n)) <= d.
Proof.
  intros Hlt E d n. unfold intercept_at in E. cbn [dx dy point_minus] in E. fold d n in E. inv_bind E. apply int128_Some in E0 as ->. inv_bind E. apply int128_Some in E0 as ->.
  destruct (Z.eqb_spec d 0); [done|]. apply int128_Some in E as ->. assert (Hd : 0 < d) by lia. destruct (rounded_quot n d Hd) as [_ Hr].
  destruct (Z.ltb_spec d 0); [lia|]. rewrite xorb_false_r, Z.add_simpl_r. exact Hr.
Qed.

(** It does not overflow. *)
Lemma intercept_at_defined r1 r3 origin : small r1 -> small r3 -> px r1 < px r3 -> 0 <= origin < 2 ^ 64 -> exists i, intercept_at r1 r3 origin = Some i.
Proof.
  intros [H1 H2] [H3 H4] Hlt Ho. unfold intercept_at. cbn [dx dy point_minus]. set (d := px r3 - px r1). assert (Hd : 0 < d < 2 ^ 64) by lia.
  destruct (int128_mul (origin - px r1) (py r3 - py r1)) as [E Hn]; [lia|lia|]. rewrite (Z.mul_comm (origin - px r1)) in E, Hn. set (n := (py r3 - py r1) * _) in *. rewrite E. cbn [mbind option_bind].
  destruct (Z.ltb_spec d 0); [lia|]. rewrite xorb_false_r. destruct (rounded_quot n d ltac:(lia)) as [Hr Hnear]. set (r := Z.quot _ 2) in *.
  rewrite (int128_in (n + r)) by lia. cbn [mbind option_bind]. destruct (Z.eqb_spec d 0); [lia|].
  set (q := Z.quot (n + r) d) in *. assert (Hq : - 2 ^ 126 - 2 ^ 64 <= q <= 2 ^ 126 + 2 ^ 64) by nia.
  rewrite int128_in by lia. by eexists.
Qed.

(** A slope times a distance, when the product of the fractions is at most [2 ^ B]. *)
Lemma prediction_mag dy dx d B : 0 < dx < 2 ^ 64 -> - 2 ^ 64 < dy < 2 ^ 64 -> 0 <= d < 2 ^ 64 -> 0 <= B <= 40 -> Z.abs dy * d <= dx * 2 ^ B ->
  mag (B + 4) (f80_mul (f80_div (f80_of_Z dy) (f80_of_Z dx)) (f80_of_Z d)).
Proof.
  intros Hdx Hdy Hd HB Hle. destruct dx as [|pd|pd]; [lia| |lia].
  destruct (f80_round_pos false pd) as (m2 & E2 & Hm2); [lia|]. set (L2 := Z.log2 (Zpos pd)) in *.
  assert (HL2 : 0 <= L2 < 64 /\ Zpos pd < 2 ^ (L2 + 1)).
  { pose proof (Z.log2_spec (Zpos pd) ltac:(lia)). split; [split; [apply Z.log2_nonneg|apply Z.log2_lt_pow2; lia]|unfold L2; lia]. }
  assert (Hbits2 : 2 ^ 63 <= Zpos m2).
  { rewrite Hm2. pose proof (Z.log2_spec (Zpos pd) ltac:(lia)) as [H _]. fold L2 in H. assert (0 < 2 ^ (63 - L2)) by (apply Z.pow_pos_nonneg; lia).
    replace (2 ^ 63) with (2 ^ L2 * 2 ^ (63 - L2)) by (rewrite <-Z.pow_add_r by lia; f_equal; lia). nia. }
  assert (Hgen : forall s p, Zpos p < 2 ^ 64 -> Zpos p * d <= Zpos pd * 2 ^ B -> mag (B + 4) (f80_mul (f80_div (binary_round 64 16384 s p 0) (f80_of_Z (Zpos pd))) (f80_of_Z d))).
  2: { destruct dy as [|p|p]; [|apply (Hgen false p); lia|apply (Hgen true p); lia]. change (f80_of_Z (Zpos pd)) with (binary_round 64 16384 false pd 0). rewrite E2.
    destruct d as [|q|q]; [done| |lia]. change (f80_of_Z (Zpos q)) with (binary_round 64 16384 false q 0). destruct (f80_round_pos false q) as (m3 & -> & _); [lia|done]. }
  intros s p Hp Hpd. change (f80_of_Z (Zpos pd)) with (binary_round 64 16384 false pd 0). rewrite E2.
  destruct (f80_round_pos s p Hp) as (m1 & -> & Hm1). set (L1 := Z.log2 (Zpos p)) in *.
  assert (HL1 : 0 <= L1 < 64 /\ 2 ^ L1 <= Zpos p < 2 ^ (L1 + 1)).
  { pose proof (Z.log2_spec (Zpos p) ltac:(lia)). split; [split; [apply Z.log2_nonneg|apply Z.log2_lt_pow2; lia]|unfold L1; lia]. }
  assert (Hbits1 : Zpos m1 < 2 ^ 64).
  { rewrite Hm1. assert (0 < 2 ^ (63 - L1)) by (apply Z.pow_pos_nonneg; lia). replace (2 ^ 64) with (2 ^ (L1 + 1) * 2 ^ (63 - L1)) by (rewrite <-Z.pow_add_r by lia; f_equal; lia). nia. }
  assert (Hquot : mag (L1 - L2 + 1) (f80_div (S754_finite s m1 (L1 - 63)) (S754_finite false m2 (L2 - 63)))).
  { assert (Hd1 : Zdigits2 (Zpos m1) = 64).
    { cbn [Zdigits2]. rewrite digits2_pos_log2, Hm1, Z.log2_mul_pow2 by lia. fold L1. lia. }
    assert (Hd2 : Zdigits2 (Zpos m2) = 64).
    { cbn [Zdigits2]. rewrite digits2_pos_log2, Hm2, Z.log2_mul_pow2 by lia. fold L2. lia. }
    unfold f80_div, SFdiv, SFdiv_core_binary. rewrite Hd1, Hd2.
    replace (Z.min (fexp 64 16384 _) _) with (L1 - L2 - 64) by (unfold fexp, emin; lia). replace (L1 - 63 - (L2 - 63) - (L1 - L2 - 64)) with 64 by lia.
    rewrite Z.shiftl_mul_pow2 by lia. pose proof (Z_div_mod (Zpos m1 * 2 ^ 64) (Zpos m2) ltac:(lia)) as Hdm. destruct (Z.div_eucl _ _) as [q r]. destruct Hdm as [Hq Hr].
    apply round_aux_mag; [done|done|lia|lia|lia|lia|]. replace (L1 - L2 + 1 - (L1 - L2 - 64)) with 65 by lia. nia. }
  destruct d as [|q|q]; [| |lia].
  { change (f80_of_Z 0) with (S754_zero false). destruct (f80_div _ _) as [?|?| |? ? ?]; done. }
  change (f80_of_Z (Zpos q)) with (binary_round 64 16384 false q 0). destruct (f80_round_pos false q) as (m3 & -> & Hm3); [lia|]. set (L3 := Z.log2 (Zpos q)) in *.
  assert (HL3 : 0 <= L3 < 64 /\ 2 ^ L3 <= Zpos q < 2 ^ (L3 + 1)).
  { pose proof (Z.log2_spec (Zpos q) ltac:(lia)). split; [split; [apply Z.log2_nonneg|apply Z.log2_lt_pow2; lia]|unfold L3; lia]. }
  assert (Hbits3 : Zpos m3 <= 2 ^ 64).
  { rewrite Hm3. assert (0 < 2 ^ (63 - L3)) by (apply Z.pow_pos_nonneg; lia). replace (2 ^ 64) with (2 ^ (L3 + 1) * 2 ^ (63 - L3)) by (rewrite <-Z.pow_add_r by lia; f_equal; lia). nia. }
  assert (Hsum : L1 + L3 < L2 + 1 + B).
  { apply (Z.pow_lt_mono_r_iff 2); [lia|lia|]. rewrite (Z.pow_add_r 2 L1 L3), (Z.pow_add_r 2 (L2 + 1) B) by lia. assert (0 < 2 ^ B) by (apply Z.pow_pos_nonneg; lia).
    assert (0 < 2 ^ L1) by (apply Z.pow_pos_nonneg; lia). assert (0 < 2 ^ L3) by (apply Z.pow_pos_nonneg; lia). nia. }
  assert (Hm : mag (L1 - L2 + 1 + (L3 + 1) + 1) (f80_mul (f80_div (S754_finite s m1 (L1 - 63)) (S754_finite false m2 (L2 - 63))) (S754_finite false m3 (L3 - 63)))).
  { apply mul_mag; [done|done|lia|lia|lia|exact Hquot|]. cbn [mag]. split; [lia|]. by replace (L3 + 1 - (L3 - 63)) with 64 by lia. }
  destruct (f80_mul _ _) as [?|?| |? m e]; try done. destruct Hm as [H1 H2]. cbn [mag]. split; [lia|]. etrans; [exact H2|]. apply Z.pow_le_mono_r; lia.
Qed.

(** The error is defined for a segment of at least two points of moderate rank. *)
Lemma mse_defined mm cur : points_in_hull (hull mm) = 0 -> describes (get_segment (hull mm)) cur -> length cur <> 1%nat -> points mm = cur ->
  keys_increase cur -> (forall x y, (x, y) ∈ cur -> 0 <= x < 2 ^ 64 /\ 0 <= y /\ y + epsilon <= 2 ^ 32) -> exists e, get_mse_metric mm = Some e.
Proof.
  intros H0 Hd Hlen Hpts Hinc Hr. set (m := hull mm) in *. unfold get_segment in Hd. rewrite H0 in Hd. cbn [Z.eqb] in Hd.
  destruct Hd as [(x0 & y0 & Hh & Hf) Hd]. cbn [first c1 c3] in *. case_decide; [done|]. destruct Hd as ([Hq Hfit] & Hlo & Hup). cbn [lq through] in Hq.
  assert (Hrk : ranks_ok epsilon cur) by (intros x y Hin; specialize (Hr x y Hin); lia).
  pose proof (los_small epsilon Heps cur _ Hrk Hlo) as Hs1. pose proof (ups_small epsilon Heps cur _ Hrk Hup) as Hs3.
  assert (Hin0 : (x0, y0) ∈ cur) by (destruct cur; [done|]; injection Hh as ->; constructor).
  unfold get_mse_metric. fold m. unfold get_floating_point_segment. replace (one_point _ _ _ _) with false; cycle 1.
  { symmetry. apply not_true_is_false. intros Eo. unfold one_point in Eo. btest. clear Hfit. nia. }
  destruct (intercept_at_defined (r1 m) (r3 m) (first_x m) Hs1 Hs3 ltac:(lia)) as (i & ->); [rewrite Hf; apply (Hr x0 y0 Hin0)|]. cbn [mbind option_bind].
  assert (Hall : is_Some (mapM (squared_error (slope_value (point_minus (r3 m) (r1 m))) (wrap64 i) (first_x m)) (points mm))); [|destruct Hall as [errors ->]; cbn [mbind option_bind]; by eexists].
  apply mapM_is_Some. rewrite Hpts. apply List.Forall_forall. intros [x y] Hin%list_elem_of_In. unfold squared_error, compose. cbn beta. cbn [fst snd].
  assert (Hx : x0 <= x).
  { destruct cur as [|[x1 y1] cur]; [done|]. injection Hh as -> ->. apply elem_of_cons in Hin as [[= -> ->]|Hin]; [done|]. apply StronglySorted_inv in Hinc as [_ Hall].
    rewrite List.Forall_forall in Hall. apply list_elem_of_In, Hall in Hin. simpl in Hin. lia. }
  destruct (Hr x y Hin) as (Hx64 & Hy0 & Hy). destruct (Hr x0 y0 Hin0) as (Hx064 & Hy00 & Hy0').
  assert (Hbar : forall x y, (x, y) ∈ cur -> 0 <= lp (through (r1 m) (r3 m)) * x + lr (through (r1 m) (r3 m)) <= lq (through (r1 m) (r3 m)) * 2 ^ 32).
  { intros x' y' Hin'. destruct (Hfit x' y' Hin') as [F1 F2]. destruct (Hr x' y' Hin') as (_ & Hy1 & Hy2). unfold ev in F1, F2. cbn [px py lower_point upper_point] in F1, F2.
    set (up := if _ <=? y' then _ else _) in F1. set (low := if y' <=? _ then _ else _) in F2.
    assert (up <= 2 ^ 32) by (unfold up, max_y, u64_max; btest_case; lia). assert (0 <= low) by (unfold low, min_y; btest_case; lia). cbn [lq through] in *. nia. }
  pose proof (Hbar x y Hin) as B1. pose proof (Hbar x0 y0 Hin0) as B2. cbn [lp lq lr through] in B1, B2. rewrite Hf.
  replace (wrap64 (x - x0)) with (x - x0) by (unfold wrap64; rewrite Z.mod_small; lia). unfold slope_value. cbn [dx dy point_minus].
  destruct (mag_trunc 36 (f80_mul (f80_div (f80_of_Z (py (r3 m) - py (r1 m))) (f80_of_Z (px (r3 m) - px (r1 m)))) (f80_of_Z (x - x0)))) as (z & Ez & Hz); [done| |].
  - destruct Hs1, Hs3. apply (prediction_mag _ _ _ 32); [lia|lia|lia|lia|]. rewrite <-(Z.abs_eq (x - x0)) by lia. rewrite <-Z.abs_mul. apply Z.abs_le. nia.
  - unfold f80_to_i64. rewrite Ez. cbn [mbind option_bind]. destruct (Z.leb_spec (- 2 ^ 63) z), (Z.ltb_spec z (2 ^ 63)); [|lia..]. cbn [andb mbind option_bind]. by eexists.
Qed.

Lemma metric_loop_spec mse keys : forall mm cur i metric sum, segment_ok epsilon cur (hull mm) ->
  starts_at (hull mm) cur -> cur <> [] -> points mm = cur ->
  fits_some epsilon cur -> keys_increase (cur ++ ranked i keys) ->
  (forall x y, (x, y) ∈ cur ++ ranked i keys -> 0 <= x < 2 ^ 64 /\ 0 <= y /\ y + epsilon <= 2 ^ 32) ->
  exists metric' sum' groups, metric_loop epsilon mse mm i keys metric sum = Some (metric', sum') /\
    optimal epsilon (cur ++ ranked i keys) groups /\ metric' = metric - 1 + zlen groups.
Proof.
  induction keys as [|x keys IH]; intros mm cur i metric sum Hok Hst Hne Hpts Hfit Hinc Hr; cbn [metric_loop ranked] in *.
  { exists metric, sum, [cur]. rewrite app_nil_r. split; [done|]. split; [by apply optimal_one|]. unfold zlen. simpl. lia. }
  assert (Hrk : ranks_ok epsilon (cur ++ (x, i) :: ranked (i + 1) keys)) by (intros x' y' Hin; specialize (Hr x' y' Hin); lia).
  unfold metric_add_point. destruct (greedy_round (hull mm) cur x i _ Hok Hst Hne Hinc Hrk) as (m' & [] & Eadd & Hb); rewrite Eadd;
    cbn [mbind option_bind].
  - destruct Hb as (Hok' & Hst' & Hfit'). replace (cur ++ (x, i) :: ranked (i + 1) keys) with ((cur ++ [(x, i)]) ++ ranked (i + 1) keys) in *
      by (by rewrite <-app_assoc). apply IH; try done; [by destruct cur|cbn [points]; by rewrite Hpts].
  - destruct Hb as (H0 & Hno & Hd). unfold metric_reset. cbn [hull].
    assert (Hmse : exists sum', (if mse then mse_segment ← get_mse_metric (mkMetric m' i (points mm)); Some (f64_add sum mse_segment) else Some sum) = Some sum').
    { destruct mse; [|by eexists]. destruct (mse_defined (mkMetric m' i (points mm)) cur) as [e ->]; [done|done| |done| |intros x' y' Hin; apply Hr, elem_of_app; by left|by eexists].
      - intros Hl. destruct Hok as (Hn & _). assert (Hp : points_in_hull (hull mm) = 1) by (rewrite Hn; unfold zlen; lia).
        destruct (add_point_fields (hull mm) x i m' false Eadd) as [_ Hf]; [lia|]. by destruct (Hf eq_refl).
      - by apply StronglySorted_app_1_l in Hinc. }
    destruct Hmse as [sum' ->]. cbn [mbind option_bind].
    destruct (restart_ok (reset m') x i eq_refl) as (m1 & -> & Hok1 & Hst1). cbn [mbind option_bind points app].
    match goal with |- context [metric_loop _ _ ?s _ _ _ sum'] =>
      destruct (IH s [(x, i)] (i + 1) (metric + 1) sum' Hok1 Hst1) as (metric' & sum2 & gs & E2 & Hopt & Hm) end.
    + done.
    + done.
    + eexists. apply fits_one; [done|]. apply (rank_range epsilon Heps), (Hrk x i), elem_of_app. right. constructor.
    + by eapply increase_suffix.
    + intros x' y' Hin. apply (Hr x' y'), elem_of_app. right. exact Hin.
    + exists metric', sum2, (cur :: gs). split; [done|]. split; [by apply optimal_cons|]. unfold zlen in *. simpl. lia.
Qed.
End Greedy.

Lemma ranked_elem keys : forall i x y, (x, y) ∈ ranked i keys -> x ∈ keys /\ i <= y < i + zlen keys.
Proof.
  induction keys as [|k keys IH]; intros i x y Hin; cbn [ranked] in Hin; [by apply elem_of_nil in Hin|].
  assert (zlen (k :: keys) = 1 + zlen keys) by (unfold zlen; simpl; lia). pose proof (zlen_nonneg keys).
  apply elem_of_cons in Hin as [[= -> ->]|Hin]; [split; [constructor|lia]|]. specialize (IH (i + 1) x y Hin) as [? ?].
  split; [by constructor|lia].
Qed.

Lemma ranked_increase keys : forall i, StronglySorted Z.lt keys -> keys_increase (ranked i keys).
Proof.
  induction keys as [|k keys IH]; intros i Hs; cbn [ranked]; [constructor|]. apply StronglySorted_inv in Hs as [Hs Hall].
  constructor; [by apply IH|]. apply List.Forall_forall. intros [x y] Hin%list_elem_of_In. apply ranked_elem in Hin as [Hin _].
  rewrite List.Forall_forall in Hall. apply Hall. by apply list_elem_of_In.
Qed.

(** C21: the hardness metric of a data set is the least number of segments: for distinct
    64-bit keys and a positive error bound [PGM_metric] ends without overflow, whether or
    not the error is asked for, and returns the least number of consecutive groups of the
    sorted keys such that each group has a line through the error bars of its ranks (the
    rank plus and minus the bound, cut off at 0). *)
Theorem PGM_metric_minimal keys error_bound mse : keys <> [] -> NoDup keys -> Forall word64 keys -> zlen keys <= int_max ->
  0 < error_bound <= int_max ->
  exists metric err groups, PGM_metric keys error_bound mse = Some (metric, err) /\ metric = zlen groups /\
    optimal error_bound (ranked 0 (merge_sort Z.le keys)) groups.
Proof.
  intros Hne Hnd Hw Hlen He. unfold int_max in *. assert (Heps : 0 < error_bound <= max_y) by (unfold max_y, u64_max; lia).
  unfold PGM_metric. replace (wrap64 error_bound) with error_bound by (unfold wrap64; rewrite Z.mod_small; lia).
  assert (Hs : StronglySorted Z.lt (merge_sort Z.le keys)).
  { apply strictly_sorted; [apply (StronglySorted_merge_sort Z.le)|by rewrite merge_sort_Permutation]. }
  pose proof (Permutation_length (merge_sort_Permutation Z.le keys)) as Hl.
  pose proof (ranked_increase _ 0 Hs) as Hinc.
  assert (Hr : forall x y, (x, y) ∈ ranked 0 (merge_sort Z.le keys) -> 0 <= x < 2 ^ 64 /\ 0 <= y /\ y + error_bound <= 2 ^ 32).
  { intros x y Hin. apply ranked_elem in Hin as [Hx Hy]. rewrite merge_sort_Permutation in Hx. rewrite Forall_forall in Hw. specialize (Hw x Hx).
    unfold word64, zlen in *. lia. }
  destruct (merge_sort Z.le keys) as [|k ks]; [destruct keys; done|]. cbn [ranked metric_loop] in *.
  destruct (restart_ok error_bound new_model k 0 eq_refl) as (m & E & Hok & Hst).
  unfold metric_add_point, new_metric. cbn [hull]. rewrite E. cbn [mbind option_bind app points].
  destruct (metric_loop_spec error_bound Heps mse ks (mkMetric m 0 [(k, 0)]) [(k, 0)] (0 + 1) 1 f64_zero Hok Hst)
    as (metric & sum & groups & -> & Hopt & Hm); [done|done| |done|done|].
  { eexists. apply fits_one; [done|]. unfold max_y, u64_max. lia. }
  cbn [mbind option_bind]. exists metric. eexists _, groups. split; [done|]. split; [lia|done].
Qed.

(** *** Examples *)

(** Six keys (one of them twice) that two lines approximate within 1, and no single one. *)
Definition demo_points : list (Z * Z) := [(10, 0); (11, 1); (12, 2); (12, 3); (100, 4); (200, 5); (300, 6)].

Example make_segmentation_ex :
  option_map (fun r => (first <$> r.1, r.2)) (make_segmentation 1 demo_points) = Some ([10; 300], 2).
Proof. vm_compute. reflexivity. Qed.

Lemma add_point_exact_witness :
  exists m' b, add_point 1 new_model 7 0 = Some (m', b) /\ (b = true <-> exists l, fits 1 l [(7, 0)]).
Proof.
  destruct (add_point_exact 1 ltac:(vm_compute; split; [reflexivity|discriminate]) [] new_model 7 0) as (m' & b & H1 & H2 & _).
  - split; [done|]. split; [done|exact I].
  - intros x y [= -> ->]%list_elem_of_singleton. lia.
  - intros x' y' Hin. by apply elem_of_nil in Hin.
  - exists m', b. exact (conj H1 H2).
Defined.

Lemma make_segmentation_optimal_witness :
  exists out c groups, make_segmentation 1 demo_points = Some (out, c) /\ c = zlen out /\
    Forall2 (describes 1) out groups /\ optimal 1 (first_points demo_points) groups.
Proof.
  apply (make_segmentation_optimal 1 ltac:(vm_compute; split; [reflexivity|discriminate]) demo_points); [done| |].
  - repeat constructor.
  - intros x y Hin. change (first_points demo_points) with [(10, 0); (11, 1); (12, 2); (100, 4); (200, 5); (300, 6)] in Hin.
    rewrite !elem_of_cons, elem_of_nil in Hin. repeat (destruct Hin as [[= -> ->]|Hin]; [lia|]). done.
Defined.

Lemma PGM_metric_minimal_witness :
  exists metric err groups, PGM_metric [30; 10; 11; 400; 12] 1 true = Some (metric, err) /\ metric = zlen groups /\
    optimal 1 (ranked 0 (merge_sort Z.le [30; 10; 11; 400; 12])) groups.
Proof.
  apply (PGM_metric_minimal [30; 10; 11; 400; 12] 1 true); [done| |repeat constructor; unfold word64; lia|vm_compute; discriminate|vm_compute; split; [reflexivity|discriminate]].
  apply (bool_decide_unpack _). vm_compute. exact I.
Defined.

(** One line within 10 of all 201 ranks exists, but the metric is 2: the bar of the first
    rank ends at 0. *)
Example clipped_metric : PGM_metric (0 :: seqZ 16 200) 10 false = Some (2, None) /\
  forall p, p ∈ ranked 0 (0 :: seqZ 16 200) -> Z.abs (p.1 - 8 - p.2) <= 10.
Proof.
  split; [vm_compute; reflexivity|]. assert (Hall : forallb (fun p => Z.abs (p.1 - 8 - p.2) <=? 10) (ranked 0 (0 :: seqZ 16 200)) = true) by (vm_compute; reflexivity).
  intros p Hin%list_elem_of_In. rewrite forallb_forall in Hall. by apply Z.leb_le, Hall.
Qed.
