(* ===== verification/PlaParallel.v ===== *)
(** * Segmentation in parallel (competitor/pgm/src/piecewise_linear_model.hpp)

    [make_segmentation_par] cuts the points into as many chunks as there are threads
    and segments each on its own.  The iterations write to different results, so
    their order does not matter and the model computes them one after the other.

    The result is correct, and by [par_near_optimal] it has at most one segment more
    per additional thread than the fewest groups with lines through their error bars. *)

From S2P Require Import Prelude Words Floats PlaModel PlaSegment.
From Stdlib Require Import Sorted.
From stdpp Require Import list sorting.
Local Open Scope Z_scope.
Local Open Scope cxx_scope.

(** ** Operations *)

(** The loop that skips the points whose key the chunk before has. *)
Definition chunk_start (points : list (Z * Z)) (first last : Z) : option Z :=
  loop (S (length points)) (fun first =>
    if first <? last then
      a ← points.[first];
      b ← points.[first - 1];
      Some (if a.1 =? b.1 then inl (first + 1) else inr first)
    else Some (inr first)) first.

(** One iteration of the parallel loop: the segments of chunk [i] and their number. *)
Definition segment_chunk (epsilon : Z) (points : list (Z * Z)) (parallelism chunk_size i : Z)
    : option (list CanonicalSegment * Z) :=
  let first := i * chunk_size in
  let last := if i =? parallelism - 1 then zlen points else first + chunk_size in
  first' ← (if 0 <? first then chunk_start points first last else Some first);
  if (0 <? first) && (first' =? last) then Some ([], 0)
  else make_segmentation epsilon (take (Z.to_nat (last - first')) (drop (Z.to_nat first') points)).

(** [max_threads] is what [omp_get_max_threads] returns. *)
Definition make_segmentation_par (max_threads epsilon : Z) (points : list (Z * Z))
    : option (list CanonicalSegment * Z) :=
  let n := zlen points in
  let parallelism := Z.min max_threads 20 in
  let chunk_size := n / parallelism in
  if (parallelism =? 1) || (n <? 2 ^ 15) then make_segmentation epsilon points
  else
    results ← mapM (fun i => segment_chunk epsilon points parallelism chunk_size (Z.of_nat i)) (seq 0 (Z.to_nat parallelism));
    Some (mjoin results.*1, foldl Z.add 0 results.*2).

(** ** The points with new keys, chunk by chunk *)

Fixpoint skip_key (p : Z) (l : list (Z * Z)) : list (Z * Z) :=
  match l with
  | [] => []
  | q :: l' => if q.1 =? p then skip_key p l' else l
  end.

Lemma first_points_skip p l : first_points (skip_key p l) = new_keys p l.
Proof. induction l as [|[x y] l IH]; [done|]. simpl. destruct (Z.eqb_spec x p); [done|]. simpl. done. Qed.

(** Increasing keys are all new. *)
Lemma first_points_increasing pts : keys_increase pts -> first_points pts = pts.
Proof.
  intros H. destruct pts as [|[x y] pts]; [done|]. cbn [first_points]. f_equal. revert x y H.
  induction pts as [|[x1 y1] pts IH]; intros x y H; [done|]. cbn [new_keys]. apply StronglySorted_inv in H as [H Hall].
  apply Forall_cons in Hall as [Hx _]. simpl in Hx. destruct (Z.eqb_spec x1 x); [lia|]. f_equal. by eapply IH.
Qed.

Lemma new_keys_app a : forall p x y b, new_keys p (a ++ [(x, y)] ++ b) = new_keys p (a ++ [(x, y)]) ++ new_keys x b.
Proof.
  induction a as [|[x1 y1] a IH]; intros p x y b; simpl.
  - destruct (Z.eqb_spec x p) as [->|]; done.
  - destruct (x1 =? p); [apply IH|]. simpl. f_equal. apply IH.
Qed.

Lemma first_points_app a x y b : first_points (a ++ [(x, y)] ++ b) = first_points (a ++ [(x, y)]) ++ new_keys x b.
Proof. destruct a as [|[x1 y1] a]; simpl; [done|]. f_equal. apply new_keys_app. Qed.

Lemma skip_key_suffix p l : exists k, skip_key p l = drop k l /\ (k <= length l)%nat.
Proof.
  induction l as [|[x y] l (k & IH & Hk)]; [by exists 0%nat|]. simpl. destruct (x =? p); [|exists 0%nat; split; [done|lia]].
  exists (S k). split; [done|lia].
Qed.

Lemma chunk_start_loop seg : forall pre x y post fuel, (length seg < fuel)%nat ->
  loop fuel (fun first =>
    if first <? zlen (pre ++ [(x, y)]) + zlen seg then
      a ← ((pre ++ [(x, y)]) ++ seg ++ post).[first];
      b ← ((pre ++ [(x, y)]) ++ seg ++ post).[first - 1];
      Some (if a.1 =? b.1 then inl (first + 1) else inr first)
    else Some (inr first)) (zlen (pre ++ [(x, y)])) =
  Some (zlen (pre ++ [(x, y)]) + (zlen seg - zlen (skip_key x seg))).
Proof.
  induction seg as [|[x1 y1] seg IH]; intros pre x y post fuel Hf; (destruct fuel as [|fuel]; [simpl in Hf; lia|]).
  - simpl. destruct (Z.ltb_spec (zlen (pre ++ [(x, y)])) (zlen (pre ++ [(x, y)]) + zlen (@nil (Z * Z)))) as [H|_].
    + unfold zlen in H. simpl in H. lia.
    + f_equal. unfold zlen. simpl. lia.
  - cbn [loop]. set (P := pre ++ [(x, y)]).
    assert (HP : 0 < zlen P) by (unfold P, zlen; rewrite length_app; simpl; lia).
    destruct (Z.ltb_spec (zlen P) (zlen P + zlen ((x1, y1) :: seg))) as [_|H]; [|unfold zlen in H; simpl in H; lia].
    assert (E1 : (P ++ ((x1, y1) :: seg) ++ post).[zlen P] = Some (x1, y1)).
    { unfold rd. destruct (Z.leb_spec 0 (zlen P)); [|lia]. unfold zlen. rewrite Nat2Z.id. by apply list_lookup_middle. }
    assert (E2 : (P ++ ((x1, y1) :: seg) ++ post).[zlen P - 1] = Some (x, y)).
    { unfold rd. destruct (Z.leb_spec 0 (zlen P - 1)); [|lia]. unfold P. rewrite <-app_assoc. cbn [app].
      apply list_lookup_middle. unfold zlen. rewrite length_app. simpl. lia. }
    rewrite E1, E2. cbn [mbind option_bind fst]. cbn [skip_key fst].
    destruct (Z.eqb_spec x1 x) as [->|Hne]; [|f_equal; lia].
    specialize (IH P x y1 post fuel ltac:(simpl in Hf; lia)).
    replace (P ++ ((x, y1) :: seg) ++ post) with ((P ++ [(x, y1)]) ++ seg ++ post) by (by rewrite <-app_assoc).
    replace (zlen P + zlen ((x, y1) :: seg)) with (zlen (P ++ [(x, y1)]) + zlen seg) by (unfold zlen; rewrite length_app; simpl; lia).
    replace (zlen P + 1) with (zlen (P ++ [(x, y1)])) by (unfold zlen; rewrite length_app; simpl; lia).
    rewrite IH. f_equal. unfold zlen. rewrite length_app. simpl. lia.
Qed.

(** ** Correctness *)

Section Parallel.
Context (epsilon : Z) (Heps : 0 < epsilon <= max_y).

(** What a segmentation of [pts] is: canonical segments for consecutive groups. *)
Definition segments_for (pts : list (Z * Z)) (groups : list (list (Z * Z))) (r : list CanonicalSegment * Z) : Prop :=
  r.2 = zlen r.1 /\ Forall2 (describes epsilon) r.1 groups /\ optimal epsilon pts groups.

Lemma chunk_spec points : keys_increase (first_points points) -> ranks_ok epsilon (first_points points) ->
  exists groups r, make_segmentation epsilon points = Some r /\ segments_for (first_points points) groups r.
Proof.
  intros Hinc Hr. destruct points as [|q points].
  - exists [], ([], 0). split; [done|]. split; [done|]. split; [constructor|]. split; [done|]. split; [constructor|].
    intros g _ _. simpl. lia.
  - destruct (make_segmentation_spec epsilon Heps (q :: points) ltac:(done) Hinc Hr) as (out & c & gs & E & Hc & Hd & Ho).
    exists gs, (out, c). split; [done|]. by split.
Qed.

(** Chunk [i] between the points [pre], which end with the key [x], and [post]. *)
Lemma segment_chunk_later pre x y seg post parallelism chunk_size i :
  zlen (pre ++ [(x, y)]) = i * chunk_size ->
  zlen seg = (if i =? parallelism - 1 then zlen ((pre ++ [(x, y)]) ++ seg ++ post) - i * chunk_size else chunk_size) ->
  keys_increase (new_keys x seg) -> ranks_ok epsilon (new_keys x seg) ->
  exists groups r, segment_chunk epsilon ((pre ++ [(x, y)]) ++ seg ++ post) parallelism chunk_size i = Some r /\
    segments_for (new_keys x seg) groups r.
Proof.
  intros Hpre Hseg Hinc Hr. unfold segment_chunk. rewrite <-Hpre.
  assert (HP : 0 < zlen (pre ++ [(x, y)])) by (unfold zlen; rewrite length_app; simpl; lia).
  destruct (Z.ltb_spec 0 (zlen (pre ++ [(x, y)]))) as [_|]; [|lia].
  replace (if i =? parallelism - 1 then _ else _) with (zlen (pre ++ [(x, y)]) + zlen seg) by (destruct (_ =? _); lia).
  unfold chunk_start. rewrite chunk_start_loop by (rewrite !length_app; simpl; lia). cbn [mbind option_bind andb].
  destruct (skip_key_suffix x seg) as (k & Ek & Hk). rewrite <-first_points_skip in *.
  set (P := pre ++ [(x, y)]) in *.
  assert (Hdrop : drop (Z.to_nat (zlen P + (zlen seg - zlen (skip_key x seg)))) (P ++ seg ++ post) = skip_key x seg ++ post).
  { rewrite Ek. unfold zlen. rewrite length_drop. replace (Z.to_nat _) with (length P + k)%nat by lia.
    rewrite drop_app_add' by done. rewrite drop_app_le by lia. done. }
  rewrite Hdrop. replace (zlen P + zlen seg - (zlen P + (zlen seg - zlen (skip_key x seg)))) with (zlen (skip_key x seg)) by lia.
  replace (Z.to_nat (zlen (skip_key x seg))) with (length (skip_key x seg)) by (unfold zlen; lia). rewrite take_app_length.
  destruct (Z.eqb_spec (zlen P + (zlen seg - zlen (skip_key x seg))) (zlen P + zlen seg)) as [Hz|_]; [|by apply chunk_spec].
  assert (Hnil : skip_key x seg = []) by (apply length_zero_iff_nil; unfold zlen in Hz; lia). rewrite Hnil in *.
  exists [], ([], 0). split; [done|]. split; [done|]. split; [constructor|]. split; [done|]. split; [constructor|].
  intros g _ _. simpl. lia.
Qed.

(** The first chunk. *)
Lemma segment_chunk_first seg post parallelism chunk_size :
  zlen seg = chunk_size -> 1 < parallelism -> keys_increase (first_points seg) -> ranks_ok epsilon (first_points seg) ->
  exists groups r, segment_chunk epsilon (seg ++ post) parallelism chunk_size 0 = Some r /\
    segments_for (first_points seg) groups r.
Proof.
  intros Hseg HP Hinc Hr. unfold segment_chunk. rewrite Z.mul_0_l. cbn [Z.ltb Z.compare mbind option_bind andb].
  destruct (Z.eqb_spec 0 (parallelism - 1)); [lia|]. replace (0 + chunk_size - 0) with (zlen seg) by lia.
  unfold zlen. rewrite Nat2Z.id. change (Z.to_nat 0) with 0%nat. rewrite drop_0. rewrite take_app_length. by apply chunk_spec.
Qed.

(** A division with at most [k] groups more than needed. *)
Definition near_optimal (k : nat) (pts : list (Z * Z)) (groups : list (list (Z * Z))) : Prop :=
  concat groups = pts /\ Forall (fits_some epsilon) groups /\
  forall groups', concat groups' = pts -> Forall (fits_some epsilon) groups' -> (length groups <= length groups' + k)%nat.

(** A cut divides at most one group. *)
Lemma cut_groups groups : forall a b, concat groups = a ++ b -> Forall (fits_some epsilon) groups ->
  exists g1 g2, concat g1 = a /\ concat g2 = b /\ Forall (fits_some epsilon) g1 /\ Forall (fits_some epsilon) g2 /\
    (length g1 + length g2 <= length groups + 1)%nat.
Proof.
  induction groups as [|g groups IH]; intros a b Hc Hf; simpl in Hc.
  { symmetry in Hc. apply app_nil in Hc as [-> ->]. exists [], []. repeat split; [constructor..|simpl; lia]. }
  apply Forall_cons in Hf as [Hg Hf]. destruct (decide (length a <= length g)%nat) as [Hle|Hgt].
  - assert (Ha : a = take (length a) g).
    { apply (f_equal (take (length a))) in Hc. rewrite take_app_length, take_app_le in Hc by done. done. }
    assert (Hb : b = drop (length a) g ++ concat groups).
    { apply (f_equal (drop (length a))) in Hc. rewrite drop_app_length, drop_app_le in Hc by done. done. }
    exists [a], (drop (length a) g :: groups). simpl. rewrite app_nil_r. split; [done|]. split; [done|].
    split; [constructor; [|done]; rewrite Ha; eapply fits_sub; [|done]; intros p Hp; by eapply subseteq_take|].
    split; [constructor; [|done]; eapply fits_sub; [|done]; intros p Hp; by eapply subseteq_drop|lia].
  - assert (Hsplit : exists a', a = g ++ a' /\ concat groups = a' ++ b).
    { exists (drop (length g) a). split.
      - rewrite <-(take_drop (length g) a) at 1. f_equal. apply (f_equal (take (length g))) in Hc.
        rewrite take_app_length, take_app_le in Hc by lia. done.
      - apply (f_equal (drop (length g))) in Hc. rewrite drop_app_length, drop_app_le in Hc by lia. done. }
    destruct Hsplit as (a' & -> & Hc'). destruct (IH a' b Hc' Hf) as (g1 & g2 & H1 & H2 & H3 & H4 & H5).
    exists (g :: g1), g2. simpl. rewrite H1. repeat split; auto. lia.
Qed.

Lemma near_optimal_app k a b ga gb : optimal epsilon a ga -> near_optimal k b gb -> near_optimal (S k) (a ++ b) (ga ++ gb).
Proof.
  intros (Ha & Hfa & Hma) (Hb & Hfb & Hmb). split; [by rewrite concat_app, Ha, Hb|]. split; [by apply Forall_app|].
  intros g' Hc Hf. destruct (cut_groups g' a b Hc Hf) as (g1 & g2 & H1 & H2 & H3 & H4 & H5).
  specialize (Hma g1 H1 H3). specialize (Hmb g2 H2 H4). rewrite length_app. lia.
Qed.

Lemma foldl_add_shift l : forall z, foldl Z.add z l = z + foldl Z.add 0 l.
Proof. induction l as [|x l IH]; intros z; cbn [foldl]; [lia|]. rewrite (IH (z + x)), (IH (0 + x)). lia. Qed.

(** What the iterations from some chunk on contribute. *)
Definition chunks_for (k : nat) (pts : list (Z * Z)) (results : list (list CanonicalSegment * Z)) : Prop :=
  exists groups, near_optimal k pts groups /\ Forall2 (describes epsilon) (mjoin results.*1) groups /\
    foldl Z.add 0 results.*2 = zlen (mjoin results.*1).

Lemma chunks_cons k a b r results groups : segments_for a groups r -> chunks_for k b results ->
  chunks_for (S k) (a ++ b) (r :: results).
Proof.
  intros (Hc & Hd & Ho) (gb & Hn & Hdb & Hs). exists (groups ++ gb). split; [by apply near_optimal_app|].
  split; [by apply Forall2_app|]. change (foldl Z.add (0 + r.2) results.*2 = zlen (r.1 ++ mjoin results.*1)).
  rewrite foldl_add_shift, zlen_app. lia.
Qed.

Lemma chunks_one a r groups : segments_for a groups r -> chunks_for 0 a [r].
Proof.
  intros (Hc & Hd & Hcon & Hf & Hmin). exists groups. simpl. rewrite app_nil_r. split; [|by rewrite Hc].
  split; [done|]. split; [done|]. intros g' H1 H2. specialize (Hmin g' H1 H2). lia.
Qed.

Lemma increase_app_l a b : keys_increase (a ++ b) -> keys_increase a.
Proof. intros H. by apply StronglySorted_app_1_l in H. Qed.

Lemma ranks_app a b : ranks_ok epsilon (a ++ b) -> ranks_ok epsilon a /\ ranks_ok epsilon b.
Proof. intros H. split; intros x y Hin; apply (H x y), elem_of_app; auto. Qed.

Lemma chunks_later (points : list (Z * Z)) parallelism chunk_size : 0 < chunk_size -> parallelism * chunk_size <= zlen points ->
  forall m i pre x y rest, Z.of_nat i + Z.of_nat (S m) = parallelism -> points = (pre ++ [(x, y)]) ++ rest ->
  zlen (pre ++ [(x, y)]) = Z.of_nat i * chunk_size -> keys_increase (new_keys x rest) -> ranks_ok epsilon (new_keys x rest) ->
  exists results, mapM (fun i => segment_chunk epsilon points parallelism chunk_size (Z.of_nat i)) (seq i (S m)) = Some results /\
    chunks_for m (new_keys x rest) results.
Proof.
  intros Hcs Hn. induction m as [|m IH]; intros i pre x y rest Hi Hp Hpre Hinc Hr.
  - destruct (segment_chunk_later pre x y rest [] parallelism chunk_size (Z.of_nat i) Hpre) as (gs & r & E & Hs).
    + destruct (Z.eqb_spec (Z.of_nat i) (parallelism - 1)); [|lia]. rewrite app_nil_r, zlen_app. lia.
    + done.
    + done.
    + rewrite app_nil_r, <-Hp in E. exists [r]. cbn [seq mapM]. rewrite E. split; [done|]. by eapply chunks_one.
  - assert (Hlen : zlen points = Z.of_nat i * chunk_size + zlen rest) by (rewrite Hp, zlen_app; lia).
    assert (Hcut : chunk_size <= zlen rest) by nia.
    destruct (exists_last (l := take (Z.to_nat chunk_size) rest)) as (seg & [x' y'] & Eseg).
    { intros E. apply (f_equal length) in E. rewrite length_take in E. unfold zlen in Hcut. simpl in E. lia. }
    assert (Hlseg : zlen (seg ++ [(x', y')]) = chunk_size).
    { rewrite <-Eseg. unfold zlen in *. rewrite length_take. lia. }
    set (post := drop (Z.to_nat chunk_size) rest).
    assert (Hrest : rest = seg ++ [(x', y')] ++ post).
    { rewrite <-(take_drop (Z.to_nat chunk_size) rest), Eseg, <-app_assoc. done. }
    assert (Hnew : new_keys x rest = new_keys x (seg ++ [(x', y')]) ++ new_keys x' post) by (rewrite Hrest; apply new_keys_app).
    rewrite Hnew in Hinc, Hr. apply ranks_app in Hr as [Hr1 Hr2].
    destruct (segment_chunk_later pre x y (seg ++ [(x', y')]) post parallelism chunk_size (Z.of_nat i) Hpre) as (gs & r & E & Hs).
    { destruct (Z.eqb_spec (Z.of_nat i) (parallelism - 1)); [lia|done]. }
    { by eapply increase_app_l. }
    { done. }
    destruct (IH (S i) (pre ++ [(x, y)] ++ seg) x' y' post) as (results & E' & Hs'); [lia| | | |done|].
    { rewrite Hp, Hrest. by rewrite <-!app_assoc. }
    { rewrite !zlen_app in *. lia. }
    { by eapply increase_suffix. }
    exists (r :: results). change (seq i (S (S m))) with (i :: seq (S i) (S m)). cbn [mapM].
    replace ((pre ++ [(x, y)]) ++ (seg ++ [(x', y')]) ++ post) with points in E by (rewrite Hp, Hrest; by rewrite <-!app_assoc).
    rewrite E. cbn [mbind option_bind]. rewrite E'. cbn [mbind option_bind]. split; [done|].
    rewrite Hnew. by eapply chunks_cons.
Qed.

Lemma par_spec max_threads points : 0 < max_threads -> points <> [] ->
  keys_increase (first_points points) -> ranks_ok epsilon (first_points points) ->
  exists out c groups, make_segmentation_par max_threads epsilon points = Some (out, c) /\ c = zlen out /\
    Forall2 (describes epsilon) out groups /\ near_optimal (Z.to_nat (Z.min max_threads 20 - 1)) (first_points points) groups.
Proof.
  intros Ht Hne Hinc Hr. unfold make_segmentation_par. set (P := Z.min max_threads 20).
  destruct (_ || _) eqn:Eb.
  - destruct (make_segmentation_spec epsilon Heps points Hne Hinc Hr) as (out & c & gs & E & Hc & Hd & Ho1 & Ho2 & Ho3).
    exists out, c, gs. split; [done|]. split; [done|]. split; [done|]. split; [done|]. split; [done|].
    intros g' H1 H2. specialize (Ho3 g' H1 H2). lia.
  - btest. set (cs := zlen points / P). assert (HP : 2 <= P <= 20) by lia.
    assert (Hcs : 0 < cs) by (apply Z.div_str_pos; lia).
    assert (Hmul : P * cs <= zlen points) by (apply Z.mul_div_le; lia).
    destruct (exists_last (l := take (Z.to_nat cs) points)) as (seg & [x y] & Eseg).
    { intros E. apply (f_equal length) in E. rewrite length_take in E. unfold zlen in *. simpl in E. nia. }
    set (post := drop (Z.to_nat cs) points).
    assert (Hpts : points = (seg ++ [(x, y)]) ++ post) by (by rewrite <-(take_drop (Z.to_nat cs) points), Eseg).
    assert (Hlseg : zlen (seg ++ [(x, y)]) = cs) by (rewrite <-Eseg; unfold zlen in *; rewrite length_take; nia).
    assert (Hnew : first_points points = first_points (seg ++ [(x, y)]) ++ new_keys x post).
    { rewrite Hpts, <-app_assoc. apply first_points_app. }
    rewrite Hnew in Hinc, Hr |- *. apply ranks_app in Hr as [Hr1 Hr2].
    destruct (segment_chunk_first (seg ++ [(x, y)]) post P cs) as (gs & r & E & Hs); [done|lia|by eapply increase_app_l|done|].
    destruct (chunks_later points P cs Hcs Hmul (Z.to_nat (P - 2)) 1 seg x y post) as (results & E' & Hs');
      [lia|done|lia|by eapply increase_suffix|done|].
    rewrite <-Hpts in E. replace (Z.to_nat P) with (S (S (Z.to_nat (P - 2)))) by lia.
    set (m := Z.to_nat (P - 2)) in *. change (seq 0 (S (S m))) with (0%nat :: seq 1 (S m)). cbn [mapM].
    change (Z.of_nat 0) with 0. rewrite E. cbn [mbind option_bind]. rewrite E'. cbn [mbind option_bind].
    destruct (chunks_cons m _ _ r results gs Hs Hs') as (groups & Hn & Hd & Hsum).
    eexists _, _, groups. split; [done|]. split; [done|]. split; [done|].
    replace (Z.to_nat (P - 1)) with (S m) by lia. done.
Qed.

(** C32: with any number of threads the parallel segmentation of points with 64-bit keys
    and ranks up to [2^62 - epsilon] ends without overflow, with segments that describe
    consecutive groups of all points, each with a line through the error bars of its
    points (the ranks plus and minus [epsilon], cut off at 0), and it has at most one
    segment per additional thread (of at most twenty) more than the least number of such
    groups. *)
Theorem par_near_optimal max_threads points : 0 < max_threads -> points <> [] ->
  keys_increase (first_points points) -> ranks_ok epsilon (first_points points) ->
  exists out c groups, make_segmentation_par max_threads epsilon points = Some (out, c) /\ c = zlen out /\
    Forall2 (describes epsilon) out groups /\ near_optimal (Z.to_nat (Z.min max_threads 20 - 1)) (first_points points) groups.
Proof. apply par_spec. Qed.

End Parallel.

(** *** Forty thousand consecutive keys, four threads *)

Definition many_points : list (Z * Z) := ranked 0 (seqZ 0 40000).

Lemma seqZ_sorted n : forall m, StronglySorted Z.lt (seqZ m (Z.of_nat n)).
Proof.
  induction n as [|n IH]; intros m; [constructor|]. rewrite seqZ_cons by lia. constructor.
  - replace (Z.pred (Z.of_nat (S n))) with (Z.of_nat n) by lia. apply IH.
  - apply List.Forall_forall. intros x Hx%list_elem_of_In%elem_of_seqZ. lia.
Qed.

Lemma par_near_optimal_witness :
  exists out c groups, make_segmentation_par 4 8 many_points = Some (out, c) /\ c = zlen out /\
    Forall2 (describes 8) out groups /\ near_optimal 8 (Z.to_nat (Z.min 4 20 - 1)) (first_points many_points) groups.
Proof.
  assert (Hinc : keys_increase many_points) by (apply ranked_increase; replace 40000 with (Z.of_nat (Z.to_nat 40000)) by lia; apply seqZ_sorted).
  apply (par_near_optimal 8 ltac:(vm_compute; split; [reflexivity|discriminate]) 4 many_points).
  - lia.
  - unfold many_points. rewrite seqZ_cons by lia. discriminate.
  - by rewrite first_points_increasing.
  - rewrite first_points_increasing by done. intros x y Hin. apply ranked_elem in Hin as [Hx%elem_of_seqZ Hy].
    unfold zlen in *. rewrite length_seqZ in Hy. lia.
Defined.
