(* ===== verification/PgmIndex.v ===== *)
(** * The static PGM index (competitor/pgm/src/pgm_index.hpp)

    [build] segments the keys, then the first keys of the segments, and so on until
    one segment is left; every level ends with a sentinel.  [search] walks down from
    the last segment: a segment predicts a position in the level below, and a linear
    search from there finds the next segment.

    Slopes are [float]s; [segment_pos] follows the conversions of the code.  The one to
    [int64_t] is undefined when a key is too far from the segment for its slope. *)

From S2P Require Import Prelude Words Floats PlaModel PlaSegment PlaParallel.
From Stdlib Require Import SpecFloat.
From stdpp Require Import list.
Local Open Scope Z_scope.
Local Open Scope cxx_scope.

(** ** Single precision *)

Abbreviation f32 := spec_float.

Definition f32_mul : f32 -> f32 -> f32 := SFmul 24 128.
Definition f32_of_Z (z : Z) : f32 := binary_normalize 24 128 z 0 false.
Definition f32_zero : f32 := S754_zero false.

Definition f32_of_f80 (x : f80) : f32 :=
  match x with
  | S754_finite s m e => binary_normalize 24 128 (cond_Zopp s (Zpos m)) e s
  | _ => x
  end.

(** The conversion to [int32_t]. *)
Definition int32 (z : Z) : Z := (z + 2 ^ 31) mod 2 ^ 32 - 2 ^ 31.

(** ** Data *)

Record Segment := mkSeg {
  key : Z;
  slope : f32;
  intercept : Z
}.

(** [Segment(size_t n)]: the sentinel. *)
Definition sentinel (n : Z) : Segment := mkSeg u64_max f32_zero (int32 n).

(** [Segment(const CanonicalSegment &)]; [None] when the intercept is too large. *)
Definition segment_of (cs : CanonicalSegment) : option Segment :=
  '(cs_slope, cs_intercept) ← get_floating_point_segment (c0 cs) (c1 cs) (c2 cs) (c3 cs) (first cs);
  if int_max <? cs_intercept then None else Some (mkSeg (first cs) (f32_of_f80 cs_slope) (int32 cs_intercept)).

(** [slope * (k - key)] *)
Definition product (s : Segment) (k : Z) : f32 := f32_mul (slope s) (f32_of_Z (wrap64 (k - key s))).

(** [Segment::operator()]: the product must fit in an [int64_t], and so must the sum with
    the intercept. *)
Definition segment_pos (s : Segment) (k : Z) : option Z :=
  distance ← f80_to_i64 (product s k);
  let pos := distance + intercept s in
  if (- 2 ^ 63 <=? pos) && (pos <? 2 ^ 63) then Some (Z.max pos 0) else None.

Record PGMIndex := mkPGM {
  n : Z;
  first_key : Z;
  segments : list Segment;
  levels_offsets : list Z
}.

Definition Epsilon : Z := 64.
Definition EpsilonRecursive : Z := 4.

Definition PGM_SUB_EPS (x epsilon : Z) : Z := if x <=? epsilon then 0 else x - epsilon.
Definition PGM_ADD_EPS (x epsilon size : Z) : Z := if size <=? x + epsilon + 2 then size else x + epsilon + 2.

(** ** Construction *)

(** [in_fun]: the point of the key at [i], with the adjustment after a run of equal keys. *)
Definition key_point (keys : list Z) (i : Z) : option (Z * Z) :=
  x ← keys.[i];
  flag ← (if (0 <? i) && (i + 1 <? zlen keys) then
            prev ← keys.[i - 1];
            next ← keys.[i + 1];
            Some ((x =? prev) && negb (x =? next) && negb (wrap64 (x + 1) =? next))
          else Some false);
  Some (wrap64 (x + Z.b2z flag), i).

(** [build_level]: [last_key] is the last key of the data.  Returns the segments and
    [n_segments]. *)
Definition build_level (max_threads last_key epsilon : Z) (points : list (Z * Z)) (segs : list Segment)
    : option (list Segment * Z) :=
  let last_n := zlen points in
  '(out, n_segments) ← make_segmentation_par max_threads epsilon points;
  new ← mapM segment_of out;
  let segs := segs ++ new in
  back ← last segs;
  let '(segs, n_segments) :=
    if SFeqb (slope back) f32_zero && (1 <? last_n) then
      (segs ++ [mkSeg (wrap64 (last_key + 1)) f32_zero (int32 last_n)], n_segments + 1)
    else (segs, n_segments) in
  Some (segs ++ [sentinel last_n], n_segments).

(** The segments of the last level as points. *)
Definition level_points (segs : list Segment) (offset last_n : Z) : option (list (Z * Z)) :=
  mapM (fun i => s ← segs.[offset + Z.of_nat i]; Some (key s, Z.of_nat i)) (seq 0 (Z.to_nat last_n)).

(** The loop "Build upper levels", until one segment is left. *)
Definition build_upper (max_threads last_key fuel : Z) (segs : list Segment) (offsets : list Z) (last_n : Z)
    : option (list Segment * list Z) :=
  loop (Z.to_nat fuel) (fun '(segs, offsets, last_n) =>
    if 1 <? last_n then
      offset ← offsets.[zlen offsets - 2];
      points ← level_points segs offset last_n;
      '(segs, last_n) ← build_level max_threads last_key EpsilonRecursive points segs;
      back ← last offsets;
      Some (inl (segs, offsets ++ [back + last_n + 1], last_n))
    else Some (inr (segs, offsets))) (segs, offsets, last_n).

(** A key that equals the sentinel is left out. *)
Definition build (max_threads : Z) (keys : list Z) : option (list Segment * list Z) :=
  let size := zlen keys in
  if size =? 0 then Some ([], [])
  else
    last_key ← keys.[size - 1];
    let ignore_last := last_key =? u64_max in
    let last_n := size - Z.b2z ignore_last in
    points ← mapM (fun i => key_point keys (Z.of_nat i)) (seq 0 (Z.to_nat last_n));
    last_key ← (if ignore_last && (size =? 1) then Some 0 else keys.[last_n - 1]);
    '(segs, last_n) ← build_level max_threads last_key Epsilon points [];
    build_upper max_threads last_key size segs [0; 0 + last_n + 1] last_n.

(** The constructor. *)
Definition PGMIndex_of (max_threads : Z) (keys : list Z) : option PGMIndex :=
  '(segs, offsets) ← build max_threads keys;
  Some (mkPGM (zlen keys) (default 0 (head keys)) segs offsets).

(** The default constructor leaves [n] and [first_key] unset; no index without
    segments is searched. *)
Definition PGMIndex_default : PGMIndex := mkPGM 0 0 [] [].

(** ** Search *)

Definition segments_count (p : PGMIndex) : option Z :=
  match segments p with
  | [] => Some 0
  | _ => o ← (levels_offsets p).[1]; Some (o - 1)
  end.

Definition height (p : PGMIndex) : Z := zlen (levels_offsets p) - 1.

(** What segment [it] predicts, capped by the intercept of the next one. *)
Definition capped_pos (p : PGMIndex) (it k : Z) : option Z :=
  s ← (segments p).[it];
  next ← (segments p).[it + 1];
  pos ← segment_pos s k;
  Some (Z.min pos (wrap64 (intercept next))).

(** [for (; std::next(lo)->key < key; ++lo)]. *)
Definition linear_search (p : PGMIndex) (k lo : Z) : option Z :=
  loop (S (length (segments p))) (fun lo =>
    next ← (segments p).[lo + 1];
    Some (if key next <? k then inl (lo + 1) else inr lo)) lo.

(** One level of [segment_for_key]. *)
Definition level_down (p : PGMIndex) (k l it : Z) : option Z :=
  level_begin ← (levels_offsets p).[l];
  pos ← capped_pos p it k;
  linear_search p k (level_begin + PGM_SUB_EPS pos (EpsilonRecursive + 1)).

Definition segment_for_key (p : PGMIndex) (k : Z) : option Z :=
  it ← (levels_offsets p).[zlen (levels_offsets p) - 2];
  for_down (height p - 2) 0 (level_down p k) it.

Record ApproxPos := mkApprox { pos : Z; lo : Z; hi : Z }.

Definition search (p : PGMIndex) (k : Z) : option ApproxPos :=
  let k := Z.max (first_key p) k in
  it ← segment_for_key p k;
  pos ← capped_pos p it k;
  Some (mkApprox pos (PGM_SUB_EPS pos Epsilon) (PGM_ADD_EPS pos Epsilon (n p))).

