(* ===== verification/PgmStatic.v ===== *)
(** * The static PGM index: search stays in bounds

    [pgm_ok] is what a built index satisfies: every level ends with the sentinel and
    the intercepts are at most [epsilon] past the number of positions below.  It is
    enough for [search] to read inside its arrays, to terminate, and to return a range
    of positions of the data, whatever the slopes are, unless a segment on its way
    ([visits]) makes a prediction that does not fit in [int64_t]: that conversion is the
    only undefined behaviour, and it happens for keys far from the data.  [build_ok]
    shows that every built index has the invariant. *)

From S2P Require Import Prelude Words Floats PlaModel PlaSegment PlaParallel PgmIndex.
From Stdlib Require Import SpecFloat Sorted.
From stdpp Require Import list.
Local Open Scope Z_scope.
Local Open Scope cxx_scope.

(** ** Predictions do not overflow *)

(** A number with a 24-bit mantissa below [2^63] is well below it. *)
Lemma mantissa_gap s m e z : Zpos m < 2 ^ 24 -> f64_trunc (S754_finite s m e) = Some z -> z < 2 ^ 63 -> z <= 2 ^ 63 - 2 ^ 39.
Proof.
  intros Hm [= <-] Hz. destruct s; cbn [cond_Zopp] in *.
  - assert (0 <= (if 0 <=? e then Zpos m * 2 ^ e else Zpos m / 2 ^ (- e))); [|lia].
    destruct (Z.leb_spec 0 e); [lia|apply Z.div_pos; lia].
  - destruct (Z.leb_spec 0 e) as [He|He].
    + destruct (Z.le_gt_cases e 39) as [H39|H39].
      * assert (2 ^ e <= 2 ^ 39) by (apply Z.pow_le_mono_r; lia). nia.
      * replace (2 ^ e) with (2 ^ (e - 40) * 2 ^ 40) in * by (rewrite <-Z.pow_add_r by lia; f_equal; lia). nia.
    + assert (0 < 2 ^ (- e)) by (apply Z.pow_pos_nonneg; lia).
      assert (Z.pos m / 2 ^ (- e) <= Z.pos m) by (apply Z.div_le_upper_bound; nia). lia.
Qed.

Lemma f32_mul_i64 a b z : f80_to_i64 (f32_mul a b) = Some z -> - 2 ^ 63 <= z <= 2 ^ 63 - 2 ^ 39.
Proof.
  unfold f80_to_i64. intros H. inv_bind H. rename x into z', E into Ez.
  destruct (Z.leb_spec (- 2 ^ 63) z'); [|done]. destruct (Z.ltb_spec z' (2 ^ 63)) as [Hlt|]; [|done]. injection H as ->. split; [done|].
  destruct (f32_mul a b) as [s|s| |s m e] eqn:Ef; cbn [f64_trunc] in Ez; [injection Ez as <-; lia|done|done|].
  apply (mantissa_gap s m e); [|done|done]. unfold f32_mul, SFmul in Ef. destruct a, b; try done. by apply round_mantissa in Ef.
Qed.

Lemma segment_pos_defined s k : 0 <= intercept s <= int_max ->
  (exists p, segment_pos s k = Some p /\ 0 <= p) \/ (segment_pos s k = None /\ f80_to_i64 (product s k) = None).
Proof.
  intros Hi. unfold segment_pos. destruct (f80_to_i64 (product s k)) as [x|] eqn:E; [left|by right]. apply f32_mul_i64 in E. cbn [mbind option_bind]. unfold int_max in Hi.
  destruct (Z.leb_spec (- 2 ^ 63) (x + intercept s)); [|lia]. destruct (Z.ltb_spec (x + intercept s) (2 ^ 63)); [|lia]. cbn [andb].
  eexists. split; [done|]. lia.
Qed.

(** The segments that a search for [k] comes to: level and position. *)
Inductive visits (p : PGMIndex) (k : Z) : Z -> Z -> Prop :=
| visits_top it : (levels_offsets p).[zlen (levels_offsets p) - 2] = Some it -> visits p k (height p - 1) it
| visits_down l it it' : visits p k (l + 1) it -> level_down p k l it = Some it' -> visits p k l it'.

(** A segment on the way whose prediction does not fit in [int64_t]. *)
Definition prediction_overflows (p : PGMIndex) (k : Z) : Prop :=
  exists l it s, visits p k l it /\ (segments p).[it] = Some s /\ f80_to_i64 (product s k) = None.

(** ** The invariant of an index *)

(** The segments from [b] to [e], the sentinel last, above [m] positions. *)
Record level_ok (segs : list Segment) (b e m epsilon : Z) : Prop := {
  lv_bounds : 0 <= b /\ b + 2 <= e <= zlen segs;
  lv_sentinel : exists s, segs.[e - 1] = Some s /\ key s = u64_max;
  lv_intercepts i s : b <= i < e -> segs.[i] = Some s -> 0 <= intercept s <= int_max /\ intercept s <= m + epsilon
}.

(** The number of positions below level [l] and the error there. *)
Definition below_level (n : Z) (offsets : list Z) (l : Z) : Z :=
  if l =? 0 then n else at_ 0 offsets l - at_ 0 offsets (l - 1) - 1.

Definition level_epsilon (l : Z) : Z := if l =? 0 then Epsilon else EpsilonRecursive.

Definition levels_ok (n : Z) (segs : list Segment) (offsets : list Z) : Prop :=
  2 <= zlen offsets /\ forall l, 0 <= l < zlen offsets - 1 ->
    level_ok segs (at_ 0 offsets l) (at_ 0 offsets (l + 1)) (below_level n offsets l) (level_epsilon l).

Definition pgm_ok (p : PGMIndex) : Prop := 1 <= n p /\ levels_ok (n p) (segments p) (levels_offsets p).

Section Search.
Context (p : PGMIndex) (Hp : pgm_ok p).

Definition offset (l : Z) : Z := at_ 0 (levels_offsets p) l.

Lemma offset_rd l : 0 <= l < zlen (levels_offsets p) -> (levels_offsets p).[l] = Some (offset l).
Proof. apply rd_at. Qed.

(** The segment [it] is one of level [l] and not its sentinel. *)
Definition in_level (l it : Z) : Prop := offset l <= it <= offset (l + 1) - 2.

Lemma capped_pos_spec l it k : 0 <= l < zlen (levels_offsets p) - 1 -> in_level l it -> visits p k l it ->
  (exists pos, capped_pos p it k = Some pos /\ 0 <= pos <= below_level (n p) (levels_offsets p) l + level_epsilon l) \/
  (capped_pos p it k = None /\ prediction_overflows p k).
Proof.
  intros Hl Hit Hv. destruct Hp as (_ & _ & Hlv). destruct (Hlv l Hl) as [Hb _ Hi]. unfold in_level in Hit. fold (offset l) (offset (l + 1)) in *.
  destruct (rd_in (segments p) it) as [s Es]; [lia|]. destruct (rd_in (segments p) (it + 1)) as [s' Es']; [lia|].
  destruct (Hi it s ltac:(lia) Es) as [H1 _]. destruct (Hi (it + 1) s' ltac:(lia) Es') as [H2 H3].
  unfold capped_pos. rewrite Es, Es'. cbn [mbind option_bind].
  destruct (segment_pos_defined s k H1) as [(pos & -> & Hpos)|[-> Hnone]]; cbn [mbind option_bind]; [left|right; split; [done|]; by exists l, it, s].
  eexists. split; [done|]. unfold wrap64, int_max in *. rewrite Z.mod_small by lia. lia.
Qed.

Lemma linear_search_spec l k lo : 0 <= l < zlen (levels_offsets p) - 1 -> in_level l lo -> k <= u64_max ->
  exists it, linear_search p k lo = Some it /\ in_level l it.
Proof.
  intros Hl Hlo Hk. destruct Hp as (_ & _ & Hlv). destruct (Hlv l Hl) as [Hb (s & Es & Hs) _]. fold (offset l) (offset (l + 1)) in *. unfold linear_search.
  match goal with |- context [loop _ ?body _] => destruct (loop_spec (fun i => in_level l i) (fun it => in_level l it)
    (fun i => offset (l + 1) - i) body) with (fuel := S (length (segments p))) (s := lo) as (it & E & H) end; [|done| | |by exists it].
  - intros i Hi. unfold in_level in *. destruct (rd_in (segments p) (i + 1)) as [nx En]; [lia|]. rewrite En. cbn [mbind option_bind].
    destruct (Z.ltb_spec (key nx) k) as [Hlt|]; [|done].
    destruct (Z.eq_dec i (offset (l + 1) - 2)) as [->|]; [|lia]. replace (offset (l + 1) - 2 + 1) with (offset (l + 1) - 1) in En by lia.
    rewrite Es in En. injection En as <-. lia.
  - unfold in_level, zlen in *. lia.
  - unfold in_level in Hlo. lia.
Qed.

(** One level down. *)
Lemma level_down_spec l it k : 0 <= l < zlen (levels_offsets p) - 2 -> in_level (l + 1) it -> visits p k (l + 1) it -> k <= u64_max ->
  (exists it', level_down p k l it = Some it' /\ in_level l it' /\ visits p k l it') \/ (level_down p k l it = None /\ prediction_overflows p k).
Proof.
  intros Hl Hit Hv Hk. destruct (capped_pos_spec (l + 1) it k) as [(pos & Epos & Hpos)|[Epos H]]; [lia|done|done| |].
  - left. assert (Hdown : exists it', level_down p k l it = Some it' /\ in_level l it').
    { unfold level_down. rewrite offset_rd by lia. cbn [mbind option_bind]. rewrite Epos. cbn [mbind option_bind].
      apply linear_search_spec; [lia| |done]. destruct Hp as (_ & _ & Hlv). destruct (Hlv l ltac:(lia)) as [Hb _ _].
      fold (offset l) (offset (l + 1)) in Hb. unfold below_level, level_epsilon in Hpos. destruct (Z.eqb_spec (l + 1) 0); [lia|].
      replace (l + 1 - 1) with l in Hpos by lia. fold (offset l) (offset (l + 1)) in Hpos. unfold EpsilonRecursive in *.
      unfold in_level, PGM_SUB_EPS. destruct (Z.leb_spec pos (4 + 1)); lia. }
    destruct Hdown as (it' & E & Hin). exists it'. split; [done|]. split; [done|]. by eapply visits_down.
  - right. split; [|done]. unfold level_down. rewrite offset_rd by lia. cbn [mbind option_bind]. by rewrite Epos.
Qed.

(** The levels from [l] down. *)
Lemma levels_down k : k <= u64_max -> forall m l it, l = Z.of_nat m -> l < zlen (levels_offsets p) - 1 -> in_level l it -> visits p k l it ->
  (exists it', for_down (l - 1) 0 (level_down p k) it = Some it' /\ in_level 0 it' /\ visits p k 0 it') \/ (for_down (l - 1) 0 (level_down p k) it = None /\ prediction_overflows p k).
Proof.
  intros Hk. unfold for_down. induction m as [|m IH]; intros l it -> Hl Hin Hv.
  - left. exists it. done.
  - replace (Z.to_nat (Z.of_nat (S m) - 1 - 0 + 1)) with (S m) by lia. cbn [for_n]. replace (Z.of_nat (S m) - 1) with (Z.of_nat m) by lia.
    destruct (level_down_spec (Z.of_nat m) it k) as [(it' & -> & Hin' & Hv')|[-> H]]; [lia|by replace (Z.of_nat m + 1) with (Z.of_nat (S m)) by lia..|done| |by right].
    specialize (IH (Z.of_nat m) it' eq_refl ltac:(lia) Hin' Hv'). replace (Z.to_nat (Z.of_nat m - 1 - 0 + 1)) with m in IH by lia.
    replace (Z.of_nat m + -1) with (Z.of_nat m - 1) by lia. exact IH.
Qed.

Lemma segment_for_key_spec k : k <= u64_max ->
  (exists it, segment_for_key p k = Some it /\ in_level 0 it /\ visits p k 0 it) \/ (segment_for_key p k = None /\ prediction_overflows p k).
Proof.
  intros Hk. pose proof Hp as (_ & Hlen & Hlv). unfold segment_for_key. rewrite offset_rd by lia. cbn [mbind option_bind].
  set (H := zlen (levels_offsets p) - 1) in *. replace (zlen (levels_offsets p) - 2) with (H - 1) by lia.
  assert (Htop : in_level (H - 1) (offset (H - 1))).
  { destruct (Hlv (H - 1) ltac:(lia)) as [Hb _ _]. unfold in_level. fold (offset (H - 1)) (offset (H - 1 + 1)) in Hb. lia. }
  assert (Hv : visits p k (H - 1) (offset (H - 1))).
  { change (H - 1) with (height p - 1) at 1. apply visits_top. replace (zlen (levels_offsets p) - 2) with (H - 1) by lia. apply offset_rd. lia. }
  replace (height p - 2) with (H - 1 - 1) by (unfold height; lia). apply (levels_down k Hk (Z.to_nat (H - 1))); [lia|lia|done|done].
Qed.

Lemma search_spec k : 0 <= first_key p <= u64_max -> k <= u64_max ->
  (exists a, search p k = Some a /\ 0 <= lo a <= hi a /\ hi a <= n p) \/ (search p k = None /\ prediction_overflows p (Z.max (first_key p) k)).
Proof.
  intros Hf Hk. unfold search. destruct (segment_for_key_spec (Z.max (first_key p) k)) as [(it & -> & Hit & Hv)|[-> H]]; [lia| |by right]. cbn [mbind option_bind].
  pose proof Hp as (Hn & Hlen & _). destruct (capped_pos_spec 0 it (Z.max (first_key p) k)) as [(pos & -> & Hpos)|[-> H]]; [lia|done|done| |by right].
  left. cbn [mbind option_bind]. eexists. split; [done|]. cbn [lo hi]. unfold below_level, level_epsilon in Hpos. cbn in Hpos.
  unfold PGM_SUB_EPS, PGM_ADD_EPS, Epsilon in *. destruct (Z.leb_spec pos 64), (Z.leb_spec (n p) (pos + 64 + 2)); lia.
Qed.
End Search.

(** ** The segments of a level *)

Section Build.
Context (max_threads : Z) (Hthreads : 0 < max_threads).

Lemma int32_id z : 0 <= z <= int_max -> int32 z = z.
Proof. unfold int32, int_max. intros H. rewrite Z.mod_small; lia. Qed.

(** The intercept of a segment is within [epsilon] of its first rank. *)
Lemma intercept_near epsilon cs g x y : 0 < epsilon -> describes epsilon cs g -> head g = Some (x, y) -> 0 <= y -> y + epsilon <= int_max ->
  first cs = x /\ forall slope i, get_floating_point_segment (c0 cs) (c1 cs) (c2 cs) (c3 cs) (first cs) = Some (slope, i) -> 0 <= i <= y + epsilon.
Proof.
  intros He [(x' & y' & Hh & Hf) Hd] Hg Hy Hmax. rewrite Hg in Hh. injection Hh as <- <-. split; [done|]. intros sl i Ei. unfold int_max in Hmax.
  assert (Hup : py (upper_point epsilon x y) = y + epsilon).
  { unfold upper_point, max_y, u64_max. destruct (Z.leb_spec (2 ^ 64 - 1 - epsilon) y); [lia|done]. }
  assert (Hlow : 0 <= py (lower_point epsilon x y) <= y).
  { unfold lower_point, min_y. destruct (Z.leb_spec y (0 + epsilon)); simpl; lia. }
  unfold get_floating_point_segment in Ei. case_decide as Hlen.
  - destruct Hd as (x2 & y2 & -> & E0 & E1 & E2 & E3). injection Hg as -> ->. rewrite E2, E3 in Ei. unfold one_point in Ei. rewrite !Z.eqb_refl in Ei.
    cbn [andb] in Ei. injection Ei as _ <-. rewrite E0, E1, Hup. unfold wrap64. rewrite Z.mod_small by lia.
    split; [apply Z.div_pos; lia|]. apply Z.div_le_upper_bound; lia.
  - destruct Hd as ([Hq Hfit] & _ & _). cbn [lq through] in Hq. destruct (one_point _ _ _ _) eqn:Eo in Ei.
    { unfold one_point in Eo. btest. lia. }
    destruct (intercept_at _ _ _) as [i'|] eqn:Ea in Ei; [|done]. injection Ei as _ <-. destruct (Hfit x y) as [H1 H2]; [destruct g; [done|]; injection Hg as ->; constructor|].
    pose proof (intercept_at_nearest (c1 cs) (c3 cs) (first cs) i' ltac:(lia) Ea) as Hn. clear Ea. cbn zeta in Hn. rewrite Hf in *.
    unfold ev, through in H1, H2. cbn [lp lq lr px py lower_point upper_point] in H1, H2. unfold upper_point in Hup. unfold lower_point in Hlow.
    cbn [py] in Hup, Hlow. rewrite Hup in H1. set (low := if y <=? _ then _ else _) in *. clearbody low.
    set (d := px (c3 cs) - px (c1 cs)) in *. set (nn := (py (c3 cs) - py (c1 cs)) * (x - px (c1 cs))) in *.
    assert (Hd : 0 < d) by lia.
    assert (H1' : nn + d * py (c1 cs) <= d * (y + epsilon)) by (unfold nn; lia). assert (H2' : d * low <= nn + d * py (c1 cs)) by (unfold nn; lia).
    clearbody d nn. split; apply Z.nlt_ge; intros Hc; nia.
Qed.

(** The segments of groups of points. *)
Definition segments_near (epsilon m : Z) (segs : list Segment) : Prop :=
  Forall (fun s => 0 <= intercept s <= int_max /\ intercept s <= m + epsilon) segs.

Lemma segment_of_near epsilon cs g x y m s : 0 < epsilon -> describes epsilon cs g -> head g = Some (x, y) -> 0 <= y <= m -> m + epsilon <= int_max ->
  segment_of cs = Some s -> key s = x /\ 0 <= intercept s <= int_max /\ intercept s <= m + epsilon.
Proof.
  intros He Hd Hg Hy Hm Es. destruct (intercept_near epsilon cs g x y He Hd Hg) as [Hf Hi]; [lia|lia|]. unfold segment_of in Es.
  destruct (get_floating_point_segment _ _ _ _ _) as [[sl i]|] eqn:Ei; [|done]. cbn [mbind option_bind] in Es. destruct (int_max <? i); [done|]. injection Es as <-. cbn [key intercept].
  specialize (Hi sl i eq_refl). rewrite int32_id by lia. split; [done|lia].
Qed.

Lemma segments_of_near epsilon m out groups segs : 0 < epsilon -> Forall2 (describes epsilon) out groups -> mapM segment_of out = Some segs ->
  (forall x y, (x, y) ∈ concat groups -> 0 <= y <= m) -> m + epsilon <= int_max ->
  segments_near epsilon m segs /\ Forall2 (fun s g => exists y, head g = Some (key s, y)) segs groups.
Proof.
  intros He Hd. revert segs. induction Hd as [|cs g out groups Hcs Hd IH]; intros segs Es Hr Hm; simpl in Es; [injection Es as <-; split; constructor|].
  destruct (segment_of cs) as [s|] eqn:Ecs; [|done]. cbn in Es. destruct (mapM segment_of out) as [segs'|] eqn:Eo; [|done]. injection Es as <-.
  destruct (IH segs' eq_refl) as [IH1 IH2]; [intros x y Hin; apply (Hr x y); apply elem_of_app; by right|done|].
  pose proof Hcs as [(x & y & Hg & _) _].
  assert (Hxy : (x, y) ∈ concat (g :: groups)) by (destruct g; [done|]; injection Hg as ->; constructor).
  destruct (segment_of_near epsilon cs g x y m s He Hcs Hg (Hr x y Hxy) Hm Ecs) as [<- Hs].
  split; constructor; try done. by exists y.
Qed.

(** Their keys increase and are keys of the points. *)
Lemma heads_increase (segs : list Segment) groups : Forall2 (fun s g => exists y, head g = Some (key s, y)) segs groups ->
  keys_increase (concat groups) -> StronglySorted Z.lt (key <$> segs) /\ forall s, s ∈ segs -> exists y, (key s, y) ∈ concat groups.
Proof.
  intros Hh. induction Hh as [|s g segs groups (y & Hg) Hh IH]; intros Hi; [split; [constructor|]; intros s Hs; by apply elem_of_nil in Hs|].
  cbn in Hi. destruct g as [|q g]; [done|]. injection Hg as ->. destruct (IH (increase_suffix _ _ Hi)) as [IH1 IH2]. split.
  - constructor; [done|]. apply List.Forall_forall. intros k (s' & -> & Hs')%list_elem_of_In%list_elem_of_fmap.
    destruct (IH2 s' Hs') as [y' Hy']. apply StronglySorted_inv in Hi as [_ Hall]. rewrite List.Forall_forall in Hall.
    apply (Hall (key s', y')), list_elem_of_In, elem_of_app. by right.
  - intros s' [->|Hs']%elem_of_cons; [exists y; constructor|]. destruct (IH2 s' Hs') as [y' Hy']. exists y'. cbn. right. apply elem_of_app. by right.
Qed.

(** *** Points with repeated keys *)

Lemma new_keys_spec rest : forall p, StronglySorted Z.le (p :: rest.*1) ->
  keys_increase (new_keys p rest) /\ (forall q, q ∈ new_keys p rest -> q ∈ rest /\ p < q.1) /\ (length (new_keys p rest) <= length rest)%nat.
Proof.
  induction rest as [|[x y] rest IH]; intros p Hs.
  - cbn. split; [constructor|]. split; [|lia]. intros q Hq. by apply elem_of_nil in Hq.
  - cbn [new_keys fmap list_fmap fst length] in *. apply StronglySorted_inv in Hs as [Hs Hall]. apply Forall_cons_1 in Hall as [Hpx Hall].
    destruct (Z.eqb_spec x p) as [->|Hne].
    + destruct (IH p Hs) as (I1 & I2 & I3). split; [done|]. split; [|lia]. intros q Hq. destruct (I2 q Hq). split; [by constructor|done].
    + destruct (IH x Hs) as (I1 & I2 & I3). split; [|split; [|simpl; lia]].
      * constructor; [done|]. apply List.Forall_forall. intros q Hq%list_elem_of_In. by apply I2.
      * intros q [->|Hq]%elem_of_cons; [split; [constructor|simpl; lia]|]. destruct (I2 q Hq). split; [by constructor|lia].
Qed.

Lemma first_points_spec pts : StronglySorted Z.le pts.*1 ->
  keys_increase (first_points pts) /\ (forall q, q ∈ first_points pts -> q ∈ pts) /\ (length (first_points pts) <= length pts)%nat.
Proof.
  destruct pts as [|[x y] rest]; intros Hs; [split; [constructor|]; split; [done|simpl; lia]|].
  destruct (new_keys_spec rest x Hs) as (H1 & H2 & H3). cbn [first_points]. split; [|split; [|simpl; lia]].
  - constructor; [done|]. apply List.Forall_forall. intros q Hq%list_elem_of_In. by apply H2.
  - intros q [->|Hq]%elem_of_cons; [constructor|]. right. by apply H2.
Qed.

(** ** One level *)

(** The points of a level: keys that do not decrease and the ranks of the level. *)
Record points_ok (last_key : Z) (pts : list (Z * Z)) : Prop := {
  po_nonempty : pts <> [];
  po_sorted : StronglySorted Z.le pts.*1;
  po_range x y : (x, y) ∈ pts -> 0 <= x <= last_key + 1 /\ 0 <= y < zlen pts
}.

Lemma groups_length (segs : list Segment) (groups : list (list (Z * Z))) : Forall2 (fun s g => exists y, head g = Some (key s, y)) segs groups ->
  (length segs <= length (concat groups))%nat.
Proof. induction 1 as [|s g segs groups (y & Hg) _ IH]; [done|]. cbn. rewrite length_app. destruct g; [done|]. simpl. lia. Qed.

Lemma sorted_weaken (l : list Z) : StronglySorted Z.lt l -> StronglySorted Z.le l.
Proof. induction 1 as [|x l _ IH Hall]; constructor; [done|]. eapply List.Forall_impl; [|exact Hall]. intros; lia. Qed.

Lemma sorted_snoc (l : list Z) x : StronglySorted Z.le l -> (forall y, y ∈ l -> y <= x) -> StronglySorted Z.le (l ++ [x]).
Proof.
  induction 1 as [|z l Hs IH Hall]; intros Hx; cbn; [by repeat constructor|]. constructor; [apply IH; intros y Hy; apply Hx; by constructor|].
  apply Forall_app. split; [done|]. constructor; [|constructor]. apply Hx. constructor.
Qed.

Lemma build_level_spec last_key epsilon pts segs segs' c : 0 <= last_key < u64_max -> 0 < epsilon -> points_ok last_key pts ->
  zlen pts + epsilon <= int_max -> build_level max_threads last_key epsilon pts segs = Some (segs', c) ->
  exists new, segs' = segs ++ new ++ [sentinel (zlen pts)] /\ zlen new = c /\ 1 <= c <= zlen pts + 1 /\
    segments_near epsilon (zlen pts) new /\ StronglySorted Z.le (key <$> new) /\ forall s, s ∈ new -> 0 <= key s <= last_key + 1.
Proof.
  intros Hlk He [Hne Hs Hr] Hmax E. destruct (first_points_spec pts Hs) as (Hinc & Hsub & Hlen). unfold u64_max, int_max in *.
  assert (Hranks : ranks_ok epsilon (first_points pts)).
  { intros x y Hin. destruct (Hr x y (Hsub _ Hin)) as [Hx Hy]. lia. }
  destruct (par_spec epsilon ltac:(unfold max_y, u64_max; pose proof (zlen_nonneg pts); lia) max_threads pts Hthreads Hne Hinc Hranks) as (out & c0 & groups & Eo & -> & Hd & Hg & _ & _).
  unfold build_level in E. rewrite Eo in E. cbn [mbind option_bind] in E. destruct (mapM segment_of out) as [new|] eqn:En; [|done]. cbn [mbind option_bind] in E.
  assert (Hcg : forall x y, (x, y) ∈ concat groups -> 0 <= x <= last_key + 1 /\ 0 <= y < zlen pts) by (intros x y Hin; rewrite Hg in Hin; by apply Hr, Hsub).
  destruct (segments_of_near epsilon (zlen pts) out groups new He Hd En) as [Hnear Hheads]; [intros x y Hin; destruct (Hcg x y Hin); lia|unfold int_max; lia|].
  destruct (heads_increase new groups Hheads) as [Hk Hkin]; [by rewrite Hg|]. pose proof (groups_length _ _ Hheads) as Hgl. rewrite Hg in Hgl.
  assert (Hzl : zlen out = zlen new) by (unfold zlen; f_equal; rewrite (Forall2_length _ _ _ Hd); symmetry; by eapply Forall2_length).
  assert (Hpos : 1 <= zlen new).
  { destruct new as [|s new]; [|unfold zlen; simpl; lia]. apply Forall2_nil_inv_l in Hheads as ->. destruct pts as [|[x y] pts]; [done|]. by cbn in Hg. }
  assert (Hrange : forall s, s ∈ new -> 0 <= key s <= last_key + 1) by (intros s Hs'; destruct (Hkin s Hs') as [y Hy]; by apply Hcg in Hy as [? _]).
  destruct (last (segs ++ new)) as [back|]; [|done]. cbn [mbind option_bind] in E. rewrite Hzl in E. destruct (_ && _) in E; injection E as <- <-.
  - exists (new ++ [mkSeg (wrap64 (last_key + 1)) f32_zero (int32 (zlen pts))]). rewrite zlen_app. unfold wrap64. rewrite Z.mod_small by lia.
    rewrite int32_id by (unfold int_max; pose proof (zlen_nonneg pts); lia). split; [by rewrite <-!app_assoc|]. split; [done|]. split; [unfold zlen in *; lia|]. split; [|split].
    + apply Forall_app. split; [done|]. constructor; [|constructor]. cbn [intercept]. pose proof (zlen_nonneg pts). unfold int_max. lia.
    + rewrite fmap_app. apply sorted_snoc; [by apply sorted_weaken|]. intros y (s & -> & Hs')%list_elem_of_fmap. cbn. by apply Hrange.
    + intros s [Hs'|Hs']%elem_of_app; [by apply Hrange|]. apply list_elem_of_singleton in Hs' as ->. cbn. lia.
  - exists new. rewrite <-app_assoc. split; [done|]. split; [done|]. split; [unfold zlen in *; lia|]. split; [done|]. split; [by apply sorted_weaken|done].
Qed.

(** ** All levels *)

Lemma level_ok_app segs x b e m epsilon : level_ok segs b e m epsilon -> level_ok (segs ++ x) b e m epsilon.
Proof.
  intros [Hb (s & Es & Hs) Hi]. assert (Hrd : forall i, 0 <= i < e -> rd (segs ++ x) i = rd segs i) by (intros i Hi'; apply rd_app_lt; lia).
  constructor.
  - rewrite zlen_app. pose proof (zlen_nonneg x). lia.
  - exists s. rewrite Hrd by lia. done.
  - intros i s' Hi' E. rewrite Hrd in E by lia. by eapply Hi.
Qed.

Lemma level_ok_new segs new m epsilon : 0 <= m -> 0 <= epsilon -> m + epsilon <= int_max -> 1 <= zlen new -> segments_near epsilon m new ->
  level_ok (segs ++ new ++ [sentinel m]) (zlen segs) (zlen segs + zlen new + 1) m epsilon.
Proof.
  intros Hm He Hmax Hnew Hnear. pose proof (zlen_nonneg segs). constructor.
  - rewrite !zlen_app. change (zlen [sentinel m]) with 1. lia.
  - exists (sentinel m). split; [|done]. rewrite rd_app_ge by lia. rewrite rd_app_ge by lia. by replace (_ - _ - _) with 0 by lia.
  - intros i s Hi E. rewrite rd_app_ge in E by lia. unfold segments_near in Hnear. rewrite List.Forall_forall in Hnear.
    destruct (Z.lt_ge_cases (i - zlen segs) (zlen new)) as [Hlt|Hge].
    + rewrite rd_app_lt in E by lia. apply Hnear, list_elem_of_In, rd_elem. by eexists.
    + rewrite rd_app_ge in E by lia. replace (i - zlen segs - zlen new) with 0 in E by lia. injection E as <-. cbn [intercept sentinel].
      rewrite int32_id by lia. lia.
Qed.

(** The state of the loop: the last level's segments [top] and the others. *)
Record upper_ok (last_key n : Z) (segs : list Segment) (offsets : list Z) (last_n : Z) : Prop := {
  up_levels : levels_ok n segs offsets;
  up_end : at_ 0 offsets (zlen offsets - 1) = zlen segs;
  up_top : exists pre top s, segs = pre ++ top ++ [s] /\ zlen pre = at_ 0 offsets (zlen offsets - 2) /\ zlen top = last_n /\ 1 <= last_n /\
    StronglySorted Z.le (key <$> top) /\ forall s, s ∈ top -> 0 <= key s <= last_key + 1
}.

(** The points of the segments [top]. *)
Fixpoint key_points (j : Z) (top : list Segment) : list (Z * Z) :=
  match top with
  | [] => []
  | s :: top => (key s, j) :: key_points (j + 1) top
  end.

Lemma level_points_spec top : forall pre post j, mapM (fun i => s ← (pre ++ top ++ post).[zlen pre - Z.of_nat j + Z.of_nat i]; Some (key s, Z.of_nat i)) (seq j (length top)) =
  Some (key_points (Z.of_nat j) top).
Proof.
  induction top as [|s top IH]; intros pre post j; [done|]. cbn [length seq mapM key_points].
  rewrite Z.sub_add. rewrite rd_app_ge by lia. rewrite Z.sub_diag. change ((s :: top) ++ post).[0] with (Some s). cbn [mbind option_bind].
  pose proof (IH (pre ++ [s]) post (S j)) as IH'. rewrite <-app_assoc in IH'. cbn [app] in IH'. rewrite zlen_app in IH'. change (zlen [s]) with 1 in IH'.
  replace (zlen pre + 1 - Z.of_nat (S j)) with (zlen pre - Z.of_nat j) in IH' by lia. cbn [app]. rewrite IH'. cbn [mbind option_bind].
  by replace (Z.of_nat (S j)) with (Z.of_nat j + 1) by lia.
Qed.

Lemma key_points_ok last_key top : top <> [] -> StronglySorted Z.le (key <$> top) -> (forall s, s ∈ top -> 0 <= key s <= last_key + 1) ->
  points_ok last_key (key_points 0 top) /\ zlen (key_points 0 top) = zlen top.
Proof.
  assert (Hgen : forall top j, (key_points j top).*1 = key <$> top /\ length (key_points j top) = length top /\
    forall x y, (x, y) ∈ key_points j top -> (exists s, s ∈ top /\ x = key s) /\ j <= y < j + zlen top).
  { clear. induction top as [|s top IH]; intros j; [split; [done|]; split; [done|]; intros x y Hx; by apply elem_of_nil in Hx|].
    destruct (IH (j + 1)) as (I1 & I2 & I3). cbn. rewrite I1, I2. split; [done|]. split; [done|]. intros x y [[= -> ->]|Hin]%elem_of_cons.
    - split; [exists s; split; [constructor|done]|unfold zlen; simpl; lia].
    - destruct (I3 x y Hin) as [(s' & Hs & ->) Hy]. split; [exists s'; split; [by constructor|done]|unfold zlen in *; simpl; lia]. }
  intros Hne Hs Hr. destruct (Hgen top 0) as (G1 & G2 & G3). assert (Hz : zlen (key_points 0 top) = zlen top) by (unfold zlen; by rewrite G2).
  split; [|done]. constructor.
  - intros E. rewrite E in G2. by destruct top.
  - by rewrite G1.
  - intros x y Hin. destruct (G3 x y Hin) as [(s & Hin' & ->) Hy]. rewrite Hz. split; [by apply Hr|lia].
Qed.

Lemma at_snoc (l : list Z) x i : 0 <= i < zlen l -> at_ 0 (l ++ [x]) i = at_ 0 l i.
Proof. intros Hi. unfold at_. by rewrite rd_app_lt by lia. Qed.

Lemma at_snoc_last (l : list Z) x : at_ 0 (l ++ [x]) (zlen l) = x.
Proof. unfold at_. rewrite rd_app_ge by lia. by rewrite Z.sub_diag. Qed.

(** Adding a level. *)
Lemma levels_ok_snoc n segs offsets new m epsilon : levels_ok n segs offsets -> at_ 0 offsets (zlen offsets - 1) = zlen segs ->
  m = zlen segs - at_ 0 offsets (zlen offsets - 2) - 1 -> epsilon = EpsilonRecursive ->
  0 <= m -> m + epsilon <= int_max -> 1 <= zlen new -> segments_near epsilon m new ->
  levels_ok n (segs ++ new ++ [sentinel m]) (offsets ++ [zlen segs + zlen new + 1]).
Proof.
  intros [Hlen Hlv] Hend Hm -> H0 Hmax Hnew Hnear. split; [rewrite zlen_app; unfold zlen at 2; simpl; lia|].
  intros l Hl. rewrite zlen_app in Hl. change (zlen [_]) with 1 in Hl. destruct (Z.eq_dec l (zlen offsets - 1)) as [->|Hne].
  - rewrite (at_snoc _ _ (zlen offsets - 1)) by lia. replace (zlen offsets - 1 + 1) with (zlen offsets) by lia. rewrite at_snoc_last, Hend.
    unfold below_level, level_epsilon. destruct (Z.eqb_spec (zlen offsets - 1) 0); [lia|].
    rewrite !at_snoc by lia. rewrite Hend. replace (zlen offsets - 1 - 1) with (zlen offsets - 2) by lia. rewrite <-Hm.
    by apply level_ok_new.
  - rewrite !at_snoc by lia. replace (below_level n (offsets ++ _) l) with (below_level n offsets l).
    + apply level_ok_app, Hlv. lia.
    + unfold below_level. destruct (Z.eqb_spec l 0); [done|]. by rewrite !at_snoc by lia.
Qed.

(** One iteration of the loop that builds the upper levels. *)
Lemma upper_step last_key n segs offsets last_n offset pts segs' c : 0 <= last_key < u64_max -> last_n + EpsilonRecursive <= int_max ->
  upper_ok last_key n segs offsets last_n -> offsets.[zlen offsets - 2] = Some offset -> level_points segs offset last_n = Some pts ->
  build_level max_threads last_key EpsilonRecursive pts segs = Some (segs', c) ->
  upper_ok last_key n segs' (offsets ++ [at_ 0 offsets (zlen offsets - 1) + c + 1]) c /\ c <= last_n + 1.
Proof.
  intros Hlk Hmax [Hlv Hend (pre & top & snt & Hsegs & Hpre & Htop & Hpos & Hsort & Hrange)] Eo Ep Eb. pose proof Hlv as [Hlen _].
  rewrite (rd_at 0) in Eo by lia. injection Eo as <-. rewrite <-Hpre in Ep.
  assert (Hpts : pts = key_points 0 top).
  { unfold level_points in Ep. rewrite Hsegs in Ep. replace (Z.to_nat last_n) with (length top) in Ep by (unfold zlen in Htop; lia).
    pose proof (level_points_spec top pre [snt] 0) as Hl. rewrite Z.sub_0_r in Hl. rewrite Hl in Ep. by injection Ep as <-. }
  assert (Hne : top <> []) by (intros ->; unfold zlen in Htop; simpl in Htop; lia).
  destruct (key_points_ok last_key top Hne Hsort Hrange) as [Hok Hz]. rewrite <-Hpts in *.
  destruct (build_level_spec last_key EpsilonRecursive pts segs segs' c Hlk) as (new & -> & Hc & Hcb & Hnear & Hsn & Hrn); [done|done|lia|done|].
  assert (Hm : zlen pts = zlen segs - at_ 0 offsets (zlen offsets - 2) - 1).
  { rewrite Hsegs, !zlen_app, <-Hpre, Hz. change (zlen [snt]) with 1. lia. }
  split; [|lia]. rewrite Hend, <-Hc. constructor.
  - eapply levels_ok_snoc; [done|done|exact Hm|done|lia|lia|lia|done].
  - rewrite zlen_app. change (zlen [_]) with 1. replace (zlen offsets + 1 - 1) with (zlen offsets) by lia. rewrite at_snoc_last.
    rewrite !zlen_app. change (zlen [_]) with 1. lia.
  - exists segs, new, (sentinel (zlen pts)). split; [done|]. split; [|split; [done|]; split; [lia|]; by split].
    rewrite zlen_app. change (zlen [_]) with 1. replace (zlen offsets + 1 - 2) with (zlen offsets - 1) by lia. by rewrite at_snoc by lia.
Qed.

Lemma last_at (l : list Z) x : last l = Some x -> x = at_ 0 l (zlen l - 1).
Proof.
  rewrite last_lookup. intros E. unfold at_, rd, zlen. pose proof (lookup_lt_Some _ _ _ E). destruct (Z.leb_spec 0 (Z.of_nat (length l) - 1)); [|lia].
  replace (Z.to_nat (Z.of_nat (length l) - 1)) with (Init.Nat.pred (length l)) by lia. by rewrite E.
Qed.

Lemma build_upper_spec last_key n fuel segs offsets last_n segs' offsets' : 0 <= last_key < u64_max ->
  last_n + EpsilonRecursive + Z.of_nat (Z.to_nat fuel) <= int_max -> upper_ok last_key n segs offsets last_n ->
  build_upper max_threads last_key fuel segs offsets last_n = Some (segs', offsets') -> levels_ok n segs' offsets'.
Proof.
  intros Hlk. unfold build_upper. revert segs offsets last_n. induction (Z.to_nat fuel) as [|f IH]; intros segs offsets last_n Hmax Hup E; [done|].
  cbn [loop] in E. destruct (Z.ltb_spec 1 last_n) as [Hlt|Hge].
  - destruct (offsets.[zlen offsets - 2]) as [offset|] eqn:Eo; [|done]. cbn [mbind option_bind] in E.
    destruct (level_points segs offset last_n) as [pts|] eqn:Ep; [|done]. cbn [mbind option_bind] in E.
    destruct (build_level _ _ _ _ _) as [[segs1 c]|] eqn:Eb in E; [|done]. cbn [mbind option_bind] in E.
    destruct (last offsets) as [back|] eqn:El; [|done]. cbn [mbind option_bind] in E.
    destruct (upper_step last_key n segs offsets last_n offset pts segs1 c Hlk ltac:(lia) Hup) as [Hup' Hc]; [done..|].
    match goal with H : last offsets = Some _ |- _ => apply last_at in H as -> end.
    eapply IH; [|exact Hup'|exact E]. lia.
  - cbn in E. injection E as <- <-. by destruct Hup.
Qed.

(** ** The first level *)

Lemma increasing_lookup (l : list Z) : forall i j x y, StronglySorted Z.lt l -> l !! i = Some x -> l !! j = Some y -> (i < j)%nat -> x < y.
Proof.
  induction l as [|z l IH]; intros i j x y Hs Hi Hj Hij; [done|]. apply StronglySorted_inv in Hs as [Hs Hall]. destruct j as [|j]; [lia|].
  destruct i as [|i]; [|by apply (IH i j); [..|lia]]. injection Hi as <-. rewrite List.Forall_forall in Hall.
  by apply Hall, list_elem_of_In, (list_elem_of_lookup_2 _ j).
Qed.

Lemma key_point_strict keys i q : StronglySorted Z.lt keys -> Forall (fun x => 0 <= x < u64_max) keys -> key_point keys (Z.of_nat i) = Some q ->
  exists x, keys !! i = Some x /\ q = (x, Z.of_nat i).
Proof.
  intros Hs Hr E. unfold key_point in E. inv_bind E. unfold rd in E0. destruct (Z.leb_spec 0 (Z.of_nat i)); [|done]. rewrite Nat2Z.id in E0.
  exists x. split; [done|]. pose proof (Forall_lookup_1 _ _ _ _ Hr E0) as Hx. unfold u64_max in Hx.
  assert (Hflag : forall b, (b = false -> (wrap64 (x + Z.b2z b), Z.of_nat i) = (x, Z.of_nat i))).
  { intros b ->. unfold wrap64. cbn [Z.b2z]. rewrite Z.add_0_r, Z.mod_small by lia. done. }
  inv_bind E. injection E as <-. apply Hflag. destruct (_ && _) in E1; [|by injection E1 as <-]. inv_bind E1. inv_bind E1. injection E1 as <-.
  unfold rd in E. destruct (Z.leb_spec 0 (Z.of_nat i - 1)); [|done]. pose proof (increasing_lookup keys _ i _ x Hs E E0 ltac:(lia)) as Hlt.
  destruct (Z.eqb_spec x x1); [lia|done].
Qed.

Lemma key_points_increasing keys pts last_key : keys <> [] -> StronglySorted Z.lt keys -> Forall (fun x => 0 <= x < u64_max) keys ->
  keys.[zlen keys - 1] = Some last_key -> mapM (fun i => key_point keys (Z.of_nat i)) (seq 0 (length keys)) = Some pts ->
  points_ok last_key pts /\ zlen pts = zlen keys.
Proof.
  intros Hne Hs Hr El E. apply mapM_Some in E.
  assert (Hlen : length pts = length keys) by (rewrite <-(Forall2_length _ _ _ E); apply length_seq).
  assert (Hi : forall i q, pts !! i = Some q -> exists x, keys !! i = Some x /\ q = (x, Z.of_nat i)).
  { intros i q Hq. destruct (Forall2_lookup_r _ _ _ _ _ E Hq) as (j & Ej & Hj). apply lookup_seq in Ej as [-> _]. by apply key_point_strict in Hj. }
  assert (Hk : pts.*1 = keys).
  { apply list_eq. intros i. rewrite list_lookup_fmap. destruct (pts !! i) as [q|] eqn:Eq; cbn.
    - by destruct (Hi i q Eq) as (x & -> & ->).
    - symmetry. apply lookup_ge_None. apply lookup_ge_None in Eq. lia. }
  split; [|unfold zlen; by rewrite Hlen]. constructor.
  - intros ->. by destruct keys.
  - rewrite Hk. by apply sorted_weaken.
  - intros x y (i & Hq)%list_elem_of_lookup_1. destruct (Hi i _ Hq) as (x' & Hx & [= <- ->]). pose proof (Forall_lookup_1 _ _ _ _ Hr Hx) as Hx0. cbn beta in Hx0.
    pose proof (lookup_lt_Some _ _ _ Hx). unfold zlen. split; [|lia].
    unfold rd, zlen in El. destruct (Z.leb_spec 0 (Z.of_nat (length keys) - 1)); [|lia].
    destruct (decide (i = Z.to_nat (Z.of_nat (length keys) - 1))) as [->|Hne']; [rewrite Hx in El; injection El as ->; lia|].
    pose proof (increasing_lookup keys i (Z.to_nat (Z.of_nat (length keys) - 1)) x last_key Hs Hx El ltac:(lia)). lia.
Qed.

Lemma build_ok keys p : keys <> [] -> StronglySorted Z.lt keys -> Forall (fun x => 0 <= x < u64_max) keys -> zlen keys <= 2 ^ 29 ->
  PGMIndex_of max_threads keys = Some p -> pgm_ok p /\ n p = zlen keys /\ 0 <= first_key p <= u64_max.
Proof.
  intros Hne Hs Hr Hlen E. assert (Hpos : 1 <= zlen keys) by (destruct keys; [done|unfold zlen; simpl; lia]).
  unfold PGMIndex_of in E. destruct (build max_threads keys) as [[segs offs]|] eqn:Eb; [|done]. cbn in E. injection E as <-.
  unfold build in Eb. destruct (Z.eqb_spec (zlen keys) 0) as [|Hnz]; [lia|]. inv_bind Eb. rename x into last_key.
  assert (Hlk : 0 <= last_key < u64_max).
  { unfold rd in E. destruct (0 <=? zlen keys - 1); [|done]. by apply (Forall_lookup_1 _ _ _ _ Hr) in E. }
  destruct (Z.eqb_spec last_key u64_max) as [|Hnm]; [lia|]. cbn [Z.b2z andb] in Eb. rewrite Z.sub_0_r in Eb. inv_bind Eb. rewrite E in Eb. cbn [mbind option_bind] in Eb.
  replace (Z.to_nat (zlen keys)) with (length keys) in E0 by (unfold zlen; lia).
  destruct (key_points_increasing keys x last_key Hne Hs Hr E E0) as [Hok Hz]. inv_bind Eb. destruct x0 as [segs0 c].
  destruct (build_level_spec last_key Epsilon x [] segs0 c Hlk) as (new & -> & Hc & Hcb & Hnear & Hsn & Hrn); [done|done|unfold Epsilon, int_max; lia|done|].
  split; [|split; [done|]; cbn [first_key]; destruct keys as [|k0 keys]; [done|]; apply Forall_cons_1 in Hr as [? _]; simpl; lia].
  split; [done|]. cbn [n segments levels_offsets].
  eapply (build_upper_spec last_key (zlen keys)); [exact Hlk| | |exact Eb]; [unfold EpsilonRecursive, int_max; lia|]. cbn [app].
  assert (Hsz : zlen (new ++ [sentinel (zlen x)]) = 0 + c + 1) by (rewrite zlen_app; change (zlen [_]) with 1; lia).
  constructor.
  - split; [done|]. change (zlen [0; 0 + c + 1]) with 2. intros l Hl. assert (l = 0) as -> by lia.
    change (at_ 0 [0; 0 + c + 1] 0) with 0. change (at_ 0 [0; 0 + c + 1] (0 + 1)) with (0 + c + 1). unfold below_level, level_epsilon. cbn [Z.eqb].
    rewrite <-Hz, <-Hc. apply (level_ok_new [] new); [lia|done|unfold Epsilon, int_max; lia|lia|done].
  - rewrite Hsz. done.
  - exists [], new, (sentinel (zlen x)). split; [done|]. split; [done|]. split; [done|]. split; [lia|]. by split.
Qed.
End Build.

(** C30: a search in an index built from increasing 64-bit keys (without the greatest
    one) never reads outside the arrays of the index and ends: for every key, stored or
    not, it returns a range of positions of the data, whatever rounding does to the
    slopes, unless a segment on its way predicts a position that does not fit in
    [int64_t]; that conversion is the only undefined behaviour. *)
Theorem search_in_bounds max_threads keys p k : 0 < max_threads -> keys <> [] -> StronglySorted Z.lt keys ->
  Forall (fun x => 0 <= x < u64_max) keys -> zlen keys <= 2 ^ 29 -> PGMIndex_of max_threads keys = Some p -> word64 k ->
  (exists a, search p k = Some a /\ 0 <= lo a <= hi a /\ hi a <= zlen keys) \/
  (search p k = None /\ prediction_overflows p (Z.max (first_key p) k)).
Proof.
  intros Ht Hne Hs Hr Hl E Hk. destruct (build_ok max_threads Ht keys p Hne Hs Hr Hl E) as (Hok & <- & Hf).
  apply search_spec; [done|done|unfold word64, u64_max in *; lia].
Qed.

(** *** Examples *)

(** Two hundred consecutive keys, then steps of a thousand, then steps of a hundred. *)
Definition bent_keys : list Z := seqZ 0 200 ++ ((fun i => 1000 * i) <$> seqZ 1 600) ++ ((fun i => 1000000 + 100 * i) <$> seqZ 1 600).

Definition bent_index : PGMIndex :=
  default PGMIndex_default (PGMIndex_of 4 bent_keys).

Fixpoint increasingb (x : Z) (l : list Z) : bool :=
  match l with
  | y :: l => (x <? y) && increasingb y l
  | [] => true
  end.

Lemma increasingb_sorted l : forall x, increasingb x l = true -> StronglySorted Z.lt (x :: l).
Proof.
  intros x H. apply Sorted_StronglySorted; [intros ? ? ?; lia|]. revert x H. induction l as [|y l IH]; intros x H; [by repeat constructor|].
  cbn in H. btest. constructor; [by apply IH|]. by constructor.
Qed.

Lemma bent_keys_increasing : StronglySorted Z.lt bent_keys.
Proof. apply (increasingb_sorted (tail bent_keys)). vm_compute. reflexivity. Qed.

Lemma search_in_bounds_witness : exists a, search bent_index 600500 = Some a /\ 0 <= lo a <= hi a /\ hi a <= zlen bent_keys.
Proof.
  destruct (search_in_bounds 4 bent_keys bent_index 600500) as [H|[H _]].
  - lia.
  - discriminate.
  - apply bent_keys_increasing.
  - apply (bool_decide_unpack _). vm_compute. exact I.
  - vm_compute. discriminate.
  - vm_compute. reflexivity.
  - split; [lia|reflexivity].
  - exact H.
  - vm_compute in H. discriminate H.
Defined.

(** The segment found for a key that starts a segment is the one before it, although
    the comment promises the last one whose key is not above the sought one. *)
Lemma segment_for_key_before : segment_for_key bent_index 1000 = Some 0 /\ key <$> (segments bent_index).[1] = Some 1000.
Proof. split; vm_compute; reflexivity. Qed.

(** Far above the data the product of slope and distance leaves the range of [int64_t]. *)
Definition dense_index : PGMIndex := default PGMIndex_default (PGMIndex_of 4 (seqZ 0 300)).

Lemma search_far_key : search dense_index (2 ^ 64 - 2) = None /\ search dense_index 1000 = Some (mkApprox 300 236 300).
Proof. split; vm_compute; reflexivity. Qed.
