(* ===== verification/LoserTree.v ===== *)
(** * Tournament trees (competitor/pgm/src/pgm_index_dynamic.hpp, LoserTree)

    A loser tree merges sorted sequences: every inner node keeps the loser of the
    match between its children and node 0 the overall winner, so replacing the
    smallest element replays only the matches on one path.

    [tree_rep] relates the array to the heads of the sequences: every node holds the
    loser of the reference tournament [win].  [delete_min_insert_spec] shows that
    replaying one path keeps this, [min_source_least] that the winner is the least
    head, with ties broken towards the earlier sequence. *)

From S2P Require Import Prelude Words.
From stdpp Require Import list.
Local Open Scope Z_scope.
Local Open Scope cxx_scope.

(** ** Data *)

Definition wrap8 (z : Z) : Z := z mod 2 ^ 8.

Record Loser := mkLoser {
  lkey : Z;
  sup : bool;
  source : Z
}.

Record LoserTree := mkTree {
  tk : Z;
  first_insert : bool;
  losers : list Loser
}.

(** ** Operations *)

(** For 0 the shift is by the width of the word, which is undefined. *)
Definition next_pow2 (x : Z) : option Z :=
  if x =? 1 then Some 1
  else
    let shift := 64 - lzcnt64 (wrap64 (x - 1)) in
    if shift =? 64 then None else Some (2 ^ shift).

(** The constructor; [ik - 1u] is an [unsigned int]. *)
Definition LoserTree_of (ik : Z) : option LoserTree :=
  p ← next_pow2 ik;
  let k := wrap8 p in
  ls ← for_up ((ik - 1) mod 2 ^ 32) k (fun i ls =>
         l ← ls.[i + k];
         wr ls (i + k) (mkLoser (lkey l) true 255)) (replicate (Z.to_nat (2 * k)) (mkLoser 0 false 0));
  Some (mkTree k true ls).

Definition min_source (t : LoserTree) : option Z := source <$> (losers t).[0].

(** The pointer is an option; the assertions compare it with [sup]. *)
Definition insert_start (t : LoserTree) (key_ptr : option Z) (src : Z) (is_sup : bool) : option LoserTree :=
  let k := tk t in
  let pos := wrap8 (k + src) in
  let key := default 0 key_ptr in
  if (pos <? zlen (losers t)) && Bool.eqb is_sup (match key_ptr with None => true | Some _ => false end) then
    l ← (losers t).[pos];
    ls ← wr (losers t) pos (mkLoser (lkey l) is_sup src);
    if first_insert t then
      ls ← for_up 0 (k + k) (fun i ls => l ← ls.[i]; wr ls i (mkLoser key (sup l) (source l))) ls;
      Some (mkTree k false ls)
    else
      l ← ls.[pos];
      ls ← wr ls pos (mkLoser key (sup l) (source l));
      Some (mkTree k false ls)
  else None.

(** [init_winner]: the matches below [root]; at most 8 levels. *)
Fixpoint init_winner (fuel : nat) (k root : Z) (ls : list Loser) : option (list Loser * Z) :=
  match fuel with
  | O => None
  | S fuel =>
      if k <=? root then Some (ls, root)
      else
        '(ls, lft) ← init_winner fuel k (wrap8 (2 * root)) ls;
        '(ls, rgt) ← init_winner fuel k (wrap8 (2 * root + 1)) ls;
        l ← ls.[lft];
        r ← ls.[rgt];
        if sup r || (negb (sup l) && (lkey l <=? lkey r)) then ls ← wr ls root r; Some (ls, lft)
        else ls ← wr ls root l; Some (ls, rgt)
  end.

Definition init (t : LoserTree) : option LoserTree :=
  '(ls, w) ← init_winner 9 (tk t) 1 (losers t);
  l ← ls.[w];
  ls ← wr ls 0 l;
  Some (mkTree (tk t) (first_insert t) ls).

(** The test of [delete_min_insert]: does [l] beat [c]? *)
Definition beats (l c : Loser) : bool :=
  (sup c && (negb (sup l) || (source l <? source c))) ||
  (negb (sup c) && negb (sup l) && ((lkey l <? lkey c) || ((lkey l <=? lkey c) && (source l <? source c)))).

Definition delete_min_insert (t : LoserTree) (key_ptr : option Z) (is_sup : bool) : option LoserTree :=
  if Bool.eqb is_sup (match key_ptr with None => true | Some _ => false end) then
    top ← (losers t).[0];
    let cur := mkLoser (default 0 key_ptr) is_sup (source top) in
    '(ls, cur) ← loop 9 (fun '(pos, ls, cur) =>
      if 0 <? pos then
        l ← ls.[pos];
        if beats l cur then ls ← wr ls pos cur; Some (inl (pos / 2, ls, l))
        else Some (inl (pos / 2, ls, cur))
      else Some (inr (ls, cur))) ((tk t + source top) / 2, losers t, cur);
    ls ← wr ls 0 cur;
    Some (mkTree (tk t) (first_insert t) ls)
  else None.

(** The tree over the heads of the sequences, as [lazy_initialize] builds it. *)
Definition start_tree (keys : list Z) : option LoserTree :=
  t ← LoserTree_of (wrap8 (zlen keys));
  t ← for_up 0 (zlen keys) (fun i t => key ← keys.[i]; insert_start t (Some key) (wrap8 i) false) t;
  init t.

(** ** The reference tournament *)

Section Tournament.
Context (k : Z).

(** The winner of the matches below node [i] at height [h]; [leaf s] is the head of
    sequence [s]. *)
Fixpoint win (leaf : Z -> Loser) (h : nat) (i : Z) : Loser :=
  match h with
  | O => leaf (i - k)
  | S h => let a := win leaf h (2 * i) in let b := win leaf h (2 * i + 1) in if beats b a then b else a
  end.

(** The loser of the match at node [i]. *)
Definition lose (leaf : Z -> Loser) (h : nat) (i : Z) : Loser :=
  let a := win leaf h (2 * i) in let b := win leaf h (2 * i + 1) in if beats b a then a else b.

Definition at_height (h : nat) (i : Z) : Prop := k <= i * 2 ^ Z.of_nat h /\ (i + 1) * 2 ^ Z.of_nat h <= 2 * k.

(** Sequence [s] is below node [i] at height [h]. *)
Definition below (h : nat) (i s : Z) : Prop := i * 2 ^ Z.of_nat h <= k + s < (i + 1) * 2 ^ Z.of_nat h.

Lemma pow_S h : 2 ^ Z.of_nat (S h) = 2 * 2 ^ Z.of_nat h.
Proof. rewrite Nat2Z.inj_succ, Z.pow_succ_r by lia. lia. Qed.

Lemma pow_pos' h : 0 < 2 ^ Z.of_nat h.
Proof. apply Z.pow_pos_nonneg; lia. Qed.

Lemma height_children h i : at_height (S h) i -> at_height h (2 * i) /\ at_height h (2 * i + 1).
Proof. unfold at_height. rewrite pow_S. pose proof (pow_pos' h). nia. Qed.

Lemma height_unique h1 h2 i : 0 < i -> at_height h1 i -> at_height h2 i -> h1 = h2.
Proof.
  assert (H : forall a b, (a < b)%nat -> 0 < i -> at_height a i -> at_height b i -> False).
  { intros a b Hab Hi [Ha1 Ha2] [Hb1 Hb2]. pose proof (pow_pos' a).
    assert (2 * 2 ^ Z.of_nat a <= 2 ^ Z.of_nat b).
    { rewrite <-pow_S. apply Z.pow_le_mono_r; lia. }
    nia. }
  intros Hi H1 H2. destruct (lt_eq_lt_dec h1 h2) as [[?|?]|?]; [|done|]; exfalso; eauto.
Qed.

Lemma below_children h i s : below (S h) i s -> below h (2 * i) s \/ below h (2 * i + 1) s.
Proof. unfold below. rewrite pow_S. pose proof (pow_pos' h). nia. Qed.

Lemma below_left h i s : below h (2 * i) s -> below (S h) i s.
Proof. unfold below. rewrite pow_S. pose proof (pow_pos' h). nia. Qed.

Lemma below_right h i s : below h (2 * i + 1) s -> below (S h) i s.
Proof. unfold below. rewrite pow_S. pose proof (pow_pos' h). nia. Qed.

Lemma below_disjoint h i j s : below h i s -> below h j s -> i = j.
Proof. unfold below. pose proof (pow_pos' h). nia. Qed.

Lemma below_ancestor h s : below h ((k + s) / 2 ^ Z.of_nat h) s.
Proof.
  unfold below. pose proof (pow_pos' h). pose proof (Z.div_mod (k + s) (2 ^ Z.of_nat h) ltac:(lia)).
  pose proof (Z.mod_pos_bound (k + s) (2 ^ Z.of_nat h) ltac:(lia)). nia.
Qed.

(** The winner is one of the heads below. *)
Lemma win_leaf leaf h : forall i, exists s, below h i s /\ win leaf h i = leaf s.
Proof.
  induction h as [|h IH]; intros i.
  - exists (i - k). split; [|done]. unfold below. change (2 ^ Z.of_nat 0) with 1. lia.
  - cbn [win]. destruct (beats _ _).
    + destruct (IH (2 * i + 1)) as (s & Hs & ->). exists s. split; [by apply below_right|done].
    + destruct (IH (2 * i)) as (s & Hs & ->). exists s. split; [by apply below_left|done].
Qed.

Lemma win_ext leaf leaf' h : forall i, (forall s, below h i s -> leaf s = leaf' s) -> win leaf h i = win leaf' h i.
Proof.
  induction h as [|h IH]; intros i H; cbn [win].
  - apply H. unfold below. change (2 ^ Z.of_nat 0) with 1. lia.
  - rewrite (IH (2 * i)), (IH (2 * i + 1)); [done| |]; intros s Hs; apply H; [by apply below_right|by apply below_left].
Qed.

Lemma lose_ext leaf leaf' h i : (forall s, below (S h) i s -> leaf s = leaf' s) -> lose leaf h i = lose leaf' h i.
Proof.
  intros H. unfold lose. rewrite (win_ext leaf leaf' h (2 * i)), (win_ext leaf leaf' h (2 * i + 1)); [done| |];
    intros s Hs; apply H; [by apply below_right|by apply below_left].
Qed.

(** [count] sequences; the other leaves are sentinels. *)
Definition leaf_ok (count : Z) (leaf : Z -> Loser) : Prop :=
  forall s, 0 <= s < k -> source (leaf s) = (if s <? count then s else 255) /\ (count <= s -> sup (leaf s) = true).

Lemma below_range h i s : at_height h i -> below h i s -> 0 <= s < k.
Proof. unfold at_height, below. lia. Qed.
End Tournament.

(** *** Order of the heads *)

Lemma beats_total a b : source a <> source b -> beats a b = negb (beats b a).
Proof.
  intros H. unfold beats. destruct (sup a), (sup b); simpl; try done; repeat btest_case; simpl; try done; lia.
Qed.

(** The test of [init_winner] is the tournament's when the left sequence comes first. *)
Lemma init_test l r : (source l < source r \/ source l = source r /\ sup r = true) ->
  sup r || (negb (sup l) && (lkey l <=? lkey r)) = negb (beats r l).
Proof.
  intros H. unfold beats. destruct (sup l) eqn:El, (sup r) eqn:Er; simpl; repeat btest_case; simpl; try done;
    destruct H as [H|[H H']]; try lia; done.
Qed.

(** ** The array holds the losers *)

Record tree_rep (t : LoserTree) (count : Z) (H : nat) (leaf : Z -> Loser) : Prop := {
  tr_k : tk t = 2 ^ Z.of_nat H;
  tr_small : (H <= 5)%nat;
  tr_size : zlen (losers t) = 2 * tk t;
  tr_top : rd (losers t) 0 = Some (win (tk t) leaf H 1);
  tr_nodes h i : at_height (tk t) (S h) i -> rd (losers t) i = Some (lose (tk t) leaf h i);
  tr_leaf : leaf_ok (tk t) count leaf;
  tr_count : 0 < count <= tk t
}.

(** *** Building the tree *)

Section Init.
Context (k : Z) (Hk : 0 < k <= 32) (count : Z) (leaf : Z -> Loser) (Hleaf : leaf_ok k count leaf).

(** Node [j] is an inner node below node [i] at height [h]. *)
Definition inside (h : nat) (i j : Z) : Prop :=
  exists h', (S h' <= h)%nat /\ at_height k (S h') j /\ i * 2 ^ Z.of_nat h <= j * 2 ^ Z.of_nat (S h') < (i + 1) * 2 ^ Z.of_nat h.

Lemma inside_left h i j : inside h (2 * i) j -> inside (S h) i j.
Proof. intros (h' & H1 & H2 & H3). exists h'. split; [lia|]. split; [done|]. rewrite (pow_S h). pose proof (pow_pos' h). nia. Qed.

Lemma inside_right h i j : inside h (2 * i + 1) j -> inside (S h) i j.
Proof. intros (h' & H1 & H2 & H3). exists h'. split; [lia|]. split; [done|]. rewrite (pow_S h). pose proof (pow_pos' h). nia. Qed.

Lemma inside_small h i j : inside h i j -> j < k.
Proof. intros (h' & _ & [Ha Hb] & _). rewrite pow_S in *. pose proof (pow_pos' h'). nia. Qed.

Lemma inside_disjoint h i j x : inside h i x -> inside h j x -> 0 < x -> i = j.
Proof.
  intros (h1 & L1 & A1 & B1) (h2 & L2 & A2 & B2) Hx.
  assert (S h1 = S h2) as [= ->] by (by apply (height_unique k _ _ x)). pose proof (pow_pos' h). nia.
Qed.

(** Heads come in order: those on the left have the smaller source, or both are
    sentinels. *)
Lemma leaf_order s1 s2 : 0 <= s1 -> s1 < s2 < k ->
  source (leaf s1) < source (leaf s2) \/ source (leaf s1) = source (leaf s2) /\ sup (leaf s2) = true.
Proof.
  intros H1 H2. destruct (Hleaf s1) as [E1 F1]; [lia|]. destruct (Hleaf s2) as [E2 F2]; [lia|].
  rewrite E1, E2. repeat btest_case; try lia. right. split; [done|]. by apply F2.
Qed.

Lemma children_order h i : at_height k (S h) i -> 
  let l := win k leaf h (2 * i) in let r := win k leaf h (2 * i + 1) in
  source l < source r \/ source l = source r /\ sup r = true.
Proof.
  intros Ha. destruct (height_children k h i Ha) as [Hl Hr]. cbn zeta.
  destruct (win_leaf k leaf h (2 * i)) as (s1 & B1 & ->). destruct (win_leaf k leaf h (2 * i + 1)) as (s2 & B2 & ->).
  pose proof (below_range k h _ s1 Hl B1). pose proof (below_range k h _ s2 Hr B2).
  apply leaf_order; [lia|]. unfold below in *. pose proof (pow_pos' h). nia.
Qed.

Lemma init_winner_spec h : forall i ls fuel, (h < fuel)%nat -> at_height k h i -> 0 < i -> zlen ls = 2 * k ->
  (forall s, 0 <= s < k -> rd ls (k + s) = Some (leaf s)) ->
  exists ls' w, init_winner fuel k i ls = Some (ls', w) /\ zlen ls' = 2 * k /\ k <= w /\ rd ls' w = Some (win k leaf h i) /\
    (forall j, ~ inside h i j -> rd ls' j = rd ls j) /\
    (forall h' j, at_height k (S h') j -> inside h i j -> rd ls' j = Some (lose k leaf h' j)).
Proof.
  induction h as [|h IH]; intros i ls fuel Hf Ha Hi Hlen Hls; (destruct fuel as [|fuel]; [lia|]); cbn [init_winner].
  - unfold at_height in Ha. change (2 ^ Z.of_nat 0) with 1 in Ha. destruct (Z.leb_spec k i); [|lia].
    exists ls, i. split; [done|]. split; [done|]. split; [lia|]. split.
    + cbn [win]. replace i with (k + (i - k)) at 1 by lia. apply Hls. lia.
    + split; [done|]. intros h' j _ (h1 & H1 & _). lia.
  - pose proof Ha as [Ha1 Ha2]. rewrite pow_S in Ha1, Ha2. pose proof (pow_pos' h) as Hp.
    assert (Hik : i < k) by nia. destruct (Z.leb_spec k i); [lia|].
    unfold wrap8. rewrite !Z.mod_small by lia. destruct (height_children k h i Ha) as [Hl Hr].
    destruct (IH (2 * i) ls fuel) as (ls1 & w1 & -> & L1 & W1 & R1 & F1 & N1); [lia|done|lia|done|done|]. cbn [mbind option_bind].
    destruct (IH (2 * i + 1) ls1 fuel) as (ls2 & w2 & -> & L2 & W2 & R2 & F2 & N2); [lia|done|lia|done| |].
    { intros s Hs. rewrite F1; [by apply Hls|]. intros Hin%inside_small. lia. }
    cbn [mbind option_bind]. rewrite (F2 w1) by (intros Hin%inside_small; lia). rewrite R1, R2. cbn [mbind option_bind].
    rewrite init_test by (by apply children_order).
    set (l := win k leaf h (2 * i)) in *. set (r := win k leaf h (2 * i + 1)) in *.
    assert (Hfin : forall x w, x = lose k leaf h i -> k <= w -> rd ls2 w = Some (win k leaf (S h) i) ->
      exists ls', wr ls2 i x = Some ls' /\ zlen ls' = 2 * k /\ k <= w /\ rd ls' w = Some (win k leaf (S h) i) /\
        (forall j, ~ inside (S h) i j -> rd ls' j = rd ls j) /\
        (forall h' j, at_height k (S h') j -> inside (S h) i j -> rd ls' j = Some (lose k leaf h' j))).
    { intros x w -> Hw Hrw. destruct (wr_in ls2 i (lose k leaf h i)) as [ls3 E3]; [lia|]. exists ls3. split; [done|].
      split; [by rewrite (zlen_wr _ _ _ _ E3)|]. split; [done|]. split; [rewrite (rd_wr _ _ _ _ w E3); by btest_case; [lia|]|]. split.
      - intros j Hj. rewrite (rd_wr _ _ _ _ j E3). btest_case.
        + subst j. destruct Hj. exists h. split; [lia|]. split; [done|]. rewrite pow_S. nia.
        + rewrite F2, F1; [done| |]; intros Hin; apply Hj; [by apply inside_left|by apply inside_right].
      - intros h' j Hj Hin. rewrite (rd_wr _ _ _ _ j E3). btest_case.
        + subst j. assert (S h' = S h) as [= ->] by (by apply (height_unique k _ _ i)). done.
        + assert (Hj0 : 0 < j) by (destruct Hj; pose proof (pow_pos' (S h')); nia).
          destruct Hin as (h1 & Hh1 & Hj1 & Hr1). assert (S h1 = S h') as [= ->] by (by apply (height_unique k _ _ j)).
          assert (Hne : h' <> h).
          { intros ->. assert (j = i); [|done]. pose proof (pow_pos' (S h)). nia. }
          destruct (Z.lt_ge_cases (j * 2 ^ Z.of_nat (S h')) ((2 * i + 1) * 2 ^ Z.of_nat h)) as [Hlt|Hge].
          * assert (Hin : inside h (2 * i) j) by (exists h'; split; [lia|]; split; [done|]; rewrite (pow_S h) in Hr1; lia).
            rewrite F2; [by apply N1|]. intros Hin2. pose proof (inside_disjoint _ _ _ _ Hin Hin2 Hj0). lia.
          * apply N2; [done|]. exists h'. split; [lia|]. split; [done|]. rewrite (pow_S h) in Hr1. lia. }
    destruct (beats r l) eqn:Eb; cbn [negb].
    + destruct (Hfin l w2) as (ls3 & -> & H'); [unfold lose; fold l r; by rewrite Eb|done|cbn [win]; fold l r; by rewrite Eb|].
      exists ls3, w2. split; [done|]. exact H'.
    + destruct (Hfin r w1) as (ls3 & -> & H').
      { unfold lose. fold l r. by rewrite Eb. }
      { done. }
      { cbn [win]. fold l r. rewrite Eb. rewrite (F2 w1) by (intros Hin%inside_small; lia). done. }
      exists ls3, w1. split; [done|]. exact H'.
Qed.
End Init.

(** *** Replacing the winner *)

Section Replay.
Context (k : Z) (H : nat) (Hk : k = 2 ^ Z.of_nat H) (HH : (H <= 5)%nat).
Context (count : Z) (Hcount : 0 < count <= k) (leaf : Z -> Loser) (Hleaf : leaf_ok k count leaf).
Context (s : Z) (Hs : 0 <= s < count) (Htop : win k leaf H 1 = leaf s).

Lemma k_bound : 0 < k <= 32.
Proof. rewrite Hk. split; [apply pow_pos'|]. change 32 with (2 ^ 5). apply Z.pow_le_mono_r; lia. Qed.

Definition anc (h : nat) : Z := (k + s) / 2 ^ Z.of_nat h.

Lemma anc_0 : anc 0 = k + s.
Proof. unfold anc. change (2 ^ Z.of_nat 0) with 1. by rewrite Z.div_1_r. Qed.

Lemma anc_S h : anc (S h) = anc h / 2.
Proof. unfold anc. rewrite pow_S, Z.mul_comm, Z.div_div by (pose proof (pow_pos' h); lia). done. Qed.

Lemma anc_child h : anc h = 2 * anc (S h) \/ anc h = 2 * anc (S h) + 1.
Proof. rewrite anc_S. pose proof (Z.div_mod (anc h) 2 ltac:(lia)). pose proof (Z.mod_pos_bound (anc h) 2 ltac:(lia)). lia. Qed.

Lemma anc_height h : (h <= H)%nat -> at_height k h (anc h).
Proof.
  intros Hh. pose proof (below_ancestor k h s) as Hb. fold (anc h) in Hb. unfold below in Hb. unfold at_height.
  pose proof (pow_pos' h). assert (exists c, k = c * 2 ^ Z.of_nat h) as [c Ec].
  { exists (2 ^ Z.of_nat (H - h)). rewrite Hk, <-Z.pow_add_r by lia. f_equal. lia. }
  assert (c <= anc h) by nia. assert (anc h + 1 <= 2 * c) by nia. nia.
Qed.

Lemma anc_root : anc H = 1.
Proof. pose proof (anc_height H ltac:(lia)) as [H1 H2]. rewrite <-Hk in *. nia. Qed.

Lemma anc_end : anc (S H) = 0.
Proof. by rewrite anc_S, anc_root. Qed.

Lemma anc_pos h : (h <= H)%nat -> 0 < anc h.
Proof.
  intros Hh. destruct (anc_height h Hh) as [H1 _]. pose proof k_bound. pose proof (pow_pos' h). nia.
Qed.

(** A head with the source of [s] is that of [s]. *)
Lemma same_source (leaf' : Z -> Loser) x : leaf_ok k count leaf' -> 0 <= x < k -> source (leaf' x) = s -> x = s.
Proof. intros Hl Hx E. destruct (Hl x Hx) as [E1 _]. pose proof k_bound. rewrite E1 in E. destruct (Z.ltb_spec x count); lia. Qed.

Lemma winner_child h c : at_height k h c -> win k leaf h c = leaf s -> c = anc h.
Proof.
  intros Hc E. destruct (win_leaf k leaf h c) as (x & Bx & Ex). rewrite E in Ex.
  assert (x = s) as ->.
  { apply (same_source leaf); [done|by eapply below_range|]. rewrite <-Ex. destruct (Hleaf s) as [-> _]; [lia|]. by btest_case; [|lia]. }
  eapply below_disjoint; [exact Bx|apply below_ancestor].
Qed.

(** The winner won all its matches. *)
Lemma win_path d : forall h, (h + d = H)%nat -> win k leaf h (anc h) = leaf s.
Proof.
  induction d as [|d IH]; intros h Hh; [replace h with H by lia; by rewrite anc_root|].
  specialize (IH (S h) ltac:(lia)). cbn [win] in IH. destruct (height_children k h (anc (S h)) (anc_height (S h) ltac:(lia))) as [Hl Hr].
  destruct (beats _ _); [rewrite <-(winner_child h _ Hr IH)|rewrite <-(winner_child h _ Hl IH)]; done.
Qed.

(** The other child of a node on the path. *)
Definition sibling (h : nat) : Z := 4 * anc (S h) + 1 - anc h.

Lemma sibling_not_s h : ~ below k h (sibling h) s.
Proof. intros Hb. pose proof (below_disjoint k h _ _ s Hb (below_ancestor k h s)) as E. fold (anc h) in E. unfold sibling in E. lia. Qed.

Lemma path_loser h : (h < H)%nat -> lose k leaf h (anc (S h)) = win k leaf h (sibling h).
Proof.
  intros Hh. pose proof (win_path (H - S h) (S h) ltac:(lia)) as E. cbn [win] in E. unfold lose.
  destruct (height_children k h (anc (S h)) (anc_height (S h) ltac:(lia))) as [Hl Hr]. unfold sibling.
  destruct (beats _ _).
  - rewrite <-(winner_child h _ Hr E). f_equal. lia.
  - rewrite <-(winner_child h _ Hl E). f_equal. lia.
Qed.

Context (e : Loser) (He : source e = s).

Definition replaced (x : Z) : Loser := if x =? s then e else leaf x.

Lemma replaced_ok : leaf_ok k count replaced.
Proof.
  intros x Hx. unfold replaced. destruct (Z.eqb_spec x s) as [->|]; [|by apply Hleaf]. rewrite He. btest_case; [|lia]. split; [done|lia].
Qed.

Lemma win_replaced h i : ~ below k h i s -> win k replaced h i = win k leaf h i.
Proof. intros Hn. apply win_ext. intros x Hx. unfold replaced. destruct (Z.eqb_spec x s) as [->|]; done. Qed.

Lemma lose_replaced h i : ~ below k (S h) i s -> lose k replaced h i = lose k leaf h i.
Proof. intros Hn. apply lose_ext. intros x Hx. unfold replaced. destruct (Z.eqb_spec x s) as [->|]; done. Qed.

(** The match of the champion so far at the next node of the path. *)
Lemma replay_match h : (h < H)%nat ->
  let c := win k replaced h (anc h) in let l := win k leaf h (sibling h) in source c < 255 ->
  win k replaced (S h) (anc (S h)) = (if beats l c then l else c) /\
  lose k replaced h (anc (S h)) = (if beats l c then c else l) /\ source (if beats l c then l else c) < 255.
Proof.
  intros Hh c l Hc. pose proof k_bound as Hkb.
  destruct (height_children k h (anc (S h)) (anc_height (S h) ltac:(lia))) as [Hl Hr].
  assert (El : win k replaced h (sibling h) = l) by (apply win_replaced, sibling_not_s).
  assert (Hsib : at_height k h (sibling h)).
  { unfold sibling. destruct (anc_child h) as [->| ->]; [by replace (_ - _) with (2 * anc (S h) + 1) by lia|by replace (_ - _) with (2 * anc (S h)) by lia]. }
  assert (Hsrc : source l = 255 \/ source l <> source c /\ source l < 255).
  { destruct (win_leaf k replaced h (sibling h)) as (x & Bx & Ex). destruct (win_leaf k replaced h (anc h)) as (y & By & Ey).
    fold c in Ey. rewrite El in Ex. rewrite Ey in Hc. rewrite Ex, Ey.
    pose proof (below_range k h _ x Hsib Bx) as Rx. pose proof (below_range k h _ y (anc_height h ltac:(lia)) By) as Ry.
    destruct (replaced_ok x Rx) as [-> _]. destruct (replaced_ok y Ry) as [E2 _]. rewrite E2 in Hc |- *.
    destruct (Z.ltb_spec y count); [|lia]. destruct (Z.ltb_spec x count); [|by left]. right. split; [|lia]. intros ->.
    pose proof (below_disjoint k h _ _ y Bx By) as E. unfold sibling in E. lia. }
  split; [|split].
  - cbn [win]. destruct (anc_child h) as [E|E].
    + rewrite <-E. fold c. replace (anc h + 1) with (sibling h) by (unfold sibling; lia). by rewrite El.
    + rewrite <-E. fold c. replace (2 * anc (S h)) with (sibling h) by (unfold sibling; lia). rewrite El.
      rewrite beats_total by lia. by destruct (beats l c).
  - unfold lose. destruct (anc_child h) as [E|E].
    + rewrite <-E. fold c. replace (anc h + 1) with (sibling h) by (unfold sibling; lia). by rewrite El.
    + rewrite <-E. fold c. replace (2 * anc (S h)) with (sibling h) by (unfold sibling; lia). rewrite El.
      rewrite beats_total by lia. by destruct (beats l c).
  - destruct (beats l c) eqn:Eb; [|done]. destruct Hsrc as [E|[_ E]]; [|done]. exfalso.
    destruct (win_leaf k replaced h (sibling h)) as (x & Bx & Ex). rewrite El in Ex.
    pose proof (below_range k h _ x Hsib Bx) as Rx. destruct (replaced_ok x Rx) as [E1 E2]. rewrite <-Ex in E1, E2.
    assert (count <= x) by (rewrite E in E1; destruct (Z.ltb_spec x count); lia). unfold beats in Eb. rewrite E2, E in Eb by lia.
    destruct (sup c); simpl in Eb; [|done]. rewrite orb_false_r in Eb. btest. lia.
Qed.

(** The loop of [delete_min_insert], from height [h] on. *)
Lemma replay_loop d : forall h ls fuel, (h + d = H)%nat -> (d + 1 < fuel)%nat -> zlen ls = 2 * k ->
  (forall h' i, at_height k (S h') i -> rd ls i = Some (if (h' <? h)%nat then lose k replaced h' i else lose k leaf h' i)) ->
  source (win k replaced h (anc h)) < 255 ->
  exists ls', loop fuel (fun '(pos, ls, cur) =>
      if 0 <? pos then
        l ← ls.[pos];
        if beats l cur then ls ← wr ls pos cur; Some (inl (pos / 2, ls, l))
        else Some (inl (pos / 2, ls, cur))
      else Some (inr (ls, cur))) (anc (S h), ls, win k replaced h (anc h)) = Some (ls', win k replaced H 1) /\
    zlen ls' = 2 * k /\ forall h' i, at_height k (S h') i -> rd ls' i = Some (lose k replaced h' i).
Proof.
  pose proof k_bound as Hkb.
  induction d as [|d IH]; intros h ls fuel Hh Hf Hlen Hls Hsrc; (destruct fuel as [|fuel]; [lia|]); cbn [loop].
  - replace h with H in * by lia. rewrite anc_end, anc_root. cbn [Z.ltb Z.compare]. exists ls. split; [done|]. split; [done|].
    intros h' i Hi. rewrite (Hls h' i Hi). destruct (Nat.ltb_spec h' H) as [|Hge]; [done|]. exfalso.
    destruct Hi as [Hi0 Hi]. assert (2 * k <= 2 ^ Z.of_nat (S h')).
    { rewrite pow_S, Hk. enough (2 ^ Z.of_nat H <= 2 ^ Z.of_nat h') by lia. apply Z.pow_le_mono_r; lia. }
    pose proof (pow_pos' (S h')). assert (0 < i) by nia. nia.
  - destruct (Z.ltb_spec 0 (anc (S h))) as [Hp|]; [|pose proof (anc_pos (S h) ltac:(lia)); lia].
    pose proof (anc_height (S h) ltac:(lia)) as Hah.
    rewrite (Hls h (anc (S h)) Hah). destruct (Nat.ltb_spec h h); [lia|]. rewrite path_loser by lia. cbn [mbind option_bind].
    destruct (replay_match h ltac:(lia) Hsrc) as (E1 & E2 & E3). set (l := win k leaf h (sibling h)) in *.
    set (c := win k replaced h (anc h)) in *. rewrite <-anc_S.
    assert (Hstep : exists ls2, (if beats l c then wr ls (anc (S h)) c else Some ls) = Some ls2 /\ zlen ls2 = 2 * k /\
      forall h' i, at_height k (S h') i -> rd ls2 i = Some (if (h' <? S h)%nat then lose k replaced h' i else lose k leaf h' i)).
    { assert (Hother : forall h' i, at_height k (S h') i -> i <> anc (S h) ->
        rd ls i = Some (if (h' <? S h)%nat then lose k replaced h' i else lose k leaf h' i)).
      { intros h' i Hi Hne. rewrite (Hls h' i Hi). destruct (Nat.ltb_spec h' h), (Nat.ltb_spec h' (S h)); try lia; try done.
        replace h' with h by lia. f_equal. symmetry. apply lose_replaced. intros Hb. replace h' with h in Hi by lia.
        apply Hne. eapply below_disjoint; [exact Hb|apply below_ancestor]. }
      assert (Hthis : forall h', at_height k (S h') (anc (S h)) -> h' = h).
      { intros h' Hi. assert (S h' = S h) as [= ->] by (by apply (height_unique k _ _ (anc (S h)))). done. }
      destruct (beats l c) eqn:Eb.
      - destruct (wr_in ls (anc (S h)) c) as [ls2 E]; [destruct Hah; pose proof (pow_pos' (S h)); rewrite Hlen; nia|]. exists ls2. split; [done|].
        split; [by rewrite (zlen_wr _ _ _ _ E)|]. intros h' i Hi. rewrite (rd_wr _ _ _ _ i E).
        destruct (Z.eqb_spec i (anc (S h))) as [->|Hne]; [|by apply Hother]. rewrite (Hthis h' Hi).
        destruct (Nat.ltb_spec h (S h)); [|lia]. by rewrite E2.
      - exists ls. split; [done|]. split; [done|]. intros h' i Hi. destruct (Z.eq_dec i (anc (S h))) as [->|Hne]; [|by apply Hother].
        rewrite (Hls _ _ Hi). rewrite (Hthis h' Hi). destruct (Nat.ltb_spec h h), (Nat.ltb_spec h (S h)); try lia.
        rewrite E2. by rewrite path_loser by lia. }
    destruct Hstep as (ls2 & Ew & L2 & N2). rewrite <-E1 in E3.
    destruct (IH (S h) ls2 fuel) as (ls' & E & H'); [lia|lia|done|done|done|]. exists ls'. split; [|done].
    rewrite E1 in E. destruct (beats l c); [rewrite Ew; exact E|]. injection Ew as ->. exact E.
Qed.
End Replay.

(** ** Specifications *)

(** The winner is the head of its source. *)
Lemma top_leaf t count H leaf s : tree_rep t count H leaf -> min_source t = Some s -> s < count ->
  0 <= s /\ rd (losers t) 0 = Some (leaf s) /\ win (tk t) leaf H 1 = leaf s.
Proof.
  intros R Hm Hs. unfold min_source in Hm. rewrite (tr_top _ _ _ _ R) in Hm. injection Hm as Hm.
  destruct (win_leaf (tk t) leaf H 1) as (x & Bx & Ex). pose proof (tr_k _ _ _ _ R) as Hk.
  assert (Rx : 0 <= x < tk t).
  { apply (below_range (tk t) H 1 x); [|done]. unfold at_height. rewrite Hk. lia. }
  destruct (tr_leaf _ _ _ _ R x Rx) as [Esrc _]. rewrite Ex, Esrc in Hm.
  pose proof (k_bound (tk t) H Hk (tr_small _ _ _ _ R)) as Hkb. pose proof (tr_count _ _ _ _ R).
  destruct (Z.ltb_spec x count); [|lia]. subst x. rewrite (tr_top _ _ _ _ R), Ex. split; [lia|done].
Qed.

(** Replacing the winner [s] by a new head of the same sequence. *)
Lemma delete_min_insert_spec t count H leaf s key_ptr is_sup : tree_rep t count H leaf -> min_source t = Some s -> s < count ->
  is_sup = (match key_ptr with None => true | Some _ => false end) ->
  exists t', delete_min_insert t key_ptr is_sup = Some t' /\
    tree_rep t' count H (replaced leaf s (mkLoser (default 0 key_ptr) is_sup s)).
Proof.
  intros R Hm Hs ->. destruct (top_leaf t count H leaf s R Hm Hs) as (H0 & E0 & Etop).
  pose proof (tr_k _ _ _ _ R) as Hk. pose proof (tr_small _ _ _ _ R) as HH. pose proof (tr_count _ _ _ _ R) as Hc.
  pose proof (tr_leaf _ _ _ _ R) as Hl. pose proof (tr_size _ _ _ _ R) as Hsz. pose proof (k_bound _ _ Hk HH) as Hkb.
  unfold delete_min_insert. rewrite Bool.eqb_reflx, E0. cbn [mbind option_bind].
  destruct (Hl s ltac:(lia)) as [Es _]. replace (source (leaf s)) with s by (rewrite Es; destruct (Z.ltb_spec s count); lia).
  cbn zeta. set (e := mkLoser _ _ s). assert (Hse : source e = s) by done. clearbody e.
  replace ((tk t + s) / 2) with (anc (tk t) s 1) by (unfold anc; change (2 ^ Z.of_nat 1) with 2; done).
  assert (Ee : e = win (tk t) (replaced leaf s e) 0 (anc (tk t) s 0)).
  { cbn [win]. rewrite anc_0. unfold replaced. by rewrite Z.add_simpl_l, Z.eqb_refl. }
  replace (anc (tk t) s 1, losers t, e) with (anc (tk t) s 1, losers t, win (tk t) (replaced leaf s e) 0 (anc (tk t) s 0)) by (by rewrite <-Ee).
  destruct (replay_loop (tk t) H Hk HH count Hc leaf Hl s (conj H0 Hs) Etop e Hse H 0 (losers t) 9) as (ls & -> & Hlen & Hn);
    [lia|lia|done| |rewrite <-Ee; lia|].
  { intros h' i Hi. destruct (Nat.ltb_spec h' 0); [lia|]. by apply (tr_nodes _ _ _ _ R). }
  cbn [mbind option_bind]. set (w := win (tk t) _ H 1). destruct (wr_in ls 0 w) as [ls2 E2]; [lia|]. rewrite E2. cbn [mbind option_bind].
  eexists. split; [done|]. constructor; cbn [tk losers]; try done.
  - by rewrite (zlen_wr _ _ _ _ E2).
  - by rewrite (rd_wr _ _ _ _ 0 E2).
  - intros h i Hi. rewrite (rd_wr _ _ _ _ i E2). destruct (Z.eqb_spec i 0) as [->|]; [|by apply Hn].
    destruct Hi as [Hi1 Hi2]. lia.
  - exact (replaced_ok (tk t) H HH count leaf Hl s (conj H0 Hs) e Hse).
Qed.

(** No head beats the winner. *)
Lemma win_least k count leaf h : 0 < k <= 32 -> leaf_ok k count leaf -> forall i s, at_height k h i -> below k h i s ->
  beats (leaf s) (win k leaf h i) = false.
Proof.
  intros Hk Hl. induction h as [|h IH]; intros i s Ha Hb; cbn [win].
  - replace (i - k) with s by (unfold below in Hb; change (2 ^ Z.of_nat 0) with 1 in Hb; lia).
    unfold beats. destruct (sup (leaf s)); simpl; repeat btest_case; simpl; try done; lia.
  - destruct (height_children k h i Ha) as [HL HR].
    pose proof (children_order k Hk count leaf Hl h i Ha) as Ho. cbn zeta in Ho.
    assert (Htrans : forall a b c, beats a b = false -> beats b c = false -> beats a c = false).
    { intros a b c. unfold beats. destruct (sup a), (sup b), (sup c); simpl; repeat btest_case; simpl; try done; lia. }
    destruct (beats (win k leaf h (2 * i + 1)) (win k leaf h (2 * i))) eqn:Eb.
    + assert (Eb' : beats (win k leaf h (2 * i)) (win k leaf h (2 * i + 1)) = false).
      { destruct Ho as [Ho|[Ho1 Ho2]]; [|].
        - rewrite beats_total by lia. by rewrite Eb.
        - unfold beats in *. rewrite Ho1, Ho2 in *. destruct (sup (win k leaf h (2 * i))); simpl in *; repeat btest_case; simpl in *; try done; try lia.
          all: rewrite Z.ltb_irrefl in Eb; done. }
      destruct (below_children k h i s Hb) as [Hs|Hs]; [|by apply IH].
      eapply Htrans; [by apply (IH (2 * i))|done].
    + destruct (below_children k h i s Hb) as [Hs|Hs]; [by apply IH|].
      eapply Htrans; [by apply (IH (2 * i + 1))|done].
Qed.

(** When a head is left, the winner is the least head of all sequences, ties broken
    towards the first. *)
Lemma min_source_least t count H leaf : tree_rep t count H leaf -> (exists s, 0 <= s < count /\ sup (leaf s) = false) ->
  exists s, min_source t = Some s /\ 0 <= s < count /\ sup (leaf s) = false /\
    forall x, 0 <= x < count -> sup (leaf x) = false ->
      lkey (leaf s) < lkey (leaf x) \/ lkey (leaf s) = lkey (leaf x) /\ s <= x.
Proof.
  intros R (y & Hy & Ey). pose proof (tr_k _ _ _ _ R) as Hk. pose proof (tr_small _ _ _ _ R) as HH.
  pose proof (tr_count _ _ _ _ R) as Hc. pose proof (tr_leaf _ _ _ _ R) as Hl. pose proof (k_bound _ _ Hk HH) as Hkb.
  assert (Hroot : at_height (tk t) H 1) by (unfold at_height; rewrite Hk; lia).
  assert (Hall : forall x, 0 <= x < count -> below (tk t) H 1 x) by (unfold below; rewrite <-Hk; lia).
  assert (Hbeat : forall x, 0 <= x < count -> beats (leaf x) (win (tk t) leaf H 1) = false).
  { intros x Hx. apply (win_least (tk t) count); [done|done|done|by apply Hall]. }
  destruct (win_leaf (tk t) leaf H 1) as (s & Bs & Es). pose proof (below_range _ _ _ s Hroot Bs) as Rs.
  unfold min_source. rewrite (tr_top _ _ _ _ R), Es. rewrite Es in Hbeat.
  destruct (Hl s Rs) as [Esrc Esup].
  assert (Hsup : sup (leaf s) = false).
  { specialize (Hbeat y Hy). unfold beats in Hbeat. rewrite Ey in Hbeat. destruct (sup (leaf s)); [done|done]. }
  assert (Hsc : s < count).
  { destruct (Z.lt_ge_cases s count) as [|Hge]; [done|]. specialize (Esup Hge). congruence. }
  exists s. split; [simpl; rewrite Esrc; by destruct (Z.ltb_spec s count); [|lia]|]. split; [lia|]. split; [done|].
  intros x Hx Ex. specialize (Hbeat x Hx). unfold beats in Hbeat. rewrite Hsup, Ex in Hbeat. simpl in Hbeat.
  destruct (Hl x ltac:(lia)) as [Ex1 _]. rewrite Ex1, Esrc in Hbeat.
  destruct (Z.ltb_spec x count), (Z.ltb_spec s count); lia.
Qed.

(** *** The initial tree *)

Lemma next_pow2_spec len : 0 < len <= 32 ->
  exists H, (H <= 5)%nat /\ next_pow2 len = Some (2 ^ Z.of_nat H) /\ len <= 2 ^ Z.of_nat H.
Proof.
  intros Hlen. unfold next_pow2. destruct (Z.eqb_spec len 1) as [->|Hne]; [exists 0%nat; repeat split; [lia|done]|].
  unfold wrap64; rewrite Z.mod_small by lia. unfold lzcnt64. destruct (len - 1) as [|p|p] eqn:E; [lia| |lia].
  pose proof (Z.log2_spec (Zpos p) ltac:(lia)) as [L1 L2]. pose proof (Z.log2_nonneg (Zpos p)).
  assert (Z.log2 (Z.pos p) <= 4) by (change 4 with (Z.log2 31); apply Z.log2_le_mono; lia).
  replace (64 - (63 - Z.log2 (Z.pos p))) with (Z.succ (Z.log2 (Z.pos p))) by lia.
  destruct (Z.eqb_spec (Z.succ (Z.log2 (Z.pos p))) 64); [lia|]. exists (Z.to_nat (Z.succ (Z.log2 (Z.pos p)))).
  rewrite Z2Nat.id by lia. split; [lia|]. split; [done|lia].
Qed.

Section Start.
Context (k : Z) (Hk : 0 < k <= 32) (keys : list Z) (Hlen : 0 < zlen keys <= k).

(** The leaves after the first [i] insertions. *)
Definition started (i s : Z) : Loser :=
  if s <? i then mkLoser (at_ 0 keys s) false s
  else mkLoser (if i =? 0 then 0 else at_ 0 keys 0) (zlen keys - 1 <=? s) (if zlen keys - 1 <=? s then 255 else 0).

Definition leaves_are (ls : list Loser) (f : Z -> Loser) : Prop :=
  zlen ls = 2 * k /\ forall s, 0 <= s < k -> rd ls (k + s) = Some (f s).

Lemma constructed_leaves : exists ls,
  for_up ((zlen keys - 1) mod 2 ^ 32) k (fun i ls =>
    l ← ls.[i + k];
    wr ls (i + k) (mkLoser (lkey l) true 255)) (replicate (Z.to_nat (2 * k)) (mkLoser 0 false 0)) = Some ls /\
  leaves_are ls (started 0).
Proof.
  rewrite Z.mod_small by lia.
  destruct (for_up_spec (fun i ls => leaves_are ls (fun s =>
      if (zlen keys - 1 <=? s) && (s <? i) then mkLoser 0 true 255 else mkLoser 0 false 0))
    (fun i ls => l ← ls.[i + k]; wr ls (i + k) (mkLoser (lkey l) true 255)) (zlen keys - 1) k
    (replicate (Z.to_nat (2 * k)) (mkLoser 0 false 0))) as (ls & E & HL & HR); [lia| | |].
  - split; [rewrite zlen_replicate; lia|]. intros s Hs. rewrite rd_replicate by lia. f_equal.
    destruct (Z.leb_spec (zlen keys - 1) s), (Z.ltb_spec s (zlen keys - 1)); try lia; done.
  - intros i ls Hi [HL HR]. replace (i + k) with (k + i) by lia. rewrite HR by lia. cbn [mbind option_bind].
    destruct (wr_in ls (k + i) (mkLoser (lkey (if (zlen keys - 1 <=? i) && (i <? i) then mkLoser 0 true 255 else mkLoser 0 false 0)) true 255))
      as [ls2 E2]; [lia|]. exists ls2. split; [done|]. split; [by rewrite (zlen_wr _ _ _ _ E2)|].
    intros s Hs. rewrite (rd_wr _ _ _ _ (k + s) E2). destruct (Z.eqb_spec (k + s) (k + i)) as [Heq|Hne].
    + assert (s = i) as -> by lia. rewrite Z.ltb_irrefl, andb_false_r. cbn [lkey].
      destruct (Z.leb_spec (zlen keys - 1) i), (Z.ltb_spec i (i + 1)); try lia; done.
    + rewrite HR by done. f_equal. destruct (Z.ltb_spec s i), (Z.ltb_spec s (i + 1)); try lia; done.
  - exists ls. split; [done|]. split; [done|]. intros s Hs. rewrite (HR s Hs). f_equal. unfold started.
    destruct (Z.ltb_spec s k), (Z.ltb_spec s 0); try lia. rewrite andb_true_r. by destruct (zlen keys - 1 <=? s).
Qed.

Lemma set_all_keys key ls f : leaves_are ls f -> exists ls',
  for_up 0 (k + k) (fun i ls => l ← ls.[i]; wr ls i (mkLoser key (sup l) (source l))) ls = Some ls' /\
  leaves_are ls' (fun s => mkLoser key (sup (f s)) (source (f s))).
Proof.
  intros [HL HR].
  destruct (for_up_spec (fun i ls' => zlen ls' = 2 * k /\ forall j, 0 <= j < 2 * k ->
      rd ls' j = (if j <? i then (fun l => mkLoser key (sup l) (source l)) <$> rd ls j else rd ls j))
    (fun i ls => l ← ls.[i]; wr ls i (mkLoser key (sup l) (source l))) 0 (k + k) ls) as (ls' & E & HL' & HR'); [lia| | |].
  - split; [done|]. intros j Hj. by destruct (Z.ltb_spec j 0); [lia|].
  - intros i ls1 Hi [HL1 HR1]. destruct (rd_in ls i) as [l El]; [lia|]. rewrite (HR1 i) by lia. rewrite Z.ltb_irrefl, El. cbn [mbind option_bind].
    destruct (wr_in ls1 i (mkLoser key (sup l) (source l))) as [ls2 E2]; [lia|]. exists ls2. split; [done|].
    split; [by rewrite (zlen_wr _ _ _ _ E2)|]. intros j Hj. rewrite (rd_wr _ _ _ _ j E2).
    destruct (Z.eqb_spec j i) as [->|Hne].
    + destruct (Z.ltb_spec i (i + 1)); [|lia]. by rewrite El.
    + rewrite HR1 by done. destruct (Z.ltb_spec j i), (Z.ltb_spec j (i + 1)); try lia; done.
  - exists ls'. split; [done|]. split; [done|]. intros s Hs. rewrite HR' by lia. destruct (Z.ltb_spec (k + s) (k + k)); [|lia].
    by rewrite HR.
Qed.

Lemma insert_start_spec i t : 0 <= i < zlen keys -> tk t = k -> first_insert t = (i =? 0) -> leaves_are (losers t) (started i) ->
  exists t', insert_start t (Some (at_ 0 keys i)) (wrap8 i) false = Some t' /\ tk t' = k /\ first_insert t' = (i + 1 =? 0) /\
    leaves_are (losers t') (started (i + 1)).
Proof.
  intros Hi Htk Hf HLR. destruct HLR as [HL HR]. unfold insert_start, wrap8. rewrite Htk, (Z.mod_small i), Z.mod_small by lia.
  destruct (Z.ltb_spec (k + i) (zlen (losers t))); [|lia]. cbn [Bool.eqb andb].
  change (default 0 (Some (at_ 0 keys i))) with (at_ 0 keys i). rewrite HR by lia. cbn [mbind option_bind].
  destruct (wr_in (losers t) (k + i) (mkLoser (lkey (started i i)) false i)) as [ls E]; [lia|]. rewrite E. cbn [mbind option_bind].
  assert (Hls : leaves_are ls (fun s => if s =? i then mkLoser (lkey (started i i)) false i else started i s)).
  { split; [by rewrite (zlen_wr _ _ _ _ E)|]. intros s Hs. rewrite (rd_wr _ _ _ _ (k + s) E).
    destruct (Z.eqb_spec (k + s) (k + i)), (Z.eqb_spec s i); try lia; [done|by apply HR]. }
  rewrite Hf. destruct (Z.eqb_spec i 0) as [->|Hi0].
  - destruct (set_all_keys (at_ 0 keys 0) ls _ Hls) as (ls' & -> & HL' & HR'). cbn [mbind option_bind].
    eexists. split; [done|]. split; [done|]. split; [done|]. split; [done|]. intros s Hs. cbn [losers]. rewrite HR' by done. f_equal.
    unfold started. destruct (Z.eqb_spec s 0) as [->|Hs0]; [done|]. destruct (Z.ltb_spec s 0), (Z.ltb_spec s (0 + 1)); try lia. done.
  - destruct Hls as [HL2 HR2]. rewrite HR2 by lia. rewrite Z.eqb_refl. cbn [mbind option_bind sup source].
    destruct (wr_in ls (k + i) (mkLoser (at_ 0 keys i) false i)) as [ls2 E2]; [lia|]. rewrite E2. cbn [mbind option_bind].
    eexists. split; [done|]. split; [done|]. cbn [first_insert losers]. split; [by destruct (Z.eqb_spec (i + 1) 0); [lia|]|].
    split; [by rewrite (zlen_wr _ _ _ _ E2)|]. intros s Hs. rewrite (rd_wr _ _ _ _ (k + s) E2).
    destruct (Z.eqb_spec (k + s) (k + i)) as [Heq|Hne].
    + assert (s = i) as -> by lia. unfold started. by destruct (Z.ltb_spec i (i + 1)); [|lia].
    + rewrite HR2 by done. destruct (Z.eqb_spec s i); [lia|]. f_equal. unfold started.
      destruct (Z.ltb_spec s i), (Z.ltb_spec s (i + 1)); try lia; [done|].
      by destruct (Z.eqb_spec i 0), (Z.eqb_spec (i + 1) 0); try lia.
Qed.
End Start.

Lemma start_tree_spec keys : 0 < zlen keys <= 32 ->
  exists t H leaf, start_tree keys = Some t /\ tree_rep t (zlen keys) H leaf /\
    forall s, 0 <= s < zlen keys -> leaf s = mkLoser (at_ 0 keys s) false s.
Proof.
  intros Hlen. destruct (next_pow2_spec (zlen keys) Hlen) as (H & HH & Ep & Hle). set (k := 2 ^ Z.of_nat H) in *.
  pose proof (k_bound k H eq_refl HH) as Hkb. unfold start_tree, LoserTree_of, wrap8. rewrite (Z.mod_small (zlen keys)), Ep by lia.
  cbn [mbind option_bind]. rewrite Z.mod_small by lia.
  destruct (constructed_leaves k Hkb keys ltac:(lia)) as (ls & E1 & HL).
  rewrite E1. cbn [mbind option_bind].
  destruct (for_up_spec (fun i t => tk t = k /\ first_insert t = (i =? 0) /\ leaves_are k (losers t) (started keys i))
    (fun i t => key ← keys.[i]; insert_start t (Some key) (i mod 2 ^ 8) false) 0 (zlen keys) (mkTree k true ls)) as (t & E2 & Htk & _ & HLt & HRt); [lia| | |].
  { by split. }
  { intros i t Hi (H1 & H2 & H3). rewrite (rd_at 0) by lia. cbn [mbind option_bind].
    apply (insert_start_spec k Hkb keys ltac:(lia) i t); [lia|done..]. }
  rewrite E2. cbn [mbind option_bind]. set (leaf := started keys (zlen keys)) in *.
  assert (Hleaf : leaf_ok k (zlen keys) leaf).
  { intros s Hs. unfold leaf, started. destruct (Z.ltb_spec s (zlen keys)); [split; [done|lia]|]. simpl.
    destruct (Z.leb_spec (zlen keys - 1) s); [done|lia]. }
  unfold init. rewrite Htk.
  destruct (init_winner_spec k Hkb (zlen keys) leaf Hleaf H 1 (losers t) 9) as (ls' & w & -> & HL' & Hw & Ew & Hfr & Hn);
    [lia|unfold at_height; fold k; lia|lia|done|done|]. cbn [mbind option_bind]. rewrite Ew. cbn [mbind option_bind].
  destruct (wr_in ls' 0 (win k leaf H 1)) as [ls2 E3]; [lia|]. rewrite E3. cbn [mbind option_bind].
  eexists _, H, leaf. split; [done|]. split.
  - constructor; cbn [tk losers]; try done.
    + by rewrite (zlen_wr _ _ _ _ E3).
    + by rewrite (rd_wr _ _ _ _ 0 E3).
    + intros h i Hi. rewrite (rd_wr _ _ _ _ i E3). destruct (Z.eqb_spec i 0) as [->|Hi0]; [destruct Hi; lia|]. apply Hn; [done|].
      destruct Hi as [Hi1 Hi2]. exists h. fold k. assert (Hh : (S h <= H)%nat).
      { destruct (le_lt_dec (S h) H) as [|Hgt]; [done|]. exfalso. assert (2 * k <= 2 ^ Z.of_nat (S h)).
        { rewrite pow_S. enough (k <= 2 ^ Z.of_nat h) by lia. apply Z.pow_le_mono_r; lia. }
        assert (0 < i) by (pose proof (pow_pos' (S h)); nia). nia. }
      split; [done|]. split; [by split|]. lia.
    + lia.
  - intros s Hs. unfold leaf, started. by destruct (Z.ltb_spec s (zlen keys)); [|lia].
Qed.

(** ** Any sequence of replacements *)

(** The calls of an iterator: the winning sequence moves on to its next key or ends. *)
Fixpoint replace_winners (t : LoserTree) (nexts : list (option Z)) : option LoserTree :=
  match nexts with
  | [] => Some t
  | next :: nexts => t ← delete_min_insert t next (match next with None => true | Some _ => false end); replace_winners t nexts
  end.

(** The heads of the sequences after them. *)
Definition set_head (heads : list (option Z)) (s : Z) (next : option Z) : list (option Z) := <[Z.to_nat s := next]> heads.

(** Sequence [s] has the least head, and no earlier sequence has the same one. *)
Definition least_head (heads : list (option Z)) (s : Z) : Prop :=
  exists x, heads.[s] = Some (Some x) /\ forall s' x', heads.[s'] = Some (Some x') -> x < x' \/ x = x' /\ s <= s'.

(** [heads] after the winners have been replaced one by one. *)
Inductive replaced_heads : list (option Z) -> list (option Z) -> list (option Z) -> Prop :=
| RH_nil heads : replaced_heads heads [] heads
| RH_cons heads s next nexts heads' : least_head heads s -> replaced_heads (set_head heads s next) nexts heads' ->
    replaced_heads heads (next :: nexts) heads'.

Definition holds_heads (t : LoserTree) (heads : list (option Z)) : Prop :=
  exists H leaf, tree_rep t (zlen heads) H leaf /\
    forall s h, heads.[s] = Some h -> match h with Some x => sup (leaf s) = false /\ lkey (leaf s) = x | None => sup (leaf s) = true end.

Lemma holds_heads_winner t heads : holds_heads t heads -> (exists s x, heads.[s] = Some (Some x)) ->
  exists s, min_source t = Some s /\ least_head heads s.
Proof.
  intros (H & leaf & Hr & Hl) (s0 & x0 & E0).
  destruct (min_source_least t (zlen heads) H leaf Hr) as (s & Em & Hs & Hsup & Hmin).
  { exists s0. split; [by eapply rd_Some|]. by destruct (Hl _ _ E0). }
  exists s. split; [done|]. destruct (rd_in heads s Hs) as [[x|] Ex]; pose proof (Hl _ _ Ex) as Hx; [|by rewrite Hx in Hsup].
  exists x. split; [done|]. intros s' x' E'. destruct (Hl _ _ E') as [Hs' <-]. destruct Hx as [_ <-].
  apply Hmin; [by eapply rd_Some|done].
Qed.

Lemma holds_heads_replace t heads s next : holds_heads t heads -> min_source t = Some s -> 0 <= s < zlen heads ->
  exists t', delete_min_insert t next (match next with None => true | Some _ => false end) = Some t' /\ holds_heads t' (set_head heads s next).
Proof.
  intros (H & leaf & Hr & Hl) Em Hs.
  destruct (delete_min_insert_spec t (zlen heads) H leaf s next _ Hr Em ltac:(lia) eq_refl) as (t' & E & Hr'). exists t'. split; [done|].
  eexists H, _. split; [unfold set_head, zlen; rewrite length_insert; exact Hr'|]. intros s' h E'. unfold replaced.
  unfold set_head, rd in E'. destruct (Z.leb_spec 0 s'); [|done]. apply list_lookup_insert_Some in E' as [(Heq & <- & _)|[Hne E']].
  - assert (s' = s) as -> by lia. rewrite Z.eqb_refl. by destruct next.
  - destruct (Z.eqb_spec s' s); [lia|]. apply Hl. unfold rd. by destruct (Z.leb_spec 0 s'); [|lia].
Qed.

Lemma replace_winners_spec nexts : forall t heads heads', holds_heads t heads -> replaced_heads heads nexts heads' ->
  exists t', replace_winners t nexts = Some t' /\ holds_heads t' heads'.
Proof.
  induction nexts as [|next nexts IH]; intros t heads heads' Ht Hr; inversion Hr as [|? s ? ? ? Hs Hr']; subst; [by exists t|].
  destruct Hs as (x & Ex & Hmin). destruct (holds_heads_winner t heads Ht) as (s' & Em & (x' & Ex' & Hmin')); [by exists s, x|].
  assert (s' = s) as -> by (specialize (Hmin _ _ Ex'); specialize (Hmin' _ _ Ex); lia).
  destruct (holds_heads_replace t heads s next Ht Em) as (t1 & E1 & Ht1); [by eapply rd_Some|]. cbn [replace_winners]. rewrite E1. cbn [mbind option_bind].
  by eapply IH.
Qed.

(** C31: a tournament tree started on up to 32 heads and replayed after any number of
    replacements of its winner always has the least head as its winner, the earlier
    sequence on ties, as long as a sequence is left. *)
Theorem tournament_winner keys nexts heads : 0 < zlen keys <= 32 -> replaced_heads (Some <$> keys) nexts heads ->
  (exists s x, heads.[s] = Some (Some x)) ->
  exists t t' s, start_tree keys = Some t /\ replace_winners t nexts = Some t' /\ min_source t' = Some s /\ least_head heads s.
Proof.
  intros Hlen Hr Hex. destruct (start_tree_spec keys Hlen) as (t & H & leaf & E & Ht & Hleaf).
  assert (Hh : holds_heads t (Some <$> keys)).
  { exists H, leaf. split; [unfold zlen in *; by rewrite length_fmap|]. intros s h Es. pose proof (rd_Some _ _ _ Es) as Hs. unfold zlen in Hs.
    rewrite length_fmap in Hs. rewrite Hleaf by done. unfold rd in Es. destruct (Z.leb_spec 0 s); [|done]. rewrite list_lookup_fmap in Es.
    destruct (keys !! Z.to_nat s) as [x|] eqn:Ex; [|done]. injection Es as <-. cbn. split; [done|].
    unfold at_, rd. destruct (Z.leb_spec 0 s); [|lia]. by rewrite Ex. }
  destruct (replace_winners_spec nexts t _ heads Hh Hr) as (t' & E' & Ht'). destruct (holds_heads_winner t' heads Ht' Hex) as (s & Em & Hs).
  by exists t, t', s.
Qed.

(** Three sequences: the second wins, moves on to 9 and the first wins the tie with
    the third. *)
Lemma tournament_winner_witness : exists t t' s, start_tree [5; 3; 5] = Some t /\ replace_winners t [Some 9] = Some t' /\
  min_source t' = Some s /\ least_head [Some 5; Some 9; Some 5] s.
Proof.
  apply (tournament_winner [5; 3; 5] [Some 9] [Some 5; Some 9; Some 5]).
  - vm_compute. split; [reflexivity|discriminate].
  - apply (RH_cons _ 1); [|apply RH_nil]. exists 3. split; [reflexivity|]. intros s' x' E. pose proof (rd_Some _ _ _ E) as Hs.
    change (zlen (Some <$> [5; 3; 5])) with 3 in Hs. assert (s' = 0 \/ s' = 1 \/ s' = 2) as [->|[->| ->]] by lia; injection E as <-; lia.
  - exists 0, 5. reflexivity.
Defined.
