(* ===== verification/PgmDynamic.v ===== *)
(** * The dynamic PGM index (competitor/pgm/src/pgm_index_dynamic.hpp, pgm.h)

    A log-structured container: level 6 is a sorted buffer of at most 127 items,
    level [i] a sorted array of at most [2^i], and levels from 18 on have a static
    index.  A full buffer is merged with the levels above it.  An erased key is an
    item with a reserved value; the item of the lowest level with a key counts.

    [None] is undefined behaviour or an exception, which no caller catches. *)

From S2P Require Import Prelude Words PgmIndex LoserTree.
From stdpp Require Import gmap list.
Local Open Scope Z_scope.
Local Open Scope cxx_scope.

(** ** Items *)

Record Item := mkItem {
  ikey : Z;
  ival : Z
}.

(** [get_tombstone]: the largest value. *)
Definition tombstone : Z := u64_max.

Definition deleted (it : Item) : bool := ival it =? tombstone.

(** [ItemA(key)] and [ItemA(key, value)]. *)
Definition item_deleted (k : Z) : Item := mkItem k tombstone.
Definition item_of (k v : Z) : option Item := if v =? tombstone then None else Some (mkItem k v).

(** ** State *)

Definition min_level : Z := 6.
Definition MinIndexedLevel : Z := 18.
Definition buffer_max_size : Z := 2 ^ (min_level + 1) - 1.

Record DynamicPGMIndex := mkDyn {
  used_levels : Z;
  levels : list (list Item);
  pgms : list PGMIndex
}.

Definition level (d : DynamicPGMIndex) (i : Z) : option (list Item) := (levels d).[i - min_level].
Definition pgm (d : DynamicPGMIndex) (i : Z) : option PGMIndex := (pgms d).[i - MinIndexedLevel].

Definition ceil_log2 (n : Z) : Z := if n <=? 1 then 0 else 64 - lzcnt64 (n - 1).

(** ** Merging *)

(** [merge<SkipDeleted>]: an item of the first sequence hides one with the same key. *)
Fixpoint merge (SkipDeleted : bool) (l1 : list Item) : list Item -> list Item :=
  match l1 with
  | [] => fun l2 => l2
  | a :: l1' =>
      fix merge_with (l2 : list Item) : list Item :=
        match l2 with
        | [] => a :: l1'
        | b :: l2' =>
            if ikey b <? ikey a then b :: merge_with l2'
            else if ikey a <? ikey b then a :: merge SkipDeleted l1' (b :: l2')
            else if SkipDeleted && deleted a then merge SkipDeleted l1' l2'
            else a :: merge SkipDeleted l1' l2'
        end
  end.

(** Temporary arrays are not initialised. *)
Definition buffer_write (buf : list (option Item)) (l : list Item) : option (list (option Item)) :=
  if zlen l <=? zlen buf then Some ((Some <$> l) ++ drop (length l) buf) else None.

Definition buffer_read (buf : list (option Item)) (size : Z) : option (list Item) :=
  if size <=? zlen buf then mapM id (take (Z.to_nat size) buf) else None.

Record Merging := mkMerging {
  m_levels : list (list Item);
  m_pgms : list PGMIndex;
  tmp_a : list (option Item);
  tmp_b : list (option Item);
  actual_size : Z
}.

(** One round of "Merge subsequent levels"; [md] is the parity of the rounds. *)
Definition merge_level (used md : Z) (i : Z) (m : Merging) : option Merging :=
  let alternate := (i - min_level) mod 2 =? md in
  run ← buffer_read (if alternate then tmp_a m else tmp_b m) (actual_size m);
  l ← (m_levels m).[i - min_level];
  let can_delete_permanently := i =? used - 1 in
  let out := merge can_delete_permanently run l in
  buf ← buffer_write (if alternate then tmp_b m else tmp_a m) out;
  ls ← wr (m_levels m) (i - min_level) [];
  ps ← (if MinIndexedLevel <=? i then wr (m_pgms m) (i - MinIndexedLevel) PGMIndex_default else Some (m_pgms m));
  Some (mkMerging ls ps (if alternate then tmp_a m else buf) (if alternate then buf else tmp_b m) (zlen out)).

(** [resize] of a vector whose new elements are not initialised. *)
Definition resize_uninit (buf : list (option Item)) (size : Z) : list (option Item) :=
  take (Z.to_nat size) buf ++ replicate (Z.to_nat size - length buf) None.

Definition pairwise_merge (max_threads : Z) (d : DynamicPGMIndex) (new_item : Item) (up_to_level size_hint insertion_point : Z)
    : option DynamicPGMIndex :=
  let target := up_to_level + 1 in
  l ← level d target;
  if 2 ^ (1 + min_level) <=? wrap64 (2 ^ target - zlen l) then
    let tmp_a0 := replicate (Z.to_nat size_hint) None in
    let tmp_b0 := replicate (Z.to_nat (size_hint + zlen l)) None in
    let md := (up_to_level - min_level) mod 2 in
    buffer ← (levels d).[0];
    let run := take (Z.to_nat insertion_point) buffer ++ [new_item] ++ drop (Z.to_nat insertion_point) buffer in
    tmp ← buffer_write (if md =? 1 then tmp_a0 else tmp_b0) run;
    let limit := (match l with [] => up_to_level | _ => up_to_level + 1 end) in
    m ← for_up (1 + min_level) (limit + 1) (merge_level (used_levels d) md)
          (mkMerging (levels d) (pgms d) (if md =? 1 then tmp else tmp_a0) (if md =? 1 then tmp_b0 else tmp) (2 ^ (1 + min_level)));
    items ← mapM id (resize_uninit (tmp_b m) (actual_size m));
    let target := Z.max (ceil_log2 (actual_size m)) (min_level + 1) in
    ls ← wr (m_levels m) 0 [];
    ls ← wr ls (target - min_level) items;
    if MinIndexedLevel <=? target then
      p ← PGMIndex_of max_threads (ikey <$> items);
      ps ← wr (m_pgms m) (target - MinIndexedLevel) p;
      Some (mkDyn (used_levels d) ls ps)
    else Some (mkDyn (used_levels d) ls (m_pgms m))
  else None.

(** ** Insertion *)

(** [std::lower_bound] and [std::upper_bound] on a sorted range. *)
Fixpoint skip_while {A} (f : A -> bool) (l : list A) : Z :=
  match l with
  | x :: l => if f x then 1 + skip_while f l else 0
  | [] => 0
  end.

Definition bound_in (f : Item -> bool) (l : list Item) (lo hi : Z) : option Z :=
  if (0 <=? lo) && (lo <=? hi) && (hi <=? zlen l) then
    Some (lo + skip_while f (take (Z.to_nat (hi - lo)) (drop (Z.to_nat lo) l)))
  else None.

Definition lower_bound_in (l : list Item) (lo hi k : Z) : option Z := bound_in (fun it => ikey it <? k) l lo hi.
Definition upper_bound_in (l : list Item) (lo hi k : Z) : option Z := bound_in (fun it => ikey it <=? k) l lo hi.

(** The loop that looks for a level with room for all smaller ones. *)
Definition find_target (d : DynamicPGMIndex) : option (Z * Z) :=
  loop (S (length (levels d))) (fun '(i, slots_required) =>
    if i <? used_levels d then
      l ← level d i;
      let slots_left_in_level := wrap64 (2 ^ i - zlen l) in
      Some (if slots_required <=? slots_left_in_level then inr (i, slots_required)
            else inl (i + 1, slots_required + zlen l))
    else Some (inr (i, slots_required))) (min_level + 1, buffer_max_size + 1).

(** A level above all used ones. *)
Definition add_level (d : DynamicPGMIndex) (i : Z) : DynamicPGMIndex :=
  mkDyn (wrap8 (used_levels d + 1)) (levels d ++ [[]])
    (if zlen (pgms d) <=? i - MinIndexedLevel then pgms d ++ [PGMIndex_default] else pgms d).

(** [insert(const Item &)]: an item with the same key in the buffer stays. *)
Definition insert_item (max_threads : Z) (d : DynamicPGMIndex) (new_item : Item) : option (DynamicPGMIndex * bool) :=
  buffer ← (levels d).[0];
  insertion_point ← lower_bound_in buffer 0 (zlen buffer) (ikey new_item);
  if (match buffer.[insertion_point] with Some it => ikey it =? ikey new_item | None => false end) then Some (d, false)
  else if zlen buffer <? buffer_max_size then
    let buffer := take (Z.to_nat insertion_point) buffer ++ [new_item] ++ drop (Z.to_nat insertion_point) buffer in
    ls ← wr (levels d) 0 buffer;
    Some (mkDyn (if used_levels d =? min_level then min_level + 1 else used_levels d) ls (pgms d), true)
  else
    '(i, slots_required) ← find_target d;
    let d := if i =? used_levels d then add_level d i else d in
    d ← pairwise_merge max_threads d new_item (i - 1) slots_required insertion_point;
    Some (d, true).

Definition insert (max_threads : Z) (d : DynamicPGMIndex) (k v : Z) : option (DynamicPGMIndex * bool) :=
  it ← item_of k v;
  insert_item max_threads d it.

Definition erase (max_threads : Z) (d : DynamicPGMIndex) (k : Z) : option DynamicPGMIndex :=
  '(d, _) ← insert_item max_threads d (item_deleted k);
  Some d.

(** ** Construction *)

(** The default constructor. *)
Definition DynamicPGMIndex_default : DynamicPGMIndex := mkDyn min_level (replicate (Z.to_nat (32 - min_level)) []) [].

(** The first of each group of pairs with the same key, after the key [prev]. *)
Fixpoint copy_unique (prev : Z) (kvs : list (Z * Z)) : option (list Item) :=
  match kvs with
  | [] => Some []
  | (k, v) :: kvs =>
      if k <? prev then None
      else if k =? prev then copy_unique prev kvs
      else
        it ← item_of k v;
        rest ← copy_unique k kvs;
        Some (it :: rest)
  end.

(** The constructor from a sorted range. *)
Definition DynamicPGMIndex_of (max_threads : Z) (kvs : list (Z * Z)) : option DynamicPGMIndex :=
  let n := zlen kvs in
  let used := wrap8 (Z.max (ceil_log2 n) min_level + 1) in
  let ls := replicate (Z.to_nat (Z.max used 32 - min_level + 1)) [] in
  match kvs with
  | [] => Some (mkDyn min_level ls [])
  | (k, v) :: kvs =>
      it ← item_of k v;
      rest ← copy_unique k kvs;
      let target := it :: rest in
      ls ← wr ls (used - 1 - min_level) target;
      if MinIndexedLevel <=? used - 1 then
        p ← PGMIndex_of max_threads (ikey <$> target);
        ps ← wr (replicate (Z.to_nat (used - MinIndexedLevel)) PGMIndex_default) (used - 1 - MinIndexedLevel) p;
        Some (mkDyn used ls ps)
      else Some (mkDyn used ls [])
  end.

(** ** Search *)

(** A position in a vector of [levels]; [level_number] is kept apart, because [end]
    has the index of the last vector there. *)
Record Cursor := mkCursor {
  level_number : Z;
  cell : Z;
  cpos : Z
}.

#[export] Instance cursor_eq_dec : EqDecision Cursor.
Proof. solve_decision. Defined.

Definition cursor_at (i p : Z) : Cursor := mkCursor i (i - min_level) p.

Definition end_ (d : DynamicPGMIndex) : option Cursor :=
  l ← last (levels d);
  Some (mkCursor (wrap8 (zlen (levels d) - 1)) (zlen (levels d) - 1) (zlen l)).

Definition deref (d : DynamicPGMIndex) (c : Cursor) : option Item :=
  l ← (levels d).[cell c];
  l.[cpos c].

(** The range of level [i] to search. *)
Definition level_range (d : DynamicPGMIndex) (i : Z) (l : list Item) (k : Z) : option (Z * Z) :=
  if MinIndexedLevel <=? i then
    p ← pgm d i;
    range ← search p k;
    Some (lo range, hi range)
  else Some (0, zlen l).

Definition find (d : DynamicPGMIndex) (k : Z) : option Cursor :=
  loop (S (length (levels d))) (fun i =>
    if i <? used_levels d then
      l ← level d i;
      match l with
      | [] => Some (inl (i + 1))
      | _ =>
          '(first, last) ← level_range d i l k;
          it ← lower_bound_in l first last k;
          match l.[it] with
          | Some x =>
              if ikey x =? k then
                if deleted x then e ← end_ d; Some (inr e) else Some (inr (cursor_at i it))
              else Some (inl (i + 1))
          | None => Some (inl (i + 1))
          end
      end
    else e ← end_ d; Some (inr e)) min_level.

Definition count (d : DynamicPGMIndex) (k : Z) : option Z :=
  c ← find d k;
  e ← end_ d;
  Some (if decide (c = e) then 0 else 1).

(** The two inner loops of [lower_bound] on the items from the lower bound on: the
    deleted keys at the start, then the first candidate, at offset [p]. *)
Fixpoint skip_deleted (items : list Item) (p : Z) (del : gset Z) : list Item * Z * gset Z :=
  match items with
  | it :: items' => if deleted it then skip_deleted items' (p + 1) ({[ikey it]} ∪ del) else (items, p, del)
  | [] => ([], p, del)
  end.

Fixpoint candidate (items : list Item) (p : Z) (lb : option (Cursor * Z)) (del : gset Z) : option (Z * Z) :=
  match items with
  | it :: items' =>
      if (match lb with None => true | Some (_, lb_key) => ikey it <? lb_key end) && negb (bool_decide (ikey it ∈ del))
      then Some (p, ikey it)
      else candidate items' (p + 1) lb del
  | [] => None
  end.

(** [lb] is the best cursor so far with its key. *)
Definition lower_bound (d : DynamicPGMIndex) (k : Z) : option Cursor :=
  loop (S (length (levels d))) (fun '(i, lb, del) =>
    if i <? used_levels d then
      l ← level d i;
      match l with
      | [] => Some (inl (i + 1, lb, del))
      | _ =>
          '(first, last) ← level_range d i l k;
          it ← lower_bound_in l first last k;
          let '(items, p, del) := skip_deleted (drop (Z.to_nat it) l) it del in
          Some (inl (i + 1, match candidate items p lb del with
                            | Some (p, key) => Some (cursor_at i p, key)
                            | None => lb
                            end, del))
      end
    else
      match lb with
      | Some (c, _) => Some (inr c)
      | None => e ← end_ d; Some (inr e)
      end) (min_level, None, ∅).

Definition begin (d : DynamicPGMIndex) : option Cursor := lower_bound d 0.

Definition empty (d : DynamicPGMIndex) : option bool :=
  b ← begin d;
  e ← end_ d;
  Some (bool_decide (b = e)).

(** ** Iterators *)

Record Iter := mkIter {
  current : Cursor;
  initialized : bool;
  unconsumed_count : Z;
  tree : LoserTree;
  iterators : list Cursor
}.

(** [Iterator(p, level_number, it)]. *)
Definition iter_at (c : Cursor) : Iter := mkIter c false 0 (mkTree 0 false []) [].

Definition next_pos (c : Cursor) : Cursor := mkCursor (level_number c) (cell c) (cpos c + 1).

Section Iterators.
Context (d : DynamicPGMIndex).

(** Per level, the first position with a key above the current one. *)
Definition start_cursors (k : Z) : option (list Cursor) :=
  loop (S (length (levels d))) (fun '(i, cs) =>
    if i <? used_levels d then
      l ← level d i;
      match l with
      | [] => Some (inl (i + 1, cs))
      | _ =>
          '(first, last) ← level_range d i l k;
          p ← upper_bound_in l first last k;
          Some (inl (i + 1, if p =? zlen l then cs else cs ++ [cursor_at i p]))
      end
    else Some (inr cs)) (min_level, []).

Definition lazy_initialize (it : Iter) : option Iter :=
  if initialized it then Some it
  else
    x ← deref d (current it);
    cs ← start_cursors (ikey x);
    heads ← mapM (deref d) cs;
    t ← start_tree (ikey <$> heads);
    Some (mkIter (current it) true (wrap8 (zlen cs)) t cs).

(** [step]: takes the smallest head and moves its iterator on. *)
Definition step (it : Iter) : option (Iter * Cursor) :=
  s ← min_source (tree it);
  c ← (iterators it).[s];
  let c' := next_pos c in
  cs ← wr (iterators it) s c';
  l ← level d (level_number c);
  if cpos c' =? zlen l then
    t ← delete_min_insert (tree it) None true;
    Some (mkIter (current it) (initialized it) (wrap8 (unconsumed_count it - 1)) t cs, c)
  else
    x ← deref d c';
    t ← delete_min_insert (tree it) (Some (ikey x)) false;
    Some (mkIter (current it) (initialized it) (unconsumed_count it) t cs, c).

(** The inner loop: drops the heads with the key [k]. *)
Definition drop_key (k : Z) (it : Iter) : option Iter :=
  loop (S (length (mjoin (levels d)))) (fun it =>
    if 0 <? unconsumed_count it then
      s ← min_source (tree it);
      c ← (iterators it).[s];
      x ← deref d c;
      if ikey x =? k then '(it, _) ← step it; Some (inl it) else Some (inr it)
    else Some (inr it)) it.

Definition advance (it : Iter) : option Iter :=
  if unconsumed_count it =? 0 then e ← end_ d; Some (iter_at e)
  else
    '(it, tmp) ← loop (S (length (mjoin (levels d)))) (fun it =>
      '(it, tmp) ← step it;
      x ← deref d tmp;
      it ← drop_key (ikey x) it;
      Some (if (0 <? unconsumed_count it) && deleted x then inl it else inr (it, tmp))) it;
    x ← deref d tmp;
    if deleted x then e ← end_ d; Some (iter_at e)
    else Some (mkIter tmp (initialized it) (unconsumed_count it) (tree it) (iterators it)).

(** [operator++]. *)
Definition increment (it : Iter) : option Iter :=
  it ← lazy_initialize it;
  advance it.

(** ** The adapter *)

(** [pgmInterface::get]. *)
Definition pgm_get (k : Z) : option (option Z) :=
  c ← find d k;
  e ← end_ d;
  if decide (c = e) then Some None else x ← deref d c; Some (Some (ival x)).

(** [pgmInterface::scan]. *)
Definition pgm_scan (key_low_bound key_num : Z) : option (list (Z * Z)) :=
  c ← lower_bound d key_low_bound;
  e ← end_ d;
  loop (S (S (length (mjoin (levels d))))) (fun '(it, result) =>
    if (zlen result <? key_num) && negb (bool_decide (current it = e)) then
      x ← deref d (current it);
      it ← increment it;
      Some (inl (it, result ++ [(ikey x, ival x)]))
    else Some (inr result)) (iter_at c, []).
End Iterators.
