(* ===== verification/PgmInv.v ===== *)
(** * The dynamic PGM index: levels as maps

    Every level is sorted and stands for a map; the container stands for the union of
    its levels, lower levels first ([raw]).  This file has the lemmas on sorted item
    lists, the merge of two of them and the invariant [dyn_ok]. *)

From Stdlib Require Import Sorted.
From stdpp Require Import gmap list sorting.
From S2P Require Import Prelude Words PgmIndex LoserTree PgmDynamic.
Local Open Scope Z_scope.
Local Open Scope cxx_scope.

(** ** Sorted lists of items *)

Definition sorted (l : list Item) : Prop := StronglySorted Z.lt (ikey <$> l).

Definition level_map (l : list Item) : gmap Z Z := list_to_map ((fun it => (ikey it, ival it)) <$> l).

Lemma level_map_cons it l : level_map (it :: l) = <[ikey it := ival it]> (level_map l).
Proof. done. Qed.

Lemma sorted_cons it l : sorted (it :: l) -> sorted l /\ forall x, x ∈ l -> ikey it < ikey x.
Proof.
  intros H. apply StronglySorted_inv in H as [H Hall]. split; [done|]. intros x Hx. rewrite List.Forall_forall in Hall.
  apply Hall, list_elem_of_In, list_elem_of_fmap. by exists x.
Qed.

Lemma sorted_intro it l : sorted l -> (forall x, x ∈ l -> ikey it < ikey x) -> sorted (it :: l).
Proof.
  intros H Hx. constructor; [done|]. apply List.Forall_forall. intros k (x & -> & Hin)%list_elem_of_In%list_elem_of_fmap. by apply Hx.
Qed.

Lemma items_sorted_app a b : sorted (a ++ b) -> sorted a /\ sorted b /\ forall x y, x ∈ a -> y ∈ b -> ikey x < ikey y.
Proof.
  induction a as [|it a IH]; intros H; [split; [constructor|]; split; [done|]; intros x y Hx; by apply elem_of_nil in Hx|].
  apply sorted_cons in H as [H Hlt]. destruct (IH H) as (Ha & Hb & Hab). split; [|split; [done|]].
  - apply sorted_intro; [done|]. intros x Hx. apply Hlt, elem_of_app. by left.
  - intros x y [->|Hx]%elem_of_cons Hy; [apply Hlt, elem_of_app; by right|by apply Hab].
Qed.

Lemma sorted_app_intro a b : sorted a -> sorted b -> (forall x y, x ∈ a -> y ∈ b -> ikey x < ikey y) -> sorted (a ++ b).
Proof.
  induction a as [|it a IH]; intros Ha Hb Hab; [done|]. apply sorted_cons in Ha as [Ha Hlt]. simpl. apply sorted_intro.
  - apply IH; [done|done|]. intros x y Hx Hy. apply Hab; [by constructor|done].
  - intros x [Hx|Hx]%elem_of_app; [by apply Hlt|]. apply Hab; [constructor|done].
Qed.

Lemma sorted_NoDup l : sorted l -> NoDup (ikey <$> l).
Proof.
  induction l as [|it l IH]; intros H; [constructor|]. apply sorted_cons in H as [H Hlt]. constructor; [|by apply IH].
  intros (x & Hk & Hx)%list_elem_of_fmap. specialize (Hlt x Hx). lia.
Qed.

Lemma level_map_Some l k v : sorted l -> level_map l !! k = Some v <-> mkItem k v ∈ l.
Proof.
  intros Hs. unfold level_map. rewrite <-elem_of_list_to_map.
  - rewrite list_elem_of_fmap. split; [intros ([k' v'] & [= -> ->] & Hx); done|intros Hx; by exists (mkItem k v)].
  - rewrite <-list_fmap_compose. by apply sorted_NoDup.
Qed.

Lemma level_map_None l k : level_map l !! k = None <-> forall x, x ∈ l -> ikey x <> k.
Proof.
  unfold level_map. split.
  - intros H x Hx <-. apply not_elem_of_list_to_map in H. apply H. rewrite <-list_fmap_compose. apply list_elem_of_fmap. by exists x.
  - intros H. apply not_elem_of_list_to_map. rewrite <-list_fmap_compose. intros (x & -> & Hx)%list_elem_of_fmap. by apply (H x).
Qed.

(** *** Bounds *)

Lemma skip_while_spec {A} (f : A -> bool) l : 0 <= skip_while f l <= zlen l /\
  (forall x, x ∈ take (Z.to_nat (skip_while f l)) l -> f x = true) /\
  (forall x, rd l (skip_while f l) = Some x -> f x = false).
Proof.
  induction l as [|y l (IH1 & IH2 & IH3)]; cbn [skip_while]; [repeat split; [lia|unfold zlen; simpl; lia|intros x Hx; by apply elem_of_nil in Hx|done]|].
  unfold zlen in *. simpl length. destruct (f y) eqn:E.
  - split; [lia|]. split.
    + intros x. replace (Z.to_nat (1 + skip_while f l)) with (S (Z.to_nat (skip_while f l))) by lia. simpl.
      intros [->|Hx]%elem_of_cons; [done|by apply IH2].
    + intros x. unfold rd. destruct (Z.leb_spec 0 (1 + skip_while f l)); [|lia].
      replace (Z.to_nat (1 + skip_while f l)) with (S (Z.to_nat (skip_while f l))) by lia. simpl. intros Hx. apply IH3.
      unfold rd. by destruct (Z.leb_spec 0 (skip_while f l)); [|lia].
  - split; [lia|]. split; [intros x Hx; by apply elem_of_nil in Hx|]. intros x Hx. by injection Hx as ->.
Qed.

(** The two sides of a bound in a whole level. *)
Definition splits (l : list Item) (f : Z -> bool) (p : Z) : Prop :=
  0 <= p <= zlen l /\ (forall x, x ∈ take (Z.to_nat p) l -> f (ikey x) = true) /\
  (forall x, x ∈ drop (Z.to_nat p) l -> f (ikey x) = false).

Lemma bound_spec l (f : Z -> bool) : sorted l -> (forall a b, a <= b -> f b = true -> f a = true) ->
  exists p, bound_in (fun it => f (ikey it)) l 0 (zlen l) = Some p /\ splits l f p.
Proof.
  intros Hs Hf. unfold bound_in. rewrite !Z.leb_refl. pose proof (zlen_nonneg l). destruct (Z.leb_spec 0 (zlen l)); [|lia].
  cbn [andb]. rewrite Z.sub_0_r. change (Z.to_nat 0) with 0%nat. rewrite drop_0, Z.add_0_l.
  replace (take (Z.to_nat (zlen l)) l) with l by (symmetry; apply take_ge; unfold zlen; lia).
  destruct (skip_while_spec (fun it => f (ikey it)) l) as (H1 & H2 & H3). eexists. split; [done|]. split; [lia|]. split; [done|].
  set (p := skip_while _ l) in *. intros x Hx. destruct (f (ikey x)) eqn:E; [|done].
  destruct (drop (Z.to_nat p) l) as [|y ys] eqn:Ed; [by apply elem_of_nil in Hx|].
  assert (Hy : f (ikey y) = false).
  { apply H3. unfold rd. destruct (Z.leb_spec 0 p); [|lia]. rewrite <-(Nat.add_0_r (Z.to_nat p)), <-lookup_drop, Ed. done. }
  apply elem_of_cons in Hx as [->|Hx]; [congruence|].
  rewrite <-(take_drop (Z.to_nat p) l), Ed in Hs. apply items_sorted_app in Hs as (_ & Hs & _). apply sorted_cons in Hs as [_ Hlt].
  specialize (Hlt x Hx). rewrite (Hf (ikey y) (ikey x)) in Hy; [done|lia|done].
Qed.

Lemma lower_bound_spec l k : sorted l -> exists p, lower_bound_in l 0 (zlen l) k = Some p /\ splits l (fun x => x <? k) p.
Proof. intros Hs. apply (bound_spec l (fun x => x <? k) Hs). intros a b Hab Hb. btest. apply Z.ltb_lt. lia. Qed.

Lemma upper_bound_spec l k : sorted l -> exists p, upper_bound_in l 0 (zlen l) k = Some p /\ splits l (fun x => x <=? k) p.
Proof. intros Hs. apply (bound_spec l (fun x => x <=? k) Hs). intros a b Hab Hb. btest. apply Z.leb_le. lia. Qed.

Lemma splits_rd l f p : splits l f p -> rd l p = head (drop (Z.to_nat p) l).
Proof.
  intros ((H0 & _) & _). unfold rd. destruct (Z.leb_spec 0 p); [|lia].
  rewrite <-(Nat.add_0_r (Z.to_nat p)) at 1. rewrite <-lookup_drop. by destruct (drop (Z.to_nat p) l).
Qed.

(** What a lower bound finds: the item with the key, if there is one. *)
Lemma lower_bound_hit l k p : sorted l -> splits l (fun x => x <? k) p ->
  match rd l p with
  | Some x => if ikey x =? k then level_map l !! k = Some (ival x) else level_map l !! k = None
  | None => level_map l !! k = None
  end.
Proof.
  intros Hs Hp. pose proof (splits_rd _ _ _ Hp) as E. destruct Hp as (_ & HL & HR). rewrite E.
  assert (Hnone : (forall x, x ∈ drop (Z.to_nat p) l -> ikey x <> k) -> level_map l !! k = None).
  { intros H. apply level_map_None. intros x Hx. rewrite <-(take_drop (Z.to_nat p) l) in Hx. apply elem_of_app in Hx as [Hx|Hx]; [|by apply H].
    specialize (HL x Hx). btest. lia. }
  destruct (drop (Z.to_nat p) l) as [|y ys] eqn:Ed; simpl.
  - apply Hnone. intros x Hx. by apply elem_of_nil in Hx.
  - assert (Hy : y ∈ l) by (rewrite <-(take_drop (Z.to_nat p) l), Ed; apply elem_of_app; right; constructor).
    destruct (Z.eqb_spec (ikey y) k) as [<-|Hne].
    + apply level_map_Some; [done|]. by destruct y.
    + apply Hnone. intros x Hx. specialize (HR y ltac:(constructor)). btest.
      rewrite <-(take_drop (Z.to_nat p) l), Ed in Hs. apply items_sorted_app in Hs as (_ & Hs & _). apply sorted_cons in Hs as [_ Hlt].
      apply elem_of_cons in Hx as [->|Hx]; [done|]. specialize (Hlt x Hx). lia.
Qed.

(** Inserting at a lower bound. *)
Lemma insert_at_bound l it p : sorted l -> splits l (fun x => x <? ikey it) p -> level_map l !! ikey it = None ->
  let l' := take (Z.to_nat p) l ++ [it] ++ drop (Z.to_nat p) l in
  sorted l' /\ level_map l' = <[ikey it := ival it]> (level_map l) /\ zlen l' = zlen l + 1.
Proof.
  intros Hs (Hp & HL & HR) Hno. cbn zeta.
  pose proof Hs as Hs'. rewrite <-(take_drop (Z.to_nat p) l) in Hs'. apply items_sorted_app in Hs' as (Ha & Hb & Hab).
  assert (Hgt : forall x, x ∈ drop (Z.to_nat p) l -> ikey it < ikey x).
  { intros x Hx. specialize (HR x Hx). btest. rewrite level_map_None in Hno.
    specialize (Hno x ltac:(rewrite <-(take_drop (Z.to_nat p) l); apply elem_of_app; by right)). lia. }
  assert (Hlt : forall x, x ∈ take (Z.to_nat p) l -> ikey x < ikey it) by (intros x Hx; specialize (HL x Hx); btest; lia).
  assert (Hsort : sorted (take (Z.to_nat p) l ++ [it] ++ drop (Z.to_nat p) l)).
  { apply sorted_app_intro; [done|by apply sorted_intro|]. intros x y Hx [->|Hy]%elem_of_cons; [by apply Hlt|].
    specialize (Hlt x Hx). specialize (Hgt y Hy). lia. }
  split; [done|]. split; [|rewrite <-(take_drop (Z.to_nat p) l) at 3; rewrite !zlen_app; unfold zlen at 2; simpl; lia].
  apply map_eq. intros k. apply option_eq. intros v. rewrite level_map_Some by done.
  rewrite lookup_insert_Some, level_map_Some by done.
  replace (mkItem k v ∈ l) with (mkItem k v ∈ take (Z.to_nat p) l ++ drop (Z.to_nat p) l) by (by rewrite take_drop).
  rewrite !elem_of_app, list_elem_of_singleton. split.
  - intros [H|[<-|H]]; [right| |right]; [|by left|]; (split; [|by auto]).
    + specialize (Hlt _ H). simpl in Hlt. lia.
    + specialize (Hgt _ H). simpl in Hgt. lia.
  - intros [[<- <-]|[_ H]]; [right; left; by destruct it|tauto].
Qed.

(** ** Merging two levels *)

Lemma merge_nil l1 : merge false l1 [] = l1.
Proof. by destruct l1. Qed.

Lemma merge_cons a l1 b l2 : merge false (a :: l1) (b :: l2) =
  if ikey b <? ikey a then b :: merge false (a :: l1) l2
  else if ikey a <? ikey b then a :: merge false l1 (b :: l2)
  else a :: merge false l1 l2.
Proof. done. Qed.

(** Induction along a merge. *)
Lemma merge_ind (P : list Item -> list Item -> list Item -> Prop) :
  (forall l2, P [] l2 l2) -> (forall l1, P l1 [] l1) ->
  (forall a l1 b l2 r, ikey b < ikey a -> P (a :: l1) l2 r -> P (a :: l1) (b :: l2) (b :: r)) ->
  (forall a l1 b l2 r, ikey a < ikey b -> P l1 (b :: l2) r -> P (a :: l1) (b :: l2) (a :: r)) ->
  (forall a l1 b l2 r, ikey a = ikey b -> P l1 l2 r -> P (a :: l1) (b :: l2) (a :: r)) ->
  forall l1 l2, P l1 l2 (merge false l1 l2).
Proof.
  intros H1 H2 H3 H4 H5. induction l1 as [|a l1 IH]; [done|].
  induction l2 as [|b l2 IH2]; [by rewrite merge_nil|]. rewrite merge_cons.
  destruct (Z.ltb_spec (ikey b) (ikey a)); [by apply H3|]. destruct (Z.ltb_spec (ikey a) (ikey b)); [by apply H4|].
  apply H5; [lia|done].
Qed.

Lemma merge_elem l1 l2 : forall x, x ∈ merge false l1 l2 -> x ∈ l1 \/ x ∈ l2.
Proof.
  apply (merge_ind (fun l1 l2 r => forall x, x ∈ r -> x ∈ l1 \/ x ∈ l2)); clear l1 l2; try tauto;
    intros a l1 b l2 r Hab IH x [->|Hx]%elem_of_cons; rewrite ?elem_of_cons in *; try tauto;
    destruct (IH x Hx) as [H|H]; rewrite ?elem_of_cons in H; tauto.
Qed.

Lemma merge_sorted l1 l2 : sorted l1 -> sorted l2 -> sorted (merge false l1 l2).
Proof.
  assert (H : forall l1 l2, sorted l1 -> sorted l2 -> sorted (merge false l1 l2) /\
    forall x, x ∈ merge false l1 l2 -> x ∈ l1 \/ x ∈ l2); [|intros; by apply H].
  clear l1 l2. apply (merge_ind (fun l1 l2 r => sorted l1 -> sorted l2 -> sorted r /\ forall x, x ∈ r -> x ∈ l1 \/ x ∈ l2)).
  1, 2: by intros; split; [|tauto].
  all: intros a l1 b l2 r Hab IH Ha Hb; pose proof (sorted_cons _ _ Ha) as [Ha' La]; pose proof (sorted_cons _ _ Hb) as [Hb' Lb].
  - destruct (IH Ha Hb') as [IH1 IH2]. split; [|intros x [->|Hx]%elem_of_cons; rewrite ?elem_of_cons in *; [tauto|]; destruct (IH2 x Hx) as [H|H]; rewrite ?elem_of_cons in H; tauto].
    apply sorted_intro; [done|]. intros x Hx. destruct (IH2 x Hx) as [[->|H]%elem_of_cons|H]; [done| |by apply Lb].
    specialize (La x H). lia.
  - destruct (IH Ha' Hb) as [IH1 IH2]. split; [|intros x [->|Hx]%elem_of_cons; rewrite ?elem_of_cons in *; [tauto|]; destruct (IH2 x Hx) as [H|H]; rewrite ?elem_of_cons in H; tauto].
    apply sorted_intro; [done|]. intros x Hx. destruct (IH2 x Hx) as [H|[->|H]%elem_of_cons]; [by apply La|done|].
    specialize (Lb x H). lia.
  - destruct (IH Ha' Hb') as [IH1 IH2]. split; [|intros x [->|Hx]%elem_of_cons; rewrite ?elem_of_cons in *; [tauto|]; destruct (IH2 x Hx) as [H|H]; tauto].
    apply sorted_intro; [done|]. intros x Hx. destruct (IH2 x Hx) as [H|H]; [by apply La|]. specialize (Lb x H). lia.
Qed.

Lemma merge_map l1 l2 : sorted l1 -> level_map (merge false l1 l2) = level_map l1 ∪ level_map l2.
Proof.
  revert l1 l2. apply (merge_ind (fun l1 l2 r => sorted l1 -> level_map r = level_map l1 ∪ level_map l2)).
  - intros l2 _. change (level_map []) with (∅ : gmap Z Z). by rewrite (left_id_L ∅ (∪)).
  - intros l1 _. change (level_map []) with (∅ : gmap Z Z). by rewrite (right_id_L ∅ (∪)).
  - intros a l1 b l2 r Hab IH Ha. rewrite !(level_map_cons b), (IH Ha). apply insert_union_r.
    apply level_map_None. pose proof (sorted_cons _ _ Ha) as [_ La]. intros x [->|Hx]%elem_of_cons; [lia|]. specialize (La x Hx). lia.
  - intros a l1 b l2 r Hab IH Ha. pose proof (sorted_cons _ _ Ha) as [Ha' _]. rewrite !(level_map_cons a), (IH Ha'). apply insert_union_l.
  - intros a l1 b l2 r Hab IH Ha. pose proof (sorted_cons _ _ Ha) as [Ha' _]. rewrite !level_map_cons, (IH Ha'), <-Hab.
    apply map_eq. intros k. rewrite lookup_insert, !lookup_union, !lookup_insert.
    case_decide; [|done]. by destruct (level_map l2 !! k).
Qed.

Lemma merge_length l1 l2 : zlen (merge false l1 l2) <= zlen l1 + zlen l2.
Proof.
  apply (merge_ind (fun l1 l2 r => zlen r <= zlen l1 + zlen l2)); clear l1 l2; unfold zlen; simpl; lia.
Qed.

(** ** The container as a map *)

Definition maps (ls : list (list Item)) : gmap Z Z := foldr (fun l m => level_map l ∪ m) ∅ ls.

Definition raw (d : DynamicPGMIndex) : gmap Z Z := maps (levels d).

Lemma maps_app a b : maps (a ++ b) = maps a ∪ maps b.
Proof.
  induction a as [|l a IH]; [change (maps b = ∅ ∪ maps b); by rewrite (left_id_L ∅ (∪))|]. change (level_map l ∪ maps (a ++ b) = level_map l ∪ maps a ∪ maps b).
  by rewrite IH, (assoc_L (∪)).
Qed.

Lemma maps_empty n : maps (replicate n []) = ∅.
Proof. induction n as [|n IH]; [done|]. change (∅ ∪ maps (replicate n []) = ∅). rewrite IH. by rewrite (left_id_L ∅ (∪)). Qed.

Definition total (ls : list (list Item)) : Z := foldr (fun l n => zlen l + n) 0 ls.

Lemma total_app a b : total (a ++ b) = total a + total b.
Proof. induction a as [|l a IH]; simpl; [done|]. unfold total in *. lia. Qed.

Lemma total_nonneg ls : 0 <= total ls.
Proof. induction ls as [|l ls IH]; simpl; [done|]. pose proof (zlen_nonneg l). lia. Qed.

(** A level has no more items than the container has keys. *)
Lemma level_size ls l : sorted l -> l ∈ ls -> zlen l <= Z.of_nat (size (maps ls)).
Proof.
  intros Hs Hl. assert (H : dom (level_map l) ⊆ dom (maps ls)).
  { apply list_elem_of_split in Hl as (a & b & ->). rewrite maps_app. change (maps (l :: b)) with (level_map l ∪ maps b). rewrite !dom_union_L. set_solver. }
  apply subseteq_size in H. rewrite !size_dom in H. enough (size (level_map l) = length l) by (unfold zlen; lia).
  unfold level_map. rewrite map_size_list_to_map; [by rewrite length_fmap|]. rewrite <-list_fmap_compose. by apply sorted_NoDup.
Qed.

(** ** The invariant *)

(** Bounds on the size of level [i]: from 8 on a level is empty or more than half full. *)
Definition size_ok (i : Z) (l : list Item) : Prop :=
  l = [] \/ i = 6 /\ zlen l <= buffer_max_size \/ i = 7 /\ zlen l <= 2 ^ 7 \/ 7 < i /\ 2 ^ (i - 1) < zlen l <= 2 ^ i.

Record dyn_ok (d : DynamicPGMIndex) : Prop := {
  ok_used : min_level <= used_levels d <= 19;
  ok_levels : 26 <= zlen (levels d);
  ok_sorted : Forall sorted (levels d);
  ok_size i l : level d i = Some l -> size_ok i l;
  ok_unused i l : used_levels d <= i -> level d i = Some l -> l = [];
  ok_limit : Z.of_nat (size (raw d)) <= 2 ^ 17
}.

Lemma level_sorted d i l : dyn_ok d -> level d i = Some l -> sorted l.
Proof.
  intros Hok E. pose proof (ok_sorted d Hok) as H. unfold level, rd in E. destruct (0 <=? _); [|done].
  by eapply Forall_lookup_1.
Qed.

(** Levels with a static index are empty. *)
Lemma indexed_empty d i l : dyn_ok d -> 18 <= i -> level d i = Some l -> l = [].
Proof.
  intros Hok Hi E. destruct (ok_size d Hok i l E) as [H|[[? _]|[[? _]|[_ H]]]]; [done|lia|lia|]. exfalso.
  assert (Hl : l ∈ levels d).
  { unfold level, rd in E. destruct (0 <=? _); [|done]. by eapply list_elem_of_lookup_2. }
  pose proof (level_size (levels d) l (level_sorted d i l Hok E) Hl) as H1. pose proof (ok_limit d Hok) as H2. unfold raw in H2.
  assert (2 ^ 17 <= 2 ^ (i - 1)) by (apply Z.pow_le_mono_r; lia). lia.
Qed.

Lemma level_in d i : dyn_ok d -> min_level <= i <= 19 -> exists l, level d i = Some l.
Proof. intros Hok Hi. unfold level, min_level in *. pose proof (ok_levels d Hok). apply rd_in. lia. Qed.
