(* ===== verification/PgmInsert.v ===== *)
(** * The dynamic PGM index: insertion

    [insert_item] keeps the invariant, and unless the buffer has an item with the key
    it binds the key to the new value, whatever the levels above hold. *)

From Stdlib Require Import Sorted.
From stdpp Require Import gmap list sorting.
From S2P Require Import Prelude Words PgmIndex LoserTree PgmDynamic PgmInv.
Local Open Scope Z_scope.
Local Open Scope cxx_scope.

(** ** The target level *)

Lemma total_take_S ls n l : ls !! n = Some l -> total (take (S n) ls) = total (take n ls) + zlen l.
Proof. intros E. rewrite (take_S_r _ _ _ E), total_app. simpl. lia. Qed.

(** The levels above the buffer and below level [i]. *)
Definition between (d : DynamicPGMIndex) (i : Z) : list (list Item) := take (Z.to_nat (i - 7)) (drop 1 (levels d)).

Lemma between_S d i l : 7 <= i -> level d i = Some l -> total (between d (i + 1)) = total (between d i) + zlen l.
Proof.
  intros Hi E. unfold between. replace (Z.to_nat (i + 1 - 7)) with (S (Z.to_nat (i - 7))) by lia. apply total_take_S.
  rewrite lookup_drop. unfold level, rd, min_level in E. destruct (0 <=? _); [|done].
  by replace (1 + Z.to_nat (i - 7))%nat with (Z.to_nat (i - 6)) by lia.
Qed.

Lemma find_target_spec d : dyn_ok d -> 7 <= used_levels d ->
  exists i, find_target d = Some (i, 2 ^ 7 + total (between d i)) /\ 7 <= i <= used_levels d /\ i <= 18 /\
    level d i = Some [] /\ 2 ^ 7 + total (between d i) <= 2 ^ i.
Proof.
  intros Hok Hu. unfold find_target. pose proof (ok_used d Hok) as Hused. pose proof (ok_levels d Hok) as Hlen.
  change (buffer_max_size + 1) with (2 ^ 7). change (min_level + 1) with 7. unfold min_level in Hused.
  destruct (loop_spec (fun '(i, R) => 7 <= i <= used_levels d /\ i <= 18 /\ R = 2 ^ 7 + total (between d i) /\ R <= 2 ^ i /\ (i = 7 \/ 2 ^ (i - 1) < R))
    (fun '(i, R) => R = 2 ^ 7 + total (between d i) /\ 7 <= i <= used_levels d /\ i <= 18 /\ level d i = Some [] /\ R <= 2 ^ i)
    (fun '(i, _) => used_levels d - i)
    (fun '(i, slots_required) =>
      if i <? used_levels d then
        l ← level d i;
        Some (if slots_required <=? wrap64 (2 ^ i - zlen l) then inr (i, slots_required)
              else inl (i + 1, slots_required + zlen l))
      else Some (inr (i, slots_required))))
    with (fuel := S (length (levels d))) (s := (7, 2 ^ 7)) as ([i R] & -> & HR & H).
  - intros [i R] (Hi & Hi18 & HR & HR2 & HR3). destruct (level_in d i Hok) as [l El]; [unfold min_level; lia|].
    destruct (Z.ltb_spec i (used_levels d)) as [Hlt|Hge].
    + rewrite El. cbn [mbind option_bind]. pose proof (ok_size d Hok i l El) as Hsz. pose proof (zlen_nonneg l) as Hl0.
      assert (Hcap : zlen l <= 2 ^ i).
      { destruct Hsz as [->|[[? _]|[[-> ?]|[_ ?]]]]; [unfold zlen; simpl; pose proof (Z.pow_nonneg 2 i); lia|lia|lia|lia]. }
      assert (2 ^ i <= 2 ^ 18) by (apply Z.pow_le_mono_r; lia).
      unfold wrap64. rewrite Z.mod_small by lia.
      destruct (Z.leb_spec R (2 ^ i - zlen l)) as [Hle|Hgt].
      * split; [done|]. split; [done|]. split; [done|]. split; [|done]. rewrite El. f_equal.
        assert (2 ^ i = 2 * 2 ^ (i - 1)) by (rewrite <-Z.pow_succ_r by lia; f_equal; lia).
        destruct Hsz as [->|[[? _]|[[-> ?]|[? ?]]]]; [done|lia| |lia].
        apply length_zero_iff_nil. unfold zlen in *. change (2 ^ 7) with 128 in *. pose proof (total_nonneg (between d 7)). lia.
      * assert (Hi17 : i < 18).
        { destruct (Z.eq_dec i 18) as [->|]; [|lia]. rewrite (indexed_empty d 18 l Hok ltac:(lia) El) in *. unfold zlen in *. simpl in *. lia. }
        split; [|lia]. split; [lia|]. split; [lia|]. rewrite (between_S d i l) by (done || lia). split; [lia|].
        replace (i + 1 - 1) with i by lia. split; [|lia].
        rewrite Z.pow_add_r by lia. change (2 ^ 1) with 2. lia.
    + split; [done|]. split; [done|]. split; [done|]. split; [|done]. rewrite El. f_equal. apply (ok_unused d Hok i); [lia|done].
  - split; [lia|]. split; [lia|]. split; [|split; [lia|by left]]. unfold between. simpl. done.
  - cbn beta iota. unfold zlen in Hlen. lia.
  - cbn beta iota. lia.
  - exists i. subst R. by split.
Qed.

(** ** The rounds of the merge *)

(** A temporary array starts with the items [run]. *)
Definition holds (buf : list (option Item)) (run : list Item) : Prop := exists tail, buf = (Some <$> run) ++ tail.

Lemma mapM_id {A} (l : list A) : mapM id (Some <$> l) = Some l.
Proof. induction l as [|x l IH]; [done|]. cbn. unfold id in *. cbn in IH. by rewrite IH. Qed.

Lemma take_holds buf run : holds buf run -> take (length run) buf = Some <$> run.
Proof. intros [tail ->]. by rewrite take_app_length' by (by rewrite length_fmap). Qed.

Lemma buffer_read_holds buf run : holds buf run -> buffer_read buf (zlen run) = Some run.
Proof.
  intros H. unfold buffer_read. destruct (Z.leb_spec (zlen run) (zlen buf)) as [_|Hgt].
  - unfold zlen. rewrite Nat2Z.id, take_holds by done. apply mapM_id.
  - destruct H as [tail ->]. unfold zlen in Hgt. rewrite length_app, length_fmap in Hgt. lia.
Qed.

Lemma buffer_write_holds buf l : zlen l <= zlen buf -> exists buf', buffer_write buf l = Some buf' /\ holds buf' l /\ zlen buf' = zlen buf.
Proof.
  intros H. unfold buffer_write. destruct (Z.leb_spec (zlen l) (zlen buf)); [|lia]. eexists. split; [done|]. split; [by eexists|].
  unfold zlen in *. rewrite length_app, length_fmap, length_drop. lia.
Qed.

Lemma resize_holds buf run : holds buf run -> mapM id (resize_uninit buf (zlen run)) = Some run.
Proof.
  intros H. unfold resize_uninit, zlen. rewrite Nat2Z.id, take_holds by done. destruct H as [tail ->].
  rewrite length_app, length_fmap. replace (length run - _)%nat with 0%nat by lia. simpl. rewrite app_nil_r. apply mapM_id.
Qed.

(** The array that round [i] reads. *)
Definition round_source (md i : Z) (m : Merging) : list (option Item) :=
  if (i - min_level) mod 2 =? md then tmp_a m else tmp_b m.

Record merging (md R i : Z) (mid rest : list (list Item)) (buf : list Item) (ps : list PGMIndex) (run0 : list Item) (m : Merging) : Prop := {
  mg_levels : m_levels m = buf :: replicate (Z.to_nat (i - 7)) [] ++ drop (Z.to_nat (i - 7)) mid ++ rest;
  mg_pgms : m_pgms m = ps;
  mg_a : zlen (tmp_a m) = R;
  mg_b : zlen (tmp_b m) = R;
  mg_run : exists run, holds (round_source md i m) run /\ actual_size m = zlen run /\ sorted run /\
    level_map run = level_map run0 ∪ maps (take (Z.to_nat (i - 7)) mid) /\
    zlen run <= zlen run0 + total (take (Z.to_nat (i - 7)) mid)
}.

Lemma parity_flip i : (i + 1 - min_level) mod 2 = 1 - (i - min_level) mod 2.
Proof. unfold min_level. pose proof (Z.mod_pos_bound (i - 6) 2 ltac:(lia)). Z.div_mod_to_equations. lia. Qed.

Lemma level_merge_round used md R i mid rest buf ps run0 m l : (md = 0 \/ md = 1) -> 7 <= i < 18 -> i < used - 1 ->
  Forall sorted mid -> mid !! Z.to_nat (i - 7) = Some l -> zlen run0 + total mid <= R ->
  merging md R i mid rest buf ps run0 m -> exists m', merge_level used md i m = Some m' /\ merging md R (i + 1) mid rest buf ps run0 m'.
Proof.
  intros Hmd Hi Hu Hs El HR [Hlv Hps Ha Hb (run & Hh & Hact & Hsr & Hmap & Hlen)].
  set (j := Z.to_nat (i - 7)) in *. assert (Hj : Z.to_nat (i + 1 - 7) = S j) by lia.
  unfold merge_level. fold (round_source md i m). rewrite Hact, buffer_read_holds by done. cbn [mbind option_bind].
  assert (Edrop : drop j mid = l :: drop (S j) mid) by (by apply drop_S).
  assert (Erd : (m_levels m).[i - min_level] = Some l).
  { rewrite Hlv, Edrop. unfold rd, min_level. destruct (Z.leb_spec 0 (i - 6)); [|lia]. replace (Z.to_nat (i - 6)) with (S j) by lia.
    simpl. rewrite lookup_app_r by (rewrite length_replicate; lia). rewrite length_replicate, Nat.sub_diag. done. }
  rewrite Erd. cbn [mbind option_bind]. destruct (Z.eqb_spec i (used - 1)); [lia|].
  assert (Hsl : sorted l) by (by eapply Forall_lookup_1).
  assert (Htot : total (take (S j) mid) = total (take j mid) + zlen l) by (by apply total_take_S).
  assert (Hle : total (take (S j) mid) <= total mid).
  { rewrite <-(take_drop (S j) mid) at 2. rewrite total_app. pose proof (total_nonneg (drop (S j) mid)). lia. }
  pose proof (merge_length run l) as Hml.
  destruct (buffer_write_holds (if (i - min_level) mod 2 =? md then tmp_b m else tmp_a m) (merge false run l)) as (buf' & -> & Hb1 & Hb2).
  { destruct (_ =? md); lia. }
  cbn [mbind option_bind]. assert (Hlen_m : i - min_level < zlen (m_levels m)) by (apply rd_Some in Erd; lia).
  destruct (wr_in (m_levels m) (i - min_level) []) as [ls' Els]; [unfold min_level in *; lia|]. rewrite Els. cbn [mbind option_bind].
  destruct (Z.leb_spec MinIndexedLevel i) as [Hge|_]; [unfold MinIndexedLevel in Hge; lia|]. cbn [mbind option_bind].
  eexists. split; [done|]. constructor; cbn [m_levels m_pgms tmp_a tmp_b actual_size].
  - rewrite Hj. apply wr_Some in Els as [_ ->]. rewrite Hlv, Edrop. unfold min_level. replace (Z.to_nat (i - 6)) with (S j) by lia.
    simpl. f_equal. rewrite insert_app_r_alt by (rewrite length_replicate; lia). rewrite length_replicate, Nat.sub_diag.
    change ([] :: replicate j [] ++ drop (S j) mid ++ rest) with (replicate (S j) (@nil Item) ++ drop (S j) mid ++ rest).
    by rewrite replicate_S_end, <-app_assoc.
  - done.
  - destruct (_ =? md); [done|congruence].
  - destruct (_ =? md); [congruence|done].
  - exists (merge false run l). rewrite Hj. split; [|split; [done|split; [by apply merge_sorted|split; [|lia]]]].
    + unfold round_source. cbn [tmp_a tmp_b]. rewrite parity_flip. pose proof (Z.mod_pos_bound (i - min_level) 2 ltac:(lia)).
      destruct (Z.eqb_spec ((i - min_level) mod 2) md), (Z.eqb_spec (1 - (i - min_level) mod 2) md); try lia; done.
    + rewrite merge_map by done. rewrite Hmap, (take_S_r _ _ _ El), maps_app. change (maps [l]) with (level_map l ∪ ∅).
      by rewrite (right_id_L ∅ (∪)), (assoc_L (∪)).
Qed.

Lemma merge_rounds used md R target mid rest buf ps run0 m : md = (target - 1 - min_level) mod 2 -> 7 <= target <= 18 ->
  target <= used - 1 -> Forall sorted mid -> zlen mid = target - 7 -> zlen run0 + total mid <= R ->
  merging md R 7 mid rest buf ps run0 m -> exists m' run, for_up 7 target (merge_level used md) m = Some m' /\
    m_levels m' = buf :: replicate (Z.to_nat (target - 7)) [] ++ rest /\ m_pgms m' = ps /\ holds (tmp_b m') run /\
    actual_size m' = zlen run /\ sorted run /\ level_map run = level_map run0 ∪ maps mid /\ zlen run <= zlen run0 + total mid.
Proof.
  intros Hmd Ht Hu Hs Hlen HR Hm.
  assert (Hmd2 : md = 0 \/ md = 1) by (pose proof (Z.mod_pos_bound (target - 1 - min_level) 2 ltac:(lia)); lia).
  destruct (for_up_spec (fun i m => merging md R i mid rest buf ps run0 m) (merge_level used md) 7 target m) as (m' & E & H); [lia|done| |].
  - intros i m1 Hi Hm1. destruct (lookup_lt_is_Some_2 mid (Z.to_nat (i - 7))) as [l El]; [unfold zlen in Hlen; lia|].
    apply (level_merge_round used md R i mid rest buf ps run0 m1 l); [done|lia|lia|done..].
  - destruct H as [Hlv Hps _ _ (run & Hh & Hact & Hsr & Hmap & Hrl)].
    assert (Etake : take (Z.to_nat (target - 7)) mid = mid) by (apply take_ge; unfold zlen in Hlen; lia).
    assert (Edrop : drop (Z.to_nat (target - 7)) mid = []) by (apply drop_ge; unfold zlen in Hlen; lia).
    rewrite Etake in *. rewrite Edrop in Hlv. exists m', run. split; [done|]. split; [done|]. split; [done|]. split; [|done].
    revert Hh. unfold round_source. replace (target - min_level) with (target - 1 + 1 - min_level) by lia. rewrite parity_flip, <-Hmd.
    destruct (Z.eqb_spec (1 - md) md); [lia|done].
Qed.

(** ** The merge as a whole *)

Lemma ceil_log2_spec n : 0 <= n < 2 ^ 63 -> 0 <= ceil_log2 n /\ n <= 2 ^ ceil_log2 n /\ (1 < n -> 2 ^ (ceil_log2 n - 1) < n).
Proof.
  intros Hn. unfold ceil_log2. destruct (Z.leb_spec n 1); [repeat split; lia|]. unfold lzcnt64.
  destruct (n - 1) as [|p|p] eqn:E; [lia| |lia]. pose proof (Z.log2_spec (Zpos p) ltac:(lia)) as [L1 L2]. pose proof (Z.log2_nonneg (Zpos p)).
  replace (64 - (63 - Z.log2 (Z.pos p))) with (Z.succ (Z.log2 (Z.pos p))) by lia.
  replace (Z.succ (Z.log2 (Z.pos p)) - 1) with (Z.log2 (Z.pos p)) by lia. repeat split; lia.
Qed.

Lemma ceil_log2_le n k : 0 <= n < 2 ^ 63 -> 0 <= k -> n <= 2 ^ k -> ceil_log2 n <= k.
Proof.
  intros Hn Hk Hle. destruct (Z.le_gt_cases n 1) as [H1|H1]; [unfold ceil_log2; destruct (Z.leb_spec n 1); lia|].
  destruct (ceil_log2_spec n Hn) as (H0 & _ & H). specialize (H H1). destruct (Z.le_gt_cases (ceil_log2 n) k) as [|Hgt]; [done|].
  assert (2 ^ k <= 2 ^ (ceil_log2 n - 1)) by (apply Z.pow_le_mono_r; lia). lia.
Qed.

Lemma target_size_ok run : zlen run < 2 ^ 63 -> size_ok (Z.max (ceil_log2 (zlen run)) 7) run.
Proof.
  intros Hlt. pose proof (zlen_nonneg run). destruct (ceil_log2_spec (zlen run)) as (H0 & H1 & H2); [lia|].
  destruct (Z.le_gt_cases (ceil_log2 (zlen run)) 7) as [Hle|Hgt].
  - right. right. left. split; [lia|]. transitivity (2 ^ ceil_log2 (zlen run)); [done|]. by apply Z.pow_le_mono_r.
  - rewrite Z.max_l by lia. right. right. right. split; [done|]. split; [|done]. apply H2.
    destruct (Z.le_gt_cases (zlen run) 1) as [Hr|]; [|done]. unfold ceil_log2 in Hgt. destruct (Z.leb_spec (zlen run) 1); lia.
Qed.

Lemma level_map_size l : sorted l -> Z.of_nat (size (level_map l)) = zlen l.
Proof.
  intros Hs. unfold level_map, zlen. rewrite map_size_list_to_map; [by rewrite length_fmap|].
  rewrite <-list_fmap_compose. by apply sorted_NoDup.
Qed.

(** The levels after a merge into level [t]. *)
Definition merged_levels (t target : Z) (run : list Item) (rest : list (list Item)) : list (list Item) :=
  [] :: replicate (Z.to_nat (t - 7)) [] ++ run :: replicate (Z.to_nat (target - t)) [] ++ rest.

Lemma maps_merged t target run rest : maps (merged_levels t target run rest) = level_map run ∪ maps rest.
Proof.
  unfold merged_levels. change (level_map [] ∪ maps (replicate (Z.to_nat (t - 7)) [] ++ run :: replicate (Z.to_nat (target - t)) [] ++ rest) = level_map run ∪ maps rest).
  rewrite maps_app, maps_empty. change (maps (run :: ?l)) with (level_map run ∪ maps l). rewrite maps_app, maps_empty.
  change (level_map []) with (∅ : gmap Z Z). by rewrite !(left_id_L ∅ (∪)).
Qed.

Lemma pairwise_merge_spec max_threads d it p buf mid rest target R :
  levels d = buf :: mid ++ [] :: rest -> Forall sorted (levels d) -> zlen mid = target - 7 -> 7 <= target <= 18 -> target <= used_levels d - 1 ->
  splits buf (fun x => x <? ikey it) p -> level_map buf !! ikey it = None -> zlen buf = 127 ->
  R = 2 ^ 7 + total mid -> R <= 2 ^ target -> Z.of_nat (size (<[ikey it := ival it]> (raw d))) <= 2 ^ 17 ->
  exists run t, pairwise_merge max_threads d it (target - 1) R p = Some (mkDyn (used_levels d) (merged_levels t target run rest) (pgms d)) /\
    7 <= t <= target /\ t <= 17 /\ sorted run /\ size_ok t run /\
    level_map run ∪ maps rest = <[ikey it := ival it]> (raw d).
Proof.
  intros Elv Hsorted Hmid Ht Hu Hp Hno Hbuf HR HR2 Hlim. unfold pairwise_merge. replace (target - 1 + 1) with target by lia.
  rewrite Elv in Hsorted. apply Forall_cons_1 in Hsorted as [Hsb Hs]. apply Forall_app in Hs as [Hsm _].
  assert (El : level d target = Some []).
  { unfold level, rd, min_level. destruct (Z.leb_spec 0 (target - 6)); [|lia]. rewrite Elv.
    replace (Z.to_nat (target - 6)) with (S (length mid)) by (unfold zlen in Hmid; lia). simpl. by rewrite list_lookup_middle. }
  rewrite El. cbn [mbind option_bind]. change (zlen (@nil Item)) with 0. rewrite Z.sub_0_r, Z.add_0_r.
  assert (Hpow : 2 ^ 7 <= 2 ^ target <= 2 ^ 18) by (split; apply Z.pow_le_mono_r; lia).
  unfold wrap64. rewrite (Z.mod_small (2 ^ target)) by lia. change (1 + min_level) with 7.
  destruct (Z.leb_spec (2 ^ 7) (2 ^ target)); [|lia].
  replace ((levels d).[0]) with (Some buf) by (by rewrite Elv). cbn [mbind option_bind].
  destruct (insert_at_bound buf it p Hsb Hp Hno) as (Hs0 & Hm0 & Hl0).
  set (run0 := take (Z.to_nat p) buf ++ [it] ++ drop (Z.to_nat p) buf) in *. rewrite Hbuf in Hl0.
  set (md := (target - 1 - min_level) mod 2). pose proof (total_nonneg mid) as Htot. pose proof (zlen_nonneg mid).
  set (tmp0 := replicate (Z.to_nat R) (@None Item)). assert (Htmp0 : zlen tmp0 = R) by (unfold tmp0; rewrite zlen_replicate; lia).
  destruct (buffer_write_holds (if md =? 1 then tmp0 else tmp0) run0) as (tmp & Etmp & Hh & Hlt); [destruct (md =? 1); lia|].
  rewrite Etmp. cbn [mbind option_bind]. replace (target - 1 + 1) with target by lia.
  destruct (merge_rounds (used_levels d) md R target mid ([] :: rest) buf (pgms d) run0
    (mkMerging (levels d) (pgms d) (if md =? 1 then tmp else tmp0) (if md =? 1 then tmp0 else tmp) (2 ^ 7)))
    as (m & run & -> & Hlv & Hps & Hhold & Hact & Hsr & Hmap & Hlen); [done|lia|lia|done|done|lia| |].
  { constructor; cbn [m_levels m_pgms tmp_a tmp_b actual_size]; [done|done| | |].
    - destruct (md =? 1); [|done]. destruct (md =? 1); lia.
    - destruct (md =? 1); [done|]. destruct (md =? 1); lia.
    - exists run0. split; [|split; [by rewrite Hl0|split; [done|split; [|simpl; lia]]]].
      + unfold round_source. cbn [tmp_a tmp_b]. change ((7 - min_level) mod 2) with 1. rewrite (Z.eqb_sym 1 md). by destruct (md =? 1).
      + simpl. by rewrite (right_id_L ∅ (∪)). }
  cbn [mbind option_bind]. rewrite Hact, resize_holds by done. cbn [mbind option_bind].
  set (t := Z.max (ceil_log2 (zlen run)) (min_level + 1)). change (min_level + 1) with 7 in t.
  assert (Hraw : level_map run ∪ maps rest = <[ikey it := ival it]> (raw d)).
  { rewrite Hmap, Hm0. unfold raw. rewrite Elv. change (maps (buf :: ?l)) with (level_map buf ∪ maps l). rewrite maps_app.
    change (maps ([] :: rest)) with (∅ ∪ maps rest). rewrite (left_id_L ∅ (∪)), <-(assoc_L (∪)). by rewrite insert_union_l. }
  assert (Hsz : zlen run <= 2 ^ 17).
  { rewrite <-(level_map_size run Hsr). assert (dom (level_map run) ⊆ dom (<[ikey it := ival it]> (raw d))) as Hsub.
    { rewrite <-Hraw, dom_union_L. apply union_subseteq_l. }
    apply subseteq_size in Hsub. rewrite !size_dom in Hsub. lia. }
  pose proof (zlen_nonneg run).
  assert (Ht1 : 7 <= t <= target) by (split; [lia|]; apply Z.max_lub; [apply ceil_log2_le; lia|lia]).
  assert (Ht2 : t <= 17) by (apply Z.max_lub; [apply ceil_log2_le; lia|lia]).
  rewrite Hlv. cbn [wr]. 
  assert (Ew : wr (buf :: replicate (Z.to_nat (target - 7)) [] ++ [] :: rest) 0 [] = Some ([] :: replicate (Z.to_nat (target - 7)) [] ++ [] :: rest)).
  { unfold wr. destruct (Z.ltb_spec 0 (zlen (buf :: replicate (Z.to_nat (target - 7)) [] ++ [] :: rest))) as [|Hz]; [done|]. unfold zlen in Hz. simpl in Hz. lia. }
  rewrite Ew. cbn [mbind option_bind].
  assert (Ew2 : wr ([] :: replicate (Z.to_nat (target - 7)) [] ++ [] :: rest) (t - min_level) run = Some (merged_levels t target run rest)).
  { unfold wr, min_level. destruct (Z.leb_spec 0 (t - 6)); [|lia].
    destruct (Z.ltb_spec (t - 6) (zlen ([] :: replicate (Z.to_nat (target - 7)) [] ++ [] :: rest))) as [_|Hz].
    - simpl. replace (Z.to_nat (t - 6)) with (S (Z.to_nat (t - 7))) by lia. unfold merged_levels. simpl. do 2 f_equal.
      replace (replicate (Z.to_nat (target - 7)) [] ++ [] :: rest) with (replicate (Z.to_nat (t - 7)) (@nil Item) ++ [] :: replicate (Z.to_nat (target - t)) [] ++ rest).
      + rewrite insert_app_r_alt by (rewrite length_replicate; lia). by rewrite length_replicate, Nat.sub_diag.
      + change ([] :: replicate (Z.to_nat (target - t)) [] ++ rest) with (replicate (S (Z.to_nat (target - t))) (@nil Item) ++ rest).
        rewrite (assoc_L (++)), <-replicate_add. change ([] :: rest) with ([[]] ++ rest). rewrite (assoc_L (++)), <-replicate_S_end. do 2 f_equal. lia.
    - unfold zlen in Hz. simpl in Hz. rewrite length_app, length_replicate in Hz. simpl in Hz. lia. }
  rewrite Ew2. cbn [mbind option_bind]. destruct (Z.leb_spec MinIndexedLevel t) as [Hge|_]; [unfold MinIndexedLevel in Hge; lia|].
  rewrite Hps. exists run, t. split; [done|]. split; [done|]. split; [done|]. split; [done|]. split; [|done].
  apply target_size_ok. lia.
Qed.

(** *** The levels after the merge *)

Lemma merged_level used ps d buf mid rest t target run j l : levels d = buf :: mid ++ [] :: rest -> zlen mid = target - 7 ->
  7 <= t <= target -> level (mkDyn used (merged_levels t target run rest) ps) j = Some l ->
  (j = t /\ l = run) \/ (j <> t /\ 6 <= j <= target /\ l = []) \/ (target < j /\ level d j = Some l).
Proof.
  intros Elv Hmid Ht E. unfold level, min_level, rd in *. cbn [levels] in E. destruct (Z.leb_spec 0 (j - 6)); [|done].
  destruct (Z.lt_ge_cases target j) as [Hlt|Hge].
  - right. right. split; [done|]. rewrite Elv. unfold merged_levels in E.
    replace (Z.to_nat (j - 6)) with (S (Z.to_nat (target - 6) + Z.to_nat (j - target - 1)))%nat in * by lia. simpl in E |- *.
    rewrite lookup_app_r in E by (rewrite length_replicate; lia). rewrite length_replicate in E.
    replace (Z.to_nat (target - 6) + Z.to_nat (j - target - 1) - Z.to_nat (t - 7))%nat
      with (S (Z.to_nat (target - t) + Z.to_nat (j - target - 1))) in E by lia. simpl in E.
    rewrite lookup_app_r in E by (rewrite length_replicate; lia). rewrite length_replicate in E.
    rewrite lookup_app_r by (unfold zlen in Hmid; lia).
    replace (Z.to_nat (target - 6) + Z.to_nat (j - target - 1) - length mid)%nat with (S (Z.to_nat (j - target - 1))) by (unfold zlen in Hmid; lia).
    simpl. by replace (Z.to_nat (target - t) + Z.to_nat (j - target - 1) - Z.to_nat (target - t))%nat with (Z.to_nat (j - target - 1)) in E by lia.
  - unfold merged_levels in E. destruct (Z.eq_dec j 6) as [->|Hj6].
    { simpl in E. injection E as <-. right. left. split; [lia|]. split; [lia|done]. }
    replace (Z.to_nat (j - 6)) with (S (Z.to_nat (j - 7))) in E by lia. simpl in E.
    destruct (Z.lt_ge_cases j t) as [Hjt|Hjt].
    + rewrite lookup_app_l in E by (rewrite length_replicate; lia). apply lookup_replicate in E as [-> _]. right. left. split; [lia|]. split; [lia|done].
    + rewrite lookup_app_r in E by (rewrite length_replicate; lia). rewrite length_replicate in E.
      destruct (Z.eq_dec j t) as [->|Hne].
      * rewrite Nat.sub_diag in E. injection E as <-. by left.
      * replace (Z.to_nat (j - 7) - Z.to_nat (t - 7))%nat with (S (Z.to_nat (j - t - 1))) in E by lia. simpl in E.
        rewrite lookup_app_l in E by (rewrite length_replicate; lia). apply lookup_replicate in E as [-> _]. right. left. split; [lia|]. split; [lia|done].
Qed.

Lemma merged_ok d buf mid rest t target run used ps it : dyn_ok d -> levels d = buf :: mid ++ [] :: rest -> zlen mid = target - 7 ->
  7 <= t <= target -> target <= used - 1 -> used_levels d <= used <= 19 -> sorted run -> size_ok t run ->
  level_map run ∪ maps rest = <[ikey it := ival it]> (raw d) ->
  Z.of_nat (size (<[ikey it := ival it]> (raw d))) <= 2 ^ 17 -> dyn_ok (mkDyn used (merged_levels t target run rest) ps).
Proof.
  intros Hok Elv Hmid Ht Hu Hu2 Hsr Hsz Hraw Hlim. pose proof (ok_used d Hok) as Hused. pose proof (ok_levels d Hok) as Hlen.
  pose proof (ok_sorted d Hok) as Hsorted. constructor; cbn [used_levels levels].
  - lia.
  - rewrite Elv in Hlen. unfold merged_levels, zlen in *. simpl in *. rewrite !length_app in *. simpl in *.
    rewrite !length_app, !length_replicate in *. lia.
  - rewrite Elv in Hsorted. apply Forall_cons_1 in Hsorted as [_ Hs]. apply Forall_app in Hs as [_ Hs]. apply Forall_cons_1 in Hs as [_ Hs].
    assert (Hnil : forall n, Forall sorted (replicate n [])) by (intros n; apply Forall_replicate; constructor).
    unfold merged_levels. constructor; [constructor|]. apply Forall_app. split; [apply Hnil|]. constructor; [done|]. apply Forall_app. by split.
  - intros j l E. destruct (merged_level _ _ _ _ _ _ _ _ _ _ _ Elv Hmid Ht E) as [[-> ->]|[(_ & _ & ->)|[_ E']]]; [done|by left|by apply (ok_size d Hok)].
  - intros j l Hj E. destruct (merged_level _ _ _ _ _ _ _ _ _ _ _ Elv Hmid Ht E) as [[-> ->]|[(_ & _ & ->)|[_ E']]]; [lia|done|].
    apply (ok_unused d Hok j); [lia|done].
  - unfold raw. cbn [levels]. by rewrite maps_merged, Hraw.
Qed.

Lemma raw_add_level d i : raw (add_level d i) = raw d.
Proof.
  unfold raw, add_level. cbn [levels]. rewrite maps_app. change (maps [[]]) with ((∅ : gmap Z Z) ∪ ∅). by rewrite !(right_id_L ∅ (∪)).
Qed.

(** The levels of [d'] are old ones, or all their items are visible. *)
Definition new_levels (d d' : DynamicPGMIndex) : Prop :=
  forall l, l ∈ levels d' -> l ∈ levels d \/ forall x, x ∈ l -> raw d' !! ikey x = Some (ival x).

Lemma visible l ls x : sorted l -> x ∈ l -> (level_map l ∪ maps ls) !! ikey x = Some (ival x).
Proof.
  intros Hs Hx. rewrite lookup_union, (proj2 (level_map_Some l (ikey x) (ival x) Hs)); [by destruct (maps ls !! _)|]. by destruct x.
Qed.

Lemma add_level_ok d i : dyn_ok d -> used_levels d <= 18 -> dyn_ok (add_level d i) /\ used_levels (add_level d i) = used_levels d + 1.
Proof.
  intros Hok Hu. pose proof (ok_used d Hok) as Hused. unfold min_level in Hused.
  assert (Hlev : forall j l, level (add_level d i) j = Some l -> level d j = Some l \/ l = []).
  { intros j l. unfold level, rd, add_level. cbn [levels]. destruct (Z.leb_spec 0 (j - min_level)) as [Hj|]; [|done].
    intros [E|[_ E]]%lookup_app_Some; [by left|]. apply list_lookup_singleton_Some in E as [_ <-]. by right. }
  assert (Hu' : used_levels (add_level d i) = used_levels d + 1).
  { unfold add_level, wrap8. cbn [used_levels]. rewrite Z.mod_small; lia. }
  split; [|done]. constructor.
  - unfold min_level. lia.
  - unfold add_level. cbn [levels]. rewrite zlen_app. pose proof (ok_levels d Hok). unfold zlen at 2. simpl. lia.
  - apply Forall_app. split; [apply (ok_sorted d Hok)|]. constructor; constructor.
  - intros j l [E| ->]%Hlev; [by apply (ok_size d Hok)|by left].
  - intros j l Hj [E| ->]%Hlev; [|done]. apply (ok_unused d Hok j); [lia|done].
  - rewrite raw_add_level. apply (ok_limit d Hok).
Qed.

(** Another buffer below the same levels. *)
Lemma new_buffer_ok d buf buf' rest it used : dyn_ok d -> levels d = buf :: rest -> sorted buf' -> zlen buf' <= 127 ->
  level_map buf' = <[ikey it := ival it]> (level_map buf) -> used = (if used_levels d =? 6 then 7 else used_levels d) ->
  Z.of_nat (size (<[ikey it := ival it]> (raw d))) <= 2 ^ 17 ->
  dyn_ok (mkDyn used (buf' :: rest) (pgms d)) /\ raw (mkDyn used (buf' :: rest) (pgms d)) = <[ikey it := ival it]> (raw d) /\
  new_levels d (mkDyn used (buf' :: rest) (pgms d)).
Proof.
  intros Hok Elv Hs Hl Hm -> Hlim. pose proof (ok_used d Hok) as Hused. pose proof (ok_levels d Hok) as Hlen. unfold min_level in Hused.
  assert (Hraw : maps (buf' :: rest) = <[ikey it := ival it]> (raw d)).
  { unfold raw. rewrite Elv. change (maps (?b :: rest)) with (level_map b ∪ maps rest). rewrite Hm. by rewrite insert_union_l. }
  set (d' := mkDyn _ _ _). split; [|split; [done|]]; [|intros l [->|Hl0]%elem_of_cons; [right|left; rewrite Elv; by constructor];
    intros x Hx; by apply visible].
  assert (Hlev : forall i l, level d' i = Some l -> i = 6 /\ l = buf' \/ 7 <= i /\ level d i = Some l).
  { intros i l. unfold d', level, min_level, rd. cbn [levels]. rewrite Elv. destruct (Z.leb_spec 0 (i - 6)); [|done].
    destruct (Z.eq_dec i 6) as [->|]; [intros [= <-]; by left|]. right. split; [lia|].
    by replace (Z.to_nat (i - 6)) with (S (Z.to_nat (i - 7))) in * by lia. }
  assert (Hu : used_levels d <= used_levels d' <= 19 /\ 7 <= used_levels d') by (unfold d'; cbn [used_levels]; destruct (Z.eqb_spec (used_levels d) 6); lia).
  constructor.
  - unfold min_level. lia.
  - rewrite Elv in Hlen. unfold d', zlen in *. simpl in *. lia.
  - pose proof (ok_sorted d Hok) as H. rewrite Elv in H. apply Forall_cons_1 in H as [_ H]. by constructor.
  - intros i l [[-> ->]|[_ E]]%Hlev; [|by apply (ok_size d Hok)]. right. left. split; [done|]. unfold buffer_max_size, min_level. lia.
  - intros i l Hi [[-> ->]|[_ E]]%Hlev; [lia|]. apply (ok_unused d Hok i); [lia|done].
  - unfold d', raw. cbn [levels]. by rewrite Hraw.
Qed.

(** ** Insertion *)

(** The levels around the target. *)
Lemma split_target d buf rest0 i : levels d = buf :: rest0 -> 7 <= i -> level d i = Some [] ->
  exists rest, levels d = buf :: between d i ++ [] :: rest /\ zlen (between d i) = i - 7.
Proof.
  intros Elv Hi Eli. unfold between. rewrite Elv. simpl. unfold level, rd, min_level in Eli. destruct (Z.leb_spec 0 (i - 6)); [|done].
  rewrite Elv in Eli. replace (Z.to_nat (i - 6)) with (S (Z.to_nat (i - 7))) in Eli by lia. simpl in Eli.
  exists (drop (S (Z.to_nat (i - 7))) rest0). rewrite drop_0. split; [by rewrite take_drop_middle|]. unfold zlen. rewrite length_take.
  apply lookup_lt_Some in Eli. lia.
Qed.

(** A full buffer. *)
Lemma flush_spec max_threads d it buf rest0 p : dyn_ok d -> Z.of_nat (size (<[ikey it := ival it]> (raw d))) <= 2 ^ 17 ->
  levels d = buf :: rest0 -> zlen buf = 127 -> splits buf (fun x => x <? ikey it) p -> level_map buf !! ikey it = None ->
  exists d', ('(i, slots_required) ← find_target d;
    let d := if i =? used_levels d then add_level d i else d in
    d ← pairwise_merge max_threads d it (i - 1) slots_required p;
    Some (d, true)) = Some (d', true) /\ dyn_ok d' /\ raw d' = <[ikey it := ival it]> (raw d) /\ (levels d').[0] = Some [] /\
    new_levels d d'.
Proof.
  intros Hok Hlim Elv Hbuf Hp Hno. pose proof (ok_used d Hok) as Hused. unfold min_level in Hused.
  assert (Elb : level d 6 = Some buf) by (unfold level; by rewrite Elv).
  assert (Hu7 : 7 <= used_levels d).
  { destruct (Z.eq_dec (used_levels d) 6) as [E6|]; [|lia]. rewrite (ok_unused d Hok 6 buf ltac:(lia) Elb) in Hbuf. done. }
  destruct (find_target_spec d Hok Hu7) as (i & -> & Hi & Hi18 & Eli & HR). cbn [mbind option_bind].
  destruct (split_target d buf rest0 i Elv ltac:(lia) Eli) as (rest & Elv' & Hmid).
  set (mid := between d i) in *. set (R := 2 ^ 7 + total mid) in *. set (d1 := if i =? used_levels d then add_level d i else d).
  assert (Hd1 : dyn_ok d1 /\ raw d1 = raw d /\ used_levels d1 <= 19 /\ i <= used_levels d1 - 1 /\
    exists rest1, levels d1 = buf :: mid ++ [] :: rest1 /\ forall l, l ∈ rest1 -> l ∈ levels d \/ l = []).
  { unfold d1. destruct (Z.eqb_spec i (used_levels d)) as [Ei|Hne].
    - destruct (add_level_ok d i Hok) as [Hok1 Hu1]; [lia|]. split; [done|]. split; [apply raw_add_level|]. split; [lia|]. split; [lia|].
      exists (rest ++ [[]]). cbn [levels add_level]. rewrite Elv'. cbn [app]. rewrite <-!app_assoc. split; [done|].
      intros l [Hl|Hl]%elem_of_app; [left|right; by apply list_elem_of_singleton in Hl].
      rewrite elem_of_cons, elem_of_app, elem_of_cons. by do 3 right.
    - split; [done|]. split; [done|]. split; [lia|]. split; [lia|]. exists rest. split; [done|]. intros l Hl. left. rewrite Elv', elem_of_cons, elem_of_app, elem_of_cons. by do 3 right. }
  destruct Hd1 as (Hok1 & Hraw1 & Hu1 & Hu2 & rest1 & E1 & Hrest). rewrite <-Hraw1 in *.
  destruct (pairwise_merge_spec max_threads d1 it p buf mid rest1 i R) as (run & t & -> & Ht & Ht17 & Hsr & Hsz & Hfin);
    [done|apply (ok_sorted d1 Hok1)|done|lia|done|done|done|done|done|done|done|]. cbn [mbind option_bind].
  eexists. split; [done|]. split; [|split; [|split; [done|]]].
  - eapply merged_ok; [exact Hok1|exact E1|exact Hmid|exact Ht|exact Hu2|lia|exact Hsr|exact Hsz|exact Hfin|exact Hlim].
  - unfold raw at 1. cbn [levels]. by rewrite maps_merged, Hfin.
  - assert (Hnil : forall l : list Item, l = [] -> l ∈ levels d \/ forall x, x ∈ l -> raw (mkDyn (used_levels d1) (merged_levels t i run rest1) (pgms d1)) !! ikey x = Some (ival x)).
    { intros l ->. right. intros x Hx. by apply elem_of_nil in Hx. }
    intros l. cbn [levels]. unfold merged_levels at 1. rewrite elem_of_cons, elem_of_app, elem_of_cons, elem_of_app, !elem_of_replicate.
    intros [Hl|[[Hl _]|[->|[[Hl _]|Hl]]]]; [by apply Hnil..| |by apply Hnil|].
    + right. intros x Hx. unfold raw. cbn [levels]. rewrite maps_merged. by apply visible.
    + destruct (Hrest l Hl) as [|Hl']; [by left|by apply Hnil].
Qed.

Lemma buffer_ok d buf rest : dyn_ok d -> levels d = buf :: rest -> sorted buf /\ zlen buf <= 127.
Proof.
  intros Hok Elv. assert (Elb : level d 6 = Some buf) by (unfold level; by rewrite Elv). split; [by eapply level_sorted|].
  destruct (ok_size d Hok 6 buf Elb) as [->|[[_ H]|[[? _]|[? _]]]]; [by vm_compute|exact H|lia|lia].
Qed.

Lemma insert_item_spec max_threads d it : dyn_ok d -> Z.of_nat (size (<[ikey it := ival it]> (raw d))) <= 2 ^ 17 ->
  exists buf, (levels d).[0] = Some buf /\ sorted buf /\ zlen buf <= 127 /\
    if bool_decide (is_Some (level_map buf !! ikey it)) then insert_item max_threads d it = Some (d, false)
    else exists d' buf', insert_item max_threads d it = Some (d', true) /\ dyn_ok d' /\ raw d' = <[ikey it := ival it]> (raw d) /\
      (levels d').[0] = Some buf' /\
      level_map buf' = (if zlen buf <? 127 then <[ikey it := ival it]> (level_map buf) else ∅) /\ new_levels d d'.
Proof.
  intros Hok Hlim. pose proof (ok_levels d Hok) as Hlen.
  destruct (levels d) as [|buf rest] eqn:Elv; [unfold zlen in Hlen; simpl in Hlen; lia|].
  destruct (buffer_ok d buf rest Hok Elv) as [Hsb Hbuf]. exists buf. split; [done|]. split; [done|]. split; [done|].
  destruct (lower_bound_spec buf (ikey it) Hsb) as (p & Ep & Hp). pose proof (lower_bound_hit buf (ikey it) p Hsb Hp) as Hhit.
  assert (Etest : (match buf.[p] with Some x => ikey x =? ikey it | None => false end) = bool_decide (is_Some (level_map buf !! ikey it))).
  { destruct (buf.[p]) as [x|]; [destruct (ikey x =? ikey it)|]; rewrite Hhit; [by rewrite bool_decide_true by (by eexists)| |];
      by rewrite bool_decide_false by (by intros [? [=]]). }
  unfold insert_item. rewrite Elv. change (rd (buf :: rest) 0) with (Some buf). cbn [mbind option_bind]. rewrite Ep. cbn [mbind option_bind].
  rewrite Etest. case_bool_decide as Hin; [done|]. apply eq_None_not_Some in Hin.
  change buffer_max_size with 127. change (min_level + 1) with 7. change min_level with 6. destruct (Z.ltb_spec (zlen buf) 127) as [Hlt|Hge].
  - destruct (insert_at_bound buf it p Hsb Hp Hin) as (Hs' & Hm' & Hl').
    set (buf' := take (Z.to_nat p) buf ++ [it] ++ drop (Z.to_nat p) buf) in *.
    assert (Ew : wr (buf :: rest) 0 buf' = Some (buf' :: rest)) by (unfold wr; destruct (Z.ltb_spec 0 (zlen (buf :: rest))); [done|lia]).
    rewrite Ew. cbn [mbind option_bind].
    destruct (new_buffer_ok d buf buf' rest it _ Hok Elv Hs' ltac:(lia) Hm' eq_refl Hlim) as (Hok' & Hraw' & Hnew).
    by eexists _, buf'.
  - destruct (flush_spec max_threads d it buf rest p Hok Hlim Elv ltac:(lia) Hp Hin) as (d' & E & Hok' & Hraw' & Hb' & Hnew).
    exists d', []. by split.
Qed.
