(* ===== verification/PgmSearch.v ===== *)
(** * The dynamic PGM index: search

    [find] finds exactly the keys that are bound to a value, and in a container
    without deleted items [lower_bound] finds the least bound key that is not less
    than the given one. *)

From Stdlib Require Import Sorted.
From stdpp Require Import gmap list sorting.
From S2P Require Import Prelude Words PgmIndex LoserTree PgmDynamic PgmInv PgmInsert.
Local Open Scope Z_scope.
Local Open Scope cxx_scope.

(** ** Walking up the levels *)

(** The map of the levels below [i]. *)
Definition maps_below (d : DynamicPGMIndex) (i : Z) : gmap Z Z := maps (take (Z.to_nat (i - 6)) (levels d)).

Lemma maps_below_S d i l : 6 <= i -> level d i = Some l -> maps_below d (i + 1) = maps_below d i ∪ level_map l.
Proof.
  intros Hi E. unfold maps_below. unfold level, rd, min_level in E. destruct (Z.leb_spec 0 (i - 6)); [|done].
  replace (Z.to_nat (i + 1 - 6)) with (S (Z.to_nat (i - 6))) by lia. rewrite (take_S_r _ _ _ E), maps_app.
  change (maps [l]) with (level_map l ∪ ∅). by rewrite (right_id_L ∅ (∪)).
Qed.

Lemma maps_all_empty ls : Forall (eq []) ls -> maps ls = ∅.
Proof. induction 1 as [|l ls <- _ IH]; [done|]. change (∅ ∪ maps ls = ∅). rewrite IH. by rewrite (left_id_L ∅ (∪)). Qed.

Lemma maps_below_used d : dyn_ok d -> maps_below d (used_levels d) = raw d.
Proof.
  intros Hok. unfold maps_below, raw. pose proof (ok_used d Hok) as Hu. unfold min_level in Hu.
  rewrite <-(take_drop (Z.to_nat (used_levels d - 6)) (levels d)) at 2. rewrite maps_app.
  rewrite (maps_all_empty (drop _ _)); [by rewrite (right_id_L ∅ (∪))|].
  apply Forall_lookup_2. intros n l E. rewrite lookup_drop in E. symmetry. apply (ok_unused d Hok (used_levels d + Z.of_nat n)); [lia|].
  unfold level, rd, min_level. destruct (Z.leb_spec 0 (used_levels d + Z.of_nat n - 6)); [|lia].
  by replace (Z.to_nat (used_levels d + Z.of_nat n - 6)) with (Z.to_nat (used_levels d - 6) + n)%nat by lia.
Qed.

(** Non-empty levels are searched as a whole. *)
Lemma level_range_all d i x l k : dyn_ok d -> level d i = Some (x :: l) -> level_range d i (x :: l) k = Some (0, zlen (x :: l)).
Proof.
  intros Hok E. unfold level_range. destruct (Z.leb_spec MinIndexedLevel i) as [Hge|]; [|done]. unfold MinIndexedLevel in Hge.
  by pose proof (indexed_empty d i _ Hok Hge E).
Qed.

Lemma end_spec d : dyn_ok d -> exists e, end_ d = Some e /\ 25 <= cell e.
Proof.
  intros Hok. pose proof (ok_levels d Hok) as Hlen. unfold end_. destruct (list.last (levels d)) as [l|] eqn:E.
  - eexists. split; [done|]. simpl. lia.
  - apply last_None in E. rewrite E in Hlen. unfold zlen in Hlen. simpl in Hlen. lia.
Qed.

Lemma deref_at d i p l x : level d i = Some l -> rd l p = Some x -> deref d (cursor_at i p) = Some x.
Proof. intros E Hx. unfold deref, cursor_at. cbn [cell cpos]. unfold level in E. by rewrite E. Qed.

(** ** find *)

Lemma find_spec d k : dyn_ok d -> exists c e, find d k = Some c /\ end_ d = Some e /\
  match raw d !! k with
  | Some v => if v =? tombstone then c = e else c <> e /\ deref d c = Some (mkItem k v)
  | None => c = e
  end.
Proof.
  intros Hok. destruct (end_spec d Hok) as (e & Ee & Hcell). pose proof (ok_used d Hok) as Hused. pose proof (ok_levels d Hok) as Hlen.
  unfold min_level in Hused. unfold find.
  match goal with |- context [loop _ ?body _] => destruct (loop_spec (fun i => 6 <= i <= used_levels d /\ maps_below d i !! k = None)
    (fun c => match raw d !! k with
      | Some v => if v =? tombstone then c = e else c <> e /\ deref d c = Some (mkItem k v)
      | None => c = e
      end) (fun i => used_levels d - i) body) with (fuel := S (length (levels d))) (s := min_level) as (c & -> & Hc) end.
  - intros i [Hi Hbelow]. destruct (Z.ltb_spec i (used_levels d)) as [Hlt|Hge].
    + destruct (level_in d i Hok) as [l El]; [unfold min_level; lia|]. rewrite El. cbn [mbind option_bind].
      destruct l as [|x0 l0] eqn:Hl.
      { split; [|lia]. split; [lia|]. rewrite (maps_below_S d i [] ltac:(lia) El), lookup_union, Hbelow. done. }
      rewrite (level_range_all d i x0 l0 k Hok El). cbn [mbind option_bind]. rewrite <-Hl in *.
      pose proof (level_sorted d i l Hok El) as Hs. destruct (lower_bound_spec l k Hs) as (p & Ep & Hp).
      rewrite Ep. cbn [mbind option_bind]. pose proof (lower_bound_hit l k p Hs Hp) as Hhit.
      assert (Hskip : level_map l !! k = None -> (6 <= i + 1 <= used_levels d /\ maps_below d (i + 1) !! k = None) /\
        0 <= used_levels d - (i + 1) < used_levels d - i).
      { intros Hno. split; [|lia]. split; [lia|]. by rewrite (maps_below_S d i l ltac:(lia) El), lookup_union, Hbelow, Hno. }
      destruct (l.[p]) as [x|] eqn:Ex; [|by apply Hskip]. destruct (Z.eqb_spec (ikey x) k) as [Hk|]; [|by apply Hskip].
      assert (Hraw : raw d !! k = Some (ival x)).
      { rewrite <-(maps_below_used d Hok). unfold maps_below.
        assert (Htake : take (Z.to_nat (i + 1 - 6)) (levels d) `prefix_of` take (Z.to_nat (used_levels d - 6)) (levels d)).
        { exists (take (Z.to_nat (used_levels d - i - 1)) (drop (Z.to_nat (i + 1 - 6)) (levels d))).
          rewrite take_take_drop. f_equal. lia. }
        destruct Htake as [r ->]. rewrite maps_app, lookup_union. fold (maps_below d (i + 1)).
        rewrite (maps_below_S d i l ltac:(lia) El), lookup_union, Hbelow, Hhit. by destruct (maps r !! k). }
      rewrite Hraw. unfold deleted. destruct (ival x =? tombstone) eqn:Et.
      * rewrite Ee. cbn [mbind option_bind]. done.
      * split; [|]. 
        -- intros <-. unfold cursor_at in Hcell. simpl in Hcell. unfold min_level in Hcell. lia.
        -- rewrite (deref_at d i p l x El Ex). f_equal. rewrite <-Hk. by destruct x.
    + rewrite Ee. cbn [mbind option_bind]. replace i with (used_levels d) in Hbelow by lia. rewrite (maps_below_used d Hok) in Hbelow.
      by rewrite Hbelow.
  - split; [unfold min_level; lia|]. done.
  - unfold min_level, zlen in *. lia.
  - unfold min_level. lia.
  - by exists c, e.
Qed.

Lemma pgm_get_spec d k : dyn_ok d ->
  pgm_get d k = Some (v ← raw d !! k; if v =? tombstone then None else Some v).
Proof.
  intros Hok. destruct (find_spec d k Hok) as (c & e & E & Ee & H). unfold pgm_get. rewrite E, Ee. cbn [mbind option_bind].
  destruct (raw d !! k) as [v|]; cbn [mbind option_bind]; [destruct (v =? tombstone)|].
  - by rewrite decide_True.
  - destruct H as [Hne Hd]. rewrite decide_False by done. by rewrite Hd.
  - by rewrite decide_True.
Qed.

(** ** lower_bound *)

(** No item is deleted, hidden ones included. *)
Definition no_deleted (d : DynamicPGMIndex) : Prop := forall l x, l ∈ levels d -> x ∈ l -> deleted x = false.

(** [c] is where the least bound key from [k] on is, if there is one. *)
Definition first_from (d : DynamicPGMIndex) (m : gmap Z Z) (k : Z) (lb : option (Cursor * Z)) : Prop :=
  match lb with
  | Some (c, key) => exists v, m !! key = Some v /\ k <= key /\ deref d c = Some (mkItem key v) /\ cell c < 20 /\
      (exists i, c = cursor_at i (cpos c) /\ 6 <= i < used_levels d) /\
      forall key' v', m !! key' = Some v' -> k <= key' -> key <= key'
  | None => forall key v, m !! key = Some v -> key < k
  end.

Lemma skip_deleted_none items p del : (forall x, x ∈ items -> deleted x = false) -> skip_deleted items p del = (items, p, del).
Proof. destruct items as [|x items]; intros H; [done|]. simpl. by rewrite (H x ltac:(constructor)). Qed.

(** With no deleted keys the first item is the only candidate that can be better. *)
Lemma candidate_first items p lb : sorted items -> candidate items p lb ∅ =
  match items with
  | [] => None
  | x :: _ => if (match lb with None => true | Some (_, key) => ikey x <? key end) then Some (p, ikey x) else None
  end.
Proof.
  intros Hs. destruct items as [|x items]; [done|]. cbn [candidate]. rewrite bool_decide_false by set_solver. rewrite andb_true_r.
  destruct lb as [[c key]|]; [|done]. destruct (Z.ltb_spec (ikey x) key) as [|Hge]; [done|].
  apply sorted_cons in Hs as [Hs Hlt]. assert (Hall : forall y, y ∈ items -> key <= ikey y) by (intros y Hy; specialize (Hlt y Hy); lia).
  clear Hs Hlt. generalize (p + 1). induction items as [|y items IH]; intros q; [done|]. cbn [candidate].
  destruct (Z.ltb_spec (ikey y) key) as [Hy|_]; [specialize (Hall y ltac:(constructor)); lia|]. cbn [andb]. apply IH.
  intros z Hz. apply Hall. by constructor.
Qed.

Lemma lower_bound_round d i l k p lb m : dyn_ok d -> 6 <= i < used_levels d -> level d i = Some l ->
  splits l (fun x => x <? k) p -> first_from d m k lb ->
  first_from d (m ∪ level_map l) k
    (match candidate (drop (Z.to_nat p) l) p lb ∅ with
     | Some (q, key) => Some (cursor_at i q, key)
     | None => lb
     end).
Proof.
  intros Hok Hi El Hp Hlb. pose proof (ok_used d Hok) as Hused. pose proof (level_sorted d i l Hok El) as Hs.
  pose proof (splits_rd _ _ _ Hp) as Erd. destruct Hp as (Hpb & HL & HR).
  pose proof Hs as Hs'. rewrite <-(take_drop (Z.to_nat p) l) in Hs'. apply items_sorted_app in Hs' as (_ & Hsd & _).
  rewrite candidate_first by done.
  assert (Hge : forall key v, level_map l !! key = Some v -> k <= key -> mkItem key v ∈ drop (Z.to_nat p) l).
  { intros key v Hv Hk. apply level_map_Some in Hv; [|done]. rewrite <-(take_drop (Z.to_nat p) l) in Hv.
    apply elem_of_app in Hv as [Hv|]; [|done]. specialize (HL _ Hv). btest. simpl in *. lia. }
  destruct (drop (Z.to_nat p) l) as [|x items] eqn:Ed.
  - assert (Hno : forall key v, level_map l !! key = Some v -> key < k).
    { intros key v Hv. destruct (Z.lt_ge_cases key k) as [|Hk]; [done|]. specialize (Hge key v Hv Hk). by apply elem_of_nil in Hge. }
    destruct lb as [[c key]|]; cbn [first_from] in *.
    + destruct Hlb as (v & Hv & Hk & Hd & Hc & Hi' & Hmin). exists v. split; [rewrite lookup_union, Hv; by destruct (level_map l !! key)|].
      split; [done|]. split; [done|]. split; [done|]. split; [done|]. intros key' v' [H|[_ H]]%lookup_union_Some_raw Hk'; [by eapply Hmin|].
      specialize (Hno key' v' H). lia.
    + intros key v [H|[_ H]]%lookup_union_Some_raw; [by eapply Hlb|by eapply Hno].
  - apply sorted_cons in Hsd as [_ Hlt].
    assert (Hx : x ∈ l) by (rewrite <-(take_drop (Z.to_nat p) l), Ed; apply elem_of_app; right; constructor).
    assert (Hkx : k <= ikey x) by (specialize (HR x ltac:(constructor)); btest; lia).
    assert (Hvx : level_map l !! ikey x = Some (ival x)) by (apply level_map_Some; [done|by destruct x]).
    assert (Hleast : forall key v, level_map l !! key = Some v -> k <= key -> ikey x <= key).
    { intros key v Hv Hk. specialize (Hge key v Hv Hk). apply elem_of_cons in Hge as [<-|Hin]; [done|]. specialize (Hlt _ Hin). simpl in Hlt. lia. }
    assert (Hnew : m !! ikey x = None -> (forall key v, m !! key = Some v -> k <= key -> ikey x <= key) ->
      first_from d (m ∪ level_map l) k (Some (cursor_at i p, ikey x))).
    { intros Hm Hmin. exists (ival x). split; [rewrite lookup_union, Hm, Hvx; done|]. split; [done|].
      split; [rewrite (deref_at d i p l x El Erd); by destruct x|]. unfold min_level in Hused. split; [simpl; unfold min_level; lia|].
      split; [by exists i|]. intros key' v' [H|[_ H]]%lookup_union_Some_raw Hk'; [by eapply Hmin|by eapply Hleast]. }
    destruct lb as [[c key]|]; cbn [first_from] in Hlb.
    + destruct Hlb as (v & Hv & Hk & Hd & Hc & Hi' & Hmin). destruct (Z.ltb_spec (ikey x) key) as [Hltk|Hgek].
      * apply Hnew; [|intros key' v' H Hk'; specialize (Hmin key' v' H Hk'); lia].
        destruct (m !! ikey x) as [w|] eqn:Ew; [|done]. specialize (Hmin _ _ Ew Hkx). lia.
      * exists v. split; [rewrite lookup_union, Hv; by destruct (level_map l !! key)|]. split; [done|]. split; [done|]. split; [done|].
        split; [done|]. intros key' v' [H|[_ H]]%lookup_union_Some_raw Hk'; [by eapply Hmin|]. specialize (Hleast key' v' H Hk'). lia.
    + apply Hnew; [|intros key' v' H Hk'; specialize (Hlb key' v' H); lia].
      destruct (m !! ikey x) as [w|] eqn:Ew; [|done]. specialize (Hlb _ _ Ew). lia.
Qed.

Lemma lower_bound_first d k : dyn_ok d -> no_deleted d -> exists c e lb, lower_bound d k = Some c /\ end_ d = Some e /\
  25 <= cell e /\ first_from d (raw d) k lb /\ match lb with Some (c', _) => c = c' | None => c = e end.
Proof.
  intros Hok Hnd. destruct (end_spec d Hok) as (e & Ee & Hcell). pose proof (ok_used d Hok) as Hused. pose proof (ok_levels d Hok) as Hlen.
  unfold min_level in Hused. unfold lower_bound.
  match goal with |- context [loop _ ?body _] => destruct (loop_spec
    (fun '(i, lb, del) => 6 <= i <= used_levels d /\ del = ∅ /\ first_from d (maps_below d i) k lb)
    (fun c => exists lb, first_from d (raw d) k lb /\ match lb with Some (c', _) => c = c' | None => c = e end)
    (fun '(i, _, _) => used_levels d - i) body) with (fuel := S (length (levels d))) (s := (min_level, @None (Cursor * Z), ∅ : gset Z)) as (c & -> & lb & Hc) end.
  - intros [[i lb] del] (Hi & -> & Hlb). destruct (Z.ltb_spec i (used_levels d)) as [Hlt|Hge].
    + destruct (level_in d i Hok) as [l El]; [unfold min_level; lia|]. rewrite El. cbn [mbind option_bind].
      destruct l as [|x0 l0] eqn:Hl.
      { split; [|lia]. split; [lia|]. split; [done|]. rewrite (maps_below_S d i [] ltac:(lia) El).
        change (level_map []) with (∅ : gmap Z Z). by rewrite (right_id_L ∅ (∪)). }
      rewrite (level_range_all d i x0 l0 k Hok El). cbn [mbind option_bind]. rewrite <-Hl in *.
      pose proof (level_sorted d i l Hok El) as Hs. destruct (lower_bound_spec l k Hs) as (p & Ep & Hp).
      rewrite Ep. cbn [mbind option_bind]. rewrite skip_deleted_none.
      * split; [|lia]. split; [lia|]. split; [done|]. rewrite (maps_below_S d i l ltac:(lia) El).
        apply (lower_bound_round d i l k p lb); [done|lia|done..].
      * intros x Hx. apply (Hnd l); [|by eapply subseteq_drop]. unfold level, rd in El. destruct (0 <=? _); [|done].
        by eapply list_elem_of_lookup_2.
    + replace i with (used_levels d) in Hlb by lia. rewrite (maps_below_used d Hok) in Hlb.
      destruct lb as [[c key]|]; [by exists (Some (c, key))|]. rewrite Ee. cbn [mbind option_bind]. by exists None.
  - split; [unfold min_level; lia|]. split; [done|]. intros key v H. by change (maps_below d min_level) with (∅ : gmap Z Z) in H.
  - unfold min_level, zlen in *. lia.
  - unfold min_level. lia.
  - exists c, e, lb. by destruct Hc.
Qed.
