(* ===== verification/PgmIterator.v ===== *)
(** * The dynamic PGM index: iterators and scans

    An iterator keeps one cursor per level and a tournament tree over their heads.
    [iter_ok] relates it to what is left of every level; [step] takes the least head
    of the lowest level, [advance] moves to the next key that is bound to a value. *)

From Stdlib Require Import Sorted.
From stdpp Require Import gmap list sorting fin_maps.
From S2P Require Import Prelude Words Index PgmIndex LoserTree PgmDynamic PgmInv PgmInsert PgmSearch.
Local Open Scope Z_scope.
Local Open Scope cxx_scope.

(** ** The part of a map above a key *)

Definition above (k : Z) (m : gmap Z Z) : gmap Z Z := filter (fun kv => k < kv.1) m.

Lemma lookup_above k m key : above k m !! key = if k <? key then m !! key else None.
Proof.
  unfold above. destruct (Z.ltb_spec k key) as [H|H].
  - destruct (m !! key) as [v|] eqn:E; [by apply map_lookup_filter_Some|]. apply map_lookup_filter_None. by left.
  - apply map_lookup_filter_None. right. intros v _. simpl. lia.
Qed.

Lemma above_union k m1 m2 : above k (m1 ∪ m2) = above k m1 ∪ above k m2.
Proof. apply map_eq. intros key. rewrite lookup_union, !lookup_above, lookup_union. by destruct (k <? key). Qed.

Lemma above_drop l k p : sorted l -> splits l (fun x => x <=? k) p -> level_map (drop (Z.to_nat p) l) = above k (level_map l).
Proof.
  intros Hs (Hp & HL & HR). pose proof Hs as Hs'. rewrite <-(take_drop (Z.to_nat p) l) in Hs'. apply items_sorted_app in Hs' as (_ & Hsd & _).
  apply map_eq. intros key. apply option_eq. intros v. rewrite lookup_above, level_map_Some by done.
  destruct (Z.ltb_spec k key) as [Hlt|Hge].
  - rewrite level_map_Some by done. split; [by apply subseteq_drop|]. intros Hin. rewrite <-(take_drop (Z.to_nat p) l) in Hin.
    apply elem_of_app in Hin as [Hin|]; [|done]. specialize (HL _ Hin). btest. simpl in *. lia.
  - split; [|done]. intros Hin. specialize (HR _ Hin). btest. simpl in *. lia.
Qed.

(** ** The state of an iterator *)

Section Iterator.
Context (d : DynamicPGMIndex) (Hok : dyn_ok d).

(** Cursor [c] stands before the items [r] of its level. *)
Definition at_rest (c : Cursor) (r : list Item) : Prop :=
  exists i l p, c = cursor_at i p /\ 6 <= i < 20 /\ level d i = Some l /\ 0 <= p <= zlen l /\ r = drop (Z.to_nat p) l.

Definition nonempty (r : list Item) : bool := match r with [] => false | _ => true end.

(** The number of sequences that are not at their end. *)
Definition live (rs : list (list Item)) : Z := zlen (filter (fun r => r <> []) rs).

(** The tree has the heads of [rs]. *)
Definition heads_ok (t : LoserTree) (rs : list (list Item)) : Prop :=
  exists H leaf, tree_rep t (zlen rs) H leaf /\ forall s r, rd rs s = Some r ->
    match r with
    | [] => sup (leaf s) = true
    | x :: _ => sup (leaf s) = false /\ lkey (leaf s) = ikey x
    end.

Record iter_ok (it : Iter) (rs : list (list Item)) : Prop := {
  io_init : initialized it = true;
  io_rest : Forall2 at_rest (iterators it) rs;
  io_count : zlen rs <= 19;
  io_live : unconsumed_count it = live rs;
  io_heads : rs <> [] -> heads_ok (tree it) rs;
  io_total : total rs <= zlen (mjoin (levels d))
}.

(** What is left of every level. *)
Definition remaining (it : Iter) : list (list Item) :=
  (fun c => drop (Z.to_nat (cpos c)) (default [] (rd (levels d) (cell c)))) <$> iterators it.

Lemma iter_remaining it rs : iter_ok it rs -> remaining it = rs.
Proof.
  intros Hit. unfold remaining. pose proof (io_rest _ _ Hit) as Hr. clear Hit. induction Hr as [|c r cs rs3 Hc _ IH]; [done|].
  cbn. f_equal; [|exact IH]. destruct Hc as (i & l & p & -> & _ & El & _ & ->). unfold level in El. cbn. by rewrite El.
Qed.

Lemma at_rest_sorted c r : at_rest c r -> sorted r.
Proof.
  intros (i & l & p & _ & _ & El & _ & ->). pose proof (level_sorted d i l Hok El) as Hs.
  rewrite <-(take_drop (Z.to_nat p) l) in Hs. by apply items_sorted_app in Hs as (_ & Hs & _).
Qed.

Lemma iter_sorted it rs r : iter_ok it rs -> r ∈ rs -> sorted r.
Proof.
  intros Hit Hr. apply list_elem_of_lookup in Hr as [n Hn].
  destruct (Forall2_lookup_r _ _ _ _ _ (io_rest _ _ Hit) Hn) as (c & _ & Hc). by eapply at_rest_sorted.
Qed.

Lemma at_rest_head c x r : at_rest c (x :: r) -> deref d c = Some x /\ at_rest (next_pos c) r /\
  exists l, level d (level_number c) = Some l /\ (cpos (next_pos c) =? zlen l) = negb (nonempty r) /\
    (exists i, c = cursor_at i (cpos c) /\ 6 <= i < 20).
Proof.
  intros (i & l & p & -> & Hi & El & Hp & Er).
  assert (Hx : rd l p = Some x).
  { unfold rd. destruct (Z.leb_spec 0 p); [|lia]. rewrite <-(Nat.add_0_r (Z.to_nat p)), <-lookup_drop, <-Er. done. }
  pose proof (rd_Some _ _ _ Hx) as Hlt. split; [by eapply deref_at|].
  assert (Hr : r = drop (Z.to_nat (p + 1)) l).
  { replace (Z.to_nat (p + 1)) with (1 + Z.to_nat p)%nat by lia. rewrite Nat.add_comm, <-drop_drop, <-Er. done. }
  split.
  - exists i, l, (p + 1). split; [done|]. split; [done|]. split; [done|]. split; [lia|done].
  - exists l. cbn [level_number cursor_at]. split; [done|]. split; [|by exists i].
    cbn [cpos next_pos cursor_at]. destruct (Z.eqb_spec (p + 1) (zlen l)) as [Heq|Hne]; rewrite Hr.
    + rewrite drop_ge by (unfold zlen in *; lia). done.
    + destruct (drop (Z.to_nat (p + 1)) l) as [|y ys] eqn:Ed; [|done].
      apply (f_equal length) in Ed. rewrite length_drop in Ed. unfold zlen in *. simpl in Ed. lia.
Qed.

Lemma live_insert rs n x r : rs !! n = Some (x :: r) -> live (<[n := r]> rs) = live rs - (if nonempty r then 0 else 1).
Proof.
  revert n. induction rs as [|r0 rs IH]; intros n Hn; [done|]. unfold live in *. destruct n as [|n]; simpl in *.
  - injection Hn as ->. rewrite !filter_cons. rewrite (decide_True (P := x :: r <> [])) by done. destruct r as [|y r].
    + rewrite decide_False by (intros H; by apply H). unfold zlen. simpl. lia.
    + rewrite decide_True by done. unfold zlen. simpl. lia.
  - specialize (IH n Hn). rewrite !filter_cons. case_decide; [|done]. unfold zlen in *. simpl. lia.
Qed.

Lemma total_insert rs n x r : rs !! n = Some (x :: r) -> total (<[n := r]> rs) = total rs - 1.
Proof.
  revert n. induction rs as [|r0 rs IH]; intros n Hn; [done|]. destruct n as [|n]; simpl in *.
  - injection Hn as ->. unfold zlen. simpl. lia.
  - rewrite (IH n Hn). lia.
Qed.

Lemma live_pos rs : 0 < live rs -> exists n x r, rs !! n = Some (x :: r).
Proof.
  unfold live. intros H. destruct (filter (fun r => r <> []) rs) as [|r l] eqn:E; [done|].
  assert (Hr : r ∈ filter (fun r => r <> []) rs) by (rewrite E; constructor). apply list_elem_of_filter in Hr as [Hne Hr].
  apply list_elem_of_lookup in Hr as [n Hn]. destruct r as [|x r]; [done|]. by exists n, x, r.
Qed.

Lemma live_zero rs : live rs = 0 -> maps rs = ∅.
Proof.
  intros H. apply maps_all_empty. apply Forall_lookup_2. intros n r Hn. destruct r as [|x r]; [done|].
  assert (Hr : (x :: r) ∈ filter (fun r => r <> []) rs) by (apply list_elem_of_filter; split; [done|by eapply list_elem_of_lookup_2]).
  unfold live in H. destruct (filter (fun r => r <> []) rs); [by apply elem_of_nil in Hr|]. unfold zlen in H. simpl in H. lia.
Qed.

Lemma live_bound rs : 0 <= live rs <= zlen rs.
Proof. unfold live, zlen. pose proof (length_filter (fun r : list Item => r <> []) rs). lia. Qed.

(** [x] is the least head, of the first sequence that has it. *)
Definition least (rs : list (list Item)) (n : nat) (x : Item) : Prop :=
  forall n' y r', rs !! n' = Some (y :: r') -> ikey x < ikey y \/ ikey x = ikey y /\ (n <= n')%nat.

Lemma step_spec it rs : iter_ok it rs -> 0 < unconsumed_count it ->
  exists n x r it' c, rs !! n = Some (x :: r) /\ least rs n x /\ step d it = Some (it', c) /\ deref d c = Some x /\
    iter_ok it' (<[n := r]> rs) /\ current it' = current it /\ min_source (tree it) = Some (Z.of_nat n) /\
    rd (iterators it) (Z.of_nat n) = Some c /\ (exists i, c = cursor_at i (cpos c) /\ 6 <= i < 20).
Proof.
  intros Hit Hun. destruct Hit as [Hini Hrest Hcnt Hlv Hh Htot]. rewrite Hlv in Hun.
  destruct (live_pos rs Hun) as (n0 & x0 & r0 & Hn0).
  assert (Hne : rs <> []) by (intros ->; done). destruct (Hh Hne) as (H & leaf & Htree & Hleaf).
  assert (Hrd : forall n r, rs !! n = Some r -> rd rs (Z.of_nat n) = Some r).
  { intros n r Hn. unfold rd. destruct (Z.leb_spec 0 (Z.of_nat n)); [|lia]. by rewrite Nat2Z.id. }
  assert (Hrange : forall n r, rs !! n = Some r -> 0 <= Z.of_nat n < zlen rs).
  { intros n r Hn. apply lookup_lt_Some in Hn. unfold zlen. lia. }
  destruct (min_source_least _ _ _ _ Htree) as (s & Es & Hs & Hsup & Hmin).
  { exists (Z.of_nat n0). split; [by eapply Hrange|]. by apply (Hleaf _ _ (Hrd _ _ Hn0)). }
  destruct (rd_in rs s Hs) as [rr Err]. pose proof (Hleaf _ _ Err) as Hl. destruct rr as [|x r]; [congruence|].
  destruct Hl as [_ Hkey]. set (n := Z.to_nat s). assert (Hsn : s = Z.of_nat n) by lia.
  assert (Hn : rs !! n = Some (x :: r)) by (unfold rd in Err; by destruct (0 <=? s)).
  destruct (Forall2_lookup_r _ _ _ _ _ Hrest Hn) as (c & Hc & Hat).
  destruct (at_rest_head c x r Hat) as (Hd & Hat' & l & El & Hend & Hcur).
  assert (Hrdc : rd (iterators it) s = Some c) by (unfold rd; destruct (Z.leb_spec 0 s); [done|lia]).
  exists n, x, r. unfold step. rewrite Es. cbn [mbind option_bind]. rewrite Hrdc. cbn [mbind option_bind].
  destruct (wr_in (iterators it) s (next_pos c)) as [cs Ecs]; [by apply rd_Some in Hrdc|]. rewrite Ecs. cbn [mbind option_bind].
  rewrite El. cbn [mbind option_bind]. rewrite Hend.
  assert (Hleast : least rs n x).
  { intros n' y r' Hn'. pose proof (Hleaf _ _ (Hrd _ _ Hn')) as [Hsy Hky]. destruct (Hmin (Z.of_nat n') ltac:(by eapply Hrange) Hsy) as [|[]]; lia. }
  assert (Hrest' : Forall2 at_rest cs (<[n := r]> rs)).
  { apply wr_Some in Ecs as [_ ->]. apply Forall2_insert; done. }
  assert (Hlen' : zlen (<[n := r]> rs) = zlen rs) by (unfold zlen; by rewrite length_insert).
  assert (Htree' : forall e, source e = s -> (match r with [] => sup e = true | y :: _ => sup e = false /\ lkey e = ikey y end) ->
    forall t, tree_rep t (zlen rs) H (replaced leaf s e) -> heads_ok t (<[n := r]> rs)).
  { intros e He Her t Ht. exists H, (replaced leaf s e). rewrite Hlen'. split; [done|]. intros s' r' Hs'. unfold replaced.
    unfold rd in Hs'. destruct (Z.leb_spec 0 s'); [|done]. destruct (Z.eqb_spec s' s) as [->|Hne'].
    - fold n in Hs'. rewrite list_lookup_insert_eq in Hs' by (by eapply lookup_lt_Some). by injection Hs' as <-.
    - rewrite list_lookup_insert_ne in Hs' by lia. apply Hleaf. unfold rd. by destruct (Z.leb_spec 0 s'); [|lia]. }
  pose proof (live_insert rs n x r Hn) as Hli. pose proof (total_insert rs n x r Hn) as Hti. pose proof (live_bound rs) as Hlb.
  destruct r as [|y r]; cbn [nonempty negb] in *.
  - destruct (delete_min_insert_spec (tree it) _ _ _ s None true Htree Es ltac:(lia) eq_refl) as (t & -> & Ht). cbn [mbind option_bind].
    eexists _, c. split; [done|]. split; [done|]. split; [done|]. split; [done|]. split; [|by rewrite <-Hsn].
    constructor; cbn [initialized iterators unconsumed_count tree]; [done|done|lia| | |lia].
    + unfold wrap8. rewrite Hlv, Hli, Z.mod_small; lia.
    + intros _. by eapply Htree'; [| |exact Ht].
  - destruct (at_rest_head _ y r Hat') as (Hdy & _). rewrite Hdy. cbn [mbind option_bind].
    destruct (delete_min_insert_spec (tree it) _ _ _ s (Some (ikey y)) false Htree Es ltac:(lia) eq_refl) as (t & -> & Ht). cbn [mbind option_bind].
    eexists _, c. split; [done|]. split; [done|]. split; [done|]. split; [done|]. split; [|by rewrite <-Hsn].
    constructor; cbn [initialized iterators unconsumed_count tree]; [done|done|lia|rewrite Hlv; lia| |lia].
    intros _. by eapply Htree'; [| |exact Ht].
Qed.

(** *** What a step does to the map of the remaining items *)

Lemma maps_lookup rs k : (forall r, r ∈ rs -> sorted r) ->
  (forall r x, r ∈ rs -> x ∈ r -> ikey x <> k) <-> maps rs !! k = None.
Proof.
  intros _. induction rs as [|r rs IH]; [split; [done|intros _ r x Hr; by apply elem_of_nil in Hr]|].
  change (maps (r :: rs)) with (level_map r ∪ maps rs). rewrite lookup_union_None, <-IH, level_map_None. split.
  - intros H. split; [intros x Hx; apply (H r x); [constructor|done]|]. intros r' x Hr' Hx. apply (H r' x); [by constructor|done].
  - intros [H1 H2] r' x [->|Hr']%elem_of_cons Hx; [by apply H1|by eapply H2].
Qed.

(** No item of [rs] is below [k]. *)
Definition all_ge (k : Z) (rs : list (list Item)) : Prop := forall r x, r ∈ rs -> x ∈ r -> k <= ikey x.

Lemma least_all rs n x r : (forall r, r ∈ rs -> sorted r) -> rs !! n = Some (x :: r) -> least rs n x -> all_ge (ikey x) rs.
Proof.
  intros Hs Hn Hl r' y Hr' Hy. apply list_elem_of_lookup in Hr' as [n' Hn']. destruct r' as [|z r']; [by apply elem_of_nil in Hy|].
  assert (Hz : ikey z <= ikey y).
  { apply elem_of_cons in Hy as [->|Hy]; [done|]. specialize (Hs (z :: r') ltac:(by eapply list_elem_of_lookup_2)).
    apply sorted_cons in Hs as [_ Hlt]. specialize (Hlt y Hy). lia. }
  destruct (Hl n' z r' Hn'); lia.
Qed.

Lemma maps_step rs n x r : (forall r, r ∈ rs -> sorted r) -> rs !! n = Some (x :: r) -> least rs n x ->
  maps rs !! ikey x = Some (ival x) /\ delete (ikey x) (maps (<[n := r]> rs)) = delete (ikey x) (maps rs).
Proof.
  intros Hs Hn Hl.
  assert (Hsplit : rs = take n rs ++ (x :: r) :: drop (S n) rs) by (symmetry; by apply take_drop_middle).
  assert (Hins : <[n := r]> rs = take n rs ++ r :: drop (S n) rs) by (apply insert_take_drop; by eapply lookup_lt_Some).
  assert (Hbefore : maps (take n rs) !! ikey x = None).
  { apply maps_lookup; [intros r' Hr'; apply Hs; by eapply subseteq_take|]. intros r' y Hr' Hy Heq.
    apply list_elem_of_lookup in Hr' as [n' Hn']. apply lookup_take_Some in Hn' as [Hn' Hlt]. destruct r' as [|z r']; [by apply elem_of_nil in Hy|].
    assert (Hz : ikey z <= ikey y).
    { apply elem_of_cons in Hy as [->|Hy]; [done|]. specialize (Hs (z :: r') ltac:(by eapply list_elem_of_lookup_2)).
      apply sorted_cons in Hs as [_ Hz]. specialize (Hz y Hy). lia. }
    destruct (Hl n' z r' Hn') as [|[]]; lia. }
  set (pre := take n rs) in *. set (post := drop (S n) rs) in *. clearbody pre post. rewrite Hins, Hsplit, !maps_app.
  change (maps ((x :: r) :: ?l)) with (<[ikey x := ival x]> (level_map r) ∪ maps l). change (maps (r :: ?l)) with (level_map r ∪ maps l). split.
  - by rewrite lookup_union, Hbefore, lookup_union, lookup_insert_eq; destruct (maps post !! ikey x).
  - by rewrite !delete_union, delete_insert_eq.
Qed.

(** ** drop_key and advance *)

Lemma all_ge_insert rs n x r k : rs !! n = Some (x :: r) -> all_ge k rs -> all_ge k (<[n := r]> rs).
Proof.
  intros Hn H r' y Hr' Hy. apply list_elem_of_lookup in Hr' as [n' Hn']. destruct (decide (n' = n)) as [->|Hne].
  - rewrite list_lookup_insert_eq in Hn' by (by eapply lookup_lt_Some). injection Hn' as <-.
    apply (H (x :: r)); [by eapply list_elem_of_lookup_2|by constructor].
  - rewrite list_lookup_insert_ne in Hn' by done. apply (H r'); [by eapply list_elem_of_lookup_2|done].
Qed.

Lemma drop_key_spec k it rs : iter_ok it rs -> all_ge k rs -> exists it' rs', drop_key d k it = Some it' /\ iter_ok it' rs' /\
  current it' = current it /\ maps rs' = delete k (maps rs) /\ total rs' <= total rs.
Proof.
  intros Hit Hge. unfold drop_key.
  match goal with |- context [loop _ ?body _] => destruct (loop_spec
    (fun it1 => exists rs1, iter_ok it1 rs1 /\ all_ge k rs1 /\ current it1 = current it /\ delete k (maps rs1) = delete k (maps rs) /\ total rs1 <= total rs)
    (fun it' => exists rs', iter_ok it' rs' /\ current it' = current it /\ maps rs' = delete k (maps rs) /\ total rs' <= total rs)
    (fun it1 => total (remaining it1))
    body) with (fuel := S (length (mjoin (levels d)))) (s := it) as (it' & -> & rs' & H) end.
  - intros it1 (rs1 & Hit1 & Hge1 & Hcur & Hdel & Htot).
    assert (Hend : maps rs1 !! k = None -> exists rs', iter_ok it1 rs' /\ current it1 = current it /\ maps rs' = delete k (maps rs) /\ total rs' <= total rs).
    { intros Hno. exists rs1. split; [done|]. split; [done|]. split; [|done]. by rewrite <-Hdel, delete_id. }
    destruct (Z.ltb_spec 0 (unconsumed_count it1)) as [Hpos|Hzero].
    + destruct (step_spec it1 rs1 Hit1 Hpos) as (n & x & r & it2 & c & Hn & Hl & Estep & Hd & Hit2 & Hcur2 & Emin & Erd & _).
      rewrite Emin. cbn [mbind option_bind]. rewrite Erd. cbn [mbind option_bind]. rewrite Hd. cbn [mbind option_bind].
      assert (Hs1 : forall r, r ∈ rs1 -> sorted r) by (intros r'; by apply (iter_sorted it1)).
      destruct (Z.eqb_spec (ikey x) k) as [Hk|Hne].
      * rewrite Estep. cbn [mbind option_bind]. destruct (maps_step rs1 n x r Hs1 Hn Hl) as [_ Hms]. rewrite Hk in Hms.
        rewrite (iter_remaining it1 rs1 Hit1), (iter_remaining it2 _ Hit2), (total_insert rs1 n x r Hn).
        pose proof (total_insert rs1 n x r Hn) as Ht1. split; [|pose proof (total_nonneg (<[n:=r]> rs1)); lia].
        exists (<[n := r]> rs1). split; [done|]. split; [by eapply all_ge_insert|]. split; [congruence|]. split; [congruence|lia].
      * apply Hend. apply maps_lookup; [done|]. intros r' y Hr' Hy Heq.
        pose proof (least_all rs1 n x r Hs1 Hn Hl r' y Hr' Hy). specialize (Hge1 (x :: r) x ltac:(by eapply list_elem_of_lookup_2) ltac:(constructor)). lia.
    + apply Hend. rewrite (live_zero rs1); [done|]. rewrite <-(io_live _ _ Hit1). pose proof (live_bound rs1). rewrite (io_live _ _ Hit1) in *. lia.
  - exists rs. split; [done|]. split; [done|]. by split; [|split].
  - rewrite (iter_remaining it rs Hit). pose proof (io_total _ _ Hit). unfold zlen in *. lia.
  - apply total_nonneg.
  - exists it', rs'. split; [done|]. exact H.
Qed.

Lemma maps_ge rs k key v : (forall r, r ∈ rs -> sorted r) -> all_ge k rs -> maps rs !! key = Some v -> k <= key.
Proof.
  intros Hs Hge Hv. destruct (Z.le_gt_cases k key) as [|Hlt]; [done|]. exfalso.
  rewrite (proj1 (maps_lookup rs key Hs)) in Hv; [done|]. intros r x Hr Hx <-. specialize (Hge r x Hr Hx). lia.
Qed.

(** The next item after the keys of [M] that are deleted. *)
Record next_item (M : gmap Z Z) (it' : Iter) (tmp : Cursor) (rs' : list (list Item)) (x : Item) : Prop := {
  ni_iter : iter_ok it' rs';
  ni_deref : deref d tmp = Some x;
  ni_bound : M !! ikey x = Some (ival x);
  ni_live : deleted x = true -> unconsumed_count it' = 0;
  ni_rest : maps rs' = above (ikey x) M;
  ni_skip key v : M !! key = Some v -> key < ikey x -> v = tombstone;
  ni_cursor : exists i, tmp = cursor_at i (cpos tmp) /\ 6 <= i < 20
}.

Lemma advance_loop M it rs : iter_ok it rs -> maps rs = M -> 0 < unconsumed_count it ->
  exists it' tmp rs' x, loop (S (length (mjoin (levels d)))) (fun it =>
      '(it, tmp) ← step d it;
      x ← deref d tmp;
      it ← drop_key d (ikey x) it;
      Some (if (0 <? unconsumed_count it) && deleted x then inl it else inr (it, tmp))) it = Some (it', tmp) /\
    next_item M it' tmp rs' x.
Proof.
  intros Hit HM Hun.
  match goal with |- context [loop _ ?body _] => destruct (loop_spec
    (fun it1 => exists rs1, iter_ok it1 rs1 /\ 0 < unconsumed_count it1 /\ (forall key v, maps rs1 !! key = Some v -> M !! key = Some v) /\
      forall key v, M !! key = Some v -> maps rs1 !! key = Some v \/ v = tombstone /\ forall key' v', maps rs1 !! key' = Some v' -> key < key')
    (fun '(it', tmp) => exists rs' x, next_item M it' tmp rs' x)
    (fun it1 => total (remaining it1)) body) with (fuel := S (length (mjoin (levels d)))) (s := it) as ([it' tmp] & -> & rs' & x & H) end.
  - intros it1 (rs1 & Hit1 & Hun1 & Hsub & Hcov).
    destruct (step_spec it1 rs1 Hit1 Hun1) as (n & x & r & it2 & c & Hn & Hl & -> & Hd & Hit2 & Hcur2 & _ & _ & Hc).
    cbn [mbind option_bind]. rewrite Hd. cbn [mbind option_bind].
    assert (Hs1 : forall r, r ∈ rs1 -> sorted r) by (intros r'; by apply (iter_sorted it1)).
    pose proof (least_all rs1 n x r Hs1 Hn Hl) as Hge. destruct (maps_step rs1 n x r Hs1 Hn Hl) as [Hx Hdel].
    destruct (drop_key_spec (ikey x) it2 (<[n := r]> rs1) Hit2) as (it3 & rs3 & -> & Hit3 & Hcur3 & Hm3 & Ht3); [by eapply all_ge_insert|].
    cbn [mbind option_bind]. rewrite Hdel in Hm3.
    assert (Hgt : forall key v, maps rs3 !! key = Some v -> ikey x < key).
    { intros key v Hv. rewrite Hm3, lookup_delete_Some in Hv. destruct Hv as [Hne Hv]. pose proof (maps_ge rs1 _ key v Hs1 Hge Hv). lia. }
    destruct ((0 <? unconsumed_count it3) && deleted x) eqn:Eb.
    + btest. split.
      * exists rs3. split; [done|]. split; [done|]. split.
        -- intros key v Hv. rewrite Hm3, lookup_delete_Some in Hv. destruct Hv as [_ Hv]. by apply Hsub.
        -- intros key v Hv. destruct (Hcov key v Hv) as [Hv1|[Hv1 Hlt]].
           ++ destruct (decide (key = ikey x)) as [->|Hne]; [|left; by rewrite Hm3, lookup_delete_ne].
              right. split; [|done]. rewrite Hx in Hv1. injection Hv1 as <-. match goal with H : deleted x = true |- _ => unfold deleted in H; btest; done end.
           ++ right. split; [done|]. intros key' v' Hv'. rewrite Hm3, lookup_delete_Some in Hv'. destruct Hv' as [_ Hv']. by eapply Hlt.
      * rewrite (iter_remaining it1 rs1 Hit1), (iter_remaining it3 rs3 Hit3). rewrite (total_insert rs1 n x r Hn) in Ht3.
        pose proof (total_nonneg rs3). lia.
    + exists rs3, x. constructor; [done|done|by apply Hsub| | | |done].
      * intros Hdx. rewrite Hdx, andb_true_r in Eb. btest. pose proof (live_bound rs3). rewrite (io_live _ _ Hit3) in *. lia.
      * apply map_eq. intros key. apply option_eq. intros v. rewrite lookup_above. split.
        -- intros Hv. pose proof (Hgt key v Hv) as Hlt. destruct (Z.ltb_spec (ikey x) key); [|lia]. rewrite Hm3, lookup_delete_Some in Hv. destruct Hv as [_ Hv]. by apply Hsub.
        -- destruct (Z.ltb_spec (ikey x) key) as [Hlt|]; [|done]. intros Hv. destruct (Hcov key v Hv) as [Hv1|[_ Hlt']].
           ++ rewrite Hm3, lookup_delete_ne; [done|lia].
           ++ specialize (Hlt' (ikey x) (ival x) Hx). lia.
      * intros key v Hv Hlt. destruct (Hcov key v Hv) as [Hv1|[-> _]]; [|done]. pose proof (maps_ge rs1 _ key v Hs1 Hge Hv1). lia.
  - exists rs. subst M. split; [done|]. split; [done|]. split; [done|]. intros key v Hv. by left.
  - rewrite (iter_remaining it rs Hit). pose proof (io_total _ _ Hit). unfold zlen in *. lia.
  - apply total_nonneg.
  - by exists it', tmp, rs', x.
Qed.

(** [k] is the next key above those of [M] that is bound to a value. *)
Definition next_key (M : gmap Z Z) (k v : Z) : Prop :=
  M !! k = Some v /\ v <> tombstone /\ forall key w, M !! key = Some w -> key < k -> w = tombstone.

Lemma advance_spec M it rs : iter_ok it rs -> maps rs = M -> exists it' e, advance d it = Some it' /\ end_ d = Some e /\
  ((it' = iter_at e /\ forall key v, M !! key = Some v -> v = tombstone) \/
   exists k v rs', next_key M k v /\ deref d (current it') = Some (mkItem k v) /\ current it' <> e /\ iter_ok it' rs' /\ maps rs' = above k M).
Proof.
  intros Hit HM. destruct (end_spec d Hok) as (e & Ee & Hcell). unfold advance. destruct (Z.eqb_spec (unconsumed_count it) 0) as [E0|Hne].
  - rewrite Ee. cbn [mbind option_bind]. exists (iter_at e), e. split; [done|]. split; [done|]. left. split; [done|].
    intros key v Hv. rewrite <-HM, (live_zero rs) in Hv; [done|]. by rewrite <-(io_live _ _ Hit).
  - pose proof (live_bound rs) as Hlb. rewrite <-(io_live _ _ Hit) in Hlb.
    destruct (advance_loop M it rs Hit HM ltac:(lia)) as (it' & tmp & rs' & x & -> & [Hit' Hd Hb Hlive Hr Hsk (i & Hc & Hi)]).
    cbn [mbind option_bind]. rewrite Hd. cbn [mbind option_bind]. destruct (deleted x) eqn:Ed.
    + rewrite Ee. cbn [mbind option_bind]. exists (iter_at e), e. split; [done|]. split; [done|]. left. split; [done|].
      intros key v Hv. unfold deleted in Ed. btest. destruct (Z.lt_trichotomy key (ikey x)) as [Hlt|[->|Hgt]]; [by eapply Hsk|congruence|].
      assert (Hmem : maps rs' !! key = Some v) by (rewrite Hr, lookup_above; destruct (Z.ltb_spec (ikey x) key); [done|lia]).
      rewrite (live_zero rs') in Hmem; [done|]. rewrite <-(io_live _ _ Hit'). by apply Hlive.
    + eexists _, e. split; [done|]. split; [done|]. right. exists (ikey x), (ival x), rs'. cbn [current]. unfold deleted in Ed. btest.
      split; [by split|]. split; [rewrite Hd; by destruct x|]. split; [|split; [|done]].
      * intros ->. rewrite Hc in Hcell. unfold cursor_at, min_level in Hcell. simpl in Hcell. lia.
      * by destruct Hit'.
Qed.

(** ** The first increment *)

Lemma mjoin_total ls : zlen (mjoin ls) = total ls.
Proof. induction ls as [|l ls IH]; [done|]. change (mjoin (l :: ls)) with (l ++ mjoin ls). rewrite zlen_app, IH. done. Qed.

Lemma start_cursors_spec k : exists cs rs, start_cursors d k = Some cs /\ Forall2 at_rest cs rs /\ Forall (fun r => r <> []) rs /\
  maps rs = above k (raw d) /\ zlen rs <= 13 /\ total rs <= zlen (mjoin (levels d)).
Proof.
  pose proof (ok_used d Hok) as Hused. pose proof (ok_levels d Hok) as Hlen. unfold min_level in Hused. unfold start_cursors.
  match goal with |- context [loop _ ?body _] => destruct (loop_spec
    (fun '(i, cs) => 6 <= i <= used_levels d /\ exists rs, Forall2 at_rest cs rs /\ Forall (fun r => r <> []) rs /\ maps rs = above k (maps_below d i) /\
      zlen rs <= i - 6 /\ total rs <= total (take (Z.to_nat (i - 6)) (levels d)))
    (fun cs => exists rs, Forall2 at_rest cs rs /\ Forall (fun r => r <> []) rs /\ maps rs = above k (raw d) /\
      zlen rs <= 13 /\ total rs <= zlen (mjoin (levels d)))
    (fun '(i, _) => used_levels d - i) body) with (fuel := S (length (levels d))) (s := (min_level, @nil Cursor)) as (cs & -> & rs & H) end.
  - intros [i cs] (Hi & rs & Hr & Hne & Hm & Hc & Ht). destruct (Z.ltb_spec i (used_levels d)) as [Hlt|Hge].
    + destruct (level_in d i Hok) as [l El]; [unfold min_level; lia|]. rewrite El. cbn [mbind option_bind].
      assert (Htake : total (take (Z.to_nat (i + 1 - 6)) (levels d)) = total (take (Z.to_nat (i - 6)) (levels d)) + zlen l).
      { replace (Z.to_nat (i + 1 - 6)) with (S (Z.to_nat (i - 6))) by lia. apply total_take_S. unfold level, rd, min_level in El.
        by destruct (0 <=? i - 6). }
      assert (Hkeep : above k (level_map l) = ∅ -> (6 <= i + 1 <= used_levels d /\ exists rs, Forall2 at_rest cs rs /\ Forall (fun r => r <> []) rs /\
        maps rs = above k (maps_below d (i + 1)) /\ zlen rs <= i + 1 - 6 /\ total rs <= total (take (Z.to_nat (i + 1 - 6)) (levels d))) /\
        0 <= used_levels d - (i + 1) < used_levels d - i).
      { intros E. split; [|lia]. split; [lia|]. exists rs. split; [done|]. split; [done|].
        rewrite (maps_below_S d i l ltac:(lia) El), above_union, E, (right_id_L ∅ (∪)). split; [done|]. pose proof (zlen_nonneg l). split; lia. }
      destruct l as [|x0 l0] eqn:Hl; [by apply Hkeep|]. rewrite (level_range_all d i x0 l0 k Hok El). cbn [mbind option_bind]. rewrite <-Hl in *.
      pose proof (level_sorted d i l Hok El) as Hs. destruct (upper_bound_spec l k Hs) as (p & Ep & Hp). rewrite Ep. cbn [mbind option_bind].
      pose proof (above_drop l k p Hs Hp) as Habove. destruct Hp as [Hp _]. destruct (Z.eqb_spec p (zlen l)) as [->|Hpne].
      * apply Hkeep. rewrite <-Habove, drop_ge by (unfold zlen; lia). done.
      * split; [|lia]. split; [lia|]. exists (rs ++ [drop (Z.to_nat p) l]). split; [apply Forall2_app; [done|]; constructor; [|constructor]|].
        { exists i, l, p. split; [done|]. split; [lia|]. split; [done|]. split; [lia|done]. }
        split; [apply Forall_app; split; [done|]; constructor; [|constructor]|].
        { intros E. apply (f_equal length) in E. rewrite length_drop in E. unfold zlen in *. simpl in E. lia. }
        split; [|split; [rewrite zlen_app; unfold zlen at 2; simpl; lia|]].
        -- rewrite maps_app, Hm, (maps_below_S d i l ltac:(lia) El), above_union, <-Habove. f_equal.
           change (level_map (drop (Z.to_nat p) l) ∪ ∅ = level_map (drop (Z.to_nat p) l)). by rewrite (right_id_L ∅ (∪)).
        -- rewrite total_app, Htake. simpl. unfold zlen at 1. rewrite length_drop. unfold zlen. lia.
    + replace i with (used_levels d) in Hm by lia. rewrite (maps_below_used d Hok) in Hm. exists rs. split; [done|]. split; [done|]. split; [done|].
      split; [lia|]. rewrite mjoin_total. rewrite <-(take_drop (Z.to_nat (i - 6)) (levels d)), total_app. pose proof (total_nonneg (drop (Z.to_nat (i - 6)) (levels d))). lia.
  - split; [unfold min_level; lia|]. exists []. split; [constructor|]. split; [constructor|]. split; [|split; [by vm_compute|done]].
    symmetry. apply map_eq. intros key. rewrite lookup_above. by destruct (k <? key).
  - unfold min_level, zlen in *. lia.
  - unfold min_level. lia.
  - by exists cs, rs.
Qed.

Lemma lazy_initialize_spec c x : deref d c = Some x -> above (ikey x) (raw d) <> ∅ ->
  exists it' rs, lazy_initialize d (iter_at c) = Some it' /\ iter_ok it' rs /\ maps rs = above (ikey x) (raw d).
Proof.
  intros Hd Hleft. unfold lazy_initialize. cbn [initialized iter_at current]. rewrite Hd. cbn [mbind option_bind].
  destruct (start_cursors_spec (ikey x)) as (cs & rs & -> & Hr & Hne & Hm & Hc & Ht). cbn [mbind option_bind].
  assert (Hheads : exists heads, mapM (deref d) cs = Some heads /\ Forall2 (fun h r => head r = Some h) heads rs).
  { clear Hm Hc Ht. induction Hr as [|c0 r cs rs Hc0 _ IH]; [by exists []|]. apply Forall_cons_1 in Hne as [Hr0 Hne].
    destruct (IH Hne) as (hs & E & Hhs). destruct r as [|y r]; [done|]. destruct (at_rest_head c0 y r Hc0) as (Hy & _).
    exists (y :: hs). cbn. rewrite Hy. cbn. cbn in E. rewrite E. split; [done|]. by constructor. }
  destruct Hheads as (heads & -> & Hhs). cbn [mbind option_bind].
  assert (Hlen : zlen (ikey <$> heads) = zlen rs) by (unfold zlen; rewrite length_fmap; f_equal; by eapply Forall2_length).
  assert (Hlcs : zlen cs = zlen rs) by (unfold zlen; f_equal; by eapply Forall2_length).
  assert (Hlive : live rs = zlen rs).
  { clear -Hne. unfold live. induction Hne as [|r rs Hr _ IH]; [done|]. rewrite filter_cons, decide_True by done. unfold zlen in *. simpl. lia. }
  assert (Htree : exists t, start_tree (ikey <$> heads) = Some t /\ (rs <> [] -> heads_ok t rs)).
  { destruct rs as [|r0 rs0] eqn:Ers.
    - by rewrite <-Hm in Hleft.
    - rewrite <-Ers in *. destruct (start_tree_spec (ikey <$> heads)) as (t & H & leaf & -> & Htr & Hleaf).
      { rewrite Hlen. rewrite Ers in *. unfold zlen in *. simpl in *. lia. }
      exists t. split; [done|]. intros _. exists H, leaf. rewrite Hlen in Htr. split; [done|]. intros s r Hs.
      pose proof (rd_Some _ _ _ Hs) as Hsr. rewrite Hleaf by lia. unfold rd in Hs. destruct (Z.leb_spec 0 s) as [H0|]; [|done].
      destruct (Forall2_lookup_r _ _ _ _ _ Hhs Hs) as (h & Eh & Hh). destruct r as [|y r]; [done|]. injection Hh as ->. cbn [sup lkey]. split; [done|].
      apply at_rd. unfold rd. destruct (Z.leb_spec 0 s); [|lia]. rewrite list_lookup_fmap, Eh. done. }
  destruct Htree as (t & -> & Ht'). cbn [mbind option_bind]. eexists _, rs. split; [done|]. split; [|done].
  constructor; cbn [initialized iterators unconsumed_count tree]; [done|done|lia| |done|done].
  pose proof (zlen_nonneg rs). unfold wrap8. rewrite Z.mod_small; lia.
Qed.

(** Moving on for the first time from the greatest key of a container asks for a
    tournament tree of no sequences, whose size is computed by shifting a word by its
    width: undefined. *)
Lemma lazy_initialize_last c x : deref d c = Some x -> above (ikey x) (raw d) = ∅ -> lazy_initialize d (iter_at c) = None.
Proof.
  intros Hd Hlast. unfold lazy_initialize. cbn [initialized iter_at current]. rewrite Hd. cbn [mbind option_bind].
  destruct (start_cursors_spec (ikey x)) as (cs & rs & -> & Hr & Hne & Hm & _). cbn [mbind option_bind].
  assert (rs = []) as ->.
  { destruct rs as [|[|y r] rs]; [done|by apply Forall_cons_1 in Hne as [? _]|]. exfalso.
    assert (Hy : maps ((y :: r) :: rs) !! ikey y = Some (ival y)).
    { change (maps ((y :: r) :: rs)) with (level_map (y :: r) ∪ maps rs). rewrite level_map_cons, <-insert_union_l. apply lookup_insert_eq. }
    by rewrite Hm, Hlast in Hy. }
  apply Forall2_nil_inv_r in Hr as ->. done.
Qed.
End Iterator.

(** * Scans

    Incrementing an iterator that stands on a key bound to a value visits every later
    one, in order and once, and skips the deleted keys; the first increment is
    undefined when no item is left.  A scan therefore returns the first entries of the
    container from its first position on, unless it starts at the greatest key; in a
    container without deleted items the first position is that of the first entry that
    is not below the given key. *)

(** ** The entries of a map, one by one *)

(** The first entry and the others. *)
Lemma entries_from_next m low k v : m !! k = Some v -> low <= k -> (forall key w, m !! key = Some w -> low <= key -> k <= key) ->
  entries_from m low = (k, v) :: entries_from m (k + 1).
Proof.
  intros Hk Hlow Hmin. apply increasing_entries_unique; [apply entries_from_increasing| |].
  - cbn. constructor; [apply entries_from_increasing|]. apply List.Forall_forall.
    intros key ([key' w] & -> & Hin)%list_elem_of_In%list_elem_of_fmap. apply elem_of_entries_from in Hin as [_ Hin]. simpl. lia.
  - intros [key w]. rewrite elem_of_cons, !elem_of_entries_from. split.
    + intros [Hw Hle]. specialize (Hmin key w Hw Hle). destruct (decide (key = k)) as [->|]; [left; congruence|right; split; [done|lia]].
    + intros [[= -> ->]|[Hw Hle]]; [done|]. split; [done|lia].
Qed.

Lemma entries_from_end m low : (forall key w, m !! key = Some w -> key < low) -> entries_from m low = [].
Proof.
  intros H. destruct (entries_from m low) as [|[k v] l] eqn:E; [done|]. exfalso.
  assert (Hin : (k, v) ∈ entries_from m low) by (rewrite E; constructor). apply elem_of_entries_from in Hin as [Hv Hle].
  specialize (H k v Hv). lia.
Qed.

Lemma entries_from_skip m low low' : low <= low' -> (forall key w, m !! key = Some w -> low <= key -> low' <= key) ->
  entries_from m low = entries_from m low'.
Proof.
  intros Hle H. apply increasing_entries_unique; [apply entries_from_increasing..|].
  intros [key w]. rewrite !elem_of_entries_from. split; intros [Hw Hk]; (split; [done|]); [by eapply H|lia].
Qed.

Lemma entries_from_length m low : zlen (entries_from m low) <= Z.of_nat (size m).
Proof.
  unfold zlen. enough (length (entries_from m low) <= size m)%nat by lia.
  unfold entries_from. rewrite (Permutation_length (merge_sort_Permutation _ _)). etrans; [apply length_filter|].
  by rewrite <-(length_map_to_list m).
Qed.

Lemma maps_size ls : Z.of_nat (size (maps ls)) <= total ls.
Proof.
  induction ls as [|l ls IH]; [done|]. change (maps (l :: ls)) with (level_map l ∪ maps ls). change (total (l :: ls)) with (zlen l + total ls).
  assert (Hl : Z.of_nat (size (level_map l)) <= zlen l).
  { clear. induction l as [|it l IH]; [done|]. rewrite level_map_cons. rewrite map_size_insert. unfold zlen in *. cbn [length]. destruct (level_map l !! ikey it); unfold id; lia. }
  assert (size (level_map l ∪ maps ls) <= size (level_map l) + size (maps ls))%nat; [|lia].
  rewrite <-!size_dom, dom_union_L, size_union_alt. apply Nat.add_le_mono_l, subseteq_size.
  by intros k [? _]%elem_of_difference.
Qed.

(** ** The keys bound to a value *)

Definition bindings (d : DynamicPGMIndex) : gmap Z Z := filter (fun kv => kv.2 <> tombstone) (raw d).

Lemma lookup_bindings d k : bindings d !! k = (v ← raw d !! k; if v =? tombstone then None else Some v).
Proof.
  unfold bindings. destruct (raw d !! k) as [v|] eqn:E; cbn [mbind option_bind].
  - destruct (Z.eqb_spec v tombstone) as [->|Hne].
    + apply map_lookup_filter_None. right. intros w Hw. rewrite E in Hw. injection Hw as <-. simpl. tauto.
    + by apply map_lookup_filter_Some.
  - apply map_lookup_filter_None. by left.
Qed.

Lemma bindings_Some d k v : bindings d !! k = Some v <-> raw d !! k = Some v /\ v <> tombstone.
Proof. unfold bindings. by rewrite map_lookup_filter_Some. Qed.

Lemma no_deleted_raw d k v : no_deleted d -> raw d !! k = Some v -> (forall l, l ∈ levels d -> sorted l) -> v <> tombstone.
Proof.
  intros Hnd Hv Hs ->. unfold raw in Hv. revert Hv. unfold no_deleted in Hnd. induction (levels d) as [|l ls IH]; [done|].
  change (maps (l :: ls)) with (level_map l ∪ maps ls). intros [Hl|[_ Hl]]%lookup_union_Some_raw.
  - apply level_map_Some in Hl; [|apply Hs; constructor]. specialize (Hnd l _ ltac:(constructor) Hl). done.
  - apply IH; [|intros l' Hl'; apply Hs; by constructor|done]. intros l' x Hl' Hx. apply (Hnd l' x); [by constructor|done].
Qed.

Lemma bindings_no_deleted d : dyn_ok d -> no_deleted d -> bindings d = raw d.
Proof.
  intros Hok Hnd. apply map_eq. intros k. apply option_eq. intros v. rewrite bindings_Some. split; [by intros []|].
  intros Hv. split; [done|]. apply (no_deleted_raw d k v Hnd Hv). intros l Hl. pose proof (ok_sorted d Hok) as Hs.
  rewrite List.Forall_forall in Hs. by apply Hs, list_elem_of_In.
Qed.

(** ** The loop of a scan *)

Section Scan.
Context (d : DynamicPGMIndex) (Hok : dyn_ok d).

(** [it] stands on the key [k], with the value [v]. *)
Definition stands (it : Iter) (k v : Z) : Prop :=
  deref d (current it) = Some (mkItem k v) /\ bindings d !! k = Some v /\
  (it = iter_at (current it) \/ exists rs, iter_ok d it rs /\ maps rs = above k (raw d)).

Lemma increment_spec it k v e : stands it k v -> (initialized it = false -> above k (raw d) <> ∅) -> end_ d = Some e ->
  exists it', increment d it = Some it' /\
  ((it' = iter_at e /\ entries_from (bindings d) (k + 1) = []) \/
   exists k' v', stands it' k' v' /\ initialized it' = true /\ current it' <> e /\ entries_from (bindings d) (k + 1) = (k', v') :: entries_from (bindings d) (k' + 1)).
Proof.
  intros (Hd & Hb & Hst) Hleft Ee. unfold increment.
  assert (Hlazy : exists it1 rs, lazy_initialize d it = Some it1 /\ iter_ok d it1 rs /\ maps rs = above k (raw d)).
  { destruct Hst as [Eit|(rs & Hit & Hm)].
    - rewrite Eit. apply (lazy_initialize_spec d Hok _ _ Hd). apply Hleft. by rewrite Eit.
    - exists it, rs. split; [|done]. unfold lazy_initialize. by rewrite (io_init _ _ _ Hit). }
  destruct Hlazy as (it1 & rs & -> & Hit & Hm). cbn [mbind option_bind].
  destruct (advance_spec d Hok (above k (raw d)) it1 rs Hit Hm) as (it' & e' & E & Ee' & H). rewrite Ee in Ee'. injection Ee' as <-.
  exists it'. split; [done|]. destruct H as [[-> Hall]|(k' & v' & rs' & (Hk' & Hv' & Hmin) & Hd' & Hne & Hit' & Hm')].
  - left. split; [done|]. apply entries_from_end. intros key w [Hw Hnt]%bindings_Some.
    destruct (Z.le_gt_cases key k) as [|Hgt]; [lia|]. exfalso. apply Hnt, (Hall key w). rewrite lookup_above.
    by destruct (Z.ltb_spec k key); [|lia].
  - right. exists k', v'. rewrite lookup_above in Hk'. destruct (Z.ltb_spec k k') as [Hlt|]; [|done].
    split; [|split; [by apply (io_init _ _ _ Hit')|split; [done|]]].
    + split; [done|]. split; [by apply bindings_Some|]. right. exists rs'. split; [done|]. rewrite Hm'. apply map_eq. intros key.
      rewrite !lookup_above. destruct (Z.ltb_spec k' key), (Z.ltb_spec k key); done || lia.
    + apply entries_from_next; [by apply bindings_Some|lia|]. intros key w [Hw Hnt]%bindings_Some Hle.
      destruct (Z.le_gt_cases k' key) as [|Hgt]; [done|]. exfalso. apply Hnt, (Hmin key w); [|done]. rewrite lookup_above.
      by destruct (Z.ltb_spec k key); [|lia].
Qed.

(** From a position [c] that is the end or on a bound key, the loop returns the
    entries from there on, unless it has to move on from the last item. *)
Lemma scan_loop c e low n fuel : end_ d = Some e -> 0 <= n -> zlen (mjoin (levels d)) < Z.of_nat fuel ->
  (c = e /\ entries_from (bindings d) low = [] \/
   c <> e /\ exists k v, stands (iter_at c) k v /\ (0 < n -> above k (raw d) <> ∅) /\
     entries_from (bindings d) low = (k, v) :: entries_from (bindings d) (k + 1)) ->
  loop fuel (fun '(it, result) =>
    if (zlen result <? n) && negb (bool_decide (current it = e)) then
      x ← deref d (current it);
      it ← increment d it;
      Some (inl (it, result ++ [(ikey x, ival x)]))
    else Some (inr result)) (iter_at c, []) = Some (take (Z.to_nat n) (entries_from (bindings d) low)).
Proof.
  intros Ee Hn Hfuel Hc. set (full := entries_from (bindings d) low) in *.
  match goal with |- loop fuel ?body _ = _ => destruct (loop_spec
    (fun '(it, result) => zlen result <= n /\
      (current it = e /\ full = result \/
       current it <> e /\ exists k v, stands it k v /\ (initialized it = false -> zlen result < n -> above k (raw d) <> ∅) /\
         full = result ++ (k, v) :: entries_from (bindings d) (k + 1)))
    (fun result => result = take (Z.to_nat n) full)
    (fun '(it, result) => zlen full - zlen result) body) with (fuel := fuel) (s := (iter_at c, @nil (Z * Z))) as (r & -> & ->) end; [| | | |done].
  - intros [it result] (Hlen & H). destruct (Z.ltb_spec (zlen result) n) as [Hlt|Hge]; cbn [andb].
    + destruct H as [[Hcur Hfull]|(Hcur & k & v & Hst & Hleft & Hfull)].
      * rewrite bool_decide_true by done. cbn [negb]. rewrite Hfull. symmetry. apply take_ge. unfold zlen in Hlt. lia.
      * rewrite bool_decide_false by done. cbn [negb]. pose proof Hst as (Hd & _). rewrite Hd. cbn [mbind option_bind ikey ival].
        destruct (increment_spec it k v e Hst ltac:(auto) Ee) as (it' & -> & H). cbn [mbind option_bind].
        assert (Hone : zlen (result ++ [(k, v)]) = zlen result + 1) by apply zlen_app.
        assert (Hlong : zlen result + 1 <= zlen full).
        { rewrite Hfull, zlen_app. unfold zlen. simpl. lia. }
        split; [split; [lia|]|lia].
        destruct H as [[-> He]|(k' & v' & Hst' & Hini & Hne & He)].
        -- left. split; [done|]. by rewrite Hfull, He.
        -- right. split; [done|]. exists k', v'. split; [done|]. split; [|by rewrite Hfull, He, <-app_assoc].
           by rewrite Hini.
    + assert (Hz : length result = Z.to_nat n) by (unfold zlen in *; lia).
      destruct H as [[_ Hfull]|(_ & k & v & _ & _ & Hfull)]; rewrite Hfull; [rewrite take_ge; [done|lia]|by rewrite take_app_length'].
  - split; [by vm_compute|]. destruct Hc as [[-> He]|(Hne & k & v & Hst & Hleft & He)]; [by left|right]. split; [done|].
    exists k, v. split; [done|]. split; [|done]. intros _. exact Hleft.
  - unfold full. pose proof (entries_from_length (bindings d) low) as Hl. rewrite mjoin_total in Hfuel.
    assert (size (bindings d) <= size (raw d))%nat.
    { rewrite <-!size_dom. apply subseteq_size. apply subseteq_dom, map_filter_subseteq. }
    pose proof (maps_size (levels d)). unfold raw in *. unfold zlen at 2. simpl. lia.
  - unfold zlen at 2. simpl. pose proof (zlen_nonneg full). lia.
Qed.

(** A scan is exact, and undefined when it starts at the greatest key. *)
Lemma pgm_scan_spec low n : no_deleted d -> 0 <= n ->
  pgm_scan d low n =
    if (0 <? n) && (zlen (entries_from (raw d) low) =? 1) then None else Some (take (Z.to_nat n) (entries_from (raw d) low)).
Proof.
  intros Hnd Hn. pose proof (bindings_no_deleted d Hok Hnd) as Hraw. unfold pgm_scan.
  destruct (lower_bound_first d low Hok Hnd) as (c & e & lb & -> & Ee & Hcell & Hfirst & Hc). rewrite Ee. cbn [mbind option_bind].
  destruct lb as [[c' key]|]; cbn [first_from] in Hfirst.
  - destruct Hfirst as (v & Hv & Hle & Hd & Hcell' & _ & Hmin). subst c'.
    assert (Hfull : entries_from (raw d) low = (key, v) :: entries_from (raw d) (key + 1)) by (by apply entries_from_next).
    assert (Hce : c <> e) by (intros ->; lia).
    destruct ((0 <? n) && _) eqn:Eb.
    + btest. rewrite Hfull in *. assert (Habove : above key (raw d) = ∅).
      { apply map_eq. intros x. rewrite lookup_above, lookup_empty. destruct (Z.ltb_spec key x) as [Hlt|]; [|done].
        apply eq_None_not_Some. intros [w Hw]. assert (Hin : (x, w) ∈ entries_from (raw d) (key + 1)) by (apply elem_of_entries_from; split; [done|lia]).
        destruct (entries_from (raw d) (key + 1)); [by apply elem_of_nil in Hin|]. unfold zlen in *. simpl in *. lia. }
      cbn [loop]. change (zlen []) with 0. destruct (Z.ltb_spec 0 n); [|lia]. cbn [andb].
      rewrite bool_decide_false by done. cbn [negb iter_at current]. rewrite Hd. cbn [mbind option_bind].
      unfold increment. by rewrite (lazy_initialize_last d Hok c _ Hd).
    + rewrite <-Hraw in *. apply scan_loop; [done|done|unfold zlen; lia|]. right. split; [done|]. exists key, v.
      split; [split; [done|]; split; [done|]; by left|]. split; [|done]. intros Hpos Habove.
      assert (Hnil : entries_from (bindings d) (key + 1) = []).
      { apply entries_from_end. intros x w Hw. destruct (Z.lt_ge_cases x (key + 1)) as [|Hge]; [done|]. exfalso.
        assert (Hx : above key (raw d) !! x = Some w) by (rewrite lookup_above; destruct (Z.ltb_spec key x); [congruence|lia]).
        by rewrite Habove in Hx. }
      rewrite Hfull, Hnil in Eb. change (zlen [_]) with 1 in Eb. by destruct (Z.ltb_spec 0 n); [|lia].
  - rewrite <-Hraw in *. assert (Hnil : entries_from (bindings d) low = []) by (by apply entries_from_end).
    rewrite (scan_loop c e low n _ Ee Hn); [by rewrite Hnil, andb_false_r|unfold zlen; lia|left; by split].
Qed.
End Scan.
