(* ===== verification/PgmLaws.v ===== *)
(** * The dynamic PGM index as a map

    Construction from sorted pairs, any sequence of insertions, erasures and searches
    against an abstract specification, the laws of the index interface, and what the
    specification shows about erased keys. *)

From Stdlib Require Import Sorted.
From stdpp Require Import gmap list sorting fin_maps.
From S2P Require Import Prelude Words Index PgmIndex LoserTree PgmDynamic PgmInv PgmInsert PgmSearch PgmIterator.
Local Open Scope Z_scope.
Local Open Scope cxx_scope.

(** ** Construction *)

Definition items_of (kvs : list (Z * Z)) : list Item := (fun p => mkItem p.1 p.2) <$> kvs.

Lemma items_of_map kvs : level_map (items_of kvs) = list_to_map kvs.
Proof. unfold level_map, items_of. rewrite <-list_fmap_compose. f_equal. induction kvs as [|[k v] kvs IH]; [done|]. cbn. f_equal. exact IH. Qed.

Lemma items_of_sorted kvs : StronglySorted Z.lt kvs.*1 -> sorted (items_of kvs).
Proof. unfold sorted, items_of. by rewrite <-list_fmap_compose. Qed.

Definition live_values (kvs : list (Z * Z)) : Prop := Forall (fun v => v <> tombstone) kvs.*2.

Lemma item_of_live k v : v <> tombstone -> item_of k v = Some (mkItem k v).
Proof. intros H. unfold item_of. by destruct (Z.eqb_spec v tombstone). Qed.

Lemma copy_unique_spec kvs : forall prev, StronglySorted Z.lt (prev :: kvs.*1) -> live_values kvs -> copy_unique prev kvs = Some (items_of kvs).
Proof.
  induction kvs as [|[k v] kvs IH]; intros prev Hs Hl; [done|]. cbn [copy_unique]. cbn in Hs. apply StronglySorted_inv in Hs as [Hs Hall].
  apply Forall_cons_1 in Hl as [Hv Hl]. apply Forall_cons_1 in Hall as [Hlt _].
  destruct (Z.ltb_spec k prev); [lia|]. destruct (Z.eqb_spec k prev); [lia|]. rewrite item_of_live by done. cbn [mbind option_bind].
  by rewrite (IH k Hs Hl).
Qed.

(** A container with one level in use. *)
Definition one_level (n j : nat) (l : list Item) : list (list Item) := replicate j [] ++ l :: replicate (n - S j) [].

Lemma one_level_wr n j l : (j < n)%nat -> wr (replicate n []) (Z.of_nat j) l = Some (one_level n j l).
Proof.
  intros Hj. unfold wr, zlen. rewrite length_replicate. destruct (Z.leb_spec 0 (Z.of_nat j)); [|lia].
  destruct (Z.ltb_spec (Z.of_nat j) (Z.of_nat n)); [|lia]. cbn [andb]. f_equal. rewrite Nat2Z.id.
  replace n with (j + S (n - S j))%nat at 1 by lia. rewrite replicate_add, insert_app_r_alt by (rewrite length_replicate; lia).
  by rewrite length_replicate, Nat.sub_diag.
Qed.

Lemma one_level_rd n j l i x : rd (one_level n j l) i = Some x -> (i = Z.of_nat j /\ x = l) \/ (i <> Z.of_nat j /\ x = []).
Proof.
  unfold rd, one_level. destruct (Z.leb_spec 0 i) as [Hi|]; [|done]. intros [E|[Hge E]]%lookup_app_Some.
  - apply lookup_replicate in E as [-> Hlt]. right. split; [lia|done].
  - rewrite length_replicate in *. apply lookup_cons_Some in E as [[E <-]|[H1 E]]; [left; split; [lia|done]|].
    apply lookup_replicate in E as [-> Hlt]. right. split; [lia|done].
Qed.

Lemma one_level_maps n j l : maps (one_level n j l) = level_map l.
Proof.
  unfold one_level. rewrite maps_app, maps_empty. change (∅ ∪ (level_map l ∪ maps (replicate (n - S j) [])) = level_map l).
  rewrite maps_empty. by rewrite (left_id_L ∅ (∪)), (right_id_L ∅ (∪)).
Qed.

Lemma one_level_elem n j l x : x ∈ one_level n j l -> x = l \/ x = [].
Proof.
  unfold one_level. rewrite elem_of_app, elem_of_cons. intros [[-> _]%elem_of_replicate|[->|[-> _]%elem_of_replicate]]; auto.
Qed.

Lemma one_level_ok used ps n j l : sorted l -> zlen l <= 2 ^ 17 -> (j < n)%nat -> (26 <= n)%nat -> 6 <= used <= 19 ->
  (l <> [] -> Z.of_nat j + 6 < used) -> size_ok (Z.of_nat j + 6) l -> dyn_ok (mkDyn used (one_level n j l) ps).
Proof.
  intros Hs Hlen Hj Hn Hu Hjl Hsz. constructor; cbn [used_levels levels].
  - done.
  - unfold one_level, zlen. rewrite length_app. cbn [length]. rewrite !length_replicate. lia.
  - apply List.Forall_forall. intros x [->| ->]%list_elem_of_In%one_level_elem; [done|constructor].
  - unfold level, min_level. cbn [levels]. intros i x [[Hi ->]|[_ ->]]%one_level_rd; [|by left].
    replace i with (Z.of_nat j + 6) by lia. done.
  - unfold level, min_level. cbn [levels]. intros i x Hi [[Hij ->]|[_ ->]]%one_level_rd; [|done].
    destruct l; [done|]. specialize (Hjl ltac:(done)). lia.
  - unfold raw. cbn [levels]. rewrite one_level_maps. by rewrite level_map_size.
Qed.

Lemma dyn_default_ok : dyn_ok DynamicPGMIndex_default.
Proof. apply (one_level_ok 6 [] 26 0 []); [constructor|by vm_compute|lia|lia|lia|done|by left]. Qed.

(** The keys of the buffer. *)
Definition buffer_keys (d : DynamicPGMIndex) : gset Z := dom (level_map (default [] ((levels d).[0]))).

Lemma list_to_map_dom_keys (kvs : list (Z * Z)) : dom (list_to_map kvs : gmap Z Z) = list_to_set kvs.*1.
Proof. apply dom_list_to_map_L. Qed.

(** The constructor puts sorted pairs in the first level with room for them. *)
Lemma dyn_of_spec max_threads kvs : StronglySorted Z.lt kvs.*1 -> live_values kvs -> zlen kvs <= 2 ^ 17 ->
  exists d, DynamicPGMIndex_of max_threads kvs = Some d /\ dyn_ok d /\ no_deleted d /\ raw d = list_to_map kvs /\
    buffer_keys d = if zlen kvs <=? 2 ^ 6 then list_to_set kvs.*1 else ∅.
Proof.
  intros Hs Hl Hlen. pose proof (zlen_nonneg kvs) as Hn. unfold DynamicPGMIndex_of. destruct kvs as [|[k v] kvs0] eqn:Ekvs.
  { eexists. split; [reflexivity|]. split; [|split; [|by split]].
    - apply (one_level_ok 6 [] 27 0 []); [constructor|by vm_compute|lia|lia|lia|done|by left].
    - intros l x Hin Hx. apply elem_of_replicate in Hin as [-> _]. by apply elem_of_nil in Hx. }
  rewrite <-Ekvs in *. set (n := zlen kvs) in *. destruct (ceil_log2_spec n) as (C0 & C1 & C2); [lia|].
  pose proof (ceil_log2_le n 17 ltac:(lia) ltac:(lia) Hlen) as C3. unfold min_level. set (t := Z.max (ceil_log2 n) 6) in *.
  assert (Hused : wrap8 (t + 1) = t + 1) by (unfold wrap8; rewrite Z.mod_small; lia). rewrite Hused.
  rewrite item_of_live by (rewrite Ekvs in Hl; by apply Forall_cons_1 in Hl as [? _]). cbn [mbind option_bind].
  rewrite copy_unique_spec; [|by rewrite Ekvs in Hs|rewrite Ekvs in Hl; by apply Forall_cons_1 in Hl as [_ ?]]. cbn [mbind option_bind].
  assert (Hitems : mkItem k v :: items_of kvs0 = items_of kvs) by (by rewrite Ekvs). rewrite Hitems.
  rewrite Z.max_r by lia. change (Z.to_nat (32 - 6 + 1)) with 27%nat. replace (t + 1 - 1 - 6) with (Z.of_nat (Z.to_nat (t - 6))) by lia.
  rewrite one_level_wr by lia. cbn [mbind option_bind]. destruct (Z.leb_spec MinIndexedLevel (t + 1 - 1)) as [H|_]; [unfold MinIndexedLevel in H; lia|].
  assert (Hzl : zlen (items_of kvs) = n) by (unfold items_of, n, zlen; by rewrite length_fmap).
  eexists. split; [reflexivity|]. split; [|split; [|split]].
  - apply one_level_ok; [by apply items_of_sorted|lia|lia|lia|lia|lia|]. replace (Z.of_nat (Z.to_nat (t - 6)) + 6) with t by lia.
    unfold size_ok. rewrite Hzl. change buffer_max_size with 127. right. destruct (Z.le_gt_cases (ceil_log2 n) 6) as [H6|H6].
    + left. split; [lia|]. assert (2 ^ ceil_log2 n <= 2 ^ 6) by (apply Z.pow_le_mono_r; lia). lia.
    + right. assert (Ht : t = ceil_log2 n) by lia. rewrite Ht. destruct (Z.eq_dec (ceil_log2 n) 7) as [E7|]; [left; by rewrite E7 in C1|].
      right. split; [lia|]. split; [|done]. apply C2. destruct (Z.le_gt_cases n 1) as [Hr|]; [|done].
      unfold ceil_log2 in H6. destruct (Z.leb_spec n 1); lia.
  - intros l x [->| ->]%one_level_elem Hx; [|by apply elem_of_nil in Hx]. apply list_elem_of_fmap in Hx as ([k' v'] & -> & Hin).
    unfold deleted. apply Z.eqb_neq. unfold live_values in Hl. rewrite List.Forall_forall in Hl. apply Hl, list_elem_of_In, list_elem_of_fmap.
    by exists (k', v').
  - unfold raw. cbn [levels]. by rewrite one_level_maps, items_of_map.
  - unfold buffer_keys. cbn [levels]. destruct (Z.leb_spec n (2 ^ 6)) as [H6|H6].
    + pose proof (ceil_log2_le n 6 ltac:(lia) ltac:(lia) H6). replace (Z.to_nat (t - 6)) with 0%nat by lia.
      change (dom (level_map (items_of kvs)) = list_to_set kvs.*1). rewrite items_of_map. apply list_to_map_dom_keys.
    + destruct (Z.to_nat (t - 6)) as [|j] eqn:Ej; [|by change (dom (∅ : gmap Z Z) = (∅ : gset Z)); rewrite dom_empty_L].
      assert (2 ^ ceil_log2 n <= 2 ^ 6) by (apply Z.pow_le_mono_r; lia). lia.
Qed.

(** ** The abstract specification

    A map and the set of keys that an insertion or an erasure has put in the buffer
    since it was last emptied: calls with these keys have no effect. *)

Record Spec := mkSpec {
  bound : gmap Z Z;
  recent : gset Z
}.

Inductive PgmOp := PInsert (k v : Z) | PErase (k : Z) | PGet (k : Z).

Inductive PgmAnswer := RInserted (b : bool) | RErased | RGot (v : option Z).

Definition spec_touch (s : Spec) (k : Z) (m : gmap Z Z) : Spec :=
  if bool_decide (k ∈ recent s) then s
  else mkSpec m (if Z.of_nat (size (recent s)) <? 127 then {[k]} ∪ recent s else ∅).

Definition spec_op (s : Spec) (op : PgmOp) : Spec * PgmAnswer :=
  match op with
  | PInsert k v => (spec_touch s k (<[k := v]> (bound s)), RInserted (bool_decide (k ∉ recent s)))
  | PErase k => (spec_touch s k (delete k (bound s)), RErased)
  | PGet k => (s, RGot (bound s !! k))
  end.

Fixpoint spec_ops (s : Spec) (ops : list PgmOp) : Spec * list PgmAnswer :=
  match ops with
  | [] => (s, [])
  | op :: ops =>
      let '(s, a) := spec_op s op in
      let '(s, rest) := spec_ops s ops in
      (s, a :: rest)
  end.

(** The calls of the container. *)
Definition exec_op (max_threads : Z) (d : DynamicPGMIndex) (op : PgmOp) : option (DynamicPGMIndex * PgmAnswer) :=
  match op with
  | PInsert k v => '(d, b) ← insert max_threads d k v; Some (d, RInserted b)
  | PErase k => d ← erase max_threads d k; Some (d, RErased)
  | PGet k => v ← pgm_get d k; Some (d, RGot v)
  end.

Fixpoint exec_ops (max_threads : Z) (d : DynamicPGMIndex) (ops : list PgmOp) : option (DynamicPGMIndex * list PgmAnswer) :=
  match ops with
  | [] => Some (d, [])
  | op :: ops =>
      '(d, a) ← exec_op max_threads d op;
      '(d, rest) ← exec_ops max_threads d ops;
      Some (d, a :: rest)
  end.

(** The value reserved for erased keys is never inserted. *)
Definition op_ok (op : PgmOp) : Prop :=
  match op with
  | PInsert _ v => v <> tombstone
  | _ => True
  end.

Record refines (d : DynamicPGMIndex) (s : Spec) : Prop := {
  rf_ok : dyn_ok d;
  rf_bound : bindings d = bound s;
  rf_recent : buffer_keys d = recent s
}.

Lemma bindings_insert d d' k v : raw d' = <[k := v]> (raw d) ->
  bindings d' = if v =? tombstone then delete k (bindings d) else <[k := v]> (bindings d).
Proof.
  intros E. apply map_eq. intros key. rewrite lookup_bindings, E.
  destruct (Z.eqb_spec v tombstone) as [->|Hne].
  - destruct (decide (key = k)) as [->|Hk]; [by rewrite lookup_insert_eq, lookup_delete_eq|].
    rewrite lookup_insert_ne, lookup_delete_ne by done. by rewrite lookup_bindings.
  - destruct (decide (key = k)) as [->|Hk]; rewrite ?lookup_insert_eq; cbn [mbind option_bind]; [by destruct (Z.eqb_spec v tombstone)|].
    rewrite !lookup_insert_ne by done. by rewrite lookup_bindings.
Qed.

(** An insertion of an item, erasures included. *)
Lemma insert_item_refines max_threads d s it : refines d s -> Z.of_nat (size (raw d)) < 2 ^ 17 ->
  exists d', insert_item max_threads d it = Some (d', bool_decide (ikey it ∉ recent s)) /\ Z.of_nat (size (raw d')) <= Z.of_nat (size (raw d)) + 1 /\
    refines d' (spec_touch s (ikey it) (if deleted it then delete (ikey it) (bound s) else <[ikey it := ival it]> (bound s))).
Proof.
  intros [Hok Hb Hr] Hlim. assert (Hsz : Z.of_nat (size (<[ikey it := ival it]> (raw d))) <= Z.of_nat (size (raw d)) + 1).
  { rewrite map_size_insert. destruct (raw d !! ikey it); unfold id; lia. }
  destruct (insert_item_spec max_threads d it Hok ltac:(lia)) as (buf & Ebuf & Hs & Hlen & H).
  assert (Hrec : recent s = dom (level_map buf)) by (rewrite <-Hr; unfold buffer_keys; by rewrite Ebuf).
  unfold spec_touch. case_bool_decide as Hin.
  - assert (Hin' : ikey it ∈ recent s) by (by rewrite Hrec, elem_of_dom). exists d. split; [|split; [lia|]].
    + rewrite H. rewrite bool_decide_false; [done|]. tauto.
    + by rewrite bool_decide_true.
  - assert (Hin' : ikey it ∉ recent s) by (by rewrite Hrec, elem_of_dom). destruct H as (d' & buf' & E & Hok' & Hraw & Ebuf' & Hm & _).
    exists d'. split; [by rewrite bool_decide_true|]. split; [by rewrite Hraw|]. rewrite bool_decide_false by done.
    constructor; cbn [bound recent]; [done| |].
    + rewrite (bindings_insert d d' _ _ Hraw), Hb. done.
    + unfold buffer_keys. rewrite Ebuf'. cbn [default]. simpl. rewrite Hm, Hrec, size_dom, level_map_size by done.
      destruct (zlen buf <? 127); [by rewrite dom_insert_L|by rewrite dom_empty_L].
Qed.

Lemma exec_op_refines max_threads d s op : refines d s -> op_ok op -> Z.of_nat (size (raw d)) < 2 ^ 17 ->
  exists d', exec_op max_threads d op = Some (d', snd (spec_op s op)) /\ Z.of_nat (size (raw d')) <= Z.of_nat (size (raw d)) + 1 /\
    refines d' (fst (spec_op s op)).
Proof.
  intros Hrf Hop Hlim. destruct op as [k v|k|k]; cbn [exec_op spec_op fst snd op_ok] in *.
  - unfold insert. rewrite item_of_live by done. cbn [mbind option_bind].
    destruct (insert_item_refines max_threads d s (mkItem k v) Hrf Hlim) as (d' & -> & Hsz & Hrf'). cbn [mbind option_bind ikey].
    exists d'. split; [done|]. split; [done|]. unfold deleted in Hrf'. cbn [ikey ival] in Hrf'. by destruct (Z.eqb_spec v tombstone).
  - unfold erase. destruct (insert_item_refines max_threads d s (item_deleted k) Hrf Hlim) as (d' & -> & Hsz & Hrf'). by exists d'.
  - rewrite (pgm_get_spec d k (rf_ok _ _ Hrf)). cbn [mbind option_bind]. exists d. split; [|split; [lia|done]].
    by rewrite <-lookup_bindings, (rf_bound _ _ Hrf).
Qed.

Lemma exec_ops_refines max_threads ops : forall d s, refines d s -> Forall op_ok ops -> Z.of_nat (size (raw d)) + zlen ops <= 2 ^ 17 ->
  exists d', exec_ops max_threads d ops = Some (d', snd (spec_ops s ops)) /\ refines d' (fst (spec_ops s ops)).
Proof.
  induction ops as [|op ops IH]; intros d s Hrf Hops Hlim; [by exists d|]. apply Forall_cons_1 in Hops as [Hop Hops].
  unfold zlen in Hlim. cbn [length] in Hlim. destruct (exec_op_refines max_threads d s op Hrf Hop ltac:(lia)) as (d1 & E1 & Hsz & Hrf1).
  cbn [exec_ops spec_ops]. rewrite E1. cbn [mbind option_bind]. destruct (spec_op s op) as [s1 a]. cbn [fst snd] in *.
  destruct (IH d1 s1 Hrf1 Hops ltac:(unfold zlen; lia)) as (d' & -> & Hrf'). cbn [mbind option_bind]. exists d'.
  by destruct (spec_ops s1 ops).
Qed.

(** The specification of a new container. *)
Definition spec_of (kvs : list (Z * Z)) : Spec :=
  mkSpec (list_to_map kvs) (if zlen kvs <=? 2 ^ 6 then list_to_set kvs.*1 else ∅).

Lemma dyn_of_refines max_threads kvs : StronglySorted Z.lt kvs.*1 -> live_values kvs -> zlen kvs <= 2 ^ 17 ->
  exists d, DynamicPGMIndex_of max_threads kvs = Some d /\ refines d (spec_of kvs) /\ Z.of_nat (size (raw d)) = zlen kvs.
Proof.
  intros Hs Hl Hlen. destruct (dyn_of_spec max_threads kvs Hs Hl Hlen) as (d & E & Hok & Hnd & Hraw & Hbuf).
  exists d. split; [done|]. split; [constructor; [done|by rewrite bindings_no_deleted|done]|].
  rewrite Hraw, <-items_of_map, level_map_size by (by apply items_of_sorted). unfold items_of, zlen. by rewrite length_fmap.
Qed.

(** C8: any sequence of insertions, erasures and searches on a container built from
    pairs with strictly increasing keys returns what the abstract specification does: a
    search finds the latest value of a key, except that calls with a key of the buffer
    are ignored until the buffer is emptied.  The values are not the tombstone, and there
    are at most [2 ^ 17] pairs and calls, so that no level is large enough to have a
    static index and every level is searched in full. *)
Theorem pgm_refines_spec max_threads kvs ops : StronglySorted Z.lt kvs.*1 -> live_values kvs -> Forall op_ok ops ->
  zlen kvs + zlen ops <= 2 ^ 17 ->
  exists d d', DynamicPGMIndex_of max_threads kvs = Some d /\
    exec_ops max_threads d ops = Some (d', snd (spec_ops (spec_of kvs) ops)) /\ refines d' (fst (spec_ops (spec_of kvs) ops)).
Proof.
  intros Hs Hl Hops Hlim. pose proof (zlen_nonneg ops). destruct (dyn_of_refines max_threads kvs Hs Hl ltac:(lia)) as (d & E & Hrf & Hsz).
  destruct (exec_ops_refines max_threads ops d (spec_of kvs) Hrf Hops ltac:(lia)) as (d' & E' & Hrf'). by exists d, d'.
Qed.

(** Seventy keys, then an insertion, an erasure of the same key and a search. *)
Definition pgm_demo_pairs : list (Z * Z) := (fun k => (10 * k, k)) <$> seqZ 0 70.

Definition pgm_demo_ops : list PgmOp := [PInsert 5 1; PErase 5; PGet 5; PErase 20; PGet 20; PGet 30; PInsert 20 7; PGet 20].

Definition pgm_demo_answers : list PgmAnswer :=
  [RInserted true; RErased; RGot (Some 1); RErased; RGot None; RGot (Some 3); RInserted false; RGot None].

Lemma pgm_demo_sorted : StronglySorted Z.lt pgm_demo_pairs.*1.
Proof. vm_compute. repeat constructor. Qed.

Lemma pgm_refines_spec_witness : exists d d', DynamicPGMIndex_of 4 pgm_demo_pairs = Some d /\
  exec_ops 4 d pgm_demo_ops = Some (d', pgm_demo_answers) /\ bindings d' !! 5 = Some 1.
Proof.
  destruct (pgm_refines_spec 4 pgm_demo_pairs pgm_demo_ops) as (d & d' & E & E' & Hrf).
  - apply pgm_demo_sorted.
  - unfold live_values. vm_compute. repeat constructor; discriminate.
  - unfold pgm_demo_ops. repeat constructor; discriminate.
  - vm_compute. discriminate.
  - exists d, d'. split; [exact E|]. split; [rewrite E'; f_equal; f_equal; vm_compute; reflexivity|].
    rewrite (rf_bound _ _ Hrf). vm_compute. reflexivity.
Defined.

(** ** What a caller may be surprised by *)

Lemma spec_touch_new s k m : k ∉ recent s -> Z.of_nat (size (recent s)) < 127 -> spec_touch s k m = mkSpec m ({[k]} ∪ recent s).
Proof. intros Hk Hs. unfold spec_touch. rewrite bool_decide_false by done. by destruct (Z.ltb_spec (Z.of_nat (size (recent s))) 127); [|lia]. Qed.

Lemma spec_touch_recent s k m : k ∈ recent s -> spec_touch s k m = s.
Proof. intros Hk. unfold spec_touch. by rewrite bool_decide_true. Qed.

(** C40: a key that has just been inserted is not erased: it is still found after
    [erase], for every container with room in its buffer. *)
Theorem erase_recent_ignored max_threads d s k v : refines d s -> v <> tombstone -> k ∉ recent s ->
  Z.of_nat (size (recent s)) < 127 -> Z.of_nat (size (raw d)) + 3 <= 2 ^ 17 ->
  exists d', exec_ops max_threads d [PInsert k v; PErase k; PGet k] = Some (d', [RInserted true; RErased; RGot (Some v)]).
Proof.
  intros Hrf Hv Hk Hroom Hlim. destruct (exec_ops_refines max_threads [PInsert k v; PErase k; PGet k] d s Hrf) as (d' & E & _).
  - by repeat constructor.
  - exact Hlim.
  - exists d'. rewrite E. cbn [spec_ops spec_op]. rewrite (spec_touch_new s) by done. rewrite spec_touch_recent by (cbn [recent]; set_solver).
    cbn [bound fst snd]. by rewrite lookup_insert_eq, bool_decide_true.
Qed.

Lemma erase_recent_ignored_witness : exists d d', DynamicPGMIndex_of 4 pgm_demo_pairs = Some d /\
  exec_ops 4 d [PInsert 5 1; PErase 5; PGet 5] = Some (d', [RInserted true; RErased; RGot (Some 1)]).
Proof.
  destruct (dyn_of_refines 4 pgm_demo_pairs pgm_demo_sorted) as (d & E & Hrf & Hsz).
  - unfold live_values. vm_compute. repeat constructor; discriminate.
  - vm_compute. discriminate.
  - destruct (erase_recent_ignored 4 d (spec_of pgm_demo_pairs) 5 1 Hrf) as (d' & E').
    + discriminate.
    + vm_compute. intros H. discriminate H.
    + vm_compute. reflexivity.
    + rewrite Hsz. vm_compute. discriminate.
    + exists d, d'. split; [exact E|exact E'].
Defined.

(** ** The laws of the index interface *)

Section PgmIndexLaws.
Context (max_threads : Z).

Definition pgm_index : Index DynamicPGMIndex := {|
  idx_bulk_load := DynamicPGMIndex_of max_threads;
  idx_get d k := v ← pgm_get d k; Some (d, v);
  idx_put := insert max_threads;
  idx_remove d k := d ← erase max_threads d k; Some (d, true);
  idx_scan d low n := l ← pgm_scan d low n; Some (d, l)
|}.

(** The benchmark never erases, so no item is deleted. *)
Definition pgm_rep (d : DynamicPGMIndex) (m : gmap Z Z) : Prop := dyn_ok d /\ no_deleted d /\ raw d = m.

(** All words but the tombstone. *)
Definition payload_ok (v : Z) : Prop := 0 <= v < u64_max.

Lemma payload_live v : payload_ok v -> v <> tombstone.
Proof. unfold payload_ok, tombstone. lia. Qed.

Lemma no_deleted_insert d d' k v : dyn_ok d -> no_deleted d -> v <> tombstone -> raw d' = <[k := v]> (raw d) -> new_levels d d' -> no_deleted d'.
Proof.
  intros Hok Hnd Hv Hraw Hnew l x Hl Hx. destruct (Hnew l Hl) as [Hold|Hvis]; [by eapply Hnd|].
  specialize (Hvis x Hx). rewrite Hraw in Hvis. unfold deleted. apply Z.eqb_neq.
  apply lookup_insert_Some in Hvis as [[_ <-]|[_ Hvis]]; [done|]. eapply no_deleted_raw; [done..|]. intros l' Hl'.
  pose proof (ok_sorted d Hok) as Hs. rewrite List.Forall_forall in Hs. by apply Hs, list_elem_of_In.
Qed.

(** An insertion stores the pair, or keeps the old value of a key of the buffer. *)
Lemma pgm_put d m k v : pgm_rep d m -> payload_ok v -> Z.of_nat (size (<[k := v]> m)) <= 2 ^ 17 ->
  (exists d', insert max_threads d k v = Some (d', true) /\ pgm_rep d' (<[k := v]> m)) \/
  (insert max_threads d k v = Some (d, false) /\ is_Some (m !! k)).
Proof.
  intros (Hok & Hnd & <-) Hv Hlim. apply payload_live in Hv. unfold insert. rewrite item_of_live by done. cbn [mbind option_bind].
  destruct (insert_item_spec max_threads d (mkItem k v) Hok Hlim) as (buf & Ebuf & Hs & _ & H). cbn [ikey ival] in H.
  case_bool_decide as Hin.
  - right. split; [done|]. destruct Hin as [w Hw]. unfold raw. destruct (levels d) as [|l ls]; [done|]. injection Ebuf as ->.
    exists w. change (maps (buf :: ls)) with (level_map buf ∪ maps ls). rewrite lookup_union, Hw. by destruct (maps ls !! k).
  - left. destruct H as (d' & buf' & E & Hok' & Hraw & _ & _ & Hnew). exists d'. split; [done|]. split; [done|]. split; [|done].
    by apply (no_deleted_insert d d' k v).
Qed.

Definition pgm_store : @LawfulStore DynamicPGMIndex pgm_index.
Proof.
  refine {| idx_rep := pgm_rep; idx_valid := word64; idx_payload := payload_ok; idx_limit := 2 ^ 17 |}.
  - unfold payload_ok. lia.
  - by vm_compute.
  - intros kvs Hs _ Hp Hl. destruct (dyn_of_spec max_threads kvs Hs) as (d & E & Hok & Hnd & Hraw & _); [|done|by exists d].
    unfold live_values. eapply List.Forall_impl; [|exact Hp]. apply payload_live.
  - intros d m k v (Hok & Hnd & <-) _ Hk. exists d. cbn [idx_get pgm_index]. rewrite (pgm_get_spec d k Hok), Hk. cbn [mbind option_bind].
    assert (Hv : bindings d !! k = Some v) by (by rewrite bindings_no_deleted). rewrite lookup_bindings, Hk in Hv.
    cbn [mbind option_bind] in Hv. by rewrite Hv.
  - intros d m k v Hrep _ Hp Hk Hlim. destruct (pgm_put d m k v Hrep Hp) as [(d' & E & Hrep')|[_ [w Hw]]]; [| |congruence].
    + rewrite map_size_insert_None by done. lia.
    + by exists d'.
  - intros d m k v w Hrep _ Hp Hk. pose proof Hrep as (Hok & _ & Hm). destruct (pgm_put d m k v Hrep Hp) as [(d' & E & Hrep')|[E _]].
    + rewrite map_size_insert_Some by done. rewrite <-Hm. apply (ok_limit d Hok).
    + exists d', true, v. split; [done|]. split; [done|by left].
    + exists d, false, w. split; [done|]. split; [by rewrite insert_id|by right].
Defined.
End PgmIndexLaws.

(** An erasure of 12, then 10 and others, then a full buffer, then an erasure of 10. *)
Definition hidden_ops : list PgmOp := PErase 12 :: PInsert 10 1 :: ((fun k => PInsert (100 + k) k) <$> seqZ 0 126) ++ [PErase 10].

(** [lower_bound] can return the position of an erased key: a bound key hidden
    by its erasure in the buffer is passed over, and the item after it is taken
    although it is deleted. *)
Theorem lower_bound_deleted : exists d answers c, exec_ops 4 DynamicPGMIndex_default hidden_ops = Some (d, answers) /\
  lower_bound d 10 = Some c /\ deref d c = Some (item_deleted 12) /\ pgm_get d 12 = Some None.
Proof. eexists _, _, _. split; [vm_compute; reflexivity|]. repeat split; vm_compute; reflexivity. Qed.

(** Erased keys keep their items: no sequence of calls drops one. *)
Lemma exec_op_keeps max_threads d s op d' a : refines d s -> op_ok op -> Z.of_nat (size (raw d)) < 2 ^ 17 ->
  exec_op max_threads d op = Some (d', a) -> dom (raw d) ⊆ dom (raw d').
Proof.
  assert (Hitem : forall d it d' b, dyn_ok d -> Z.of_nat (size (raw d)) < 2 ^ 17 -> insert_item max_threads d it = Some (d', b) ->
    dom (raw d) ⊆ dom (raw d')).
  { clear. intros d it d' b Hok Hlim E. destruct (insert_item_spec max_threads d it Hok) as (buf & _ & _ & _ & H).
    { rewrite map_size_insert. destruct (raw d !! ikey it); unfold id; lia. }
    case_bool_decide; [rewrite H in E; by injection E as <- _|]. destruct H as (d2 & _ & H & _ & Hraw & _). rewrite H in E.
    injection E as <- _. rewrite Hraw, dom_insert_L. set_solver. }
  intros [Hok _ _] Hop Hlim E. destruct op as [k v|k|k]; cbn [exec_op op_ok] in *.
  - unfold insert in E. rewrite item_of_live in E by done. cbn [mbind option_bind] in E. inv_bind E. destruct x as [d1 b].
    injection E as <- _. by eapply Hitem.
  - unfold erase in E. inv_bind E. injection E as <- _. inv_bind E0. destruct x0 as [d1 b]. injection E0 as <-. by eapply Hitem.
  - inv_bind E. by injection E as <- _.
Qed.

(** ** Scans *)

(** Moving on from the greatest key of a container, before any other move, is
    undefined. *)
Theorem increment_last_undefined d c x : dyn_ok d -> deref d c = Some x -> (forall k v, raw d !! k = Some v -> k <= ikey x) ->
  increment d (iter_at c) = None.
Proof.
  intros Hok Hd Hlast. unfold increment. rewrite (lazy_initialize_last d Hok c x Hd); [done|]. apply map_eq. intros key.
  rewrite lookup_above, lookup_empty. destruct (Z.ltb_spec (ikey x) key) as [Hlt|]; [|done]. apply eq_None_not_Some.
  intros [v Hv%Hlast]. lia.
Qed.

Definition one_item : DynamicPGMIndex := mkDyn 7 (one_level 26 0 [mkItem 3 4]) [].

Lemma one_item_ok : dyn_ok one_item.
Proof.
  apply (one_level_ok 7 [] 26 0 [mkItem 3 4]); [repeat constructor|by vm_compute|lia|lia|lia|done|right; left; split; [done|by vm_compute]].
Qed.

Lemma increment_last_undefined_witness : insert 4 DynamicPGMIndex_default 3 4 = Some (one_item, true) /\
  increment one_item (iter_at (cursor_at 6 0)) = None.
Proof.
  split; [vm_compute; reflexivity|]. apply (increment_last_undefined one_item (cursor_at 6 0) (mkItem 3 4) one_item_ok); [reflexivity|].
  intros k v H. assert (E : raw one_item = {[3 := 4]}) by (vm_compute; reflexivity). rewrite E in H.
  apply lookup_singleton_Some in H as [<- _]. reflexivity.
Defined.

(** C25: a scan of a container with at most 2^17 keys and without erased keys returns
    exactly its first entries from the given key on, in order: every level contributes,
    newer items hide older ones with the same key, and the iteration ends at the end.
    The exception is a scan for at least one entry that starts at the greatest key: it
    is undefined. *)
Theorem pgm_scan_exact d m low n : pgm_rep d m -> 0 <= n ->
  pgm_scan d low n =
    if (0 <? n) && (zlen (entries_from m low) =? 1) then None else Some (take (Z.to_nat n) (entries_from m low)).
Proof. intros (Hok & Hnd & <-) Hn. by apply pgm_scan_spec. Qed.

(** A scan that runs into the end of the container, and one that starts at its last key. *)
Lemma pgm_scan_exact_witness : exists d, DynamicPGMIndex_of 4 pgm_demo_pairs = Some d /\
  pgm_scan d 655 9 = Some [(660, 66); (670, 67); (680, 68); (690, 69)] /\ pgm_scan d 681 9 = None.
Proof.
  destruct (dyn_of_spec 4 pgm_demo_pairs pgm_demo_sorted) as (d & E & Hok & Hnd & Hraw & _).
  - unfold live_values. vm_compute. repeat constructor; discriminate.
  - vm_compute. discriminate.
  - assert (Hrep : pgm_rep d (list_to_map pgm_demo_pairs)) by (split; [exact Hok|split; [exact Hnd|exact Hraw]]).
    exists d. split; [exact E|].
    rewrite (pgm_scan_exact d _ 655 9 Hrep), (pgm_scan_exact d _ 681 9 Hrep) by lia. split; vm_compute; reflexivity.
Defined.
