(* ===== verification/ArtNode.v ===== *)
(** * ART: adaptive radix tree nodes (competitor/art/src/src/art.c)

    A node is a leaf with its whole key, or an inner node in one of four layouts for
    up to 4, 16, 48 and 256 children.  This file has the data, the search for a child,
    and adding and removing one, with the changes of layout.  Bytes are integers from
    0 to 255; keys and payload pointers are as the caller passes them; the null
    pointer is 0. *)

From S2P Require Import Prelude Words.
Local Open Scope Z_scope.
Local Open Scope cxx_scope.

(** ** Data *)

Definition MAX_PREFIX_LEN : Z := 10.

Definition byte (c : Z) : Prop := 0 <= c < 256.

(** [art_leaf]; [key_len] is the length of [leaf_key]. *)
Record art_leaf := mkLeaf { leaf_key : list Z; leaf_value : Z }.

Inductive node_type := NODE4 | NODE16 | NODE48 | NODE256.

(** [art_node]: the header all inner nodes share. *)
Record art_header := mkHeader { partial_len : Z; num_children : Z; partial : list Z }.

(** A node behind a tagged pointer; a null pointer among the children is [None].
    NODE256 has no key array. *)
#[warnings="-register-all"]
Inductive art_node :=
| Leaf (l : art_leaf)
| Inner (type : node_type) (n : art_header) (keys : list Z) (children : list (option art_node)).

Definition capacity (type : node_type) : Z :=
  match type with NODE4 => 4 | NODE16 => 16 | NODE48 => 48 | NODE256 => 256 end.

Definition keys_size (type : node_type) : Z :=
  match type with NODE4 => 4 | NODE16 => 16 | NODE48 => 256 | NODE256 => 0 end.

(** [calloc] of a node. *)
Definition empty_header : art_header := mkHeader 0 0 (replicate (Z.to_nat MAX_PREFIX_LEN) 0).
Definition empty_keys (type : node_type) : list Z := replicate (Z.to_nat (keys_size type)) 0.
Definition empty_children (type : node_type) : list (option art_node) := replicate (Z.to_nat (capacity type)) None.

Definition alloc_node (type : node_type) : art_node := Inner type empty_header (empty_keys type) (empty_children type).

(** [n->num_children++] and [--] on a [uint8_t]. *)
Definition count_children (d : Z) (n : art_header) : art_header := mkHeader (partial_len n) ((num_children n + d) mod 256) (partial n).

(** [copy_header(dest, src)] into a new node. *)
Definition copy_header (dest src : art_header) : option art_header :=
  p ← memcpy (partial dest) 0 (partial src) 0 (Z.min MAX_PREFIX_LEN (partial_len src));
  Some (mkHeader (partial_len src) (num_children src) p).

(** ** Vector instructions

    [_mm_movemask_epi8] of a comparison of 16 lanes: bit [i] is the result of lane
    [i]. *)
Fixpoint movemask (f : Z -> bool) (lanes : list Z) : Z :=
  match lanes with
  | [] => 0
  | k :: lanes => (if f k then 1 else 0) + 2 * movemask f lanes
  end.

(** A byte as [_mm_cmplt_epi8] sees it. *)
Definition signed8 (c : Z) : Z := if c <? 128 then c else c - 256.

(** [bitfield & ((1 << num_children) - 1)] *)
Definition lane_mask (f : Z -> bool) (keys : list Z) (num : Z) : Z := Z.land (movemask f keys) (2 ^ num - 1).

(** ** find_child *)

(** The position of the child for a byte, or none. *)
Definition find_child (type : node_type) (n : art_header) (keys : list Z) (children : list (option art_node)) (c : Z) : option (option Z) :=
  match type with
  | NODE4 =>
      loop (S (Z.to_nat (num_children n))) (fun i =>
        if i <? num_children n then
          k ← keys.[i];
          if k =? c then Some (inr (Some i)) else Some (inl (i + 1))
        else Some (inr None)) 0
  | NODE16 =>
      let bitfield := lane_mask (fun k => k =? c) keys (num_children n) in
      Some (if bitfield =? 0 then None else Some (tzcnt64 bitfield))
  | NODE48 =>
      i ← keys.[c];
      Some (if i =? 0 then None else Some (i - 1))
  | NODE256 =>
      ch ← children.[c];
      Some (match ch with Some _ => Some c | None => None end)
  end.

(** ** add_child *)

(** [while (children[pos]) pos++] *)
Definition free_slot (children : list (option art_node)) : option Z :=
  loop (S (length children)) (fun pos =>
    ch ← children.[pos];
    match ch with Some _ => Some (inl (pos + 1)) | None => Some (inr pos) end) 0.

Definition add_child256 (n : art_header) (children : list (option art_node)) (c : Z) (child : art_node) : option art_node :=
  children ← wr children c (Some child);
  Some (Inner NODE256 (count_children 1 n) [] children).

Definition add_child48 (n : art_header) (keys : list Z) (children : list (option art_node)) (c : Z) (child : art_node) : option art_node :=
  if num_children n <? 48 then
    pos ← free_slot children;
    children ← wr children pos (Some child);
    keys ← wr keys c (pos + 1);
    Some (Inner NODE48 (count_children 1 n) keys children)
  else
    new_children ← for_up 0 256 (fun i new =>
      k ← keys.[i];
      if k =? 0 then Some new else ch ← children.[k - 1]; wr new i ch) (empty_children NODE256);
    new_n ← copy_header empty_header n;
    add_child256 new_n new_children c child.

(** Open a gap at [idx] in keys and children and fill it. *)
Definition insert_at (type : node_type) (n : art_header) (keys : list Z) (children : list (option art_node)) (idx c : Z) (child : art_node)
    : option art_node :=
  keys ← memmove keys (idx + 1) idx (num_children n - idx);
  children ← memmove children (idx + 1) idx (num_children n - idx);
  keys ← wr keys idx c;
  children ← wr children idx (Some child);
  Some (Inner type (count_children 1 n) keys children).

Definition add_child16 (n : art_header) (keys : list Z) (children : list (option art_node)) (c : Z) (child : art_node) : option art_node :=
  if num_children n <? 16 then
    let bitfield := lane_mask (fun k => signed8 c <? signed8 k) keys (num_children n) in
    let idx := if bitfield =? 0 then num_children n else tzcnt64 bitfield in
    insert_at NODE16 n keys children idx c child
  else
    new_children ← memcpy (empty_children NODE48) 0 children 0 (num_children n);
    new_keys ← for_up 0 (num_children n) (fun i new => k ← keys.[i]; wr new k (i + 1)) (empty_keys NODE48);
    new_n ← copy_header empty_header n;
    add_child48 new_n new_keys new_children c child.

Definition add_child4 (n : art_header) (keys : list Z) (children : list (option art_node)) (c : Z) (child : art_node) : option art_node :=
  if num_children n <? 4 then
    idx ← loop (S (Z.to_nat (num_children n))) (fun idx =>
      if idx <? num_children n then
        k ← keys.[idx];
        if c <? k then Some (inr idx) else Some (inl (idx + 1))
      else Some (inr idx)) 0;
    insert_at NODE4 n keys children idx c child
  else
    new_children ← memcpy (empty_children NODE16) 0 children 0 (num_children n);
    new_keys ← memcpy (empty_keys NODE16) 0 keys 0 (num_children n);
    new_n ← copy_header empty_header n;
    add_child16 new_n new_keys new_children c child.

Definition add_child (type : node_type) (n : art_header) (keys : list Z) (children : list (option art_node)) (c : Z) (child : art_node)
    : option art_node :=
  match type with
  | NODE4 => add_child4 n keys children c child
  | NODE16 => add_child16 n keys children c child
  | NODE48 => add_child48 n keys children c child
  | NODE256 => add_child256 n children c child
  end.

(** ** remove_child *)

(** The children with keys, in the order of the bytes, packed into the first slots:
    the loop of [remove_child256]. *)
Definition pack48 (children : list (option art_node)) : option (list Z * list (option art_node)) :=
  '(keys, new, _) ← for_up 0 256 (fun i '(keys, new, pos) =>
    ch ← children.[i];
    match ch with
    | Some _ => new ← wr new pos ch; keys ← wr keys i (pos + 1); Some (keys, new, pos + 1)
    | None => Some (keys, new, pos)
    end) (empty_keys NODE48, empty_children NODE48, 0);
  Some (keys, new).

Definition remove_child256 (n : art_header) (children : list (option art_node)) (c : Z) : option art_node :=
  children ← wr children c None;
  let n := count_children (-1) n in
  if num_children n =? 37 then
    new_n ← copy_header empty_header n;
    '(keys, new) ← pack48 children;
    Some (Inner NODE48 new_n keys new)
  else Some (Inner NODE256 n [] children).

(** The loop of [remove_child48]. *)
Definition pack16 (keys : list Z) (children : list (option art_node)) : option (list Z * list (option art_node)) :=
  '(new_keys, new, _) ← for_up 0 256 (fun i '(new_keys, new, child) =>
    pos ← keys.[i];
    if pos =? 0 then Some (new_keys, new, child)
    else
      new_keys ← wr new_keys child i;
      ch ← children.[pos - 1];
      new ← wr new child ch;
      Some (new_keys, new, child + 1)) (empty_keys NODE16, empty_children NODE16, 0);
  Some (new_keys, new).

Definition remove_child48 (n : art_header) (keys : list Z) (children : list (option art_node)) (c : Z) : option art_node :=
  pos ← keys.[c];
  keys ← wr keys c 0;
  children ← wr children (pos - 1) None;
  let n := count_children (-1) n in
  if num_children n =? 12 then
    new_n ← copy_header empty_header n;
    '(new_keys, new) ← pack16 keys children;
    Some (Inner NODE16 new_n new_keys new)
  else Some (Inner NODE48 n keys children).

(** Close the gap at [pos]. *)
Definition delete_at (n : art_header) (keys : list Z) (children : list (option art_node)) (pos : Z)
    : option (art_header * list Z * list (option art_node)) :=
  keys ← memmove keys pos (pos + 1) (num_children n - 1 - pos);
  children ← memmove children pos (pos + 1) (num_children n - 1 - pos);
  Some (count_children (-1) n, keys, children).

Definition remove_child16 (n : art_header) (keys : list Z) (children : list (option art_node)) (pos : Z) : option art_node :=
  '(n, keys, children) ← delete_at n keys children pos;
  if num_children n =? 3 then
    new_n ← copy_header empty_header n;
    new_keys ← memcpy (empty_keys NODE4) 0 keys 0 4;
    new ← memcpy (empty_children NODE4) 0 children 0 4;
    Some (Inner NODE4 new_n new_keys new)
  else Some (Inner NODE16 n keys children).

(** The prefix of a node with one child in front of the prefix of that child. *)
Definition concatenate (n : art_header) (c : Z) (child : art_header) : option art_header :=
  let prefix := partial_len n in
  '(p, prefix) ← (if prefix <? MAX_PREFIX_LEN then p ← wr (partial n) prefix c; Some (p, prefix + 1) else Some (partial n, prefix));
  '(p, prefix) ← (if prefix <? MAX_PREFIX_LEN then
      let sub_prefix := Z.min (partial_len child) (MAX_PREFIX_LEN - prefix) in
      p ← memcpy p prefix (partial child) 0 sub_prefix; Some (p, prefix + sub_prefix)
    else Some (p, prefix));
  cp ← memcpy (partial child) 0 p 0 (Z.min prefix MAX_PREFIX_LEN);
  Some (mkHeader (partial_len child + (partial_len n + 1)) (num_children child) cp).

Definition remove_child4 (n : art_header) (keys : list Z) (children : list (option art_node)) (pos : Z) : option art_node :=
  '(n, keys, children) ← delete_at n keys children pos;
  if num_children n =? 1 then
    child ← mjoin (children.[0]);
    match child with
    | Leaf _ => Some child
    | Inner type ch_n ch_keys ch_children =>
        c ← keys.[0];
        new_n ← concatenate n c ch_n;
        Some (Inner type new_n ch_keys ch_children)
    end
  else Some (Inner NODE4 n keys children).

(** [l] is the position of the child, as [find_child] found it. *)
Definition remove_child (type : node_type) (n : art_header) (keys : list Z) (children : list (option art_node)) (c l : Z) : option art_node :=
  match type with
  | NODE4 => remove_child4 n keys children l
  | NODE16 => remove_child16 n keys children l
  | NODE48 => remove_child48 n keys children c
  | NODE256 => remove_child256 n children c
  end.
