(* ===== verification/ArtLayout.v ===== *)
(** * ART: the four layouts of an inner node (competitor/art/src/src/art.c)

    Each layout stores a partial map from bytes to children.  Searching, adding and
    removing a child act on that map, changes of layout included; a node that is not
    the root of nothing keeps enough children for its layout. *)

From S2P Require Import Prelude Words ArtNode.
Local Open Scope Z_scope.
Local Open Scope cxx_scope.

(** ** Lanes *)

Lemma movemask_bit f lanes i : Z.testbit (movemask f lanes) i = match lanes.[i] with Some k => f k | None => false end.
Proof.
  destruct (Z.lt_ge_cases i 0) as [Hneg|Hi].
  { rewrite Z.testbit_neg_r by done. by rewrite rd_None by lia. }
  revert i Hi. induction lanes as [|k lanes IH]; intros i Hi; cbn [movemask].
  - rewrite Z.testbit_0_l. unfold rd. destruct (0 <=? i); [by rewrite lookup_nil|done].
  - destruct (Z.eq_dec i 0) as [->|Hne].
    + rewrite Z.add_comm. change (k :: lanes).[0] with (Some k). destruct (f k); [by rewrite Z.testbit_odd_0|].
      by rewrite Z.add_0_r, Z.testbit_even_0.
    + replace i with (Z.succ (i - 1)) at 1 by lia. rewrite Z.add_comm. specialize (IH (i - 1) ltac:(lia)).
      assert (Hrd : (k :: lanes).[i] = lanes.[i - 1]).
      { unfold rd. destruct (Z.leb_spec 0 i), (Z.leb_spec 0 (i - 1)); try lia. replace (Z.to_nat i) with (S (Z.to_nat (i - 1))) by lia. done. }
      rewrite Hrd, <-IH. destruct (f k); [by rewrite Z.testbit_odd_succ by lia|]. rewrite Z.add_0_r. by rewrite Z.testbit_even_succ by lia.
Qed.

Lemma lane_bit f keys num i : 0 <= num -> Z.testbit (lane_mask f keys num) i = (i <? num) && match keys.[i] with Some k => f k | None => false end.
Proof.
  intros Hn. unfold lane_mask. destruct (Z.lt_ge_cases i 0).
  - rewrite Z.testbit_neg_r, rd_None by lia. by rewrite andb_false_r.
  - rewrite Z.land_spec, movemask_bit, ones_bit by lia. apply andb_comm.
Qed.

Lemma lane_nonneg f keys num : 0 <= lane_mask f keys num.
Proof. unfold lane_mask. apply Z.land_nonneg. left. induction keys as [|k keys IH]; cbn [movemask]; [lia|]. destruct (f k); lia. Qed.

(** The first lane in use that passes the test. *)
Lemma lane_first f keys num : 0 <= num <= 16 -> num <= zlen keys ->
  if lane_mask f keys num =? 0 then forall i k, 0 <= i < num -> keys.[i] = Some k -> f k = false
  else 0 <= tzcnt64 (lane_mask f keys num) < num /\ (exists k, keys.[tzcnt64 (lane_mask f keys num)] = Some k /\ f k = true) /\
    forall i k, 0 <= i < tzcnt64 (lane_mask f keys num) -> keys.[i] = Some k -> f k = false.
Proof.
  intros Hn Hlen. pose proof (lane_nonneg f keys num) as H0. destruct (Z.eqb_spec (lane_mask f keys num) 0) as [E|Hne].
  - intros i k Hi Hk. pose proof (lane_bit f keys num i ltac:(lia)) as Hb. rewrite E, Z.testbit_0_l, Hk in Hb.
    destruct (Z.ltb_spec i num); [done|lia].
  - assert (Hw : word64 (lane_mask f keys num)).
    { apply word64_of_bits; [done|]. intros i Hi. rewrite lane_bit by lia. by destruct (Z.ltb_spec i num); [lia|]. }
    destruct (tzcnt64_spec _ Hw Hne) as (Ht & Hbit & Hlow). rewrite lane_bit in Hbit by lia.
    destruct (Z.ltb_spec (tzcnt64 (lane_mask f keys num)) num); [|done]. split; [lia|]. split.
    + destruct (keys.[_]) as [k|]; [by exists k|done].
    + intros i k Hi Hk. specialize (Hlow i Hi). rewrite lane_bit, Hk in Hlow by lia. by destruct (Z.ltb_spec i num); [|lia].
Qed.

(** ** Invariants *)

Abbreviation children_array := (list (option art_node)).

Definition filled (children : children_array) (i : Z) : bool := match at_ None children i with Some _ => true | None => false end.

(** NODE4 and NODE16: the first [num_children] slots are pairs of a byte and a child. *)
Record arr_ok (cap : Z) (n : art_header) (keys : list Z) (children : children_array) : Prop := {
  ao_keys : zlen keys = cap;
  ao_children : zlen children = cap;
  ao_num : 0 <= num_children n <= cap;
  ao_slot : forall i, 0 <= i < num_children n -> exists k ch, keys.[i] = Some k /\ byte k /\ children.[i] = Some (Some ch);
  ao_inj : forall i j k, 0 <= i < num_children n -> 0 <= j < num_children n -> keys.[i] = Some k -> keys.[j] = Some k -> i = j
}.

(** NODE48: a byte indexes a slot from 1 on, 0 is none. *)
Record idx_ok (n : art_header) (keys : list Z) (children : children_array) : Prop := {
  io_keys : zlen keys = 256;
  io_children : zlen children = 48;
  io_num : num_children n = cnt (fun c => negb (at_ 0 keys c =? 0)) 0 256;
  io_used : num_children n = cnt (filled children) 0 48;
  io_slot : forall c k, keys.[c] = Some k -> k <> 0 -> 1 <= k <= 48 /\ exists ch, children.[k - 1] = Some (Some ch);
  io_inj : forall c c' k, keys.[c] = Some k -> keys.[c'] = Some k -> k <> 0 -> c = c'
}.

(** NODE256: the count of a full node wraps to 0. *)
Record dir_ok (n : art_header) (children : children_array) : Prop := {
  do_children : zlen children = 256;
  do_num : num_children n = cnt (filled children) 0 256 mod 256
}.

Definition layout (type : node_type) (n : art_header) (keys : list Z) (children : children_array) : Prop :=
  match type with
  | NODE4 => arr_ok 4 n keys children
  | NODE16 => arr_ok 16 n keys children
  | NODE48 => idx_ok n keys children
  | NODE256 => dir_ok n children
  end.

(** The child of a byte. *)
Definition child_at (type : node_type) (n : art_header) (keys : list Z) (children : children_array) (c : Z) (ch : art_node) : Prop :=
  match type with
  | NODE4 | NODE16 => exists i, 0 <= i < num_children n /\ keys.[i] = Some c /\ children.[i] = Some (Some ch)
  | NODE48 => exists k, keys.[c] = Some k /\ k <> 0 /\ children.[k - 1] = Some (Some ch)
  | NODE256 => children.[c] = Some (Some ch)
  end.

(** Fewer children would have changed the layout. *)
Definition enough (type : node_type) (n : art_header) (children : children_array) : Prop :=
  match type with
  | NODE4 => 2 <= num_children n
  | NODE16 => 4 <= num_children n
  | NODE48 => 13 <= num_children n
  | NODE256 => 38 <= cnt (filled children) 0 256
  end.

(** The compressed path of a header. *)
Definition same_prefix (n n' : art_header) : Prop :=
  partial_len n' = partial_len n /\ zlen (partial n') = MAX_PREFIX_LEN /\
  forall i, 0 <= i < Z.min MAX_PREFIX_LEN (partial_len n) -> (partial n').[i] = (partial n).[i].

Lemma filled_rd (children : children_array) i : filled children i = match children.[i] with Some (Some _) => true | _ => false end.
Proof. unfold filled, at_. by destruct (children.[i]) as [[]|]. Qed.

Lemma filled_wr (children : children_array) i v children' j : wr children i v = Some children' ->
  filled children' j = if j =? i then match v with Some _ => true | None => false end else filled children j.
Proof. intros H. unfold filled. rewrite (at_wr None _ _ _ _ j H). by destruct (j =? i). Qed.

Lemma copy_header_spec (n : art_header) : zlen (partial n) = MAX_PREFIX_LEN -> 0 <= partial_len n ->
  exists n', copy_header empty_header n = Some n' /\ same_prefix n n' /\ num_children n' = num_children n.
Proof.
  intros Hz Hl. unfold copy_header. destruct (memcpy_spec (partial empty_header) 0 (partial n) 0 (Z.min MAX_PREFIX_LEN (partial_len n))) as (p & -> & Hzp & Hp);
    [lia|lia|unfold MAX_PREFIX_LEN; lia|change (zlen (partial empty_header)) with MAX_PREFIX_LEN; lia|lia|]. cbn [mbind option_bind]. eexists. split; [done|].
  split; [|done]. split; [done|]. cbn [partial]. split; [by rewrite Hzp|]. intros i Hi. rewrite Hp.
  destruct (Z.leb_spec 0 i), (Z.ltb_spec i (0 + Z.min MAX_PREFIX_LEN (partial_len n))); try lia. cbn [andb]. f_equal. lia.
Qed.

Lemma same_prefix_refl n d : zlen (partial n) = MAX_PREFIX_LEN -> same_prefix n (count_children d n).
Proof. done. Qed.

Lemma same_prefix_trans n1 n2 n3 : same_prefix n1 n2 -> same_prefix n2 n3 -> same_prefix n1 n3.
Proof. intros (E1 & Z1 & H1) (E2 & Z2 & H2). split; [congruence|]. split; [done|]. intros i Hi. rewrite H2 by (rewrite E1; done). by apply H1. Qed.

Lemma child_at_fun type n keys children c ch ch' : layout type n keys children -> child_at type n keys children c ch -> child_at type n keys children c ch' -> ch = ch'.
Proof.
  intros Hl. destruct type; cbn [child_at layout] in *.
  - intros (i & Hi & Hk & Hc) (j & Hj & Hk' & Hc'). assert (i = j) as -> by (by eapply (ao_inj _ _ _ _ Hl)). congruence.
  - intros (i & Hi & Hk & Hc) (j & Hj & Hk' & Hc'). assert (i = j) as -> by (by eapply (ao_inj _ _ _ _ Hl)). congruence.
  - intros (k & Hk & _ & Hc) (k' & Hk' & _ & Hc'). congruence.
  - congruence.
Qed.

Lemma child_at_byte type n keys children c ch : layout type n keys children -> child_at type n keys children c ch -> byte c.
Proof.
  intros Hl. unfold byte. destruct type; cbn [child_at layout] in *.
  - intros (i & Hi & Hk & _). destruct (ao_slot _ _ _ _ Hl i Hi) as (k & _ & Hk' & Hb & _). unfold byte in Hb. congruence.
  - intros (i & Hi & Hk & _). destruct (ao_slot _ _ _ _ Hl i Hi) as (k & _ & Hk' & Hb & _). unfold byte in Hb. congruence.
  - intros (k & Hk%rd_Some & _). by rewrite (io_keys _ _ _ Hl) in Hk.
  - intros H%rd_Some. by rewrite (do_children _ _ Hl) in H.
Qed.

(** ** find_child *)

Lemma find_child_spec type n keys children c : layout type n keys children -> byte c ->
  exists r, find_child type n keys children c = Some r /\
    match r with
    | None => forall ch, ~ child_at type n keys children c ch
    | Some i => exists ch, child_at type n keys children c ch /\ children.[i] = Some (Some ch)
    end.
Proof.
  intros Hl Hc. destruct type; cbn [find_child child_at layout] in *.
  - match goal with |- exists r, loop _ ?body _ = _ /\ _ =>
      destruct (loop_spec (fun i => 0 <= i <= num_children n /\ forall j k, 0 <= j < i -> keys.[j] = Some k -> k <> c)
        (fun r => match r with None => forall j k, 0 <= j < num_children n -> keys.[j] = Some k -> k <> c | Some i => 0 <= i < num_children n /\ keys.[i] = Some c end)
        (fun i => num_children n - i) body) with (fuel := S (Z.to_nat (num_children n))) (s := 0) as (r & -> & Hr) end;
      pose proof (ao_num _ _ _ _ Hl) as Hn; [|split; [lia|intros; lia]|lia|lia|].
    + intros i [Hi Hlow]. destruct (Z.ltb_spec i (num_children n)).
      * destruct (ao_slot _ _ _ _ Hl i ltac:(lia)) as (k & ch & Hk & _). rewrite Hk. cbn [mbind option_bind]. destruct (Z.eqb_spec k c) as [->|Hne]; [split; [lia|done]|].
        split; [|lia]. split; [lia|]. intros j k' Hj Hk'. destruct (Z.eq_dec j i) as [->|]; [congruence|]. apply (Hlow j k'); [lia|done].
      * assert (i = num_children n) as -> by lia. done.
    + exists r. split; [done|]. destruct r as [i|].
      * destruct Hr as [Hi Hk]. destruct (ao_slot _ _ _ _ Hl i Hi) as (k & ch & Hk' & _ & Hch). exists ch. split; [by exists i|done].
      * intros ch (i & Hi & Hk & _). by eapply Hr.
  - eexists. split; [done|]. pose proof (ao_num _ _ _ _ Hl). pose proof (ao_keys _ _ _ _ Hl).
    pose proof (lane_first (fun k => k =? c) keys (num_children n) ltac:(lia) ltac:(lia)) as Hf. destruct (_ =? 0).
    + intros ch (i & Hi & Hk & _). specialize (Hf i c Hi Hk). by rewrite Z.eqb_refl in Hf.
    + destruct Hf as (Hi & (k & Hk & E) & _). apply Z.eqb_eq in E as ->. destruct (ao_slot _ _ _ _ Hl _ Hi) as (k & ch & Hk' & _ & Hch).
      exists ch. split; [by eexists|done].
  - destruct (rd_in keys c) as [k Hk]; [rewrite (io_keys _ _ _ Hl); done|]. rewrite Hk. cbn [mbind option_bind]. eexists. split; [done|].
    destruct (Z.eqb_spec k 0) as [->|Hne].
    + intros ch (k & Hk' & Hne & _). congruence.
    + destruct (io_slot _ _ _ Hl c k Hk Hne) as (_ & ch & Hch). exists ch. split; [by exists k|done].
  - destruct (rd_in children c) as [o Ho]; [rewrite (do_children _ _ Hl); done|]. rewrite Ho. cbn [mbind option_bind]. eexists. split; [done|].
    destruct o as [ch|]; [by exists ch|]. intros ch'. congruence.
Qed.

(** In the two sorted layouts the position is the slot of the byte. *)
Lemma find_child_arr type n keys children c i : type = NODE4 \/ type = NODE16 -> layout type n keys children ->
  find_child type n keys children c = Some (Some i) -> 0 <= i < num_children n /\ keys.[i] = Some c.
Proof.
  intros Ht Hl Hf. destruct type; [| |by destruct Ht..]; cbn [find_child layout] in *; pose proof (ao_num _ _ _ _ Hl); pose proof (ao_keys _ _ _ _ Hl).
  - match type of Hf with loop ?fl ?body _ = _ =>
      destruct (loop_spec (fun i => 0 <= i <= num_children n) (fun r => match r with Some i => 0 <= i < num_children n /\ keys.[i] = Some c | None => True end)
        (fun i => num_children n - i) body) with (fuel := fl) (s := 0) as (r & E & Hr) end; [|lia|lia|lia|by rewrite Hf in E; injection E as <-].
    intros j Hj. destruct (Z.ltb_spec j (num_children n)); [|done]. destruct (ao_slot _ _ _ _ Hl j ltac:(lia)) as (k & x & Hk & _). rewrite Hk. cbn [mbind option_bind].
    destruct (Z.eqb_spec k c) as [->|]; [split; [lia|done]|lia].
  - pose proof (lane_first (fun k => k =? c) keys (num_children n) ltac:(lia) ltac:(lia)) as Hp. destruct (_ =? 0); [done|]. injection Hf as <-.
    destruct Hp as (Hi & (k & Hk & E) & _). apply Z.eqb_eq in E as ->. done.
Qed.

(** ** Replacing a child *)

Lemma set_child_spec type n keys children c ch i ch' children' : layout type n keys children -> child_at type n keys children c ch ->
  find_child type n keys children c = Some (Some i) -> wr children i (Some ch') = Some children' ->
  layout type n keys children' /\ (enough type n children -> enough type n children') /\
  forall c2 ch2, child_at type n keys children' c2 ch2 <-> (c2 = c /\ ch2 = ch') \/ (c2 <> c /\ child_at type n keys children c2 ch2).
Proof.
  intros Hl Hch Hfind Hw. pose proof (child_at_byte _ _ _ _ _ _ Hl Hch) as Hc.
  assert (Hslot : exists x, children.[i] = Some (Some x)).
  { destruct (find_child_spec type n keys children c Hl Hc) as (r & E & Hr). rewrite Hfind in E. injection E as <-. destruct Hr as (x & _ & Hx). by exists x. }
  assert (Hfilled : forall j, filled children' j = filled children j).
  { intros j. rewrite (filled_wr _ _ _ _ j Hw). destruct (Z.eqb_spec j i) as [->|]; [|done]. destruct Hslot as [x Hx]. by rewrite filled_rd, Hx. }
  assert (Hrd : forall j, children'.[j] = if j =? i then Some (Some ch') else children.[j]) by (intros j; by apply rd_wr).
  assert (Harr : forall cap, arr_ok cap n keys children -> arr_ok cap n keys children').
  { intros cap [H1 H2 H3 H4 H5]. constructor; [done|by rewrite (zlen_wr _ _ _ _ Hw)|done| |done].
    intros j Hj. destruct (H4 j Hj) as (k & x & Hk & Hb & Hx). rewrite Hrd. destruct (j =? i); [by exists k, ch'|by exists k, x]. }
  assert (Hpos : forall cap, arr_ok cap n keys children -> (exists j, 0 <= j < num_children n /\ keys.[j] = Some c /\ j = i) ->
    forall c2 ch2, (exists j, 0 <= j < num_children n /\ keys.[j] = Some c2 /\ children'.[j] = Some (Some ch2)) <->
      (c2 = c /\ ch2 = ch') \/ (c2 <> c /\ exists j, 0 <= j < num_children n /\ keys.[j] = Some c2 /\ children.[j] = Some (Some ch2))).
  { intros cap Ha (i0 & Hi0 & Hki & ->) c2 ch2. split.
    - intros (j & Hj & Hk & Hx). rewrite Hrd in Hx. destruct (Z.eqb_spec j i) as [->|Hne].
      + left. split; congruence.
      + right. split; [|by exists j]. intros ->. apply Hne. by eapply (ao_inj _ _ _ _ Ha).
    - intros [[-> ->]|(Hne & j & Hj & Hk & Hx)].
      + exists i. rewrite Hrd, Z.eqb_refl. done.
      + exists j. rewrite Hrd. destruct (Z.eqb_spec j i) as [->|]; [congruence|done]. }
  destruct type; cbn [layout child_at enough] in *.
  - split; [by apply Harr|]. split; [done|]. apply (Hpos 4 Hl). exists i. by destruct (find_child_arr NODE4 n keys children c i ltac:(by left) Hl Hfind).
  - split; [by apply Harr|]. split; [done|]. apply (Hpos 16 Hl). exists i. by destruct (find_child_arr NODE16 n keys children c i ltac:(by right) Hl Hfind).
  - destruct Hl as [H1 H2 H3 H4 H5 H6]. unfold find_child in Hfind. destruct Hch as (k & Hk & Hk0 & Hx). rewrite Hk in Hfind. cbn [mbind option_bind] in Hfind.
    destruct (Z.eqb_spec k 0); [done|]. injection Hfind as <-. split; [constructor|split; [done|]].
    + done.
    + by rewrite (zlen_wr _ _ _ _ Hw).
    + done.
    + rewrite H4. apply cnt_ext. intros j _. by rewrite Hfilled.
    + intros c2 k2 Hk2 Hne2. destruct (H5 c2 k2 Hk2 Hne2) as (Hr & x & Hx2). split; [done|]. rewrite Hrd. destruct (_ =? _); [by eexists|by exists x].
    + done.
    + intros c2 ch2. split.
      * intros (k2 & Hk2 & Hne2 & Hx2). rewrite Hrd in Hx2. destruct (Z.eqb_spec (k2 - 1) (k - 1)).
        -- assert (k2 = k) as -> by lia. left. split; [by eapply H6|congruence].
        -- right. split; [intros ->; congruence|by exists k2].
      * intros [[-> ->]|(Hne2 & k2 & Hk2 & Hne3 & Hx2)].
        -- exists k. rewrite Hrd, Z.eqb_refl. done.
        -- exists k2. rewrite Hrd. destruct (Z.eqb_spec (k2 - 1) (k - 1)); [|done]. assert (k2 = k) as -> by lia. destruct Hne2. by eapply H6.
  - destruct Hl as [H1 H2]. unfold find_child in Hfind. rewrite Hch in Hfind. cbn [mbind option_bind] in Hfind. injection Hfind as <-.
    split; [constructor; [by rewrite (zlen_wr _ _ _ _ Hw)|]|split].
    + rewrite H2. f_equal. apply cnt_ext. intros j _. by rewrite Hfilled.
    + intros He. rewrite (cnt_ext _ (filled children)); [done|]. intros j _. by rewrite Hfilled.
    + intros c2 ch2. rewrite Hrd. destruct (Z.eqb_spec c2 c) as [->|Hne].
      * split; [intros [= <-]; by left|]. by intros [[_ ->]|[? _]].
      * split; [by right|]. by intros [[? _]|[_ ?]].
Qed.

(** ** Opening and closing gaps *)

Lemma open_gap_spec type cap n keys children idx c ch : arr_ok cap n keys children -> num_children n < cap <= 16 -> byte c ->
  (forall i, 0 <= i < num_children n -> keys.[i] <> Some c) -> 0 <= idx <= num_children n -> zlen (partial n) = MAX_PREFIX_LEN ->
  exists n' keys' children', insert_at type n keys children idx c ch = Some (Inner type n' keys' children') /\ arr_ok cap n' keys' children' /\
    num_children n' = num_children n + 1 /\ same_prefix n n' /\
    forall c2 ch2, (exists i, 0 <= i < num_children n' /\ keys'.[i] = Some c2 /\ children'.[i] = Some (Some ch2)) <->
      (c2 = c /\ ch2 = ch) \/ (exists i, 0 <= i < num_children n /\ keys.[i] = Some c2 /\ children.[i] = Some (Some ch2)).
Proof.
  intros [H1 H2 H3 H4 H5] Hcap Hc Hnew Hidx Hp. unfold insert_at.
  destruct (memmove_spec keys (idx + 1) idx (num_children n - idx)) as (k1 & -> & Hz1 & R1); [lia..|].
  destruct (memmove_spec children (idx + 1) idx (num_children n - idx)) as (c1 & E1 & Hz1' & R1'); [lia..|]. cbn [mbind option_bind]. rewrite E1. cbn [mbind option_bind].
  destruct (wr_in k1 idx c) as [k2 E2]; [lia|]. rewrite E2. cbn [mbind option_bind].
  destruct (wr_in c1 idx (Some ch)) as [c2 E3]; [lia|]. rewrite E3. cbn [mbind option_bind]. eexists _, k2, c2. split; [done|].
  assert (Hn : num_children (count_children 1 n) = num_children n + 1) by (cbn; apply Z.mod_small; lia).
  assert (Rk : forall i, k2.[i] = if i =? idx then Some c else if (idx <? i) && (i <=? num_children n) then keys.[i - 1] else keys.[i]).
  { intros i. rewrite (rd_wr _ _ _ _ i E2), R1. destruct (Z.eqb_spec i idx); [done|].
    destruct (Z.leb_spec (idx + 1) i), (Z.ltb_spec i (idx + 1 + (num_children n - idx))), (Z.ltb_spec idx i), (Z.leb_spec i (num_children n)); try lia; cbn [andb]; [|done..].
    f_equal. lia. }
  assert (Rc : forall i, c2.[i] = if i =? idx then Some (Some ch) else if (idx <? i) && (i <=? num_children n) then children.[i - 1] else children.[i]).
  { intros i. rewrite (rd_wr _ _ _ _ i E3), R1'. destruct (Z.eqb_spec i idx); [done|].
    destruct (Z.leb_spec (idx + 1) i), (Z.ltb_spec i (idx + 1 + (num_children n - idx))), (Z.ltb_spec idx i), (Z.leb_spec i (num_children n)); try lia; cbn [andb]; [|done..].
    f_equal. lia. }
  (* where an old slot goes *)
  set (up := fun i => if idx <=? i then i + 1 else i).
  assert (Hup : forall i, 0 <= i < num_children n -> 0 <= up i < num_children n + 1 /\ up i <> idx /\ k2.[up i] = keys.[i] /\ c2.[up i] = children.[i]).
  { intros i Hi. unfold up. rewrite Rk, Rc. destruct (Z.leb_spec idx i).
    - destruct (Z.eqb_spec (i + 1) idx), (Z.ltb_spec idx (i + 1)), (Z.leb_spec (i + 1) (num_children n)); try lia. cbn [andb]. replace (i + 1 - 1) with i by lia.
      split; [lia|]. split; [lia|done].
    - destruct (Z.eqb_spec i idx), (Z.ltb_spec idx i); try lia. cbn [andb]. split; [lia|]. split; [lia|done]. }
  assert (Hdown : forall j, 0 <= j < num_children n + 1 -> j <> idx -> exists i, 0 <= i < num_children n /\ j = up i).
  { intros j Hj Hne. unfold up. destruct (Z.lt_ge_cases j idx).
    - exists j. split; [lia|]. destruct (Z.leb_spec idx j); lia.
    - exists (j - 1). split; [lia|]. destruct (Z.leb_spec idx (j - 1)); lia. }
  assert (Kidx : k2.[idx] = Some c) by (by rewrite Rk, Z.eqb_refl). assert (Cidx : c2.[idx] = Some (Some ch)) by (by rewrite Rc, Z.eqb_refl).
  split; [constructor|split; [done|split; [by apply same_prefix_refl|]]].
  - by rewrite (zlen_wr _ _ _ _ E2), Hz1.
  - by rewrite (zlen_wr _ _ _ _ E3), Hz1'.
  - lia.
  - rewrite Hn. intros j Hj. destruct (Z.eq_dec j idx) as [->|Hne]; [by exists c, ch|]. destruct (Hdown j Hj Hne) as (i & Hi & ->).
    destruct (Hup i Hi) as (_ & _ & -> & ->). by apply H4.
  - rewrite Hn. intros j1 j2 k Hj1 Hj2 Hk1 Hk2.
    destruct (Z.eq_dec j1 idx) as [->|Hn1], (Z.eq_dec j2 idx) as [->|Hn2]; [done| | |].
    + destruct (Hdown j2 Hj2 Hn2) as (i & Hi & ->). destruct (Hup i Hi) as (_ & _ & E & _). rewrite E in Hk2. exfalso. apply (Hnew i Hi). congruence.
    + destruct (Hdown j1 Hj1 Hn1) as (i & Hi & ->). destruct (Hup i Hi) as (_ & _ & E & _). rewrite E in Hk1. exfalso. apply (Hnew i Hi). congruence.
    + destruct (Hdown j1 Hj1 Hn1) as (i1 & Hi1 & ->), (Hdown j2 Hj2 Hn2) as (i2 & Hi2 & ->). destruct (Hup i1 Hi1) as (_ & _ & Ea & _), (Hup i2 Hi2) as (_ & _ & Eb & _).
      rewrite Ea in Hk1. rewrite Eb in Hk2. f_equal. by eapply H5.
  - rewrite Hn. intros cc x. split.
    + intros (j & Hj & Hk & Hx). destruct (Z.eq_dec j idx) as [->|Hne]; [left; split; congruence|]. right. destruct (Hdown j Hj Hne) as (i & Hi & ->).
      destruct (Hup i Hi) as (_ & _ & Ea & Eb). exists i. rewrite <-Ea, <-Eb. done.
    + intros [[-> ->]|(i & Hi & Hk & Hx)]; [exists idx; split; [lia|done]|]. exists (up i). destruct (Hup i Hi) as (Hr & _ & -> & ->). done.
Qed.

Lemma delete_at_spec cap n keys children pos c : arr_ok cap n keys children -> cap <= 16 -> 0 <= pos < num_children n -> keys.[pos] = Some c ->
  exists n' keys' children', delete_at n keys children pos = Some (n', keys', children') /\ n' = count_children (-1) n /\ arr_ok cap n' keys' children' /\
    num_children n' = num_children n - 1 /\
    forall c2 ch2, (exists i, 0 <= i < num_children n' /\ keys'.[i] = Some c2 /\ children'.[i] = Some (Some ch2)) <->
      c2 <> c /\ (exists i, 0 <= i < num_children n /\ keys.[i] = Some c2 /\ children.[i] = Some (Some ch2)).
Proof.
  intros [H1 H2 H3 H4 H5] Hcap Hpos Hc. unfold delete_at.
  destruct (memmove_spec keys pos (pos + 1) (num_children n - 1 - pos)) as (k1 & -> & Hz1 & R1); [lia..|].
  destruct (memmove_spec children pos (pos + 1) (num_children n - 1 - pos)) as (c1 & E1 & Hz1' & R1'); [lia..|]. cbn [mbind option_bind]. rewrite E1. cbn [mbind option_bind].
  eexists _, k1, c1. split; [done|]. split; [done|].
  assert (Hn : num_children (count_children (-1) n) = num_children n - 1) by (cbn; apply Z.mod_small; lia).
  set (up := fun i => if pos <=? i then i + 1 else i).
  assert (Hup : forall i, 0 <= i < num_children n - 1 -> 0 <= up i < num_children n /\ up i <> pos /\ k1.[i] = keys.[up i] /\ c1.[i] = children.[up i]).
  { intros i Hi. unfold up. rewrite R1, R1'. destruct (Z.leb_spec pos i), (Z.ltb_spec i (pos + (num_children n - 1 - pos))); try lia; cbn [andb].
    - replace (pos + 1 + (i - pos)) with (i + 1) by lia. split; [lia|]. split; [lia|done].
    - split; [lia|]. split; [lia|done]. }
  assert (Hdown : forall j, 0 <= j < num_children n -> j <> pos -> exists i, 0 <= i < num_children n - 1 /\ j = up i).
  { intros j Hj Hne. unfold up. destruct (Z.lt_ge_cases j pos).
    - exists j. split; [lia|]. destruct (Z.leb_spec pos j); lia.
    - exists (j - 1). split; [lia|]. destruct (Z.leb_spec pos (j - 1)); lia. }
  assert (Hinj : forall i j, up i = up j -> i = j) by (intros i j; unfold up; destruct (Z.leb_spec pos i), (Z.leb_spec pos j); lia).
  split; [constructor|split; [done|]].
  - by rewrite Hz1.
  - by rewrite Hz1'.
  - lia.
  - rewrite Hn. intros i Hi. destruct (Hup i Hi) as (Hr & _ & -> & ->). by apply H4.
  - rewrite Hn. intros i j k Hi Hj Hk1 Hk2. destruct (Hup i Hi) as (Hr1 & _ & Ea & _), (Hup j Hj) as (Hr2 & _ & Eb & _). rewrite Ea in Hk1. rewrite Eb in Hk2.
    apply Hinj. by eapply H5.
  - rewrite Hn. intros cc x. split.
    + intros (i & Hi & Hk & Hx). destruct (Hup i Hi) as (Hr & Hne & Ea & Eb). rewrite Ea in Hk. rewrite Eb in Hx. split; [|by exists (up i)].
      intros ->. apply Hne. by eapply H5.
    + intros (Hne & j & Hj & Hk & Hx). destruct (Hdown j Hj) as (i & Hi & ->); [intros ->; congruence|]. exists i. destruct (Hup i Hi) as (_ & _ & -> & ->). done.
Qed.
