(* ===== verification/ArtAdd.v ===== *)
(** * ART: adding a child (competitor/art/src/src/art.c)

    Whatever the layout and whether or not it has to grow, adding a child adds it to
    the map from bytes to children, keeps the compressed path and leaves at least as
    many children as the layout asks for. *)

From S2P Require Import Prelude Words ArtNode ArtLayout.
Local Open Scope Z_scope.
Local Open Scope cxx_scope.

(** What adding the child [ch] at the byte [c] has to do. *)
Definition adds (type : node_type) (n : art_header) (keys : list Z) (children : children_array) (c : Z) (ch : art_node) (r : option art_node) : Prop :=
  exists type' n' keys' children', r = Some (Inner type' n' keys' children') /\ layout type' n' keys' children' /\
    (enough type n children -> enough type' n' children') /\ same_prefix n n' /\
    forall c2 ch2, child_at type' n' keys' children' c2 ch2 <-> (c2 = c /\ ch2 = ch) \/ child_at type n keys children c2 ch2.

Definition header_ok (n : art_header) : Prop := zlen (partial n) = MAX_PREFIX_LEN /\ 0 <= partial_len n.

(** Growing first: the larger node has the same children. *)
Lemma adds_grown type n keys children type1 n1 keys1 children1 c ch r :
  same_prefix n n1 -> (enough type n children -> enough type1 n1 children1) ->
  (forall c2 ch2, child_at type1 n1 keys1 children1 c2 ch2 <-> child_at type n keys children c2 ch2) ->
  adds type1 n1 keys1 children1 c ch r -> adds type n keys children c ch r.
Proof.
  intros Hp He Hc (type' & n' & keys' & children' & -> & Hl & He' & Hp' & Hc'). exists type', n', keys', children'. split; [done|]. split; [done|].
  split; [auto|]. split; [by eapply same_prefix_trans|]. intros c2 ch2. by rewrite Hc', Hc.
Qed.

Lemma header_ok_copy n n1 : header_ok n -> same_prefix n n1 -> header_ok n1.
Proof. intros [Hz Hl] (E & Hz1 & _). split; [done|]. by rewrite E. Qed.

(** ** NODE256 *)

Lemma add_child256_spec n keys children c ch : dir_ok n children -> header_ok n -> byte c -> (forall x, ~ child_at NODE256 n keys children c x) ->
  adds NODE256 n keys children c ch (add_child256 n children c ch).
Proof.
  intros [H1 H2] Hh Hc Hnew. unfold add_child256. destruct (wr_in children c (Some ch)) as [children' Hw]; [rewrite H1; done|]. rewrite Hw. cbn [mbind option_bind].
  assert (Hcnt : cnt (filled children') 0 256 = cnt (filled children) 0 256 + 1).
  { rewrite (cnt_update (filled children) (filled children') 0 256 c); [|done|by intros i Hi Hne; rewrite (filled_wr _ _ _ _ i Hw); destruct (Z.eqb_spec i c)].
    rewrite (filled_wr _ _ _ _ c Hw), Z.eqb_refl, filled_rd. cbn [child_at] in Hnew. destruct (children.[c]) as [[x|]|] eqn:E; [by destruct (Hnew x)|lia..]. }
  eexists NODE256, _, [], children'. split; [done|]. split; [constructor|split; [|split; [by apply same_prefix_refl; destruct Hh|]]].
  - by rewrite (zlen_wr _ _ _ _ Hw).
  - cbn. rewrite Hcnt, H2. by rewrite Zplus_mod_idemp_l.
  - cbn [enough]. lia.
  - intros c2 ch2. cbn [child_at]. rewrite (rd_wr _ _ _ _ c2 Hw). destruct (Z.eqb_spec c2 c) as [->|Hne].
    + split; [intros [= <-]; by left|]. intros [[_ ->]|Hx]; [done|]. by destruct (Hnew ch2).
    + split; [by right|]. by intros [[? _]|?].
Qed.

(** ** NODE48 *)

Lemma free_slot_spec children : cnt (filled children) 0 (zlen children) < zlen children ->
  exists pos, free_slot children = Some pos /\ children.[pos] = Some None.
Proof.
  intros Hlt. destruct (cnt_lt_ex (filled children) 0 (zlen children)) as (j & Hj & Hf); [apply zlen_nonneg|lia|]. rewrite filled_rd in Hf.
  unfold free_slot. match goal with |- exists r, loop _ ?body _ = _ /\ _ =>
    destruct (loop_spec (fun pos => 0 <= pos <= j) (fun pos => children.[pos] = Some None) (fun pos => j - pos) body)
      with (fuel := S (length children)) (s := 0) as (r & E & H) end; [|lia|unfold zlen in *; lia|lia|rewrite E; by eexists].
  intros pos Hpos. destruct (rd_in children pos) as [[x|] Hx]; [lia|..]; rewrite Hx; cbn [mbind option_bind]; [|done].
  assert (pos <> j) by (intros ->; by rewrite Hx in Hf). lia.
Qed.

Lemma add48_room n keys children c ch : idx_ok n keys children -> header_ok n -> byte c -> (forall x, ~ child_at NODE48 n keys children c x) ->
  num_children n < 48 -> adds NODE48 n keys children c ch (add_child48 n keys children c ch).
Proof.
  intros [H1 H2 H3 H4 H5 H6] Hh Hc Hnew Hroom. unfold add_child48. destruct (Z.ltb_spec (num_children n) 48); [|lia].
  destruct (free_slot_spec children) as (pos & -> & Hpos); [rewrite H2; lia|]. cbn [mbind option_bind]. pose proof (rd_Some _ _ _ Hpos) as Hposr. rewrite H2 in Hposr.
  destruct (wr_in children pos (Some ch)) as [children' Hw]; [lia|]. rewrite Hw. cbn [mbind option_bind].
  destruct (wr_in keys c (pos + 1)) as [keys' Hw2]; [rewrite H1; done|]. rewrite Hw2. cbn [mbind option_bind].
  assert (Hk0 : keys.[c] = Some 0).
  { destruct (rd_in keys c) as [k Hk]; [rewrite H1; done|]. destruct (Z.eq_dec k 0) as [->|Hne]; [done|]. destruct (H5 c k Hk Hne) as (_ & x & Hx).
    destruct (Hnew x). by exists k. }
  assert (Hother : forall c2 k, keys.[c2] = Some k -> k <> 0 -> k - 1 <> pos).
  { intros c2 k Hk Hne E. destruct (H5 c2 k Hk Hne) as (_ & x & Hx). rewrite E in Hx. congruence. }
  eexists NODE48, _, keys', children'. split; [done|].
  assert (Hn : num_children (count_children 1 n) = num_children n + 1) by (cbn; pose proof (cnt_nonneg (filled children) 0 48); apply Z.mod_small; lia).
  split; [constructor|split; [|split; [by apply same_prefix_refl; destruct Hh|]]].
  - by rewrite (zlen_wr _ _ _ _ Hw2).
  - by rewrite (zlen_wr _ _ _ _ Hw).
  - rewrite Hn, H3, (cnt_update (fun c => negb (at_ 0 keys c =? 0)) (fun c => negb (at_ 0 keys' c =? 0)) 0 256 c);
      [|done|by intros i Hi Hne; rewrite (at_wr 0 _ _ _ _ i Hw2); destruct (Z.eqb_spec i c)].
    rewrite (at_wr 0 _ _ _ _ c Hw2), Z.eqb_refl, (at_rd 0 _ _ _ Hk0). destruct (Z.eqb_spec (pos + 1) 0); cbn; lia.
  - rewrite Hn, H4, (cnt_update (filled children) (filled children') 0 48 pos); [|lia|by intros i Hi Hne; rewrite (filled_wr _ _ _ _ i Hw); destruct (Z.eqb_spec i pos)].
    rewrite (filled_wr _ _ _ _ pos Hw), Z.eqb_refl, filled_rd, Hpos. lia.
  - intros c2 k. rewrite (rd_wr _ _ _ _ c2 Hw2). destruct (Z.eqb_spec c2 c) as [->|Hne].
    + intros [= <-] _. split; [lia|]. exists ch. rewrite (rd_wr _ _ _ _ _ Hw). by destruct (Z.eqb_spec (pos + 1 - 1) pos); [|lia].
    + intros Hk Hne0. destruct (H5 c2 k Hk Hne0) as (Hr & x & Hx). split; [done|]. exists x. rewrite (rd_wr _ _ _ _ _ Hw).
      destruct (Z.eqb_spec (k - 1) pos); [|done]. by destruct (Hother c2 k).
  - intros c1 c2 k. rewrite !(rd_wr _ _ _ _ _ Hw2). destruct (Z.eqb_spec c1 c) as [->|N1], (Z.eqb_spec c2 c) as [->|N2]; [done| | |by apply H6].
    + intros [= <-] Hk Hne. destruct (Hother c2 (pos + 1)); [done|done|lia].
    + intros Hk [= <-] Hne. destruct (Hother c1 (pos + 1)); [done|done|lia].
  - cbn [enough]. lia.
  - intros c2 ch2. cbn [child_at]. split.
    + intros (k & Hk & Hne & Hx). rewrite (rd_wr _ _ _ _ _ Hw2) in Hk. rewrite (rd_wr _ _ _ _ _ Hw) in Hx. destruct (Z.eqb_spec c2 c) as [->|N].
      * left. injection Hk as <-. destruct (Z.eqb_spec (pos + 1 - 1) pos); [|lia]. split; congruence.
      * right. destruct (Z.eqb_spec (k - 1) pos) as [E|]; [by destruct (Hother c2 k)|]. by exists k.
    + intros [[-> ->]|(k & Hk & Hne & Hx)].
      * exists (pos + 1). rewrite (rd_wr _ _ _ _ _ Hw2), (rd_wr _ _ _ _ _ Hw), Z.eqb_refl. destruct (Z.eqb_spec (pos + 1 - 1) pos); [|lia]. split; [done|]. split; [lia|done].
      * exists k. rewrite (rd_wr _ _ _ _ _ Hw2), (rd_wr _ _ _ _ _ Hw). destruct (Z.eqb_spec c2 c) as [->|]; [congruence|].
        destruct (Z.eqb_spec (k - 1) pos) as [E|]; [by destruct (Hother c2 k)|done].
Qed.

(** ** Growing *)

(** The child of a byte in a NODE48, as a function. *)
Definition idx_child (keys : list Z) (children : children_array) (c : Z) : option art_node :=
  match keys.[c] with Some k => if k =? 0 then None else at_ None children (k - 1) | None => None end.

Lemma idx_child_Some n keys children c ch : idx_ok n keys children -> idx_child keys children c = Some ch <-> child_at NODE48 n keys children c ch.
Proof.
  intros Hl. unfold idx_child. cbn [child_at]. split.
  - destruct (keys.[c]) as [k|] eqn:Hk; [|done]. destruct (Z.eqb_spec k 0); [done|]. intros Hx. exists k. split; [done|]. split; [done|].
    destruct (io_slot _ _ _ Hl c k Hk) as (_ & x & Hx'); [done|]. rewrite (at_rd None _ _ _ Hx') in Hx. congruence.
  - intros (k & -> & Hne & Hx). destruct (Z.eqb_spec k 0); [done|]. by apply at_rd.
Qed.

Lemma grow48_spec n keys children : idx_ok n keys children ->
  exists new, for_up 0 256 (fun i new => k ← keys.[i]; if k =? 0 then Some new else ch ← children.[k - 1]; wr new i ch) (empty_children NODE256) = Some new /\
    zlen new = 256 /\ forall c, 0 <= c < 256 -> new.[c] = Some (idx_child keys children c).
Proof.
  intros Hl. match goal with |- context [for_up 0 256 ?body ?init = _] =>
    destruct (for_up_spec (fun i new => zlen new = 256 /\ forall c, 0 <= c < 256 -> new.[c] = Some (if c <? i then idx_child keys children c else None))
      body 0 256 init) as (new & -> & Hz & H) end; [lia| | |].
  - split; [done|]. intros c Hc. destruct (Z.ltb_spec c 0); [lia|]. by apply rd_replicate.
  - intros i new Hi [Hz H]. destruct (rd_in keys i) as [k Hk]; [rewrite (io_keys _ _ _ Hl); lia|]. rewrite Hk. cbn [mbind option_bind].
    destruct (Z.eqb_spec k 0) as [->|Hne].
    + eexists. split; [done|]. split; [done|]. intros c Hc. rewrite H by done. destruct (Z.ltb_spec c i), (Z.ltb_spec c (i + 1)); try lia; [done| |done].
      replace c with i by lia. unfold idx_child. by rewrite Hk.
    + destruct (io_slot _ _ _ Hl i k Hk Hne) as (_ & x & Hx). rewrite Hx. cbn [mbind option_bind]. destruct (wr_in new i (Some x)) as [new' Hw]; [lia|]. exists new'.
      split; [done|]. split; [by rewrite (zlen_wr _ _ _ _ Hw)|]. intros c Hc. rewrite (rd_wr _ _ _ _ c Hw). destruct (Z.eqb_spec c i) as [->|].
      * destruct (Z.ltb_spec i (i + 1)); [|lia]. unfold idx_child. rewrite Hk. destruct (Z.eqb_spec k 0); [done|]. by rewrite (at_rd None _ _ _ Hx).
      * rewrite H by done. by destruct (Z.ltb_spec c i), (Z.ltb_spec c (i + 1)); try lia.
  - exists new. split; [done|]. split; [done|]. intros c Hc. rewrite H by done. destruct (Z.ltb_spec c 256); [done|lia].
Qed.

Lemma add_child48_spec n keys children c ch : idx_ok n keys children -> header_ok n -> byte c -> (forall x, ~ child_at NODE48 n keys children c x) ->
  adds NODE48 n keys children c ch (add_child48 n keys children c ch).
Proof.
  intros Hl Hh Hc Hnew. destruct (Z.lt_ge_cases (num_children n) 48); [by apply add48_room|]. unfold add_child48. destruct (Z.ltb_spec (num_children n) 48); [lia|].
  destruct (grow48_spec n keys children Hl) as (new & -> & Hz & Hnewc). cbn [mbind option_bind].
  destruct (copy_header_spec n) as (n1 & -> & Hp & Hnum); [by destruct Hh..|]. cbn [mbind option_bind].
  assert (Hiff : forall c2 ch2, child_at NODE256 n1 [] new c2 ch2 <-> child_at NODE48 n keys children c2 ch2).
  { intros c2 ch2. split.
    - cbn [child_at]. intros Hx. pose proof (rd_Some _ _ _ Hx). rewrite Hnewc in Hx by lia. injection Hx as Hx. by apply (idx_child_Some n).
    - intros Hx. cbn [child_at]. rewrite Hnewc by exact (child_at_byte NODE48 _ _ _ _ _ Hl Hx). f_equal. by apply (idx_child_Some n). }
  assert (Hcnt : cnt (filled new) 0 256 = num_children n).
  { rewrite (io_num _ _ _ Hl). apply cnt_ext. intros i Hi. rewrite filled_rd, Hnewc by done. unfold idx_child, at_.
    destruct (rd_in keys i) as [k Hk]; [rewrite (io_keys _ _ _ Hl); done|]. rewrite Hk. cbn [from_option id]. destruct (Z.eqb_spec k 0); [done|].
    destruct (io_slot _ _ _ Hl i k Hk) as (_ & x & ->); [done|]. done. }
  apply (adds_grown NODE48 n keys children NODE256 n1 [] new); [done|cbn [enough]; lia|done|]. apply add_child256_spec.
  - constructor; [done|]. rewrite Hnum, Hcnt. rewrite Z.mod_small; [done|]. rewrite (io_used _ _ _ Hl). pose proof (cnt_bounds (filled children) 0 48). lia.
  - by apply (header_ok_copy n).
  - done.
  - intros x. rewrite Hiff. apply Hnew.
Qed.

(** ** NODE16 and NODE4 *)

Lemma arr_new cap n keys children c : arr_ok cap n keys children ->
  (forall x, ~ exists i, 0 <= i < num_children n /\ keys.[i] = Some c /\ children.[i] = Some (Some x)) ->
  forall i, 0 <= i < num_children n -> keys.[i] <> Some c.
Proof.
  intros Hl Hnew i Hi Hk. destruct (ao_slot _ _ _ _ Hl i Hi) as (k & x & Hk' & _ & Hx). apply (Hnew x). by exists i.
Qed.

(** A node of 16 children turned into an index. *)
Lemma grow_keys_spec n keys children : arr_ok 16 n keys children ->
  exists new, for_up 0 (num_children n) (fun i new => k ← keys.[i]; wr new k (i + 1)) (empty_keys NODE48) = Some new /\ zlen new = 256 /\
    (forall c k, new.[c] = Some k -> k <> 0 -> 1 <= k <= num_children n /\ keys.[k - 1] = Some c) /\
    (forall j c, 0 <= j < num_children n -> keys.[j] = Some c -> new.[c] = Some (j + 1)) /\
    cnt (fun c => negb (at_ 0 new c =? 0)) 0 256 = num_children n.
Proof.
  intros Hl. pose proof (ao_num _ _ _ _ Hl). match goal with |- context [for_up 0 ?hi ?body ?init = _] =>
    destruct (for_up_spec (fun i new => zlen new = 256 /\
      (forall c k, new.[c] = Some k -> k <> 0 -> 1 <= k <= i /\ keys.[k - 1] = Some c) /\
      (forall j c, 0 <= j < i -> keys.[j] = Some c -> new.[c] = Some (j + 1)) /\
      cnt (fun c => negb (at_ 0 new c =? 0)) 0 256 = i) body 0 hi init) as (new & -> & Hnew) end; [lia| | |by exists new].
  - split; [done|]. split; [|split; [intros; lia|]].
    + intros c k Hk Hne. pose proof (rd_Some _ _ _ Hk). unfold empty_keys in Hk. rewrite rd_replicate in Hk by done. congruence.
    + apply cnt_zero. intros c Hc. unfold at_, empty_keys. by rewrite rd_replicate.
  - intros i new Hi (Hz & H1 & H2 & H3). destruct (ao_slot _ _ _ _ Hl i Hi) as (c & x & Hk & Hb & _). rewrite Hk. cbn [mbind option_bind].
    destruct (wr_in new c (i + 1)) as [new' Hw]; [by rewrite Hz|]. exists new'. split; [done|].
    assert (Hold : at_ 0 new c = 0).
    { destruct (rd_in new c) as [k Hkc]; [by rewrite Hz|]. rewrite (at_rd 0 _ _ _ Hkc). destruct (Z.eq_dec k 0) as [|Hne]; [done|].
      destruct (H1 c k Hkc Hne) as (Hr & Hk2). assert (i = k - 1); [by apply (ao_inj _ _ _ _ Hl i (k - 1) c); [|lia|..]|lia]. }
    split; [by rewrite (zlen_wr _ _ _ _ Hw)|]. split; [|split].
    + intros c2 k Hk2 Hne. rewrite (rd_wr _ _ _ _ c2 Hw) in Hk2. destruct (Z.eqb_spec c2 c) as [->|].
      * injection Hk2 as <-. replace (i + 1 - 1) with i by lia. split; [lia|done].
      * destruct (H1 c2 k Hk2 Hne). split; [lia|done].
    + intros j c2 Hj Hk2. rewrite (rd_wr _ _ _ _ c2 Hw). destruct (Z.eqb_spec c2 c) as [->|Hne].
      * assert (i = j) as ->; [|done]. by apply (ao_inj _ _ _ _ Hl i j c); [|lia|..].
      * apply H2; [|done]. destruct (Z.eq_dec j i) as [->|]; [congruence|lia].
    + rewrite (cnt_update (fun c => negb (at_ 0 new c =? 0)) (fun c => negb (at_ 0 new' c =? 0)) 0 256 c);
        [|done|by intros k Hk2 Hne; rewrite (at_wr 0 _ _ _ _ k Hw); destruct (Z.eqb_spec k c)].
      rewrite (at_wr 0 _ _ _ _ c Hw), Z.eqb_refl, Hold, H3. destruct (Z.eqb_spec (i + 1) 0); [lia|]. cbn. lia.
Qed.

(** The result of [insert_at] adds a child. *)
Lemma insert_at_adds type cap n keys children idx c ch : (type = NODE4 /\ cap = 4) \/ (type = NODE16 /\ cap = 16) ->
  arr_ok cap n keys children -> header_ok n -> byte c -> (forall x, ~ child_at type n keys children c x) ->
  num_children n < cap -> 0 <= idx <= num_children n -> adds type n keys children c ch (insert_at type n keys children idx c ch).
Proof.
  intros Ht Hl Hh Hc Hnew Hroom Hidx.
  assert (Hnew' : forall i, 0 <= i < num_children n -> keys.[i] <> Some c).
  { eapply arr_new; [done|]. by destruct Ht as [[-> _]|[-> _]]. }
  destruct (open_gap_spec type cap n keys children idx c ch Hl) as (n' & keys' & children' & -> & Hl' & Hn & Hp & Hiff);
    [destruct Ht as [[_ ->]|[_ ->]]; lia|done|done|done|by destruct Hh|].
  exists type, n', keys', children'. split; [done|]. destruct Ht as [[-> ->]|[-> ->]]; (split; [done|]; split; [cbn [enough]; lia|]; by split).
Qed.

Lemma add_child16_spec n keys children c ch : arr_ok 16 n keys children -> header_ok n -> byte c -> (forall x, ~ child_at NODE16 n keys children c x) ->
  adds NODE16 n keys children c ch (add_child16 n keys children c ch).
Proof.
  intros Hl Hh Hc Hnew. pose proof (ao_num _ _ _ _ Hl). pose proof (ao_keys _ _ _ _ Hl). pose proof (ao_children _ _ _ _ Hl).
  unfold add_child16. destruct (Z.ltb_spec (num_children n) 16).
  - apply (insert_at_adds NODE16 16); [by right|done..|].
    pose proof (lane_first (fun k => signed8 c <? signed8 k) keys (num_children n) ltac:(lia) ltac:(lia)) as Hf. destruct (_ =? 0); lia.
  - assert (num_children n = 16) as En by lia.
    destruct (memcpy_spec (empty_children NODE48) 0 children 0 (num_children n)) as (new & -> & Hz & Hrd); [lia..|change (zlen (empty_children NODE48)) with 48; lia|lia|].
    cbn [mbind option_bind]. destruct (grow_keys_spec n keys children Hl) as (nk & -> & Hzk & K1 & K2 & K3). cbn [mbind option_bind].
    destruct (copy_header_spec n) as (n1 & -> & Hp & Hnum); [by destruct Hh..|]. cbn [mbind option_bind]. change (zlen (empty_children NODE48)) with 48 in Hz.
    assert (Hin : forall i, 0 <= i < 16 -> new.[i] = children.[i]).
    { intros i Hi. rewrite Hrd. destruct (Z.leb_spec 0 i), (Z.ltb_spec i (0 + num_children n)); try lia. cbn [andb]. f_equal. lia. }
    assert (Hiff : forall c2 ch2, child_at NODE48 n1 nk new c2 ch2 <-> child_at NODE16 n keys children c2 ch2).
    { intros c2 ch2. cbn [child_at]. split.
      - intros (k & Hk & Hne & Hx). destruct (K1 c2 k Hk Hne). rewrite Hin in Hx by lia. exists (k - 1). split; [lia|done].
      - intros (i & Hi & Hk & Hx). exists (i + 1). rewrite (K2 i c2 Hi Hk). split; [done|]. split; [lia|]. replace (i + 1 - 1) with i by lia. by rewrite Hin by lia. }
    apply (adds_grown NODE16 n keys children NODE48 n1 nk new); [done|cbn [enough]; lia|done|]. apply add_child48_spec.
    + constructor; [done|done| | | |].
      * by rewrite K3, Hnum.
      * rewrite (cnt_split _ 0 16 48) by lia. rewrite cnt_full, cnt_zero; [lia| |lia|].
        -- intros i Hi. rewrite filled_rd, Hrd. destruct (Z.leb_spec 0 i), (Z.ltb_spec i (0 + num_children n)); try lia. cbn [andb].
           unfold empty_children. by rewrite rd_replicate by (cbn; lia).
        -- intros i Hi. rewrite filled_rd, Hin by lia. by destruct (ao_slot _ _ _ _ Hl i ltac:(lia)) as (k & x & _ & _ & ->).
      * intros c2 k Hk Hne. destruct (K1 c2 k Hk Hne). split; [lia|]. rewrite Hin by lia. destruct (ao_slot _ _ _ _ Hl (k - 1) ltac:(lia)) as (k' & x & _ & _ & Hx). by exists x.
      * intros c1 c2 k Hk1 Hk2 Hne. destruct (K1 c1 k Hk1 Hne), (K1 c2 k Hk2 Hne). congruence.
    + by apply (header_ok_copy n).
    + done.
    + intros x. rewrite Hiff. apply Hnew.
Qed.

(** A NODE4 with room stays a NODE4. *)
Lemma add4_room n keys children c ch : arr_ok 4 n keys children -> num_children n < 4 ->
  exists idx, 0 <= idx <= num_children n /\ add_child4 n keys children c ch = insert_at NODE4 n keys children idx c ch.
Proof.
  intros Hl Hroom. pose proof (ao_num _ _ _ _ Hl). pose proof (ao_keys _ _ _ _ Hl). unfold add_child4. destruct (Z.ltb_spec (num_children n) 4); [|lia].
  match goal with |- context [loop ?fl ?body 0] =>
    destruct (loop_spec (fun i => 0 <= i <= num_children n) (fun i => 0 <= i <= num_children n) (fun i => num_children n - i) body) with (fuel := fl) (s := 0) as (idx & -> & Hidx) end;
    [|lia|lia|lia|by exists idx].
  intros i Hi. destruct (Z.ltb_spec i (num_children n)); [|done]. destruct (rd_in keys i) as [k Hk]; [lia|]. rewrite Hk. cbn [mbind option_bind]. destruct (c <? k); [done|lia].
Qed.

Lemma add_child4_spec n keys children c ch : arr_ok 4 n keys children -> header_ok n -> byte c -> (forall x, ~ child_at NODE4 n keys children c x) ->
  adds NODE4 n keys children c ch (add_child4 n keys children c ch).
Proof.
  intros Hl Hh Hc Hnew. pose proof (ao_num _ _ _ _ Hl). pose proof (ao_keys _ _ _ _ Hl). pose proof (ao_children _ _ _ _ Hl).
  destruct (Z.lt_ge_cases (num_children n) 4) as [Hroom|Hfull].
  - destruct (add4_room n keys children c ch Hl Hroom) as (idx & Hidx & ->). by apply (insert_at_adds NODE4 4); [left|..].
  - unfold add_child4. destruct (Z.ltb_spec (num_children n) 4); [lia|]. assert (num_children n = 4) as En by lia.
    destruct (memcpy_spec (empty_children NODE16) 0 children 0 (num_children n)) as (new & -> & Hz & Hrd); [lia..|change (zlen (empty_children NODE16)) with 16; lia|lia|].
    cbn [mbind option_bind].
    destruct (memcpy_spec (empty_keys NODE16) 0 keys 0 (num_children n)) as (nk & -> & Hzk & Hrdk); [lia..|change (zlen (empty_keys NODE16)) with 16; lia|lia|].
    cbn [mbind option_bind]. destruct (copy_header_spec n) as (n1 & -> & Hp & Hnum); [by destruct Hh..|]. cbn [mbind option_bind].
    assert (Hin : forall i, 0 <= i < num_children n -> new.[i] = children.[i] /\ nk.[i] = keys.[i]).
    { intros i Hi. rewrite Hrd, Hrdk. destruct (Z.leb_spec 0 i), (Z.ltb_spec i (0 + num_children n)); try lia. cbn [andb]. split; f_equal; lia. }
    assert (Hiff : forall c2 ch2, child_at NODE16 n1 nk new c2 ch2 <-> child_at NODE4 n keys children c2 ch2).
    { intros c2 ch2. cbn [child_at]. rewrite Hnum. split; intros (i & Hi & Hk & Hx); exists i; destruct (Hin i Hi) as [E1 E2]; [by rewrite <-E1, <-E2|by rewrite E1, E2]. }
    apply (adds_grown NODE4 n keys children NODE16 n1 nk new); [done|cbn [enough]; lia|done|]. apply add_child16_spec.
    + constructor; [done|done|lia| |]; rewrite Hnum.
      * intros i Hi. destruct (Hin i Hi) as [-> ->]. by apply (ao_slot _ _ _ _ Hl).
      * intros i j k Hi Hj. destruct (Hin i Hi) as [_ ->], (Hin j Hj) as [_ ->]. by apply (ao_inj _ _ _ _ Hl).
    + by apply (header_ok_copy n).
    + done.
    + intros x. rewrite Hiff. apply Hnew.
Qed.

Lemma add_child_spec type n keys children c ch : layout type n keys children -> header_ok n -> byte c -> (forall x, ~ child_at type n keys children c x) ->
  adds type n keys children c ch (add_child type n keys children c ch).
Proof.
  destruct type; cbn [layout add_child]; [apply add_child4_spec|apply add_child16_spec|apply add_child48_spec|apply add_child256_spec].
Qed.
