(* ===== verification/ArtRemove.v ===== *)
(** * ART: removing a child (competitor/art/src/src/art.c)

    Removing a child removes it from the map from bytes to children, whether or not
    the layout shrinks, and keeps the compressed path.  A NODE4 left with one child
    gives way to that child, whose compressed path grows by the path of the node and
    the byte between the two. *)

From S2P Require Import Prelude Words ArtNode ArtLayout ArtAdd.
Local Open Scope Z_scope.
Local Open Scope cxx_scope.

(** What removing the child at the byte [c] has to do. *)
Definition removes (type : node_type) (n : art_header) (keys : list Z) (children : children_array) (c : Z) (r : option art_node) : Prop :=
  exists type' n' keys' children', r = Some (Inner type' n' keys' children') /\ layout type' n' keys' children' /\
    enough type' n' children' /\ same_prefix n n' /\
    forall c2 ch2, child_at type' n' keys' children' c2 ch2 <-> c2 <> c /\ child_at type n keys children c2 ch2.

(** ** NODE256 *)

Lemma pack48_spec n children : dir_ok n children -> cnt (filled children) 0 256 <= 48 ->
  exists keys new, pack48 children = Some (keys, new) /\ zlen keys = 256 /\ zlen new = 48 /\
    (forall c k, keys.[c] = Some k -> k <> 0 -> 1 <= k <= 48 /\ new.[k - 1] = children.[c] /\ filled children c = true) /\
    (forall c, 0 <= c < 256 -> filled children c = true -> exists k, k <> 0 /\ keys.[c] = Some k) /\
    (forall c c' k, keys.[c] = Some k -> keys.[c'] = Some k -> k <> 0 -> c = c') /\
    cnt (filled new) 0 48 = cnt (filled children) 0 256 /\ cnt (fun c => negb (at_ 0 keys c =? 0)) 0 256 = cnt (filled children) 0 256.
Proof.
  intros [Hz _] Hle. unfold pack48. match goal with |- context [for_up 0 256 ?body ?init] =>
    destruct (for_up_spec (fun i '(keys, new, pos) => pos = cnt (filled children) 0 i /\ zlen keys = 256 /\ zlen new = 48 /\
      (forall c k, keys.[c] = Some k -> k <> 0 -> c < i /\ 1 <= k <= pos /\ new.[k - 1] = children.[c] /\ filled children c = true) /\
      (forall c, 0 <= c < i -> filled children c = true -> exists k, k <> 0 /\ keys.[c] = Some k) /\
      (forall c c' k, keys.[c] = Some k -> keys.[c'] = Some k -> k <> 0 -> c = c') /\
      (forall j, pos <= j < 48 -> new.[j] = Some None) /\
      cnt (filled new) 0 48 = pos /\ cnt (fun c => negb (at_ 0 keys c =? 0)) 0 256 = pos) body 0 256 init) as ([[keys new] pos] & -> & H) end; [lia| | |].
  - rewrite cnt_empty by lia. split; [done|]. split; [done|]. split; [done|]. split; [|split; [intros; lia|split; [|split; [|split]]]].
    + intros c k Hk Hne. pose proof (rd_Some _ _ _ Hk). unfold empty_keys in Hk. rewrite rd_replicate in Hk by done. congruence.
    + intros c c' k Hk _ Hne. pose proof (rd_Some _ _ _ Hk). unfold empty_keys in Hk. rewrite rd_replicate in Hk by done. congruence.
    + intros j Hj. unfold empty_children. by rewrite rd_replicate by (cbn; lia).
    + apply cnt_zero. intros j Hj. rewrite filled_rd. unfold empty_children. by rewrite rd_replicate by (cbn; lia).
    + apply cnt_zero. intros j Hj. unfold at_, empty_keys. by rewrite rd_replicate by (cbn; lia).
  - intros i [[keys new] pos] Hi (-> & Hzk & Hzn & H1 & H2 & H3 & H4 & H5 & H6).
    destruct (rd_in children i) as [o Ho]; [by rewrite Hz|]. rewrite Ho. cbn [mbind option_bind].
    assert (Hfi : filled children i = match o with Some _ => true | None => false end) by (by rewrite filled_rd, Ho).
    pose proof (cnt_snoc (filled children) 0 i ltac:(lia)) as Hs. rewrite Hfi in Hs. destruct o as [x|].
    + set (pos := cnt (filled children) 0 i) in *.
      assert (Hpos : 0 <= pos < 48).
      { split; [apply cnt_nonneg|]. pose proof (cnt_split (filled children) 0 (i + 1) 256 ltac:(lia)). pose proof (cnt_nonneg (filled children) (i + 1) 256). lia. }
      destruct (wr_in new pos (Some x)) as [new' Hw]; [by rewrite Hzn|]. rewrite Hw. cbn [mbind option_bind].
      destruct (wr_in keys i (pos + 1)) as [keys' Hw2]; [by rewrite Hzk|]. rewrite Hw2. cbn [mbind option_bind].
      exists (keys', new', pos + 1). split; [done|].
      assert (Hold : forall k, keys.[i] = Some k -> k = 0) by (intros k Hk; destruct (Z.eq_dec k 0); [done|]; destruct (H1 i k Hk); [done|lia]).
      split; [lia|]. split; [by rewrite (zlen_wr _ _ _ _ Hw2)|]. split; [by rewrite (zlen_wr _ _ _ _ Hw)|]. split; [|split; [|split; [|split; [|split]]]].
      * intros c k. rewrite (rd_wr _ _ _ _ c Hw2), (rd_wr _ _ _ _ (k - 1) Hw). destruct (Z.eqb_spec c i) as [->|].
        -- intros [= <-] _. destruct (Z.eqb_spec (pos + 1 - 1) pos); [|lia]. split; [lia|]. split; [lia|]. split; [by rewrite Ho|done].
        -- intros Hk Hne. destruct (H1 c k Hk Hne) as (? & ? & ? & ?). destruct (Z.eqb_spec (k - 1) pos); [lia|]. split; [lia|]. split; [lia|done].
      * intros c Hc Hf. destruct (Z.eq_dec c i) as [->|].
        -- exists (pos + 1). rewrite (rd_wr _ _ _ _ _ Hw2), Z.eqb_refl. split; [lia|done].
        -- destruct (H2 c ltac:(lia) Hf) as (k & Hne & Hk). exists k. rewrite (rd_wr _ _ _ _ _ Hw2). destruct (Z.eqb_spec c i); [lia|done].
      * intros c c' k. rewrite !(rd_wr _ _ _ _ _ Hw2). destruct (Z.eqb_spec c i) as [->|], (Z.eqb_spec c' i) as [->|]; [done| | |by apply H3].
        -- intros [= <-] Hk Hne. destruct (H1 c' (pos + 1) Hk Hne). lia.
        -- intros Hk [= <-] Hne. destruct (H1 c (pos + 1) Hk Hne). lia.
      * intros j Hj. rewrite (rd_wr _ _ _ _ j Hw). destruct (Z.eqb_spec j pos); [lia|]. apply H4. lia.
      * rewrite (cnt_update (filled new) (filled new') 0 48 pos); [|lia|by intros j Hj Hne; rewrite (filled_wr _ _ _ _ j Hw); destruct (Z.eqb_spec j pos)].
        rewrite (filled_wr _ _ _ _ pos Hw), Z.eqb_refl, filled_rd, H4, H5 by lia. lia.
      * rewrite (cnt_update (fun c => negb (at_ 0 keys c =? 0)) (fun c => negb (at_ 0 keys' c =? 0)) 0 256 i);
          [|done|by intros k Hk2 Hne; rewrite (at_wr 0 _ _ _ _ k Hw2); destruct (Z.eqb_spec k i)].
        destruct (rd_in keys i) as [k Hk]; [by rewrite Hzk|]. rewrite (at_wr 0 _ _ _ _ i Hw2), Z.eqb_refl, (at_rd 0 _ _ _ Hk), (Hold k Hk), H6.
        destruct (Z.eqb_spec (pos + 1) 0); [lia|]. cbn. lia.
    + eexists. split; [done|]. split; [lia|]. split; [done|]. split; [done|]. split; [|split; [|done]].
      * intros c k Hk Hne. destruct (H1 c k Hk Hne). split; [lia|done].
      * intros c Hc Hf. apply H2; [|done]. destruct (Z.eq_dec c i) as [->|]; [congruence|lia].
  - destruct H as (-> & Hzk & Hzn & H1 & H2 & H3 & H4 & H5 & H6). cbn [mbind option_bind]. exists keys, new. split; [done|]. split; [done|]. split; [done|].
    split; [|by repeat split]. intros c k Hk Hne. destruct (H1 c k Hk Hne) as (_ & Hr & Hx). split; [lia|done].
Qed.

Lemma remove_child256_spec n keys children c ch : dir_ok n children -> 38 <= cnt (filled children) 0 256 -> header_ok n -> byte c -> children.[c] = Some (Some ch) ->
  removes NODE256 n keys children c (remove_child256 n children c).
Proof.
  intros [H1 H2] He Hh Hc Hx. unfold remove_child256. destruct (wr_in children c None) as [children' Hw]; [by rewrite H1|]. rewrite Hw. cbn [mbind option_bind].
  assert (Hcnt : cnt (filled children') 0 256 = cnt (filled children) 0 256 - 1).
  { rewrite (cnt_update (filled children) (filled children') 0 256 c); [|done|by intros i Hi Hne; rewrite (filled_wr _ _ _ _ i Hw); destruct (Z.eqb_spec i c)].
    rewrite (filled_wr _ _ _ _ c Hw), Z.eqb_refl, filled_rd, Hx. lia. }
  pose proof (cnt_bounds (filled children) 0 256 ltac:(lia)) as Hb.
  assert (Hn : num_children (count_children (-1) n) = cnt (filled children') 0 256).
  { cbn [count_children num_children]. rewrite H2, Zplus_mod_idemp_l. rewrite Z.mod_small; lia. }
  assert (Hd : dir_ok (count_children (-1) n) children').
  { constructor; [by rewrite (zlen_wr _ _ _ _ Hw)|]. rewrite Hn, Z.mod_small; lia. }
  assert (Hiff : forall c2 ch2, children'.[c2] = Some (Some ch2) <-> c2 <> c /\ children.[c2] = Some (Some ch2)).
  { intros c2 ch2. rewrite (rd_wr _ _ _ _ c2 Hw). destruct (Z.eqb_spec c2 c) as [->|]; [split; [done|by intros [[] _]]|split; [done|by intros [_ ?]]]. }
  destruct (Z.eqb_spec (num_children (count_children (-1) n)) 37) as [E37|].
  - destruct (copy_header_spec (count_children (-1) n)) as (n1 & -> & Hp & Hnum); [by destruct Hh..|]. cbn [mbind option_bind].
    destruct (pack48_spec _ _ Hd) as (nk & new & -> & Hzk & Hzn & K1 & K2 & K3 & K4 & K5); [lia|]. cbn [mbind option_bind].
    exists NODE48, n1, nk, new. split; [done|].
    assert (Hch : forall c2 k, nk.[c2] = Some k -> k <> 0 -> exists x, new.[k - 1] = Some (Some x)).
    { intros c2 k Hk Hne. destruct (K1 c2 k Hk Hne) as (_ & -> & Hf). rewrite filled_rd in Hf. destruct (children'.[c2]) as [[x|]|]; [by exists x|done..]. }
    split; [constructor; [done|done|lia|lia| |done]|].
    { intros c2 k Hk Hne. split; [by destruct (K1 c2 k Hk Hne)|by eapply Hch]. }
    split; [cbn [enough]; lia|]. split; [done|]. intros c2 ch2. cbn [child_at]. rewrite <-Hiff. split.
    + intros (k & Hk & Hne & Hx2). destruct (K1 c2 k Hk Hne) as (_ & <- & _). done.
    + intros Hx2. pose proof (rd_Some _ _ _ Hx2) as Hr. rewrite (do_children _ _ Hd) in Hr.
      destruct (K2 c2 Hr) as (k & Hne & Hk); [by rewrite filled_rd, Hx2|]. exists k. split; [done|]. split; [done|]. by destruct (K1 c2 k Hk Hne) as (_ & -> & _).
  - exists NODE256, (count_children (-1) n), [], children'. split; [done|]. split; [done|]. split; [cbn [enough]; lia|]. split; [by apply same_prefix_refl; destruct Hh|done].
Qed.

(** ** NODE48 *)

Definition used (keys : list Z) (c : Z) : bool := negb (at_ 0 keys c =? 0).

Lemma used_rd keys c k : keys.[c] = Some k -> used keys c = negb (k =? 0).
Proof. intros Hk. unfold used. by rewrite (at_rd 0 _ _ _ Hk). Qed.

Lemma pack16_spec n keys children : idx_ok n keys children -> num_children n <= 16 ->
  exists nk new, pack16 keys children = Some (nk, new) /\ zlen nk = 16 /\ zlen new = 16 /\
    (forall j, 0 <= j < num_children n -> exists c k, nk.[j] = Some c /\ keys.[c] = Some k /\ k <> 0 /\ new.[j] = children.[k - 1]) /\
    (forall c, 0 <= c < 256 -> used keys c = true -> exists j, 0 <= j < num_children n /\ nk.[j] = Some c) /\
    (forall j j' c, 0 <= j < num_children n -> 0 <= j' < num_children n -> nk.[j] = Some c -> nk.[j'] = Some c -> j = j').
Proof.
  intros Hl Hle. unfold pack16. match goal with |- context [for_up 0 256 ?body ?init] =>
    destruct (for_up_spec (fun i '(nk, new, child) => child = cnt (used keys) 0 i /\ zlen nk = 16 /\ zlen new = 16 /\
      (forall j, 0 <= j < child -> exists c k, c < i /\ nk.[j] = Some c /\ keys.[c] = Some k /\ k <> 0 /\ new.[j] = children.[k - 1]) /\
      (forall c, 0 <= c < i -> used keys c = true -> exists j, 0 <= j < child /\ nk.[j] = Some c) /\
      (forall j j' c, 0 <= j < child -> 0 <= j' < child -> nk.[j] = Some c -> nk.[j'] = Some c -> j = j')) body 0 256 init) as ([[nk new] child] & -> & H) end; [lia| | |].
  - rewrite cnt_empty by lia. split; [done|]. split; [done|]. split; [done|]. split; [intros; lia|]. split; intros; lia.
  - intros i [[nk new] child] Hi (-> & Hzk & Hzn & H1 & H2 & H3). set (child := cnt (used keys) 0 i) in *.
    destruct (rd_in keys i) as [k Hk]; [by rewrite (io_keys _ _ _ Hl)|]. rewrite Hk. cbn [mbind option_bind].
    pose proof (cnt_snoc (used keys) 0 i ltac:(lia)) as Hs. fold child in Hs. rewrite (used_rd _ _ _ Hk) in Hs. destruct (Z.eqb_spec k 0) as [->|Hne]; cbn [negb] in Hs.
    + eexists. split; [done|]. split; [lia|]. split; [done|]. split; [done|]. split; [|split; [|done]].
      * intros j Hj. destruct (H1 j Hj) as (c & k & Hc & Hr). exists c, k. split; [lia|done].
      * intros c Hc Hu. apply H2; [|done]. destruct (Z.eq_dec c i) as [->|]; [by rewrite (used_rd _ _ _ Hk) in Hu|lia].
    + assert (Hpos : 0 <= child < 16).
      { split; [apply cnt_nonneg|]. pose proof (cnt_split (used keys) 0 (i + 1) 256 ltac:(lia)). pose proof (cnt_nonneg (used keys) (i + 1) 256).
        pose proof (io_num _ _ _ Hl) as Hn. change (num_children n = cnt (used keys) 0 256) in Hn. lia. }
      destruct (wr_in nk child i) as [nk' Hw]; [by rewrite Hzk|]. rewrite Hw. cbn [mbind option_bind].
      destruct (io_slot _ _ _ Hl i k Hk Hne) as (_ & x & Hx). rewrite Hx. cbn [mbind option_bind].
      destruct (wr_in new child (Some x)) as [new' Hw2]; [by rewrite Hzn|]. rewrite Hw2. cbn [mbind option_bind].
      exists (nk', new', child + 1). split; [done|]. split; [lia|]. split; [by rewrite (zlen_wr _ _ _ _ Hw)|]. split; [by rewrite (zlen_wr _ _ _ _ Hw2)|].
      assert (Hold : forall j, 0 <= j < child -> nk.[j] <> Some i) by (intros j Hj E; destruct (H1 j Hj) as (c & k' & Hc & E' & _); rewrite E in E'; injection E'; lia).
      split; [|split].
      * intros j Hj. rewrite (rd_wr _ _ _ _ j Hw), (rd_wr _ _ _ _ j Hw2). destruct (Z.eqb_spec j child) as [->|].
        -- exists i, k. split; [lia|]. by rewrite Hx.
        -- destruct (H1 j ltac:(lia)) as (c & k' & Hc & Hr). exists c, k'. split; [lia|done].
      * intros c Hc Hu. destruct (Z.eq_dec c i) as [->|].
        -- exists child. rewrite (rd_wr _ _ _ _ _ Hw), Z.eqb_refl. split; [lia|done].
        -- destruct (H2 c ltac:(lia) Hu) as (j & Hj & Hc'). exists j. rewrite (rd_wr _ _ _ _ _ Hw). destruct (Z.eqb_spec j child); [lia|]. split; [lia|done].
      * intros j j' c Hj Hj'. rewrite !(rd_wr _ _ _ _ _ Hw). destruct (Z.eqb_spec j child) as [->|], (Z.eqb_spec j' child) as [->|]; [done| | |].
        -- intros [= <-] E. destruct (Hold j'); [lia|done].
        -- intros E [= <-]. destruct (Hold j); [lia|done].
        -- apply H3; lia.
  - destruct H as (-> & Hzk & Hzn & H1 & H2 & H3). pose proof (io_num _ _ _ Hl) as Hn. change (num_children n = cnt (used keys) 0 256) in Hn. rewrite <-Hn in *.
    cbn [mbind option_bind]. exists nk, new. split; [done|]. split; [done|]. split; [done|]. split; [|by split].
    intros j Hj. destruct (H1 j Hj) as (c & k & _ & Hr). by exists c, k.
Qed.

Lemma drop48_spec n keys children c pos keys' children' : idx_ok n keys children -> byte c -> keys.[c] = Some pos -> pos <> 0 ->
  wr keys c 0 = Some keys' -> wr children (pos - 1) None = Some children' -> num_children n < 256 ->
  idx_ok (count_children (-1) n) keys' children' /\ num_children (count_children (-1) n) = num_children n - 1 /\
  forall c2 ch2, child_at NODE48 (count_children (-1) n) keys' children' c2 ch2 <-> c2 <> c /\ child_at NODE48 n keys children c2 ch2.
Proof.
  intros [H1 H2 H3 H4 H5 H6] Hc Hk Hne Hw Hw2 Hlt. destruct (H5 c pos Hk Hne) as (Hpos & x & Hx).
  assert (Hother : forall c2 k, c2 <> c -> keys.[c2] = Some k -> k <> 0 -> k - 1 <> pos - 1).
  { intros c2 k N Hk2 N0 E. assert (k = pos) as -> by lia. apply N. by eapply H6. }
  assert (Hu : cnt (used keys') 0 256 = num_children n - 1).
  { rewrite (cnt_update (used keys) (used keys') 0 256 c); [|done|by intros k Hk2 N; unfold used; rewrite (at_wr 0 _ _ _ _ k Hw); destruct (Z.eqb_spec k c)].
    rewrite (used_rd _ _ _ Hk). unfold used at 2. rewrite (at_wr 0 _ _ _ _ c Hw), Z.eqb_refl, H3. fold (used keys). destruct (Z.eqb_spec pos 0); [done|]. cbn. unfold used. lia. }
  assert (Hn : num_children (count_children (-1) n) = num_children n - 1).
  { cbn [count_children num_children]. rewrite Z.mod_small; [done|]. pose proof (cnt_nonneg (used keys') 0 256). lia. }
  split; [constructor|split; [done|]].
  - by rewrite (zlen_wr _ _ _ _ Hw).
  - by rewrite (zlen_wr _ _ _ _ Hw2).
  - rewrite Hn. by rewrite <-Hu.
  - rewrite Hn, H4, (cnt_update (filled children) (filled children') 0 48 (pos - 1)); [|lia|by intros j Hj N; rewrite (filled_wr _ _ _ _ j Hw2); destruct (Z.eqb_spec j (pos - 1))].
    rewrite (filled_wr _ _ _ _ (pos - 1) Hw2), Z.eqb_refl, filled_rd, Hx. lia.
  - intros c2 k. rewrite (rd_wr _ _ _ _ c2 Hw), (rd_wr _ _ _ _ (k - 1) Hw2). destruct (Z.eqb_spec c2 c) as [->|N]; [intros [= <-]; done|]. intros Hk2 N0.
    destruct (Z.eqb_spec (k - 1) (pos - 1)) as [E|]; [by destruct (Hother c2 k)|]. by apply (H5 c2).
  - intros c1 c2 k. rewrite !(rd_wr _ _ _ _ _ Hw). destruct (Z.eqb_spec c1 c), (Z.eqb_spec c2 c); [congruence|intros [= <-]; done|intros _ [= <-]; done|apply H6].
  - intros c2 ch2. cbn [child_at]. split.
    + intros (k & Hk2 & N0 & Hx2). rewrite (rd_wr _ _ _ _ c2 Hw) in Hk2. destruct (Z.eqb_spec c2 c); [congruence|]. split; [done|]. exists k. split; [done|]. split; [done|].
      rewrite (rd_wr _ _ _ _ _ Hw2) in Hx2. by destruct (Z.eqb_spec (k - 1) (pos - 1)).
    + intros (N & k & Hk2 & N0 & Hx2). exists k. rewrite (rd_wr _ _ _ _ _ Hw), (rd_wr _ _ _ _ _ Hw2). destruct (Z.eqb_spec c2 c); [done|].
      destruct (Z.eqb_spec (k - 1) (pos - 1)); [by destruct (Hother c2 k)|done].
Qed.

Lemma remove_child48_spec n keys children c ch : idx_ok n keys children -> 13 <= num_children n -> header_ok n -> byte c -> child_at NODE48 n keys children c ch ->
  removes NODE48 n keys children c (remove_child48 n keys children c).
Proof.
  intros Hl He Hh Hc (pos & Hk & Hne & Hx). unfold remove_child48. rewrite Hk. cbn [mbind option_bind].
  destruct (wr_in keys c 0) as [keys' Hw]; [by rewrite (io_keys _ _ _ Hl)|]. rewrite Hw. cbn [mbind option_bind].
  destruct (wr_in children (pos - 1) None) as [children' Hw2]; [by apply rd_Some in Hx|]. rewrite Hw2. cbn [mbind option_bind].
  assert (num_children n < 256) by (rewrite (io_used _ _ _ Hl); pose proof (cnt_bounds (filled children) 0 48); lia).
  destruct (drop48_spec n keys children c pos keys' children') as (Hl' & Hn & Hiff); [done..|].
  destruct (Z.eqb_spec (num_children (count_children (-1) n)) 12) as [E12|].
  - destruct (copy_header_spec (count_children (-1) n)) as (n1 & -> & Hp & Hnum); [by destruct Hh..|]. cbn [mbind option_bind].
    destruct (pack16_spec _ _ _ Hl') as (nk & new & -> & Hzk & Hzn & K1 & K2 & K3); [lia|]. cbn [mbind option_bind]. rewrite <-Hnum in *.
    exists NODE16, n1, nk, new. split; [done|].
    assert (Hslot : forall j, 0 <= j < num_children n1 -> exists c2 x, nk.[j] = Some c2 /\ byte c2 /\ new.[j] = Some (Some x) /\ child_at NODE48 (count_children (-1) n) keys' children' c2 x).
    { intros j Hj. destruct (K1 j Hj) as (c2 & k & E & Hk2 & N0 & E2). destruct (io_slot _ _ _ Hl' c2 k Hk2 N0) as (_ & x & Hx2). exists c2, x. split; [done|].
      split; [apply rd_Some in Hk2; by rewrite (io_keys _ _ _ Hl') in Hk2|]. split; [by rewrite E2|]. by exists k. }
    split; [constructor; [done|done|lia| |by apply K3]|].
    { intros j Hj. destruct (Hslot j Hj) as (c2 & x & E & Hb & E2 & _). by exists c2, x. }
    split; [cbn [enough]; lia|]. split; [done|]. intros c2 ch2. rewrite <-Hiff. split.
    + intros (j & Hj & E & Hx2). destruct (Hslot j Hj) as (c3 & x & E3 & _ & E4 & Hch). assert (c3 = c2) as -> by congruence. by assert (x = ch2) as -> by congruence.
    + intros Hch. destruct (K2 c2) as (j & Hj & E); [exact (child_at_byte NODE48 _ _ _ _ _ Hl' Hch)|destruct Hch as (k & Hk2 & N0 & _); rewrite (used_rd _ _ _ Hk2); by destruct (Z.eqb_spec k 0)|].
      exists j. split; [done|]. split; [done|]. destruct (Hslot j Hj) as (c3 & x & E3 & _ & E4 & Hch2). assert (c3 = c2) as -> by congruence.
      by rewrite E4, (child_at_fun NODE48 _ _ _ _ _ _ Hl' Hch Hch2).
  - exists NODE48, (count_children (-1) n), keys', children'. split; [done|]. split; [done|]. split; [cbn [enough]; lia|]. split; [by apply same_prefix_refl; destruct Hh|done].
Qed.

(** ** NODE16 *)

(** A sorted layout that stays as it is. *)
Lemma delete_at_removes type cap n n' keys keys' children children' c : (type = NODE4 /\ cap = 4) \/ (type = NODE16 /\ cap = 16) ->
  header_ok n -> n' = count_children (-1) n -> arr_ok cap n' keys' children' -> enough type n' children' ->
  (forall c2 ch2, (exists i, 0 <= i < num_children n' /\ keys'.[i] = Some c2 /\ children'.[i] = Some (Some ch2)) <->
      c2 <> c /\ (exists i, 0 <= i < num_children n /\ keys.[i] = Some c2 /\ children.[i] = Some (Some ch2))) ->
  removes type n keys children c (Some (Inner type n' keys' children')).
Proof.
  intros Ht [Hh _] -> Hl He Hiff. exists type, (count_children (-1) n), keys', children'. split; [done|].
  destruct Ht as [[-> ->]|[-> ->]]; (split; [done|]; split; [done|]; split; [by apply same_prefix_refl|done]).
Qed.

Lemma remove_child16_spec n keys children c pos : arr_ok 16 n keys children -> 4 <= num_children n -> header_ok n ->
  0 <= pos < num_children n -> keys.[pos] = Some c -> removes NODE16 n keys children c (remove_child16 n keys children pos).
Proof.
  intros Hl He Hh Hpos Hc. unfold remove_child16.
  destruct (delete_at_spec 16 n keys children pos c) as (n' & keys' & children' & -> & En' & Hl' & Hn & Hiff); [done|lia|done|done|]. cbn [mbind option_bind].
  destruct (Z.eqb_spec (num_children n') 3) as [E3|]; [|apply (delete_at_removes NODE16 16); [by right|done..|cbn [enough]; lia|done]].
  destruct (copy_header_spec n') as (n1 & -> & Hp & Hnum); [subst n'; by destruct Hh..|]. cbn [mbind option_bind].
  pose proof (ao_keys _ _ _ _ Hl'). pose proof (ao_children _ _ _ _ Hl').
  destruct (memcpy_spec (empty_keys NODE4) 0 keys' 0 4) as (nk & -> & Hzk & Hrk); [lia..|change (zlen (empty_keys NODE4)) with 4; lia|lia|]. cbn [mbind option_bind].
  destruct (memcpy_spec (empty_children NODE4) 0 children' 0 4) as (new & -> & Hz & Hr); [lia..|change (zlen (empty_children NODE4)) with 4; lia|lia|]. cbn [mbind option_bind].
  assert (Hin : forall i, 0 <= i < 3 -> new.[i] = children'.[i] /\ nk.[i] = keys'.[i]).
  { intros i Hi. rewrite Hr, Hrk. destruct (Z.leb_spec 0 i), (Z.ltb_spec i (0 + 4)); try lia. cbn [andb]. split; f_equal; lia. }
  exists NODE4, n1, nk, new. split; [done|]. rewrite <-Hnum in *. split; [constructor; [done|done|lia| |]|].
  - intros i Hi. destruct (Hin i ltac:(lia)) as [-> ->]. apply (ao_slot _ _ _ _ Hl'). lia.
  - intros i j k Hi Hj. destruct (Hin i ltac:(lia)) as [_ ->], (Hin j ltac:(lia)) as [_ ->]. apply (ao_inj _ _ _ _ Hl'); lia.
  - split; [cbn [enough]; lia|]. split; [by subst n'|]. intros c2 ch2. cbn [child_at]. rewrite <-Hiff.
    split; intros (i & Hi & Hk & Hx); exists i; destruct (Hin i ltac:(lia)) as [E1 E2]; [by rewrite <-E1, <-E2|by rewrite E1, E2].
Qed.

(** ** NODE4 *)

(** The header [hd'] of a child that takes over from a node with the header [n]: the
    path of the node, the byte [c] and the path of the child. *)
Definition joins (n : art_header) (c : Z) (hd hd' : art_header) : Prop :=
  partial_len hd' = partial_len n + 1 + partial_len hd /\ zlen (partial hd') = MAX_PREFIX_LEN /\ num_children hd' = num_children hd /\
  forall i, 0 <= i < Z.min MAX_PREFIX_LEN (partial_len hd') ->
    (partial hd').[i] = if i <? partial_len n then (partial n).[i] else if i =? partial_len n then Some c else (partial hd).[i - partial_len n - 1].

Definition takes_over (n : art_header) (c : Z) (ch : art_node) (r : option art_node) : Prop :=
  match ch with
  | Leaf _ => r = Some ch
  | Inner type hd keys children => exists hd', r = Some (Inner type hd' keys children) /\ joins n c hd hd'
  end.

Lemma concatenate_spec n c hd : header_ok n -> header_ok hd -> exists hd', concatenate n c hd = Some hd' /\ joins n c hd hd'.
Proof.
  intros [Zn Ln] [Zh Lh]. unfold concatenate, joins. unfold MAX_PREFIX_LEN in *. destruct (Z.ltb_spec (partial_len n) 10) as [Hlt|Hge].
  - destruct (wr_in (partial n) (partial_len n) c) as [p Hw]; [lia|]. rewrite Hw. cbn [mbind option_bind]. pose proof (zlen_wr _ _ _ _ Hw) as Zp.
    destruct (Z.ltb_spec (partial_len n + 1) 10) as [Hlt1|Hge1].
    + destruct (memcpy_spec p (partial_len n + 1) (partial hd) 0 (Z.min (partial_len hd) (10 - (partial_len n + 1)))) as (p2 & -> & Z2 & R2); [lia..|]. cbn [mbind option_bind].
      destruct (memcpy_spec (partial hd) 0 p2 0 (Z.min (partial_len n + 1 + Z.min (partial_len hd) (10 - (partial_len n + 1))) 10)) as (p3 & -> & Z3 & R3); [lia..|].
      cbn [mbind option_bind]. eexists. split; [done|]. cbn [partial_len partial num_children]. split; [lia|]. split; [lia|]. split; [done|]. intros i Hi.
      rewrite R3, Z.add_0_l, Z.sub_0_r, Z.add_0_l, R2, (rd_wr _ _ _ _ i Hw).
      destruct (Z.leb_spec 0 i), (Z.ltb_spec i (Z.min (partial_len n + 1 + Z.min (partial_len hd) (10 - (partial_len n + 1))) 10)); try lia. cbn [andb].
      destruct (Z.leb_spec (partial_len n + 1) i), (Z.ltb_spec i (partial_len n + 1 + Z.min (partial_len hd) (10 - (partial_len n + 1)))), (Z.eqb_spec i (partial_len n)),
        (Z.ltb_spec i (partial_len n)); try lia; cbn [andb]; [f_equal; lia|done..].
    + cbn [mbind option_bind]. destruct (memcpy_spec (partial hd) 0 p 0 (Z.min (partial_len n + 1) 10)) as (p3 & -> & Z3 & R3); [lia..|].
      cbn [mbind option_bind]. eexists. split; [done|]. cbn [partial_len partial num_children]. split; [lia|]. split; [lia|]. split; [done|]. intros i Hi.
      rewrite R3, Z.add_0_l, Z.sub_0_r, Z.add_0_l, (rd_wr _ _ _ _ i Hw).
      destruct (Z.leb_spec 0 i), (Z.ltb_spec i (Z.min (partial_len n + 1) 10)); try lia. cbn [andb].
      destruct (Z.eqb_spec i (partial_len n)), (Z.ltb_spec i (partial_len n)); try lia; done.
  - cbn [mbind option_bind]. destruct (Z.ltb_spec (partial_len n) 10); [lia|]. cbn [mbind option_bind].
    destruct (memcpy_spec (partial hd) 0 (partial n) 0 (Z.min (partial_len n) 10)) as (p3 & -> & Z3 & R3); [lia..|].
    cbn [mbind option_bind]. eexists. split; [done|]. cbn [partial_len partial num_children]. split; [lia|]. split; [lia|]. split; [done|]. intros i Hi.
    rewrite R3, Z.add_0_l, Z.sub_0_r, Z.add_0_l. destruct (Z.leb_spec 0 i), (Z.ltb_spec i (Z.min (partial_len n) 10)), (Z.ltb_spec i (partial_len n)); try lia. done.
Qed.

(** What removing a child of any node does. *)
Definition removal (type : node_type) (n : art_header) (keys : list Z) (children : children_array) (c : Z) (r : option art_node) : Prop :=
  removes type n keys children c r \/
  exists c' ch', c' <> c /\ child_at type n keys children c' ch' /\ takes_over n c' ch' r /\
    forall c2 ch2, c2 <> c -> child_at type n keys children c2 ch2 -> c2 = c' /\ ch2 = ch'.

Lemma remove_child4_spec n keys children c pos : arr_ok 4 n keys children -> 2 <= num_children n -> header_ok n ->
  (forall c2 type hd ks cs, child_at NODE4 n keys children c2 (Inner type hd ks cs) -> header_ok hd) ->
  0 <= pos < num_children n -> keys.[pos] = Some c -> removal NODE4 n keys children c (remove_child4 n keys children pos).
Proof.
  intros Hl He Hh Hsub Hpos Hc. unfold remove_child4.
  destruct (delete_at_spec 4 n keys children pos c) as (n' & keys' & children' & -> & En' & Hl' & Hn & Hiff); [done|lia|done|done|]. cbn [mbind option_bind].
  destruct (Z.eqb_spec (num_children n') 1) as [E1|]; [right|left; apply (delete_at_removes NODE4 4); [by left|done..|cbn [enough]; lia|done]].
  destruct (ao_slot _ _ _ _ Hl' 0 ltac:(lia)) as (c' & ch' & Hk & _ & Hx). rewrite Hx. cbn [mjoin option_join mbind option_bind].
  destruct (Hiff c' ch') as [[Hne Hch] _]; [exists 0; split; [lia|done]|]. exists c', ch'. split; [done|]. split; [done|]. split.
  - destruct ch' as [l|type hd ks cs]; [done|]. rewrite Hk. cbn [mbind option_bind].
    destruct (concatenate_spec n' c' hd) as (hd' & -> & Hj); [by subst n'|by eapply Hsub|]. exists hd'. subst n'. done.
  - intros c2 ch2 N Hch2. destruct (Hiff c2 ch2) as [_ (i & Hi & Hk2 & Hx2)]; [by split|]. assert (i = 0) as -> by lia. split; congruence.
Qed.

Lemma remove_child_spec type n keys children c ch l : layout type n keys children -> enough type n children -> header_ok n ->
  (forall c2 type' hd ks cs, child_at type n keys children c2 (Inner type' hd ks cs) -> header_ok hd) ->
  child_at type n keys children c ch -> find_child type n keys children c = Some (Some l) ->
  removal type n keys children c (remove_child type n keys children c l).
Proof.
  intros Hl He Hh Hsub Hch Hf. pose proof (child_at_byte _ _ _ _ _ _ Hl Hch) as Hb. destruct type; cbn [remove_child].
  - destruct (find_child_arr NODE4 n keys children c l ltac:(by left) Hl Hf). by apply remove_child4_spec.
  - left. destruct (find_child_arr NODE16 n keys children c l ltac:(by right) Hl Hf). by apply remove_child16_spec.
  - left. by eapply remove_child48_spec.
  - left. by eapply remove_child256_spec.
Qed.
