(* ===== verification/ArtTree.v ===== *)
(** * ART: the tree (competitor/art/src/src/art.c)

    Search, insertion, deletion and iteration.  A write through [*ref] is the node an
    operation returns; a function that reads out of bounds or follows a null pointer
    returns [None]. *)

From S2P Require Import Prelude Words ArtNode.
Local Open Scope Z_scope.
Local Open Scope cxx_scope.

(** [art_tree]; [size] is 64 bits wide. *)
Record art_tree := mkTree { root : option art_node; art_size : Z }.

Definition art_tree_init : art_tree := mkTree None 0.

(** [memcmp]: only whether the result is 0 is used. *)
Fixpoint memcmp (a b : list Z) (n : nat) : Z :=
  match n, a, b with
  | S n, x :: a, y :: b => if x =? y then memcmp a b n else if x <? y then -1 else 1
  | _, _, _ => 0
  end.

(** A function on nodes at [children[i]], not null; the function is mapped over the
    array so that a recursion through it is structural. *)
Definition below {A} (f : art_node -> option A) (children : list (option art_node)) (i : Z) : option A :=
  mjoin ((List.map (fun o => match o with Some ch => f ch | None => None end) children).[i]).

(** ** Prefixes and leaves *)

(** The loop [for (; idx < max_cmp; idx++) if (a[x + idx] != b[y + idx]) return idx; return idx]. *)
Definition mismatch (a : list Z) (x : Z) (b : list Z) (y : Z) (idx max_cmp : Z) : option Z :=
  loop (S (Z.to_nat (max_cmp - idx))) (fun idx =>
    if idx <? max_cmp then
      u ← a.[x + idx]; v ← b.[y + idx];
      if u =? v then Some (inl (idx + 1)) else Some (inr idx)
    else Some (inr idx)) idx.

Definition check_prefix (n : art_header) (key : list Z) (depth : Z) : option Z :=
  mismatch (partial n) 0 key depth 0 (Z.min (Z.min (partial_len n) MAX_PREFIX_LEN) (zlen key - depth)).

(** 0 on success. *)
Definition leaf_matches (n : art_leaf) (key : list Z) : Z :=
  if negb (zlen (leaf_key n) =? zlen key) then 1 else memcmp (leaf_key n) key (length key).

Definition leaf_prefix_matches (n : art_leaf) (prefix : list Z) : Z :=
  if zlen (leaf_key n) <? zlen prefix then 1 else memcmp (leaf_key n) prefix (length prefix).

Definition longest_common_prefix (l1 l2 : art_leaf) (depth : Z) : option Z :=
  mismatch (leaf_key l1) depth (leaf_key l2) depth 0 (Z.min (zlen (leaf_key l1)) (zlen (leaf_key l2)) - depth).

(** [while (!used(idx)) idx += step] *)
Definition first_used (used : Z -> option bool) (step start : Z) : option Z :=
  loop 256 (fun idx => b ← used idx; if (b : bool) then Some (inr idx) else Some (inl (idx + step))) start.

Fixpoint minimum (n : art_node) : option art_leaf :=
  match n with
  | Leaf l => Some l
  | Inner NODE4 _ _ children | Inner NODE16 _ _ children => below minimum children 0
  | Inner NODE48 _ keys children =>
      idx ← first_used (fun i => k ← keys.[i]; Some (negb (k =? 0))) 1 0;
      k ← keys.[idx]; below minimum children (k - 1)
  | Inner NODE256 _ _ children =>
      idx ← first_used (fun i => ch ← children.[i]; Some (match ch with Some _ => true | None => false end)) 1 0;
      below minimum children idx
  end.

Fixpoint maximum (n : art_node) : option art_leaf :=
  match n with
  | Leaf l => Some l
  | Inner NODE4 n _ children | Inner NODE16 n _ children => below maximum children (num_children n - 1)
  | Inner NODE48 _ keys children =>
      idx ← first_used (fun i => k ← keys.[i]; Some (negb (k =? 0))) (-1) 255;
      k ← keys.[idx]; below maximum children (k - 1)
  | Inner NODE256 _ _ children =>
      idx ← first_used (fun i => ch ← children.[i]; Some (match ch with Some _ => true | None => false end)) (-1) 255;
      below maximum children idx
  end.

Definition prefix_mismatch (n : art_node) (h : art_header) (key : list Z) (depth : Z) : option Z :=
  let max_cmp := Z.min (Z.min MAX_PREFIX_LEN (partial_len h)) (zlen key - depth) in
  idx ← mismatch (partial h) 0 key depth 0 max_cmp;
  if idx <? max_cmp then Some idx
  else if MAX_PREFIX_LEN <? partial_len h then
    l ← minimum n;
    mismatch (leaf_key l) depth key depth idx (Z.min (zlen (leaf_key l)) (zlen key) - depth)
  else Some idx.

(** ** Search *)

(** One turn of the loop over a non-null node: the child and its depth, or the result. *)
Definition search_step (key : list Z) (n : art_node) (depth : Z) : option ((option art_node * Z) + Z) :=
  match n with
  | Leaf l => Some (inr (if leaf_matches l key =? 0 then leaf_value l else 0))
  | Inner type h keys children =>
      miss ← (if partial_len h =? 0 then Some false else p ← check_prefix h key depth; Some (negb (p =? Z.min MAX_PREFIX_LEN (partial_len h))));
      if (miss : bool) then Some (inr 0)
      else
        let depth := depth + partial_len h in
        c ← key.[depth];
        child ← find_child type h keys children c;
        next ← match child with Some i => children.[i] | None => Some None end;
        Some (inl (next, depth + 1))
  end.

Definition art_search (t : art_tree) (key : list Z) : option Z :=
  loop (S (S (length key))) (fun '(n, depth) => match n with None => Some (inr 0) | Some n => search_step key n depth end) (root t, 0).

(** ** Insertion *)

Definition make_leaf (key : list Z) (value : Z) : art_node := Leaf (mkLeaf key value).

(** [add_child4] on a node just made. *)
Definition into4 (n : art_node) (c : Z) (child : art_node) : option art_node :=
  match n with Inner _ n keys children => add_child4 n keys children c child | Leaf _ => None end.

(** A new NODE4 with a prefix copied from [src + from]. *)
Definition new_node4 (src : list Z) (from len : Z) : option art_node :=
  p ← memcpy (partial empty_header) 0 src from (Z.min MAX_PREFIX_LEN len);
  Some (Inner NODE4 (mkHeader len 0 p) (empty_keys NODE4) (empty_children NODE4)).

(** The split of a leaf. *)
Definition split_leaf (l : art_leaf) (key : list Z) (value depth : Z) : option art_node :=
  longest_prefix ← longest_common_prefix l (mkLeaf key value) depth;
  new_node ← new_node4 key depth longest_prefix;
  c1 ← (leaf_key l).[depth + longest_prefix];
  new_node ← into4 new_node c1 (Leaf l);
  c2 ← key.[depth + longest_prefix];
  into4 new_node c2 (make_leaf key value).

(** The split of the prefix of a node.  The node is a child of the new one before its
    prefix is cut in place; here it is cut first. *)
Definition split_prefix (n : art_node) (type : node_type) (h : art_header) (keys : list Z) (children : list (option art_node))
    (key : list Z) (value depth prefix_diff : Z) : option art_node :=
  new_node ← new_node4 (partial h) 0 prefix_diff;
  let partial_len' := partial_len h - (prefix_diff + 1) in
  '(c, p) ← (if partial_len h <=? MAX_PREFIX_LEN then
      c ← (partial h).[prefix_diff];
      p ← memmove (partial h) 0 (prefix_diff + 1) (Z.min MAX_PREFIX_LEN partial_len');
      Some (c, p)
    else
      l ← minimum n;
      c ← (leaf_key l).[depth + prefix_diff];
      p ← memcpy (partial h) 0 (leaf_key l) (depth + prefix_diff + 1) (Z.min MAX_PREFIX_LEN partial_len');
      Some (c, p));
  new_node ← into4 new_node c (Inner type (mkHeader partial_len' (num_children h) p) keys children);
  c2 ← key.[depth + prefix_diff];
  into4 new_node c2 (make_leaf key value).

(** The node left at [*ref], the pointer returned and [*old]. *)
Fixpoint recursive_insert (n : art_node) (key : list Z) (value depth : Z) (replace : bool) {struct n} : option (art_node * Z * bool) :=
  match n with
  | Leaf l =>
      if leaf_matches l key =? 0 then
        Some (Leaf (if replace then mkLeaf (leaf_key l) value else l), leaf_value l, true)
      else new_node ← split_leaf l key value depth; Some (new_node, 0, false)
  | Inner type h keys children =>
      diff ← (if partial_len h =? 0 then Some None
        else prefix_diff ← prefix_mismatch n h key depth; Some (if partial_len h <=? prefix_diff then None else Some prefix_diff));
      match diff with
      | Some prefix_diff => new_node ← split_prefix n type h keys children key value depth prefix_diff; Some (new_node, 0, false)
      | None =>
          let depth := depth + partial_len h in
          c ← key.[depth];
          child ← find_child type h keys children c;
          match child with
          | Some i =>
              '(ch, r, old) ← below (fun ch => recursive_insert ch key value (depth + 1) replace) children i;
              children ← wr children i (Some ch);
              Some (Inner type h keys children, r, old)
          | None => n ← add_child type h keys children c (make_leaf key value); Some (n, 0, false)
          end
      end
  end.

(** [art_insert] and [art_insert_no_replace]: the tree and the pointer returned. *)
Definition insert_with (replace : bool) (t : art_tree) (key : list Z) (value : Z) : option (art_tree * Z) :=
  '(n, r, old) ← match root t with None => Some (make_leaf key value, 0, false) | Some n => recursive_insert n key value 0 replace end;
  Some (mkTree (Some n) (if (old : bool) then art_size t else (art_size t + 1) mod 2 ^ 64), r).

Definition art_insert : art_tree -> list Z -> Z -> option (art_tree * Z) := insert_with true.
Definition art_insert_no_replace : art_tree -> list Z -> Z -> option (art_tree * Z) := insert_with false.

(** ** Deletion *)

(** The node left at [*ref] and the leaf taken out. *)
Fixpoint recursive_delete (n : art_node) (key : list Z) (depth : Z) {struct n} : option (option art_node * option art_leaf) :=
  match n with
  | Leaf l => Some (if leaf_matches l key =? 0 then (None, Some l) else (Some n, None))
  | Inner type h keys children =>
      miss ← (if partial_len h =? 0 then Some false else p ← check_prefix h key depth; Some (negb (p =? Z.min MAX_PREFIX_LEN (partial_len h))));
      if (miss : bool) then Some (Some n, None)
      else
        let depth := depth + partial_len h in
        c ← key.[depth];
        child ← find_child type h keys children c;
        match child with
        | None => Some (Some n, None)
        | Some i =>
            ch ← mjoin (children.[i]);
            match ch with
            | Leaf l =>
                if leaf_matches l key =? 0 then n ← remove_child type h keys children c i; Some (Some n, Some l)
                else Some (Some n, None)
            | Inner _ _ _ _ =>
                '(ch, l) ← below (fun ch => recursive_delete ch key (depth + 1)) children i;
                children ← wr children i ch;
                Some (Some (Inner type h keys children), l)
            end
        end
  end.

(** The tree and the value pointer, 0 when there was no such key. *)
Definition art_delete (t : art_tree) (key : list Z) : option (art_tree * Z) :=
  match root t with
  | None => Some (t, 0)
  | Some n =>
      '(n, l) ← recursive_delete n key 0;
      Some (match l with
            | Some l => (mkTree n ((art_size t - 1) mod 2 ^ 64), leaf_value l)
            | None => (mkTree n (art_size t), 0)
            end)
  end.

(** ** Iteration

    A callback updates the data it is given and returns 0 to go on. *)
Section iteration.
Context {D : Type} (cb : D -> list Z -> Z -> D * Z).

(** The loops of [recursive_iter]: slot [i] is the index of a child, or is skipped. *)
Definition iter_slots (fs : list (D -> option (D * Z))) (slot : Z -> option (option Z)) (hi : Z) (data : D) : option (D * Z) :=
  loop (S (Z.to_nat hi)) (fun '(i, data) =>
    if i <? hi then
      s ← slot i;
      match s with
      | None => Some (inl (i + 1, data))
      | Some j =>
          f ← fs.[j];
          '(data, res) ← f data;
          if res =? 0 then Some (inl (i + 1, data)) else Some (inr (data, res))
      end
    else Some (inr (data, 0))) (0, data).

Fixpoint recursive_iter (n : art_node) (data : D) {struct n} : option (D * Z) :=
  match n with
  | Leaf l => Some (cb data (leaf_key l) (leaf_value l))
  | Inner type h keys children =>
      let fs := List.map (fun o => match o with Some ch => recursive_iter ch | None => fun data => Some (data, 0) end) children in
      match type with
      | NODE4 | NODE16 => iter_slots fs (fun i => Some (Some i)) (num_children h) data
      | NODE48 => iter_slots fs (fun i => k ← keys.[i]; Some (if k =? 0 then None else Some (k - 1))) 256 data
      | NODE256 => iter_slots fs (fun i => ch ← children.[i]; Some (match ch with Some _ => Some i | None => None end)) 256 data
      end
  end.

Definition art_iter (t : art_tree) (data : D) : option (D * Z) :=
  match root t with None => Some (data, 0) | Some n => recursive_iter n data end.

Definition iter_prefix_step (key : list Z) (data : D) (n : art_node) (depth : Z) : option ((option art_node * Z) + (D * Z)) :=
  match n with
  | Leaf l => Some (inr (if leaf_prefix_matches l key =? 0 then cb data (leaf_key l) (leaf_value l) else (data, 0)))
  | Inner type h keys children =>
      if depth =? zlen key then
        l ← minimum n;
        if leaf_prefix_matches l key =? 0 then r ← recursive_iter n data; Some (inr r) else Some (inr (data, 0))
      else
        stop ← (if partial_len h =? 0 then Some None
          else
            prefix_len ← prefix_mismatch n h key depth;
            let prefix_len := if partial_len h <? prefix_len then partial_len h else prefix_len in
            if prefix_len =? 0 then Some (Some (data, 0))
            else if depth + prefix_len =? zlen key then r ← recursive_iter n data; Some (Some r)
            else Some None);
        match stop with
        | Some r => Some (inr r)
        | None =>
            let depth := depth + partial_len h in
            c ← key.[depth];
            child ← find_child type h keys children c;
            next ← match child with Some i => children.[i] | None => Some None end;
            Some (inl (next, depth + 1))
        end
  end.

Definition art_iter_prefix (t : art_tree) (key : list Z) (data : D) : option (D * Z) :=
  loop (S (S (length key))) (fun '(n, depth) => match n with None => Some (inr (data, 0)) | Some n => iter_prefix_step key data n depth end) (root t, 0).
End iteration.

(** ** Sizes in bytes on a 64-bit machine *)

Definition node_bytes (type : node_type) : Z := match type with NODE4 => 56 | NODE16 => 160 | NODE48 => 656 | NODE256 => 2064 end.

Definition art_leaf_size (n : art_leaf) : Z := 16 + zlen (leaf_key n).

(** Every slot that is not null counts, in use or not. *)
Fixpoint art_node_size (n : art_node) : Z :=
  match n with
  | Leaf l => art_leaf_size l
  | Inner type _ _ children =>
      node_bytes type + List.fold_right Z.add 0 (List.map (fun o => match o with Some ch => art_node_size ch | None => 0 end) children)
  end.

Definition art_tree_size (t : art_tree) : Z := 16 + match root t with Some n => art_node_size n | None => 16 end.
