(* ===== verification/ArtInv.v ===== *)
(** * ART: the invariant of the tree and search (competitor/art/src/src/art.c)

    Every key below a node begins with the path of the node; an inner node extends it
    by its compressed prefix, of which at most ten bytes are stored, and each child by
    its byte.  All keys have the same length, as in the benchmark. *)

From S2P Require Import Prelude Words ArtNode ArtLayout ArtAdd ArtRemove ArtTree.
Local Open Scope Z_scope.
Local Open Scope cxx_scope.

(** ** Lists of bytes *)

Lemma rd_prefix (p k : list Z) i : p `prefix_of` k -> i < zlen p -> k.[i] = p.[i].
Proof. intros [r ->] Hi. by apply rd_app_lt. Qed.

Lemma prefix_rd (p k : list Z) : zlen p <= zlen k -> (forall i, 0 <= i < zlen p -> k.[i] = p.[i]) -> p `prefix_of` k.
Proof.
  intros Hz H. exists (drop (length p) k). rewrite <-(take_drop (length p) k) at 1. f_equal. apply list_eq_rd.
  - unfold zlen in *. rewrite length_take. lia.
  - intros i Hi. assert (Hi' : 0 <= i < zlen p) by (unfold zlen in *; rewrite length_take in Hi; lia). rewrite <-H by done.
    unfold rd. destruct (Z.leb_spec 0 i); [|lia]. apply lookup_take_lt. unfold zlen in *. lia.
Qed.

(** The bytes [mismatch] finds equal, and whether a difference stopped it. *)
Lemma mismatch_spec a x b y idx max : 0 <= idx -> 0 <= x + idx -> 0 <= y + idx -> x + max <= zlen a -> y + max <= zlen b ->
  exists r, mismatch a x b y idx max = Some r /\ idx <= r <= Z.max idx max /\ (forall i, idx <= i < r -> a.[x + i] = b.[y + i]) /\
    (r < max -> a.[x + r] <> b.[y + r]).
Proof.
  intros H0 Hx Hy Ha Hb. unfold mismatch. match goal with |- context [loop ?fl ?body _] =>
    destruct (loop_spec (fun i => idx <= i <= Z.max idx max /\ forall j, idx <= j < i -> a.[x + j] = b.[y + j])
      (fun r => idx <= r <= Z.max idx max /\ (forall i, idx <= i < r -> a.[x + i] = b.[y + i]) /\ (r < max -> a.[x + r] <> b.[y + r]))
      (fun i => Z.max idx max - i) body) with (fuel := fl) (s := idx) as (r & E & Hr) end; [|split; [lia|intros; lia]|lia|lia|by exists r].
  intros i [Hi Hlow]. destruct (Z.ltb_spec i max); [|split; [done|]; split; [done|lia]].
  destruct (rd_in a (x + i)) as [u Hu]; [lia|]. destruct (rd_in b (y + i)) as [v Hv]; [lia|]. rewrite Hu, Hv. cbn [mbind option_bind].
  destruct (Z.eqb_spec u v) as [->|Hne].
  - split; [|lia]. split; [lia|]. intros j Hj. destruct (Z.eq_dec j i) as [->|]; [congruence|]. apply Hlow. lia.
  - split; [lia|]. split; [done|]. intros _. congruence.
Qed.

Lemma memcmp_eq a b : length a = length b -> memcmp a b (length b) = 0 <-> a = b.
Proof.
  revert b. induction a as [|x a IH]; intros [|y b] Hl; try done. cbn [length memcmp]. destruct (Z.eqb_spec x y) as [->|Hne].
  - rewrite IH by (cbn in Hl; lia). split; [by intros ->|by intros [= ->]].
  - split; [by destruct (x <? y)|by intros [= ? _]].
Qed.

Lemma leaf_matches_spec l key : (leaf_matches l key =? 0) = bool_decide (leaf_key l = key).
Proof.
  unfold leaf_matches. destruct (Z.eqb_spec (zlen (leaf_key l)) (zlen key)) as [E|Hne]; cbn [negb].
  - assert (length (leaf_key l) = length key) by (unfold zlen in E; lia). pose proof (memcmp_eq _ _ H) as Hm. apply eq_true_iff_eq.
    by rewrite Z.eqb_eq, bool_decide_eq_true.
  - symmetry. apply bool_decide_eq_false. intros E. by rewrite E in Hne.
Qed.

Lemma below_eq {A} (f : art_node -> option A) children i ch : children.[i] = Some (Some ch) -> below f children i = f ch.
Proof.
  intros H. unfold below, rd in *. destruct (0 <=? i); [|done]. rewrite list_lookup_fmap, H. done.
Qed.

(** ** The invariant *)

(** The stored prefix agrees with the path [q]. *)
Definition stores (h : art_header) (q : list Z) : Prop :=
  header_ok h /\ partial_len h = zlen q /\ forall i, 0 <= i < Z.min MAX_PREFIX_LEN (zlen q) -> (partial h).[i] = q.[i].

Inductive art_ok (K : Z) : list Z -> art_node -> Prop :=
| art_ok_leaf p l :
    zlen (leaf_key l) = K -> Forall byte (leaf_key l) -> p `prefix_of` leaf_key l -> art_ok K p (Leaf l)
| art_ok_inner p q type h keys children :
    stores h q -> layout type h keys children -> enough type h children -> zlen p + zlen q < K ->
    (forall c ch, child_at type h keys children c ch -> art_ok K (p ++ q ++ [c]) ch) ->
    art_ok K p (Inner type h keys children).

(** The value a key has below a node. *)
Inductive holds : art_node -> list Z -> Z -> Prop :=
| holds_leaf l : holds (Leaf l) (leaf_key l) (leaf_value l)
| holds_inner type h keys children c ch k v :
    child_at type h keys children c ch -> holds ch k v -> holds (Inner type h keys children) k v.

Lemma holds_leaf_inv l k v : holds (Leaf l) k v -> k = leaf_key l /\ v = leaf_value l.
Proof. by inversion 1. Qed.

Lemma holds_inner_inv type h keys children k v : holds (Inner type h keys children) k v ->
  exists c ch, child_at type h keys children c ch /\ holds ch k v.
Proof. inversion 1; subst. eauto. Qed.

Lemma holds_path K p n k v : art_ok K p n -> holds n k v -> p `prefix_of` k /\ zlen k = K /\ Forall byte k.
Proof.
  intros Hok. revert k v. induction Hok as [p l Hz Hb Hp|p q type h keys children Hs Hl He Hlt Hch IH]; intros k v H.
  - by apply holds_leaf_inv in H as [-> _].
  - apply holds_inner_inv in H as (c & ch & Hc & H). destruct (IH c ch Hc k v H) as (Hp & Hz & Hb). split; [|done].
    etrans; [|exact Hp]. apply prefix_app_r. done.
Qed.

(** Below an inner node, the byte after the path selects the child. *)
Lemma holds_child K p q type h keys children k v : (forall c ch, child_at type h keys children c ch -> art_ok K (p ++ q ++ [c]) ch) ->
  holds (Inner type h keys children) k v ->
  exists c ch, child_at type h keys children c ch /\ holds ch k v /\ (p ++ q) `prefix_of` k /\ k.[zlen p + zlen q] = Some c.
Proof.
  intros Hch H. apply holds_inner_inv in H as (c & ch & Hc & H). destruct (holds_path _ _ _ _ _ (Hch c ch Hc) H) as (Hp & _).
  exists c, ch. split; [done|]. split; [done|]. rewrite app_assoc in Hp. split; [etrans; [|exact Hp]; by apply prefix_app_r|].
  rewrite (rd_prefix _ _ _ Hp) by (rewrite !zlen_app; change (zlen [c]) with 1; lia).
  rewrite rd_app_ge by (rewrite zlen_app; lia). rewrite zlen_app. by replace (zlen p + zlen q - (zlen p + zlen q)) with 0 by lia.
Qed.

Lemma holds_fun K p n k v v' : art_ok K p n -> holds n k v -> holds n k v' -> v = v'.
Proof.
  intros Hok. revert v v'. induction Hok as [p l Hz Hb Hp|p q type h keys children Hs Hl He Hlt Hch IH]; intros v v' H H'.
  - apply holds_leaf_inv in H as [_ ->]. by apply holds_leaf_inv in H' as [_ ->].
  - destruct (holds_child _ _ _ _ _ _ _ _ _ Hch H) as (c & ch & Hc & Hk & _ & Ek), (holds_child _ _ _ _ _ _ _ _ _ Hch H') as (c' & ch' & Hc' & Hk' & _ & Ek').
    assert (c' = c) as -> by congruence. rewrite (child_at_fun _ _ _ _ _ _ _ Hl Hc' Hc) in Hk'. exact (IH c ch Hc _ _ Hk Hk').
Qed.

(** A node with enough children has one. *)
Lemma enough_child type h keys children : layout type h keys children -> enough type h children -> exists c ch, child_at type h keys children c ch.
Proof.
  intros Hl He. destruct type; cbn [layout enough child_at] in *.
  - destruct (ao_slot _ _ _ _ Hl 0 ltac:(lia)) as (k & x & Hk & _ & Hx). exists k, x, 0. split; [lia|done].
  - destruct (ao_slot _ _ _ _ Hl 0 ltac:(lia)) as (k & x & Hk & _ & Hx). exists k, x, 0. split; [lia|done].
  - destruct (cnt_pos_ex (used keys) 0 256) as (c & Hc & Hu); [pose proof (io_num _ _ _ Hl) as E; change (num_children h = cnt (used keys) 0 256) in E; lia|].
    destruct (rd_in keys c) as [k Hk]; [by rewrite (io_keys _ _ _ Hl)|]. rewrite (used_rd _ _ _ Hk) in Hu. destruct (Z.eqb_spec k 0); [done|].
    destruct (io_slot _ _ _ Hl c k Hk) as (_ & x & Hx); [done|]. by exists c, x, k.
  - destruct (cnt_pos_ex (filled children) 0 256) as (c & Hc & Hu); [lia|]. rewrite filled_rd in Hu. destruct (children.[c]) as [[x|]|] eqn:E; [by exists c, x|done..].
Qed.

(** ** The header and the rest of a node *)

Lemma stores_same h h' q : stores h q -> same_prefix h h' -> stores h' q.
Proof.
  intros ([Hz H0] & Hl & Hp) (El & Ez & Ep). split; [split; [done|lia]|]. split; [lia|]. intros i Hi. rewrite Ep by lia. by apply Hp.
Qed.

(** Layout and children depend on the header only by the count. *)
Lemma layout_header type h h' keys children : num_children h' = num_children h -> layout type h keys children -> layout type h' keys children.
Proof.
  intros E Hl. destruct type; cbn [layout] in *; destruct Hl; constructor; rewrite ?E; done.
Qed.

Lemma enough_header type h h' children : num_children h' = num_children h -> enough type h children -> enough type h' children.
Proof. intros E. destruct type; cbn [enough]; rewrite ?E; done. Qed.

Lemma child_at_header type h h' keys children c ch : num_children h' = num_children h -> child_at type h' keys children c ch <-> child_at type h keys children c ch.
Proof. intros E. destruct type; cbn [child_at]; rewrite ?E; done. Qed.

Lemma holds_ext type h keys children type' h' keys' children' :
  (forall c ch, child_at type' h' keys' children' c ch <-> child_at type h keys children c ch) ->
  forall k v, holds (Inner type' h' keys' children') k v <-> holds (Inner type h keys children) k v.
Proof.
  intros H k v. split; intros Hh; apply holds_inner_inv in Hh as (c & ch & Hc & Hh); eapply holds_inner; [by apply H|done|by apply H|done].
Qed.

(** ** The first leaf *)

Lemma first_used_spec used step start target : (step = 1 \/ step = -1) -> 0 <= (target - start) * step < 256 ->
  used target = Some true -> (forall j, 0 <= (j - start) * step <= (target - start) * step -> exists b, used j = Some b) ->
  exists i, first_used used step start = Some i /\ used i = Some true /\ 0 <= (i - start) * step <= (target - start) * step.
Proof.
  intros Hs Ht Hu Hdef. unfold first_used. match goal with |- context [loop ?fl ?body _] =>
    destruct (loop_spec (fun i => 0 <= (i - start) * step <= (target - start) * step) (fun i => used i = Some true /\ 0 <= (i - start) * step <= (target - start) * step)
      (fun i => (target - i) * step) body) with (fuel := fl) (s := start) as (r & E & Hr) end; [|lia|lia|lia|by exists r].
  intros i Hi. destruct (Hdef i Hi) as [b Hb]. rewrite Hb. cbn [mbind option_bind]. destruct b; [done|].
  assert (i <> target) by congruence. destruct Hs as [->| ->]; lia.
Qed.

(** [minimum] returns a leaf below the node. *)
Lemma minimum_spec K p n : art_ok K p n -> exists l, minimum n = Some l /\ holds n (leaf_key l) (leaf_value l).
Proof.
  induction 1 as [p l Hz Hb Hp|p q type h keys children Hs Hl He Hlt Hch IH]; [exists l; split; [done|constructor]|].
  assert (Hgo : forall c ch i, child_at type h keys children c ch -> children.[i] = Some (Some ch) ->
    exists l, below minimum children i = Some l /\ holds (Inner type h keys children) (leaf_key l) (leaf_value l)).
  { intros c ch i Hc Hx. destruct (IH c ch Hc) as (l & E & Hh). exists l. rewrite (below_eq _ _ _ _ Hx). split; [done|]. by eapply holds_inner. }
  assert (Harr : type = NODE4 \/ type = NODE16 -> exists c ch, child_at type h keys children c ch /\ children.[0] = Some (Some ch)).
  { intros [->| ->]; cbn [layout enough child_at] in *; destruct (ao_slot _ _ _ _ Hl 0 ltac:(lia)) as (k & x & Hk & _ & Hx); exists k, x; (split; [exists 0; split; [lia|done]|done]). }
  destruct (enough_child _ _ _ _ Hl He) as (c0 & ch0 & Hc0). pose proof (child_at_byte _ _ _ _ _ _ Hl Hc0) as Hb0. unfold byte in Hb0. destruct type; cbn [minimum].
  - destruct (Harr (or_introl eq_refl)) as (c & ch & Hc & Hx). by eapply Hgo.
  - destruct (Harr (or_intror eq_refl)) as (c & ch & Hc & Hx). by eapply Hgo.
  - match goal with |- context [first_used ?f _ _] => destruct (first_used_spec f 1 0 c0) as (i & -> & Hu & Hi) end; [by left|lia| | |].
    + destruct Hc0 as (k & Hk & Hne & _). rewrite Hk. cbn [mbind option_bind]. by destruct (Z.eqb_spec k 0).
    + intros j Hj. destruct (rd_in keys j) as [k ->]; [rewrite (io_keys _ _ _ Hl); lia|]. by eexists.
    + cbn [mbind option_bind]. destruct (keys.[i]) as [k|] eqn:Hk; [|done]. cbn [mbind option_bind] in *. destruct (Z.eqb_spec k 0); [done|].
      destruct (io_slot _ _ _ Hl i k Hk) as (_ & x & Hx); [done|]. eapply Hgo; [by exists k|done].
  - match goal with |- context [first_used ?f _ _] => destruct (first_used_spec f 1 0 c0) as (i & -> & Hu & Hi) end; [by left|lia| | |].
    + cbn [child_at] in Hc0. by rewrite Hc0.
    + intros j Hj. destruct (rd_in children j) as [o ->]; [rewrite (do_children _ _ Hl); lia|]. by eexists.
    + cbn [mbind option_bind]. destruct (children.[i]) as [[x|]|] eqn:Hx; [|done..]. by eapply Hgo.
Qed.

Lemma art_ok_depth K p n : art_ok K p n -> zlen p <= K.
Proof. destruct 1 as [p l <- _ [r ->]|p q type h keys children _ _ _ Hlt _]; [rewrite zlen_app; pose proof (zlen_nonneg r); lia|pose proof (zlen_nonneg q); lia]. Qed.

(** A child at another byte than that of the key does not hold the key. *)
Lemma other_child K p q type h keys children key c : (forall c ch, child_at type h keys children c ch -> art_ok K (p ++ q ++ [c]) ch) ->
  key.[zlen p + zlen q] = Some c -> forall c2 ch2 k v, c2 <> c -> child_at type h keys children c2 ch2 -> holds ch2 k v -> k <> key.
Proof.
  intros Hch Hc c2 ch2 k v Hne Hc2 Hh ->. destruct (holds_path _ _ _ _ _ (Hch c2 ch2 Hc2) Hh) as (Hp & _). apply Hne.
  rewrite app_assoc in Hp. rewrite (rd_prefix _ _ _ Hp) in Hc by (rewrite !zlen_app; change (zlen [c2]) with 1; lia).
  rewrite rd_app_ge in Hc by (rewrite zlen_app; lia). rewrite zlen_app in Hc. replace (zlen p + zlen q - (zlen p + zlen q)) with 0 in Hc by lia. by injection Hc.
Qed.

(** * Search

    The descent follows at most ten stored bytes of every prefix and trusts the rest;
    the leaf settles the question. *)

(** Whether the stored bytes of a prefix differ from the key. *)
Definition prefix_misses (h : art_header) (key : list Z) (depth : Z) : option bool :=
  if partial_len h =? 0 then Some false else p ← check_prefix h key depth; Some (negb (p =? Z.min MAX_PREFIX_LEN (partial_len h))).

Lemma prefix_misses_spec h p q key : stores h q -> zlen p + zlen q < zlen key ->
  exists miss, prefix_misses h key (zlen p) = Some miss /\ (miss = true -> ~ (p ++ q) `prefix_of` key).
Proof.
  intros ([Hz H0] & El & Hp) Hlt. unfold prefix_misses. pose proof (zlen_nonneg p). pose proof (zlen_nonneg q).
  destruct (Z.eqb_spec (partial_len h) 0); [by exists false|]. unfold check_prefix, MAX_PREFIX_LEN in *.
  destruct (mismatch_spec (partial h) 0 key (zlen p) 0 (Z.min (Z.min (partial_len h) 10) (zlen key - zlen p))) as (r & -> & Hr & Heq & Hne); [lia..|].
  cbn [mbind option_bind]. eexists. split; [done|]. rewrite negb_true_iff, Z.eqb_neq. intros N Hpre. apply Hne; [lia|].
  rewrite Z.add_0_l, Hp by lia. rewrite (rd_prefix _ _ _ Hpre) by (rewrite zlen_app; lia). rewrite rd_app_ge by lia. f_equal. lia.
Qed.

(** What the descent knows at a node whose path is [p]. *)
Definition at_node (K : Z) (key : list Z) (found : Z -> Prop) (s : option art_node * Z) : Prop :=
  match s with
  | (None, _) => forall v, ~ found v
  | (Some n, depth) => exists p, depth = zlen p /\ art_ok K p n /\ forall v, found v <-> holds n key v
  end.

Definition found_or_null (found : Z -> Prop) (r : Z) : Prop := found r \/ ((forall v, ~ found v) /\ r = 0).

Lemma leaf_settles l key (found : Z -> Prop) : (forall v, found v <-> holds (Leaf l) key v) -> found_or_null found (if leaf_matches l key =? 0 then leaf_value l else 0).
Proof.
  intros H. rewrite leaf_matches_spec. destruct (bool_decide_reflect (leaf_key l = key)) as [<-|Hne].
  - left. apply H. constructor.
  - right. split; [|done]. intros v Hv. apply H, holds_leaf_inv in Hv as [-> _]. done.
Qed.

(** The child the key selects keeps what is known. *)
Lemma descend K p q type h keys children key c : (forall c ch, child_at type h keys children c ch -> art_ok K (p ++ q ++ [c]) ch) ->
  layout type h keys children -> byte c -> key.[zlen p + zlen q] = Some c ->
  exists child, find_child type h keys children c = Some child /\
    match child with
    | None => forall ch v, ~ child_at type h keys children c ch /\ ~ holds (Inner type h keys children) key v
    | Some i => exists ch, child_at type h keys children c ch /\ children.[i] = Some (Some ch) /\ forall v, holds (Inner type h keys children) key v <-> holds ch key v
    end.
Proof.
  intros Hch Hl Hb Hc. destruct (find_child_spec type h keys children c Hl Hb) as (child & -> & Hr). exists child. split; [done|]. destruct child as [i|].
  - destruct Hr as (ch & Hcc & Hx). exists ch. split; [done|]. split; [done|]. intros v. split; [|by intros; eapply holds_inner].
    intros Hh. destruct (holds_child _ _ _ _ _ _ _ _ _ Hch Hh) as (c' & ch' & Hcc' & Hk & _ & Ek). assert (c' = c) as -> by congruence.
    by rewrite (child_at_fun _ _ _ _ _ _ _ Hl Hcc Hcc').
  - intros ch v. split; [done|]. intros Hh. destruct (holds_child _ _ _ _ _ _ _ _ _ Hch Hh) as (c' & ch' & Hcc' & Hk & _ & Ek).
    assert (c' = c) as -> by congruence. by apply (Hr ch').
Qed.

(** The byte of the key below an inner node. *)
Lemma key_byte K key i : zlen key = K -> Forall byte key -> 0 <= i < K -> exists c, key.[i] = Some c /\ byte c.
Proof.
  intros Hz Hb Hi. destruct (rd_in key i) as [c Hc]; [lia|]. exists c. split; [done|]. eapply list.Forall_forall; [done|]. apply rd_elem. by exists i.
Qed.

Lemma search_step_spec K key found n depth : zlen key = K -> Forall byte key -> at_node K key found (Some n, depth) ->
  match search_step key n depth with
  | Some (inl (n', depth')) => at_node K key found (n', depth') /\ depth < depth' <= K
  | Some (inr r) => found_or_null found r
  | None => False
  end.
Proof.
  intros Hz Hb (p & -> & Hok & Hf). inversion Hok as [? l Hl1 Hl2 Hl3|? q type h keys children Hs Hl He Hlt Hch]; subst n; subst.
  - by apply leaf_settles.
  - cbn [search_step]. destruct (prefix_misses_spec h p q key Hs Hlt) as (miss & E & Hmiss). unfold prefix_misses in E. rewrite E. cbn [mbind option_bind]. destruct miss.
    + right. split; [|done]. intros v Hv%Hf. destruct (holds_child _ _ _ _ _ _ _ _ _ Hch Hv) as (_ & _ & _ & _ & Hp & _). by apply Hmiss.
    + destruct Hs as (_ & -> & _). pose proof (zlen_nonneg p). pose proof (zlen_nonneg q).
      destruct (key_byte (zlen key) key (zlen p + zlen q)) as (c & Hc & Hbc); [done|done|lia|]. rewrite Hc. cbn [mbind option_bind].
      destruct (descend _ _ _ _ _ _ _ key c Hch Hl Hbc Hc) as (child & -> & Hr). cbn [mbind option_bind]. destruct child as [i|].
      * destruct Hr as (ch & Hcc & -> & Hiff). cbn [mbind option_bind]. split; [|lia]. exists (p ++ q ++ [c]). split; [rewrite !zlen_app; change (zlen [c]) with 1; lia|].
        split; [by apply Hch|]. intros v. by rewrite Hf, Hiff.
      * cbn [mbind option_bind]. split; [|lia]. intros v Hv%Hf. by destruct (Hr (Inner type h keys children) v).
Qed.

(** Search returns the value of the key, or null when no value is found. *)
Lemma art_search_spec K t key found : zlen key = K -> Forall byte key -> at_node K key found (root t, 0) ->
  exists r, art_search t key = Some r /\ found_or_null found r.
Proof.
  intros Hz Hb Hat. unfold art_search. match goal with |- context [loop ?fl ?body _] =>
    destruct (loop_spec (fun s => at_node K key found s /\ 0 <= snd s <= K) (found_or_null found)
      (fun s => match fst s with None => 0 | Some _ => K + 1 - snd s end) body) with (fuel := fl) (s := (root t, 0)) as (r & E & Hr) end.
  - intros [[n|] depth] [Hs Hd]; cbn [fst snd] in *; [|by right].
    pose proof (search_step_spec K key found n depth Hz Hb Hs) as Hst. destruct (search_step key n depth) as [[[n' depth']|r]|]; [|done|done].
    destruct Hst as [Hat' Hd']. cbn [fst snd]. split; [split; [done|lia]|]. destruct n'; lia.
  - split; [done|]. cbn [snd]. subst K. pose proof (zlen_nonneg key). lia.
  - cbn [fst snd]. subst K. unfold zlen. destruct (root t); lia.
  - cbn [fst snd]. subst K. pose proof (zlen_nonneg key). destruct (root t); lia.
  - by exists r.
Qed.
