(* ===== verification/ArtInsert.v ===== *)
(** * ART: insertion and deletion (competitor/art/src/src/art.c)

    Inserting a key keeps the invariant and changes the value of that key only, where
    a leaf is split, where a prefix is split, and where a node takes another child. *)

From S2P Require Import Prelude Words ArtNode ArtLayout ArtAdd ArtRemove ArtTree ArtInv.
Local Open Scope Z_scope.
Local Open Scope cxx_scope.

(** ** A new node with two children *)

Lemma into4_spec h keys children c ch : arr_ok 4 h keys children -> num_children h < 4 -> header_ok h -> byte c ->
  (forall i, 0 <= i < num_children h -> keys.[i] <> Some c) ->
  exists h' keys' children', into4 (Inner NODE4 h keys children) c ch = Some (Inner NODE4 h' keys' children') /\ arr_ok 4 h' keys' children' /\
    num_children h' = num_children h + 1 /\ same_prefix h h' /\
    forall c2 ch2, child_at NODE4 h' keys' children' c2 ch2 <-> (c2 = c /\ ch2 = ch) \/ child_at NODE4 h keys children c2 ch2.
Proof.
  intros Hl Hroom [Hz _] Hc Hnew. cbn [into4]. destruct (add4_room h keys children c ch Hl Hroom) as (idx & Hidx & ->). by apply (open_gap_spec NODE4 4).
Qed.

Lemma two_children K p q src from c1 ch1 c2 ch2 :
  0 <= from -> from + Z.min MAX_PREFIX_LEN (zlen q) <= zlen src -> (forall i, 0 <= i < Z.min MAX_PREFIX_LEN (zlen q) -> src.[from + i] = q.[i]) ->
  zlen p + zlen q < K -> byte c1 -> byte c2 -> c1 <> c2 -> art_ok K (p ++ q ++ [c1]) ch1 -> art_ok K (p ++ q ++ [c2]) ch2 ->
  exists n0 n1 n', new_node4 src from (zlen q) = Some n0 /\ into4 n0 c1 ch1 = Some n1 /\ into4 n1 c2 ch2 = Some n' /\ art_ok K p n' /\
    forall k v, holds n' k v <-> holds ch1 k v \/ holds ch2 k v.
Proof.
  intros Hf Hsrc Hq Hlt Hb1 Hb2 Hne Hok1 Hok2. pose proof (zlen_nonneg q). unfold new_node4.
  destruct (memcpy_spec (partial empty_header) 0 src from (Z.min MAX_PREFIX_LEN (zlen q))) as (part & -> & Hz & Hrd);
    [lia|done|unfold MAX_PREFIX_LEN; lia|change (zlen (partial empty_header)) with MAX_PREFIX_LEN; lia|done|]. cbn [mbind option_bind].
  change (zlen (partial empty_header)) with MAX_PREFIX_LEN in Hz. set (h0 := mkHeader (zlen q) 0 part).
  assert (Hs : stores h0 q).
  { split; [by split|]. split; [done|]. intros i Hi. cbn [h0 partial]. rewrite Hrd. destruct (Z.leb_spec 0 i), (Z.ltb_spec i (0 + Z.min MAX_PREFIX_LEN (zlen q))); try lia.
    cbn [andb]. rewrite <-Hq by done. f_equal. lia. }
  assert (Hl0 : arr_ok 4 h0 (empty_keys NODE4) (empty_children NODE4)) by (constructor; [done|done|cbn; lia|cbn; lia|cbn; lia]).
  destruct (into4_spec h0 _ _ c1 ch1 Hl0) as (h1 & k1 & cs1 & E1 & Hl1 & Hn1 & Hp1 & Hiff1); [cbn; lia|by destruct Hs|done|cbn; lia|].
  assert (Hs1 : stores h1 q) by by eapply stores_same. cbn [num_children h0] in Hn1.
  destruct (into4_spec h1 _ _ c2 ch2 Hl1) as (h2 & k2 & cs2 & E2 & Hl2 & Hn2 & Hp2 & Hiff2); [lia|by destruct Hs1|done| |].
  { intros i Hi Hk. destruct (ao_slot _ _ _ _ Hl1 i Hi) as (c & x & Hk' & _ & Hx). destruct (Hiff1 c x) as [[[-> _]|(j & Hj & _)] _]; [by exists i|congruence|cbn in Hj; lia]. }
  eexists _, _, _. split; [done|]. split; [exact E1|]. split; [exact E2|].
  assert (Hiff : forall c ch, child_at NODE4 h2 k2 cs2 c ch <-> (c = c1 /\ ch = ch1) \/ (c = c2 /\ ch = ch2)).
  { intros c ch. rewrite Hiff2, Hiff1. split; [|tauto]. intros [?|[?|(j & Hj & _)]]; [by right|by left|cbn in Hj; lia]. }
  split.
  - apply (art_ok_inner K p q); [by eapply stores_same|done|cbn [enough]; lia|done|]. by intros c ch [[-> ->]|[-> ->]]%Hiff.
  - intros k v. split.
    + intros Hh. apply holds_inner_inv in Hh as (c & ch & [[-> ->]|[-> ->]]%Hiff & Hh); [by left|by right].
    + intros [Hh|Hh]; (eapply holds_inner; [apply Hiff|exact Hh]); [by left|by right].
Qed.

(** ** What insertion does *)

Definition maps_to (n n' : art_node) (key : list Z) (value : Z) : Prop :=
  forall k v, holds n' k v <-> (k = key /\ v = value) \/ (k <> key /\ holds n k v).

Definition insert_result (K : Z) (p : list Z) (n : art_node) (key : list Z) (value : Z) (replace : bool) (out : option (art_node * Z * bool)) : Prop :=
  exists n' r old, out = Some (n', r, old) /\ art_ok K p n' /\
    ((old = true /\ holds n key r /\ maps_to n n' key (if replace then value else r)) \/
     (old = false /\ r = 0 /\ (forall v, ~ holds n key v) /\ maps_to n n' key value)).

Lemma new_leaf_ok K p key value : zlen key = K -> Forall byte key -> p `prefix_of` key -> art_ok K p (make_leaf key value).
Proof. intros. by constructor. Qed.

Lemma maps_to_add n n' key value : (forall v, ~ holds n key v) -> (forall k v, holds n' k v <-> holds n k v \/ holds (make_leaf key value) k v) -> maps_to n n' key value.
Proof.
  intros Hno Hiff k v. rewrite Hiff. split.
  - intros [Hh|[-> ->]%holds_leaf_inv]; [|by left]. right. split; [|done]. intros ->. by apply (Hno v).
  - intros [[-> ->]|[_ Hh]]; [right; constructor|by left].
Qed.

(** A path extended by the bytes up to a position. *)
Lemma path_step (k p : list Z) d c : p `prefix_of` k -> 0 <= d -> k.[zlen p + d] = Some c ->
  exists q, zlen q = d /\ (p ++ q ++ [c]) `prefix_of` k /\ forall i, 0 <= i < d -> q.[i] = k.[zlen p + i].
Proof.
  intros [r ->] Hd Hc. rewrite rd_app_ge in Hc by lia. replace (zlen p + d - zlen p) with d in Hc by lia. pose proof (rd_Some _ _ _ Hc) as Hr.
  exists (take (Z.to_nat d) r). split; [apply zlen_take; lia|]. split.
  - apply prefix_app. exists (drop (S (Z.to_nat d)) r). rewrite <-app_assoc. unfold rd in Hc. destruct (Z.leb_spec 0 d); [|lia].
    rewrite <-(take_drop_middle r (Z.to_nat d) c Hc) at 1. done.
  - intros i Hi. rewrite rd_app_ge by lia. replace (zlen p + i - zlen p) with i by lia. unfold rd. destruct (Z.leb_spec 0 i); [|lia]. apply lookup_take_lt. lia.
Qed.

(** ** Splitting a leaf *)

Lemma split_leaf_spec K p l key value : art_ok K p (Leaf l) -> p `prefix_of` key -> zlen key = K -> Forall byte key -> leaf_key l <> key ->
  exists n', split_leaf l key value (zlen p) = Some n' /\ art_ok K p n' /\ forall k v, holds n' k v <-> holds (Leaf l) k v \/ holds (make_leaf key value) k v.
Proof.
  intros Hok Hp Hz Hb Hne. inversion Hok as [? ? Hl1 Hl2 Hl3|]; subst. unfold split_leaf, longest_common_prefix. cbn [leaf_key].
  pose proof (zlen_nonneg p). assert (Hpz : zlen p <= zlen key) by (destruct Hp as [r ->]; rewrite zlen_app; pose proof (zlen_nonneg r); lia).
  destruct (mismatch_spec (leaf_key l) (zlen p) key (zlen p) 0 (Z.min (zlen (leaf_key l)) (zlen key) - zlen p)) as (d & -> & Hd & Heq & Hdiff); [lia..|].
  cbn [mbind option_bind].
  assert (Hlt : zlen p + d < zlen key).
  { destruct (Z.lt_ge_cases (zlen p + d) (zlen key)); [done|]. destruct Hne. apply list_eq_rd; [lia|]. intros i Hi. destruct (Z.lt_ge_cases i (zlen p)).
    - by rewrite (rd_prefix p (leaf_key l)), (rd_prefix p key).
    - replace i with (zlen p + (i - zlen p)) by lia. apply Heq. lia. }
  destruct (key_byte _ key (zlen p + d) eq_refl Hb) as (c2 & Hc2 & Hb2); [lia|]. destruct (key_byte (zlen key) (leaf_key l) (zlen p + d) Hl1 Hl2) as (c1 & Hc1 & Hb1); [lia|].
  destruct (path_step key p d c2 Hp) as (q & <- & Hq & Hqi); [lia|done|].
  destruct (path_step (leaf_key l) p (zlen q) c1 Hl3) as (q' & Eq' & Hq' & Hqi'); [lia|done|].
  assert (q' = q) as -> by (apply list_eq_rd; [done|]; intros i Hi; rewrite Hqi', Hqi by lia; apply Heq; lia).
  destruct (two_children (zlen key) p q key (zlen p) c1 (Leaf l) c2 (make_leaf key value)) as (n0 & n1 & n' & E0 & E1 & E2 & Hok' & Hiff); [lia|lia| |lia|done|done| | | |].
  - intros i Hi. symmetry. apply Hqi. lia.
  - intros ->. apply Hdiff; [lia|congruence].
  - by constructor.
  - by apply new_leaf_ok.
  - rewrite E0. cbn [mbind option_bind]. rewrite Hc1. cbn [mbind option_bind]. rewrite E1. cbn [mbind option_bind]. rewrite Hc2. cbn [mbind option_bind]. by exists n'.
Qed.

(** ** Splitting a prefix *)

Lemma split_at (q : list Z) d b : q.[d] = Some b -> exists q1 q2, q = q1 ++ [b] ++ q2 /\ zlen q1 = d.
Proof.
  intros Hb. pose proof (rd_Some _ _ _ Hb) as Hr. exists (take (Z.to_nat d) q), (drop (S (Z.to_nat d)) q). split; [|apply zlen_take; lia].
  unfold rd in Hb. destruct (Z.leb_spec 0 d); [|lia]. by rewrite <-(take_drop_middle q (Z.to_nat d) b Hb) at 1.
Qed.

(** The first leaf below a node shows its whole path. *)
Lemma minimum_path K p q type h keys children : stores h q -> layout type h keys children -> enough type h children -> zlen p + zlen q < K ->
  (forall c ch, child_at type h keys children c ch -> art_ok K (p ++ q ++ [c]) ch) ->
  exists l, minimum (Inner type h keys children) = Some l /\ zlen (leaf_key l) = K /\ forall i, 0 <= i < zlen q -> (leaf_key l).[zlen p + i] = q.[i].
Proof.
  intros Hs Hl He Hlt Hch. assert (Hok : art_ok K p (Inner type h keys children)) by (by apply (art_ok_inner K p q)).
  destruct (minimum_spec _ _ _ Hok) as (l & E & Hh). exists l. split; [done|]. split; [by apply (holds_path _ _ _ _ _ Hok Hh)|].
  destruct (holds_child _ _ _ _ _ _ _ _ _ Hch Hh) as (c & ch & _ & _ & Hp & _). intros i Hi. pose proof (zlen_nonneg p).
  rewrite (rd_prefix _ _ _ Hp) by (rewrite zlen_app; lia). rewrite rd_app_ge by lia. f_equal. lia.
Qed.

Lemma prefix_mismatch_spec K p q type h keys children key : stores h q -> layout type h keys children -> enough type h children -> zlen p + zlen q < K ->
  (forall c ch, child_at type h keys children c ch -> art_ok K (p ++ q ++ [c]) ch) -> zlen key = K ->
  exists d, prefix_mismatch (Inner type h keys children) h key (zlen p) = Some d /\ 0 <= d /\
    (forall i, 0 <= i < Z.min d (zlen q) -> q.[i] = key.[zlen p + i]) /\ (d < zlen q -> q.[d] <> key.[zlen p + d]).
Proof.
  intros Hs Hl He Hlt Hch Hz. destruct (minimum_path K p q type h keys children Hs Hl He Hlt Hch) as (l & El & Hlz & Hlk).
  destruct Hs as ([Hpz _] & Hpl & Hp). pose proof (zlen_nonneg p). pose proof (zlen_nonneg q). unfold prefix_mismatch, MAX_PREFIX_LEN in *. rewrite Hpl.
  destruct (mismatch_spec (partial h) 0 key (zlen p) 0 (Z.min (Z.min 10 (zlen q)) (zlen key - zlen p))) as (d & -> & Hd & Heq & Hne); [lia..|]. cbn [mbind option_bind].
  assert (Hq1 : forall i, 0 <= i < d -> q.[i] = key.[zlen p + i]) by (intros i Hi; rewrite <-Hp by lia; by rewrite <-Heq).
  destruct (Z.ltb_spec d (Z.min (Z.min 10 (zlen q)) (zlen key - zlen p))) as [Hlt1|Hge].
  - exists d. split; [done|]. split; [lia|]. split; [intros i Hi; apply Hq1; lia|]. intros _. rewrite <-Hp by lia. by apply Hne.
  - destruct (Z.ltb_spec 10 (zlen q)).
    + rewrite El. cbn [mbind option_bind].
      destruct (mismatch_spec (leaf_key l) (zlen p) key (zlen p) d (Z.min (zlen (leaf_key l)) (zlen key) - zlen p)) as (d2 & -> & Hd2 & Heq2 & Hne2); [lia..|].
      exists d2. split; [done|]. split; [lia|]. split.
      * intros i Hi. destruct (Z.lt_ge_cases i d); [apply Hq1; lia|]. rewrite <-Hlk by lia. apply Heq2. lia.
      * intros Hd3. rewrite <-Hlk by lia. apply Hne2. lia.
    + exists d. split; [done|]. split; [lia|]. split; [intros i Hi; apply Hq1; lia|lia].
Qed.

(** The node whose prefix lost the first [d + 1] bytes. *)
Lemma cut_ok K p q1 b q2 type h keys children h' : stores h (q1 ++ [b] ++ q2) -> layout type h keys children -> enough type h children ->
  zlen p + zlen (q1 ++ [b] ++ q2) < K -> (forall c ch, child_at type h keys children c ch -> art_ok K (p ++ (q1 ++ [b] ++ q2) ++ [c]) ch) ->
  num_children h' = num_children h -> stores h' q2 ->
  art_ok K (p ++ q1 ++ [b]) (Inner type h' keys children) /\ forall k v, holds (Inner type h' keys children) k v <-> holds (Inner type h keys children) k v.
Proof.
  intros Hs Hl He Hlt Hch En Hs'. split.
  - apply (art_ok_inner K _ q2); [done|by eapply layout_header|by eapply enough_header|rewrite !zlen_app in *; lia|].
    intros c ch Hc%(child_at_header _ _ _ _ _ _ _ En). specialize (Hch c ch Hc). by rewrite <-!app_assoc in *.
  - apply holds_ext. intros c ch. by apply child_at_header.
Qed.

Lemma split_prefix_spec K p q type h keys children key value d : stores h q -> layout type h keys children -> enough type h children -> zlen p + zlen q < K ->
  (forall c ch, child_at type h keys children c ch -> art_ok K (p ++ q ++ [c]) ch) -> p `prefix_of` key -> zlen key = K -> Forall byte key ->
  0 <= d < zlen q -> (forall i, 0 <= i < d -> q.[i] = key.[zlen p + i]) -> q.[d] <> key.[zlen p + d] ->
  exists n', split_prefix (Inner type h keys children) type h keys children key value (zlen p) d = Some n' /\ art_ok K p n' /\
    forall k v, holds n' k v <-> holds (Inner type h keys children) k v \/ holds (make_leaf key value) k v.
Proof.
  intros Hs Hl He Hlt Hch Hp Hz Hb Hd Hqk Hne. destruct (minimum_path K p q type h keys children Hs Hl He Hlt Hch) as (l & El & Hlz & Hlk).
  destruct (rd_in q d) as [b Hqd]; [lia|]. destruct (split_at q d b Hqd) as (q1 & q2 & -> & <-). set (q := q1 ++ [b] ++ q2) in *.
  pose proof (zlen_nonneg p). pose proof (zlen_nonneg q1). pose proof (zlen_nonneg q2). assert (Eq : zlen q = zlen q1 + 1 + zlen q2) by (unfold q; rewrite !zlen_app; change (zlen [b]) with 1; lia).
  assert (Hq1 : forall i, 0 <= i < zlen q1 -> q1.[i] = q.[i]) by (intros i Hi; unfold q; by rewrite rd_app_lt by lia).
  assert (Hq2 : forall i, 0 <= i -> q2.[i] = q.[zlen q1 + 1 + i]).
  { intros i Hi. unfold q. rewrite app_assoc, rd_app_ge by (rewrite zlen_app; change (zlen [b]) with 1; lia). f_equal. rewrite zlen_app. change (zlen [b]) with 1. lia. }
  pose proof Hs as ([Hpz _] & Hpl & Hpp). unfold MAX_PREFIX_LEN in *.
  destruct (key_byte K key (zlen p + zlen q1) Hz Hb) as (c2 & Hc2 & Hb2); [lia|].
  assert (Hbb : byte b).
  { assert (Hok : art_ok K p (Inner type h keys children)) by (by apply (art_ok_inner K p q)). destruct (minimum_spec _ _ _ Hok) as (l' & El' & Hh).
    assert (l' = l) as -> by congruence. destruct (holds_path _ _ _ _ _ Hok Hh) as (_ & _ & Hlb). eapply (list.Forall_forall); [exact Hlb|]. apply rd_elem.
    exists (zlen p + zlen q1). by rewrite Hlk, Hqd by lia. }
  (* the cut prefix *)
  assert (Hcut : exists pp, (if partial_len h <=? MAX_PREFIX_LEN then
      c ← (partial h).[zlen q1]; p ← memmove (partial h) 0 (zlen q1 + 1) (Z.min MAX_PREFIX_LEN (partial_len h - (zlen q1 + 1))); Some (c, p)
    else
      l ← minimum (Inner type h keys children); c ← (leaf_key l).[zlen p + zlen q1];
      p ← memcpy (partial h) 0 (leaf_key l) (zlen p + zlen q1 + 1) (Z.min MAX_PREFIX_LEN (partial_len h - (zlen q1 + 1))); Some (c, p)) = Some (b, pp) /\
    stores (mkHeader (partial_len h - (zlen q1 + 1)) (num_children h) pp) q2).
  { unfold MAX_PREFIX_LEN. destruct (Z.leb_spec (partial_len h) 10).
    - rewrite Hpp, Hqd by lia. cbn [mbind option_bind].
      destruct (memmove_spec (partial h) 0 (zlen q1 + 1) (Z.min 10 (partial_len h - (zlen q1 + 1)))) as (pp & -> & Hzp & Hr); [lia..|]. cbn [mbind option_bind].
      exists pp. split; [done|]. split; [split; cbn [partial partial_len]; [unfold MAX_PREFIX_LEN; lia|lia]|]. cbn [partial partial_len]. split; [lia|]. unfold MAX_PREFIX_LEN. intros i Hi.
      rewrite Hr. destruct (Z.leb_spec 0 i), (Z.ltb_spec i (0 + Z.min 10 (partial_len h - (zlen q1 + 1)))); try lia. cbn [andb]. rewrite Hpp, Hq2 by lia. f_equal. lia.
    - rewrite El. cbn [mbind option_bind]. rewrite Hlk, Hqd by lia. cbn [mbind option_bind].
      destruct (memcpy_spec (partial h) 0 (leaf_key l) (zlen p + zlen q1 + 1) (Z.min 10 (partial_len h - (zlen q1 + 1)))) as (pp & -> & Hzp & Hr); [lia..|]. cbn [mbind option_bind].
      exists pp. split; [done|]. split; [split; cbn [partial partial_len]; [unfold MAX_PREFIX_LEN; lia|lia]|]. cbn [partial partial_len]. split; [lia|]. unfold MAX_PREFIX_LEN. intros i Hi.
      rewrite Hr. destruct (Z.leb_spec 0 i), (Z.ltb_spec i (0 + Z.min 10 (partial_len h - (zlen q1 + 1)))); try lia. cbn [andb].
      replace (zlen p + zlen q1 + 1 + (i - 0)) with (zlen p + (zlen q1 + 1 + i)) by lia. by rewrite Hlk, Hq2 by lia. }
  destruct Hcut as (pp & Ecut & Hs2). destruct (cut_ok K p q1 b q2 type h keys children (mkHeader (partial_len h - (zlen q1 + 1)) (num_children h) pp) Hs Hl He Hlt Hch eq_refl Hs2) as [Hok1 Hiff1].
  destruct (path_step key p (zlen q1) c2 Hp) as (q1' & Eq1' & Hq1p & Hq1i); [lia|done|].
  assert (q1' = q1) as -> by (apply list_eq_rd; [done|]; intros i Hi; rewrite Hq1i, Hq1 by lia; symmetry; apply Hqk; lia).
  destruct (two_children K p q1 (partial h) 0 b (Inner type (mkHeader (partial_len h - (zlen q1 + 1)) (num_children h) pp) keys children) c2 (make_leaf key value))
    as (n0 & n1 & n' & E0 & E1 & E2 & Hok' & Hiff); [lia|unfold MAX_PREFIX_LEN; lia| |lia|done|done|congruence|done|by apply new_leaf_ok|].
  - unfold MAX_PREFIX_LEN. intros i Hi. rewrite Z.add_0_l, Hpp, Hq1 by lia. done.
  - unfold split_prefix. rewrite E0. cbn [mbind option_bind]. cbn zeta. rewrite Ecut. cbn [mbind option_bind]. rewrite E1. cbn [mbind option_bind]. rewrite Hc2. cbn [mbind option_bind].
    exists n'. split; [done|]. split; [done|]. intros k v. by rewrite Hiff, Hiff1.
Qed.

(** ** recursive_insert *)

(** Whether the prefix has to be split. *)
Definition prefix_splits (n : art_node) (h : art_header) (key : list Z) (depth : Z) : option (option Z) :=
  if partial_len h =? 0 then Some None
  else prefix_diff ← prefix_mismatch n h key depth; Some (if partial_len h <=? prefix_diff then None else Some prefix_diff).

Lemma prefix_splits_spec K p q type h keys children key : stores h q -> layout type h keys children -> enough type h children -> zlen p + zlen q < K ->
  (forall c ch, child_at type h keys children c ch -> art_ok K (p ++ q ++ [c]) ch) -> zlen key = K -> p `prefix_of` key ->
  exists diff, prefix_splits (Inner type h keys children) h key (zlen p) = Some diff /\
    match diff with
    | None => (p ++ q) `prefix_of` key
    | Some d => 0 <= d < zlen q /\ (forall i, 0 <= i < d -> q.[i] = key.[zlen p + i]) /\ q.[d] <> key.[zlen p + d]
    end.
Proof.
  intros Hs Hl He Hlt Hch Hz Hp. pose proof (zlen_nonneg p). pose proof (zlen_nonneg q).
  assert (Hwhole : (forall i, 0 <= i < zlen q -> q.[i] = key.[zlen p + i]) -> (p ++ q) `prefix_of` key).
  { intros Hi. apply prefix_rd; [rewrite zlen_app; lia|]. intros i Hr. rewrite zlen_app in Hr. destruct (Z.lt_ge_cases i (zlen p)).
    - rewrite rd_app_lt by lia. by apply rd_prefix.
    - rewrite rd_app_ge, Hi by lia. f_equal. lia. }
  unfold prefix_splits. destruct Hs as (Hh & Hpl & Hpp) eqn:Es. rewrite Hpl. destruct (Z.eqb_spec (zlen q) 0).
  - exists None. split; [done|]. apply Hwhole. intros; lia.
  - destruct (prefix_mismatch_spec K p q type h keys children key Hs Hl He Hlt Hch Hz) as (d & -> & Hd & Heq & Hne). cbn [mbind option_bind]. eexists. split; [done|].
    destruct (Z.leb_spec (zlen q) d).
    + apply Hwhole. intros i Hi. apply Heq. lia.
    + split; [lia|]. split; [intros i Hi; apply Heq; lia|by apply Hne].
Qed.

Lemma maps_to_child type h keys children children' c ch ch' key value : layout type h keys children ->
  child_at type h keys children c ch -> (forall v, holds (Inner type h keys children) key v <-> holds ch key v) ->
  (forall c2 ch2 k v, c2 <> c -> child_at type h keys children c2 ch2 -> holds ch2 k v -> k <> key) ->
  (forall c2 ch2, child_at type h keys children' c2 ch2 <-> (c2 = c /\ ch2 = ch') \/ (c2 <> c /\ child_at type h keys children c2 ch2)) ->
  maps_to ch ch' key value -> maps_to (Inner type h keys children) (Inner type h keys children') key value.
Proof.
  intros Hl Hc Hkey Hother Hiff Hm k v. split.
  - intros Hh. apply holds_inner_inv in Hh as (c2 & ch2 & Hc2 & Hh). apply Hiff in Hc2 as [[-> ->]|[Hne Hc2]].
    + apply Hm in Hh as [?|[Hk Hh]]; [by left|]. right. split; [done|]. by eapply holds_inner.
    + right. split; [by eapply Hother|]. by eapply holds_inner.
  - intros [[-> ->]|[Hk Hh]].
    + eapply holds_inner; [apply Hiff; by left|]. apply Hm. by left.
    + apply holds_inner_inv in Hh as (c2 & ch2 & Hc2 & Hh). destruct (decide (c2 = c)) as [->|Hne].
      * rewrite (child_at_fun _ _ _ _ _ _ _ Hl Hc2 Hc) in Hh. eapply holds_inner; [apply Hiff; by left|]. apply Hm. by right.
      * eapply holds_inner; [apply Hiff; by right|done].
Qed.

Lemma recursive_insert_spec K p n key value replace : art_ok K p n -> p `prefix_of` key -> zlen key = K -> Forall byte key ->
  insert_result K p n key value replace (recursive_insert n key value (zlen p) replace).
Proof.
  intros Hok. induction Hok as [p l Hl1 Hl2 Hl3|p q type h keys children Hs Hl He Hlt Hch IH]; intros Hp Hz Hb; cbn [recursive_insert].
  - rewrite leaf_matches_spec. destruct (bool_decide_reflect (leaf_key l = key)) as [Ek|Hne].
    + eexists _, _, _. split; [done|]. split; [by destruct replace; constructor|]. left. split; [done|]. rewrite <-Ek. split; [constructor|].
      intros k v. split.
      * intros Hh%holds_leaf_inv. destruct replace; cbn [leaf_key leaf_value] in Hh; by left.
      * intros [[-> ->]|[Hk Hh%holds_leaf_inv]]; [|by destruct Hh as [-> _]]. destruct replace; [exact (holds_leaf (mkLeaf (leaf_key l) value))|apply holds_leaf].
    + destruct (split_leaf_spec K p l key value) as (n' & -> & Hok' & Hiff); [by constructor|done..|]. cbn [mbind option_bind]. exists n', 0, false. split; [done|]. split; [done|].
      assert (Hno : forall v, ~ holds (Leaf l) key v) by (by intros v [-> _]%holds_leaf_inv). right. split; [done|]. split; [done|]. split; [done|]. by apply maps_to_add.
  - destruct (prefix_splits_spec K p q type h keys children key Hs Hl He Hlt Hch Hz Hp) as (diff & E & Hdiff). unfold prefix_splits in E. rewrite E. cbn [mbind option_bind].
    pose proof (zlen_nonneg p). pose proof (zlen_nonneg q). destruct diff as [d|].
    + destruct Hdiff as (Hd & Heq & Hne). destruct (split_prefix_spec K p q type h keys children key value d) as (n' & -> & Hok' & Hiff); [done..|]. cbn [mbind option_bind].
      exists n', 0, false. split; [done|]. split; [done|]. right.
      assert (Hno : forall v, ~ holds (Inner type h keys children) key v).
      { intros v Hv. destruct (holds_child _ _ _ _ _ _ _ _ _ Hch Hv) as (_ & _ & _ & _ & Hpq & _). apply Hne. rewrite (rd_prefix _ _ _ Hpq) by (rewrite zlen_app; lia).
        rewrite rd_app_ge by lia. f_equal. lia. }
      split; [done|]. split; [done|]. split; [done|]. by apply maps_to_add.
    + pose proof Hs as (_ & Hpl & _). rewrite Hpl. cbn zeta. destruct (key_byte K key (zlen p + zlen q) Hz Hb) as (c & Hc & Hbc); [lia|]. rewrite Hc. cbn [mbind option_bind].
      destruct (path_step key (p ++ q) 0 c Hdiff) as (r & Er & Hpc & _); [lia|rewrite zlen_app; by rewrite Z.add_0_r|].
      assert (r = []) as -> by (destruct r; [done|unfold zlen in Er; cbn in Er; lia]). cbn [app] in Hpc. rewrite <-app_assoc in Hpc.
      destruct (descend K p q type h keys children key c Hch Hl Hbc Hc) as (child & Ef & Hr). rewrite Ef. cbn [mbind option_bind]. destruct child as [i|].
      * destruct Hr as (ch & Hcc & Hx & Hkey). destruct (IH c ch Hcc Hpc Hz Hb) as (ch' & r & old & Er' & Hok' & Hres).
        rewrite !zlen_app in Er'. change (zlen [c]) with 1 in Er'. rewrite (below_eq _ _ _ _ Hx). replace (zlen p + zlen q + 1) with (zlen p + (zlen q + 1)) by lia. rewrite Er'. cbn [mbind option_bind].
        destruct (wr_in children i (Some ch')) as [children' Hw]; [by apply rd_Some in Hx|]. rewrite Hw. cbn [mbind option_bind].
        destruct (set_child_spec type h keys children c ch i ch' children' Hl Hcc Ef Hw) as (Hl' & He' & Hiff).
        pose proof (other_child K p q type h keys children key c Hch Hc) as Hother.
        exists (Inner type h keys children'), r, old. split; [done|]. split.
        { apply (art_ok_inner K p q); [done|done|by apply He'|done|]. intros c2 ch2 [[-> ->]|[_ Hc2]]%Hiff; [done|by apply Hch]. }
        destruct Hres as [(-> & Hh & Hm)|(-> & -> & Hno & Hm)]; [left|right].
        -- split; [done|]. split; [by eapply holds_inner|]. by eapply maps_to_child.
        -- split; [done|]. split; [done|]. split; [intros v Hv%Hkey; by apply (Hno v)|]. by eapply maps_to_child.
      * destruct (add_child_spec type h keys children c (make_leaf key value) Hl) as (type' & h' & keys' & children' & -> & Hl' & He' & Hp' & Hiff); [by destruct Hs|done|by intros x; destruct (Hr x 0)|].
        cbn [mbind option_bind]. eexists _, _, _. split; [done|]. split.
        { apply (art_ok_inner K p q); [by eapply stores_same|done|by apply He'|done|]. intros c2 ch2 [[-> ->]|Hc2]%Hiff; [by apply new_leaf_ok|by apply Hch]. }
        right. split; [done|]. split; [done|]. assert (Hno : forall v, ~ holds (Inner type h keys children) key v) by (intros v; by destruct (Hr (Inner type h keys children) v)).
        split; [done|]. apply maps_to_add; [done|]. intros k v. split.
        -- intros Hh. apply holds_inner_inv in Hh as (c2 & ch2 & [[-> ->]|Hc2]%Hiff & Hh); [by right|]. left. by eapply holds_inner.
        -- intros [Hh|Hh]; [|eapply holds_inner; [apply Hiff; by left|done]]. apply holds_inner_inv in Hh as (c2 & ch2 & Hc2 & Hh). eapply holds_inner; [apply Hiff; by right|done].
Qed.

(** * Deletion

    Deleting a key keeps the invariant, shrinking layouts and joining compressed paths
    on the way, and forgets that key only. *)

(** ** What deletion does *)

Definition forgets (n n' : art_node) (key : list Z) : Prop := forall k v, holds n' k v <-> k <> key /\ holds n k v.

Definition delete_result (K : Z) (p : list Z) (n : art_node) (key : list Z) (out : option (option art_node * option art_leaf)) : Prop :=
  exists n' l, out = Some (n', l) /\
    match l with
    | Some l => leaf_key l = key /\ holds n key (leaf_value l)
    | None => forall v, ~ holds n key v
    end /\
    match n' with
    | Some n' => art_ok K p n' /\ forgets n n' key
    | None => exists l, n = Leaf l /\ leaf_key l = key
    end.

Lemma forgets_none n key : (forall v, ~ holds n key v) -> forgets n n key.
Proof. intros Hno k v. split; [|by intros [_ ?]]. intros Hh. split; [|done]. intros ->. by apply (Hno v). Qed.

Lemma delete_unchanged K p n key : art_ok K p n -> (forall v, ~ holds n key v) -> delete_result K p n key (Some (Some n, None)).
Proof. intros Hok Hno. exists (Some n), None. split; [done|]. split; [done|]. split; [done|by apply forgets_none]. Qed.

(** ** A node that gives way to its last child *)

Lemma rd_singleton {A} (x : A) i : [x].[i] = if i =? 0 then Some x else None.
Proof. destruct (Z.eqb_spec i 0) as [->|]; [done|]. apply rd_None. change (zlen [x]) with 1. lia. Qed.

Lemma joins_stores h q c hd hd' q' : stores h q -> stores hd q' -> joins h c hd hd' -> stores hd' (q ++ [c] ++ q').
Proof.
  intros ([_ H0] & Hl & Hp) ([_ H0'] & Hl' & Hp') (El & Ez & _ & Er). pose proof (zlen_nonneg q). pose proof (zlen_nonneg q').
  assert (Eq : zlen (q ++ [c] ++ q') = zlen q + 1 + zlen q') by (rewrite !zlen_app; change (zlen [c]) with 1; lia).
  split; [split; [done|lia]|]. split; [lia|]. rewrite Eq. intros i Hi. rewrite Er, Hl by lia.
  destruct (Z.ltb_spec i (zlen q)); [rewrite rd_app_lt by lia; apply Hp; lia|]. rewrite rd_app_ge by lia. destruct (Z.eqb_spec i (zlen q)) as [->|].
  - rewrite Z.sub_diag. done.
  - rewrite rd_app_ge by (change (zlen [c]) with 1; lia). change (zlen [c]) with 1. apply Hp'. lia.
Qed.

Lemma takes_over_spec K p q type h keys children c ch r : stores h q -> zlen p + zlen q < K -> art_ok K (p ++ q ++ [c]) ch ->
  child_at type h keys children c ch -> takes_over h c ch r ->
  exists n', r = Some n' /\ art_ok K p n' /\ forall k v, holds n' k v <-> holds ch k v.
Proof.
  intros Hs Hlt Hok Hc Ht. inversion Hok as [? l Hl1 Hl2 Hl3|? q' type' hd ks cs Hs' Hl' He' Hlt' Hch']; subst ch; subst.
  - cbn [takes_over] in Ht. exists (Leaf l). split; [done|]. split; [|done]. constructor; [done|done|]. etrans; [|exact Hl3]. by apply prefix_app_r.
  - cbn [takes_over] in Ht. destruct Ht as (hd' & -> & Hj). pose proof Hj as (_ & _ & En & _). eexists. split; [done|]. split.
    + rewrite !zlen_app in Hlt'. change (zlen [c]) with 1 in Hlt'.
      apply (art_ok_inner K p (q ++ [c] ++ q')); [by eapply joins_stores|by eapply layout_header|by eapply enough_header|rewrite !zlen_app; change (zlen [c]) with 1; lia|].
      intros c2 ch2 Hc2%(child_at_header _ _ _ _ _ _ _ En). specialize (Hch' c2 ch2 Hc2). by rewrite <-!app_assoc in *.
    + apply holds_ext. intros c2 ch2. by apply child_at_header.
Qed.

(** Removing the child that holds the key and nothing else. *)
Lemma removal_spec K p q type h keys children key c l r : stores h q -> zlen p + zlen q < K ->
  layout type h keys children -> (forall c ch, child_at type h keys children c ch -> art_ok K (p ++ q ++ [c]) ch) ->
  child_at type h keys children c (Leaf l) -> leaf_key l = key -> (forall v, holds (Inner type h keys children) key v <-> holds (Leaf l) key v) ->
  key.[zlen p + zlen q] = Some c -> removal type h keys children c r ->
  exists n', r = Some n' /\ art_ok K p n' /\ forgets (Inner type h keys children) n' key.
Proof.
  intros Hs Hlt Hl Hch Hc Ek Hkey Hkc Hr.
  pose proof (other_child K p q type h keys children key c Hch Hkc) as Hother.
  assert (Hno : forall k v, holds (Leaf l) k v -> k = key) by (by intros k v [-> _]%holds_leaf_inv).
  destruct Hr as [(type' & h' & keys' & children' & -> & Hl' & He' & Hp' & Hiff)|(c' & ch' & Hne & Hc' & Ht & Honly)].
  - eexists. split; [done|]. split.
    + apply (art_ok_inner K p q); [by eapply stores_same|done|done|done|]. intros c2 ch2 [_ Hc2]%Hiff. by apply Hch.
    + intros k v. split.
      * intros Hh. apply holds_inner_inv in Hh as (c2 & ch2 & [N Hc2]%Hiff & Hh). split; [by eapply Hother|by eapply holds_inner].
      * intros [N Hh]. apply holds_inner_inv in Hh as (c2 & ch2 & Hc2 & Hh). eapply holds_inner; [apply Hiff; split; [|exact Hc2]|done].
        intros ->. apply N. rewrite (child_at_fun _ _ _ _ _ _ _ Hl Hc2 Hc) in Hh. by eapply Hno.
  - destruct (takes_over_spec K p q type h keys children c' ch' r Hs Hlt (Hch c' ch' Hc') Hc' Ht) as (n' & -> & Hok' & Hiff). exists n'. split; [done|]. split; [done|].
    intros k v. rewrite Hiff. split.
    + intros Hh. split; [by eapply Hother|by eapply holds_inner].
    + intros [N Hh]. apply holds_inner_inv in Hh as (c2 & ch2 & Hc2 & Hh). destruct (decide (c2 = c)) as [->|Hne2].
      * destruct N. rewrite (child_at_fun _ _ _ _ _ _ _ Hl Hc2 Hc) in Hh. by eapply Hno.
      * by destruct (Honly c2 ch2 Hne2 Hc2) as [-> ->].
Qed.

(** A child replaced by one that forgets the key. *)
Lemma forgets_child type h keys children children' c ch ch' key : layout type h keys children -> child_at type h keys children c ch ->
  (forall c2 ch2 k v, c2 <> c -> child_at type h keys children c2 ch2 -> holds ch2 k v -> k <> key) ->
  (forall c2 ch2, child_at type h keys children' c2 ch2 <-> (c2 = c /\ ch2 = ch') \/ (c2 <> c /\ child_at type h keys children c2 ch2)) ->
  forgets ch ch' key -> forgets (Inner type h keys children) (Inner type h keys children') key.
Proof.
  intros Hl Hc Hother Hiff Hf k v. split.
  - intros Hh. apply holds_inner_inv in Hh as (c2 & ch2 & Hc2 & Hh). apply Hiff in Hc2 as [[-> ->]|[Hne Hc2]].
    + apply Hf in Hh as [Hk Hh]. split; [done|by eapply holds_inner].
    + split; [by eapply Hother|by eapply holds_inner].
  - intros [Hk Hh]. apply holds_inner_inv in Hh as (c2 & ch2 & Hc2 & Hh). destruct (decide (c2 = c)) as [->|Hne].
    + rewrite (child_at_fun _ _ _ _ _ _ _ Hl Hc2 Hc) in Hh. eapply holds_inner; [apply Hiff; by left|]. by apply Hf.
    + eapply holds_inner; [apply Hiff; by right|done].
Qed.

(** ** recursive_delete *)

Lemma recursive_delete_spec K p n key : art_ok K p n -> zlen key = K -> Forall byte key -> delete_result K p n key (recursive_delete n key (zlen p)).
Proof.
  intros Hok. induction Hok as [p l Hl1 Hl2 Hl3|p q type h keys children Hs Hl He Hlt Hch IH]; intros Hz Hb; cbn [recursive_delete].
  - rewrite leaf_matches_spec. destruct (bool_decide_reflect (leaf_key l = key)) as [Ek|Hne].
    + exists None, (Some l). split; [done|]. split; [split; [done|rewrite <-Ek; constructor]|by exists l].
    + apply delete_unchanged; [by constructor|]. by intros v [-> _]%holds_leaf_inv.
  - assert (Hok : art_ok K p (Inner type h keys children)) by (by apply (art_ok_inner K p q)). pose proof (zlen_nonneg p). pose proof (zlen_nonneg q).
    destruct (prefix_misses_spec h p q key Hs) as (miss & E & Hmiss); [lia|]. unfold prefix_misses in E. rewrite E. cbn [mbind option_bind]. destruct miss.
    { apply delete_unchanged; [done|]. intros v Hv. destruct (holds_child _ _ _ _ _ _ _ _ _ Hch Hv) as (_ & _ & _ & _ & Hp & _). by apply Hmiss. }
    pose proof Hs as (_ & Hpl & _). rewrite Hpl. cbn zeta. destruct (key_byte K key (zlen p + zlen q) Hz Hb) as (c & Hc & Hbc); [lia|]. rewrite Hc. cbn [mbind option_bind].
    destruct (descend K p q type h keys children key c Hch Hl Hbc Hc) as (child & Ef & Hr). rewrite Ef. cbn [mbind option_bind]. destruct child as [i|].
    2: { apply delete_unchanged; [done|]. intros v. by destruct (Hr (Inner type h keys children) v). }
    destruct Hr as (ch & Hcc & Hx & Hkey). rewrite Hx. cbn [mjoin option_join mbind option_bind]. destruct ch as [l|type' hd ks cs].
    + rewrite leaf_matches_spec. destruct (bool_decide_reflect (leaf_key l = key)) as [Ek|Hne].
      * assert (Hrem : removal type h keys children c (remove_child type h keys children c i)).
        { eapply remove_child_spec; [done|done|by destruct Hs| |done|done]. intros c2 t2 hd2 ks2 cs2 Hc2. apply Hch in Hc2. inversion Hc2; subst.
          match goal with H : stores hd2 _ |- _ => by destruct H end. }
        destruct (removal_spec K p q type h keys children key c l _ Hs Hlt Hl Hch Hcc Ek Hkey Hc Hrem) as (n' & -> & Hok' & Hf). cbn [mbind option_bind].
        exists (Some n'), (Some l). split; [done|]. split; [|done]. split; [done|]. apply Hkey. rewrite <-Ek. constructor.
      * apply delete_unchanged; [done|]. intros v Hv%Hkey. by apply holds_leaf_inv in Hv as [-> _].
    + destruct (IH c _ Hcc Hz Hb) as (ch' & l & Er & Hfound & Hleft). rewrite !zlen_app in Er. change (zlen [c]) with 1 in Er. rewrite (below_eq _ _ _ _ Hx).
      replace (zlen p + zlen q + 1) with (zlen p + (zlen q + 1)) by lia. rewrite Er. cbn [mbind option_bind]. destruct ch' as [ch'|]; [|by destruct Hleft as (? & ? & _)].
      destruct Hleft as [Hok' Hf]. destruct (wr_in children i (Some ch')) as [children' Hw]; [by apply rd_Some in Hx|]. rewrite Hw. cbn [mbind option_bind].
      destruct (set_child_spec type h keys children c _ i ch' children' Hl Hcc Ef Hw) as (Hl' & He' & Hiff).
      exists (Some (Inner type h keys children')), l. split; [done|]. split.
      * destruct l as [l|]; [destruct Hfound as [Ek Hh]; split; [done|by eapply holds_inner]|]. intros v Hv%Hkey. by apply (Hfound v).
      * split; [apply (art_ok_inner K p q); [done|done|by apply He'|done|]; intros c2 ch2 [[-> ->]|[_ Hc2]]%Hiff; [done|by apply Hch]|].
        eapply forgets_child; [done|exact Hcc| |done|done]. by eapply other_child.
Qed.
