(* ===== verification/ArtIter.v ===== *)
(** * ART: iteration (competitor/art/src/src/art.c)

    Iterating over a node calls back for every key below it, once, until a call asks
    to stop. *)

From stdpp Require Import list_numbers.
From S2P Require Import Prelude Words ArtNode ArtLayout ArtAdd ArtRemove ArtTree ArtInv.
Local Open Scope Z_scope.
Local Open Scope cxx_scope.

(** Calling back for a list of entries. *)
Section visit.
Context {D : Type} (cb : D -> list Z -> Z -> D * Z).

Fixpoint visit (entries : list (list Z * Z)) (data : D) : D * Z :=
  match entries with
  | [] => (data, 0)
  | (k, v) :: entries => let '(data, res) := cb data k v in if res =? 0 then visit entries data else (data, res)
  end.

Lemma visit_app l1 l2 data : visit (l1 ++ l2) data = let '(data', res) := visit l1 data in if res =? 0 then visit l2 data' else (data', res).
Proof.
  revert data. induction l1 as [|[k v] l1 IH]; intros data; [done|]. cbn [app visit]. destruct (cb data k v) as [data' res] eqn:E.
  destruct (Z.eqb_spec res 0); [apply IH|]. by destruct (Z.eqb_spec res 0).
Qed.

(** The entries of each slot in turn. *)
Definition slot_entries (g : Z -> list (list Z * Z)) (i hi : Z) : list (list Z * Z) := concat (List.map g (seqZ i (hi - i))).

Lemma slot_entries_step g i hi : i < hi -> slot_entries g i hi = g i ++ slot_entries g (i + 1) hi.
Proof. intros Hi. unfold slot_entries. rewrite seqZ_cons by lia. cbn [List.map concat]. by replace (Z.pred (hi - i)) with (hi - (i + 1)) by lia. Qed.

Lemma slot_entries_end g hi : slot_entries g hi hi = [].
Proof. unfold slot_entries. by rewrite Z.sub_diag. Qed.

Lemma iter_slots_spec fs slot hi g data : 0 <= hi ->
  (forall i, 0 <= i < hi -> (slot i = Some None /\ g i = []) \/ exists j f, slot i = Some (Some j) /\ fs.[j] = Some f /\ forall d, f d = Some (visit (g i) d)) ->
  iter_slots fs slot hi data = Some (visit (slot_entries g 0 hi) data).
Proof.
  intros H0 Hg. unfold iter_slots. match goal with |- context [loop ?fl ?body _] =>
    destruct (loop_spec (fun '(i, d) => 0 <= i <= hi /\ visit (slot_entries g i hi) d = visit (slot_entries g 0 hi) data)
      (fun r => r = visit (slot_entries g 0 hi) data) (fun '(i, _) => hi - i) body) with (fuel := fl) (s := (0, data)) as (r & -> & ->) end; [|split; [lia|done]|lia|lia|done].
  intros [i d] [Hi E]. destruct (Z.ltb_spec i hi).
  - rewrite slot_entries_step in E by done. destruct (Hg i) as [[-> Eg]|(j & f & Es & Ef & Hf)]; [lia|..].
    + cbn [mbind option_bind]. rewrite Eg in E. split; [|lia]. split; [lia|done].
    + rewrite Es. cbn [mbind option_bind]. rewrite Ef. cbn [mbind option_bind]. rewrite Hf. cbn [mbind option_bind]. rewrite visit_app in E. destruct (visit (g i) d) as [d' res]. destruct (res =? 0); [|done].
      split; [|lia]. split; [lia|done].
  - assert (i = hi) as -> by lia. by rewrite slot_entries_end in E.
Qed.
End visit.

(** ** The entries below a node *)

(** The slots the loops run over and the index they read from each. *)
Definition slot_count (type : node_type) (h : art_header) : Z := match type with NODE4 | NODE16 => num_children h | NODE48 | NODE256 => 256 end.

Definition slot_index (type : node_type) (keys : list Z) (children : children_array) (i : Z) : option (option Z) :=
  match type with
  | NODE4 | NODE16 => Some (Some i)
  | NODE48 => k ← keys.[i]; Some (if k =? 0 then None else Some (k - 1))
  | NODE256 => ch ← children.[i]; Some (match ch with Some _ => Some i | None => None end)
  end.

(** What a map over the children has at slot [i]. *)
Definition at_slot {A} (type : node_type) (keys : list Z) (children : children_array) (l : list (list A)) (i : Z) : list A :=
  match slot_index type keys children i with Some (Some j) => at_ [] l j | _ => [] end.

Fixpoint entries (n : art_node) : list (list Z * Z) :=
  match n with
  | Leaf l => [(leaf_key l, leaf_value l)]
  | Inner type h keys children =>
      let l := List.map (fun o => match o with Some ch => entries ch | None => [] end) children in
      slot_entries (at_slot type keys children l) 0 (slot_count type h)
  end.

(** A slot is skipped or has the child of its byte. *)
Lemma slot_spec type h keys children i : layout type h keys children -> 0 <= i < slot_count type h ->
  slot_index type keys children i = Some None \/
  exists j c ch, slot_index type keys children i = Some (Some j) /\ children.[j] = Some (Some ch) /\ child_at type h keys children c ch /\
    c = match type with NODE4 | NODE16 => at_ 0 keys i | _ => i end.
Proof.
  intros Hl Hi. destruct type; cbn [layout slot_count slot_index child_at] in *.
  - right. destruct (ao_slot _ _ _ _ Hl i Hi) as (k & ch & Hk & _ & Hx). exists i, k, ch. split; [done|]. split; [done|]. split; [by exists i|by rewrite (at_rd 0 _ _ _ Hk)].
  - right. destruct (ao_slot _ _ _ _ Hl i Hi) as (k & ch & Hk & _ & Hx). exists i, k, ch. split; [done|]. split; [done|]. split; [by exists i|by rewrite (at_rd 0 _ _ _ Hk)].
  - destruct (rd_in keys i) as [k Hk]; [by rewrite (io_keys _ _ _ Hl)|]. rewrite Hk. cbn [mbind option_bind]. destruct (Z.eqb_spec k 0); [by left|]. right.
    destruct (io_slot _ _ _ Hl i k Hk) as (_ & ch & Hx); [done|]. exists (k - 1), i, ch. split; [done|]. split; [done|]. split; [by exists k|done].
  - destruct (rd_in children i) as [[ch|] Hx]; [by rewrite (do_children _ _ Hl)|..]; rewrite Hx; cbn [mbind option_bind]; [right|by left]. by exists i, i, ch.
Qed.

Lemma slot_of_child type h keys children c ch : layout type h keys children -> child_at type h keys children c ch ->
  exists i j, 0 <= i < slot_count type h /\ slot_index type keys children i = Some (Some j) /\ children.[j] = Some (Some ch).
Proof.
  intros Hl Hc. pose proof (child_at_byte _ _ _ _ _ _ Hl Hc) as Hb. destruct type; cbn [child_at slot_count slot_index] in *.
  - destruct Hc as (i & Hi & _ & Hx). by exists i, i.
  - destruct Hc as (i & Hi & _ & Hx). by exists i, i.
  - destruct Hc as (k & Hk & Hne & Hx). exists c, (k - 1). rewrite Hk. cbn [mbind option_bind]. by destruct (Z.eqb_spec k 0).
  - exists c, c. by rewrite Hc.
Qed.

Lemma rd_map {A B} (f : A -> B) l i x : l.[i] = Some x -> (List.map f l).[i] = Some (f x).
Proof. unfold rd. destruct (0 <=? i); [|done]. intros H. by rewrite list_lookup_fmap, H. Qed.

(** The entries at a slot with a child. *)
Lemma at_slot_child type keys children i j ch : slot_index type keys children i = Some (Some j) -> children.[j] = Some (Some ch) ->
  at_slot type keys children (List.map (fun o => match o with Some ch => entries ch | None => [] end) children) i = entries ch.
Proof. intros E Hx. unfold at_slot. rewrite E. exact (at_rd [] _ _ _ (rd_map _ _ _ _ Hx)). Qed.

(** [recursive_iter] calls back for the entries of the node in turn. *)
Lemma recursive_iter_spec K p n : art_ok K p n -> forall D (cb : D -> list Z -> Z -> D * Z) data, recursive_iter cb n data = Some (visit cb (entries n) data).
Proof.
  induction 1 as [p l Hl1 Hl2 Hl3|p q type h keys children Hs Hl He Hlt Hch IH]; intros D cb data.
  - cbn [recursive_iter entries visit]. destruct (cb data (leaf_key l) (leaf_value l)) as [d res]. by destruct (Z.eqb_spec res 0) as [->|].
  - transitivity (iter_slots (List.map (fun o => match o with Some ch => recursive_iter cb ch | None => fun data => Some (data, 0) end) children) (slot_index type keys children) (slot_count type h) data);
      [by destruct type|]. cbn [entries]. apply iter_slots_spec.
    + destruct type; cbn [slot_count layout] in *; [pose proof (ao_num _ _ _ _ Hl)|pose proof (ao_num _ _ _ _ Hl)|..]; lia.
    + intros i Hi. destruct (slot_spec type h keys children i Hl Hi) as [E|(j & c & ch & E & Hx & Hc & _)].
      * left. split; [done|]. unfold at_slot. by rewrite E.
      * right. exists j, (recursive_iter cb ch). split; [done|]. split; [exact (rd_map _ _ _ _ Hx)|]. intros d. rewrite (at_slot_child _ _ _ _ _ _ E Hx). by eapply IH.
Qed.

(** ** The entries are the keys below the node, each once *)

Lemma slot_entries_elem g lo hi e : e ∈ slot_entries g lo hi <-> exists i, lo <= i < hi /\ e ∈ g i.
Proof.
  unfold slot_entries. rewrite list_elem_of_In, in_concat. setoid_rewrite in_map_iff. split.
  - intros (l & (i & <- & Hi) & He). apply list_elem_of_In, elem_of_seqZ in Hi. exists i. split; [lia|by apply list_elem_of_In].
  - intros (i & Hi & He). exists (g i). split; [exists i; split; [done|apply list_elem_of_In, elem_of_seqZ; lia]|by apply list_elem_of_In].
Qed.

Lemma entries_elem K p n : art_ok K p n -> forall k v, (k, v) ∈ entries n <-> holds n k v.
Proof.
  induction 1 as [p l Hl1 Hl2 Hl3|p q type h keys children Hs Hl He Hlt Hch IH]; intros k v; cbn [entries].
  - rewrite list_elem_of_singleton. split; [intros [= -> ->]; constructor|by intros [-> ->]%holds_leaf_inv].
  - rewrite slot_entries_elem. split.
    + intros (i & Hi & Hin). destruct (slot_spec type h keys children i Hl Hi) as [E|(j & c & ch & E & Hx & Hc & _)].
      * unfold at_slot in Hin. rewrite E in Hin. by apply elem_of_nil in Hin.
      * rewrite (at_slot_child _ _ _ _ _ _ E Hx) in Hin. eapply holds_inner; [exact Hc|]. by apply (IH c ch Hc).
    + intros Hh. apply holds_inner_inv in Hh as (c & ch & Hc & Hh). destruct (slot_of_child _ _ _ _ _ _ Hl Hc) as (i & j & Hi & E & Hx).
      exists i. split; [done|]. rewrite (at_slot_child _ _ _ _ _ _ E Hx). by apply (IH c ch Hc).
Qed.

Lemma slot_entries_NoDup g lo hi : (forall i, lo <= i < hi -> NoDup (g i).*1) ->
  (forall i j k, lo <= i < hi -> lo <= j < hi -> k ∈ (g i).*1 -> k ∈ (g j).*1 -> i = j) -> NoDup (slot_entries g lo hi).*1.
Proof.
  intros Hn Hd. destruct (Z.le_gt_cases hi lo).
  { unfold slot_entries. rewrite seqZ_nil by lia. constructor. }
  remember (Z.to_nat (hi - lo)) as m eqn:Em. revert lo Hn Hd H Em. induction m as [|m IH]; intros lo Hn Hd Hlt Em; [lia|].
  rewrite slot_entries_step, fmap_app by lia. apply list.NoDup_app. split; [apply Hn; lia|]. split.
  - intros k Hk Hk'. apply list_elem_of_fmap in Hk' as (e & -> & He). apply slot_entries_elem in He as (i & Hi & He).
    assert (lo = i); [|lia]. eapply Hd; [lia|lia|exact Hk|by apply list_elem_of_fmap_2].
  - destruct (decide (lo + 1 = hi)) as [<-|]; [rewrite slot_entries_end; constructor|]. apply IH; [intros i Hi; apply Hn; lia|intros i j k Hi Hj; apply Hd; lia|lia|lia].
Qed.

Lemma entries_NoDup K p n : art_ok K p n -> NoDup (entries n).*1.
Proof.
  induction 1 as [p l Hl1 Hl2 Hl3|p q type h keys children Hs Hl He Hlt Hch IH]; cbn [entries]; [apply NoDup_singleton|].
  assert (Hpath : forall i k, 0 <= i < slot_count type h ->
    k ∈ (at_slot type keys children (List.map (fun o => match o with Some ch => entries ch | None => [] end) children) i).*1 ->
    slot_index type keys children i <> Some None /\ k.[zlen p + zlen q] = Some (match type with NODE4 | NODE16 => at_ 0 keys i | _ => i end)).
  { intros i k Hi Hk. destruct (slot_spec type h keys children i Hl Hi) as [E|(j & c & ch & E & Hx & Hc & Ec)].
    - unfold at_slot in Hk. rewrite E in Hk. by apply elem_of_nil in Hk.
    - rewrite (at_slot_child _ _ _ _ _ _ E Hx) in Hk. split; [congruence|]. rewrite <-Ec. apply list_elem_of_fmap in Hk as ([k' v] & -> & Hk).
      apply (entries_elem _ _ _ (Hch c ch Hc)) in Hk. destruct (holds_path _ _ _ _ _ (Hch c ch Hc) Hk) as (Hp & _). cbn [fst].
      rewrite (rd_prefix _ _ _ Hp) by (rewrite !zlen_app; change (zlen [c]) with 1; lia). pose proof (zlen_nonneg p). pose proof (zlen_nonneg q).
      rewrite rd_app_ge by lia. rewrite rd_app_ge by lia. by replace (zlen p + zlen q - zlen p - zlen q) with 0 by lia. }
  apply slot_entries_NoDup.
  - intros i Hi. destruct (slot_spec type h keys children i Hl Hi) as [E|(j & c & ch & E & Hx & Hc & _)].
    + unfold at_slot. rewrite E. constructor.
    + rewrite (at_slot_child _ _ _ _ _ _ E Hx). by apply (IH c).
  - intros i j k Hi Hj Hki Hkj. destruct (Hpath i k Hi Hki) as [_ Ei], (Hpath j k Hj Hkj) as [_ Ej]. rewrite Ei in Ej. injection Ej as Ej.
    destruct type; cbn [layout slot_count] in *; [| |done..];
      destruct (ao_slot _ _ _ _ Hl i Hi) as (ki & _ & Eki & _), (ao_slot _ _ _ _ Hl j Hj) as (kj & _ & Ekj & _);
      rewrite (at_rd 0 _ _ _ Eki), (at_rd 0 _ _ _ Ekj) in Ej; subst; by eapply (ao_inj _ _ _ _ Hl).
Qed.
