(* ===== verification/ArtMap.v ===== *)
(** * ART: the tree as a map (competitor/art/src/src/art.c)

    Over keys of one length the operations of the tree are those of a finite map:
    [art_refines_map] for any sequence of them from the empty tree, [art_iter_visits]
    for iteration. *)

From stdpp Require Import gmap list.
From S2P Require Import Prelude Words ArtNode ArtLayout ArtAdd ArtRemove ArtTree ArtInv ArtInsert ArtIter.
Local Open Scope Z_scope.
Local Open Scope cxx_scope.

Definition key_ok (K : Z) (key : list Z) : Prop := zlen key = K /\ Forall byte key.

(** The map a tree stands for. *)
Definition art_rep (K : Z) (t : art_tree) (m : gmap (list Z) Z) : Prop :=
  match root t with
  | None => m = ∅
  | Some n => art_ok K [] n /\ forall k v, holds n k v <-> m !! k = Some v
  end /\ art_size t = Z.of_nat (size m) mod 2 ^ 64.

(** The pointer for a key: null when there is none. *)
Definition value_of (m : gmap (list Z) Z) (key : list Z) : Z := default 0 (m !! key).

Lemma art_init_rep K : art_rep K art_tree_init ∅.
Proof. split; [done|]. by rewrite map_size_empty. Qed.

Lemma map_eq_holds (n : art_node) (m m' : gmap (list Z) Z) : (forall k v, holds n k v <-> m !! k = Some v) -> (forall k v, m !! k = Some v <-> m' !! k = Some v) ->
  forall k v, holds n k v <-> m' !! k = Some v.
Proof. intros H1 H2 k v. by rewrite H1, H2. Qed.

Lemma art_search_rep K t m key : art_rep K t m -> key_ok K key -> art_search t key = Some (value_of m key).
Proof.
  intros [Hr _] [Hz Hb]. destruct (art_search_spec K t key (fun v => m !! key = Some v) Hz Hb) as (r & E & Hf).
  - cbn [at_node]. destruct (root t) as [n|]; [|by subst m; intros v; rewrite lookup_empty]. destruct Hr as [Hok Hm]. exists []. split; [done|]. split; [done|]. intros v. by rewrite Hm.
  - rewrite E. f_equal. unfold value_of. destruct Hf as [->|[Hno ->]]; [done|]. destruct (m !! key) as [v|]; [by destruct (Hno v)|done].
Qed.

(** The counter of keys. *)
Lemma size_up (m : gmap (list Z) Z) key v : m !! key = None -> (Z.of_nat (size m) mod 2 ^ 64 + 1) mod 2 ^ 64 = Z.of_nat (size (<[key := v]> m)) mod 2 ^ 64.
Proof. intros Hm. rewrite map_size_insert_None by done. rewrite Zplus_mod_idemp_l. f_equal. lia. Qed.

Lemma size_down (m : gmap (list Z) Z) key v : m !! key = Some v -> (Z.of_nat (size m) mod 2 ^ 64 - 1) mod 2 ^ 64 = Z.of_nat (size (delete key m)) mod 2 ^ 64.
Proof.
  intros Hm. rewrite map_size_delete, Hm. assert (size m <> 0)%nat. { intros E%map_size_empty_iff. by rewrite E, lookup_empty in Hm. }
  rewrite Zminus_mod_idemp_l. f_equal. lia.
Qed.

(** What an insertion leaves. *)
Definition insert_map (replace : bool) (m : gmap (list Z) Z) (key : list Z) (value : Z) : gmap (list Z) Z :=
  match m !! key with
  | Some _ => if replace then <[key := value]> m else m
  | None => <[key := value]> m
  end.

Lemma insert_with_rep K replace t m key value : art_rep K t m -> key_ok K key ->
  exists t', insert_with replace t key value = Some (t', value_of m key) /\ art_rep K t' (insert_map replace m key value).
Proof.
  intros [Hr Hsz] [Hz Hb]. unfold insert_with, insert_map, value_of. destruct (root t) as [n|].
  - destruct Hr as [Hok Hm]. destruct (recursive_insert_spec K [] n key value replace Hok (prefix_nil _) Hz Hb) as (n' & r & old & E & Hok' & Hres).
    change (zlen (A:=Z) []) with 0 in E. rewrite E. cbn [mbind option_bind]. destruct Hres as [(-> & Hh & Hmap)|(-> & -> & Hno & Hmap)]; eexists.
    + pose proof (proj1 (Hm _ _) Hh) as Hk. rewrite Hk. split; [done|]. split.
      2: { cbn [art_size]. destruct replace; [|exact Hsz]. rewrite map_size_insert_Some by (by eexists). exact Hsz. }
      cbn [root]. split; [done|]. intros k v. rewrite (Hmap k v), Hm. destruct replace.
      * rewrite lookup_insert_Some. split; [intros [[-> ->]|[? ?]]; [by left|by right]|intros [[<- <-]|[? ?]]; [by left|by right]].
      * split; [by intros [[-> ->]|[_ ?]]|]. intros Hkv. destruct (decide (k = key)) as [->|]; [left; split; [done|congruence]|by right].
    + assert (Hk : m !! key = None) by (destruct (m !! key) as [v|] eqn:Hk; [destruct (Hno v); by apply Hm|done]). rewrite Hk. split; [done|].
      split; [|cbn [art_size]; rewrite Hsz; by apply size_up]. cbn [root]. split; [done|]. intros k v. rewrite (Hmap k v), Hm, lookup_insert_Some.
      split; [intros [[-> ->]|[? ?]]; [by left|by right]|intros [[<- <-]|[? ?]]; [by left|by right]].
  - subst m. rewrite lookup_empty. cbn [mbind option_bind]. eexists. split; [done|]. split; [|cbn [art_size]; rewrite Hsz; by apply size_up].
    cbn [root]. split; [by apply new_leaf_ok; [| |apply prefix_nil]|]. intros k v. rewrite insert_empty, lookup_singleton_Some. split.
    + intros Hh. by apply holds_leaf_inv in Hh as [-> ->].
    + intros [<- <-]. apply (holds_leaf (mkLeaf key value)).
Qed.

Lemma art_delete_rep K t m key : art_rep K t m -> key_ok K key ->
  exists t', art_delete t key = Some (t', value_of m key) /\ art_rep K t' (delete key m).
Proof.
  intros [Hr Hsz] [Hz Hb]. unfold art_delete, value_of. destruct (root t) as [n|] eqn:Et.
  - destruct Hr as [Hok Hm]. destruct (recursive_delete_spec K [] n key Hok Hz Hb) as (n' & l & E & Hl & Hn'). change (zlen (A:=Z) []) with 0 in E. rewrite E. cbn [mbind option_bind].
    assert (Hrep : match n' with None => delete key m = ∅ | Some n' => art_ok K [] n' /\ forall k v, holds n' k v <-> delete key m !! k = Some v end).
    { destruct n' as [n'|].
      - destruct Hn' as [Hok' Hf]. split; [done|]. intros k v. rewrite (Hf k v), Hm, lookup_delete_Some. split; intros [? ?]; (split; [congruence|done]).
      - destruct Hn' as (l' & -> & Ek). apply map_empty. intros k. rewrite lookup_delete_None. destruct (decide (key = k)) as [|Hne]; [by left|]. right.
        destruct (m !! k) as [v|] eqn:Hk; [|done]. apply Hm, holds_leaf_inv in Hk as [-> _]. done. }
    destruct l as [l|].
    + destruct Hl as [_ Hh%Hm]. rewrite Hh. eexists. split; [done|]. split; [done|]. cbn [art_size]. rewrite Hsz. by eapply size_down.
    + assert (Hk : m !! key = None) by (destruct (m !! key) as [v|] eqn:Hk; [destruct (Hl v); by apply Hm|done]). rewrite Hk. eexists. split; [done|]. split; [done|].
      cbn [art_size]. by rewrite delete_id.
  - subst m. rewrite lookup_empty. exists t. split; [done|]. rewrite delete_empty. split; [by rewrite Et|done].
Qed.

(** ** Any sequence of operations *)

Inductive ArtOp := OSearch (key : list Z) | OInsert (key : list Z) (value : Z) | OInsertNoReplace (key : list Z) (value : Z) | ODelete (key : list Z).

Definition op_key (o : ArtOp) : list Z := match o with OSearch key | OInsert key _ | OInsertNoReplace key _ | ODelete key => key end.

(** An operation of the tree and the pointer it returns. *)
Definition exec_art (t : art_tree) (o : ArtOp) : option (art_tree * Z) :=
  match o with
  | OSearch key => v ← art_search t key; Some (t, v)
  | OInsert key value => art_insert t key value
  | OInsertNoReplace key value => art_insert_no_replace t key value
  | ODelete key => art_delete t key
  end.

Fixpoint exec_arts (t : art_tree) (os : list ArtOp) : option (art_tree * list Z) :=
  match os with
  | [] => Some (t, [])
  | o :: os => '(t, r) ← exec_art t o; '(t, rs) ← exec_arts t os; Some (t, r :: rs)
  end.

(** The operations of a map; each returns the value the key had. *)
Definition map_op (m : gmap (list Z) Z) (o : ArtOp) : gmap (list Z) Z :=
  match o with
  | OSearch _ => m
  | OInsert key value => <[key := value]> m
  | OInsertNoReplace key value => match m !! key with Some _ => m | None => <[key := value]> m end
  | ODelete key => delete key m
  end.

Fixpoint map_ops (m : gmap (list Z) Z) (os : list ArtOp) : gmap (list Z) Z * list Z :=
  match os with
  | [] => (m, [])
  | o :: os => let '(m', rs) := map_ops (map_op m o) os in (m', value_of m (op_key o) :: rs)
  end.

Lemma exec_art_rep K t m o : art_rep K t m -> key_ok K (op_key o) ->
  exists t', exec_art t o = Some (t', value_of m (op_key o)) /\ art_rep K t' (map_op m o).
Proof.
  intros Ht Hk. destruct o as [key|key value|key value|key]; cbn [exec_art op_key map_op] in *.
  - rewrite (art_search_rep K t m key Ht Hk). by exists t.
  - destruct (insert_with_rep K true t m key value Ht Hk) as (t' & E & Ht'). exists t'. split; [done|]. unfold insert_map in Ht'. by destruct (m !! key).
  - destruct (insert_with_rep K false t m key value Ht Hk) as (t' & E & Ht'). exists t'. split; [done|]. unfold insert_map in Ht'. by destruct (m !! key).
  - by apply art_delete_rep.
Qed.

Lemma exec_arts_rep K os : forall t m, art_rep K t m -> Forall (fun o => key_ok K (op_key o)) os ->
  exists t', exec_arts t os = Some (t', (map_ops m os).2) /\ art_rep K t' (map_ops m os).1.
Proof.
  induction os as [|o os IH]; intros t m Ht Hk; cbn [exec_arts map_ops]; [by exists t|]. apply Forall_cons_1 in Hk as [Ho Hk].
  destruct (exec_art_rep K t m o Ht Ho) as (t1 & -> & Ht1). cbn [mbind option_bind]. destruct (IH t1 _ Ht1 Hk) as (t' & -> & Ht'). cbn [mbind option_bind].
  exists t'. by destruct (map_ops (map_op m o) os).
Qed.

(** C9: from the empty tree, any sequence of searches, insertions with and without
    replacement and deletions over keys of one length ends without undefined
    behaviour, through all changes of layout, splits and joins of compressed paths, and
    every operation returns the value the key had in a finite map, or null; the tree
    ends up standing for that map, and its size is the number of keys. *)
Theorem art_refines_map K os : Forall (fun o => key_ok K (op_key o)) os ->
  exists t, exec_arts art_tree_init os = Some (t, (map_ops ∅ os).2) /\ art_rep K t (map_ops ∅ os).1.
Proof. intros Hk. apply exec_arts_rep; [apply art_init_rep|done]. Qed.

(** ** Iteration *)

Lemma art_iter_rep K t m : art_rep K t m -> exists l, Permutation l (map_to_list m) /\
  forall D (cb : D -> list Z -> Z -> D * Z) data, art_iter cb t data = Some (visit cb l data).
Proof.
  intros [Hr _]. unfold art_iter. destruct (root t) as [n|].
  - destruct Hr as [Hok Hm]. exists (entries n). split; [|intros; by eapply recursive_iter_spec]. apply NoDup_Permutation.
    + eapply NoDup_fmap_1, entries_NoDup, Hok.
    + apply NoDup_map_to_list.
    + intros [k v]. by rewrite elem_of_map_to_list, (entries_elem _ _ _ Hok), Hm.
  - subst m. exists []. split; [by rewrite map_to_list_empty|done].
Qed.

(** C10: after any such sequence of operations, iteration calls back once for every
    key of the map with its value, and for nothing else, until a call returns a
    non-zero result, which it returns. *)
Theorem art_iter_visits K os : Forall (fun o => key_ok K (op_key o)) os ->
  exists t rs l, exec_arts art_tree_init os = Some (t, rs) /\ Permutation l (map_to_list (map_ops ∅ os).1) /\
    forall D (cb : D -> list Z -> Z -> D * Z) data, art_iter cb t data = Some (visit cb l data).
Proof.
  intros Hk. destruct (exec_arts_rep K os _ _ (art_init_rep K) Hk) as (t & E & Ht). destruct (art_iter_rep K t _ Ht) as (l & Hl & Hi). by exists t, (map_ops ∅ os).2, l.
Qed.

(** ** Examples *)

Module ArtDemo.

(** Keys of four bytes with a common first half. *)
Definition demo_key (x : Z) : list Z := [7; 7; x; 2 * x mod 256].

(** Enough insertions and deletions to go through all layouts and back. *)
Definition demo_ops : list ArtOp :=
  ((fun n => OInsert (demo_key (Z.of_nat n)) (Z.of_nat n + 1)) <$> seq 0 60) ++ [OInsertNoReplace (demo_key 5) 9; OInsert (demo_key 6) 9; OInsert [7; 9; 0; 0] 3; OSearch (demo_key 6)] ++
  ((fun n => ODelete (demo_key (Z.of_nat n))) <$> seq 1 58) ++ [OSearch (demo_key 1); OSearch (demo_key 59)].

Lemma demo_ops_ok : Forall (fun o => key_ok 4 (op_key o)) demo_ops.
Proof.
  apply (bool_decide_unpack (Forall (fun o => zlen (op_key o) = 4 /\ Forall (fun c => 0 <= c /\ c < 256) (op_key o)) demo_ops)). vm_compute. exact I.
Qed.

Lemma art_refines_map_witness : Forall (fun o => key_ok 4 (op_key o)) demo_ops /\
  exists t, exec_arts art_tree_init demo_ops = Some (t, (map_ops ∅ demo_ops).2) /\ art_rep 4 t (map_ops ∅ demo_ops).1.
Proof. split; [exact demo_ops_ok|]. apply (art_refines_map 4 demo_ops demo_ops_ok). Defined.

Lemma art_iter_visits_witness : Forall (fun o => key_ok 4 (op_key o)) demo_ops /\
  exists t rs l, exec_arts art_tree_init demo_ops = Some (t, rs) /\ Permutation l (map_to_list (map_ops ∅ demo_ops).1) /\
    forall D (cb : D -> list Z -> Z -> D * Z) data, art_iter cb t data = Some (visit cb l data).
Proof. split; [exact demo_ops_ok|]. apply (art_iter_visits 4 demo_ops demo_ops_ok). Defined.

(** The values the last operations return. *)
Lemma demo_results : option_map (fun '(_, rs) => drop 60 rs) (exec_arts art_tree_init demo_ops) =
  Some ([6; 7; 0; 9] ++ ((fun n => if n =? 6 then 9 else n + 1) ∘ Z.of_nat <$> seq 1 58) ++ [0; 60]).
Proof. vm_compute. reflexivity. Qed.

(** The order of a NODE16 is that of signed bytes: 200 is before 1. *)
Definition sixteen_order : list Z := [2; 3; 4; 5; 1; 200].

Lemma signed_order :
  option_map (fun '(t, _) => option_map fst (art_iter (fun d k _ => (d ++ [k], 0)) t [])) (exec_arts art_tree_init ((fun c => OInsert [c] 1) <$> sixteen_order)) =
    Some (Some [[200]; [1]; [2]; [3]; [4]; [5]]) /\
  option_map (fun '(t, _) => root t ≫= minimum) (exec_arts art_tree_init ((fun c => OInsert [c] 1) <$> sixteen_order)) = Some (Some (mkLeaf [200] 1)).
Proof. split; vm_compute; reflexivity. Qed.

(** [art_iter_prefix] reads past a prefix that leaves the compressed path of a node
    in the middle. *)
Lemma iter_prefix_reads_past :
  option_map (fun '(t, _) => art_iter_prefix (fun d k _ => (d ++ [k], 0)) t [1; 2; 9] []) (exec_arts art_tree_init [OInsert [1; 2; 3; 4; 5] 1; OInsert [1; 2; 3; 4; 6] 1]) = Some None.
Proof. vm_compute. reflexivity. Qed.

(** After a deletion from a NODE4 of three leaves the slot of the last one still
    counts: 56 + 3 * (16 + 1) bytes instead of 56 + 2 * (16 + 1). *)
Lemma stale_slot_counts :
  option_map (fun '(t, _) => art_tree_size t) (exec_arts art_tree_init [OInsert [1] 1; OInsert [2] 1; OInsert [3] 1; ODelete [3]]) = Some (16 + 56 + 3 * 17).
Proof. vm_compute. reflexivity. Qed.

End ArtDemo.
