(* ===== verification/ArtIndex.v ===== *)
(** * ART as an index (competitor/art/art.h)

    The adapter turns a 64-bit key into its eight bytes, the most significant first,
    and stores payloads as pointers.  [art_lawful] discharges the laws of the
    benchmark for payloads other than 0; [null_payload] shows what happens to 0. *)

From stdpp Require Import gmap list sorting.
From S2P Require Import Prelude Words Floats Utils Workload Load Index Run.
From S2P Require Import ArtNode ArtLayout ArtAdd ArtRemove ArtTree ArtInv ArtMap.
Local Open Scope Z_scope.
Local Open Scope cxx_scope.

(** ** Keys *)

(** The [n] bytes of a word in memory, on a little-endian machine. *)
Fixpoint memory_bytes (n : nat) (x : Z) : list Z :=
  match n with O => [] | S n => x mod 256 :: memory_bytes n (x / 256) end.

Fixpoint of_memory (l : list Z) : Z :=
  match l with [] => 0 | b :: l => b + 256 * of_memory l end.

(** [__builtin_bswap64] *)
Definition swap_endian (x : Z) : Z := of_memory (rev (memory_bytes 8 x)).

(** The bytes the adapter passes to the tree. *)
Definition art_key (key : Z) : list Z := memory_bytes 8 (swap_endian key).

Lemma memory_bytes_ok n x : length (memory_bytes n x) = n /\ Forall byte (memory_bytes n x).
Proof.
  revert x. induction n as [|n IH]; intros x; cbn [memory_bytes length]; [by split|]. destruct (IH (x / 256)) as [-> Hb]. split; [done|].
  constructor; [unfold byte; apply Z.mod_pos_bound; lia|done].
Qed.

Lemma memory_of n l : length l = n -> Forall byte l -> memory_bytes n (of_memory l) = l.
Proof.
  revert n. induction l as [|b l IH]; intros n <- Hb; [done|]. apply Forall_cons_1 in Hb as [Hb Hl]. cbn [length memory_bytes of_memory]. unfold byte in Hb.
  replace (b + 256 * of_memory l) with (of_memory l * 256 + b) by lia.
  rewrite Z.add_comm, Z_mod_plus_full, Z.mod_small, Z.div_add, Z.div_small, Z.add_0_l by lia. by rewrite IH.
Qed.

Lemma of_memory_bytes n x : of_memory (memory_bytes n x) = x mod 256 ^ Z.of_nat n.
Proof.
  revert x. induction n as [|n IH]; intros x; cbn [memory_bytes of_memory]; [by rewrite Z.mod_1_r|]. rewrite IH, Nat2Z.inj_succ, Z.pow_succ_r by lia.
  rewrite (Z.rem_mul_r x 256 (256 ^ Z.of_nat n)) by lia. done.
Qed.

(** The key begins with its most significant byte. *)
Lemma art_key_rev key : art_key key = rev (memory_bytes 8 key).
Proof.
  unfold art_key, swap_endian. destruct (memory_bytes_ok 8 key) as [Hl Hb]. apply memory_of; [by rewrite length_rev|by apply Forall_rev].
Qed.

Lemma art_key_ok key : key_ok 8 (art_key key).
Proof.
  rewrite art_key_rev. destruct (memory_bytes_ok 8 key) as [Hl Hb]. split; [unfold zlen; by rewrite length_rev, Hl|by apply Forall_rev].
Qed.

Lemma art_key_inj k k' : word64 k -> word64 k' -> art_key k = art_key k' -> k = k'.
Proof.
  intros Hk Hk' E. rewrite !art_key_rev in E. apply (f_equal (@rev Z)) in E. rewrite !rev_involutive in E. apply (f_equal of_memory) in E.
  rewrite !of_memory_bytes in E. unfold word64 in *. change (256 ^ Z.of_nat 8) with (2 ^ 64) in E. by rewrite !Z.mod_small in E.
Qed.

(** ** The adapter *)

Definition art_get (t : art_tree) (key : Z) : option (option Z) :=
  val_ptr ← art_search t (art_key key);
  Some (if val_ptr =? 0 then None else Some val_ptr).

Definition art_put (t : art_tree) (key value : Z) : option (art_tree * bool) :=
  '(t, r) ← art_insert_no_replace t (art_key key) value; Some (t, r =? 0).

(** The loop counter is an [int]. *)
Definition art_bulk_load (key_value : list (Z * Z)) : option art_tree :=
  if zlen key_value <=? int_max then
    foldl (fun t kv => t ← t; '(t, _) ← art_put t kv.1 kv.2; Some t) (Some art_tree_init) key_value
  else None.

#[export] Instance art_index : Index art_tree := {
  idx_bulk_load := art_bulk_load;
  idx_get t key := val ← art_get t key; Some (t, val);
  idx_put := art_put;
  idx_remove t _ := Some (t, false);
  idx_scan t _ _ := Some (t, [])
}.

(** ** The laws *)

(** The map of the index: that of the tree at the bytes of the keys. *)
Definition art_index_rep (t : art_tree) (m : gmap Z Z) : Prop :=
  (exists bm, art_rep 8 t bm /\ forall k, word64 k -> bm !! art_key k = m !! k) /\ forall k v, m !! k = Some v -> v <> 0.

Lemma art_put_spec t m k v : art_index_rep t m -> word64 k -> v <> 0 ->
  exists t', art_put t k v = Some (t', bool_decide (m !! k = None)) /\ art_index_rep t' (put_map m k v).
Proof.
  intros [(bm & Ht & Hbm) Hnz] Hk Hv. unfold art_put. destruct (insert_with_rep 8 false t bm (art_key k) v Ht (art_key_ok k)) as (t' & E & Ht').
  unfold art_insert_no_replace. rewrite E. cbn [mbind option_bind]. exists t'. unfold insert_map, value_of in *. rewrite Hbm in * by done. unfold put_map.
  destruct (m !! k) as [w|] eqn:Hm; cbn [default from_option id].
  - split; [|split; [by exists bm|done]]. rewrite bool_decide_false by done. do 2 f_equal. apply Z.eqb_neq. by eapply Hnz.
  - split; [by rewrite bool_decide_true|]. split.
    + exists (<[art_key k := v]> bm). split; [done|]. intros k' Hk'. destruct (decide (k = k')) as [->|Hne]; [by rewrite !lookup_insert_eq|].
      rewrite !lookup_insert_ne; [by apply Hbm|done|]. intros Eq. by apply Hne, art_key_inj.
    + intros k' v' [[_ <-]|[_ Hv']]%lookup_insert_Some; [done|by eapply Hnz].
Qed.

Lemma art_get_spec t m k : art_index_rep t m -> word64 k -> art_get t k = Some (m !! k).
Proof.
  intros [(bm & Ht & Hbm) Hnz] Hk. unfold art_get. rewrite (art_search_rep 8 t bm (art_key k) Ht (art_key_ok k)). cbn [mbind option_bind]. unfold value_of. rewrite Hbm by done.
  destruct (m !! k) as [v|] eqn:Hm; cbn [default from_option id]; [|done]. destruct (Z.eqb_spec v 0) as [->|]; [by destruct (Hnz k 0 Hm)|done].
Qed.

Lemma art_index_new : art_index_rep art_tree_init ∅.
Proof. split; [exists ∅; split; [apply art_init_rep|intros k _; by rewrite !lookup_empty]|]. intros k v. by rewrite lookup_empty. Qed.

Definition art_payload (v : Z) : Prop := v <> 0.

#[export] Instance art_store : LawfulStore art_tree.
Proof.
  refine {| idx_rep := art_index_rep; idx_valid := word64; idx_payload := art_payload; idx_limit := int_max |}.
  - unfold art_payload. lia.
  - done.
  - intros kvs Hs Hv Hp Hl.
    destruct (puts_spec art_put art_index_rep word64 art_payload art_put_spec kvs art_tree_init ∅) as (t & E & Ht); [apply art_index_new|done|done|by apply increasing_NoDup_keys|done|].
    exists t. simpl. unfold art_bulk_load. rewrite (proj2 (Z.leb_le _ _) Hl). split; [done|]. by rewrite (right_id_L ∅ (∪)) in Ht.
  - intros t m k v Ht Hk Hm. exists t. simpl. by rewrite (art_get_spec t m k Ht Hk), Hm.
  - intros t m k v Ht Hk Hv Hm _. destruct (art_put_spec t m k v Ht Hk Hv) as (t' & E & Ht'). exists t'.
    rewrite bool_decide_true in E by done. split; [done|]. by rewrite put_map_fresh in Ht'.
  - intros t m k v w Ht Hk Hv Hm. destruct (art_put_spec t m k v Ht Hk Hv) as (t' & E & Ht'). exists t', false, w.
    rewrite bool_decide_false in E by congruence. split; [done|]. split; [|by right]. unfold put_map in Ht'. rewrite Hm in Ht'. by rewrite insert_id.
Defined.

#[export] Instance art_lawful : LawfulIndex art_tree.
Proof.
  split. intros t m low n Ht _ Hn. exists t, []. split; [done|]. split; [done|]. split; [exact Hn|]. split; [constructor|]. intros k v H. by apply elem_of_nil in H.
Qed.

(** ** The payload 0 *)

(** A new key whose payload is 0 is stored, yet reading it reports that it is
    missing, and inserting it once more succeeds again: the null pointer that means
    "not found" is the stored payload. *)
Theorem null_payload t m k : art_index_rep t m -> word64 k -> m !! k = None ->
  exists t1 t2, art_put t k 0 = Some (t1, true) /\ art_get t1 k = Some None /\ art_put t1 k 0 = Some (t2, true) /\ art_size t2 = (art_size t + 1) mod 2 ^ 64.
Proof.
  intros [(bm & Ht & Hbm) _] Hk Hm. assert (Hb : bm !! art_key k = None) by (by rewrite Hbm). pose proof (art_key_ok k) as Hok.
  destruct (insert_with_rep 8 false t bm (art_key k) 0 Ht Hok) as (t1 & E1 & Ht1). unfold insert_map in Ht1. rewrite Hb in Ht1.
  destruct (insert_with_rep 8 false t1 _ (art_key k) 0 Ht1 Hok) as (t2 & E2 & Ht2). unfold insert_map in Ht2. rewrite lookup_insert_eq in Ht2.
  exists t1, t2. unfold art_put, art_get, art_insert_no_replace. rewrite E1, E2. cbn [mbind option_bind]. rewrite (art_search_rep 8 t1 _ (art_key k) Ht1 Hok). cbn [mbind option_bind].
  unfold value_of. rewrite Hb, lookup_insert_eq. cbn [default from_option id]. split; [done|]. split; [done|]. split; [done|].
  destruct Ht2 as [_ ->], Ht as [_ ->]. symmetry. by apply size_up.
Qed.

Lemma null_payload_witness : art_index_rep art_tree_init ∅ /\ word64 5 /\ (∅ : gmap Z Z) !! 5 = None /\
  exists t1 t2, art_put art_tree_init 5 0 = Some (t1, true) /\ art_get t1 5 = Some None /\ art_put t1 5 0 = Some (t2, true) /\
    art_size t2 = (art_size art_tree_init + 1) mod 2 ^ 64.
Proof. split; [exact art_index_new|]. split; [done|]. split; [done|]. apply (null_payload art_tree_init ∅ 5 art_index_new); done. Defined.
